(* ===== verification/_CoqProject ===== *)
-Q . S2P
Prelude.v
Coding.v
Env.v
Crc32c.v
LogWriter.v
LogReader.v
LogCorrect.v
Comparator.v
DbFormat.v
VersionEdit.v
BlockBuilder.v
Block.v
BlockCorrect.v
Format.v
Filter.v
FilterBlock.v
SkipList.v
MemTable.v
Cache.v
Iterator.v
DBIter.v
Version.v
VersionGet.v
VersionBuilder.v
Filename.v
FileSystem.v
MemEnv.v
LogSim.v
DList.v
Snapshot.v
VersionSet.v
Manifest.v
Recovery.v
Compaction.v
CompactionCorrect.v
CompactionLoop.v
CompactionApply.v
WriteBatch.v
MergingIterator.v
TwoLevelIterator.v
BlockIter.v
TableBuilder.v
Table.v
TableCorrect.v
TableRead.v
TableCache.v
Arena.v
DbWrite.v
WriteQueue.v
WriteRun.v
DbRead.v
TableOutput.v
CompactionWork.v
CompactionRun.v
Obsolete.v
Flush.v
LogRecovery.v
Open.v
Repair.v
