(* ===== verification/Prelude.v ===== *)
(** * Verification of the storage engine under [src/leveldb学习]

    The repository is a collection of study notes; its program is LevelDB, an ordered
    key-value store, kept as annotated copies of the source files ([log], [memtable],
    [sstable], [filter], [cache], [manifest], [初始化], [读操作--Get]) next to the full
    source tree ([leveldb]). All paths below are relative to [src/leveldb学习].

    ** The program

    A write goes through a queue of writers: the writer at the front takes the batches of those
    behind it, appends them to a log file as one record and adds them to the memtable, a skip
    list ordered by internal key: the user key, and behind it a sequence number and a type in
    eight bytes. A full memtable is written as a sorted table: blocks of prefix-compressed
    entries, a filter block, an index and a footer, each block with a checksum. The tables are
    arranged in levels; a compaction merges tables of one level into the next and drops entries
    nobody can see. Which tables are live is recorded as version edits in a log of their own, the
    manifest, which [CURRENT] names. A read looks into the memtables and then into tables, through
    a cache, at the sequence number of a snapshot; an iterator over the whole database hides old
    versions and deletions. When a database is opened the manifest is read and the logs it does
    not cover are replayed.

    ** The files

    Encodings and the log:
    - [Prelude]: machine integers, bytes, outcomes (returned, failed assertion, out of fuel)
      and the automation the other files share.
    - [Coding] ([leveldb/util/coding.h], [coding.cc]): fixed-width integers, varints,
      length-prefixed slices.
    - [Env] ([leveldb/status.h], [env.h]): status values; writable and sequential files as
      classes of operations with laws, and in-memory instances of them.
    - [Crc32c] ([leveldb/util/crc32c.cc]): the checksum with its tables, and its reference
      definition as a fold over the bytes.
    - [LogWriter], [LogReader] ([log/log_writer.c], [log/log_reader.c]): the log format;
      [LogCorrect] ties the two together; [LogSim]: readers of different kinds of files that
      return the same bytes return the same records.
    - [Comparator] ([slice.h], [comparator.cc]): the comparator interface with its laws and
      the bytewise comparator; [DbFormat] ([初始化/dbformat.c]): internal keys and their
      comparator, an instance of the same interface over any user comparator.
    - [VersionEdit] ([manifest/version_edit.c]): edits and their encoding.
    - [WriteBatch] ([leveldb/db/write_batch.cc]): batches, their replay and their insertion into
      a memtable.

    Tables:
    - [BlockBuilder], [Block] ([sstable/block_builder.c], [sstable/block.c]): blocks;
      [BlockCorrect] proves the block iterator against a cursor over the entries.
    - [Format] ([sstable/format.c]): block handles, footer, block trailers.
    - [Filter] ([filter/bloom.c], [leveldb/util/hash.cc]), [FilterBlock]
      ([sstable/filter_block.c]): the filter policy interface, bloom filters, filter blocks.
    - [TableBuilder], [Table] ([leveldb/table/table_builder.cc], [table.cc]): tables, written and
      read; [TableCorrect] is about the builder, [TableRead] about what a reader finds in its
      output; [BlockIter]: the block iterator as an instance of the iterator interface.
    - [TableOutput] ([leveldb/db/builder.cc]): a table built from an iterator into a file.

    Memory:
    - [Arena] ([leveldb/util/arena.cc]): the allocator behind a memtable.
    - [SkipList] ([memtable/skiplist.h], [leveldb/util/random.h]): the list, its iterator,
      and one reader that runs while a node is inserted.
    - [MemTable] ([memtable/memtable.c]): the memtable over the skip list.
    - [Cache] ([cache/cache.c]): the LRU cache with its hash table and reference counts;
      [TableCache] ([cache/table_cache.c]): open tables in the cache.
    - [DList]: circular doubly-linked lists; [Snapshot] ([读操作--Get/snapshot.h]): the list of
      snapshots.

    Iterators:
    - [Iterator] ([leveldb/iterator.h]): the iterator interface with its laws, and the
      memtable's iterator as an instance.
    - [TwoLevelIterator], [MergingIterator] ([leveldb/table/two_level_iterator.cc],
      [merger.cc]): instances over other instances.
    - [DBIter] ([初始化/db_iter.c]): the database iterator over any instance of the
      interface.

    The file system:
    - [Filename] ([leveldb/db/filename.cc]): names and numbers of files.
    - [FileSystem] ([leveldb/include/leveldb/env.h], [env.cc]): named files as a class with
      laws; [MemEnv] ([leveldb/helpers/memenv/memenv.cc]): the in-memory environment, an
      instance.

    Versions and compactions ([manifest/version_set.c], [初始化/db_impl.c]):
    - [Version]: the files of a version, which of them overlap a range, the level for a new table;
      [VersionGet]: reading through the levels, against an interface of the table cache;
      [VersionBuilder]: edits applied to a version, against finite maps.
    - [VersionSet]: the versions in use with their reference counts, [LogAndApply], [Recover],
      [NewDB]; [Manifest]: what a manifest on disk says; [Recovery]: memory and disk agree.
    - [Compaction]: the choice of inputs; [CompactionCorrect], [CompactionLoop],
      [CompactionApply]: what is chosen, that choosing ends, and what applying the edit does.
    - [CompactionWork], [CompactionRun]: the merge of the inputs, entry by entry, and that it
      keeps every read.
    - [Obsolete]: the deletion of files nobody needs; [Flush]: saving a full memtable.

    The database ([初始化/db_impl.c]):
    - [DbWrite]: the write path; [WriteQueue]: a specification of it and the simulation;
      [WriteRun]: runs of any number of writers, the background thread and closing.
    - [DbRead]: [DBImpl::Get].
    - [LogRecovery]: the replay of one log; [Open]: [DBImpl::Recover] and [DB::Open].

    ** How code is modelled

    A function of the source is a function here, with the name it has there where that is
    possible (prefixed where two classes use the same name). Objects are records that are
    passed and returned. An [int], [uint32_t], [uint64_t] or [size_t] is a [Z], with [u32]
    and [u64] written where an operation can leave the range of its type. A string or a
    slice is a list of bytes. An assertion of the source is [assert!] and yields
    [AssertFailed] when it is false, as does a read outside of an object. Nodes and entries
    that are linked by pointers live in a store and are named by their index or handle.
    Interfaces (files, comparators, filter policies, iterators, checksum extensions) are
    classes; what an implementation documents is a second class of laws, and the theorems
    on the clients assume the laws only.

    Concurrency is modelled by interleaving: one reader of the skip list with the stores of an
    insertion ([SkipList]), and writers, the background thread and the thread that closes the
    database, each of which runs from one release of the mutex to the next ([WriteRun]).

    Loops that are not structural take fuel. The theorems state that the fuel in the
    definitions is enough: the size of the file for the log reader, of the block for the
    block iterator, the number of nodes and levels for a search in the skip list, of the
    unused entries for an eviction, of the bytes of the entry for read sampling, of files for
    the choice of a compaction. Where fuel is an argument (the database iterator, the merge of a
    compaction, building a table, recovery), more than the number of entries or bytes is enough.

    ** What is proved

    - Encodings: varints, internal keys, version edits, batches, block handles and footers are
      decoded to what was encoded; decoders of arbitrary bytes stay inside their input.
    - Checksums: the strided routine is the bytewise fold, masking is a bijection.
    - The log: what was acknowledged is read back, a log cut at any byte yields its complete
      records and no corruption report, every record returned stands intact in the file,
      reading any file ends.
    - Tables: a block iterator over a built block is a cursor over the entries for every
      sequence of operations; a table built from sorted entries reads back as exactly these,
      through the cache too; opening any bytes as a block and iterating ends; a block read
      with verification stands in the file as the builder writes it; filters have no false
      negatives.
    - The memtable: insertions keep every level of the skip list a sorted chain, also between
      the stores a concurrent reader can observe; a lookup finds the last write a sequence
      number may see; the iterator is a cursor over the sorted entries; the pieces the arena
      hands out are aligned and disjoint.
    - The cache: the reference counts are right for every client, insertions evict in LRU
      order and no more than needed, lookups are exact.
    - Iterators: a merging iterator is a cursor over the union of its children; the database
      iterator, in both directions and across changes of direction, shows exactly the newest
      visible versions that are not deletions.
    - Versions: a read through the levels finds the newest visible entry; the builder implements
      the application of edits to finite maps; reference counts of versions and files are right.
    - The manifest: after any sequence of edits and failures the version that is recovered is that
      of the acknowledged edits, or of these and the one that failed.
    - Compactions: the inputs are closed under overlap, the edit keeps levels disjoint, outputs
      hold the entries of the inputs less those no snapshot can see, so that no read changes.
    - Files: deletion of obsolete files removes nothing that is needed; a memtable is dropped only
      after its entries are in a table of the current version.
    - The write path refines an atomic specification under every interleaving and every failure;
      every entry of the memtable is in a record of the log; every writer can return.
    - [Get] finds the newest visible entry in the memtables and files; opening a database after a
      crash restores exactly what the manifest and the logs hold.

    ** What is not modelled

    The operating system behind the file system interface; the memory orders of atomics; string
    capacities; the accelerated checksum and the compression library, which are parameters;
    printing functions and the information log. Of the implementation of the database: the dispatch
    of background work to the compactions, properties, the destruction of a database and of the
    database object. The rest of the repository (web, crawler, Qt and STL exercises, notes,
    benchmarks, tests, third-party code, the second unannotated copy of files that are modelled from
    their annotated copy) is not part of the engine or repeats it. *)

From stdpp Require Export base numbers list option strings.
From Stdlib Require Export ZArith Lia Sorted.
From Stdlib Require Export Strings.Byte.

#[global] Open Scope Z_scope.
#[global] Set Default Goal Selector "!".

(** ** Machine integers

    A [w]-bit unsigned integer of the source is a [Z]; every operation that can
    leave the range of its type is followed by the wrap-around of that type. *)

Definition u8 (z : Z) : Z := z mod 2 ^ 8.
Definition u32 (z : Z) : Z := z mod 2 ^ 32.
Definition u64 (z : Z) : Z := z mod 2 ^ 64.

(** Conversion to a signed type: two's complement. *)
Definition i32 (z : Z) : Z := (z + 2 ^ 31) mod 2 ^ 32 - 2 ^ 31.
Definition i64 (z : Z) : Z := (z + 2 ^ 63) mod 2 ^ 64 - 2 ^ 63.

(** ** Bytes

    A [char] of the source is a [byte]; [b2z] reads it as [uint8_t] and [z2b] is
    the truncating [static_cast<uint8_t>]. *)

Abbreviation byte := Init.Byte.byte.
Abbreviation bytes := (list Init.Byte.byte).

Definition b2z (b : byte) : Z := Z.of_N (Byte.to_N b).

Definition z2b (z : Z) : byte :=
  match Byte.of_N (Z.to_N (z mod 256)) with
  | Some b => b
  | None => x00
  end.

(** A [char] is signed on the targets the code is built for: widening it to an
    unsigned type sign-extends. *)
Definition schar (b : byte) : Z := if b2z b <? 128 then b2z b else b2z b - 256.

(** ** Sizes and sub-ranges of byte strings, indexed by [Z] *)

Definition zlen {A} (l : list A) : Z := Z.of_nat (length l).
Definition ztake {A} (n : Z) (l : list A) : list A := take (Z.to_nat n) l.
Definition zdrop {A} (n : Z) (l : list A) : list A := drop (Z.to_nat n) l.

(** ** Outcomes

    [Ret a]: the code returns [a].  [AssertFailed]: an [assert] of the source is
    false (or memory outside of an object would be touched).  [OutOfFuel]: the
    fuel given to the model of an unbounded loop was not enough. *)

Inductive outcome (A : Type) : Type :=
| Ret (a : A)
| AssertFailed
| OutOfFuel.
Arguments Ret {A} a.
Arguments AssertFailed {A}.
Arguments OutOfFuel {A}.

Definition obind {A B} (m : outcome A) (f : A -> outcome B) : outcome B :=
  match m with
  | Ret a => f a
  | AssertFailed => AssertFailed
  | OutOfFuel => OutOfFuel
  end.

Definition oassert (b : bool) : outcome unit := if b then Ret tt else AssertFailed.

(** [v[i]] on a vector: an index outside of it touches memory that is not the vector's. *)
Definition vec_at {A} (l : list A) (i : Z) : outcome A :=
  if i <? 0 then AssertFailed
  else match l !! Z.to_nat i with Some x => Ret x | None => AssertFailed end.

Declare Scope outcome_scope.
Delimit Scope outcome_scope with outcome.
Notation "'let!' x := m 'in' k" := (obind m (fun x => k))
  (at level 10, x pattern, m at level 100, k at level 200,
   format "'[v' 'let!'  x  :=  m  'in' '/' k ']'") : outcome_scope.
Notation "'assert!' b ; k" := (obind (oassert b) (fun _ => k))
  (at level 10, b at level 100, k at level 200,
   format "'[v' 'assert!'  b ; '/' k ']'") : outcome_scope.

(** ** Shared automation *)

Create HintDb ldb discriminated.
Create Rewrite HintDb zlen.

Lemma zlen_nil {A} : zlen (@nil A) = 0.
Proof. reflexivity. Qed.

Lemma zlen_cons {A} (x : A) l : zlen (x :: l) = 1 + zlen l.
Proof. unfold zlen. cbn [length]. lia. Qed.

Lemma zlen_app {A} (l k : list A) : zlen (l ++ k) = zlen l + zlen k.
Proof. unfold zlen. rewrite length_app. lia. Qed.

Lemma zlen_nonneg {A} (l : list A) : 0 <= zlen l.
Proof. unfold zlen. lia. Qed.

Lemma zlen_ztake {A} n (l : list A) : zlen (ztake n l) = Z.min (Z.max 0 n) (zlen l).
Proof. unfold zlen, ztake. rewrite length_take. lia. Qed.

Lemma zlen_zdrop {A} n (l : list A) : zlen (zdrop n l) = zlen l - Z.min (Z.max 0 n) (zlen l).
Proof. unfold zlen, zdrop. rewrite length_drop. lia. Qed.

Lemma zlen_replicate {A} n (x : A) : zlen (replicate n x) = Z.of_nat n.
Proof. unfold zlen. rewrite length_replicate. lia. Qed.

#[export] Hint Rewrite @zlen_nil @zlen_cons @zlen_app @zlen_ztake @zlen_zdrop
  @zlen_replicate : zlen.

(** [zlen_lia] normalises sizes everywhere and calls [lia] with the fact that
    every size in sight is non-negative. *)
Ltac zlen_pos :=
  repeat match goal with
  | |- context [zlen ?l] =>
      lazymatch goal with
      | _ : 0 <= zlen l |- _ => fail
      | _ => pose proof (zlen_nonneg l)
      end
  | _ : context [zlen ?l] |- _ =>
      lazymatch goal with
      | _ : 0 <= zlen l |- _ => fail
      | _ => pose proof (zlen_nonneg l)
      end
  end.
Ltac zlen_lia := autorewrite with zlen in *; zlen_pos; lia.

(** [lia] extended to [/] and [mod] by constants. *)
Ltac zdiv_lia := Z.div_mod_to_equations; lia.

Lemma ztake_zdrop {A} n (l : list A) : ztake n l ++ zdrop n l = l.
Proof. apply take_drop. Qed.

Lemma ztake_app_len {A} n (l k : list A) : zlen l = n -> ztake n (l ++ k) = l.
Proof. intros <-. unfold ztake, zlen. rewrite Nat2Z.id. apply take_app_length. Qed.

Lemma zdrop_app_len {A} n (l k : list A) : zlen l = n -> zdrop n (l ++ k) = k.
Proof. intros <-. unfold zdrop, zlen. rewrite Nat2Z.id. apply drop_app_length. Qed.

Lemma ztake_all {A} n (l : list A) : zlen l <= n -> ztake n l = l.
Proof. intros H. unfold ztake, zlen in *. apply take_ge. lia. Qed.

Lemma zdrop_all {A} n (l : list A) : zlen l <= n -> zdrop n l = [].
Proof. intros H. unfold zdrop, zlen in *. apply drop_ge. lia. Qed.

Lemma ztake_0 {A} (l : list A) : ztake 0 l = [].
Proof. reflexivity. Qed.

Lemma zdrop_0 {A} (l : list A) : zdrop 0 l = l.
Proof. reflexivity. Qed.

Lemma zdrop_zdrop {A} n m (l : list A) :
  0 <= n -> 0 <= m -> zdrop n (zdrop m l) = zdrop (m + n) l.
Proof. intros. unfold zdrop. rewrite drop_drop. f_equal. lia. Qed.

Lemma zdrop_app_ge {A} n (l k : list A) : zlen l <= n -> zdrop n (l ++ k) = zdrop (n - zlen l) k.
Proof.
  intros Hn. unfold zdrop, zlen in *. rewrite drop_app_ge by lia. f_equal. lia.
Qed.

Lemma zdrop_app_le {A} n (l k : list A) : n <= zlen l -> zdrop n (l ++ k) = zdrop n l ++ k.
Proof. intros Hn. unfold zdrop, zlen in *. rewrite drop_app_le by lia. done. Qed.

Lemma zdrop_cons {A} n (l : list A) x :
  0 <= n < zlen l -> zdrop n l = nth (Z.to_nat n) l x :: zdrop (n + 1) l.
Proof.
  intros Hn. unfold zlen in Hn.
  destruct (lookup_lt_is_Some_2 l (Z.to_nat n)) as [y Hy]; [lia|].
  unfold zdrop. rewrite nth_lookup, Hy, (drop_S _ _ _ Hy). simpl. do 2 f_equal. lia.
Qed.

Lemma ztake_cons {A} n (x : A) l : 0 <= n -> ztake (1 + n) (x :: l) = x :: ztake n l.
Proof. intros Hn. unfold ztake. by replace (Z.to_nat (1 + n)) with (S (Z.to_nat n)) by lia. Qed.

Lemma nth_ztake {A} (i : nat) n (l : list A) x :
  Z.of_nat i < n -> nth i (ztake n l) x = nth i l x.
Proof.
  intros. unfold ztake. rewrite nth_firstn.
  by destruct (Nat.ltb_spec i (Z.to_nat n)); [|lia].
Qed.

Lemma zlen_0_nil {A} (l : list A) : zlen l = 0 -> l = [].
Proof. destruct l; [done|]. intros. zlen_lia. Qed.

Lemma filter_all {A} (P : A -> Prop) `{forall x, Decision (P x)} l : Forall P l -> filter P l = l.
Proof. induction 1; [done|]. rewrite filter_cons_True by done. by f_equal. Qed.

Lemma filter_none {A} (P : A -> Prop) `{forall x, Decision (P x)} l : Forall (fun x => ~ P x) l -> filter P l = [].
Proof. induction 1; [done|]. by rewrite filter_cons_False. Qed.

(** ** Bytes and integers *)

Lemma b2z_range b : 0 <= b2z b < 256.
Proof.
  unfold b2z. pose proof (Byte.to_N_bounded b). lia.
Qed.
#[export] Hint Resolve b2z_range : ldb.

Lemma z2b_b2z b : z2b (b2z b) = b.
Proof. destruct b; reflexivity. Qed.

Lemma b2z_z2b z : b2z (z2b z) = z mod 256.
Proof.
  unfold z2b, b2z.
  pose proof (Z.mod_pos_bound z 256 ltac:(lia)) as Hb.
  destruct (Byte.of_N (Z.to_N (z mod 256))) as [b|] eqn:E.
  - apply Byte.to_of_N in E. rewrite E. lia.
  - apply Byte.of_N_None_iff in E. lia.
Qed.

Lemma b2z_inj b c : b2z b = b2z c -> b = c.
Proof. intros H. rewrite <- (z2b_b2z b), <- (z2b_b2z c). by rewrite H. Qed.

Lemma b2z_z2b_small z : 0 <= z < 256 -> b2z (z2b z) = z.
Proof. intros. rewrite b2z_z2b. apply Z.mod_small. lia. Qed.

#[global] Instance byte_eq_dec : EqDecision byte := Byte.byte_eq_dec.

Lemma u32_range z : 0 <= u32 z < 2 ^ 32.
Proof. apply Z.mod_pos_bound. lia. Qed.

Lemma u64_range z : 0 <= u64 z < 2 ^ 64.
Proof. apply Z.mod_pos_bound. lia. Qed.

Lemma u32_small z : 0 <= z < 2 ^ 32 -> u32 z = z.
Proof. apply Z.mod_small. Qed.

Lemma u64_small z : 0 <= z < 2 ^ 64 -> u64 z = z.
Proof. apply Z.mod_small. Qed.

#[export] Hint Resolve u32_range u64_range : ldb.

Lemma i64_small z : - 2 ^ 63 <= z < 2 ^ 63 -> i64 z = z.
Proof. intros. unfold i64. rewrite Z.mod_small; lia. Qed.

Lemma i32_small z : - 2 ^ 31 <= z < 2 ^ 31 -> i32 z = z.
Proof. intros. unfold i32. rewrite Z.mod_small; lia. Qed.

(** Bit-level extensionality: two integers are equal when all their bits are. *)
Lemma testbit_small z w i : 0 <= z < 2 ^ w -> 0 <= w <= i -> Z.testbit z i = false.
Proof.
  intros Hz Hw. rewrite <- (Z.mod_small z (2 ^ w)) by lia.
  apply Z.mod_pow2_bits_high. lia.
Qed.

Lemma b2z_testbit_high b i : 8 <= i -> Z.testbit (b2z b) i = false.
Proof. intros. pose proof (b2z_range b). apply (testbit_small _ 8); lia. Qed.

Lemma testbit_mod2 z n i : 0 <= n -> Z.testbit (z mod 2 ^ n) i = (i <? n) && Z.testbit z i.
Proof.
  intros Hn. destruct (Z.ltb_spec i n); simpl.
  - by rewrite Z.mod_pow2_bits_low.
  - apply Z.mod_pow2_bits_high. lia.
Qed.

Lemma testbit_shiftr z n i : Z.testbit (z ≫ n) i = (0 <=? i) && Z.testbit z (i + n).
Proof.
  destruct (Z.leb_spec 0 i); simpl; [by apply Z.shiftr_spec | by apply Z.testbit_neg_r].
Qed.

Lemma testbit_shiftl z n i : Z.testbit (z ≪ n) i = (0 <=? i) && Z.testbit z (i - n).
Proof.
  destruct (Z.leb_spec 0 i); simpl; [by apply Z.shiftl_spec | by apply Z.testbit_neg_r].
Qed.

(** [bits] proves an equation between integers built from [lor], [land], [lxor],
    shifts and [mod 2 ^ n] by comparing every bit: it splits on the comparisons of
    the bit index with the constants in sight and closes each case by evaluation of
    the booleans.  Facts on the high bits of atoms are taken from the context
    ([0 <= x < 2 ^ w]). *)
Ltac bits_push :=
  repeat first
    [ rewrite Z.lor_spec | rewrite Z.land_spec | rewrite Z.lxor_spec
    | rewrite testbit_shiftl | rewrite testbit_shiftr
    | rewrite testbit_mod2 by lia | rewrite Z.bits_0
    | rewrite Z.pow2_bits_eqb by lia ].

Ltac bits_split :=
  repeat match goal with
  | |- context [?a <? ?b] => destruct (Z.ltb_spec a b); try lia
  | |- context [?a <=? ?b] => destruct (Z.leb_spec a b); try lia
  | |- context [?a =? ?b] => destruct (Z.eqb_spec a b); try lia
  end.

Ltac bits_atoms :=
  repeat match goal with
  | |- context [Z.testbit ?v ?e] => rewrite (Z.testbit_neg_r v e) by lia
  | H : 0 <= ?v < 2 ^ ?w |- context [Z.testbit ?v ?e] =>
      rewrite (testbit_small v w e H) by lia
  | |- context [Z.testbit ?v ?e] =>
      match goal with
      | |- context [Z.testbit v ?e'] =>
          lazymatch e' with context [e] => fail | _ => idtac end;
          replace e with e' by lia
      end
  end.

Ltac bits_done :=
  simpl; rewrite ?andb_true_r, ?andb_false_r, ?orb_false_r, ?orb_true_r;
  repeat match goal with
  | |- context [Z.testbit ?v ?e] => destruct (Z.testbit v e); simpl
  end; try reflexivity; try lia.

(** Splits on whether a bit index is inside the width of an atom. *)
Ltac bits_cases :=
  repeat match goal with
  | H : 0 <= ?v < 2 ^ ?w |- context [Z.testbit ?v ?e] =>
      tryif assert (0 <= e < w) by lia then fail
      else tryif assert (w <= e \/ e < 0) by lia then fail
      else (destruct (Z.lt_ge_cases e w); [destruct (Z.lt_ge_cases e 0)|])
  end.

Ltac bits :=
  apply Z.bits_inj'; intros ? ?; bits_push; bits_split; simpl; bits_atoms;
  first [solve [bits_done] | bits_cases; bits_atoms; bits_done].

(** ** Outcome monad *)

Lemma obind_ret {A B} (m : outcome A) (f : A -> outcome B) b :
  obind m f = Ret b -> exists a, m = Ret a /\ f a = Ret b.
Proof. destruct m; simpl; intros; try discriminate. eauto. Qed.

Ltac inv_obind :=
  repeat match goal with
  | H : obind _ _ = Ret _ |- _ =>
      let a := fresh "a" in let Ha := fresh "Hm" in
      apply obind_ret in H as (a & Ha & H)
  end.

Lemma vec_at_lookup {A} (l : list A) (i : nat) x : l !! i = Some x -> vec_at l (Z.of_nat i) = Ret x.
Proof.
  intros Hl. unfold vec_at. destruct (Z.ltb_spec (Z.of_nat i) 0); [lia|]. by rewrite Nat2Z.id, Hl.
Qed.

(** Along a list on which [P] can only go from true to false, the elements with [P] are those
    before the length of the filtered list. *)
Lemma filter_prefix_lookup {A} (P : A -> Prop) `{forall x, Decision (P x)} l i x :
  StronglySorted (fun a b => P b -> P a) l -> l !! i = Some x -> P x <-> (i < length (filter P l))%nat.
Proof.
  intros Hs. revert i. induction Hs as [|a l Hs IH Ha]; intros i Hx; [done|].
  rewrite filter_cons. destruct (decide (P a)) as [Hp|Hp].
  - destruct i as [|i]; simpl in *; [injection Hx as ->; split; [lia|done]|]. rewrite (IH i Hx). lia.
  - assert (filter P l = []) as ->.
    { apply filter_none. eapply Forall_impl; [done|]. intros y Hy Hpy. by apply Hp, Hy. }
    simpl. split; [|lia]. destruct i as [|i]; simpl in Hx; [by injection Hx as ->|].
    intros Hpx. destruct Hp. rewrite Forall_forall in Ha. apply (Ha x); [by eapply list_elem_of_lookup_2|done].
Qed.

Lemma filter_ext_forall {A} (P Q : A -> Prop) `{forall x, Decision (P x)} `{forall x, Decision (Q x)} l :
  Forall (fun x => P x <-> Q x) l -> filter P l = filter Q l.
Proof.
  induction 1 as [|x l Hx _ IH]; [done|]. rewrite !filter_cons, IH. by destruct (decide (P x)), (decide (Q x)); try tauto.
Qed.

Lemma filter_length_le {A} (P Q : A -> Prop) `{forall x, Decision (P x)} `{forall x, Decision (Q x)} l :
  (forall x, P x -> Q x) -> (length (filter P l) <= length (filter Q l))%nat.
Proof.
  intros HPQ. induction l as [|x l IH]; [done|]. rewrite !filter_cons.
  destruct (decide (P x)), (decide (Q x)); simpl; naive_solver lia.
Qed.

Lemma filter_length_lt {A} (P Q : A -> Prop) `{forall x, Decision (P x)} `{forall x, Decision (Q x)} l y :
  (forall x, P x -> Q x) -> y ∈ l -> Q y -> ~ P y -> (length (filter P l) < length (filter Q l))%nat.
Proof.
  intros HPQ Hy HQ HP. apply list_elem_of_split in Hy as (l1 & l2 & ->). rewrite !filter_app, !length_app, !filter_cons.
  rewrite decide_False, decide_True by done. simpl.
  pose proof (filter_length_le P Q l1 HPQ). pose proof (filter_length_le P Q l2 HPQ). lia.
Qed.

Lemma filter_fmap_length {A B} (g : A -> B) (P : B -> Prop) `{forall x, Decision (P x)} l :
  length (filter P (g <$> l)) = length (filter (fun x => P (g x)) l).
Proof.
  induction l as [|x l IH]; [done|]. rewrite fmap_cons, !filter_cons. destruct (decide (P (g x))); simpl; congruence.
Qed.

Lemma Forall_filter {A} (P Q : A -> Prop) `{forall x, Decision (Q x)} l : Forall P l -> Forall P (filter Q l).
Proof. rewrite !Forall_forall. intros Hp x Hx. apply list_elem_of_filter in Hx as [_ Hx]. by apply Hp. Qed.
