(* ===== verification/Coding.v ===== *)
(** * Coding: little-endian and varint encodings ([util/coding.h], [util/coding.cc])

    A pointer pair [p, limit) of the source is the list of the bytes it delimits;
    a function that returns an advanced pointer returns the rest of that list. *)

From S2P Require Import Prelude.

(** ** Fixed-width integers *)

Definition EncodeFixed32 (value : Z) : bytes :=
  [z2b value; z2b (value ≫ 8); z2b (value ≫ 16); z2b (value ≫ 24)].

Definition EncodeFixed64 (value : Z) : bytes :=
  [z2b value; z2b (value ≫ 8); z2b (value ≫ 16); z2b (value ≫ 24);
   z2b (value ≫ 32); z2b (value ≫ 40); z2b (value ≫ 48); z2b (value ≫ 56)].

(** [buffer[i]] of the decoders; the source does no bounds checking here, the
    callers establish that enough bytes are there. *)
Definition byte_at (ptr : bytes) (i : nat) : Z := b2z (nth i ptr x00).

Definition DecodeFixed32 (ptr : bytes) : Z :=
  Z.lor (Z.lor (Z.lor (byte_at ptr 0) (byte_at ptr 1 ≪ 8)) (byte_at ptr 2 ≪ 16))
        (byte_at ptr 3 ≪ 24).

Definition DecodeFixed64 (ptr : bytes) : Z :=
  Z.lor (Z.lor (Z.lor (Z.lor (Z.lor (Z.lor (Z.lor
    (byte_at ptr 0) (byte_at ptr 1 ≪ 8)) (byte_at ptr 2 ≪ 16)) (byte_at ptr 3 ≪ 24))
    (byte_at ptr 4 ≪ 32)) (byte_at ptr 5 ≪ 40)) (byte_at ptr 6 ≪ 48))
    (byte_at ptr 7 ≪ 56).

Definition PutFixed32 (dst : bytes) (value : Z) : bytes := dst ++ EncodeFixed32 value.
Definition PutFixed64 (dst : bytes) (value : Z) : bytes := dst ++ EncodeFixed64 value.

(** ** Varints: writing *)

Definition EncodeVarint32 (v : Z) : bytes :=
  let B := 128 in
  if v <? 1 ≪ 7 then [z2b v]
  else if v <? 1 ≪ 14 then [z2b (Z.lor v B); z2b (v ≫ 7)]
  else if v <? 1 ≪ 21 then [z2b (Z.lor v B); z2b (Z.lor (v ≫ 7) B); z2b (v ≫ 14)]
  else if v <? 1 ≪ 28 then
    [z2b (Z.lor v B); z2b (Z.lor (v ≫ 7) B); z2b (Z.lor (v ≫ 14) B); z2b (v ≫ 21)]
  else
    [z2b (Z.lor v B); z2b (Z.lor (v ≫ 7) B); z2b (Z.lor (v ≫ 14) B);
     z2b (Z.lor (v ≫ 21) B); z2b (v ≫ 28)].

Definition PutVarint32 (dst : bytes) (v : Z) : bytes := dst ++ EncodeVarint32 v.

(** The [while (v >= B)] loop; [varint_fuel v] rounds are always enough
    ([EncodeVarint64_eq]). *)
Fixpoint EncodeVarint64_loop (fuel : nat) (v : Z) : bytes :=
  match fuel with
  | O => [z2b v]
  | S fuel =>
      if 128 <=? v then z2b (Z.lor v 128) :: EncodeVarint64_loop fuel (v ≫ 7)
      else [z2b v]
  end.

Definition varint_fuel (v : Z) : nat := S (Z.to_nat (Z.log2 v)).

Definition EncodeVarint64 (v : Z) : bytes := EncodeVarint64_loop (varint_fuel v) v.

Definition PutVarint64 (dst : bytes) (v : Z) : bytes := dst ++ EncodeVarint64 v.

Definition PutLengthPrefixedSlice (dst value : bytes) : bytes :=
  PutVarint32 dst (u32 (zlen value)) ++ value.

Fixpoint VarintLength_loop (fuel : nat) (v len : Z) : Z :=
  match fuel with
  | O => len
  | S fuel => if 128 <=? v then VarintLength_loop fuel (v ≫ 7) (len + 1) else len
  end.

Definition VarintLength (v : Z) : Z := VarintLength_loop (varint_fuel v) v 1.

(** ** Varints: reading *)

(** The common loop of [GetVarint32PtrFallback] ([w = 32], [last = 28]) and
    [GetVarint64Ptr] ([w = 64], [last = 63]). *)
Fixpoint GetVarintPtr_loop (w last : Z) (p : bytes) (shift result : Z)
    : option (Z * bytes) :=
  match p with
  | [] => None
  | b :: p' =>
      if shift <=? last then
        let byte := b2z b in
        if negb (Z.land byte 128 =? 0) then
          GetVarintPtr_loop w last p' (shift + 7)
            (Z.lor result ((Z.land byte 127 ≪ shift) mod 2 ^ w))
        else Some (Z.lor result ((byte ≪ shift) mod 2 ^ w), p')
      else None
  end.

Definition GetVarint32PtrFallback (p : bytes) : option (Z * bytes) :=
  GetVarintPtr_loop 32 28 p 0 0.

Definition GetVarint32Ptr (p : bytes) : option (Z * bytes) :=
  match p with
  | b :: p' =>
      let result := b2z b in
      if Z.land result 128 =? 0 then Some (result, p') else GetVarint32PtrFallback p
  | [] => GetVarint32PtrFallback p
  end.

Definition GetVarint32 (input : bytes) : option (Z * bytes) :=
  match GetVarint32Ptr input with
  | None => None
  | Some (value, q) => Some (value, q)
  end.

Definition GetVarint64Ptr (p : bytes) : option (Z * bytes) :=
  GetVarintPtr_loop 64 63 p 0 0.

Definition GetVarint64 (input : bytes) : option (Z * bytes) :=
  match GetVarint64Ptr input with
  | None => None
  | Some (value, q) => Some (value, q)
  end.

(** Returns the slice and the advanced input. *)
Definition GetLengthPrefixedSlice (input : bytes) : option (bytes * bytes) :=
  match GetVarint32 input with
  | Some (len, input) =>
      if len <=? zlen input then Some (ztake len input, zdrop len input) else None
  | None => None
  end.

(** ** Fixed-width round trips *)

Lemma EncodeFixed32_length v : zlen (EncodeFixed32 v) = 4.
Proof. reflexivity. Qed.

Lemma EncodeFixed64_length v : zlen (EncodeFixed64 v) = 8.
Proof. reflexivity. Qed.

#[export] Hint Rewrite EncodeFixed32_length EncodeFixed64_length : zlen.

Lemma DecodeFixed32_Encode v r : DecodeFixed32 (EncodeFixed32 v ++ r) = u32 v.
Proof.
  unfold DecodeFixed32, EncodeFixed32, byte_at, u32. cbn [nth app].
  rewrite !b2z_z2b. change 256 with (2 ^ 8). bits.
Qed.

Lemma DecodeFixed64_Encode v r : DecodeFixed64 (EncodeFixed64 v ++ r) = u64 v.
Proof.
  unfold DecodeFixed64, EncodeFixed64, byte_at, u64. cbn [nth app].
  rewrite !b2z_z2b. change 256 with (2 ^ 8). bits.
Qed.

Lemma byte_at_range p i : 0 <= byte_at p i < 2 ^ 8.
Proof. apply b2z_range. Qed.

Lemma DecodeFixed32_range p : 0 <= DecodeFixed32 p < 2 ^ 32.
Proof.
  assert (DecodeFixed32 p = u32 (DecodeFixed32 p)) as ->; [|apply u32_range].
  unfold DecodeFixed32, u32.
  pose proof (byte_at_range p 0). pose proof (byte_at_range p 1).
  pose proof (byte_at_range p 2). pose proof (byte_at_range p 3). bits.
Qed.

Lemma DecodeFixed64_range p : 0 <= DecodeFixed64 p < 2 ^ 64.
Proof.
  assert (DecodeFixed64 p = u64 (DecodeFixed64 p)) as ->; [|apply u64_range].
  unfold DecodeFixed64, u64.
  pose proof (byte_at_range p 0). pose proof (byte_at_range p 1).
  pose proof (byte_at_range p 2). pose proof (byte_at_range p 3).
  pose proof (byte_at_range p 4). pose proof (byte_at_range p 5).
  pose proof (byte_at_range p 6). pose proof (byte_at_range p 7). bits.
Qed.

Lemma z2b_eq v b : v mod 256 = b2z b -> z2b v = b.
Proof. intros H. apply b2z_inj. by rewrite b2z_z2b. Qed.

(** Solves [z2b (DecodeFixed.. ≫ k) = the k-th byte]. *)
Ltac solve_decoded_byte :=
  apply z2b_eq; change 256 with (2 ^ 8);
  repeat match goal with
  | |- context [b2z ?b] =>
      lazymatch goal with
      | _ : 0 <= b2z b < 2 ^ 8 |- _ => fail
      | _ => assert (0 <= b2z b < 2 ^ 8) by apply b2z_range
      end
  end; bits.

Lemma EncodeFixed32_Decode p : 4 <= zlen p -> EncodeFixed32 (DecodeFixed32 p) = ztake 4 p.
Proof.
  intros Hp. do 4 (destruct p as [|? p]; [zlen_lia|]).
  unfold EncodeFixed32, DecodeFixed32, byte_at, ztake. simpl. rewrite take_0.
  repeat f_equal; solve_decoded_byte.
Qed.

Lemma EncodeFixed64_Decode p : 8 <= zlen p -> EncodeFixed64 (DecodeFixed64 p) = ztake 8 p.
Proof.
  intros Hp. do 8 (destruct p as [|? p]; [zlen_lia|]).
  unfold EncodeFixed64, DecodeFixed64, byte_at, ztake. simpl. rewrite take_0.
  repeat f_equal; solve_decoded_byte.
Qed.

(** ** The varint loops run to completion *)

Lemma log2_shiftr7 v : 128 <= v -> Z.log2 (v ≫ 7) = Z.log2 v - 7.
Proof.
  intros. rewrite Z.log2_shiftr by lia.
  pose proof (Z.log2_le_mono 128 v ltac:(lia)). change (Z.log2 128) with 7 in *. lia.
Qed.

Lemma shiftr7_bounds v : 128 <= v -> 0 <= v ≫ 7 < v.
Proof. intros. rewrite Z.shiftr_div_pow2 by lia. change (2 ^ 7) with 128. zdiv_lia. Qed.

Lemma EncodeVarint64_loop_fuel n m v :
  0 <= v -> (varint_fuel v <= n)%nat -> (varint_fuel v <= m)%nat ->
  EncodeVarint64_loop n v = EncodeVarint64_loop m v.
Proof.
  revert m v. induction n as [|n IH]; intros m v Hv Hn Hm; [unfold varint_fuel in *; lia|].
  destruct m as [|m]; [unfold varint_fuel in *; lia|]. simpl.
  destruct (Z.leb_spec 128 v); [|done]. f_equal.
  pose proof (log2_shiftr7 v ltac:(lia)). pose proof (shiftr7_bounds v ltac:(lia)).
  unfold varint_fuel in *.
  pose proof (Z.log2_le_mono 128 v ltac:(lia)). change (Z.log2 128) with 7 in *.
  apply IH; lia.
Qed.

Lemma EncodeVarint64_eq v :
  0 <= v ->
  EncodeVarint64 v =
    if 128 <=? v then z2b (Z.lor v 128) :: EncodeVarint64 (v ≫ 7) else [z2b v].
Proof.
  intros Hv. unfold EncodeVarint64 at 1. unfold varint_fuel at 1. simpl.
  destruct (Z.leb_spec 128 v); [|done]. f_equal.
  pose proof (log2_shiftr7 v ltac:(lia)). pose proof (shiftr7_bounds v ltac:(lia)).
  pose proof (Z.log2_le_mono 128 v ltac:(lia)). change (Z.log2 128) with 7 in *.
  apply EncodeVarint64_loop_fuel; unfold varint_fuel; lia.
Qed.

Lemma VarintLength_loop_spec n v len :
  0 <= v -> (varint_fuel v <= n)%nat ->
  VarintLength_loop n v len = len - 1 + zlen (EncodeVarint64 v).
Proof.
  revert v len. induction n as [|n IH]; intros v len Hv Hn; [unfold varint_fuel in *; lia|].
  simpl. rewrite EncodeVarint64_eq by done.
  destruct (Z.leb_spec 128 v).
  - pose proof (log2_shiftr7 v ltac:(lia)). pose proof (shiftr7_bounds v ltac:(lia)).
    pose proof (Z.log2_le_mono 128 v ltac:(lia)). change (Z.log2 128) with 7 in *.
    rewrite IH by (unfold varint_fuel in *; lia). zlen_lia.
  - zlen_lia.
Qed.

Lemma VarintLength_spec v : 0 <= v -> VarintLength v = zlen (EncodeVarint64 v).
Proof. intros. unfold VarintLength. rewrite VarintLength_loop_spec; lia. Qed.

(** Induction that follows the loop [v >>= 7]. *)
Lemma varint_ind (P : Z -> Prop) :
  (forall v, 0 <= v < 128 -> P v) ->
  (forall v, 128 <= v -> P (v ≫ 7) -> P v) ->
  forall v, 0 <= v -> P v.
Proof.
  intros Hbase Hstep v Hv.
  apply (Z_lt_induction (fun v => 0 <= v -> P v)); [|done|done].
  clear v Hv. intros v IH Hv. destruct (Z.ltb_spec v 128); [apply Hbase; lia|].
  pose proof (shiftr7_bounds v ltac:(lia)).
  apply Hstep; [lia|]. apply IH; lia.
Qed.

Lemma shiftr7_pow v n : 0 <= n -> v < 2 ^ (n + 7) -> v ≫ 7 < 2 ^ n.
Proof.
  intros. rewrite Z.shiftr_div_pow2 by lia. apply Z.div_lt_upper_bound; [lia|].
  rewrite <- Z.pow_add_r by lia. by rewrite Z.add_comm.
Qed.

Lemma EncodeVarint64_len v k :
  0 <= v -> 1 <= k -> v < 2 ^ (7 * k) -> 1 <= zlen (EncodeVarint64 v) <= k.
Proof.
  intros Hv. revert k. pattern v. apply varint_ind; [| |done]; clear v Hv.
  - intros v Hv k Hk Hlt. rewrite EncodeVarint64_eq by lia.
    destruct (Z.leb_spec 128 v); zlen_lia.
  - intros v Hv IH k Hk Hlt. rewrite EncodeVarint64_eq by lia.
    destruct (Z.leb_spec 128 v); [|lia].
    destruct (decide (k = 1)) as [->|]; [change (2 ^ (7 * 1)) with 128 in Hlt; lia|].
    assert (v ≫ 7 < 2 ^ (7 * (k - 1))).
    { apply shiftr7_pow; [lia|]. by replace (7 * (k - 1) + 7) with (7 * k) by lia. }
    specialize (IH (k - 1)). zlen_lia.
Qed.

(** ** Varint round trips *)

(** What a continuation byte carries. *)
Lemma varint_more_byte v :
  0 <= v ->
  Z.land (b2z (z2b (Z.lor v 128))) 128 <> 0 /\
  Z.land (b2z (z2b (Z.lor v 128))) 127 = v mod 2 ^ 7.
Proof.
  intros Hv. rewrite b2z_z2b. change 256 with (2 ^ 8). split.
  - intros H. apply (f_equal (fun z => Z.testbit z 7)) in H. revert H.
    rewrite Z.land_spec, testbit_mod2, Z.lor_spec by lia.
    change (Z.testbit 128 7) with true. rewrite orb_true_r. by cbn.
  - change 127 with (Z.ones 7). rewrite Z.land_ones by lia.
    change 128 with (2 ^ 7) at 1. bits.
Qed.

Lemma varint_last_byte v : 0 <= v < 128 -> b2z (z2b v) = v /\ Z.land v 128 = 0.
Proof.
  intros Hv. rewrite b2z_z2b_small by lia. split; [done|].
  change 128 with (2 ^ 7) in *. bits.
Qed.

Lemma varint_acc_step w v shift acc :
  0 <= v -> 0 <= shift -> v ≪ shift < 2 ^ w ->
  Z.lor (Z.lor acc ((v mod 2 ^ 7) ≪ shift mod 2 ^ w)) ((v ≫ 7) ≪ (shift + 7)) =
  Z.lor acc (v ≪ shift).
Proof.
  intros Hv Hs Hlt. rewrite (Z.mod_small _ (2 ^ w)).
  - bits.
  - rewrite Z.shiftl_mul_pow2 in * by lia.
    pose proof (Z.mod_pos_bound v (2 ^ 7) ltac:(lia)).
    pose proof (Z.mod_le v (2 ^ 7) ltac:(lia) ltac:(lia)). nia.
Qed.

Lemma GetVarintPtr_loop_Encode w last v rest shift acc :
  0 <= v -> 0 <= shift <= last -> shift mod 7 = 0 -> last mod 7 = 0 ->
  0 <= w <= last + 7 -> v ≪ shift < 2 ^ w ->
  GetVarintPtr_loop w last (EncodeVarint64 v ++ rest) shift acc =
    Some (Z.lor acc (v ≪ shift), rest).
Proof.
  intros Hv. revert shift acc. pattern v. apply varint_ind; [| |done]; clear v Hv.
  - intros v Hv shift acc Hs Hs7 Hl7 Hw Hlt. rewrite EncodeVarint64_eq by lia.
    destruct (Z.leb_spec 128 v); [lia|]. cbn [app GetVarintPtr_loop].
    destruct (Z.leb_spec shift last); [|lia].
    destruct (varint_last_byte v ltac:(lia)) as [-> ->]. simpl.
    rewrite Z.mod_small; [done|]. split; [|done].
    rewrite Z.shiftl_mul_pow2 by lia. lia.
  - intros v Hv IH shift acc Hs Hs7 Hl7 Hw Hlt. rewrite EncodeVarint64_eq by lia.
    destruct (Z.leb_spec 128 v); [|lia]. cbn [app GetVarintPtr_loop].
    destruct (Z.leb_spec shift last); [|lia].
    destruct (varint_more_byte v ltac:(lia)) as [Hb ->].
    destruct (Z.eqb_spec (Z.land (b2z (z2b (Z.lor v 128))) 128) 0); [done|]. simpl.
    assert (shift + 7 <= last).
    { assert (2 ^ (shift + 7) <= v ≪ shift).
      { rewrite Z.shiftl_mul_pow2, Z.pow_add_r by lia. nia. }
      assert (shift + 7 < w) by (apply (Z.pow_lt_mono_r_iff 2); lia).
      zdiv_lia. }
    rewrite IH; [| lia | zdiv_lia | done | done |].
    + by rewrite varint_acc_step by lia.
    + eapply Z.le_lt_trans; [|exact Hlt].
      rewrite !Z.shiftl_mul_pow2, Z.shiftr_div_pow2, Z.pow_add_r by lia.
      change (2 ^ 7) with 128. pose proof (Z.mul_div_le v 128 ltac:(lia)). nia.
Qed.

Lemma GetVarint64_Encode v rest :
  0 <= v < 2 ^ 64 -> GetVarint64 (EncodeVarint64 v ++ rest) = Some (v, rest).
Proof.
  intros. unfold GetVarint64, GetVarint64Ptr.
  rewrite GetVarintPtr_loop_Encode; [| lia | lia | done | done | lia |].
  - by rewrite Z.shiftl_0_r.
  - rewrite Z.shiftl_0_r. lia.
Qed.

(** The unrolled writer is the loop. *)
Lemma shiftr_lt_pow v n m : 0 <= v -> 0 <= n <= m -> (v ≫ n <? 2 ^ (m - n)) = (v <? 2 ^ m).
Proof.
  intros. rewrite Z.shiftr_div_pow2 by lia.
  pose proof (Z.pow_pos_nonneg 2 n ltac:(lia) ltac:(lia)).
  assert (2 ^ m = 2 ^ n * 2 ^ (m - n)) as -> by (rewrite <- Z.pow_add_r by lia; f_equal; lia).
  destruct (Z.ltb_spec v (2 ^ n * 2 ^ (m - n))).
  - apply Z.ltb_lt. by apply Z.div_lt_upper_bound.
  - apply Z.ltb_ge. by apply Z.div_le_lower_bound.
Qed.

Lemma EncodeVarint64_shift v n :
  0 <= v -> 0 <= n ->
  EncodeVarint64 (v ≫ n) =
    if v <? 2 ^ (n + 7) then [z2b (v ≫ n)]
    else z2b (Z.lor (v ≫ n) 128) :: EncodeVarint64 (v ≫ (n + 7)).
Proof.
  intros. assert (0 <= v ≫ n) by (apply Z.shiftr_nonneg; lia).
  rewrite EncodeVarint64_eq, Z.shiftr_shiftr by lia.
  rewrite <- (shiftr_lt_pow v n (n + 7)) by lia.
  replace (n + 7 - n) with 7 by lia. change (2 ^ 7) with 128.
  destruct (Z.leb_spec 128 (v ≫ n)), (Z.ltb_spec (v ≫ n) 128); (done || lia).
Qed.

Lemma EncodeVarint32_64 v : 0 <= v < 2 ^ 32 -> EncodeVarint32 v = EncodeVarint64 v.
Proof.
  intros Hv. rewrite <- (Z.shiftr_0_r v) at 2.
  rewrite (EncodeVarint64_shift v 0), (EncodeVarint64_shift v (0 + 7)),
    (EncodeVarint64_shift v (0 + 7 + 7)), (EncodeVarint64_shift v (0 + 7 + 7 + 7)),
    (EncodeVarint64_shift v (0 + 7 + 7 + 7 + 7)) by lia.
  unfold EncodeVarint32. rewrite !Z.shiftl_1_l, Z.shiftr_0_r. cbn [Z.add Pos.add Pos.succ Pos.add_carry].
  repeat (match goal with |- context [?a <? ?b] => destruct (Z.ltb_spec a b) end;
    try reflexivity; try lia).
Qed.

Lemma GetVarint32Ptr_fallback p : GetVarint32Ptr p = GetVarint32PtrFallback p.
Proof.
  destruct p as [|b p]; [done|]. unfold GetVarint32Ptr, GetVarint32PtrFallback.
  cbn [GetVarintPtr_loop]. simpl (0 <=? 28).
  destruct (Z.eqb_spec (Z.land (b2z b) 128) 0); [|done]. simpl.
  pose proof (b2z_range b). rewrite Z.shiftl_0_r, Z.mod_small by lia. done.
Qed.

Lemma GetVarint32_Encode v rest :
  0 <= v < 2 ^ 32 -> GetVarint32 (EncodeVarint32 v ++ rest) = Some (v, rest).
Proof.
  intros. unfold GetVarint32. rewrite GetVarint32Ptr_fallback, EncodeVarint32_64 by lia.
  unfold GetVarint32PtrFallback.
  rewrite GetVarintPtr_loop_Encode; [| lia | lia | done | done | lia |].
  - by rewrite Z.shiftl_0_r.
  - rewrite Z.shiftl_0_r. lia.
Qed.

Lemma GetLengthPrefixedSlice_Put s rest :
  zlen s < 2 ^ 32 ->
  GetLengthPrefixedSlice (PutLengthPrefixedSlice [] s ++ rest) = Some (s, rest).
Proof.
  intros Hs. unfold GetLengthPrefixedSlice, PutLengthPrefixedSlice, PutVarint32.
  pose proof (zlen_nonneg s). rewrite app_nil_l, <- app_assoc.
  rewrite u32_small, GetVarint32_Encode by lia.
  destruct (Z.leb_spec (zlen s) (zlen (s ++ rest))); [|zlen_lia].
  by rewrite ztake_app_len, zdrop_app_len.
Qed.

(** ** Reading arbitrary bytes *)

Lemma lor_range w x y : 0 <= w -> 0 <= x < 2 ^ w -> 0 <= y < 2 ^ w -> 0 <= Z.lor x y < 2 ^ w.
Proof.
  intros Hw Hx Hy. assert (Z.lor x y = Z.lor x y mod 2 ^ w) as ->.
  { bits. }
  apply Z.mod_pos_bound. lia.
Qed.

Lemma GetVarintPtr_loop_bounds w last p shift acc v q :
  0 <= w -> 0 <= acc < 2 ^ w -> GetVarintPtr_loop w last p shift acc = Some (v, q) ->
  0 <= v < 2 ^ w /\ exists c, p = c ++ q /\ 1 <= zlen c /\ shift + 7 * (zlen c - 1) <= last.
Proof.
  intros Hw. revert shift acc. induction p as [|b p IH]; intros shift acc Hacc; [done|].
  cbn [GetVarintPtr_loop]. destruct (Z.leb_spec shift last); [|done].
  destruct (negb _).
  - intros E. apply IH in E as (Hv & c & -> & Hc & Hl).
    + split; [done|]. exists (b :: c). split; [done|]. rewrite zlen_cons. lia.
    + apply lor_range; [done | done |]. apply Z.mod_pos_bound. lia.
  - intros [= <- <-]. split; [|exists [b]; split; [done|]; zlen_lia].
    apply lor_range; [done | done |]. apply Z.mod_pos_bound. lia.
Qed.

Lemma GetVarint32_bounds input v q :
  GetVarint32 input = Some (v, q) ->
  0 <= v < 2 ^ 32 /\ exists c, input = c ++ q /\ 1 <= zlen c <= 5.
Proof.
  unfold GetVarint32. rewrite GetVarint32Ptr_fallback. unfold GetVarint32PtrFallback.
  destruct (GetVarintPtr_loop _ _ _ _ _) as [[v' q']|] eqn:E; [|done]. intros [= -> ->].
  apply GetVarintPtr_loop_bounds in E as (Hv & c & -> & Hc & Hl); [|lia..].
  split; [done|]. exists c. split; [done | lia].
Qed.

Lemma GetVarint64_bounds input v q :
  GetVarint64 input = Some (v, q) ->
  0 <= v < 2 ^ 64 /\ exists c, input = c ++ q /\ 1 <= zlen c <= 10.
Proof.
  unfold GetVarint64, GetVarint64Ptr.
  destruct (GetVarintPtr_loop _ _ _ _ _) as [[v' q']|] eqn:E; [|done]. intros [= -> ->].
  apply GetVarintPtr_loop_bounds in E as (Hv & c & -> & Hc & Hl); [|lia..].
  split; [done|]. exists c. split; [done | lia].
Qed.

Lemma GetLengthPrefixedSlice_bounds input s q :
  GetLengthPrefixedSlice input = Some (s, q) -> exists c, input = c ++ s ++ q /\ 1 <= zlen c <= 5.
Proof.
  unfold GetLengthPrefixedSlice. destruct (GetVarint32 input) as [[len rest]|] eqn:E; [|done].
  apply GetVarint32_bounds in E as (_ & c & -> & Hc).
  destruct (_ <=? _); [|done]. intros [= <- <-]. exists c. by rewrite ztake_zdrop.
Qed.

(** ** Arrays of fixed 32-bit numbers *)

Lemma zlen_fixed32_array rs : zlen (concat (map EncodeFixed32 rs)) = 4 * zlen rs.
Proof.
  induction rs as [|r rs IH]; [done|]. cbn [map concat].
  rewrite zlen_app, EncodeFixed32_length, IH, zlen_cons. lia.
Qed.

Lemma fixed32_array_split (rs : list Z) a r :
  rs !! a = Some r ->
  exists rest, zdrop (4 * Z.of_nat a) (concat (map EncodeFixed32 rs)) = EncodeFixed32 r ++ rest.
Proof.
  revert a. induction rs as [|x rs IH]; intros a Ha; [done|]. cbn [map concat].
  destruct a as [|a]; simpl in Ha.
  - injection Ha as ->. eexists. by rewrite zdrop_0.
  - destruct (IH a Ha) as [rest E]. exists rest. rewrite <- E.
    replace (4 * Z.of_nat (S a)) with (4 + 4 * Z.of_nat a) by lia.
    rewrite <- (zdrop_zdrop (4 * Z.of_nat a) 4) by lia. by rewrite zdrop_app_len.
Qed.

Lemma fixed32_array_lookup rs a r tail :
  rs !! a = Some r -> 0 <= r < 2 ^ 32 ->
  DecodeFixed32 (zdrop (4 * Z.of_nat a) (concat (map EncodeFixed32 rs) ++ tail)) = r.
Proof.
  intros Ha Hr. destruct (fixed32_array_split rs a r Ha) as [rest E].
  pose proof (lookup_lt_Some _ _ _ Ha).
  rewrite zdrop_app_le by (rewrite zlen_fixed32_array; unfold zlen; lia).
  rewrite E, <- app_assoc, DecodeFixed32_Encode. by apply u32_small.
Qed.

(** ** The properties *)

(** Varints round trip. Every 64-bit value is read back from its encoding, whatever
    bytes follow; the encoding has the length [VarintLength] announces, at most ten bytes;
    for 32-bit values the unrolled [PutVarint32] writes the same bytes, at most five, and
    [GetVarint32] reads them back. *)
Theorem varint_roundtrip (v : Z) (rest : bytes) :
  0 <= v < 2 ^ 64 ->
  GetVarint64 (PutVarint64 [] v ++ rest) = Some (v, rest) /\
  zlen (PutVarint64 [] v) = VarintLength v /\ 1 <= VarintLength v <= 10 /\
  (v < 2 ^ 32 ->
   PutVarint32 [] v = PutVarint64 [] v /\ VarintLength v <= 5 /\
   GetVarint32 (PutVarint32 [] v ++ rest) = Some (v, rest)).
Proof.
  intros Hv. unfold PutVarint64, PutVarint32. rewrite VarintLength_spec by lia. cbn [app].
  pose proof (EncodeVarint64_len v 10 ltac:(lia) ltac:(lia) ltac:(lia)).
  split_and!; [by apply GetVarint64_Encode | done | lia | lia |].
  intros Hs. rewrite GetVarint32_Encode, EncodeVarint32_64 by lia.
  split_and!; [done | | done]. apply (EncodeVarint64_len v 5); lia.
Qed.

Lemma varint_roundtrip_witness :
  GetVarint64 (PutVarint64 [] 300 ++ [x07]) = Some (300, [x07]) /\
  zlen (PutVarint64 [] 300) = VarintLength 300 /\ 1 <= VarintLength 300 <= 10 /\
  (300 < 2 ^ 32 ->
   PutVarint32 [] 300 = PutVarint64 [] 300 /\ VarintLength 300 <= 5 /\
   GetVarint32 (PutVarint32 [] 300 ++ [x07]) = Some (300, [x07])).
Proof. apply (varint_roundtrip 300 [x07]). lia. Defined.

(** Reading bytes that no encoder wrote is safe. Whatever the input, a varint that is
    accepted is inside its width and was read from at most five (ten) bytes of the input,
    and a length-prefixed slice that is accepted lies inside the input. *)
Theorem varint_decode_bounds (input : bytes) :
  (forall v q, GetVarint32 input = Some (v, q) ->
     0 <= v < 2 ^ 32 /\ exists c, input = c ++ q /\ 1 <= zlen c <= 5) /\
  (forall v q, GetVarint64 input = Some (v, q) ->
     0 <= v < 2 ^ 64 /\ exists c, input = c ++ q /\ 1 <= zlen c <= 10) /\
  (forall s q, GetLengthPrefixedSlice input = Some (s, q) ->
     exists c, input = c ++ s ++ q /\ 1 <= zlen c <= 5).
Proof.
  split_and!; [apply GetVarint32_bounds | apply GetVarint64_bounds | apply GetLengthPrefixedSlice_bounds].
Qed.
