(* ===== verification/Env.v ===== *)
(** * Env: status values and the file interfaces ([leveldb/status.h], [leveldb/env.h])

    The code reaches the operating system only through the virtual methods of
    [WritableFile], [SequentialFile] and [RandomAccessFile].  Each is a class of
    operations here; what an implementation promises is a second class of laws, and the
    components that use files are verified against the laws. *)

From S2P Require Import Prelude.

(** ** Status *)

Inductive Status : Type :=
| OK
| NotFound (msg : string)
| Corruption (msg : string)
| NotSupported (msg : string)
| InvalidArgument (msg : string)
| IOError (msg : string).

#[global] Instance Status_eq_dec : EqDecision Status.
Proof. solve_decision. Defined.

Definition ok (s : Status) : bool := match s with OK => true | _ => false end.

Definition IsNotFound (s : Status) : bool :=
  match s with NotFound _ => true | _ => false end.

Definition IsCorruption (s : Status) : bool :=
  match s with Corruption _ => true | _ => false end.

Lemma ok_true s : ok s = true <-> s = OK.
Proof. by destruct s. Qed.

(** ** Files *)

Class WritableFile (F : Type) := {
  Append : F -> bytes -> F * Status;
  Flush : F -> F * Status;
}.

Class SequentialFile (F : Type) := {
  Read : F -> Z -> F * Status * bytes;
  Skip : F -> Z -> F * Status;
}.

(** A fail-stop writable file: a successful [Append] adds exactly its argument at the
    end; a failing call may have added any prefix of it, and the file takes nothing
    more after that. *)
Class WritableFileLaws (F : Type) `{WritableFile F} := {
  contents : F -> bytes;
  failed : F -> Prop;
  append_ok f d f' :
    Append f d = (f', OK) -> ~ failed f /\ ~ failed f' /\ contents f' = contents f ++ d;
  append_err f d f' s :
    Append f d = (f', s) -> s <> OK ->
    failed f' /\ exists k, contents f' = contents f ++ ztake k d;
  append_failed f d f' s :
    failed f -> Append f d = (f', s) -> s <> OK /\ contents f' = contents f;
  flush_contents f f' s : Flush f = (f', s) -> contents f' = contents f;
  flush_ok f f' : Flush f = (f', OK) -> ~ failed f /\ ~ failed f';
  flush_err f f' s : Flush f = (f', s) -> s <> OK -> failed f';
}.

(** A readable regular file: reads return the next bytes, short only at the end. *)
Class SequentialFileLaws (F : Type) `{SequentialFile F} := {
  remaining : F -> bytes;
  read_spec f n : 0 <= n ->
    exists f', Read f n = (f', OK, ztake n (remaining f)) /\
               remaining f' = zdrop n (remaining f);
  skip_spec f n : 0 <= n ->
    exists f', Skip f n = (f', OK) /\ remaining f' = zdrop n (remaining f);
}.

(** ** An in-memory file that satisfies the laws

    [quota] bytes can still be written; the call that exceeds it stores what fits and
    fails, as does every later one. *)

Record MemFile := mkMemFile { mf_data : bytes; mf_quota : Z; mf_failed : bool }.

#[global] Instance MemFile_writable : WritableFile MemFile := {
  Append f d :=
    if mf_failed f then (f, IOError "write after error")
    else if zlen d <=? mf_quota f then
      (mkMemFile (mf_data f ++ d) (mf_quota f - zlen d) false, OK)
    else (mkMemFile (mf_data f ++ ztake (mf_quota f) d) 0 true, IOError "no space");
  Flush f := if mf_failed f then (f, IOError "write after error") else (f, OK);
}.

#[global, refine] Instance MemFile_writable_laws : WritableFileLaws MemFile := {
  contents := mf_data;
  failed f := mf_failed f = true;
}.
Proof.
  - intros [da q fl] d f'. simpl. destruct fl; [done|].
    destruct (zlen d <=? q); intros [= <-]; simpl; auto.
  - intros [da q fl] d f' s. simpl. destruct fl.
    + intros [= <- <-] _. simpl. split; [done|]. exists 0. by rewrite ztake_0, app_nil_r.
    + destruct (zlen d <=? q); intros [= <- <-]; simpl; [done|]. eauto.
  - intros [da q fl] d f' s. simpl. intros ->. by intros [= <- <-].
  - intros [da q fl] f' s. simpl. destruct fl; by intros [= <- <-].
  - intros [da q fl] f'. simpl. destruct fl; intros [= <-]; simpl; auto.
  - intros [da q fl] f' s. simpl. destruct fl; by intros [= <- <-].
Defined.

#[global] Instance bytes_sequential : SequentialFile bytes := {
  Read f n := (zdrop n f, OK, ztake n f);
  Skip f n := (zdrop n f, OK);
}.

#[global, refine] Instance bytes_sequential_laws : SequentialFileLaws bytes := {
  remaining f := f;
}.
Proof.
  - intros f n _. by exists (zdrop n f).
  - intros f n _. by exists (zdrop n f).
Defined.
