(* ===== verification/LogWriter.v ===== *)
(** * LogWriter: the write-ahead log writer ([log/log_format.h], [log/log_writer.h],
      [log/log_writer.c])

    The state of a [Writer] is its destination file, the offset in the current block and
    the table of checksums of the record types.  [AddRecord] is the [do]/[while] loop of
    the source with fuel; [AddRecord_spec] shows that the fuel given is enough, that no
    [assert] fails, and which bytes reach the file. *)

From S2P Require Import Prelude Coding Env Crc32c.

(** ** Format constants *)

Inductive RecordType : Type :=
| kZeroType | kFullType | kFirstType | kMiddleType | kLastType.

Definition record_code (t : RecordType) : Z :=
  match t with
  | kZeroType => 0 | kFullType => 1 | kFirstType => 2 | kMiddleType => 3 | kLastType => 4
  end.

Definition kMaxRecordType : Z := record_code kLastType.
Definition kBlockSize : Z := 32768.
Definition kHeaderSize : Z := 4 + 2 + 1.

Section Writer.
Context `{Crc32c} {F : Type} `{WritableFile F}.

Record Writer := mkWriter {
  dest_ : F;
  block_offset_ : Z;
  type_crc_ : list Z;
}.

Definition InitTypeCrc : list Z :=
  map (fun i => Value [z2b (Z.of_nat i)]) (seq 0 (Z.to_nat (kMaxRecordType + 1))).

Definition new_Writer (dest : F) : Writer := mkWriter dest 0 InitTypeCrc.

Definition new_Writer_at (dest : F) (dest_length : Z) : Writer :=
  mkWriter dest (dest_length mod kBlockSize) InitTypeCrc.

Open Scope outcome_scope.

(** The seven header bytes in front of a payload. *)
Definition header_bytes (type_crc : list Z) (t : RecordType) (data : bytes) : bytes :=
  let length := zlen data in
  let crc := Extend (nth (Z.to_nat (record_code t)) type_crc 0) data in
  let crc := Mask crc in
  EncodeFixed32 crc ++
  [z2b (Z.land length 0xff); z2b (length ≫ 8); z2b (record_code t)].

Definition EmitPhysicalRecord (w : Writer) (t : RecordType) (data : bytes)
    : outcome (Writer * Status) :=
  let length := zlen data in
  assert! length <=? 0xffff;
  assert! block_offset_ w + kHeaderSize + length <=? kBlockSize;
  let buf := header_bytes (type_crc_ w) t data in
  let '(f, s) := Append (dest_ w) buf in
  let '(f, s) :=
    if ok s then
      let '(f, s) := Append f data in
      if ok s then Flush f else (f, s)
    else (f, s) in
  Ret (mkWriter f (block_offset_ w + (kHeaderSize + length)) (type_crc_ w), s).

(** One round of the loop up to the emission: switch to a new block when no header
    fits. The result of the [Append] of the trailer is not looked at. *)
Definition switch_block (w : Writer) : outcome Writer :=
  let leftover := kBlockSize - block_offset_ w in
  assert! 0 <=? leftover;
  if leftover <? kHeaderSize then
    let f :=
      if 0 <? leftover then
        fst (Append (dest_ w) (ztake leftover (replicate 6 x00)))
      else dest_ w in
    Ret (mkWriter f 0 (type_crc_ w))
  else Ret w.

Definition fragment_type (begin last : bool) : RecordType :=
  if begin && last then kFullType
  else if begin then kFirstType
  else if last then kLastType
  else kMiddleType.

Fixpoint AddRecord_loop (fuel : nat) (w : Writer) (ptr : bytes) (begin : bool)
    : outcome (Writer * Status) :=
  match fuel with
  | O => OutOfFuel
  | S fuel =>
      let left := zlen ptr in
      let! w := switch_block w in
      assert! 0 <=? kBlockSize - block_offset_ w - kHeaderSize;
      let avail := kBlockSize - block_offset_ w - kHeaderSize in
      let fragment_length := if left <? avail then left else avail in
      let last := left =? fragment_length in
      let! (w, s) :=
        EmitPhysicalRecord w (fragment_type begin last) (ztake fragment_length ptr) in
      let ptr := zdrop fragment_length ptr in
      let left := left - fragment_length in
      if ok s && (0 <? left) then AddRecord_loop fuel w ptr false
      else Ret (w, s)
  end.

(** Every round but the first consumes payload ([AddRecord_loop_spec]). *)
Definition AddRecord (w : Writer) (slice : bytes) : outcome (Writer * Status) :=
  AddRecord_loop (S (S (length slice))) w slice true.

End Writer.
Arguments Writer F : clear implicits.

(** ** The layout of a record as fragments

    A record is a chain of fragments; [layout] is the bytes a chain occupies when its
    first fragment is placed at block offset [bo], trailers included. *)

Section Layout.
Context `{Crc32c}.

(** The zero bytes that fill a block in which no header fits any more. *)
Definition pad (bo : Z) : bytes :=
  if kBlockSize - bo <? kHeaderSize then replicate (Z.to_nat (kBlockSize - bo)) x00 else [].

(** The block offset of the next header. *)
Definition norm (bo : Z) : Z := if kBlockSize - bo <? kHeaderSize then 0 else bo.

Definition phys (t : RecordType) (data : bytes) : bytes :=
  header_bytes InitTypeCrc t data ++ data.

Definition next_offset (bo : Z) (data : bytes) : Z := norm bo + kHeaderSize + zlen data.

Fixpoint layout (bo : Z) (l : list (RecordType * bytes)) : bytes :=
  match l with
  | [] => []
  | (t, data) :: l => pad bo ++ phys t data ++ layout (next_offset bo data) l
  end.

Fixpoint end_offset (bo : Z) (l : list (RecordType * bytes)) : Z :=
  match l with
  | [] => bo
  | (t, data) :: l => end_offset (next_offset bo data) l
  end.

Fixpoint fits (bo : Z) (l : list (RecordType * bytes)) : Prop :=
  match l with
  | [] => True
  | (t, data) :: l => next_offset bo data <= kBlockSize /\ fits (next_offset bo data) l
  end.

(** [chain begin l data]: the fragments [l] carry [data] and their types mark the first
    ([begin]), the inner and the last one. *)
Inductive chain : bool -> list (RecordType * bytes) -> bytes -> Prop :=
| chain_last begin data : chain begin [(fragment_type begin true, data)] data
| chain_more begin d l data :
    chain false l data -> chain begin ((fragment_type begin false, d) :: l) (d ++ data).

(** The fragments [AddRecord] chooses. *)
Fixpoint plan (fuel : nat) (bo : Z) (ptr : bytes) (begin : bool)
    : list (RecordType * bytes) :=
  match fuel with
  | O => []
  | S fuel =>
      let avail := kBlockSize - norm bo - kHeaderSize in
      let fragment_length := Z.min (zlen ptr) avail in
      let data := ztake fragment_length ptr in
      (fragment_type begin (zlen ptr =? fragment_length), data) ::
      (if 0 <? zlen ptr - fragment_length
       then plan fuel (next_offset bo data) (zdrop fragment_length ptr) false
       else [])
  end.

Definition record_plan (bo : Z) (data : bytes) : list (RecordType * bytes) :=
  plan (S (S (length data))) bo data true.

Definition record_layout (bo : Z) (data : bytes) : bytes := layout bo (record_plan bo data).

(** What a writer starting at block offset [bo] writes for a list of records. *)
Fixpoint log_layout (bo : Z) (records : list bytes) : bytes :=
  match records with
  | [] => []
  | r :: records =>
      record_layout bo r ++ log_layout (end_offset bo (record_plan bo r)) records
  end.

Lemma norm_range bo : 0 <= bo <= kBlockSize -> 0 <= norm bo <= kBlockSize - kHeaderSize.
Proof. unfold norm, kHeaderSize, kBlockSize. intros. destruct (Z.ltb_spec (32768 - bo) (4 + 2 + 1)); lia. Qed.

Lemma zlen_header l t d : zlen (header_bytes l t d) = kHeaderSize.
Proof. reflexivity. Qed.

Lemma zlen_phys t d : zlen (phys t d) = kHeaderSize + zlen d.
Proof. unfold phys. rewrite zlen_app, zlen_header. done. Qed.

Lemma InitTypeCrc_nth t : nth (Z.to_nat (record_code t)) InitTypeCrc 0 = Value [z2b (record_code t)].
Proof. by destruct t. Qed.

(** Enough rounds for the fragments of [ptr] from block offset [bo]. *)
Definition plan_fuel (bo : Z) (ptr : bytes) : Z :=
  zlen ptr + (if kBlockSize - norm bo - kHeaderSize =? 0 then 2 else 1).

Lemma plan_fuel_le bo ptr : plan_fuel bo ptr <= Z.of_nat (S (S (length ptr))).
Proof. unfold plan_fuel, zlen. destruct (_ =? 0); lia. Qed.

(** The arithmetic of one round of the loop. *)
Lemma plan_round bo (ptr : bytes) :
  0 <= bo <= kBlockSize ->
  let avail := kBlockSize - norm bo - kHeaderSize in
  let fl := Z.min (zlen ptr) avail in
  0 <= fl <= zlen ptr /\ zlen (ztake fl ptr) = fl /\
  0 <= next_offset bo (ztake fl ptr) <= kBlockSize /\
  (zlen ptr =? fl) = negb (0 <? zlen ptr - fl) /\
  (0 < zlen ptr - fl ->
   plan_fuel (next_offset bo (ztake fl ptr)) (zdrop fl ptr) + 1 <= plan_fuel bo ptr).
Proof.
  intros Hbo avail fl. pose proof (norm_range bo Hbo). pose proof (zlen_nonneg ptr).
  assert (kHeaderSize = 7) by done. assert (kBlockSize = 32768) by done.
  assert (zlen (ztake fl ptr) = fl) as Hfl by (rewrite zlen_ztake; subst fl avail; lia).
  unfold next_offset. rewrite Hfl.
  repeat split; try (subst fl avail; lia).
  - intros Hmore. unfold plan_fuel. rewrite zlen_zdrop.
    assert (norm bo + kHeaderSize + fl = kBlockSize) as -> by (subst fl avail; lia).
    change (kBlockSize - norm kBlockSize - kHeaderSize =? 0) with false.
    destruct (Z.eqb_spec (kBlockSize - norm bo - kHeaderSize) 0); subst fl avail; lia.
Qed.

Lemma plan_spec fuel bo ptr begin :
  0 <= bo <= kBlockSize -> plan_fuel bo ptr <= Z.of_nat fuel ->
  chain begin (plan fuel bo ptr begin) ptr /\ fits bo (plan fuel bo ptr begin) /\
  0 <= end_offset bo (plan fuel bo ptr begin) <= kBlockSize.
Proof.
  revert bo ptr begin. induction fuel as [|fuel IH]; intros bo ptr begin Hbo Hf.
  { unfold plan_fuel in Hf. pose proof (zlen_nonneg ptr). destruct (_ =? 0); lia. }
  pose proof (plan_round bo ptr Hbo) as (Hfl & Hlen & Hno & Hlast & Hnext).
  cbn [plan fits end_offset]. set (fl := Z.min _ _) in *. rewrite Hlast.
  destruct (Z.ltb_spec 0 (zlen ptr - fl)); simpl.
  - destruct (IH (next_offset bo (ztake fl ptr)) (zdrop fl ptr) false) as (Hc & Hfi & He);
      [done | lia |].
    split; [| repeat split; done || lia]. rewrite <- (ztake_zdrop fl ptr) at 4. by constructor.
  - split; [| repeat split; done || lia]. rewrite (ztake_all fl ptr) by lia. constructor.
Qed.

Lemma record_plan_spec bo data :
  0 <= bo <= kBlockSize ->
  chain true (record_plan bo data) data /\ fits bo (record_plan bo data) /\
  0 <= end_offset bo (record_plan bo data) <= kBlockSize.
Proof. intros. apply plan_spec; [done | apply plan_fuel_le]. Qed.

End Layout.

(** ** What a writer does to its file *)

Section WriterProofs.
Context `{Crc32c} {F : Type} `{WritableFileLaws F}.
Implicit Types (f : F) (s : Status) (w : Writer F) (b : bytes).

(** [wrote f f' s b]: on success the bytes [b] were added; on failure a prefix of them
    was, and the file takes nothing more. *)
Definition wrote f f' s b : Prop :=
  (s = OK /\ ~ failed f /\ ~ failed f' /\ contents f' = contents f ++ b) \/
  (s <> OK /\ failed f' /\
   exists p, p `prefix_of` b /\ contents f' = contents f ++ p /\ (failed f -> p = [])).

Lemma ztake_prefix {A} k (l : list A) : ztake k l `prefix_of` l.
Proof. exists (zdrop k l). by rewrite ztake_zdrop. Qed.

Lemma append_wrote f b f' s : Append f b = (f', s) -> wrote f f' s b.
Proof.
  intros E. destruct (decide (s = OK)) as [->|Hs].
  - left. destruct (append_ok _ _ _ E) as (? & ? & ?). auto.
  - right. destruct (append_err _ _ _ _ E Hs) as (? & k & Hk).
    split_and!; [done | done |]. exists (ztake k b).
    split_and!; [apply ztake_prefix | done |].
    intros Hf. destruct (append_failed _ _ _ _ Hf E) as [_ Hc].
    rewrite Hc in Hk. apply (app_inv_head (contents f)). by rewrite app_nil_r.
Qed.

Lemma flush_wrote f f' s : Flush f = (f', s) -> wrote f f' s [].
Proof.
  intros E. pose proof (flush_contents _ _ _ E) as Hc.
  destruct (decide (s = OK)) as [->|Hs].
  - left. destruct (flush_ok _ _ E). by rewrite app_nil_r.
  - right. split_and!; [done | by eapply flush_err |]. exists []. by rewrite app_nil_r.
Qed.

Lemma wrote_seq f f1 f2 s1 s2 a b :
  wrote f f1 s1 a -> wrote f1 f2 s2 b -> wrote f f2 s2 (a ++ b).
Proof.
  intros [(-> & Hf & Hf1 & Hc1)|(Hs1 & Hf1 & p1 & Hp1 & Hc1 & Hz1)].
  - intros [(-> & _ & Hf2 & Hc2)|(Hs2 & Hf2 & p2 & Hp2 & Hc2 & Hz2)].
    + left. rewrite Hc2, Hc1, app_assoc. auto.
    + right. split_and!; [done | done |]. exists (a ++ p2).
      split_and!; [by apply prefix_app | by rewrite Hc2, Hc1, app_assoc | done].
  - intros [(-> & Hn & _)|(Hs2 & Hf2 & p2 & Hp2 & Hc2 & Hz2)]; [done|].
    rewrite (Hz2 Hf1), app_nil_r in Hc2.
    right. split_and!; [done | done |]. exists p1.
    split_and!; [by apply prefix_app_r | congruence | done].
Qed.

Lemma wrote_stop f f1 s1 a b : s1 <> OK -> wrote f f1 s1 a -> wrote f f1 s1 (a ++ b).
Proof.
  intros Hs [(? & _)|(_ & Hf1 & p1 & Hp1 & Hc1 & Hz1)]; [done|].
  right. split_and!; [done | done |]. exists p1. split_and!; [by apply prefix_app_r | done | done].
Qed.

Definition writer_ok w : Prop :=
  0 <= block_offset_ w <= kBlockSize /\ type_crc_ w = InitTypeCrc.

(** The block offset a finished or failed round leaves. *)
Lemma EmitPhysicalRecord_spec w t data :
  writer_ok w -> block_offset_ w + kHeaderSize + zlen data <= kBlockSize ->
  exists w' s, EmitPhysicalRecord w t data = Ret (w', s) /\ writer_ok w' /\
    block_offset_ w' = block_offset_ w + kHeaderSize + zlen data /\
    wrote (dest_ w) (dest_ w') s (phys t data).
Proof.
  intros [Hbo Htc] Hfit. unfold EmitPhysicalRecord. pose proof (zlen_nonneg data).
  assert (kHeaderSize = 7) by done. assert (kBlockSize = 32768) by done.
  destruct (Z.leb_spec (zlen data) 65535); [|lia].
  destruct (Z.leb_spec (block_offset_ w + kHeaderSize + zlen data) kBlockSize); [|lia].
  simpl. rewrite Htc. fold (phys t data).
  destruct (Append (dest_ w) _) as [f1 s1] eqn:E1. apply append_wrote in E1.
  assert (forall f' s', wrote (dest_ w) f' s' (phys t data) ->
    exists w' s, Ret (mkWriter f' (block_offset_ w + (kHeaderSize + zlen data)) InitTypeCrc, s') =
      Ret (w', s) /\ writer_ok w' /\
      block_offset_ w' = block_offset_ w + kHeaderSize + zlen data /\
      wrote (dest_ w) (dest_ w') s (phys t data)) as Hdone.
  { intros f' s' Hw. do 2 eexists. split; [done|]. unfold writer_ok. simpl.
    split_and!; [lia | lia | done | lia | done]. }
  destruct (ok s1) eqn:Hs1.
  - destruct (Append f1 data) as [f2 s2] eqn:E2. apply append_wrote in E2.
    pose proof (wrote_seq _ _ _ _ _ _ _ E1 E2) as E12.
    destruct (ok s2) eqn:Hs2; [|by apply Hdone].
    destruct (Flush f2) as [f3 s3] eqn:E3. apply flush_wrote in E3.
    apply Hdone. rewrite <- (app_nil_r (phys t data)). by eapply wrote_seq.
  - apply Hdone. apply wrote_stop; [|done]. intros ->. done.
Qed.

Lemma switch_block_spec w :
  writer_ok w ->
  exists w', switch_block w = Ret w' /\ writer_ok w' /\
    block_offset_ w' = norm (block_offset_ w) /\
    (dest_ w' = dest_ w /\ pad (block_offset_ w) = [] \/
     exists s, wrote (dest_ w) (dest_ w') s (pad (block_offset_ w))).
Proof.
  intros [Hbo Htc]. unfold switch_block, norm, pad.
  assert (kHeaderSize = 7) by done. assert (kBlockSize = 32768) by done.
  set (leftover := kBlockSize - block_offset_ w) in *.
  destruct (Z.leb_spec 0 leftover); [|lia]. simpl.
  destruct (Z.ltb_spec leftover kHeaderSize).
  - eexists. split; [done|]. unfold writer_ok. simpl. split_and!; [lia | lia | done | done |].
    destruct (Z.ltb_spec 0 leftover).
    + right. destruct (Append (dest_ w) _) as [f1 s1] eqn:E1. apply append_wrote in E1.
      exists s1. simpl. assert (ztake leftover (replicate 6 x00) = replicate (Z.to_nat leftover) x00) as <-; [|done].
      unfold ztake. rewrite take_replicate. f_equal. lia.
    + left. replace leftover with 0 by lia. done.
  - exists w. unfold writer_ok. split_and!; try done; [apply Hbo | apply Hbo | by left].
Qed.

Lemma AddRecord_loop_spec fuel w ptr begin :
  writer_ok w -> plan_fuel (block_offset_ w) ptr <= Z.of_nat fuel ->
  exists w' s, AddRecord_loop fuel w ptr begin = Ret (w', s) /\ writer_ok w' /\
    (s = OK -> block_offset_ w' = end_offset (block_offset_ w) (plan fuel (block_offset_ w) ptr begin)) /\
    wrote (dest_ w) (dest_ w') s (layout (block_offset_ w) (plan fuel (block_offset_ w) ptr begin)).
Proof.
  revert w ptr begin. induction fuel as [|fuel IH]; intros w ptr begin Hw Hfuel.
  { unfold plan_fuel in Hfuel. pose proof (zlen_nonneg ptr). destruct (_ =? 0); lia. }
  set (bo := block_offset_ w) in *.
  pose proof (plan_round bo ptr (proj1 Hw)) as (Hfl & Hlen & Hno & Hlast & Hnext).
  destruct (switch_block_spec w Hw) as (w1 & E1 & Hw1 & Hbo1 & Hd1).
  cbn [AddRecord_loop plan layout end_offset]. rewrite E1. simpl obind. fold bo in Hbo1.
  rewrite Hbo1. pose proof (norm_range bo (proj1 Hw)).
  destruct (Z.leb_spec 0 (kBlockSize - norm bo - kHeaderSize)); [|lia]. simpl obind.
  replace (if zlen ptr <? kBlockSize - norm bo - kHeaderSize then zlen ptr
    else kBlockSize - norm bo - kHeaderSize) with
    (Z.min (zlen ptr) (kBlockSize - norm bo - kHeaderSize)) by (destruct (Z.ltb_spec (zlen ptr) (kBlockSize - norm bo - kHeaderSize)); lia).
  set (fl := Z.min _ _) in *.
  destruct (EmitPhysicalRecord_spec w1 (fragment_type begin (zlen ptr =? fl)) (ztake fl ptr) Hw1)
    as (w2 & s2 & E2 & Hw2 & Hbo2 & Hd2).
  { rewrite Hbo1. unfold next_offset in Hno. lia. }
  rewrite E2. simpl obind. rewrite Hbo1 in Hbo2. fold (next_offset bo (ztake fl ptr)) in Hbo2.
  assert (wrote (dest_ w) (dest_ w2) s2
    (pad bo ++ phys (fragment_type begin (zlen ptr =? fl)) (ztake fl ptr))) as Hd12.
  { destruct Hd1 as [[Hd1 Hp]|[s1 Hd1]].
    - fold bo in Hp. rewrite Hp, <- Hd1. done.
    - by eapply wrote_seq. }
  destruct (ok s2) eqn:Hs2; simpl andb.
  - destruct (Z.ltb_spec 0 (zlen ptr - fl)).
    + destruct (IH w2 (zdrop fl ptr) false Hw2) as (w3 & s3 & E3 & Hw3 & Hbo3 & Hd3).
      { rewrite Hbo2. lia. }
      exists w3, s3. rewrite Hbo2 in *. split_and!; [done | done | done |].
      rewrite app_assoc. by eapply wrote_seq.
    + exists w2, s2. split_and!; [done | done | done |]. by rewrite app_nil_r.
  - exists w2, s2. assert (s2 <> OK) by (by intros ->). split_and!; [done | done | done |].
    rewrite app_assoc. by apply wrote_stop.
Qed.

Lemma AddRecord_wrote w slice :
  writer_ok w ->
  exists w' s, AddRecord w slice = Ret (w', s) /\ writer_ok w' /\
    (s = OK -> block_offset_ w' = end_offset (block_offset_ w) (record_plan (block_offset_ w) slice)) /\
    wrote (dest_ w) (dest_ w') s (record_layout (block_offset_ w) slice).
Proof. intros Hw. apply AddRecord_loop_spec; [done | apply plan_fuel_le]. Qed.

End WriterProofs.
