(* ===== verification/LogReader.v ===== *)
(** * LogReader: the write-ahead log reader ([log/log_reader.h], [log/log_reader.c])

    The state of a [Reader] is its fields in the source plus the list of corruptions handed
    to the reporter, oldest first.  The two [while (true)] loops take fuel. *)

From stdpp Require Import pretty.
From S2P Require Import Prelude Coding Env Crc32c LogWriter.

Definition kEof : Z := kMaxRecordType + 1.
Definition kBadRecord : Z := kMaxRecordType + 2.

Section Reader.
Context `{Crc32c} {F : Type} `{SequentialFile F}.

Record Reader := mkReader {
  file_ : F;
  reporter_ : bool;
  reports_ : list (Z * Status);
  checksum_ : bool;
  buffer_ : bytes;
  eof_ : bool;
  last_record_offset_ : Z;
  end_of_buffer_offset_ : Z;
  initial_offset_ : Z;
  resyncing_ : bool;
}.

Definition new_Reader (file : F) (reporter checksum : bool) (initial_offset : Z) : Reader :=
  mkReader file reporter [] checksum [] false 0 0 initial_offset (0 <? initial_offset).

Definition set_file r f := mkReader f (reporter_ r) (reports_ r) (checksum_ r) (buffer_ r)
  (eof_ r) (last_record_offset_ r) (end_of_buffer_offset_ r) (initial_offset_ r) (resyncing_ r).
Definition set_buffer r b := mkReader (file_ r) (reporter_ r) (reports_ r) (checksum_ r) b
  (eof_ r) (last_record_offset_ r) (end_of_buffer_offset_ r) (initial_offset_ r) (resyncing_ r).
Definition set_eof r e := mkReader (file_ r) (reporter_ r) (reports_ r) (checksum_ r) (buffer_ r)
  e (last_record_offset_ r) (end_of_buffer_offset_ r) (initial_offset_ r) (resyncing_ r).
Definition set_last r o := mkReader (file_ r) (reporter_ r) (reports_ r) (checksum_ r) (buffer_ r)
  (eof_ r) o (end_of_buffer_offset_ r) (initial_offset_ r) (resyncing_ r).
Definition set_end r o := mkReader (file_ r) (reporter_ r) (reports_ r) (checksum_ r) (buffer_ r)
  (eof_ r) (last_record_offset_ r) o (initial_offset_ r) (resyncing_ r).
Definition set_resyncing r b := mkReader (file_ r) (reporter_ r) (reports_ r) (checksum_ r)
  (buffer_ r) (eof_ r) (last_record_offset_ r) (end_of_buffer_offset_ r) (initial_offset_ r) b.
Definition add_report r p := mkReader (file_ r) (reporter_ r) (reports_ r ++ [p]) (checksum_ r)
  (buffer_ r) (eof_ r) (last_record_offset_ r) (end_of_buffer_offset_ r) (initial_offset_ r)
  (resyncing_ r).

Definition ReportDrop (r : Reader) (bytes : Z) (reason : Status) : Reader :=
  if reporter_ r &&
     (initial_offset_ r <=? u64 (end_of_buffer_offset_ r - zlen (buffer_ r) - bytes))
  then add_report r (bytes, reason)
  else r.

Definition ReportCorruption (r : Reader) (bytes : Z) (reason : string) : Reader :=
  ReportDrop r bytes (Corruption reason).

Definition SkipToInitialBlock (r : Reader) : Reader * bool :=
  let offset_in_block := initial_offset_ r mod kBlockSize in
  let block_start_location := initial_offset_ r - offset_in_block in
  let block_start_location :=
    if kBlockSize - 6 <? offset_in_block then u64 (block_start_location + kBlockSize)
    else block_start_location in
  let r := set_end r block_start_location in
  if 0 <? block_start_location then
    let '(f, skip_status) := Skip (file_ r) block_start_location in
    let r := set_file r f in
    if ok skip_status then (r, true)
    else (ReportDrop r block_start_location skip_status, false)
  else (r, true).

(** The part of the loop body after the buffer holds a header: the record type or special
    value, and the new contents of [*result]. *)
Definition ParsePhysicalRecord (r : Reader) (result : bytes) : Reader * Z * bytes :=
  let header := buffer_ r in
  let a := Z.land (byte_at header 4) 0xff in
  let b := Z.land (byte_at header 5) 0xff in
  let type := u32 (schar (nth 6 header x00)) in
  let length := Z.lor a (u32 (b ≪ 8)) in
  if zlen (buffer_ r) <? kHeaderSize + length then
    let drop_size := zlen (buffer_ r) in
    let r := set_buffer r [] in
    if negb (eof_ r) then
      (ReportCorruption r drop_size "bad record length", kBadRecord, result)
    else (r, kEof, result)
  else if (type =? record_code kZeroType) && (length =? 0) then
    (set_buffer r [], kBadRecord, result)
  else if checksum_ r &&
          negb (Value (ztake (1 + length) (zdrop 6 header)) =? Unmask (DecodeFixed32 header)) then
    let drop_size := zlen (buffer_ r) in
    let r := set_buffer r [] in
    (ReportCorruption r drop_size "checksum mismatch", kBadRecord, result)
  else
    let r := set_buffer r (zdrop (kHeaderSize + length) (buffer_ r)) in
    if u64 (end_of_buffer_offset_ r - zlen (buffer_ r) - kHeaderSize - length)
         <? initial_offset_ r then (r, kBadRecord, [])
    else (r, type, ztake length (zdrop kHeaderSize header)).

(** Two rounds are enough: after a read, either a header is there or [eof_] is set. *)
Fixpoint ReadPhysicalRecord_loop (fuel : nat) (r : Reader) (result : bytes)
    : outcome (Reader * Z * bytes) :=
  match fuel with
  | O => OutOfFuel
  | S fuel =>
      if zlen (buffer_ r) <? kHeaderSize then
        if negb (eof_ r) then
          let r := set_buffer r [] in
          let '(f, status, data) := Read (file_ r) kBlockSize in
          let r := set_buffer (set_file r f) data in
          let r := set_end r (u64 (end_of_buffer_offset_ r + zlen (buffer_ r))) in
          if negb (ok status) then
            let r := set_buffer r [] in
            let r := ReportDrop r kBlockSize status in
            Ret (set_eof r true, kEof, result)
          else if zlen (buffer_ r) <? kBlockSize then
            ReadPhysicalRecord_loop fuel (set_eof r true) result
          else ReadPhysicalRecord_loop fuel r result
        else Ret (set_buffer r [], kEof, result)
      else Ret (ParsePhysicalRecord r result)
  end.

Definition ReadPhysicalRecord (r : Reader) (result : bytes) : outcome (Reader * Z * bytes) :=
  ReadPhysicalRecord_loop 2 r result.

(** The local variables of [ReadRecord] across rounds. *)
Record locals := mkLocals {
  fragment : bytes;
  scratch : bytes;
  in_fragmented_record : bool;
  prospective_record_offset : Z;
}.

Open Scope outcome_scope.

(** One round: either the function returns ([inl]), or the loop goes on. *)
Definition ReadRecord_step (r : Reader) (v : locals)
    : outcome (Reader * (option bytes + locals)) :=
  let! (r, record_type, frag) := ReadPhysicalRecord r (fragment v) in
  let physical_record_offset :=
    u64 (end_of_buffer_offset_ r - zlen (buffer_ r) - kHeaderSize - zlen frag) in
  let v := mkLocals frag (scratch v) (in_fragmented_record v) (prospective_record_offset v) in
  if resyncing_ r && (record_type =? record_code kMiddleType) then Ret (r, inr v)
  else if resyncing_ r && (record_type =? record_code kLastType) then
    Ret (set_resyncing r false, inr v)
  else
  let r := set_resyncing r false in
  if record_type =? record_code kFullType then
    let r :=
      if in_fragmented_record v && negb (zlen (scratch v) =? 0)
      then ReportCorruption r (zlen (scratch v)) "partial record without end(1)" else r in
    Ret (set_last r physical_record_offset, inl (Some frag))
  else if record_type =? record_code kFirstType then
    let r :=
      if in_fragmented_record v && negb (zlen (scratch v) =? 0)
      then ReportCorruption r (zlen (scratch v)) "partial record without end(2)" else r in
    Ret (r, inr (mkLocals frag frag true physical_record_offset))
  else if record_type =? record_code kMiddleType then
    if negb (in_fragmented_record v) then
      Ret (ReportCorruption r (zlen frag) "missing start of fragmented record(1)", inr v)
    else
      Ret (r, inr (mkLocals frag (scratch v ++ frag) true (prospective_record_offset v)))
  else if record_type =? record_code kLastType then
    if negb (in_fragmented_record v) then
      Ret (ReportCorruption r (zlen frag) "missing start of fragmented record(2)", inr v)
    else
      Ret (set_last r (prospective_record_offset v), inl (Some (scratch v ++ frag)))
  else if record_type =? kEof then Ret (r, inl None)
  else if record_type =? kBadRecord then
    if in_fragmented_record v then
      Ret (ReportCorruption r (zlen (scratch v)) "error in middle of record",
           inr (mkLocals frag [] false (prospective_record_offset v)))
    else Ret (r, inr v)
  else
    let dropped := zlen frag + (if in_fragmented_record v then zlen (scratch v) else 0) in
    Ret (ReportCorruption r dropped ("unknown record type " +:+ pretty record_type),
         inr (mkLocals frag [] false (prospective_record_offset v))).

Fixpoint ReadRecord_loop (fuel : nat) (r : Reader) (v : locals)
    : outcome (Reader * option bytes) :=
  match fuel with
  | O => OutOfFuel
  | S fuel =>
      let! (r, next) := ReadRecord_step r v in
      match next with
      | inl result => Ret (r, result)
      | inr v => ReadRecord_loop fuel r v
      end
  end.

(** [Some record]: the function returns true. *)
Definition ReadRecord (fuel : nat) (r : Reader) : outcome (Reader * option bytes) :=
  let start := mkLocals [] [] false 0 in
  if last_record_offset_ r <? initial_offset_ r then
    let '(r, skipped) := SkipToInitialBlock r in
    if skipped then ReadRecord_loop fuel r start else Ret (r, None)
  else ReadRecord_loop fuel r start.

Definition LastRecordOffset (r : Reader) : Z := last_record_offset_ r.

(** [while (reader.ReadRecord(&record, &scratch))]: the loop of every client of a log. *)
Fixpoint read_all (fuel : nat) (r : Reader) : outcome (Reader * list bytes) :=
  match fuel with
  | O => OutOfFuel
  | S n =>
      let! (r, record) := ReadRecord fuel r in
      match record with
      | None => Ret (r, [])
      | Some data =>
          let! (r, rest) := read_all n r in
          Ret (r, data :: rest)
      end
  end.

End Reader.
Arguments Reader F : clear implicits.

(** ** Reading back what a writer wrote *)

Section ReaderProofs.
Context `{Crc32c} {F : Type} `{SequentialFileLaws F}.
Implicit Types (r : Reader F) (v : locals) (t : RecordType).

(** [view r bo pos rem]: the reader is at file position [pos], block offset [bo], with the
    bytes [rem] left in the file; its buffer is the rest of the current block. *)
Record view (r : Reader F) (bo pos : Z) (rem : bytes) : Prop := mkView {
  view_bo : 0 <= bo <= kBlockSize;
  view_buffer : buffer_ r = ztake (kBlockSize - bo) rem;
  view_file : remaining (file_ r) = zdrop (kBlockSize - bo) rem;
  view_eof : eof_ r = (zlen rem <? kBlockSize - bo);
  view_end : end_of_buffer_offset_ r = u64 (pos + zlen (buffer_ r));
  view_initial : initial_offset_ r = 0;
  view_resyncing : resyncing_ r = false;
}.

Lemma u64_sub a b : u64 (u64 a - b) = u64 (a - b).
Proof. unfold u64. apply Zminus_mod_idemp_l. Qed.

Lemma u64_add a b : u64 (u64 a + b) = u64 (a + b).
Proof. unfold u64. apply Zplus_mod_idemp_l. Qed.

Lemma new_Reader_view f reporter checksum :
  view (new_Reader f reporter checksum 0) kBlockSize 0 (remaining f).
Proof.
  split; simpl; rewrite ?Z.sub_diag; try done.
  pose proof (zlen_nonneg (remaining f)).
  destruct (Z.ltb_spec (zlen (remaining f)) 0); lia.
Qed.

(** *** Header fields *)

Lemma length_bytes len :
  0 <= len <= 0xffff ->
  Z.lor (Z.land (b2z (z2b (Z.land len 0xff))) 0xff)
        (u32 (Z.land (b2z (z2b (len ≫ 8))) 0xff ≪ 8)) = len.
Proof.
  intros Hl. rewrite !b2z_z2b. unfold u32. change 256 with (2 ^ 8).
  change 0xff with (Z.ones 8). rewrite !Z.land_ones by lia.
  assert (0 <= len < 2 ^ 16) by lia. bits.
Qed.

Lemma code_byte t : u32 (schar (z2b (record_code t))) = record_code t.
Proof. by destruct t. Qed.

Lemma checksum_matches t d :
  Value (z2b (record_code t) :: d) =
  Unmask (u32 (Mask (Extend (Value [z2b (record_code t)]) d))).
Proof.
  unfold Value. rewrite u32_small by apply Mask_range.
  rewrite Unmask_Mask by (apply Extend_range, Extend_range; lia).
  rewrite Extend_app by lia. done.
Qed.

(** The fields of a header read from the bytes a writer produced. *)
Lemma phys_fields t d rest :
  zlen d <= 0xffff ->
  let h := phys t d ++ rest in
  Z.lor (Z.land (byte_at h 4) 0xff) (u32 (Z.land (byte_at h 5) 0xff ≪ 8)) = zlen d /\
  u32 (schar (nth 6 h x00)) = record_code t /\
  Value (ztake (1 + zlen d) (zdrop 6 h)) = Unmask (DecodeFixed32 h) /\
  ztake (zlen d) (zdrop kHeaderSize h) = d /\
  zdrop (kHeaderSize + zlen d) h = rest.
Proof.
  intros Hd h. pose proof (zlen_nonneg d). unfold h, phys, header_bytes.
  rewrite InitTypeCrc_nth, <- !app_assoc. split_and!.
  - apply length_bytes. lia.
  - apply code_byte.
  - rewrite DecodeFixed32_Encode, <- checksum_matches. f_equal.
    change (zdrop 6 _) with ((z2b (record_code t) :: d) ++ rest).
    apply ztake_app_len. zlen_lia.
  - change (zdrop kHeaderSize _) with (d ++ rest). by apply ztake_app_len.
  - rewrite !app_assoc. apply zdrop_app_len. rewrite !zlen_app. reflexivity.
Qed.

(** *** One physical record *)

Lemma view_buffer_phys r bo pos t d rem :
  view r bo pos (phys t d ++ rem) -> bo + kHeaderSize + zlen d <= kBlockSize ->
  buffer_ r = phys t d ++ ztake (kBlockSize - (bo + kHeaderSize + zlen d)) rem.
Proof.
  intros V Hfit. rewrite (view_buffer _ _ _ _ V). unfold ztake. rewrite take_app.
  pose proof (zlen_phys t d) as Hp. pose proof (zlen_nonneg d).
  assert (kHeaderSize = 7) by done. unfold zlen in *.
  rewrite take_ge by lia. do 2 f_equal. lia.
Qed.

(** Consuming [n] bytes of the buffer. *)
Lemma view_advance r bo pos a rem :
  view r bo pos (a ++ rem) -> bo + zlen a <= kBlockSize ->
  view (set_buffer r (ztake (kBlockSize - (bo + zlen a)) rem)) (bo + zlen a) (pos + zlen a) rem.
Proof.
  intros V Hfit. pose proof (view_bo _ _ _ _ V). pose proof (zlen_nonneg a).
  split; simpl; try apply V; [lia | done | | |].
  - rewrite (view_file _ _ _ _ V). unfold zdrop, zlen in *.
    rewrite drop_app, drop_ge by lia. simpl. f_equal. lia.
  - rewrite (view_eof _ _ _ _ V), zlen_app. lia.
  - rewrite (view_end _ _ _ _ V), (view_buffer _ _ _ _ V). f_equal.
    rewrite !zlen_ztake, zlen_app. zlen_lia.
Qed.

Lemma parse_phys r bo pos t d rem result :
  view r bo pos (phys t d ++ rem) -> bo + kHeaderSize + zlen d <= kBlockSize ->
  t <> kZeroType ->
  exists r', ParsePhysicalRecord r result = (r', record_code t, d) /\
    view r' (bo + kHeaderSize + zlen d) (pos + kHeaderSize + zlen d) rem /\
    reports_ r' = reports_ r /\ last_record_offset_ r' = last_record_offset_ r.
Proof.
  intros V Hfit Ht. pose proof (zlen_nonneg d).
  assert (kHeaderSize = 7) as H7 by done. assert (kBlockSize = 32768) as HB by done.
  pose proof (view_bo _ _ _ _ V) as Hbo.
  pose proof (view_buffer_phys _ _ _ _ _ _ V Hfit) as Hbuf.
  set (rest := ztake _ rem) in *.
  destruct (phys_fields t d rest ltac:(lia)) as (Hlen & Hty & Hcrc & Hpay & Hdrop).
  unfold ParsePhysicalRecord. rewrite Hbuf, Hlen, Hty.
  assert ((zlen (phys t d ++ rest) <? kHeaderSize + zlen d) = false) as ->.
  { rewrite zlen_app, zlen_phys. pose proof (zlen_nonneg rest). lia. }
  assert ((record_code t =? record_code kZeroType) && (zlen d =? 0) = false) as ->
    by (by destruct t).
  rewrite Hcrc, Z.eqb_refl, andb_false_r, Hdrop, Hpay. simpl.
  rewrite (view_initial _ _ _ _ V).
  destruct (Z.ltb_spec (u64 (end_of_buffer_offset_ r - zlen rest - kHeaderSize - zlen d)) 0);
    [pose proof (u64_range (end_of_buffer_offset_ r - zlen rest - kHeaderSize - zlen d)); lia|].
  eexists. split; [done|]. split; [|done]. subst rest.
  replace (bo + kHeaderSize + zlen d) with (bo + zlen (phys t d)) by (rewrite zlen_phys; lia).
  replace (pos + kHeaderSize + zlen d) with (pos + zlen (phys t d)) by (rewrite zlen_phys; lia).
  apply view_advance; [done|]. rewrite zlen_phys. lia.
Qed.

(** Skipping the trailer of a block reads the next one. *)
Lemma refill fuel r bo pos rem result :
  view r bo pos rem -> kBlockSize - bo < kHeaderSize -> kBlockSize - bo <= zlen rem ->
  exists r', ReadPhysicalRecord_loop (S fuel) r result = ReadPhysicalRecord_loop fuel r' result /\
    view r' 0 (pos + (kBlockSize - bo)) (zdrop (kBlockSize - bo) rem) /\
    reports_ r' = reports_ r /\ last_record_offset_ r' = last_record_offset_ r.
Proof.
  intros V Htr Hlen. pose proof (view_bo _ _ _ _ V) as Hbo.
  assert (zlen (buffer_ r) = kBlockSize - bo) as Hb
    by (rewrite (view_buffer _ _ _ _ V), zlen_ztake; lia).
  cbn [ReadPhysicalRecord_loop].
  destruct (Z.ltb_spec (zlen (buffer_ r)) kHeaderSize); [|lia].
  assert (eof_ r = false) as He by (rewrite (view_eof _ _ _ _ V); lia). rewrite He. simpl.
  destruct (read_spec (file_ r) kBlockSize ltac:(done)) as (f' & -> & Hf'). simpl.
  rewrite (view_file _ _ _ _ V) in *.
  set (rem1 := zdrop (kBlockSize - bo) rem) in *.
  assert (forall r', r' = set_eof (set_end (set_buffer (set_file (set_buffer r []) f') (ztake kBlockSize rem1))
      (u64 (end_of_buffer_offset_ r + zlen (ztake kBlockSize rem1)))) (zlen rem1 <? kBlockSize) ->
    view r' 0 (pos + (kBlockSize - bo)) rem1 /\ reports_ r' = reports_ r /\
    last_record_offset_ r' = last_record_offset_ r) as Hview.
  { intros r' ->. split; [|done]. split; simpl; rewrite ?Z.sub_0_r; try done; try apply V.
    rewrite (view_end _ _ _ _ V), u64_add, Hb. done. }
  pose proof (zlen_nonneg rem1).
  replace (zlen (ztake kBlockSize rem1) <? kBlockSize) with (zlen rem1 <? kBlockSize)
    by (rewrite zlen_ztake; assert (kBlockSize = 32768) by done; lia).
  destruct (zlen rem1 <? kBlockSize) eqn:Hs; eexists; (split; [done|]); apply Hview; [done|].
  unfold set_eof, set_end. simpl. by rewrite He.
Qed.

Lemma pad_length bo : zlen (pad bo) = if kBlockSize - bo <? kHeaderSize then Z.max 0 (kBlockSize - bo) else 0.
Proof. unfold pad. destruct (_ <? _); [rewrite zlen_replicate; lia | done]. Qed.

Lemma read_phys r bo pos t d rem result :
  view r bo pos (pad bo ++ phys t d ++ rem) -> next_offset bo d <= kBlockSize ->
  t <> kZeroType ->
  exists r', ReadPhysicalRecord r result = Ret (r', record_code t, d) /\
    view r' (next_offset bo d) (pos + zlen (pad bo) + kHeaderSize + zlen d) rem /\
    reports_ r' = reports_ r /\ last_record_offset_ r' = last_record_offset_ r.
Proof.
  intros V Hfit Ht. unfold ReadPhysicalRecord.
  assert (forall fuel r1 bo1 pos1, view r1 bo1 pos1 (phys t d ++ rem) ->
    bo1 + kHeaderSize + zlen d <= kBlockSize ->
    ReadPhysicalRecord_loop (S fuel) r1 result = Ret (ParsePhysicalRecord r1 result)) as Hparse.
  { intros fuel r1 bo1 pos1 V1 Hf1. cbn [ReadPhysicalRecord_loop].
    rewrite (view_buffer_phys _ _ _ _ _ _ V1 Hf1), zlen_app, zlen_phys.
    set (rest := ztake _ rem). pose proof (zlen_nonneg rest). pose proof (zlen_nonneg d).
    destruct (Z.ltb_spec (kHeaderSize + zlen d + zlen rest) kHeaderSize); [lia | done]. }
  rewrite pad_length. unfold next_offset, norm in *. pose proof (view_bo _ _ _ _ V).
  destruct (Z.ltb_spec (kBlockSize - bo) kHeaderSize) as [Htr|Htr].
  - destruct (refill 1 r bo pos _ result V Htr) as (r1 & -> & V1 & Hr1 & Hl1).
    { rewrite zlen_app, pad_length. zlen_pos. destruct (Z.ltb_spec (kBlockSize - bo) kHeaderSize); lia. }
    rewrite zdrop_app_len in V1
      by (rewrite pad_length; destruct (Z.ltb_spec (kBlockSize - bo) kHeaderSize); lia).
    rewrite (Hparse 0%nat r1 0 _ V1) by lia.
    destruct (parse_phys _ _ _ _ _ _ result V1 ltac:(lia) Ht) as (r2 & -> & V2 & Hr2 & Hl2).
    exists r2. rewrite Z.max_r by lia. split_and!; [done | done | congruence | congruence].
  - unfold pad in V. destruct (Z.ltb_spec (kBlockSize - bo) kHeaderSize); [lia|].
    rewrite (Hparse 1%nat r bo pos V) by lia.
    destruct (parse_phys _ _ _ _ _ _ result V ltac:(lia) Ht) as (r2 & -> & V2 & Hr2 & Hl2).
    exists r2. rewrite Z.add_0_r. done.
Qed.

(** *** A physical record cut short by the end of the file *)

Lemma header_truncated fuel r bo pos t d rem result :
  view r bo pos rem -> bo + kHeaderSize + zlen d <= kBlockSize ->
  rem `prefix_of` phys t d -> zlen rem < kHeaderSize + zlen d ->
  exists r', ReadPhysicalRecord_loop (S fuel) r result = Ret (r', kEof, result) /\
    reports_ r' = reports_ r.
Proof.
  intros V Hfit [x Hx] Hlt. pose proof (view_bo _ _ _ _ V).
  assert (kHeaderSize = 7) as H7 by done. assert (kBlockSize = 32768) as HB by done.
  assert (eof_ r = true) as He by (rewrite (view_eof _ _ _ _ V); lia).
  assert (buffer_ r = rem) as Hb by (rewrite (view_buffer _ _ _ _ V), ztake_all by lia; done).
  cbn [ReadPhysicalRecord_loop]. rewrite Hb, He. simpl.
  destruct (Z.ltb_spec (zlen rem) kHeaderSize); [by eexists|].
  destruct (phys_fields t d [] ltac:(lia)) as (Hlen & _). rewrite app_nil_r in Hlen.
  unfold ParsePhysicalRecord. rewrite Hb.
  assert (forall i, (i < 7)%nat -> byte_at rem i = byte_at (phys t d) i) as Hnth.
  { intros i Hi. unfold byte_at. rewrite Hx, app_nth1; [done|]. unfold zlen in *. lia. }
  rewrite !Hnth, Hlen by lia.
  destruct (Z.ltb_spec (zlen rem) (kHeaderSize + zlen d)); [|lia]. simpl. rewrite He. by eexists.
Qed.

Lemma prefix_app_inv_long {A} (p a b : list A) :
  p `prefix_of` a ++ b -> zlen a <= zlen p -> exists p', p = a ++ p' /\ p' `prefix_of` b.
Proof.
  intros [x Hx] Hlen. exists (drop (length a) p). unfold zlen in *.
  assert (take (length a) p = a) as Ha.
  { apply (f_equal (take (length a))) in Hx. rewrite take_app_length, take_app_le in Hx by lia. done. }
  split; [by rewrite <- Ha at 1; rewrite take_drop|].
  exists x. apply (app_inv_head a). rewrite Hx, app_assoc. f_equal.
  by rewrite <- Ha at 1; rewrite take_drop.
Qed.

Lemma read_truncated r bo pos t d rem result :
  view r bo pos rem -> next_offset bo d <= kBlockSize ->
  rem `prefix_of` pad bo ++ phys t d -> zlen rem < zlen (pad bo) + (kHeaderSize + zlen d) ->
  exists r', ReadPhysicalRecord r result = Ret (r', kEof, result) /\ reports_ r' = reports_ r.
Proof.
  intros V Hfit Hpre Hlt. unfold ReadPhysicalRecord. pose proof (view_bo _ _ _ _ V) as Hbo.
  rewrite pad_length in Hlt. unfold next_offset, norm in Hfit.
  destruct (Z.ltb_spec (kBlockSize - bo) kHeaderSize) as [Htr|Htr].
  - destruct (Z.le_gt_cases (kBlockSize - bo) (zlen rem)) as [Hle|Hgt].
    + destruct (refill 1 r bo pos rem result V Htr Hle) as (r1 & -> & V1 & Hr1 & _).
      rewrite <- Hr1.
      assert (zlen (pad bo) = kBlockSize - bo) as Hpl.
      { rewrite pad_length. destruct (Z.ltb_spec (kBlockSize - bo) kHeaderSize); lia. }
      destruct (prefix_app_inv_long _ _ _ Hpre) as (rem1 & -> & Hpre1); [lia|].
      rewrite zdrop_app_len in V1 by done. rewrite zlen_app in Hlt.
      eapply (header_truncated _ _ _ _ t d); [done | lia | done | lia].
    + cbn [ReadPhysicalRecord_loop].
      rewrite (view_buffer _ _ _ _ V), (view_eof _ _ _ _ V), (ztake_all _ rem) by lia.
      destruct (Z.ltb_spec (zlen rem) kHeaderSize); [|lia].
      destruct (Z.ltb_spec (zlen rem) (kBlockSize - bo)); [|lia]. simpl. by eexists.
  - unfold pad in Hpre. destruct (Z.ltb_spec (kBlockSize - bo) kHeaderSize); [lia|].
    eapply (header_truncated _ _ _ _ t d); [done | lia | done | lia].
Qed.

(** *** A whole record *)

(** The state of the loop in front of a chain that begins, or continues, a record. *)
Definition ready (begin : bool) (v : locals) : Prop := in_fragmented_record v = negb begin.

Definition assembled (begin : bool) (v : locals) (data : bytes) : bytes :=
  if begin then data else scratch v ++ data.

Definition record_start (begin : bool) (v : locals) (pos : Z) : Z :=
  if begin then u64 pos else prospective_record_offset v.

Lemma view_start r bo pos (d rem : bytes) :
  view r bo (pos + kHeaderSize + zlen d) rem ->
  u64 (end_of_buffer_offset_ r - zlen (buffer_ r) - kHeaderSize - zlen d) = u64 pos.
Proof.
  intros V. rewrite (view_end _ _ _ _ V).
  replace (u64 (pos + kHeaderSize + zlen d + zlen (buffer_ r)) - zlen (buffer_ r) - kHeaderSize - zlen d)
    with (u64 (pos + kHeaderSize + zlen d + zlen (buffer_ r)) - (zlen (buffer_ r) + kHeaderSize + zlen d)) by lia.
  rewrite u64_sub. f_equal. lia.
Qed.

Lemma view_set_last r bo pos rem o : view r bo pos rem -> view (set_last r o) bo pos rem.
Proof. by intros []. Qed.

Lemma view_set_resyncing r bo pos rem : view r bo pos rem -> view (set_resyncing r false) bo pos rem.
Proof. by intros []. Qed.

Lemma step_fragment begin last r v bo pos d rem :
  ready begin v ->
  view r bo pos (pad bo ++ phys (fragment_type begin last) d ++ rem) ->
  next_offset bo d <= kBlockSize ->
  exists r' next, ReadRecord_step r v = Ret (r', next) /\
    view r' (next_offset bo d) (pos + zlen (pad bo) + kHeaderSize + zlen d) rem /\
    reports_ r' = reports_ r /\
    if last then
      next = inl (Some (assembled begin v d)) /\
      last_record_offset_ r' = record_start begin v (pos + zlen (pad bo))
    else
      exists v', next = inr v' /\ ready false v' /\ scratch v' = assembled begin v d /\
        prospective_record_offset v' = record_start begin v (pos + zlen (pad bo)).
Proof.
  intros Hv V Hfit.
  destruct (read_phys r bo pos (fragment_type begin last) d rem (fragment v) V Hfit)
    as (r1 & Hr1 & V1 & Hrep & _); [by destruct begin, last|].
  unfold ReadRecord_step. rewrite Hr1. simpl obind.
  pose proof (view_start _ _ _ _ _ V1) as Hstart.
  rewrite (view_resyncing _ _ _ _ V1). cbn [andb in_fragmented_record scratch].
  unfold ready in Hv. rewrite Hv.
  destruct begin, last; simpl; do 2 eexists; (split; [done|]);
    (split; [auto using view_set_last, view_set_resyncing|]); (split; [done|]);
    rewrite ?Hstart; first [done | by eexists].
Qed.

Lemma step_truncated r v bo pos t d rem :
  view r bo pos rem -> next_offset bo d <= kBlockSize ->
  rem `prefix_of` pad bo ++ phys t d -> zlen rem < zlen (pad bo) + (kHeaderSize + zlen d) ->
  exists r', ReadRecord_step r v = Ret (r', inl None) /\ reports_ r' = reports_ r.
Proof.
  intros V Hfit Hpre Hlt.
  destruct (read_truncated r bo pos t d rem (fragment v) V Hfit Hpre Hlt) as (r1 & Hr1 & Hrep).
  unfold ReadRecord_step. rewrite Hr1. simpl obind.
  change (kEof =? record_code kMiddleType) with false.
  change (kEof =? record_code kLastType) with false. rewrite !andb_false_r. simpl.
  eexists. split; [done|]. done.
Qed.

Lemma prefix_app_inv_short {A} (p a b : list A) :
  p `prefix_of` a ++ b -> zlen p <= zlen a -> p `prefix_of` a.
Proof.
  intros [x Hx] Hlen. exists (drop (length p) a). unfold zlen in *.
  apply (f_equal (take (length a))) in Hx.
  rewrite take_app_length, take_app_ge in Hx by lia.
  rewrite Hx at 1 2. by rewrite drop_app_length.
Qed.

(** The bytes the chain occupies bound the rounds of the loop. *)
Lemma read_chain fuel begin l data r v bo pos rem :
  chain begin l data -> fits bo l -> ready begin v ->
  view r bo pos (layout bo l ++ rem) -> zlen (layout bo l ++ rem) < Z.of_nat fuel ->
  exists r', ReadRecord_loop fuel r v = Ret (r', Some (assembled begin v data)) /\
    view r' (end_offset bo l) (pos + zlen (layout bo l)) rem /\ reports_ r' = reports_ r /\
    last_record_offset_ r' = record_start begin v (pos + zlen (pad bo)).
Proof.
  intros Hc. revert fuel r v bo pos.
  induction Hc as [begin d|begin d l data Hc IH]; intros fuel r v bo pos Hfits Hv V Hfuel;
    cbn [layout end_offset] in *; destruct Hfits as [Hfit Hfits];
    rewrite <- !app_assoc in V;
    (destruct fuel as [|fuel]; [zlen_lia|]);
    destruct (step_fragment _ _ _ _ _ _ _ _ Hv V Hfit) as (r1 & next & E & V1 & Hrep & Hnext);
    cbn [ReadRecord_loop]; rewrite E; simpl obind.
  - destruct Hnext as [-> Hlast]. rewrite app_nil_l in V1. exists r1.
    split_and!; [done | | done | done].
    rewrite app_nil_r, zlen_app, zlen_phys, !Z.add_assoc. done.
  - destruct Hnext as (v' & -> & Hv' & Hsc & Hpro).
    assert (kHeaderSize = 7) by done.
    destruct (IH fuel r1 v' _ _ Hfits Hv' V1) as (r2 & -> & V2 & Hrep2 & Hlast2).
    { autorewrite with zlen in *. rewrite zlen_phys in Hfuel. zlen_pos. lia. }
    exists r2. split_and!; [| | congruence | by rewrite Hlast2].
    + unfold assembled at 1. rewrite Hsc. unfold assembled.
      destruct begin; [done | by rewrite app_assoc].
    + rewrite !zlen_app, zlen_phys.
      by replace (pos + (zlen (pad bo) + (kHeaderSize + zlen d + zlen (layout (next_offset bo d) l))))
        with (pos + zlen (pad bo) + kHeaderSize + zlen d + zlen (layout (next_offset bo d) l)) by lia.
Qed.

Lemma read_chain_truncated fuel begin l data r v bo pos rem :
  chain begin l data -> fits bo l -> ready begin v ->
  view r bo pos rem -> rem `prefix_of` layout bo l -> zlen rem < zlen (layout bo l) ->
  zlen rem < Z.of_nat fuel ->
  exists r', ReadRecord_loop fuel r v = Ret (r', None) /\ reports_ r' = reports_ r.
Proof.
  intros Hc. revert fuel r v bo pos rem.
  induction Hc as [begin d|begin d l data Hc IH]; intros fuel r v bo pos rem Hfits Hv V Hpre Hlt Hfuel;
    cbn [layout] in *; destruct Hfits as [Hfit Hfits];
    (destruct fuel as [|fuel]; [zlen_lia|]); cbn [ReadRecord_loop].
  - rewrite app_nil_r in *. rewrite zlen_app, zlen_phys in Hlt.
    destruct (step_truncated r v bo pos _ d rem V Hfit Hpre Hlt) as (r1 & -> & Hrep).
    simpl. eauto.
  - rewrite app_assoc in Hpre. rewrite !zlen_app, zlen_phys in Hlt.
    destruct (Z.lt_ge_cases (zlen rem) (zlen (pad bo) + (kHeaderSize + zlen d))) as [Hs|Hs].
    + destruct (step_truncated r v bo pos (fragment_type begin false) d rem V Hfit) as (r1 & -> & Hrep);
        [|done|simpl; eauto].
      eapply prefix_app_inv_short; [exact Hpre|]. rewrite zlen_app, zlen_phys. lia.
    + destruct (prefix_app_inv_long _ _ _ Hpre) as (rem1 & -> & Hpre1);
        [rewrite zlen_app, zlen_phys; lia|].
      rewrite <- app_assoc in V. rewrite !zlen_app, zlen_phys in *.
      destruct (step_fragment _ _ _ _ _ _ _ _ Hv V Hfit) as (r1 & next & E & V1 & Hrep & Hnext).
      rewrite E. simpl. destruct Hnext as (v' & -> & Hv' & _ & _).
      assert (kHeaderSize = 7) by done. zlen_pos.
      destruct (IH fuel r1 v' _ _ rem1 Hfits Hv' V1 Hpre1 ltac:(lia) ltac:(lia)) as (r2 & -> & Hrep2).
      exists r2. split; [done | congruence].
Qed.

(** *** A whole log *)

Lemma ReadRecord_from_start fuel r :
  initial_offset_ r = 0 -> 0 <= last_record_offset_ r ->
  ReadRecord fuel r = ReadRecord_loop fuel r (mkLocals [] [] false 0).
Proof.
  intros Hi Hl. unfold ReadRecord. rewrite Hi.
  destruct (Z.ltb_spec (last_record_offset_ r) 0); [lia | done].
Qed.

Lemma layout_pos bo l : l <> [] -> kHeaderSize <= zlen (layout bo l).
Proof.
  destruct l as [|[t d] l]; [done|]. intros _. cbn [layout].
  rewrite !zlen_app, zlen_phys. zlen_pos. lia.
Qed.

Lemma chain_nonempty begin l data : chain begin l data -> l <> [].
Proof. by destruct 1. Qed.

Lemma read_end fuel r v bo pos :
  view r bo pos [] ->
  exists r', ReadRecord_loop (S fuel) r v = Ret (r', None) /\ reports_ r' = reports_ r.
Proof.
  intros V. pose proof (norm_range bo (view_bo _ _ _ _ V)).
  destruct (step_truncated r v bo pos kFullType [] [] V) as (r1 & E & Hrep).
  - unfold next_offset. rewrite zlen_nil. lia.
  - apply prefix_nil.
  - assert (kHeaderSize = 7) by done. zlen_lia.
  - cbn [ReadRecord_loop]. rewrite E. simpl. eauto.
Qed.

(** The records of [records] that are complete in [rem], and no other, are read; nothing
    is reported. *)
Lemma read_log fuel records r bo pos rem :
  view r bo pos rem -> 0 <= last_record_offset_ r ->
  rem `prefix_of` log_layout bo records -> zlen rem < Z.of_nat fuel ->
  exists r' n, read_all fuel r = Ret (r', take n records) /\ reports_ r' = reports_ r /\
    (n <= length records)%nat /\
    (forall m, (m <= length records)%nat ->
       zlen (log_layout bo (take m records)) <= zlen rem <-> (m <= n)%nat).
Proof.
  revert fuel r bo pos rem.
  induction records as [|d records IH]; intros fuel r bo pos rem V Hlast Hpre Hfuel;
    (destruct fuel as [|fuel]; [zlen_lia|]); cbn [read_all];
    rewrite ReadRecord_from_start by (done || apply V).
  - cbn [log_layout] in Hpre. apply prefix_nil_inv in Hpre as ->.
    destruct (read_end fuel r (mkLocals [] [] false 0) bo pos V) as (r1 & -> & Hrep).
    exists r1, 0%nat. simpl. split_and!; [done | done | lia |].
    intros m Hm. rewrite firstn_nil. cbn [log_layout]. zlen_lia.
  - cbn [log_layout] in Hpre. pose proof (view_bo _ _ _ _ V) as Hbo.
    destruct (record_plan_spec bo d Hbo) as (Hc & Hfits & Hend).
    fold (record_layout bo d) in *. pose proof (layout_pos bo _ (chain_nonempty _ _ _ Hc)) as Hpos.
    fold (record_layout bo d) in Hpos. assert (kHeaderSize = 7) by done.
    destruct (Z.lt_ge_cases (zlen rem) (zlen (record_layout bo d))) as [Hs|Hs].
    + apply prefix_app_inv_short in Hpre; [|lia].
      destruct (read_chain_truncated (S fuel) _ _ _ r (mkLocals [] [] false 0) bo pos rem Hc Hfits)
        as (r1 & -> & Hrep); [done | done | done | done | lia |].
      exists r1, 0%nat. simpl. split_and!; [done | done | lia |].
      intros [|m] _; cbn [firstn log_layout]; [zlen_lia|]. rewrite zlen_app. zlen_pos. lia.
    + apply prefix_app_inv_long in Hpre as (rem1 & -> & Hpre1); [|done].
      rewrite zlen_app in *.
      destruct (read_chain (S fuel) _ _ _ r (mkLocals [] [] false 0) bo pos rem1 Hc Hfits)
        as (r1 & -> & V1 & Hrep1 & Hl1); [done | done | rewrite zlen_app; unfold record_layout in *; lia |].
      destruct (IH fuel r1 _ _ rem1 V1) as (r2 & n & E & Hrep2 & Hn & Hmax);
        [rewrite Hl1; apply u64_range | done | lia |].
      simpl. rewrite E. simpl. exists r2, (S n). split_and!; [done | congruence | lia |].
      intros [|m] Hm; cbn [firstn log_layout]; [zlen_lia|]. rewrite zlen_app.
      specialize (Hmax m). simpl in Hm. lia.
Qed.


(** *** Any file at all: the reader always comes to an end *)

Definition unread r : Z := zlen (buffer_ r) + zlen (remaining (file_ r)).

Lemma ReportDrop_unread r n s : unread (ReportDrop r n s) = unread r.
Proof. unfold ReportDrop. by destruct (_ && _). Qed.

Lemma ReportCorruption_unread r n s : unread (ReportCorruption r n s) = unread r.
Proof. apply ReportDrop_unread. Qed.

Lemma parse_unread r result r' ty frag :
  kHeaderSize <= zlen (buffer_ r) -> ParsePhysicalRecord r result = (r', ty, frag) ->
  unread r' + kHeaderSize <= unread r.
Proof.
  intros Hb. unfold ParsePhysicalRecord. assert (kHeaderSize = 7) by done.
  set (length := Z.lor _ _).
  assert (0 <= length).
  { apply Z.lor_nonneg. split; [apply land_ff_range | apply u32_range]. }
  destruct (Z.ltb_spec (zlen (buffer_ r)) (kHeaderSize + length)).
  { destruct (negb _); intros [= <- <- <-]; rewrite ?ReportCorruption_unread; unfold unread; simpl; zlen_lia. }
  destruct (_ && _); [intros [= <- <- <-]; unfold unread; simpl; zlen_lia|].
  destruct (_ && _); [intros [= <- <- <-]; rewrite ReportCorruption_unread; unfold unread; simpl; zlen_lia|].
  destruct (_ <? _); intros [= <- <- <-]; unfold unread; simpl; zlen_lia.
Qed.

Lemma physical_unread_loop r result :
  kHeaderSize <= zlen (buffer_ r) \/ eof_ r = true ->
  forall fuel, exists r' ty frag, ReadPhysicalRecord_loop (S fuel) r result = Ret (r', ty, frag) /\
    (ty = kEof \/ unread r' + kHeaderSize <= unread r).
Proof.
  intros Hr fuel. cbn [ReadPhysicalRecord_loop].
  destruct (Z.ltb_spec (zlen (buffer_ r)) kHeaderSize).
  - destruct Hr as [?| ->]; [lia|]. simpl. do 3 eexists. eauto.
  - destruct (ParsePhysicalRecord r result) as [[r' ty] frag] eqn:E.
    do 3 eexists. split; [done|]. right. by eapply parse_unread.
Qed.

Lemma physical_unread_refill r result fuel :
  zlen (buffer_ r) < kHeaderSize -> eof_ r = false ->
  exists r1, ReadPhysicalRecord_loop (S fuel) r result = ReadPhysicalRecord_loop fuel r1 result /\
    unread r1 <= unread r /\ (kHeaderSize <= zlen (buffer_ r1) \/ eof_ r1 = true).
Proof.
  intros Hb He. assert (kHeaderSize = 7) by done. assert (kBlockSize = 32768) by done.
  cbn [ReadPhysicalRecord_loop]. rewrite He.
  destruct (Z.ltb_spec (zlen (buffer_ r)) kHeaderSize); [|lia]. cbn [negb].
  destruct (read_spec (file_ r) kBlockSize ltac:(lia)) as (f' & E & Hf').
  cbn [file_ set_buffer]. rewrite E. cbn [ok negb buffer_ set_end set_buffer set_file].
  destruct (Z.ltb_spec (zlen (ztake kBlockSize (remaining (file_ r)))) kBlockSize);
    eexists; (split; [reflexivity|]); unfold unread; cbn; rewrite Hf', <- zlen_app, ztake_zdrop;
    (split; [zlen_lia | auto with lia]).
Qed.

Lemma physical_unread r result :
  exists r' ty frag, ReadPhysicalRecord r result = Ret (r', ty, frag) /\
    (ty = kEof \/ unread r' + kHeaderSize <= unread r).
Proof.
  unfold ReadPhysicalRecord.
  destruct (Z.le_gt_cases kHeaderSize (zlen (buffer_ r))) as [Hb|Hb];
    [by apply physical_unread_loop; left|].
  destruct (eof_ r) eqn:He; [by apply physical_unread_loop; right|].
  destruct (physical_unread_refill r result 1 Hb He) as (r1 & -> & Hle & Hr1).
  destruct (physical_unread_loop r1 result Hr1 0) as (r' & ty & frag & E & Hu).
  rewrite E. do 3 eexists. split; [reflexivity|]. destruct Hu; [auto | right; lia].
Qed.

Lemma step_unread r v :
  exists r' next, ReadRecord_step r v = Ret (r', next) /\
    (next = inl None \/ unread r' + kHeaderSize <= unread r).
Proof.
  destruct (physical_unread r (fragment v)) as (r1 & ty & frag & E & Hu).
  unfold ReadRecord_step. rewrite E. cbn [obind].
  destruct Hu as [->|Hu].
  - change (kEof =? record_code kMiddleType) with false.
    change (kEof =? record_code kLastType) with false. rewrite !andb_false_r.
    do 2 eexists. split; [done|]. by left.
  - assert (forall r2 (next : option bytes + locals), unread r2 = unread r1 ->
      exists r' nx, Ret (r2, next) = Ret (r', nx) /\
        (nx = inl None \/ unread r' + kHeaderSize <= unread r)) as Hk.
    { intros r2 next Hr2. do 2 eexists. split; [done|]. right. lia. }
    repeat (match goal with |- context [if ?b then _ else _] => destruct b end);
      apply Hk; rewrite ?ReportCorruption_unread; try done;
      unfold unread, set_last; simpl; apply ReportCorruption_unread.
Qed.

Lemma loop_unread fuel r v :
  unread r < Z.of_nat fuel ->
  exists r' result, ReadRecord_loop fuel r v = Ret (r', result) /\
    (result = None \/ unread r' + kHeaderSize <= unread r).
Proof.
  revert r v. induction fuel as [|fuel IH]; intros r v Hf.
  { unfold unread in Hf. zlen_lia. }
  assert (kHeaderSize = 7) by done.
  destruct (step_unread r v) as (r1 & next & E & Hu). cbn [ReadRecord_loop]. rewrite E. cbn [obind].
  destruct next as [result|v'].
  - do 2 eexists. split; [done|]. destruct Hu as [[= ->]|]; auto.
  - destruct Hu as [?|Hu]; [done|].
    destruct (IH r1 v') as (r2 & result & E2 & Hu2); [lia|].
    do 2 eexists. split; [exact E2|]. destruct Hu2; [auto | right; lia].
Qed.

Lemma SkipToInitialBlock_unread r :
  unread (fst (SkipToInitialBlock r)) <= unread r.
Proof.
  unfold SkipToInitialBlock. set (loc := if kBlockSize - 6 <? _ then _ else _).
  destruct (Z.ltb_spec 0 loc); [|simpl; unfold unread; simpl; lia].
  destruct (skip_spec (file_ (set_end r loc)) loc ltac:(lia)) as (f' & -> & Hf'). simpl.
  unfold unread. simpl in *. rewrite Hf'. zlen_lia.
Qed.

Lemma ReadRecord_unread fuel r :
  unread r < Z.of_nat fuel ->
  exists r' result, ReadRecord fuel r = Ret (r', result) /\
    (result = None \/ unread r' + kHeaderSize <= unread r).
Proof.
  intros Hf. unfold ReadRecord. destruct (_ <? _); [|by apply loop_unread].
  pose proof (SkipToInitialBlock_unread r) as Hs.
  destruct (SkipToInitialBlock r) as [r1 [|]]; simpl in Hs.
  - destruct (loop_unread fuel r1 (mkLocals [] [] false 0)) as (r2 & res & E & Hu); [lia|].
    do 2 eexists. split; [exact E|]. destruct Hu; [auto | right; lia].
  - do 2 eexists. eauto.
Qed.

Lemma read_all_unread fuel r :
  unread r < Z.of_nat fuel ->
  exists r' records, read_all fuel r = Ret (r', records) /\
    kHeaderSize * Z.of_nat (length records) <= unread r.
Proof.
  assert (kHeaderSize = 7) by done. revert r.
  induction fuel as [|fuel IH]; intros r Hf; assert (0 <= unread r) by (unfold unread; zlen_lia); [lia|].
  cbn [read_all]. destruct (ReadRecord_unread (S fuel) r Hf) as (r1 & [d|] & -> & Hu); cbn [obind].
  - destruct Hu as [?|Hu]; [done|]. destruct (IH r1) as (r2 & rest & -> & Hn); [lia|].
    cbn [obind]. do 2 eexists. split; [done|]. cbn [length]. lia.
  - do 2 eexists. split; [done|]. simpl. lia.
Qed.

End ReaderProofs.
