(* ===== verification/LogCorrect.v ===== *)
(** * The log as a whole

    A client writes records one after the other and a reader later reads them back: the
    theorems that make the pair [log_writer.c] / [log_reader.c] a write-ahead log. The
    files are those of the [Env] interface, so every theorem holds for every file that
    satisfies the interface's laws, and for every checksum of the [Crc32c] class. *)

From S2P Require Import Prelude Coding Env Crc32c LogWriter LogReader.

Open Scope outcome_scope.

(** ** The client of a writer

    Each record is handed to [AddRecord] in turn, whatever the earlier calls returned, as
    [DBImpl::Write] does; the statuses are what the callers saw. *)
Fixpoint write_all `{Crc32c} {F} `{WritableFile F} (w : Writer F) (records : list bytes)
    : outcome (Writer F * list Status) :=
  match records with
  | [] => Ret (w, [])
  | d :: records =>
      let! (w, s) := AddRecord w d in
      let! (w, ss) := write_all w records in
      Ret (w, s :: ss)
  end.

(** The number of calls that succeeded before the first failure. *)
Fixpoint acknowledged (ss : list Status) : nat :=
  match ss with
  | [] => 0
  | s :: ss => if ok s then S (acknowledged ss) else 0
  end.

Section Log.
Context `{Crc32c} {F : Type} `{WritableFileLaws F} {G : Type} `{SequentialFileLaws G}.

(** After a failure nothing more is accepted and nothing more is written. *)
Lemma write_all_failed w records :
  writer_ok w -> failed (dest_ w) ->
  exists w' ss, write_all w records = Ret (w', ss) /\ writer_ok w' /\
    contents (dest_ w') = contents (dest_ w) /\ Forall (fun s => s <> OK) ss.
Proof.
  revert w. induction records as [|d records IH]; intros w Hw Hf; cbn [write_all].
  { do 2 eexists. split_and!; [done | done | done |]. constructor. }
  destruct (AddRecord_wrote w d Hw) as (w1 & s & -> & Hw1 & _ & [(-> & Hn & _)|(Hs & Hf1 & p & _ & Hc & Hp)]);
    [done|]. cbn [obind].
  destruct (IH w1 Hw1 Hf1) as (w2 & ss & -> & Hw2 & Hc2 & Hall). cbn [obind].
  do 2 eexists. split_and!; [done | done | |by constructor].
  rewrite Hc2, Hc, Hp by done. by rewrite app_nil_r.
Qed.

Lemma acknowledged_failed ss : Forall (fun s => s <> OK) ss -> acknowledged ss = 0%nat.
Proof. by destruct 1 as [|[] ? ?]. Qed.

Lemma acknowledged_all ss : Forall (fun s => s = OK) ss -> acknowledged ss = length ss.
Proof. induction 1 as [|s ss -> _ IH]; simpl; congruence. Qed.

Lemma acknowledged_le ss : (acknowledged ss <= length ss)%nat.
Proof. induction ss as [|s ss IH]; simpl; [lia|]. destruct (ok s); lia. Qed.

(** What ends up in the file: a prefix of the layout of the records, which contains every
    acknowledged one. *)
Lemma write_all_layout w records :
  writer_ok w ->
  exists w' ss p, write_all w records = Ret (w', ss) /\ writer_ok w' /\
    length ss = length records /\
    (forall i, (acknowledged ss <= i)%nat -> ss !! i <> Some OK) /\
    contents (dest_ w') = contents (dest_ w) ++ p /\
    p `prefix_of` log_layout (block_offset_ w) records /\
    log_layout (block_offset_ w) (take (acknowledged ss) records) `prefix_of` p.
Proof.
  revert w. induction records as [|d records IH]; intros w Hw; cbn [write_all].
  { do 2 eexists. exists []. split_and!; try done. by rewrite app_nil_r. }
  destruct (AddRecord_wrote w d Hw)
    as (w1 & s & -> & Hw1 & Hbo & [(-> & _ & _ & Hc)|(Hs & Hf1 & p & Hp & Hc & _)]); cbn [obind].
  - destruct (IH w1 Hw1) as (w2 & ss & p & -> & Hw2 & Hlen & Hacc & Hc2 & Hp & Hk).
    do 2 eexists. exists (record_layout (block_offset_ w) d ++ p).
    rewrite Hbo in Hp, Hk by done. split_and!; try done.
    + simpl. lia.
    + intros [|i]; simpl; [lia|]. intros. apply Hacc. lia.
    + by rewrite Hc2, Hc, app_assoc.
    + cbn [log_layout]. by apply prefix_app.
    + cbn [acknowledged ok firstn log_layout]. by apply prefix_app.
  - destruct (write_all_failed w1 records Hw1 Hf1) as (w2 & ss & E & Hw2 & Hc2 & Hall).
    rewrite E. cbn [obind]. do 2 eexists. exists p. split_and!; try done.
    + destruct (IH w1 Hw1) as (? & ? & ? & E' & _ & Hlen & _).
      rewrite E in E'. injection E' as <- <-. simpl. lia.
    + intros i _ Hi. destruct i as [|i]; [by injection Hi as ->|].
      rewrite Forall_lookup in Hall. by eapply Hall.
    + by rewrite Hc2.
    + etrans; [done|]. cbn [log_layout]. by apply prefix_app_r.
    + destruct s; simpl; try apply prefix_nil. done.
Qed.

Lemma new_Writer_ok (f : F) : writer_ok (new_Writer f).
Proof. by split. Qed.

(** The end of a block and the start of the next one are the same place. *)
Lemma log_layout_block records : log_layout kBlockSize records = log_layout 0 records.
Proof.
  destruct records as [|d records]; [done|]. cbn [log_layout].
  assert (pad kBlockSize = pad 0) as Hp by done. assert (norm kBlockSize = norm 0) as Hn by done.
  unfold record_layout, record_plan. cbn [plan layout end_offset].
  unfold next_offset. by rewrite Hp, Hn.
Qed.

(** ** A log that is continued after a reopen *)

Lemma next_offset_mod bo d :
  0 <= bo <= kBlockSize ->
  (bo + zlen (pad bo) + kHeaderSize + zlen d) mod kBlockSize = next_offset bo d mod kBlockSize.
Proof.
  intros Hbo. unfold next_offset, pad, norm. assert (kHeaderSize = 7) by done.
  assert (kBlockSize = 32768) by done.
  destruct (Z.ltb_spec (kBlockSize - bo) kHeaderSize); [|by rewrite zlen_nil, Z.add_0_r].
  rewrite zlen_replicate, Z2Nat.id by lia.
  replace (bo + (kBlockSize - bo) + kHeaderSize + zlen d)
    with ((0 + kHeaderSize + zlen d) + 1 * kBlockSize) by lia.
  by rewrite Z_mod_plus_full.
Qed.

Lemma end_offset_mod l bo :
  0 <= bo <= kBlockSize -> fits bo l ->
  0 <= end_offset bo l <= kBlockSize /\
  end_offset bo l mod kBlockSize = (bo + zlen (layout bo l)) mod kBlockSize.
Proof.
  revert bo. induction l as [|[t d] l IH]; intros bo Hbo; cbn [fits layout end_offset].
  { intros _. split; [done|]. f_equal. zlen_lia. }
  intros [Hle Hf]. pose proof (norm_range bo Hbo). pose proof (zlen_nonneg d).
  assert (kHeaderSize = 7) by done. assert (0 <= next_offset bo d) by (unfold next_offset; lia).
  destruct (IH (next_offset bo d)) as [Hr ->]; [lia | done |]. split; [done|].
  rewrite !zlen_app, zlen_phys. rewrite Z.add_mod, <- next_offset_mod, <- Z.add_mod by done.
  f_equal. lia.
Qed.

Fixpoint log_end (bo : Z) (records : list bytes) : Z :=
  match records with
  | [] => bo
  | d :: records => log_end (end_offset bo (record_plan bo d)) records
  end.

Lemma log_end_mod records bo :
  0 <= bo <= kBlockSize ->
  0 <= log_end bo records <= kBlockSize /\
  log_end bo records mod kBlockSize = (bo + zlen (log_layout bo records)) mod kBlockSize.
Proof.
  revert bo. induction records as [|d records IH]; intros bo Hbo; cbn [log_end log_layout].
  { split; [done|]. f_equal. zlen_lia. }
  destruct (record_plan_spec bo d Hbo) as (_ & Hfits & _).
  destruct (end_offset_mod _ bo Hbo Hfits) as [Hr Hm].
  destruct (IH _ Hr) as [Hr2 ->]. split; [done|].
  rewrite zlen_app, Z.add_mod, Hm, <- Z.add_mod by done. unfold record_layout. f_equal. lia.
Qed.

Lemma log_layout_app bo records more :
  log_layout bo (records ++ more) = log_layout bo records ++ log_layout (log_end bo records) more.
Proof.
  revert bo. induction records as [|d records IH]; intros bo; [done|].
  cbn [log_layout app log_end]. by rewrite IH, app_assoc.
Qed.

(** A writer opened at the length of an existing log goes on where the log ends. *)
Lemma reopened_layout records more :
  log_layout 0 (records ++ more) =
  log_layout 0 records ++ log_layout (zlen (log_layout 0 records) mod kBlockSize) more.
Proof.
  rewrite log_layout_app. f_equal.
  destruct (log_end_mod records 0 ltac:(done)) as [Hr Hm]. rewrite Z.add_0_l in Hm.
  rewrite <- Hm. assert (kBlockSize = 32768) by done.
  destruct (decide (log_end 0 records = kBlockSize)) as [->|].
  - by rewrite Z_mod_same_full, log_layout_block.
  - by rewrite Z.mod_small by lia.
Qed.

(** ** What a reader makes of a prefix of a log *)

Lemma prefix_shorter {A} (k l m : list A) :
  k `prefix_of` m -> l `prefix_of` m -> zlen k <= zlen l -> k `prefix_of` l.
Proof.
  intros Hk Hl Hle. destruct (prefix_weak_total _ _ _ Hk Hl) as [|Hp]; [done|].
  rewrite (prefix_length_eq _ _ Hp); [done|]. unfold zlen in Hle. lia.
Qed.

Lemma read_prefix fuel (g : G) (rep chk : bool) records :
  remaining g `prefix_of` log_layout 0 records -> zlen (remaining g) < Z.of_nat fuel ->
  exists r n, read_all fuel (new_Reader g rep chk 0) = Ret (r, take n records) /\
    reports_ r = [] /\ (n <= length records)%nat /\
    (forall m, (m <= length records)%nat ->
       log_layout 0 (take m records) `prefix_of` remaining g <-> (m <= n)%nat).
Proof.
  intros Hp Hfuel. rewrite <- log_layout_block in Hp.
  destruct (read_log fuel records _ _ _ _ (new_Reader_view g rep chk) ltac:(done) Hp Hfuel)
    as (r & n & E & Hr & Hn & Hmax).
  exists r, n. split_and!; [done | done | done |]. intros m Hm.
  rewrite <- (Hmax m Hm), log_layout_block. rewrite log_layout_block in Hp. split.
  - intros Hpre%prefix_length. unfold zlen. lia.
  - intros Hle. apply (prefix_shorter _ _ (log_layout 0 records)); [|done|done].
    rewrite <- (take_drop m records) at 2. rewrite log_layout_app. by apply prefix_app_r.
Qed.

(** ** Only intact physical records are delivered *)

Lemma schar_code b t : u32 (schar b) = record_code t -> b = z2b (record_code t).
Proof. destruct b, t; vm_compute; congruence. Qed.

Lemma length_field b4 b5 :
  b2z b4 = Z.land (Z.lor (Z.land (b2z b4) 255) (u32 (Z.land (b2z b5) 255 ≪ 8))) 255 /\
  b2z b5 = Z.lor (Z.land (b2z b4) 255) (u32 (Z.land (b2z b5) 255 ≪ 8)) ≫ 8.
Proof.
  pose proof (b2z_range b4) as H4. pose proof (b2z_range b5) as H5.
  change 256 with (2 ^ 8) in H4, H5. generalize dependent (b2z b4). generalize dependent (b2z b5).
  intros y Hy x Hx. unfold u32. split; change 255 with (Z.ones 8); rewrite !Z.land_ones by lia; bits.
Qed.

(** A header whose fields agree with a payload is the header the writer makes for it. *)
Lemma header_intact h t (d : bytes) :
  zlen h = kHeaderSize ->
  Z.lor (Z.land (byte_at h 4) 0xff) (u32 (Z.land (byte_at h 5) 0xff ≪ 8)) = zlen d ->
  u32 (schar (nth 6 h x00)) = record_code t ->
  Value (nth 6 h x00 :: d) = Unmask (DecodeFixed32 h) ->
  h = header_bytes InitTypeCrc t d.
Proof.
  intros Hh Hlen Hty Hcrc. unfold header_bytes. rewrite InitTypeCrc_nth. unfold Value in *.
  rewrite Extend_app by lia. pose proof (schar_code _ _ Hty) as E6. rewrite E6 in Hcrc.
  cbn [app]. rewrite Hcrc, Mask_Unmask by apply DecodeFixed32_range.
  rewrite EncodeFixed32_Decode by (rewrite Hh; done). rewrite <- E6, <- Hlen.
  do 7 (destruct h as [|? h]; [done|]).
  assert (zlen h = 0) as Hn by (change kHeaderSize with 7 in Hh; zlen_lia).
  apply zlen_0_nil in Hn as ->. unfold byte_at. cbn [nth].
  match goal with |- [_; _; _; _; ?b4; ?b5; _] = _ => destruct (length_field b4 b5) as [<- <-] end.
  by rewrite !z2b_b2z.
Qed.

Lemma parse_intact (r : Reader G) result r' t frag :
  checksum_ r = true -> kHeaderSize <= zlen (buffer_ r) ->
  ParsePhysicalRecord r result = (r', record_code t, frag) ->
  buffer_ r = phys t frag ++ buffer_ r'.
Proof.
  intros Hchk Hb. unfold ParsePhysicalRecord. rewrite Hchk.
  assert (kHeaderSize = 7) as H7 by done. rewrite H7 in *.
  set (len := Z.lor _ _). assert (0 <= len).
  { apply Z.lor_nonneg. split; [apply land_ff_range | apply u32_range]. }
  destruct (Z.ltb_spec (zlen (buffer_ r)) (7 + len)).
  { destruct (negb _); intros [= ? Ht _]; by destruct t. }
  destruct (_ && _); [intros [= ? Ht _]; by destruct t|]. cbn [andb].
  destruct (Z.eqb_spec (Value (ztake (1 + len) (zdrop 6 (buffer_ r))))
    (Unmask (DecodeFixed32 (buffer_ r)))) as [Hcrc|]; [|intros [= ? Ht _]; by destruct t]. cbn [negb].
  destruct (_ <? _); [intros [= ? Ht _]; by destruct t|]. intros [= <- Ht <-].
  set (d := ztake len (zdrop 7 (buffer_ r))). unfold phys. cbn [buffer_ set_buffer].
  assert (zlen d = len) as Hd by (unfold d; zlen_lia).
  assert (buffer_ r = ztake 7 (buffer_ r) ++ d ++ zdrop (7 + len) (buffer_ r)) as Hsplit.
  { unfold d. rewrite <- (zdrop_zdrop len 7) by lia. by rewrite !ztake_zdrop. }
  rewrite <- header_intact with (h := ztake 7 (buffer_ r)); [by rewrite <- app_assoc | | | |].
  - zlen_lia.
  - unfold byte_at. rewrite !nth_ztake by lia. rewrite Hd. done.
  - by rewrite nth_ztake by lia.
  - rewrite nth_ztake by lia. unfold DecodeFixed32, byte_at in *. rewrite !nth_ztake by lia.
    rewrite <- Hcrc. f_equal. unfold d.
    rewrite (zdrop_cons 6 _ x00) by lia. by rewrite ztake_cons by lia.
Qed.

(** *** Records are put together from intact fragments only *)

(** The physical record stands in the image of the file. *)
Definition intact (img : bytes) (f : RecordType * bytes) : Prop :=
  exists a b, img = a ++ phys (fst f) (snd f) ++ b.

(** [d] is the payload of a chain of fragments that all stand in the image. *)
Definition assembled_from (img : bytes) (d : bytes) : Prop :=
  exists l, chain true l d /\ Forall (intact img) l.

(** A chain that has begun: a first fragment and inner ones. *)
Definition begun (img : bytes) (d : bytes) : Prop :=
  exists l, Forall (intact img) l /\
    forall rest e, chain false rest e -> chain true (l ++ rest) (d ++ e).

Definition reading (img : bytes) (r : Reader G) : Prop :=
  checksum_ r = true /\ (exists a b, img = a ++ buffer_ r ++ b) /\
  exists pre, img = pre ++ remaining (file_ r).

Lemma reading_fields img r r' :
  reading img r -> checksum_ r' = checksum_ r -> buffer_ r' = buffer_ r -> file_ r' = file_ r ->
  reading img r'.
Proof. unfold reading. by intros Hr -> -> ->. Qed.

Lemma reading_report img r n s : reading img r -> reading img (ReportCorruption r n s).
Proof.
  intros Hr. unfold ReportCorruption, ReportDrop.
  destruct (_ && _); [by eapply reading_fields|done].
Qed.

Lemma reading_skip img r n : reading img r -> reading img (set_buffer r (zdrop n (buffer_ r))).
Proof.
  intros (Hc & (a & b & Hp) & Hf). split_and!; [done | | done].
  exists (a ++ ztake n (buffer_ r)), b. simpl.
  by rewrite <- app_assoc, (app_assoc (ztake n _)), ztake_zdrop.
Qed.

Lemma reading_clear img r : reading img r -> reading img (set_buffer r []).
Proof.
  intros Hr. pose proof (reading_skip img r (zlen (buffer_ r)) Hr) as Hs.
  by rewrite zdrop_all in Hs by lia.
Qed.

Lemma parse_reading img r result r' ty frag :
  reading img r -> kHeaderSize <= zlen (buffer_ r) ->
  ParsePhysicalRecord r result = (r', ty, frag) ->
  reading img r' /\ forall t, ty = record_code t -> intact img (t, frag).
Proof.
  intros Hr Hb E. split.
  - revert E. unfold ParsePhysicalRecord.
    repeat match goal with |- context [if ?b then _ else _] => destruct b end;
      intros [= <- <- <-]; eauto using reading_report, reading_skip, reading_clear.
  - intros t ->. destruct Hr as (Hc & (a & b & ->) & _).
    pose proof (parse_intact _ _ _ _ _ Hc Hb E) as Hi. rewrite Hi.
    exists a, (buffer_ r' ++ b). simpl. by rewrite <- !app_assoc.
Qed.

Lemma refill_reading img r result fuel :
  reading img r -> zlen (buffer_ r) < kHeaderSize -> eof_ r = false ->
  exists r', ReadPhysicalRecord_loop (S fuel) r result = ReadPhysicalRecord_loop fuel r' result /\
    reading img r'.
Proof.
  intros (Hc & _ & pre & Hp) Hb He.
  cbn [ReadPhysicalRecord_loop]. rewrite He.
  destruct (Z.ltb_spec (zlen (buffer_ r)) kHeaderSize); [|lia]. cbn [negb].
  destruct (read_spec (file_ r) kBlockSize ltac:(done)) as (f' & E & Hf').
  cbn [file_ set_buffer] in *. rewrite E. cbn [ok negb buffer_ set_end set_buffer set_file].
  destruct (_ <? _); eexists; (split; [reflexivity|]); (split_and!; [done | |]); cbn;
    [ exists pre, (zdrop kBlockSize (remaining (file_ r))); by rewrite ztake_zdrop
    | exists (pre ++ ztake kBlockSize (remaining (file_ r)));
      by rewrite Hf', <- app_assoc, ztake_zdrop
    | exists pre, (zdrop kBlockSize (remaining (file_ r))); by rewrite ztake_zdrop
    | exists (pre ++ ztake kBlockSize (remaining (file_ r)));
      by rewrite Hf', <- app_assoc, ztake_zdrop ].
Qed.

Lemma physical_reading img fuel r result r' ty frag :
  reading img r -> ReadPhysicalRecord_loop fuel r result = Ret (r', ty, frag) ->
  reading img r' /\ forall t, ty = record_code t -> intact img (t, frag).
Proof.
  revert r. induction fuel as [|fuel IH]; intros r Hr E; [done|].
  destruct (Z.lt_ge_cases (zlen (buffer_ r)) kHeaderSize) as [Hb|Hb].
  - destruct (eof_ r) eqn:He.
    + revert E. cbn [ReadPhysicalRecord_loop]. rewrite He.
      destruct (Z.ltb_spec (zlen (buffer_ r)) kHeaderSize); [|lia].
      intros [= <- <- <-]. split; [by apply reading_clear | by intros []].
    + destruct (refill_reading img r result fuel Hr Hb He) as (r1 & E1 & Hr1).
      rewrite E1 in E. by apply IH in E.
  - revert E. cbn [ReadPhysicalRecord_loop].
    destruct (Z.ltb_spec (zlen (buffer_ r)) kHeaderSize); [lia|].
    intros [= E]. by eapply parse_reading.
Qed.

Lemma begun_first img d : intact img (kFirstType, d) -> begun img d.
Proof.
  intros Hi. exists [(kFirstType, d)]. split; [by repeat constructor|].
  intros rest e Hc. exact (chain_more true d rest e Hc).
Qed.

Lemma begun_middle img s d : begun img s -> intact img (kMiddleType, d) -> begun img (s ++ d).
Proof.
  intros (l & Hl & Hk) Hi. exists (l ++ [(kMiddleType, d)]). split.
  { apply Forall_app. auto. }
  intros rest e Hc. rewrite <- !app_assoc. apply Hk. exact (chain_more false d rest e Hc).
Qed.

Lemma begun_last img s d : begun img s -> intact img (kLastType, d) -> assembled_from img (s ++ d).
Proof.
  intros (l & Hl & Hk) Hi. exists (l ++ [(kLastType, d)]). split.
  - apply Hk. apply (chain_last false).
  - apply Forall_app. auto.
Qed.

Lemma assembled_full img d : intact img (kFullType, d) -> assembled_from img d.
Proof.
  intros Hi. exists [(kFullType, d)]. split; [apply (chain_last true) | by repeat constructor].
Qed.

Definition assembling (img : bytes) (next : option bytes + locals) : Prop :=
  match next with
  | inl None => True
  | inl (Some d) => assembled_from img d
  | inr v => in_fragmented_record v = true -> begun img (scratch v)
  end.

Lemma step_reading img r v r' next :
  reading img r -> (in_fragmented_record v = true -> begun img (scratch v)) ->
  ReadRecord_step r v = Ret (r', next) -> reading img r' /\ assembling img next.
Proof.
  intros Hr Hv. unfold ReadRecord_step, ReadPhysicalRecord.
  destruct (ReadPhysicalRecord_loop 2 r (fragment v)) as [[[r1 ty] frag]| |] eqn:E; try done.
  destruct (physical_reading _ _ _ _ _ _ _ Hr E) as [Hr1 Hi]. cbn [obind].
  assert (forall b, reading img (set_resyncing r1 b)) as Hr2
    by (intros b; by eapply reading_fields).
  assert (forall x y, reading img (set_last (set_resyncing r1 x) y)) as Hr3
    by (intros x y; by eapply reading_fields).
  assert (forall x n s y, reading img (set_last (ReportCorruption (set_resyncing r1 x) n s) y)) as Hr4
    by (intros x n s y; eapply (reading_fields img (ReportCorruption (set_resyncing r1 x) n s));
        [by apply reading_report | done | done | done]).
  repeat match goal with |- context [if ?b then _ else _] => destruct b eqn:? end;
    intros [= <- <-]; (split; [eauto using reading_report|]); simpl; try done;
    repeat match goal with
    | H : (_ =? _) = true |- _ => apply Z.eqb_eq in H
    | H : negb _ = false |- _ => apply negb_false_iff in H
    end; eauto using assembled_full, begun_first, begun_middle, begun_last.
Qed.

Lemma loop_reading img fuel r v r' result :
  reading img r -> (in_fragmented_record v = true -> begun img (scratch v)) ->
  ReadRecord_loop fuel r v = Ret (r', result) ->
  reading img r' /\ forall d, result = Some d -> assembled_from img d.
Proof.
  revert r v. induction fuel as [|fuel IH]; intros r v Hr Hv; [done|]. cbn [ReadRecord_loop].
  destruct (ReadRecord_step r v) as [[r1 next]| |] eqn:E; try done. cbn [obind].
  destruct (step_reading _ _ _ _ _ Hr Hv E) as [Hr1 Hn].
  destruct next as [res|v1]; [|by apply IH].
  intros [= <- <-]. split; [done|]. by intros d ->.
Qed.

Lemma skip_reading img r : reading img r -> reading img (fst (SkipToInitialBlock r)).
Proof.
  intros (Hc & Hb & pre & Hp). unfold SkipToInitialBlock.
  set (loc := if kBlockSize - 6 <? _ then _ else _).
  destruct (Z.ltb_spec 0 loc); [|split_and!; [done | done | by exists pre]].
  destruct (skip_spec (file_ (set_end r loc)) loc ltac:(lia)) as (f' & -> & Hf').
  split_and!; [done | done |]. exists (pre ++ ztake loc (remaining (file_ r))). simpl in *.
  by rewrite Hf', Hp, <- app_assoc, ztake_zdrop.
Qed.

Lemma ReadRecord_reading img fuel r r' result :
  reading img r -> ReadRecord fuel r = Ret (r', result) ->
  reading img r' /\ forall d, result = Some d -> assembled_from img d.
Proof.
  intros Hr. unfold ReadRecord. destruct (_ <? _); [|by apply loop_reading].
  pose proof (skip_reading img r Hr) as Hs. destruct (SkipToInitialBlock r) as [r1 [|]].
  - by apply loop_reading.
  - by intros [= <- <-].
Qed.

Lemma read_all_reading img fuel r r' records :
  reading img r -> read_all fuel r = Ret (r', records) -> Forall (assembled_from img) records.
Proof.
  revert r r' records. induction fuel as [|fuel IH]; intros r r' records Hr; [done|].
  cbn [read_all]. destruct (ReadRecord (S fuel) r) as [[r1 [d|]]| |] eqn:E; try done; cbn [obind].
  - destruct (ReadRecord_reading _ _ _ _ _ Hr E) as [Hr1 Hd].
    destruct (read_all fuel r1) as [[r2 rest]| |] eqn:E2; try done. cbn [obind].
    intros [= <- <-]. constructor; eauto.
  - intros [= <- <-]. constructor.
Qed.

End Log.

(** ** The properties *)

Section Properties.
Context `{Crc32c} {F : Type} `{WritableFileLaws F} {G : Type} `{SequentialFileLaws G}.


(** C30: crash recovery. When the file of a log is cut at any byte, reading what is left
    returns exactly the records that are complete there, and reports no corruption. *)
Theorem log_crash_recovery (records : list bytes) (g : G) (fuel : nat) :
  remaining g `prefix_of` log_layout 0 records -> zlen (remaining g) < Z.of_nat fuel ->
  exists r n, read_all fuel (new_Reader g true true 0) = Ret (r, take n records) /\
    reports_ r = [] /\
    forall m, (m <= length records)%nat ->
      log_layout 0 (take m records) `prefix_of` remaining g <-> (m <= n)%nat.
Proof.
  intros Hp Hfuel.
  destruct (read_prefix fuel g true true records Hp Hfuel) as (r & n & E & Hr & Hn & Hmax).
  by exists r, n.
Qed.

(** A log closed and reopened for appending. A writer made with the length of a file
    that holds a log continues it: reading the file returns the old records, then the
    new ones, when all the writes succeed. *)
Theorem log_reopen_roundtrip (f : F) (records more : list bytes) :
  contents f = log_layout 0 records ->
  exists w ss, write_all (new_Writer_at f (zlen (contents f))) more = Ret (w, ss) /\
    (Forall (fun s => s = OK) ss ->
     forall (g : G) fuel, remaining g = contents (dest_ w) -> zlen (remaining g) < Z.of_nat fuel ->
       exists r, read_all fuel (new_Reader g true true 0) = Ret (r, records ++ more) /\
    reports_ r = []).
Proof.
  intros Hf. assert (writer_ok (new_Writer_at f (zlen (contents f)))) as Hw.
  { split; [|done]. simpl. assert (kBlockSize = 32768) by done.
    pose proof (Z.mod_pos_bound (zlen (contents f)) kBlockSize). lia. }
  destruct (write_all_layout _ more Hw) as (w & ss & p & E & _ & Hlen & _ & Hc & Hp & Hk).
  exists w, ss. split; [done|]. intros Hall g fuel Hg Hfuel.
  rewrite (acknowledged_all ss Hall), Hlen, take_ge in Hk by lia.
  cbn [new_Writer_at block_offset_ dest_] in Hc, Hp, Hk.
  assert (remaining g = log_layout 0 (records ++ more)) as Himg.
  { rewrite reopened_layout, Hg, Hc, <- Hf. f_equal. by apply (anti_symm prefix). }
  destruct (read_prefix fuel g true true (records ++ more)) as (r & n & E2 & Hr & Hn & Hmax);
    [by rewrite Himg | done |].
  exists r. split; [|done]. rewrite E2, take_ge; [done|]. apply Hmax; [done|].
  by rewrite take_ge, Himg.
Qed.

(** No record is invented. Whatever bytes a file holds, each record that a checksumming
    reader returns is the payload of a chain of fragments (one full fragment, or a first,
    inner ones and a last) that stand in the file exactly as the writer lays them out,
    header, length and masked checksum included. *)
Theorem log_reads_only_intact (g : G) (rep : bool) (initial_offset : Z) (fuel : nat) r records :
  read_all fuel (new_Reader g rep true initial_offset) = Ret (r, records) ->
  Forall (assembled_from (remaining g)) records.
Proof.
  apply read_all_reading. split_and!; [done | |]; simpl.
  - exists [], (remaining g). done.
  - by exists [].
Qed.

(** C40: the reader comes to an end on every file: reading all records of any bytes, with any
    initial offset and with checksums on or off, returns, after at most one record for
    every seven bytes. *)
Theorem log_read_terminates (g : G) (rep chk : bool) (initial_offset : Z) (fuel : nat) :
  zlen (remaining g) < Z.of_nat fuel ->
  exists r records, read_all fuel (new_Reader g rep chk initial_offset) = Ret (r, records) /\
    kHeaderSize * Z.of_nat (length records) <= zlen (remaining g).
Proof. exact (read_all_unread fuel (new_Reader g rep chk initial_offset)). Qed.

(** One call of [AddRecord]. It always returns, no assertion fails, and the block
    offset stays inside a block; on OK it has appended exactly the record's layout, a
    chain of fragments none of which crosses a block boundary; otherwise it has appended
    a part of that layout and the file has failed. *)
Theorem AddRecord_correct (w : Writer F) (slice : bytes) :
  0 <= block_offset_ w <= kBlockSize -> type_crc_ w = InitTypeCrc ->
  exists w' s l, AddRecord w slice = Ret (w', s) /\
    0 <= block_offset_ w' <= kBlockSize /\ type_crc_ w' = InitTypeCrc /\
    chain true l slice /\ fits (block_offset_ w) l /\
    match s with
    | OK => contents (dest_ w') = contents (dest_ w) ++ layout (block_offset_ w) l
    | _ => failed (dest_ w') /\ exists p, p `prefix_of` layout (block_offset_ w) l /\
             contents (dest_ w') = contents (dest_ w) ++ p
    end.
Proof.
  intros Hbo Htc. destruct (AddRecord_wrote w slice (conj Hbo Htc)) as (w' & s & E & [Hb1 Ht1] & _ & Hw).
  destruct (record_plan_spec (block_offset_ w) slice Hbo) as (Hc & Hf & _).
  exists w', s, (record_plan (block_offset_ w) slice). do 5 (split; [done|]).
  destruct Hw as [(-> & _ & _ & Hw)|(Hs & Hfl & p & Hp & Hw & _)]; [done|].
  destruct s; [done | split; [done | by exists p] ..].
Qed.

End Properties.

(** ** Witnesses: the in-memory files *)

Section Witnesses.
#[local] Instance portable : Crc32c := Crc32c_portable 0.

Definition small_disk : MemFile := mkMemFile [] 20 false.

Definition three_records : list bytes := [[x01; x02; x03]; [x04; x05; x06; x07]; []].


Lemma log_crash_recovery_witness :
  exists r n, read_all 13 (new_Reader (ztake 12 (log_layout 0 [[x01]; [x02]])) true true 0) =
      Ret (r, take n [[x01]; [x02]]) /\ reports_ r = [] /\
    forall m, (m <= 2)%nat ->
      log_layout 0 (take m [[x01]; [x02]]) `prefix_of` ztake 12 (log_layout 0 [[x01]; [x02]]) <->
      (m <= n)%nat.
Proof.
  refine (log_crash_recovery (G := bytes) [[x01]; [x02]] (ztake 12 (log_layout 0 [[x01]; [x02]])) 13 _ _);
    [|reflexivity].
  exists (zdrop 12 (log_layout 0 [[x01]; [x02]])). symmetry. apply ztake_zdrop.
Defined.

Lemma log_reopen_roundtrip_witness :
  exists w ss, write_all (new_Writer_at (mkMemFile (log_layout 0 [[x01]]) 100 false) 8) [[x02]] = Ret (w, ss) /\
    (Forall (fun s => s = OK) ss ->
     forall (g : bytes) fuel, g = contents (dest_ w) -> zlen g < Z.of_nat fuel ->
       exists r, read_all fuel (new_Reader g true true 0) = Ret (r, [[x01]; [x02]]) /\ reports_ r = []).
Proof.
  refine (log_reopen_roundtrip (G := bytes) (mkMemFile (log_layout 0 [[x01]]) 100 false) [[x01]] [[x02]] _).
  reflexivity.
Defined.

Definition short_log : bytes := log_layout 0 [[x01]].

Definition short_reader : Reader bytes := new_Reader short_log true true 0.

Definition end_reader : Reader bytes :=
  match read_all 9 short_reader with Ret (r, _) => r | _ => short_reader end.

Lemma log_reads_only_intact_witness :
  read_all 9 short_reader = Ret (end_reader, [[x01]]) /\ Forall (assembled_from short_log) [[x01]].
Proof.
  assert (read_all 9 short_reader = Ret (end_reader, [[x01]])) as E by (vm_compute; reflexivity).
  split; [exact E|].
  exact (log_reads_only_intact (G := bytes) short_log true 0 9 end_reader [[x01]] E).
Defined.

Lemma log_read_terminates_witness :
  exists r records, read_all 10 (new_Reader [x00; x01; xff; x00; x00; x00; x01; x02] true true 3) = Ret (r, records) /\
    kHeaderSize * Z.of_nat (length records) <= 8.
Proof.
  refine (log_read_terminates (G := bytes) [x00; x01; xff; x00; x00; x00; x01; x02] true true 3 10 _).
  reflexivity.
Defined.

Lemma AddRecord_correct_witness :
  exists w' s l, AddRecord (mkWriter small_disk 32760 InitTypeCrc) [x01; x02; x03] = Ret (w', s) /\
    0 <= block_offset_ w' <= kBlockSize /\ type_crc_ w' = InitTypeCrc /\
    chain true l [x01; x02; x03] /\ fits 32760 l /\
    match s with
    | OK => contents (dest_ w') = layout 32760 l
    | _ => failed (dest_ w') /\ exists p, p `prefix_of` layout 32760 l /\ contents (dest_ w') = p
    end.
Proof.
  refine (AddRecord_correct (mkWriter small_disk 32760 InitTypeCrc) [x01; x02; x03] _ _); [|reflexivity].
  simpl. unfold kBlockSize. lia.
Defined.

End Witnesses.
