(* ===== verification/Comparator.v ===== *)
(** * Slices and comparators

    [slice.h] and [comparator.cc]: three-way comparison of byte strings, the [Comparator]
    interface with what [comparator.h] documents of it as laws, and the bytewise
    comparator, the default instance. The clients of the interface (internal keys, blocks,
    memtables, versions) are verified against the laws only. *)

From S2P Require Import Prelude.

Open Scope outcome_scope.

(** ** Three-way comparison of slices *)

(** The C library's [memcmp] on the first [n] bytes; only the sign of its result is used. *)
Fixpoint memcmp (n : nat) (a b : bytes) : Z :=
  match n, a, b with
  | S n, x :: a, y :: b => if b2z x =? b2z y then memcmp n a b else b2z x - b2z y
  | _, _, _ => 0
  end.

Definition compare (a b : bytes) : Z :=
  let min_len := if zlen a <? zlen b then zlen a else zlen b in
  let r := memcmp (Z.to_nat min_len) a b in
  if r =? 0 then
    if zlen a <? zlen b then -1 else if zlen b <? zlen a then 1 else r
  else r.

(** ** The interface *)

Class Comparator := {
  Compare : bytes -> bytes -> Z;
  FindShortestSeparator : bytes -> bytes -> outcome bytes;
  FindShortSuccessor : bytes -> outcome bytes;
}.

(** [valid_key] are the keys the two shortening functions accept without a failing
    assertion. *)
Class ComparatorLaws `{Comparator} := {
  valid_key : bytes -> Prop;
  compare_antisym a b : Compare a b < 0 <-> 0 < Compare b a;
  compare_trans a b c : Compare a b <= 0 -> Compare b c <= 0 -> Compare a c <= 0;
  separator_lt start limit :
    valid_key start -> valid_key limit -> Compare start limit < 0 ->
    exists s, FindShortestSeparator start limit = Ret s /\ valid_key s /\
      Compare start s <= 0 /\ Compare s limit < 0;
  separator_eq start limit :
    valid_key start -> valid_key limit -> Compare start limit = 0 ->
    exists s, FindShortestSeparator start limit = Ret s /\ valid_key s /\ Compare start s = 0;
  successor_ge key :
    valid_key key ->
    exists s, FindShortSuccessor key = Ret s /\ valid_key s /\ Compare key s <= 0;
}.

(** ** The bytewise comparator *)

(** The [while] loop that finds the length of the common prefix. *)
Fixpoint diff_index (start limit : bytes) : Z :=
  match start, limit with
  | x :: start, y :: limit => if b2z x =? b2z y then 1 + diff_index start limit else 0
  | _, _ => 0
  end.

Definition bytewise_separator (start limit : bytes) : outcome bytes :=
  let min_length := Z.min (zlen start) (zlen limit) in
  let diff_index := diff_index start limit in
  if min_length <=? diff_index then Ret start
  else
    let diff_byte := b2z (nth (Z.to_nat diff_index) start x00) in
    let limit_byte := b2z (nth (Z.to_nat diff_index) limit x00) in
    if (diff_byte <? 0xff) && (diff_byte + 1 <? limit_byte) then
      let start := ztake diff_index start ++ [z2b (diff_byte + 1)] in
      assert! compare start limit <? 0; Ret start
    else Ret start.

Fixpoint bytewise_successor (key : bytes) : bytes :=
  match key with
  | [] => []
  | b :: rest =>
      if negb (b2z b =? 0xff) then [z2b (b2z b + 1)] else b :: bytewise_successor rest
  end.

#[local] Instance BytewiseComparator : Comparator := {
  Compare := compare;
  FindShortestSeparator := bytewise_separator;
  FindShortSuccessor key := Ret (bytewise_successor key);
}.

(** ** The order a comparator defines *)

Section Order.
Context `{ComparatorLaws}.
Implicit Types a b c : bytes.

Definition key_eq a b : Prop := Compare a b = 0.
Definition key_lt a b : Prop := Compare a b < 0.
Definition key_le a b : Prop := Compare a b <= 0.

Lemma compare_antisym_gt a b : 0 < Compare a b <-> Compare b a < 0.
Proof. symmetry. apply compare_antisym. Qed.

Lemma compare_antisym_eq a b : Compare a b = 0 <-> Compare b a = 0.
Proof. pose proof (compare_antisym a b). pose proof (compare_antisym b a). lia. Qed.

Lemma compare_refl a : Compare a a = 0.
Proof. pose proof (compare_antisym a a). lia. Qed.

Lemma compare_lt_le a b c : Compare a b < 0 -> Compare b c <= 0 -> Compare a c < 0.
Proof.
  intros Hab Hbc. destruct (Z.lt_ge_cases (Compare a c) 0) as [|Hac]; [done|].
  assert (Compare c a <= 0) as Hca by (pose proof (compare_antisym a c); pose proof (compare_antisym c a); lia).
  pose proof (compare_trans _ _ _ Hbc Hca). pose proof (compare_antisym a b). lia.
Qed.

Lemma compare_le_lt a b c : Compare a b <= 0 -> Compare b c < 0 -> Compare a c < 0.
Proof.
  intros Hab Hbc. destruct (Z.lt_ge_cases (Compare a c) 0) as [|Hac]; [done|].
  assert (Compare c a <= 0) as Hca by (pose proof (compare_antisym a c); pose proof (compare_antisym c a); lia).
  pose proof (compare_trans _ _ _ Hca Hab). pose proof (compare_antisym b c). lia.
Qed.

#[global] Instance key_eq_equiv : Equivalence key_eq.
Proof.
  split.
  - intros a. apply compare_refl.
  - intros a b ?. by apply compare_antisym_eq.
  - intros a b c Hab Hbc. unfold key_eq in *.
    pose proof (compare_trans a b c). pose proof (compare_trans c b a).
    pose proof (proj1 (compare_antisym_eq _ _) Hab). pose proof (proj1 (compare_antisym_eq _ _) Hbc).
    pose proof (compare_antisym c a). pose proof (compare_antisym a c). lia.
Qed.

#[global] Instance key_lt_proper : Proper (key_eq ==> key_eq ==> iff) key_lt.
Proof.
  assert (forall a a' b b', key_eq a a' -> key_eq b b' -> key_lt a b -> key_lt a' b') as Hk.
  { unfold key_eq, key_lt. intros a a' b b' Ha Hb Hlt. rewrite compare_antisym_eq in Ha.
    eapply compare_lt_le; [|rewrite Hb; done]. eapply compare_le_lt; [|done]. lia. }
  intros a a' Ha b b' Hb. split; eauto. apply Hk; by symmetry.
Qed.

#[global] Instance key_le_proper : Proper (key_eq ==> key_eq ==> iff) key_le.
Proof.
  assert (forall a b, key_le a b <-> ~ key_lt b a) as Hneg.
  { intros a b. unfold key_le, key_lt. rewrite compare_antisym. lia. }
  intros a a' Ha b b' Hb. by rewrite !Hneg, Ha, Hb.
Qed.

Lemma key_le_preorder : PreOrder key_le.
Proof.
  split; [intros a; unfold key_le; by rewrite compare_refl | intros a b c; apply compare_trans].
Qed.

Lemma key_lt_trans a b c : key_lt a b -> key_lt b c -> key_lt a c.
Proof. unfold key_lt. intros. eapply compare_lt_le; [done | lia]. Qed.

Lemma key_le_gt a b : key_le a b <-> ~ key_lt b a.
Proof. unfold key_le, key_lt. rewrite compare_antisym. lia. Qed.

Lemma key_lt_irrefl a : ~ key_lt a a.
Proof. unfold key_lt. rewrite compare_refl. lia. Qed.

End Order.

(** ** The bytewise order *)

Lemma compare_nil_l b : compare [] b = if zlen b =? 0 then 0 else -1.
Proof.
  unfold compare. change (@zlen byte []) with 0.
  destruct b as [|x b]; [done|]. rewrite zlen_cons. zlen_pos.
  rewrite (proj2 (Z.ltb_lt 0 (1 + zlen b))) by lia. simpl.
  destruct (Z.eqb_spec (1 + zlen b) 0); [lia | done].
Qed.

Lemma compare_nil_r a : compare a [] = if zlen a =? 0 then 0 else 1.
Proof.
  unfold compare. change (@zlen byte []) with 0. zlen_pos.
  rewrite (proj2 (Z.ltb_ge (zlen a) 0)) by done. simpl.
  destruct (Z.ltb_spec 0 (zlen a)), (Z.eqb_spec (zlen a) 0); lia.
Qed.

Lemma compare_cons x a y b :
  compare (x :: a) (y :: b) = if b2z x =? b2z y then compare a b else b2z x - b2z y.
Proof.
  unfold compare. rewrite !zlen_cons.
  assert ((1 + zlen a <? 1 + zlen b) = (zlen a <? zlen b)) as -> by lia.
  assert ((1 + zlen b <? 1 + zlen a) = (zlen b <? zlen a)) as -> by lia.
  set (m := if zlen a <? zlen b then zlen a else zlen b).
  assert (0 <= m) by (subst m; destruct (_ <? _); zlen_lia).
  replace (Z.to_nat (if zlen a <? zlen b then 1 + zlen a else 1 + zlen b)) with (S (Z.to_nat m))
    by (subst m; destruct (_ <? _); lia).
  cbn [memcmp]. destruct (Z.eqb_spec (b2z x) (b2z y)); [done|].
  destruct (Z.eqb_spec (b2z x - b2z y) 0); [lia | done].
Qed.

Lemma bytewise_antisym a b : compare a b < 0 <-> 0 < compare b a.
Proof.
  revert b. induction a as [|x a IH]; intros [|y b].
  - done.
  - rewrite compare_nil_l, compare_nil_r, zlen_cons. zlen_pos. destruct (Z.eqb_spec (1 + zlen b) 0); lia.
  - rewrite compare_nil_l, compare_nil_r, zlen_cons. zlen_pos. destruct (Z.eqb_spec (1 + zlen a) 0); lia.
  - rewrite !compare_cons, (Z.eqb_sym (b2z y)). destruct (Z.eqb_spec (b2z x) (b2z y)); [done | lia].
Qed.

Lemma bytewise_trans a b c : compare a b <= 0 -> compare b c <= 0 -> compare a c <= 0.
Proof.
  revert b c. induction a as [|x a IH]; intros b c.
  { intros _ _. rewrite compare_nil_l. by destruct (_ =? _). }
  destruct b as [|y b].
  { rewrite compare_nil_r, zlen_cons. zlen_pos. destruct (Z.eqb_spec (1 + zlen a) 0); lia. }
  destruct c as [|z c].
  { rewrite (compare_nil_r (y :: b)), zlen_cons. zlen_pos. destruct (Z.eqb_spec (1 + zlen b) 0); lia. }
  rewrite !compare_cons. specialize (IH b c).
  destruct (Z.eqb_spec (b2z x) (b2z y)), (Z.eqb_spec (b2z y) (b2z z)), (Z.eqb_spec (b2z x) (b2z z));
    try lia; auto.
Qed.

Lemma bytewise_eq a b : compare a b = 0 <-> a = b.
Proof.
  revert b. induction a as [|x a IH]; intros [|y b].
  - done.
  - rewrite compare_nil_l, zlen_cons. zlen_pos. destruct (Z.eqb_spec (1 + zlen b) 0); [lia|done].
  - rewrite compare_nil_r, zlen_cons. zlen_pos. destruct (Z.eqb_spec (1 + zlen a) 0); [lia|done].
  - rewrite compare_cons. destruct (Z.eqb_spec (b2z x) (b2z y)) as [E|E].
    + rewrite IH, (b2z_inj _ _ E). split; [by intros -> | by intros [=]].
    + split; [lia | by intros [= -> ->]].
Qed.

Lemma compare_app p a b : compare (p ++ a) (p ++ b) = compare a b.
Proof. induction p as [|x p IH]; [done|]. cbn [app]. by rewrite compare_cons, Z.eqb_refl. Qed.

(** The common prefix and the two bytes behind it. *)
Lemma diff_index_split start limit :
  diff_index start limit < Z.min (zlen start) (zlen limit) ->
  exists p x a y b, start = p ++ x :: a /\ limit = p ++ y :: b /\
    diff_index start limit = zlen p /\ b2z x <> b2z y.
Proof.
  revert limit. induction start as [|x a IH]; intros [|y b]; cbn [diff_index]; try (zlen_lia; fail).
  rewrite !zlen_cons. destruct (Z.eqb_spec (b2z x) (b2z y)) as [E|E].
  - intros Hlt. destruct (IH b) as (p & x' & a' & y' & b' & -> & -> & Hd & Hne); [lia|].
    exists (x :: p), x', a', y', b'. rewrite (b2z_inj _ _ E). split_and!; [done | done | | done].
    rewrite zlen_cons. lia.
  - intros _. by exists [], x, a, y, b.
Qed.

Lemma nth_app_len {A} (p : list A) x a d : nth (Z.to_nat (zlen p)) (p ++ x :: a) d = x.
Proof. unfold zlen. rewrite Nat2Z.id, app_nth2 by lia. by rewrite Nat.sub_diag. Qed.

(** The separator is the start key itself, or lies strictly between the two. *)
Lemma bytewise_separator_spec start limit :
  exists s, bytewise_separator start limit = Ret s /\
    (s = start \/ (compare start s < 0 /\ compare s limit < 0)).
Proof.
  unfold bytewise_separator. destruct (Z.leb_spec (Z.min (zlen start) (zlen limit)) (diff_index start limit));
    [eauto|].
  destruct (diff_index_split start limit) as (p & x & a & y & b & -> & -> & -> & Hne); [done|].
  rewrite !nth_app_len, ztake_app_len by done.
  destruct (Z.ltb_spec (b2z x) 255), (Z.ltb_spec (b2z x + 1) (b2z y)); simpl; eauto.
  assert (b2z (z2b (b2z x + 1)) = b2z x + 1) as E by (pose proof (b2z_range x); apply b2z_z2b_small; lia).
  assert (compare (p ++ [z2b (b2z x + 1)]) (p ++ y :: b) < 0) as Hl.
  { rewrite compare_app, compare_cons, E. destruct (Z.eqb_spec (b2z x + 1) (b2z y)); lia. }
  rewrite (proj2 (Z.ltb_lt _ _) Hl). simpl. eexists. split; [done|]. right. split; [|done].
  rewrite compare_app, compare_cons, E. destruct (Z.eqb_spec (b2z x) (b2z x + 1)); lia.
Qed.

Lemma bytewise_successor_ge key : compare key (bytewise_successor key) <= 0.
Proof.
  induction key as [|b key IH]; [done|]. cbn [bytewise_successor].
  destruct (Z.eqb_spec (b2z b) 255); simpl.
  - by rewrite compare_cons, Z.eqb_refl.
  - pose proof (b2z_range b). rewrite compare_cons, b2z_z2b_small by lia.
    destruct (Z.eqb_spec (b2z b) (b2z b + 1)); lia.
Qed.

#[local, refine] Instance BytewiseComparator_laws : ComparatorLaws := {
  valid_key _ := True;
}.
Proof.
  - apply bytewise_antisym.
  - apply bytewise_trans.
  - intros start limit _ _ Hlt. destruct (bytewise_separator_spec start limit) as (s & E & [->|[H1 H2]]).
    + exists start. split_and!; [done | done | | done]. change (compare start start <= 0).
      by rewrite (proj2 (bytewise_eq start start)).
    + exists s. split_and!; [done | done | | done]. change (compare start s <= 0). lia.
  - intros start limit _ _ Heq. destruct (bytewise_separator_spec start limit) as (s & E & [->|[H1 H2]]).
    + exists start. split_and!; [done | done |]. by apply bytewise_eq.
    + apply bytewise_eq in Heq as ->. apply bytewise_antisym in H1. lia.
  - intros key _. eexists. split_and!; [done | done |]. apply bytewise_successor_ge.
Defined.
