(* ===== verification/DbFormat.v ===== *)
(** * Internal keys

    [dbformat.h] and [dbformat.c]: an internal key is a user key followed by eight bytes
    that pack a sequence number and a value type; internal keys are ordered by increasing
    user key and then by decreasing sequence number, so that the newest version of a key
    comes first. *)

From S2P Require Import Prelude Coding Comparator.

Open Scope outcome_scope.

(** ** Constants *)

Module config.
Definition kNumLevels : Z := 7.
Definition kL0_CompactionTrigger : Z := 4.
Definition kL0_SlowdownWritesTrigger : Z := 8.
Definition kL0_StopWritesTrigger : Z := 12.
Definition kMaxMemCompactLevel : Z := 2.
Definition kReadBytesPeriod : Z := 1048576.
End config.

Inductive ValueType := kTypeDeletion | kTypeValue.

#[global] Instance ValueType_eq_dec : EqDecision ValueType.
Proof. solve_decision. Defined.

Definition type_code (t : ValueType) : Z :=
  match t with kTypeDeletion => 0x0 | kTypeValue => 0x1 end.

Definition kValueTypeForSeek : ValueType := kTypeValue.

Definition kMaxSequenceNumber : Z := (0x1 ≪ 56) - 1.

(** ** Internal keys *)

Record ParsedInternalKey := mkParsed {
  pk_user_key : bytes;
  pk_sequence : Z;
  pk_type : ValueType;
}.

Definition InternalKeyEncodingLength (key : ParsedInternalKey) : Z := zlen (pk_user_key key) + 8.

Definition PackSequenceAndType (seq : Z) (t : ValueType) : outcome Z :=
  assert! seq <=? kMaxSequenceNumber;
  assert! type_code t <=? type_code kValueTypeForSeek;
  Ret (Z.lor (u64 (seq ≪ 8)) (type_code t)).

Definition AppendInternalKey (result : bytes) (key : ParsedInternalKey) : outcome bytes :=
  let result := result ++ pk_user_key key in
  let! tag := PackSequenceAndType (pk_sequence key) (pk_type key) in
  Ret (PutFixed64 result tag).

(** The assertion [internal_key.size() >= 8] of [ExtractUserKey] is [internal_key]. *)
Definition internal_key (k : bytes) : bool := 8 <=? zlen k.

Definition ExtractUserKey (k : bytes) : bytes := ztake (zlen k - 8) k.

(** [DecodeFixed64(data + size - 8)]. *)
Definition ExtractTag (k : bytes) : Z := DecodeFixed64 (zdrop (zlen k - 8) k).

Definition value_type (c : Z) : option ValueType :=
  if c =? 0 then Some kTypeDeletion else if c =? 1 then Some kTypeValue else None.

(** [None]: the function returns false. *)
Definition ParseInternalKey (k : bytes) : option ParsedInternalKey :=
  let n := zlen k in
  if n <? 8 then None
  else
    let num := DecodeFixed64 (zdrop (n - 8) k) in
    let c := Z.land num 0xff in
    match value_type c with
    | Some t => Some (mkParsed (ztake (n - 8) k) (num ≫ 8) t)
    | None => None
    end.

(** The class [InternalKey] holds an encoded key, empty when it is invalid. *)
Record InternalKey := mkInternalKey { rep_ : bytes }.

#[global] Instance InternalKey_eq_dec : EqDecision InternalKey.
Proof. solve_decision. Defined.

Definition new_InternalKey (user_key : bytes) (s : Z) (t : ValueType) : outcome InternalKey :=
  let! rep := AppendInternalKey [] (mkParsed user_key s t) in
  Ret (mkInternalKey rep).

Definition DecodeFrom (s : bytes) : InternalKey := mkInternalKey s.

Definition Encode (k : InternalKey) : outcome bytes :=
  assert! negb (zlen (rep_ k) =? 0); Ret (rep_ k).

Definition user_key (k : InternalKey) : outcome bytes :=
  assert! internal_key (rep_ k); Ret (ExtractUserKey (rep_ k)).

Definition SetFrom (p : ParsedInternalKey) : outcome InternalKey :=
  let! rep := AppendInternalKey [] p in Ret (mkInternalKey rep).

(** ** The comparator of internal keys *)

Section InternalKeyComparator.
Context `{user_comparator : Comparator}.

Definition internal_compare (akey bkey : bytes) : Z :=
  let r := Compare (ExtractUserKey akey) (ExtractUserKey bkey) in
  if r =? 0 then
    let anum := ExtractTag akey in
    let bnum := ExtractTag bkey in
    if bnum <? anum then -1 else if anum <? bnum then 1 else r
  else r.

Definition internal_separator (start limit : bytes) : outcome bytes :=
  assert! internal_key start; assert! internal_key limit;
  let user_start := ExtractUserKey start in
  let user_limit := ExtractUserKey limit in
  let! tmp := FindShortestSeparator user_start user_limit in
  if (zlen tmp <? zlen user_start) && (Compare user_start tmp <? 0) then
    let! tag := PackSequenceAndType kMaxSequenceNumber kValueTypeForSeek in
    let tmp := PutFixed64 tmp tag in
    assert! internal_compare start tmp <? 0;
    assert! internal_compare tmp limit <? 0;
    Ret tmp
  else Ret start.

Definition internal_successor (key : bytes) : outcome bytes :=
  assert! internal_key key;
  let user_key := ExtractUserKey key in
  let! tmp := FindShortSuccessor user_key in
  if (zlen tmp <? zlen user_key) && (Compare user_key tmp <? 0) then
    let! tag := PackSequenceAndType kMaxSequenceNumber kValueTypeForSeek in
    let tmp := PutFixed64 tmp tag in
    assert! internal_compare key tmp <? 0;
    Ret tmp
  else Ret key.

Definition InternalKeyComparator : Comparator := {|
  Compare := internal_compare;
  FindShortestSeparator := internal_separator;
  FindShortSuccessor := internal_successor;
|}.

End InternalKeyComparator.

(** ** Lookup keys

    The character array of a [LookupKey], from [start_] to [end_], and the length of its
    varint prefix, [kstart_ - start_]. *)
Record LookupKey := mkLookupKey { lk_space : bytes; lk_kstart : Z }.

Definition new_LookupKey (user_key : bytes) (s : Z) : outcome LookupKey :=
  let usize := zlen user_key in
  let prefix := EncodeVarint32 (u32 (usize + 8)) in
  let! tag := PackSequenceAndType s kValueTypeForSeek in
  Ret (mkLookupKey (prefix ++ user_key ++ EncodeFixed64 tag) (zlen prefix)).

Definition lk_memtable_key (k : LookupKey) : bytes := lk_space k.
Definition lk_internal_key (k : LookupKey) : bytes := zdrop (lk_kstart k) (lk_space k).
Definition lk_user_key (k : LookupKey) : bytes :=
  ztake (zlen (lk_space k) - lk_kstart k - 8) (zdrop (lk_kstart k) (lk_space k)).

(** ** Packing *)

Definition in_range (seq : Z) : Prop := 0 <= seq <= kMaxSequenceNumber.

Definition tag (seq : Z) (t : ValueType) : Z := seq * 256 + type_code t.

Lemma type_code_range t : 0 <= type_code t < 256.
Proof. destruct t; simpl; lia. Qed.

Lemma type_code_inj t t' : type_code t = type_code t' -> t = t'.
Proof. by destruct t, t'. Qed.

Lemma value_type_code t : value_type (type_code t) = Some t.
Proof. by destruct t. Qed.

Lemma value_type_inv c t : value_type c = Some t -> c = type_code t.
Proof.
  unfold value_type. destruct (Z.eqb_spec c 0); [by intros [= <-]|].
  destruct (Z.eqb_spec c 1); [by intros [= <-] | done].
Qed.

Lemma kMaxSequenceNumber_eq : kMaxSequenceNumber = 2 ^ 56 - 1.
Proof. reflexivity. Qed.

Lemma tag_range seq t : in_range seq -> 0 <= tag seq t < 2 ^ 64.
Proof.
  unfold in_range, tag. rewrite kMaxSequenceNumber_eq. pose proof (type_code_range t). lia.
Qed.

Lemma PackSequenceAndType_spec seq t : in_range seq -> PackSequenceAndType seq t = Ret (tag seq t).
Proof.
  intros Hs. unfold PackSequenceAndType. pose proof Hs as [H0 Hm].
  rewrite (proj2 (Z.leb_le seq kMaxSequenceNumber)) by done.
  assert ((type_code t <=? type_code kValueTypeForSeek) = true) as -> by (by destruct t). simpl.
  f_equal. rewrite u64_small.
  2:{ rewrite Z.shiftl_mul_pow2 by lia. rewrite kMaxSequenceNumber_eq in Hm. lia. }
  unfold tag. pose proof (type_code_range t).
  rewrite Z.shiftl_mul_pow2 by lia. pose proof (Z.add_lor_land (seq * 2 ^ 8) (type_code t)).
  assert (Z.land (seq * 2 ^ 8) (type_code t) = 0); [|lia].
  apply Z.bits_inj'. intros i Hi. rewrite Z.land_spec, Z.bits_0.
  destruct (Z.lt_ge_cases i 8) as [Hi8|Hi8].
  - by rewrite Z.mul_pow2_bits_low.
  - rewrite (testbit_small (type_code t) 8 i) by (done || lia). apply andb_false_r.
Qed.

Lemma tag_unpack seq t : Z.land (tag seq t) 0xff = type_code t /\ tag seq t ≫ 8 = seq.
Proof.
  unfold tag. pose proof (type_code_range t).
  change 0xff with (Z.ones 8). rewrite Z.land_ones, Z.shiftr_div_pow2 by lia. change (2 ^ 8) with 256.
  rewrite Z.add_comm, Z.mod_add, Z.mod_small, Z.div_add, Z.div_small by lia. done.
Qed.

Lemma tag_lt s t s' t' :
  tag s t < tag s' t' <-> s < s' \/ (s = s' /\ type_code t < type_code t').
Proof. unfold tag. pose proof (type_code_range t). pose proof (type_code_range t'). lia. Qed.

(** [encode u s t]: the encoded key, as a plain function. *)
Definition encode (u : bytes) (s : Z) (t : ValueType) : bytes := u ++ EncodeFixed64 (tag s t).

Lemma AppendInternalKey_spec result u s t :
  in_range s -> AppendInternalKey result (mkParsed u s t) = Ret (result ++ encode u s t).
Proof.
  intros Hs. unfold AppendInternalKey, encode, PutFixed64. simpl.
  rewrite PackSequenceAndType_spec by done. simpl. by rewrite <- app_assoc.
Qed.

Lemma zlen_encode u s t : zlen (encode u s t) = zlen u + 8.
Proof. unfold encode. by rewrite zlen_app, EncodeFixed64_length. Qed.

Lemma ExtractUserKey_encode u s t : ExtractUserKey (encode u s t) = u.
Proof. unfold ExtractUserKey. rewrite zlen_encode, Z.add_simpl_r. by apply ztake_app_len. Qed.

Lemma ExtractTag_encode u s t : in_range s -> ExtractTag (encode u s t) = tag s t.
Proof.
  intros Hs. unfold ExtractTag. rewrite zlen_encode, Z.add_simpl_r. unfold encode.
  rewrite zdrop_app_len, <- (app_nil_r (EncodeFixed64 _)), DecodeFixed64_Encode by done.
  apply u64_small. by apply tag_range.
Qed.

Lemma internal_key_encode u s t : internal_key (encode u s t) = true.
Proof. unfold internal_key. rewrite zlen_encode. zlen_pos. lia. Qed.

Lemma ParseInternalKey_encode u s t : in_range s -> ParseInternalKey (encode u s t) = Some (mkParsed u s t).
Proof.
  intros Hs. unfold ParseInternalKey.
  fold (ExtractTag (encode u s t)) (ExtractUserKey (encode u s t)).
  rewrite ExtractTag_encode, ExtractUserKey_encode, zlen_encode by done.
  destruct (tag_unpack s t) as [-> ->]. rewrite value_type_code.
  zlen_pos. by destruct (Z.ltb_spec (zlen u + 8) 8); [lia|].
Qed.

Lemma ParseInternalKey_inv k p :
  ParseInternalKey k = Some p ->
  in_range (pk_sequence p) /\ k = encode (pk_user_key p) (pk_sequence p) (pk_type p).
Proof.
  unfold ParseInternalKey. destruct (Z.ltb_spec (zlen k) 8); [done|].
  destruct (value_type _) as [t|] eqn:E; [|done]. intros [= <-]. simpl.
  apply value_type_inv in E. set (num := DecodeFixed64 (zdrop (zlen k - 8) k)) in *.
  pose proof (DecodeFixed64_range (zdrop (zlen k - 8) k)) as Hn. fold num in Hn.
  assert (tag (num ≫ 8) t = num) as Ht.
  { unfold tag. rewrite <- E. change 0xff with (Z.ones 8).
    rewrite Z.land_ones, Z.shiftr_div_pow2 by lia. change (2 ^ 8) with 256. zdiv_lia. }
  split.
  - unfold in_range. rewrite kMaxSequenceNumber_eq, Z.shiftr_div_pow2 by lia.
    pose proof (Z.div_pos num (2 ^ 8)). pose proof (Z.div_lt_upper_bound num (2 ^ 8) (2 ^ 56)). lia.
  - unfold encode. rewrite Ht. unfold num. rewrite EncodeFixed64_Decode by zlen_lia.
    rewrite (ztake_all 8) by zlen_lia. by rewrite ztake_zdrop.
Qed.

(** ** The order of internal keys *)

Section InternalOrder.
Context `{ComparatorLaws}.

Lemma internal_compare_cases a b :
  (internal_compare a b < 0 <->
     Compare (ExtractUserKey a) (ExtractUserKey b) < 0 \/
     (Compare (ExtractUserKey a) (ExtractUserKey b) = 0 /\ ExtractTag b < ExtractTag a)) /\
  (0 < internal_compare a b <->
     0 < Compare (ExtractUserKey a) (ExtractUserKey b) \/
     (Compare (ExtractUserKey a) (ExtractUserKey b) = 0 /\ ExtractTag a < ExtractTag b)).
Proof.
  unfold internal_compare.
  destruct (Z.eqb_spec (Compare (ExtractUserKey a) (ExtractUserKey b)) 0); [|lia].
  destruct (Z.ltb_spec (ExtractTag b) (ExtractTag a)); [lia|].
  destruct (Z.ltb_spec (ExtractTag a) (ExtractTag b)); lia.
Qed.

Lemma internal_antisym a b : internal_compare a b < 0 <-> 0 < internal_compare b a.
Proof.
  rewrite (proj1 (internal_compare_cases a b)), (proj2 (internal_compare_cases b a)).
  by rewrite compare_antisym, (compare_antisym_eq (ExtractUserKey a)).
Qed.

Lemma internal_trans a b c :
  internal_compare a b <= 0 -> internal_compare b c <= 0 -> internal_compare a c <= 0.
Proof.
  pose proof (proj2 (internal_compare_cases a b)). pose proof (proj2 (internal_compare_cases b c)).
  pose proof (proj2 (internal_compare_cases a c)).
  set (ua := ExtractUserKey a) in *. set (ub := ExtractUserKey b) in *. set (uc := ExtractUserKey c) in *.
  intros Hab Hbc. pose proof (compare_trans ua ub uc).
  pose proof (compare_lt_le ua ub uc). pose proof (compare_le_lt ua ub uc). lia.
Qed.

(** The key with the largest tag comes before every key with a greater user key. *)
Lemma compare_max_tag u k :
  internal_compare (encode u kMaxSequenceNumber kValueTypeForSeek) k < 0 <->
  Compare u (ExtractUserKey k) < 0 \/
  (Compare u (ExtractUserKey k) = 0 /\ ExtractTag k < tag kMaxSequenceNumber kValueTypeForSeek).
Proof.
  rewrite (proj1 (internal_compare_cases _ _)), ExtractUserKey_encode, ExtractTag_encode by done. done.
Qed.

Lemma internal_separator_spec start limit :
  valid_key (ExtractUserKey start) -> valid_key (ExtractUserKey limit) ->
  internal_key start = true -> internal_key limit = true ->
  Compare (ExtractUserKey start) (ExtractUserKey limit) <= 0 ->
  exists s, internal_separator start limit = Ret s /\ internal_key s = true /\
    valid_key (ExtractUserKey s) /\
    (s = start \/ internal_compare start s < 0 /\ internal_compare s limit < 0).
Proof.
  intros Hv Hv' Hs Hl Hle. unfold internal_separator. rewrite Hs, Hl. cbn [andb obind oassert].
  destruct (Z.lt_ge_cases (Compare (ExtractUserKey start) (ExtractUserKey limit)) 0) as [Hlt|Hge].
  - destruct (separator_lt _ _ Hv Hv' Hlt) as (tmp & -> & Hvt & Ht1 & Ht2). cbn [andb obind oassert].
    destruct (_ <? _); cbn [andb obind oassert]; [|by exists start; eauto].
    destruct (Z.ltb_spec (Compare (ExtractUserKey start) tmp) 0); cbn [andb obind oassert]; [|by exists start; eauto].
    rewrite PackSequenceAndType_spec by done. cbn [andb obind oassert].
    change (PutFixed64 tmp _) with (encode tmp kMaxSequenceNumber kValueTypeForSeek).
    set (s := encode tmp _ _).
    assert (internal_compare start s < 0) as H1'.
    { apply internal_compare_cases. left. unfold s. by rewrite ExtractUserKey_encode. }
    assert (internal_compare s limit < 0) as H2' by (apply compare_max_tag; by left).
    rewrite (proj2 (Z.ltb_lt _ _) H1'), (proj2 (Z.ltb_lt _ _) H2'). cbn [andb obind oassert].
    exists s. split_and!; [done | apply internal_key_encode | | by right].
    unfold s. by rewrite ExtractUserKey_encode.
  - destruct (separator_eq _ _ Hv Hv' ltac:(lia)) as (tmp & -> & Hvt & Ht). cbn [andb obind oassert].
    rewrite Ht, andb_false_r. exists start. eauto.
Qed.

Lemma internal_successor_spec key :
  valid_key (ExtractUserKey key) -> internal_key key = true ->
  exists s, internal_successor key = Ret s /\ internal_key s = true /\
    valid_key (ExtractUserKey s) /\ (s = key \/ internal_compare key s < 0).
Proof.
  intros Hv Hs. unfold internal_successor. rewrite Hs. cbn [andb obind oassert].
  destruct (successor_ge _ Hv) as (tmp & -> & Hvt & Ht). cbn [andb obind oassert].
  destruct (_ <? _); cbn [andb obind oassert]; [|by exists key; eauto].
  destruct (Z.ltb_spec (Compare (ExtractUserKey key) tmp) 0); cbn [andb obind oassert]; [|by exists key; eauto].
  rewrite PackSequenceAndType_spec by done. cbn [andb obind oassert].
  change (PutFixed64 tmp _) with (encode tmp kMaxSequenceNumber kValueTypeForSeek).
  set (s := encode tmp _ _).
  assert (internal_compare key s < 0) as H1'.
  { apply internal_compare_cases. left. unfold s. by rewrite ExtractUserKey_encode. }
  rewrite (proj2 (Z.ltb_lt _ _) H1'). cbn [andb obind oassert]. exists s.
  split_and!; [done | apply internal_key_encode | | by right].
  unfold s. by rewrite ExtractUserKey_encode.
Qed.

(** The internal comparator satisfies the interface again. *)
#[local, refine] Instance InternalKeyComparator_laws : @ComparatorLaws InternalKeyComparator := {
  valid_key k := internal_key k = true /\ valid_key (ExtractUserKey k);
}.
Proof.
  - apply internal_antisym.
  - apply internal_trans.
  - intros start limit [Hs Hv] [Hl Hv'] Hlt. simpl in Hlt.
    destruct (internal_separator_spec start limit) as (s & E & Hs' & Hvs & Hc); try done.
    { apply internal_compare_cases in Hlt. lia. }
    exists s. split_and!; [done | done | done | |]; simpl;
      (destruct Hc as [->|[H1' H2']]; [|done || lia]); try done.
    pose proof (internal_antisym start start). lia.
  - intros start limit [Hs Hv] [Hl Hv'] Heq. simpl in Heq.
    pose proof (proj1 (internal_compare_cases start limit)) as Hc1.
    pose proof (proj2 (internal_compare_cases start limit)) as Hc2.
    unfold internal_separator; simpl. unfold internal_separator. rewrite Hs, Hl. simpl.
    destruct (separator_eq (ExtractUserKey start) (ExtractUserKey limit)) as (tmp & -> & Hvt & Ht);
      [done | done | lia |]. simpl. rewrite Ht, andb_false_r. exists start.
    split_and!; [done | done | done |]. pose proof (internal_antisym start start). lia.
  - intros key [Hs Hv]. destruct (internal_successor_spec key Hv Hs) as (s & E & Hs' & Hvs & Hc).
    exists s. split_and!; [done | done | done |]. simpl.
    destruct Hc as [->|]; [|lia]. pose proof (internal_antisym key key). lia.
Defined.

End InternalOrder.

Lemma new_LookupKey_spec u s :
  in_range s -> zlen u + 8 < 2 ^ 32 ->
  exists k, new_LookupKey u s = Ret k /\
    lk_user_key k = u /\ lk_internal_key k = encode u s kValueTypeForSeek /\
    lk_memtable_key k = PutLengthPrefixedSlice [] (encode u s kValueTypeForSeek).
Proof.
  intros Hs Hu. unfold new_LookupKey. rewrite PackSequenceAndType_spec by done. cbn [obind].
  eexists. split; [done|]. unfold lk_user_key, lk_internal_key, lk_memtable_key. cbn [lk_space lk_kstart].
  rewrite !zdrop_app_len by done. split_and!; [|done|].
  - apply ztake_app_len. rewrite !zlen_app, EncodeFixed64_length. lia.
  - unfold PutLengthPrefixedSlice, PutVarint32. by rewrite zlen_encode.
Qed.

(** ** The properties *)

(** Internal keys round trip. Appending a parsed key whose sequence number fits 56 bits
    never fails an assertion and is parsed back to the same fields; conversely, whatever
    bytes [ParseInternalKey] accepts are the encoding of what it returns. *)
Theorem internal_key_roundtrip :
  (forall p, 0 <= pk_sequence p <= kMaxSequenceNumber ->
     exists k, AppendInternalKey [] p = Ret k /\ zlen k = InternalKeyEncodingLength p /\
       ParseInternalKey k = Some p) /\
  (forall k p, ParseInternalKey k = Some p -> AppendInternalKey [] p = Ret k).
Proof.
  split.
  - intros [u s t] Hs. exists (encode u s t).
    split; [by apply AppendInternalKey_spec|]. split; [apply zlen_encode | by apply ParseInternalKey_encode].
  - intros k [u s t] Hp. apply ParseInternalKey_inv in Hp as [Hs Hk].
    rewrite AppendInternalKey_spec by exact Hs. f_equal. symmetry. exact Hk.
Qed.

(** The order of internal keys. On encoded keys the comparator orders by increasing
    user key, then by decreasing sequence number, then by decreasing type. *)
Theorem internal_key_order `{ComparatorLaws} (u u' : bytes) (s s' : Z) (t t' : ValueType) k k' :
  0 <= s <= kMaxSequenceNumber -> 0 <= s' <= kMaxSequenceNumber ->
  AppendInternalKey [] (mkParsed u s t) = Ret k -> AppendInternalKey [] (mkParsed u' s' t') = Ret k' ->
  internal_compare k k' < 0 <->
    Compare u u' < 0 \/
    (Compare u u' = 0 /\ (s' < s \/ (s' = s /\ type_code t' < type_code t))).
Proof.
  intros Hs Hs'. rewrite !AppendInternalKey_spec by done. intros [= <-] [= <-]. cbn [app].
  by rewrite (proj1 (internal_compare_cases _ _)), !ExtractUserKey_encode, !ExtractTag_encode, tag_lt.
Qed.

Lemma internal_key_order_witness :
  @internal_compare BytewiseComparator (encode [x61] 7 kTypeValue) (encode [x61] 5 kTypeDeletion) < 0.
Proof.
  apply (@internal_key_order BytewiseComparator BytewiseComparator_laws
    [x61] [x61] 7 5 kTypeValue kTypeDeletion); try reflexivity.
  - split; [discriminate | discriminate].
  - split; [discriminate | discriminate].
  - right. split; [reflexivity | lia].
Defined.

(** What a lookup finds first. The key a lookup of [u] at sequence number [s] seeks to
    comes at or before exactly the entries with a greater user key, and the entries of the
    same user key that are not newer than [s]; its memtable form is the internal key with
    its length as a varint in front. *)
Theorem lookup_key_seek `{ComparatorLaws} (u : bytes) (s : Z) :
  0 <= s <= kMaxSequenceNumber -> zlen u + 8 < 2 ^ 32 ->
  exists k, new_LookupKey u s = Ret k /\ lk_user_key k = u /\
    lk_memtable_key k = PutLengthPrefixedSlice [] (lk_internal_key k) /\
    forall p e, 0 <= pk_sequence p <= kMaxSequenceNumber -> AppendInternalKey [] p = Ret e ->
      internal_compare (lk_internal_key k) e <= 0 <->
        Compare u (pk_user_key p) < 0 \/
        (Compare u (pk_user_key p) = 0 /\ pk_sequence p <= s).
Proof.
  intros Hs Hu. destruct (new_LookupKey_spec u s Hs Hu) as (k & E & Hk1 & Hk2 & Hk3).
  exists k. rewrite Hk2. split_and!; [done | done | done |].
  intros [u' s' t'] e Hs'. cbn [pk_sequence pk_user_key] in *.
  rewrite AppendInternalKey_spec by done. intros [= <-]. cbn [app].
  pose proof (proj2 (internal_compare_cases (encode u s kValueTypeForSeek) (encode u' s' t'))) as Hc.
  rewrite !ExtractUserKey_encode, !ExtractTag_encode, tag_lt in Hc by done.
  assert (type_code t' <= type_code kValueTypeForSeek) by (by destruct t'). lia.
Qed.

Lemma lookup_key_seek_witness :
  exists k, new_LookupKey [x61] 9 = Ret k /\ lk_user_key k = [x61] /\
    lk_memtable_key k = PutLengthPrefixedSlice [] (lk_internal_key k) /\
    forall p e, 0 <= pk_sequence p <= kMaxSequenceNumber -> AppendInternalKey [] p = Ret e ->
      @internal_compare BytewiseComparator (lk_internal_key k) e <= 0 <->
        compare [x61] (pk_user_key p) < 0 \/
        (compare [x61] (pk_user_key p) = 0 /\ pk_sequence p <= 9).
Proof.
  apply (@lookup_key_seek BytewiseComparator BytewiseComparator_laws [x61] 9).
  - split; [discriminate | discriminate].
  - reflexivity.
Defined.

(** Shortening index keys is safe. For internal keys in order whose user keys the user
    comparator accepts, [FindShortestSeparator] fails no assertion and returns a key that
    is at least [start] and, unless it is [start] itself, strictly below [limit];
    [FindShortSuccessor] returns a key that is at least its argument. *)
Theorem internal_separator_correct `{ComparatorLaws} (start limit : bytes) :
  valid_key (ExtractUserKey start) -> valid_key (ExtractUserKey limit) ->
  internal_key start = true -> internal_key limit = true -> internal_compare start limit < 0 ->
  (exists s, internal_separator start limit = Ret s /\
     internal_compare start s <= 0 /\ internal_compare s limit < 0) /\
  (exists s, internal_successor start = Ret s /\ internal_compare start s <= 0).
Proof.
  intros Hv Hv' Hs Hl Hlt. assert (internal_compare start start <= 0) as Hrefl.
  { pose proof (internal_antisym start start). lia. }
  split.
  - destruct (internal_separator_spec start limit) as (s & E & _ & _ & Hc); try done.
    { apply internal_compare_cases in Hlt. lia. }
    exists s. destruct Hc as [->|[H1' H2']]; [done|]. split_and!; [done | lia | done].
  - destruct (internal_successor_spec start Hv Hs) as (s & E & _ & _ & Hc).
    exists s. split; [done|]. destruct Hc as [->|]; [done | lia].
Qed.

Lemma internal_separator_correct_witness :
  (exists s, @internal_separator BytewiseComparator (encode [x61; x61; x61] 4 kTypeValue) (encode [x63] 9 kTypeValue) = Ret s /\
     @internal_compare BytewiseComparator (encode [x61; x61; x61] 4 kTypeValue) s <= 0 /\
     @internal_compare BytewiseComparator s (encode [x63] 9 kTypeValue) < 0) /\
  (exists s, @internal_successor BytewiseComparator (encode [x61; x61; x61] 4 kTypeValue) = Ret s /\
     @internal_compare BytewiseComparator (encode [x61; x61; x61] 4 kTypeValue) s <= 0).
Proof.
  apply (@internal_separator_correct BytewiseComparator BytewiseComparator_laws); reflexivity || exact I.
Defined.
