(* ===== verification/VersionEdit.v ===== *)
(** * Version edits

    [version_edit.h] and [version_edit.c]: the changes from one version of the file set to
    the next, as they are built by the database, written to the manifest and read back. *)

From stdpp Require Import sorting.
From S2P Require Import Prelude Coding Env Comparator DbFormat.

Open Scope outcome_scope.

(** ** Data *)

Record FileMetaData := mkFile {
  refs : Z;
  allowed_seeks : Z;
  number : Z;
  file_size : Z;
  smallest : InternalKey;
  largest : InternalKey;
}.

#[global] Instance FileMetaData_eq_dec : EqDecision FileMetaData.
Proof. solve_decision. Defined.

(** The constructor's values, with the fields [AddFile] sets. *)
Definition new_FileMetaData (num size : Z) (small large : InternalKey) : FileMetaData :=
  mkFile 0 (1 ≪ 30) num size small large.

(** [deleted_files_] is a [std::set] of pairs: a list kept in increasing order. *)
Record VersionEdit := mkEdit {
  comparator_ : bytes;
  log_number_ : Z;
  prev_log_number_ : Z;
  next_file_number_ : Z;
  last_sequence_ : Z;
  has_comparator_ : bool;
  has_log_number_ : bool;
  has_prev_log_number_ : bool;
  has_next_file_number_ : bool;
  has_last_sequence_ : bool;
  compact_pointers_ : list (Z * InternalKey);
  deleted_files_ : list (Z * Z);
  new_files_ : list (Z * FileMetaData);
}.

Definition pair_ltb (p q : Z * Z) : bool :=
  (fst p <? fst q) || ((fst p =? fst q) && (snd p <? snd q)).

(** [std::set::insert]. *)
Fixpoint set_insert (p : Z * Z) (s : list (Z * Z)) : list (Z * Z) :=
  match s with
  | [] => [p]
  | q :: s' => if pair_ltb p q then p :: s else if pair_ltb q p then q :: set_insert p s' else s
  end.

(** ** Operations *)

Definition Clear (e : VersionEdit) : VersionEdit :=
  mkEdit [] 0 0 0 0 false false false false false (compact_pointers_ e) [] [].

(** The constructor: members default-initialised, then [Clear]. *)
Definition new_VersionEdit : VersionEdit :=
  Clear (mkEdit [] 0 0 0 0 false false false false false [] [] []).

Definition SetComparatorName (name : bytes) (e : VersionEdit) : VersionEdit :=
  mkEdit name (log_number_ e) (prev_log_number_ e) (next_file_number_ e) (last_sequence_ e)
    true (has_log_number_ e) (has_prev_log_number_ e) (has_next_file_number_ e)
    (has_last_sequence_ e) (compact_pointers_ e) (deleted_files_ e) (new_files_ e).

Definition SetLogNumber (num : Z) (e : VersionEdit) : VersionEdit :=
  mkEdit (comparator_ e) num (prev_log_number_ e) (next_file_number_ e) (last_sequence_ e)
    (has_comparator_ e) true (has_prev_log_number_ e) (has_next_file_number_ e)
    (has_last_sequence_ e) (compact_pointers_ e) (deleted_files_ e) (new_files_ e).

Definition SetPrevLogNumber (num : Z) (e : VersionEdit) : VersionEdit :=
  mkEdit (comparator_ e) (log_number_ e) num (next_file_number_ e) (last_sequence_ e)
    (has_comparator_ e) (has_log_number_ e) true (has_next_file_number_ e)
    (has_last_sequence_ e) (compact_pointers_ e) (deleted_files_ e) (new_files_ e).

Definition SetNextFile (num : Z) (e : VersionEdit) : VersionEdit :=
  mkEdit (comparator_ e) (log_number_ e) (prev_log_number_ e) num (last_sequence_ e)
    (has_comparator_ e) (has_log_number_ e) (has_prev_log_number_ e) true
    (has_last_sequence_ e) (compact_pointers_ e) (deleted_files_ e) (new_files_ e).

Definition SetLastSequence (seq : Z) (e : VersionEdit) : VersionEdit :=
  mkEdit (comparator_ e) (log_number_ e) (prev_log_number_ e) (next_file_number_ e) seq
    (has_comparator_ e) (has_log_number_ e) (has_prev_log_number_ e) (has_next_file_number_ e)
    true (compact_pointers_ e) (deleted_files_ e) (new_files_ e).

Definition set_containers cp df nf (e : VersionEdit) : VersionEdit :=
  mkEdit (comparator_ e) (log_number_ e) (prev_log_number_ e) (next_file_number_ e)
    (last_sequence_ e) (has_comparator_ e) (has_log_number_ e) (has_prev_log_number_ e)
    (has_next_file_number_ e) (has_last_sequence_ e) cp df nf.

Definition SetCompactPointer (level : Z) (key : InternalKey) (e : VersionEdit) : VersionEdit :=
  set_containers (compact_pointers_ e ++ [(level, key)]) (deleted_files_ e) (new_files_ e) e.

Definition push_file (level : Z) (f : FileMetaData) (e : VersionEdit) : VersionEdit :=
  set_containers (compact_pointers_ e) (deleted_files_ e) (new_files_ e ++ [(level, f)]) e.

Definition AddFile (level file size : Z) (small large : InternalKey) (e : VersionEdit) : VersionEdit :=
  push_file level (new_FileMetaData file size small large) e.

Definition DeleteFile (level file : Z) (e : VersionEdit) : VersionEdit :=
  set_containers (compact_pointers_ e) (set_insert (level, file) (deleted_files_ e)) (new_files_ e) e.

(** ** Encoding *)

Definition kComparator : Z := 1.
Definition kLogNumber : Z := 2.
Definition kNextFileNumber : Z := 3.
Definition kLastSequence : Z := 4.
Definition kCompactPointer : Z := 5.
Definition kDeletedFile : Z := 6.
Definition kNewFile : Z := 7.
Definition kPrevLogNumber : Z := 9.

Definition PutOptional64 (has : bool) (tag v : Z) (dst : bytes) : bytes :=
  if has then PutVarint64 (PutVarint32 dst tag) v else dst.

Fixpoint PutCompactPointers (l : list (Z * InternalKey)) (dst : bytes) : outcome bytes :=
  match l with
  | [] => Ret dst
  | (level, key) :: l =>
      let dst := PutVarint32 dst kCompactPointer in
      let dst := PutVarint32 dst (u32 level) in
      let! k := Encode key in
      PutCompactPointers l (PutLengthPrefixedSlice dst k)
  end.

Fixpoint PutDeletedFiles (l : list (Z * Z)) (dst : bytes) : bytes :=
  match l with
  | [] => dst
  | (level, num) :: l =>
      let dst := PutVarint32 dst kDeletedFile in
      let dst := PutVarint32 dst (u32 level) in
      PutDeletedFiles l (PutVarint64 dst num)
  end.

Fixpoint PutNewFiles (l : list (Z * FileMetaData)) (dst : bytes) : outcome bytes :=
  match l with
  | [] => Ret dst
  | (level, f) :: l =>
      let dst := PutVarint32 dst kNewFile in
      let dst := PutVarint32 dst (u32 level) in
      let dst := PutVarint64 dst (number f) in
      let dst := PutVarint64 dst (file_size f) in
      let! k := Encode (smallest f) in
      let dst := PutLengthPrefixedSlice dst k in
      let! k := Encode (largest f) in
      PutNewFiles l (PutLengthPrefixedSlice dst k)
  end.

Definition EncodeTo (e : VersionEdit) (dst : bytes) : outcome bytes :=
  let dst := if has_comparator_ e
    then PutLengthPrefixedSlice (PutVarint32 dst kComparator) (comparator_ e) else dst in
  let dst := PutOptional64 (has_log_number_ e) kLogNumber (log_number_ e) dst in
  let dst := PutOptional64 (has_prev_log_number_ e) kPrevLogNumber (prev_log_number_ e) dst in
  let dst := PutOptional64 (has_next_file_number_ e) kNextFileNumber (next_file_number_ e) dst in
  let dst := PutOptional64 (has_last_sequence_ e) kLastSequence (last_sequence_ e) dst in
  let! dst := PutCompactPointers (compact_pointers_ e) dst in
  let dst := PutDeletedFiles (deleted_files_ e) dst in
  PutNewFiles (new_files_ e) dst.

(** ** Decoding *)

Definition GetInternalKey (input : bytes) : option (InternalKey * bytes) :=
  match GetLengthPrefixedSlice input with
  | Some (str, input) => Some (DecodeFrom str, input)
  | None => None
  end.

Definition GetLevel (input : bytes) : option (Z * bytes) :=
  match GetVarint32 input with
  | Some (v, input) => if v <? config.kNumLevels then Some (v, input) else None
  | None => None
  end.

(** One [case] of the [switch]: the edit and the rest of the input, or the message. *)
Definition decode_number (msg : string) (set : Z -> VersionEdit -> VersionEdit) (e : VersionEdit)
    (input : bytes) : string + (VersionEdit * bytes) :=
  match GetVarint64 input with
  | Some (v, input) => inr (set v e, input)
  | None => inl msg
  end.

Definition decode_pointer (e : VersionEdit) (input : bytes) : string + (VersionEdit * bytes) :=
  match GetLevel input with
  | Some (level, input) =>
      match GetInternalKey input with
      | Some (key, input) => inr (SetCompactPointer level key e, input)
      | None => inl "compaction pointer"
      end
  | None => inl "compaction pointer"
  end.

Definition decode_deleted (e : VersionEdit) (input : bytes) : string + (VersionEdit * bytes) :=
  match GetLevel input with
  | Some (level, input) =>
      match GetVarint64 input with
      | Some (num, input) => inr (DeleteFile level num e, input)
      | None => inl "deleted file"
      end
  | None => inl "deleted file"
  end.

Definition decode_new_file (e : VersionEdit) (input : bytes) : string + (VersionEdit * bytes) :=
  let fields :=
    '(level, input) ← GetLevel input;
    '(num, input) ← GetVarint64 input;
    '(size, input) ← GetVarint64 input;
    '(small, input) ← GetInternalKey input;
    '(large, input) ← GetInternalKey input;
    Some (level, new_FileMetaData num size small large, input) in
  match fields with
  | Some (level, f, input) => inr (push_file level f e, input)
  | None => inl "new-file entry"
  end.

Definition decode_field (tag : Z) (e : VersionEdit) (input : bytes)
    : string + (VersionEdit * bytes) :=
  if tag =? kComparator then
    match GetLengthPrefixedSlice input with
    | Some (str, input) => inr (SetComparatorName str e, input)
    | None => inl "comparator name"
    end
  else if tag =? kLogNumber then decode_number "log number" SetLogNumber e input
  else if tag =? kPrevLogNumber then decode_number "previous log number" SetPrevLogNumber e input
  else if tag =? kNextFileNumber then decode_number "next file number" SetNextFile e input
  else if tag =? kLastSequence then decode_number "last sequence number" SetLastSequence e input
  else if tag =? kCompactPointer then decode_pointer e input
  else if tag =? kDeletedFile then decode_deleted e input
  else if tag =? kNewFile then decode_new_file e input
  else inl "unknown tag".

Definition edit_corruption (msg : string) : Status := Corruption ("VersionEdit: " +:+ msg).

Fixpoint DecodeFrom_loop (fuel : nat) (e : VersionEdit) (input : bytes)
    : outcome (VersionEdit * Status) :=
  match fuel with
  | O => OutOfFuel
  | S fuel =>
      match GetVarint32 input with
      | Some (tag, input) =>
          match decode_field tag e input with
          | inr (e, input) => DecodeFrom_loop fuel e input
          | inl msg => Ret (e, edit_corruption msg)
          end
      | None =>
          if negb (zlen input =? 0) then Ret (e, edit_corruption "invalid tag") else Ret (e, OK)
      end
  end.

(** Every round consumes a byte: one round more than the input is long is enough. *)
Definition DecodeEdit (e : VersionEdit) (src : bytes) : outcome (VersionEdit * Status) :=
  DecodeFrom_loop (S (length src)) (Clear e) src.

(** ** Well-formed edits

    What the setters build from arguments in range. *)

Definition key_ok (k : InternalKey) : Prop := 1 <= zlen (rep_ k) < 2 ^ 32.
Definition level_ok (level : Z) : Prop := 0 <= level < config.kNumLevels.
Definition num_ok (n : Z) : Prop := 0 <= n < 2 ^ 64.

(** A field that is not set has its initial value. *)
Definition field_ok (has : bool) (v : Z) : Prop := num_ok v /\ (has = false -> v = 0).

Definition pair_lt (p q : Z * Z) : Prop := pair_ltb p q = true.

Definition file_ok (f : FileMetaData) : Prop :=
  f = new_FileMetaData (number f) (file_size f) (smallest f) (largest f) /\
  num_ok (number f) /\ num_ok (file_size f) /\ key_ok (smallest f) /\ key_ok (largest f).

Record edit_ok (e : VersionEdit) : Prop := mkEditOk {
  ok_comparator : zlen (comparator_ e) < 2 ^ 32;
  ok_no_comparator : has_comparator_ e = false -> comparator_ e = [];
  ok_log_number : field_ok (has_log_number_ e) (log_number_ e);
  ok_prev_log_number : field_ok (has_prev_log_number_ e) (prev_log_number_ e);
  ok_next_file : field_ok (has_next_file_number_ e) (next_file_number_ e);
  ok_last_sequence : field_ok (has_last_sequence_ e) (last_sequence_ e);
  ok_pointers : Forall (fun p => level_ok (fst p) /\ key_ok (snd p)) (compact_pointers_ e);
  ok_deleted : Forall (fun p => level_ok (fst p) /\ num_ok (snd p)) (deleted_files_ e);
  ok_deleted_sorted : StronglySorted pair_lt (deleted_files_ e);
  ok_files : Forall (fun p => level_ok (fst p) /\ file_ok (snd p)) (new_files_ e);
}.

(** *** The ordered set of deleted files *)

Lemma pair_lt_trans p q r : pair_lt p q -> pair_lt q r -> pair_lt p r.
Proof. unfold pair_lt, pair_ltb. lia. Qed.

Lemma pair_ltb_eq p q : pair_ltb p q = false -> pair_ltb q p = false -> p = q.
Proof. destruct p, q. unfold pair_ltb. simpl. intros. f_equal; lia. Qed.

Lemma set_insert_elem p q s : q ∈ set_insert p s <-> q = p \/ q ∈ s.
Proof.
  induction s as [|r s IH]; cbn [set_insert]; [by rewrite !elem_of_cons|].
  destruct (pair_ltb p r) eqn:E1; [by rewrite elem_of_cons|].
  destruct (pair_ltb r p) eqn:E2; [rewrite !elem_of_cons, IH; tauto|].
  rewrite <- (pair_ltb_eq _ _ E1 E2), !elem_of_cons. tauto.
Qed.

Lemma set_insert_sorted p s :
  StronglySorted pair_lt s -> StronglySorted pair_lt (set_insert p s).
Proof.
  induction 1 as [|q s Hs IH Hall]; cbn [set_insert]; [by repeat constructor|].
  destruct (pair_ltb p q) eqn:E1.
  - constructor; [by constructor|]. constructor; [done|].
    eapply Forall_impl; [done|]. intros r ?. by eapply pair_lt_trans.
  - destruct (pair_ltb q p) eqn:E2; [|by constructor].
    constructor; [done|]. apply Forall_forall. intros r Hr. apply set_insert_elem in Hr as [->|Hr]; [done|].
    rewrite Forall_forall in Hall. by apply Hall.
Qed.

(** Inserting at the end. *)
Lemma set_insert_last p s : Forall (fun q => pair_lt q p) s -> set_insert p s = s ++ [p].
Proof.
  induction 1 as [|q s Hq _ IH]; cbn [set_insert app]; [done|].
  assert (pair_ltb p q = false) as -> by (unfold pair_lt, pair_ltb in *; lia).
  unfold pair_lt in Hq. by rewrite Hq, IH.
Qed.

(** *** The setters keep an edit well-formed *)

Lemma new_VersionEdit_ok : edit_ok new_VersionEdit.
Proof. split; simpl; try done; try constructor; try (unfold num_ok; lia); try done; constructor. Qed.

Lemma SetCompactPointer_ok level key e :
  edit_ok e -> level_ok level -> key_ok key -> edit_ok (SetCompactPointer level key e).
Proof. intros [] ? ?. split; try done. simpl. apply Forall_app. auto. Qed.

Lemma AddFile_ok level file size small large e :
  edit_ok e -> level_ok level -> num_ok file -> num_ok size -> key_ok small -> key_ok large ->
  edit_ok (AddFile level file size small large e).
Proof.
  intros [] ? ? ? ? ?. split; try done. simpl. apply Forall_app. split; [done|].
  constructor; [|done]. unfold file_ok. simpl. auto 10.
Qed.

Lemma DeleteFile_ok level file e :
  edit_ok e -> level_ok level -> num_ok file -> edit_ok (DeleteFile level file e).
Proof.
  intros [] ? ?. split; try done; simpl; [|by apply set_insert_sorted].
  rewrite Forall_forall in *. intros q Hq. apply set_insert_elem in Hq as [->|]; auto.
Qed.

(** ** Round trip *)

(** The result of reading [input] from the edit [e]. *)
Definition run (e : VersionEdit) (input : bytes) : outcome (VersionEdit * Status) :=
  DecodeFrom_loop (S (length input)) e input.

Definition step (e : VersionEdit) (input : bytes) : string + (VersionEdit * bytes) :=
  match GetVarint32 input with
  | Some (tag, input) => decode_field tag e input
  | None => inl ""
  end.

Lemma GetVarint32_shorter input v q : GetVarint32 input = Some (v, q) -> (length q < length input)%nat.
Proof.
  intros (_ & c & -> & Hc)%GetVarint32_bounds. rewrite length_app. unfold zlen in Hc. lia.
Qed.

Lemma GetVarint64_shorter input v q : GetVarint64 input = Some (v, q) -> (length q < length input)%nat.
Proof.
  intros (_ & c & -> & Hc)%GetVarint64_bounds. rewrite length_app. unfold zlen in Hc. lia.
Qed.

Lemma GetLengthPrefixedSlice_shorter input s q :
  GetLengthPrefixedSlice input = Some (s, q) -> (length q < length input)%nat.
Proof.
  intros (c & -> & Hc)%GetLengthPrefixedSlice_bounds. rewrite !length_app. unfold zlen in Hc. lia.
Qed.

Lemma GetLevel_shorter input v q : GetLevel input = Some (v, q) -> (length q < length input)%nat.
Proof.
  unfold GetLevel. destruct (GetVarint32 input) as [[v' q']|] eqn:E; [|done].
  destruct (_ <? _); [|done]. intros [= <- <-]. by eapply GetVarint32_shorter.
Qed.

Lemma GetInternalKey_shorter input k q :
  GetInternalKey input = Some (k, q) -> (length q < length input)%nat.
Proof.
  unfold GetInternalKey. destruct (GetLengthPrefixedSlice input) as [[s q']|] eqn:E; [|done].
  intros [= <- <-]. by eapply GetLengthPrefixedSlice_shorter.
Qed.

Ltac shorter :=
  repeat match goal with
  | H : GetVarint32 _ = Some _ |- _ => apply GetVarint32_shorter in H
  | H : GetVarint64 _ = Some _ |- _ => apply GetVarint64_shorter in H
  | H : GetLengthPrefixedSlice _ = Some _ |- _ => apply GetLengthPrefixedSlice_shorter in H
  | H : GetLevel _ = Some _ |- _ => apply GetLevel_shorter in H
  | H : GetInternalKey _ = Some _ |- _ => apply GetInternalKey_shorter in H
  end; lia.

Lemma decode_new_file_shorter e input e' q :
  decode_new_file e input = inr (e', q) -> (length q < length input)%nat.
Proof.
  unfold decode_new_file.
  destruct (GetLevel input) as [[level q1]|] eqn:?; [|done]. cbn [mbind option_bind].
  destruct (GetVarint64 q1) as [[num q2]|] eqn:?; [|done]. cbn [mbind option_bind].
  destruct (GetVarint64 q2) as [[size q3]|] eqn:?; [|done]. cbn [mbind option_bind].
  destruct (GetInternalKey q3) as [[small q4]|] eqn:?; [|done]. cbn [mbind option_bind].
  destruct (GetInternalKey q4) as [[large q5]|] eqn:?; [|done]. cbn [mbind option_bind].
  intros [= <- <-]. shorter.
Qed.

Lemma decode_field_shorter tag e input e' q :
  decode_field tag e input = inr (e', q) -> (length q < length input)%nat.
Proof.
  unfold decode_field, decode_number, decode_pointer, decode_deleted.
  repeat (match goal with
  | |- context [if ?b then _ else _] => destruct b
  | |- decode_new_file _ _ = _ -> _ => apply decode_new_file_shorter
  | |- context [match ?m with Some _ => _ | None => _ end] => destruct m as [[? ?]|] eqn:?
  end); first [done | intros [= <- <-]; shorter].
Qed.

Lemma loop_fuel n m e input :
  (length input < n)%nat -> (length input < m)%nat ->
  DecodeFrom_loop n e input = DecodeFrom_loop m e input.
Proof.
  revert m e input. induction n as [|n IH]; intros [|m] e input Hn Hm; try lia.
  cbn [DecodeFrom_loop]. destruct (GetVarint32 input) as [[tag q]|] eqn:E; [|done].
  destruct (decode_field tag e q) as [msg|[e' q']] eqn:E2; [done|].
  apply GetVarint32_shorter in E. apply decode_field_shorter in E2. apply IH; lia.
Qed.

Lemma run_field e input e' q : step e input = inr (e', q) -> run e input = run e' q.
Proof.
  unfold step, run. cbn [DecodeFrom_loop].
  destruct (GetVarint32 input) as [[tag q']|] eqn:E; [|done]. intros E2. rewrite E2.
  apply GetVarint32_shorter in E. apply decode_field_shorter in E2.
  apply (loop_fuel _ (S (length q))); lia.
Qed.

Lemma run_nil e : run e [] = Ret (e, OK).
Proof. reflexivity. Qed.

(** [decodes b f]: reading [b] changes the edit by [f]. *)
Definition decodes (b : bytes) (f : VersionEdit -> VersionEdit) : Prop :=
  forall e rest, run e (b ++ rest) = run (f e) rest.

Lemma decodes_nil : decodes [] (fun e => e).
Proof. done. Qed.

Lemma decodes_app b f c g : decodes b f -> decodes c g -> decodes (b ++ c) (fun e => g (f e)).
Proof. intros Hb Hc e rest. by rewrite <- app_assoc, Hb, Hc. Qed.

Lemma tag_decodes tag b f :
  0 <= tag < 2 ^ 32 ->
  (forall e rest, decode_field tag e (b ++ rest) = inr (f e, rest)) ->
  decodes (PutVarint32 [] tag ++ b) f.
Proof.
  intros Ht Hb e rest. apply run_field. unfold step, PutVarint32. cbn [app].
  rewrite <- app_assoc, GetVarint32_Encode by done. apply Hb.
Qed.

Lemma GetLevel_Put level rest :
  level_ok level -> GetLevel (PutVarint32 [] (u32 level) ++ rest) = Some (level, rest).
Proof.
  unfold level_ok, GetLevel, config.kNumLevels, PutVarint32. intros Hl. cbn [app].
  rewrite u32_small, GetVarint32_Encode by lia. by rewrite (proj2 (Z.ltb_lt level 7)) by lia.
Qed.

Lemma GetVarint64_Put v rest : num_ok v -> GetVarint64 (PutVarint64 [] v ++ rest) = Some (v, rest).
Proof. intros Hv. unfold PutVarint64. cbn [app]. by apply GetVarint64_Encode. Qed.

Lemma GetInternalKey_Put k rest :
  key_ok k -> GetInternalKey (PutLengthPrefixedSlice [] (rep_ k) ++ rest) = Some (k, rest).
Proof.
  intros [? ?]. unfold GetInternalKey. rewrite GetLengthPrefixedSlice_Put by done. by destruct k.
Qed.

(** Every [Put] appends to what is there. *)
Lemma PutLengthPrefixedSlice_app dst v :
  PutLengthPrefixedSlice dst v = dst ++ PutLengthPrefixedSlice [] v.
Proof. unfold PutLengthPrefixedSlice, PutVarint32. by rewrite <- app_assoc. Qed.

Lemma Encode_ok k : key_ok k -> Encode k = Ret (rep_ k).
Proof.
  intros [Hk _]. unfold Encode. destruct (Z.eqb_spec (zlen (rep_ k)) 0); [lia | done].
Qed.

(** The bytes of one entry of each container. *)
Definition pointer_bytes (p : Z * InternalKey) : bytes :=
  PutVarint32 [] kCompactPointer ++ PutVarint32 [] (u32 (fst p)) ++
  PutLengthPrefixedSlice [] (rep_ (snd p)).

Definition deleted_bytes (p : Z * Z) : bytes :=
  PutVarint32 [] kDeletedFile ++ PutVarint32 [] (u32 (fst p)) ++ PutVarint64 [] (snd p).

Definition file_bytes (p : Z * FileMetaData) : bytes :=
  PutVarint32 [] kNewFile ++ PutVarint32 [] (u32 (fst p)) ++ PutVarint64 [] (number (snd p)) ++
  PutVarint64 [] (file_size (snd p)) ++ PutLengthPrefixedSlice [] (rep_ (smallest (snd p))) ++
  PutLengthPrefixedSlice [] (rep_ (largest (snd p))).

Lemma PutCompactPointers_bytes l dst :
  Forall (fun p => level_ok (fst p) /\ key_ok (snd p)) l ->
  PutCompactPointers l dst = Ret (dst ++ concat (map pointer_bytes l)).
Proof.
  intros Hl. revert dst. induction Hl as [|[level k] l [_ Hk] _ IH]; intros dst;
    cbn [PutCompactPointers map concat]; [by rewrite app_nil_r|].
  rewrite Encode_ok by done. cbn [obind]. rewrite IH, PutLengthPrefixedSlice_app.
  unfold pointer_bytes, PutVarint32. cbn [app fst snd]. by rewrite <- !app_assoc.
Qed.

Lemma PutDeletedFiles_bytes l dst : PutDeletedFiles l dst = dst ++ concat (map deleted_bytes l).
Proof.
  revert dst. induction l as [|[level n] l IH]; intros dst;
    cbn [PutDeletedFiles map concat]; [by rewrite app_nil_r|].
  rewrite IH. unfold deleted_bytes, PutVarint32, PutVarint64. cbn [app fst snd].
  by rewrite <- !app_assoc.
Qed.

Lemma PutNewFiles_bytes l dst :
  Forall (fun p => level_ok (fst p) /\ file_ok (snd p)) l ->
  PutNewFiles l dst = Ret (dst ++ concat (map file_bytes l)).
Proof.
  intros Hl. revert dst. induction Hl as [|[level f] l [_ (_ & _ & _ & Hs & Hb)] _ IH]; intros dst;
    cbn [PutNewFiles map concat]; [by rewrite app_nil_r|].
  cbn [snd] in *. rewrite !Encode_ok by done. cbn [obind].
  rewrite IH, (PutLengthPrefixedSlice_app (PutLengthPrefixedSlice _ _)), PutLengthPrefixedSlice_app.
  unfold file_bytes, PutVarint32, PutVarint64. cbn [app fst snd]. by rewrite <- !app_assoc.
Qed.

Lemma decodes_list {A} (bytes_of : A -> bytes) (add : A -> VersionEdit -> VersionEdit) l :
  (forall x, x ∈ l -> decodes (bytes_of x) (add x)) ->
  decodes (concat (map bytes_of l)) (fun e => fold_left (fun e x => add x e) l e).
Proof.
  induction l as [|x l IH]; intros Hl; [apply decodes_nil|]. cbn [map concat fold_left].
  apply (decodes_app _ (add x)); [apply Hl; by left|]. apply IH. intros y Hy. apply Hl. by right.
Qed.

Lemma pointer_decodes p :
  level_ok (fst p) -> key_ok (snd p) ->
  decodes (pointer_bytes p) (SetCompactPointer (fst p) (snd p)).
Proof.
  intros Hl Hk. apply tag_decodes; [done|]. intros e rest.
  change (decode_field kCompactPointer e) with (decode_pointer e). unfold decode_pointer.
  by rewrite <- app_assoc, GetLevel_Put, GetInternalKey_Put.
Qed.

Lemma deleted_decodes p :
  level_ok (fst p) -> num_ok (snd p) -> decodes (deleted_bytes p) (DeleteFile (fst p) (snd p)).
Proof.
  intros Hl Hk. apply tag_decodes; [done|]. intros e rest.
  change (decode_field kDeletedFile e) with (decode_deleted e). unfold decode_deleted.
  by rewrite <- app_assoc, GetLevel_Put, GetVarint64_Put.
Qed.

Lemma file_decodes p :
  level_ok (fst p) -> file_ok (snd p) -> decodes (file_bytes p) (push_file (fst p) (snd p)).
Proof.
  destruct p as [level f]. cbn [fst snd]. intros Hl (Hf & Hn & Hz & Hs & Hb).
  apply tag_decodes; [done|]. intros e rest.
  change (decode_field kNewFile e) with (decode_new_file e). unfold decode_new_file.
  rewrite <- !app_assoc. cbn [fst snd].
  rewrite GetLevel_Put by done. cbn [mbind option_bind]. rewrite GetVarint64_Put by done.
  cbn [mbind option_bind]. rewrite GetVarint64_Put by done. cbn [mbind option_bind].
  rewrite GetInternalKey_Put by done. cbn [mbind option_bind].
  rewrite GetInternalKey_Put by done. cbn [mbind option_bind]. by rewrite <- Hf.
Qed.

Lemma number_decodes (has : bool) tag v set :
  0 <= tag < 2 ^ 32 -> num_ok v ->
  (exists msg, forall e input, decode_field tag e input = decode_number msg set e input) ->
  decodes (PutOptional64 has tag v []) (fun e => if has then set v e else e).
Proof.
  intros Ht Hv [msg Hd]. unfold PutOptional64. destruct has; [|apply decodes_nil].
  change (PutVarint64 (PutVarint32 [] tag) v) with (PutVarint32 [] tag ++ PutVarint64 [] v).
  apply tag_decodes; [done|]. intros e rest. rewrite Hd. unfold decode_number.
  by rewrite GetVarint64_Put.
Qed.

Lemma comparator_decodes (has : bool) name :
  zlen name < 2 ^ 32 ->
  decodes (if has then PutLengthPrefixedSlice (PutVarint32 [] kComparator) name else [])
    (fun e => if has then SetComparatorName name e else e).
Proof.
  intros Hn. destruct has; [|apply decodes_nil]. rewrite PutLengthPrefixedSlice_app.
  apply tag_decodes; [done|]. intros e rest. unfold decode_field. simpl (kComparator =? kComparator).
  cbn iota. by rewrite GetLengthPrefixedSlice_Put.
Qed.

Lemma PutOptional64_app has tag v dst : PutOptional64 has tag v dst = dst ++ PutOptional64 has tag v [].
Proof.
  unfold PutOptional64, PutVarint64, PutVarint32. destruct has; [|by rewrite app_nil_r].
  by rewrite <- app_assoc.
Qed.

(** The whole encoding, as one concatenation. *)
Definition edit_bytes (e : VersionEdit) : bytes :=
  (if has_comparator_ e then PutLengthPrefixedSlice (PutVarint32 [] kComparator) (comparator_ e) else []) ++
  PutOptional64 (has_log_number_ e) kLogNumber (log_number_ e) [] ++
  PutOptional64 (has_prev_log_number_ e) kPrevLogNumber (prev_log_number_ e) [] ++
  PutOptional64 (has_next_file_number_ e) kNextFileNumber (next_file_number_ e) [] ++
  PutOptional64 (has_last_sequence_ e) kLastSequence (last_sequence_ e) [] ++
  concat (map pointer_bytes (compact_pointers_ e)) ++
  concat (map deleted_bytes (deleted_files_ e)) ++
  concat (map file_bytes (new_files_ e)).

Lemma EncodeTo_bytes e dst : edit_ok e -> EncodeTo e dst = Ret (dst ++ edit_bytes e).
Proof.
  intros He. unfold EncodeTo. rewrite PutCompactPointers_bytes by apply He. cbn [obind].
  rewrite PutNewFiles_bytes by apply He. f_equal. rewrite PutDeletedFiles_bytes.
  rewrite (PutOptional64_app (has_last_sequence_ e)), (PutOptional64_app (has_next_file_number_ e)),
    (PutOptional64_app (has_prev_log_number_ e)), (PutOptional64_app (has_log_number_ e)).
  unfold edit_bytes. rewrite <- !app_assoc.
  destruct (has_comparator_ e); [|done]. rewrite (PutLengthPrefixedSlice_app (PutVarint32 dst _)),
    (PutLengthPrefixedSlice_app (PutVarint32 [] _)). unfold PutVarint32. by rewrite <- !app_assoc.
Qed.

(** What reading the encoding does to an edit. *)
Definition apply_edit (e e0 : VersionEdit) : VersionEdit :=
  let e0 := if has_comparator_ e then SetComparatorName (comparator_ e) e0 else e0 in
  let e0 := if has_log_number_ e then SetLogNumber (log_number_ e) e0 else e0 in
  let e0 := if has_prev_log_number_ e then SetPrevLogNumber (prev_log_number_ e) e0 else e0 in
  let e0 := if has_next_file_number_ e then SetNextFile (next_file_number_ e) e0 else e0 in
  let e0 := if has_last_sequence_ e then SetLastSequence (last_sequence_ e) e0 else e0 in
  let e0 := fold_left (fun e p => SetCompactPointer (fst p) (snd p) e) (compact_pointers_ e) e0 in
  let e0 := fold_left (fun e p => DeleteFile (fst p) (snd p) e) (deleted_files_ e) e0 in
  fold_left (fun e p => push_file (fst p) (snd p) e) (new_files_ e) e0.

Lemma edit_decodes e : edit_ok e -> decodes (edit_bytes e) (apply_edit e).
Proof.
  intros [Hc _ [Hl _] [Hpl _] [Hn _] [Hs _] Hp Hd _ Hf] e0 rest. 
  rewrite Forall_forall in Hp. rewrite Forall_forall in Hd. rewrite Forall_forall in Hf.
  unfold edit_bytes. rewrite <- !app_assoc.
  rewrite (comparator_decodes (has_comparator_ e) _ Hc).
  rewrite (number_decodes _ kLogNumber _ SetLogNumber); [|done | done | by exists "log number"].
  rewrite (number_decodes _ kPrevLogNumber _ SetPrevLogNumber);
    [|done | done | by exists "previous log number"].
  rewrite (number_decodes _ kNextFileNumber _ SetNextFile); [|done | done | by exists "next file number"].
  rewrite (number_decodes _ kLastSequence _ SetLastSequence);
    [|done | done | by exists "last sequence number"].
  rewrite (decodes_list pointer_bytes (fun p => SetCompactPointer (fst p) (snd p)));
    [|intros p Hin; by apply pointer_decodes; apply Hp].
  rewrite (decodes_list deleted_bytes (fun p => DeleteFile (fst p) (snd p)));
    [|intros p Hin; by apply deleted_decodes; apply Hd].
  rewrite (decodes_list file_bytes (fun p => push_file (fst p) (snd p)));
    [done|intros p Hin; by apply file_decodes; apply Hf].
Qed.

(** *** Putting an edit together again *)

Lemma fold_pointers l e0 :
  fold_left (fun e p => SetCompactPointer (fst p) (snd p) e) l e0 =
  set_containers (compact_pointers_ e0 ++ l) (deleted_files_ e0) (new_files_ e0) e0.
Proof.
  revert e0. induction l as [|[level k] l IH]; intros e0; cbn [fold_left].
  - rewrite app_nil_r. by destruct e0.
  - rewrite IH. cbn. by rewrite <- app_assoc.
Qed.

Lemma fold_files l e0 :
  fold_left (fun e p => push_file (fst p) (snd p) e) l e0 =
  set_containers (compact_pointers_ e0) (deleted_files_ e0) (new_files_ e0 ++ l) e0.
Proof.
  revert e0. induction l as [|[level f] l IH]; intros e0; cbn [fold_left].
  - rewrite app_nil_r. by destruct e0.
  - rewrite IH. cbn. by rewrite <- app_assoc.
Qed.

Lemma fold_deleted l e0 :
  StronglySorted pair_lt (deleted_files_ e0 ++ l) ->
  fold_left (fun e p => DeleteFile (fst p) (snd p) e) l e0 =
  set_containers (compact_pointers_ e0) (deleted_files_ e0 ++ l) (new_files_ e0) e0.
Proof.
  revert e0. induction l as [|[level n] l IH]; intros e0 Hs; cbn [fold_left].
  - rewrite app_nil_r. by destruct e0.
  - assert (set_insert (level, n) (deleted_files_ e0) = deleted_files_ e0 ++ [(level, n)]) as Hi.
    { apply set_insert_last. clear -Hs. induction (deleted_files_ e0) as [|q s IH]; [constructor|].
      cbn [app] in Hs. apply StronglySorted_inv in Hs as [Hs Hall]. constructor; [|auto].
      rewrite Forall_forall in Hall. apply Hall, elem_of_app. right. by left. }
    rewrite IH; cbn; rewrite Hi, <- app_assoc; done.
Qed.

Lemma apply_edit_ok e cp :
  edit_ok e ->
  apply_edit e (mkEdit [] 0 0 0 0 false false false false false cp [] []) =
  set_containers (cp ++ compact_pointers_ e) (deleted_files_ e) (new_files_ e) e.
Proof.
  intros He. unfold apply_edit. rewrite fold_files, fold_deleted, fold_pointers.
  - destruct e as [c l p n s hc hl hp hn hs cps df nf]. destruct He as [_ Hc [_ Hl] [_ Hp] [_ Hn] [_ Hs] _ _ _ _].
    cbn in *. destruct hc; [|rewrite (Hc eq_refl)]; (destruct hl; [|rewrite (Hl eq_refl)]);
      (destruct hp; [|rewrite (Hp eq_refl)]); (destruct hn; [|rewrite (Hn eq_refl)]);
      (destruct hs; [|rewrite (Hs eq_refl)]); reflexivity.
  - rewrite fold_pointers. replace (deleted_files_ _) with (@nil (Z * Z)); [apply He|].
    by destruct e as [? ? ? ? ? [] [] [] [] [] ? ? ?].
Qed.

Lemma DecodeEdit_EncodeTo e e0 b :
  edit_ok e -> EncodeTo e [] = Ret b ->
  DecodeEdit e0 b =
    Ret (set_containers (compact_pointers_ e0 ++ compact_pointers_ e) (deleted_files_ e) (new_files_ e) e, OK).
Proof.
  intros He. rewrite EncodeTo_bytes by done. intros [= <-]. cbn [app].
  change (DecodeEdit e0 (edit_bytes e)) with (run (Clear e0) (edit_bytes e)).
  rewrite <- (app_nil_r (edit_bytes e)), (edit_decodes e He), run_nil. unfold Clear.
  by rewrite apply_edit_ok.
Qed.

(** ** Reading any bytes *)

Lemma DecodeFrom_loop_total fuel e input :
  (length input < fuel)%nat -> exists e' s, DecodeFrom_loop fuel e input = Ret (e', s).
Proof.
  revert e input. induction fuel as [|fuel IH]; intros e input Hf; [lia|]. cbn [DecodeFrom_loop].
  destruct (GetVarint32 input) as [[tag q]|] eqn:E; [|destruct (negb _); eauto].
  destruct (decode_field tag e q) as [msg|[e' q']] eqn:E2; [eauto|].
  apply GetVarint32_shorter in E. apply decode_field_shorter in E2. apply IH. lia.
Qed.

(** Levels that reached an edit are levels of the database. *)
Definition levels_ok (e : VersionEdit) : Prop :=
  Forall (fun p => level_ok (fst p)) (compact_pointers_ e) /\
  Forall (fun p => level_ok (fst p)) (deleted_files_ e) /\
  Forall (fun p => level_ok (fst p)) (new_files_ e).

Lemma GetLevel_ok input level q : GetLevel input = Some (level, q) -> level_ok level.
Proof.
  unfold GetLevel. destruct (GetVarint32 input) as [[v q']|] eqn:E; [|done].
  apply GetVarint32_bounds in E as [Hv _]. destruct (Z.ltb_spec v config.kNumLevels); [|done].
  intros [= <- <-]. unfold level_ok. lia.
Qed.

Lemma decode_field_levels tag e input e' q :
  levels_ok e -> decode_field tag e input = inr (e', q) -> levels_ok e'.
Proof.
  intros (Hp & Hd & Hf). unfold decode_field, decode_number, decode_pointer, decode_deleted, decode_new_file.
  repeat match goal with |- context [if ?b then _ else _] => destruct b end;
    try (repeat match goal with
         | |- context [match ?m with Some _ => _ | None => _ end] => destruct m as [[? ?]|] eqn:?
         end; intros [= <- <-]; split_and!; done).
  - destruct (GetLevel input) as [[level q1]|] eqn:E; [|done]. apply GetLevel_ok in E.
    destruct (GetInternalKey q1) as [[k q2]|]; [|done]. intros [= <- <-].
    split_and!; [|done|done]. simpl. apply Forall_app. auto.
  - destruct (GetLevel input) as [[level q1]|] eqn:E; [|done]. apply GetLevel_ok in E.
    destruct (GetVarint64 q1) as [[k q2]|]; [|done]. intros [= <- <-].
    split_and!; [done| |done]. simpl. rewrite Forall_forall in *. intros p Hin.
    apply set_insert_elem in Hin as [->|]; auto.
  - destruct (GetLevel input) as [[level q1]|] eqn:E; [|done]. apply GetLevel_ok in E.
    cbn [mbind option_bind]. destruct (GetVarint64 q1) as [[k q2]|]; [|done].
    cbn [mbind option_bind]. destruct (GetVarint64 q2) as [[sz q3]|]; [|done].
    cbn [mbind option_bind]. destruct (GetInternalKey q3) as [[small q4]|]; [|done].
    cbn [mbind option_bind]. destruct (GetInternalKey q4) as [[large q5]|]; [|done].
    intros [= <- <-]. split_and!; [done|done|]. simpl. apply Forall_app. auto.
Qed.

Lemma loop_levels fuel e input e' s :
  levels_ok e -> DecodeFrom_loop fuel e input = Ret (e', s) ->
  levels_ok e' /\ (s = OK \/ IsCorruption s = true).
Proof.
  revert e input. induction fuel as [|fuel IH]; intros e input He; [done|]. cbn [DecodeFrom_loop].
  destruct (GetVarint32 input) as [[tag q]|] eqn:E.
  - destruct (decode_field tag e q) as [msg|[e1 q1]] eqn:E2.
    + intros [= <- <-]. auto.
    + apply IH. by eapply decode_field_levels.
  - destruct (negb _); intros [= <- <-]; auto.
Qed.

(** ** The properties *)

(** The edits a client can build: a new edit and any sequence of setter calls with levels,
    numbers and keys in range. *)
Inductive built : VersionEdit -> Prop :=
| built_new : built new_VersionEdit
| built_comparator e name : built e -> zlen name < 2 ^ 32 -> built (SetComparatorName name e)
| built_log e n : built e -> 0 <= n < 2 ^ 64 -> built (SetLogNumber n e)
| built_prev_log e n : built e -> 0 <= n < 2 ^ 64 -> built (SetPrevLogNumber n e)
| built_next_file e n : built e -> 0 <= n < 2 ^ 64 -> built (SetNextFile n e)
| built_sequence e n : built e -> 0 <= n < 2 ^ 64 -> built (SetLastSequence n e)
| built_pointer e level k :
    built e -> 0 <= level < config.kNumLevels -> 1 <= zlen (rep_ k) < 2 ^ 32 ->
    built (SetCompactPointer level k e)
| built_add e level n size small large :
    built e -> 0 <= level < config.kNumLevels -> 0 <= n < 2 ^ 64 -> 0 <= size < 2 ^ 64 ->
    1 <= zlen (rep_ small) < 2 ^ 32 -> 1 <= zlen (rep_ large) < 2 ^ 32 ->
    built (AddFile level n size small large e)
| built_delete e level n :
    built e -> 0 <= level < config.kNumLevels -> 0 <= n < 2 ^ 64 -> built (DeleteFile level n e).

Lemma built_ok e : built e -> edit_ok e.
Proof.
  induction 1; [apply new_VersionEdit_ok| | | | | | | |].
  - destruct IHbuilt. by split.
  - destruct IHbuilt. by split.
  - destruct IHbuilt. by split.
  - destruct IHbuilt. by split.
  - destruct IHbuilt. by split.
  - by apply SetCompactPointer_ok.
  - by apply AddFile_ok.
  - by apply DeleteFile_ok.
Qed.

(** C32: version edits round trip. Every edit built by the setters is encoded without a
    failing assertion, and decoding the bytes into a new edit gives the same edit, field
    by field, with status OK. *)
Theorem version_edit_roundtrip (e : VersionEdit) :
  built e -> exists b, EncodeTo e [] = Ret b /\ DecodeEdit new_VersionEdit b = Ret (e, OK).
Proof.
  intros He%built_ok. exists (edit_bytes e).
  assert (EncodeTo e [] = Ret (edit_bytes e)) as E by (by apply EncodeTo_bytes).
  split; [done|]. rewrite (DecodeEdit_EncodeTo e _ _ He E). by destruct e.
Qed.

Lemma version_edit_roundtrip_witness :
  exists b, EncodeTo (DeleteFile 2 77 (SetLogNumber 5 new_VersionEdit)) [] = Ret b /\
    DecodeEdit new_VersionEdit b = Ret (DeleteFile 2 77 (SetLogNumber 5 new_VersionEdit), OK).
Proof.
  apply version_edit_roundtrip.
  apply built_delete; [apply built_log; [apply built_new | lia] | split; reflexivity || discriminate | lia].
Defined.

(** Decoding any bytes comes to an end with OK or a corruption status, and no level
    outside of the database's levels reaches the edit. *)
Theorem version_edit_decode_safe (src : bytes) :
  exists e s, DecodeEdit new_VersionEdit src = Ret (e, s) /\ (s = OK \/ IsCorruption s = true) /\
    Forall (fun p => 0 <= fst p < config.kNumLevels) (compact_pointers_ e) /\
    Forall (fun p => 0 <= fst p < config.kNumLevels) (deleted_files_ e) /\
    Forall (fun p => 0 <= fst p < config.kNumLevels) (new_files_ e).
Proof.
  destruct (DecodeFrom_loop_total (S (length src)) (Clear new_VersionEdit) src) as (e & s & E); [lia|].
  exists e, s. split; [done|]. apply loop_levels in E as [Hl Hs]; [done|].
  by repeat constructor.
Qed.

(** [Clear] keeps the compaction pointers, so that decoding into an edit that was used
    before adds the decoded pointers to the old ones; every other field is replaced. *)
Theorem version_edit_decode_reused (e e0 : VersionEdit) (b : bytes) :
  built e -> EncodeTo e [] = Ret b ->
  exists e1, DecodeEdit e0 b = Ret (e1, OK) /\
    compact_pointers_ e1 = compact_pointers_ e0 ++ compact_pointers_ e /\
    deleted_files_ e1 = deleted_files_ e /\ new_files_ e1 = new_files_ e.
Proof.
  intros He%built_ok E. rewrite (DecodeEdit_EncodeTo e e0 b He E). eexists. done.
Qed.

Lemma version_edit_decode_reused_witness :
  exists e1, DecodeEdit (SetCompactPointer 1 (mkInternalKey [x01]) new_VersionEdit) [x02; x05] = Ret (e1, OK) /\
    compact_pointers_ e1 = [(1, mkInternalKey [x01])] /\ deleted_files_ e1 = [] /\ new_files_ e1 = [].
Proof.
  apply (version_edit_decode_reused (SetLogNumber 5 new_VersionEdit)
    (SetCompactPointer 1 (mkInternalKey [x01]) new_VersionEdit) [x02; x05]).
  - apply built_log; [apply built_new | lia].
  - reflexivity.
Defined.

(** An empty internal key is accepted on reading, and cannot be written again. *)
Lemma decoded_empty_key :
  exists e, DecodeEdit new_VersionEdit [x05; x01; x00] = Ret (e, OK) /\ EncodeTo e [] = AssertFailed.
Proof. exists (SetCompactPointer 1 (mkInternalKey []) new_VersionEdit). split; reflexivity. Qed.
