(* ===== verification/BlockBuilder.v ===== *)
(** * Building a block

    [block_builder.h] and [block_builder.c]: entries with prefix-compressed keys, a restart
    point every [block_restart_interval] entries, and the array of restart points at the
    end. [BuilderProofs] shows what a block is: a list of [item]s laid out one after the
    other. *)

From stdpp Require Import sorting.
From S2P Require Import Prelude Coding Comparator.

Open Scope outcome_scope.

(** ** The builder *)

Section BlockBuilder.
Context `{Comparator}.

(** [options_] is kept as the one field the builder reads besides the comparator. *)
Record BlockBuilder := mkBuilder {
  block_restart_interval : Z;
  buffer_ : bytes;
  restarts_ : list Z;
  counter_ : Z;
  finished_ : bool;
  last_key_ : bytes;
}.

Definition new_BlockBuilder (interval : Z) : outcome BlockBuilder :=
  assert! 1 <=? interval; Ret (mkBuilder interval [] [0] 0 false []).

Definition Reset (b : BlockBuilder) : BlockBuilder :=
  mkBuilder (block_restart_interval b) [] [0] 0 false [].

Definition CurrentSizeEstimate (b : BlockBuilder) : Z :=
  zlen (buffer_ b) + zlen (restarts_ b) * 4 + 4.

Definition builder_empty (b : BlockBuilder) : bool := zlen (buffer_ b) =? 0.

Fixpoint PutRestarts (dst : bytes) (l : list Z) : bytes :=
  match l with
  | [] => dst
  | r :: l => PutRestarts (PutFixed32 dst r) l
  end.

Definition Finish (b : BlockBuilder) : BlockBuilder * bytes :=
  let buffer := PutRestarts (buffer_ b) (restarts_ b) in
  let buffer := PutFixed32 buffer (u32 (zlen (restarts_ b))) in
  (mkBuilder (block_restart_interval b) buffer (restarts_ b) (counter_ b) true (last_key_ b), buffer).

(** The loop that counts the shared bytes is the one of [FindShortestSeparator]. *)
Definition Add (b : BlockBuilder) (key value : bytes) : outcome BlockBuilder :=
  let last_key_piece := last_key_ b in
  assert! negb (finished_ b);
  assert! counter_ b <=? block_restart_interval b;
  assert! (zlen (buffer_ b) =? 0) || (0 <? Compare key last_key_piece);
  let '(shared, restarts, counter) :=
    if counter_ b <? block_restart_interval b then
      (diff_index last_key_piece key, restarts_ b, counter_ b)
    else (0, restarts_ b ++ [u32 (zlen (buffer_ b))], 0) in
  let non_shared := zlen key - shared in
  let buffer := PutVarint32 (buffer_ b) (u32 shared) in
  let buffer := PutVarint32 buffer (u32 non_shared) in
  let buffer := PutVarint32 buffer (u32 (zlen value)) in
  let buffer := buffer ++ ztake non_shared (zdrop shared key) in
  let buffer := buffer ++ value in
  let last_key := ztake shared (last_key_ b) ++ ztake non_shared (zdrop shared key) in
  assert! bool_decide (last_key = key);
  Ret (mkBuilder (block_restart_interval b) buffer restarts (counter + 1) (finished_ b) last_key).

(** A client adds entries one after the other and finishes the block. *)
Fixpoint AddAll (b : BlockBuilder) (es : list (bytes * bytes)) : outcome BlockBuilder :=
  match es with
  | [] => Ret b
  | (k, v) :: es => let! b := Add b k v in AddAll b es
  end.

Definition BuildBlock (interval : Z) (es : list (bytes * bytes)) : outcome bytes :=
  let! b := new_BlockBuilder interval in
  let! b := AddAll b es in
  Ret (snd (Finish b)).

End BlockBuilder.
Arguments BlockBuilder : clear implicits.

(** ** What a block is

    An item is an entry with the number of key bytes it shares with the entry before. *)

Record item := mkItem { i_shared : Z; i_key : bytes; i_value : bytes }.

Definition item_bytes (i : item) : bytes :=
  EncodeVarint32 (i_shared i) ++ EncodeVarint32 (zlen (i_key i) - i_shared i) ++
  EncodeVarint32 (zlen (i_value i)) ++ zdrop (i_shared i) (i_key i) ++ i_value i.

Definition items_bytes (l : list item) : bytes := concat (map item_bytes l).

(** The key bytes an item shares are those of [last], the key before it. *)
Fixpoint shares (last : bytes) (l : list item) : Prop :=
  match l with
  | [] => True
  | i :: l =>
      0 <= i_shared i <= Z.min (zlen last) (zlen (i_key i)) /\
      ztake (i_shared i) last = ztake (i_shared i) (i_key i) /\ shares (i_key i) l
  end.

Definition entry (i : item) : bytes * bytes := (i_key i, i_value i).

(** The offset of the item at index [j]. *)
Definition offset (l : list item) (j : nat) : Z := zlen (items_bytes (take j l)).

(** [restart_of l r]: [r] is where an item stands that shares nothing. *)
Definition restart_of (l : list item) (r : Z) : Prop :=
  exists j i, l !! j = Some i /\ i_shared i = 0 /\ offset l j = r.

(** The restart array of the items [l]: its first element is the start of the block, the
    others are restart points, in increasing order. *)
Record restarts_ok (l : list item) (rs : list Z) : Prop := mkRestartsOk {
  restarts_first : head rs = Some 0;
  restarts_increasing : forall a b x y, rs !! a = Some x -> rs !! b = Some y -> (a < b)%nat -> x < y;
  restarts_items : forall r, r ∈ tail rs -> restart_of l r;
}.

(** A finished block with the items [l]. *)
Definition block_image (l : list item) (rs : list Z) : bytes :=
  items_bytes l ++ concat (map EncodeFixed32 rs) ++ EncodeFixed32 (zlen rs).

(** ** Lemmas on the layout *)

Lemma items_bytes_app l k : items_bytes (l ++ k) = items_bytes l ++ items_bytes k.
Proof. unfold items_bytes. by rewrite map_app, concat_app. Qed.

Lemma item_bytes_pos i : 1 <= zlen (item_bytes i).
Proof.
  unfold item_bytes. rewrite !zlen_app.
  assert (forall v, 1 <= zlen (EncodeVarint32 v)).
  { intros v. unfold EncodeVarint32.
    repeat match goal with |- context [if ?b then _ else _] => destruct b end; zlen_lia. }
  pose proof (H (i_shared i)). zlen_pos. lia.
Qed.

Lemma offset_le l j k : (j <= k)%nat -> offset l j <= offset l k.
Proof.
  intros Hjk. unfold offset. replace (take k l) with (take j l ++ take (k - j) (drop j l)).
  - rewrite items_bytes_app, zlen_app. zlen_pos. lia.
  - rewrite take_take_drop. f_equal. lia.
Qed.

Lemma offset_S l j i : l !! j = Some i -> offset l (S j) = offset l j + zlen (item_bytes i).
Proof.
  intros Hj. unfold offset. rewrite (take_S_r l j i Hj), items_bytes_app, zlen_app.
  unfold items_bytes at 2. simpl. by rewrite app_nil_r.
Qed.

Lemma offset_lt l j k i : l !! j = Some i -> (j < k)%nat -> offset l j < offset l k.
Proof.
  intros Hj Hk. pose proof (offset_le l (S j) k Hk). pose proof (offset_S l j i Hj).
  pose proof (item_bytes_pos i). lia.
Qed.

Lemma offset_app l k j : (j <= length l)%nat -> offset (l ++ k) j = offset l j.
Proof. intros Hj. unfold offset. by rewrite take_app_le. Qed.

Lemma offset_length l : offset l (length l) = zlen (items_bytes l).
Proof. unfold offset. by rewrite firstn_all. Qed.

Lemma offset_nonneg l j : 0 <= offset l j.
Proof. apply zlen_nonneg. Qed.

Lemma offset_inj l j k i i' : l !! j = Some i -> l !! k = Some i' -> offset l j = offset l k -> j = k.
Proof.
  intros Hj Hk E. destruct (Nat.lt_trichotomy j k) as [Hlt|[->|Hlt]]; [|done|].
  - pose proof (offset_lt l j k i Hj Hlt). lia.
  - pose proof (offset_lt l k j i' Hk Hlt). lia.
Qed.

Lemma items_split l j i :
  l !! j = Some i -> items_bytes l = items_bytes (take j l) ++ item_bytes i ++ items_bytes (drop (S j) l).
Proof.
  intros Hj. rewrite <- (take_drop_middle l j i Hj) at 1. rewrite items_bytes_app. done.
Qed.

Lemma restart_of_app l k r : restart_of l r -> restart_of (l ++ k) r.
Proof.
  intros (j & i & Hj & Hs & <-). pose proof (lookup_lt_Some _ _ _ Hj).
  exists j, i. split_and!; [by apply lookup_app_l_Some | done |]. apply offset_app. lia.
Qed.

Lemma restart_of_lt l r : restart_of l r -> 0 <= r < zlen (items_bytes l).
Proof.
  intros (j & i & Hj & Hs & <-). rewrite <- offset_length. split; [apply offset_nonneg|].
  eapply offset_lt; [done|]. by eapply lookup_lt_Some.
Qed.

Lemma shares_snoc last l i :
  shares last l ->
  0 <= i_shared i <= Z.min (zlen (default last (i_key <$> list.last l))) (zlen (i_key i)) ->
  ztake (i_shared i) (default last (i_key <$> list.last l)) = ztake (i_shared i) (i_key i) ->
  shares last (l ++ [i]).
Proof.
  revert last. induction l as [|x l IH]; intros last; cbn [shares app].
  - simpl. auto.
  - intros (H1 & H2 & H3) Hr Ht. split; [done|]. split; [done|].
    rewrite last_cons in Hr, Ht. apply IH; [done | |]; by destruct (list.last l).
Qed.

(** *** The loop that counts shared bytes *)

Lemma diff_index_bounds a b : 0 <= diff_index a b <= Z.min (zlen a) (zlen b).
Proof.
  revert b. induction a as [|x a IH]; intros [|y b]; cbn [diff_index]; try (zlen_lia; fail).
  rewrite !zlen_cons. specialize (IH b). destruct (_ =? _); zlen_lia.
Qed.

Lemma diff_index_take a b : ztake (diff_index a b) a = ztake (diff_index a b) b.
Proof.
  revert b. induction a as [|x a IH]; intros [|y b]; cbn [diff_index]; try done.
  destruct (Z.eqb_spec (b2z x) (b2z y)) as [E|]; [|done]. pose proof (diff_index_bounds a b).
  rewrite !ztake_cons by lia. by rewrite IH, (b2z_inj _ _ E).
Qed.

(** ** What the builder builds *)

(** An upper bound for the bytes of a list of entries. *)
Fixpoint budget (es : list (bytes * bytes)) : Z :=
  match es with
  | [] => 0
  | (k, v) :: es => 19 + zlen k + zlen v + budget es
  end.

Lemma budget_nonneg es : 0 <= budget es.
Proof. induction es as [|[k v] es IH]; simpl; zlen_lia. Qed.

Lemma budget_app es fs : budget (es ++ fs) = budget es + budget fs.
Proof. induction es as [|[k v] es IH]; simpl; lia. Qed.

Section BuilderProofs.
Context `{ComparatorLaws}.

Definition last_key (l : list item) : bytes := default [] (i_key <$> list.last l).

Record building (b : BlockBuilder) (l : list item) : Prop := mkBuilding {
  bg_interval : 1 <= block_restart_interval b;
  bg_buffer : buffer_ b = items_bytes l;
  bg_restarts : restarts_ok l (restarts_ b);
  bg_count : (length (restarts_ b) <= S (length l))%nat;
  bg_counter : 0 <= counter_ b <= block_restart_interval b;
  bg_counter_empty : l = [] -> counter_ b = 0;
  bg_finished : finished_ b = false;
  bg_last_key : last_key_ b = last_key l;
  bg_shares : shares [] l;
  bg_budget : zlen (items_bytes l) + 4 * zlen l <= budget (map entry l);
}.

Lemma new_building interval :
  1 <= interval -> exists b, new_BlockBuilder interval = Ret b /\ building b [].
Proof.
  intros Hi. unfold new_BlockBuilder. rewrite (proj2 (Z.leb_le 1 interval)) by done. simpl.
  eexists. split; [done|]. split; simpl; try done; try lia. split; [done | |].
  - intros [|a] [|b] x y; simpl; try done; lia.
  - simpl. by intros r ?%elem_of_nil.
Qed.

Lemma restarts_ok_push l i rs r :
  restarts_ok l rs -> (forall x, x ∈ rs -> x < r) -> offset (l ++ [i]) (length l) = r ->
  i_shared i = 0 -> restarts_ok (l ++ [i]) (rs ++ [r]).
Proof.
  intros [Hf Hinc Hit] Hlt Ho Hs. destruct rs as [|r0 rs]; [done|]. split.
  - done.
  - intros a b x y Ha Hb Hab. apply lookup_snoc_Some in Ha as [[Ha Ha']|[-> <-]];
      apply lookup_snoc_Some in Hb as [[Hb Hb']|[-> <-]].
    + by eapply Hinc.
    + apply Hlt. by eapply list_elem_of_lookup_2.
    + lia.
    + lia.
  - cbn [tail app]. intros x [Hx|Hx]%elem_of_app.
    + by apply restart_of_app, Hit.
    + apply list_elem_of_singleton in Hx as ->. exists (length l), i.
      split_and!; [|done|done]. by rewrite lookup_app_r, Nat.sub_diag by lia.
Qed.

Lemma restarts_ok_lt l rs x :
  restarts_ok l rs -> l <> [] -> x ∈ rs -> x < zlen (items_bytes l).
Proof.
  intros [Hf _ Hit] Hl Hx. destruct rs as [|r0 rs]; [done|]. simpl in Hf. injection Hf as ->.
  apply elem_of_cons in Hx as [->|Hx]; [|by apply restart_of_lt, Hit].
  destruct l as [|i l]; [done|]. unfold items_bytes. simpl. rewrite zlen_app.
  pose proof (item_bytes_pos i). zlen_pos. lia.
Qed.

Lemma restarts_ok_app l k rs : restarts_ok l rs -> restarts_ok (l ++ k) rs.
Proof. intros [Hf Hinc Hit]. split; [done | done |]. intros r Hr. by apply restart_of_app, Hit. Qed.

(** The item [Add] writes: its shared length, and whether it is a restart point. *)
Definition new_item (b : BlockBuilder) (key value : bytes) : item :=
  mkItem (if counter_ b <? block_restart_interval b then diff_index (last_key_ b) key else 0) key value.

Lemma new_item_shared b key value :
  0 <= i_shared (new_item b key value) <= Z.min (zlen (last_key_ b)) (zlen key) /\
  ztake (i_shared (new_item b key value)) (last_key_ b) = ztake (i_shared (new_item b key value)) key.
Proof.
  unfold new_item. simpl. destruct (_ <? _).
  - split; [apply diff_index_bounds | apply diff_index_take].
  - split; [zlen_lia | by rewrite !ztake_0].
Qed.

Lemma varint32_len v : 0 <= v < 2 ^ 32 -> zlen (EncodeVarint32 v) <= 5.
Proof. intros. rewrite EncodeVarint32_64 by done. apply (EncodeVarint64_len v 5); lia. Qed.

Lemma item_bytes_budget i :
  0 <= i_shared i <= zlen (i_key i) -> zlen (i_key i) < 2 ^ 32 -> zlen (i_value i) < 2 ^ 32 ->
  zlen (item_bytes i) + 4 <= budget [entry i].
Proof.
  intros Hs Hk Hv. unfold item_bytes. rewrite !zlen_app, zlen_zdrop. zlen_pos.
  pose proof (varint32_len (i_shared i)). pose proof (varint32_len (zlen (i_key i) - i_shared i)).
  pose proof (varint32_len (zlen (i_value i))). simpl. lia.
Qed.

Lemma last_key_snoc l i : last_key (l ++ [i]) = i_key i.
Proof. unfold last_key. by rewrite last_snoc. Qed.

Lemma Add_spec b l key value :
  building b l -> (l <> [] -> Compare (last_key l) key < 0) ->
  budget (map entry l) + budget [(key, value)] < 2 ^ 32 ->
  exists b', Add b key value = Ret b' /\ building b' (l ++ [new_item b key value]).
Proof.
  intros B Hlt Hb. destruct (new_item_shared b key value) as [Hs Ht].
  pose proof (budget_nonneg (map entry l)). pose proof (bg_budget _ _ B) as Hbud.
  simpl in Hb. zlen_pos. unfold Add. rewrite (bg_finished _ _ B). simpl.
  rewrite (proj2 (Z.leb_le _ _) (proj2 (bg_counter _ _ B))). simpl.
  assert ((zlen (buffer_ b) =? 0) || (0 <? Compare key (last_key_ b)) = true) as ->.
  { rewrite (bg_buffer _ _ B), (bg_last_key _ _ B). destruct l as [|x l]; [done|].
    specialize (Hlt ltac:(done)). apply compare_antisym in Hlt. lia. }
  simpl. set (i := new_item b key value) in *. set (shared := i_shared i) in *.
  assert (ztake (zlen key - shared) (zdrop shared key) = zdrop shared key) as Hz
    by (apply ztake_all; zlen_lia).
  assert (ztake shared (last_key_ b) ++ zdrop shared key = key) as Hkey by (by rewrite Ht, ztake_zdrop).
  assert (zlen (item_bytes i) + 4 <= budget [entry i]) as Hib.
  { apply item_bytes_budget; change (i_key i) with key; change (i_value i) with value; fold shared; lia. }
  simpl in Hib.
  assert (items_bytes (l ++ [i]) = ((((items_bytes l ++ EncodeVarint32 (u32 shared)) ++
    EncodeVarint32 (u32 (zlen key - shared))) ++ EncodeVarint32 (u32 (zlen value))) ++
    zdrop shared key) ++ value) as Himg.
  { rewrite items_bytes_app, !u32_small by lia. unfold items_bytes at 2. simpl.
    rewrite app_nil_r. unfold item_bytes. by rewrite <- !app_assoc. }
  assert (shares [] (l ++ [i])) as Hsh.
  { apply shares_snoc; [apply B | |]; fold (last_key l); rewrite <- (bg_last_key _ _ B); done. }
  assert (zlen (items_bytes (l ++ [i])) + 4 * zlen (l ++ [i]) <= budget (map entry (l ++ [i]))) as Hbud'.
  { rewrite items_bytes_app, map_app, budget_app, !zlen_app. unfold items_bytes at 2. simpl.
    rewrite app_nil_r, zlen_cons. change (@zlen item []) with 0. lia. }
  assert (length (l ++ [i]) = S (length l)) as Hlen by (rewrite length_app; simpl; lia).
  destruct B as [Bi Bb Br Bn Bc Bce Bf Bl Bs Bbud].
  unfold PutVarint32. rewrite Bb. subst shared i. unfold new_item in *.
  destruct (Z.ltb_spec (counter_ b) (block_restart_interval b)); cbn [i_shared] in *;
    rewrite Hz, Hkey, bool_decide_true by done; (eexists; split; [done|]);
    (split; cbn [block_restart_interval buffer_ restarts_ counter_ finished_ last_key_];
      [done | by rewrite Himg | | | lia | by destruct l | done | by rewrite last_key_snoc | done | done]).
  - by apply restarts_ok_app.
  - rewrite Hlen. lia.
  - assert (l <> []) by (intros ->; rewrite (Bce eq_refl) in *; lia).
    apply restarts_ok_push; [done | | | done].
    + intros x Hx. rewrite u32_small by (zlen_pos; lia). by eapply restarts_ok_lt.
    + rewrite offset_app, offset_length by done. rewrite u32_small by (zlen_pos; lia). done.
  - rewrite length_app, Hlen. simpl. lia.
Qed.

(** Keys in strictly increasing order. *)
Definition entries_sorted (es : list (bytes * bytes)) : Prop :=
  StronglySorted (fun e f => key_lt (fst e) (fst f)) es.

Lemma sorted_last l e es :
  entries_sorted (map entry l ++ e :: es) -> l <> [] -> Compare (last_key l) (fst e) < 0.
Proof.
  intros Hs Hl. destruct (exists_last Hl) as (l' & i & ->). rewrite last_key_snoc.
  rewrite map_app, <- app_assoc in Hs. apply StronglySorted_app_1_r in Hs.
  apply StronglySorted_inv in Hs as [_ Hs]. by apply Forall_inv in Hs.
Qed.

Lemma AddAll_spec es b l :
  building b l -> entries_sorted (map entry l ++ es) -> budget (map entry l) + budget es < 2 ^ 32 ->
  exists b' l', AddAll b es = Ret b' /\ building b' l' /\ map entry l' = map entry l ++ es.
Proof.
  revert b l. induction es as [|[k v] es IH]; intros b l B Hs Hb; cbn [AddAll].
  { exists b, l. by rewrite app_nil_r. }
  pose proof (budget_nonneg es). simpl in Hb.
  destruct (Add_spec b l k v B) as (b1 & -> & B1); [by eapply (sorted_last l (k, v)) | simpl; lia |].
  cbn [obind]. destruct (IH b1 _ B1) as (b2 & l2 & -> & B2 & E2).
  - by rewrite map_app, <- app_assoc.
  - rewrite map_app, budget_app. simpl. lia.
  - exists b2, l2. split_and!; [done | done |]. by rewrite E2, map_app, <- app_assoc.
Qed.

Lemma PutRestarts_app l dst : PutRestarts dst l = dst ++ concat (map EncodeFixed32 l).
Proof.
  revert dst. induction l as [|r l IH]; intros dst; cbn [PutRestarts map concat]; [by rewrite app_nil_r|].
  rewrite IH. unfold PutFixed32. by rewrite <- app_assoc.
Qed.

Lemma BuildBlock_spec interval es :
  1 <= interval -> entries_sorted es -> budget es + 8 < 2 ^ 32 ->
  exists l rs, BuildBlock interval es = Ret (block_image l rs) /\ map entry l = es /\
    shares [] l /\ restarts_ok l rs /\ zlen (block_image l rs) < 2 ^ 32.
Proof.
  intros Hi Hs Hb. unfold BuildBlock. destruct (new_building interval Hi) as (b & -> & B). cbn [obind].
  destruct (AddAll_spec es b [] B) as (b' & l & -> & B' & E); [done | simpl; lia |]. cbn [obind].
  exists l, (restarts_ b'). pose proof (bg_budget _ _ B') as Hbud. pose proof (bg_count _ _ B') as Hn.
  rewrite E in Hbud. simpl in Hbud. unfold zlen in Hbud at 2.
  assert (zlen (restarts_ b') <= 1 + Z.of_nat (length l)) by (unfold zlen; lia).
  assert (zlen (block_image l (restarts_ b')) < 2 ^ 32).
  { unfold block_image. rewrite !zlen_app, zlen_fixed32_array, EncodeFixed32_length. lia. }
  split_and!; [| done | apply B' | apply B' | done].
  unfold Finish, block_image, PutFixed32. simpl. rewrite PutRestarts_app, (bg_buffer _ _ B').
  rewrite u32_small by (zlen_pos; lia). by rewrite <- app_assoc.
Qed.
End BuilderProofs.
