(* ===== verification/Block.v ===== *)
(** * Reading a block

    [block.h] and [block.c]: a block as it comes from a file, and the iterator over its
    entries, which decodes prefix-compressed keys and searches the restart array. *)

From stdpp Require Import sorting.
From S2P Require Import Prelude Coding Env Comparator BlockBuilder.

Open Scope outcome_scope.

(** ** Blocks *)

Record Block := mkBlock { data_ : bytes; size_ : Z; restart_offset_ : Z }.

(** [NumRestarts], for a block of [size] bytes. *)
Definition NumRestarts (data : bytes) (size : Z) : outcome Z :=
  assert! 4 <=? size; Ret (DecodeFixed32 (zdrop (size - 4) data)).

Definition new_Block (contents : bytes) : outcome Block :=
  let size := zlen contents in
  if size <? 4 then Ret (mkBlock contents 0 0)
  else
    let max_restarts_allowed := (size - 4) / 4 in
    let! n := NumRestarts contents size in
    if max_restarts_allowed <? n then Ret (mkBlock contents 0 0)
    else Ret (mkBlock contents size (u32 (size - u32 (1 + n) * 4))).

(** One entry, decoded from the bytes [p] between the entry and the restart array: the
    three lengths and the bytes behind them. *)
Definition DecodeEntry (p : bytes) : option (Z * Z * Z * bytes) :=
  if zlen p <? 3 then None
  else
    let shared := byte_at p 0 in
    let non_shared := byte_at p 1 in
    let value_length := byte_at p 2 in
    let decoded :=
      if Z.lor (Z.lor shared non_shared) value_length <? 128 then
        Some (shared, non_shared, value_length, zdrop 3 p)
      else
        '(shared, p) ← GetVarint32Ptr p;
        '(non_shared, p) ← GetVarint32Ptr p;
        '(value_length, p) ← GetVarint32Ptr p;
        Some (shared, non_shared, value_length, p) in
    match decoded with
    | Some (shared, non_shared, value_length, p) =>
        if u32 (zlen p) <? u32 (non_shared + value_length) then None
        else Some (shared, non_shared, value_length, p)
    | None => None
    end.

(** ** The iterator *)

Section Iter.
Context `{Comparator}.

(** [value_] is a slice of the block: its offset and its size; [None] is the empty slice
    that points nowhere into the block. *)
Record Iter := mkIter {
  it_data : bytes;
  it_restarts : Z;
  num_restarts_ : Z;
  current_ : Z;
  restart_index_ : Z;
  key_ : bytes;
  value_ : option (Z * Z);
  status_ : Status;
}.

Definition new_Iter (data : bytes) (restarts num_restarts : Z) : outcome Iter :=
  assert! 0 <? num_restarts;
  Ret (mkIter data restarts num_restarts restarts num_restarts [] None OK).

Definition Valid (it : Iter) : bool := current_ it <? it_restarts it.

Definition iter_key (it : Iter) : outcome bytes := assert! Valid it; Ret (key_ it).

Definition iter_value (it : Iter) : outcome bytes :=
  assert! Valid it;
  match value_ it with
  | Some (off, size) => Ret (ztake size (zdrop off (it_data it)))
  | None => Ret []
  end.

(** The end of [value_], as an offset: not defined for a slice outside of the block. *)
Definition NextEntryOffset (it : Iter) : outcome Z :=
  match value_ it with
  | Some (off, size) => Ret (u32 (off + size))
  | None => AssertFailed
  end.

Definition GetRestartPoint (it : Iter) (index : Z) : outcome Z :=
  assert! index <? num_restarts_ it;
  Ret (DecodeFixed32 (zdrop (it_restarts it + index * 4) (it_data it))).

Definition set_position (it : Iter) (current index : Z) (key : bytes) (value : option (Z * Z)) : Iter :=
  mkIter (it_data it) (it_restarts it) (num_restarts_ it) current index key value (status_ it).

Definition SeekToRestartPoint (it : Iter) (index : Z) : outcome Iter :=
  let! offset := GetRestartPoint it index in
  Ret (set_position it (current_ it) index [] (Some (offset, 0))).

Definition CorruptionError (it : Iter) : Iter :=
  mkIter (it_data it) (it_restarts it) (num_restarts_ it) (it_restarts it) (num_restarts_ it)
    [] None (Corruption "bad entry in block").

(** [while (restart_index_ + 1 < num_restarts_ && GetRestartPoint(..) < current_)]. *)
Fixpoint advance_index (fuel : nat) (it : Iter) (index : Z) : outcome Z :=
  match fuel with
  | O => OutOfFuel
  | S fuel =>
      if u32 (index + 1) <? num_restarts_ it then
        let! r := GetRestartPoint it (u32 (index + 1)) in
        if r <? current_ it then advance_index fuel it (u32 (index + 1)) else Ret index
      else Ret index
  end.

(** The bytes [key_.append] and [value_] touch must lie in the block. *)
Definition ParseNextKey (it : Iter) : outcome (Iter * bool) :=
  let! current := NextEntryOffset it in
  if it_restarts it <=? current then
    Ret (set_position it (it_restarts it) (num_restarts_ it) (key_ it) (value_ it), false)
  else
    let p := zdrop current (ztake (it_restarts it) (it_data it)) in
    match DecodeEntry p with
    | None =>
        Ret (CorruptionError (set_position it current (restart_index_ it) (key_ it) (value_ it)), false)
    | Some (shared, non_shared, value_length, q) =>
        if zlen (key_ it) <? shared then
          Ret (CorruptionError (set_position it current (restart_index_ it) (key_ it) (value_ it)), false)
        else
          let pos := it_restarts it - zlen q in
          assert! pos + non_shared + value_length <=? zlen (it_data it);
          let key := ztake shared (key_ it) ++ ztake non_shared (zdrop pos (it_data it)) in
          let it := set_position it current (restart_index_ it) key
                      (Some (pos + non_shared, value_length)) in
          let! index := advance_index (S (Z.to_nat (num_restarts_ it - restart_index_ it)))
                          it (restart_index_ it) in
          Ret (set_position it current index key (Some (pos + non_shared, value_length)), true)
    end.

Definition Next (it : Iter) : outcome Iter :=
  assert! Valid it;
  let! (it, _) := ParseNextKey it in Ret it.

Definition SeekToFirst (it : Iter) : outcome Iter :=
  let! it := SeekToRestartPoint it 0 in
  let! (it, _) := ParseNextKey it in Ret it.

(** [while (ParseNextKey() && NextEntryOffset() < limit)]. *)
Fixpoint skip_until (fuel : nat) (it : Iter) (limit : Z) : outcome Iter :=
  match fuel with
  | O => OutOfFuel
  | S fuel =>
      let! (it, parsed) := ParseNextKey it in
      if parsed then
        let! next := NextEntryOffset it in
        if next <? limit then skip_until fuel it limit else Ret it
      else Ret it
  end.

(** Every entry has at least three bytes. *)
Definition scan_fuel (it : Iter) : nat := S (Z.to_nat (it_restarts it)).

Definition SeekToLast (it : Iter) : outcome Iter :=
  let! it := SeekToRestartPoint it (num_restarts_ it - 1) in
  skip_until (scan_fuel it) it (it_restarts it).

(** [while (GetRestartPoint(restart_index_) >= original)]; [None]: no more entries. *)
Fixpoint prev_index (fuel : nat) (it : Iter) (original index : Z) : outcome (option Z) :=
  match fuel with
  | O => OutOfFuel
  | S fuel =>
      let! r := GetRestartPoint it index in
      if original <=? r then
        if index =? 0 then Ret None else prev_index fuel it original (index - 1)
      else Ret (Some index)
  end.

Definition Prev (it : Iter) : outcome Iter :=
  assert! Valid it;
  let original := current_ it in
  let! found := prev_index (S (Z.to_nat (restart_index_ it))) it original (restart_index_ it) in
  match found with
  | None => Ret (set_position it (it_restarts it) (num_restarts_ it) (key_ it) (value_ it))
  | Some index =>
      let! it := SeekToRestartPoint it index in
      skip_until (scan_fuel it) it original
  end.

(** The binary search for the last restart point with a key below [target]; [None]: a
    corrupt entry. *)
Fixpoint search_restarts (fuel : nat) (it : Iter) (target : bytes) (left right : Z)
    : outcome (option Z) :=
  match fuel with
  | O => OutOfFuel
  | S fuel =>
      if left <? right then
        let mid := u32 (left + right + 1) / 2 in
        let! region_offset := GetRestartPoint it mid in
        match DecodeEntry (zdrop region_offset (ztake (it_restarts it) (it_data it))) with
        | None => Ret None
        | Some (shared, non_shared, value_length, q) =>
            if negb (shared =? 0) then Ret None
            else
              let pos := it_restarts it - zlen q in
              assert! pos + non_shared <=? zlen (it_data it);
              let mid_key := ztake non_shared (zdrop pos (it_data it)) in
              if Compare mid_key target <? 0 then search_restarts fuel it target mid right
              else search_restarts fuel it target left (mid - 1)
        end
      else Ret (Some left)
  end.

(** [while (true)]: the first key at or after the current position that is [>= target]. *)
Fixpoint scan_ge (fuel : nat) (it : Iter) (target : bytes) : outcome Iter :=
  match fuel with
  | O => OutOfFuel
  | S fuel =>
      let! (it, parsed) := ParseNextKey it in
      if negb parsed then Ret it
      else if 0 <=? Compare (key_ it) target then Ret it
      else scan_ge fuel it target
  end.

Definition Seek (it : Iter) (target : bytes) : outcome Iter :=
  let! found := search_restarts (S (Z.to_nat (num_restarts_ it))) it target 0 (num_restarts_ it - 1) in
  match found with
  | None => Ret (CorruptionError it)
  | Some index =>
      let! it := SeekToRestartPoint it index in
      scan_ge (scan_fuel it) it target
  end.

(** [NewIterator]: an error, the empty iterator, or an iterator over the entries. *)
Inductive BlockIterator :=
| ErrorIterator (s : Status)
| EmptyIterator
| EntryIterator (it : Iter).

Definition NewIterator (b : Block) : outcome BlockIterator :=
  if size_ b <? 4 then Ret (ErrorIterator (Corruption "bad block contents"))
  else
    let! num_restarts := NumRestarts (data_ b) (size_ b) in
    if num_restarts =? 0 then Ret EmptyIterator
    else
      let! it := new_Iter (data_ b) (restart_offset_ b) num_restarts in
      Ret (EntryIterator it).

End Iter.
