(* ===== verification/BlockCorrect.v ===== *)
(** * Blocks: what is built is what is read

    The iterator over a finished block refines a cursor over the list of the entries that
    were added: [Cursor] is the abstract iterator, [BlockProofs] the simulation for each
    operation, and the properties compose them for arbitrary sequences of calls. *)

From stdpp Require Import sorting.
From S2P Require Import Prelude Coding Env Comparator BlockBuilder Block.

Open Scope outcome_scope.

(** ** The abstract iterator: a position in a list of entries *)

Module Cursor.
Section Cursor.
Context `{Comparator} (es : list (bytes * bytes)).

Definition pos (j : nat) : option nat := if (j <? length es)%nat then Some j else None.

Definition first : option nat := pos 0.
Definition last : option nat := match es with [] => None | _ => Some (length es - 1)%nat end.
Definition next (j : nat) : option nat := pos (S j).
Definition prev (j : nat) : option nat := match j with O => None | S j => Some j end.

Fixpoint count_lt (target : bytes) (l : list (bytes * bytes)) : nat :=
  match l with
  | [] => 0
  | (k, _) :: l => if Compare k target <? 0 then S (count_lt target l) else 0
  end.

(** The first entry whose key is not below the target. *)
Definition seek (target : bytes) : option nat := pos (count_lt target es).
End Cursor.
End Cursor.

(** ** Decoding an entry *)

(** The fast path agrees with the three varints. *)
Lemma DecodeEntry_slow p :
  3 <= zlen p ->
  DecodeEntry p =
    match ('(shared, p) ← GetVarint32Ptr p;
           '(non_shared, p) ← GetVarint32Ptr p;
           '(value_length, p) ← GetVarint32Ptr p;
           Some (shared, non_shared, value_length, p)) with
    | Some (shared, non_shared, value_length, p) =>
        if u32 (zlen p) <? u32 (non_shared + value_length) then None
        else Some (shared, non_shared, value_length, p)
    | None => None
    end.
Proof.
  intros Hp. unfold DecodeEntry. rewrite (proj2 (Z.ltb_ge (zlen p) 3)) by done.
  destruct p as [|b0 [|b1 [|b2 p]]]; try (exfalso; zlen_lia).
  unfold byte_at. cbn [nth].
  destruct (Z.ltb_spec (Z.lor (Z.lor (b2z b0) (b2z b1)) (b2z b2)) 128) as [Hs|Hs]; [|done].
  assert (forall a b, 0 <= a -> 0 <= b -> Z.lor a b < 128 -> a < 128 /\ b < 128) as Hlor.
  { intros a b Ha Hb Hab. change 128 with (2 ^ 7) in *.
    pose proof (proj2 (Z.lor_nonneg a b) (conj Ha Hb)).
    assert (forall x, 0 <= x -> (forall i, 7 <= i -> Z.testbit x i = false) -> x < 2 ^ 7) as Hx.
    { intros x Hx Hi. assert (x = x mod 2 ^ 7) as ->; [|apply Z.mod_pos_bound; lia].
      apply Z.bits_inj'. intros i Hi0. rewrite testbit_mod2 by lia.
      destruct (Z.ltb_spec i 7); [done|]. simpl. by apply Hi. }
    assert (forall i, 7 <= i -> Z.testbit a i = false /\ Z.testbit b i = false) as Hi.
    { intros i Hi. apply orb_false_iff. rewrite <- Z.lor_spec. apply (testbit_small _ 7); lia. }
    split; apply Hx; try done; intros i Hi7; by apply Hi. }
  pose proof (b2z_range b0). pose proof (b2z_range b1). pose proof (b2z_range b2).
  destruct (Hlor (Z.lor (b2z b0) (b2z b1)) (b2z b2)) as [H01 Hb2]; try lia.
  { apply Z.lor_nonneg. lia. }
  destruct (Hlor (b2z b0) (b2z b1)) as [Hb0 Hb1]; try lia.
  assert (forall b q, b2z b < 128 -> GetVarint32Ptr (b :: q) = Some (b2z b, q)) as Hg.
  { intros b q Hb. unfold GetVarint32Ptr. pose proof (b2z_range b).
    destruct (varint_last_byte (b2z b)) as [_ ->]; [lia | done]. }
  rewrite (Hg b0) by done. cbn [mbind option_bind]. rewrite (Hg b1) by done.
  cbn [mbind option_bind]. rewrite (Hg b2) by done. reflexivity.
Qed.

Lemma GetVarint32Ptr_Encode v rest :
  0 <= v < 2 ^ 32 -> GetVarint32Ptr (EncodeVarint32 v ++ rest) = Some (v, rest).
Proof.
  intros Hv. pose proof (GetVarint32_Encode v rest Hv) as E. unfold GetVarint32 in E.
  destruct (GetVarint32Ptr _) as [[v' q]|]; [|done]. done.
Qed.

Lemma varint32_pos v : 1 <= zlen (EncodeVarint32 v).
Proof.
  unfold EncodeVarint32.
  repeat match goal with |- context [if ?b then _ else _] => destruct b end; zlen_lia.
Qed.

Lemma DecodeEntry_item i rest :
  0 <= i_shared i <= zlen (i_key i) -> zlen (item_bytes i ++ rest) < 2 ^ 32 -> zlen (i_key i) < 2 ^ 32 ->
  DecodeEntry (item_bytes i ++ rest) =
    Some (i_shared i, zlen (i_key i) - i_shared i, zlen (i_value i),
          (zdrop (i_shared i) (i_key i) ++ i_value i) ++ rest).
Proof.
  intros Hs Hn Hk. unfold item_bytes in *. rewrite !zlen_app, zlen_zdrop in Hn.
  pose proof (varint32_pos (i_shared i)). pose proof (varint32_pos (zlen (i_key i) - i_shared i)).
  pose proof (varint32_pos (zlen (i_value i))). zlen_pos.
  rewrite DecodeEntry_slow by (rewrite !zlen_app, zlen_zdrop; lia).
  rewrite <- !app_assoc. rewrite GetVarint32Ptr_Encode by lia. cbn [mbind option_bind].
  rewrite GetVarint32Ptr_Encode by lia. cbn [mbind option_bind].
  rewrite GetVarint32Ptr_Encode by lia. cbn [mbind option_bind].
  rewrite !u32_small by (rewrite ?zlen_app, ?zlen_zdrop; lia).
  rewrite (proj2 (Z.ltb_ge _ _)); [done|]. rewrite !zlen_app, zlen_zdrop. lia.
Qed.

(** ** The simulation *)

Section BlockProofs.
Context `{ComparatorLaws}.
Variables (l : list item) (rs : list Z).
Hypothesis Hshares : shares [] l.
Hypothesis Hrestarts : restarts_ok l rs.
Hypothesis Hsize : zlen (block_image l rs) < 2 ^ 32.

Abbreviation img := (block_image l rs).
Abbreviation top := (zlen (items_bytes l)).

Lemma image_size : zlen img = top + 4 * zlen rs + 4.
Proof. unfold block_image. rewrite !zlen_app, zlen_fixed32_array, EncodeFixed32_length. lia. Qed.

Lemma top_offset : top = offset l (length l).
Proof. by rewrite offset_length. Qed.

Lemma offset_top j : offset l j <= top.
Proof.
  destruct (Nat.le_gt_cases j (length l)) as [Hj|Hj].
  - rewrite top_offset. by apply offset_le.
  - unfold offset. by rewrite take_ge by lia.
Qed.

Lemma rs_pos : 1 <= zlen rs.
Proof. destruct Hrestarts as [Hf _ _]. destruct rs; [done|]. zlen_lia. Qed.

Lemma shares_lookup j i :
  l !! j = Some i ->
  0 <= i_shared i <= zlen (i_key i) /\
  forall last, (match j with O => last = [] | S j' => exists p, l !! j' = Some p /\ last = i_key p end) ->
    i_shared i <= zlen last /\ ztake (i_shared i) last = ztake (i_shared i) (i_key i).
Proof.
  clear Hrestarts Hsize. intros Hj.
  assert (forall k last0, shares last0 k -> forall j i, k !! j = Some i ->
    0 <= i_shared i <= zlen (i_key i) /\
    forall last, (match j with O => last = last0 | S j' => exists p, k !! j' = Some p /\ last = i_key p end) ->
      i_shared i <= zlen last /\ ztake (i_shared i) last = ztake (i_shared i) (i_key i)) as Hg.
  { clear. induction k as [|x k IH]; intros last0; [done|]. cbn [shares]. intros (Hb & Ht & Hk) [|j] i Hj.
    - injection Hj as ->. split; [lia|]. intros last ->. split; [lia | done].
    - destruct (IH _ Hk j i Hj) as [Hb' Ht']. split; [done|]. intros last (p & Hp & ->).
      apply Ht'. destruct j; [by injection Hp as -> | by exists p]. }
  by apply (Hg l []).
Qed.

(** Each restart point is the offset of an item that shares nothing. *)
Lemma restart_item a r :
  rs !! a = Some r ->
  0 <= r <= top /\
  exists j, offset l j = r /\ (j <= length l)%nat /\ (l <> [] -> (j < length l)%nat) /\
    forall i, l !! j = Some i -> i_shared i = 0.
Proof.
  intros Ha. destruct Hrestarts as [Hf _ Hit]. destruct rs as [|r0 rs']; [done|].
  injection Hf as ->. destruct a as [|a]; simpl in Ha.
  - injection Ha as <-. split; [zlen_lia|]. exists 0%nat. split_and!; [done | lia | by destruct l; simpl; [|lia] |].
    intros i Hi. destruct (shares_lookup 0 i Hi) as [Hb Hs]. destruct (Hs [] eq_refl) as [Hs0 _].
    change (@zlen byte []) with 0 in Hs0. lia.
  - destruct (Hit r) as (j & i & Hj & Hs & Ho); [by eapply list_elem_of_lookup_2|].
    pose proof (lookup_lt_Some _ _ _ Hj). split.
    + rewrite <- Ho. split; [apply offset_nonneg | apply offset_top].
    + exists j. split_and!; [done | lia | done |]. intros i' Hi'. congruence.
Qed.

Lemma length_top : Z.of_nat (length l) <= top.
Proof.
  clear. induction l as [|i k IH]; [done|]. unfold items_bytes in *. cbn [map concat length].
  rewrite zlen_app. pose proof (item_bytes_pos i). lia.
Qed.

(** *** Invariants of the iterator *)

Record iter_ok (it : Iter) : Prop := mkIterOk {
  ok_data : it_data it = img;
  ok_restarts : it_restarts it = top;
  ok_num : num_restarts_ it = zlen rs;
  ok_status : status_ it = OK;
}.

(** The iterator is about to parse the item at index [j]. *)
Record ready (it : Iter) (j : nat) : Prop := mkReady {
  rd_ok : iter_ok it;
  rd_bound : (j <= length l)%nat;
  rd_value : exists o n, value_ it = Some (o, n) /\ o + n = offset l j;
  rd_key : forall i, l !! j = Some i ->
    i_shared i <= zlen (key_ it) /\ ztake (i_shared i) (key_ it) = ztake (i_shared i) (i_key i);
  rd_index : exists a r, restart_index_ it = Z.of_nat a /\ rs !! a = Some r /\ r <= offset l j;
}.

(** The iterator stands at the item [i] with index [j]. *)
Record standing (it : Iter) (j : nat) (i : item) : Prop := mkStanding {
  st_ok : iter_ok it;
  st_item : l !! j = Some i;
  st_current : current_ it = offset l j;
  st_key : key_ it = i_key i;
  st_value : value_ it = Some (offset l (S j) - zlen (i_value i), zlen (i_value i));
  st_index : exists a r, restart_index_ it = Z.of_nat a /\ rs !! a = Some r /\ r <= offset l j /\
    forall r', rs !! S a = Some r' -> offset l j <= r';
}.

(** The iterator is not valid. *)
Definition ended (it : Iter) : Prop := iter_ok it /\ current_ it = top.

Lemma GetRestartPoint_spec it a r :
  iter_ok it -> rs !! a = Some r -> GetRestartPoint it (Z.of_nat a) = Ret r.
Proof.
  intros [Hd Hr Hn _] Ha. unfold GetRestartPoint. pose proof (lookup_lt_Some _ _ _ Ha).
  destruct (restart_item a r Ha) as [Hrange _]. pose proof image_size. pose proof rs_pos.
  rewrite Hn, Hd, Hr. rewrite (proj2 (Z.ltb_lt (Z.of_nat a) (zlen rs))) by (unfold zlen; lia). simpl.
  f_equal. unfold block_image. rewrite zdrop_app_ge by lia.
  replace (top + Z.of_nat a * 4 - top) with (4 * Z.of_nat a) by lia.
  apply fixed32_array_lookup; [done | lia].
Qed.

Lemma SeekToRestartPoint_spec it a r :
  iter_ok it -> rs !! a = Some r ->
  exists it' j, SeekToRestartPoint it (Z.of_nat a) = Ret it' /\ ready it' j /\ offset l j = r /\
    (l <> [] -> (j < length l)%nat).
Proof.
  intros Hit Ha. unfold SeekToRestartPoint. rewrite (GetRestartPoint_spec it a r Hit Ha). cbn [obind].
  destruct (restart_item a r Ha) as (Hr & j & Ho & Hj & Hlt & Hs).
  eexists _, j. split; [done|]. split; [|done]. destruct Hit. split; simpl; try done.
  - exists r, 0. split; [done | lia].
  - intros i Hi. rewrite (Hs i Hi). split; [done|]. by rewrite !ztake_0.
  - exists a, r. split_and!; [done | done | lia].
Qed.

(** *** Parsing the next entry *)

Lemma advance_index_spec it fuel a r c :
  iter_ok it -> current_ it = c -> rs !! a = Some r -> r <= c ->
  (length rs - a < fuel)%nat ->
  exists a' r', advance_index fuel it (Z.of_nat a) = Ret (Z.of_nat a') /\ rs !! a' = Some r' /\ r' <= c /\
    forall r'', rs !! S a' = Some r'' -> c <= r''.
Proof.
  intros Hit Hc. revert a r. induction fuel as [|fuel IH]; intros a r Ha Hr Hf; [lia|].
  pose proof image_size. pose proof (lookup_lt_Some _ _ _ Ha). pose proof (zlen_nonneg (items_bytes l)).
  cbn [advance_index]. rewrite (ok_num _ Hit).
  rewrite u32_small by (unfold zlen in *; lia).
  replace (Z.of_nat a + 1) with (Z.of_nat (S a)) by lia.
  destruct (rs !! S a) as [r1|] eqn:E.
  - pose proof (lookup_lt_Some _ _ _ E).
    rewrite (proj2 (Z.ltb_lt (Z.of_nat (S a)) (zlen rs))) by (unfold zlen; lia).
    rewrite (GetRestartPoint_spec it _ _ Hit E). cbn [obind]. rewrite Hc.
    destruct (Z.ltb_spec r1 c).
    + apply (IH (S a) r1); [done | lia | lia].
    + exists a, r. split_and!; [done | done | done |]. rewrite E. by intros r'' [= <-].
  - apply lookup_ge_None in E.
    rewrite (proj2 (Z.ltb_ge (Z.of_nat (S a)) (zlen rs))) by (unfold zlen; lia).
    exists a, r. split_and!; [done | done | done |]. intros r'' Hr''.
    apply lookup_lt_Some in Hr''. lia.
Qed.

Lemma parse_end it :
  ready it (length l) ->
  exists it', ParseNextKey it = Ret (it', false) /\ ended it'.
Proof.
  intros [Hok _ (o & n & Hv & Ho) _ _]. unfold ParseNextKey, NextEntryOffset. rewrite Hv. cbn [obind].
  rewrite Ho, offset_length. pose proof image_size. pose proof rs_pos. zlen_pos.
  rewrite u32_small by lia. rewrite (ok_restarts _ Hok), Z.leb_refl.
  eexists. split; [done|]. destruct Hok. split; [by split|]. done.
Qed.

(** Where the parts of the item at index [j] stand in the block. *)
Lemma item_image j i :
  l !! j = Some i ->
  exists rest tail,
    zdrop (offset l j) (ztake top img) = item_bytes i ++ rest /\
    zlen ((zdrop (i_shared i) (i_key i) ++ i_value i) ++ rest) =
      top - (offset l (S j) - (zlen (i_key i) - i_shared i) - zlen (i_value i)) /\
    zdrop (offset l (S j) - (zlen (i_key i) - i_shared i) - zlen (i_value i)) img =
      zdrop (i_shared i) (i_key i) ++ i_value i ++ tail.
Proof.
  intros Hj. destruct (shares_lookup j i Hj) as [Hs _].
  exists (items_bytes (drop (S j) l)),
    (items_bytes (drop (S j) l) ++ concat (map EncodeFixed32 rs) ++ EncodeFixed32 (zlen rs)).
  pose proof (items_split l j i Hj) as E. pose proof (offset_S l j i Hj) as HS.
  assert (zlen (item_bytes i) = zlen (EncodeVarint32 (i_shared i)) +
    zlen (EncodeVarint32 (zlen (i_key i) - i_shared i)) + zlen (EncodeVarint32 (zlen (i_value i))) +
    (zlen (i_key i) - i_shared i) + zlen (i_value i)) as Hib.
  { unfold item_bytes. rewrite !zlen_app, zlen_zdrop. zlen_pos. lia. }
  split_and!.
  - unfold block_image. rewrite ztake_app_len by done. rewrite E. by rewrite zdrop_app_len.
  - rewrite E at 1. rewrite !zlen_app, zlen_zdrop. fold (offset l j). zlen_pos. lia.
  - unfold block_image. rewrite E. unfold item_bytes. rewrite <- !app_assoc.
    rewrite zdrop_app_ge by (fold (offset l j); zlen_pos; lia). fold (offset l j).
    rewrite zdrop_app_ge by (zlen_pos; lia). rewrite zdrop_app_ge by (zlen_pos; lia).
    rewrite zdrop_app_len by (zlen_pos; lia). done.
Qed.

(** A key is made of bytes that stand before the end of its item. *)
Lemma key_bound j i : l !! j = Some i -> zlen (i_key i) <= offset l (S j).
Proof.
  revert i. induction j as [|j IH]; intros i Hj; destruct (shares_lookup _ i Hj) as [Hs Hp];
    rewrite (offset_S l _ i Hj);
    assert (zlen (i_key i) - i_shared i <= zlen (item_bytes i)) as Hib
      by (unfold item_bytes; rewrite !zlen_app, zlen_zdrop; zlen_pos; lia).
  - destruct (Hp [] eq_refl) as [Hz _]. change (@zlen byte []) with 0 in Hz.
    pose proof (offset_nonneg l 0). lia.
  - destruct (lookup_lt_is_Some_2 l j) as [p Hj']; [apply lookup_lt_Some in Hj; lia|].
    destruct (Hp (i_key p)) as [Hsp _]; [by exists p|]. pose proof (IH p Hj'). lia.
Qed.

Lemma parse_item it j i :
  ready it j -> l !! j = Some i ->
  exists it', ParseNextKey it = Ret (it', true) /\ standing it' j i.
Proof.
  intros [Hok Hb (o & n & Hv & Ho) Hk (a & r & Hidx & Ha & Hr)] Hj.
  destruct (Hk i Hj) as [Hks Hkt]. destruct (shares_lookup j i Hj) as [Hs _].
  pose proof image_size as Himg. pose proof rs_pos. pose proof (offset_lt l j (length l) i Hj) as Hlt.
  specialize (Hlt (lookup_lt_Some _ _ _ Hj)). rewrite offset_length in Hlt.
  pose proof (offset_nonneg l j). pose proof (offset_top (S j)) as Htop.
  pose proof (offset_S l j i Hj) as HS. pose proof (key_bound j i Hj) as Hkb.
  destruct (item_image j i Hj) as (rest & tl & Hp & Hq & Ht).
  assert (zlen (item_bytes i ++ rest) = top - offset l j) as Hlen.
  { rewrite <- Hp, zlen_zdrop, zlen_ztake. zlen_pos. lia. }
  unfold ParseNextKey, NextEntryOffset. rewrite Hv. cbn [obind]. rewrite Ho, u32_small by lia.
  rewrite (ok_restarts _ Hok). destruct (Z.leb_spec top (offset l j)); [lia|].
  rewrite (ok_data _ Hok), Hp, DecodeEntry_item by (done || lia).
  rewrite (proj2 (Z.ltb_ge (zlen (key_ it)) (i_shared i))) by lia. rewrite Hq.
  set (pos := top - (top - _)).
  assert (pos = offset l (S j) - (zlen (i_key i) - i_shared i) - zlen (i_value i)) as Hpos by (unfold pos; lia).
  rewrite (proj2 (Z.leb_le (pos + _ + _) (zlen img))) by (zlen_pos; lia). cbn [obind oassert].
  rewrite Hpos, Ht, Hkt, ztake_app_len, ztake_zdrop by (rewrite zlen_zdrop; zlen_pos; lia).
  set (it1 := set_position it _ _ _ _).
  destruct (advance_index_spec it1 (S (Z.to_nat (num_restarts_ it1 - restart_index_ it1))) a r (offset l j))
    as (a' & r' & E & Ha' & Hr' & Hnext); [by destruct Hok | done | done | done | |].
  { simpl. rewrite (ok_num _ Hok), Hidx. unfold zlen. lia. }
  change (restart_index_ it1) with (restart_index_ it) in E |- *. rewrite Hidx in E |- *.
  rewrite E. cbn [obind]. eexists. split; [done|].
  split; [by destruct Hok | done | done | done | | ].
  - simpl. do 2 f_equal. lia.
  - simpl. exists a', r'. done.
Qed.

Lemma standing_ready it j i : standing it j i -> ready it (S j).
Proof.
  intros [Hok Hj Hc Hk Hv (a & r & Hidx & Ha & Hr & _)]. pose proof (lookup_lt_Some _ _ _ Hj).
  split; [done | lia | | |].
  - eexists _, _. split; [done|]. lia.
  - intros i' Hi'. destruct (shares_lookup _ i' Hi') as [_ Hs]. rewrite Hk. apply Hs. by exists i.
  - exists a, r. split_and!; [done | done |]. pose proof (offset_le l j (S j)). lia.
Qed.

Lemma standing_valid it j i : standing it j i -> Valid it = true.
Proof.
  intros [Hok Hj Hc _ _ _]. unfold Valid. rewrite (ok_restarts _ Hok), Hc.
  apply Z.ltb_lt. rewrite top_offset. eapply offset_lt; [done|]. by eapply lookup_lt_Some.
Qed.

Lemma ended_invalid it : ended it -> Valid it = false.
Proof. intros [Hok Hc]. unfold Valid. rewrite (ok_restarts _ Hok), Hc. apply Z.ltb_irrefl. Qed.

Lemma standing_next_offset it j i : standing it j i -> NextEntryOffset it = Ret (offset l (S j)).
Proof.
  intros [Hok Hj Hc _ Hv _]. unfold NextEntryOffset. rewrite Hv. f_equal.
  pose proof (offset_top (S j)). pose proof (offset_nonneg l (S j)). pose proof image_size. pose proof rs_pos.
  rewrite u32_small by lia. lia.
Qed.

(** [at_pos it p]: the iterator is where the abstract cursor [p] is. *)
Definition at_pos (it : Iter) (p : option nat) : Prop :=
  match p with
  | Some j => exists i, standing it j i
  | None => ended it
  end.

Abbreviation es := (map entry l).

Lemma parse_pos it j :
  ready it j -> exists it', ParseNextKey it = Ret (it', (j <? length l)%nat) /\ at_pos it' (Cursor.pos es j).
Proof.
  intros Hr. unfold Cursor.pos. rewrite length_map. destruct (Nat.ltb_spec j (length l)) as [Hj|Hj].
  - destruct (lookup_lt_is_Some_2 l j Hj) as [i Hi]. destruct (parse_item it j i Hr Hi) as (it' & E & Hst).
    exists it'. split; [done|]. by exists i.
  - assert (j = length l) as -> by (pose proof (rd_bound _ _ Hr); lia). by apply parse_end.
Qed.

Lemma Next_spec it j i :
  standing it j i -> exists it', Next it = Ret it' /\ at_pos it' (Cursor.next es j).
Proof.
  intros Hst. unfold Next. rewrite (standing_valid _ _ _ Hst). cbn [obind oassert].
  destruct (parse_pos it (S j) (standing_ready _ _ _ Hst)) as (it' & -> & Hp). by exists it'.
Qed.

Lemma SeekToFirst_spec it : iter_ok it -> exists it', SeekToFirst it = Ret it' /\ at_pos it' (Cursor.first es).
Proof.
  intros Hok. unfold SeekToFirst. destruct Hrestarts as [Hf _ _].
  assert (rs !! 0%nat = Some 0) as H0' by (by destruct rs).
  destruct (SeekToRestartPoint_spec it 0 0 Hok H0') as (it1 & j & E & Hr & Ho & Hj).
  change (Z.of_nat 0) with 0 in E. rewrite E. cbn [obind].
  assert (j = 0%nat) as ->.
  { destruct (decide (l = [])) as [Hl|Hl]; [pose proof (rd_bound _ _ Hr); rewrite Hl in *; simpl in *; lia|].
    destruct j as [|j]; [done|]. destruct (lookup_lt_is_Some_2 l 0) as [i Hi]; [specialize (Hj Hl); lia|].
    pose proof (offset_lt l 0 (S j) i Hi ltac:(lia)) as Hlt.
    assert (offset l 0 = 0) by done. lia. }
  destruct (parse_pos it1 0 Hr) as (it' & -> & Hp). by exists it'.
Qed.

(** Scanning up to the item that ends at [offset l k]. *)
Lemma skip_until_spec fuel it j k :
  ready it j -> (j < k <= length l)%nat -> (k - j <= fuel)%nat ->
  exists it', skip_until fuel it (offset l k) = Ret it' /\ at_pos it' (Some (k - 1)%nat).
Proof.
  revert it j. induction fuel as [|fuel IH]; intros it j Hr Hjk Hf; [lia|]. cbn [skip_until].
  destruct (lookup_lt_is_Some_2 l j) as [i Hi]; [lia|].
  destruct (parse_item it j i Hr Hi) as (it1 & -> & Hst). cbn [obind].
  rewrite (standing_next_offset _ _ _ Hst). cbn [obind].
  destruct (Z.ltb_spec (offset l (S j)) (offset l k)) as [Hlt|Hge].
  - apply (IH it1 (S j)); [by eapply standing_ready | | lia].
    split; [|lia]. destruct (Nat.lt_ge_cases (S j) k) as [|Hk]; [done|].
    pose proof (offset_le l k (S j) Hk). lia.
  - assert (k = S j) as ->.
    { destruct (Nat.eq_dec k (S j)) as [|Hne]; [done|].
      destruct (lookup_lt_is_Some_2 l (S j)) as [i' Hi']; [lia|].
      pose proof (offset_lt l (S j) k i' Hi' ltac:(lia)). lia. }
    exists it1. split; [done|]. exists i. by replace (S j - 1)%nat with j by lia.
Qed.

Lemma scan_fuel_enough it : iter_ok it -> (length l < scan_fuel it)%nat.
Proof. intros Hok. unfold scan_fuel. rewrite (ok_restarts _ Hok). pose proof length_top. lia. Qed.

Lemma SeekToLast_spec it : iter_ok it -> exists it', SeekToLast it = Ret it' /\ at_pos it' (Cursor.last es).
Proof.
  intros Hok. unfold SeekToLast. pose proof rs_pos as Hp.
  destruct (lookup_lt_is_Some_2 rs (length rs - 1)) as [r Hr]; [unfold zlen in Hp; lia|].
  destruct (SeekToRestartPoint_spec it _ r Hok Hr) as (it1 & j & E & Hrd & Ho & Hj).
  rewrite (ok_num _ Hok). replace (zlen rs - 1) with (Z.of_nat (length rs - 1)) by (unfold zlen in *; lia).
  rewrite E. cbn [obind]. pose proof (rd_ok _ _ Hrd) as Hok1. rewrite (ok_restarts _ Hok1).
  pose proof (scan_fuel_enough it1 Hok1) as Hfuel.
  unfold Cursor.last. destruct (decide (l = [])) as [El|El].
  - pose proof (rd_bound _ _ Hrd) as Hb. rewrite El in Hb. simpl in Hb. assert (j = length l) as -> by (rewrite El; simpl; lia).
    destruct (scan_fuel it1) as [|fuel]; [lia|]. cbn [skip_until].
    destruct (parse_end it1 Hrd) as (it2 & -> & He). exists it2. by rewrite El.
  - specialize (Hj El). rewrite <- offset_length.
    destruct (skip_until_spec (scan_fuel it1) it1 j (length l) Hrd) as (it2 & E2 & H2); [lia | lia |].
    exists it2. split; [done|]. rewrite length_map. destruct l; [done|]. exact H2.
Qed.

(** *** Going back *)

Lemma prev_index_spec it fuel original a r :
  iter_ok it -> rs !! a = Some r -> (a < fuel)%nat -> 0 < original ->
  exists a' r', prev_index fuel it original (Z.of_nat a) = Ret (Some (Z.of_nat a')) /\
    rs !! a' = Some r' /\ r' < original.
Proof.
  intros Hok. revert a r. induction fuel as [|fuel IH]; intros a r Ha Hf Hpos; [lia|].
  cbn [prev_index]. rewrite (GetRestartPoint_spec it a r Hok Ha). cbn [obind].
  destruct (Z.leb_spec original r) as [Hge|Hlt]; [|by exists a, r].
  destruct a as [|a].
  - destruct Hrestarts as [Hf0 _ _]. assert (rs !! 0%nat = Some 0) as E by (by destruct rs).
    rewrite E in Ha. injection Ha as <-. lia.
  - destruct (Z.eqb_spec (Z.of_nat (S a)) 0); [lia|].
    destruct (lookup_lt_is_Some_2 rs a) as [r1 Hr1]; [apply lookup_lt_Some in Ha; lia|].
    replace (Z.of_nat (S a) - 1) with (Z.of_nat a) by lia. apply (IH a r1); [done | lia | done].
Qed.

Lemma prev_index_first it fuel r a :
  iter_ok it -> rs !! a = Some r -> r <= 0 -> (0 < fuel)%nat ->
  prev_index fuel it 0 (Z.of_nat a) = Ret None.
Proof.
  intros Hok Ha Hr Hf. destruct fuel as [|fuel]; [lia|]. cbn [prev_index].
  rewrite (GetRestartPoint_spec it a r Hok Ha). cbn [obind].
  destruct (restart_item a r Ha) as [[Hr0 _] _]. destruct (Z.leb_spec 0 r); [|lia].
  destruct Hrestarts as [Hf0 Hinc _]. assert (rs !! 0%nat = Some 0) as E by (by destruct rs).
  destruct a as [|a]; [done|]. pose proof (Hinc 0%nat (S a) 0 r E Ha ltac:(lia)). lia.
Qed.

Lemma Prev_spec it j i :
  standing it j i -> exists it', Prev it = Ret it' /\ at_pos it' (Cursor.prev j).
Proof.
  intros Hst. unfold Prev. rewrite (standing_valid _ _ _ Hst). cbn [obind oassert].
  destruct Hst as [Hok Hj Hc Hk Hv (a & r & Hidx & Ha & Hr & _)]. rewrite Hc, Hidx, Nat2Z.id.
  destruct j as [|j].
  - change (offset l 0) with 0 in *. rewrite (prev_index_first it _ r a) by (done || lia). cbn [obind].
    eexists. split; [done|]. destruct Hok. split; [by split | done].
  - assert (0 < offset l (S j)) as Hpos.
    { destruct (lookup_lt_is_Some_2 l 0) as [i0 Hi0]; [apply lookup_lt_Some in Hj; lia|].
      pose proof (offset_lt l 0 (S j) i0 Hi0 ltac:(lia)) as Hlt. assert (offset l 0 = 0) by done. lia. }
    destruct (prev_index_spec it (S a) (offset l (S j)) a r Hok Ha ltac:(lia) Hpos) as (a' & r' & -> & Ha' & Hr').
    cbn [obind]. destruct (SeekToRestartPoint_spec it a' r' Hok Ha') as (it1 & j0 & -> & Hrd & Ho & _).
    cbn [obind]. pose proof (scan_fuel_enough it1 (rd_ok _ _ Hrd)). pose proof (lookup_lt_Some _ _ _ Hj).
    assert (j0 < S j)%nat.
    { destruct (Nat.lt_ge_cases j0 (S j)) as [|Hge]; [done|]. pose proof (offset_le l (S j) j0 Hge). lia. }
    destruct (skip_until_spec (scan_fuel it1) it1 j0 (S j) Hrd) as (it2 & E2 & Hp2); [lia | lia |].
    exists it2. split; [done|]. simpl in *. by rewrite Nat.sub_0_r in Hp2.
Qed.

(** *** Searching *)

Hypothesis Hsorted : entries_sorted es.

Lemma sorted_lookup j k i i' :
  l !! j = Some i -> l !! k = Some i' -> (j < k)%nat -> Compare (i_key i) (i_key i') < 0.
Proof.
  intros Hj Hk Hjk. rewrite <- (take_drop_middle l j i Hj), map_app in Hsorted.
  apply StronglySorted_app_1_r in Hsorted. apply StronglySorted_inv in Hsorted as [_ Hall].
  rewrite Forall_forall in Hall. apply (Hall (entry i')). apply list_elem_of_fmap_2.
  apply (list_elem_of_lookup_2 _ (k - S j)). rewrite lookup_drop. by replace (S j + (k - S j))%nat with k by lia.
Qed.

(** The keys before index [j] are below the target. *)
Definition below (target : bytes) (j : nat) : Prop :=
  forall k i, (k < j)%nat -> l !! k = Some i -> Compare (i_key i) target < 0.

Lemma count_lt_spec target j :
  below target j -> (j <= length l)%nat ->
  (forall i, l !! j = Some i -> 0 <= Compare (i_key i) target) ->
  Cursor.count_lt target es = j.
Proof.
  unfold below. clear. revert j. generalize l as m. clear l.
  induction m as [|i k IH]; intros j Hb Hj Hge; [simpl in *; lia|].
  cbn [map entry Cursor.count_lt length] in *. destruct j as [|j].
  - specialize (Hge i eq_refl). destruct (Z.ltb_spec (Compare (i_key i) target) 0); [lia | done].
  - pose proof (Hb 0%nat i ltac:(lia) eq_refl).
    destruct (Z.ltb_spec (Compare (i_key i) target) 0); [|lia]. f_equal. apply IH; [|lia|].
    + intros m x Hm Hx. apply (Hb (S m) x); [lia | done].
    + intros x Hx. by apply Hge.
Qed.

Lemma search_restarts_spec fuel it target a b :
  iter_ok it -> (a <= b < length rs)%nat -> (b - a < fuel)%nat ->
  (forall r j, rs !! a = Some r -> offset l j = r -> (j <= length l)%nat -> below target j) ->
  exists a', search_restarts fuel it target (Z.of_nat a) (Z.of_nat b) = Ret (Some (Z.of_nat a')) /\
    (a' < length rs)%nat /\
    forall r j, rs !! a' = Some r -> offset l j = r -> (j <= length l)%nat -> below target j.
Proof.
  intros Hok. revert a b. induction fuel as [|fuel IH]; intros a b Hab Hf Hbel; [lia|].
  pose proof image_size. pose proof (zlen_nonneg (items_bytes l)). cbn [search_restarts].
  destruct (Z.ltb_spec (Z.of_nat a) (Z.of_nat b)) as [Hlt|Hge].
  2:{ exists a. split_and!; [done | lia | done]. }
  rewrite u32_small by (unfold zlen in *; lia).
  set (m := Z.to_nat ((Z.of_nat a + Z.of_nat b + 1) / 2)).
  assert ((Z.of_nat a + Z.of_nat b + 1) / 2 = Z.of_nat m) as -> by (unfold m; zdiv_lia).
  assert (a < m <= b)%nat as Hm by (unfold m; zdiv_lia). clearbody m.
  destruct (lookup_lt_is_Some_2 rs m) as [r Hr]; [lia|].
  rewrite (GetRestartPoint_spec it m r Hok Hr). cbn [obind].
  destruct (restarts_items _ _ Hrestarts r) as (j & i & Hj & Hs & Ho).
  { destruct rs as [|r0 rs']; [done|]. destruct m as [|m]; [lia|]. simpl in *. by eapply list_elem_of_lookup_2. }
  destruct (item_image j i Hj) as (rest & tl & Hp & Hq & Ht).
  pose proof (key_bound j i Hj). pose proof (offset_top (S j)). pose proof rs_pos.
  destruct (shares_lookup j i Hj) as [Hsh _].
  assert (zlen (item_bytes i ++ rest) < 2 ^ 32) as Hlen.
  { rewrite <- Hp, zlen_zdrop, zlen_ztake. zlen_pos. lia. }
  rewrite (ok_restarts _ Hok), (ok_data _ Hok), <- Ho, Hp, DecodeEntry_item by (done || lia).
  rewrite Hs, Z.eqb_refl. cbn [negb]. rewrite <- Hs, Hq, Hs.
  set (pos := top - (top - _)).
  assert (pos = offset l (S j) - (zlen (i_key i) - i_shared i) - zlen (i_value i)) as Hpos by (unfold pos; lia).
  rewrite (proj2 (Z.leb_le (pos + _) (zlen img))) by (zlen_pos; lia). cbn [obind oassert].
  rewrite Hpos, Ht, Hs, zdrop_0, ztake_app_len by lia.
  destruct (Z.ltb_spec (Compare (i_key i) target) 0) as [Hc|Hc].
  - apply IH; [lia | lia |]. intros r' j' Hr' Ho' Hj' k x Hk Hx.
    assert (r' = r) as -> by congruence.
    assert (k < j)%nat.
    { destruct (Nat.lt_ge_cases k j) as [|Hkj]; [done|].
      assert (j < j')%nat as Hjj by lia. pose proof (offset_lt l j j' i Hj Hjj). lia. }
    eapply compare_lt_le; [by eapply (sorted_lookup k j)|]. lia.
  - replace (Z.of_nat m - 1) with (Z.of_nat (m - 1)) by lia. apply IH; [lia | lia | done].
Qed.

Lemma scan_ge_spec fuel it target j :
  ready it j -> below target j -> (length l - j < fuel)%nat ->
  exists it', scan_ge fuel it target = Ret it' /\ at_pos it' (Cursor.seek es target).
Proof.
  revert it j. induction fuel as [|fuel IH]; intros it j Hr Hb Hf; [lia|]. cbn [scan_ge].
  pose proof (rd_bound _ _ Hr) as Hj. unfold Cursor.seek.
  destruct (parse_pos it j Hr) as (it1 & -> & Hp). cbn [obind].
  destruct (Nat.ltb_spec j (length l)) as [Hlt|Hge]; cbn [negb].
  - unfold Cursor.pos in Hp. rewrite length_map in Hp. destruct (Nat.ltb_spec j (length l)); [|lia].
    destruct Hp as [i Hst]. rewrite (st_key _ _ _ Hst). pose proof (st_item _ _ _ Hst) as Hi.
    destruct (Z.leb_spec 0 (Compare (i_key i) target)) as [Hc|Hc].
    + rewrite (count_lt_spec target j Hb Hj) by (intros x Hx; congruence).
      exists it1. split; [done|]. unfold Cursor.pos. rewrite length_map.
      destruct (Nat.ltb_spec j (length l)); [|lia]. by exists i.
    + apply (IH it1 (S j)); [by eapply standing_ready | | lia].
      intros k x Hk Hx. destruct (decide (k = j)) as [->|]; [congruence|]. apply (Hb k x); [lia | done].
  - exists it1. split; [done|]. rewrite (count_lt_spec target j Hb Hj); [done|].
    intros x Hx. apply lookup_lt_Some in Hx. lia.
Qed.

Lemma Seek_spec it target :
  iter_ok it -> exists it', Seek it target = Ret it' /\ at_pos it' (Cursor.seek es target).
Proof.
  intros Hok. unfold Seek. pose proof rs_pos. rewrite (ok_num _ Hok).
  replace (zlen rs - 1) with (Z.of_nat (length rs - 1)) by (unfold zlen in *; lia).
  destruct (search_restarts_spec (S (Z.to_nat (zlen rs))) it target 0 (length rs - 1) Hok)
    as (a & E & Ha & Hbel).
  - unfold zlen in *. lia.
  - unfold zlen. lia.
  - intros r j Hr Ho Hj k i Hk Hi. destruct Hrestarts as [Hf0 _ _].
    assert (rs !! 0%nat = Some 0) as E0 by (by destruct rs). assert (r = 0) as -> by congruence.
    destruct (lookup_lt_is_Some_2 l 0) as [i0 Hi0]; [apply lookup_lt_Some in Hi; lia|].
    pose proof (offset_lt l 0 j i0 Hi0 ltac:(lia)). assert (offset l 0 = 0) by done. lia.
  - change (Z.of_nat 0) with 0 in E. rewrite E. cbn [obind].
    destruct (lookup_lt_is_Some_2 rs a Ha) as [r Hr].
    destruct (SeekToRestartPoint_spec it a r Hok Hr) as (it1 & j & -> & Hrd & Ho & _). cbn [obind].
    pose proof (scan_fuel_enough it1 (rd_ok _ _ Hrd)).
    apply (scan_ge_spec _ _ _ j Hrd); [|lia]. apply (Hbel r j Hr Ho). apply (rd_bound _ _ Hrd).
Qed.
End BlockProofs.

(** ** Opening a finished block *)

Lemma value_image l rs it j i :
  shares [] l -> zlen (block_image l rs) < 2 ^ 32 -> standing l rs it j i ->
  iter_key it = Ret (i_key i) /\ iter_value it = Ret (i_value i).
Proof.
  intros Hs Hn Hst. unfold iter_key, iter_value.
  rewrite (standing_valid l rs it j i Hst), (st_key _ _ _ _ _ Hst), (st_value _ _ _ _ _ Hst). simpl.
  split; [done|]. f_equal. pose proof (st_item _ _ _ _ _ Hst) as Hj.
  destruct (item_image l rs Hs j i Hj) as (rest & tl & _ & _ & Ht).
  destruct (shares_lookup l Hs j i Hj) as [Hsh _]. pose proof (key_bound l rs Hs j i Hj).
  pose proof (offset_S l j i Hj). rewrite (ok_data _ _ _ (st_ok _ _ _ _ _ Hst)).
  assert (zlen (zdrop (i_shared i) (i_key i)) + zlen (i_value i) <= zlen (item_bytes i)) as Hib
    by (unfold item_bytes; rewrite !zlen_app; zlen_pos; lia).
  rewrite zlen_zdrop in Hib. zlen_pos. pose proof (offset_nonneg l j).
  replace (offset l (S j) - zlen (i_value i)) with
    ((offset l (S j) - (zlen (i_key i) - i_shared i) - zlen (i_value i)) + (zlen (i_key i) - i_shared i)) by lia.
  rewrite <- zdrop_zdrop, Ht by lia. rewrite zdrop_app_len by (rewrite zlen_zdrop; lia).
  by apply ztake_app_len.
Qed.

Lemma image_count l rs :
  zlen (block_image l rs) < 2 ^ 32 ->
  DecodeFixed32 (zdrop (zlen (block_image l rs) - 4) (block_image l rs)) = zlen rs.
Proof.
  intros Hn. pose proof (image_size l rs). pose proof (zlen_nonneg (items_bytes l)).
  pose proof (zlen_nonneg rs). unfold block_image at 2.
  rewrite app_assoc, zdrop_app_len, <- (app_nil_r (EncodeFixed32 _)), DecodeFixed32_Encode.
  - apply u32_small. lia.
  - rewrite zlen_app, zlen_fixed32_array. lia.
Qed.

Lemma new_Block_image l rs :
  1 <= zlen rs -> zlen (block_image l rs) < 2 ^ 32 ->
  new_Block (block_image l rs) =
    Ret (mkBlock (block_image l rs) (zlen (block_image l rs)) (zlen (items_bytes l))).
Proof.
  intros Hrs Hn. pose proof (image_size l rs) as Hsz. unfold new_Block, NumRestarts.
  zlen_pos. destruct (Z.ltb_spec (zlen (block_image l rs)) 4); [lia|].
  rewrite (proj2 (Z.leb_le 4 _)) by lia. cbn [obind oassert].
  rewrite image_count by done.
  destruct (Z.ltb_spec ((zlen (block_image l rs) - 4) / 4) (zlen rs)).
  { assert (zlen rs <= (zlen (block_image l rs) - 4) / 4); [|lia].
    apply Z.div_le_lower_bound; lia. }
  f_equal. f_equal. rewrite (u32_small (1 + zlen rs)) by lia. rewrite u32_small by lia. lia.
Qed.

Lemma NewIterator_image `{Comparator} l rs :
  1 <= zlen rs -> zlen (block_image l rs) < 2 ^ 32 ->
  exists b it, new_Block (block_image l rs) = Ret b /\ NewIterator b = Ret (EntryIterator it) /\
    iter_ok l rs it /\ ended l rs it.
Proof.
  intros Hrs Hn. pose proof (image_size l rs) as Hsz. pose proof (zlen_nonneg (items_bytes l)).
  rewrite (new_Block_image l rs) by done.
  exists (mkBlock (block_image l rs) (zlen (block_image l rs)) (zlen (items_bytes l))).
  unfold NewIterator, NumRestarts. cbn [size_ data_ restart_offset_].
  destruct (Z.ltb_spec (zlen (block_image l rs)) 4); [lia|].
  rewrite (proj2 (Z.leb_le 4 _)) by lia. cbn [obind oassert].
  rewrite image_count by done.
  destruct (Z.eqb_spec (zlen rs) 0); [lia|]. unfold new_Iter.
  rewrite (proj2 (Z.ltb_lt 0 (zlen rs))) by lia. cbn [obind oassert].
  eexists. split; [done|]. split; [done|]. split; [by split|]. split; [by split | done].
Qed.

(** ** Programs over an iterator *)

Inductive iter_op := OpFirst | OpLast | OpSeek (target : bytes) | OpNext | OpPrev.

Section Programs.
Context `{Comparator}.

Definition run_op (it : Iter) (o : iter_op) : outcome Iter :=
  match o with
  | OpFirst => SeekToFirst it
  | OpLast => SeekToLast it
  | OpSeek target => Seek it target
  | OpNext => Next it
  | OpPrev => Prev it
  end.

Fixpoint run_ops (it : Iter) (ops : list iter_op) : outcome Iter :=
  match ops with
  | [] => Ret it
  | o :: ops => let! it := run_op it o in run_ops it ops
  end.

(** The same program on the cursor. *)
Definition cursor_op (es : list (bytes * bytes)) (p : option nat) (o : iter_op) : outcome (option nat) :=
  match o, p with
  | OpFirst, _ => Ret (Cursor.first es)
  | OpLast, _ => Ret (Cursor.last es)
  | OpSeek target, _ => Ret (Cursor.seek es target)
  | OpNext, Some j => Ret (Cursor.next es j)
  | OpPrev, Some j => Ret (Cursor.prev j)
  | _, None => AssertFailed
  end.

Fixpoint cursor_ops (es : list (bytes * bytes)) (p : option nat) (ops : list iter_op)
    : outcome (option nat) :=
  match ops with
  | [] => Ret p
  | o :: ops => let! p := cursor_op es p o in cursor_ops es p ops
  end.

(** What a client sees: nothing when the iterator is not valid. *)
Definition observe (it : Iter) : outcome (option (bytes * bytes)) :=
  if Valid it then
    let! k := iter_key it in
    let! v := iter_value it in
    Ret (Some (k, v))
  else Ret None.

End Programs.

Section Refinement.
Context `{ComparatorLaws}.
Variables (l : list item) (rs : list Z).
Hypothesis Hshares : shares [] l.
Hypothesis Hrestarts : restarts_ok l rs.
Hypothesis Hsize : zlen (block_image l rs) < 2 ^ 32.
Hypothesis Hsorted : entries_sorted (map entry l).

Lemma at_pos_ok it p : at_pos l rs it p -> iter_ok l rs it.
Proof. destruct p as [j|]; [intros [i Hst]; apply Hst | intros He; apply He]. Qed.

Lemma run_op_refines it p o :
  at_pos l rs it p ->
  match cursor_op (map entry l) p o with
  | Ret p' => exists it', run_op it o = Ret it' /\ at_pos l rs it' p'
  | AssertFailed => run_op it o = AssertFailed
  | OutOfFuel => False
  end.
Proof.
  intros Hp. pose proof (at_pos_ok it p Hp) as Hok. destruct o; cbn [cursor_op run_op].
  - by apply SeekToFirst_spec.
  - by apply SeekToLast_spec.
  - by apply Seek_spec.
  - destruct p as [j|].
    + destruct Hp as [i Hst]. by eapply Next_spec.
    + unfold Next. by rewrite (ended_invalid l rs it Hp).
  - destruct p as [j|].
    + destruct Hp as [i Hst]. by eapply Prev_spec.
    + unfold Prev. by rewrite (ended_invalid l rs it Hp).
Qed.

Lemma run_ops_refines ops it p :
  at_pos l rs it p ->
  match cursor_ops (map entry l) p ops with
  | Ret p' => exists it', run_ops it ops = Ret it' /\ at_pos l rs it' p'
  | AssertFailed => run_ops it ops = AssertFailed
  | OutOfFuel => False
  end.
Proof.
  revert it p. induction ops as [|o ops IH]; intros it p Hp; cbn [cursor_ops run_ops]; [by exists it|].
  pose proof (run_op_refines it p o Hp) as Ho. destruct (cursor_op (map entry l) p o) as [p1| |]; cbn [obind].
  - destruct Ho as (it1 & -> & Hp1). by apply IH.
  - by rewrite Ho.
  - done.
Qed.

Lemma observe_at it p :
  at_pos l rs it p -> observe it = Ret (j ← p; map entry l !! j) /\ status_ it = OK.
Proof.
  intros Hp. pose proof (at_pos_ok it p Hp) as Hok. split; [|apply Hok]. unfold observe.
  destruct p as [j|].
  - destruct Hp as [i Hst]. rewrite (standing_valid l rs it j i Hst).
    destruct (value_image l rs it j i Hshares Hsize Hst) as [-> ->]. cbn [obind mbind option_bind].
    rewrite list_lookup_fmap, (st_item _ _ _ _ _ Hst). done.
  - by rewrite (ended_invalid l rs it Hp).
Qed.
End Refinement.

(** ** Any block at all: every operation comes to an end *)

Section AnyBlock.
Context `{Comparator}.

Record wf (it : Iter) : Prop := mkWf {
  wf_restarts : 0 <= it_restarts it <= zlen (it_data it);
  wf_data : zlen (it_data it) < 2 ^ 32;
  wf_num : 1 <= num_restarts_ it < 2 ^ 31;
  wf_index : 0 <= restart_index_ it <= num_restarts_ it;
}.

(** The same block, another position. *)
Definition same_block (it it' : Iter) : Prop :=
  it_restarts it' = it_restarts it /\ it_data it' = it_data it /\ num_restarts_ it' = num_restarts_ it.

Lemma GetVarint32Ptr_bounds p v q :
  GetVarint32Ptr p = Some (v, q) -> 0 <= v < 2 ^ 32 /\ exists c, p = c ++ q /\ 1 <= zlen c.
Proof.
  intros E. destruct (GetVarint32_bounds p v q) as (Hv & c & -> & Hc); [by unfold GetVarint32; rewrite E|].
  split; [done|]. exists c. split; [done | lia].
Qed.

Lemma DecodeEntry_bounds p shared non_shared value_length q :
  DecodeEntry p = Some (shared, non_shared, value_length, q) ->
  0 <= shared /\ 0 <= non_shared /\ 0 <= value_length /\ zlen q + 3 <= zlen p.
Proof.
  destruct (Z.lt_ge_cases (zlen p) 3) as [Hp|Hp].
  { unfold DecodeEntry. by rewrite (proj2 (Z.ltb_lt (zlen p) 3)) by done. }
  rewrite DecodeEntry_slow by lia.
  destruct (GetVarint32Ptr p) as [[v1 q1]|] eqn:E1; [|done]. cbn [mbind option_bind].
  destruct (GetVarint32Ptr q1) as [[v2 q2]|] eqn:E2; [|done]. cbn [mbind option_bind].
  destruct (GetVarint32Ptr q2) as [[v3 q3]|] eqn:E3; [|done]. cbn [mbind option_bind].
  destruct (_ <? _); [done|]. intros [= <- <- <- <-].
  apply GetVarint32Ptr_bounds in E1 as (? & c1 & -> & ?), E2 as (? & c2 & -> & ?), E3 as (? & c3 & -> & ?).
  rewrite !zlen_app. lia.
Qed.

Lemma advance_index_total fuel it index :
  1 <= num_restarts_ it < 2 ^ 31 -> 0 <= index <= num_restarts_ it ->
  num_restarts_ it - index < Z.of_nat fuel ->
  match advance_index fuel it index with
  | Ret i => 0 <= i <= num_restarts_ it
  | AssertFailed => True
  | OutOfFuel => False
  end.
Proof.
  intros Hn. revert index. induction fuel as [|fuel IH]; intros index Hi Hf; [lia|]. cbn [advance_index].
  rewrite u32_small by lia. destruct (Z.ltb_spec (index + 1) (num_restarts_ it)); [|done].
  unfold GetRestartPoint. rewrite (proj2 (Z.ltb_lt (index + 1) _)) by done. cbn [obind oassert].
  destruct (_ <? _); [apply IH; lia | done].
Qed.

Lemma parse_total it :
  wf it ->
  match ParseNextKey it with
  | Ret (it', parsed) => wf it' /\ same_block it it' /\
      (parsed = true -> exists c c', NextEntryOffset it = Ret c /\ NextEntryOffset it' = Ret c' /\
         0 <= c < it_restarts it /\ c < c')
  | AssertFailed => True
  | OutOfFuel => False
  end.
Proof.
  intros [Hr Hd Hn Hi]. unfold ParseNextKey. destruct (NextEntryOffset it) as [c| |] eqn:En; [|done|].
  2:{ unfold NextEntryOffset in En. by destruct (value_ it) as [[? ?]|]. }
  cbn [obind]. assert (0 <= c) as Hc.
  { unfold NextEntryOffset in En. destruct (value_ it) as [[o n]|]; [|done]. injection En as <-. apply u32_range. }
  destruct (Z.leb_spec (it_restarts it) c).
  { split_and!; [split; simpl; lia | done | done]. }
  destruct (DecodeEntry _) as [[[[shared non_shared] value_length] q]|] eqn:Ed.
  2:{ split_and!; [split; simpl; lia | done | done]. }
  apply DecodeEntry_bounds in Ed as (Hs & Hns & Hvl & Hq).
  rewrite zlen_zdrop, zlen_ztake in Hq. zlen_pos.
  destruct (zlen (key_ it) <? shared); [split_and!; [split; simpl; lia | done | done]|].
  set (pos := it_restarts it - zlen q) in *.
  destruct (Z.leb_spec (pos + non_shared + value_length) (zlen (it_data it))); [|done].
  cbn [obind oassert]. set (it1 := set_position it _ _ _ _).
  pose proof (advance_index_total (S (Z.to_nat (num_restarts_ it1 - restart_index_ it1))) it1 (restart_index_ it1)) as Ha.
  change (num_restarts_ it1) with (num_restarts_ it) in *. change (restart_index_ it1) with (restart_index_ it) in *.
  destruct (advance_index _ it1 _) as [i| |]; cbn [obind]; [|done|].
  2:{ apply Ha; lia. }
  split_and!; [split; simpl; try done; apply Ha; lia | done |]. intros _. exists c. eexists.
  split_and!; [done | done | done | done |]. unfold NextEntryOffset. simpl. rewrite u32_small by lia. lia.
Qed.

Lemma seek_restart_total it index :
  wf it -> 0 <= index <= num_restarts_ it ->
  match SeekToRestartPoint it index with
  | Ret it' => wf it' /\ same_block it it'
  | AssertFailed => True
  | OutOfFuel => False
  end.
Proof.
  intros [Hr Hd Hn Hi] Hx. unfold SeekToRestartPoint, GetRestartPoint. destruct (_ <? _); [|done].
  cbn [obind oassert]. split; [by split | done].
Qed.

(** The distance to the end of the entries shrinks. *)
Definition left_to_scan (it : Iter) : Z :=
  match NextEntryOffset it with Ret c => it_restarts it - c | _ => 0 end.

Lemma left_to_scan_fuel it : wf it -> left_to_scan it < Z.of_nat (scan_fuel it).
Proof.
  intros [Hr _ _ _]. unfold left_to_scan, scan_fuel, NextEntryOffset.
  destruct (value_ it) as [[o n]|]; [pose proof (u32_range (o + n)); lia | lia].
Qed.

Lemma skip_until_total fuel it limit :
  wf it -> left_to_scan it < Z.of_nat fuel -> (0 < fuel)%nat ->
  match skip_until fuel it limit with
  | Ret it' => wf it' /\ same_block it it'
  | AssertFailed => True
  | OutOfFuel => False
  end.
Proof.
  revert it. induction fuel as [|fuel IH]; intros it Hw Hf Hpos; [lia|]. cbn [skip_until].
  pose proof (parse_total it Hw) as Hp. destruct (ParseNextKey it) as [[it1 parsed]| |]; cbn [obind]; try done.
  destruct Hp as (Hw1 & Hs1 & Hpr). destruct parsed; [|done].
  destruct (Hpr eq_refl) as (c & c' & E & E' & Hc & Hlt). rewrite E'. cbn [obind].
  destruct (_ <? _); [|done]. unfold left_to_scan in Hf. rewrite E in Hf.
  destruct Hs1 as (Hs1 & Hs2 & Hs3).
  specialize (IH it1 Hw1). unfold left_to_scan in IH. rewrite E', Hs1 in IH. specialize (IH ltac:(lia) ltac:(lia)).
  destruct (skip_until fuel it1 limit) as [it2| |]; try done. destruct IH as [Hw2 (? & ? & ?)].
  split; [done|]. unfold same_block. split_and!; congruence.
Qed.

Lemma scan_ge_total fuel it target :
  wf it -> left_to_scan it < Z.of_nat fuel -> (0 < fuel)%nat ->
  match scan_ge fuel it target with
  | Ret it' => wf it' /\ same_block it it'
  | AssertFailed => True
  | OutOfFuel => False
  end.
Proof.
  revert it. induction fuel as [|fuel IH]; intros it Hw Hf Hpos; [lia|]. cbn [scan_ge].
  pose proof (parse_total it Hw) as Hp. destruct (ParseNextKey it) as [[it1 parsed]| |]; cbn [obind]; try done.
  destruct Hp as (Hw1 & Hs1 & Hpr). destruct parsed; cbn [negb]; [|done].
  destruct (Hpr eq_refl) as (c & c' & E & E' & Hc & Hlt).
  destruct (_ <=? _); [done|]. unfold left_to_scan in Hf. rewrite E in Hf.
  destruct Hs1 as (Hs1 & Hs2 & Hs3).
  specialize (IH it1 Hw1). unfold left_to_scan in IH. rewrite E', Hs1 in IH. specialize (IH ltac:(lia) ltac:(lia)).
  destruct (scan_ge fuel it1 target) as [it2| |]; try done. destruct IH as [Hw2 (? & ? & ?)].
  split; [done|]. unfold same_block. split_and!; congruence.
Qed.

Lemma prev_index_total fuel it original index :
  0 <= index < Z.of_nat fuel ->
  match prev_index fuel it original index with
  | Ret (Some i) => 0 <= i <= index
  | OutOfFuel => False
  | _ => True
  end.
Proof.
  revert index. induction fuel as [|fuel IH]; intros index Hi; [lia|]. cbn [prev_index].
  unfold GetRestartPoint. destruct (_ <? _); cbn [obind oassert]; [|done].
  destruct (_ <=? _); [|lia]. destruct (Z.eqb_spec index 0); [done|].
  specialize (IH (index - 1) ltac:(lia)). destruct (prev_index fuel it original (index - 1)) as [[i|]| |]; lia || done.
Qed.

Lemma search_restarts_total fuel it target l r :
  wf it -> 0 <= l -> r < num_restarts_ it -> r - l < Z.of_nat fuel -> (0 < fuel)%nat -> l <= num_restarts_ it ->
  match search_restarts fuel it target l r with
  | Ret (Some i) => 0 <= i <= num_restarts_ it
  | OutOfFuel => False
  | _ => True
  end.
Proof.
  intros [Hr Hd Hn Hi]. revert l r. induction fuel as [|fuel IH]; intros l r Hl Hrr Hf Hpos Hln; [lia|].
  cbn [search_restarts]. destruct (Z.ltb_spec l r); [|done].
  rewrite u32_small by lia. set (mid := (l + r + 1) / 2). assert (l < mid <= r) by (unfold mid; zdiv_lia).
  unfold GetRestartPoint. rewrite (proj2 (Z.ltb_lt mid _)) by lia. cbn [obind oassert].
  destruct (DecodeEntry _) as [[[[s n] v] q]|]; [|done]. destruct (negb _); [done|].
  destruct (_ <=? _); cbn [obind oassert]; [|done]. destruct (_ <? _); apply IH; lia.
Qed.

Lemma run_op_total it o :
  wf it ->
  match run_op it o with
  | Ret it' => wf it'
  | AssertFailed => True
  | OutOfFuel => False
  end.
Proof.
  intros Hw. pose proof Hw as [Hr Hd Hn Hi]. destruct o as [| |target| |]; cbn [run_op].
  - unfold SeekToFirst. pose proof (seek_restart_total it 0 Hw ltac:(lia)) as Hs.
    destruct (SeekToRestartPoint it 0) as [it1| |]; cbn [obind]; try done. destruct Hs as [Hw1 _].
    pose proof (parse_total it1 Hw1) as Hp. destruct (ParseNextKey it1) as [[it2 b]| |]; cbn [obind]; try done.
    apply Hp.
  - unfold SeekToLast. pose proof (seek_restart_total it (num_restarts_ it - 1) Hw ltac:(lia)) as Hs.
    destruct (SeekToRestartPoint it (num_restarts_ it - 1)) as [it1| |]; cbn [obind]; try done.
    destruct Hs as [Hw1 _].
    pose proof (skip_until_total (scan_fuel it1) it1 (it_restarts it1) Hw1 (left_to_scan_fuel it1 Hw1)) as Hp.
    destruct (skip_until _ _ _) as [it2| |]; try done; apply Hp; unfold scan_fuel; lia.
  - unfold Seek. pose proof (search_restarts_total (S (Z.to_nat (num_restarts_ it))) it target 0 (num_restarts_ it - 1) Hw) as Hs.
    destruct (search_restarts _ _ _ _ _) as [[i|]| |]; cbn [obind]; try done.
    + pose proof (seek_restart_total it i Hw) as Hs2.
      destruct (SeekToRestartPoint it i) as [it1| |]; cbn [obind]; [|done|apply Hs2, Hs; lia].
      destruct Hs2 as [Hw1 _]; [apply Hs; lia|].
      pose proof (scan_ge_total (scan_fuel it1) it1 target Hw1 (left_to_scan_fuel it1 Hw1)) as Hp.
      destruct (scan_ge _ _ _) as [it2| |]; try done; apply Hp; unfold scan_fuel; lia.
    + split; simpl; lia.
    + apply Hs; lia.
  - unfold Next. destruct (Valid it); cbn [obind oassert]; [|done].
    pose proof (parse_total it Hw) as Hp. destruct (ParseNextKey it) as [[it2 b]| |]; cbn [obind]; try done.
    apply Hp.
  - unfold Prev. destruct (Valid it); cbn [obind oassert]; [|done].
    pose proof (prev_index_total (S (Z.to_nat (restart_index_ it))) it (current_ it) (restart_index_ it) ltac:(lia)) as Hp.
    destruct (prev_index _ _ _ _) as [[i|]| |]; cbn [obind]; try done; [|split; simpl; lia].
    pose proof (seek_restart_total it i Hw ltac:(lia)) as Hs.
    destruct (SeekToRestartPoint it i) as [it1| |]; cbn [obind]; try done. destruct Hs as [Hw1 _].
    pose proof (skip_until_total (scan_fuel it1) it1 (current_ it) Hw1 (left_to_scan_fuel it1 Hw1)) as Hq.
    destruct (skip_until _ _ _) as [it2| |]; try done; apply Hq; unfold scan_fuel; lia.
Qed.

Lemma run_ops_total ops it : wf it -> run_ops it ops <> OutOfFuel.
Proof.
  revert it. induction ops as [|o ops IH]; intros it Hw; cbn [run_ops]; [done|].
  pose proof (run_op_total it o Hw) as Ho. destruct (run_op it o) as [it1| |]; cbn [obind]; try done. by apply IH.
Qed.

End AnyBlock.

Lemma new_Block_wf `{Comparator} contents :
  zlen contents < 2 ^ 32 ->
  exists b bi, new_Block contents = Ret b /\ NewIterator b = Ret bi /\
    forall it, bi = EntryIterator it -> wf it.
Proof.
  intros Hn. zlen_pos. unfold new_Block, NumRestarts. destruct (Z.ltb_spec (zlen contents) 4).
  { do 2 eexists. split; [done|]. split; [done|]. done. }
  rewrite (proj2 (Z.leb_le 4 (zlen contents))) by done. cbn [obind oassert].
  set (n := DecodeFixed32 _). pose proof (DecodeFixed32_range (zdrop (zlen contents - 4) contents)) as Hr.
  fold n in Hr. destruct (Z.ltb_spec ((zlen contents - 4) / 4) n) as [Hlt|Hle].
  { do 2 eexists. split; [done|]. split; [done|]. done. }
  assert (4 * n <= zlen contents - 4) as Hn4 by (pose proof (Z.mul_div_le (zlen contents - 4) 4); lia).
  exists (mkBlock contents (zlen contents) (u32 (zlen contents - u32 (1 + n) * 4))).
  unfold NewIterator, NumRestarts. cbn [size_ data_ restart_offset_].
  destruct (Z.ltb_spec (zlen contents) 4); [lia|].
  rewrite (proj2 (Z.leb_le 4 (zlen contents))) by done. cbn [obind oassert]. fold n.
  destruct (Z.eqb_spec n 0); [eexists; split; [done|]; split; done|]. unfold new_Iter.
  rewrite (proj2 (Z.ltb_lt 0 n)) by lia. cbn [obind oassert].
  eexists. split; [done|]. split; [done|]. intros it [= <-].
  rewrite (u32_small (1 + n)), u32_small by lia. split; simpl; lia.
Qed.

(** ** The properties *)

(** C14: a block iterator refines a cursor. Any entries in strictly increasing key order are
    built into a block without a failing assertion, for every restart interval; opening
    the block gives an iterator on which every sequence of SeekToFirst, SeekToLast, Seek,
    Next and Prev does what it does on the list of the entries: the same key and value, or
    not valid, with status OK, and a failing assertion exactly when Next or Prev is called
    on an iterator that is not valid. *)
Theorem block_iterator_refines `{ComparatorLaws} (interval : Z) (es : list (bytes * bytes)) :
  1 <= interval -> entries_sorted es -> budget es + 8 < 2 ^ 32 ->
  exists contents b it,
    BuildBlock interval es = Ret contents /\ new_Block contents = Ret b /\
    NewIterator b = Ret (EntryIterator it) /\
    forall ops,
      match cursor_ops es None ops with
      | Ret p => exists it', run_ops it ops = Ret it' /\ observe it' = Ret (j ← p; es !! j) /\ status_ it' = OK
      | AssertFailed => run_ops it ops = AssertFailed
      | OutOfFuel => False
      end.
Proof.
  intros Hi Hs Hb. destruct (BuildBlock_spec interval es Hi Hs Hb) as (l & rs & E & <- & Hsh & Hr & Hn).
  pose proof (rs_pos l rs Hr Hn) as Hp. destruct (NewIterator_image l rs Hp Hn) as (b & it & Eb & Ei & Hok & He).
  exists (block_image l rs), b, it. do 3 (split; [done|]). intros ops.
  pose proof (run_ops_refines l rs Hsh Hr Hn Hs ops it None He) as Hrun.
  destruct (cursor_ops (map entry l) None ops) as [p| |]; [|done|done].
  destruct Hrun as (it' & E' & Hp'). exists it'. split; [done|].
  exact (observe_at l rs Hsh Hn it' p Hp').
Qed.

Section BlockWitness.
#[local] Instance bytewise : Comparator := BytewiseComparator.
#[local] Instance bytewise_laws : ComparatorLaws := BytewiseComparator_laws.

Definition three_entries : list (bytes * bytes) :=
  [([x61], [x31]); ([x61; x62], [x32]); ([x62], [])].

Lemma block_iterator_refines_witness :
  exists contents b it,
    BuildBlock 2 three_entries = Ret contents /\ new_Block contents = Ret b /\
    NewIterator b = Ret (EntryIterator it) /\
    forall ops,
      match cursor_ops three_entries None ops with
      | Ret p => exists it', run_ops it ops = Ret it' /\ observe it' = Ret (j ← p; three_entries !! j) /\ status_ it' = OK
      | AssertFailed => run_ops it ops = AssertFailed
      | OutOfFuel => False
      end.
Proof.
  apply (block_iterator_refines 2 three_entries); [lia | | reflexivity].
  unfold entries_sorted, three_entries. repeat constructor.
Defined.
End BlockWitness.

(** C38: reading any bytes as a block comes to an end. Whatever the contents, the block is
    opened without a failing assertion, and no sequence of iterator operations on it can
    loop: the scans and the searches finish within the fuel that the size of the block
    gives. *)
Theorem block_any_contents_terminates `{Comparator} (contents : bytes) (ops : list iter_op) :
  zlen contents < 2 ^ 32 ->
  exists b bi, new_Block contents = Ret b /\ NewIterator b = Ret bi /\
    forall it, bi = EntryIterator it -> run_ops it ops <> OutOfFuel.
Proof.
  intros Hn. destruct (new_Block_wf contents Hn) as (b & bi & Eb & Ei & Hw).
  exists b, bi. split; [done|]. split; [done|]. intros it Hit. by apply run_ops_total, Hw.
Qed.

Lemma block_any_contents_terminates_witness :
  exists b bi, new_Block [xff; x00; x00; x00; x00; x01; x00; x00; x00] = Ret b /\
    @NewIterator b = Ret bi /\
    forall it, bi = EntryIterator it -> @run_ops BytewiseComparator it [OpFirst; OpNext] <> OutOfFuel.
Proof. apply (@block_any_contents_terminates BytewiseComparator). reflexivity. Defined.

(** One entry with a key and a value of [2^31] bytes. *)
Definition overflow_block : bytes :=
  [x00; x80; x80; x80; x80; x08; x80; x80; x80; x80; x08] ++ EncodeFixed32 0 ++ EncodeFixed32 1.

