(* ===== verification/Format.v ===== *)
(** * The format of a table file

    [format.h] and [format.c]: block handles, the footer, and reading one block with its
    trailer; [WriteRawBlock] of [table_builder.cc], which writes what [ReadBlock] reads. *)

From S2P Require Import Prelude Coding Env Crc32c Comparator.

Open Scope outcome_scope.

(** ** Block handles *)

Record BlockHandle := mkHandle { handle_offset : Z; handle_size : Z }.

#[global] Instance BlockHandle_eq_dec : EqDecision BlockHandle.
Proof. solve_decision. Defined.

Definition kMaxEncodedLength : Z := 10 + 10.

(** [~static_cast<uint64_t>(0)]: not set. *)
Definition unset : Z := u64 (Z.lnot 0).

Definition new_BlockHandle : BlockHandle := mkHandle unset unset.

Definition EncodeHandle (h : BlockHandle) (dst : bytes) : outcome bytes :=
  assert! negb (handle_offset h =? unset);
  assert! negb (handle_size h =? unset);
  Ret (PutVarint64 (PutVarint64 dst (handle_offset h)) (handle_size h)).

Definition bad_handle : Status := Corruption "bad block handle".

(** The handle, the rest of the input and the status. *)
Definition DecodeHandle (h : BlockHandle) (input : bytes) : BlockHandle * bytes * Status :=
  match GetVarint64 input with
  | Some (off, input) =>
      match GetVarint64 input with
      | Some (size, input) => (mkHandle off size, input, OK)
      | None => (mkHandle off (handle_size h), input, bad_handle)
      end
  | None => (h, input, bad_handle)
  end.

(** ** The footer *)

Record Footer := mkFooter { metaindex_handle_ : BlockHandle; index_handle_ : BlockHandle }.

Definition new_Footer : Footer := mkFooter new_BlockHandle new_BlockHandle.

Definition kEncodedLength : Z := 2 * kMaxEncodedLength + 8.
Definition kTableMagicNumber : Z := 0xdb4775248b80fb57.

(** [std::string::resize]. *)
Definition resize (s : bytes) (n : Z) : bytes :=
  ztake n s ++ replicate (Z.to_nat (n - zlen s)) x00.

Definition EncodeFooter (f : Footer) (dst : bytes) : outcome bytes :=
  let original_size := zlen dst in
  let! dst := EncodeHandle (metaindex_handle_ f) dst in
  let! dst := EncodeHandle (index_handle_ f) dst in
  let dst := resize dst (2 * kMaxEncodedLength) in
  let dst := PutFixed32 dst (u32 (Z.land kTableMagicNumber 0xffffffff)) in
  let dst := PutFixed32 dst (u32 (kTableMagicNumber ≫ 32)) in
  assert! zlen dst =? original_size + kEncodedLength;
  Ret dst.

(** The magic number is read at a fixed offset: the input must be that long. *)
Definition DecodeFooter (f : Footer) (input : bytes) : outcome (Footer * bytes * Status) :=
  assert! kEncodedLength <=? zlen input;
  let magic_ptr := zdrop (kEncodedLength - 8) input in
  let magic_lo := DecodeFixed32 magic_ptr in
  let magic_hi := DecodeFixed32 (zdrop 4 magic_ptr) in
  let magic := Z.lor (magic_hi ≪ 32) magic_lo in
  if negb (magic =? kTableMagicNumber) then
    Ret (f, input, Corruption "not an sstable (bad magic number)")
  else
    let '(meta, rest, s) := DecodeHandle (metaindex_handle_ f) input in
    if ok s then
      let '(index, rest, s) := DecodeHandle (index_handle_ f) rest in
      if ok s then Ret (mkFooter meta index, zdrop 8 magic_ptr, OK)
      else Ret (mkFooter meta index, rest, s)
    else Ret (mkFooter meta (index_handle_ f), rest, s).

(** ** Blocks in a file *)

Definition kBlockTrailerSize : Z := 5.
Definition kNoCompression : Z := 0x0.
Definition kSnappyCompression : Z := 0x1.

Record BlockContents := mkContents { bc_data : bytes; cachable : bool; heap_allocated : bool }.

(** [RandRead file offset n]: the status, the bytes, and whether they are in the buffer the
    caller passed. *)
Class RandomAccessFile (F : Type) := {
  RandRead : F -> Z -> Z -> Status * bytes * bool;
}.

Class RandomAccessFileLaws (F : Type) `{RandomAccessFile F} := {
  image : F -> bytes;
  rand_read_ok f off n d b :
    0 <= off -> 0 <= n -> RandRead f off n = (OK, d, b) -> d = ztake n (zdrop off (image f));
}.

(** The decompressor of the port layer: the length it announces, and its output. *)
Class Snappy := {
  Snappy_GetUncompressedLength : bytes -> option Z;
  Snappy_Uncompress : bytes -> option bytes;
}.

Section ReadBlock.
Context `{Crc32c} `{Snappy} {F : Type} `{RandomAccessFile F}.

Definition no_contents : BlockContents := mkContents [] false false.

Definition ReadBlock (file : F) (verify_checksums : bool) (handle : BlockHandle)
    : BlockContents * Status :=
  let n := handle_size handle in
  let '(s, contents, in_buf) := RandRead file (handle_offset handle) (u64 (n + kBlockTrailerSize)) in
  if negb (ok s) then (no_contents, s)
  else if negb (zlen contents =? u64 (n + kBlockTrailerSize)) then
    (no_contents, Corruption "truncated block read")
  else
    let data := contents in
    if verify_checksums &&
       negb (Value (ztake (n + 1) data) =? Unmask (DecodeFixed32 (zdrop (n + 1) data))) then
      (no_contents, Corruption "block checksum mismatch")
    else
      let type := schar (nth (Z.to_nat n) data x00) in
      if type =? kNoCompression then
        if negb in_buf then (mkContents (ztake n data) false false, OK)
        else (mkContents (ztake n data) true true, OK)
      else if type =? kSnappyCompression then
        match Snappy_GetUncompressedLength (ztake n data) with
        | None => (no_contents, Corruption "corrupted compressed block contents")
        | Some ulength =>
            match Snappy_Uncompress (ztake n data) with
            | None => (no_contents, Corruption "corrupted compressed block contents")
            | Some out => (mkContents (ztake ulength out) true true, OK)
            end
        end
      else (no_contents, Corruption "bad block type").

End ReadBlock.

(** ** Writing a block *)

Section WriteRawBlock.
Context `{Crc32c} {F : Type} `{WritableFile F}.

Definition block_trailer (block_contents : bytes) (type : Z) : bytes :=
  let crc := Value block_contents in
  let crc := Extend crc [z2b type] in
  z2b type :: EncodeFixed32 (Mask crc).

(** The file, the offset and the status of the table builder's [Rep], and the handle. *)
Definition WriteRawBlock (file : F) (offset : Z) (block_contents : bytes) (type : Z)
    : F * Z * Status * BlockHandle :=
  let handle := mkHandle offset (zlen block_contents) in
  let '(file, s) := Append file block_contents in
  if ok s then
    let '(file, s) := Append file (block_trailer block_contents type) in
    if ok s then (file, u64 (offset + zlen block_contents + kBlockTrailerSize), s, handle)
    else (file, offset, s, handle)
  else (file, offset, s, handle).

End WriteRawBlock.

(** ** Round trips *)

Lemma unset_eq : unset = 2 ^ 64 - 1.
Proof. reflexivity. Qed.

Definition handle_ok (h : BlockHandle) : Prop :=
  0 <= handle_offset h < 2 ^ 64 - 1 /\ 0 <= handle_size h < 2 ^ 64 - 1.

Definition handle_bytes (h : BlockHandle) : bytes :=
  EncodeVarint64 (handle_offset h) ++ EncodeVarint64 (handle_size h).

Lemma EncodeHandle_bytes h dst : handle_ok h -> EncodeHandle h dst = Ret (dst ++ handle_bytes h).
Proof.
  intros [Ho Hs]. unfold EncodeHandle. rewrite unset_eq.
  destruct (Z.eqb_spec (handle_offset h) (2 ^ 64 - 1)); [lia|].
  destruct (Z.eqb_spec (handle_size h) (2 ^ 64 - 1)); [lia|].
  simpl. unfold PutVarint64, handle_bytes. by rewrite <- app_assoc.
Qed.

Lemma DecodeHandle_bytes h h0 rest :
  handle_ok h -> DecodeHandle h0 (handle_bytes h ++ rest) = (h, rest, OK).
Proof.
  intros [Ho Hs]. unfold DecodeHandle, handle_bytes. rewrite <- app_assoc.
  rewrite GetVarint64_Encode by lia. rewrite GetVarint64_Encode by lia. by destruct h.
Qed.

Lemma zlen_handle_bytes h : handle_ok h -> 2 <= zlen (handle_bytes h) <= kMaxEncodedLength.
Proof.
  intros [Ho Hs]. unfold handle_bytes, kMaxEncodedLength. rewrite zlen_app.
  pose proof (EncodeVarint64_len (handle_offset h) 10). pose proof (EncodeVarint64_len (handle_size h) 10). lia.
Qed.

Definition footer_bytes (f : Footer) : bytes :=
  let handles := handle_bytes (metaindex_handle_ f) ++ handle_bytes (index_handle_ f) in
  handles ++ replicate (Z.to_nat (40 - zlen handles)) x00 ++
  EncodeFixed32 (u32 (Z.land kTableMagicNumber 0xffffffff)) ++ EncodeFixed32 (u32 (kTableMagicNumber ≫ 32)).

Lemma zlen_footer_bytes f :
  handle_ok (metaindex_handle_ f) -> handle_ok (index_handle_ f) -> zlen (footer_bytes f) = kEncodedLength.
Proof.
  intros Hm Hi. pose proof (zlen_handle_bytes _ Hm). pose proof (zlen_handle_bytes _ Hi).
  unfold footer_bytes, kEncodedLength, kMaxEncodedLength in *. rewrite !zlen_app, zlen_replicate, !EncodeFixed32_length. lia.
Qed.

Lemma EncodeFooter_bytes f :
  handle_ok (metaindex_handle_ f) -> handle_ok (index_handle_ f) -> EncodeFooter f [] = Ret (footer_bytes f).
Proof.
  intros Hm Hi. pose proof (zlen_handle_bytes _ Hm). pose proof (zlen_handle_bytes _ Hi).
  unfold EncodeFooter. rewrite !EncodeHandle_bytes by done. cbn [obind]. rewrite EncodeHandle_bytes by done.
  cbn [obind]. cbv zeta. set (d := PutFixed32 _ (u32 (kTableMagicNumber ≫ 32))). assert (d = footer_bytes f) as ->.
  { unfold d, resize, PutFixed32, footer_bytes, kMaxEncodedLength in *. cbn [app].
    rewrite ztake_all by (rewrite zlen_app; lia). by rewrite <- !app_assoc. }
  rewrite zlen_footer_bytes by done. done.
Qed.

Lemma DecodeFooter_bytes f f0 rest :
  handle_ok (metaindex_handle_ f) -> handle_ok (index_handle_ f) ->
  DecodeFooter f0 (footer_bytes f ++ rest) = Ret (f, rest, OK).
Proof.
  intros Hm Hi. pose proof (zlen_handle_bytes _ Hm). pose proof (zlen_handle_bytes _ Hi).
  pose proof (zlen_footer_bytes f Hm Hi) as Hl. unfold DecodeFooter. rewrite zlen_app, Hl.
  rewrite (proj2 (Z.leb_le kEncodedLength _)) by (zlen_pos; lia). cbn [obind oassert].
  assert (zdrop (kEncodedLength - 8) (footer_bytes f ++ rest) =
    EncodeFixed32 (u32 (Z.land kTableMagicNumber 0xffffffff)) ++ EncodeFixed32 (u32 (kTableMagicNumber ≫ 32)) ++ rest) as ->.
  { unfold footer_bytes. rewrite <- !app_assoc, app_assoc, (app_assoc _ (replicate _ _)).
    apply zdrop_app_len. unfold kEncodedLength, kMaxEncodedLength in *.
    rewrite !zlen_app, zlen_replicate. lia. }
  rewrite (zdrop_app_len 4) by done. rewrite !DecodeFixed32_Encode.
  change (Z.lor _ _ =? kTableMagicNumber) with true. cbn [negb].
  unfold footer_bytes. rewrite <- !app_assoc, DecodeHandle_bytes by done. cbn [ok].
  rewrite DecodeHandle_bytes by done. cbn [ok]. destruct f as [m i]. simpl. do 3 f_equal.
Qed.

(** ** Reading a block back *)

Section BlockProofs.
Context `{Crc32c} `{Snappy} {W : Type} `{WritableFileLaws W} {R : Type} `{RandomAccessFileLaws R}.

Lemma zlen_block_trailer d t : zlen (block_trailer d t) = kBlockTrailerSize.
Proof. reflexivity. Qed.

Lemma WriteRawBlock_ok (file : W) offset d t file' offset' handle :
  WriteRawBlock file offset d t = (file', offset', OK, handle) ->
  contents file' = contents file ++ d ++ block_trailer d t /\ handle = mkHandle offset (zlen d) /\
  offset' = u64 (offset + zlen d + kBlockTrailerSize).
Proof.
  unfold WriteRawBlock. destruct (Append file d) as [f1 s1] eqn:E1. destruct (ok s1) eqn:O1.
  - destruct (Append f1 (block_trailer d t)) as [f2 s2] eqn:E2. destruct (ok s2) eqn:O2.
    + intros [= <- <- -> <-]. apply ok_true in O1 as ->.
      apply append_ok in E1 as (_ & _ & E1). apply append_ok in E2 as (_ & _ & E2).
      split_and!; [|done|done]. by rewrite E2, E1, <- app_assoc.
    + intros [= <- <- -> <-]. done.
  - intros [= <- <- -> <-]. done.
Qed.

(** The checksum the writer stores is the one the reader computes. *)
Lemma trailer_checksum d t :
  Value (d ++ [z2b t]) = Unmask (DecodeFixed32 (EncodeFixed32 (Mask (Extend (Value d) [z2b t])))).
Proof.
  rewrite <- (app_nil_r (EncodeFixed32 _)), DecodeFixed32_Encode. unfold Value.
  rewrite u32_small by apply Mask_range. rewrite Extend_app by lia.
  rewrite Unmask_Mask; [done|]. apply Extend_range. lia.
Qed.

(** A block that stands in the file is read, whatever [verify_checksums] is. *)
Lemma ReadBlock_image (file : R) verify pre d post :
  zlen pre + zlen d + kBlockTrailerSize < 2 ^ 64 ->
  image file = pre ++ d ++ block_trailer d kNoCompression ++ post ->
  (exists x b, RandRead file (zlen pre) (zlen d + kBlockTrailerSize) = (OK, x, b)) ->
  exists r, ReadBlock file verify (mkHandle (zlen pre) (zlen d)) = (r, OK) /\ bc_data r = d.
Proof.
  intros Hn Himg (x & b & E). unfold ReadBlock. cbn [handle_size handle_offset]. zlen_pos.
  unfold kBlockTrailerSize in *. rewrite u64_small, E by lia. cbn [ok negb].
  apply rand_read_ok in E; [|lia|lia]. rewrite Himg, zdrop_app_len in E by done.
  assert (x = d ++ block_trailer d kNoCompression) as ->.
  { rewrite E, app_assoc. apply ztake_app_len. rewrite zlen_app, zlen_block_trailer. done. }
  rewrite zlen_app, zlen_block_trailer, Z.eqb_refl. cbn [negb]. cbv zeta.
  assert (d ++ block_trailer d kNoCompression =
    (d ++ [z2b kNoCompression]) ++ EncodeFixed32 (Mask (Extend (Value d) [z2b kNoCompression]))) as Hd.
  { unfold block_trailer. by rewrite <- app_assoc. }
  assert (Value (ztake (zlen d + 1) (d ++ block_trailer d kNoCompression)) =
    Unmask (DecodeFixed32 (zdrop (zlen d + 1) (d ++ block_trailer d kNoCompression)))) as Hv.
  { rewrite Hd, ztake_app_len, zdrop_app_len by (rewrite zlen_app; done). apply trailer_checksum. }
  rewrite Hv, Z.eqb_refl, andb_false_r.
  unfold block_trailer. rewrite nth_app_len. change (schar (z2b kNoCompression) =? kNoCompression) with true.
  cbn iota. rewrite ztake_app_len by done. destruct b; eexists; split; done.
Qed.

(** With checksums on, OK means that the stored checksum is the one of the bytes read. *)
Lemma ReadBlock_checked (file : R) handle r :
  0 <= handle_offset handle -> 0 <= handle_size handle -> handle_size handle + kBlockTrailerSize < 2 ^ 64 ->
  ReadBlock file true handle = (r, OK) ->
  exists d t post, zdrop (handle_offset handle) (image file) = d ++ block_trailer d (b2z t) ++ post /\
    zlen d = handle_size handle /\
    (bc_data r = d /\ b2z t = kNoCompression \/
     b2z t = kSnappyCompression /\ exists ulength out,
       Snappy_GetUncompressedLength d = Some ulength /\ Snappy_Uncompress d = Some out /\ bc_data r = ztake ulength out).
Proof.
  intros Ho Hs Hn. unfold ReadBlock. unfold kBlockTrailerSize in *. rewrite u64_small by lia.
  set (n := handle_size handle) in *.
  destruct (RandRead file (handle_offset handle) (n + 5)) as [[s x] b] eqn:E.
  destruct (ok s) eqn:Os; cbn [negb]; [|by intros [= <- ->]]. apply ok_true in Os as ->.
  destruct (Z.eqb_spec (zlen x) (n + 5)) as [Hx|]; cbn [negb]; [|done]. cbn [andb].
  destruct (Z.eqb_spec (Value (ztake (n + 1) x)) (Unmask (DecodeFixed32 (zdrop (n + 1) x)))) as [Hc|]; cbn [negb]; [|done].
  apply rand_read_ok in E; [|lia|lia].
  set (t := nth (Z.to_nat n) x x00). set (d := ztake n x).
  assert (zlen d = n) as Hd by (unfold d; zlen_lia).
  assert (ztake (n + 1) x = d ++ [t]) as Hdt.
  { rewrite <- (ztake_zdrop n x) at 1. fold d. rewrite (zdrop_cons n x x00) by lia. fold t.
    change (t :: zdrop (n + 1) x) with ([t] ++ zdrop (n + 1) x). rewrite app_assoc.
    apply ztake_app_len. rewrite zlen_app. change (zlen [t]) with 1. lia. }
  assert (x = d ++ block_trailer d (b2z t)) as Hxx.
  { rewrite <- (ztake_zdrop (n + 1) x), Hdt. unfold block_trailer. rewrite <- app_assoc. f_equal. cbn [app].
    rewrite z2b_b2z. f_equal. unfold Value in *. rewrite Extend_app, <- Hdt, Hc by lia.
    rewrite Mask_Unmask, EncodeFixed32_Decode; [| |apply DecodeFixed32_range].
    - symmetry. apply ztake_all. zlen_lia.
    - zlen_lia. }
  assert (zdrop (handle_offset handle) (image file) =
    d ++ block_trailer d (b2z t) ++ zdrop (n + 5) (zdrop (handle_offset handle) (image file))) as Hfile.
  { rewrite app_assoc, <- Hxx, E. by rewrite ztake_zdrop. }
  assert (forall c, 0 <= c < 128 -> schar t = c -> b2z t = c) as Hsc.
  { intros c Hcr. unfold schar. pose proof (b2z_range t). destruct (Z.ltb_spec (b2z t) 128); lia. }
  destruct (Z.eqb_spec (schar t) kNoCompression) as [Ht|Ht].
  { intros E'. exists d, t, (zdrop (n + 5) (zdrop (handle_offset handle) (image file))).
    split_and!; [done | done |]. left. split; [by destruct b; injection E' as <-|]. by apply Hsc. }
  destruct (Z.eqb_spec (schar t) kSnappyCompression) as [Ht'|]; [|done].
  destruct (Snappy_GetUncompressedLength d) as [u|] eqn:Eu; [|done].
  destruct (Snappy_Uncompress d) as [out|] eqn:Eo; [|done]. intros [= <-].
  exists d, t, (zdrop (n + 5) (zdrop (handle_offset handle) (image file))).
  split_and!; [done | done |]. right. split; [by apply Hsc|]. eauto.
Qed.

(** ** The properties *)

(** A block written by the table builder is read back. When [WriteRawBlock] at the end
    of a file returns OK, then from every file with those contents that answers the read,
    [ReadBlock] with the handle it returned gives the same bytes, with or without
    checksums. *)
Theorem block_write_read (file file' : W) (d : bytes) (offset' : Z) handle (g : R) verify rest :
  WriteRawBlock file (zlen (contents file)) d kNoCompression = (file', offset', OK, handle) ->
  zlen (contents file') < 2 ^ 64 -> image g = contents file' ++ rest ->
  (exists x b, RandRead g (zlen (contents file)) (zlen d + kBlockTrailerSize) = (OK, x, b)) ->
  offset' = zlen (contents file') /\
  exists r, ReadBlock g verify handle = (r, OK) /\ bc_data r = d.
Proof.
  intros E Hn Himg Hread. apply WriteRawBlock_ok in E as (Hc & -> & ->).
  rewrite Hc, !zlen_app, zlen_block_trailer in *. zlen_pos. unfold kBlockTrailerSize in *. split.
  - rewrite u64_small by lia. lia.
  - apply (ReadBlock_image g verify (contents file) d rest); [unfold kBlockTrailerSize; lia | | done].
    rewrite Himg. by rewrite <- !app_assoc.
Qed.

(** A checked read is an intact read. Whatever bytes a file holds, when [ReadBlock]
    with checksums on returns OK, the file has at the handle's offset a block of the
    handle's size followed by exactly the trailer the table builder writes for it, and the
    result is that block, or what the decompressor makes of it. *)
Theorem block_checked_read_intact (file : R) (handle : BlockHandle) (r : BlockContents) :
  0 <= handle_offset handle -> 0 <= handle_size handle -> handle_size handle + kBlockTrailerSize < 2 ^ 64 ->
  ReadBlock file true handle = (r, OK) ->
  exists d t post, zdrop (handle_offset handle) (image file) = d ++ block_trailer d (b2z t) ++ post /\
    zlen d = handle_size handle /\
    (bc_data r = d /\ b2z t = kNoCompression \/
     b2z t = kSnappyCompression /\ exists ulength out,
       Snappy_GetUncompressedLength d = Some ulength /\ Snappy_Uncompress d = Some out /\ bc_data r = ztake ulength out).
Proof. apply ReadBlock_checked. Qed.

End BlockProofs.

(** The footer round trips. With both handles set, the encoding of a footer into an
    empty string has exactly 48 bytes and decodes to the same handles, leaving what
    follows it. *)
Theorem footer_roundtrip (f f0 : Footer) (rest : bytes) :
  handle_ok (metaindex_handle_ f) -> handle_ok (index_handle_ f) ->
  exists b, EncodeFooter f [] = Ret b /\ zlen b = 48 /\ DecodeFooter f0 (b ++ rest) = Ret (f, rest, OK).
Proof.
  intros Hm Hi. exists (footer_bytes f). split_and!; [by apply EncodeFooter_bytes | by apply zlen_footer_bytes |].
  by apply DecodeFooter_bytes.
Qed.

Lemma footer_roundtrip_witness :
  exists b, EncodeFooter (mkFooter (mkHandle 1000 77) (mkHandle 300000 4096)) [] = Ret b /\ zlen b = 48 /\
    DecodeFooter new_Footer (b ++ [x01]) = Ret (mkFooter (mkHandle 1000 77) (mkHandle 300000 4096), [x01], OK).
Proof. apply footer_roundtrip; unfold handle_ok; simpl; lia. Defined.

(** ** Witnesses: an in-memory file *)

Section Witnesses.
#[local] Instance portable : Crc32c := Crc32c_portable 0.

#[local] Instance no_snappy : Snappy := {
  Snappy_GetUncompressedLength _ := None;
  Snappy_Uncompress _ := None;
}.

#[local] Instance bytes_random : RandomAccessFile bytes := {
  RandRead f off n := (OK, ztake n (zdrop off f), true);
}.

#[local, refine] Instance bytes_random_laws : RandomAccessFileLaws bytes := { image f := f }.
Proof. intros f off n d b _ _ [= <- <-]. done. Defined.

Definition disk : MemFile := mkMemFile [x55; x66] 100 false.

Definition written : MemFile := fst (fst (fst (WriteRawBlock disk 2 [x01; x02; x03] kNoCompression))).

Lemma block_write_read_witness :
  10 = zlen (contents written) /\
  exists r, ReadBlock (contents written) true (mkHandle 2 3) = (r, OK) /\ bc_data r = [x01; x02; x03].
Proof.
  apply (block_write_read (R := bytes) disk written [x01; x02; x03] 10 (mkHandle 2 3) (contents written) true []).
  - vm_compute. reflexivity.
  - vm_compute. reflexivity.
  - vm_compute. reflexivity.
  - eexists _, _. reflexivity.
Defined.

Lemma block_checked_read_intact_witness :
  exists d t post, zdrop 2 (contents written) = d ++ block_trailer d (b2z t) ++ post /\ zlen d = 3 /\
    ([x01; x02; x03] = d /\ b2z t = kNoCompression \/
     b2z t = kSnappyCompression /\ exists ulength out,
       Snappy_GetUncompressedLength d = Some ulength /\ Snappy_Uncompress d = Some out /\
       [x01; x02; x03] = ztake ulength out).
Proof.
  refine (block_checked_read_intact (R := bytes) (contents written) (mkHandle 2 3)
    (mkContents [x01; x02; x03] true true) _ _ _ _).
  - discriminate.
  - discriminate.
  - reflexivity.
  - vm_compute. reflexivity.
Defined.
End Witnesses.

(** [EncodeTo] of a footer resizes the whole string: appending to a string that is not
    empty fails its assertion. *)
Lemma footer_append_fails :
  EncodeFooter (mkFooter (mkHandle 1 2) (mkHandle 3 4)) [x00] = AssertFailed.
Proof. reflexivity. Qed.
