(* ===== verification/Filter.v ===== *)
(** * Filters

    The hash function [hash.cc], the [FilterPolicy] interface of [filter_policy.h] with the
    one law its clients rely on (a filter never denies a key it was made from), the bloom
    filter [bloom.c] as an instance, and the wrapper of [dbformat.c] that strips internal
    keys. *)

From S2P Require Import Prelude Coding Comparator DbFormat.

(** ** The hash function *)

Definition hash_m : Z := 0xc6a4a793.

(** [while (data + 4 <= limit)]; the bytes that remain are returned with the hash. *)
Fixpoint hash_loop (fuel : nat) (data : bytes) (h : Z) : Z * bytes :=
  match fuel with
  | O => (h, data)
  | S fuel =>
      if 4 <=? zlen data then
        let w := DecodeFixed32 data in
        let h := u32 (h + w) in
        let h := u32 (h * hash_m) in
        let h := Z.lxor h (h ≫ 16) in
        hash_loop fuel (zdrop 4 data) h
      else (h, data)
  end.

(** The [switch] on the bytes left, with its fall-through. *)
Definition hash_tail (data : bytes) (h : Z) : Z :=
  let n := zlen data in
  let h := if n =? 3 then u32 (h + (byte_at data 2 ≪ 16)) else h in
  let h := if (n =? 3) || (n =? 2) then u32 (h + (byte_at data 1 ≪ 8)) else h in
  if (n =? 3) || (n =? 2) || (n =? 1) then
    let h := u32 (h + byte_at data 0) in
    let h := u32 (h * hash_m) in
    Z.lxor h (h ≫ 24)
  else h.

Definition Hash (data : bytes) (seed : Z) : Z :=
  let h := u32 (Z.lxor seed (zlen data * hash_m)) in
  let '(h, rest) := hash_loop (length data) data h in
  hash_tail rest h.

(** ** The interface *)

(** [CreateFilter keys dst] returns the new value of [*dst]. *)
Class FilterPolicy := {
  CreateFilter : list bytes -> bytes -> bytes;
  KeyMayMatch : bytes -> bytes -> bool;
}.

Class FilterPolicyLaws `{FilterPolicy} := {
  create_appends keys dst : CreateFilter keys dst = dst ++ CreateFilter keys [];
  create_matches keys key :
    zlen keys < 2 ^ 31 -> key ∈ keys -> KeyMayMatch key (CreateFilter keys []) = true;
}.

(** ** The bloom filter *)

Definition BloomHash (key : bytes) : Z := Hash key 0xbc9f1d34.

Record BloomFilterPolicy := mkBloom { bits_per_key_ : Z; k_ : Z }.

(** [bits_per_key * 0.69] rounded towards zero: for every non-negative integer the product
    of doubles and the exact product agree on the integer part below 31, and above that
    both are cut to 30. *)
Definition new_BloomFilterPolicy (bits_per_key : Z) : BloomFilterPolicy :=
  let k := bits_per_key * 69 / 100 in
  let k := if k <? 1 then 1 else k in
  let k := if 30 <? k then 30 else k in
  mkBloom bits_per_key k.

Definition bloom_delta (h : Z) : Z := Z.lor (h ≫ 17) (u32 (h ≪ 15)).

Definition get_byte (array : bytes) (i : Z) : byte := nth (Z.to_nat i) array x00.

(** [array[bitpos / 8] |= (1 << (bitpos % 8))]. *)
Definition set_bit (array : bytes) (bitpos : Z) : bytes :=
  <[Z.to_nat (bitpos / 8) :=
      z2b (Z.lor (b2z (get_byte array (bitpos / 8))) (1 ≪ (bitpos mod 8)))]> array.

Fixpoint set_probes (j : nat) (bits h delta : Z) (array : bytes) : bytes :=
  match j with
  | O => array
  | S j => set_probes j bits (u32 (h + delta)) delta (set_bit array (h mod bits))
  end.

Fixpoint add_keys (k bits : Z) (keys : list bytes) (array : bytes) : bytes :=
  match keys with
  | [] => array
  | key :: keys =>
      let h := BloomHash key in
      add_keys k bits keys (set_probes (Z.to_nat k) bits h (bloom_delta h) array)
  end.

Definition bloom_CreateFilter (p : BloomFilterPolicy) (keys : list bytes) (dst : bytes) : bytes :=
  let bits := u64 (zlen keys * bits_per_key_ p) in
  let bits := if bits <? 64 then 64 else bits in
  let nbytes := u64 (bits + 7) / 8 in
  let bits := nbytes * 8 in
  let array := add_keys (k_ p) bits keys (replicate (Z.to_nat nbytes) x00) in
  dst ++ array ++ [z2b (k_ p)].

Fixpoint check_probes (j : nat) (bits h delta : Z) (array : bytes) : bool :=
  match j with
  | O => true
  | S j =>
      let bitpos := h mod bits in
      if Z.land (b2z (get_byte array (bitpos / 8))) (1 ≪ (bitpos mod 8)) =? 0 then false
      else check_probes j bits (u32 (h + delta)) delta array
  end.

Definition bloom_KeyMayMatch (key filter : bytes) : bool :=
  let len := zlen filter in
  if len <? 2 then false
  else
    let bits := (len - 1) * 8 in
    let k := u64 (schar (get_byte filter (len - 1))) in
    if 30 <? k then true
    else
      let h := BloomHash key in
      check_probes (Z.to_nat k) bits h (bloom_delta h) filter.

Definition NewBloomFilterPolicy (bits_per_key : Z) : FilterPolicy := {|
  CreateFilter := bloom_CreateFilter (new_BloomFilterPolicy bits_per_key);
  KeyMayMatch := bloom_KeyMayMatch;
|}.

(** ** The wrapper for internal keys

    [CreateFilter] overwrites the slices of its argument with the user keys; the only
    caller drops them right after. *)
Definition InternalFilterPolicy (user_policy : FilterPolicy) : FilterPolicy := {|
  CreateFilter keys dst := @CreateFilter user_policy (map ExtractUserKey keys) dst;
  KeyMayMatch key f := @KeyMayMatch user_policy (ExtractUserKey key) f;
|}.

(** ** No false negatives *)

(** [bit_set array i]: bit [i] of the array is one. *)
Definition bit_set (array : bytes) (i : Z) : Prop :=
  Z.testbit (b2z (get_byte array (i / 8))) (i mod 8) = true.

Lemma get_byte_insert array i j b :
  0 <= i < zlen array -> 0 <= j < zlen array ->
  get_byte (<[Z.to_nat i := b]> array) j = if i =? j then b else get_byte array j.
Proof.
  intros Hi Hj. unfold get_byte, zlen in *. rewrite !nth_lookup.
  destruct (Z.eqb_spec i j) as [->|Hne].
  - by rewrite list_lookup_insert_eq by lia.
  - by rewrite list_lookup_insert_ne by lia.
Qed.

Lemma set_bit_length array p : zlen (set_bit array p) = zlen array.
Proof. unfold set_bit, zlen. by rewrite length_insert. Qed.

Lemma pos_in_range bits p : 0 < bits -> 0 <= p < bits -> bits mod 8 = 0 ->
  0 <= p / 8 < bits / 8 /\ 0 <= p mod 8 < 8.
Proof. intros. zdiv_lia. Qed.

Lemma one_shift_lor b k : 0 <= k < 8 -> 0 <= Z.lor (b2z b) (1 ≪ k) < 2 ^ 8.
Proof.
  intros Hk. apply lor_range; [lia | apply b2z_range |]. rewrite Z.shiftl_1_l.
  split; [apply Z.pow_nonneg; lia | apply Z.pow_lt_mono_r; lia].
Qed.

Lemma bit_set_iff array bits p q :
  zlen array = bits / 8 -> bits mod 8 = 0 -> 0 <= p < bits -> 0 <= q < bits ->
  bit_set (set_bit array p) q <-> p = q \/ bit_set array q.
Proof.
  intros Hl Hb Hp Hq. unfold bit_set, set_bit.
  destruct (pos_in_range bits p) as [Hp8 Hp7]; [lia | done | done |].
  destruct (pos_in_range bits q) as [Hq8 Hq7]; [lia | done | done |].
  rewrite get_byte_insert by lia. destruct (Z.eqb_spec (p / 8) (q / 8)) as [E|E].
  - rewrite b2z_z2b_small by (change 256 with (2 ^ 8); by apply one_shift_lor).
    rewrite Z.lor_spec, orb_true_iff, E, Z.shiftl_1_l, Z.pow2_bits_eqb by lia.
    rewrite Z.eqb_eq. assert (p mod 8 = q mod 8 <-> p = q) as Hpq by zdiv_lia. tauto.
  - split; [by right|]. intros [->|]; done.
Qed.

(** Setting a bit clears none. *)
Lemma set_probes_spec j bits h delta array :
  zlen array = bits / 8 -> bits mod 8 = 0 -> 0 < bits ->
  zlen (set_probes j bits h delta array) = zlen array /\
  (forall q, 0 <= q < bits -> bit_set array q -> bit_set (set_probes j bits h delta array) q) /\
  forall array', (forall q, 0 <= q < bits -> bit_set (set_probes j bits h delta array) q -> bit_set array' q) ->
    check_probes j bits h delta array' = true.
Proof.
  revert h array. induction j as [|j IH]; intros h array Hl Hb Hpos; cbn [set_probes check_probes].
  { split_and!; [done | done | done]. }
  assert (0 <= h mod bits < bits) as Hr by (apply Z.mod_pos_bound; lia).
  destruct (IH (u32 (h + delta)) (set_bit array (h mod bits))) as (Hl1 & Hk1 & Hc1);
    [by rewrite set_bit_length | done | done |].
  split_and!.
  - by rewrite Hl1, set_bit_length.
  - intros q Hq Hs. apply Hk1; [done|]. by apply (bit_set_iff array bits); [done..|right].
  - intros array' Ha'. rewrite Hc1 by done.
    assert (bit_set array' (h mod bits)) as Hs.
    { apply Ha'; [done|]. apply Hk1; [done|]. apply (bit_set_iff array bits); [done..|by left]. }
    unfold bit_set in Hs.
    match goal with |- context [?x =? 0] => destruct (Z.eqb_spec x 0) as [E|]; [|done] end.
    assert (Z.testbit (Z.land (b2z (get_byte array' (h mod bits / 8))) (1 ≪ (h mod bits mod 8))) (h mod bits mod 8)
      = false) as Hf by (rewrite E; apply Z.bits_0).
    rewrite Z.land_spec, Hs, Z.shiftl_1_l, Z.pow2_bits_true in Hf; [done|].
    pose proof (Z.mod_pos_bound (h mod bits) 8). lia.
Qed.

Lemma add_keys_spec k bits keys array :
  zlen array = bits / 8 -> bits mod 8 = 0 -> 0 < bits ->
  zlen (add_keys k bits keys array) = zlen array /\
  (forall q, 0 <= q < bits -> bit_set array q -> bit_set (add_keys k bits keys array) q) /\
  forall key array', key ∈ keys ->
    (forall q, 0 <= q < bits -> bit_set (add_keys k bits keys array) q -> bit_set array' q) ->
    check_probes (Z.to_nat k) bits (BloomHash key) (bloom_delta (BloomHash key)) array' = true.
Proof.
  revert array. induction keys as [|x keys IH]; intros array Hl Hb Hpos; cbn [add_keys].
  { split_and!; [done | done |]. by intros key array' ?%elem_of_nil. }
  set (h := BloomHash x).
  destruct (set_probes_spec (Z.to_nat k) bits h (bloom_delta h) array Hl Hb Hpos) as (Hl1 & Hk1 & Hc1).
  destruct (IH (set_probes (Z.to_nat k) bits h (bloom_delta h) array)) as (Hl2 & Hk2 & Hc2);
    [by rewrite Hl1 | done | done |].
  split_and!.
  - by rewrite Hl2.
  - auto.
  - intros key array' Hin Ha'. apply elem_of_cons in Hin as [->|Hin]; [|by apply Hc2].
    apply Hc1. auto.
Qed.

Lemma get_byte_app array t i : 0 <= i < zlen array -> get_byte (array ++ t) i = get_byte array i.
Proof. intros Hi. unfold get_byte, zlen in *. by rewrite app_nth1 by lia. Qed.

Lemma check_probes_app j bits h delta array t :
  zlen array = bits / 8 -> bits mod 8 = 0 -> 0 < bits ->
  check_probes j bits h delta (array ++ t) = check_probes j bits h delta array.
Proof.
  intros Hl Hb Hpos. revert h. induction j as [|j IH]; intros h; [done|]. cbn [check_probes].
  assert (0 <= h mod bits < bits) as Hr by (apply Z.mod_pos_bound; lia).
  destruct (pos_in_range bits (h mod bits)) as [Hp8 _]; [lia | done | done |].
  rewrite get_byte_app by lia. by rewrite IH.
Qed.

Lemma bloom_k_range n : 1 <= k_ (new_BloomFilterPolicy n) <= 30.
Proof.
  unfold new_BloomFilterPolicy. simpl. destruct (Z.ltb_spec (n * 69 / 100) 1); simpl; [lia|].
  destruct (Z.ltb_spec 30 (n * 69 / 100)); lia.
Qed.

Lemma bloom_matches n keys key :
  0 <= n < 2 ^ 31 -> zlen keys < 2 ^ 31 -> key ∈ keys ->
  bloom_KeyMayMatch key (bloom_CreateFilter (new_BloomFilterPolicy n) keys []) = true.
Proof.
  intros Hn Hk Hin. pose proof (bloom_k_range n) as Hkr. unfold bloom_CreateFilter.
  change (bits_per_key_ (new_BloomFilterPolicy n)) with n. set (k := k_ _) in *.
  assert (0 <= zlen keys * n < 2 ^ 62) as Hb0 by (zlen_pos; nia). rewrite (u64_small (zlen keys * n)) by lia.
  set (bits0 := if zlen keys * n <? 64 then 64 else zlen keys * n).
  assert (64 <= bits0 < 2 ^ 62 + 64) as Hbits by (unfold bits0; destruct (Z.ltb_spec (zlen keys * n) 64); lia).
  clearbody bits0. rewrite u64_small by lia. set (nbytes := (bits0 + 7) / 8).
  assert (8 <= nbytes) by (unfold nbytes; zdiv_lia). clearbody nbytes.
  set (array := add_keys k (nbytes * 8) keys _). cbn [app].
  destruct (add_keys_spec k (nbytes * 8) keys (replicate (Z.to_nat nbytes) x00)) as (Hl & _ & Hc).
  { rewrite zlen_replicate, Z.div_mul by lia. lia. }
  { apply Z.mod_mul. lia. }
  { lia. }
  fold array in Hl, Hc. rewrite zlen_replicate, Z2Nat.id in Hl by lia.
  unfold bloom_KeyMayMatch. rewrite zlen_app. change (zlen [z2b k]) with 1. rewrite Hl.
  destruct (Z.ltb_spec (nbytes + 1) 2); [lia|]. replace (nbytes + 1 - 1) with nbytes by lia.
  assert (get_byte (array ++ [z2b k]) nbytes = z2b k) as ->.
  { unfold get_byte. rewrite <- Hl. apply (nth_app_len array (z2b k) []). }
  assert (u64 (schar (z2b k)) = k) as ->.
  { unfold schar. rewrite b2z_z2b_small by lia. destruct (Z.ltb_spec k 128); [|lia]. apply u64_small. lia. }
  destruct (Z.ltb_spec 30 k); [done|]. rewrite check_probes_app.
  - by apply Hc.
  - rewrite Hl, Z.div_mul; lia.
  - apply Z.mod_mul. lia.
  - lia.
Qed.

#[local, refine] Instance bloom_laws n (Hn : 0 <= n < 2 ^ 31) : @FilterPolicyLaws (NewBloomFilterPolicy n) := {}.
Proof.
  - intros keys dst. done.
  - intros keys key Hk Hin. by apply bloom_matches.
Defined.

Section InternalFilter.
Context {user_policy : FilterPolicy} {Huser : FilterPolicyLaws}.

#[local, refine] Instance InternalFilterPolicy_laws : @FilterPolicyLaws (InternalFilterPolicy user_policy) := {}.
Proof.
  - intros keys dst. simpl. apply create_appends.
  - intros keys key Hk Hin. simpl. apply create_matches; [unfold zlen in *; by rewrite length_map|].
    by apply list_elem_of_fmap_2.
Defined.
End InternalFilter.

(** ** The properties *)

(** A bloom filter has no false negatives. For every number of bits per key and every
    list of keys, the filter made from the keys answers "maybe" for each of them. *)
Theorem bloom_no_false_negatives (bits_per_key : Z) (keys : list bytes) (key : bytes) :
  0 <= bits_per_key < 2 ^ 31 -> zlen keys < 2 ^ 31 -> key ∈ keys ->
  bloom_KeyMayMatch key (bloom_CreateFilter (new_BloomFilterPolicy bits_per_key) keys []) = true.
Proof. apply bloom_matches. Qed.

Lemma bloom_no_false_negatives_witness :
  bloom_KeyMayMatch [x61; x62] (bloom_CreateFilter (new_BloomFilterPolicy 10) [[x01]; [x61; x62]] []) = true.
Proof.
  apply bloom_no_false_negatives; [lia | reflexivity |]. right. left.
Defined.
