(* ===== verification/FilterBlock.v ===== *)
(** * The filter block of a table

    [filter_block.h] and [filter_block.c]: one filter for every 2 KB of the file, the array
    of their offsets, and the reader that finds the filter of a block. *)

From S2P Require Import Prelude Coding Comparator DbFormat Filter.

Open Scope outcome_scope.

Definition kFilterBaseLg : Z := 11.
Definition kFilterBase : Z := 1 ≪ kFilterBaseLg.

(** ** The builder *)

Section FilterBlock.
Context `{FilterPolicy}.

(** [tmp_keys_] is empty between calls. *)
Record FilterBlockBuilder := mkFilterBuilder {
  keys_ : bytes;
  start_ : list Z;
  result_ : bytes;
  filter_offsets_ : list Z;
}.

Definition new_FilterBlockBuilder : FilterBlockBuilder := mkFilterBuilder [] [] [] [].

(** The keys again, from the flattened form: [starts] has one element more than there are
    keys. *)
Fixpoint tmp_keys (keys : bytes) (starts : list Z) : list bytes :=
  match starts with
  | a :: ((b :: _) as rest) => ztake (b - a) (zdrop a keys) :: tmp_keys keys rest
  | _ => []
  end.

Definition GenerateFilter (f : FilterBlockBuilder) : FilterBlockBuilder :=
  let num_keys := zlen (start_ f) in
  if num_keys =? 0 then
    mkFilterBuilder (keys_ f) (start_ f) (result_ f) (filter_offsets_ f ++ [u32 (zlen (result_ f))])
  else
    let starts := start_ f ++ [zlen (keys_ f)] in
    let offsets := filter_offsets_ f ++ [u32 (zlen (result_ f))] in
    let result := CreateFilter (tmp_keys (keys_ f) starts) (result_ f) in
    mkFilterBuilder [] [] result offsets.

(** [while (filter_index > filter_offsets_.size())]. *)
Fixpoint generate_until (fuel : nat) (f : FilterBlockBuilder) (filter_index : Z)
    : outcome FilterBlockBuilder :=
  match fuel with
  | O => OutOfFuel
  | S fuel =>
      if zlen (filter_offsets_ f) <? filter_index
      then generate_until fuel (GenerateFilter f) filter_index
      else Ret f
  end.

Definition StartBlock (f : FilterBlockBuilder) (block_offset : Z) : outcome FilterBlockBuilder :=
  let filter_index := block_offset / kFilterBase in
  assert! zlen (filter_offsets_ f) <=? filter_index;
  generate_until (S (Z.to_nat (filter_index - zlen (filter_offsets_ f)))) f filter_index.

Definition AddKey (f : FilterBlockBuilder) (key : bytes) : FilterBlockBuilder :=
  mkFilterBuilder (keys_ f ++ key) (start_ f ++ [zlen (keys_ f)]) (result_ f) (filter_offsets_ f).

Fixpoint PutOffsets (dst : bytes) (l : list Z) : bytes :=
  match l with
  | [] => dst
  | x :: l => PutOffsets (PutFixed32 dst x) l
  end.

Definition Finish (f : FilterBlockBuilder) : bytes :=
  let f := if negb (zlen (start_ f) =? 0) then GenerateFilter f else f in
  let array_offset := u32 (zlen (result_ f)) in
  let result := PutOffsets (result_ f) (filter_offsets_ f) in
  PutFixed32 result array_offset ++ [z2b kFilterBaseLg].

(** ** The reader *)

(** [data_] and [offset_] as the contents and an offset into them; [num_] is zero when the
    contents were refused, and neither is used then. *)
Record FilterBlockReader := mkFilterReader {
  fr_data : bytes;
  fr_offset : Z;
  num_ : Z;
  base_lg_ : Z;
}.

Definition new_FilterBlockReader (contents : bytes) : FilterBlockReader :=
  let n := zlen contents in
  if n <? 5 then mkFilterReader [] 0 0 0
  else
    let base_lg := u64 (schar (get_byte contents (n - 1))) in
    let last_word := DecodeFixed32 (zdrop (n - 5) contents) in
    if n - 5 <? last_word then mkFilterReader [] 0 0 base_lg
    else mkFilterReader contents last_word ((n - 5 - last_word) / 4) base_lg.

(** A shift by 64 or more is not defined: [base_lg_] is checked here. *)
Definition reader_KeyMayMatch (r : FilterBlockReader) (block_offset : Z) (key : bytes) : outcome bool :=
  assert! base_lg_ r <? 64;
  let index := block_offset ≫ base_lg_ r in
  if index <? num_ r then
    let start := DecodeFixed32 (zdrop (fr_offset r + index * 4) (fr_data r)) in
    let limit := DecodeFixed32 (zdrop (fr_offset r + index * 4 + 4) (fr_data r)) in
    if (start <=? limit) && (limit <=? fr_offset r) then
      Ret (KeyMayMatch key (ztake (limit - start) (zdrop start (fr_data r))))
    else if start =? limit then Ret false
    else Ret true
  else Ret true.

(** ** A client

    What the table builder does: for each data block its offset, then its keys. *)
Fixpoint add_all (f : FilterBlockBuilder) (keys : list bytes) : FilterBlockBuilder :=
  match keys with
  | [] => f
  | k :: keys => add_all (AddKey f k) keys
  end.

Fixpoint add_blocks (f : FilterBlockBuilder) (blocks : list (Z * list bytes)) : outcome FilterBlockBuilder :=
  match blocks with
  | [] => Ret f
  | (off, keys) :: blocks =>
      let! f := StartBlock f off in
      add_blocks (add_all f keys) blocks
  end.

Definition BuildFilterBlock (blocks : list (Z * list bytes)) : outcome bytes :=
  let! f := add_blocks new_FilterBlockBuilder blocks in
  Ret (Finish f).

End FilterBlock.

(** ** What the builder holds *)

(** The flattened form of a list of keys. *)
Fixpoint starts_from (at_ : Z) (ks : list bytes) : list Z :=
  match ks with
  | [] => []
  | k :: ks => at_ :: starts_from (at_ + zlen k) ks
  end.

Lemma starts_from_snoc ks at_ k :
  starts_from at_ (ks ++ [k]) = starts_from at_ ks ++ [at_ + zlen (concat ks)].
Proof.
  revert at_. induction ks as [|x ks IH]; intros at_; cbn [starts_from app concat].
  - change (@zlen byte []) with 0. f_equal. lia.
  - rewrite IH, zlen_app. do 2 f_equal. f_equal. lia.
Qed.

Lemma starts_from_length ks at_ : zlen (starts_from at_ ks) = zlen ks.
Proof. revert at_. induction ks as [|k ks IH]; intros at_; [done|]. cbn [starts_from]. by rewrite !zlen_cons, IH. Qed.

Lemma tmp_keys_cons keys a b rest :
  tmp_keys keys (a :: b :: rest) = ztake (b - a) (zdrop a keys) :: tmp_keys keys (b :: rest).
Proof. done. Qed.

Lemma tmp_keys_spec ks pre :
  tmp_keys (pre ++ concat ks) (starts_from (zlen pre) ks ++ [zlen (pre ++ concat ks)]) = ks.
Proof.
  revert pre. induction ks as [|k ks IH]; intros pre; [done|]. cbn [starts_from concat app].
  assert (exists x rest, starts_from (zlen pre + zlen k) ks ++ [zlen (pre ++ k ++ concat ks)] = x :: rest /\
    x = zlen pre + zlen k) as (x & rest & E & Hx).
  { destruct ks as [|k' ks]; cbn [starts_from app concat]; eexists _, _; (split; [done|]).
    - rewrite app_nil_r, zlen_app. done.
    - done. }
  rewrite E, tmp_keys_cons, <- E, Hx, zdrop_app_len by done.
  rewrite ztake_app_len by lia. f_equal. rewrite app_assoc, <- zlen_app. apply IH.
Qed.

Section FilterProofs.
Context `{FilterPolicyLaws}.

(** The bytes of one filter: nothing for no keys. *)
Definition filter_bytes (ks : list bytes) : bytes :=
  match ks with [] => [] | _ => CreateFilter ks [] end.

Definition filters_bytes (fs : list (list bytes)) : bytes := concat (map filter_bytes fs).

Definition filter_offset (fs : list (list bytes)) (i : nat) : Z := zlen (filters_bytes (take i fs)).

(** [holds f fs ks]: the filters [fs] are written, the keys [ks] wait for the next one. *)
Record holds (f : FilterBlockBuilder) (fs : list (list bytes)) (ks : list bytes) : Prop := mkHolds {
  h_keys : keys_ f = concat ks;
  h_start : start_ f = starts_from 0 ks;
  h_result : result_ f = filters_bytes fs;
  h_offsets : filter_offsets_ f = map (fun i => u32 (filter_offset fs i)) (seq 0 (length fs));
}.

Lemma filters_bytes_snoc fs ks : filters_bytes (fs ++ [ks]) = filters_bytes fs ++ filter_bytes ks.
Proof. unfold filters_bytes. rewrite map_app, concat_app. simpl. by rewrite app_nil_r. Qed.

Lemma offsets_snoc fs ks :
  map (fun i => u32 (filter_offset (fs ++ [ks]) i)) (seq 0 (length (fs ++ [ks]))) =
  map (fun i => u32 (filter_offset fs i)) (seq 0 (length fs)) ++ [u32 (zlen (filters_bytes fs))].
Proof.
  rewrite length_app, Nat.add_1_r, seq_S, map_app. simpl. f_equal.
  - apply map_ext_in. intros i Hi. apply in_seq in Hi. unfold filter_offset. by rewrite take_app_le by lia.
  - unfold filter_offset. by rewrite take_app_length.
Qed.

Lemma GenerateFilter_holds f fs ks : holds f fs ks -> holds (GenerateFilter f) (fs ++ [ks]) [].
Proof.
  intros [Hk Hs Hr Ho]. unfold GenerateFilter. rewrite Hs, starts_from_length.
  destruct (Z.eqb_spec (zlen ks) 0) as [E|E].
  - apply zlen_0_nil in E as ->. split; simpl; [done | done | |].
    + by rewrite filters_bytes_snoc, app_nil_r.
    + by rewrite offsets_snoc, Ho, Hr.
  - split; simpl; [done | done | |].
    + rewrite Hk, create_appends, Hr, filters_bytes_snoc. f_equal.
      pose proof (tmp_keys_spec ks []) as Ht. simpl in Ht. change (@zlen byte []) with 0 in Ht. rewrite Ht.
      by destruct ks.
    + by rewrite offsets_snoc, Ho, Hr.
Qed.

Lemma holds_count f fs ks : holds f fs ks -> zlen (filter_offsets_ f) = zlen fs.
Proof. intros [_ _ _ Ho]. unfold zlen. by rewrite Ho, length_map, length_seq. Qed.

(** After [StartBlock] the waiting keys are in the filter of the block they came with. *)
Lemma generate_until_holds fuel f fs ks index :
  holds f fs ks -> zlen fs <= index -> index - zlen fs < Z.of_nat fuel ->
  exists f' fs', generate_until fuel f index = Ret f' /\ zlen fs' = index /\
    holds f' fs' (if index =? zlen fs then ks else []) /\
    (index = zlen fs -> fs' = fs) /\ (zlen fs < index -> exists n, fs' = fs ++ ks :: replicate n []).
Proof.
  revert f fs ks. induction fuel as [|fuel IH]; intros f fs ks Hh Hle Hf; [lia|]. cbn [generate_until].
  rewrite (holds_count f fs ks Hh). destruct (Z.ltb_spec (zlen fs) index) as [Hlt|Hge].
  - assert (zlen (fs ++ [ks]) = zlen fs + 1) as Hl by (rewrite zlen_app; done).
    destruct (IH _ _ _ (GenerateFilter_holds f fs ks Hh)) as (f' & fs' & E & Hn & Hh' & He & Hm); [lia | lia |].
    exists f', fs'. split_and!; [done | done | | lia |].
    + destruct (Z.eqb_spec index (zlen fs)); [lia|]. by destruct (index =? zlen (fs ++ [ks])).
    + intros _. rewrite Hl in *. destruct (Z.eq_dec index (zlen fs + 1)) as [Hi|Hi].
      * exists 0%nat. rewrite (He Hi). done.
      * destruct Hm as [n ->]; [lia|]. exists (S n). by rewrite <- app_assoc.
  - exists f, fs. assert (index = zlen fs) as -> by lia. rewrite Z.eqb_refl.
    split_and!; [done | done | done | done | lia].
Qed.

Lemma AddKey_holds f fs ks k : holds f fs ks -> holds (AddKey f k) fs (ks ++ [k]).
Proof.
  intros [Hk Hs Hr Ho]. split; simpl; [| | done | done].
  - rewrite Hk, concat_app. simpl. by rewrite app_nil_r.
  - rewrite Hs, Hk, starts_from_snoc. done.
Qed.

Lemma add_all_holds keys f fs ks : holds f fs ks -> holds (add_all f keys) fs (ks ++ keys).
Proof.
  revert f ks. induction keys as [|k keys IH]; intros f ks Hh; cbn [add_all]; [by rewrite app_nil_r|].
  apply AddKey_holds with (k := k) in Hh. apply IH in Hh. by rewrite <- app_assoc in Hh.
Qed.

(** The filters, the one that waits included. *)
Definition all_filters (fs : list (list bytes)) (ks : list bytes) : list (list bytes) := fs ++ [ks].

Lemma concat_empty {A} n : concat (replicate n (@nil A)) = [].
Proof. induction n; [done|]. simpl. done. Qed.

(** [extends l l']: what was in a filter stays in it. *)
Definition extends (l l' : list (list bytes)) : Prop :=
  forall i s, l !! i = Some s -> exists t, l' !! i = Some (s ++ t).

Lemma extends_refl l : extends l l.
Proof. intros i s Hs. exists []. by rewrite app_nil_r. Qed.

Lemma extends_trans l m n : extends l m -> extends m n -> extends l n.
Proof.
  intros Hlm Hmn i s Hs. destruct (Hlm i s Hs) as [t Ht]. destruct (Hmn i _ Ht) as [u Hu].
  exists (t ++ u). by rewrite app_assoc.
Qed.

Lemma StartBlock_holds f fs ks off :
  holds f fs ks -> 0 <= off -> zlen fs <= off / kFilterBase ->
  exists f' fs' ks', StartBlock f off = Ret f' /\ holds f' fs' ks' /\ zlen fs' = off / kFilterBase /\
    extends (all_filters fs ks) (all_filters fs' ks') /\
    concat (all_filters fs' ks') = concat (all_filters fs ks).
Proof.
  intros Hh Hoff Hle. unfold StartBlock. rewrite (holds_count f fs ks Hh).
  rewrite (proj2 (Z.leb_le _ _) Hle). cbn [obind oassert]. set (index := off / kFilterBase) in *.
  destruct (generate_until_holds (S (Z.to_nat (index - zlen fs))) f fs ks index Hh Hle)
    as (f' & fs' & -> & Hn & Hh' & He & Hm); [lia|].
  destruct (Z.eqb_spec index (zlen fs)) as [E|E].
  - exists f', fs', ks. rewrite (He E). split_and!; [done | by rewrite <- (He E) | lia | apply extends_refl | done].
  - destruct Hm as [n ->]; [lia|]. exists f', (fs ++ ks :: replicate n []), [].
    split_and!; [done | done | done | |].
    + intros i s Hs. exists []. rewrite app_nil_r. unfold all_filters in *.
      replace ((fs ++ ks :: replicate n []) ++ [[]]) with ((fs ++ [ks]) ++ replicate n [] ++ [[]])
        by (by rewrite <- !app_assoc).
      by apply lookup_app_l_Some.
    + unfold all_filters. rewrite !concat_app. cbn [concat]. rewrite concat_empty, !app_nil_r. done.
Qed.

Fixpoint blocks_from (at_ : Z) (blocks : list (Z * list bytes)) : Prop :=
  match blocks with
  | [] => True
  | (off, _) :: blocks => at_ <= off /\ blocks_from off blocks
  end.

Lemma blocks_from_ge a blocks off keys : blocks_from a blocks -> (off, keys) ∈ blocks -> a <= off.
Proof.
  revert a. induction blocks as [|[o ks] blocks IH]; intros a Hb Hin; [by apply elem_of_nil in Hin|].
  destruct Hb as [Hao Hb]. apply elem_of_cons in Hin as [[= -> _]|Hin]; [done|].
  specialize (IH o Hb Hin). lia.
Qed.

Definition in_filter (fs : list (list bytes)) (off : Z) (key : bytes) : Prop :=
  exists s, fs !! Z.to_nat (off / kFilterBase) = Some s /\ key ∈ s.

Lemma in_filter_extends l m off key : extends l m -> in_filter l off key -> in_filter m off key.
Proof.
  intros Hx (s & Hs & Hk). destruct (Hx _ _ Hs) as [t Ht]. exists (s ++ t). split; [done|].
  apply elem_of_app. by left.
Qed.

Lemma div_base_mono a b : a <= b -> a / kFilterBase <= b / kFilterBase.
Proof. intros. apply Z.div_le_mono; [done | lia]. Qed.

Lemma add_blocks_holds blocks f fs ks at_ :
  holds f fs ks -> 0 <= at_ -> zlen fs <= at_ / kFilterBase -> blocks_from at_ blocks ->
  exists f' fs' ks', add_blocks f blocks = Ret f' /\ holds f' fs' ks' /\
    extends (all_filters fs ks) (all_filters fs' ks') /\
    concat (all_filters fs' ks') = concat (all_filters fs ks) ++ concat (map snd blocks) /\
    forall off keys key, (off, keys) ∈ blocks -> key ∈ keys -> in_filter (all_filters fs' ks') off key.
Proof.
  revert f fs ks at_. induction blocks as [|[off keys] blocks IH]; intros f fs ks at_ Hh Hat Hle Hb; cbn [add_blocks].
  { exists f, fs, ks. split_and!; [done | done | apply extends_refl | by rewrite app_nil_r |].
    by intros ? ? ? ?%elem_of_nil. }
  destruct Hb as [Hoff Hb]. pose proof (div_base_mono at_ off Hoff).
  destruct (StartBlock_holds f fs ks off Hh) as (f1 & fs1 & ks1 & -> & Hh1 & Hn1 & Hx1 & Hc1); [lia | lia |].
  cbn [obind]. pose proof (add_all_holds keys f1 fs1 ks1 Hh1) as Hh2.
  destruct (IH _ _ _ off Hh2) as (f3 & fs3 & ks3 & E3 & Hh3 & Hx3 & Hc3 & Hin3); [lia | lia | done |].
  exists f3, fs3, ks3.
  assert (extends (all_filters fs1 ks1) (all_filters fs1 (ks1 ++ keys))) as Hx2.
  { intros i s Hs. unfold all_filters in *. apply lookup_snoc_Some in Hs as [[Hi Hs]|[-> <-]].
    - exists []. rewrite app_nil_r. by apply lookup_app_l_Some.
    - exists keys. by rewrite lookup_app_r, Nat.sub_diag by lia. }
  split_and!; [done | done | | |].
  - by eapply extends_trans; [|eapply extends_trans].
  - rewrite Hc3. unfold all_filters in *. rewrite !concat_app in *. cbn [concat map snd] in *.
    rewrite !app_nil_r in *. rewrite !app_assoc. by rewrite Hc1.
  - intros off' keys' key Hin Hk. apply elem_of_cons in Hin as [[= -> ->]|Hin]; [|by eapply Hin3].
    eapply in_filter_extends; [exact Hx3|]. exists (ks1 ++ keys). split.
    + unfold all_filters. rewrite lookup_app_r by (unfold zlen in Hn1; lia).
      replace (Z.to_nat (off / kFilterBase) - length fs1)%nat with 0%nat by (unfold zlen in Hn1; lia). done.
    + apply elem_of_app. by right.
Qed.

(** ** What the reader finds *)

Definition filter_image (fs : list (list bytes)) : bytes :=
  filters_bytes fs ++
  concat (map EncodeFixed32 (map (fun i => u32 (filter_offset fs i)) (seq 0 (S (length fs))))) ++
  [z2b kFilterBaseLg].

Lemma PutOffsets_app l dst : PutOffsets dst l = dst ++ concat (map EncodeFixed32 l).
Proof.
  revert dst. induction l as [|r l IH]; intros dst; cbn [PutOffsets map concat]; [by rewrite app_nil_r|].
  rewrite IH. unfold PutFixed32. by rewrite <- app_assoc.
Qed.

Lemma Finish_image f fs ks :
  holds f fs ks -> Finish f = filter_image (match ks with [] => fs | _ => fs ++ [ks] end).
Proof.
  intros Hh. unfold Finish. rewrite (h_start _ _ _ Hh), starts_from_length.
  assert (exists f' fs', (if negb (zlen ks =? 0) then GenerateFilter f else f) = f' /\ holds f' fs' [] /\
    fs' = match ks with [] => fs | _ => fs ++ [ks] end) as (f' & fs' & -> & Hh' & <-).
  { destruct ks as [|k ks]; [by exists f, fs|]. rewrite zlen_cons. zlen_pos.
    destruct (Z.eqb_spec (1 + zlen ks) 0); [lia|]. simpl. eexists _, _.
    split; [done|]. split; [by apply GenerateFilter_holds | done]. }
  unfold filter_image, PutFixed32. rewrite PutOffsets_app, (h_result _ _ _ Hh'), (h_offsets _ _ _ Hh').
  rewrite seq_S, !map_app, concat_app. cbn [map concat]. rewrite !app_nil_r, <- !app_assoc.
  unfold filter_offset at 3. simpl (0 + _)%nat. by rewrite firstn_all.
Qed.

Lemma filter_offset_le fs i : filter_offset fs i <= zlen (filters_bytes fs).
Proof.
  unfold filter_offset. rewrite <- (take_drop i fs) at 2. unfold filters_bytes.
  rewrite map_app, concat_app, zlen_app. zlen_pos. lia.
Qed.

Lemma filter_offset_S fs i s :
  fs !! i = Some s -> filter_offset fs (S i) = filter_offset fs i + zlen (filter_bytes s).
Proof.
  intros Hi. unfold filter_offset. rewrite (take_S_r fs i s Hi), filters_bytes_snoc, zlen_app. done.
Qed.

Section Image.
Variable fs : list (list bytes).
Hypothesis Hsize : zlen (filter_image fs) < 2 ^ 32.

Lemma filter_image_size : zlen (filter_image fs) = zlen (filters_bytes fs) + 4 * (zlen fs + 1) + 1.
Proof.
  unfold filter_image. rewrite !zlen_app, zlen_fixed32_array. unfold zlen.
  rewrite length_map, length_seq. simpl. lia.
Qed.

(** The number at index [i] of the array of offsets. *)
Lemma filter_image_offset i :
  (i <= length fs)%nat ->
  DecodeFixed32 (zdrop (zlen (filters_bytes fs) + 4 * Z.of_nat i) (filter_image fs)) = filter_offset fs i.
Proof.
  intros Hi. pose proof filter_image_size as Hn. pose proof (filter_offset_le fs i). zlen_pos.
  pose proof (zlen_nonneg (filters_bytes (take i fs))). fold (filter_offset fs i) in *.
  unfold filter_image. rewrite zdrop_app_ge by lia.
  replace (zlen (filters_bytes fs) + 4 * Z.of_nat i - zlen (filters_bytes fs)) with (4 * Z.of_nat i) by lia.
  apply fixed32_array_lookup; [|lia].
  rewrite list_lookup_fmap, lookup_seq_lt by lia. simpl. f_equal. apply u32_small. lia.
Qed.

Lemma reader_image :
  new_FilterBlockReader (filter_image fs) =
    mkFilterReader (filter_image fs) (zlen (filters_bytes fs)) (zlen fs) kFilterBaseLg.
Proof.
  pose proof filter_image_size as Hn. pose proof (zlen_nonneg (filters_bytes fs)). pose proof (zlen_nonneg fs).
  unfold new_FilterBlockReader. destruct (Z.ltb_spec (zlen (filter_image fs)) 5); [lia|].
  replace (zlen (filter_image fs) - 5) with (zlen (filters_bytes fs) + 4 * Z.of_nat (length fs))
    by (unfold zlen in *; lia).
  rewrite filter_image_offset by lia.
  assert (filter_offset fs (length fs) = zlen (filters_bytes fs)) as -> by (unfold filter_offset; by rewrite firstn_all).
  destruct (Z.ltb_spec (zlen (filters_bytes fs) + 4 * Z.of_nat (length fs)) (zlen (filters_bytes fs))); [lia|].
  assert (get_byte (filter_image fs) (zlen (filter_image fs) - 1) = z2b kFilterBaseLg) as ->.
  { unfold get_byte. rewrite Hn. unfold filter_image. rewrite app_assoc.
    replace (zlen (filters_bytes fs) + 4 * (zlen fs + 1) + 1 - 1) with
      (zlen (filters_bytes fs ++ concat (map EncodeFixed32 (map (fun i => u32 (filter_offset fs i)) (seq 0 (S (length fs))))))).
    - apply nth_app_len.
    - rewrite zlen_app, zlen_fixed32_array. unfold zlen. rewrite length_map, length_seq. lia. }
  f_equal.
  replace (zlen (filters_bytes fs) + 4 * Z.of_nat (length fs) - zlen (filters_bytes fs)) with (zlen fs * 4)
    by (unfold zlen; lia).
  by rewrite Z.div_mul.
Qed.

Lemma reader_finds off key :
  0 <= off -> zlen (concat fs) < 2 ^ 31 -> in_filter fs off key ->
  reader_KeyMayMatch (new_FilterBlockReader (filter_image fs)) off key = Ret true.
Proof.
  intros Hoff Hlen (s & Hs & Hk). rewrite reader_image. unfold reader_KeyMayMatch.
  cbn [base_lg_ num_ fr_offset fr_data]. change (kFilterBaseLg <? 64) with true. cbn [obind oassert].
  assert (off ≫ kFilterBaseLg = off / kFilterBase) as -> by (by apply Z.shiftr_div_pow2).
  set (i := Z.to_nat (off / kFilterBase)) in *.
  assert (off / kFilterBase = Z.of_nat i) as -> by (unfold i; rewrite Z2Nat.id; [done | apply Z.div_pos; done]).
  clearbody i. pose proof (lookup_lt_Some _ _ _ Hs) as Hi.
  rewrite (proj2 (Z.ltb_lt (Z.of_nat i) (zlen fs))) by (unfold zlen; lia).
  replace (Z.of_nat i * 4) with (4 * Z.of_nat i) by lia.
  replace (zlen (filters_bytes fs) + 4 * Z.of_nat i + 4) with (zlen (filters_bytes fs) + 4 * Z.of_nat (S i)) by lia.
  rewrite !filter_image_offset by lia. pose proof (filter_offset_S fs i s Hs) as HS.
  pose proof (filter_offset_le fs (S i)). pose proof (zlen_nonneg (filter_bytes s)).
  rewrite (proj2 (Z.leb_le (filter_offset fs i) (filter_offset fs (S i)))) by lia.
  rewrite (proj2 (Z.leb_le (filter_offset fs (S i)) _)) by done. cbn [andb]. f_equal.
  replace (filter_offset fs (S i) - filter_offset fs i) with (zlen (filter_bytes s)) by lia.
  assert (ztake (zlen (filter_bytes s)) (zdrop (filter_offset fs i) (filter_image fs)) = filter_bytes s) as ->.
  { unfold filter_image. rewrite <- (take_drop_middle fs i s Hs) at 2. unfold filters_bytes at 1.
    rewrite map_app, concat_app. cbn [map concat]. rewrite <- !app_assoc.
    rewrite zdrop_app_len by done. by apply ztake_app_len. }
  destruct s as [|k0 s]; [by apply elem_of_nil in Hk|]. apply create_matches; [|done].
  rewrite <- (take_drop_middle fs i _ Hs), concat_app in Hlen. cbn [concat] in Hlen.
  rewrite !zlen_app in Hlen. revert Hlen. zlen_pos. lia.
Qed.
End Image.
End FilterProofs.

(** ** The properties *)

(** The filter block has no false negatives. For data blocks in file order, with the
    keys of each, the builder returns without a failing assertion, and for a filter block
    of less than 4 GB the reader answers "maybe" for every key of every block, asked with
    the offset of that block. *)
Theorem filter_block_no_false_negatives `{FilterPolicyLaws} (blocks : list (Z * list bytes)) :
  blocks_from 0 blocks -> zlen (concat (map snd blocks)) < 2 ^ 31 ->
  exists contents, BuildFilterBlock blocks = Ret contents /\
    (zlen contents < 2 ^ 32 ->
     forall off keys key, (off, keys) ∈ blocks -> key ∈ keys ->
       reader_KeyMayMatch (new_FilterBlockReader contents) off key = Ret true).
Proof.
  intros Hb Hn. unfold BuildFilterBlock.
  destruct (add_blocks_holds blocks new_FilterBlockBuilder [] [] 0) as (f & fs & ks & -> & Hh & _ & Hc & Hin);
    [done | done | done | done |].
  cbn [obind]. eexists. split; [done|]. rewrite (Finish_image f fs ks Hh). intros Hsz off keys key Hoff Hk.
  specialize (Hin off keys key Hoff Hk). simpl in Hc.
  pose proof (blocks_from_ge 0 blocks off keys Hb Hoff).
  assert (zlen (concat fs) + zlen ks < 2 ^ 31) as Hlen.
  { rewrite <- Hc in Hn. unfold all_filters in Hn. rewrite concat_app, zlen_app in Hn. simpl in Hn.
    rewrite app_nil_r in Hn. done. }
  zlen_pos. destruct ks as [|k ks].
  - apply reader_finds; [done | done | lia |]. destruct Hin as (s & Hs & Hks). exists s. split; [|done].
    apply lookup_snoc_Some in Hs as [[_ Hs]|[_ <-]]; [done | by apply elem_of_nil in Hks].
  - apply reader_finds; [done | done | | done]. rewrite concat_app, zlen_app. simpl. rewrite app_nil_r. lia.
Qed.

Section FilterWitness.
#[local] Instance ten_bits : FilterPolicy := NewBloomFilterPolicy 10.
#[local] Instance ten_bits_laws : FilterPolicyLaws := bloom_laws 10 ltac:(lia).

Lemma filter_block_no_false_negatives_witness :
  exists contents, BuildFilterBlock [(0, [[x61]; [x62]]); (100, [[x63]]); (5000, [[x64]])] = Ret contents /\
    (zlen contents < 2 ^ 32 ->
     forall off keys key, (off, keys) ∈ [(0, [[x61]; [x62]]); (100, [[x63]]); (5000, [[x64]])] -> key ∈ keys ->
       reader_KeyMayMatch (new_FilterBlockReader contents) off key = Ret true).
Proof.
  apply (filter_block_no_false_negatives [(0, [[x61]; [x62]]); (100, [[x63]]); (5000, [[x64]])]).
  - simpl. lia.
  - reflexivity.
Defined.
End FilterWitness.
