(* ===== verification/SkipList.v ===== *)
(** * The skip list

    [skiplist.h] with the random numbers of [random.h] that choose the node heights. Nodes
    live in a store that only grows, as in the arena of the source; a pointer is an index
    into the store. The list keeps one chain of nodes per level; [Chains] is the invariant
    that ties the chains to one sorted sequence of nodes, for every sequence of heights. *)

From stdpp Require Import sorting.
From S2P Require Import Prelude.

Open Scope outcome_scope.

(** ** Random numbers *)

Definition random_M : Z := 2147483647.
Definition random_A : Z := 16807.

Definition new_Random (s : Z) : Z :=
  let seed := Z.land s 0x7fffffff in
  if (seed =? 0) || (seed =? 2147483647) then 1 else seed.

(** The new seed, which is also the value returned. *)
Definition random_Next (seed : Z) : Z :=
  let product := u64 (seed * random_A) in
  let seed := u32 ((product ≫ 31) + Z.land product random_M) in
  if random_M <? seed then u32 (seed - random_M) else seed.

(** ** The list *)

(** What the list needs of its comparator: a total preorder. *)
Class KeyOrder (Key : Type) := {
  compare_ : Key -> Key -> Z;
  compare_swap a b : compare_ a b < 0 <-> 0 < compare_ b a;
  compare_le_trans a b c : compare_ a b <= 0 -> compare_ b c <= 0 -> compare_ a c <= 0;
}.

Definition kMaxHeight : nat := 12.
Definition kBranching : Z := 4.

Section SkipList.
Context {Key : Type} `{KeyOrder Key}.

(** A node: its key and its array of links, one per level; [None] is [nullptr]. *)
Record Node := mkNode { node_key : Key; next_ : list (option nat) }.

(** [nodes_] is the store; [head_] is the node at index 0. *)
Record SkipList := mkSkipList { nodes_ : list Node; max_height_ : nat; rnd_ : Z }.

Definition head_ : nat := 0.

(** The constructor is given any key for the head. *)
Definition new_SkipList (any : Key) : SkipList :=
  mkSkipList [mkNode any (replicate kMaxHeight None)] 1 (new_Random 0xdeadbeef).

Definition NodeKey (s : SkipList) (x : nat) : outcome Key :=
  match nodes_ s !! x with Some nd => Ret (node_key nd) | None => AssertFailed end.

Definition NodeNext (s : SkipList) (x n : nat) : outcome (option nat) :=
  match nodes_ s !! x with
  | Some nd => match next_ nd !! n with Some p => Ret p | None => AssertFailed end
  | None => AssertFailed
  end.

Definition SetNext (s : SkipList) (x n : nat) (p : option nat) : outcome SkipList :=
  match nodes_ s !! x with
  | Some nd =>
      match next_ nd !! n with
      | Some _ =>
          Ret (mkSkipList (<[x := mkNode (node_key nd) (<[n := p]> (next_ nd))]> (nodes_ s))
                 (max_height_ s) (rnd_ s))
      | None => AssertFailed
      end
  | None => AssertFailed
  end.

(** A node with uninitialised links (the loop of [Insert] sets them all). *)
Definition NewNode (s : SkipList) (key : Key) (height : nat) : SkipList * nat :=
  (mkSkipList (nodes_ s ++ [mkNode key (replicate height None)]) (max_height_ s) (rnd_ s),
   length (nodes_ s)).

Fixpoint height_loop (fuel : nat) (seed : Z) (height : nat) : nat * Z :=
  match fuel with
  | O => (height, seed)
  | S fuel =>
      if (height <? kMaxHeight)%nat then
        let seed := random_Next seed in
        if seed mod kBranching =? 0 then height_loop fuel seed (S height) else (height, seed)
      else (height, seed)
  end.

(** Twelve rounds are always enough: each but the last adds one to the height. *)
Definition RandomHeight (s : SkipList) : outcome (SkipList * nat) :=
  let '(height, seed) := height_loop kMaxHeight (rnd_ s) 1 in
  assert! (0 <? height)%nat;
  assert! (height <=? kMaxHeight)%nat;
  Ret (mkSkipList (nodes_ s) (max_height_ s) seed, height).

Definition Equal (a b : Key) : bool := compare_ a b =? 0.

Definition KeyIsAfterNode (s : SkipList) (key : Key) (n : option nat) : outcome bool :=
  match n with
  | None => Ret false
  | Some n => let! k := NodeKey s n in Ret (compare_ k key <? 0)
  end.

(** Steps along the chains, and down the levels: never more than the nodes and the levels
    together. *)
Definition search_fuel (s : SkipList) : nat := (length (nodes_ s) + max_height_ s + 1)%nat.

(** The [while (true)] of [FindGreaterOrEqual]; [prev] is the caller's array, [None] where
    it is not written. *)
Fixpoint FindGreaterOrEqual_loop (fuel : nat) (s : SkipList) (key : Key) (x level : nat)
    (prev : list (option nat)) : outcome (option nat * list (option nat)) :=
  match fuel with
  | O => OutOfFuel
  | S fuel =>
      let! next := NodeNext s x level in
      let! after := KeyIsAfterNode s key next in
      match after, next with
      | true, Some next => FindGreaterOrEqual_loop fuel s key next level prev
      | _, _ =>
          let prev := <[level := Some x]> prev in
          match level with
          | O => Ret (next, prev)
          | S level => FindGreaterOrEqual_loop fuel s key x level prev
          end
      end
  end.

Definition FindGreaterOrEqual (s : SkipList) (key : Key) : outcome (option nat * list (option nat)) :=
  FindGreaterOrEqual_loop (search_fuel s) s key head_ (max_height_ s - 1) (replicate kMaxHeight None).

Fixpoint FindLessThan_loop (fuel : nat) (s : SkipList) (key : Key) (x level : nat) : outcome nat :=
  match fuel with
  | O => OutOfFuel
  | S fuel =>
      let! k := NodeKey s x in
      assert! (x =? head_)%nat || (compare_ k key <? 0);
      let! next := NodeNext s x level in
      match next with
      | None => match level with O => Ret x | S level => FindLessThan_loop fuel s key x level end
      | Some n =>
          let! k := NodeKey s n in
          if 0 <=? compare_ k key then
            match level with O => Ret x | S level => FindLessThan_loop fuel s key x level end
          else FindLessThan_loop fuel s key n level
      end
  end.

Definition FindLessThan (s : SkipList) (key : Key) : outcome nat :=
  FindLessThan_loop (search_fuel s) s key head_ (max_height_ s - 1).

Fixpoint FindLast_loop (fuel : nat) (s : SkipList) (x level : nat) : outcome nat :=
  match fuel with
  | O => OutOfFuel
  | S fuel =>
      let! next := NodeNext s x level in
      match next with
      | None => match level with O => Ret x | S level => FindLast_loop fuel s x level end
      | Some n => FindLast_loop fuel s n level
      end
  end.

Definition FindLast (s : SkipList) : outcome nat :=
  FindLast_loop (search_fuel s) s head_ (max_height_ s - 1).

(** [for (i = GetMaxHeight(); i < height; i++) prev[i] = head_]. *)
Fixpoint set_heads (n i : nat) (prev : list (option nat)) : list (option nat) :=
  match n with
  | O => prev
  | S n => set_heads n (S i) (<[i := Some head_]> prev)
  end.

(** [for (i = 0; i < height; i++)]: link the new node in at every level. *)
Fixpoint link_levels (n i : nat) (s : SkipList) (x : nat) (prev : list (option nat)) : outcome SkipList :=
  match n with
  | O => Ret s
  | S n =>
      match prev !! i with
      | Some (Some p) =>
          let! next := NodeNext s p i in
          let! s := SetNext s x i next in
          let! s := SetNext s p i (Some x) in
          link_levels n (S i) s x prev
      | _ => AssertFailed
      end
  end.

Definition Insert (s : SkipList) (key : Key) : outcome SkipList :=
  let! (x, prev) := FindGreaterOrEqual s key in
  let! duplicate :=
    match x with
    | None => Ret false
    | Some x => let! k := NodeKey s x in Ret (Equal key k)
    end in
  assert! negb duplicate;
  let! (s, height) := RandomHeight s in
  let '(s, prev) :=
    if (max_height_ s <? height)%nat then
      (mkSkipList (nodes_ s) height (rnd_ s), set_heads (height - max_height_ s) (max_height_ s) prev)
    else (s, prev) in
  let '(s, x) := NewNode s key height in
  link_levels height 0 s x prev.

Definition Contains (s : SkipList) (key : Key) : outcome bool :=
  let! (x, _) := FindGreaterOrEqual s key in
  match x with
  | None => Ret false
  | Some x => let! k := NodeKey s x in Ret (Equal key k)
  end.

(** ** The iterator: a node of the list, or none *)

Definition SkipIter : Type := option nat.

Definition new_SkipIter : SkipIter := None.

Definition iter_Valid (it : SkipIter) : bool := match it with Some _ => true | None => false end.

Definition iter_key (s : SkipList) (it : SkipIter) : outcome Key :=
  match it with Some x => NodeKey s x | None => AssertFailed end.

Definition iter_Next (s : SkipList) (it : SkipIter) : outcome SkipIter :=
  match it with Some x => NodeNext s x 0 | None => AssertFailed end.

Definition iter_Prev (s : SkipList) (it : SkipIter) : outcome SkipIter :=
  match it with
  | Some x =>
      let! k := NodeKey s x in
      let! p := FindLessThan s k in
      Ret (if (p =? head_)%nat then None else Some p)
  | None => AssertFailed
  end.

Definition iter_Seek (s : SkipList) (target : Key) : outcome SkipIter :=
  let! (x, _) := FindGreaterOrEqual s target in Ret x.

Definition iter_SeekToFirst (s : SkipList) : outcome SkipIter := NodeNext s head_ 0.

Definition iter_SeekToLast (s : SkipList) : outcome SkipIter :=
  let! p := FindLast s in
  Ret (if (p =? head_)%nat then None else Some p).

(** ** Sorted sequences of nodes

    A node of a chain, with its key. [before key] and [from key] are the nodes with
    smaller keys, and the others. *)

Abbreviation entry := (nat * Key)%type.

Definition key_below (a b : Key) : Prop := compare_ a b < 0.

Definition entry_lt (a b : entry) : Prop := key_below a.2 b.2.

Abbreviation sorted := (StronglySorted entry_lt).

Definition before (key : Key) (l : list entry) : list entry := filter (fun e => compare_ e.2 key < 0) l.
Definition from (key : Key) (l : list entry) : list entry := filter (fun e => ~ compare_ e.2 key < 0) l.

(** The sequence with one more node. *)
Definition ins (e : entry) (l : list entry) : list entry := before e.2 l ++ e :: from e.2 l.

Lemma compare_self a : compare_ a a = 0.
Proof. pose proof (compare_swap a a). lia. Qed.

Lemma key_below_le_l a b c : compare_ a b <= 0 -> key_below b c -> key_below a c.
Proof.
  unfold key_below. intros Hab Hbc. destruct (Z.lt_ge_cases (compare_ a c) 0) as [|Hac]; [done|].
  pose proof (compare_swap a c). pose proof (compare_swap c a). pose proof (compare_swap b c).
  pose proof (compare_le_trans c a b). lia.
Qed.

Lemma key_below_le_r a b c : key_below a b -> compare_ b c <= 0 -> key_below a c.
Proof.
  unfold key_below. intros Hab Hbc. destruct (Z.lt_ge_cases (compare_ a c) 0) as [|Hac]; [done|].
  pose proof (compare_swap a c). pose proof (compare_swap c a). pose proof (compare_swap a b).
  pose proof (compare_le_trans b c a). lia.
Qed.

#[local] Instance key_below_trans : Transitive key_below.
Proof. intros a b c Hab Hbc. eapply key_below_le_r; [done|]. unfold key_below in Hbc. lia. Qed.

Lemma key_below_irrefl a : ~ key_below a a.
Proof. unfold key_below. rewrite compare_self. lia. Qed.

(** In a sorted sequence the nodes before a node of the sequence are smaller, and those
    after it greater. *)
Lemma sorted_split l1 e l2 :
  sorted (l1 ++ e :: l2) ->
  sorted l1 /\ sorted l2 /\ Forall (fun a => entry_lt a e) l1 /\ Forall (entry_lt e) l2 /\
  Forall (fun a => Forall (entry_lt a) l2) l1.
Proof.
  induction l1 as [|a l1 IH]; simpl; intros Hs; inversion_clear Hs as [|?? Hs' Ha].
  - repeat split; [constructor|done|constructor|done|constructor].
  - destruct (IH Hs') as (?&?&?&?&?). apply Forall_app in Ha as [Ha1 Ha2].
    inversion_clear Ha2. repeat split; try done; by constructor.
Qed.

Lemma before_all key l : Forall (fun e => key_below e.2 key) l -> before key l = l.
Proof. induction 1; unfold before in *; [done|]. rewrite filter_cons_True by done. by f_equal. Qed.

Lemma from_all key l : Forall (fun e => ~ key_below e.2 key) l -> from key l = l.
Proof. induction 1; unfold from in *; [done|]. rewrite filter_cons_True by done. by f_equal. Qed.

Lemma before_none key l : Forall (fun e => ~ key_below e.2 key) l -> before key l = [].
Proof. induction 1; unfold before in *; [done|]. by rewrite filter_cons_False. Qed.

Lemma from_none key l : Forall (fun e => key_below e.2 key) l -> from key l = [].
Proof. induction 1; unfold from in *; [done|]. rewrite filter_cons_False; [done|]. unfold key_below in *. lia. Qed.

Lemma before_from key l : sorted l -> before key l ++ from key l = l.
Proof.
  induction 1 as [|e l Hs IH He]; [done|]. unfold before, from in *.
  destruct (decide (compare_ e.2 key < 0)) as [Hlt|Hge].
  - rewrite filter_cons_True by done. rewrite filter_cons_False by lia. simpl. by f_equal.
  - assert (Forall (fun e => ~ key_below e.2 key) l) as Hl.
    { eapply Forall_impl; [exact He|]. intros x Hx Hk. apply Hge. by eapply (key_below_trans e.2 x.2). }
    rewrite filter_cons_False by done. rewrite filter_cons_True by done.
    pose proof (before_none _ _ Hl) as Hb. pose proof (from_all _ _ Hl) as Hf. unfold before, from in Hb, Hf. by rewrite Hb, Hf.
Qed.

(** The division of a sorted sequence at a key is determined by what is on either side. *)
Lemma before_from_app key l1 l2 :
  Forall (fun e => key_below e.2 key) l1 -> Forall (fun e => ~ key_below e.2 key) l2 ->
  before key (l1 ++ l2) = l1 /\ from key (l1 ++ l2) = l2.
Proof.
  intros H1 H2. unfold before, from. rewrite !filter_app.
  pose proof (before_all _ _ H1) as Ha. pose proof (from_none _ _ H1) as Hb.
  pose proof (before_none _ _ H2) as Hc. pose proof (from_all _ _ H2) as Hd.
  unfold before, from in *. rewrite Ha, Hb, Hc, Hd. by rewrite app_nil_r.
Qed.

Lemma sorted_NoDup l : sorted l -> NoDup l.*2.
Proof.
  induction 1 as [|e l Hs IH He]; simpl; constructor; [|done].
  intros (x & Hx & Hin)%list_elem_of_fmap. rewrite Forall_forall in He.
  specialize (He x Hin). unfold entry_lt in He. rewrite Hx in He. by apply key_below_irrefl in He.
Qed.

Lemma Forall_before key l : Forall (fun e => key_below e.2 key) (before key l).
Proof. apply Forall_forall. intros x Hx. by apply list_elem_of_filter in Hx as [? ?]. Qed.

Lemma Forall_from key l : Forall (fun e => ~ key_below e.2 key) (from key l).
Proof. apply Forall_forall. intros x Hx. by apply list_elem_of_filter in Hx as [? ?]. Qed.

(** The first node that is not below a key, as clients use it. *)
Lemma head_from key l :
  sorted l ->
  match head (from key l) with
  | Some e => e ∈ l /\ ~ key_below e.2 key /\ forall a, a ∈ l -> ~ key_below a.2 key -> compare_ e.2 a.2 <= 0
  | None => forall a, a ∈ l -> key_below a.2 key
  end.
Proof.
  induction 1 as [|e l Hs IH He].
  - intros a Ha. by apply elem_of_nil in Ha.
  - unfold from. rewrite filter_cons. destruct (decide (~ compare_ e.2 key < 0)) as [Hge|Hlt]; simpl.
    + split; [by left|]. split; [done|]. intros a Ha _. apply elem_of_cons in Ha as [->|Ha].
      * rewrite compare_self. lia.
      * rewrite Forall_forall in He. specialize (He a Ha). unfold entry_lt, key_below in He. lia.
    + fold (from key l). destruct (head (from key l)) as [e'|].
      * destruct IH as (Hin & Hnb & Hmin). split; [by right|]. split; [done|]. intros a Ha Hna.
        apply elem_of_cons in Ha as [->|Ha]; [|by apply Hmin]. unfold key_below in Hna. lia.
      * intros a Ha. apply elem_of_cons in Ha as [->|Ha]; [|by apply IH]. unfold key_below. lia.
Qed.

(** [key] is in none of the nodes of [l]. *)
Definition absent (key : Key) (l : list entry) : Prop := Forall (fun e => compare_ key e.2 <> 0) l.

Lemma absent_existsb key l : absent key l <-> existsb (fun e => Equal key e.2) l = false.
Proof.
  unfold absent, Equal. induction l as [|a l IH]; simpl; [by split; [|constructor]|].
  rewrite Forall_cons, orb_false_iff, Z.eqb_neq. tauto.
Qed.

Lemma ins_sorted e l : sorted l -> absent e.2 l -> sorted (ins e l).
Proof.
  intros Hs Ha. pose proof (before_from e.2 l Hs) as Hbf.
  pose proof (Forall_before e.2 l) as Hb. pose proof (Forall_from e.2 l) as Hf.
  assert (Forall (entry_lt e) (from e.2 l)) as Hf'.
  { rewrite <- Hbf in Ha. apply Forall_app in Ha as [_ Ha].
    eapply Forall_impl; [exact (proj2 (Forall_and _ _) (conj Ha Hf))|].
    intros a [Hne Hge]. unfold entry_lt, key_below in *.
    pose proof (compare_swap a.2 e.2). pose proof (compare_swap e.2 a.2). lia. }
  rewrite <- Hbf in Hs. unfold ins. clear Hbf Ha.
  induction (before e.2 l) as [|a l1 IH]; simpl in *.
  - by constructor.
  - inversion_clear Hs as [|?? Hs' Ha]. inversion_clear Hb as [|?? Hae Hb'].
    constructor; [by apply IH|]. apply Forall_app in Ha as [Ha1 Ha2].
    apply Forall_app. split; [done|]. constructor; [exact Hae|done].
Qed.

Lemma ins_perm e l : sorted l -> ins e l ≡ₚ e :: l.
Proof. intros Hs. unfold ins. rewrite <- Permutation_middle. by rewrite before_from. Qed.

(** ** The chains of a list *)

(** From the node [x], the links of level [i] lead through the nodes of [l] and end. *)
Fixpoint chain (s : SkipList) (i x : nat) (l : list entry) : Prop :=
  match l with
  | [] => NodeNext s x i = Ret None
  | e :: l => NodeNext s x i = Ret (Some e.1) /\ NodeKey s e.1 = Ret e.2 /\ chain s i e.1 l
  end.

(** [lv i] is the chain of level [i]: each level skips nodes of the level below it, and
    the lowest level is sorted. *)
Record Chains (s : SkipList) (lv : nat -> list entry) : Prop := {
  ch_height : (0 < max_height_ s <= kMaxHeight)%nat;
  ch_chain i : (i < kMaxHeight)%nat -> chain s i head_ (lv i);
  ch_sub i : sublist (lv (S i)) (lv i);
  ch_sorted : sorted (lv 0%nat);
  ch_ids : Forall (fun e => e.1 <> head_) (lv 0%nat);
  ch_top i : (max_height_ s <= i)%nat -> lv i = [];
}.

Lemma chain_app s i x l1 e l2 :
  chain s i x (l1 ++ e :: l2) -> chain s i e.1 l2 /\ NodeKey s e.1 = Ret e.2.
Proof. revert x. induction l1 as [|a l1 IH]; simpl; intros x Hc; [by destruct Hc as (_&?&?)|].
  eapply IH, Hc. Qed.

Section Search.
Context (s : SkipList) (lv : nat -> list entry) (Hs : Chains s lv).

Lemma level_sub i : sublist (lv i) (lv 0%nat).
Proof. induction i as [|i IH]; [done|]. etrans; [apply (ch_sub _ _ Hs)|done]. Qed.

Lemma sublist_sorted (l k : list entry) : sublist l k -> sorted k -> sorted l.
Proof.
  induction 1 as [|e l k Hl IH|e l k Hl IH]; intros Hk; [done| |]; inversion_clear Hk as [|?? Hk' He].
  - constructor; [by apply IH|]. apply Forall_forall. intros x Hx.
    rewrite Forall_forall in He. apply He. by eapply elem_of_sublist.
  - by apply IH.
Qed.

Lemma level_sorted i : sorted (lv i).
Proof. eapply sublist_sorted; [apply level_sub | apply (ch_sorted _ _ Hs)]. Qed.

Lemma level_elem i j e : (j <= i)%nat -> e ∈ lv i -> e ∈ lv j.
Proof.
  intros Hij. revert e. induction Hij as [|i Hij IH]; intros e He; [done|].
  apply IH. eapply elem_of_sublist; [exact He|]. apply (ch_sub _ _ Hs).
Qed.

Lemma entry_key e i : (i < kMaxHeight)%nat -> e ∈ lv i -> NodeKey s e.1 = Ret e.2.
Proof.
  intros Hi (l1 & l2 & Hl)%list_elem_of_split. pose proof (ch_chain _ _ Hs i Hi) as Hc.
  rewrite Hl in Hc. by apply chain_app in Hc as [_ ?].
Qed.

(** The nodes are distinct, so that a chain is shorter than the store. *)
Lemma ids_NoDup : NoDup (lv 0%nat).*1.
Proof.
  assert (forall l, sorted l -> (forall e, e ∈ l -> NodeKey s e.1 = Ret e.2) -> NoDup l.*1) as Hl.
  { induction 1 as [|e l Hsl IH He]; simpl; intros Hk; constructor.
    - intros Hin. apply list_elem_of_fmap in Hin as (x & Hx & Hin).
      pose proof (Hk e (list_elem_of_here _ _)) as H1.
      pose proof (Hk x (list_elem_of_further _ _ _ Hin)) as H2. rewrite Hx, H2 in H1.
      rewrite Forall_forall in He. specialize (He x Hin). unfold entry_lt in He.
      injection H1 as H1. rewrite H1 in He. by apply key_below_irrefl in He.
    - apply IH. intros x Hx. apply Hk. by right. }
  apply Hl; [apply (ch_sorted _ _ Hs)|]. intros e He. apply (entry_key e 0); [|done]. unfold kMaxHeight. lia.
Qed.

Lemma NodeKey_lt x k : NodeKey s x = Ret k -> (x < length (nodes_ s))%nat.
Proof.
  unfold NodeKey. destruct (nodes_ s !! x) eqn:E; [|done]. intros _. by apply lookup_lt_Some in E.
Qed.

Lemma order_length : (length (lv 0%nat) <= length (nodes_ s))%nat.
Proof.
  rewrite <- (length_fmap fst). transitivity (length (seq 0 (length (nodes_ s)))); [|by rewrite length_seq].
  apply submseteq_length, NoDup_submseteq; [apply ids_NoDup|]. intros x Hx.
  apply list_elem_of_fmap in Hx as (e & -> & He). apply elem_of_seq.
  assert (NodeKey s e.1 = Ret e.2) as Hk%NodeKey_lt by (apply (entry_key e 0); [unfold kMaxHeight; lia|done]). lia.
Qed.

(** A position of the search: the head ([None]) or a node of the list. *)
Definition pos_id (c : option entry) : nat := match c with None => head_ | Some e => e.1 end.
Definition pos_below (c : option entry) (key : Key) : Prop :=
  match c with None => True | Some e => key_below e.2 key end.
(** The chain [l] continues with [rest] after the position [c]. *)
Definition at_pos (c : option entry) (l rest : list entry) : Prop :=
  match c with None => rest = l | Some e => exists l1, l = l1 ++ e :: rest end.

Lemma at_pos_chain c i rest :
  (i < kMaxHeight)%nat -> at_pos c (lv i) rest -> chain s i (pos_id c) rest.
Proof.
  intros Hi Hc. pose proof (ch_chain _ _ Hs i Hi) as Hch. destruct c as [e|]; simpl in *.
  - destruct Hc as [l1 Hl]. rewrite Hl in Hch. by apply chain_app in Hch as [? _].
  - by subst.
Qed.

(** One step along the chain of level [i] is at least one step along the list. *)
Lemma at_pos_next c i e rest r0 :
  at_pos c (lv i) (e :: rest) -> at_pos c (lv 0%nat) r0 ->
  at_pos (Some e) (lv i) rest /\
  exists r, at_pos (Some e) (lv 0%nat) r /\ (length r < length r0)%nat.
Proof.
  intros Hi H0. assert (e ∈ lv i) as He.
  { destruct c; simpl in Hi; [destruct Hi as [l1 ->] | rewrite <- Hi];
    rewrite ?elem_of_app, ?elem_of_cons; auto. }
  assert (e ∈ lv 0%nat) as He0 by (eapply level_elem; [|done]; lia).
  split. { destruct c as [c|]; simpl in *; [destruct Hi as [l1 ->] | subst].
    - exists (l1 ++ [c]). by rewrite <- app_assoc.
    - by exists []. }
  assert (e ∈ r0 /\ (forall l1 l2, r0 = l1 ++ e :: l2 -> at_pos (Some e) (lv 0%nat) l2)) as [Hr Hat].
  { destruct c as [c|]; simpl in H0.
    - destruct H0 as [k1 Hk]. simpl in Hi. destruct Hi as [l1 Hl]. split.
      + rewrite Hk in He0. assert (key_below c.2 e.2) as Hce.
        { pose proof (level_sorted i) as Hsi. rewrite Hl in Hsi. apply sorted_split in Hsi as (_&_&_&Hf&_).
          by inversion_clear Hf. }
        pose proof (ch_sorted _ _ Hs) as Hs0. rewrite Hk in Hs0. apply sorted_split in Hs0 as (_&_&Hb&_&_).
        apply elem_of_app in He0 as [Hin|Hin].
        * rewrite Forall_forall in Hb. specialize (Hb e Hin). exfalso.
          eapply key_below_irrefl, key_below_trans; [exact Hce|exact Hb].
        * apply elem_of_cons in Hin as [->|?]; [by apply key_below_irrefl in Hce | done].
      + intros l2 l3 ->. simpl. exists (k1 ++ c :: l2). rewrite Hk. by rewrite <- app_assoc.
    - subst r0. split; [done|]. intros l1 l2 ->. by exists l1. }
  apply list_elem_of_split in Hr as (l1 & l2 & ->). exists l2. split; [by eapply Hat|].
  rewrite length_app. simpl. lia.
Qed.

Lemma at_pos_down c i rest :
  at_pos c (lv (S i)) rest -> exists rest', at_pos c (lv i) rest'.
Proof.
  destruct c as [e|]; simpl; [|eauto]. intros [l1 Hl].
  assert (e ∈ lv i) as He by (eapply (level_elem (S i)); [lia|]; rewrite Hl, elem_of_app, elem_of_cons; auto).
  apply list_elem_of_split in He as (k1 & k2 & ->). eauto.
Qed.

(** Where the search leaves a level. *)
Lemma at_pos_stop c l rest key :
  sorted l -> at_pos c l rest -> pos_below c key ->
  (forall e r, rest = e :: r -> ~ key_below e.2 key) ->
  last (before key l) = c /\ from key l = rest.
Proof.
  intros Hsl Hc Hb Hstop.
  assert (sorted rest -> Forall (fun e => ~ key_below e.2 key) rest) as Hrest.
  { destruct rest as [|e r]; [constructor|]. intros Hr. inversion_clear Hr as [|?? _ He].
    pose proof (Hstop e r eq_refl) as Hn. constructor; [done|]. eapply Forall_impl; [exact He|].
    intros a Ha Hk. apply Hn. by eapply (key_below_trans _ a.2). }
  destruct c as [e|]; simpl in *.
  - destruct Hc as [l1 ->]. apply sorted_split in Hsl as (_&Hr&Hf&_&_).
    assert (Forall (fun a => key_below a.2 key) (l1 ++ [e])) as Hbe.
    { apply Forall_app. split; [|by constructor]. eapply Forall_impl; [exact Hf|].
      intros a Ha. by eapply (key_below_trans _ e.2). }
    destruct (before_from_app key (l1 ++ [e]) rest Hbe (Hrest Hr)) as [Hx Hy].
    rewrite <- app_assoc in Hx, Hy. simpl in Hx, Hy. rewrite Hx, Hy. by rewrite last_snoc.
  - subst rest. destruct (before_from_app key [] l ltac:(constructor) (Hrest Hsl)) as [Hx Hy].
    simpl in Hx, Hy. by rewrite Hx, Hy.
Qed.

(** What [NodeNext] and the comparison with the next node give at a position. *)
Lemma at_pos_step c i rest :
  (i < kMaxHeight)%nat -> at_pos c (lv i) rest ->
  NodeNext s (pos_id c) i = Ret (fst <$> head rest) /\
  (forall e, head rest = Some e -> NodeKey s e.1 = Ret e.2).
Proof.
  intros Hi Hc%at_pos_chain; [|done]. destruct rest as [|e rest]; simpl in *; [by split|].
  destruct Hc as (?&?&?). split; [done|]. by intros ? [= <-].
Qed.

Lemma FindGreaterOrEqual_loop_spec key fuel : forall c i ri r0 prev,
  (i < kMaxHeight)%nat -> at_pos c (lv i) ri -> at_pos c (lv 0%nat) r0 -> pos_below c key ->
  (length r0 + i < fuel)%nat -> length prev = kMaxHeight ->
  exists prev', FindGreaterOrEqual_loop fuel s key (pos_id c) i prev =
      Ret (fst <$> head (from key (lv 0%nat)), prev') /\
    length prev' = kMaxHeight /\
    (forall j, (j <= i)%nat -> prev' !! j = Some (Some (pos_id (last (before key (lv j)))))) /\
    (forall j, (i < j)%nat -> prev' !! j = prev !! j).
Proof.
  induction fuel as [|fuel IH]; intros c i ri r0 prev Hi Hri Hr0 Hb Hf Hp; [lia|].
  cbn [FindGreaterOrEqual_loop]. destruct (at_pos_step c i ri Hi Hri) as [-> Hk]. cbn [obind].
  assert ((exists e r, ri = e :: r /\ key_below e.2 key) \/ (forall e r, ri = e :: r -> ~ key_below e.2 key))
    as [(e & r & -> & He)|Hstop].
  { destruct ri as [|e r]; [by right|]. destruct (decide (compare_ e.2 key < 0)); [left; eauto|right].
    by intros ?? [= <- <-]. }
  - simpl. rewrite (Hk e eq_refl). cbn [obind].
    rewrite (proj2 (Z.ltb_lt (compare_ e.2 key) 0)) by exact He.
    destruct (at_pos_next c i e r r0 Hri Hr0) as (Hn & r' & Hn0 & Hlt).
    apply (IH (Some e) i r r'); try done. lia.
  - destruct (at_pos_stop c (lv i) ri key (level_sorted i) Hri Hb Hstop) as [Hlast Hfrom].
    assert (KeyIsAfterNode s key (fst <$> head ri) = Ret false) as ->.
    { destruct ri as [|e r]; simpl; [done|]. rewrite (Hk e eq_refl). cbn [obind].
      by rewrite (proj2 (Z.ltb_nlt _ _) (Hstop e r eq_refl)). }
    cbn [obind]. destruct i as [|i]; cbn beta iota.
    + rewrite <- Hfrom. eexists. split; [reflexivity|].
      split; [by rewrite length_insert|]. split.
      * intros j Hj. replace j with 0%nat by lia. rewrite list_lookup_insert_eq by lia. by rewrite Hlast.
      * intros j Hj. rewrite list_lookup_insert_ne by lia. done.
    + destruct (at_pos_down c i ri Hri) as [ri' Hri'].
      destruct (IH c i ri' r0 (<[S i := Some (pos_id c)]> prev)) as (prev' & Heq & Hlen & Hlo & Hhi);
        try done; try lia; [by rewrite length_insert|].
      exists prev'. split; [done|]. split; [done|]. split.
      * intros j Hj. destruct (decide (j <= i)%nat) as [|Hne]; [by apply Hlo|].
        replace j with (S i) by lia. rewrite Hhi by lia. rewrite list_lookup_insert_eq by lia. by rewrite Hlast.
      * intros j Hj. rewrite Hhi by lia. by rewrite list_lookup_insert_ne by lia.
Qed.

(** The search returns the first node whose key is not less than the one sought, and in
    [prev] the last node before it at every level in use. *)
Lemma FindGreaterOrEqual_spec key :
  exists prev, FindGreaterOrEqual s key = Ret (fst <$> head (from key (lv 0%nat)), prev) /\
    length prev = kMaxHeight /\
    (forall j, (j < max_height_ s)%nat -> prev !! j = Some (Some (pos_id (last (before key (lv j)))))).
Proof.
  pose proof (ch_height _ _ Hs). pose proof order_length.
  destruct (FindGreaterOrEqual_loop_spec key (search_fuel s) None (max_height_ s - 1)
              (lv (max_height_ s - 1)%nat) (lv 0%nat) (replicate kMaxHeight None)) as (prev & Heq & Hlen & Hlo & _);
    try done; try lia; [unfold search_fuel; lia|].
  exists prev. split; [exact Heq|]. split; [done|]. intros j Hj. apply Hlo. lia.
Qed.

Lemma pos_not_head e i : e ∈ lv i -> (e.1 =? head_)%nat = false.
Proof.
  intros He. apply Nat.eqb_neq. pose proof (ch_ids _ _ Hs) as Hf. rewrite Forall_forall in Hf.
  apply Hf. eapply level_elem; [|exact He]. lia.
Qed.

Lemma FindLessThan_loop_spec key fuel : forall c i ri r0,
  (i < kMaxHeight)%nat -> at_pos c (lv i) ri -> at_pos c (lv 0%nat) r0 -> pos_below c key ->
  (length r0 + i < fuel)%nat ->
  FindLessThan_loop fuel s key (pos_id c) i = Ret (pos_id (last (before key (lv 0%nat)))).
Proof.
  induction fuel as [|fuel IH]; intros c i ri r0 Hi Hri Hr0 Hb Hf; [lia|].
  cbn [FindLessThan_loop]. destruct (at_pos_step c i ri Hi Hri) as [Hnext Hk].
  assert (exists k, NodeKey s (pos_id c) = Ret k /\ ((pos_id c =? head_)%nat || (compare_ k key <? 0)) = true)
    as (k & -> & Hass).
  { destruct c as [e|]; simpl in *.
    - destruct Hri as [l1 Hl]. exists e.2. split.
      + apply (entry_key e i); [done|]. rewrite Hl, elem_of_app, elem_of_cons; auto.
      + unfold key_below in Hb. rewrite (proj2 (Z.ltb_lt _ _) Hb). apply orb_true_r.
    - unfold NodeNext in Hnext. unfold NodeKey. destruct (nodes_ s !! head_); [|done]. eauto. }
  cbn [obind]. rewrite Hass. cbn [obind oassert]. rewrite Hnext. cbn [obind].
  assert ((forall e r, ri = e :: r -> ~ key_below e.2 key) ->
    match i with O => Ret (pos_id c) | S level => FindLessThan_loop fuel s key (pos_id c) level end =
    Ret (pos_id (last (before key (lv 0%nat))))) as Hdown.
  { intros Hstop. destruct i as [|i].
    - by destruct (at_pos_stop c (lv 0%nat) ri key (level_sorted 0) Hri Hb Hstop) as [-> _].
    - destruct (at_pos_down c i ri Hri) as [ri' Hri']. apply (IH c i ri' r0); try done; lia. }
  destruct ri as [|e r]; simpl.
  - by apply Hdown.
  - rewrite (Hk e eq_refl). cbn [obind]. destruct (Z.leb_spec 0 (compare_ e.2 key)).
    + apply Hdown. intros ?? [= <- <-]. unfold key_below. lia.
    + destruct (at_pos_next c i e r r0 Hri Hr0) as (Hn & r' & Hn0 & Hlt).
      apply (IH (Some e) i r r'); try done. lia.
Qed.

Lemma FindLessThan_spec key : FindLessThan s key = Ret (pos_id (last (before key (lv 0%nat)))).
Proof.
  pose proof (ch_height _ _ Hs). pose proof order_length.
  apply (FindLessThan_loop_spec key (search_fuel s) None _ (lv (max_height_ s - 1)%nat) (lv 0%nat));
    try done; try lia. unfold search_fuel. lia.
Qed.

Lemma FindLast_loop_spec fuel : forall c i ri r0,
  (i < kMaxHeight)%nat -> at_pos c (lv i) ri -> at_pos c (lv 0%nat) r0 ->
  (length r0 + i < fuel)%nat ->
  FindLast_loop fuel s (pos_id c) i = Ret (pos_id (last (lv 0%nat))).
Proof.
  induction fuel as [|fuel IH]; intros c i ri r0 Hi Hri Hr0 Hf; [lia|].
  cbn [FindLast_loop]. destruct (at_pos_step c i ri Hi Hri) as [-> _]. cbn [obind].
  destruct ri as [|e r]; simpl.
  - destruct i as [|i].
    + destruct c as [e|]; simpl in *; [destruct Hri as [l1 ->]; by rewrite last_snoc | by rewrite <- Hri].
    + destruct (at_pos_down c i [] Hri) as [ri' Hri']. apply (IH c i ri' r0); try done; lia.
  - destruct (at_pos_next c i e r r0 Hri Hr0) as (Hn & r' & Hn0 & Hlt).
    apply (IH (Some e) i r r'); try done. lia.
Qed.

Lemma FindLast_spec : FindLast s = Ret (pos_id (last (lv 0%nat))).
Proof.
  pose proof (ch_height _ _ Hs). pose proof order_length.
  apply (FindLast_loop_spec (search_fuel s) None _ (lv (max_height_ s - 1)%nat) (lv 0%nat));
    try done; try lia. unfold search_fuel. lia.
Qed.

(** Membership is what the search for the key finds. *)
Lemma from_head_equal key l :
  sorted l -> match head (from key l) with
              | Some e => e ∈ l /\ (compare_ key e.2 = 0 <-> ~ absent key l)
              | None => absent key l
              end.
Proof.
  intros Hsl. pose proof (before_from key l Hsl) as Hbf.
  assert (absent key (before key l)) as Hab.
  { eapply Forall_impl; [apply Forall_before|]. intros e He. unfold key_below in He.
    pose proof (compare_swap e.2 key). lia. }
  assert (sorted (from key l)) as Hsf by (eapply sublist_sorted; [apply sublist_filter|done]).
  pose proof (Forall_from key l) as Hf. unfold absent in *.
  set (b := before key l) in *. set (f := from key l) in *. clearbody b f. subst l.
  destruct f as [|e r]; simpl; [by rewrite app_nil_r|].
  split; [rewrite elem_of_app, elem_of_cons; auto|]. rewrite Forall_app, Forall_cons. split.
  - tauto.
  - intros Hn. destruct (decide (compare_ key e.2 = 0)) as [|Hne]; [done|]. exfalso. apply Hn.
    split; [done|]. split; [done|]. inversion_clear Hsf as [|?? _ He]. inversion_clear Hf as [|?? Hke _].
    eapply Forall_impl; [exact He|]. intros a Ha. unfold key_below in Hke. unfold entry_lt in Ha.
    assert (compare_ key e.2 <= 0) as Hle
      by (pose proof (compare_swap e.2 key); pose proof (compare_swap key e.2); lia).
    pose proof (key_below_le_l _ _ _ Hle Ha) as Hka. unfold key_below in Hka. lia.
Qed.

Lemma found_equal key :
  match fst <$> head (from key (lv 0%nat)) with
  | None => Ret false
  | Some x => let! k := NodeKey s x in Ret (Equal key k)
  end = Ret (existsb (fun e => Equal key e.2) (lv 0%nat)).
Proof.
  pose proof (from_head_equal key _ (ch_sorted _ _ Hs)) as Hh.
  pose proof (absent_existsb key (lv 0%nat)) as Habs.
  destruct (head (from key (lv 0%nat))) as [e|] eqn:E; simpl.
  - destruct Hh as [He Heq]. rewrite (entry_key e 0) by (done || (unfold kMaxHeight; lia)). cbn [obind].
    f_equal. unfold Equal at 1. destruct (existsb _ _) eqn:Ex.
    + apply Z.eqb_eq, Heq. intros Ha%Habs. congruence.
    + apply Z.eqb_neq. intros H0%Heq. by apply H0, Habs.
  - by apply Habs in Hh as ->.
Qed.

End Search.

(** ** Insertion *)

Lemma SetNext_spec s x n p q :
  NodeNext s x n = Ret q ->
  exists s', SetNext s x n p = Ret s' /\ max_height_ s' = max_height_ s /\ rnd_ s' = rnd_ s /\
    length (nodes_ s') = length (nodes_ s) /\
    (forall y, NodeKey s' y = NodeKey s y) /\
    NodeNext s' x n = Ret p /\
    (forall y m, y <> x \/ m <> n -> NodeNext s' y m = NodeNext s y m).
Proof.
  unfold NodeNext, SetNext, NodeKey. destruct (nodes_ s !! x) as [nd|] eqn:Ex; [|done].
  destruct (next_ nd !! n) as [q'|] eqn:En; [|done]. intros _. eexists. split; [reflexivity|]. simpl.
  apply lookup_lt_Some in Ex as Hx. apply lookup_lt_Some in En as Hn.
  split; [done|]. split; [done|]. split; [by rewrite length_insert|]. split; [|split].
  - intros y. destruct (decide (y = x)) as [->|Hne]; [by rewrite list_lookup_insert_eq, Ex|].
    by rewrite list_lookup_insert_ne.
  - rewrite list_lookup_insert_eq by done. simpl. by rewrite list_lookup_insert_eq.
  - intros y m Hym. destruct (decide (y = x)) as [->|Hne]; [|by rewrite list_lookup_insert_ne].
    rewrite list_lookup_insert_eq, Ex by done. simpl. rewrite list_lookup_insert_ne; [done|]. by destruct Hym.
Qed.

(** A chain is determined by the links and the keys of its nodes. *)
Lemma chain_frame s s' i x l :
  (forall y q, y ∈ x :: l.*1 -> NodeNext s y i = Ret q -> NodeNext s' y i = Ret q) ->
  (forall y k, NodeKey s y = Ret k -> NodeKey s' y = Ret k) ->
  chain s i x l -> chain s' i x l.
Proof.
  revert x. induction l as [|e l IH]; simpl; intros x Hn Hk Hc.
  - apply Hn; [by left|done].
  - destruct Hc as (Hx & He & Hc). split; [apply Hn; [by left|done]|]. split; [by apply Hk|].
    apply IH; [|done|done]. intros y q Hy. apply Hn. by right.
Qed.

Definition last_id (x : nat) (l : list entry) : nat := match last l with None => x | Some e => e.1 end.

Lemma last_id_elem x l : last_id x l ∈ x :: l.*1.
Proof.
  unfold last_id. destruct (last l) as [e|] eqn:E; [|by left]. right.
  apply last_Some in E as [l' ->]. rewrite fmap_app, elem_of_app. right. by left.
Qed.

Lemma last_id_cons x a l : last_id x (a :: l) = last_id a.1 l.
Proof. unfold last_id. rewrite last_cons. by destruct (last l). Qed.

(** Linking the node [x] in after the last node of [l1]. *)
Lemma chain_insert s s' i x k l2 : forall l1 x0,
  NoDup (x0 :: (l1 ++ l2).*1) -> chain s i x0 (l1 ++ l2) ->
  NodeNext s' (last_id x0 l1) i = Ret (Some x) ->
  NodeNext s (last_id x0 l1) i = NodeNext s' x i ->
  (forall y, y <> last_id x0 l1 -> y <> x -> NodeNext s' y i = NodeNext s y i) ->
  (forall y, NodeKey s' y = NodeKey s y) -> NodeKey s x = Ret k ->
  x ∉ x0 :: (l1 ++ l2).*1 ->
  chain s' i x0 (l1 ++ (x, k) :: l2).
Proof.
  induction l1 as [|a l1 IH]; intros x0 Hnd Hc Hp Hq Hother Hkey Hxk Hx.
  - unfold last_id in *. simpl in *. split; [done|]. split; [by rewrite Hkey|].
    apply NoDup_cons in Hnd as [Hx0 Hnd]. destruct l2 as [|e l2]; simpl in *.
    + by rewrite <- Hq.
    + destruct Hc as (Hn & He & Hc). split; [by rewrite <- Hq|]. split; [by rewrite Hkey|].
      eapply chain_frame; [| |exact Hc].
      * intros y q Hy <-. apply Hother; intros ->; [done|]. apply Hx. by right.
      * intros y q <-. apply Hkey.
  - rewrite last_id_cons in *. simpl in *. destruct Hc as (Hn & Ha & Hc).
    apply NoDup_cons in Hnd as [Hx0 Hnd].
    split. { rewrite Hother; [done| |].
      - intros ->. apply Hx0. rewrite fmap_app. pose proof (last_id_elem a.1 l1) as Hl.
        rewrite elem_of_cons in *. rewrite elem_of_app. tauto.
      - intros ->. apply Hx. by left. }
    split; [by rewrite Hkey|]. apply IH; try done. intros Hin. apply Hx. by right.
Qed.

Lemma filter_sublist (P : entry -> Prop) `{forall x, Decision (P x)} l k :
  sublist l k -> sublist (filter P l) (filter P k).
Proof.
  induction 1 as [|e l k _ IH|e l k _ IH]; [done| |]; rewrite !filter_cons.
  - destruct (decide (P e)); [by constructor|done].
  - destruct (decide (P e)); [by constructor|done].
Qed.

Lemma ins_sublist e l k : sublist l k -> sublist (ins e l) (ins e k).
Proof.
  intros Hl. apply sublist_app; [by apply filter_sublist|]. constructor. by apply filter_sublist.
Qed.

Lemma sublist_ins e l k : sorted l -> sublist l k -> sublist l (ins e k).
Proof.
  intros Hl Hlk. rewrite <- (before_from e.2 l) by done. unfold ins.
  apply sublist_app; [by apply filter_sublist|]. constructor. by apply filter_sublist.
Qed.

(** The chains while a node is linked in from the bottom: the levels below [n] have it. *)
Definition stage (lv : nat -> list entry) (e : entry) (n i : nat) : list entry :=
  if (i <? n)%nat then ins e (lv i) else lv i.

Section Linking.
Context (s0 : SkipList) (lv : nat -> list entry) (Hs0 : Chains s0 lv).
Context (x : nat) (key : Key) (Hfresh : (length (nodes_ s0) <= x)%nat) (Habs : absent key (lv 0%nat)).

Let e : entry := (x, key).

Lemma stage_sub n i : sublist (stage lv e n (S i)) (stage lv e n i).
Proof.
  unfold stage. destruct (Nat.ltb_spec (S i) n), (Nat.ltb_spec i n); try lia.
  - apply ins_sublist, (ch_sub _ _ Hs0).
  - apply sublist_ins; [by eapply level_sorted | apply (ch_sub _ _ Hs0)].
  - apply (ch_sub _ _ Hs0).
Qed.

Lemma stage_0_elem n a : a ∈ stage lv e n 0 -> a = e \/ a ∈ lv 0%nat.
Proof.
  unfold stage. destruct (0 <? n)%nat; [|auto]. rewrite ins_perm by apply (ch_sorted _ _ Hs0).
  apply elem_of_cons.
Qed.

Lemma fresh_not_in i : x ∉ head_ :: (lv i).*1.
Proof.
  rewrite elem_of_cons. intros [Hx|Hin].
  - pose proof (ch_chain _ _ Hs0 0 ltac:(unfold kMaxHeight; lia)) as Hc.
    assert (0 < length (nodes_ s0))%nat; [|unfold head_ in *; lia].
    destruct (nodes_ s0) eqn:E; simpl; [|lia].
    destruct (lv 0%nat) as [|a l]; simpl in Hc; unfold NodeNext in Hc; rewrite E in Hc; [done|by destruct Hc].
  - apply list_elem_of_fmap in Hin as (a & Ha & Hin).
    assert (NodeKey s0 a.1 = Ret a.2) as Hk%NodeKey_lt.
    { eapply (entry_key s0 lv Hs0 a 0); [unfold kMaxHeight; lia|]. eapply (level_elem s0 lv Hs0 i); [lia|done]. }
    lia.
Qed.

Lemma level_NoDup i : NoDup (head_ :: (lv i).*1).
Proof.
  apply NoDup_cons. split.
  - intros Hin. apply list_elem_of_fmap in Hin as (a & Ha & Hin).
    pose proof (ch_ids _ _ Hs0) as Hf. rewrite Forall_forall in Hf. apply (Hf a); [|done].
    by eapply (level_elem s0 lv Hs0 i); [lia|].
  - eapply sublist_NoDup; [by eapply ids_NoDup|]. apply fmap_sublist, (level_sub s0 lv Hs0).
Qed.

(** The nodes of a list with the new node in the store, not yet linked at the levels from
    [n] on. *)
Record Linking (s : SkipList) (height n : nat) : Prop := {
  lk_chains : Chains s (stage lv e n);
  lk_height : (max_height_ s0 <= max_height_ s)%nat;
  lk_key : NodeKey s x = Ret key;
  lk_next i : (i < height)%nat -> exists q, NodeNext s x i = Ret q;
}.

(** The invariant of every stage follows from the chains alone. *)
Lemma Chains_build s n :
  (0 < max_height_ s <= kMaxHeight)%nat -> (max_height_ s0 <= max_height_ s /\ n <= max_height_ s)%nat ->
  (forall i, (i < kMaxHeight)%nat -> chain s i head_ (stage lv e n i)) ->
  Chains s (stage lv e n).
Proof.
  intros Hh Hm Hc. split; [done|done|apply stage_sub| | |].
  - unfold stage. destruct (0 <? n)%nat; [|apply (ch_sorted _ _ Hs0)].
    by apply ins_sorted; [apply (ch_sorted _ _ Hs0)|].
  - apply Forall_forall. intros a Ha. apply stage_0_elem in Ha as [->|Ha].
    + intros Hx. apply (fresh_not_in 0). simpl in Hx. rewrite Hx. by left.
    + pose proof (ch_ids _ _ Hs0) as Hf. rewrite Forall_forall in Hf. by apply Hf.
  - intros i Hi. unfold stage. destruct (Nat.ltb_spec i n); [lia|]. apply (ch_top _ _ Hs0). lia.
Qed.

Lemma chain_next s i x0 l y : chain s i x0 l -> y ∈ x0 :: l.*1 -> exists q, NodeNext s y i = Ret q.
Proof.
  revert x0. induction l as [|a l IH]; simpl; intros x0 Hc Hy.
  - apply list_elem_of_singleton in Hy as ->. eauto.
  - destruct Hc as (Hn & _ & Hc). apply elem_of_cons in Hy as [->|Hy]; [eauto|]. by eapply IH.
Qed.

Lemma link_level s height n p :
  Linking s height n -> (n < height <= max_height_ s)%nat -> p = pos_id (last (before key (lv n))) ->
  exists next s1 s2,
    NodeNext s p n = Ret next /\ SetNext s x n next = Ret s1 /\ SetNext s1 p n (Some x) = Ret s2 /\
    max_height_ s1 = max_height_ s /\ max_height_ s2 = max_height_ s /\
    Linking s1 height n /\ Linking s2 height (S n).
Proof.
  intros [Hc Hm0 Hk Hx] Hn ->. assert (n < kMaxHeight)%nat as Hn12 by (pose proof (ch_height _ _ Hc); lia).
  pose proof (before_from key (lv n) (level_sorted s0 lv Hs0 n)) as Hbf.
  pose proof (ch_chain _ _ Hc n Hn12) as Hcn. unfold stage in Hcn. rewrite Nat.ltb_irrefl in Hcn.
  pose proof (fresh_not_in n) as Hxn. pose proof (level_NoDup n) as Hnd.
  change (pos_id (last (before key (lv n)))) with (last_id head_ (before key (lv n))).
  set (p := last_id head_ (before key (lv n))).
  assert (p ∈ head_ :: (lv n).*1) as Hp.
  { pose proof (last_id_elem head_ (before key (lv n))) as Hl. fold p in Hl.
    rewrite elem_of_cons in *. destruct Hl as [|Hl]; [by left|right].
    rewrite <- Hbf, fmap_app, elem_of_app. by left. }
  assert (x <> p) as Hxp by (intros ->; done).
  assert (exists next, NodeNext s p n = Ret next) as [next Hnext] by (by eapply chain_next).
  destruct (Hx n) as [q Hq]; [lia|].
  destruct (SetNext_spec s x n next q Hq) as (s1 & Hs1 & Hm1 & _ & _ & Hk1 & Hx1 & Ho1).
  destruct (SetNext_spec s1 p n (Some x) next) as (s2 & Hs2 & Hm2 & _ & _ & Hk2 & Hx2 & Ho2).
  { rewrite Ho1; [done|]. by left. }
  exists next, s1, s2. split; [done|]. split; [done|]. split; [done|]. split; [done|]. split; [congruence|].
  split; split.
  - apply (Chains_build s1 n); [rewrite Hm1; by apply (ch_height _ _ Hc)|rewrite Hm1; lia|].
    intros j Hj. eapply chain_frame; [| |exact (ch_chain _ _ Hc j Hj)].
    + intros y r Hy Hr. rewrite Ho1; [done|]. destruct (decide (j = n)) as [->|]; [|by right]. left.
      intros ->. unfold stage in Hy. by rewrite Nat.ltb_irrefl in Hy.
    + intros y r <-. apply Hk1.
  - by rewrite Hm1.
  - by rewrite Hk1.
  - intros i Hi. destruct (decide (i = n)) as [->|]; [eauto|]. rewrite Ho1 by auto. by apply Hx.
  - apply (Chains_build s2 (S n)); [rewrite Hm2, Hm1; by apply (ch_height _ _ Hc)|rewrite Hm2, Hm1; lia|].
    intros j Hj. destruct (decide (j = n)) as [->|Hne].
    + unfold stage. rewrite (proj2 (Nat.ltb_lt n (S n))) by lia. unfold ins. rewrite <- Hbf in Hcn, Hxn, Hnd.
      apply (chain_insert s s2); try done.
      * change (NodeNext s p n = NodeNext s2 x n). rewrite Hnext, Ho2; [done|]. by left.
      * intros y Hy1 Hy2. rewrite Ho2, Ho1; auto.
      * intros y. by rewrite Hk2, Hk1.
    + replace (stage lv e (S n) j) with (stage lv e n j).
      2:{ unfold stage. by destruct (Nat.ltb_spec j n), (Nat.ltb_spec j (S n)); try lia. }
      eapply chain_frame; [| |exact (ch_chain _ _ Hc j Hj)].
      * intros y r Hy Hr. rewrite Ho2, Ho1; auto.
      * intros y r <-. by rewrite Hk2, Hk1.
  - by rewrite Hm2, Hm1.
  - by rewrite Hk2, Hk1.
  - intros i Hi. destruct (decide (i = n)) as [->|].
    + exists next. rewrite Ho2; [done|]. by left.
    + rewrite Ho2, Ho1 by auto. by apply Hx.
Qed.

Lemma stage_top lv' e' n i : (n <= i)%nat -> stage lv' e' n i = lv' i.
Proof. unfold stage. destruct (Nat.ltb_spec i n); [lia|done]. Qed.

Lemma link_levels_spec height prev : forall m n s,
  (n + m = height)%nat -> Linking s height n -> (height <= max_height_ s)%nat ->
  (forall j, (j < height)%nat -> prev !! j = Some (Some (pos_id (last (before key (lv j)))))) ->
  exists s', link_levels m n s x prev = Ret s' /\ Linking s' height height.
Proof.
  induction m as [|m IH]; intros n s Hn Hl Hh Hprev; cbn [link_levels].
  - exists s. replace height with n in * by lia. done.
  - rewrite Hprev by lia.
    destruct (link_level s height n _ Hl ltac:(lia) eq_refl)
      as (next & s1 & s2 & -> & Hs1 & Hs2 & Hm1 & Hm2 & Hl1 & Hl2).
    cbn [obind]. rewrite Hs1. cbn [obind]. rewrite Hs2. cbn [obind].
    apply IH; [lia|done|lia|done].
Qed.

End Linking.

Lemma height_loop_range fuel : forall seed h,
  (h <= kMaxHeight)%nat -> (h <= (height_loop fuel seed h).1 <= kMaxHeight)%nat.
Proof.
  induction fuel as [|fuel IH]; intros seed h Hh; cbn [height_loop]; [cbn [fst]; lia|].
  destruct (Nat.ltb_spec h kMaxHeight); [|cbn [fst]; lia].
  cbv zeta. set (seed' := random_Next seed). clearbody seed'.
  destruct (_ =? 0); [|cbn [fst]; lia]. pose proof (IH seed' (S h)). lia.
Qed.

Lemma RandomHeight_spec s :
  exists seed h, RandomHeight s = Ret (mkSkipList (nodes_ s) (max_height_ s) seed, h) /\
    (1 <= h <= kMaxHeight)%nat.
Proof.
  unfold RandomHeight. pose proof (height_loop_range kMaxHeight (rnd_ s) 1) as Hh.
  destruct (height_loop kMaxHeight (rnd_ s) 1) as [h seed]. cbn [fst] in Hh.
  assert (1 <= h <= kMaxHeight)%nat as Hr by (unfold kMaxHeight in *; lia).
  rewrite (proj2 (Nat.ltb_lt 0 h)), (proj2 (Nat.leb_le h kMaxHeight)) by lia. cbn [obind oassert].
  by exists seed, h.
Qed.

Lemma set_heads_lookup n : forall i prev j,
  (i + n <= length prev)%nat ->
  set_heads n i prev !! j =
    if decide (i <= j < i + n)%nat then Some (Some head_) else prev !! j.
Proof.
  induction n as [|n IH]; intros i prev j Hn; cbn [set_heads].
  - by destruct (decide _); [lia|].
  - rewrite IH by (rewrite length_insert; lia). destruct (decide (j = i)) as [->|Hne].
    + rewrite list_lookup_insert_eq by lia. by destruct (decide _), (decide _); try lia.
    + rewrite list_lookup_insert_ne by done. by destruct (decide _), (decide _); try lia.
Qed.

(** The state of the insertion after its first stores: the height raised and the new node
    in the store. *)
Definition insert_start (s : SkipList) (key : Key) (seed : Z) (h : nat) : SkipList :=
  mkSkipList (nodes_ s ++ [mkNode key (replicate h None)]) (Nat.max (max_height_ s) h) seed.

Lemma insert_start_Linking s lv key seed h :
  Chains s lv -> absent key (lv 0%nat) -> (1 <= h <= kMaxHeight)%nat ->
  Linking s lv (length (nodes_ s)) key (insert_start s key seed h) h 0.
Proof.
  intros Hs Habs Hh. pose proof (ch_height _ _ Hs).
  assert (nodes_ (insert_start s key seed h) !! length (nodes_ s) = Some (mkNode key (replicate h None))) as Hx.
  { simpl. rewrite lookup_app_r by lia. by rewrite Nat.sub_diag. }
  assert (forall y nd, nodes_ s !! y = Some nd -> nodes_ (insert_start s key seed h) !! y = Some nd) as Hy.
  { intros y nd Hy. simpl. by apply lookup_app_l_Some. }
  split.
  - apply (Chains_build s lv Hs); [lia|done|simpl; lia|simpl; lia|]. intros i Hi.
    eapply chain_frame; [| |exact (ch_chain _ _ Hs i Hi)].
    + intros y q _. unfold NodeNext. destruct (nodes_ s !! y) eqn:E; [|done]. by rewrite (Hy _ _ E).
    + intros y k. unfold NodeKey. destruct (nodes_ s !! y) eqn:E; [|done]. by rewrite (Hy _ _ E).
  - simpl. lia.
  - unfold NodeKey. by rewrite Hx.
  - intros i Hi. unfold NodeNext. rewrite Hx. simpl. rewrite lookup_replicate_2 by done. eauto.
Qed.

(** The array [prev] of an insertion, with the head at the levels not in use so far. *)
Lemma insert_prev s lv key prev h :
  Chains s lv -> (h <= kMaxHeight)%nat -> length prev = kMaxHeight ->
  (forall j, (j < max_height_ s)%nat -> prev !! j = Some (Some (pos_id (last (before key (lv j)))))) ->
  forall j, (j < h)%nat ->
    (if (max_height_ s <? h)%nat then set_heads (h - max_height_ s) (max_height_ s) prev else prev) !! j =
    Some (Some (pos_id (last (before key (lv j))))).
Proof.
  intros Hs Hh Hlen Hprev j Hj. destruct (Nat.ltb_spec (max_height_ s) h).
  - rewrite set_heads_lookup by lia. destruct (decide _); [|apply Hprev; lia].
    by rewrite (ch_top _ _ Hs j) by lia.
  - apply Hprev. lia.
Qed.

Lemma Insert_unfold s lv key :
  Chains s lv -> absent key (lv 0%nat) ->
  exists seed h prev, Insert s key = link_levels h 0 (insert_start s key seed h) (length (nodes_ s)) prev /\
    (1 <= h <= kMaxHeight)%nat /\
    (forall j, (j < h)%nat -> prev !! j = Some (Some (pos_id (last (before key (lv j)))))).
Proof.
  intros Hs Habs. unfold Insert.
  destruct (FindGreaterOrEqual_spec s lv Hs key) as (prev & -> & Hlen & Hprev). cbn [obind].
  rewrite (found_equal s lv Hs key). cbn [obind].
  rewrite (proj1 (absent_existsb key (lv 0%nat)) Habs).
  cbn [obind oassert negb]. destruct (RandomHeight_spec s) as (seed & h & -> & Hh). cbn [obind].
  exists seed, h. cbn [max_height_ nodes_ rnd_].
  exists (if (max_height_ s <? h)%nat then set_heads (h - max_height_ s) (max_height_ s) prev else prev).
  split; [|split; [done|apply insert_prev; try done; lia]]. unfold insert_start.
  destruct (Nat.ltb_spec (max_height_ s) h); cbn [nodes_ max_height_ rnd_ NewNode].
  - by rewrite Nat.max_r by lia.
  - by rewrite Nat.max_l by lia.
Qed.

(** An insertion of a new key succeeds, and the chains are those of the sorted sequence
    with the new node. *)
Lemma Insert_spec s lv key :
  Chains s lv -> absent key (lv 0%nat) ->
  exists s' h, Insert s key = Ret s' /\ (1 <= h <= kMaxHeight)%nat /\
    Chains s' (stage lv (length (nodes_ s), key) h).
Proof.
  intros Hs Habs. destruct (Insert_unfold s lv key Hs Habs) as (seed & h & prev & -> & Hh & Hprev).
  destruct (link_levels_spec s lv Hs (length (nodes_ s)) key ltac:(lia) Habs h prev h 0
              (insert_start s key seed h)) as (s' & Heq & Hl); [lia|by apply insert_start_Linking|simpl; lia|done|].
  exists s', h. split; [done|]. split; [done|]. apply Hl.
Qed.

Lemma Insert_duplicate s lv key :
  Chains s lv -> ~ absent key (lv 0%nat) -> Insert s key = AssertFailed.
Proof.
  intros Hs Hdup. unfold Insert.
  destruct (FindGreaterOrEqual_spec s lv Hs key) as (prev & -> & _ & _). cbn [obind].
  rewrite (found_equal s lv Hs key). cbn [obind].
  destruct (existsb _ _) eqn:E; [done|]. by apply absent_existsb in E.
Qed.

Lemma new_SkipList_Chains any : Chains (new_SkipList any) (fun _ => []).
Proof.
  split; cbn [max_height_ new_SkipList]; try done; [unfold kMaxHeight; lia| |constructor].
  intros i Hi.
  change (match replicate kMaxHeight (@None nat) !! i with Some p => Ret p | None => AssertFailed end = Ret None).
  by rewrite lookup_replicate_2.
Qed.

(** ** What the clients see: one sorted sequence of nodes *)

Definition Repr (s : SkipList) (l : list entry) : Prop := exists lv, Chains s lv /\ lv 0%nat = l.

Lemma Repr_sorted s l : Repr s l -> sorted l.
Proof. intros (lv & Hs & <-). apply (ch_sorted _ _ Hs). Qed.

Lemma Repr_key s l e : Repr s l -> e ∈ l -> NodeKey s e.1 = Ret e.2.
Proof. intros (lv & Hs & <-) He. apply (entry_key s lv Hs e 0); [unfold kMaxHeight; lia|done]. Qed.

Lemma Repr_new any : Repr (new_SkipList any) [].
Proof. eexists. split; [apply new_SkipList_Chains|done]. Qed.

Lemma Repr_Insert s l key :
  Repr s l -> absent key l ->
  exists s', Insert s key = Ret s' /\ Repr s' (ins (length (nodes_ s), key) l).
Proof.
  intros (lv & Hs & <-) Habs. destruct (Insert_spec s lv key Hs Habs) as (s' & h & -> & Hh & Hs').
  exists s'. split; [done|]. eexists. split; [exact Hs'|]. unfold stage.
  by rewrite (proj2 (Nat.ltb_lt 0 h)) by lia.
Qed.

Lemma Repr_Contains s l key : Repr s l -> Contains s key = Ret (existsb (fun e => Equal key e.2) l).
Proof.
  intros (lv & Hs & <-). unfold Contains.
  destruct (FindGreaterOrEqual_spec s lv Hs key) as (prev & -> & _ & _). cbn [obind]. by apply found_equal.
Qed.

Lemma Repr_Seek s l key : Repr s l -> iter_Seek s key = Ret (fst <$> head (from key l)).
Proof.
  intros (lv & Hs & <-). unfold iter_Seek.
  by destruct (FindGreaterOrEqual_spec s lv Hs key) as (prev & -> & _ & _).
Qed.

Lemma pos_iter s lv c :
  Chains s lv -> (forall e, c = Some e -> e ∈ lv 0%nat) ->
  (if (pos_id c =? head_)%nat then None else Some (pos_id c)) = fst <$> c.
Proof.
  intros Hs Hc. destruct c as [e|]; [|done]. simpl. by rewrite (pos_not_head s lv Hs e 0) by (by apply Hc).
Qed.

Lemma Repr_SeekToFirst s l : Repr s l -> iter_SeekToFirst s = Ret (fst <$> head l).
Proof.
  intros (lv & Hs & <-). unfold iter_SeekToFirst.
  apply (at_pos_step s lv Hs None 0); [unfold kMaxHeight; lia|done].
Qed.

Lemma Repr_SeekToLast s l : Repr s l -> iter_SeekToLast s = Ret (fst <$> last l).
Proof.
  intros (lv & Hs & <-). unfold iter_SeekToLast. rewrite (FindLast_spec s lv Hs). cbn [obind]. f_equal.
  apply (pos_iter s lv); [done|]. intros e He. by eapply last_Some_elem_of.
Qed.

Lemma Repr_Next s l1 e l2 : Repr s (l1 ++ e :: l2) -> iter_Next s (Some e.1) = Ret (fst <$> head l2).
Proof.
  intros (lv & Hs & Hl). simpl.
  apply (at_pos_step s lv Hs (Some e) 0); [unfold kMaxHeight; lia|]. rewrite Hl. by exists l1.
Qed.

Lemma Repr_Prev s l1 e l2 : Repr s (l1 ++ e :: l2) -> iter_Prev s (Some e.1) = Ret (fst <$> last l1).
Proof.
  intros Hr. unfold iter_Prev. rewrite (Repr_key s _ e Hr) by (rewrite elem_of_app, elem_of_cons; auto).
  cbn [obind]. pose proof (Repr_sorted _ _ Hr) as Hsd. destruct Hr as (lv & Hs & Hl).
  rewrite (FindLessThan_spec s lv Hs), Hl. cbn [obind]. f_equal.
  apply sorted_split in Hsd as (_&_&Hb&Hf&_).
  destruct (before_from_app e.2 l1 (e :: l2)) as [-> _]; [exact Hb| |].
  { constructor; [apply key_below_irrefl|]. eapply Forall_impl; [exact Hf|]. intros a Ha Hk.
    eapply key_below_irrefl, key_below_trans; [exact Ha|exact Hk]. }
  apply (pos_iter s lv); [done|]. intros a Ha. rewrite Hl, elem_of_app. left. by eapply last_Some_elem_of.
Qed.

Fixpoint insert_all (s : SkipList) (keys : list Key) : outcome SkipList :=
  match keys with
  | [] => Ret s
  | k :: keys => let! s := Insert s k in insert_all s keys
  end.

(** No two keys of the list are equal. *)
Fixpoint distinct (keys : list Key) : Prop :=
  match keys with
  | [] => True
  | k :: keys => Forall (fun k' => compare_ k' k <> 0) keys /\ distinct keys
  end.

Lemma insert_all_spec keys : forall s l,
  Repr s l -> distinct keys -> Forall (fun k => absent k l) keys ->
  exists s' l', insert_all s keys = Ret s' /\ Repr s' l' /\ l'.*2 ≡ₚ keys ++ l.*2.
Proof.
  induction keys as [|k keys IH]; intros s l Hs Hd Ha; cbn [insert_all].
  - by exists s, l.
  - apply Forall_cons in Ha as [Hk Ha]. destruct Hd as [Hdk Hd].
    destruct (Repr_Insert s l k Hs Hk) as (s1 & -> & Hs1). cbn [obind].
    pose proof (ins_perm (length (nodes_ s), k) l (Repr_sorted _ _ Hs)) as Hp.
    destruct (IH s1 _ Hs1 Hd) as (s' & l' & -> & Hs' & Hl').
    { apply Forall_forall. intros k' Hk'. rewrite Forall_forall in Hdk. rewrite Forall_forall in Ha.
      unfold absent. rewrite Hp. constructor; [by apply Hdk | by apply Ha]. }
    exists s', l'. split; [done|]. split; [done|]. rewrite Hl', Hp. simpl. by rewrite Permutation_middle.
Qed.

(** ** A reader while a node is inserted

    [skiplist.h] allows reads without a lock while one writer inserts. The writer is the
    sequence of lists its stores produce, the reader the iterations of
    [FindGreaterOrEqual], each on the list of that moment. *)

(** The lists after each store of [link_levels]. *)
Fixpoint link_trace (n i : nat) (s : SkipList) (x : nat) (prev : list (option nat)) : outcome (list SkipList) :=
  match n with
  | O => Ret []
  | S n =>
      match prev !! i with
      | Some (Some p) =>
          let! next := NodeNext s p i in
          let! s1 := SetNext s x i next in
          let! s2 := SetNext s1 p i (Some x) in
          let! rest := link_trace n (S i) s2 x prev in
          Ret (s1 :: s2 :: rest)
      | _ => AssertFailed
      end
  end.

(** The lists after each store of [Insert]: the height, the new node, the links. *)
Definition insert_trace (s : SkipList) (key : Key) : outcome (list SkipList) :=
  let! (_, prev) := FindGreaterOrEqual s key in
  let! (s, height) := RandomHeight s in
  let '(s1, prev) :=
    if (max_height_ s <? height)%nat then
      (mkSkipList (nodes_ s) height (rnd_ s), set_heads (height - max_height_ s) (max_height_ s) prev)
    else (s, prev) in
  let '(s2, x) := NewNode s1 key height in
  let! rest := link_trace height 0 s2 x prev in
  Ret (s1 :: s2 :: rest).

Inductive reader := Start | Reading (x level : nat) | Found (n : option nat).

(** One iteration of the loop of [FindGreaterOrEqual] (without [prev]). *)
Definition reader_step (s : SkipList) (key : Key) (r : reader) : outcome reader :=
  match r with
  | Start => Ret (Reading head_ (max_height_ s - 1))
  | Reading x level =>
      let! next := NodeNext s x level in
      let! after := KeyIsAfterNode s key next in
      match after, next with
      | true, Some next => Ret (Reading next level)
      | _, _ => match level with O => Ret (Found next) | S level => Ret (Reading x level) end
      end
  | Found n => Ret (Found n)
  end.

(** [race key s tr r s' r']: with the stores [tr] still to be made, the list [s] and the
    reader [r] can become [s'] and [r']. *)
Inductive race (key : Key) : SkipList -> list SkipList -> reader -> SkipList -> reader -> Prop :=
| race_refl s tr r : race key s tr r s r
| race_store s s1 tr r s' r' : race key s1 tr r s' r' -> race key s (s1 :: tr) r s' r'
| race_read s tr r r1 s' r' :
    reader_step s key r = Ret r1 -> race key s tr r1 s' r' -> race key s tr r s' r'.

(** The steps of a reader alone are the loop. *)
Lemma reader_loop s key fuel : forall x level prev n prev',
  FindGreaterOrEqual_loop fuel s key x level prev = Ret (n, prev') ->
  race key s [] (Reading x level) s (Found n).
Proof.
  induction fuel as [|fuel IH]; intros x level prev n prev' Heq; [done|]. cbn [FindGreaterOrEqual_loop] in Heq.
  apply obind_ret in Heq as (next & Hn & Heq). apply obind_ret in Heq as (after & Ha & Heq).
  destruct after.
  1: destruct next as [next|].
  all: destruct level as [|level]; simpl in Heq.
  all: eapply race_read; [cbn [reader_step]; rewrite Hn; cbn [obind]; rewrite Ha; reflexivity|].
  all: try (by eapply IH).
  all: injection Heq as -> _; constructor.
Qed.

Lemma last_indep (s1 s2 : SkipList) l : l <> [] -> List.last l s1 = List.last l s2.
Proof. induction l as [|a l IH]; [done|]. intros _. destruct l; [done|]. by apply IH. Qed.

Section Race.
Context (s0 : SkipList) (lv : nat -> list entry) (Hs0 : Chains s0 lv) (key : Key) (Habs : absent key (lv 0%nat)).

Let e : entry := (length (nodes_ s0), key).

(** The stores lead from stage to stage, one level at a time. *)
Inductive staged : nat -> list SkipList -> Prop :=
| staged_nil n : staged n []
| staged_cons n m s tr :
    (n <= m)%nat -> Chains s (stage lv e m) -> staged m tr -> staged n (s :: tr).

Lemma link_trace_staged height prev : forall m n s,
  (n + m = height)%nat -> Linking s0 lv (length (nodes_ s0)) key s height n -> (height <= max_height_ s)%nat ->
  (forall j, (j < height)%nat -> prev !! j = Some (Some (pos_id (last (before key (lv j)))))) ->
  exists tr, link_trace m n s (length (nodes_ s0)) prev = Ret tr /\ staged n tr /\
    link_levels m n s (length (nodes_ s0)) prev = Ret (List.last tr s).
Proof.
  induction m as [|m IH]; intros n s Hn Hl Hh Hprev; cbn [link_trace link_levels].
  - exists []. split; [done|]. split; [constructor|done].
  - rewrite Hprev by lia.
    destruct (link_level s0 lv Hs0 (length (nodes_ s0)) key ltac:(lia) Habs s height n _ Hl ltac:(lia) eq_refl)
      as (next & s1 & s2 & -> & Hs1 & Hs2 & Hm1 & Hm2 & Hl1 & Hl2).
    cbn [obind]. rewrite Hs1. cbn [obind]. rewrite Hs2. cbn [obind].
    destruct (IH (S n) s2) as (tr & -> & Htr & ->); [lia|done|lia|done|]. cbn [obind].
    exists (s1 :: s2 :: tr). split; [done|]. split.
    + apply (staged_cons n n); [lia|apply Hl1|]. apply (staged_cons n (S n)); [lia|apply Hl2|done].
    + f_equal. cbn [List.last]. by destruct tr; [|apply last_indep].
Qed.

Lemma insert_trace_staged :
  exists tr s', insert_trace s0 key = Ret tr /\ Insert s0 key = Ret s' /\
    staged 0 tr /\ List.last tr s0 = s'.
Proof.
  unfold insert_trace, Insert.
  destruct (FindGreaterOrEqual_spec s0 lv Hs0 key) as (prev & -> & Hlen & Hprev). cbn [obind].
  rewrite (found_equal s0 lv Hs0 key). cbn [obind].
  rewrite (proj1 (absent_existsb key (lv 0%nat)) Habs).
  cbn [obind oassert negb]. destruct (RandomHeight_spec s0) as (seed & h & -> & Hh).
  cbn [obind max_height_ nodes_ rnd_]. pose proof (insert_prev s0 lv key prev h Hs0 (proj2 Hh) Hlen Hprev) as Hp.
  pose proof (insert_start_Linking s0 lv key seed h Hs0 Habs Hh) as Hl.
  assert (Chains (mkSkipList (nodes_ s0) (Nat.max (max_height_ s0) h) seed) (stage lv e 0)) as Hraise.
  { pose proof (ch_height _ _ Hs0). apply (Chains_build s0 lv Hs0 (length (nodes_ s0)) key); [lia|done|simpl; lia|simpl; lia|].
    intros i Hi. by apply (chain_frame s0); [| |exact (ch_chain _ _ Hs0 i Hi)]. }
  destruct (link_trace_staged h _ h 0 _ eq_refl Hl ltac:(simpl; lia) Hp) as (tr & Htr & Hst & Hlk).
  unfold insert_start in Htr, Hlk, Hl.
  exists (mkSkipList (nodes_ s0) (Nat.max (max_height_ s0) h) seed :: insert_start s0 key seed h :: tr).
  eexists. split; [|split; [|split]]; [| |apply (staged_cons 0 0); [lia|exact Hraise|];
    apply (staged_cons 0 0); [lia|apply Hl|done] | reflexivity].
  - destruct (Nat.ltb_spec (max_height_ s0) h); cbn [nodes_ max_height_ rnd_ NewNode].
    + rewrite Nat.max_r in * by lia. rewrite Htr. cbn [obind]. unfold insert_start. by rewrite Nat.max_r by lia.
    + rewrite Nat.max_l in * by lia. rewrite Htr. cbn [obind]. unfold insert_start. by rewrite Nat.max_l by lia.
  - destruct (Nat.ltb_spec (max_height_ s0) h); cbn [nodes_ max_height_ rnd_ NewNode].
    + rewrite Nat.max_r in * by lia. rewrite Hlk. f_equal. cbn [List.last]. unfold insert_start. rewrite Nat.max_r by lia. by destruct tr; [|apply last_indep].
    + rewrite Nat.max_l in * by lia. rewrite Hlk. f_equal. cbn [List.last]. unfold insert_start. rewrite Nat.max_l by lia. by destruct tr; [|apply last_indep].
Qed.

(** What the reader knows between its steps: it is at a node of its level with a smaller
    key; when it is done it has the answer for the list with or without the new node. *)
Definition reader_ok (target : Key) (n : nat) (r : reader) : Prop :=
  match r with
  | Start => True
  | Reading x level =>
      (level < kMaxHeight)%nat /\
      exists c rest, x = pos_id c /\ at_pos c (stage lv e n level) rest /\ pos_below c target
  | Found p => exists m, (m <= n)%nat /\ p = fst <$> head (from target (stage lv e m 0))
  end.

Lemma stage_elem n m i a : (n <= m)%nat -> a ∈ stage lv e n i -> a ∈ stage lv e m i.
Proof.
  intros Hnm. unfold stage. destruct (Nat.ltb_spec i n), (Nat.ltb_spec i m); try done; try lia.
  rewrite ins_perm by (by eapply level_sorted). by right.
Qed.

Lemma reader_ok_mono target n m r : (n <= m)%nat -> reader_ok target n r -> reader_ok target m r.
Proof.
  intros Hnm. destruct r as [|x level|p]; simpl; [done| |].
  - intros (Hl & c & rest & -> & Hc & Hb). split; [done|]. exists c. destruct c as [a|]; simpl in *.
    + destruct Hc as [l1 Hc]. assert (a ∈ stage lv e m level) as Ha.
      { eapply stage_elem; [done|]. rewrite Hc, elem_of_app, elem_of_cons. auto. }
      apply list_elem_of_split in Ha as (k1 & k2 & ->). eauto.
    + eauto.
  - intros (m' & Hm & ->). exists m'. split; [lia|done].
Qed.

(** A read never fails and keeps what the reader knows. *)
Lemma reader_step_ok target n s r :
  Chains s (stage lv e n) -> reader_ok target n r ->
  exists r', reader_step s target r = Ret r' /\ reader_ok target n r'.
Proof.
  intros Hs Hr. destruct r as [|x level|p]; simpl reader_step.
  - eexists. split; [reflexivity|]. pose proof (ch_height _ _ Hs). split; [lia|].
    exists None. by eexists.
  - destruct Hr as (Hl & c & rest & -> & Hc & Hb).
    destruct (at_pos_step s _ Hs c level rest Hl Hc) as [-> Hk]. cbn [obind].
    assert ((forall a r, rest = a :: r -> ~ key_below a.2 target) ->
      exists r', match level with O => Ret (Found (fst <$> head rest)) | S level => Ret (Reading (pos_id c) level) end = Ret r' /\
        reader_ok target n r') as Hdown.
    { intros Hstop. destruct level as [|level]; eexists; split; try reflexivity.
      - exists n. split; [lia|].
        by destruct (at_pos_stop c _ rest target (level_sorted s _ Hs 0) Hc Hb Hstop) as [_ ->].
      - split; [lia|]. destruct (at_pos_down s _ Hs c level rest Hc) as [rest' Hc']. eauto. }
    destruct rest as [|a rest]; simpl; [by apply Hdown|].
    rewrite (Hk a eq_refl). cbn [obind]. destruct (Z.ltb_spec (compare_ a.2 target) 0) as [Hlt|Hge].
    + eexists. split; [reflexivity|]. split; [done|]. exists (Some a), rest. split; [done|]. split; [|done].
      destruct c as [b|]; simpl in *; [|subst; by exists []].
      destruct Hc as [l1 ->]. exists (l1 ++ [b]). by rewrite <- app_assoc.
    + apply Hdown. intros ?? [= <- <-]. unfold key_below. lia.
  - by eexists.
Qed.

Lemma race_ok target s tr r s' r' :
  race target s tr r s' r' -> forall n, Chains s (stage lv e n) -> staged n tr -> reader_ok target n r ->
  exists m, Chains s' (stage lv e m) /\ reader_ok target m r'.
Proof.
  induction 1 as [|s s1 tr r s' r' _ IH|s tr r r1 s' r' Hst _ IH]; intros n Hs Htr Hr.
  - eauto.
  - inversion_clear Htr as [|? m ?? Hnm Hs1 Htr']. apply (IH m); try done. by eapply reader_ok_mono.
  - destruct (reader_step_ok target n s r Hs Hr) as (r2 & Heq & Hr2).
    rewrite Hst in Heq. injection Heq as <-. by apply (IH n).
Qed.

End Race.

End SkipList.
Arguments Node : clear implicits.
Arguments SkipList : clear implicits.

(** ** Random numbers: the product modulo [2^31 - 1] without a division *)

Lemma random_Next_mod seed :
  0 < seed < random_M -> random_Next seed = (seed * random_A) mod random_M /\ 0 < random_Next seed < random_M.
Proof.
  unfold random_Next, random_M, random_A. intros Hs. cbv zeta.
  rewrite u64_small by lia. set (p := seed * 16807).
  assert (Z.land p 2147483647 = p mod 2147483648) as -> by (by apply (Z.land_ones p 31)).
  rewrite Z.shiftr_div_pow2 by lia. change (2 ^ 31) with 2147483648.
  assert (0 < p < 16807 * 2147483647) as Hp by lia.
  pose proof (Z.div_mod p 2147483648 ltac:(lia)) as Hdm.
  pose proof (Z.mod_pos_bound p 2147483648 ltac:(lia)) as Hb.
  set (q := p / 2147483648) in *. set (r := p mod 2147483648) in *.
  assert (0 <= q < 16807) as Hq by (unfold q; split; [apply Z.div_pos; lia | apply Z.div_lt_upper_bound; lia]).
  rewrite u32_small by lia.
  assert (p mod 2147483647 <> 0) as Hnz.
  { intros Hz. apply Z.mod_divide in Hz; [|lia]. unfold p in Hz.
    assert (Z.gcd 2147483647 16807 = 1) as Hg by reflexivity.
    rewrite Z.mul_comm in Hz. apply Z.gauss in Hz; [|done].
    apply Z.divide_pos_le in Hz; lia. }
  destruct (Z.ltb_spec 2147483647 (q + r)).
  - rewrite u32_small by lia. assert (p mod 2147483647 = q + r - 2147483647) as Hm; [|lia].
    symmetry. apply (Z.mod_unique_pos _ _ (q + 1)); lia.
  - assert (q + r <> 2147483647) as Hne.
    { intros Heq. apply Hnz. apply Z.mod_divide; [lia|]. exists (q + 1). lia. }
    assert (p mod 2147483647 = q + r) as Hm; [|lia].
    symmetry. apply (Z.mod_unique_pos _ _ q); lia.
Qed.

Lemma new_Random_range s : 0 < new_Random s < random_M.
Proof.
  unfold new_Random, random_M.
  assert (Z.land s 2147483647 = s mod 2 ^ 31) as -> by (by apply (Z.land_ones s 31)).
  pose proof (Z.mod_pos_bound s (2 ^ 31) ltac:(lia)). cbv zeta. set (seed := s mod 2 ^ 31) in *.
  destruct (Z.eqb_spec seed 0), (Z.eqb_spec seed 2147483647); cbn [orb]; lia.
Qed.

(** ** The properties *)

(** Integers under subtraction, the order of the concrete lists below. *)
#[local, refine] Instance Z_order : KeyOrder Z := { compare_ a b := a - b }.
Proof.
  - intros; lia.
  - intros; lia.
Defined.

(** C37: Inserting any sequence of pairwise different keys into an empty list never fails an
    assertion, whatever heights are drawn; the list then holds exactly these keys in order,
    [Contains] answers membership, and inserting an equal key again hits the assertion
    against duplicates. *)
Theorem skiplist_inserts `{KeyOrder Key} (any : Key) (keys : list Key) :
  distinct keys ->
  exists s l, insert_all (new_SkipList any) keys = Ret s /\ Repr s l /\
    StronglySorted entry_lt l /\ l.*2 ≡ₚ keys /\
    (forall k, Contains s k = Ret (existsb (Equal k) keys)) /\
    (forall k, existsb (Equal k) keys = true -> Insert s k = AssertFailed).
Proof.
  intros Hd. destruct (insert_all_spec keys (new_SkipList any) [] (Repr_new any) Hd) as (s & l & Heq & Hs & Hl).
  { apply Forall_forall. intros. constructor. }
  rewrite app_nil_r in Hl. exists s, l. split; [done|]. split; [done|]. split; [by eapply Repr_sorted|].
  split; [done|].
  assert (forall k, existsb (fun e => Equal k e.2) l = existsb (Equal k) keys) as Hex.
  { intros k. apply eq_true_iff_eq. rewrite !existsb_exists.
    split; intros (a & Ha & Hk).
    - exists a.2. split; [|done]. apply list_elem_of_In. rewrite <- Hl. apply list_elem_of_fmap_2.
      by apply list_elem_of_In.
    - apply list_elem_of_In in Ha. rewrite <- Hl in Ha. apply list_elem_of_fmap in Ha as (e & -> & He).
      exists e. split; [by apply list_elem_of_In|done]. }
  split.
  - intros k. by rewrite (Repr_Contains s l k Hs), Hex.
  - intros k Hk. destruct Hs as (lv & Hs & <-). eapply Insert_duplicate; [done|].
    rewrite absent_existsb, Hex. congruence.
Qed.

Lemma skiplist_inserts_witness :
  exists s l, insert_all (new_SkipList 0) [5; 1; 9; 3] = Ret s /\ Repr s l /\
    StronglySorted entry_lt l /\ l.*2 ≡ₚ [5; 1; 9; 3] /\
    (forall k, Contains s k = Ret (existsb (Equal k) [5; 1; 9; 3])) /\
    (forall k, existsb (Equal k) [5; 1; 9; 3] = true -> Insert s k = AssertFailed).
Proof.
  refine (skiplist_inserts 0 [5; 1; 9; 3] _).
  repeat split; repeat constructor; simpl; lia.
Defined.

(** The iterator of a list is a cursor over its sorted sequence: [Seek] finds the first
    key that is not less than the target, [Next] and [Prev] move by one in the sequence and
    off its ends, [SeekToFirst] and [SeekToLast] find the ends, and all of them return. *)
Theorem skiplist_iterator_refines `{KeyOrder Key} (s : SkipList Key) (l : list (nat * Key)) :
  Repr s l ->
  (forall target, iter_Seek s target = Ret (fst <$> head (from target l))) /\
  iter_SeekToFirst s = Ret (fst <$> head l) /\
  iter_SeekToLast s = Ret (fst <$> last l) /\
  (forall i e, l !! i = Some e ->
     iter_key s (Some e.1) = Ret e.2 /\
     iter_Next s (Some e.1) = Ret (fst <$> l !! S i) /\
     iter_Prev s (Some e.1) = Ret (match i with O => None | S j => fst <$> l !! j end)).
Proof.
  intros Hr. split; [intros; by apply Repr_Seek|]. split; [by apply Repr_SeekToFirst|].
  split; [by apply Repr_SeekToLast|]. intros i e He.
  split; [apply (Repr_key s l e Hr); by eapply list_elem_of_lookup_2|].
  pose proof (take_drop_middle l i e He) as Hl. rewrite <- Hl in Hr. split.
  - rewrite (Repr_Next _ _ _ _ Hr). by rewrite head_lookup, lookup_drop, Nat.add_0_r.
  - rewrite (Repr_Prev _ _ _ _ Hr). destruct i as [|j]; [done|].
    apply lookup_lt_Some in He. destruct (lookup_lt_is_Some_2 l j) as [a Ha]; [lia|].
    by rewrite (take_S_r _ _ _ Ha), last_snoc, Ha.
Qed.

Lemma skiplist_iterator_refines_witness :
  exists s l, insert_all (new_SkipList 0) [5; 1; 9] = Ret s /\ l.*2 ≡ₚ [5; 1; 9] /\
    iter_SeekToLast s = Ret (fst <$> last l) /\ iter_Seek s 4 = Ret (fst <$> head (from 4 l)).
Proof.
  destruct (insert_all_spec [5; 1; 9] (new_SkipList 0) [] (Repr_new 0)) as (s & l & Heq & Hs & Hl).
  - repeat split; repeat constructor; simpl; lia.
  - repeat constructor.
  - exists s, l. split; [exact Heq|]. split; [exact Hl|].
    pose proof (skiplist_iterator_refines s l Hs) as (Hseek & _ & Hlast & _).
    split; [exact Hlast | exact (Hseek 4)].
Defined.

(** C21: Readers need no lock. While a key is inserted, the stores of the insertion can fall
    anywhere between the iterations of a reader's [FindGreaterOrEqual]: no read of it fails,
    and what it returns is the answer for the list before or for the list after the
    insertion. The last list of the trace of stores is the one [Insert] returns, and a
    reader that is not interrupted finds its answer. *)
Theorem skiplist_concurrent_read `{KeyOrder Key} (s : SkipList Key) l (key target : Key) :
  Repr s l -> absent key l ->
  (exists tr, insert_trace s key = Ret tr /\ Insert s key = Ret (List.last tr s) /\
     forall s' r, race target s tr Start s' r ->
       (exists r', reader_step s' target r = Ret r') /\
       (forall n, r = Found n ->
          n = fst <$> head (from target l) \/
          n = fst <$> head (from target (ins (length (nodes_ s), key) l)))) /\
  race target s [] Start s (Found (fst <$> head (from target l))).
Proof.
  intros (lv & Hs & <-) Habs. split.
  - destruct (insert_trace_staged s lv Hs key Habs) as (tr & s1 & Htr & Hins & Hst & <-).
    exists tr. split; [done|]. split; [done|]. intros s' r Hr.
    destruct (race_ok s lv Hs key target s tr Start s' r Hr 0 Hs Hst I) as (m & Hs' & Hok).
    split.
    + destruct (reader_step_ok s lv key target m s' r Hs' Hok) as (r' & ? & _). eauto.
    + intros n ->. destruct Hok as (m' & _ & ->). unfold stage. destruct (0 <? m')%nat; auto.
  - eapply race_read; [reflexivity|].
    destruct (FindGreaterOrEqual_spec s lv Hs target) as (prev & Heq & _ & _). by eapply reader_loop.
Qed.

Lemma skiplist_concurrent_read_witness :
  exists tr, insert_trace (new_SkipList 0) 5 = Ret tr /\
    Insert (new_SkipList 0) 5 = Ret (List.last tr (new_SkipList 0)) /\ tr <> [].
Proof.
  destruct (skiplist_concurrent_read (new_SkipList 0) [] 5 3 (Repr_new 0)) as [(tr & Htr & Hins & _) _].
  - constructor.
  - exists tr. split; [exact Htr|]. split; [exact Hins|]. intros ->. vm_compute in Htr. discriminate Htr.
Defined.

(** The generator of node heights is the Lehmer generator the comments promise: from
    any seed the constructor accepts, [Next] is the product with 16807 modulo [2^31 - 1],
    computed without a division or an overflow, and never reaches 0, where it would stay. *)
Theorem random_lehmer (s : Z) (n : nat) :
  let seed := Nat.iter n random_Next (new_Random s) in
  0 < seed < random_M /\ random_Next seed = (seed * random_A) mod random_M.
Proof.
  assert (0 < Nat.iter n random_Next (new_Random s) < random_M) as Hr.
  { induction n as [|n IH]; [apply new_Random_range|]. rewrite Nat.iter_succ. by apply random_Next_mod. }
  split; [done|]. by apply random_Next_mod.
Qed.
