(* ===== verification/MemTable.v ===== *)
(** * The memtable

    [memtable.h] and [memtable.c]: the entries of a memtable are byte strings, a
    length-prefixed internal key and a length-prefixed value, kept in a skip list ordered by
    the internal keys. The client of [SkipList] sees only the sorted sequence it represents. *)

From stdpp Require Import sorting.
From S2P Require Import Prelude Coding Env Comparator DbFormat SkipList.

Open Scope outcome_scope.

(** ** Length-prefixed slices in memory *)

(** [GetVarint32Ptr(p, p + 5, &len)]: the length and the memory after it; a null result,
    which the source assumes away, fails. *)
Definition varint_at (data : bytes) : outcome (Z * bytes) :=
  match GetVarint32Ptr (ztake 5 data) with
  | Some (len, q) => Ret (len, zdrop (zlen (ztake 5 data) - zlen q) data)
  | None => AssertFailed
  end.

(** The slice, and the memory after it ([data() + size()]). *)
Definition slice_at (data : bytes) : outcome (bytes * bytes) :=
  let! (len, p) := varint_at data in
  Ret (ztake len p, zdrop len p).

(** The slice of a key of the table. *)
Definition key_slice (data : bytes) : bytes :=
  match slice_at data with Ret (k, _) => k | _ => [] end.

Section MemTable.
Context `{user_comparator : Comparator} `{laws : @ComparatorLaws user_comparator}.

(** [MemTable::KeyComparator]. *)
Definition KeyComparator (aptr bptr : bytes) : Z :=
  let a := key_slice aptr in
  let b := key_slice bptr in
  internal_compare a b.

#[local, refine] Instance MemOrder : KeyOrder bytes := { compare_ := KeyComparator }.
Proof.
  - intros a b. apply internal_antisym.
  - intros a b c. apply internal_trans.
Defined.

Definition EncodeKey (target : bytes) : bytes :=
  PutVarint32 [] (u32 (zlen target)) ++ target.

(** ** The table *)

Record MemTable := mkMemTable { refs_ : Z; table_ : SkipList bytes }.

Definition new_MemTable : MemTable := mkMemTable 0 (new_SkipList []).

Definition Ref (m : MemTable) : MemTable := mkMemTable (refs_ m + 1) (table_ m).

(** [None]: the table is deleted. *)
Definition Unref (m : MemTable) : outcome (option MemTable) :=
  let refs := refs_ m - 1 in
  assert! 0 <=? refs;
  if refs <=? 0 then assert! refs =? 0; Ret None else Ret (Some (mkMemTable refs (table_ m))).

Definition Add (m : MemTable) (s : Z) (type : ValueType) (key value : bytes) : outcome MemTable :=
  let key_size := zlen key in
  let val_size := zlen value in
  let internal_key_size := key_size + 8 in
  let encoded_len := VarintLength internal_key_size + internal_key_size + VarintLength val_size + val_size in
  let buf := EncodeVarint32 (u32 internal_key_size) ++ key ++
             EncodeFixed64 (Z.lor (u64 (s ≪ 8)) (type_code type)) ++
             EncodeVarint32 (u32 val_size) ++ value in
  assert! zlen buf =? encoded_len;
  let! table := Insert (table_ m) buf in
  Ret (mkMemTable (refs_ m) table).

(** The value returned, and [*value] and [*s] as the caller finds them. *)
Definition Get (m : MemTable) (key : LookupKey) (value : bytes) (s : Status) : outcome (bool * bytes * Status) :=
  let memkey := lk_memtable_key key in
  let! iter := iter_Seek (table_ m) memkey in
  if iter_Valid iter then
    let! entry := iter_key (table_ m) iter in
    let! (key_length, key_ptr) := varint_at entry in
    if Compare (ztake (u32 (key_length - 8)) key_ptr) (lk_user_key key) =? 0 then
      let tag := DecodeFixed64 (zdrop (key_length - 8) key_ptr) in
      match value_type (Z.land tag 0xff) with
      | Some kTypeValue =>
          let! (v, _) := slice_at (zdrop key_length key_ptr) in
          Ret (true, v, s)
      | Some kTypeDeletion => Ret (true, value, NotFound "")
      | None => Ret (false, value, s)
      end
    else Ret (false, value, s)
  else Ret (false, value, s).

(** ** [MemTableIterator] *)

Definition mem_Valid (it : SkipIter) : bool := iter_Valid it.
Definition mem_Seek (m : MemTable) (k : bytes) : outcome SkipIter := iter_Seek (table_ m) (EncodeKey k).
Definition mem_SeekToFirst (m : MemTable) : outcome SkipIter := iter_SeekToFirst (table_ m).
Definition mem_SeekToLast (m : MemTable) : outcome SkipIter := iter_SeekToLast (table_ m).
Definition mem_Next (m : MemTable) (it : SkipIter) : outcome SkipIter := iter_Next (table_ m) it.
Definition mem_Prev (m : MemTable) (it : SkipIter) : outcome SkipIter := iter_Prev (table_ m) it.

Definition mem_key (m : MemTable) (it : SkipIter) : outcome bytes :=
  let! data := iter_key (table_ m) it in
  let! (k, _) := slice_at data in
  Ret k.

Definition mem_value (m : MemTable) (it : SkipIter) : outcome bytes :=
  let! data := iter_key (table_ m) it in
  let! (_, rest) := slice_at data in
  let! (v, _) := slice_at rest in
  Ret v.

(** ** Entries *)

(** What one [Add] puts into the table. *)
Record entry_op := mkOp { op_seq : Z; op_type : ValueType; op_key : bytes; op_value : bytes }.

Definition op_ok (o : entry_op) : Prop :=
  in_range (op_seq o) /\ zlen (op_key o) + 8 < 2 ^ 32 /\ zlen (op_value o) < 2 ^ 32.

Definition op_ikey (o : entry_op) : bytes := encode (op_key o) (op_seq o) (op_type o).

Definition op_bytes (o : entry_op) : bytes :=
  EncodeVarint32 (zlen (op_ikey o)) ++ op_ikey o ++ EncodeVarint32 (zlen (op_value o)) ++ op_value o.

Lemma EncodeVarint32_len v : 0 <= v < 2 ^ 32 -> 1 <= zlen (EncodeVarint32 v) <= 5.
Proof. intros Hv. rewrite EncodeVarint32_64 by done. apply EncodeVarint64_len; lia. Qed.

Lemma varint_at_Encode v rest : 0 <= v < 2 ^ 32 -> varint_at (EncodeVarint32 v ++ rest) = Ret (v, rest).
Proof.
  intros Hv. pose proof (EncodeVarint32_len v Hv) as Hl. unfold varint_at.
  set (e := EncodeVarint32 v) in *.
  assert (ztake 5 (e ++ rest) = e ++ ztake (5 - zlen e) rest) as ->.
  { unfold ztake, zlen in *. rewrite take_app_ge by lia. do 2 f_equal. lia. }
  pose proof (GetVarint32_Encode v (ztake (5 - zlen e) rest) Hv) as Hg. unfold GetVarint32 in Hg. fold e in Hg.
  destruct (GetVarint32Ptr _) as [[v' q]|]; [|done]. injection Hg as -> ->.
  do 2 f_equal. apply zdrop_app_len. rewrite zlen_app. lia.
Qed.

Lemma slice_at_prefixed k rest :
  zlen k < 2 ^ 32 -> slice_at (EncodeVarint32 (zlen k) ++ k ++ rest) = Ret (k, rest).
Proof.
  intros Hk. unfold slice_at. rewrite varint_at_Encode by (split; [apply zlen_nonneg|done]).
  cbn [obind]. by rewrite ztake_app_len, zdrop_app_len.
Qed.

Lemma slice_at_key k : zlen k < 2 ^ 32 -> key_slice (EncodeKey k) = k.
Proof.
  intros Hk. unfold key_slice, EncodeKey, PutVarint32. pose proof (zlen_nonneg k).
  rewrite u32_small by lia. simpl. rewrite <- (app_nil_r k) at 2. by rewrite slice_at_prefixed.
Qed.

Lemma op_slice o : op_ok o ->
  slice_at (op_bytes o) = Ret (op_ikey o, EncodeVarint32 (zlen (op_value o)) ++ op_value o).
Proof.
  intros (_ & Hk & _). apply slice_at_prefixed. unfold op_ikey. by rewrite zlen_encode.
Qed.

Lemma op_key_slice o : op_ok o -> key_slice (op_bytes o) = op_ikey o.
Proof. intros Ho. unfold key_slice. by rewrite op_slice. Qed.

Lemma op_value_slice o : op_ok o ->
  slice_at (EncodeVarint32 (zlen (op_value o)) ++ op_value o) = Ret (op_value o, []).
Proof. intros (_ & _ & Hv). rewrite <- (app_nil_r (op_value o)) at 2. by apply slice_at_prefixed. Qed.

(** [Add] is one insertion of the entry's bytes. *)
Lemma Add_unfold m o : op_ok o ->
  Add m (op_seq o) (op_type o) (op_key o) (op_value o) =
    let! table := Insert (table_ m) (op_bytes o) in Ret (mkMemTable (refs_ m) table).
Proof.
  intros (Hs & Hk & Hv). unfold Add, op_bytes, op_ikey. cbv zeta. rewrite zlen_encode.
  pose proof (zlen_nonneg (op_key o)). pose proof (zlen_nonneg (op_value o)).
  rewrite !u32_small by lia.
  assert (Z.lor (u64 (op_seq o ≪ 8)) (type_code (op_type o)) = tag (op_seq o) (op_type o)) as ->.
  { pose proof (PackSequenceAndType_spec (op_seq o) (op_type o) Hs) as Hp.
    unfold PackSequenceAndType in Hp. apply obind_ret in Hp as (? & _ & Hp).
    apply obind_ret in Hp as (? & _ & Hp). by injection Hp. }
  unfold encode. rewrite <- !app_assoc.
  assert (forall v, 0 <= v < 2 ^ 32 -> zlen (EncodeVarint32 v) = VarintLength v) as Hlen.
  { intros v Hr. by rewrite EncodeVarint32_64, VarintLength_spec by lia. }
  rewrite !zlen_app, EncodeFixed64_length, !Hlen by lia.
  by rewrite (proj2 (Z.eqb_eq _ _)) by lia.
Qed.

(** ** The contents of a table *)

(** The table holds the entries [ops], in the order of their internal keys. *)
Definition MRepr (m : MemTable) (ops : list entry_op) : Prop :=
  Forall op_ok ops /\ exists l, Repr (table_ m) l /\ l.*2 ≡ₚ op_bytes <$> ops.

Definition op_lt (a b : entry_op) : Prop := internal_compare (op_ikey a) (op_ikey b) < 0.

Definition increasing (ops : list entry_op) : Prop := StronglySorted (fun a b => op_seq a < op_seq b) ops.

Fixpoint adds (m : MemTable) (ops : list entry_op) : outcome MemTable :=
  match ops with
  | [] => Ret m
  | o :: ops => let! m := Add m (op_seq o) (op_type o) (op_key o) (op_value o) in adds m ops
  end.

Lemma compare_ops o o' : op_ok o -> op_ok o' ->
  compare_ (op_bytes o) (op_bytes o') = internal_compare (op_ikey o) (op_ikey o').
Proof. intros. simpl. unfold KeyComparator. by rewrite !op_key_slice. Qed.

Lemma op_ikey_cases o o' : op_ok o -> op_ok o' ->
  (internal_compare (op_ikey o) (op_ikey o') < 0 <->
     Compare (op_key o) (op_key o') < 0 \/
     (Compare (op_key o) (op_key o') = 0 /\ tag (op_seq o') (op_type o') < tag (op_seq o) (op_type o))) /\
  (0 < internal_compare (op_ikey o) (op_ikey o') <->
     0 < Compare (op_key o) (op_key o') \/
     (Compare (op_key o) (op_key o') = 0 /\ tag (op_seq o) (op_type o) < tag (op_seq o') (op_type o'))).
Proof.
  intros [Hs _] [Hs' _]. pose proof (internal_compare_cases (op_ikey o) (op_ikey o')) as Hc.
  unfold op_ikey in *. by rewrite !ExtractUserKey_encode, !ExtractTag_encode in Hc.
Qed.

Lemma MRepr_elem ops (l : list (nat * bytes)) e :
  Forall op_ok ops -> l.*2 ≡ₚ op_bytes <$> ops -> e ∈ l -> exists o, o ∈ ops /\ op_ok o /\ e.2 = op_bytes o.
Proof.
  intros Hok Hl He. assert (e.2 ∈ op_bytes <$> ops) as Hin by (rewrite <- Hl; by apply list_elem_of_fmap_2).
  apply list_elem_of_fmap in Hin as (o & Ho & Hin). rewrite Forall_forall in Hok. eauto.
Qed.

Lemma MRepr_entry ops (l : list (nat * bytes)) o :
  l.*2 ≡ₚ op_bytes <$> ops -> o ∈ ops -> exists e, e ∈ l /\ e.2 = op_bytes o.
Proof.
  intros Hl Ho. assert (op_bytes o ∈ l.*2) as Hin by (rewrite Hl; by apply list_elem_of_fmap_2).
  apply list_elem_of_fmap in Hin as (e & He & Hin). eauto.
Qed.

Lemma MRepr_perm m ops ops' : ops ≡ₚ ops' -> MRepr m ops -> MRepr m ops'.
Proof.
  intros Hp [Hok (l & Hr & Hl)]. split; [by rewrite <- Hp|]. exists l. split; [done|]. by rewrite Hl, Hp.
Qed.

Lemma MRepr_new : MRepr new_MemTable [].
Proof. split; [constructor|]. exists []. split; [apply Repr_new|done]. Qed.

(** An entry whose internal key differs from those in the table is added. *)
Lemma MRepr_Add m ops o :
  MRepr m ops -> op_ok o ->
  Forall (fun o' => internal_compare (op_ikey o) (op_ikey o') <> 0) ops ->
  exists m', Add m (op_seq o) (op_type o) (op_key o) (op_value o) = Ret m' /\ refs_ m' = refs_ m /\
    MRepr m' (o :: ops).
Proof.
  intros [Hok (l & Hr & Hl)] Ho Hnew. rewrite (Add_unfold m o Ho).
  destruct (Repr_Insert (table_ m) l (op_bytes o) Hr) as (t & -> & Ht).
  { apply Forall_forall. intros e He.
    destruct (MRepr_elem ops l e Hok Hl He) as (o' & Hin & Ho' & ->). rewrite compare_ops by done.
    rewrite Forall_forall in Hnew. by apply Hnew. }
  cbn [obind]. eexists. split; [reflexivity|]. split; [done|]. split; [by constructor|].
  eexists. split; [exact Ht|]. rewrite (ins_perm _ _ (Repr_sorted _ _ Hr)). simpl. by rewrite Hl.
Qed.

Lemma adds_spec ops : forall m done_ops,
  MRepr m done_ops -> Forall op_ok ops -> increasing ops ->
  (forall o o', o ∈ done_ops -> o' ∈ ops -> op_seq o < op_seq o') ->
  exists m', adds m ops = Ret m' /\ MRepr m' (done_ops ++ ops).
Proof.
  induction ops as [|o ops IH]; intros m dn Hm Hok Hinc Hlt; cbn [adds].
  - exists m. by rewrite app_nil_r.
  - apply Forall_cons in Hok as [Ho Hok]. inversion_clear Hinc as [|?? Hinc' Hfst].
    destruct (MRepr_Add m dn o Hm Ho) as (m1 & -> & _ & Hm1).
    { apply Forall_forall. intros o' Ho' Heq. destruct Hm as [Hd _]. rewrite Forall_forall in Hd.
      pose proof (op_ikey_cases o o' Ho (Hd o' Ho')) as [Hc1 Hc2].
      pose proof (Hlt o' o Ho' (list_elem_of_here _ _)) as Hsq.
      pose proof (proj2 (tag_lt (op_seq o') (op_type o') (op_seq o) (op_type o)) (or_introl Hsq)). lia. }
    cbn [obind]. destruct (IH m1 (dn ++ [o])) as (m' & -> & Hm'); [|done|done| |].
    { eapply MRepr_perm; [|exact Hm1]. by rewrite Permutation_app_comm. }
    { intros a b Ha Hb. rewrite Forall_forall in Hfst. apply elem_of_app in Ha as [Ha|Ha].
      - apply Hlt; [done|by right].
      - apply list_elem_of_singleton in Ha as ->. by apply Hfst. }
    exists m'. split; [done|]. by rewrite <- app_assoc in Hm'.
Qed.

(** ** Lookups *)

(** The entries of user key [u] that a reader at sequence number [s] may see. *)
Definition visible (u : bytes) (s : Z) (o : entry_op) : Prop :=
  Compare (op_key o) u = 0 /\ op_seq o <= s.

#[global] Instance visible_dec u s o : Decision (visible u s o).
Proof. unfold visible. apply _. Defined.

(** The last of them that was added. *)
Definition newest (u : bytes) (s : Z) (ops : list entry_op) : option entry_op :=
  last (filter (visible u s) ops).

Lemma newest_spec u s ops o :
  increasing ops -> newest u s ops = Some o ->
  o ∈ ops /\ visible u s o /\ forall o', o' ∈ ops -> visible u s o' -> op_seq o' < op_seq o \/ o' = o.
Proof.
  unfold newest. intros Hinc Hl. apply last_Some in Hl as [l' Hl].
  assert (o ∈ filter (visible u s) ops) as Ho by (rewrite Hl, elem_of_app; right; by left).
  apply list_elem_of_filter in Ho as [Hv Ho]. split; [done|]. split; [done|].
  assert (StronglySorted (fun a b => op_seq a < op_seq b) (filter (visible u s) ops)) as Hs.
  { clear -Hinc. induction Hinc as [|a ops Hi IH Ha]; [constructor|]. rewrite filter_cons.
    destruct (decide _); [|done]. constructor; [done|]. apply Forall_forall. intros x Hx.
    apply list_elem_of_filter in Hx as [_ Hx]. rewrite Forall_forall in Ha. by apply Ha. }
  intros o' Ho' Hv'. assert (o' ∈ l' ++ [o]) as Hin by (rewrite <- Hl; by apply list_elem_of_filter).
  apply elem_of_app in Hin as [Hin|Hin]; [left|right; by apply list_elem_of_singleton in Hin].
  rewrite Hl in Hs. clear -Hs Hin. induction l' as [|a l' IH]; [by apply elem_of_nil in Hin|].
  simpl in Hs. inversion_clear Hs as [|?? Hs' Ha]. apply elem_of_cons in Hin as [->|Hin]; [|by apply IH].
  rewrite Forall_forall in Ha. apply Ha. rewrite elem_of_app. right. by left.
Qed.

Lemma newest_None u s ops o : newest u s ops = None -> o ∈ ops -> ~ visible u s o.
Proof.
  unfold newest. intros Hl Ho Hv. apply last_None in Hl.
  assert (o ∈ filter (visible u s) ops) as Hin by (by apply list_elem_of_filter).
  rewrite Hl in Hin. by apply elem_of_nil in Hin.
Qed.

(** What [Get] does with the entry its search found. *)
Definition get_result (r : option entry_op) (value : bytes) (s : Status) : bool * bytes * Status :=
  match r with
  | None => (false, value, s)
  | Some o =>
      match op_type o with
      | kTypeValue => (true, op_value o, s)
      | kTypeDeletion => (true, value, NotFound "")
      end
  end.

(** The search of [Get] stops at the newest visible entry, or at an entry of another
    user key. *)
Lemma seek_newest ops l u s key :
  Forall op_ok ops -> increasing ops -> StronglySorted entry_lt l -> l.*2 ≡ₚ op_bytes <$> ops ->
  in_range s -> key_slice key = encode u s kValueTypeForSeek ->
  match head (from key l) with
  | None => newest u s ops = None
  | Some e => e ∈ l /\ exists o, op_ok o /\ e.2 = op_bytes o /\
      (if decide (Compare (op_key o) u = 0) then newest u s ops = Some o else newest u s ops = None)
  end.
Proof.
  intros Hok Hinc Hs Hl Hr Hkey.
  assert (forall o, op_ok o -> ~ key_below (op_bytes o) key <->
    0 < Compare (op_key o) u \/ visible u s o) as Hge.
  { intros o Ho. unfold key_below. simpl. unfold KeyComparator. rewrite Hkey, (op_key_slice o Ho).
    rewrite (proj1 (internal_compare_cases _ _)). unfold op_ikey, visible.
    rewrite !ExtractUserKey_encode, !ExtractTag_encode by (done || apply Ho).
    pose proof (tag_lt s kValueTypeForSeek (op_seq o) (op_type o)) as Ht.
    assert (type_code (op_type o) <= type_code kValueTypeForSeek) as Htc by (by destruct (op_type o)).
    lia. }
  pose proof (head_from key l Hs) as Hh.
  destruct (head (from key l)) as [e|].
  - destruct Hh as (He & Hne & Hmin). destruct (MRepr_elem ops l e Hok Hl He) as (o & Hin & Ho & Heo).
    split; [done|]. exists o. split; [done|]. split; [done|]. rewrite Heo in Hne. apply Hge in Hne; [|done].
    destruct (newest u s ops) as [w|] eqn:Ew.
    + apply (newest_spec u s ops w Hinc) in Ew as (Hw & Hvw & Hmax).
      pose proof Hok as Hokw. rewrite Forall_forall in Hokw. specialize (Hokw w Hw).
      destruct (MRepr_entry ops l w Hl Hw) as (a & Ha & Haw).
      assert (compare_ e.2 a.2 <= 0) as Hle.
      { apply Hmin; [done|]. rewrite Haw. apply Hge; [done|]. by right. }
      rewrite Heo, Haw, compare_ops in Hle by done. pose proof (op_ikey_cases o w Ho Hokw) as [_ Hc].
      assert (Compare (op_key o) u <= 0) as Hou.
      { eapply (compare_trans _ (op_key w)); [lia|]. destruct Hvw as [-> _]. lia. }
      destruct (decide (Compare (op_key o) u = 0)) as [Heq|]; [|destruct Hne as [?|[? _]]; lia].
      assert (visible u s o) as Hvo by (by destruct Hne as [|?]; [lia|]).
      destruct (Hmax o Hin Hvo) as [Hlt|Hsame]; [|by rewrite Hsame]. exfalso.
      assert (Compare (op_key o) (op_key w) = 0) as Hkw.
      { pose proof (compare_trans u (op_key o) (op_key w)). destruct Hvw as [Hw0 _].
        pose proof (key_eq_equiv) as [_ Hsym Htr]. apply (Htr _ u); [done|]. by apply Hsym. }
      pose proof (proj2 (tag_lt (op_seq o) (op_type o) (op_seq w) (op_type w)) (or_introl Hlt)). lia.
    + destruct (decide _) as [Heq|]; [|done]. exfalso. eapply newest_None; [exact Ew|exact Hin|].
      by destruct Hne as [|?]; [lia|].
  - destruct (newest u s ops) as [w|] eqn:Ew; [|done]. exfalso.
    apply (newest_spec u s ops w Hinc) in Ew as (Hw & Hvw & _).
    destruct (MRepr_entry ops l w Hl Hw) as (a & Ha & Haw). specialize (Hh a Ha). rewrite Haw in Hh.
    rewrite Forall_forall in Hok. revert Hh. apply Hge; [by apply Hok|]. by right.
Qed.

Lemma Get_spec m ops u s k value st :
  MRepr m ops -> increasing ops -> in_range s -> zlen u + 8 < 2 ^ 32 ->
  new_LookupKey u s = Ret k ->
  Get m k value st = Ret (get_result (newest u s ops) value st).
Proof.
  intros [Hok (l & Hr & Hl)] Hinc Hs Hu Hk.
  destruct (new_LookupKey_spec u s Hs Hu) as (k' & Hk' & Huk & _ & Hmk).
  rewrite Hk in Hk'. injection Hk' as <-.
  assert (zlen (encode u s kValueTypeForSeek) < 2 ^ 32) as He by (by rewrite zlen_encode).
  unfold Get. rewrite (Repr_Seek (table_ m) l _ Hr). cbn [obind].
  pose proof (seek_newest ops l u s (lk_memtable_key k) Hok Hinc (Repr_sorted _ _ Hr) Hl Hs) as Hsn.
  rewrite Hmk in Hsn at 1. specialize (Hsn (slice_at_key _ He)).
  destruct (head (from (lk_memtable_key k) l)) as [e|] eqn:Eh.
  2:{ simpl. by rewrite Hsn. }
  destruct Hsn as (Hel & o & Ho & Heo & Hn). cbn [iter_Valid fmap option_fmap option_map iter_key].
  rewrite (Repr_key _ l e Hr Hel), Heo. cbn [obind]. unfold op_bytes.
  pose proof (zlen_nonneg (op_key o)). pose proof Ho as (Hos & Hok' & Hov).
  assert (zlen (op_ikey o) = zlen (op_key o) + 8) as Hik by apply zlen_encode.
  rewrite varint_at_Encode by lia. cbn [obind]. rewrite u32_small by lia.
  rewrite Hik, Z.add_simpl_r. unfold op_ikey at 1 2, encode. rewrite <- !app_assoc.
  rewrite ztake_app_len, zdrop_app_len, Huk, DecodeFixed64_Encode, u64_small by (done || by apply tag_range).
  destruct (tag_unpack (op_seq o) (op_type o)) as [-> _]. rewrite value_type_code.
  destruct (Z.eqb_spec (Compare (op_key o) u) 0) as [Heq|Hne].
  - rewrite decide_True in Hn by done. rewrite Hn. unfold get_result. destruct (op_type o) eqn:Et; [done|].
    rewrite <- Hik, zdrop_app_len by done. by rewrite op_value_slice.
  - rewrite decide_False in Hn by done. by rewrite Hn.
Qed.

(** ** The iterator *)

(** The entries of a table with the nodes that hold them, in order. *)
Definition mem_sequence (m : MemTable) (ids : list nat) (es : list entry_op) : Prop :=
  Forall op_ok es /\ StronglySorted op_lt es /\
  exists l, Repr (table_ m) l /\ l.*1 = ids /\ l.*2 = op_bytes <$> es.

Lemma MRepr_sequence m ops : MRepr m ops -> exists ids es, mem_sequence m ids es /\ es ≡ₚ ops.
Proof.
  intros [Hok (l & Hr & Hl)]. apply Permutation_map_inv in Hl as (es & Hes & Hp).
  exists l.*1, es. split; [|done]. assert (Forall op_ok es) as Hok' by (by rewrite <- Hp).
  split; [done|]. split; [|by exists l].
  pose proof (Repr_sorted _ _ Hr) as Hs. clear -Hs Hes Hok'. revert l Hs Hes.
  induction es as [|o es IH]; intros l Hs Hes; [constructor|].
  destruct l as [|e l]; [done|]. injection Hes as He Hes. change (l.*2 = op_bytes <$> es) in Hes. inversion_clear Hs as [|?? Hs' Hf].
  apply Forall_cons in Hok' as [Ho Hok']. constructor; [by apply (IH Hok' l)|].
  apply Forall_forall. intros o' Ho'.
  assert (op_bytes o' ∈ l.*2) as Hin by (rewrite Hes; by apply list_elem_of_fmap_2).
  apply list_elem_of_fmap in Hin as (e' & He' & Hin). rewrite Forall_forall in Hf. specialize (Hf e' Hin).
  unfold entry_lt, key_below in Hf. rewrite He, <- He', compare_ops in Hf; [done|done|].
  rewrite Forall_forall in Hok'. by apply Hok'.
Qed.

Lemma before_length l key es k :
  l.*2 = op_bytes <$> es -> Forall op_ok es -> key_slice key = k ->
  length (before key l) = length (filter (fun o => internal_compare (op_ikey o) k < 0) es).
Proof.
  intros Hl Hok Hk. revert l Hl. induction Hok as [|o es Ho Hok IH]; intros l Hl; destruct l as [|e l]; try done.
  injection Hl as He Hl. unfold before. rewrite !filter_cons.
  assert (compare_ e.2 key = internal_compare (op_ikey o) k) as Heq.
  { simpl. unfold KeyComparator. by rewrite He, op_key_slice, Hk. }
  rewrite Heq. destruct (decide _); simpl; [f_equal|]; by apply IH.
Qed.

Lemma mem_sequence_at m ids es i x o :
  mem_sequence m ids es -> ids !! i = Some x -> es !! i = Some o ->
  exists l, Repr (table_ m) l /\ l.*1 = ids /\ op_ok o /\ l !! i = Some (x, op_bytes o).
Proof.
  intros (Hok & _ & l & Hr & <- & Hl) Hx Ho. exists l. split; [done|]. split; [done|].
  rewrite Forall_lookup in Hok. split; [by eapply Hok|].
  assert (l.*2 !! i = Some (op_bytes o)) as Hb by (by rewrite Hl, list_lookup_fmap, Ho).
  rewrite list_lookup_fmap in Hx. rewrite list_lookup_fmap in Hb. destruct (l !! i) as [[y b]|]; [|done].
  simpl in Hx, Hb. congruence.
Qed.

(** The operations of the iterator move along the sequence. *)
Lemma mem_cursor m ids es :
  mem_sequence m ids es ->
  length ids = length es /\
  mem_SeekToFirst m = Ret (head ids) /\ mem_SeekToLast m = Ret (last ids) /\
  (forall k, zlen k < 2 ^ 32 ->
     mem_Seek m k = Ret (ids !! length (filter (fun o => internal_compare (op_ikey o) k < 0) es))) /\
  (forall i x o, ids !! i = Some x -> es !! i = Some o ->
     mem_key m (Some x) = Ret (op_ikey o) /\ mem_value m (Some x) = Ret (op_value o) /\
     mem_Next m (Some x) = Ret (ids !! S i) /\
     mem_Prev m (Some x) = Ret (match i with O => None | S j => ids !! j end)).
Proof.
  intros Hseq. pose proof Hseq as (Hok & Hs & l & Hr & Hids & Hl).
  split. { apply (f_equal length) in Hl. rewrite !length_fmap in Hl. by rewrite <- Hids, length_fmap. }
  split. { unfold mem_SeekToFirst. rewrite (Repr_SeekToFirst _ l Hr), <- Hids. by destruct l. }
  split. { unfold mem_SeekToLast. rewrite (Repr_SeekToLast _ l Hr), <- Hids. by rewrite fmap_last. }
  split.
  - intros k Hk. unfold mem_Seek. rewrite (Repr_Seek _ l _ Hr).
    rewrite <- (before_length l (EncodeKey k) es k Hl Hok (slice_at_key k Hk)), <- Hids. f_equal.
    rewrite list_lookup_fmap, head_lookup.
    rewrite <- (before_from (EncodeKey k) l (Repr_sorted _ _ Hr)) at 3.
    by rewrite lookup_app_r, Nat.sub_diag by lia.
  - intros i x o Hx Ho. destruct (mem_sequence_at m ids es i x o Hseq Hx Ho) as (l' & Hr' & <- & Hoo & Hi).
    pose proof (take_drop_middle l' i _ Hi) as Hsp.
    assert (iter_key (table_ m) (Some x) = Ret (op_bytes o)) as Hkey.
    { apply (Repr_key (table_ m) l' (x, op_bytes o) Hr'). by eapply list_elem_of_lookup_2. }
    split; [unfold mem_key; rewrite Hkey; cbn [obind]; by rewrite op_slice|].
    split; [unfold mem_value; rewrite Hkey; cbn [obind]; rewrite op_slice by done; cbn [obind]; by rewrite op_value_slice|].
    rewrite <- Hsp in Hr'. split.
    + unfold mem_Next. change x with (x, op_bytes o).1. rewrite (Repr_Next _ _ _ _ Hr').
      by rewrite list_lookup_fmap, head_lookup, lookup_drop, Nat.add_0_r.
    + unfold mem_Prev. change x with (x, op_bytes o).1. rewrite (Repr_Prev _ _ _ _ Hr').
      destruct i as [|j]; [done|]. apply lookup_lt_Some in Hi.
      destruct (lookup_lt_is_Some_2 l' j) as [a Ha]; [lia|].
      by rewrite (take_S_r _ _ _ Ha), last_snoc, list_lookup_fmap, Ha.
Qed.

End MemTable.

(** ** The properties *)

(** The comparator of the concrete tables below. *)
#[local] Existing Instances BytewiseComparator BytewiseComparator_laws.

(** C18: A memtable answers lookups as of a sequence number. After any sequence of additions
    with increasing sequence numbers, which all succeed, [Get] for a user key at sequence
    number [s] finds the last addition to an equal key that is not newer than [s]: its value
    if it was a value, [NotFound] if it was a deletion, and it reports that the table knows
    nothing when there is none, leaving the caller's value and status alone. *)
Theorem memtable_get `{ComparatorLaws} (ops : list entry_op) :
  Forall op_ok ops -> increasing ops ->
  exists m, adds new_MemTable ops = Ret m /\
    forall u s value st, in_range s -> zlen u + 8 < 2 ^ 32 ->
      exists k, new_LookupKey u s = Ret k /\
        Get m k value st = Ret (get_result (newest u s ops) value st).
Proof.
  intros Hok Hinc.
  destruct (adds_spec ops new_MemTable [] MRepr_new Hok Hinc) as (m & Hm & Hr).
  { intros o o' Ho. by apply elem_of_nil in Ho. }
  exists m. split; [done|]. intros u s value st Hs Hu.
  destruct (new_LookupKey_spec u s Hs Hu) as (k & Hk & _). exists k. split; [done|].
  by apply (Get_spec m ops u s k).
Qed.

Lemma memtable_get_witness :
  exists m, adds (user_comparator := BytewiseComparator) new_MemTable
              [mkOp 1 kTypeValue [x61] [x31]; mkOp 2 kTypeValue [x62] [x32]; mkOp 3 kTypeDeletion [x61] []] = Ret m /\
    exists k, new_LookupKey [x61] 2 = Ret k /\ Get m k [] OK = Ret (true, [x31], OK).
Proof.
  destruct (memtable_get (H := BytewiseComparator)
    [mkOp 1 kTypeValue [x61] [x31]; mkOp 2 kTypeValue [x62] [x32]; mkOp 3 kTypeDeletion [x61] []])
    as (m & Hm & Hget).
  - repeat constructor; vm_compute; congruence.
  - repeat constructor.
  - exists m. split; [exact Hm|].
    destruct (Hget [x61] 2 [] OK) as (k & Hk & Hg); [split; vm_compute; congruence | reflexivity |].
    exists k. split; [exact Hk|]. rewrite Hg. reflexivity.
Defined.

(** The memtable's iterator is a cursor over its entries in the order of their internal
    keys. There is one fixed sequence of the added entries, strictly sorted, such that
    [SeekToFirst], [SeekToLast], [Next] and [Prev] move along it, [Seek] goes to its first
    entry that is not before the target, and [key] and [value] decode the entry there. *)
Theorem memtable_iterator_refines `{ComparatorLaws} (m : MemTable) (ops : list entry_op) :
  MRepr m ops ->
  exists ids es, es ≡ₚ ops /\ StronglySorted op_lt es /\ length ids = length es /\
    mem_SeekToFirst m = Ret (head ids) /\ mem_SeekToLast m = Ret (last ids) /\
    (forall k, zlen k < 2 ^ 32 ->
       mem_Seek m k = Ret (ids !! length (filter (fun o => internal_compare (op_ikey o) k < 0) es))) /\
    (forall i x o, ids !! i = Some x -> es !! i = Some o ->
       mem_key m (Some x) = Ret (op_ikey o) /\ mem_value m (Some x) = Ret (op_value o) /\
       mem_Next m (Some x) = Ret (ids !! S i) /\
       mem_Prev m (Some x) = Ret (match i with O => None | S j => ids !! j end)).
Proof.
  intros Hm. destruct (MRepr_sequence m ops Hm) as (ids & es & Hseq & Hp). exists ids, es.
  split; [done|]. split; [apply Hseq|]. by apply mem_cursor.
Qed.

Lemma memtable_iterator_refines_witness :
  exists m ids es, adds (user_comparator := BytewiseComparator) new_MemTable
      [mkOp 1 kTypeValue [x61] [x31]; mkOp 2 kTypeValue [x62] [x32]] = Ret m /\
    es ≡ₚ [mkOp 1 kTypeValue [x61] [x31]; mkOp 2 kTypeValue [x62] [x32]] /\
    StronglySorted op_lt es /\ mem_SeekToFirst m = Ret (head ids).
Proof.
  set (ops := [mkOp 1 kTypeValue [x61] [x31]; mkOp 2 kTypeValue [x62] [x32]]).
  destruct (adds_spec (user_comparator := BytewiseComparator) ops new_MemTable [] MRepr_new) as (m & Hm & Hr).
  - repeat constructor; vm_compute; congruence.
  - repeat constructor.
  - intros o o' Ho. by apply elem_of_nil in Ho.
  - destruct (memtable_iterator_refines m ops Hr) as (ids & es & Hp & Hs & _ & Hf & _).
    exists m, ids, es. split; [exact Hm|]. split; [exact Hp|]. split; [exact Hs|exact Hf].
Defined.
