(* ===== verification/Cache.v ===== *)
(** * The LRU cache

    [cache.c]: a reference-counted cache of entries, found through a hash table and evicted
    in the order of their last use. An entry lives in [heap_] under the handle clients hold.
    The two circular lists of the source, with their dummy heads [lru_] and [in_use_], are
    the sequences of their entries from the oldest ([next] of the head) to the newest
    ([prev] of the head), and a bucket of the table is the sequence of the entries that
    [next_hash] links. [deleted_] records the calls of the deleters. *)

From stdpp Require Import gmap.
From S2P Require Import Prelude Filter.

Open Scope outcome_scope.

Section Cache.
Context {V : Type}.

(** ** Entries *)

Record LRUHandle := mkHandle {
  value : V;
  charge : Z;
  hkey : bytes;
  in_cache : bool;
  refs : Z;
  hash : Z;
}.

Definition set_refs (h : LRUHandle) (r : Z) : LRUHandle :=
  mkHandle (value h) (charge h) (hkey h) (in_cache h) r (hash h).
Definition set_in_cache (h : LRUHandle) (b : bool) : LRUHandle :=
  mkHandle (value h) (charge h) (hkey h) b (refs h) (hash h).

Abbreviation Heap := (gmap nat LRUHandle).

Definition deref (heap : Heap) (e : nat) : outcome LRUHandle :=
  match heap !! e with Some h => Ret h | None => AssertFailed end.

(** ** The hash table *)

Record HandleTable := mkTable { length_ : Z; elems_ : Z; list_ : list (list nat) }.

(** The test of [FindPointer]'s loop: this entry is the one sought. *)
Definition matches (heap : Heap) (key : bytes) (hsh : Z) (e : nat) : bool :=
  match heap !! e with
  | Some h => (hash h =? hsh) && bool_decide (key = hkey h)
  | None => false
  end.

(** The entries of the bucket before the slot that [FindPointer] returns, and from it on. *)
Fixpoint FindPointer (heap : Heap) (key : bytes) (hsh : Z) (bucket : list nat) : list nat * list nat :=
  match bucket with
  | [] => ([], [])
  | e :: rest =>
      if matches heap key hsh e then ([], bucket)
      else let '(before, after) := FindPointer heap key hsh rest in (e :: before, after)
  end.

Definition bucket_index (t : HandleTable) (hsh : Z) : nat := Z.to_nat (Z.land hsh (u32 (length_ t - 1))).

Definition bucket_of (t : HandleTable) (hsh : Z) : outcome (list nat) :=
  match list_ t !! bucket_index t hsh with Some b => Ret b | None => AssertFailed end.

Definition table_Lookup (heap : Heap) (t : HandleTable) (key : bytes) (hsh : Z) : outcome (option nat) :=
  let! b := bucket_of t hsh in
  Ret (head (FindPointer heap key hsh b).2).

(** [while (new_length < elems_) new_length *= 2]: 32 rounds reach 0 or every 32-bit count. *)
Fixpoint double_until (fuel : nat) (new_length elems : Z) : outcome Z :=
  match fuel with
  | O => OutOfFuel
  | S fuel => if new_length <? elems then double_until fuel (u32 (new_length * 2)) elems else Ret new_length
  end.

(** Every entry goes to the front of its new bucket. *)
Fixpoint rehash (heap : Heap) (new_length : Z) (es : list nat) (new_list : list (list nat)) : outcome (list (list nat)) :=
  match es with
  | [] => Ret new_list
  | e :: es =>
      let! h := deref heap e in
      let i := Z.to_nat (Z.land (hash h) (u32 (new_length - 1))) in
      match new_list !! i with
      | Some b => rehash heap new_length es (<[i := e :: b]> new_list)
      | None => AssertFailed
      end
  end.

Definition Resize (heap : Heap) (t : HandleTable) : outcome HandleTable :=
  let! new_length := double_until 33 4 (elems_ t) in
  let es := concat (list_ t) in
  let! new_list := rehash heap new_length es (replicate (Z.to_nat new_length) []) in
  assert! elems_ t =? zlen es;
  Ret (mkTable new_length (elems_ t) new_list).

Definition new_HandleTable : outcome HandleTable := Resize ∅ (mkTable 0 0 []).

Definition table_Insert (heap : Heap) (t : HandleTable) (e : nat) : outcome (HandleTable * option nat) :=
  let! h := deref heap e in
  let! b := bucket_of t (hash h) in
  let '(before, after) := FindPointer heap (hkey h) (hash h) b in
  let list' := <[bucket_index t (hash h) := before ++ e :: tail after]> (list_ t) in
  match head after with
  | Some old => Ret (mkTable (length_ t) (elems_ t) list', Some old)
  | None =>
      let t := mkTable (length_ t) (u32 (elems_ t + 1)) list' in
      let! t := if length_ t <? elems_ t then Resize heap t else Ret t in
      Ret (t, None)
  end.

Definition table_Remove (heap : Heap) (t : HandleTable) (key : bytes) (hsh : Z) : outcome (HandleTable * option nat) :=
  let! b := bucket_of t hsh in
  let '(before, after) := FindPointer heap key hsh b in
  match head after with
  | Some e =>
      Ret (mkTable (length_ t) (u32 (elems_ t - 1)) (<[bucket_index t hsh := before ++ tail after]> (list_ t)), Some e)
  | None => Ret (t, None)
  end.

(** ** One shard *)

Record LRUCache := mkCache {
  capacity_ : Z;
  usage_ : Z;
  lru_ : list nat;
  in_use_ : list nat;
  table_ : HandleTable;
  heap_ : Heap;
  next_id_ : nat;
  deleted_ : list (bytes * V);
}.

Definition new_LRUCache (capacity : Z) : outcome LRUCache :=
  let! t := new_HandleTable in
  Ret (mkCache capacity 0 [] [] t ∅ 0 []).

Definition set_handle (c : LRUCache) (e : nat) (h : LRUHandle) : LRUCache :=
  mkCache (capacity_ c) (usage_ c) (lru_ c) (in_use_ c) (table_ c) (<[e := h]> (heap_ c)) (next_id_ c) (deleted_ c).

Definition without (e : nat) (l : list nat) : list nat := filter (fun x => x <> e) l.

(** The list an entry is on is the one it is removed from. *)
Definition LRU_Remove (c : LRUCache) (e : nat) : LRUCache :=
  mkCache (capacity_ c) (usage_ c) (without e (lru_ c)) (without e (in_use_ c)) (table_ c) (heap_ c) (next_id_ c) (deleted_ c).

Definition append_lru (c : LRUCache) (e : nat) : LRUCache :=
  mkCache (capacity_ c) (usage_ c) (lru_ c ++ [e]) (in_use_ c) (table_ c) (heap_ c) (next_id_ c) (deleted_ c).

Definition append_in_use (c : LRUCache) (e : nat) : LRUCache :=
  mkCache (capacity_ c) (usage_ c) (lru_ c) (in_use_ c ++ [e]) (table_ c) (heap_ c) (next_id_ c) (deleted_ c).

Definition set_table (c : LRUCache) (t : HandleTable) : LRUCache :=
  mkCache (capacity_ c) (usage_ c) (lru_ c) (in_use_ c) t (heap_ c) (next_id_ c) (deleted_ c).

Definition set_usage (c : LRUCache) (u : Z) : LRUCache :=
  mkCache (capacity_ c) u (lru_ c) (in_use_ c) (table_ c) (heap_ c) (next_id_ c) (deleted_ c).

(** The deleter is called and the entry freed. *)
Definition deallocate (c : LRUCache) (e : nat) (h : LRUHandle) : LRUCache :=
  mkCache (capacity_ c) (usage_ c) (lru_ c) (in_use_ c) (table_ c) (delete e (heap_ c)) (next_id_ c)
    (deleted_ c ++ [(hkey h, value h)]).

Definition Ref (c : LRUCache) (e : nat) : outcome LRUCache :=
  let! h := deref (heap_ c) e in
  let c := if (refs h =? 1) && in_cache h then append_in_use (LRU_Remove c e) e else c in
  Ret (set_handle c e (set_refs h (u32 (refs h + 1)))).

Definition Unref (c : LRUCache) (e : nat) : outcome LRUCache :=
  let! h := deref (heap_ c) e in
  assert! 0 <? refs h;
  let h := set_refs h (refs h - 1) in
  let c := set_handle c e h in
  if refs h =? 0 then
    assert! negb (in_cache h); Ret (deallocate c e h)
  else if in_cache h && (refs h =? 1) then Ret (append_lru (LRU_Remove c e) e)
  else Ret c.

Definition Lookup (c : LRUCache) (key : bytes) (hsh : Z) : outcome (LRUCache * option nat) :=
  let! e := table_Lookup (heap_ c) (table_ c) key hsh in
  match e with
  | Some e => let! c := Ref c e in Ret (c, Some e)
  | None => Ret (c, None)
  end.

Definition Release (c : LRUCache) (e : nat) : outcome LRUCache := Unref c e.

Definition FinishErase (c : LRUCache) (e : option nat) : outcome (LRUCache * bool) :=
  match e with
  | Some e =>
      let! h := deref (heap_ c) e in
      assert! in_cache h;
      let c := LRU_Remove c e in
      let c := set_handle c e (set_in_cache h false) in
      let c := set_usage c (u64 (usage_ c - charge h)) in
      let! c := Unref c e in
      Ret (c, true)
  | None => Ret (c, false)
  end.

(** One round of the loops that evict the oldest entry. *)
Definition evict_oldest (c : LRUCache) (old : nat) : outcome LRUCache :=
  let! h := deref (heap_ c) old in
  assert! refs h =? 1;
  let! (t, removed) := table_Remove (heap_ c) (table_ c) (hkey h) (hash h) in
  let! (c, erased) := FinishErase (set_table c t) removed in
  assert! erased;
  Ret c.

(** [while (usage_ > capacity_ && lru_.next != &lru_)]: one round per entry of [lru_]. *)
Fixpoint evict_loop (fuel : nat) (c : LRUCache) : outcome LRUCache :=
  match fuel with
  | O => OutOfFuel
  | S fuel =>
      if capacity_ c <? usage_ c then
        match lru_ c with
        | old :: _ => let! c := evict_oldest c old in evict_loop fuel c
        | [] => Ret c
        end
      else Ret c
  end.

Definition Insert (c : LRUCache) (key : bytes) (hsh : Z) (v : V) (chg : Z) : outcome (LRUCache * nat) :=
  let e := next_id_ c in
  let h := mkHandle v chg key false 1 hsh in
  let c := mkCache (capacity_ c) (usage_ c) (lru_ c) (in_use_ c) (table_ c) (heap_ c) (S e) (deleted_ c) in
  let! c :=
    if 0 <? capacity_ c then
      let c := set_handle c e (set_in_cache (set_refs h (refs h + 1)) true) in
      let c := append_in_use c e in
      let c := set_usage c (u64 (usage_ c + chg)) in
      let! (t, old) := table_Insert (heap_ c) (table_ c) e in
      let! (c, _) := FinishErase (set_table c t) old in
      Ret c
    else Ret (set_handle c e h) in
  let! c := evict_loop (S (length (lru_ c))) c in
  Ret (c, e).

Definition Erase (c : LRUCache) (key : bytes) (hsh : Z) : outcome LRUCache :=
  let! (t, e) := table_Remove (heap_ c) (table_ c) key hsh in
  let! (c, _) := FinishErase (set_table c t) e in
  Ret c.

Fixpoint prune_loop (fuel : nat) (c : LRUCache) : outcome LRUCache :=
  match fuel with
  | O => OutOfFuel
  | S fuel =>
      match lru_ c with
      | e :: _ => let! c := evict_oldest c e in prune_loop fuel c
      | [] => Ret c
      end
  end.

Definition Prune (c : LRUCache) : outcome LRUCache := prune_loop (S (length (lru_ c))) c.

Definition TotalCharge (c : LRUCache) : Z := usage_ c.

(** ** The sharded cache *)

Definition kNumShardBits : Z := 4.
Definition kNumShards : Z := 1 ≪ kNumShardBits.

Record ShardedLRUCache := mkSharded { shard_ : list LRUCache; last_id_ : Z }.

Definition HashSlice (s : bytes) : Z := Hash s 0.
Definition Shard (hsh : Z) : Z := hsh ≫ (32 - kNumShardBits).

Definition new_ShardedLRUCache (capacity : Z) : outcome ShardedLRUCache :=
  let per_shard := u64 (capacity + (kNumShards - 1)) / kNumShards in
  let! c := new_LRUCache per_shard in
  Ret (mkSharded (replicate (Z.to_nat kNumShards) c) 0).

(** An operation on the shard of a hash value. *)
Definition with_shard {A} (c : ShardedLRUCache) (hsh : Z) (f : LRUCache -> outcome (LRUCache * A))
    : outcome (ShardedLRUCache * A) :=
  let i := Z.to_nat (Shard hsh) in
  match shard_ c !! i with
  | Some s => let! (s, a) := f s in Ret (mkSharded (<[i := s]> (shard_ c)) (last_id_ c), a)
  | None => AssertFailed
  end.

Definition sharded_Insert (c : ShardedLRUCache) (key : bytes) (v : V) (chg : Z) : outcome (ShardedLRUCache * nat) :=
  let hsh := HashSlice key in
  with_shard c hsh (fun s => Insert s key hsh v chg).

Definition sharded_Lookup (c : ShardedLRUCache) (key : bytes) : outcome (ShardedLRUCache * option nat) :=
  let hsh := HashSlice key in
  with_shard c hsh (fun s => Lookup s key hsh).

Definition sharded_Erase (c : ShardedLRUCache) (key : bytes) : outcome (ShardedLRUCache * unit) :=
  let hsh := HashSlice key in
  with_shard c hsh (fun s => let! s := Erase s key hsh in Ret (s, tt)).

(** A handle of the sharded cache is an entry of the shard its hash value selects. *)
Definition sharded_Release (c : ShardedLRUCache) (hsh : Z) (e : nat) : outcome (ShardedLRUCache * unit) :=
  with_shard c hsh (fun s => let! s := Release s e in Ret (s, tt)).

Definition NewId (c : ShardedLRUCache) : ShardedLRUCache * Z :=
  (mkSharded (shard_ c) (u64 (last_id_ c + 1)), u64 (last_id_ c + 1)).

Fixpoint prune_shards (l : list LRUCache) : outcome (list LRUCache) :=
  match l with
  | [] => Ret []
  | s :: l => let! s := Prune s in let! l := prune_shards l in Ret (s :: l)
  end.

Definition sharded_Prune (c : ShardedLRUCache) : outcome ShardedLRUCache :=
  let! l := prune_shards (shard_ c) in Ret (mkSharded l (last_id_ c)).

Definition sharded_TotalCharge (c : ShardedLRUCache) : Z :=
  fold_left (fun total s => u64 (total + TotalCharge s)) (shard_ c) 0.

(** The destructor: every entry of [lru_] is unreferenced; [in_use_] must be empty. *)
Fixpoint destroy_loop (es : list nat) (c : LRUCache) : outcome LRUCache :=
  match es with
  | [] => Ret c
  | e :: es =>
      let! h := deref (heap_ c) e in
      assert! in_cache h;
      let c := set_handle c e (set_in_cache h false) in
      assert! refs h =? 1;
      let! c := Unref c e in
      destroy_loop es c
  end.

Definition destroy (c : LRUCache) : outcome LRUCache :=
  assert! bool_decide (in_use_ c = []);
  destroy_loop (lru_ c) c.

(** ** The table holds each entry once, in the bucket of its hash value *)

(** What the table reads of an entry; it never changes. *)
Definition ident (heap : Heap) (e : nat) : option (bytes * Z) := (fun h => (hkey h, hash h)) <$> heap !! e.

Record Table_ok (heap : Heap) (t : HandleTable) (ids : list nat) : Prop := {
  t_len : exists k, 2 <= k <= 31 /\ length_ t = 2 ^ k;
  t_size : zlen (list_ t) = length_ t;
  t_perm : concat (list_ t) ≡ₚ ids;
  t_elems : elems_ t = zlen ids;
  t_bound : zlen ids <= 2 ^ 31;
  t_bucket i b e : list_ t !! i = Some b -> e ∈ b ->
    exists k h, ident heap e = Some (k, h) /\ i = bucket_index t h;
  t_nodup : NoDup ids;
  t_uniq e e' : e ∈ ids -> e' ∈ ids -> ident heap e = ident heap e' -> e = e';
}.

Lemma matches_ident heap k h e : matches heap k h e = true <-> ident heap e = Some (k, h).
Proof.
  unfold matches, ident. destruct (heap !! e) as [n|]; simpl; [|done].
  rewrite andb_true_iff, Z.eqb_eq, bool_decide_eq_true. split; [by intros [-> ->] | by intros [= -> ->]].
Qed.

Lemma FindPointer_spec heap k h b :
  let '(p, q) := FindPointer heap k h b in
  b = p ++ q /\ (forall e, e ∈ p -> ident heap e <> Some (k, h)) /\
  (forall e, head q = Some e -> ident heap e = Some (k, h)).
Proof.
  induction b as [|e b IH]; simpl; [repeat split; [intros e He; by apply elem_of_nil in He | done]|].
  destruct (matches heap k h e) eqn:E.
  - split; [done|]. split; [intros x Hx; by apply elem_of_nil in Hx|]. intros x [= <-]. by apply matches_ident.
  - destruct (FindPointer heap k h b) as [p q]. destruct IH as (-> & Hp & Hq). split; [done|].
    split; [|done]. intros x Hx. apply elem_of_cons in Hx as [->|Hx]; [|by apply Hp].
    intros Hi%matches_ident. congruence.
Qed.

Lemma concat_insert (l : list (list nat)) i b :
  l !! i = Some b -> exists A C, concat l = A ++ b ++ C /\ forall b', concat (<[i := b']> l) = A ++ b' ++ C.
Proof.
  intros Hb. exists (concat (take i l)), (concat (drop (S i) l)).
  assert (forall b', concat (<[i := b']> l) = concat (take i l) ++ b' ++ concat (drop (S i) l)) as Hi.
  { intros b'. apply lookup_lt_Some in Hb. rewrite insert_take_drop by done. by rewrite concat_app. }
  split; [|done]. rewrite <- Hi. by rewrite list_insert_id.
Qed.

Lemma without_perm e rest ids : ids ≡ₚ e :: rest -> NoDup ids -> without e ids ≡ₚ rest.
Proof.
  intros Hp Hn. unfold without. rewrite Hp in *. apply NoDup_cons in Hn as [Hin _].
  rewrite filter_cons_False by auto. assert (filter (fun x => x <> e) rest = rest) as ->; [|done].
  clear Hp. induction rest as [|x rest IH]; [done|]. rewrite not_elem_of_cons in Hin.
  destruct Hin as [Hx Hin]. rewrite filter_cons_True by auto. f_equal. by apply IH.
Qed.

Lemma elem_of_without e x l : x ∈ without e l <-> x ∈ l /\ x <> e.
Proof. unfold without. rewrite list_elem_of_filter. tauto. Qed.

Lemma without_notin e l : e ∉ l -> without e l = l.
Proof.
  unfold without. induction l as [|x l IH]; [done|]. rewrite not_elem_of_cons. intros [Hx Hl].
  rewrite filter_cons_True by auto. f_equal. auto.
Qed.

Lemma without_NoDup e l : NoDup l -> NoDup (without e l).
Proof. apply NoDup_filter. Qed.

Section Table.
Context (heap : Heap) (t : HandleTable) (ids : list nat) (Hok : Table_ok heap t ids).

Lemma bucket_index_eq hsh : exists k, 2 <= k <= 31 /\ length_ t = 2 ^ k /\ bucket_index t hsh = Z.to_nat (hsh mod 2 ^ k).
Proof.
  destruct (t_len _ _ _ Hok) as (k & Hk & Hl). exists k. split; [done|]. split; [done|].
  unfold bucket_index. rewrite Hl. assert (0 < 2 ^ k <= 2 ^ 31) as Hb.
  { split; [lia|]. apply Z.pow_le_mono_r; lia. }
  rewrite u32_small by lia. replace (2 ^ k - 1) with (Z.ones k) by (rewrite Z.ones_equiv; lia).
  by rewrite Z.land_ones by lia.
Qed.

Lemma bucket_of_spec hsh : exists b, bucket_of t hsh = Ret b /\ list_ t !! bucket_index t hsh = Some b.
Proof.
  destruct (bucket_index_eq hsh) as (k & Hk & Hl & Hi). unfold bucket_of.
  destruct (lookup_lt_is_Some_2 (list_ t) (bucket_index t hsh)) as [b Hb]; [|rewrite Hb; eauto].
  pose proof (t_size _ _ _ Hok) as Hs. unfold zlen in Hs. rewrite Hi.
  pose proof (Z.mod_pos_bound hsh (2 ^ k) ltac:(lia)). lia.
Qed.

Lemma bucket_elem i b e : list_ t !! i = Some b -> e ∈ b -> e ∈ ids.
Proof.
  intros Hb He. rewrite <- (t_perm _ _ _ Hok). apply list_elem_of_In, in_concat. exists b.
  split; apply list_elem_of_In; [by eapply list_elem_of_lookup_2|done].
Qed.

(** An entry of the table is in the bucket of its hash value. *)
Lemma ids_bucket e k h b :
  e ∈ ids -> ident heap e = Some (k, h) -> list_ t !! bucket_index t h = Some b -> e ∈ b.
Proof.
  intros He Hi Hb. rewrite <- (t_perm _ _ _ Hok) in He. apply list_elem_of_In, in_concat in He as (b' & Hb' & He).
  apply list_elem_of_In in Hb', He. apply list_elem_of_lookup in Hb' as [i Hb'].
  destruct (t_bucket _ _ _ Hok i b' e Hb' He) as (k' & h' & Hi' & ->). rewrite Hi in Hi'.
  injection Hi' as <- <-. rewrite Hb in Hb'. by injection Hb' as <-.
Qed.

(** The slot [FindPointer] finds in the bucket of a hash value. *)
Lemma find_spec k h b p q :
  list_ t !! bucket_index t h = Some b -> FindPointer heap k h b = (p, q) ->
  b = p ++ q /\ (forall e, e ∈ ids -> ident heap e = Some (k, h) <-> head q = Some e).
Proof.
  intros Hb Hf. pose proof (FindPointer_spec heap k h b) as Hs. rewrite Hf in Hs.
  destruct Hs as (Hbq & Hp & Hq). split; [done|]. intros e He. split; [|apply Hq].
  intros Hi. pose proof (ids_bucket e k h b He Hi Hb) as Hin. rewrite Hbq in Hin.
  apply elem_of_app in Hin as [Hin|Hin]; [by apply Hp in Hin|].
  destruct q as [|x q]; [by apply elem_of_nil in Hin|]. simpl. f_equal.
  apply (t_uniq _ _ _ Hok); [|done|by rewrite (Hq x eq_refl)].
  apply (bucket_elem _ b x Hb). rewrite Hbq, elem_of_app, elem_of_cons. auto.
Qed.

(** A table with one bucket changed, when its entries are [ids']. *)
Lemma Table_ok_update b' h ids' elems :
  concat (<[bucket_index t h := b']> (list_ t)) ≡ₚ ids' -> elems = zlen ids' -> zlen ids' <= 2 ^ 31 -> NoDup ids' ->
  (forall e, e ∈ b' -> exists k h', ident heap e = Some (k, h') /\ bucket_index t h = bucket_index t h') ->
  (forall e e', e ∈ ids' -> e' ∈ ids' -> ident heap e = ident heap e' -> e = e') ->
  Table_ok heap (mkTable (length_ t) elems (<[bucket_index t h := b']> (list_ t))) ids'.
Proof.
  intros Hp He Hle Hn Hb Hu. destruct Hok as [Ht1 Ht2 _ _ _ Ht3 _ _]. split; try done; simpl.
  - unfold zlen in *. by rewrite length_insert.
  - intros i b e Hi Hin. destruct (decide (i = bucket_index t h)) as [->|Hne].
    + apply list_lookup_insert_Some in Hi as [(_ & <- & _)|[? _]]; [|done].
      destruct (Hb e Hin) as (k & h' & ? & ?). by exists k, h'.
    + rewrite list_lookup_insert_ne in Hi by done. by apply (Ht3 i b e).
Qed.

(** The slot [FindPointer] finds holds the entry sought, if the table has one. *)
Lemma find_head k h b p q :
  list_ t !! bucket_index t h = Some b -> FindPointer heap k h b = (p, q) ->
  b = p ++ q /\ (forall e, head q = Some e <-> e ∈ ids /\ ident heap e = Some (k, h)).
Proof.
  intros Hb E. destruct (find_spec k h b p q Hb E) as [Hbq Hf]. split; [done|].
  intros e. split; [|intros [He Hi]; by apply Hf]. intros Hh.
  assert (e ∈ ids) as He; [|by split; [|apply Hf]]. apply (bucket_elem _ b e Hb).
  destruct q as [|x q]; [done|]. injection Hh as ->. rewrite Hbq, elem_of_app, elem_of_cons. auto.
Qed.

Lemma bucket_ident h b e :
  list_ t !! bucket_index t h = Some b -> e ∈ b ->
  exists k h', ident heap e = Some (k, h') /\ bucket_index t h = bucket_index t h'.
Proof. apply (t_bucket _ _ _ Hok). Qed.

Lemma table_Lookup_spec k h :
  exists r, table_Lookup heap t k h = Ret r /\
    (forall e, r = Some e <-> e ∈ ids /\ ident heap e = Some (k, h)).
Proof.
  unfold table_Lookup. destruct (bucket_of_spec h) as (b & -> & Hb). cbn [obind].
  destruct (FindPointer heap k h b) as [p q] eqn:E. destruct (find_head k h b p q Hb E) as [_ Hf].
  by exists (head q).
Qed.

Lemma zlen_perm (l k : list nat) : l ≡ₚ k -> zlen l = zlen k.
Proof. intros Hp. unfold zlen. by rewrite Hp. Qed.

Lemma table_Remove_spec k h :
  exists t' r, table_Remove heap t k h = Ret (t', r) /\
    (forall e, r = Some e <-> e ∈ ids /\ ident heap e = Some (k, h)) /\
    Table_ok heap t' (match r with Some e => without e ids | None => ids end).
Proof.
  unfold table_Remove. destruct (bucket_of_spec h) as (b & -> & Hb). cbn [obind].
  destruct (FindPointer heap k h b) as [p q] eqn:E. destruct (find_head k h b p q Hb E) as [Hbq Hr].
  destruct q as [|e q]; simpl.
  - exists t, None. split; [done|]. split; [exact Hr|done].
  - eexists _, (Some e). split; [reflexivity|]. split; [exact Hr|].
    destruct (concat_insert _ _ _ Hb) as (A & C & Hc & Hi).
    assert (ids ≡ₚ e :: (A ++ (p ++ q) ++ C)) as Hp.
    { rewrite <- (t_perm _ _ _ Hok), Hc, Hbq. solve_Permutation. }
    pose proof (without_perm e _ ids Hp (t_nodup _ _ _ Hok)) as Hw.
    pose proof (t_bound _ _ _ Hok). pose proof (zlen_perm _ _ Hp) as Hz. rewrite zlen_cons in Hz.
    pose proof (zlen_perm _ _ Hw) as Hzw. pose proof (zlen_nonneg (A ++ (p ++ q) ++ C)).
    apply Table_ok_update.
    + by rewrite Hi, Hw.
    + rewrite (t_elems _ _ _ Hok), u32_small by lia. lia.
    + lia.
    + apply without_NoDup, (t_nodup _ _ _ Hok).
    + intros x Hx. apply (bucket_ident h b x Hb). rewrite Hbq.
      rewrite elem_of_app in *. rewrite elem_of_cons. tauto.
    + intros x y Hx Hy. apply elem_of_without in Hx as [Hx _]. apply elem_of_without in Hy as [Hy _].
      by apply (t_uniq _ _ _ Hok).
Qed.

End Table.

Lemma double_until_spec fuel : forall k elems,
  2 <= k <= 31 -> elems <= 2 ^ 31 -> (Z.to_nat (31 - k) < fuel)%nat ->
  exists k', k <= k' <= 31 /\ double_until fuel (2 ^ k) elems = Ret (2 ^ k').
Proof.
  induction fuel as [|fuel IH]; intros k elems Hk He Hf; [lia|]. cbn [double_until].
  destruct (Z.ltb_spec (2 ^ k) elems) as [Hlt|]; [|exists k; split; [lia|done]].
  assert (k < 31) as Hk31.
  { destruct (Z.lt_ge_cases k 31); [done|]. replace k with 31 in Hlt by lia. lia. }
  assert (2 ^ k * 2 = 2 ^ (k + 1)) as -> by (rewrite Z.pow_add_r by lia; lia).
  assert (2 ^ (k + 1) <= 2 ^ 31) by (apply Z.pow_le_mono_r; lia).
  rewrite u32_small by lia. destruct (IH (k + 1) elems) as (k' & Hk' & ->); [lia|done|lia|].
  exists k'. split; [lia|done].
Qed.

(** The bucket array while a table is rebuilt. *)
Definition Buckets (heap : Heap) (n : Z) (l : list (list nat)) : Prop :=
  zlen l = n /\ forall i b e, l !! i = Some b -> e ∈ b ->
    exists k h, ident heap e = Some (k, h) /\ i = Z.to_nat (Z.land h (u32 (n - 1))).

Lemma rehash_spec heap k es : forall l,
  2 <= k <= 31 -> Buckets heap (2 ^ k) l -> (forall e, e ∈ es -> is_Some (ident heap e)) ->
  exists l', rehash heap (2 ^ k) es l = Ret l' /\ Buckets heap (2 ^ k) l' /\ concat l' ≡ₚ es ++ concat l.
Proof.
  intros l Hk. revert l. induction es as [|e es IH]; intros l Hl He; cbn [rehash]; [by exists l|].
  destruct (He e) as [kh Hkh]; [by left|]. unfold ident in Hkh. unfold deref.
  destruct (heap !! e) as [h|] eqn:Eh; [|done]. cbn [obind].
  assert (2 ^ k <= 2 ^ 31) by (apply Z.pow_le_mono_r; lia).
  set (i := Z.to_nat (Z.land (hash h) (u32 (2 ^ k - 1)))).
  destruct Hl as [Hlen Hb].
  destruct (lookup_lt_is_Some_2 l i) as [b Hi].
  { unfold i. rewrite u32_small by lia. replace (2 ^ k - 1) with (Z.ones k) by (rewrite Z.ones_equiv; lia).
    rewrite Z.land_ones by lia. pose proof (Z.mod_pos_bound (hash h) (2 ^ k) ltac:(lia)). unfold zlen in Hlen. lia. }
  rewrite Hi. destruct (concat_insert l i b Hi) as (A & C & Hc & Hcb).
  destruct (IH (<[i := e :: b]> l)) as (l' & -> & Hl' & Hp).
  - split; [unfold zlen in *; by rewrite length_insert|]. intros j b' x Hj Hx.
    destruct (decide (j = i)) as [->|Hne].
    + apply list_lookup_insert_Some in Hj as [(_ & <- & _)|[? _]]; [|done].
      apply elem_of_cons in Hx as [->|Hx]; [|by apply (Hb i b)].
      exists (hkey h), (hash h). unfold ident. by rewrite Eh.
    + rewrite list_lookup_insert_ne in Hj by done. by apply (Hb j b').
  - intros x Hx. apply He. by right.
  - exists l'. split; [done|]. split; [done|]. rewrite Hp, Hcb, Hc. solve_Permutation.
Qed.

Lemma Resize_spec heap t ids :
  concat (list_ t) ≡ₚ ids -> elems_ t = zlen ids -> zlen ids <= 2 ^ 31 -> NoDup ids ->
  (forall e, e ∈ ids -> is_Some (ident heap e)) ->
  (forall e e', e ∈ ids -> e' ∈ ids -> ident heap e = ident heap e' -> e = e') ->
  exists t', Resize heap t = Ret t' /\ Table_ok heap t' ids.
Proof.
  intros Hp He Hle Hn Hi Hu. unfold Resize.
  destruct (double_until_spec 33 2 (elems_ t)) as (k & Hk & Hd); [lia|lia|lia|].
  change 4 with (2 ^ 2). rewrite Hd. cbn [obind]. assert (0 <= 2 ^ k) by lia.
  destruct (rehash_spec heap k (concat (list_ t)) (replicate (Z.to_nat (2 ^ k)) [])) as (l & -> & [Hlen Hb] & Hl).
  - lia.
  - split; [rewrite zlen_replicate; lia|]. intros i b e Hb Hin.
    apply lookup_replicate in Hb as [-> _]. by apply elem_of_nil in Hin.
  - intros e Hin. apply Hi. by rewrite <- Hp.
  - cbn [obind]. rewrite (zlen_perm _ _ Hp), He, Z.eqb_refl. cbn [obind oassert].
    assert (concat (replicate (Z.to_nat (2 ^ k)) (@nil nat)) = []) as Hnil
      by (clear; induction (Z.to_nat (2 ^ k)); [done|simpl; done]).
    rewrite Hnil, app_nil_r, Hp in Hl. rewrite <- He.
    eexists. split; [reflexivity|]. split; simpl; try done. exists k. split; [lia|done].
Qed.

Lemma table_Insert_spec heap t ids e k h :
  Table_ok heap t ids -> ident heap e = Some (k, h) -> e ∉ ids -> zlen ids < 2 ^ 31 ->
  exists t' r, table_Insert heap t e = Ret (t', r) /\
    (forall x, r = Some x <-> x ∈ ids /\ ident heap x = Some (k, h)) /\
    Table_ok heap t' (e :: match r with Some x => without x ids | None => ids end).
Proof.
  intros Hok Hi He Hle. unfold table_Insert, deref. pose proof Hi as Hi'. unfold ident in Hi'.
  destruct (heap !! e) as [hd|] eqn:Eh; [|done]. injection Hi' as Hhk Hhh. cbn [obind]. rewrite Hhk, Hhh.
  destruct (bucket_of_spec heap t ids Hok h) as (b & -> & Hb). cbn [obind].
  destruct (FindPointer heap k h b) as [p q] eqn:E. destruct (find_head heap t ids Hok k h b p q Hb E) as [Hbq Hr].
  destruct (concat_insert _ _ _ Hb) as (A & C & Hc & Hci).
  pose proof (t_nodup _ _ _ Hok) as Hn. pose proof (t_perm _ _ _ Hok) as Hp. rewrite Hc, Hbq in Hp.
  assert (forall x, x ∈ p ++ e :: tail q -> exists k0 h', ident heap x = Some (k0, h') /\ bucket_index t h = bucket_index t h') as Hbk.
  { intros x Hx. apply elem_of_app in Hx as [Hx|Hx].
    - apply (bucket_ident heap t ids Hok h b x Hb). rewrite Hbq, elem_of_app. auto.
    - apply elem_of_cons in Hx as [->|Hx]; [by exists k, h|].
      apply (bucket_ident heap t ids Hok h b x Hb). rewrite Hbq, elem_of_app. right.
      destruct q; [done|]. by right. }
  destruct q as [|old q]; simpl in *.
  - assert (A ++ (p ++ [e]) ++ C ≡ₚ e :: ids) as Hp' by (rewrite <- Hp; solve_Permutation).
    assert (forall x y, x ∈ e :: ids -> y ∈ e :: ids -> ident heap x = ident heap y -> x = y) as Hu.
    { assert (forall x, x ∈ ids -> ident heap x <> Some (k, h)) as Hnone by (intros x Hx Hxi; by pose proof (proj2 (Hr x) (conj Hx Hxi))).
      intros x y Hx Hy Hxy. apply elem_of_cons in Hx as [->|Hx], Hy as [->|Hy]; try done.
      - exfalso. apply (Hnone y Hy). congruence.
      - exfalso. apply (Hnone x Hx). congruence.
      - by apply (t_uniq _ _ _ Hok). }
    assert (Table_ok heap (mkTable (length_ t) (u32 (elems_ t + 1)) (<[bucket_index t h := p ++ [e]]> (list_ t))) (e :: ids)) as Ht.
    { apply (Table_ok_update heap t ids Hok).
      - by rewrite Hci.
      - rewrite (t_elems _ _ _ Hok), zlen_cons, u32_small; [lia|]. pose proof (zlen_nonneg ids). lia.
      - rewrite zlen_cons. lia.
      - by apply NoDup_cons.
      - done.
      - done. }
    destruct (_ <? _).
    + destruct (Resize_spec heap _ (e :: ids) (t_perm _ _ _ Ht) (t_elems _ _ _ Ht) (t_bound _ _ _ Ht) (t_nodup _ _ _ Ht))
        as (t' & -> & Ht'); [| exact (t_uniq _ _ _ Ht)|].
      { intros x Hx. rewrite <- (t_perm _ _ _ Ht) in Hx. apply list_elem_of_In, in_concat in Hx as (b' & Hb' & Hx).
        apply list_elem_of_In in Hb', Hx. apply list_elem_of_lookup in Hb' as [i Hb'].
        destruct (t_bucket _ _ _ Ht i b' x Hb' Hx) as (k0 & h0 & -> & _). eauto. }
      cbn [obind]. by exists t', None.
    + cbn [obind]. eexists _, None. split; [reflexivity|]. by split.
  - eexists _, (Some old). split; [reflexivity|]. split; [exact Hr|].
    assert (ids ≡ₚ old :: (A ++ (p ++ q) ++ C)) as Hpo by (rewrite <- Hp; solve_Permutation).
    pose proof (without_perm old _ ids Hpo Hn) as Hw.
    pose proof (zlen_perm _ _ Hpo) as Hz. rewrite zlen_cons in Hz. pose proof (zlen_perm _ _ Hw) as Hzw.
    destruct (proj1 (Hr old) eq_refl) as [Hold Hoi].
    apply (Table_ok_update heap t ids Hok).
    + rewrite Hci, Hw. solve_Permutation.
    + rewrite (t_elems _ _ _ Hok), zlen_cons. lia.
    + rewrite zlen_cons. lia.
    + apply NoDup_cons. split; [|by apply without_NoDup]. by intros [? _]%elem_of_without.
    + done.
    + assert (forall x, x ∈ without old ids -> ident heap x <> Some (k, h)) as Hnone.
      { intros x [Hx Hxo]%elem_of_without Hxi. apply Hxo. apply (t_uniq _ _ _ Hok); [done|done|congruence]. }
      intros x y Hx Hy Hxy. apply elem_of_cons in Hx as [->|Hx], Hy as [->|Hy]; try done.
      * exfalso. apply (Hnone y Hy). congruence.
      * exfalso. apply (Hnone x Hx). congruence.
      * apply elem_of_without in Hx as [Hx _], Hy as [Hy _]. by apply (t_uniq _ _ _ Hok).
Qed.

(** The table does not see the counters of the entries. *)
Lemma Table_ok_frame heap heap' t ids :
  (forall e, e ∈ ids -> ident heap' e = ident heap e) -> Table_ok heap t ids -> Table_ok heap' t ids.
Proof.
  intros Hi Hok. pose proof Hok as [H1 H2 H3 H4 H5 H6 H7 H8]. split; try done.
  - intros i b e Hb He. rewrite Hi by (by eapply bucket_elem). by apply (H6 i b e).
  - intros e e' He He'. rewrite !Hi by done. by apply H8.
Qed.


Lemma Table_ok_perm heap t ids ids' : ids ≡ₚ ids' -> Table_ok heap t ids -> Table_ok heap t ids'.
Proof.
  intros Hp [T1 T2 T3 T4 T5 T6 T7 T8]. split; try done.
  - by rewrite T3.
  - by rewrite T4, (zlen_perm _ _ Hp).
  - by rewrite <- (zlen_perm _ _ Hp).
  - by rewrite <- Hp.
  - intros x y. rewrite <- Hp. apply T8.
Qed.

(** ** The invariant of a shard

    [held] are the handles clients hold, once per reference, and [ins] the keys and values
    inserted so far. *)

Definition cnt (e : nat) (held : list nat) : Z := zlen (filter (fun x => x = e) held).

Definition charge_of (heap : Heap) (e : nat) : Z := match heap !! e with Some h => charge h | None => 0 end.

Definition total (heap : Heap) (l : list nat) : Z := foldr (fun e a => charge_of heap e + a) 0 l.

Definition cached (heap : Heap) (e : nat) : Prop := exists h, heap !! e = Some h /\ in_cache h = true.

(** The keys and values of the entries that are not freed. *)
Definition kvs (heap : Heap) : list (bytes * V) := (fun p => (hkey p.2, value p.2)) <$> map_to_list heap.

Record Core (c : LRUCache) (held : list nat) (ins : list (bytes * V)) : Prop := {
  c_heap e h : heap_ c !! e = Some h ->
    (e < next_id_ c)%nat /\ refs h = cnt e held + (if in_cache h then 1 else 0) /\ 0 < refs h;
  c_held e : e ∈ held -> is_Some (heap_ c !! e);
  c_lru e : e ∈ lru_ c <-> cached (heap_ c) e /\ cnt e held = 0;
  c_use e : e ∈ in_use_ c <-> cached (heap_ c) e /\ 0 < cnt e held;
  c_nlru : NoDup (lru_ c);
  c_nuse : NoDup (in_use_ c);
  c_usage : usage_ c = u64 (total (heap_ c) (lru_ c ++ in_use_ c));
  c_acc : deleted_ c ++ kvs (heap_ c) ≡ₚ ins;
}.

Definition Inv (c : LRUCache) (held : list nat) (ins : list (bytes * V)) : Prop :=
  Core c held ins /\ Table_ok (heap_ c) (table_ c) (lru_ c ++ in_use_ c).

Lemma cnt_cons e x held : cnt e (x :: held) = (if decide (x = e) then 1 else 0) + cnt e held.
Proof. unfold cnt. rewrite filter_cons. destruct (decide (x = e)); [by rewrite zlen_cons | lia]. Qed.

Lemma cnt_nonneg e held : 0 <= cnt e held.
Proof. apply zlen_nonneg. Qed.

Lemma cnt_zero e held : e ∉ held -> cnt e held = 0.
Proof.
  induction held as [|x held IH]; [done|]. rewrite not_elem_of_cons, cnt_cons. intros [Hx Hh].
  rewrite decide_False by auto. by rewrite IH.
Qed.

Lemma cnt_pos e held : e ∈ held -> 0 < cnt e held.
Proof.
  induction held as [|x held IH]; intros He; [by apply elem_of_nil in He|]. rewrite cnt_cons.
  pose proof (cnt_nonneg e held). apply elem_of_cons in He as [->|He]; [rewrite decide_True by done; lia|].
  specialize (IH He). destruct (decide _); lia.
Qed.

Lemma cnt_le e held : cnt e held <= zlen held.
Proof.
  induction held as [|x held IH]; [done|]. rewrite cnt_cons, zlen_cons. destruct (decide _); lia.
Qed.

Lemma cnt_perm e held held' : held ≡ₚ held' -> cnt e held = cnt e held'.
Proof. intros Hp. unfold cnt, zlen. by rewrite Hp. Qed.

Lemma Core_perm c held held' ins : held ≡ₚ held' -> Core c held ins -> Core c held' ins.
Proof.
  intros Hp [H1 H2 H3 H4 H5 H6 H7 H8]. split; try done.
  - intros e h Hh. rewrite <- (cnt_perm e _ _ Hp). by apply H1.
  - intros e. rewrite <- Hp. apply H2.
  - intros e. rewrite <- (cnt_perm e _ _ Hp). apply H3.
  - intros e. rewrite <- (cnt_perm e _ _ Hp). apply H4.
Qed.

Lemma total_perm heap l k : l ≡ₚ k -> total heap l = total heap k.
Proof. induction 1; simpl; lia. Qed.

Lemma total_frame heap heap' l :
  (forall e, e ∈ l -> charge_of heap' e = charge_of heap e) -> total heap' l = total heap l.
Proof.
  induction l as [|x l IH]; intros Hl; [done|]. simpl. rewrite Hl by (by left).
  rewrite IH; [done|]. intros e He. apply Hl. by right.
Qed.

Lemma kvs_insert_new heap e h : heap !! e = None -> kvs (<[e := h]> heap) ≡ₚ (hkey h, value h) :: kvs heap.
Proof. intros He. unfold kvs. by rewrite map_to_list_insert. Qed.

Lemma kvs_delete heap e h : heap !! e = Some h -> (hkey h, value h) :: kvs (delete e heap) ≡ₚ kvs heap.
Proof. intros He. unfold kvs. by rewrite <- (map_to_list_delete heap e h He). Qed.

Lemma kvs_update heap e h h' :
  heap !! e = Some h -> hkey h' = hkey h -> value h' = value h -> kvs (<[e := h']> heap) ≡ₚ kvs heap.
Proof.
  intros He Hk Hv. rewrite <- (kvs_delete heap e h He).
  rewrite <- (insert_delete_eq heap), kvs_insert_new by apply lookup_delete_eq. by rewrite Hk, Hv.
Qed.

(** Two entries that differ only in their counters. *)
Definition same_static (h h' : LRUHandle) : Prop :=
  hkey h' = hkey h /\ value h' = value h /\ charge h' = charge h /\ hash h' = hash h.

Lemma charge_of_update heap e h h' x :
  heap !! e = Some h -> same_static h h' -> charge_of (<[e := h']> heap) x = charge_of heap x.
Proof.
  intros He (_ & _ & Hc & _). unfold charge_of. destruct (decide (x = e)) as [->|Hne].
  - by rewrite lookup_insert_eq, He.
  - by rewrite lookup_insert_ne by auto.
Qed.

Lemma ident_update heap e h h' x :
  heap !! e = Some h -> same_static h h' -> ident (<[e := h']> heap) x = ident heap x.
Proof.
  intros He (Hk & _ & _ & Hh). unfold ident. destruct (decide (x = e)) as [->|Hne].
  - rewrite lookup_insert_eq, He. simpl. by rewrite Hk, Hh.
  - by rewrite lookup_insert_ne by auto.
Qed.

Lemma cached_update heap e h' x :
  cached (<[e := h']> heap) x <-> (x = e /\ in_cache h' = true) \/ (x <> e /\ cached heap x).
Proof.
  unfold cached. destruct (decide (x = e)) as [->|Hne].
  - rewrite lookup_insert_eq. split; [intros (h & [= <-] & ?); auto|]. intros [[_ ?]|[? _]]; [eauto|done].
  - rewrite lookup_insert_ne by auto. tauto.
Qed.

Lemma deref_some heap e h : heap !! e = Some h -> deref heap e = Ret h.
Proof. unfold deref. by intros ->. Qed.

Lemma Core_elem c held ins e : Core c held ins -> e ∈ lru_ c ++ in_use_ c <-> cached (heap_ c) e.
Proof.
  intros Hc. rewrite elem_of_app, (c_lru _ _ _ Hc), (c_use _ _ _ Hc). pose proof (cnt_nonneg e held).
  assert (cnt e held = 0 \/ 0 < cnt e held) as Hz by lia. tauto.
Qed.

Lemma Core_NoDup c held ins : Core c held ins -> NoDup (lru_ c ++ in_use_ c).
Proof.
  intros Hc. apply NoDup_app. split; [apply (c_nlru _ _ _ Hc)|]. split; [|apply (c_nuse _ _ _ Hc)].
  intros e He He'. apply (c_lru _ _ _ Hc) in He as [_ Hz]. apply (c_use _ _ _ Hc) in He' as [_ Hp]. lia.
Qed.

Lemma without_app e l k : without e (l ++ k) = without e l ++ without e k.
Proof. apply filter_app. Qed.

Lemma cached_split c held ins e :
  Core c held ins -> cached (heap_ c) e -> lru_ c ++ in_use_ c ≡ₚ e :: without e (lru_ c ++ in_use_ c).
Proof.
  intros Hc He. apply (Core_elem _ _ _ _ Hc) in He. pose proof (Core_NoDup _ _ _ Hc) as Hn.
  apply list_elem_of_split in He as (l1 & l2 & Hl). rewrite Hl in *.
  assert (l1 ++ e :: l2 ≡ₚ e :: (l1 ++ l2)) as Hp by solve_Permutation.
  by rewrite (without_perm e (l1 ++ l2) _ Hp Hn).
Qed.

(** ** References *)

Lemma cnt_same e held : cnt e (e :: held) = 1 + cnt e held.
Proof. rewrite cnt_cons. by rewrite decide_True. Qed.

Lemma cnt_other e x held : x <> e -> cnt x (e :: held) = cnt x held.
Proof. intros Hne. rewrite cnt_cons. by rewrite decide_False by auto. Qed.

(** An entry's counters change with the references clients hold: what remains to be shown
    when the entry stays allocated is that the lists agree. *)
Lemma Core_update c held held' ins e h h' lru in_use :
  Core c held ins -> heap_ c !! e = Some h -> same_static h h' ->
  (forall x, x <> e -> cnt x held' = cnt x held) -> (forall x, x ∈ held' -> x = e \/ x ∈ held) ->
  refs h' = cnt e held' + (if in_cache h' then 1 else 0) -> 0 < refs h' ->
  (forall x, x <> e -> x ∈ lru <-> x ∈ lru_ c) -> (forall x, x <> e -> x ∈ in_use <-> x ∈ in_use_ c) ->
  (e ∈ lru <-> in_cache h' = true /\ cnt e held' = 0) ->
  (e ∈ in_use <-> in_cache h' = true /\ 0 < cnt e held') ->
  NoDup lru -> NoDup in_use ->
  Core (mkCache (capacity_ c) (u64 (total (heap_ c) (lru ++ in_use))) lru in_use (table_ c)
          (<[e := h']> (heap_ c)) (next_id_ c) (deleted_ c)) held' ins.
Proof.
  intros Hc He Hst Hcnt Hheld Href Hpos Hl Hu Hel Heu Hnl Hnu. split; simpl; try done.
  - intros x hx Hx. destruct (decide (x = e)) as [->|Hne].
    + rewrite lookup_insert_eq in Hx. injection Hx as <-. split; [by apply (c_heap _ _ _ Hc e h)|done].
    + rewrite lookup_insert_ne in Hx by auto. rewrite Hcnt by done. by apply (c_heap _ _ _ Hc).
  - intros x Hx. destruct (decide (x = e)) as [->|Hne]; [rewrite lookup_insert_eq; eauto|].
    rewrite lookup_insert_ne by auto. destruct (Hheld x Hx) as [|Hin]; [done|]. by apply (c_held _ _ _ Hc).
  - intros x. rewrite cached_update. destruct (decide (x = e)) as [->|Hne]; [tauto|].
    rewrite Hl, (c_lru _ _ _ Hc), Hcnt by done. tauto.
  - intros x. rewrite cached_update. destruct (decide (x = e)) as [->|Hne]; [tauto|].
    rewrite Hu, (c_use _ _ _ Hc), Hcnt by done. tauto.
  - f_equal. symmetry. apply total_frame. intros x _. by apply (charge_of_update _ e h).
  - destruct Hst as (Hk & Hv & _). rewrite (kvs_update _ e h h' He Hk Hv). apply (c_acc _ _ _ Hc).
Qed.

(** Whether an entry is on one of the lists is whether it is cached. *)
Lemma Core_not_cached c held ins e h :
  Core c held ins -> heap_ c !! e = Some h -> in_cache h = false -> e ∉ lru_ c ++ in_use_ c.
Proof. intros Hc He Hic. rewrite (Core_elem _ _ _ _ Hc). intros (h' & He' & ?). congruence. Qed.

(** The last reference to an entry that is not cached is given up. *)
Lemma Core_deallocate c held ins e h :
  Core c (e :: held) ins -> heap_ c !! e = Some h -> in_cache h = false -> cnt e held = 0 ->
  Core (deallocate c e h) held ins.
Proof.
  intros Hc He Hic Hc0. pose proof (Core_not_cached _ _ _ _ _ Hc He Hic) as Hnin.
  assert (forall x, x <> e -> cnt x held = cnt x (e :: held)) as Hcnt by (intros; by rewrite cnt_other).
  assert (forall x, cached (delete e (heap_ c)) x <-> x <> e /\ cached (heap_ c) x) as Hca.
  { intros x. unfold cached. destruct (decide (x = e)) as [->|Hne].
    - rewrite lookup_delete_eq. split; [by intros (? & ? & _) | tauto].
    - rewrite lookup_delete_ne by auto. tauto. }
  rewrite not_elem_of_app in Hnin. destruct Hnin as [Hnl Hnu].
  split; simpl; try apply Hc.
  - intros x hx Hx. apply lookup_delete_Some in Hx as [Hne Hx]. rewrite Hcnt by auto. by apply (c_heap _ _ _ Hc).
  - intros x Hx. assert (x <> e) as Hne by (intros ->; apply cnt_pos in Hx; lia).
    rewrite lookup_delete_ne by auto. apply (c_held _ _ _ Hc). by right.
  - intros x. rewrite Hca. destruct (decide (x = e)) as [->|Hne]; [tauto|].
    rewrite Hcnt, (c_lru _ _ _ Hc) by done. tauto.
  - intros x. rewrite Hca. destruct (decide (x = e)) as [->|Hne]; [tauto|].
    rewrite Hcnt, (c_use _ _ _ Hc) by done. tauto.
  - rewrite (c_usage _ _ _ Hc). f_equal. symmetry. apply total_frame. intros x Hx. unfold charge_of.
    rewrite lookup_delete_ne; [done|]. intros <-. apply elem_of_app in Hx as [?|?]; done.
  - rewrite <- app_assoc. simpl. rewrite (kvs_delete _ e h He). apply (c_acc _ _ _ Hc).
Qed.

(** A reference that is not the last one is given up: the entry goes to the lru list when
    only the cache refers to it. *)
Lemma Unref_keep c held ins e h :
  Inv c (e :: held) ins -> heap_ c !! e = Some h -> 0 < refs h - 1 ->
  let c1 := set_handle c e (set_refs h (refs h - 1)) in
  let c' := if in_cache h && (refs h - 1 =? 1) then append_lru (LRU_Remove c1 e) e else c1 in
  Inv c' held ins /\ usage_ c' = usage_ c.
Proof.
  intros [Hc Ht] He Hpos'. cbv zeta.
  destruct (c_heap _ _ _ Hc e h He) as (Hid & Href & Hpos). rewrite cnt_same in Href.
  pose proof (cnt_nonneg e held) as Hcn.
  assert (forall x, x ∈ held -> x = e \/ x ∈ e :: held) as Hheld by (intros x Hx; right; by right).
  assert (forall x, x <> e -> cnt x held = cnt x (e :: held)) as Hcnt by (intros; by rewrite cnt_other).
  pose proof (c_lru _ _ _ Hc e) as Hle. pose proof (c_use _ _ _ Hc e) as Hue. rewrite cnt_same in Hle, Hue.
  assert (cached (heap_ c) e <-> in_cache h = true) as Hce.
  { unfold cached. rewrite He. split; [by intros (? & [= <-] & ?) | eauto]. }
  rewrite Hce in Hle, Hue.
  assert (forall l, Table_ok (heap_ c) (table_ c) l ->
            Table_ok (<[e := set_refs h (refs h - 1)]> (heap_ c)) (table_ c) l) as Htab.
  { intros l. apply Table_ok_frame. intros x _. by apply (ident_update _ e h). }
  destruct (in_cache h && (refs h - 1 =? 1)) eqn:Eb.
  - apply andb_true_iff in Eb as [Hic H1%Z.eqb_eq]. rewrite Hic in *.
    assert (e ∉ lru_ c) as Hnl by (rewrite Hle; lia).
    assert (lru_ c ++ in_use_ c ≡ₚ (without e (lru_ c) ++ [e]) ++ without e (in_use_ c)) as Hp.
    { rewrite (cached_split _ _ _ e Hc) by (by apply Hce). rewrite without_app. solve_Permutation. }
    unfold append_lru, LRU_Remove, set_handle. simpl.
    rewrite (c_usage _ _ _ Hc), (total_perm _ _ _ Hp). split; [split|done]; simpl.
    + apply (Core_update c (e :: held) held ins e h); try done; simpl; rewrite ?Hic; try lia.
      * intros x Hne. rewrite elem_of_app, elem_of_without, list_elem_of_singleton. tauto.
      * intros x Hne. rewrite elem_of_without. tauto.
      * rewrite elem_of_app, list_elem_of_singleton. split; [intros _; split; [done|lia]|auto].
      * rewrite elem_of_without. split; [tauto|lia].
      * rewrite without_notin by done. apply NoDup_app. split; [apply (c_nlru _ _ _ Hc)|].
        split; [|apply NoDup_singleton]. intros x Hx ->%list_elem_of_singleton. done.
      * apply without_NoDup, (c_nuse _ _ _ Hc).
    + by apply Htab, (Table_ok_perm _ _ _ _ Hp).
  - assert (in_cache h = true -> refs h - 1 <> 1) as Hb.
    { intros Hic. rewrite Hic in Eb. by apply Z.eqb_neq in Eb. }
    unfold set_handle. simpl. rewrite (c_usage _ _ _ Hc). split; [split|done]; simpl; [|by apply Htab].
    apply (Core_update c (e :: held) held ins e h); try done; simpl; try lia; try apply Hc.
    + rewrite Hle. destruct (in_cache h); lia.
    + rewrite Hue. destruct (in_cache h); lia.
Qed.

Lemma Unref_spec c held ins e h :
  Inv c (e :: held) ins -> heap_ c !! e = Some h ->
  exists c', Unref c e = Ret c' /\ Inv c' held ins /\
    capacity_ c' = capacity_ c /\ next_id_ c' = next_id_ c /\ usage_ c' = usage_ c /\
    (forall x, x <> e -> heap_ c' !! x = heap_ c !! x) /\
    (in_cache h = false -> lru_ c' = lru_ c /\ in_use_ c' = in_use_ c) /\
    (in_cache h = false -> cnt e held = 0 ->
       deleted_ c' = deleted_ c ++ [(hkey h, value h)] /\ heap_ c' !! e = None) /\
    (0 < cnt e held -> deleted_ c' = deleted_ c).
Proof.
  intros Hinv He. pose proof Hinv as [Hc Ht]. unfold Unref. rewrite (deref_some _ _ _ He). cbn [obind].
  destruct (c_heap _ _ _ Hc e h He) as (Hid & Href & Hpos). rewrite cnt_same in Href.
  rewrite (proj2 (Z.ltb_lt 0 (refs h))) by done. cbn [obind oassert]. pose proof (cnt_nonneg e held) as Hcn.
  cbn [set_refs refs in_cache]. destruct (Z.eqb_spec (refs h - 1) 0) as [Hz|Hnz].
  - assert (in_cache h = false /\ cnt e held = 0) as [Hic Hc0] by (destruct (in_cache h); [lia|split; [done|lia]]).
    rewrite Hic. cbn [negb obind oassert]. exists (deallocate c e h).
    split. { unfold deallocate, set_handle. simpl. by rewrite delete_insert_eq. }
    split; [split; [by apply Core_deallocate|]|].
    + simpl. eapply Table_ok_frame; [|exact Ht]. intros x Hx. unfold ident. rewrite lookup_delete_ne; [done|].
      intros <-. by apply (Core_not_cached _ _ _ _ _ Hc He Hic).
    + split_and!; try done; try lia.
      * intros x Hne. simpl. by rewrite lookup_delete_ne by auto.
      * intros _ _. split; [done|]. simpl. apply lookup_delete_eq.
  - destruct (Unref_keep c held ins e h Hinv He ltac:(lia)) as [Hinv' Hu].
    assert (forall x, x <> e -> <[e := set_refs h (refs h - 1)]> (heap_ c) !! x = heap_ c !! x) as Hx
      by (intros x Hne; by rewrite lookup_insert_ne by auto).
    destruct (in_cache h) eqn:Hic; cbn [andb] in *; [destruct (refs h - 1 =? 1)|];
      (eexists; split; [reflexivity|]; split_and!; try done; try lia).
Qed.

(** A cached entry gets one more reference and is in use. *)
Lemma Ref_spec c held ins e h :
  Inv c held ins -> heap_ c !! e = Some h -> in_cache h = true -> zlen held < 2 ^ 31 ->
  exists c', Ref c e = Ret c' /\ Inv c' (e :: held) ins /\
    capacity_ c' = capacity_ c /\ usage_ c' = usage_ c /\ next_id_ c' = next_id_ c /\
    heap_ c' = <[e := set_refs h (refs h + 1)]> (heap_ c) /\ deleted_ c' = deleted_ c /\
    lru_ c' = without e (lru_ c).
Proof.
  intros [Hc Ht] He Hic Hlen. unfold Ref. rewrite (deref_some _ _ _ He). cbn [obind].
  destruct (c_heap _ _ _ Hc e h He) as (Hid & Href & Hpos). rewrite Hic in Href.
  pose proof (cnt_nonneg e held). pose proof (cnt_le e held). rewrite u32_small by lia. rewrite Hic, andb_true_r.
  assert (same_static h (set_refs h (refs h + 1))) as Hst by done.
  assert (forall x, x ∈ e :: held -> x = e \/ x ∈ held) as Hheld by (intros x; by rewrite elem_of_cons).
  assert (forall x, x <> e -> cnt x (e :: held) = cnt x held) as Hcnt by (intros; by rewrite cnt_other).
  assert (cached (heap_ c) e) as Hce by (exists h; done).
  pose proof (c_lru _ _ _ Hc e) as Hle. pose proof (c_use _ _ _ Hc e) as Hue.
  assert (forall l, Table_ok (heap_ c) (table_ c) l ->
            Table_ok (<[e := set_refs h (refs h + 1)]> (heap_ c)) (table_ c) l) as Htab.
  { intros l. apply Table_ok_frame. intros x _. by apply (ident_update _ e h). }
  destruct (Z.eqb_spec (refs h) 1) as [H1|H1].
  - assert (e ∉ in_use_ c) as Hnu by (rewrite Hue; lia).
    assert (lru_ c ++ in_use_ c ≡ₚ without e (lru_ c) ++ without e (in_use_ c) ++ [e]) as Hp.
    { rewrite (cached_split _ _ _ e Hc) by done. rewrite without_app. solve_Permutation. }
    eexists. split; [reflexivity|]. unfold append_in_use, LRU_Remove, set_handle. simpl.
    rewrite (c_usage _ _ _ Hc), (total_perm _ _ _ Hp). split; [split|]; simpl.
    + apply (Core_update c held (e :: held) ins e h); try done; simpl; rewrite ?Hic, ?cnt_same; try lia.
      * intros x Hne. rewrite elem_of_without. tauto.
      * intros x Hne. rewrite elem_of_app, elem_of_without, list_elem_of_singleton. tauto.
      * rewrite elem_of_without. split; [tauto|lia].
      * rewrite elem_of_app, list_elem_of_singleton. split; [split; [done|lia]|auto].
      * apply without_NoDup, (c_nlru _ _ _ Hc).
      * rewrite without_notin by done. apply NoDup_app. split; [apply (c_nuse _ _ _ Hc)|].
        split; [|apply NoDup_singleton]. intros x Hx ->%list_elem_of_singleton. done.
    + by apply Htab, (Table_ok_perm _ _ _ _ Hp).
    + done.
  - assert (e ∉ lru_ c) as Hnl by (rewrite Hle; lia).
    eexists. split; [reflexivity|]. unfold set_handle. rewrite (c_usage _ _ _ Hc). split; [split|]; simpl.
    + apply (Core_update c held (e :: held) ins e h); try done; simpl; rewrite ?Hic, ?cnt_same; try lia; try apply Hc.
      * split; [done|lia].
      * rewrite Hue. split; [split; [done|lia] | split; [done|lia]].
    + by apply Htab.
    + by rewrite without_notin.
Qed.

(** A cached entry leaves the cache: it is freed unless clients hold it. *)
Lemma FinishErase_spec c held ins e h :
  Core c held ins -> heap_ c !! e = Some h -> in_cache h = true ->
  Table_ok (heap_ c) (table_ c) (without e (lru_ c ++ in_use_ c)) ->
  exists c', FinishErase c (Some e) = Ret (c', true) /\ Inv c' held ins /\
    capacity_ c' = capacity_ c /\ next_id_ c' = next_id_ c /\
    (forall x, x <> e -> heap_ c' !! x = heap_ c !! x) /\
    lru_ c' = without e (lru_ c) /\ in_use_ c' = without e (in_use_ c) /\
    (cnt e held = 0 -> deleted_ c' = deleted_ c ++ [(hkey h, value h)] /\ heap_ c' !! e = None) /\
    (0 < cnt e held -> deleted_ c' = deleted_ c).
Proof.
  intros Hc He Hic Ht. unfold FinishErase. rewrite (deref_some _ _ _ He). cbn [obind]. rewrite Hic. cbn [obind oassert].
  set (c1 := mkCache (capacity_ c) (u64 (total (heap_ c) (without e (lru_ c) ++ without e (in_use_ c))))
               (without e (lru_ c)) (without e (in_use_ c)) (table_ c)
               (<[e := set_in_cache h false]> (heap_ c)) (next_id_ c) (deleted_ c)).
  assert (cached (heap_ c) e) as Hce by (exists h; done).
  assert (u64 (usage_ c - charge h) = u64 (total (heap_ c) (without e (lru_ c) ++ without e (in_use_ c)))) as Hu.
  { rewrite (c_usage _ _ _ Hc), (total_perm _ _ _ (cached_split _ _ _ e Hc Hce)), without_app. simpl.
    unfold charge_of at 1. rewrite He. unfold u64. rewrite Zminus_mod_idemp_l. f_equal. lia. }
  change (set_usage _ _) with (mkCache (capacity_ c) (u64 (usage_ c - charge h)) (without e (lru_ c))
    (without e (in_use_ c)) (table_ c) (<[e := set_in_cache h false]> (heap_ c)) (next_id_ c) (deleted_ c)).
  rewrite Hu. fold c1. destruct (c_heap _ _ _ Hc e h He) as (Hid & Href & Hpos). rewrite Hic in Href.
  destruct (Unref_spec c1 held ins e (set_in_cache h false)) as (c' & -> & Hinv & H1 & H2 & H3 & H4 & H5 & H7 & H8).
  - split.
    + apply (Core_update c held (e :: held) ins e h); try done; simpl; rewrite ?cnt_same; try lia.
      * intros x Hne. by rewrite cnt_other.
      * intros x. by rewrite elem_of_cons.
      * intros x Hne. rewrite elem_of_without. tauto.
      * intros x Hne. rewrite elem_of_without. tauto.
      * rewrite elem_of_without. split; [tauto | by intros [? _]].
      * rewrite elem_of_without. split; [tauto | by intros [? _]].
      * apply without_NoDup, (c_nlru _ _ _ Hc).
      * apply without_NoDup, (c_nuse _ _ _ Hc).
    + simpl. rewrite <- without_app. eapply Table_ok_frame; [|exact Ht]. intros x _. by apply (ident_update _ e h).
  - apply lookup_insert_eq.
  - cbn [obind]. exists c'. split; [done|]. split; [done|]. split; [done|]. split; [done|].
    destruct (H5 eq_refl) as [-> ->]. split_and!; try done.
    + intros x Hne. rewrite (H4 x Hne). simpl. by rewrite lookup_insert_ne by auto.
    + intros Hz. by apply H7.
Qed.

Lemma Core_set_table c held ins t : Core c held ins -> Core (set_table c t) held ins.
Proof. intros [C1 C2 C3 C4 C5 C6 C7 C8]. by split. Qed.

Lemma ident_static heap e h : heap !! e = Some h -> ident heap e = Some (hkey h, hash h).
Proof. unfold ident. by intros ->. Qed.

(** The oldest entry leaves the cache and is freed. *)
Lemma evict_oldest_spec c held ins e rest :
  Inv c held ins -> lru_ c = e :: rest ->
  exists c' h, evict_oldest c e = Ret c' /\ heap_ c !! e = Some h /\ Inv c' held ins /\
    capacity_ c' = capacity_ c /\ next_id_ c' = next_id_ c /\
    lru_ c' = rest /\ in_use_ c' = in_use_ c /\ (forall x, x <> e -> heap_ c' !! x = heap_ c !! x) /\
    deleted_ c' = deleted_ c ++ [(hkey h, value h)].
Proof.
  intros [Hc Ht] Hl. assert (e ∈ lru_ c) as Hin by (rewrite Hl; by left).
  pose proof (proj1 (c_lru _ _ _ Hc e) Hin) as [(h & He & Hic) Hz].
  destruct (c_heap _ _ _ Hc e h He) as (Hid & Href & _). rewrite Hic in Href.
  unfold evict_oldest. rewrite (deref_some _ _ _ He). cbn [obind].
  rewrite (proj2 (Z.eqb_eq (refs h) 1)) by lia. cbn [obind oassert].
  destruct (table_Remove_spec _ _ _ Ht (hkey h) (hash h)) as (t & r & -> & Hr & Ht'). cbn [obind].
  assert (r = Some e) as -> by (apply Hr; rewrite elem_of_app; split; [by left|by apply ident_static]).
  destruct (FinishErase_spec (set_table c t) held ins e h (Core_set_table _ _ _ t Hc) He Hic Ht')
    as (c' & -> & Hinv & H1 & H2 & H3 & H4 & H5 & H6 & _). cbn [obind oassert].
  exists c', h. split; [done|]. split; [done|]. split; [done|]. split; [done|]. split; [done|].
  split. { rewrite H4. simpl. rewrite Hl. unfold without. rewrite filter_cons_False by auto.
    pose proof (c_nlru _ _ _ Hc) as Hn. rewrite Hl in Hn. apply NoDup_cons in Hn as [Hn _]. by apply without_notin. }
  split. { rewrite H5. apply without_notin. simpl. rewrite (c_use _ _ _ Hc). lia. }
  split; [done|]. by apply H6.
Qed.

(** ** Eviction *)

(** The loop of [Insert] frees the oldest entries, no more of them than it must. *)
Lemma evict_loop_spec fuel : forall c held ins,
  Inv c held ins -> (length (lru_ c) < fuel)%nat ->
  exists c' n, evict_loop fuel c = Ret c' /\ Inv c' held ins /\
    capacity_ c' = capacity_ c /\ next_id_ c' = next_id_ c /\
    lru_ c' = drop n (lru_ c) /\ in_use_ c' = in_use_ c /\
    (usage_ c' <= capacity_ c \/ lru_ c' = []) /\
    (forall m, (m < n)%nat -> capacity_ c < u64 (total (heap_ c) (drop m (lru_ c) ++ in_use_ c))) /\
    (forall x, x ∉ lru_ c -> heap_ c' !! x = heap_ c !! x).
Proof.
  induction fuel as [|fuel IH]; intros c held ins Hinv Hf; [lia|]. cbn [evict_loop].
  destruct (Z.ltb_spec (capacity_ c) (usage_ c)) as [Hgt|Hle].
  2:{ exists c, 0%nat. rewrite drop_0. split_and!; try done; [by left|]. intros m Hm. lia. }
  destruct (lru_ c) as [|e rest] eqn:El.
  { exists c, 0%nat. rewrite El. split_and!; try done; [by right|]. intros m Hm. lia. }
  destruct (evict_oldest_spec c held ins e rest Hinv El) as (c1 & h & -> & _ & Hinv1 & H1 & H2 & H3 & H4 & H5 & _).
  cbn [obind]. destruct (IH c1 held ins Hinv1) as (c' & n & -> & Hinv' & G1 & G2 & G3 & G4 & G5 & G6 & G7).
  { rewrite H3. simpl in Hf. lia. }
  destruct Hinv as [Hc _]. pose proof (Core_NoDup _ _ _ Hc) as Hn. rewrite El in Hn. simpl in Hn.
  apply NoDup_cons in Hn as [Hn _]. rewrite not_elem_of_app in Hn. destruct Hn as [Hnr Hnu].
  exists c', (S n). rewrite H1 in G5. split; [done|]. split; [done|]. split; [congruence|]. split; [congruence|].
  split; [by rewrite G3, H3|]. split; [congruence|]. split; [exact G5|]. split.
  - intros m Hm. destruct m as [|m].
    + simpl. rewrite (c_usage _ _ _ Hc), El in Hgt. exact Hgt.
    + specialize (G6 m ltac:(lia)). rewrite H1, H3, H4 in G6. simpl.
      rewrite (total_frame (heap_ c1)); [done|]. intros x Hx. unfold charge_of. rewrite H5; [done|]. intros ->.
      apply elem_of_app in Hx as [Hx|Hx]; [|done]. apply Hnr. eapply elem_of_sublist; [exact Hx|apply sublist_drop].
  - intros x Hx. apply not_elem_of_cons in Hx as [Hxe Hxr]. rewrite G7 by (by rewrite H3). by apply H5.
Qed.

Lemma prune_loop_spec fuel : forall c held ins,
  Inv c held ins -> (length (lru_ c) < fuel)%nat ->
  exists c', prune_loop fuel c = Ret c' /\ Inv c' held ins /\ capacity_ c' = capacity_ c /\
    next_id_ c' = next_id_ c /\ lru_ c' = [] /\ in_use_ c' = in_use_ c.
Proof.
  induction fuel as [|fuel IH]; intros c held ins Hinv Hf; [lia|]. cbn [prune_loop].
  destruct (lru_ c) as [|e rest] eqn:El; [by exists c|].
  destruct (evict_oldest_spec c held ins e rest Hinv El) as (c1 & h & -> & _ & Hinv1 & H1 & H2 & H3 & H4 & _).
  cbn [obind]. destruct (IH c1 held ins Hinv1) as (c' & -> & Hinv' & G1 & G2 & G3 & G4).
  { rewrite H3. simpl in Hf. lia. }
  exists c'. split_and!; try done; congruence.
Qed.

(** ** The operations *)

Lemma ids_bound c held ins : Core c held ins -> zlen (lru_ c ++ in_use_ c) <= Z.of_nat (next_id_ c).
Proof.
  intros Hc. unfold zlen. apply Nat2Z.inj_le.
  transitivity (length (seq 0 (next_id_ c))); [|by rewrite length_seq].
  apply submseteq_length, NoDup_submseteq; [by eapply Core_NoDup|]. intros x Hx.
  apply (Core_elem _ _ _ _ Hc) in Hx as (h & Hx & _). apply elem_of_seq.
  destruct (c_heap _ _ _ Hc x h Hx). lia.
Qed.

(** A new entry, held once by the client and once by the cache when [b]. *)
Lemma Core_new c held ins h b u :
  Core c held ins -> in_cache h = b -> refs h = (if b then 2 else 1) ->
  u = u64 (usage_ c + (if b then charge h else 0)) ->
  Core (mkCache (capacity_ c) u (lru_ c) (in_use_ c ++ if b then [next_id_ c] else []) (table_ c)
          (<[next_id_ c := h]> (heap_ c)) (S (next_id_ c)) (deleted_ c))
    (next_id_ c :: held) ((hkey h, value h) :: ins).
Proof.
  intros Hc Hb Href ->. set (e := next_id_ c).
  assert (heap_ c !! e = None) as He.
  { destruct (heap_ c !! e) as [h'|] eqn:E; [|done]. apply (c_heap _ _ _ Hc) in E as [E _]. unfold e in E. lia. }
  assert (e ∉ held) as Hnh by (intros Hin; apply (c_held _ _ _ Hc) in Hin as [? ?]; congruence).
  assert (~ cached (heap_ c) e) as Hnc by (intros (? & ? & _); congruence).
  assert (e ∉ lru_ c ++ in_use_ c) as Hnl by (by rewrite (Core_elem _ _ _ _ Hc)).
  rewrite not_elem_of_app in Hnl. destruct Hnl as [Hnl Hnu].
  split; simpl.
  - intros x hx Hx. destruct (decide (x = e)) as [->|Hne].
    + rewrite lookup_insert_eq in Hx. injection Hx as <-. rewrite cnt_same, (cnt_zero _ _ Hnh), Hb, Href.
      split; [lia|]. destruct b; lia.
    + rewrite lookup_insert_ne in Hx by auto. rewrite cnt_other by done.
      destruct (c_heap _ _ _ Hc x hx Hx) as (? & ? & ?). split; [lia|done].
  - intros x Hx. destruct (decide (x = e)) as [->|Hne]; [rewrite lookup_insert_eq; eauto|].
    rewrite lookup_insert_ne by auto. apply elem_of_cons in Hx as [?|Hx]; [done|]. by apply (c_held _ _ _ Hc).
  - intros x. rewrite cached_update. destruct (decide (x = e)) as [->|Hne].
    + rewrite cnt_same. pose proof (cnt_nonneg e held). split; [done|lia].
    + rewrite cnt_other, (c_lru _ _ _ Hc) by done. tauto.
  - intros x. rewrite cached_update, elem_of_app. destruct (decide (x = e)) as [->|Hne].
    + rewrite cnt_same, Hb. pose proof (cnt_nonneg e held). destruct b.
      * rewrite list_elem_of_singleton. split; [|auto]. intros _. split; [auto|lia].
      * rewrite elem_of_nil. split; [tauto|]. intros [[[_ ?]|[? _]] _]; done.
    + rewrite cnt_other, (c_use _ _ _ Hc) by done. destruct b; rewrite ?list_elem_of_singleton, ?elem_of_nil; tauto.
  - apply (c_nlru _ _ _ Hc).
  - apply NoDup_app. split; [apply (c_nuse _ _ _ Hc)|]. destruct b; [|split; [intros ? _; apply not_elem_of_nil|constructor]].
    split; [|apply NoDup_singleton]. intros x Hx ->%list_elem_of_singleton. done.
  - rewrite (c_usage _ _ _ Hc). unfold u64. rewrite Zplus_mod_idemp_l. f_equal.
    assert (total (<[e := h]> (heap_ c)) (lru_ c ++ in_use_ c) = total (heap_ c) (lru_ c ++ in_use_ c)) as Ht.
    { apply total_frame. intros x Hx. unfold charge_of. rewrite lookup_insert_ne; [done|]. intros <-.
      apply elem_of_app in Hx as [?|?]; done. }
    destruct b; [|rewrite app_nil_r, Ht; lia].
    assert (lru_ c ++ in_use_ c ++ [e] ≡ₚ e :: lru_ c ++ in_use_ c) as Hp
      by (rewrite app_assoc; symmetry; apply Permutation_cons_append).
    rewrite (total_perm _ _ _ Hp).
    simpl. rewrite Ht. unfold charge_of. rewrite lookup_insert_eq. lia.
  - rewrite (kvs_insert_new _ _ _ He), <- (c_acc _ _ _ Hc). solve_Permutation.
Qed.

(** [x] is the cached entry of this key and hash value. *)
Definition entry_of (c : LRUCache) (key : bytes) (hsh : Z) (x : nat) : Prop :=
  cached (heap_ c) x /\ ident (heap_ c) x = Some (key, hsh).

Definition without_opt (o : option nat) (l : list nat) : list nat :=
  match o with Some x => without x l | None => l end.

(** The insertion up to the eviction: the new entry is in use, an entry of the same key is
    not cached any more. *)
Lemma insert_cached_spec c held ins key hsh v chg :
  Inv c held ins -> zlen (lru_ c ++ in_use_ c) < 2 ^ 31 ->
  let e := next_id_ c in
  let h := mkHandle v chg key true 2 hsh in
  let c0 := mkCache (capacity_ c) (u64 (usage_ c + chg)) (lru_ c) (in_use_ c ++ [e]) (table_ c)
              (<[e := h]> (heap_ c)) (S e) (deleted_ c) in
  exists c1 t old b,
    table_Insert (heap_ c0) (table_ c0) e = Ret (t, old) /\ FinishErase (set_table c0 t) old = Ret (c1, b) /\
    Inv c1 (e :: held) ((key, v) :: ins) /\ capacity_ c1 = capacity_ c /\ next_id_ c1 = S e /\
    (forall x, old = Some x <-> entry_of c key hsh x) /\
    lru_ c1 = without_opt old (lru_ c) /\ in_use_ c1 = without_opt old (in_use_ c) ++ [e] /\
    (forall x, old <> Some x -> heap_ c1 !! x = <[e := h]> (heap_ c) !! x).
Proof.
  intros [Hc Ht] Hid e h c0.
  assert (Core c0 (e :: held) ((key, v) :: ins)) as Hc0 by (by apply (Core_new c held ins h true)).
  assert (heap_ c !! e = None) as He.
  { destruct (heap_ c !! e) as [h'|] eqn:E; [|done]. apply (c_heap _ _ _ Hc) in E as [E _]. unfold e in E. lia. }
  assert (e ∉ lru_ c ++ in_use_ c) as Hnl by (rewrite (Core_elem _ _ _ _ Hc); intros (? & ? & _); congruence).
  assert (forall x, x ∈ lru_ c ++ in_use_ c -> <[e := h]> (heap_ c) !! x = heap_ c !! x) as Hsame.
  { intros x Hx. rewrite lookup_insert_ne; [done|]. by intros <-. }
  destruct (table_Insert_spec (heap_ c0) (table_ c) (lru_ c ++ in_use_ c) e key hsh) as (t & old & Hti & Hold & Htok).
  { eapply Table_ok_frame; [|exact Ht]. intros x Hx. unfold ident. simpl. by rewrite Hsame. }
  { apply (ident_static _ _ h). simpl. apply lookup_insert_eq. }
  { done. }
  { done. }
  assert (forall x, old = Some x <-> entry_of c key hsh x) as Hold'.
  { intros x. rewrite Hold. unfold entry_of. rewrite (Core_elem _ _ _ _ Hc). split; intros [Hx Hi]; (split; [done|]).
    - rewrite <- Hi. unfold ident. simpl. by rewrite Hsame by (by apply (Core_elem _ _ _ _ Hc)).
    - rewrite <- Hi. unfold ident. simpl. by rewrite Hsame by (by apply (Core_elem _ _ _ _ Hc)). }
  destruct old as [o|].
  - destruct (proj1 (Hold' o) eq_refl) as [(ho & Ho & Hic) _].
    assert (o ∈ lru_ c ++ in_use_ c) as Hoin by (apply (Core_elem _ _ _ _ Hc); by exists ho).
    assert (o <> e) as Hoe by (by intros ->).
    destruct (FinishErase_spec (set_table c0 t) (e :: held) ((key, v) :: ins) o ho)
      as (c1 & Hfe & Hinv & H1 & H2 & H3 & H4 & H5 & _).
    + by apply Core_set_table.
    + simpl. by rewrite Hsame.
    + done.
    + simpl. eapply Table_ok_perm; [|exact Htok]. rewrite app_assoc, (without_app o (lru_ c ++ in_use_ c) [e]).
      assert (without o [e] = [e]) as ->; [|apply Permutation_cons_append].
      apply without_notin. rewrite list_elem_of_singleton. done.
    + exists c1, t, (Some o), true. split_and!; try done.
      * rewrite H5. simpl. rewrite without_app. f_equal. apply without_notin. by rewrite list_elem_of_singleton.
      * intros x Hx. apply H3. congruence.
  - exists (set_table c0 t), t, None, false. split_and!; try done.
    split; [by apply Core_set_table|]. simpl. eapply Table_ok_perm; [|exact Htok].
    rewrite app_assoc. apply Permutation_cons_append.
Qed.

Lemma lru_Insert_spec c held ins key hsh v chg :
  Inv c held ins -> zlen (lru_ c ++ in_use_ c) < 2 ^ 31 ->
  exists c', Insert c key hsh v chg = Ret (c', next_id_ c) /\
    Inv c' (next_id_ c :: held) ((key, v) :: ins) /\
    capacity_ c' = capacity_ c /\ next_id_ c' = S (next_id_ c) /\
    (usage_ c' <= capacity_ c \/ lru_ c' = []) /\
    (0 < capacity_ c -> exists old n,
       (forall x, old = Some x <-> entry_of c key hsh x) /\
       lru_ c' = drop n (without_opt old (lru_ c)) /\
       in_use_ c' = without_opt old (in_use_ c) ++ [next_id_ c] /\
       heap_ c' !! next_id_ c = Some (mkHandle v chg key true 2 hsh) /\
       (forall m, (m < n)%nat -> capacity_ c <
          u64 (total (<[next_id_ c := mkHandle v chg key true 2 hsh]> (heap_ c))
                 (drop m (without_opt old (lru_ c)) ++ without_opt old (in_use_ c) ++ [next_id_ c])))).
Proof.
  intros Hinv Hid. unfold Insert. cbv zeta. simpl capacity_. destruct (Z.ltb_spec 0 (capacity_ c)) as [Hcap|Hcap].
  - destruct (insert_cached_spec c held ins key hsh v chg Hinv Hid)
      as (c1 & t & old & b & Hti & Hfe & Hinv1 & H1 & H2 & Hold & H3 & H4 & H5).
    unfold set_usage, append_in_use, set_handle, set_in_cache, set_refs. cbn [heap_ table_ capacity_ usage_ lru_ in_use_ next_id_ deleted_
      value charge hkey refs hash in_cache]. cbn [heap_ table_] in Hti. change (1 + 1) with 2. rewrite Hti. cbn [obind].
    rewrite Hfe. cbn [obind].
    destruct (evict_loop_spec (S (length (lru_ c1))) c1 _ _ Hinv1) as (c' & n & -> & Hinv' & G1 & G2 & G3 & G4 & G5 & G6 & G7); [lia|].
    cbn [obind]. exists c'. split; [done|]. split; [done|]. split; [congruence|]. split; [congruence|].
    split; [by rewrite H1 in G5|]. intros _. exists old, n.
    assert (old <> Some (next_id_ c)) as Hne.
    { intros Ho%Hold. destruct Ho as [(ho & Ho & _) _]. destruct Hinv as [Hc _].
      apply (c_heap _ _ _ Hc) in Ho as [Ho _]. lia. }
    split; [done|]. split; [by rewrite G3, H3|]. split; [by rewrite G4, H4|]. split.
    + rewrite G7, H5 by (done || rewrite H3; destruct Hinv as [Hc _]; intros Hin;
        assert (next_id_ c ∈ lru_ c) as Hin' by (destruct old; [by apply elem_of_without in Hin as [? _]|done]);
        apply (c_lru _ _ _ Hc) in Hin' as [(ho & Ho & _) _]; apply (c_heap _ _ _ Hc) in Ho as [Ho _]; lia).
      apply lookup_insert_eq.
    + intros m Hm. specialize (G6 m Hm). rewrite H1, H3, H4 in G6.
      rewrite (total_frame (heap_ c1)); [done|]. intros x Hx. unfold charge_of. rewrite H5; [done|].
      intros ->. simpl in Hx. destruct Hinv1 as [Hc1 _].
      rewrite !elem_of_app, list_elem_of_singleton in Hx. destruct Hx as [Hx|[Hx|Hx]].
      * assert (x ∈ without x (lru_ c)) as [_ ?]%elem_of_without; [|done].
        eapply elem_of_sublist; [exact Hx|apply sublist_drop].
      * by apply elem_of_without in Hx as [_ ?].
      * by subst.
  - cbn [obind]. destruct Hinv as [Hc Ht].
    assert (Inv (set_handle (mkCache (capacity_ c) (usage_ c) (lru_ c) (in_use_ c) (table_ c) (heap_ c) (S (next_id_ c)) (deleted_ c))
              (next_id_ c) (mkHandle v chg key false 1 hsh)) (next_id_ c :: held) ((key, v) :: ins)) as Hinv1.
    { split.
      - pose proof (Core_new c held ins (mkHandle v chg key false 1 hsh) false (usage_ c) Hc eq_refl eq_refl) as Hn.
        rewrite app_nil_r in Hn. apply Hn. rewrite Z.add_0_r, (c_usage _ _ _ Hc). unfold u64. by rewrite Z.mod_mod.
      - simpl. eapply Table_ok_frame; [|exact Ht]. intros x Hx. unfold ident. rewrite lookup_insert_ne; [done|].
        intros <-. apply (Core_elem _ _ _ _ Hc) in Hx as (h & Hx & _). apply (c_heap _ _ _ Hc) in Hx as [? _]. lia. }
    destruct (evict_loop_spec (S (length (lru_ c))) _ _ _ Hinv1) as (c' & n & Hev & Hinv' & G1 & G2 & _ & _ & G5 & _ & _); [simpl; lia|].
    simpl in G1, G2, G5. unfold set_handle in Hev |- *.
    cbn [capacity_ usage_ lru_ in_use_ table_ heap_ next_id_ deleted_] in Hev |- *. rewrite Hev. cbn [obind]. exists c'. split_and!; try done. lia.
Qed.

Lemma Erase_spec c held ins key hsh :
  Inv c held ins ->
  exists c' old, Erase c key hsh = Ret c' /\ Inv c' held ins /\
    capacity_ c' = capacity_ c /\ next_id_ c' = next_id_ c /\
    (forall x, old = Some x <-> entry_of c key hsh x) /\
    lru_ c' = without_opt old (lru_ c) /\ in_use_ c' = without_opt old (in_use_ c) /\
    (forall x, old <> Some x -> heap_ c' !! x = heap_ c !! x).
Proof.
  intros [Hc Ht]. unfold Erase.
  destruct (table_Remove_spec _ _ _ Ht key hsh) as (t & old & -> & Hold & Ht'). cbn [obind].
  assert (forall x, old = Some x <-> entry_of c key hsh x) as Hold'.
  { intros x. rewrite Hold. unfold entry_of. by rewrite (Core_elem _ _ _ _ Hc). }
  destruct old as [o|]; cbn [FinishErase obind].
  - destruct (proj1 (Hold' o) eq_refl) as [(h & Ho & Hic) _].
    destruct (FinishErase_spec (set_table c t) held ins o h (Core_set_table _ _ _ t Hc) Ho Hic Ht')
      as (c' & Hfe & Hinv & H1 & H2 & H3 & H4 & H5 & _).
    cbn [FinishErase] in Hfe. rewrite Hfe. cbn [obind]. exists c', (Some o). split_and!; try done.
    intros x Hx. apply H3. congruence.
  - exists (set_table c t), None. split; [done|]. split; [split; [by apply Core_set_table|done]|]. done.
Qed.

Lemma Lookup_spec c held ins key hsh :
  Inv c held ins -> zlen held < 2 ^ 31 ->
  exists c' r, Lookup c key hsh = Ret (c', r) /\
    (forall x, r = Some x <-> entry_of c key hsh x) /\
    capacity_ c' = capacity_ c /\ next_id_ c' = next_id_ c /\ usage_ c' = usage_ c /\
    match r with
    | Some x => Inv c' (x :: held) ins /\ lru_ c' = without x (lru_ c)
    | None => c' = c
    end.
Proof.
  intros [Hc Ht] Hlen. unfold Lookup.
  destruct (table_Lookup_spec _ _ _ Ht key hsh) as (r & -> & Hr). cbn [obind].
  assert (forall x, r = Some x <-> entry_of c key hsh x) as Hr'.
  { intros x. rewrite Hr. unfold entry_of. by rewrite (Core_elem _ _ _ _ Hc). }
  destruct r as [x|]; [|by exists c, None].
  destruct (proj1 (Hr' x) eq_refl) as [(h & Hx & Hic) _].
  destruct (Ref_spec c held ins x h (conj Hc Ht) Hx Hic Hlen) as (c' & -> & Hinv & H1 & H2 & H3 & H4 & H5 & H6).
  cbn [obind]. by exists c', (Some x).
Qed.

Lemma Release_spec c held ins e :
  Inv c (e :: held) ins ->
  exists c', Release c e = Ret c' /\ Inv c' held ins /\ capacity_ c' = capacity_ c /\ next_id_ c' = next_id_ c.
Proof.
  intros Hinv. destruct (c_held _ _ _ (proj1 Hinv) e) as [h He]; [by left|].
  destruct (Unref_spec c held ins e h Hinv He) as (c' & Heq & Hinv' & H1 & H2 & _). by exists c'.
Qed.

Lemma new_LRUCache_spec capacity :
  exists c, new_LRUCache capacity = Ret c /\ Inv c [] [] /\ capacity_ c = capacity /\ next_id_ c = 0%nat.
Proof.
  unfold new_LRUCache, new_HandleTable.
  destruct (Resize_spec ∅ (mkTable 0 0 []) []) as (t & -> & Ht); try done; [constructor|by intros e ?%elem_of_nil|by intros e e' ?%elem_of_nil|].
  cbn [obind]. eexists. split; [reflexivity|]. split; [|done]. split; [|exact Ht].
  split; simpl; try done.
  - intros e Hin. by apply elem_of_nil in Hin.
  - intros e. rewrite elem_of_nil. split; [done|]. by intros [(h & ? & _) _].
  - intros e. rewrite elem_of_nil. split; [done|]. by intros [(h & ? & _) _].
  - constructor.
  - constructor.
Qed.

(** With no handle out, the destructor frees every entry. *)
Lemma destroy_loop_spec es : forall c,
  NoDup es -> (forall e, e ∈ es <-> is_Some (heap_ c !! e)) ->
  (forall e h, heap_ c !! e = Some h -> in_cache h = true /\ refs h = 1) ->
  exists c', destroy_loop es c = Ret c' /\ heap_ c' = ∅ /\ deleted_ c' ≡ₚ deleted_ c ++ kvs (heap_ c).
Proof.
  induction es as [|e es IH]; intros c Hn Hes Hh; cbn [destroy_loop].
  - exists c. assert (heap_ c = ∅) as ->.
    { apply map_empty. intros e. destruct (heap_ c !! e) eqn:E; [|done].
      assert (e ∈ @nil nat) as Hin by (apply Hes; eauto). by apply elem_of_nil in Hin. }
    split; [done|]. split; [done|]. unfold kvs. rewrite map_to_list_empty. simpl. by rewrite app_nil_r.
  - apply NoDup_cons in Hn as [Hne Hn]. destruct (proj1 (Hes e)) as [h He]; [by left|].
    destruct (Hh e h He) as [Hic Href]. rewrite (deref_some _ _ _ He). cbn [obind]. rewrite Hic, Href.
    cbn [obind oassert Z.eqb Pos.eqb]. unfold Unref. simpl heap_. rewrite (deref_some _ _ (set_in_cache h false)) by apply lookup_insert_eq.
    cbn [obind set_in_cache refs in_cache set_refs]. rewrite Href. cbn [obind oassert Z.ltb Z.compare Z.sub Z.add Z.opp Z.pos_sub Z.eqb negb].
    destruct (IH (deallocate (set_handle (set_handle c e (set_in_cache h false)) e (set_refs (set_in_cache h false) 0)) e
                (set_refs (set_in_cache h false) 0))) as (c' & Heq & Hemp & Hdel).
    + done.
    + intros x. simpl. rewrite !delete_insert_eq. destruct (decide (x = e)) as [->|Hx].
      * rewrite lookup_delete_eq. split; [done|]. by intros [? ?].
      * rewrite lookup_delete_ne by auto. rewrite <- Hes, elem_of_cons. tauto.
    + intros x hx. simpl. rewrite !delete_insert_eq. intros [_ Hx]%lookup_delete_Some. by apply (Hh x).
    + exists c'. split; [exact Heq|]. split; [done|]. rewrite Hdel. simpl. rewrite !delete_insert_eq.
      rewrite <- (kvs_delete _ e h He). rewrite <- app_assoc. done.
Qed.

Lemma destroy_spec c ins :
  Inv c [] ins -> exists c', destroy c = Ret c' /\ heap_ c' = ∅ /\ deleted_ c' ≡ₚ ins.
Proof.
  intros [Hc Ht]. unfold destroy.
  assert (in_use_ c = []) as Hu.
  { destruct (in_use_ c) as [|e l] eqn:E; [done|]. assert (e ∈ in_use_ c) as Hin by (rewrite E; by left).
    apply (c_use _ _ _ Hc) in Hin as [_ Hp]. unfold cnt in Hp. simpl in Hp. done. }
  rewrite (bool_decide_eq_true_2 _ Hu). cbn [obind oassert].
  assert (forall e h, heap_ c !! e = Some h -> in_cache h = true /\ refs h = 1) as Hh.
  { intros e h He. destruct (c_heap _ _ _ Hc e h He) as (_ & Href & Hpos). rewrite (cnt_zero e []) in Href by apply not_elem_of_nil. destruct (in_cache h); [split; [done|lia]|lia]. }
  destruct (destroy_loop_spec (lru_ c) c (c_nlru _ _ _ Hc)) as (c' & -> & Hemp & Hdel).
  - intros e. rewrite (c_lru _ _ _ Hc). split; [intros [(h & ? & _) _]; eauto|].
    intros [h He]. split; [|done]. exists h. split; [done|]. by apply (Hh e).
  - done.
  - exists c'. split; [done|]. split; [done|]. rewrite Hdel. apply (c_acc _ _ _ Hc).
Qed.

(** ** Clients *)

(** What a client does with a shard; it releases only handles it holds. *)
Inductive client_op :=
| CInsert (key : bytes) (hsh : Z) (v : V) (chg : Z)
| CLookup (key : bytes) (hsh : Z)
| CRelease (i : nat)
| CErase (key : bytes) (hsh : Z)
| CPrune.

Definition client_step (c : LRUCache) (held : list nat) (op : client_op) : outcome (LRUCache * list nat) :=
  match op with
  | CInsert key hsh v chg => let! (c, e) := Insert c key hsh v chg in Ret (c, e :: held)
  | CLookup key hsh =>
      let! (c, r) := Lookup c key hsh in
      Ret (c, match r with Some e => e :: held | None => held end)
  | CRelease i =>
      match held !! i with
      | Some e => let! c := Release c e in Ret (c, delete i held)
      | None => Ret (c, held)
      end
  | CErase key hsh => let! c := Erase c key hsh in Ret (c, held)
  | CPrune => let! c := Prune c in Ret (c, held)
  end.

Fixpoint client_run (c : LRUCache) (held : list nat) (ops : list client_op) : outcome (LRUCache * list nat) :=
  match ops with
  | [] => Ret (c, held)
  | op :: ops => let! (c, held) := client_step c held op in client_run c held ops
  end.

(** The keys and values a client inserts. *)
Definition inserted (ops : list client_op) : list (bytes * V) :=
  omap (fun op => match op with CInsert key _ v _ => Some (key, v) | _ => None end) ops.

Lemma client_step_spec c held ins op :
  Inv c held ins -> Z.of_nat (next_id_ c) < 2 ^ 31 -> zlen held < 2 ^ 31 ->
  exists c' held', client_step c held op = Ret (c', held') /\ Inv c' held' (inserted [op] ++ ins) /\
    (next_id_ c' <= S (next_id_ c))%nat /\ zlen held' <= 1 + zlen held.
Proof.
  intros Hinv Hid Hlen. destruct op as [key hsh v chg|key hsh|i|key hsh|]; simpl.
  - pose proof (ids_bound _ _ _ (proj1 Hinv)). destruct (lru_Insert_spec c held ins key hsh v chg Hinv) as (c' & -> & Hinv' & _ & Hn & _); [lia|]. cbn [obind].
    eexists _, _. split; [reflexivity|]. split; [done|]. rewrite zlen_cons. lia.
  - destruct (Lookup_spec c held ins key hsh Hinv Hlen) as (c' & r & -> & _ & _ & Hn & _ & Hr). cbn [obind].
    eexists _, _. split; [reflexivity|]. destruct r as [x|].
    + destruct Hr as [Hr _]. split; [done|]. rewrite zlen_cons. lia.
    + subst c'. split; [done|]. lia.
  - destruct (held !! i) as [e|] eqn:E; [|exists c, held; split; [done|]; split; [done|]; lia].
    apply delete_Permutation in E as Hp.
    assert (Inv c (e :: delete i held) ins) as Hinv1 by (split; [by eapply Core_perm; [|apply Hinv] | apply Hinv]).
    destruct (Release_spec c _ ins e Hinv1) as (c' & -> & Hinv' & _ & Hn). cbn [obind].
    eexists _, _. split; [reflexivity|]. split; [done|]. rewrite (zlen_perm _ _ Hp), zlen_cons. lia.
  - destruct (Erase_spec c held ins key hsh Hinv) as (c' & old & -> & Hinv' & _ & Hn & _). cbn [obind].
    exists c', held. split; [done|]. split; [done|]. lia.
  - unfold Prune. destruct (prune_loop_spec (S (length (lru_ c))) c held ins Hinv) as (c' & -> & Hinv' & _ & Hn & _); [lia|].
    cbn [obind]. exists c', held. split; [done|]. split; [done|]. lia.
Qed.

Lemma client_run_spec ops : forall c held ins,
  Inv c held ins -> Z.of_nat (next_id_ c) + zlen ops <= 2 ^ 31 -> zlen held + zlen ops <= 2 ^ 31 ->
  exists c' held' ins', client_run c held ops = Ret (c', held') /\ Inv c' held' ins' /\ ins' ≡ₚ inserted ops ++ ins.
Proof.
  induction ops as [|op ops IH]; intros c held ins Hinv Hid Hlen; cbn [client_run].
  - by exists c, held, ins.
  - rewrite zlen_cons in *. pose proof (zlen_nonneg ops).
    destruct (client_step_spec c held ins op Hinv) as (c1 & held1 & -> & Hinv1 & Hn1 & Hl1); [lia|lia|].
    cbn [obind]. destruct (IH c1 held1 _ Hinv1) as (c' & held' & ins' & -> & Hinv' & Hp); [lia|lia|].
    exists c', held', ins'. split; [done|]. split; [done|]. rewrite Hp. unfold inserted.
    destruct op; simpl; solve_Permutation.
Qed.

End Cache.
Arguments LRUHandle : clear implicits.
Arguments LRUCache : clear implicits.
Arguments ShardedLRUCache : clear implicits.

Lemma Shard_range hsh : 0 <= hsh < 2 ^ 32 -> 0 <= Shard hsh < kNumShards.
Proof.
  intros Hh. unfold Shard, kNumShards, kNumShardBits. rewrite Z.shiftr_div_pow2 by lia.
  change (1 ≪ 4) with 16. change (2 ^ (32 - 4)) with 268435456. split; [apply Z.div_pos; lia|].
  apply Z.div_lt_upper_bound; lia.
Qed.

(** ** The properties *)

(** C31: The reference counts of the cache are right for every client. Whatever sequence of
    insertions, lookups, releases of handles the client holds, erasures and prunings: no
    assertion fails and every loop ends; an entry is allocated as long as a client holds it
    or it is cached, with one reference for each; every value inserted is either still
    allocated or was passed to its deleter exactly once; the usage is the sum of the charges
    of the cached entries; and when no handle is out, the destructor deletes exactly what
    was inserted and not yet deleted. *)
Theorem cache_reference_counts {V} (capacity : Z) (ops : list (@client_op V)) :
  zlen ops <= 2 ^ 31 ->
  exists c0 c held, new_LRUCache capacity = Ret c0 /\ client_run c0 [] ops = Ret (c, held) /\
    (forall e, e ∈ held -> exists h, heap_ c !! e = Some h) /\
    (forall e h, heap_ c !! e = Some h -> refs h = cnt e held + (if in_cache h then 1 else 0) /\ 0 < refs h) /\
    (forall e, e ∈ lru_ c ++ in_use_ c <-> cached (heap_ c) e) /\
    deleted_ c ++ kvs (heap_ c) ≡ₚ inserted ops /\
    usage_ c = u64 (total (heap_ c) (lru_ c ++ in_use_ c)) /\
    (held = [] -> exists c', destroy c = Ret c' /\ heap_ c' = ∅ /\ deleted_ c' ≡ₚ inserted ops).
Proof.
  intros Hlen. destruct (new_LRUCache_spec (V := V) capacity) as (c0 & Hnew & Hinv0 & _ & Hid).
  destruct (client_run_spec ops c0 [] [] Hinv0) as (c & held & ins & Hrun & [Hc Ht] & Hp).
  { rewrite Hid. lia. }
  { change (@zlen nat []) with 0. lia. }
  rewrite app_nil_r in Hp. exists c0, c, held. split; [done|]. split; [done|].
  split; [intros e He; by apply (c_held _ _ _ Hc)|].
  split. { intros e h He. by destruct (c_heap _ _ _ Hc e h He) as (_ & ? & ?). }
  split; [intros e; by eapply Core_elem|]. split; [rewrite (c_acc _ _ _ Hc); exact Hp|].
  split; [apply (c_usage _ _ _ Hc)|].
  intros ->. destruct (destroy_spec c ins (conj Hc Ht)) as (c' & Hd & Hemp & Hdel).
  exists c'. split; [done|]. split; [done|]. by rewrite Hdel.
Qed.

Lemma cache_reference_counts_witness :
  exists c0 c held, new_LRUCache 1 = Ret c0 /\
    client_run c0 [] [CInsert [x61] 7 10%nat 1; CInsert [x62] 9 20%nat 1; CRelease 1; CRelease 0] = Ret (c, held) /\
    (held = [] -> exists c', destroy c = Ret c' /\ heap_ c' = ∅ /\
       deleted_ c' ≡ₚ inserted [CInsert [x61] 7 10%nat 1; CInsert [x62] 9 20%nat 1; CRelease 1; CRelease 0]).
Proof.
  destruct (cache_reference_counts 1 [CInsert [x61] 7 10%nat 1; CInsert [x62] 9 20%nat 1; CRelease 1; CRelease 0])
    as (c0 & c & held & Hn & Hr & _ & _ & _ & _ & _ & Hd).
  - vm_compute. congruence.
  - exists c0, c, held. split; [exact Hn|]. split; [exact Hr|exact Hd].
Defined.

(** Insertion and eviction. An insertion returns a handle to a new cached entry that is
    in use, drops the cached entry of the same key, and then evicts unused entries from the
    oldest on: exactly as many as are needed to bring the usage down to the capacity, or all
    of them. Entries in use are never evicted. *)
Theorem cache_insert_evicts {V} (c : LRUCache V) held ins (key : bytes) (hsh : Z) (v : V) (chg : Z) :
  Inv c held ins -> Z.of_nat (next_id_ c) < 2 ^ 31 -> 0 < capacity_ c ->
  let e := next_id_ c in
  let h := mkHandle v chg key true 2 hsh in
  exists c' old n, Insert c key hsh v chg = Ret (c', e) /\ heap_ c' !! e = Some h /\
    (forall x, old = Some x <-> entry_of c key hsh x) /\
    in_use_ c' = without_opt old (in_use_ c) ++ [e] /\
    lru_ c' = drop n (without_opt old (lru_ c)) /\
    (usage_ c' <= capacity_ c \/ lru_ c' = []) /\
    (forall m, (m < n)%nat -> capacity_ c <
       u64 (total (<[e := h]> (heap_ c)) (drop m (without_opt old (lru_ c)) ++ without_opt old (in_use_ c) ++ [e]))) /\
    (zlen held + 1 < 2 ^ 31 -> exists c'', Lookup c' key hsh = Ret (c'', Some e)).
Proof.
  intros Hinv Hid Hcap e h.
  pose proof (ids_bound _ _ _ (proj1 Hinv)). destruct (lru_Insert_spec c held ins key hsh v chg Hinv) as (c' & Heq & Hinv' & H1 & H2 & H3 & H4); [lia|].
  destruct (H4 Hcap) as (old & n & Hold & Hl & Hu & He & Hm).
  exists c', old, n. split_and!; try done. intros Hlen.
  destruct (Lookup_spec c' _ _ key hsh Hinv') as (c'' & r & Hlk & Hr & _); [rewrite zlen_cons; lia|].
  exists c''. rewrite Hlk. f_equal. f_equal. apply Hr. split; [by exists h|]. by apply (ident_static _ _ h).
Qed.

Lemma cache_insert_evicts_witness :
  exists (c c' : LRUCache nat) old n, new_LRUCache 5 = Ret c /\ Insert c [x61] 7 10%nat 1 = Ret (c', 0%nat) /\
    in_use_ c' = without_opt old (in_use_ c) ++ [0%nat] /\ lru_ c' = drop n (without_opt old (lru_ c)).
Proof.
  destruct (new_LRUCache_spec (V := nat) 5) as (c & Hn & Hinv & Hcap & Hid).
  destruct (cache_insert_evicts c [] [] [x61] 7 10%nat 1 Hinv) as (c' & old & n & Hi & _ & _ & Hu & Hl & _).
  - rewrite Hid. lia.
  - rewrite Hcap. lia.
  - exists c, c', old, n. rewrite Hid in *. split; [exact Hn|]. split; [exact Hi|]. split; [exact Hu|exact Hl].
Defined.

(** Lookups and erasures are exact. [Lookup] returns a handle exactly for the cached
    entry of the key, which is then in use and not a candidate for eviction; after [Erase]
    the key is not found, and the entries of other keys are found as before. *)
Theorem cache_lookup_exact {V} (c : LRUCache V) held ins (key : bytes) (hsh : Z) :
  Inv c held ins -> zlen held < 2 ^ 31 ->
  (exists c' r, Lookup c key hsh = Ret (c', r) /\ (forall x, r = Some x <-> entry_of c key hsh x) /\
     (forall x, r = Some x -> x ∈ in_use_ c' /\ x ∉ lru_ c')) /\
  (exists c', Erase c key hsh = Ret c' /\
     forall key' hsh', exists c'' r, Lookup c' key' hsh' = Ret (c'', r) /\
       (forall x, r = Some x <-> entry_of c key' hsh' x /\ (key', hsh') <> (key, hsh))).
Proof.
  intros Hinv Hlen. split.
  - destruct (Lookup_spec c held ins key hsh Hinv Hlen) as (c' & r & Heq & Hr & _ & _ & _ & Hres).
    exists c', r. split; [done|]. split; [done|]. intros x ->. destruct Hres as [[Hc _] Hl].
    assert (x ∉ lru_ c') as Hnl by (rewrite Hl, elem_of_without; tauto). split; [|done].
    apply (c_use _ _ _ Hc). destruct (proj1 (Hr x) eq_refl) as [(h & Hx & Hic) _].
    pose proof (cnt_nonneg x held). rewrite cnt_same. split; [|lia].
    destruct (Ref_spec c held ins x h Hinv Hx Hic Hlen) as (c1 & Href & _ & _ & _ & _ & Hheap & _).
    unfold Lookup in Heq. destruct (table_Lookup _ _ _ _) as [y| |]; [|done|done]. cbn [obind] in Heq.
    destruct y as [y|]; [|done]. apply obind_ret in Heq as (c2 & Href' & Heq). injection Heq as <- <-.
    rewrite Href in Href'. injection Href' as <-. rewrite Hheap. apply cached_update. left. by split.
  - destruct (Erase_spec c held ins key hsh Hinv) as (c' & old & Heq & Hinv' & _ & _ & Hold & Hl & Hu & Hheap).
    exists c'. split; [done|]. intros key' hsh'.
    destruct (Lookup_spec c' held ins key' hsh' Hinv' Hlen) as (c'' & r & Hlk & Hr & _).
    exists c'', r. split; [done|]. intros x. rewrite Hr. destruct Hinv as [Hc Ht], Hinv' as [Hc' _].
    assert (cached (heap_ c') x <-> cached (heap_ c) x /\ old <> Some x) as Hca.
    { rewrite <- (Core_elem _ _ _ _ Hc'), <- (Core_elem _ _ _ _ Hc), Hl, Hu. destruct old as [o|]; simpl.
      - rewrite <- without_app, elem_of_without. split; intros [? Hne]; (split; [done|]); congruence.
      - split; [done|tauto]. }
    unfold entry_of. rewrite Hca. split.
    + intros [[Hx Hne] Hi]. unfold ident in Hi |- *. rewrite Hheap in Hi by done. split; [done|].
      intros [= -> ->]. apply Hne, Hold. by split.
    + intros [[Hx Hi] Hne]. assert (old <> Some x) as Hox.
      { intros Ho%Hold. destruct Ho as [_ Hi']. congruence. }
      split; [done|]. unfold ident in Hi |- *. by rewrite Hheap.
Qed.

Lemma cache_lookup_exact_witness :
  exists c : LRUCache nat, new_LRUCache 5 = Ret c /\
    exists c', Erase c [x61] 7 = Ret c' /\
     forall key' hsh', exists c'' r, Lookup c' key' hsh' = Ret (c'', r) /\
       (forall x, r = Some x <-> entry_of c key' hsh' x /\ (key', hsh') <> ([x61], 7)).
Proof.
  destruct (new_LRUCache_spec (V := nat) 5) as (c & Hn & Hinv & Hcap & Hid). exists c. split; [exact Hn|].
  refine (proj2 (cache_lookup_exact c [] [] [x61] 7 Hinv _)). vm_compute. reflexivity.
Defined.
