(* ===== verification/Iterator.v ===== *)
(** * The iterator interface

    [leveldb/iterator.h]: what the memtable, the block and the database iterators have in
    common, as a class of operations, and the promise clients rely on as a class of laws: an
    iterator is a cursor over a fixed sequence of entries. The memtable's iterator is an
    instance. *)

From S2P Require Import Prelude Env Comparator DbFormat SkipList MemTable.

Open Scope outcome_scope.

Class Iterator (I : Type) := {
  it_Valid : I -> bool;
  it_key : I -> outcome bytes;
  it_value : I -> outcome bytes;
  it_Next : I -> outcome I;
  it_Prev : I -> outcome I;
  it_Seek : I -> bytes -> outcome I;
  it_SeekToFirst : I -> outcome I;
  it_SeekToLast : I -> outcome I;
  it_status : I -> Status;
}.

(** The index of an entry, or not valid. *)
Definition index_of (n j : nat) : option nat := if (j <? n)%nat then Some j else None.

Definition last_index (n : nat) : option nat := match n with O => None | S n => Some n end.

(** [at_index it p]: the iterator is at the entry of index [p] of [es]. *)
Class IteratorLaws (I : Type) `{Iterator I} (compare : bytes -> bytes -> Z) (es : list (bytes * bytes)) := {
  at_index : I -> option nat -> Prop;
  seekable : bytes -> Prop;
  at_valid it p : at_index it p -> it_Valid it = bool_decide (is_Some p) /\ it_status it = OK;
  at_bound it j : at_index it (Some j) -> (j < length es)%nat;
  at_entry it j k v : at_index it (Some j) -> es !! j = Some (k, v) -> it_key it = Ret k /\ it_value it = Ret v;
  at_next it j : at_index it (Some j) ->
    exists it', it_Next it = Ret it' /\ at_index it' (index_of (length es) (S j));
  at_prev it j : at_index it (Some j) ->
    exists it', it_Prev it = Ret it' /\ at_index it' (match j with O => None | S j => Some j end);
  at_first it p : at_index it p ->
    exists it', it_SeekToFirst it = Ret it' /\ at_index it' (index_of (length es) 0);
  at_last it p : at_index it p ->
    exists it', it_SeekToLast it = Ret it' /\ at_index it' (last_index (length es));
  at_seek it p k : at_index it p -> seekable k ->
    exists it', it_Seek it k = Ret it' /\
      at_index it' (index_of (length es) (length (filter (fun e => compare e.1 k < 0) es)));
}.

(** ** The memtable's iterator *)

Record MemTableIterator `{laws : ComparatorLaws} := mkMemIter { mi_table : MemTable; mi_iter : SkipIter }.

Section MemIterator.
Context `{laws : ComparatorLaws}.

Definition new_MemTableIterator (m : MemTable) : MemTableIterator := mkMemIter _ _ m None.

Definition move (it : MemTableIterator) (r : outcome SkipIter) : outcome MemTableIterator :=
  let! x := r in Ret (mkMemIter _ _ (mi_table it) x).

#[global] Instance MemTable_Iterator : Iterator MemTableIterator := {
  it_Valid it := mem_Valid (mi_iter it);
  it_key it := mem_key (mi_table it) (mi_iter it);
  it_value it := mem_value (mi_table it) (mi_iter it);
  it_Next it := move it (mem_Next (mi_table it) (mi_iter it));
  it_Prev it := move it (mem_Prev (mi_table it) (mi_iter it));
  it_Seek it k := move it (mem_Seek (mi_table it) k);
  it_SeekToFirst it := move it (mem_SeekToFirst (mi_table it));
  it_SeekToLast it := move it (mem_SeekToLast (mi_table it));
  it_status it := OK;
}.

(** The entries as the iterator shows them. *)
Definition shown_entries (es : list entry_op) : list (bytes * bytes) := (fun o => (op_ikey o, op_value o)) <$> es.

Lemma index_of_lookup {A} (l : list A) n j : length l = n -> is_Some (l !! j) <-> index_of n j = Some j.
Proof.
  intros <-. unfold index_of. rewrite lookup_lt_is_Some. destruct (Nat.ltb_spec j (length l)); [done|].
  split; [lia|done].
Qed.

Lemma filter_shown k es :
  length (filter (fun e => internal_compare e.1 k < 0) (shown_entries es)) =
  length (filter (fun o => internal_compare (op_ikey o) k < 0) es).
Proof.
  induction es as [|o es IH]; [done|]. unfold shown_entries in *. simpl. rewrite !filter_cons.
  destruct (decide _); simpl; [f_equal|]; apply IH.
Qed.

(** Where the node the iterator is at stands in the sequence of the table. *)
Definition mem_at (m : MemTable) (ids : list nat) (it : MemTableIterator) (p : option nat) : Prop :=
  mi_table it = m /\ mi_iter it = (j ← p; ids !! j) /\ forall j, p = Some j -> (j < length ids)%nat.

Lemma mem_at_index m ids j : mem_at m ids (mkMemIter _ _ m (ids !! j)) (index_of (length ids) j).
Proof.
  unfold index_of. destruct (Nat.ltb_spec j (length ids)) as [Hj|Hj]; (split; [done|]); simpl.
  - split; [done|]. by intros ? [= <-].
  - split; [by apply lookup_ge_None|done].
Qed.

#[refine] Definition MemTable_IteratorLaws (m : MemTable) (ids : list nat) (es : list entry_op)
    (Hseq : mem_sequence m ids es) : IteratorLaws MemTableIterator internal_compare (shown_entries es) := {|
  at_index := mem_at m ids;
  seekable k := zlen k < 2 ^ 32;
|}.
Proof.
  all: pose proof (mem_cursor m ids es Hseq) as (Hlen & Hf & Hl & Hsk & Hat).
  all: assert (length (shown_entries es) = length ids) as Hn by (unfold shown_entries; by rewrite length_fmap).
  - intros it p (Hm & Hi & Hb). split; [|done]. simpl. rewrite Hi. destruct p as [j|]; simpl; [|done].
    destruct (lookup_lt_is_Some_2 ids j (Hb j eq_refl)) as [x ->]. done.
  - intros it j (_ & _ & Hb). rewrite Hn. by apply Hb.
  - intros it j k v (Hm & Hi & Hb) He. simpl. rewrite Hm, Hi. simpl.
    destruct (lookup_lt_is_Some_2 ids j (Hb j eq_refl)) as [x Hx]. rewrite Hx.
    unfold shown_entries in He. rewrite list_lookup_fmap in He. destruct (es !! j) as [o|] eqn:Eo; [|done].
    injection He as <- <-. by destruct (Hat j x o Hx Eo) as (-> & -> & _).
  - intros it j (Hm & Hi & Hb). simpl. rewrite Hm, Hi. simpl.
    destruct (lookup_lt_is_Some_2 ids j (Hb j eq_refl)) as [x Hx]. rewrite Hx.
    destruct (lookup_lt_is_Some_2 es j) as [o Ho]; [rewrite <- Hlen; auto|].
    destruct (Hat j x o Hx Ho) as (_ & _ & -> & _). unfold move. cbn [obind]. rewrite Hm.
    eexists. split; [reflexivity|]. rewrite Hn. apply mem_at_index.
  - intros it j (Hm & Hi & Hb). simpl. rewrite Hm, Hi. simpl. specialize (Hb j eq_refl).
    destruct (lookup_lt_is_Some_2 ids j Hb) as [x Hx]. rewrite Hx.
    destruct (lookup_lt_is_Some_2 es j) as [o Ho]; [rewrite <- Hlen; auto|].
    destruct (Hat j x o Hx Ho) as (_ & _ & _ & ->). unfold move. cbn [obind]. rewrite Hm.
    eexists. split; [reflexivity|]. destruct j as [|j]; [done|].
    split; [done|]. split; [done|]. intros ? [= <-]. lia.
  - intros it p (Hm & _ & _). simpl. rewrite Hm, Hf. unfold move. cbn [obind]. rewrite Hm.
    eexists. split; [reflexivity|]. rewrite Hn, head_lookup. apply mem_at_index.
  - intros it p (Hm & _ & _). simpl. rewrite Hm, Hl. unfold move. cbn [obind]. rewrite Hm.
    eexists. split; [reflexivity|]. rewrite Hn. split; [done|]. unfold last_index. simpl.
    rewrite last_lookup. destruct ids as [|x ids]; simpl; [done|]. split; [done|]. intros ? [= <-]. lia.
  - intros it p k (Hm & _ & _) Hk. simpl. rewrite Hm, (Hsk k Hk). unfold move. cbn [obind]. rewrite Hm.
    eexists. split; [reflexivity|]. rewrite Hn, filter_shown. apply mem_at_index.
Defined.

End MemIterator.
