(* ===== verification/DBIter.v ===== *)
(** * The database iterator

    [db_iter.c]: an iterator over the internal entries of a database, in either direction,
    that shows for each user key the newest version a snapshot may see, and nothing for the
    keys whose newest version is a deletion. The internal iterator is any instance of the
    class [Iterator]. *)

From stdpp Require Import sorting.
From S2P Require Import Prelude Env Comparator DbFormat SkipList MemTable Iterator.

Open Scope outcome_scope.

Inductive Direction := kForward | kReverse.

#[global] Instance Direction_eq_dec : EqDecision Direction.
Proof. solve_decision. Defined.

Section DBIter.
Context {I : Type} `{Iterator I} `{user_comparator : Comparator}.

(** [samples_] are the keys given to [DBImpl::RecordReadSample]. *)
Record DBIter := mkDBIter {
  iter_ : I;
  sequence_ : Z;
  status_ : Status;
  saved_key_ : bytes;
  saved_value_ : bytes;
  direction_ : Direction;
  valid_ : bool;
  rnd_ : Z;
  bytes_until_read_sampling_ : Z;
  samples_ : list bytes;
}.

Definition set_iter (d : DBIter) (it : I) : DBIter :=
  mkDBIter it (sequence_ d) (status_ d) (saved_key_ d) (saved_value_ d) (direction_ d) (valid_ d)
    (rnd_ d) (bytes_until_read_sampling_ d) (samples_ d).
Definition set_status (d : DBIter) (s : Status) : DBIter :=
  mkDBIter (iter_ d) (sequence_ d) s (saved_key_ d) (saved_value_ d) (direction_ d) (valid_ d)
    (rnd_ d) (bytes_until_read_sampling_ d) (samples_ d).
Definition SaveKey (d : DBIter) (k : bytes) : DBIter :=
  mkDBIter (iter_ d) (sequence_ d) (status_ d) k (saved_value_ d) (direction_ d) (valid_ d)
    (rnd_ d) (bytes_until_read_sampling_ d) (samples_ d).
Definition save_value (d : DBIter) (v : bytes) : DBIter :=
  mkDBIter (iter_ d) (sequence_ d) (status_ d) (saved_key_ d) v (direction_ d) (valid_ d)
    (rnd_ d) (bytes_until_read_sampling_ d) (samples_ d).
Definition set_direction (d : DBIter) (dir : Direction) : DBIter :=
  mkDBIter (iter_ d) (sequence_ d) (status_ d) (saved_key_ d) (saved_value_ d) dir (valid_ d)
    (rnd_ d) (bytes_until_read_sampling_ d) (samples_ d).
Definition set_valid (d : DBIter) (b : bool) : DBIter :=
  mkDBIter (iter_ d) (sequence_ d) (status_ d) (saved_key_ d) (saved_value_ d) (direction_ d) b
    (rnd_ d) (bytes_until_read_sampling_ d) (samples_ d).

(** The contents of the saved value; its capacity is not modelled. *)
Definition ClearSavedValue (d : DBIter) : DBIter := save_value d [].

(** [rnd_.Uniform(2 * config::kReadBytesPeriod)]: the new seed and the period. *)
Definition RandomCompactionPeriod (rnd : Z) : Z * Z :=
  let seed := random_Next rnd in (seed, seed mod (2 * config.kReadBytesPeriod)).

Definition new_DBIter (it : I) (s : Z) (seed : Z) : DBIter :=
  let '(rnd, period) := RandomCompactionPeriod (new_Random seed) in
  mkDBIter it s OK [] [] kForward false rnd period [].

Definition db_Valid (d : DBIter) : bool := valid_ d.

Definition db_key (d : DBIter) : outcome bytes :=
  assert! valid_ d;
  match direction_ d with
  | kForward => let! k := it_key (iter_ d) in Ret (ExtractUserKey k)
  | kReverse => Ret (saved_key_ d)
  end.

Definition db_value (d : DBIter) : outcome bytes :=
  assert! valid_ d;
  match direction_ d with
  | kForward => it_value (iter_ d)
  | kReverse => Ret (saved_value_ d)
  end.

Definition db_status (d : DBIter) : Status := if ok (status_ d) then it_status (iter_ d) else status_ d.

(** The [while] loop of [ParseKey]; [2 * bytes_read + 2] rounds are enough ([sample_loop_spec]). *)
Fixpoint sample_loop (fuel : nat) (k : bytes) (bytes_read rnd until : Z) (samples : list bytes)
    : outcome (Z * Z * list bytes) :=
  match fuel with
  | O => OutOfFuel
  | S fuel =>
      if until <? bytes_read then
        let '(rnd, period) := RandomCompactionPeriod rnd in
        sample_loop fuel k bytes_read rnd (u64 (until + period)) (samples ++ [k])
      else Ret (rnd, until, samples)
  end.

Definition ParseKey (d : DBIter) : outcome (DBIter * option ParsedInternalKey) :=
  let! k := it_key (iter_ d) in
  let! v := it_value (iter_ d) in
  let bytes_read := zlen k + zlen v in
  let! (rnd, until, samples) :=
    sample_loop (Z.to_nat (2 * bytes_read + 2)) k bytes_read (rnd_ d) (bytes_until_read_sampling_ d) (samples_ d) in
  assert! bytes_read <=? until;
  let d := mkDBIter (iter_ d) (sequence_ d) (status_ d) (saved_key_ d) (saved_value_ d) (direction_ d) (valid_ d)
             rnd (until - bytes_read) samples in
  match ParseInternalKey k with
  | None => Ret (set_status d (Corruption "corrupted internal key in DBIter"), None)
  | Some ikey => Ret (d, Some ikey)
  end.

(** The decision of [FindNextUserEntry] on one entry: whether to stop, whether to skip from
    now on, and the state ([skip] is always [saved_key_]). *)
Definition next_entry (d : DBIter) (skipping : bool) (ikey : option ParsedInternalKey) : bool * bool * DBIter :=
  match ikey with
  | Some k =>
      if pk_sequence k <=? sequence_ d then
        match pk_type k with
        | kTypeDeletion => (false, true, SaveKey d (pk_user_key k))
        | kTypeValue =>
            if skipping && (Compare (pk_user_key k) (saved_key_ d) <=? 0) then (false, skipping, d)
            else (true, skipping, d)
        end
      else (false, skipping, d)
  | None => (false, skipping, d)
  end.

Fixpoint FindNextUserEntry_loop (fuel : nat) (d : DBIter) (skipping : bool) : outcome DBIter :=
  match fuel with
  | O => OutOfFuel
  | S fuel =>
      let! (d, ikey) := ParseKey d in
      let '(stop, skipping, d) := next_entry d skipping ikey in
      if stop then Ret (SaveKey (set_valid d true) [])
      else
        let! it := it_Next (iter_ d) in
        let d := set_iter d it in
        if it_Valid it then FindNextUserEntry_loop fuel d skipping
        else Ret (set_valid (SaveKey d []) false)
  end.

Definition FindNextUserEntry (fuel : nat) (d : DBIter) (skipping : bool) : outcome DBIter :=
  assert! it_Valid (iter_ d);
  assert! bool_decide (direction_ d = kForward);
  FindNextUserEntry_loop fuel d skipping.

Definition db_Next (fuel : nat) (d : DBIter) : outcome DBIter :=
  assert! valid_ d;
  match direction_ d with
  | kReverse =>
      let d := set_direction d kForward in
      let! it := if negb (it_Valid (iter_ d)) then it_SeekToFirst (iter_ d) else it_Next (iter_ d) in
      let d := set_iter d it in
      if negb (it_Valid it) then Ret (SaveKey (set_valid d false) [])
      else FindNextUserEntry fuel d true
  | kForward =>
      let! k := it_key (iter_ d) in
      FindNextUserEntry fuel (SaveKey d (ExtractUserKey k)) true
  end.

(** The decision of [FindPrevUserEntry] on one entry: whether to stop, the state, and the
    type of the value saved so far. *)
Definition prev_entry (d : DBIter) (value_type : ValueType) (ikey : option ParsedInternalKey)
    : outcome (bool * DBIter * ValueType) :=
  match ikey with
  | Some k =>
      if pk_sequence k <=? sequence_ d then
        if bool_decide (value_type <> kTypeDeletion) && (Compare (pk_user_key k) (saved_key_ d) <? 0) then
          Ret (true, d, value_type)
        else
          match pk_type k with
          | kTypeDeletion => Ret (false, ClearSavedValue (SaveKey d []), kTypeDeletion)
          | kTypeValue =>
              let! raw_value := it_value (iter_ d) in
              let! key := it_key (iter_ d) in
              Ret (false, save_value (SaveKey d (ExtractUserKey key)) raw_value, kTypeValue)
          end
      else Ret (false, d, value_type)
  | None => Ret (false, d, value_type)
  end.

Fixpoint FindPrevUserEntry_loop (fuel : nat) (d : DBIter) (value_type : ValueType) : outcome (DBIter * ValueType) :=
  match fuel with
  | O => OutOfFuel
  | S fuel =>
      let! (d, ikey) := ParseKey d in
      let! (stop, d, value_type) := prev_entry d value_type ikey in
      if stop then Ret (d, value_type)
      else
        let! it := it_Prev (iter_ d) in
        let d := set_iter d it in
        if it_Valid it then FindPrevUserEntry_loop fuel d value_type else Ret (d, value_type)
  end.

Definition FindPrevUserEntry (fuel : nat) (d : DBIter) : outcome DBIter :=
  assert! bool_decide (direction_ d = kReverse);
  let! (d, value_type) :=
    if it_Valid (iter_ d) then FindPrevUserEntry_loop fuel d kTypeDeletion else Ret (d, kTypeDeletion) in
  match value_type with
  | kTypeDeletion => Ret (set_direction (ClearSavedValue (SaveKey (set_valid d false) [])) kForward)
  | kTypeValue => Ret (set_valid d true)
  end.

(** The [while (true)] of [Prev]: back to an entry of a smaller user key, or off the start
    ([false]). *)
Fixpoint prev_key_loop (fuel : nat) (d : DBIter) : outcome (DBIter * bool) :=
  match fuel with
  | O => OutOfFuel
  | S fuel =>
      let! it := it_Prev (iter_ d) in
      let d := set_iter d it in
      if negb (it_Valid it) then Ret (ClearSavedValue (SaveKey (set_valid d false) []), false)
      else
        let! k := it_key it in
        if Compare (ExtractUserKey k) (saved_key_ d) <? 0 then Ret (d, true) else prev_key_loop fuel d
  end.

Definition db_Prev (fuel : nat) (d : DBIter) : outcome DBIter :=
  assert! valid_ d;
  match direction_ d with
  | kForward =>
      assert! it_Valid (iter_ d);
      let! k := it_key (iter_ d) in
      let! (d, found) := prev_key_loop fuel (SaveKey d (ExtractUserKey k)) in
      if found then FindPrevUserEntry fuel (set_direction d kReverse) else Ret d
  | kReverse => FindPrevUserEntry fuel d
  end.

Definition db_Seek (fuel : nat) (d : DBIter) (target : bytes) : outcome DBIter :=
  let d := ClearSavedValue (set_direction d kForward) in
  let! k := AppendInternalKey [] (mkParsed target (sequence_ d) kValueTypeForSeek) in
  let d := SaveKey d k in
  let! it := it_Seek (iter_ d) (saved_key_ d) in
  let d := set_iter d it in
  if it_Valid it then FindNextUserEntry fuel d false else Ret (set_valid d false).

Definition db_SeekToFirst (fuel : nat) (d : DBIter) : outcome DBIter :=
  let d := ClearSavedValue (set_direction d kForward) in
  let! it := it_SeekToFirst (iter_ d) in
  let d := set_iter d it in
  if it_Valid it then FindNextUserEntry fuel d false else Ret (set_valid d false).

Definition db_SeekToLast (fuel : nat) (d : DBIter) : outcome DBIter :=
  let d := ClearSavedValue (set_direction d kReverse) in
  let! it := it_SeekToLast (iter_ d) in
  FindPrevUserEntry fuel (set_iter d it).

(** ** Sampling ends

    Two draws in a row are never both 0, so every second round of the sampling loop makes
    progress. *)
Lemma random_no_double_zero seed :
  0 < seed < random_M -> seed mod 2097152 = 0 -> random_Next seed mod 2097152 <> 0.
Proof.
  intros Hs Hz. destruct (random_Next_mod seed Hs) as [-> _]. unfold random_M, random_A in *.
  assert (exists a, seed = a * 2097152 /\ 0 < a < 1024) as (a & -> & Ha).
  { exists (seed / 2097152). zdiv_lia. }
  set (q := a * 16807 / 1024). set (r := (a * 16807) mod 1024).
  assert (a * 16807 = 1024 * q + r /\ 0 <= r < 1024) as [Hqr Hr] by (unfold q, r; zdiv_lia).
  assert (0 < q < 16807) as Hq by lia.
  assert (a * 2097152 * 16807 mod 2147483647 = q + r * 2097152) as ->.
  { symmetry. apply (Z.mod_unique_pos _ _ q); lia. }
  rewrite Z.mod_add by lia. rewrite Z.mod_small by lia. lia.
Qed.

Lemma sample_loop_spec k bytes_read fuel : forall rnd until samples,
  0 < rnd < random_M -> 0 <= until < 2 ^ 40 -> 0 <= bytes_read < 2 ^ 39 ->
  2 * (bytes_read - until) + (if rnd mod 2097152 =? 0 then 0 else 1) < Z.of_nat fuel -> (0 < fuel)%nat ->
  exists rnd' until' samples', sample_loop fuel k bytes_read rnd until samples = Ret (rnd', until', samples') /\
    0 < rnd' < random_M /\ bytes_read <= until' < 2 ^ 40.
Proof.
  induction fuel as [|fuel IH]; intros rnd until samples Hr Hu Hb Hf Hf0; [lia|]. cbn [sample_loop].
  destruct (Z.ltb_spec until bytes_read) as [Hlt|Hge]; [|eexists _, _, _; split; [reflexivity|]; lia].
  unfold RandomCompactionPeriod. change (2 * config.kReadBytesPeriod) with 2097152.
  destruct (random_Next_mod rnd Hr) as [_ Hr']. pose proof (random_no_double_zero rnd Hr) as Hz.
  set (rnd1 := random_Next rnd) in *. pose proof (Z.mod_pos_bound rnd1 2097152 ltac:(lia)) as Hp.
  rewrite u64_small by lia. apply IH; [done|lia|done| |].
  - destruct (Z.eqb_spec (rnd mod 2097152) 0), (Z.eqb_spec (rnd1 mod 2097152) 0); lia.
  - destruct (Z.eqb_spec (rnd mod 2097152) 0), (Z.eqb_spec (rnd1 mod 2097152) 0); lia.
Qed.

(** ** The entries a snapshot sees *)

Section Refinement.
Context `{laws : @ComparatorLaws user_comparator}.
Context (es : list entry_op) (Hok : Forall op_ok es) (Hsorted : StronglySorted op_lt es).
Context `{ilaws : !IteratorLaws I internal_compare (shown_entries es)}.
Context (s : Z) (Hs : in_range s).

(** The newest version of its key that the snapshot sees, and not a deletion. *)
Definition live (o : entry_op) : Prop :=
  op_seq o <= s /\ op_type o = kTypeValue /\
  Forall (fun o' => Compare (op_key o') (op_key o) = 0 -> op_seq o' <= s ->
                    tag (op_seq o') (op_type o') <= tag (op_seq o) (op_type o)) es.

#[global] Instance live_dec o : Decision (live o).
Proof. unfold live. apply _. Defined.

(** What the database iterator shows. *)
Definition view : list entry_op := filter live es.

Implicit Types (o b : entry_op) (j k : nat).

Lemma entry_ok j o : es !! j = Some o -> op_ok o.
Proof. intros Hj. rewrite Forall_lookup in Hok. by eapply Hok. Qed.

(** Entries are in the order of their keys, the newer versions of a key first. *)
Lemma es_order j k o b :
  es !! j = Some o -> es !! k = Some b -> (j < k)%nat ->
  Compare (op_key o) (op_key b) < 0 \/
  (Compare (op_key o) (op_key b) = 0 /\ tag (op_seq b) (op_type b) < tag (op_seq o) (op_type o)).
Proof.
  intros Hj Hk Hlt. apply op_ikey_cases; [by eapply entry_ok|by eapply entry_ok|].
  revert j k Hj Hk Hlt. clear -Hsorted. induction Hsorted as [|a l Hl IH Ha]; intros j k Hj Hk Hlt; [done|].
  destruct k as [|k]; [lia|]. destruct j as [|j]; simpl in *.
  - injection Hj as ->. rewrite Forall_lookup in Ha. by apply (Ha k).
  - apply (IH Hl j k); [done|done|lia].
Qed.

Lemma es_order_le j k o b :
  es !! j = Some o -> es !! k = Some b -> (j <= k)%nat -> Compare (op_key o) (op_key b) <= 0.
Proof.
  intros Hj Hk Hle. destruct (decide (j = k)) as [->|Hne].
  - rewrite Hj in Hk. injection Hk as ->. rewrite compare_refl. lia.
  - destruct (es_order j k o b Hj Hk ltac:(lia)) as [?|[? _]]; lia.
Qed.

Lemma compare_eq_sym o b : Compare (op_key o) (op_key b) = 0 <-> Compare (op_key b) (op_key o) = 0.
Proof. apply compare_antisym_eq. Qed.

(** A version is not live when a newer one is visible. *)
Lemma older_not_live j k o b :
  es !! j = Some o -> es !! k = Some b -> (j < k)%nat -> op_seq o <= s ->
  Compare (op_key o) (op_key b) = 0 -> ~ live b.
Proof.
  intros Hj Hk Hlt Hv Heq (_ & _ & Hf). rewrite Forall_lookup in Hf.
  pose proof (Hf j o Hj Heq Hv). destruct (es_order j k o b Hj Hk Hlt) as [?|[_ ?]]; lia.
Qed.

(** The first visible version of a key is live when it is a value. *)
Lemma first_live j o :
  es !! j = Some o -> op_seq o <= s -> op_type o = kTypeValue ->
  (forall k b, es !! k = Some b -> (k < j)%nat -> op_seq b <= s -> Compare (op_key b) (op_key o) <> 0) -> live o.
Proof.
  intros Hj Hv Ht Hfirst. split; [done|]. split; [done|]. apply Forall_lookup. intros k b Hk Heq Hvb.
  destruct (decide (k < j)%nat) as [Hlt|]; [by exfalso; eapply Hfirst|].
  destruct (decide (j = k)) as [->|Hne]; [rewrite Hj in Hk; injection Hk as ->; lia|].
  destruct (es_order j k o b Hj Hk ltac:(lia)) as [?|[_ ?]]; [|lia]. apply compare_eq_sym in Heq. lia.
Qed.

(** ** Positions in the view *)

Definition rank (j : nat) : nat := length (filter live (take j es)).

Lemma rank_lookup j o : es !! j = Some o -> live o -> view !! rank j = Some o.
Proof.
  intros Hj Hl. unfold view, rank.
  assert (filter live es = filter live (take j es ++ o :: drop (S j) es)) as ->
    by (by rewrite take_drop_middle).
  rewrite filter_app, lookup_app_r by done. rewrite Nat.sub_diag. by rewrite filter_cons_True.
Qed.

Lemma rank_S j o : es !! j = Some o -> rank (S j) = (rank j + if decide (live o) then 1 else 0)%nat.
Proof.
  intros Hj. unfold rank. rewrite (take_S_r _ _ _ Hj), filter_app, length_app, filter_cons.
  by destruct (decide (live o)).
Qed.

(** No live entry has an index from [j] on and below [k]. *)
Definition none_live (j k : nat) : Prop := forall i o, es !! i = Some o -> (j <= i < k)%nat -> ~ live o.

Lemma rank_none j k : (j <= k)%nat -> none_live j k -> rank k = rank j.
Proof.
  intros Hjk. induction Hjk as [|k Hjk IH]; intros Hn; [done|].
  rewrite <- IH by (intros i o Hi Hr; apply (Hn i o Hi); lia).
  destruct (es !! k) as [o|] eqn:E.
  - rewrite (rank_S k o E). rewrite decide_False by (apply (Hn k o E); lia). lia.
  - unfold rank. apply lookup_ge_None in E. by rewrite !take_ge by lia.
Qed.

Lemma rank_end : rank (length es) = length view.
Proof. unfold rank, view. by rewrite take_ge. Qed.

Lemma rank_next j k o :
  es !! j = Some o -> live o -> (j < k)%nat -> none_live (S j) k -> rank k = S (rank j).
Proof.
  intros Hj Hl Hlt Hn. rewrite (rank_none (S j) k ltac:(lia) Hn), (rank_S j o Hj), decide_True by done. lia.
Qed.

Lemma rank_lt j o : es !! j = Some o -> live o -> (rank j < length view)%nat.
Proof. intros Hj Hl. eapply lookup_lt_Some. by apply rank_lookup. Qed.

(** ** The states of the iterator *)

(** What every operation keeps. *)
Definition base (d : DBIter) : Prop :=
  sequence_ d = s /\ status_ d = OK /\ 0 < rnd_ d < random_M /\ 0 <= bytes_until_read_sampling_ d < 2 ^ 40.

(** Moving backwards, the internal iterator is before all entries of the key [o], and
    between it and them the snapshot sees nothing. *)
Definition before_key (o : entry_op) (q : option nat) : Prop :=
  (forall j b, es !! j = Some b -> op_seq b <= s -> Compare (op_key b) (op_key o) < 0 ->
     exists q', q = Some q' /\ (j <= q')%nat) /\
  (forall q', q = Some q' -> exists b, es !! q' = Some b /\ Compare (op_key b) (op_key o) < 0).

(** [Rel d p]: the iterator [d] shows the entry of index [p] of the view, or is not valid. *)
Definition Rel (d : DBIter) (p : option nat) : Prop :=
  base d /\ (exists q, at_index (iter_ d) q) /\
  match p with
  | None => valid_ d = false
  | Some n => valid_ d = true /\ exists j o, es !! j = Some o /\ live o /\ rank j = n /\
      match direction_ d with
      | kForward => at_index (iter_ d) (Some j)
      | kReverse => saved_key_ d = op_key o /\ saved_value_ d = op_value o /\
          exists q, at_index (iter_ d) q /\ before_key o q
      end
  end.

Lemma entry_at it j o :
  at_index it (Some j) -> es !! j = Some o ->
  it_key it = Ret (op_ikey o) /\ it_value it = Ret (op_value o) /\ it_Valid it = true.
Proof.
  intros Hat Hj. assert (shown_entries es !! j = Some (op_ikey o, op_value o)) as He.
  { unfold shown_entries. by rewrite list_lookup_fmap, Hj. }
  destruct (at_entry it j _ _ Hat He) as [-> ->]. split; [done|]. split; [done|].
  by destruct (at_valid it (Some j) Hat) as [-> _].
Qed.

Lemma shown_length : length (shown_entries es) = length es.
Proof. unfold shown_entries. by rewrite length_fmap. Qed.

Lemma at_some it j : at_index it (Some j) -> exists o, es !! j = Some o.
Proof. intros Hat. apply lookup_lt_is_Some_2. rewrite <- shown_length. by eapply at_bound. Qed.

(** [ParseKey] changes nothing but the sampling. *)
Lemma ParseKey_spec d j o :
  base d -> at_index (iter_ d) (Some j) -> es !! j = Some o ->
  exists d', ParseKey d = Ret (d', Some (mkParsed (op_key o) (op_seq o) (op_type o))) /\ base d' /\
    iter_ d' = iter_ d /\ saved_key_ d' = saved_key_ d /\ saved_value_ d' = saved_value_ d /\
    direction_ d' = direction_ d /\ valid_ d' = valid_ d.
Proof.
  intros (Hsq & Hst & Hr & Hb) Hat Hj. unfold ParseKey.
  destruct (entry_at _ j o Hat Hj) as (-> & -> & _). cbn [obind].
  destruct (entry_ok j o Hj) as (Hseq & Hk & Hv). unfold op_ikey. rewrite zlen_encode.
  pose proof (zlen_nonneg (op_key o)). pose proof (zlen_nonneg (op_value o)).
  set (n := zlen (op_key o) + 8 + zlen (op_value o)).
  destruct (sample_loop_spec (encode (op_key o) (op_seq o) (op_type o)) n (Z.to_nat (2 * n + 2)) (rnd_ d)
              (bytes_until_read_sampling_ d) (samples_ d) Hr Hb) as (rnd & until & samples & -> & Hr' & Hu').
  { unfold n. lia. }
  { destruct (_ =? 0); unfold n; lia. }
  { unfold n. lia. }
  cbn [obind]. rewrite (proj2 (Z.leb_le n until)) by lia. cbn [obind oassert].
  rewrite ParseInternalKey_encode by done. eexists. split; [reflexivity|]. split; [|done].
  split; [done|]. split; [done|]. split; [done|]. simpl. unfold n in *. lia.
Qed.

(** ** Forwards *)

Definition hidden (skipping : bool) (key : bytes) (o : entry_op) : Prop :=
  skipping = true /\ Compare (op_key o) key <= 0.

(** Where the forward scan may start: it has not passed a visible version of a key it may
    show, and it has not passed the key it skips. *)
Definition scan_ok (j : nat) (skipping : bool) (key : bytes) : Prop :=
  (forall k b, es !! k = Some b -> (j <= k)%nat -> op_seq b <= s -> ~ hidden skipping key b ->
     forall k' b', es !! k' = Some b' -> op_seq b' <= s -> Compare (op_key b') (op_key b) = 0 -> (j <= k')%nat) /\
  (skipping = true -> forall k b, es !! k = Some b -> (j <= k)%nat -> op_seq b <= s -> 0 <= Compare (op_key b) key).

(** The first live entry from [j] on that is not hidden, or none. *)
Definition scan_result (j : nat) (skipping : bool) (key : bytes) (d : DBIter) : Prop :=
  base d /\ direction_ d = kForward /\
  ((exists k o, es !! k = Some o /\ (j <= k)%nat /\ live o /\ ~ hidden skipping key o /\
      (forall i b, es !! i = Some b -> (j <= i < k)%nat -> live b -> hidden skipping key b) /\
      valid_ d = true /\ at_index (iter_ d) (Some k)) \/
   ((forall i b, es !! i = Some b -> (j <= i)%nat -> live b -> hidden skipping key b) /\
    valid_ d = false /\ exists q, at_index (iter_ d) q)).

(** One entry passed: what may still be shown is the same. *)
Lemma scan_step j o skipping key skipping' key' d :
  es !! j = Some o ->
  (live o -> hidden skipping key o) ->
  (forall k b, es !! k = Some b -> (S j <= k)%nat -> live b -> hidden skipping key b <-> hidden skipping' key' b) ->
  scan_result (S j) skipping' key' d -> scan_result j skipping key d.
Proof.
  intros Hj Ho Hiff (Hb & Hd & Hres). split; [done|]. split; [done|].
  destruct Hres as [(k & w & Hk & Hle & Hl & Hnh & Hmin & Hv & Hat)|(Hnone & Hv & Hat)].
  - left. exists k, w. split; [done|]. split; [lia|]. split; [done|]. split; [by rewrite Hiff|]. split; [|done].
    intros i b Hi Hr Hlb. destruct (decide (i = j)) as [->|Hne].
    + rewrite Hj in Hi. injection Hi as <-. by apply Ho.
    + apply Hiff with i; [done|lia|done|]. apply (Hmin i b Hi); [lia|done].
  - right. split; [|done]. intros i b Hi Hr Hlb. destruct (decide (i = j)) as [->|Hne].
    + rewrite Hj in Hi. injection Hi as <-. by apply Ho.
    + apply Hiff with i; [done|lia|done|]. apply (Hnone i b Hi); [lia|done].
Qed.

(** The scan stays sound past an entry it does not show. *)
Lemma scan_ok_pass j o skipping key :
  es !! j = Some o -> scan_ok j skipping key -> (op_seq o <= s -> hidden skipping key o) ->
  scan_ok (S j) skipping key.
Proof.
  intros Hj [Hs1 Hs2] Ho. split; [|intros Hsk k b Hk Hle Hvb; apply (Hs2 Hsk k b Hk); [lia|done]].
  intros k b Hk Hle Hvb Hnh k' b' Hk' Hvb' Heq.
  pose proof (Hs1 k b Hk ltac:(lia) Hvb Hnh k' b' Hk' Hvb' Heq) as Hge.
  destruct (decide (k' = j)) as [->|]; [|lia]. rewrite Hj in Hk'. injection Hk' as <-.
  destruct (Ho Hvb') as [Hsk Hle']. exfalso. apply Hnh. split; [done|].
  eapply compare_trans; [|exact Hle']. apply compare_antisym_eq in Heq. lia.
Qed.

Lemma scan_ok_skip j o : es !! j = Some o -> scan_ok (S j) true (op_key o).
Proof.
  intros Hj. split.
  - intros k b Hk Hle Hvb Hnh k' b' Hk' Hvb' Heq. destruct (decide (S j <= k')%nat) as [|Hlt]; [done|].
    exfalso. apply Hnh. split; [done|]. pose proof (es_order_le k' j b' o Hk' Hj ltac:(lia)).
    eapply compare_trans; [|done]. apply compare_antisym_eq in Heq. lia.
  - intros _ k b Hk Hle Hvb. pose proof (es_order_le j k o b Hj Hk ltac:(lia)).
    pose proof (compare_antisym (op_key b) (op_key o)). lia.
Qed.

(** After a visible entry the live entries that were hidden are those of its key. *)
Lemma hidden_skip j o skipping key k b :
  es !! j = Some o -> op_seq o <= s -> (skipping = true -> 0 <= Compare (op_key o) key) ->
  es !! k = Some b -> (S j <= k)%nat -> live b ->
  hidden skipping key b <-> hidden true (op_key o) b.
Proof.
  intros Hj Hvis Hge Hk Hle Hlb. pose proof (es_order_le j k o b Hj Hk ltac:(lia)) as Hob. split.
  - intros [Hsk Hle']. split; [done|]. specialize (Hge Hsk).
    eapply compare_trans; [exact Hle'|]. pose proof (compare_antisym (op_key o) key).
    pose proof (compare_antisym key (op_key o)). lia.
  - intros [_ Hle']. exfalso. apply (older_not_live j k o b Hj Hk ltac:(lia) Hvis); [|done].
    pose proof (compare_antisym (op_key b) (op_key o)). pose proof (compare_antisym (op_key o) (op_key b)). lia.
Qed.

(** Whether the internal iterator is valid after a step. *)
Lemma at_index_cases it j :
  at_index it (index_of (length es) j) ->
  (it_Valid it = true /\ at_index it (Some j) /\ (j < length es)%nat) \/
  (it_Valid it = false /\ at_index it None /\ (length es <= j)%nat).
Proof.
  intros Hat. destruct (at_valid _ _ Hat) as [Hv _]. unfold index_of in *.
  destruct (Nat.ltb_spec j (length es)); [left|right]; by rewrite Hv.
Qed.

Lemma iter_next_cases it j :
  at_index it (Some j) ->
  exists it', it_Next it = Ret it' /\
    ((it_Valid it' = true /\ at_index it' (Some (S j)) /\ (S j < length es)%nat) \/
     (it_Valid it' = false /\ at_index it' None /\ (length es <= S j)%nat)).
Proof.
  intros Hat. destruct (at_next it j Hat) as (it' & Heq & Hat'). exists it'. split; [done|].
  rewrite shown_length in Hat'. by apply at_index_cases.
Qed.

Lemma FindNextUserEntry_loop_spec fuel : forall d j skipping,
  base d -> direction_ d = kForward -> at_index (iter_ d) (Some j) ->
  scan_ok j skipping (saved_key_ d) -> (length es - j < fuel)%nat ->
  exists d', FindNextUserEntry_loop fuel d skipping = Ret d' /\ scan_result j skipping (saved_key_ d) d'.
Proof.
  induction fuel as [|fuel IH]; intros d j skipping Hb Hd Hat [Hs1 Hs2] Hf; [lia|]. cbn [FindNextUserEntry_loop].
  destruct (at_some _ _ Hat) as [o Hj].
  destruct (ParseKey_spec d j o Hb Hat Hj) as (d1 & -> & Hb1 & Hi1 & Hsk1 & Hsv1 & Hd1 & Hv1). cbn [obind].
  unfold next_entry. cbn [pk_sequence pk_type pk_user_key]. pose proof Hb1 as (Hsq1 & _). rewrite Hsq1.
  assert (forall d2 sk', base d2 -> direction_ d2 = kForward -> iter_ d2 = iter_ d -> scan_ok (S j) sk' (saved_key_ d2) ->
    exists d', (let! it := it_Next (iter_ d2) in
                if it_Valid it then FindNextUserEntry_loop fuel (set_iter d2 it) sk'
                else Ret (set_valid (SaveKey (set_iter d2 it) []) false)) = Ret d' /\
      scan_result (S j) sk' (saved_key_ d2) d') as Hnext.
  { intros d2 sk' Hb2 Hd2 Hi2 Hsc. rewrite Hi2. destruct (iter_next_cases _ j Hat) as (it & -> & Hcase). cbn [obind].
    destruct Hcase as [(-> & Hat' & Hlt)|(-> & Hat' & Hge)].
    - apply (IH (set_iter d2 it) (S j) sk'); try done. lia.
    - eexists. split; [reflexivity|]. split; [done|]. split; [done|]. right.
      split; [|split; [done|by exists None]]. intros k b Hk Hle. apply lookup_lt_Some in Hk. lia. }
  destruct (Z.leb_spec (op_seq o) s) as [Hvis|Hinv].
  - destruct (op_type o) eqn:Et.
    + (* a deletion: skip its key from now on *)
      destruct (Hnext (SaveKey d1 (op_key o)) true) as (d' & Heq & Hres); [done|by rewrite <- Hd, <- Hd1|done| |].
      { by apply scan_ok_skip. }
      exists d'. split; [exact Heq|]. eapply (scan_step j o _ _ true (op_key o)); [done| | |exact Hres].
      * intros (_ & Hty & _). congruence.
      * intros k b Hk Hle Hlb. eapply hidden_skip; try done. intros Hsk. apply (Hs2 Hsk j o Hj); [lia|done].
    + rewrite Hsk1. destruct (skipping && (Compare (op_key o) (saved_key_ d) <=? 0)) eqn:Eh.
      * (* a hidden value *)
        apply andb_true_iff in Eh as [Hsk Hle%Z.leb_le].
        destruct (Hnext d1 skipping) as (d' & Heq & Hres); [done|congruence|done| |].
        { rewrite Hsk1. by apply (scan_ok_pass j o). }
        exists d'. split; [exact Heq|]. rewrite Hsk1 in Hres.
        eapply (scan_step j o _ _ skipping (saved_key_ d)); [done|done|done|exact Hres].
      * (* the entry to show *)
        eexists. split; [reflexivity|]. split; [done|]. split; [by rewrite <- Hd, <- Hd1|]. left.
        assert (~ hidden skipping (saved_key_ d) o) as Hnh.
        { intros [Hsk Hle]. rewrite Hsk in Eh. apply Z.leb_gt in Eh. lia. }
        exists j, o. split; [done|]. split; [done|]. split.
        { apply (first_live j o Hj Hvis Et). intros k b Hk Hlt Hvb Heq'.
          pose proof (Hs1 j o Hj ltac:(lia) Hvis Hnh k b Hk Hvb Heq'). lia. }
        split; [done|]. split; [intros; lia|]. split; [done|]. simpl. by rewrite Hi1.
  - (* not visible *)
    destruct (Hnext d1 skipping) as (d' & Heq & Hres); [done|congruence|done| |].
    { rewrite Hsk1. apply (scan_ok_pass j o); [done|done|lia]. }
    exists d'. split; [exact Heq|]. rewrite Hsk1 in Hres.
    eapply (scan_step j o _ _ skipping (saved_key_ d)); [done| |done|exact Hres]. intros (? & _). lia.
Qed.

Lemma FindNextUserEntry_spec fuel d j skipping :
  base d -> direction_ d = kForward -> at_index (iter_ d) (Some j) ->
  scan_ok j skipping (saved_key_ d) -> (length es < fuel)%nat ->
  exists d', FindNextUserEntry fuel d skipping = Ret d' /\ scan_result j skipping (saved_key_ d) d'.
Proof.
  intros Hb Hd Hat Hsc Hf. unfold FindNextUserEntry. destruct (at_valid _ _ Hat) as [-> _].
  rewrite bool_decide_eq_true_2 by eauto. rewrite bool_decide_eq_true_2 by done. cbn [obind oassert].
  apply FindNextUserEntry_loop_spec; try done. lia.
Qed.

(** ** The result of a scan in the view *)

Lemma Rel_forward d j o :
  base d -> direction_ d = kForward -> es !! j = Some o -> live o -> valid_ d = true ->
  at_index (iter_ d) (Some j) -> Rel d (index_of (length view) (rank j)).
Proof.
  intros Hb Hd Hj Hl Hv Hat. unfold index_of.
  rewrite (proj2 (Nat.ltb_lt _ _) (rank_lt j o Hj Hl)). split; [done|]. split; [eauto|].
  split; [done|]. exists j, o. rewrite Hd. done.
Qed.

Lemma Rel_none d n :
  base d -> valid_ d = false -> (exists q, at_index (iter_ d) q) -> (length view <= n)%nat ->
  Rel d (index_of (length view) n).
Proof.
  intros Hb Hv Hat Hn. unfold index_of. rewrite (proj2 (Nat.ltb_ge _ _) Hn). done.
Qed.

Lemma scan_first j key d :
  (j <= length es)%nat -> scan_result j false key d -> Rel d (index_of (length view) (rank j)).
Proof.
  intros Hj (Hb & Hd & [(k & o & Hk & Hle & Hl & _ & Hmin & Hv & Hat)|(Hnone & Hv & Hat)]).
  - rewrite <- (rank_none j k Hle); [by eapply Rel_forward|].
    intros i b Hi Hr Hlb. by destruct (Hmin i b Hi Hr Hlb).
  - apply Rel_none; try done. rewrite <- rank_end, (rank_none j (length es) Hj); [done|].
    intros i b Hi Hr Hlb. by destruct (Hnone i b Hi ltac:(lia) Hlb).
Qed.

(** The live entries after a live entry have other keys. *)
Lemma after_live i o k b :
  es !! i = Some o -> live o -> es !! k = Some b -> (i < k)%nat -> live b -> ~ hidden true (op_key o) b.
Proof.
  intros Hi Hl Hk Hlt Hlb [_ Hle]. pose proof (es_order_le i k o b Hi Hk ltac:(lia)).
  apply (older_not_live i k o b Hi Hk Hlt); [apply Hl| |done].
  pose proof (compare_antisym (op_key b) (op_key o)). pose proof (compare_antisym (op_key o) (op_key b)). lia.
Qed.

Lemma scan_next i o j d :
  es !! i = Some o -> live o -> (j <= i)%nat -> scan_result j true (op_key o) d ->
  Rel d (index_of (length view) (S (rank i))).
Proof.
  intros Hi Hl Hji (Hb & Hd & [(k & b & Hk & Hle & Hlb & Hnh & Hmin & Hv & Hat)|(Hnone & Hv & Hat)]).
  - assert (i < k)%nat as Hik.
    { destruct (decide (i < k)%nat) as [|Hge]; [done|]. exfalso. apply Hnh. split; [done|].
      apply (es_order_le k i b o Hk Hi). lia. }
    rewrite <- (rank_next i k o Hi Hl Hik); [by eapply Rel_forward|].
    intros x c Hx Hr Hlc. apply (after_live i o x c Hi Hl Hx ltac:(lia) Hlc). apply (Hmin x c Hx); [lia|done].
  - apply Rel_none; try done. apply lookup_lt_Some in Hi as Hlen.
    rewrite <- rank_end, (rank_next i (length es) o Hi Hl Hlen); [done|].
    intros x c Hx Hr Hlc. apply (after_live i o x c Hi Hl Hx ltac:(lia) Hlc). apply (Hnone x c Hx); [lia|done].
Qed.

Lemma base_iter d it : base d -> base (set_iter d it).
Proof. done. Qed.

Lemma db_SeekToFirst_spec fuel d p :
  Rel d p -> (length es < fuel)%nat ->
  exists d', db_SeekToFirst fuel d = Ret d' /\ Rel d' (index_of (length view) 0).
Proof.
  intros (Hb & (q & Hq) & _) Hf. unfold db_SeekToFirst. simpl iter_.
  destruct (at_first _ _ Hq) as (it & -> & Hat). cbn [obind].
  rewrite shown_length in Hat. apply at_index_cases in Hat as [(-> & Hat & Hlt)|(-> & Hat & Hge)].
  - destruct (FindNextUserEntry_spec fuel (set_iter (ClearSavedValue (set_direction d kForward)) it) 0 false)
      as (d' & Heq & Hres); try done.
    { split; [intros; lia|done]. }
    exists d'. split; [exact Heq|]. apply scan_first in Hres; [done|lia].
  - eexists. split; [reflexivity|]. apply Rel_none; [done|done|by exists None|].
    unfold view. destruct es; [simpl; lia|simpl in Hge; lia].
Qed.

(** A property that holds of a prefix of a sequence is counted by its filter. *)
Lemma prefix_filter (P : entry_op -> Prop) `{forall o, Decision (P o)} l :
  (forall i j a b, l !! i = Some a -> l !! j = Some b -> (i < j)%nat -> P b -> P a) ->
  forall j o, l !! j = Some o -> P o <-> (j < length (filter P l))%nat.
Proof.
  induction l as [|a l IH]; intros Hdown j o Hj; [done|]. rewrite filter_cons.
  assert (forall i j a b, l !! i = Some a -> l !! j = Some b -> (i < j)%nat -> P b -> P a) as Hdown'.
  { intros i j' x y Hi Hj' Hlt. apply (Hdown (S i) (S j') x y Hi Hj'). lia. }
  destruct (decide (P a)) as [Ha|Ha]; simpl.
  - destruct j as [|j]; simpl in Hj; [injection Hj as ->; split; [lia|done]|].
    rewrite (IH Hdown' j o Hj). lia.
  - split; [|].
    + intros Ho. exfalso. apply Ha. destruct j as [|j]; [by injection Hj as ->|].
      apply (Hdown 0%nat (S j) a o); [done|done|lia|done].
    + intros Hlt. exfalso. apply Ha. destruct (filter P l) as [|y ys] eqn:E; [simpl in Hlt; lia|].
      assert (y ∈ filter P l) as Hy by (rewrite E; by left). apply list_elem_of_filter in Hy as [Hpy Hy].
      apply list_elem_of_lookup in Hy as [i Hi]. apply (Hdown 0%nat (S i) a y); [done|done|lia|done].
Qed.

(** Where the internal iterator seeks to: before it are the entries the snapshot does not
    see and those of smaller keys. *)
Definition seek_index (target : bytes) : nat :=
  length (filter (fun o => internal_compare (op_ikey o) (encode target s kValueTypeForSeek) < 0) es).

Lemma seek_down target i j a b :
  es !! i = Some a -> es !! j = Some b -> (i < j)%nat ->
  internal_compare (op_ikey b) (encode target s kValueTypeForSeek) < 0 ->
  internal_compare (op_ikey a) (encode target s kValueTypeForSeek) < 0.
Proof.
  intros Hi Hj Hlt Hb. assert (internal_compare (op_ikey a) (op_ikey b) < 0) as Hab
    by (apply op_ikey_cases; [by eapply entry_ok|by eapply entry_ok|by eapply es_order]).
  exact (@compare_lt_le _ InternalKeyComparator_laws _ _ _ Hab (Z.lt_le_incl _ _ Hb)).
Qed.

Lemma seek_index_spec target j o :
  es !! j = Some o -> op_seq o <= s -> (j < seek_index target)%nat <-> Compare (op_key o) target < 0.
Proof.
  intros Hj Hv. unfold seek_index. rewrite <- (prefix_filter _ es (seek_down target) j o Hj).
  rewrite (proj1 (internal_compare_cases _ _)). unfold op_ikey.
  rewrite !ExtractUserKey_encode, !ExtractTag_encode by (done || by apply (entry_ok j o Hj)).
  pose proof (tag_lt s kValueTypeForSeek (op_seq o) (op_type o)) as Ht.
  assert (type_code (op_type o) <= type_code kValueTypeForSeek) by (by destruct (op_type o)). lia.
Qed.

Lemma rank_seek target :
  rank (seek_index target) = length (filter (fun o => Compare (op_key o) target < 0) view).
Proof.
  unfold rank, view. set (Q := fun o => Compare (op_key o) target < 0).
  assert (filter live es = filter live (take (seek_index target) es) ++ filter live (drop (seek_index target) es)) as ->
    by (by rewrite <- filter_app, take_drop).
  rewrite filter_app, length_app.
  assert (filter Q (filter live (take (seek_index target) es)) = filter live (take (seek_index target) es)) as ->.
  { apply filter_all, Forall_forall. intros o Ho. apply list_elem_of_filter in Ho as [Hl Ho].
    apply list_elem_of_lookup in Ho as [j Hj]. apply lookup_take_Some in Hj as [Hj Hlt].
    apply (seek_index_spec target j o Hj); [apply Hl|done]. }
  assert (filter Q (filter live (drop (seek_index target) es)) = []) as ->; [|simpl; lia].
  apply filter_none, Forall_forall. intros o Ho HQ. apply list_elem_of_filter in Ho as [Hl Ho].
  apply list_elem_of_lookup in Ho as [j Hj]. rewrite lookup_drop in Hj.
  apply (seek_index_spec target _ o Hj) in HQ; [lia|apply Hl].
Qed.

Lemma db_Seek_spec fuel d p target :
  Rel d p -> (length es < fuel)%nat -> seekable (encode target s kValueTypeForSeek) ->
  exists d', db_Seek fuel d target = Ret d' /\
    Rel d' (index_of (length view) (length (filter (fun o => Compare (op_key o) target < 0) view))).
Proof.
  intros (Hb & (q & Hq) & _) Hf Hk. pose proof Hb as (Hsq & _). unfold db_Seek. cbn [sequence_ ClearSavedValue set_direction save_value].
  rewrite Hsq, AppendInternalKey_spec by done. cbn [obind app]. simpl iter_. simpl saved_key_.
  destruct (at_seek _ _ _ Hq Hk) as (it & -> & Hat). cbn [obind].
  rewrite shown_length, filter_shown in Hat. fold (seek_index target) in Hat. rewrite <- rank_seek.
  apply at_index_cases in Hat as [(-> & Hat & Hlt)|(-> & Hat & Hge)].
  - destruct (FindNextUserEntry_spec fuel
      (set_iter (SaveKey (ClearSavedValue (set_direction d kForward)) (encode target s kValueTypeForSeek)) it)
      (seek_index target) false) as (d' & Heq & Hres); try done.
    { split; [|done]. intros k b Hkb Hle Hvb _ k' b' Hk' Hvb' Heq.
      destruct (decide (seek_index target <= k')%nat) as [|Hlt']; [done|]. exfalso.
      assert (Compare (op_key b') target < 0) as Hb' by (apply (seek_index_spec target k' b' Hk' Hvb'); lia).
      assert (~ Compare (op_key b) target < 0) as Hnb by (rewrite <- (seek_index_spec target k b Hkb Hvb); lia).
      apply Hnb. eapply compare_le_lt; [|exact Hb']. apply compare_antisym_eq in Heq. lia. }
    exists d'. split; [exact Heq|]. apply scan_first in Hres; [done|lia].
  - eexists. split; [reflexivity|]. apply Rel_none; [done|done|by exists None|].
    rewrite <- rank_end. unfold rank. by rewrite !take_ge by lia.
Qed.

(** A scan that skips a live entry may start anywhere before it where only entries the
    snapshot does not see have smaller keys. *)
Lemma scan_ok_live i o j :
  es !! i = Some o -> (j <= i)%nat ->
  (forall k b, es !! k = Some b -> (j <= k)%nat -> op_seq b <= s -> 0 <= Compare (op_key b) (op_key o)) ->
  scan_ok j true (op_key o).
Proof.
  intros Hi Hji Hge. split; [|done]. intros k b Hk Hle Hvb Hnh k' b' Hk' Hvb' Heq.
  destruct (decide (j <= k')%nat) as [|Hlt]; [done|]. exfalso. apply Hnh. split; [done|].
  pose proof (es_order_le k' i b' o Hk' Hi ltac:(lia)). eapply compare_trans; [|done].
  apply compare_antisym_eq in Heq. lia.
Qed.

Lemma db_Next_spec fuel d n :
  Rel d (Some n) -> (length es < fuel)%nat ->
  exists d', db_Next fuel d = Ret d' /\ Rel d' (index_of (length view) (S n)).
Proof.
  intros (Hb & _ & Hv & j & o & Hj & Hl & <- & Hdir) Hf. unfold db_Next. rewrite Hv. cbn [obind oassert].
  destruct (direction_ d) eqn:Ed.
  - destruct (entry_at _ j o Hdir Hj) as (-> & _ & _). cbn [obind]. unfold op_ikey. rewrite ExtractUserKey_encode.
    destruct (FindNextUserEntry_spec fuel (SaveKey d (op_key o)) j true) as (d' & Heq & Hres); try done.
    { apply (scan_ok_live j o j Hj); [lia|]. intros k b Hk Hle Hvb.
      pose proof (es_order_le j k o b Hj Hk Hle). pose proof (compare_antisym (op_key b) (op_key o)). lia. }
    exists d'. split; [exact Heq|]. by apply (scan_next j o j).
  - destruct Hdir as (Hsk & _ & q & Hq & Hb1 & Hb2).
    set (i := match q with Some q' => S q' | None => 0%nat end).
    assert (i <= j)%nat as Hij.
    { unfold i. destruct q as [q'|]; [|lia]. destruct (Hb2 q' eq_refl) as (b & Hqb & Hlt).
      destruct (decide (S q' <= j)%nat) as [|Hge]; [done|].
      pose proof (es_order_le j q' o b Hj Hqb ltac:(lia)). pose proof (compare_antisym (op_key b) (op_key o)). lia. }
    assert (exists it, (if negb (it_Valid (iter_ (set_direction d kForward))) then it_SeekToFirst (iter_ (set_direction d kForward))
              else it_Next (iter_ (set_direction d kForward))) = Ret it /\ at_index it (Some i) /\ it_Valid it = true)
      as (it & -> & Hat & Hvit).
    { apply lookup_lt_Some in Hj. simpl. destruct (at_valid _ _ Hq) as [-> _]. destruct q as [q'|]; simpl.
      - destruct (iter_next_cases _ q' Hq) as (it & -> & [(? & ? & _)|(_ & _ & ?)]); [by exists it|]. unfold i in Hij. lia.
      - destruct (at_first _ _ Hq) as (it & -> & Hat). rewrite shown_length in Hat.
        apply at_index_cases in Hat as [(? & ? & _)|(_ & _ & ?)]; [by exists it|lia]. }
    cbn [obind]. rewrite Hvit. cbn [negb].
    destruct (FindNextUserEntry_spec fuel (set_iter (set_direction d kForward) it) i true) as (d' & Heq & Hres); try done.
    { simpl. rewrite Hsk. apply (scan_ok_live j o i Hj Hij). intros k b Hk Hle Hvb.
      destruct (Z.lt_ge_cases (Compare (op_key b) (op_key o)) 0) as [Hlt|]; [|lia]. exfalso.
      destruct (Hb1 k b Hk Hvb Hlt) as (q' & -> & Hkq). unfold i in Hle. lia. }
    exists d'. split; [exact Heq|]. simpl in Hres. rewrite Hsk in Hres. by apply (scan_next j o i).
Qed.

(** ** Backwards *)

(** The scan has passed the entries after [i] up to [p]. *)
Definition back_inv (i : Z) (p : nat) (value_type : ValueType) (d : DBIter) : Prop :=
  match value_type with
  | kTypeDeletion => forall k b, es !! k = Some b -> i < Z.of_nat k <= Z.of_nat p -> ~ live b
  | kTypeValue => exists w o, es !! w = Some o /\ i < Z.of_nat w <= Z.of_nat p /\ op_seq o <= s /\ op_type o = kTypeValue /\
      saved_key_ d = op_key o /\ saved_value_ d = op_value o /\
      (forall k b, es !! k = Some b -> i < Z.of_nat k < Z.of_nat w -> ~ op_seq b <= s) /\
      (forall k b, es !! k = Some b -> (w < k <= p)%nat -> ~ live b)
  end.

(** The last live entry up to [p], or none. *)
Definition back_result (p : nat) (d : DBIter) (value_type : ValueType) : Prop :=
  base d /\ direction_ d = kReverse /\ (exists q, at_index (iter_ d) q) /\
  match value_type with
  | kTypeDeletion => none_live 0 (S p)
  | kTypeValue => exists w o q, es !! w = Some o /\ (w <= p)%nat /\ live o /\ none_live (S w) (S p) /\
      saved_key_ d = op_key o /\ saved_value_ d = op_value o /\ at_index (iter_ d) q /\ before_key o q
  end.

(** The scan stops at the visible entry [j] of a smaller key, or before the first entry. *)
Lemma back_stop i p value_type d q :
  base d -> direction_ d = kReverse -> at_index (iter_ d) q ->
  back_inv i p value_type d -> -1 <= i ->
  (q = None /\ i = -1 \/ exists j b, q = Some j /\ i = Z.of_nat j /\ es !! j = Some b /\
     value_type = kTypeValue /\ Compare (op_key b) (saved_key_ d) < 0) ->
  back_result p d value_type.
Proof.
  intros Hb Hd Hat Hinv Hi Hcase. split; [done|]. split; [done|]. split; [eauto|].
  destruct value_type; simpl in Hinv.
  - destruct Hcase as [[-> ->]|(j & b & _ & _ & _ & ? & _)]; [|done].
    intros k b Hk Hr. apply (Hinv k b Hk). lia.
  - destruct Hinv as (w & o & Hw & Hr & Hv & Ht & Hsk & Hsv & Hmid & Hhi).
    assert (forall k b, es !! k = Some b -> (k < w)%nat -> op_seq b <= s ->
              Z.of_nat k <= i /\ Compare (op_key b) (op_key o) < 0) as Hlow.
    { intros k b Hk Hlt Hvb. assert (Z.of_nat k <= i) as Hki.
      { destruct (Z.le_gt_cases (Z.of_nat k) i); [done|]. exfalso. apply (Hmid k b Hk); [lia|done]. }
      split; [done|]. destruct Hcase as [[_ ->]|(j & c & _ & -> & Hj & _ & Hc)]; [lia|].
      rewrite Hsk in Hc. eapply compare_le_lt; [|exact Hc]. apply (es_order_le k j b c Hk Hj). lia. }
    exists w, o, q. split; [done|]. split; [lia|]. split.
    { apply (first_live w o Hw Hv Ht). intros k b Hk Hlt Hvb Heq. destruct (Hlow k b Hk Hlt Hvb). lia. }
    split; [intros k b Hk Hr'; apply (Hhi k b Hk); lia|]. split; [done|]. split; [done|]. split; [done|]. split.
    + intros k b Hk Hvb Hlt. destruct (decide (k < w)%nat) as [Hkw|Hge].
      * destruct (Hlow k b Hk Hkw Hvb) as [Hki _]. destruct Hcase as [[_ ->]|(j & c & -> & -> & _)]; [lia|].
        exists j. split; [done|lia].
      * pose proof (es_order_le w k o b Hw Hk ltac:(lia)). pose proof (compare_antisym (op_key b) (op_key o)). lia.
    + intros q' ->. destruct Hcase as [[? _]|(j & c & [= <-] & _ & Hj & _ & Hc)]; [done|].
      exists c. split; [done|]. by rewrite <- Hsk.
Qed.

(** A visible entry that does not stop the scan hides what the scan has passed. *)
Lemma back_older j o p value_type d :
  es !! j = Some o -> op_seq o <= s -> back_inv (Z.of_nat j) p value_type d ->
  (value_type = kTypeValue -> ~ Compare (op_key o) (saved_key_ d) < 0) ->
  forall k b, es !! k = Some b -> (j < k <= p)%nat -> ~ live b.
Proof.
  intros Hj Hv Hinv Hns k b Hk Hr Hlb. destruct value_type; simpl in Hinv.
  - apply (Hinv k b Hk); [lia|done].
  - destruct Hinv as (w & c & Hw & Hrw & _ & _ & Hsk & _ & Hmid & Hhi). specialize (Hns eq_refl). rewrite Hsk in Hns.
    destruct (Nat.lt_trichotomy k w) as [Hkw|[->|Hkw]].
    + apply (Hmid k b Hk); [lia|apply Hlb].
    + rewrite Hw in Hk. injection Hk as <-. pose proof (es_order_le j w o c Hj Hw ltac:(lia)).
      apply (older_not_live j w o c Hj Hw); [lia|done|lia|done].
    + apply (Hhi k b Hk); [lia|done].
Qed.

(** The step of the internal iterator at the end of a round. *)
Lemma iter_prev_cases it j :
  at_index it (Some j) ->
  exists it', it_Prev it = Ret it' /\
    match j with
    | O => it_Valid it' = false /\ at_index it' None
    | S j => it_Valid it' = true /\ at_index it' (Some j)
    end.
Proof.
  intros Hat. destruct (at_prev it j Hat) as (it' & Heq & Hat'). exists it'. split; [done|].
  destruct (at_valid _ _ Hat') as [Hv _]. by destruct j.
Qed.

(** The decision on one entry. *)
Lemma prev_entry_spec d j o p value_type :
  base d -> at_index (iter_ d) (Some j) -> es !! j = Some o -> (j <= p)%nat ->
  back_inv (Z.of_nat j) p value_type d ->
  exists stop d' value_type',
    prev_entry d value_type (Some (mkParsed (op_key o) (op_seq o) (op_type o))) = Ret (stop, d', value_type') /\
    base d' /\ iter_ d' = iter_ d /\ direction_ d' = direction_ d /\
    if stop then d' = d /\ value_type' = kTypeValue /\ value_type = kTypeValue /\ Compare (op_key o) (saved_key_ d) < 0
    else back_inv (Z.of_nat j - 1) p value_type' d'.
Proof.
  intros Hb Hat Hj Hjp Hinv. unfold prev_entry. cbn [pk_sequence pk_type pk_user_key].
  pose proof Hb as (Hsq & _). rewrite Hsq. destruct (Z.leb_spec (op_seq o) s) as [Hv|Hv].
  - destruct (bool_decide (value_type <> kTypeDeletion) && (Compare (op_key o) (saved_key_ d) <? 0)) eqn:Es.
    + apply andb_true_iff in Es as [Hne%bool_decide_eq_true Hlt%Z.ltb_lt].
      exists true, d, value_type. split; [done|]. by destruct value_type.
    + assert (value_type = kTypeValue -> ~ Compare (op_key o) (saved_key_ d) < 0) as Hns.
      { intros ->. rewrite bool_decide_eq_true_2 in Es by done. by apply Z.ltb_nlt in Es. }
      pose proof (back_older j o p value_type d Hj Hv Hinv Hns) as Hold.
      destruct (op_type o) eqn:Et.
      * eexists false, _, kTypeDeletion. split; [reflexivity|]. split; [done|]. split; [done|]. split; [done|].
        intros k b Hk Hr. destruct (decide (k = j)) as [->|Hne].
        -- rewrite Hj in Hk. injection Hk as <-. intros (_ & ? & _). congruence.
        -- apply (Hold k b Hk). lia.
      * destruct (entry_at _ j o Hat Hj) as (-> & -> & _). cbn [obind]. unfold op_ikey. rewrite ExtractUserKey_encode.
        eexists false, _, kTypeValue. split; [reflexivity|]. split; [done|]. split; [done|]. split; [done|].
        exists j, o. split; [done|]. split; [lia|]. split; [done|]. split; [done|]. split; [done|]. split; [done|].
        split; [intros; lia|done].
  - exists false, d, value_type. split; [done|]. split; [done|]. split; [done|]. split; [done|].
    destruct value_type; simpl in *.
    + intros k b Hk Hr. destruct (decide (k = j)) as [->|Hne].
      * rewrite Hj in Hk. injection Hk as <-. intros (? & _). lia.
      * apply (Hinv k b Hk). lia.
    + destruct Hinv as (w & c & Hw & Hr & Hvc & Htc & Hsk & Hsv & Hmid & Hhi).
      exists w, c. split; [done|]. split; [lia|]. do 4 (split; [done|]). split; [|done].
      intros k b Hk Hr'. destruct (decide (k = j)) as [->|Hne].
      * rewrite Hj in Hk. injection Hk as <-. lia.
      * apply (Hmid k b Hk). lia.
Qed.

Lemma back_inv_saved i p value_type d d' :
  saved_key_ d' = saved_key_ d -> saved_value_ d' = saved_value_ d ->
  back_inv i p value_type d -> back_inv i p value_type d'.
Proof. intros Hk Hv. destruct value_type; simpl; [done|]. by rewrite Hk, Hv. Qed.

Lemma FindPrevUserEntry_loop_spec fuel : forall d j p value_type,
  base d -> direction_ d = kReverse -> at_index (iter_ d) (Some j) -> (j <= p)%nat ->
  back_inv (Z.of_nat j) p value_type d -> (j < fuel)%nat ->
  exists d' value_type', FindPrevUserEntry_loop fuel d value_type = Ret (d', value_type') /\
    back_result p d' value_type'.
Proof.
  induction fuel as [|fuel IH]; intros d j p value_type Hb Hd Hat Hjp Hinv Hf; [lia|]. cbn [FindPrevUserEntry_loop].
  destruct (at_some _ _ Hat) as [o Hj].
  destruct (ParseKey_spec d j o Hb Hat Hj) as (d1 & -> & Hb1 & Hi1 & Hsk1 & Hsv1 & Hd1 & Hv1). cbn [obind].
  rewrite <- Hi1 in Hat. pose proof (back_inv_saved _ _ _ _ d1 Hsk1 Hsv1 Hinv) as Hinv1.
  destruct (prev_entry_spec d1 j o p value_type Hb1 Hat Hj Hjp Hinv1) as (stop & d2 & vt & -> & Hb2 & Hi2 & Hd2 & Hres).
  cbn [obind]. destruct stop.
  - destruct Hres as (-> & -> & -> & Hlt). eexists _, _. split; [reflexivity|].
    apply (back_stop (Z.of_nat j) p kTypeValue d1 (Some j)); [done|congruence|done|done|lia|].
    right. by exists j, o.
  - rewrite <- Hi2 in Hat. destruct (iter_prev_cases _ j Hat) as (it & -> & Hit). cbn [obind].
    assert (back_inv (Z.of_nat j - 1) p vt (set_iter d2 it)) as Hinv2 by (by eapply back_inv_saved; [| |exact Hres]).
    destruct j as [|j]; destruct Hit as [-> Hat'].
    + eexists _, _. split; [reflexivity|].
      apply (back_stop (-1) p vt (set_iter d2 it) None); [done|simpl; congruence|done|done|lia|by left].
    + apply (IH (set_iter d2 it) j p vt); [done|simpl; congruence|done|lia| |lia].
      by replace (Z.of_nat j) with (Z.of_nat (S j) - 1) by lia.
Qed.

(** The result of [FindPrevUserEntry] in the view: with [r] live entries up to [p], the
    last of them. *)
Lemma FindPrevUserEntry_spec fuel d q r :
  base d -> direction_ d = kReverse -> at_index (iter_ d) q ->
  r = match q with Some p => rank (S p) | None => 0%nat end -> (length es < fuel)%nat ->
  exists d', FindPrevUserEntry fuel d = Ret d' /\ Rel d' (last_index r).
Proof.
  intros Hb Hd Hat -> Hf. unfold FindPrevUserEntry. rewrite bool_decide_eq_true_2 by done. cbn [obind oassert].
  destruct (at_valid _ _ Hat) as [-> _]. destruct q as [p|].
  - rewrite bool_decide_eq_true_2 by eauto.
    assert (p < length es)%nat as Hp by (rewrite <- shown_length; by eapply at_bound).
    destruct (FindPrevUserEntry_loop_spec fuel d p p kTypeDeletion Hb Hd Hat) as (d' & vt & -> & Hb' & Hd' & Hat' & Hres);
      [lia|intros k b _ Hr; lia|lia|]. cbn [obind]. destruct vt; (eexists; split; [reflexivity|]).
    + assert (rank (S p) = 0%nat) as -> by (rewrite (rank_none 0 (S p)); [done|lia|done]).
      split; [done|]. by split.
    + destruct Hres as (w & o & q & Hw & Hwp & Hl & Hn & Hsk & Hsv & Hatq & Hbk).
      rewrite (rank_next w (S p) o Hw Hl ltac:(lia) Hn). split; [done|]. split; [done|]. split; [done|].
      exists w, o. simpl. rewrite Hd'. split; [done|]. split; [done|]. split; [done|].
      split; [done|]. split; [done|]. by exists q.
  - rewrite bool_decide_eq_false_2 by (by intros [? ?]). cbn [obind]. eexists. split; [reflexivity|].
    split; [done|]. split; [by exists None|done].
Qed.

Lemma db_SeekToLast_spec fuel d p :
  Rel d p -> (length es < fuel)%nat ->
  exists d', db_SeekToLast fuel d = Ret d' /\ Rel d' (last_index (length view)).
Proof.
  intros (Hb & (q & Hq) & _) Hf. unfold db_SeekToLast. simpl iter_.
  destruct (at_last _ _ Hq) as (it & -> & Hat). cbn [obind]. rewrite shown_length in Hat.
  apply (FindPrevUserEntry_spec fuel _ (last_index (length es))); try done.
  unfold last_index. rewrite <- rank_end. by destruct (length es).
Qed.

(** The loop that leaves the entries of the current key backwards. *)
Lemma prev_key_loop_spec fuel : forall d j i o,
  base d -> es !! i = Some o -> (j <= i)%nat -> saved_key_ d = op_key o -> at_index (iter_ d) (Some j) ->
  (forall k b, es !! k = Some b -> (j <= k < i)%nat -> ~ Compare (op_key b) (op_key o) < 0) -> (j < fuel)%nat ->
  exists d' found, prev_key_loop fuel d = Ret (d', found) /\ base d' /\
    if found then exists k b, at_index (iter_ d') (Some k) /\ es !! k = Some b /\ (k < i)%nat /\
        (forall k' b', es !! k' = Some b' -> (k < k' < i)%nat -> ~ Compare (op_key b') (op_key o) < 0)
    else valid_ d' = false /\ (exists q, at_index (iter_ d') q) /\
      (forall k b, es !! k = Some b -> (k < i)%nat -> ~ Compare (op_key b) (op_key o) < 0).
Proof.
  induction fuel as [|fuel IH]; intros d j i o Hb Hi Hji Hsk Hat Hno Hf; [lia|]. cbn [prev_key_loop].
  destruct (iter_prev_cases _ j Hat) as (it & -> & Hit). cbn [obind].
  destruct j as [|j]; destruct Hit as [-> Hat']; cbn [negb].
  - eexists _, false. split; [reflexivity|]. split; [done|]. split; [done|]. split; [by exists None|].
    intros k b Hk Hlt. apply (Hno k b Hk). lia.
  - destruct (at_some _ _ Hat') as [b Hj]. destruct (entry_at _ j b Hat' Hj) as (-> & _ & _). cbn [obind].
    unfold op_ikey. rewrite ExtractUserKey_encode. simpl saved_key_. rewrite Hsk.
    destruct (Z.ltb_spec (Compare (op_key b) (op_key o)) 0) as [Hlt|Hge].
    + eexists _, true. split; [reflexivity|]. split; [done|]. exists j, b. split; [done|]. split; [done|].
      split; [lia|]. intros k' b' Hk' Hr. apply (Hno k' b' Hk'). lia.
    + apply (IH (set_iter d it) j i o); try done; [lia| |lia]. intros k c Hk Hr.
      destruct (decide (k = j)) as [->|Hne]; [|apply (Hno k c Hk); lia].
      rewrite Hj in Hk. injection Hk as <-. lia.
Qed.

(** Before a live entry, the entries of its key are not visible. *)
Lemma before_live i o k b :
  es !! i = Some o -> live o -> es !! k = Some b -> (k < i)%nat ->
  ~ Compare (op_key b) (op_key o) < 0 -> ~ op_seq b <= s.
Proof.
  intros Hi Hl Hk Hlt Hn Hv. pose proof (es_order_le k i b o Hk Hi ltac:(lia)).
  apply (older_not_live k i b o Hk Hi Hlt Hv); [lia|done].
Qed.

Lemma db_Prev_spec fuel d n :
  Rel d (Some n) -> (length es < fuel)%nat ->
  exists d', db_Prev fuel d = Ret d' /\ Rel d' (last_index n).
Proof.
  intros (Hb & _ & Hv & i & o & Hi & Hl & <- & Hdir) Hf. unfold db_Prev. rewrite Hv. cbn [obind oassert].
  apply lookup_lt_Some in Hi as Hlen. destruct (direction_ d) eqn:Ed.
  - destruct (entry_at _ i o Hdir Hi) as (-> & _ & ->). cbn [obind oassert]. unfold op_ikey. rewrite ExtractUserKey_encode.
    destruct (prev_key_loop_spec fuel (SaveKey d (op_key o)) i i o) as (d' & found & -> & Hb' & Hres); try done; [intros; lia|lia|].
    cbn [obind]. destruct found.
    + destruct Hres as (k & b & Hat & Hk & Hki & Hno).
      apply (FindPrevUserEntry_spec fuel (set_direction d' kReverse) (Some k)); try done.
      apply (rank_none (S k) i); [lia|]. intros x c Hx Hr Hlc.
      apply (before_live i o x c Hi Hl Hx); [lia|apply (Hno x c Hx); lia|apply Hlc].
    + destruct Hres as (Hv' & Hat & Hno). eexists. split; [reflexivity|].
      assert (rank i = 0%nat) as ->.
      { rewrite (rank_none 0 i); [done|lia|]. intros x c Hx Hr Hlc.
        apply (before_live i o x c Hi Hl Hx); [lia|apply (Hno x c Hx); lia|apply Hlc]. }
      split; [done|]. by split.
  - destruct Hdir as (_ & _ & q & Hq & Hb1 & Hb2).
    apply (FindPrevUserEntry_spec fuel d q); try done.
    assert (forall x c, es !! x = Some c -> (x < i)%nat -> live c -> exists q', q = Some q' /\ (x <= q')%nat) as Hlow.
    { intros x c Hx Hlt Hlc. apply (Hb1 x c Hx); [apply Hlc|].
      destruct (Z.lt_ge_cases (Compare (op_key c) (op_key o)) 0) as [|Hge]; [done|]. exfalso.
      apply (before_live i o x c Hi Hl Hx Hlt); [lia|apply Hlc]. }
    destruct q as [q'|].
    + destruct (Hb2 q' eq_refl) as (b & Hqb & Hlt). apply (rank_none (S q') i).
      * destruct (decide (S q' <= i)%nat) as [|Hge]; [done|].
        pose proof (es_order_le i q' o b Hi Hqb ltac:(lia)). pose proof (compare_antisym (op_key b) (op_key o)). lia.
      * intros x c Hx Hr Hlc. destruct (Hlow x c Hx ltac:(lia) Hlc) as (q'' & [= <-] & ?). lia.
    + rewrite (rank_none 0 i); [done|lia|]. intros x c Hx Hr Hlc.
      by destruct (Hlow x c Hx ltac:(lia) Hlc) as (q'' & ? & _).
Qed.

(** ** Programs *)

Inductive db_op := DFirst | DLast | DSeek (target : bytes) | DNext | DPrev.

Definition db_run_op (fuel : nat) (d : DBIter) (op : db_op) : outcome DBIter :=
  match op with
  | DFirst => db_SeekToFirst fuel d
  | DLast => db_SeekToLast fuel d
  | DSeek target => db_Seek fuel d target
  | DNext => db_Next fuel d
  | DPrev => db_Prev fuel d
  end.

Fixpoint db_run (fuel : nat) (d : DBIter) (ops : list db_op) : outcome DBIter :=
  match ops with
  | [] => Ret d
  | op :: ops => let! d := db_run_op fuel d op in db_run fuel d ops
  end.

(** The same on the view; a move of an iterator that is not valid is an error. *)
Definition view_op (p : option nat) (op : db_op) : outcome (option nat) :=
  match op, p with
  | DFirst, _ => Ret (index_of (length view) 0)
  | DLast, _ => Ret (last_index (length view))
  | DSeek target, _ => Ret (index_of (length view) (length (filter (fun o => Compare (op_key o) target < 0) view)))
  | DNext, Some n => Ret (index_of (length view) (S n))
  | DPrev, Some n => Ret (last_index n)
  | _, None => AssertFailed
  end.

Fixpoint view_run (p : option nat) (ops : list db_op) : outcome (option nat) :=
  match ops with
  | [] => Ret p
  | op :: ops => let! p := view_op p op in view_run p ops
  end.

Definition op_seekable (op : db_op) : Prop :=
  match op with DSeek target => seekable (encode target s kValueTypeForSeek) | _ => True end.

Lemma db_run_spec fuel ops : forall d p,
  (length es < fuel)%nat -> Rel d p -> Forall op_seekable ops ->
  match view_run p ops with
  | Ret p' => exists d', db_run fuel d ops = Ret d' /\ Rel d' p'
  | AssertFailed => db_run fuel d ops = AssertFailed
  | OutOfFuel => False
  end.
Proof.
  intros d p Hf. revert d p. induction ops as [|op ops IH]; intros d p HR Hsk; cbn [view_run db_run].
  { by exists d. }
  apply Forall_cons in Hsk as [Hop Hsk].
  assert (match view_op p op with
    | Ret p' => exists d', db_run_op fuel d op = Ret d' /\ Rel d' p'
    | AssertFailed => db_run_op fuel d op = AssertFailed
    | OutOfFuel => False end) as Hstep.
  { destruct op; cbn [view_op db_run_op].
    - by eapply db_SeekToFirst_spec.
    - by eapply db_SeekToLast_spec.
    - by eapply db_Seek_spec.
    - destruct p as [n|]; [by apply db_Next_spec|]. destruct HR as (_ & _ & Hv). unfold db_Next. by rewrite Hv.
    - destruct p as [n|]; [by apply db_Prev_spec|]. destruct HR as (_ & _ & Hv). unfold db_Prev. by rewrite Hv. }
  destruct (view_op p op) as [p1| |]; cbn [obind].
  - destruct Hstep as (d1 & -> & HR1). cbn [obind]. by apply IH.
  - by rewrite Hstep.
  - done.
Qed.

Lemma Rel_observe d p :
  Rel d p -> db_status d = OK /\
  match p with
  | None => db_Valid d = false
  | Some n => db_Valid d = true /\ exists o, view !! n = Some o /\ db_key d = Ret (op_key o) /\ db_value d = Ret (op_value o)
  end.
Proof.
  intros ((Hsq & Hst & _) & (q & Hq) & Hp). split.
  { unfold db_status. rewrite Hst. cbn [ok]. by apply (at_valid _ _ Hq). }
  destruct p as [n|]; [|done]. destruct Hp as (Hv & j & o & Hj & Hl & <- & Hdir). split; [done|]. exists o.
  split; [by apply rank_lookup|]. unfold db_key, db_value. rewrite Hv. cbn [obind oassert].
  destruct (direction_ d).
  - destruct (entry_at _ j o Hdir Hj) as (-> & -> & _). cbn [obind]. unfold op_ikey. by rewrite ExtractUserKey_encode.
  - destruct Hdir as (-> & -> & _). done.
Qed.

Lemma new_DBIter_Rel it seed q : at_index it q -> Rel (new_DBIter it s seed) None.
Proof.
  intros Hq. unfold new_DBIter, RandomCompactionPeriod. pose proof (new_Random_range seed) as Hr.
  destruct (random_Next_mod _ Hr) as [_ Hr']. split; [|split; [by exists q|done]].
  split; [done|]. split; [done|]. split; [done|]. simpl.
  pose proof (Z.mod_pos_bound (random_Next (new_Random seed)) (2 * config.kReadBytesPeriod) ltac:(done)) as Hm.
  change (2 * config.kReadBytesPeriod) with 2097152 in *. lia.
Qed.

End Refinement.

End DBIter.
Arguments DBIter : clear implicits.

(** ** Lookups and scans agree *)

Lemma live_newest `{ComparatorLaws} (ops es : list entry_op) s o :
  increasing ops -> es ≡ₚ ops -> o ∈ ops ->
  live es s o <-> newest (op_key o) s ops = Some o /\ op_type o = kTypeValue.
Proof.
  intros Hinc Hp Ho. unfold live. rewrite (Forall_forall _ es). split.
  - intros (Hv & Ht & Hf). split; [|done]. destruct (newest (op_key o) s ops) as [w|] eqn:E.
    + apply newest_spec in E as (Hw & Hvw & Hmax); [|done]. f_equal.
      destruct (Hmax o Ho) as [Hlt|]; [split; [apply compare_refl|done]| |done]. exfalso.
      destruct Hvw as [Hkw Hsw]. pose proof (Hf w ltac:(by rewrite Hp) Hkw Hsw).
      pose proof (proj2 (tag_lt (op_seq o) (op_type o) (op_seq w) (op_type w)) (or_introl Hlt)). lia.
    + exfalso. apply (newest_None _ _ _ o E Ho). split; [apply compare_refl|done].
  - intros [E Ht]. apply newest_spec in E as (_ & [_ Hv] & Hmax); [|done]. split; [done|]. split; [done|].
    intros w Hw Hkw Hsw. rewrite Hp in Hw. destruct (Hmax w Hw) as [Hlt| ->]; [by split| |lia].
    pose proof (proj2 (tag_lt (op_seq w) (op_type w) (op_seq o) (op_type o)) (or_introl Hlt)). lia.
Qed.

(** What a run from a new iterator over an internal cursor shows. *)
Lemma db_run_observed `{laws : ComparatorLaws} {I} `{Iterator I} (es : list entry_op) (Hok : Forall op_ok es) (Hsorted : StronglySorted op_lt es)
    `{ilaws : !IteratorLaws I internal_compare (shown_entries es)} (s : Z) (Hs : in_range s) (seed : Z) (it : I) (q : option nat)
    (fuel : nat) (ops : list db_op) :
  at_index it q -> (length es < fuel)%nat -> Forall (op_seekable es s) ops ->
  match view_run es s None ops with
  | Ret p => exists d, db_run fuel (new_DBIter it s seed) ops = Ret d /\ db_status d = OK /\
      match p with
      | None => db_Valid d = false
      | Some n => db_Valid d = true /\
          exists o, view es s !! n = Some o /\ db_key d = Ret (op_key o) /\ db_value d = Ret (op_value o)
      end
  | AssertFailed => db_run fuel (new_DBIter it s seed) ops = AssertFailed
  | OutOfFuel => False
  end.
Proof.
  intros Hq Hf Hsk. pose proof (db_run_spec es Hok Hsorted s Hs fuel ops (new_DBIter it s seed) None Hf
                (new_DBIter_Rel es s it seed q Hq) Hsk) as Hrun.
  destruct (view_run es s None ops) as [p| |]; [|done|done].
  destruct Hrun as (d & Heq & HR). exists d. split; [done|]. by apply (Rel_observe es s).
Qed.

(** ** The properties *)

(** C17: The database iterator refines a cursor over the view of a snapshot: over any
    internal iterator that is a cursor over sorted entries, every sequence of SeekToFirst,
    SeekToLast, Seek, Next and Prev, with any changes of direction, shows what it shows on
    the list of the newest visible version of each key that is not a deletion. Every loop
    ends, no assertion fails but the one against moving an iterator that is not valid, and
    the status stays OK. *)
Theorem db_iterator_refines `{laws : ComparatorLaws} {I} `{Iterator I} (es : list entry_op)
    `{ilaws : !IteratorLaws I internal_compare (shown_entries es)} (s seed : Z) (it : I) (q : option nat)
    (fuel : nat) (ops : list db_op) :
  Forall op_ok es -> StronglySorted op_lt es -> in_range s -> at_index it q ->
  (length es < fuel)%nat -> Forall (op_seekable es s) ops ->
  match view_run es s None ops with
  | Ret p => exists d, db_run fuel (new_DBIter it s seed) ops = Ret d /\ db_status d = OK /\
      match p with
      | None => db_Valid d = false
      | Some n => db_Valid d = true /\
          exists o, view es s !! n = Some o /\ db_key d = Ret (op_key o) /\ db_value d = Ret (op_value o)
      end
  | AssertFailed => db_run fuel (new_DBIter it s seed) ops = AssertFailed
  | OutOfFuel => False
  end.
Proof. intros Hok Hsorted Hs Hq Hf Hsk. by apply (db_run_observed es Hok Hsorted s Hs seed it q). Qed.

#[local] Existing Instances BytewiseComparator BytewiseComparator_laws.

Lemma db_iterator_refines_witness :
  exists (m : MemTable) (es : list entry_op) d,
    adds new_MemTable [mkOp 1 kTypeValue [x61] [x31]; mkOp 2 kTypeDeletion [x61] []] = Ret m /\
    db_run 3 (new_DBIter (new_MemTableIterator m) 1 0) [DFirst] = Ret d /\ db_status d = OK.
Proof.
  set (ops := [mkOp 1 kTypeValue [x61] [x31]; mkOp 2 kTypeDeletion [x61] []]).
  destruct (adds_spec ops new_MemTable [] MRepr_new) as (m & Hm & Hr).
  - repeat constructor; vm_compute; congruence.
  - repeat constructor.
  - intros o o' Ho. by apply elem_of_nil in Ho.
  - destruct (MRepr_sequence m _ Hr) as (ids & es & Hseq & Hp). pose proof Hseq as (Hok & Hso & _).
    pose proof (MemTable_IteratorLaws m ids es Hseq) as il.
    pose proof (db_iterator_refines es (ilaws := MemTable_IteratorLaws m ids es Hseq) 1 0
      (new_MemTableIterator m) None 3 [DFirst] Hok Hso) as Hthm.
    destruct Hthm as (d & Hd & Hst & _).
    + split; vm_compute; congruence.
    + split; [reflexivity|]. split; [reflexivity|]. intros j [=].
    + rewrite (Permutation_length Hp). simpl. lia.
    + repeat constructor.
    + exists m, es, d. split; [exact Hm|]. split; [exact Hd|exact Hst].
Defined.

(** Scanning a memtable agrees with looking keys up. After additions with increasing
    sequence numbers, the database iterator over the memtable's iterator at a sequence
    number shows exactly the additions that a lookup of their key at that number returns as
    values, each once, in the order of the keys, in either direction and from any seek. *)
Theorem memtable_scan `{laws : ComparatorLaws} (ops : list entry_op) (s seed : Z) :
  Forall op_ok ops -> increasing ops -> in_range s ->
  exists m es, adds new_MemTable ops = Ret m /\ es ≡ₚ ops /\ StronglySorted op_lt es /\
    (forall o, o ∈ view es s <-> o ∈ ops /\ newest (op_key o) s ops = Some o /\ op_type o = kTypeValue) /\
    forall fuel dops, (length ops < fuel)%nat -> (forall target, DSeek target ∈ dops -> zlen target + 8 < 2 ^ 32) ->
      match view_run es s None dops with
      | Ret p => exists d, db_run fuel (new_DBIter (new_MemTableIterator m) s seed) dops = Ret d /\ db_status d = OK /\
          match p with
          | None => db_Valid d = false
          | Some n => db_Valid d = true /\
              exists o, view es s !! n = Some o /\ db_key d = Ret (op_key o) /\ db_value d = Ret (op_value o)
          end
      | AssertFailed => db_run fuel (new_DBIter (new_MemTableIterator m) s seed) dops = AssertFailed
      | OutOfFuel => False
      end.
Proof.
  intros Hok Hinc Hs.
  destruct (adds_spec ops new_MemTable [] MRepr_new Hok Hinc) as (m & Hm & Hr); [by intros o o' Ho%elem_of_nil|].
  destruct (MRepr_sequence m ops Hr) as (ids & es & Hseq & Hp). pose proof Hseq as (Hoke & Hso & _).
  exists m, es. split; [done|]. split; [done|]. split; [done|]. split.
  - intros o. unfold view. rewrite list_elem_of_filter.
    assert (o ∈ es <-> o ∈ ops) as -> by (by rewrite Hp). split.
    + intros [Hl Ho]. split; [done|]. by apply (live_newest ops es s o).
    + intros [Ho Hn]. split; [|done]. by apply (live_newest ops es s o).
  - intros fuel dops Hf Hsk.
    pose (il := MemTable_IteratorLaws m ids es Hseq).
    assert (at_index (IteratorLaws := il) (new_MemTableIterator m) None) as Hq by (by split).
    apply (db_run_observed es Hoke Hso (ilaws := il) s Hs seed (new_MemTableIterator m) None fuel dops Hq); [by rewrite (Permutation_length Hp)|].
    apply Forall_forall. intros [| |target| |] Hin; simpl; try done. rewrite zlen_encode. by apply Hsk.
Qed.

Lemma memtable_scan_witness :
  exists m es, adds new_MemTable [mkOp 1 kTypeValue [x61] [x31]; mkOp 2 kTypeValue [x62] [x32]] = Ret m /\
    es ≡ₚ [mkOp 1 kTypeValue [x61] [x31]; mkOp 2 kTypeValue [x62] [x32]].
Proof.
  destruct (memtable_scan [mkOp 1 kTypeValue [x61] [x31]; mkOp 2 kTypeValue [x62] [x32]] 2 0) as (m & es & Hm & Hp & _).
  - repeat constructor; vm_compute; congruence.
  - repeat constructor.
  - split; vm_compute; congruence.
  - exists m, es. split; [exact Hm|exact Hp].
Defined.
