(* ===== verification/Version.v ===== *)
(** * Versions: the files of each level and the searches on them

    [version_set.c] and [version_set.h], the class [Version] and the functions on lists of
    files: which file of a level can hold a key, which files overlap a range, the level a new
    table goes to, the read of a key through all levels and the statistics it keeps. *)

From stdpp Require Import gmap sorting.
From Stdlib Require Import SpecFloat.
From S2P Require Import Prelude Coding Env Comparator DbFormat VersionEdit SkipList MemTable Iterator.

Open Scope outcome_scope.

(** ** Data *)

(** A [FileMetaData*]: the address of the object and those of its fields that never change
    once it is created. Several versions share the object; the two fields that do change,
    [refs] and [allowed_seeks], are kept by address in a store. *)
Record FilePtr := mkFilePtr {
  f_addr : nat;
  f_number : Z;
  f_file_size : Z;
  f_smallest : InternalKey;
  f_largest : InternalKey;
}.

#[global] Instance FilePtr_eq_dec : EqDecision FilePtr.
Proof. solve_decision. Defined.

Record FileState := mkFileState { fs_refs : Z; fs_allowed_seeks : Z }.

(** An address that is not in the store is not allocated (any more). *)
Abbreviation FileStore := (gmap nat FileState).

Definition file_state (st : FileStore) (f : FilePtr) : outcome FileState :=
  match st !! f_addr f with Some s => Ret s | None => AssertFailed end.

(** The fields of [Version]; its links in the list of versions are in the version set. *)
Record Version := mkVersion {
  v_refs : Z;
  files_ : list (list FilePtr);
  file_to_compact_ : option FilePtr;
  file_to_compact_level_ : Z;
  compaction_score_ : spec_float;
  compaction_level_ : Z;
}.

Definition v_files (v : Version) (level : Z) : outcome (list FilePtr) := vec_at (files_ v) level.

(** The fields of [Options] that versions use. *)
Record Options := mkOptions {
  max_file_size : Z;
  reuse_logs : bool;
  paranoid_checks : bool;
}.

Record ReadOptions := mkReadOptions { verify_checksums : bool; fill_cache : bool }.

(** ** Sizes *)

Definition TargetFileSize (options : Options) : Z := max_file_size options.

Definition MaxGrandParentOverlapBytes (options : Options) : Z := i64 (u64 (10 * TargetFileSize options)).

Definition ExpandedCompactionByteSizeLimit (options : Options) : Z := i64 (u64 (25 * TargetFileSize options)).

Definition MaxFileSizeForLevel (options : Options) (level : Z) : Z := TargetFileSize options.

Fixpoint TotalFileSize_loop (sum : Z) (files : list FilePtr) : Z :=
  match files with
  | [] => sum
  | f :: files => TotalFileSize_loop (i64 (sum + f_file_size f)) files
  end.

Definition TotalFileSize (files : list FilePtr) : Z := TotalFileSize_loop 0 files.

(** ** Searches in one level *)

Section Searches.
Context `{user_comparator : Comparator}.

(** [InternalKeyComparator::Compare] on two [InternalKey]s. *)
Definition icmp (a b : InternalKey) : outcome Z :=
  let! a := Encode a in let! b := Encode b in Ret (internal_compare a b).

Fixpoint FindFile_loop (fuel : nat) (files : list FilePtr) (key : bytes) (left right : Z) : outcome Z :=
  match fuel with
  | O => OutOfFuel
  | S fuel =>
      if left <? right then
        let mid := u32 (left + right) / 2 in
        let! f := vec_at files mid in
        let! large := Encode (f_largest f) in
        if internal_compare large key <? 0 then FindFile_loop fuel files key (u32 (mid + 1)) right
        else FindFile_loop fuel files key left mid
      else Ret right
  end.

(** Every round shortens the interval. *)
Definition FindFile (files : list FilePtr) (key : bytes) : outcome Z :=
  FindFile_loop (S (length files)) files key 0 (u32 (zlen files)).

(** A null [user_key] is [None]. *)
Definition AfterFile (key : option bytes) (f : FilePtr) : outcome bool :=
  match key with
  | None => Ret false
  | Some k => let! large := user_key (f_largest f) in Ret (0 <? Compare k large)
  end.

Definition BeforeFile (key : option bytes) (f : FilePtr) : outcome bool :=
  match key with
  | None => Ret false
  | Some k => let! small := user_key (f_smallest f) in Ret (Compare k small <? 0)
  end.

(** The loop over all files, for files that may overlap each other. *)
Fixpoint some_file_overlaps (files : list FilePtr) (smallest_user_key largest_user_key : option bytes) : outcome bool :=
  match files with
  | [] => Ret false
  | f :: files =>
      let! after := AfterFile smallest_user_key f in
      let! skip := if after then Ret true else BeforeFile largest_user_key f in
      if skip then some_file_overlaps files smallest_user_key largest_user_key else Ret true
  end.

Definition SomeFileOverlapsRange (disjoint_sorted_files : bool) (files : list FilePtr)
    (smallest_user_key largest_user_key : option bytes) : outcome bool :=
  if negb disjoint_sorted_files then some_file_overlaps files smallest_user_key largest_user_key
  else
    let! index :=
      match smallest_user_key with
      | Some k =>
          let! small_key := new_InternalKey k kMaxSequenceNumber kValueTypeForSeek in
          let! small := Encode small_key in
          FindFile files small
      | None => Ret 0
      end in
    if zlen files <=? u32 index then Ret false
    else
      let! f := vec_at files (u32 index) in
      let! before := BeforeFile largest_user_key f in
      Ret (negb before).

Definition OverlapInLevel (v : Version) (level : Z) (smallest_user_key largest_user_key : option bytes) : outcome bool :=
  let! files := v_files v level in
  SomeFileOverlapsRange (0 <? level) files smallest_user_key largest_user_key.

(** The user key of an optional bound. *)
Definition user_bound (k : option InternalKey) : outcome (option bytes) :=
  match k with
  | None => Ret None
  | Some k => let! u := user_key k in Ret (Some u)
  end.

(** [begin != nullptr && Compare(k, user_begin) < 0]. *)
Definition below (k : bytes) (bound : option bytes) : bool :=
  match bound with Some b => Compare k b <? 0 | None => false end.

Definition above (k : bytes) (bound : option bytes) : bool :=
  match bound with Some b => 0 <? Compare k b | None => false end.

(** The loop of [GetOverlappingInputs]: [rest] are the files from index [i] on, [inputs] those
    chosen since the last restart. *)
Fixpoint overlapping_loop (fuel : nat) (level : Z) (files rest : list FilePtr) (user_begin user_end : option bytes)
    (inputs : list FilePtr) : outcome (list FilePtr) :=
  match fuel with
  | O => OutOfFuel
  | S fuel =>
      match rest with
      | [] => Ret inputs
      | f :: rest =>
          let! file_start := user_key (f_smallest f) in
          let! file_limit := user_key (f_largest f) in
          if below file_limit user_begin then overlapping_loop fuel level files rest user_begin user_end inputs
          else if above file_start user_end then overlapping_loop fuel level files rest user_begin user_end inputs
          else if level =? 0 then
            if below file_start user_begin then overlapping_loop fuel level files files (Some file_start) user_end []
            else if above file_limit user_end then overlapping_loop fuel level files files user_begin (Some file_limit) []
            else overlapping_loop fuel level files rest user_begin user_end (inputs ++ [f])
          else overlapping_loop fuel level files rest user_begin user_end (inputs ++ [f])
      end
  end.

(** A restart moves one of the two bounds past one of the files' keys, which can happen twice
    for every file; between two restarts every file is looked at once. *)
Definition overlap_fuel (n : nat) : nat := S (S (2 * n) * S n).

Definition GetOverlappingInputs (v : Version) (level : Z) (begin limit : option InternalKey) : outcome (list FilePtr) :=
  assert! 0 <=? level;
  assert! level <? config.kNumLevels;
  let! user_begin := user_bound begin in
  let! user_end := user_bound limit in
  let! files := v_files v level in
  overlapping_loop (overlap_fuel (length files)) level files files user_begin user_end [].

(** The level of a new table is raised while it overlaps nothing below and not too much in
    the level after. *)
Fixpoint pick_level (n : nat) (options : Options) (v : Version) (small large : bytes)
    (start limit : InternalKey) (level : Z) : outcome Z :=
  match n with
  | O => Ret level
  | S n =>
      if level <? config.kMaxMemCompactLevel then
        let! overlap := OverlapInLevel v (level + 1) (Some small) (Some large) in
        if (overlap : bool) then Ret level
        else
          let! stop :=
            if level + 2 <? config.kNumLevels then
              let! overlaps := GetOverlappingInputs v (level + 2) (Some start) (Some limit) in
              Ret (MaxGrandParentOverlapBytes options <? TotalFileSize overlaps)
            else Ret false in
          if (stop : bool) then Ret level else pick_level n options v small large start limit (level + 1)
      else Ret level
  end.

Definition PickLevelForMemTableOutput (options : Options) (v : Version) (small large : bytes) : outcome Z :=
  let! overlap := OverlapInLevel v 0 (Some small) (Some large) in
  if negb overlap then
    let! start := new_InternalKey small kMaxSequenceNumber kValueTypeForSeek in
    let! limit := new_InternalKey large 0 kTypeDeletion in
    pick_level (Z.to_nat config.kMaxMemCompactLevel) options v small large start limit 0
  else Ret 0.

(** ** The iterator over the files of a level *)

Record LevelFileNumIterator := mkLevelIter { flist_ : list FilePtr; index_ : Z }.

Definition new_LevelFileNumIterator (flist : list FilePtr) : LevelFileNumIterator :=
  mkLevelIter flist (u32 (zlen flist)).

Definition lf_at (it : LevelFileNumIterator) (index : Z) : LevelFileNumIterator := mkLevelIter (flist_ it) (u32 index).

Definition lf_Valid (it : LevelFileNumIterator) : bool := index_ it <? zlen (flist_ it).

Definition lf_Seek (it : LevelFileNumIterator) (target : bytes) : outcome LevelFileNumIterator :=
  let! index := FindFile (flist_ it) target in Ret (lf_at it index).

Definition lf_SeekToFirst (it : LevelFileNumIterator) : LevelFileNumIterator := lf_at it 0.

Definition lf_SeekToLast (it : LevelFileNumIterator) : LevelFileNumIterator :=
  lf_at it (if zlen (flist_ it) =? 0 then 0 else zlen (flist_ it) - 1).

Definition lf_Next (it : LevelFileNumIterator) : outcome LevelFileNumIterator :=
  assert! lf_Valid it; Ret (lf_at it (index_ it + 1)).

Definition lf_Prev (it : LevelFileNumIterator) : outcome LevelFileNumIterator :=
  assert! lf_Valid it;
  if index_ it =? 0 then Ret (lf_at it (zlen (flist_ it))) else Ret (lf_at it (index_ it - 1)).

Definition lf_key (it : LevelFileNumIterator) : outcome bytes :=
  assert! lf_Valid it;
  let! f := vec_at (flist_ it) (index_ it) in Encode (f_largest f).

(** The sixteen bytes of [value_buf_]. *)
Definition file_value (f : FilePtr) : bytes := EncodeFixed64 (f_number f) ++ EncodeFixed64 (f_file_size f).

Definition lf_value (it : LevelFileNumIterator) : outcome bytes :=
  assert! lf_Valid it;
  let! f := vec_at (flist_ it) (index_ it) in Ret (file_value f).

#[global] Instance LevelFile_Iterator : Iterator LevelFileNumIterator := {
  it_Valid := lf_Valid;
  it_key := lf_key;
  it_value := lf_value;
  it_Next := lf_Next;
  it_Prev := lf_Prev;
  it_Seek := lf_Seek;
  it_SeekToFirst it := Ret (lf_SeekToFirst it);
  it_SeekToLast it := Ret (lf_SeekToLast it);
  it_status _ := OK;
}.

End Searches.

(** ** Well-formed files *)

Section Order.
Context `{laws : ComparatorLaws}.

Definition ukey (k : InternalKey) : bytes := ExtractUserKey (rep_ k).

Definition ikey_wf (k : InternalKey) : Prop := is_Some (ParseInternalKey (rep_ k)).

Definition ic (a b : InternalKey) : Z := internal_compare (rep_ a) (rep_ b).

(** The keys of a file parse and its range is not empty. *)
Definition file_wf (f : FilePtr) : Prop :=
  ikey_wf (f_smallest f) /\ ikey_wf (f_largest f) /\ ic (f_smallest f) (f_largest f) <= 0.

(** The files of a level other than 0: each ends before the next one starts. *)
Definition disjoint_sorted (files : list FilePtr) : Prop :=
  StronglySorted (fun f g => ic (f_largest f) (f_smallest g) < 0) files.

Lemma ikey_wf_len k : ikey_wf k -> 8 <= zlen (rep_ k).
Proof. intros [p Hp]. unfold ParseInternalKey in Hp. destruct (Z.ltb_spec (zlen (rep_ k)) 8); [done|lia]. Qed.

Lemma ikey_wf_tag k : ikey_wf k -> ExtractTag (rep_ k) <= tag kMaxSequenceNumber kValueTypeForSeek.
Proof.
  intros [p Hp]. apply ParseInternalKey_inv in Hp as [Hr ->]. rewrite ExtractTag_encode by done.
  unfold tag, in_range in *. destruct (pk_type p); simpl; lia.
Qed.

Lemma ikey_wf_encode u s t : in_range s -> ikey_wf (mkInternalKey (encode u s t)).
Proof. intros Hs. unfold ikey_wf. simpl. rewrite ParseInternalKey_encode by done. eauto. Qed.

Lemma Encode_wf k : ikey_wf k -> Encode k = Ret (rep_ k).
Proof. intros Hk%ikey_wf_len. unfold Encode. destruct (Z.eqb_spec (zlen (rep_ k)) 0); [lia|done]. Qed.

Lemma user_key_wf k : ikey_wf k -> user_key k = Ret (ukey k).
Proof. intros Hk%ikey_wf_len. unfold user_key, internal_key. destruct (Z.leb_spec 8 (zlen (rep_ k))); [done|lia]. Qed.

Lemma icmp_wf a b : ikey_wf a -> ikey_wf b -> icmp a b = Ret (ic a b).
Proof. intros Ha Hb. unfold icmp. by rewrite !Encode_wf. Qed.

Lemma ic_refl a : ic a a = 0.
Proof. unfold ic. pose proof (internal_antisym (rep_ a) (rep_ a)). lia. Qed.

Lemma ic_antisym a b : ic a b < 0 <-> 0 < ic b a.
Proof. apply internal_antisym. Qed.

Lemma internal_lt_le a b c : internal_compare a b < 0 -> internal_compare b c <= 0 -> internal_compare a c < 0.
Proof.
  intros Hab Hbc. destruct (Z.lt_ge_cases (internal_compare a c) 0) as [|Hac]; [done|].
  pose proof (internal_antisym a c). pose proof (internal_antisym c a). pose proof (internal_antisym a b).
  assert (internal_compare c a <= 0) as Hca by lia. pose proof (internal_trans _ _ _ Hbc Hca). lia.
Qed.

Lemma internal_le_lt a b c : internal_compare a b <= 0 -> internal_compare b c < 0 -> internal_compare a c < 0.
Proof.
  intros Hab Hbc. destruct (Z.lt_ge_cases (internal_compare a c) 0) as [|Hac]; [done|].
  pose proof (internal_antisym a c). pose proof (internal_antisym c a). pose proof (internal_antisym b c).
  assert (internal_compare c a <= 0) as Hca by lia. pose proof (internal_trans _ _ _ Hca Hab). lia.
Qed.

(** The order of internal keys respects the order of user keys. *)
Lemma ic_ukey a b : ic a b <= 0 -> Compare (ukey a) (ukey b) <= 0.
Proof.
  unfold ic, ukey. intros Hab. pose proof (proj2 (internal_compare_cases (rep_ a) (rep_ b))).
  destruct (Z.le_gt_cases (Compare (ExtractUserKey (rep_ a)) (ExtractUserKey (rep_ b))) 0); [done|lia].
Qed.

Lemma ukey_ic a b : Compare (ukey a) (ukey b) < 0 -> ic a b < 0.
Proof. unfold ic, ukey. intros Hab. by apply internal_compare_cases; left. Qed.

Lemma file_wf_ukey f : file_wf f -> Compare (ukey (f_smallest f)) (ukey (f_largest f)) <= 0.
Proof. intros (_ & _ & Hle). by apply ic_ukey. Qed.

(** *** The binary search *)

Definition files_before (key : bytes) (files : list FilePtr) : list FilePtr :=
  filter (fun f => internal_compare (rep_ (f_largest f)) key < 0) files.

Lemma disjoint_before key files :
  Forall file_wf files -> disjoint_sorted files ->
  StronglySorted (fun f g => internal_compare (rep_ (f_largest g)) key < 0 -> internal_compare (rep_ (f_largest f)) key < 0) files.
Proof.
  intros Hwf Hs. revert Hwf. induction Hs as [|f files Hs IH Hf]; intros Hwf; [constructor|].
  apply Forall_cons in Hwf as [Hwf Hwfs]. constructor; [auto|]. rewrite Forall_forall in *. intros g Hg Hlt.
  specialize (Hf g Hg). destruct (Hwfs g Hg) as (_ & _ & Hgw).
  apply (internal_lt_le _ (rep_ (f_largest g))); [|lia]. by apply (internal_lt_le _ (rep_ (f_smallest g))).
Qed.

Lemma FindFile_loop_spec files key fuel (left right : nat) :
  Forall file_wf files -> disjoint_sorted files -> zlen files < 2 ^ 31 ->
  (left <= length (files_before key files) <= right)%nat -> (right <= length files)%nat -> (right - left < fuel)%nat ->
  FindFile_loop fuel files key (Z.of_nat left) (Z.of_nat right) = Ret (Z.of_nat (length (files_before key files))).
Proof.
  intros Hwf Hs Hlen. revert left right. induction fuel as [|fuel IH]; intros left right Hn Hr Hf; [lia|].
  cbn [FindFile_loop]. unfold zlen in Hlen. destruct (Z.ltb_spec (Z.of_nat left) (Z.of_nat right)) as [Hlt|Hge].
  2:{ do 2 f_equal. lia. }
  rewrite u32_small by lia. set (mid := Z.to_nat ((Z.of_nat left + Z.of_nat right) / 2)).
  assert ((Z.of_nat left + Z.of_nat right) / 2 = Z.of_nat mid) as -> by (subst mid; zdiv_lia).
  assert (left <= mid < right)%nat as Hmid by (subst mid; zdiv_lia).
  destruct (lookup_lt_is_Some_2 files mid) as [f Hfm]; [lia|]. rewrite (vec_at_lookup _ _ _ Hfm). cbn [obind].
  pose proof (Forall_lookup_1 _ _ _ _ Hwf Hfm) as (_ & Hlw & _). rewrite Encode_wf by done. cbn [obind].
  pose proof (filter_prefix_lookup _ _ _ _ (disjoint_before key files Hwf Hs) Hfm) as Hiff. fold (files_before key files) in Hiff.
  destruct (Z.ltb_spec (internal_compare (rep_ (f_largest f)) key) 0) as [Hc|Hc].
  - rewrite u32_small by lia. replace (Z.of_nat mid + 1) with (Z.of_nat (S mid)) by lia. apply IH; try lia.
  - apply IH; lia.
Qed.

(** [FindFile] counts the files that end before the key. *)
Lemma FindFile_spec files key :
  Forall file_wf files -> disjoint_sorted files -> zlen files < 2 ^ 31 ->
  FindFile files key = Ret (Z.of_nat (length (files_before key files))).
Proof.
  intros Hwf Hs Hlen. unfold FindFile. pose proof (zlen_nonneg files). rewrite u32_small by lia.
  pose proof (length_filter (fun f => internal_compare (rep_ (f_largest f)) key < 0) files).
  apply (FindFile_loop_spec files key _ 0 (length files)); try done; try lia. unfold files_before. lia.
Qed.

(** *** Overlap with a range of user keys *)

(** A bound that is [None] is no bound. *)
Definition overlaps (lo hi : option bytes) (f : FilePtr) : Prop :=
  (forall k, lo = Some k -> Compare k (ukey (f_largest f)) <= 0) /\
  (forall k, hi = Some k -> Compare (ukey (f_smallest f)) k <= 0).

Definition overlapsb (lo hi : option bytes) (f : FilePtr) : bool :=
  negb (below (ukey (f_largest f)) lo) && negb (above (ukey (f_smallest f)) hi).

Lemma overlapsb_spec lo hi f : overlapsb lo hi f = true <-> overlaps lo hi f.
Proof.
  unfold overlapsb, overlaps, below, above. rewrite andb_true_iff, !negb_true_iff.
  apply Morphisms_Prop.and_iff_morphism.
  - destruct lo as [l|]; [|naive_solver]. rewrite Z.ltb_ge. pose proof (compare_antisym (ukey (f_largest f)) l).
    split; [intros ? ? [= <-]; lia|]. intros Hk. specialize (Hk l eq_refl). lia.
  - destruct hi as [h|]; [|naive_solver]. rewrite Z.ltb_ge. split; [by intros ? ? [= <-]|]. auto.
Qed.

#[global] Instance overlaps_dec lo hi f : Decision (overlaps lo hi f).
Proof. refine (cast_if (decide (overlapsb lo hi f = true))); by rewrite <- overlapsb_spec. Defined.

Lemma AfterFile_spec lo f : file_wf f -> AfterFile lo f = Ret (below (ukey (f_largest f)) lo).
Proof.
  intros (_ & Hl & _). destruct lo as [k|]; [|done]. simpl. rewrite user_key_wf by done. simpl. f_equal.
  pose proof (compare_antisym (ukey (f_largest f)) k). lia.
Qed.

Lemma BeforeFile_spec hi f : file_wf f -> BeforeFile hi f = Ret (above (ukey (f_smallest f)) hi).
Proof.
  intros (Hs & _ & _). destruct hi as [k|]; [|done]. simpl. rewrite user_key_wf by done. simpl. f_equal.
  pose proof (compare_antisym k (ukey (f_smallest f))). lia.
Qed.

Lemma some_file_overlaps_spec files lo hi :
  Forall file_wf files -> some_file_overlaps files lo hi = Ret (bool_decide (Exists (overlaps lo hi) files)).
Proof.
  induction 1 as [|f files Hf Hfs IH]; [done|]. cbn [some_file_overlaps].
  rewrite AfterFile_spec, BeforeFile_spec, IH by done. cbn [obind].
  assert (overlapsb lo hi f = bool_decide (overlaps lo hi f)) as Ho.
  { apply eq_bool_prop_intro. rewrite bool_decide_spec, <- overlapsb_spec. by destruct (overlapsb lo hi f). }
  assert (bool_decide (Exists (overlaps lo hi) (f :: files)) =
          overlapsb lo hi f || bool_decide (Exists (overlaps lo hi) files)) as ->.
  { rewrite Ho. apply eq_bool_prop_intro. rewrite orb_True, !bool_decide_spec. apply Exists_cons. }
  unfold overlapsb. destruct (below _ lo), (above _ hi); done.
Qed.

Lemma before_max_tag files k :
  Forall file_wf files ->
  files_before (encode k kMaxSequenceNumber kValueTypeForSeek) files = filter (fun f => Compare (ukey (f_largest f)) k < 0) files.
Proof.
  intros Hwf. apply filter_ext_forall. eapply Forall_impl; [done|]. intros f (_ & Hl & _).
  apply ikey_wf_tag in Hl. rewrite (proj1 (internal_compare_cases _ _)), ExtractUserKey_encode, ExtractTag_encode by done.
  unfold ukey. lia.
Qed.

(** In a sorted level the smallest user keys do not decrease. *)
Lemma disjoint_smallest files i j f g :
  Forall file_wf files -> disjoint_sorted files -> files !! i = Some f -> files !! j = Some g -> (i <= j)%nat ->
  Compare (ukey (f_smallest f)) (ukey (f_smallest g)) <= 0.
Proof.
  intros Hwf Hs Hi Hj Hle. destruct (decide (i = j)) as [->|Hne]; [replace g with f by congruence; by rewrite compare_refl|].
  assert (ic (f_largest f) (f_smallest g) < 0) as Hlt.
  { clear Hwf. revert i j Hi Hj Hle Hne. induction Hs as [|h files Hs IH Hh]; intros i j Hi Hj Hle Hne; [done|].
    destruct j as [|j]; [lia|]. destruct i as [|i]; simpl in *; [|apply (IH i j); [done|done|lia|lia]].
    injection Hi as ->. rewrite Forall_forall in Hh. apply Hh. by eapply list_elem_of_lookup_2. }
  apply ic_ukey. destruct (Forall_lookup_1 _ _ _ _ Hwf Hi) as (_ & _ & Hf). unfold ic in *.
  pose proof (internal_le_lt _ _ _ Hf Hlt). lia.
Qed.

(** Only the file the binary search finds needs to be looked at. *)
Lemma first_overlap files lo hi n :
  Forall file_wf files -> disjoint_sorted files -> lo ≠ None \/ n = O ->
  (forall k, lo = Some k -> n = length (filter (fun f => Compare (ukey (f_largest f)) k < 0) files)) ->
  Exists (overlaps lo hi) files <->
  exists f, files !! n = Some f /\ above (ukey (f_smallest f)) hi = false.
Proof.
  intros Hwf Hs Hlo Hn.
  assert (forall i f, files !! i = Some f -> (forall k, lo = Some k -> Compare k (ukey (f_largest f)) <= 0) <-> (n <= i)%nat) as Hafter.
  { intros i f Hi. destruct lo as [k|]; [|destruct Hlo as [?| ->]; [done|split; [lia|done]]].
    assert (StronglySorted (fun f g => Compare (ukey (f_largest g)) k < 0 -> Compare (ukey (f_largest f)) k < 0) files) as Hmono.
    { pose proof (disjoint_before (encode k kMaxSequenceNumber kValueTypeForSeek) files Hwf Hs) as Hd.
      clear -Hd Hwf. induction Hd as [|h files Hd IH Hh]; [constructor|]. apply Forall_cons in Hwf as [Hh' Hwf].
      constructor; [auto|]. rewrite Forall_forall in *. intros g Hg Hlt. specialize (Hh g Hg).
      destruct Hh' as (_ & Hhl & _). apply ikey_wf_tag in Hhl.
      rewrite !(proj1 (internal_compare_cases _ _)), ExtractUserKey_encode, ExtractTag_encode in Hh by done.
      unfold ukey in *. lia. }
    pose proof (filter_prefix_lookup _ _ _ _ Hmono Hi) as Hiff. rewrite <- (Hn k eq_refl) in Hiff.
    pose proof (compare_antisym (ukey (f_largest f)) k).
    split; [intros Hk; specialize (Hk k eq_refl); lia|intros Hle ? [= <-]; lia]. }
  rewrite Exists_exists. split.
  - intros (g & Hg & Ha & Hb). apply list_elem_of_lookup in Hg as [j Hj]. apply (Hafter j g Hj) in Ha.
    assert (n < length files)%nat as Hnl by (apply lookup_lt_Some in Hj; lia).
    destruct (lookup_lt_is_Some_2 files n Hnl) as [f Hf]. exists f. split; [done|].
    destruct hi as [h|]; [|done]. simpl. apply Z.ltb_ge. specialize (Hb h eq_refl).
    eapply compare_trans; [|done]. by eapply disjoint_smallest.
  - intros (f & Hf & Hb). exists f. split; [by eapply list_elem_of_lookup_2|]. split; [by apply (Hafter n f Hf)|].
    destruct hi as [h|]; [|done]. simpl in Hb. apply Z.ltb_ge in Hb. by intros ? [= <-].
Qed.

Lemma SomeFileOverlapsRange_spec disjoint files lo hi :
  Forall file_wf files -> (disjoint = true -> disjoint_sorted files /\ zlen files < 2 ^ 31) ->
  SomeFileOverlapsRange disjoint files lo hi = Ret (bool_decide (Exists (overlaps lo hi) files)).
Proof.
  intros Hwf Hd. unfold SomeFileOverlapsRange. destruct disjoint; [|by apply some_file_overlaps_spec].
  destruct Hd as [Hs Hlen]; [done|]. cbn [negb].
  set (n := match lo with Some k => length (filter (fun f => Compare (ukey (f_largest f)) k < 0) files) | None => O end).
  assert (n <= length files)%nat as Hn by (subst n; destruct lo; [apply length_filter|lia]).
  assert ((match lo with
           | Some k => let! small_key := new_InternalKey k kMaxSequenceNumber kValueTypeForSeek in
                       let! small := Encode small_key in FindFile files small
           | None => Ret 0 end) = Ret (Z.of_nat n)) as ->.
  { subst n. destruct lo as [k|]; [|done]. unfold new_InternalKey. rewrite AppendInternalKey_spec by done. cbn [obind app].
    rewrite Encode_wf by (by apply ikey_wf_encode). cbn [obind]. rewrite FindFile_spec by done. cbn [rep_]. by rewrite before_max_tag. }
  cbn [obind]. unfold zlen in *. rewrite u32_small by lia.
  assert (lo ≠ None \/ n = O) as Hlo by (subst n; destruct lo; [by left|by right]).
  pose proof (first_overlap files lo hi n Hwf Hs Hlo) as Hiff. specialize (Hiff ltac:(by intros k ->)).
  destruct (Z.leb_spec (Z.of_nat (length files)) (Z.of_nat n)) as [Hge|Hlt].
  - rewrite bool_decide_eq_false_2; [done|]. rewrite Hiff. intros (f & Hf & _). apply lookup_lt_Some in Hf. lia.
  - destruct (lookup_lt_is_Some_2 files n) as [f Hf]; [lia|]. rewrite (vec_at_lookup _ _ _ Hf). cbn [obind].
    rewrite BeforeFile_spec by (by eapply Forall_lookup_1). cbn [obind]. f_equal.
    apply eq_bool_prop_intro. rewrite bool_decide_spec, Hiff. rewrite negb_True. split.
    + intros Hb. exists f. split; [done|]. by destruct (above _ hi).
    + intros (g & Hg & Hb). replace g with f in Hb by congruence. rewrite Hb. tauto.
Qed.

(** *** The files that overlap a range *)

(** Lower and upper bounds, [None] being no bound. *)
Definition lo_le (a b : option bytes) : Prop :=
  match a, b with Some x, Some y => Compare x y <= 0 | None, _ => True | Some _, None => False end.
Definition hi_le (a b : option bytes) : Prop :=
  match a, b with Some x, Some y => Compare x y <= 0 | _, None => True | None, Some _ => False end.

(** The range of a file lies between the bounds. *)
Definition inside (lo hi : option bytes) (f : FilePtr) : Prop :=
  lo_le lo (Some (ukey (f_smallest f))) /\ hi_le (Some (ukey (f_largest f))) hi.

(** A range no file sticks out of. *)
Definition closed_range (files : list FilePtr) (lo hi : option bytes) : Prop :=
  Forall (fun f => overlaps lo hi f -> inside lo hi f) files.

Lemma lo_le_refl b : lo_le b b.
Proof. destruct b; simpl; [by rewrite compare_refl|done]. Qed.

Lemma hi_le_refl b : hi_le b b.
Proof. destruct b; simpl; [by rewrite compare_refl|done]. Qed.

Lemma lo_le_trans a b c : lo_le a b -> lo_le b c -> lo_le a c.
Proof. destruct a, b, c; simpl; try done. apply compare_trans. Qed.

Lemma hi_le_trans a b c : hi_le a b -> hi_le b c -> hi_le a c.
Proof. destruct a, b, c; simpl; try done. apply compare_trans. Qed.

Lemma below_lo_le k b : below k b = false <-> lo_le b (Some k).
Proof.
  destruct b as [b|]; simpl; [|done]. rewrite Z.ltb_ge. pose proof (compare_antisym k b). lia.
Qed.

Lemma above_hi_le k b : above k b = false <-> hi_le (Some k) b.
Proof. destruct b as [b|]; simpl; [|done]. by rewrite Z.ltb_ge. Qed.

Lemma overlaps_widen lo hi lo' hi' f : lo_le lo' lo -> hi_le hi hi' -> overlaps lo hi f -> overlaps lo' hi' f.
Proof.
  intros Hlo Hhi [Ha Hb]. split; intros k ->.
  - destruct lo as [l|]; [|done]. eapply compare_trans; [apply Hlo|]. by apply Ha.
  - destruct hi as [h|]; [|done]. eapply compare_trans; [|apply Hhi]. by apply Hb.
Qed.

(** How many bounds of files lie outside of the range. *)
Definition outside (files : list FilePtr) (lo hi : option bytes) : nat :=
  length (filter (fun f => below (ukey (f_smallest f)) lo = true) files) +
  length (filter (fun f => above (ukey (f_largest f)) hi = true) files).

Lemma outside_lo files lo hi f :
  f ∈ files -> below (ukey (f_smallest f)) lo = true -> (outside files (Some (ukey (f_smallest f))) hi < outside files lo hi)%nat.
Proof.
  intros Hf Hb. unfold outside. apply Nat.add_lt_mono_r. apply (filter_length_lt _ _ _ f); [|done|done|].
  - intros g Hg. destruct lo as [l|]; [|done]. simpl in *. rewrite !Z.ltb_lt in *. eapply compare_lt_le; [done|lia].
  - simpl. rewrite compare_refl. done.
Qed.

Lemma outside_hi files lo hi f :
  f ∈ files -> above (ukey (f_largest f)) hi = true -> (outside files lo (Some (ukey (f_largest f))) < outside files lo hi)%nat.
Proof.
  intros Hf Hb. unfold outside. apply Nat.add_lt_mono_l. apply (filter_length_lt _ _ _ f); [|done|done|].
  - intros g Hg. destruct hi as [h|]; [|done]. simpl in *. rewrite !Z.ltb_lt in *.
    apply compare_antisym. apply compare_antisym in Hb, Hg. eapply compare_lt_le; [done|lia].
  - simpl. rewrite compare_refl. done.
Qed.

Lemma outside_bound files lo hi : (outside files lo hi <= 2 * length files)%nat.
Proof.
  unfold outside. pose proof (length_filter (fun f => below (ukey (f_smallest f)) lo = true) files).
  pose proof (length_filter (fun f => above (ukey (f_largest f)) hi = true) files). lia.
Qed.

(** Outside of level 0 one pass selects the files that overlap. *)
Lemma overlapping_loop_sorted level files rest lo hi inputs fuel :
  level ≠ 0 -> Forall file_wf rest -> (length rest < fuel)%nat ->
  overlapping_loop fuel level files rest lo hi inputs = Ret (inputs ++ filter (overlaps lo hi) rest).
Proof.
  intros Hl Hwf. revert fuel inputs. induction Hwf as [|f rest Hf Hwf IH]; intros fuel inputs Hfuel.
  all: destruct fuel as [|fuel]; [simpl in Hfuel; lia|]; cbn [overlapping_loop]; simpl in Hfuel.
  - by rewrite filter_nil, app_nil_r.
  - destruct Hf as (Hs & Hlg & _). rewrite !user_key_wf by done. cbn [obind].
    rewrite !IH by lia. rewrite filter_cons. destruct (Z.eqb_spec level 0); [done|].
    pose proof (overlapsb_spec lo hi f) as Ho. unfold overlapsb in Ho.
    destruct (below _ lo), (above _ hi); simpl in Ho; destruct (decide (overlaps lo hi f)) as [Hov|Hov];
      try done; try (by destruct Hov; apply Ho); try (by apply Ho in Hov). by rewrite <- app_assoc.
Qed.

(** In level 0 the range is widened until no file sticks out of it. *)
Lemma overlapping_loop_level0 files passed rest lo hi inputs fuel :
  files = passed ++ rest -> Forall file_wf files -> inputs = filter (overlaps lo hi) passed ->
  closed_range passed lo hi -> (outside files lo hi * S (length files) + length rest < fuel)%nat ->
  exists lo' hi', overlapping_loop fuel 0 files rest lo hi inputs = Ret (filter (overlaps lo' hi') files) /\
    closed_range files lo' hi' /\ lo_le lo' lo /\ hi_le hi hi' /\
    forall l h, closed_range files l h -> lo_le l lo -> hi_le hi h -> lo_le l lo' /\ hi_le hi' h.
Proof.
  intros Hfiles Hwf. revert passed rest lo hi inputs Hfiles.
  induction fuel as [|fuel IH]; intros passed rest lo hi inputs Hfiles -> Hcl Hfuel; [lia|]. cbn [overlapping_loop].
  destruct rest as [|f rest].
  { rewrite app_nil_r in Hfiles. subst passed. exists lo, hi. split; [done|]. split; [done|].
    split; [apply lo_le_refl|]. split; [apply hi_le_refl|done]. }
  assert (f ∈ files) as Hin by (rewrite Hfiles; set_solver).
  pose proof Hwf as Hwf'. rewrite Forall_forall in Hwf'. destruct (Hwf' f Hin) as (Hs & Hlg & Hle). rewrite !user_key_wf by done.
  cbn [obind]. assert (files = (passed ++ [f]) ++ rest) as Hfiles' by (by rewrite <- app_assoc).
  pose proof (overlapsb_spec lo hi f) as Ho. unfold overlapsb in Ho.
  assert (closed_range (passed ++ [f]) lo hi <-> (overlaps lo hi f -> inside lo hi f)) as Hcl'.
  { unfold closed_range in *. rewrite Forall_app, Forall_singleton. tauto. }
  simpl in Hfuel.
  destruct (below (ukey (f_largest f)) lo) eqn:E1.
  { apply (IH _ _ _ _ _ Hfiles').
    - rewrite filter_app, filter_cons_False, filter_nil, app_nil_r; [done|]. intros Hov. by apply Ho in Hov.
    - apply Hcl'. intros Hov. by apply Ho in Hov.
    - lia. }
  destruct (above (ukey (f_smallest f)) hi) eqn:E2.
  { apply (IH _ _ _ _ _ Hfiles').
    - rewrite filter_app, filter_cons_False, filter_nil, app_nil_r; [done|]. intros Hov. by apply Ho in Hov.
    - apply Hcl'. intros Hov. by apply Ho in Hov.
    - lia. }
  assert (overlaps lo hi f) as Hov by (by apply Ho). cbn [Z.eqb].
  destruct (below (ukey (f_smallest f)) lo) eqn:E3.
  { pose proof (outside_lo files lo hi f Hin E3) as Hm.
    destruct (IH [] files (Some (ukey (f_smallest f))) hi []) as (lo' & hi' & Hr & Hc & Hlo & Hhi & Hmin); try done; [constructor|nia|].
    exists lo', hi'. split; [done|]. split; [done|].
    assert (lo_le (Some (ukey (f_smallest f))) lo) as Hlo0.
    { destruct lo as [l|]; [|done]. simpl in *. lia. }
    split; [by eapply lo_le_trans|]. split; [done|]. intros l h Hclh Hll Hhh. apply Hmin; [done| |done].
    unfold closed_range in Hclh. rewrite Forall_forall in Hclh. by destruct (Hclh f Hin) as [? ?]; [eapply overlaps_widen|]. }
  destruct (above (ukey (f_largest f)) hi) eqn:E4.
  { pose proof (outside_hi files lo hi f Hin E4) as Hm.
    destruct (IH [] files lo (Some (ukey (f_largest f))) []) as (lo' & hi' & Hr & Hc & Hlo & Hhi & Hmin); try done; [constructor|nia|].
    exists lo', hi'. split; [done|]. split; [done|]. split; [done|].
    assert (hi_le hi (Some (ukey (f_largest f)))) as Hhi0.
    { destruct hi as [h|]; [|done]. simpl in *. apply Z.ltb_lt in E4. apply compare_antisym in E4. lia. }
    split; [by eapply hi_le_trans|]. intros l h Hclh Hll Hhh. apply Hmin; [done|done|].
    unfold closed_range in Hclh. rewrite Forall_forall in Hclh. by destruct (Hclh f Hin) as [? ?]; [eapply overlaps_widen|]. }
  apply (IH _ _ _ _ _ Hfiles').
  - rewrite filter_app, filter_cons_True, filter_nil; done.
  - apply Hcl'. intros _. split; [by apply below_lo_le|by apply above_hi_le].
  - lia.
Qed.

(** *** Well-formed versions *)

Record version_wf (v : Version) : Prop := mkVersionWf {
  vw_levels : length (files_ v) = Z.to_nat config.kNumLevels;
  vw_files : Forall (Forall file_wf) (files_ v);
  vw_sizes : Forall (fun files => zlen files < 2 ^ 31) (files_ v);
  vw_disjoint level files : files_ v !! S level = Some files -> disjoint_sorted files;
}.

Definition bound_wf (k : option InternalKey) : Prop := forall i, k = Some i -> ikey_wf i.

Lemma version_level v level :
  version_wf v -> 0 <= level < config.kNumLevels ->
  exists files, v_files v level = Ret files /\ files_ v !! Z.to_nat level = Some files /\
    Forall file_wf files /\ zlen files < 2 ^ 31 /\ (0 < level -> disjoint_sorted files).
Proof.
  intros [Hl Hf Hz Hd] Hlev. destruct (lookup_lt_is_Some_2 (files_ v) (Z.to_nat level)) as [files Hfl]; [lia|].
  exists files. unfold v_files. replace level with (Z.of_nat (Z.to_nat level)) at 1 by lia.
  split; [by apply vec_at_lookup|]. split; [done|]. split; [by eapply Forall_lookup_1|].
  split; [by apply (Forall_lookup_1 _ _ _ _ Hz Hfl)|]. intros Hpos.
  apply (Hd (pred (Z.to_nat level))). rewrite <- Hfl. f_equal. lia.
Qed.

Lemma user_bound_spec k : bound_wf k -> user_bound k = Ret (ukey <$> k).
Proof. intros Hk. destruct k as [k|]; [|done]. simpl. by rewrite user_key_wf by (by apply Hk). Qed.

Lemma GetOverlappingInputs_sorted v level begin limit files :
  version_wf v -> 0 < level < config.kNumLevels -> bound_wf begin -> bound_wf limit -> v_files v level = Ret files ->
  GetOverlappingInputs v level begin limit = Ret (filter (overlaps (ukey <$> begin) (ukey <$> limit)) files).
Proof.
  intros Hv Hl Hb He Hf. unfold GetOverlappingInputs. destruct (Z.leb_spec 0 level); [|lia].
  destruct (Z.ltb_spec level config.kNumLevels); [|lia]. cbn [oassert obind].
  rewrite !user_bound_spec, Hf by done. cbn [obind].
  destruct (version_level v level Hv ltac:(lia)) as (files' & Hf' & _ & Hwf & _). assert (files' = files) as -> by congruence.
  rewrite overlapping_loop_sorted; [done|lia|done|unfold overlap_fuel; lia].
Qed.

Lemma GetOverlappingInputs_level0 v begin limit files :
  version_wf v -> bound_wf begin -> bound_wf limit -> v_files v 0 = Ret files ->
  exists lo hi, GetOverlappingInputs v 0 begin limit = Ret (filter (overlaps lo hi) files) /\
    closed_range files lo hi /\ lo_le lo (ukey <$> begin) /\ hi_le (ukey <$> limit) hi /\
    forall l h, closed_range files l h -> lo_le l (ukey <$> begin) -> hi_le (ukey <$> limit) h -> lo_le l lo /\ hi_le hi h.
Proof.
  intros Hv Hb He Hf. unfold GetOverlappingInputs. cbn [Z.leb Z.ltb oassert obind Z.compare config.kNumLevels].
  rewrite !user_bound_spec, Hf by done. cbn [obind].
  destruct (version_level v 0 Hv ltac:(done)) as (files' & Hf' & _ & Hwf & _). assert (files' = files) as -> by congruence.
  destruct (overlapping_loop_level0 files [] files (ukey <$> begin) (ukey <$> limit) [] (overlap_fuel (length files)))
    as (lo & hi & Hr); try done; [constructor| |by exists lo, hi].
  unfold overlap_fuel. pose proof (outside_bound files (ukey <$> begin) (ukey <$> limit)). nia.
Qed.

Lemma OverlapInLevel_spec v level lo hi :
  version_wf v -> 0 <= level < config.kNumLevels ->
  exists files, v_files v level = Ret files /\
    OverlapInLevel v level lo hi = Ret (bool_decide (Exists (overlaps lo hi) files)).
Proof.
  intros Hv Hl. destruct (version_level v level Hv Hl) as (files & Hf & _ & Hwf & Hz & Hd). exists files. split; [done|].
  unfold OverlapInLevel. rewrite Hf. cbn [obind]. apply SomeFileOverlapsRange_spec; [done|]. intros Hpos%Z.ltb_lt. auto.
Qed.

(** *** The level of a new table *)

(** The bytes of the files of a level that a range overlaps. *)
Definition overlap_bytes (v : Version) (level : Z) (small large : bytes) : Z :=
  match v_files v level with
  | Ret files => TotalFileSize (filter (overlaps (Some small) (Some large)) files)
  | _ => 0
  end.

Definition free_level (v : Version) (level : Z) (small large : bytes) : Prop :=
  exists files, v_files v level = Ret files /\ ~ Exists (overlaps (Some small) (Some large)) files.

Lemma pick_level_spec options v small large n level :
  version_wf v -> 0 <= level <= config.kMaxMemCompactLevel -> level + Z.of_nat n = config.kMaxMemCompactLevel ->
  exists L, pick_level n options v small large (mkInternalKey (encode small kMaxSequenceNumber kValueTypeForSeek))
      (mkInternalKey (encode large 0 kTypeDeletion)) level = Ret L /\
    level <= L <= config.kMaxMemCompactLevel /\ (forall l, level < l <= L -> free_level v l small large) /\
    (forall l, level <= l < L -> overlap_bytes v (l + 2) small large <= MaxGrandParentOverlapBytes options) /\
    (L < config.kMaxMemCompactLevel ->
      ~ free_level v (L + 1) small large \/ MaxGrandParentOverlapBytes options < overlap_bytes v (L + 2) small large).
Proof.
  intros Hv. revert level. induction n as [|n IH]; intros level Hl Hn; cbn [pick_level].
  { exists level. split; [done|]. repeat split; try lia. }
  destruct (Z.ltb_spec level config.kMaxMemCompactLevel) as [Hlt|]; [|lia].
  assert (config.kMaxMemCompactLevel = 2) as H2 by done. assert (config.kNumLevels = 7) as H7 by done.
  destruct (OverlapInLevel_spec v (level + 1) (Some small) (Some large) Hv ltac:(lia)) as (files & Hf & ->). cbn [obind].
  case_bool_decide as Hov.
  { exists level. split; [done|]. repeat split; try lia. intros _. left. intros (files' & Hf' & Hno).
    assert (files' = files) as -> by congruence. done. }
  assert (free_level v (level + 1) small large) as Hfree by (by exists files).
  destruct (Z.ltb_spec (level + 2) config.kNumLevels); [|lia].
  destruct (version_level v (level + 2) Hv ltac:(lia)) as (files2 & Hf2 & _).
  rewrite (GetOverlappingInputs_sorted v (level + 2) _ _ files2); [|done|lia| | |done].
  2: { intros i [= <-]. by apply ikey_wf_encode. }
  2: { intros i [= <-]. by apply ikey_wf_encode. }
  cbn [obind]. unfold ukey. cbn [fmap option_fmap option_map rep_]. rewrite !ExtractUserKey_encode.
  assert (TotalFileSize (filter (overlaps (Some small) (Some large)) files2) = overlap_bytes v (level + 2) small large) as ->.
  { unfold overlap_bytes. by rewrite Hf2. }
  destruct (Z.ltb_spec (MaxGrandParentOverlapBytes options) (overlap_bytes v (level + 2) small large)) as [Hbig|Hsmall].
  { exists level. split; [done|]. repeat split; try lia. }
  destruct (IH (level + 1)) as (L & Hr & HL & Hfl & Hby & Hstop); [lia|lia|].
  exists L. split; [done|]. split; [lia|]. split; [|split; [|done]].
  - intros l Hll. destruct (decide (l = level + 1)) as [->|]; [done|]. apply Hfl. lia.
  - intros l Hll. destruct (decide (l = level)) as [->|]; [done|]. apply Hby. lia.
Qed.

(** *** The iterator over the files of a level is a cursor *)

Definition level_entries (files : list FilePtr) : list (bytes * bytes) :=
  (fun f => (rep_ (f_largest f), file_value f)) <$> files.

Definition level_at (files : list FilePtr) (it : LevelFileNumIterator) (p : option nat) : Prop :=
  flist_ it = files /\ match p with Some j => index_ it = Z.of_nat j /\ (j < length files)%nat | None => zlen files <= index_ it end.

Lemma level_at_index files it (j : nat) :
  zlen files < 2 ^ 31 -> flist_ it = files -> (j <= length files)%nat ->
  level_at files (lf_at it (Z.of_nat j)) (index_of (length files) j).
Proof.
  intros Hz Hit Hj. unfold level_at, lf_at, index_of. unfold zlen in *. simpl. split; [done|]. rewrite u32_small by lia.
  destruct (Nat.ltb_spec j (length files)); simpl; lia.
Qed.

#[refine] Definition LevelFile_IteratorLaws (files : list FilePtr) (Hwf : Forall file_wf files)
    (Hs : disjoint_sorted files) (Hz : zlen files < 2 ^ 31) :
    IteratorLaws LevelFileNumIterator internal_compare (level_entries files) := {|
  at_index := level_at files;
  seekable _ := True;
|}.
Proof.
  all: assert (length (level_entries files) = length files) as Hn by (unfold level_entries; by rewrite length_fmap).
  - intros it p [Hit Hp]. split; [|done]. simpl. unfold lf_Valid. rewrite Hit. unfold zlen in *.
    destruct p as [j|]; simpl; [destruct Hp as [-> Hj]; apply Z.ltb_lt; lia|apply Z.ltb_ge; lia].
  - intros it j [_ [_ Hj]]. by rewrite Hn.
  - intros it j k v [Hit [Hi Hj]] He. unfold level_entries in He. rewrite list_lookup_fmap in He.
    destruct (files !! j) as [f|] eqn:Ef; [|done]. injection He as <- <-. simpl. unfold lf_key, lf_value, lf_Valid.
    rewrite Hit, Hi. unfold zlen. destruct (Z.ltb_spec (Z.of_nat j) (Z.of_nat (length files))); [|lia]. cbn [oassert obind].
    rewrite (vec_at_lookup _ _ _ Ef). cbn [obind]. pose proof (Forall_lookup_1 _ _ _ _ Hwf Ef) as (_ & Hl & _).
    by rewrite Encode_wf.
  - intros it j [Hit [Hi Hj]]. simpl. unfold lf_Next, lf_Valid. rewrite Hit, Hi. unfold zlen.
    destruct (Z.ltb_spec (Z.of_nat j) (Z.of_nat (length files))); [|lia]. cbn [oassert obind]. eexists. split; [reflexivity|].
    rewrite Hn. replace (Z.of_nat j + 1) with (Z.of_nat (S j)) by lia. apply level_at_index; [done|done|lia].
  - intros it j [Hit [Hi Hj]]. simpl. unfold lf_Prev, lf_Valid. rewrite Hit, Hi. unfold zlen in *.
    destruct (Z.ltb_spec (Z.of_nat j) (Z.of_nat (length files))); [|lia]. cbn [oassert obind].
    destruct j as [|j]; cbn [Z.eqb Z.of_nat]; (eexists; split; [reflexivity|]).
    + split; [done|]. simpl. rewrite u32_small by lia. unfold zlen. lia.
    + split; [done|]. simpl. rewrite u32_small by lia. lia.
  - intros it p [Hit _]. simpl. eexists. split; [reflexivity|]. rewrite Hn. unfold lf_SeekToFirst.
    apply (level_at_index files it 0); [done|done|lia].
  - intros it p [Hit _]. simpl. eexists. split; [reflexivity|]. rewrite Hn. unfold lf_SeekToLast. rewrite Hit. unfold zlen in *.
    destruct (length files) as [|n] eqn:El; cbn [last_index].
    + split; [done|]. simpl. unfold zlen. rewrite El. done.
    + destruct (Z.eqb_spec (Z.of_nat (S n)) 0); [lia|]. split; [done|]. simpl. rewrite u32_small by lia. lia.
  - intros it p k [Hit _] _. simpl. unfold lf_Seek. rewrite Hit, FindFile_spec by done. cbn [obind].
    eexists. split; [reflexivity|]. rewrite Hn.
    assert (length (filter (fun e => internal_compare e.1 k < 0) (level_entries files)) = length (files_before k files)) as ->.
    { unfold level_entries, files_before. apply filter_fmap_length. }
    apply level_at_index; [done|done|apply length_filter].
Defined.

(** *** Deciding well-formedness *)

#[global] Instance ikey_wf_dec k : Decision (ikey_wf k).
Proof. unfold ikey_wf. apply _. Defined.

#[global] Instance file_wf_dec f : Decision (file_wf f).
Proof. unfold file_wf. apply _. Defined.

Fixpoint disjoint_sortedb (files : list FilePtr) : bool :=
  match files with
  | [] => true
  | f :: files => forallb (fun g => ic (f_largest f) (f_smallest g) <? 0) files && disjoint_sortedb files
  end.

Lemma disjoint_sortedb_sound files : disjoint_sortedb files = true -> disjoint_sorted files.
Proof.
  induction files as [|f files IH]; [constructor|]. simpl. intros [Hf Hs]%andb_true_iff. constructor; [by apply IH|].
  rewrite forallb_forall in Hf. apply Forall_forall. intros g Hg. apply Z.ltb_lt, Hf. by apply list_elem_of_In.
Qed.

Definition version_wfb (v : Version) : bool :=
  (length (files_ v) =? Z.to_nat config.kNumLevels)%nat && bool_decide (Forall (Forall file_wf) (files_ v)) &&
  forallb (fun files => zlen files <? 2 ^ 31) (files_ v) && forallb disjoint_sortedb (tail (files_ v)).

Lemma version_wfb_sound v : version_wfb v = true -> version_wf v.
Proof.
  unfold version_wfb. intros [[[Hl%Nat.eqb_eq Hf%bool_decide_eq_true]%andb_true_iff Hz]%andb_true_iff Hd]%andb_true_iff.
  split; [done|done| |].
  - rewrite forallb_forall in Hz. apply Forall_forall. intros files Hin. apply Z.ltb_lt, Hz. by apply list_elem_of_In.
  - intros level files Hfl. apply disjoint_sortedb_sound. rewrite forallb_forall in Hd. apply Hd. apply list_elem_of_In.
    destruct (files_ v); [done|]. by eapply list_elem_of_lookup_2.
Qed.
End Order.

(** ** The properties *)

(** A file of the examples: its number, its first and its last entry. *)
Definition sample_file (n : nat) (lo : bytes) (slo : Z) (hi : bytes) (shi : Z) : FilePtr :=
  mkFilePtr n (Z.of_nat n) 100 (mkInternalKey (encode lo slo kTypeValue)) (mkInternalKey (encode hi shi kTypeValue)).

Definition sample_version : Version :=
  mkVersion 1
    [ [sample_file 11 [x63] 40 [x68] 41; sample_file 12 [x67] 50 [x6d] 51; sample_file 13 [x70] 52 [x71] 53];
      [sample_file 7 [x61] 20 [x62] 21; sample_file 8 [x64] 22 [x65] 23; sample_file 9 [x78] 24 [x79] 25];
      [sample_file 5 [x61] 10 [x63] 11; sample_file 6 [x63] 5 [x7a] 12]; []; []; []; [] ]
    None (-1) (S754_zero false) 0.

#[local] Existing Instances BytewiseComparator BytewiseComparator_laws.

Lemma sample_version_wf : version_wf sample_version.
Proof. apply version_wfb_sound. by vm_compute. Qed.

(** The overlap test of a level is exact. Whether it looks at every file or, in a sorted
    level of files that do not overlap, only at the one a binary search finds,
    [SomeFileOverlapsRange] returns true exactly when some file of the list has a range of user
    keys that meets the given range; a null bound is no bound. *)
Theorem overlap_search_exact `{ComparatorLaws} (disjoint : bool) (files : list FilePtr) (lo hi : option bytes) :
  Forall file_wf files -> (disjoint = true -> disjoint_sorted files /\ zlen files < 2 ^ 31) ->
  SomeFileOverlapsRange disjoint files lo hi = Ret (bool_decide (Exists (overlaps lo hi) files)).
Proof. apply SomeFileOverlapsRange_spec. Qed.

Lemma overlap_search_exact_witness :
  SomeFileOverlapsRange true (nth 1 (files_ sample_version) []) (Some [x66]) (Some [x77]) = Ret false /\
  SomeFileOverlapsRange true (nth 1 (files_ sample_version) []) (Some [x66]) (Some [x78]) = Ret true.
Proof.
  assert (Forall file_wf (nth 1 (files_ sample_version) []) /\ disjoint_sorted (nth 1 (files_ sample_version) [])) as [Hwf Hd].
  { destruct sample_version_wf as [_ Hf _ Hd]. split; [by apply (Forall_lookup_1 _ _ 1%nat _ Hf)|by apply (Hd 0%nat)]. }
  split; rewrite overlap_search_exact; try done; f_equal; by vm_compute.
Defined.

(** [GetOverlappingInputs] terminates and selects the right files. In a sorted level it
    returns the files that overlap the range, in order. In level 0, where files overlap each
    other, it returns the files that overlap the smallest range that contains the given one
    and that no file sticks out of: so every file that is left out is disjoint from every file
    that is chosen, and no smaller choice has that property. *)
Theorem overlapping_inputs_closed `{ComparatorLaws} (v : Version) (level : Z) (begin limit : option InternalKey) :
  version_wf v -> 0 <= level < config.kNumLevels -> bound_wf begin -> bound_wf limit ->
  exists files lo hi, v_files v level = Ret files /\
    GetOverlappingInputs v level begin limit = Ret (filter (overlaps lo hi) files) /\
    (0 < level -> lo = ukey <$> begin /\ hi = ukey <$> limit) /\
    (level = 0 -> closed_range files lo hi /\ lo_le lo (ukey <$> begin) /\ hi_le (ukey <$> limit) hi /\
      forall l h, closed_range files l h -> lo_le l (ukey <$> begin) -> hi_le (ukey <$> limit) h -> lo_le l lo /\ hi_le hi h).
Proof.
  intros Hv Hl Hb He. destruct (version_level v level Hv Hl) as (files & Hf & _). exists files.
  destruct (decide (level = 0)) as [->|Hne].
  - destruct (GetOverlappingInputs_level0 v begin limit files Hv Hb He Hf) as (lo & hi & Hr & Hc). exists lo, hi.
    split; [done|]. split; [done|]. split; [lia|done].
  - exists (ukey <$> begin), (ukey <$> limit). split; [done|].
    split; [by apply GetOverlappingInputs_sorted; try lia|]. split; [done|lia].
Qed.

Lemma overlapping_inputs_closed_witness :
  let k := mkInternalKey (encode [x6c] 9 kTypeValue) in
  (GetOverlappingInputs sample_version 0 (Some k) (Some k) = Ret (take 2 (nth 0 (files_ sample_version) []))) /\
  exists files lo hi, v_files sample_version 0 = Ret files /\
    GetOverlappingInputs sample_version 0 (Some k) (Some k) = Ret (filter (overlaps lo hi) files) /\ closed_range files lo hi.
Proof.
  intros k. split; [by vm_compute|]. assert (bound_wf (Some k)) as Hk by (intros ? [= <-]; by apply ikey_wf_encode).
  destruct (overlapping_inputs_closed sample_version 0 (Some k) (Some k) sample_version_wf ltac:(done) Hk Hk)
    as (files & lo & hi & Hf & Hr & _ & Hc). exists files, lo, hi. destruct (Hc eq_refl) as [Hcl _]. done.
Defined.

(** The level of a new table. *)
Lemma PickLevelForMemTableOutput_spec `{ComparatorLaws} (options : Options) (v : Version) (small large : bytes) :
  version_wf v ->
  exists L, PickLevelForMemTableOutput options v small large = Ret L /\ 0 <= L <= config.kMaxMemCompactLevel /\
    (0 < L -> forall l, 0 <= l <= L -> free_level v l small large) /\
    (forall l, 0 <= l < L -> overlap_bytes v (l + 2) small large <= MaxGrandParentOverlapBytes options) /\
    (L < config.kMaxMemCompactLevel -> ~ free_level v 0 small large \/ ~ free_level v (L + 1) small large \/
      MaxGrandParentOverlapBytes options < overlap_bytes v (L + 2) small large).
Proof.
  intros Hv. unfold PickLevelForMemTableOutput.
  destruct (OverlapInLevel_spec v 0 (Some small) (Some large) Hv ltac:(done)) as (files & Hf & ->). cbn [obind].
  case_bool_decide as Hov; cbn [negb].
  - exists 0. split; [done|]. split; [done|]. split; [lia|]. split; [lia|]. intros _. left. intros (files' & Hf' & Hno).
    by assert (files' = files) as -> by congruence.
  - assert (free_level v 0 small large) as Hfree by (by exists files).
    unfold new_InternalKey. rewrite !AppendInternalKey_spec by done. cbn [obind app].
    destruct (pick_level_spec options v small large 2 0 Hv) as (L & Hr & HL & Hfl & Hby & Hst); [done|done|].
    exists L. split; [exact Hr|]. split; [done|]. split; [|split; [done|]].
    + intros _ l Hl. destruct (decide (l = 0)) as [->|]; [done|]. apply Hfl. lia.
    + intros Hlt. destruct (Hst Hlt); auto.
Qed.


