(* ===== verification/VersionGet.v ===== *)
(** * Reading a key through the levels of a version

    [version_set.c]: [Version::Get], [ForEachOverlapping] and the statistics of the seeks they
    charge to files ([UpdateStats], [RecordReadSample]). Tables are read through the interface
    of the table cache. *)

From stdpp Require Import gmap sorting.
From Stdlib Require Import SpecFloat.
From S2P Require Import Prelude Coding Env Comparator DbFormat VersionEdit SkipList MemTable Iterator Version.

Open Scope outcome_scope.

(** ** The table cache, as versions use it

    [cache_Get tc options number size key]: the new state of the cache, the status and the
    entry handed to the callback, if it is called. *)
Class TableCache (TC : Type) := {
  cache_Get : TC -> ReadOptions -> Z -> Z -> bytes -> outcome (TC * Status * option (bytes * bytes));
}.

Section Get.
Context `{user_comparator : Comparator} {TC : Type} `{TableCache TC}.

Inductive SaverState := kNotFound | kFound | kDeleted | kCorrupt.

#[global] Instance SaverState_eq_dec : EqDecision SaverState.
Proof. solve_decision. Defined.

Record Saver := mkSaver { s_state : SaverState; s_user_key : bytes; s_value : bytes }.

Definition SaveValue (s : Saver) (ikey v : bytes) : Saver :=
  match ParseInternalKey ikey with
  | None => mkSaver kCorrupt (s_user_key s) (s_value s)
  | Some parsed_key =>
      if Compare (pk_user_key parsed_key) (s_user_key s) =? 0 then
        match pk_type parsed_key with
        | kTypeValue => mkSaver kFound (s_user_key s) v
        | kTypeDeletion => mkSaver kDeleted (s_user_key s) (s_value s)
        end
      else s
  end.

Definition NewestFirst (a b : FilePtr) : bool := f_number b <? f_number a.

(** [std::sort] with [NewestFirst]: no file comes before a newer one. *)
Definition not_older (a b : FilePtr) : Prop := NewestFirst b a = false.

#[global] Instance not_older_dec a b : Decision (not_older a b).
Proof. unfold not_older. apply _. Defined.

Definition sort_newest (files : list FilePtr) : list FilePtr := merge_sort not_older files.

(** The level-0 files whose range of user keys has the key. *)
Fixpoint level0_matches (key : bytes) (files : list FilePtr) : outcome (list FilePtr) :=
  match files with
  | [] => Ret []
  | f :: files =>
      let! small := user_key (f_smallest f) in
      let! hit :=
        if 0 <=? Compare key small then
          let! large := user_key (f_largest f) in Ret (Compare key large <=? 0)
        else Ret false in
      let! rest := level0_matches key files in
      Ret (if (hit : bool) then f :: rest else rest)
  end.

(** The only file of another level that can have the key. *)
Definition sorted_match (key ikey : bytes) (files : list FilePtr) : outcome (list FilePtr) :=
  let! index := FindFile files ikey in
  if zlen files <=? u32 index then Ret []
  else
    let! f := vec_at files (u32 index) in
    let! small := user_key (f_smallest f) in
    if Compare key small <? 0 then Ret [] else Ret [f].

(** The files of one level to search, in order. *)
Definition files_to_search (level : Z) (key ikey : bytes) (files : list FilePtr) : outcome (list FilePtr) :=
  if zlen files =? 0 then Ret []
  else if level =? 0 then let! tmp := level0_matches key files in Ret (sort_newest tmp)
  else sorted_match key ikey files.

(** ** [ForEachOverlapping] *)

(** The calls of [func] for the files of one level; [true] when they were not stopped. *)
Fixpoint call_each {A} (func : A -> Z -> FilePtr -> A * bool) (arg : A) (level : Z) (files : list FilePtr) : A * bool :=
  match files with
  | [] => (arg, true)
  | f :: files =>
      let '(arg, more) := func arg level f in
      if more then call_each func arg level files else (arg, false)
  end.

Fixpoint for_each_level {A} (func : A -> Z -> FilePtr -> A * bool) (arg : A) (level : Z) (levels : list (list FilePtr))
    (key ikey : bytes) : outcome A :=
  match levels with
  | [] => Ret arg
  | files :: levels =>
      let! fs := files_to_search level key ikey files in
      let '(arg, more) := call_each func arg level fs in
      if more then for_each_level func arg (level + 1) levels key ikey else Ret arg
  end.

Definition ForEachOverlapping {A} (v : Version) (key ikey : bytes) (arg : A) (func : A -> Z -> FilePtr -> A * bool) : outcome A :=
  for_each_level func arg 0 (files_ v) key ikey.

(** ** [Get] *)

Record GetStats := mkGetStats { seek_file : option FilePtr; seek_file_level : Z }.

(** The variables of [Get] that change. *)
Record GetState := mkGetState {
  g_cache : TC;
  g_value : bytes;
  g_stats : GetStats;
  last_file_read : option FilePtr;
  last_file_read_level : Z;
}.

Definition charge_first (g : GetState) : GetStats :=
  match last_file_read g, seek_file (g_stats g) with
  | Some f, None => mkGetStats (Some f) (last_file_read_level g)
  | _, _ => g_stats g
  end.

(** [Some s]: the function returns [s]. *)
Fixpoint read_files (options : ReadOptions) (level : Z) (key ikey : bytes) (files : list FilePtr) (g : GetState)
    : outcome (GetState * option Status) :=
  match files with
  | [] => Ret (g, None)
  | f :: files =>
      let stats := charge_first g in
      let! (tc, s, found) := cache_Get (g_cache g) options (f_number f) (f_file_size f) ikey in
      let saver := mkSaver kNotFound key (g_value g) in
      let saver := match found with Some (k, v) => SaveValue saver k v | None => saver end in
      let g := mkGetState tc (s_value saver) stats (Some f) level in
      if negb (ok s) then Ret (g, Some s)
      else
        match s_state saver with
        | kNotFound => read_files options level key ikey files g
        | kFound => Ret (g, Some s)
        | kDeleted => Ret (g, Some (NotFound ""))
        | kCorrupt => Ret (g, Some (Corruption "corrupted key for "))
        end
  end.

Fixpoint read_levels (options : ReadOptions) (level : Z) (key ikey : bytes) (levels : list (list FilePtr)) (g : GetState)
    : outcome (GetState * Status) :=
  match levels with
  | [] => Ret (g, NotFound "")
  | files :: levels =>
      let! fs := files_to_search level key ikey files in
      let! (g, r) := read_files options level key ikey fs g in
      match r with
      | Some s => Ret (g, s)
      | None => read_levels options (level + 1) key ikey levels g
      end
  end.

Definition Get (tc : TC) (options : ReadOptions) (v : Version) (k : LookupKey) (value : bytes)
    : outcome (TC * bytes * GetStats * Status) :=
  let ikey := lk_internal_key k in
  let key := lk_user_key k in
  let g := mkGetState tc value (mkGetStats None (-1)) None (-1) in
  let! (g, s) := read_levels options 0 key ikey (files_ v) g in
  Ret (g_cache g, g_value g, g_stats g, s).

(** ** Statistics *)

Definition set_file_to_compact (v : Version) (f : FilePtr) (level : Z) : Version :=
  mkVersion (v_refs v) (files_ v) (Some f) level (compaction_score_ v) (compaction_level_ v).

Definition UpdateStats (st : FileStore) (v : Version) (stats : GetStats) : outcome (FileStore * Version * bool) :=
  match seek_file stats with
  | Some f =>
      let! s := file_state st f in
      let seeks := i32 (fs_allowed_seeks s - 1) in
      let st := <[f_addr f := mkFileState (fs_refs s) seeks]> st in
      if (seeks <=? 0) && bool_decide (file_to_compact_ v = None) then
        Ret (st, set_file_to_compact v f (seek_file_level stats), true)
      else Ret (st, v, false)
  | None => Ret (st, v, false)
  end.

(** The local class [State] of [RecordReadSample] and its callback. *)
Record SampleState := mkSample { sample_stats : GetStats; matches : Z }.

Definition Match (state : SampleState) (level : Z) (f : FilePtr) : SampleState * bool :=
  let matches := matches state + 1 in
  let stats := if matches =? 1 then mkGetStats (Some f) level else sample_stats state in
  (mkSample stats matches, matches <? 2).

Definition RecordReadSample (st : FileStore) (v : Version) (ikey : bytes) : outcome (FileStore * Version * bool) :=
  match ParseInternalKey ikey with
  | None => Ret (st, v, false)
  | Some p =>
      let! state := ForEachOverlapping v (pk_user_key p) ikey (mkSample (mkGetStats None 0) 0) Match in
      if 2 <=? matches state then UpdateStats st v (sample_stats state) else Ret (st, v, false)
  end.

End Get.

(** ** What the tables hold *)

Section Spec.
Context `{laws : ComparatorLaws} {TC : Type} `{TableCache TC}.

Definition first_ge (k : bytes) (es : list entry_op) : option entry_op :=
  head (filter (fun o => 0 <= internal_compare (op_ikey o) k) es).

(** What the read of a table with entries [es] hands to the callback: the first entry at or
    after the key when it is one of the user key, otherwise nothing or some other entry. *)
Definition table_answer (u k : bytes) (es : list entry_op) (r : option (bytes * bytes)) : Prop :=
  (exists o, first_ge k es = Some o /\ Compare (op_key o) u = 0 /\ r = Some (op_ikey o, op_value o)) \/
  ((forall o, first_ge k es = Some o -> Compare (op_key o) u ≠ 0) /\
   forall p, r = Some p -> exists o, o ∈ es /\ Compare (op_key o) u ≠ 0 /\ p = (op_ikey o, op_value o)).
End Spec.

(** [tc_holds tc number size es]: the table of that number and size can be read and has the
    entries [es]. *)
Class TableCacheLaws `{laws : ComparatorLaws} (TC : Type) `{TableCache TC} := {
  tc_holds : TC -> Z -> Z -> list entry_op -> Prop;
  tc_get tc options n sz es u s :
    tc_holds tc n sz es -> in_range s ->
    exists tc' r, cache_Get tc options n sz (encode u s kValueTypeForSeek) = Ret (tc', OK, r) /\
      (forall n sz es, tc_holds tc n sz es -> tc_holds tc' n sz es) /\
      table_answer u (encode u s kValueTypeForSeek) es r;
}.

Section Correct.
Context `{laws : ComparatorLaws} {TC : Type} `{tcache : TableCache TC} `{tclaws : !TableCacheLaws TC}.

(** A file has the entries of its table, from its smallest to its largest key. *)
Record file_data (f : FilePtr) (es : list entry_op) : Prop := mkFileData {
  fd_ok : Forall op_ok es;
  fd_sorted : StronglySorted op_lt es;
  fd_first : op_ikey <$> head es = Some (rep_ (f_smallest f));
  fd_last : op_ikey <$> last es = Some (rep_ (f_largest f));
}.

(** Every entry of [es] is newer than those of [es'] for the same user key. *)
Definition newer (es es' : list entry_op) : Prop :=
  forall o o', o ∈ es -> o' ∈ es' -> Compare (op_key o) (op_key o') = 0 -> op_seq o' < op_seq o.

(** The contents of the tables of a version: newer entries are in newer files of level 0 and
    in lower levels. *)
Record version_data (tc : TC) (v : Version) (data : FilePtr -> list entry_op) : Prop := mkVersionData {
  vd_wf : version_wf v;
  vd_file level files f : files_ v !! level = Some files -> f ∈ files ->
    file_data f (data f) /\ tc_holds tc (f_number f) (f_file_size f) (data f);
  vd_level0 files f g : files_ v !! O = Some files -> f ∈ files -> g ∈ files ->
    f = g \/ (f_number g < f_number f /\ newer (data f) (data g)) \/ (f_number f < f_number g /\ newer (data g) (data f));
  vd_levels i j files files' f g : (i < j)%nat -> files_ v !! i = Some files -> files_ v !! j = Some files' ->
    f ∈ files -> g ∈ files' -> newer (data f) (data g);
}.

(** The newest entry a read sees, in a list that has newer entries of a key first. *)
Definition newest_entry (u : bytes) (s : Z) (es : list entry_op) : option entry_op := head (filter (visible u s) es).

(** [r] is the newest of the entries with [P] that a read of [u] at [s] sees. *)
Definition newest_of (u : bytes) (s : Z) (P : entry_op -> Prop) (r : option entry_op) : Prop :=
  match r with
  | Some o => P o /\ visible u s o /\ forall o', P o' -> visible u s o' -> op_seq o' <= op_seq o
  | None => forall o', P o' -> ~ visible u s o'
  end.

(** *** Entries and internal keys *)

Lemma op_compare_key o u s : op_ok o -> in_range s ->
  (0 <= internal_compare (op_ikey o) (encode u s kValueTypeForSeek) <->
   Compare u (op_key o) < 0 \/ (Compare (op_key o) u = 0 /\ op_seq o <= s)).
Proof.
  intros (Ho & _) Hs. pose proof (proj1 (internal_compare_cases (op_ikey o) (encode u s kValueTypeForSeek))) as Hc.
  unfold op_ikey in *. rewrite !ExtractUserKey_encode, !ExtractTag_encode, tag_lt in Hc by done.
  pose proof (compare_antisym u (op_key o)). unfold kValueTypeForSeek in *.
  assert (type_code (op_type o) <= type_code kTypeValue) by (destruct (op_type o); done).
  destruct (op_type o); simpl in *; lia.
Qed.

Lemma op_lt_cases o o' : op_ok o -> op_ok o' ->
  op_lt o o' -> Compare (op_key o) (op_key o') < 0 \/ (Compare (op_key o) (op_key o') = 0 /\ op_seq o' <= op_seq o).
Proof.
  intros (Ho & _) (Ho' & _). unfold op_lt. rewrite (proj1 (internal_compare_cases _ _)). unfold op_ikey.
  rewrite !ExtractUserKey_encode, !ExtractTag_encode, tag_lt by done. lia.
Qed.

Lemma visible_ge u s o : op_ok o -> in_range s -> visible u s o -> 0 <= internal_compare (op_ikey o) (encode u s kValueTypeForSeek).
Proof. intros Ho Hs [Hu Hle]. apply op_compare_key; auto. Qed.

(** *** One file *)

(** The first entry at or after the key is the newest visible one, or there is none. *)
Lemma first_ge_newest u s es :
  Forall op_ok es -> StronglySorted op_lt es -> in_range s ->
  newest_entry u s es =
    match first_ge (encode u s kValueTypeForSeek) es with
    | Some o => if decide (Compare (op_key o) u = 0) then Some o else None
    | None => None
    end.
Proof.
  intros Hok Hs Hr. unfold newest_entry, first_ge. induction Hs as [|o es Hs IH Ho]; [done|].
  apply Forall_cons in Hok as [Hoo Hok]. rewrite !filter_cons.
  pose proof (op_compare_key o u s Hoo Hr) as Hc. specialize (IH Hok).
  destruct (decide (0 <= internal_compare (op_ikey o) (encode u s kValueTypeForSeek))) as [Hge|Hlt].
  - simpl. destruct (decide (visible u s o)) as [Hv|Hv].
    + simpl. rewrite decide_True by apply Hv. done.
    + rewrite decide_False; [|intros He; apply Hv; split; [done|]; apply Hc in Hge as [Hx|]; [|lia];
        pose proof (compare_antisym_eq (op_key o) u); lia].
      rewrite filter_none; [done|]. apply Forall_forall. intros o' Ho' [Hu' _].
      rewrite Forall_forall in Ho, Hok. specialize (Ho o' Ho'). apply op_lt_cases in Ho; [|done|by apply Hok].
      apply Hc in Hge as [Hx|[He Hle]]; [|by apply Hv].
      assert (Compare u (op_key o') < 0) as Hy by (eapply compare_lt_le; [done|lia]).
      pose proof (compare_antisym_eq (op_key o') u). lia.
  - rewrite decide_False; [done|]. intros Hv. by apply Hlt, visible_ge.
Qed.

Lemma newest_entry_of u s es :
  Forall op_ok es -> StronglySorted op_lt es -> newest_of u s (.∈ es) (newest_entry u s es).
Proof.
  intros Hok Hs. unfold newest_entry. induction Hs as [|o es Hs IH Ho].
  { intros o' Ho'. by apply elem_of_nil in Ho'. }
  apply Forall_cons in Hok as [Hoo Hok]. rewrite filter_cons. destruct (decide (visible u s o)) as [Hv|Hv]; simpl.
  - split; [by left|]. split; [done|]. intros o' Ho' Hv'. apply elem_of_cons in Ho' as [->|Ho']; [done|].
    rewrite Forall_forall in Ho, Hok. specialize (Ho o' Ho'). apply op_lt_cases in Ho as [Hlt|]; [|lia|done|by apply Hok].
    destruct Hv as [Hu _], Hv' as [Hu' _]. pose proof (proj1 (compare_antisym_eq _ _) Hu').
    assert (Compare (op_key o) u < 0) by (eapply compare_lt_le; [done|lia]). lia.
  - specialize (IH Hok). destruct (head (filter (visible u s) es)) as [r|] eqn:Er; simpl in *.
    + destruct IH as (Hr & Hvr & Hm). split; [by right|]. split; [done|]. intros o' Ho' Hv'.
      apply elem_of_cons in Ho' as [->|Ho']; [done|]. by apply Hm.
    + intros o' Ho' Hv'. apply elem_of_cons in Ho' as [->|Ho']; [done|]. by eapply IH.
Qed.


(** *** The order of the search *)

Definition has_key (u : bytes) (f : FilePtr) : Prop :=
  0 <= Compare u (ukey (f_smallest f)) /\ Compare u (ukey (f_largest f)) <= 0.

#[global] Instance has_key_dec u f : Decision (has_key u f).
Proof. unfold has_key. apply _. Defined.

Definition candidates (level : Z) (u k : bytes) (files : list FilePtr) : list FilePtr :=
  if level =? 0 then sort_newest (filter (has_key u) files)
  else
    match files !! length (files_before k files) with
    | Some f => if Compare u (ukey (f_smallest f)) <? 0 then [] else [f]
    | None => []
    end.

Lemma level0_matches_spec u files : Forall file_wf files -> level0_matches u files = Ret (filter (has_key u) files).
Proof.
  induction 1 as [|f files (Hs & Hl & _) Hfs IH]; [done|]. cbn [level0_matches]. rewrite user_key_wf, IH, filter_cons by done.
  cbn [obind]. destruct (Z.leb_spec 0 (Compare u (ukey (f_smallest f)))) as [Hge|Hlt].
  - rewrite user_key_wf by done. cbn [obind].
    destruct (Z.leb_spec (Compare u (ukey (f_largest f))) 0); destruct (decide (has_key u f)) as [[]|Hn]; try done; [|lia].
    by destruct Hn.
  - cbn [obind]. destruct (decide (has_key u f)) as [[]|]; [lia|done].
Qed.

Lemma files_to_search_spec level u k files :
  Forall file_wf files -> zlen files < 2 ^ 31 -> (level ≠ 0 -> disjoint_sorted files) ->
  files_to_search level u k files = Ret (candidates level u k files).
Proof.
  intros Hwf Hz Hd. unfold files_to_search, candidates. destruct (Z.eqb_spec (zlen files) 0) as [Hn|Hn].
  { apply zlen_0_nil in Hn as ->. by destruct (Z.eqb_spec level 0). }
  destruct (Z.eqb_spec level 0); [by rewrite level0_matches_spec|].
  unfold sorted_match. rewrite FindFile_spec by auto. cbn [obind]. unfold zlen in *.
  pose proof (length_filter (fun f => internal_compare (rep_ (f_largest f)) k < 0) files) as Hl. fold (files_before k files) in Hl.
  rewrite u32_small by lia. destruct (Z.leb_spec (Z.of_nat (length files)) (Z.of_nat (length (files_before k files)))).
  - by rewrite lookup_ge_None_2 by lia.
  - destruct (lookup_lt_is_Some_2 files (length (files_before k files))) as [f Hf]; [lia|]. rewrite Hf, (vec_at_lookup _ _ _ Hf).
    cbn [obind]. destruct (Forall_lookup_1 _ _ _ _ Hwf Hf) as (Hs & _). rewrite user_key_wf by done. cbn [obind].
    by destruct (_ <? 0).
Qed.

Fixpoint search_order (level : Z) (u k : bytes) (levels : list (list FilePtr)) : list (Z * FilePtr) :=
  match levels with
  | [] => []
  | files :: levels => (pair level <$> candidates level u k files) ++ search_order (level + 1) u k levels
  end.

(** The files of the search that are read, and what ends it. *)
Fixpoint walk (ne : FilePtr -> option entry_op) (order : list (Z * FilePtr)) : list (Z * FilePtr) * option entry_op :=
  match order with
  | [] => ([], None)
  | (l, f) :: order =>
      match ne f with
      | Some o => ([(l, f)], Some o)
      | None => let '(rs, r) := walk ne order in ((l, f) :: rs, r)
      end
  end.

Lemma walk_app ne xs ys :
  walk ne (xs ++ ys) =
    match walk ne xs with
    | (rs, Some o) => (rs, Some o)
    | (rs, None) => let '(rs', r) := walk ne ys in (rs ++ rs', r)
    end.
Proof.
  induction xs as [|[l f] xs IH]; simpl; [by destruct (walk ne ys)|]. destruct (ne f); [done|]. rewrite IH.
  destruct (walk ne xs) as [rs [o|]]; [done|]. by destruct (walk ne ys).
Qed.

(** *** The files that are read and the statistics *)

(** The first file is charged when a second one is read. *)
Definition stats_of (rs : list (Z * FilePtr)) : GetStats :=
  match rs with
  | x :: _ :: _ => mkGetStats (Some x.2) x.1
  | _ => mkGetStats None (-1)
  end.

Definition reading (tc : TC) (rs : list (Z * FilePtr)) (value : bytes) (g : GetState) : Prop :=
  (forall n sz es, tc_holds tc n sz es -> tc_holds (g_cache g) n sz es) /\ g_value g = value /\
  g_stats g = stats_of rs /\ last_file_read g = snd <$> last rs /\
  last_file_read_level g = match last rs with Some x => x.1 | None => -1 end.

Lemma charge_first_spec tc rs value g x : reading tc rs value g -> charge_first g = stats_of (rs ++ [x]).
Proof.
  intros (_ & _ & Hst & Hlf & Hll). unfold charge_first. rewrite Hlf, Hll, Hst.
  destruct rs as [|y [|z rs]]; [done|done|].
  cbn [stats_of app seek_file]. by destruct (snd <$> last (y :: z :: rs)).
Qed.

Definition answer_status (r : option entry_op) : Status :=
  match r with
  | Some o => match op_type o with kTypeValue => OK | kTypeDeletion => NotFound "" end
  | None => NotFound ""
  end.

Definition answer_value (r : option entry_op) (value : bytes) : bytes :=
  match r with
  | Some o => match op_type o with kTypeValue => op_value o | kTypeDeletion => value end
  | None => value
  end.

Lemma SaveValue_op u s value es r :
  Forall op_ok es -> StronglySorted op_lt es -> in_range s -> table_answer u (encode u s kValueTypeForSeek) es r ->
  let saver := match r with Some (k, v) => SaveValue (mkSaver kNotFound u value) k v | None => mkSaver kNotFound u value end in
  s_value saver = answer_value (newest_entry u s es) value /\
  s_state saver = match newest_entry u s es with
                  | Some o => match op_type o with kTypeValue => kFound | kTypeDeletion => kDeleted end
                  | None => kNotFound
                  end.
Proof.
  intros Hok Hs Hr Ha. rewrite first_ge_newest by done.
  assert (forall o v, o ∈ es -> SaveValue (mkSaver kNotFound u value) (op_ikey o) v =
    if Compare (op_key o) u =? 0 then
      match op_type o with kTypeValue => mkSaver kFound u v | kTypeDeletion => mkSaver kDeleted u value end
    else mkSaver kNotFound u value) as Hsv.
  { intros o v Ho. unfold SaveValue, op_ikey. rewrite Forall_forall in Hok. destruct (Hok o Ho) as (Hro & _).
    by rewrite ParseInternalKey_encode. }
  destruct Ha as [(o & Hf & Hu & ->)|[Hno Hother]].
  - rewrite Hf, decide_True by done. rewrite Hsv.
    2:{ unfold first_ge in Hf. apply head_Some_elem_of, list_elem_of_filter in Hf as [_ Hin]. done. }
    rewrite Hu. cbn [Z.eqb]. simpl. by destruct (op_type o).
  - assert ((match first_ge (encode u s kValueTypeForSeek) es with
             | Some o => if decide (Compare (op_key o) u = 0) then Some o else None
             | None => None end) = None) as ->.
    { destruct (first_ge _ es) as [o|] eqn:E; [|done]. by rewrite decide_False by (by apply Hno). }
    destruct r as [[k v]|]; [|done]. destruct (Hother _ eq_refl) as (o & Ho & Hu & [= -> ->]). rewrite Hsv by done.
    by destruct (Z.eqb_spec (Compare (op_key o) u) 0).
Qed.

Section Reading.
Variables (tc : TC) (data : FilePtr -> list entry_op) (options : ReadOptions) (u : bytes) (s : Z).
Hypothesis Hs : in_range s.
Abbreviation ikey := (encode u s kValueTypeForSeek).
Abbreviation ne := (fun f => newest_entry u s (data f)).

Definition readable (f : FilePtr) : Prop :=
  file_data f (data f) /\ tc_holds tc (f_number f) (f_file_size f) (data f).

Lemma read_files_spec level fs rs value g :
  Forall readable fs -> reading tc rs value g ->
  let '(rs', r) := walk ne (pair level <$> fs) in
  exists g', read_files options level u ikey fs g = Ret (g', match r with Some _ => Some (answer_status r) | None => None end) /\
    reading tc (rs ++ rs') (answer_value r value) g'.
Proof.
  intros Hfs. revert rs value g. induction Hfs as [|f fs [Hfd Htc] Hfs IH]; intros rs value g Hg.
  { exists g. by rewrite app_nil_r. }
  rewrite fmap_cons. cbn [walk read_files].
  pose proof Hg as (Hle & Hv & _). subst value. destruct (tc_get (g_cache g) options _ _ _ u s (Hle _ _ _ Htc) Hs) as (tc' & r & -> & Hle' & Ha).
  cbn [obind]. pose proof (SaveValue_op u s (g_value g) (data f) r (fd_ok _ _ Hfd) (fd_sorted _ _ Hfd) Hs Ha) as [Hval Hst].
  set (saver := match r with Some (k, v) => _ | None => _ end) in *. cbn [ok negb].
  assert (reading tc (rs ++ [(level, f)]) (s_value saver) (mkGetState tc' (s_value saver) (charge_first g) (Some f) level)) as Hg'.
  { repeat split; simpl; [auto|by eapply charge_first_spec|by rewrite last_snoc..]. }
  rewrite Hst. destruct (newest_entry u s (data f)) as [o|] eqn:Eo.
  - eexists. rewrite Hval in *. split; [|done]. simpl. by destruct (op_type o).
  - rewrite Hval in *. simpl in Hg'. specialize (IH _ _ _ Hg'). destruct (walk _ (pair level <$> fs)) as [rs' r'].
    destruct IH as (g' & Hrd & Hg''). exists g'. cbn [answer_value]. rewrite Hrd. split; [done|]. by rewrite <- app_assoc in Hg''.
Qed.

Lemma read_levels_spec levels level rs value g :
  0 <= level -> Forall (Forall file_wf) levels -> Forall (fun files => zlen files < 2 ^ 31) levels ->
  (forall j files, levels !! j = Some files -> level + Z.of_nat j ≠ 0 -> disjoint_sorted files) ->
  Forall (fun files => Forall readable files) levels -> reading tc rs value g ->
  let '(rs', r) := walk ne (search_order level u ikey levels) in
  exists g', read_levels options level u ikey levels g = Ret (g', answer_status r) /\
    reading tc (rs ++ rs') (answer_value r value) g'.
Proof.
  intros Hl Hwf Hz Hd Hrd. revert level rs g Hl Hd. induction levels as [|files levels IH]; intros level rs g Hl Hd Hg.
  { simpl. exists g. by rewrite app_nil_r. }
  apply Forall_cons in Hwf as [Hwf Hwfs], Hz as [Hz Hzs], Hrd as [Hrd Hrds]. cbn [search_order read_levels].
  rewrite files_to_search_spec by (done || (intros ?; apply (Hd O files); [done|lia])). cbn [obind].
  assert (Forall readable (candidates level u ikey files)) as Hc.
  { apply Forall_forall. intros f Hf. rewrite Forall_forall in Hrd. apply Hrd. unfold candidates in Hf.
    destruct (level =? 0).
    - unfold sort_newest in Hf. rewrite merge_sort_Permutation in Hf. by apply list_elem_of_filter in Hf as [_ Hf].
    - destruct (files !! _) as [f'|] eqn:Ef; [|by apply elem_of_nil in Hf].
      destruct (_ <? 0); [by apply elem_of_nil in Hf|]. apply list_elem_of_singleton in Hf as ->. by eapply list_elem_of_lookup_2. }
  pose proof (read_files_spec level _ rs value g Hc Hg) as Hr. rewrite walk_app.
  destruct (walk _ (pair level <$> _)) as [rs1 [o|]].
  - destruct Hr as (g' & -> & Hg'). cbn [obind]. by exists g'.
  - destruct Hr as (g' & -> & Hg'). cbn [obind]. specialize (IH Hwfs Hzs Hrds (level + 1) (rs ++ rs1) g' ltac:(lia)).
    assert (forall j files, levels !! j = Some files -> level + 1 + Z.of_nat j ≠ 0 -> disjoint_sorted files) as Hd'.
    { intros j fl Hj Hne. apply (Hd (S j) fl); [done|lia]. }
    specialize (IH Hd' Hg'). destruct (walk _ (search_order _ _ _ _)) as [rs2 r]. destruct IH as (g2 & -> & Hg2).
    exists g2. split; [done|]. by rewrite <- app_assoc in Hg2.
Qed.
End Reading.

(** *** The search finds the newest entry *)

Lemma walk_result ne order : (walk ne order).2 = head (omap (fun x => ne x.2) order).
Proof.
  induction order as [|[l f] order IH]; [done|]. cbn. destruct (ne f); [done|]. by destruct (walk ne order).
Qed.

Lemma head_omap_Some {A B} (g : A -> option B) l y :
  head (omap g l) = Some y -> exists l1 x l2, l = l1 ++ x :: l2 /\ g x = Some y /\ Forall (fun z => g z = None) l1.
Proof.
  induction l as [|x l IH]; [done|]. simpl. destruct (g x) as [z|] eqn:E.
  - intros [= <-]. by exists [], x, l.
  - intros Hy. destruct (IH Hy) as (l1 & x' & l2 & -> & Hx & Hl). exists (x :: l1), x', l2. split; [done|]. split; [done|]. by constructor.
Qed.

Lemma head_omap_None {A B} (g : A -> option B) l : head (omap g l) = None -> Forall (fun z => g z = None) l.
Proof. induction l as [|x l IH]; [constructor|]. simpl. destruct (g x) eqn:E; [done|]. constructor; auto. Qed.

Lemma sorted_head_last es o :
  StronglySorted op_lt es -> o ∈ es ->
  (forall a, head es = Some a -> internal_compare (op_ikey a) (op_ikey o) <= 0) /\
  (forall b, last es = Some b -> internal_compare (op_ikey o) (op_ikey b) <= 0).
Proof.
  assert (forall k, internal_compare k k = 0) as Hrefl by (intros k; pose proof (internal_antisym k k); lia).
  intros Hs Ho. induction Hs as [|a es Hs IH Ha]; [by apply elem_of_nil in Ho|]. rewrite Forall_forall in Ha.
  apply elem_of_cons in Ho as [->|Ho]; split.
  - intros ? [= <-]. by rewrite Hrefl.
  - intros b Hb. destruct es as [|c es]; [injection Hb as <-; by rewrite Hrefl|]. cbn [last] in Hb.
    assert (b ∈ c :: es) as Hin by (by apply last_Some_elem_of). specialize (Ha b Hin). unfold op_lt in Ha. lia.
  - intros ? [= <-]. specialize (Ha o Ho). unfold op_lt in Ha. lia.
  - intros b Hb. destruct es as [|c es]; [by apply elem_of_nil in Ho|]. by apply IH.
Qed.

Lemma file_data_range f es o :
  file_data f es -> o ∈ es ->
  internal_compare (rep_ (f_smallest f)) (op_ikey o) <= 0 /\ internal_compare (op_ikey o) (rep_ (f_largest f)) <= 0.
Proof.
  intros [Hok Hs Hh Hl] Ho. destruct (sorted_head_last es o Hs Ho) as [Hf Hla].
  destruct (head es) as [a|]; [|done]. destruct (last es) as [b|]; [|done]. injection Hh as <-. injection Hl as <-. auto.
Qed.

Lemma internal_le_user a b : internal_compare a b <= 0 -> Compare (ExtractUserKey a) (ExtractUserKey b) <= 0.
Proof. intros Hc. pose proof (proj2 (internal_compare_cases a b)). destruct (Z.le_gt_cases (Compare (ExtractUserKey a) (ExtractUserKey b)) 0); [done|lia]. Qed.

Lemma file_data_has_key f es u s o : file_data f es -> o ∈ es -> visible u s o -> has_key u f.
Proof.
  intros Hf Ho [Hu _]. destruct (file_data_range f es o Hf Ho) as [Ha%internal_le_user Hb%internal_le_user].
  unfold op_ikey in *. rewrite ExtractUserKey_encode in *. unfold has_key, ukey.
  pose proof (proj1 (compare_antisym_eq _ _) Hu). split.
  - pose proof (compare_antisym u (ExtractUserKey (rep_ (f_smallest f)))) as Hx.
    assert (Compare (ExtractUserKey (rep_ (f_smallest f))) u <= 0) by (eapply compare_trans; [done|lia]). lia.
  - eapply compare_trans; [|done]. lia.
Qed.

#[local] Instance not_older_trans : Transitive not_older.
Proof. intros a b c. unfold not_older, NewestFirst. lia. Qed.

#[local] Instance not_older_total : Total not_older.
Proof. intros a b. unfold not_older, NewestFirst. lia. Qed.

Section Newest.
Variables (tc : TC) (v : Version) (data : FilePtr -> list entry_op) (u : bytes) (s : Z).
Hypothesis Hvd : version_data tc v data.
Hypothesis Hs : in_range s.
Abbreviation ikey := (encode u s kValueTypeForSeek).
Abbreviation ne := (fun f => newest_entry u s (data f)).

Definition in_files (files : list FilePtr) (o : entry_op) : Prop := exists f, f ∈ files /\ o ∈ data f.

Lemma ne_newest level files f :
  files_ v !! level = Some files -> f ∈ files -> newest_of u s (.∈ data f) (newest_entry u s (data f)).
Proof. intros Hl Hf. destruct (vd_file _ _ _ Hvd _ _ _ Hl Hf) as [[Hok Hso _ _] _]. by apply newest_entry_of. Qed.

Lemma ne_none level files f o :
  files_ v !! level = Some files -> f ∈ files -> newest_entry u s (data f) = None -> o ∈ data f -> ~ visible u s o.
Proof. intros Hl Hf Hn Ho. pose proof (ne_newest _ _ _ Hl Hf) as Hne. rewrite Hn in Hne. by apply Hne. Qed.

(** Level 0: a file that comes later in the search is older. *)
Lemma level0_newest files :
  files_ v !! O = Some files -> newest_of u s (in_files files) (head (omap ne (candidates 0 u ikey files))).
Proof.
  intros Hl. unfold candidates. cbn [Z.eqb]. set (cands := sort_newest _).
  assert (forall f, f ∈ cands <-> has_key u f /\ f ∈ files) as Hin.
  { intros f. subst cands. unfold sort_newest. rewrite merge_sort_Permutation. apply list_elem_of_filter. }
  assert (StronglySorted not_older cands) as Hso by (apply StronglySorted_merge_sort; apply _).
  assert (forall f o, f ∈ files -> o ∈ data f -> visible u s o -> f ∈ cands) as Hvis.
  { intros f o Hf Ho Hv. apply Hin. split; [|done]. destruct (vd_file _ _ _ Hvd _ _ _ Hl Hf) as [Hfd _].
    by eapply file_data_has_key. }
  clearbody cands. destruct (head (omap ne cands)) as [o|] eqn:Eh.
  - apply head_omap_Some in Eh as (l1 & f & l2 & -> & Hf & Hl1).
    assert (f ∈ files) as Hff by (apply Hin; set_solver).
    pose proof (ne_newest _ _ _ Hl Hff) as Hn. rewrite Hf in Hn. destruct Hn as (Ho & Hv & Hmax).
    split; [by exists f|]. split; [done|]. intros o' (g & Hg & Hog) Hv'.
    specialize (Hvis g o' Hg Hog Hv') as Hgc. apply elem_of_app in Hgc as [Hg1|Hg2].
    + rewrite Forall_forall in Hl1. by destruct (ne_none _ _ _ o' Hl Hg (Hl1 g Hg1) Hog).
    + apply elem_of_cons in Hg2 as [->|Hg2]; [by apply Hmax|].
      assert (not_older f g) as Hno.
      { apply StronglySorted_app_1_r, StronglySorted_inv in Hso as [_ Hall].
        rewrite Forall_forall in Hall. by apply Hall. }
      destruct (vd_level0 _ _ _ Hvd _ _ _ Hl Hff Hg) as [->|[[Hlt Hnw]|[Hlt _]]]; [by apply Hmax| |].
      * destruct Hv as [Hu _], Hv' as [Hu' _].
        assert (Compare (op_key o) (op_key o') = 0) as Heq.
        { change (key_eq (op_key o) (op_key o')). transitivity u; [done|by symmetry]. }
        specialize (Hnw o o' Ho Hog Heq). lia.
      * unfold not_older, NewestFirst in Hno. lia.
  - apply head_omap_None in Eh. rewrite Forall_forall in Eh. intros o' (g & Hg & Hog) Hv'.
    by apply (ne_none _ _ _ o' Hl Hg (Eh g (Hvis g o' Hg Hog Hv')) Hog).
Qed.

(** Other levels: the first file that ends at or after the key. *)
Lemma sorted_level_newest level files :
  files_ v !! S level = Some files ->
  newest_of u s (in_files files) (head (omap ne (candidates (Z.of_nat (S level)) u ikey files))).
Proof.
  intros Hl. pose proof (vd_wf _ _ _ Hvd) as Hwf. pose proof (vw_disjoint _ Hwf _ _ Hl) as Hd.
  pose proof (Forall_lookup_1 _ _ _ _ (vw_files _ Hwf) Hl) as Hfw. unfold candidates.
  destruct (Z.eqb_spec (Z.of_nat (S level)) 0) as [|_]; [lia|]. set (n := length (files_before ikey files)).
  (* a visible entry is in a file from index [n] on, and no earlier than the end of the file before *)
  assert (forall j g o, files !! j = Some g -> o ∈ data g -> visible u s o ->
    exists f, files !! n = Some f /\ Compare (ukey (f_smallest f)) u <= 0 /\ (j = n \/ internal_compare (rep_ (f_largest f)) (op_ikey o) < 0)) as Hvis.
  { intros j g o Hj Ho Hv. assert (g ∈ files) as Hg by (by eapply list_elem_of_lookup_2).
    destruct (vd_file _ _ _ Hvd _ _ _ Hl Hg) as [Hfd _]. destruct (file_data_range _ _ _ Hfd Ho) as [Hlo Hhi].
    pose proof (fd_ok _ _ Hfd) as Hok. rewrite Forall_forall in Hok.
    pose proof (visible_ge u s o (Hok o Ho) Hs Hv) as Hge.
    assert (n <= j)%nat as Hnj.
    { pose proof (filter_prefix_lookup _ _ _ _ (disjoint_before ikey files Hfw Hd) Hj) as Hiff. fold (files_before ikey files) in Hiff. fold n in Hiff.
      destruct (Nat.le_gt_cases n j) as [|Hlt]; [done|]. apply Hiff in Hlt.
      pose proof (internal_le_lt _ _ _ Hhi Hlt). lia. }
    pose proof (lookup_lt_Some _ _ _ Hj). destruct (lookup_lt_is_Some_2 files n) as [f Hf]; [lia|]. exists f. split; [done|]. split.
    - eapply compare_trans; [by eapply (disjoint_smallest files n j)|]. destruct (file_data_has_key _ _ _ _ _ Hfd Ho Hv) as [Hk _].
      pose proof (compare_antisym u (ukey (f_smallest g))). lia.
    - destruct (decide (j = n)) as [|Hne]; [by left|]. right.
      assert (ic (f_largest f) (f_smallest g) < 0) as Hlt; [|by eapply internal_lt_le].
      assert (n < j)%nat as Hnj' by lia. clear -Hd Hf Hj Hnj'. clearbody n. revert n j Hf Hj Hnj'.
      induction Hd as [|h files Hd IH Hh]; intros n j Hf Hj Hnj; [done|]. destruct j as [|j]; [lia|].
      destruct n as [|n]; simpl in *; [|by apply (IH n j); try lia].
      injection Hf as ->. rewrite Forall_forall in Hh. apply Hh. by eapply list_elem_of_lookup_2. }
  destruct (files !! n) as [f|] eqn:Ef.
  2:{ simpl. intros o (g & Hg & Ho) Hv. apply list_elem_of_lookup in Hg as [j Hj].
      destruct (Hvis j g o Hj Ho Hv) as (f & Hf & _). done. }
  assert (f ∈ files) as Hff by (by eapply list_elem_of_lookup_2).
  destruct (Z.ltb_spec (Compare u (ukey (f_smallest f))) 0) as [Hbef|Hin].
  { simpl. intros o (g & Hg & Ho) Hv. apply list_elem_of_lookup in Hg as [j Hj].
    destruct (Hvis j g o Hj Ho Hv) as (f' & [= <-] & Hsm & _). pose proof (compare_antisym u (ukey (f_smallest f))). lia. }
  cbn [omap list_omap]. pose proof (ne_newest _ _ _ Hl Hff) as Hn. destruct (vd_file _ _ _ Hvd _ _ _ Hl Hff) as [Hfd _].
  (* an entry of a later file is older than the last entry of [f], which is visible too *)
  assert (forall o, in_files files o -> visible u s o -> o ∈ data f \/
    exists o2, o2 ∈ data f /\ visible u s o2 /\ op_seq o <= op_seq o2) as Hlater.
  { intros o (g & Hg & Ho) Hv. apply list_elem_of_lookup in Hg as [j Hj].
    destruct (Hvis j g o Hj Ho Hv) as (f' & [= <-] & _ & [->|Hlt]); [left; replace f with g by congruence; done|]. right.
    pose proof (fd_last _ _ Hfd) as Hlast. destruct (last (data f)) as [b|] eqn:Eb; [|done]. injection Hlast as Hlast.
    assert (b ∈ data f) as Hb by (by apply last_Some_elem_of). rewrite <- Hlast in Hlt.
    pose proof (fd_ok _ _ Hfd) as Hok. rewrite Forall_forall in Hok. pose proof (Hok b Hb) as Hbok.
    assert (g ∈ files) as Hg by (by eapply list_elem_of_lookup_2). destruct (vd_file _ _ _ Hvd _ _ _ Hl Hg) as [Hgd _].
    pose proof (fd_ok _ _ Hgd) as Hgok. rewrite Forall_forall in Hgok.
    apply op_lt_cases in Hlt; [|done|by apply Hgok]. destruct Hv as [Hu Hle].
    assert (~ internal_compare (rep_ (f_largest f)) ikey < 0) as Hge.
    { pose proof (filter_prefix_lookup _ _ _ _ (disjoint_before ikey files Hfw Hd) Ef) as Hiff. fold (files_before ikey files) in Hiff.
      fold n in Hiff. rewrite Hiff. lia. }
    rewrite <- Hlast in Hge. apply Z.nlt_ge, op_compare_key in Hge; [|done|done].
    assert (Compare (op_key b) u <= 0) as Hbu by (eapply compare_trans; [|by apply Z.eq_le_incl]; lia).
    pose proof (compare_antisym u (op_key b)). destruct Hge as [Hge|[Hbe Hble]]; [lia|].
    exists b. split; [done|]. split; [done|]. destruct Hlt as [Hlt|[_ Hlt]]; [|done].
    pose proof (proj1 (compare_antisym_eq _ _) Hu) as Hu'.
    assert (Compare (op_key b) u < 0) by (eapply compare_lt_le; [done|lia]). lia. }
  destruct (newest_entry u s (data f)) as [o|]; simpl in *.
  - destruct Hn as (Ho & Hv & Hmax). split; [by exists f|]. split; [done|]. intros o' Ho' Hv'.
    destruct (Hlater o' Ho' Hv') as [Hin'|(o2 & Ho2 & Hv2 & Hle)]; [by apply Hmax|]. specialize (Hmax o2 Ho2 Hv2). lia.
  - intros o' Ho' Hv'. destruct (Hlater o' Ho' Hv') as [Hin'|(o2 & Ho2 & Hv2 & _)]; [by apply (Hn o')|by apply (Hn o2)].
Qed.

(** The levels from index [i] on. *)
Lemma levels_newest levels i :
  (forall j, levels !! j = files_ v !! (i + j)%nat) ->
  newest_of u s (fun o => exists files, files ∈ levels /\ in_files files o)
    (walk ne (search_order (Z.of_nat i) u ikey levels)).2.
Proof.
  revert i. induction levels as [|files levels IH]; intros i Hi; [by intros o (? & ?%elem_of_nil & _)|].
  cbn [search_order]. rewrite walk_result, omap_app.
  assert (omap (fun x => ne x.2) (pair (Z.of_nat i) <$> candidates (Z.of_nat i) u ikey files) =
          omap ne (candidates (Z.of_nat i) u ikey files)) as ->.
  { generalize (candidates (Z.of_nat i) u ikey files). intros l. induction l as [|f l IHl]; [done|]. rewrite fmap_cons. cbn. by rewrite <- IHl. }
  assert (files_ v !! i = Some files) as Hl by (rewrite <- (Nat.add_0_r i); rewrite <- Hi; done).
  assert (newest_of u s (in_files files) (head (omap ne (candidates (Z.of_nat i) u ikey files)))) as Hhere.
  { destruct i as [|i]; [by apply level0_newest|by apply sorted_level_newest]. }
  specialize (IH (S i)). rewrite walk_result in IH. replace (Z.of_nat i + 1) with (Z.of_nat (S i)) by lia.
  assert (forall j, levels !! j = files_ v !! (S i + j)%nat) as Hi' by (intros j; rewrite Nat.add_succ_comm; apply (Hi (S j))).
  specialize (IH Hi'). rewrite head_app. destruct (head (omap ne (candidates _ _ _ files))) as [o|]; simpl.
  - destruct Hhere as (Ho & Hv & Hmax). split; [exists files; split; [by left|done]|]. split; [done|].
    intros o' (files' & Hf' & Ho') Hv'. apply elem_of_cons in Hf' as [->|Hf']; [by apply Hmax|].
    apply list_elem_of_lookup in Hf' as [j Hj]. rewrite Hi' in Hj. destruct Ho as (f & Hf & Ho), Ho' as (g & Hg & Ho').
    assert (Compare (op_key o) (op_key o') = 0) as Heq.
    { change (key_eq (op_key o) (op_key o')). transitivity u; [apply Hv|symmetry; apply Hv']. }
    pose proof (vd_levels _ _ _ Hvd i (S i + j) _ _ f g ltac:(lia) Hl Hj Hf Hg o o' Ho Ho' Heq). lia.
  - destruct (head (omap _ (search_order _ _ _ levels))) as [o|]; simpl in *.
    + destruct IH as ((files' & Hf' & Ho) & Hv & Hmax). split; [exists files'; split; [by right|done]|]. split; [done|].
      intros o' (fl & Hfl & Ho') Hv'. apply elem_of_cons in Hfl as [->|Hfl]; [by destruct (Hhere o' Ho')|]. apply Hmax; eauto.
    + intros o' (fl & Hfl & Ho') Hv'. apply elem_of_cons in Hfl as [->|Hfl]; [by destruct (Hhere o' Ho')|]. apply (IH o'); eauto.
Qed.
End Newest.

(** *** [ForEachOverlapping] visits the files in the order of the search *)

Fixpoint call_order {A} (func : A -> Z -> FilePtr -> A * bool) (arg : A) (order : list (Z * FilePtr)) : A * bool :=
  match order with
  | [] => (arg, true)
  | (l, f) :: order => let '(arg, more) := func arg l f in if more then call_order func arg order else (arg, false)
  end.

Lemma call_order_app {A} (func : A -> Z -> FilePtr -> A * bool) arg xs ys :
  call_order func arg (xs ++ ys) = let '(arg, more) := call_order func arg xs in if more then call_order func arg ys else (arg, false).
Proof.
  revert arg. induction xs as [|[l f] xs IH]; intros arg; [done|]. simpl. destruct (func arg l f) as [arg' [|]]; [apply IH|done].
Qed.

Lemma call_each_order {A} (func : A -> Z -> FilePtr -> A * bool) arg level fs :
  call_each func arg level fs = call_order func arg (pair level <$> fs).
Proof.
  revert arg. induction fs as [|f fs IH]; intros arg; [done|]. simpl. destruct (func arg level f) as [arg' [|]]; [apply IH|done].
Qed.

Lemma for_each_level_spec {A} (func : A -> Z -> FilePtr -> A * bool) levels arg level u k :
  0 <= level -> Forall (Forall file_wf) levels -> Forall (fun files => zlen files < 2 ^ 31) levels ->
  (forall j files, levels !! j = Some files -> level + Z.of_nat j ≠ 0 -> disjoint_sorted files) ->
  for_each_level func arg level levels u k = Ret (call_order func arg (search_order level u k levels)).1.
Proof.
  intros Hl Hwf Hz. revert arg level Hl. induction levels as [|files levels IH]; intros arg level Hl Hd; [done|].
  apply Forall_cons in Hwf as [Hwf Hwfs], Hz as [Hz Hzs]. cbn [for_each_level search_order].
  rewrite files_to_search_spec by (done || (intros ?; apply (Hd O files); [done|lia])). cbn [obind].
  rewrite call_each_order, call_order_app. destruct (call_order func arg _) as [arg' [|]]; [|done].
  apply IH; [done|done|lia|]. intros j fl Hj Hne. apply (Hd (S j) fl); [done|lia].
Qed.

Lemma version_levels_sorted v :
  version_wf v -> forall j files, files_ v !! j = Some files -> 0 + Z.of_nat j ≠ 0 -> disjoint_sorted files.
Proof. intros Hv [|j] files Hj Hne; [lia|]. by apply (vw_disjoint _ Hv j). Qed.

Lemma ForEachOverlapping_spec {A} v (func : A -> Z -> FilePtr -> A * bool) arg u k :
  version_wf v -> ForEachOverlapping v u k arg func = Ret (call_order func arg (search_order 0 u k (files_ v))).1.
Proof.
  intros Hv. apply for_each_level_spec; [done|apply Hv..|by apply version_levels_sorted].
Qed.

(** The callback that notes every call. *)
Definition collect (seen : list (Z * FilePtr)) (level : Z) (f : FilePtr) : list (Z * FilePtr) * bool := (seen ++ [(level, f)], true).

Lemma collect_order seen order : call_order collect seen order = (seen ++ order, true).
Proof.
  revert seen. induction order as [|[l f] order IH]; intros seen; [by rewrite app_nil_r|]. simpl. by rewrite IH, <- app_assoc.
Qed.

Lemma walk_prefix ne order : (walk ne order).1 `prefix_of` order.
Proof.
  induction order as [|[l f] order IH]; [done|]. simpl. destruct (ne f); simpl; [apply prefix_cons, prefix_nil|].
  destruct (walk ne order). by apply prefix_cons.
Qed.

(** A sample of a read charges the first of the files, when there are two. *)
Lemma Match_order order :
  let st := (call_order Match (mkSample (mkGetStats None 0) 0) order).1 in
  (2 <= matches st <-> (2 <= length order)%nat) /\ (2 <= matches st -> sample_stats st = stats_of order).
Proof.
  destruct order as [|[l f] [|[l' f'] order]]; simpl; [lia..|]. split; [lia|done].
Qed.

Lemma RecordReadSample_spec st v u s t :
  version_wf v -> in_range s ->
  let order := search_order 0 u (encode u s t) (files_ v) in
  RecordReadSample st v (encode u s t) =
    if (2 <=? length order)%nat then UpdateStats st v (stats_of order) else Ret (st, v, false).
Proof.
  intros Hv Hs order. unfold RecordReadSample. rewrite ParseInternalKey_encode by done. cbn [pk_user_key].
  rewrite ForEachOverlapping_spec by done. cbn [obind]. fold order. destruct (Match_order order) as [Hm Hst].
  set (state := (call_order Match _ order).1) in *. destruct (Nat.leb_spec 2 (length order)) as [Hge|Hlt].
  - apply Hm in Hge as Hge'. rewrite <- (Hst Hge'). by destruct (Z.leb_spec 2 (matches state)); [|lia].
  - destruct (Z.leb_spec 2 (matches state)) as [Hx|]; [apply Hm in Hx; lia|done].
Qed.

(** *** The read of a version *)

Definition version_has (v : Version) (data : FilePtr -> list entry_op) (o : entry_op) : Prop :=
  exists level files f, files_ v !! level = Some files /\ f ∈ files /\ o ∈ data f.

Lemma levels_Get_spec tc v data options u s k value :
  version_data tc v data -> in_range s -> lk_user_key k = u -> lk_internal_key k = encode u s kValueTypeForSeek ->
  let '(rs, r) := walk (fun f => newest_entry u s (data f)) (search_order 0 u (encode u s kValueTypeForSeek) (files_ v)) in
  exists tc', Get tc options v k value = Ret (tc', answer_value r value, stats_of rs, answer_status r) /\
    newest_of u s (version_has v data) r /\ version_data tc' v data.
Proof.
  intros Hvd Hs Hu Hk. pose proof (vd_wf _ _ _ Hvd) as Hwf. unfold Get. rewrite Hu, Hk.
  pose proof (read_levels_spec tc data options u s Hs (files_ v) 0 [] value
    (mkGetState tc value (mkGetStats None (-1)) None (-1)) ltac:(done) (vw_files _ Hwf) (vw_sizes _ Hwf)
    (version_levels_sorted v Hwf)) as Hr.
  assert (Forall (fun files => Forall (readable tc data) files) (files_ v)) as Hrd.
  { apply Forall_lookup_2. intros i files Hi. apply Forall_forall. intros f Hf. by apply (vd_file _ _ _ Hvd i files). }
  specialize (Hr Hrd ltac:(by repeat split)).
  pose proof (levels_newest tc v data u s Hvd Hs (files_ v) 0 ltac:(done)) as Hn. change (Z.of_nat 0) with 0 in Hn.
  destruct (walk _ _) as [rs r]. destruct Hr as (g & -> & Htc & Hv & Hst & _). cbn [obind]. exists (g_cache g).
  rewrite Hv, Hst. split; [done|]. split.
  - assert (forall o, version_has v data o <-> exists files, files ∈ files_ v /\ in_files data files o) as Heq.
    { intros o. unfold version_has, in_files. setoid_rewrite list_elem_of_lookup. naive_solver. }
    destruct r as [o|]; simpl in *; [|intros o' Ho'; apply Hn; by apply Heq].
    destruct Hn as (Ho & Hvis & Hm). split; [by apply Heq|]. split; [done|]. intros o' Ho'. apply Hm. by apply Heq.
  - destruct Hvd as [H1 H2 H3 H4]. split; [done| |done|done]. intros level files f Hl Hf.
    destruct (H2 level files f Hl Hf) as [Hfd Hh]. split; [done|]. by apply Htc.
Qed.
End Correct.

(** ** A table cache over tables held in memory *)

Section Plain.
Context `{laws : ComparatorLaws}.

(** The tables by number. *)
Abbreviation PlainTables := (list (Z * list entry_op)).

Definition plain_find (tc : PlainTables) (n : Z) : option (list entry_op) := snd <$> head (filter (fun p => p.1 = n) tc).

#[global] Instance Plain_TableCache : TableCache PlainTables := {
  cache_Get tc _ n _ k :=
    match plain_find tc n with
    | Some es => Ret (tc, OK, (fun o => (op_ikey o, op_value o)) <$> first_ge k es)
    | None => Ret (tc, NotFound "", None)
    end;
}.

#[global, refine] Instance Plain_TableCacheLaws : TableCacheLaws PlainTables := {
  tc_holds tc n _ es := plain_find tc n = Some es;
}.
Proof.
  intros tc options n sz es u s Hf Hs. simpl. rewrite Hf. eexists tc, _. split; [reflexivity|]. split; [done|].
  unfold table_answer. destruct (first_ge _ es) as [o|] eqn:E; simpl.
  - destruct (decide (Compare (op_key o) u = 0)) as [He|He]; [left; by exists o|]. right. split; [by intros ? [= <-]|].
    intros ? [= <-]. exists o. split; [|done]. unfold first_ge in E. by apply head_Some_elem_of, list_elem_of_filter in E as [_ ?].
  - right. split; [done|]. done.
Defined.
End Plain.

(** ** The properties *)

(** The contents of the tables of the example. *)
Definition sample_data (f : FilePtr) : list entry_op :=
  if f_number f =? 11 then [mkOp 40 kTypeValue [x63] [x01]; mkOp 48 kTypeDeletion [x67] []; mkOp 41 kTypeValue [x68] [x02]]
  else if f_number f =? 12 then [mkOp 50 kTypeValue [x67] [x03]; mkOp 51 kTypeValue [x6d] [x04]]
  else if f_number f =? 13 then [mkOp 52 kTypeValue [x70] [x05]; mkOp 53 kTypeValue [x71] [x06]]
  else if f_number f =? 7 then [mkOp 20 kTypeValue [x61] [x07]; mkOp 21 kTypeValue [x62] [x08]]
  else if f_number f =? 8 then [mkOp 22 kTypeValue [x64] [x09]; mkOp 23 kTypeValue [x65] [x0a]]
  else if f_number f =? 9 then [mkOp 24 kTypeValue [x78] [x0b]; mkOp 25 kTypeValue [x79] [x0c]]
  else if f_number f =? 5 then [mkOp 10 kTypeValue [x61] [x0d]; mkOp 11 kTypeValue [x63] [x0e]]
  else [mkOp 5 kTypeValue [x63] [x0f]; mkOp 9 kTypeValue [x67] [x10]; mkOp 12 kTypeValue [x7a] [x11]].

Definition sample_tables : list (Z * list entry_op) :=
  (fun f => (f_number f, sample_data f)) <$> concat (files_ sample_version).

#[local] Existing Instances BytewiseComparator BytewiseComparator_laws.

(** Deciding the conditions on the contents. *)
Section Decide.
Context `{laws : ComparatorLaws}.

#[global] Instance entry_op_eq_dec : EqDecision entry_op.
Proof. solve_decision. Defined.

#[global] Instance op_ok_dec o : Decision (op_ok o).
Proof. unfold op_ok, in_range. apply _. Defined.

Fixpoint op_sortedb (es : list entry_op) : bool :=
  match es with
  | [] => true
  | o :: es => forallb (fun o' => internal_compare (op_ikey o) (op_ikey o') <? 0) es && op_sortedb es
  end.

Lemma op_sortedb_sound es : op_sortedb es = true -> StronglySorted op_lt es.
Proof.
  induction es as [|o es IH]; [constructor|]. simpl. intros [Ho Hs]%andb_true_iff. constructor; [by apply IH|].
  rewrite forallb_forall in Ho. apply Forall_forall. intros o' Ho'. apply Z.ltb_lt, Ho. by apply list_elem_of_In.
Qed.

Definition file_datab (f : FilePtr) (es : list entry_op) : bool :=
  bool_decide (Forall op_ok es) && op_sortedb es &&
  bool_decide (op_ikey <$> head es = Some (rep_ (f_smallest f))) && bool_decide (op_ikey <$> last es = Some (rep_ (f_largest f))).

Lemma file_datab_sound f es : file_datab f es = true -> file_data f es.
Proof.
  unfold file_datab. rewrite !andb_true_iff, !bool_decide_eq_true. intros [[[H1 H2%op_sortedb_sound] H3] H4]. by split.
Qed.

Definition newerb (es es' : list entry_op) : bool :=
  forallb (fun o => forallb (fun o' => negb (Compare (op_key o) (op_key o') =? 0) || (op_seq o' <? op_seq o)) es') es.

Lemma newerb_sound es es' : newerb es es' = true -> newer es es'.
Proof.
  unfold newerb. intros Hn o o' Ho Ho' Hc. rewrite forallb_forall in Hn. specialize (Hn o (proj1 (list_elem_of_In _ _) Ho)).
  rewrite forallb_forall in Hn. specialize (Hn o' (proj1 (list_elem_of_In _ _) Ho')). rewrite Hc in Hn. cbn in Hn. lia.
Qed.

Fixpoint levels_newerb (data : FilePtr -> list entry_op) (levels : list (list FilePtr)) : bool :=
  match levels with
  | [] => true
  | files :: levels =>
      forallb (fun f => forallb (fun g => newerb (data f) (data g)) (concat levels)) files && levels_newerb data levels
  end.

Lemma levels_newerb_sound data levels i j files files' f g :
  levels_newerb data levels = true -> (i < j)%nat -> levels !! i = Some files -> levels !! j = Some files' ->
  f ∈ files -> g ∈ files' -> newer (data f) (data g).
Proof.
  revert i j. induction levels as [|fl levels IH]; intros i j Hb Hij Hi Hj Hf Hg; [done|].
  cbn [levels_newerb] in Hb. apply andb_true_iff in Hb as [Hb1 Hb2]. destruct j as [|j]; [lia|].
  destruct i as [|i]; simpl in *; [|by apply (IH i j); try lia]. injection Hi as ->.
  rewrite forallb_forall in Hb1. specialize (Hb1 f (proj1 (list_elem_of_In _ _) Hf)). rewrite forallb_forall in Hb1.
  apply newerb_sound, Hb1. apply in_concat. exists files'. rewrite <- !list_elem_of_In. split; [|done]. by eapply list_elem_of_lookup_2.
Qed.
End Decide.

Lemma sample_version_data : version_data sample_tables sample_version sample_data.
Proof.
  split; [apply sample_version_wf| | |].
  - intros level files f Hl Hf.
    assert (forallb (forallb (fun f => file_datab f (sample_data f) &&
      bool_decide (plain_find sample_tables (f_number f) = Some (sample_data f)))) (files_ sample_version) = true) as Hall by (by vm_compute).
    rewrite forallb_forall in Hall. specialize (Hall files). rewrite <- list_elem_of_In, forallb_forall in Hall.
    specialize (Hall (list_elem_of_lookup_2 _ _ _ Hl) f). rewrite <- list_elem_of_In in Hall.
    specialize (Hall Hf). apply andb_true_iff in Hall as [H1%file_datab_sound H2%bool_decide_eq_true]. done.
  - intros files f g Hfs Hf Hg.
    assert (forallb (fun f => forallb (fun g => bool_decide (f = g) || ((f_number g <? f_number f) && newerb (sample_data f) (sample_data g)) ||
      ((f_number f <? f_number g) && newerb (sample_data g) (sample_data f))) (nth 0 (files_ sample_version) [])) (nth 0 (files_ sample_version) []) = true) as Hall
      by (by vm_compute).
    injection Hfs as <-. rewrite forallb_forall in Hall. specialize (Hall f). rewrite <- list_elem_of_In in Hall. specialize (Hall Hf).
    rewrite forallb_forall in Hall. specialize (Hall g). rewrite <- list_elem_of_In in Hall. specialize (Hall Hg).
    apply orb_true_iff in Hall as [[H1%bool_decide_eq_true|[H1 H2%newerb_sound]%andb_true_iff]%orb_true_iff|[H1 H2%newerb_sound]%andb_true_iff];
      [by left|right; left|right; right]; (split; [lia|done]).
  - intros i j files files' f g. apply levels_newerb_sound. by vm_compute.
Qed.

(** C19: the read of a key through all levels finds the newest version of it. In a version whose
    newer entries of a key are in newer files of level 0 and in lower levels, [Get] at a
    sequence number reads the files [ForEachOverlapping] visits, in that order and up to the
    first that has an answer; it returns the value of the newest entry of the user key that is
    visible at the sequence number, in any file of any level, and NotFound when that entry is a
    deletion or there is none; and it charges the first file when it had to read a second. *)
Theorem version_get `{ComparatorLaws} {TC : Type} `{TableCache TC} `{!TableCacheLaws TC}
    (tc : TC) (v : Version) (data : FilePtr -> list entry_op) (options : ReadOptions) (u : bytes) (s : Z) (value : bytes) :
  version_data tc v data -> in_range s -> zlen u + 8 < 2 ^ 32 ->
  exists k order rs r tc',
    new_LookupKey u s = Ret k /\
    ForEachOverlapping v (lk_user_key k) (lk_internal_key k) [] collect = Ret order /\ rs `prefix_of` order /\
    Get tc options v k value = Ret (tc', answer_value r value, stats_of rs, answer_status r) /\
    newest_of u s (version_has v data) r /\ version_data tc' v data.
Proof.
  intros Hvd Hs Hu. destruct (new_LookupKey_spec u s Hs Hu) as (k & Hk & Huk & Hik & _).
  pose proof (levels_Get_spec tc v data options u s k value Hvd Hs Huk Hik) as Hg.
  pose proof (walk_prefix (fun f => newest_entry u s (data f)) (search_order 0 u (encode u s kValueTypeForSeek) (files_ v))) as Hp.
  destruct (walk _ _) as [rs r]. destruct Hg as (tc' & Hg & Hn & Hvd').
  exists k, (search_order 0 u (encode u s kValueTypeForSeek) (files_ v)), rs, r, tc'. split; [done|].
  rewrite Huk, Hik, ForEachOverlapping_spec, collect_order by apply Hvd. done.
Qed.

Lemma version_get_witness :
  exists k order rs r tc',
    new_LookupKey [x67] 49 = Ret k /\
    ForEachOverlapping sample_version (lk_user_key k) (lk_internal_key k) [] collect = Ret order /\ rs `prefix_of` order /\
    Get sample_tables (mkReadOptions false true) sample_version k [] = Ret (tc', answer_value r [], stats_of rs, answer_status r) /\
    newest_of [x67] 49 (version_has sample_version sample_data) r /\
    answer_status r = NotFound "" /\ seek_file (stats_of rs) = Some (sample_file 12 [x67] 50 [x6d] 51).
Proof.
  destruct (version_get sample_tables sample_version sample_data (mkReadOptions false true) [x67] 49 [] sample_version_data
    ltac:(done) ltac:(done)) as (k & order & rs & r & tc' & Hk & Ho & Hp & Hg & Hn & _).
  exists k, order, rs, r, tc'. split; [done|]. split; [done|]. split; [done|]. split; [done|]. split; [done|].
  assert (k = match new_LookupKey [x67] 49 with Ret k => k | _ => k end) as Ek by (by rewrite Hk).
  rewrite Ek in Hg. clear -Hg. destruct (Get _ _ _ _ _) as [[[[t va] st] status]| |] eqn:E; [|done|done]. injection Hg as _ _ <- <-.
  vm_compute in E. injection E as _ _ <- <-. done.
Defined.
