(* ===== verification/VersionBuilder.v ===== *)
(** * The builder of versions

    [version_set.c], the class [VersionSet::Builder]: applies a sequence of edits to a version
    without building the versions in between, and saves the result. Files are shared between
    versions and counted. *)

From stdpp Require Import gmap sorting.
From Stdlib Require Import SpecFloat.
From S2P Require Import Prelude Coding Env Comparator DbFormat VersionEdit SkipList MemTable Iterator Version.

Open Scope outcome_scope.

(** ** The store of files *)

(** [new] takes the address [fh_next], which no object has had before. *)
Record FileHeap := mkFileHeap { fh_store : FileStore; fh_next : nat }.

Definition set_file (h : FileHeap) (f : FilePtr) (s : FileState) : FileHeap :=
  mkFileHeap (<[f_addr f := s]> (fh_store h)) (fh_next h).

(** [f->refs++]. *)
Definition ref_file (h : FileHeap) (f : FilePtr) : outcome FileHeap :=
  let! s := file_state (fh_store h) f in
  Ret (set_file h f (mkFileState (fs_refs s + 1) (fs_allowed_seeks s))).

(** [f->refs--; if (f->refs <= 0) delete f;]. *)
Definition unref_file (h : FileHeap) (f : FilePtr) : outcome FileHeap :=
  let! s := file_state (fh_store h) f in
  let refs := fs_refs s - 1 in
  if refs <=? 0 then Ret (mkFileHeap (delete (f_addr f) (fh_store h)) (fh_next h))
  else Ret (set_file h f (mkFileState refs (fs_allowed_seeks s))).

Fixpoint unref_files (h : FileHeap) (files : list FilePtr) : outcome FileHeap :=
  match files with
  | [] => Ret h
  | f :: files => let! h := unref_file h f in unref_files h files
  end.

(** [new FileMetaData(...)] with the references and the seeks [Apply] gives it. *)
Definition allowed_seeks_of (size : Z) : Z :=
  let seeks := i32 (size / 16384) in if seeks <? 100 then 100 else seeks.

Definition new_file (h : FileHeap) (f : FileMetaData) : FileHeap * FilePtr :=
  let p := mkFilePtr (fh_next h) (number f) (file_size f) (smallest f) (largest f) in
  (mkFileHeap (<[fh_next h := mkFileState 1 (allowed_seeks_of (file_size f))]> (fh_store h)) (S (fh_next h)), p).

Section Builder.
Context `{user_comparator : Comparator}.

(** ** The builder *)

Definition BySmallestKey (f1 f2 : FilePtr) : outcome bool :=
  let! r := icmp (f_smallest f1) (f_smallest f2) in
  Ret (if negb (r =? 0) then r <? 0 else f_number f1 <? f_number f2).

(** [std::set::insert]: nothing changes when an equivalent element is there. *)
Fixpoint fileset_insert (f : FilePtr) (s : list FilePtr) : outcome (list FilePtr) :=
  match s with
  | [] => Ret [f]
  | g :: s' =>
      let! before := BySmallestKey f g in
      if (before : bool) then Ret (f :: s)
      else
        let! after := BySmallestKey g f in
        if (after : bool) then let! s' := fileset_insert f s' in Ret (g :: s') else Ret s
  end.

(** [deleted_files] is a [std::set] of numbers, [added_files] one of files in the order of
    [BySmallestKey]. *)
Record LevelState := mkLevelState { ls_deleted_files : gset Z; ls_added_files : list FilePtr }.

(** The base is a version: its files. *)
Record Builder := mkBuilder { base_files : list (list FilePtr); levels_ : list LevelState }.

Definition new_Builder (base : list (list FilePtr)) : Builder :=
  mkBuilder base (replicate (Z.to_nat config.kNumLevels) (mkLevelState ∅ [])).

(** An update of [levels_[level]]. *)
Definition update_level (b : Builder) (level : Z) (g : LevelState -> outcome LevelState) : outcome Builder :=
  let! s := vec_at (levels_ b) level in
  let! s := g s in
  Ret (mkBuilder (base_files b) (<[Z.to_nat level := s]> (levels_ b))).

Fixpoint apply_pointers (pointers : list bytes) (l : list (Z * InternalKey)) : outcome (list bytes) :=
  match l with
  | [] => Ret pointers
  | (level, key) :: l =>
      let! _ := vec_at pointers level in
      let! k := Encode key in
      apply_pointers (<[Z.to_nat level := k]> pointers) l
  end.

Fixpoint apply_deletions (b : Builder) (l : list (Z * Z)) : outcome Builder :=
  match l with
  | [] => Ret b
  | (level, num) :: l =>
      let! b := update_level b level (fun s => Ret (mkLevelState ({[num]} ∪ ls_deleted_files s) (ls_added_files s))) in
      apply_deletions b l
  end.

Fixpoint apply_additions (h : FileHeap) (b : Builder) (l : list (Z * FileMetaData)) : outcome (FileHeap * Builder) :=
  match l with
  | [] => Ret (h, b)
  | (level, f) :: l =>
      let '(h, p) := new_file h f in
      let! b := update_level b level (fun s =>
        let! added := fileset_insert p (ls_added_files s) in
        Ret (mkLevelState (ls_deleted_files s ∖ {[f_number p]}) added)) in
      apply_additions h b l
  end.

(** [pointers] is [compact_pointer_] of the version set. *)
Definition Apply (h : FileHeap) (pointers : list bytes) (b : Builder) (edit : VersionEdit)
    : outcome (FileHeap * list bytes * Builder) :=
  let! pointers := apply_pointers pointers (compact_pointers_ edit) in
  let! b := apply_deletions b (deleted_files_ edit) in
  let! (h, b) := apply_additions h b (new_files_ edit) in
  Ret (h, pointers, b).

(** ** Saving *)

(** [files] is [v->files_[level]]. *)
Definition MaybeAddFile (h : FileHeap) (level : Z) (deleted : gset Z) (files : list FilePtr) (f : FilePtr)
    : outcome (FileHeap * list FilePtr) :=
  if bool_decide (f_number f ∈ deleted) then Ret (h, files)
  else
    let! fits :=
      match last files with
      | Some prev => if 0 <? level then let! r := icmp (f_largest prev) (f_smallest f) in Ret (r <? 0) else Ret true
      | None => Ret true
      end in
    assert! fits;
    let! h := ref_file h f in
    Ret (h, files ++ [f]).

(** [std::upper_bound(base_iter, base_end, f, cmp)]: the base files up to the first that comes
    after [f], and the others. *)
Fixpoint upper_bound (f : FilePtr) (base : list FilePtr) : outcome (list FilePtr * list FilePtr) :=
  match base with
  | [] => Ret ([], [])
  | g :: base' =>
      let! after := BySmallestKey f g in
      if (after : bool) then Ret ([], base)
      else let! (l, r) := upper_bound f base' in Ret (g :: l, r)
  end.

Fixpoint add_files (h : FileHeap) (level : Z) (deleted : gset Z) (files fs : list FilePtr) : outcome (FileHeap * list FilePtr) :=
  match fs with
  | [] => Ret (h, files)
  | f :: fs => let! (h, files) := MaybeAddFile h level deleted files f in add_files h level deleted files fs
  end.

(** The loop over the added files, and the remaining base files after it. *)
Fixpoint save_level (h : FileHeap) (level : Z) (deleted : gset Z) (files base added : list FilePtr) : outcome (FileHeap * list FilePtr) :=
  match added with
  | [] => add_files h level deleted files base
  | f :: added =>
      let! (smaller, base) := upper_bound f base in
      let! (h, files) := add_files h level deleted files smaller in
      let! (h, files) := MaybeAddFile h level deleted files f in
      save_level h level deleted files base added
  end.

(** The check of a debug build: no overlap in a level other than 0. *)
Fixpoint no_overlap (files : list FilePtr) : outcome bool :=
  match files with
  | f :: (g :: _) as rest =>
      let! r := icmp (f_largest f) (f_smallest g) in
      if 0 <=? r then Ret false else no_overlap rest
  | _ => Ret true
  end.

Fixpoint save_levels (h : FileHeap) (level : Z) (base : list (list FilePtr)) (levels : list LevelState)
    : outcome (FileHeap * list (list FilePtr)) :=
  match levels with
  | [] => Ret (h, [])
  | s :: levels =>
      let! b := vec_at base 0 in
      let! (h, files) := save_level h level (ls_deleted_files s) [] b (ls_added_files s) in
      let! good := if 0 <? level then no_overlap files else Ret true in
      assert! good;
      let! (h, rest) := save_levels h (level + 1) (tail base) levels in
      Ret (h, files :: rest)
  end.

(** The files of the new version. *)
Definition SaveTo (h : FileHeap) (b : Builder) : outcome (FileHeap * list (list FilePtr)) :=
  save_levels h 0 (base_files b) (levels_ b).

(** The destructor, up to the reference to the base version. *)
Fixpoint release_added (h : FileHeap) (levels : list LevelState) : outcome FileHeap :=
  match levels with
  | [] => Ret h
  | s :: levels => let! h := unref_files h (ls_added_files s) in release_added h levels
  end.

Definition delete_Builder (h : FileHeap) (b : Builder) : outcome FileHeap := release_added h (levels_ b).

(** A builder as the version set uses it: created for a version, given edits one after the
    other, saved and destroyed. *)
Fixpoint apply_all (h : FileHeap) (pointers : list bytes) (b : Builder) (edits : list VersionEdit)
    : outcome (FileHeap * list bytes * Builder) :=
  match edits with
  | [] => Ret (h, pointers, b)
  | e :: edits => let! (h, pointers, b) := Apply h pointers b e in apply_all h pointers b edits
  end.

Definition build (h : FileHeap) (pointers : list bytes) (base : list (list FilePtr)) (edits : list VersionEdit)
    : outcome (FileHeap * list bytes * list (list FilePtr)) :=
  let! (h, pointers, b) := apply_all h pointers (new_Builder base) edits in
  let! (h, files) := SaveTo h b in
  let! h := delete_Builder h b in
  Ret (h, pointers, files).

End Builder.

(** What an abstract version has of a file: size, smallest and largest key. *)
Abbreviation FileInfo := (Z * InternalKey * InternalKey)%type.

(** For each level, the files by number. *)
Abbreviation AbsVersion := (list (gmap Z FileInfo)).

(** ** The order of the files of a level *)

Section Order.
Context `{laws : ComparatorLaws}.

Definition lt_file (f g : FilePtr) : Prop :=
  ic (f_smallest f) (f_smallest g) < 0 \/ (ic (f_smallest f) (f_smallest g) = 0 /\ f_number f < f_number g).

#[global] Instance lt_file_dec f g : Decision (lt_file f g).
Proof. unfold lt_file. apply _. Defined.

Lemma BySmallestKey_spec f g : file_wf f -> file_wf g -> BySmallestKey f g = Ret (bool_decide (lt_file f g)).
Proof.
  intros (Hf & _) (Hg & _). unfold BySmallestKey. rewrite icmp_wf by done. cbn [obind]. f_equal.
  apply eq_bool_prop_intro. rewrite bool_decide_spec. unfold lt_file.
  destruct (Z.eqb_spec (ic (f_smallest f) (f_smallest g)) 0); cbn [negb]; rewrite Is_true_true; lia.
Qed.

#[global] Instance lt_file_trans : Transitive lt_file.
Proof.
  intros f g h. unfold lt_file, ic. set (a := rep_ (f_smallest f)). set (b := rep_ (f_smallest g)). set (c := rep_ (f_smallest h)).
  intros Hab Hbc. pose proof (internal_lt_le a b c). pose proof (internal_le_lt a b c). pose proof (internal_trans a b c).
  pose proof (internal_trans c b a). pose proof (internal_antisym a b). pose proof (internal_antisym b a).
  pose proof (internal_antisym b c). pose proof (internal_antisym c b). pose proof (internal_antisym a c). pose proof (internal_antisym c a). lia.
Qed.

Lemma lt_file_irrefl f : ~ lt_file f f.
Proof. unfold lt_file. rewrite ic_refl. lia. Qed.

Lemma lt_file_total f g : f_number f ≠ f_number g -> ~ lt_file f g -> lt_file g f.
Proof.
  unfold lt_file. intros Hne Hn. pose proof (ic_antisym (f_smallest f) (f_smallest g)). pose proof (ic_antisym (f_smallest g) (f_smallest f)). lia.
Qed.

Definition numbers (files : list FilePtr) : list Z := f_number <$> files.

Definition sorted_files (files : list FilePtr) : Prop := StronglySorted lt_file files.

Lemma fileset_insert_spec f s :
  file_wf f -> Forall file_wf s -> sorted_files s -> f_number f ∉ numbers s ->
  exists s', fileset_insert f s = Ret s' /\ s' ≡ₚ f :: s /\ sorted_files s'.
Proof.
  intros Hf Hwf Hs. induction Hs as [|g s Hs IH Hg]; intros Hn; cbn [fileset_insert].
  { exists [f]. split; [done|]. split; [done|]. repeat constructor. }
  apply Forall_cons in Hwf as [Hgw Hwf]. unfold numbers in Hn. rewrite fmap_cons, not_elem_of_cons in Hn. destruct Hn as [Hne Hn].
  rewrite !BySmallestKey_spec by done. cbn [obind]. case_bool_decide as Hlt.
  - exists (f :: g :: s). split; [done|]. split; [done|]. constructor; [by constructor|]. constructor; [done|].
    eapply Forall_impl; [done|]. intros x Hx. by transitivity g.
  - apply lt_file_total in Hlt; [|done]. rewrite bool_decide_eq_true_2 by done.
    destruct (IH Hwf Hn) as (s' & -> & Hp & Hs'). cbn [obind]. exists (g :: s'). split; [done|]. split; [rewrite Hp; constructor|].
    constructor; [done|]. rewrite Hp. by constructor.
Qed.

(** ** Merging *)

Fixpoint ub (f : FilePtr) (base : list FilePtr) : list FilePtr * list FilePtr :=
  match base with
  | [] => ([], [])
  | g :: base' => if decide (lt_file f g) then ([], base) else let '(l, r) := ub f base' in (g :: l, r)
  end.

Fixpoint merged (base added : list FilePtr) : list FilePtr :=
  match added with
  | [] => base
  | f :: added => let '(l, r) := ub f base in l ++ f :: merged r added
  end.

Lemma ub_app f base : (ub f base).1 ++ (ub f base).2 = base.
Proof.
  induction base as [|g base IH]; [done|]. simpl. destruct (decide (lt_file f g)); [done|]. destruct (ub f base). simpl in *. by f_equal.
Qed.

Lemma upper_bound_spec f base : file_wf f -> Forall file_wf base -> upper_bound f base = Ret (ub f base).
Proof.
  intros Hf. induction 1 as [|g base Hg Hb IH]; [done|]. cbn [upper_bound ub]. rewrite BySmallestKey_spec by done. cbn [obind].
  case_bool_decide as Hlt; [by rewrite decide_True|]. rewrite decide_False, IH by done. cbn [obind]. by destruct (ub f base).
Qed.

Lemma merged_perm base added : merged base added ≡ₚ base ++ added.
Proof.
  revert base. induction added as [|f added IH]; intros base; simpl; [by rewrite app_nil_r|].
  pose proof (ub_app f base) as Hub. destruct (ub f base) as [l r]. simpl in Hub. rewrite IH, <- Hub. solve_Permutation.
Qed.

Lemma ub_sorted f base :
  sorted_files base -> f_number f ∉ numbers base ->
  Forall (fun g => lt_file g f) (ub f base).1 /\ Forall (lt_file f) (ub f base).2.
Proof.
  intros Hs. induction Hs as [|g base Hs IH Hg]; intros Hn; [done|]. unfold numbers in Hn. rewrite fmap_cons, not_elem_of_cons in Hn.
  destruct Hn as [Hne Hn]. simpl. destruct (decide (lt_file f g)) as [Hlt|Hlt].
  - split; [constructor|]. constructor; [done|]. eapply Forall_impl; [done|]. intros x Hx. by transitivity g.
  - apply lt_file_total in Hlt; [|done]. destruct (IH Hn) as [Hl Hr]. destruct (ub f base). simpl in *. split; [by constructor|done].
Qed.

Lemma merged_sorted base added :
  sorted_files base -> sorted_files added -> NoDup (numbers (base ++ added)) -> sorted_files (merged base added).
Proof.
  intros Hb Ha. revert base Hb. induction Ha as [|f added Ha IH Hf]; intros base Hb Hn; simpl; [done|].
  assert (f_number f ∉ numbers base) as Hfb.
  { unfold numbers in *. rewrite fmap_app, NoDup_app in Hn. destruct Hn as (_ & Hd & _). intros Hin. apply (Hd _ Hin). rewrite fmap_cons. by left. }
  pose proof (ub_sorted f base Hb Hfb) as [Hl Hr]. pose proof (ub_app f base) as Hub. destruct (ub f base) as [l r]. simpl in *. subst base.
  assert (sorted_files (merged r added)) as Hm.
  { apply IH; [by eapply StronglySorted_app_1_r|]. unfold numbers in *. rewrite <- app_assoc, !fmap_app, fmap_cons in Hn.
    rewrite fmap_app. apply NoDup_app in Hn as (_ & _ & Hn). apply NoDup_app in Hn as (Hnr & Hd & Hna).
    apply NoDup_cons in Hna as [_ Hna]. apply NoDup_app. split; [done|]. split; [|done]. intros x Hx Hx'. apply (Hd x Hx). by right. }
  assert (Forall (lt_file f) (merged r added)) as Hfm by (rewrite merged_perm; by apply Forall_app).
  apply StronglySorted_app. split; [|split; [by eapply StronglySorted_app_1_l|by constructor]].
  intros x y Hx Hy. rewrite Forall_forall in Hl, Hfm. specialize (Hl x Hx). apply elem_of_cons in Hy as [->|Hy]; [done|].
  transitivity f; [done|by apply Hfm].
Qed.

(** ** Counted references

    [owned a]: how often the object at address [a] is pointed to. *)

Definition occ (a : nat) (files : list FilePtr) : Z := zlen (filter (fun f => f_addr f = a) files).

Definition counts (h : FileHeap) (owned : nat -> Z) : Prop :=
  forall a, (a < fh_next h)%nat /\ match fh_store h !! a with Some s => fs_refs s = owned a /\ 0 < owned a | None => owned a = 0 end \/
            (fh_next h <= a)%nat /\ fh_store h !! a = None /\ owned a = 0.

Lemma occ_nonneg a files : 0 <= occ a files.
Proof. apply zlen_nonneg. Qed.

Lemma occ_cons a f files : occ a (f :: files) = (if decide (f_addr f = a) then 1 else 0) + occ a files.
Proof. unfold occ. rewrite filter_cons. destruct (decide _); [by rewrite zlen_cons|lia]. Qed.

Lemma occ_app a l k : occ a (l ++ k) = occ a l + occ a k.
Proof. unfold occ. by rewrite filter_app, zlen_app. Qed.

Lemma occ_perm a l k : l ≡ₚ k -> occ a l = occ a k.
Proof. intros Hp. unfold occ, zlen. by rewrite Hp. Qed.

Lemma occ_elem f files : f ∈ files -> 0 < occ (f_addr f) files.
Proof.
  intros Hf. apply list_elem_of_split in Hf as (l & k & ->). rewrite occ_app, occ_cons, decide_True by done.
  pose proof (occ_nonneg (f_addr f) l). pose proof (occ_nonneg (f_addr f) k). lia.
Qed.

Lemma counts_proper h owned owned' : (forall a, owned a = owned' a) -> counts h owned -> counts h owned'.
Proof. intros Heq Hc a. specialize (Hc a). by rewrite <- Heq. Qed.

Lemma counts_state h owned f : counts h owned -> 0 < owned (f_addr f) ->
  exists s, file_state (fh_store h) f = Ret s /\ fs_refs s = owned (f_addr f) /\ (f_addr f < fh_next h)%nat.
Proof.
  intros Hc Hp. specialize (Hc (f_addr f)). unfold file_state.
  destruct Hc as [[Hlt Hs]|(_ & _ & H0)]; [|lia]. destruct (fh_store h !! f_addr f) as [s|]; [|lia]. exists s. by destruct Hs.
Qed.

Lemma ref_file_counts h owned f : counts h owned -> 0 < owned (f_addr f) ->
  exists h', ref_file h f = Ret h' /\ counts h' (fun a => owned a + occ a [f]).
Proof.
  intros Hc Hp. destruct (counts_state h owned f Hc Hp) as (s & Hs & Hr & Hlt). unfold ref_file. rewrite Hs. cbn [obind].
  eexists. split; [done|]. intros a. unfold set_file. simpl. rewrite occ_cons. change (occ a []) with 0. specialize (Hc a).
  destruct (decide (f_addr f = a)) as [<-|Hne]; [rewrite lookup_insert_eq|rewrite lookup_insert_ne by done].
  - left. simpl. lia.
  - by replace (owned a + (0 + 0)) with (owned a) by lia.
Qed.

Lemma unref_file_counts h owned f : counts h owned -> 0 < owned (f_addr f) ->
  exists h', unref_file h f = Ret h' /\ counts h' (fun a => owned a - occ a [f]).
Proof.
  intros Hc Hp. destruct (counts_state h owned f Hc Hp) as (s & Hs & Hr & Hlt). unfold unref_file. rewrite Hs. cbn [obind].
  assert (forall a, f_addr f ≠ a -> owned a - occ a [f] = owned a) as Hne.
  { intros a Ha. rewrite occ_cons, decide_False by done. change (occ a []) with 0. lia. }
  assert (occ (f_addr f) [f] = 1) as H1 by (rewrite occ_cons, decide_True by done; done).
  destruct (Z.leb_spec (fs_refs s - 1) 0); (eexists; split; [done|]); intros a; specialize (Hc a); simpl;
    destruct (decide (f_addr f = a)) as [<-|Ha].
  - left. rewrite lookup_delete_eq. lia.
  - by rewrite lookup_delete_ne, Hne by done.
  - left. rewrite lookup_insert_eq. simpl. lia.
  - by rewrite lookup_insert_ne, Hne by done.
Qed.

Lemma unref_files_counts h owned files : counts h owned -> (forall a, occ a files <= owned a) ->
  exists h', unref_files h files = Ret h' /\ counts h' (fun a => owned a - occ a files).
Proof.
  revert h owned. induction files as [|f files IH]; intros h owned Hc Hle; cbn [unref_files].
  { exists h. split; [done|]. eapply counts_proper; [|done]. intros a. change (occ a []) with 0. lia. }
  destruct (unref_file_counts h owned f Hc) as (h1 & -> & Hc1).
  { specialize (Hle (f_addr f)). pose proof (occ_elem f (f :: files) ltac:(by left)). lia. }
  cbn [obind]. destruct (IH h1 _ Hc1) as (h2 & -> & Hc2).
  { intros a. specialize (Hle a). change (f :: files) with ([f] ++ files) in Hle. rewrite occ_app in Hle. lia. }
  exists h2. split; [done|]. eapply counts_proper; [|done]. intros a. change (f :: files) with ([f] ++ files). rewrite occ_app. simpl. lia.
Qed.

Lemma new_file_counts h owned f : counts h owned ->
  let '(h', p) := new_file h f in counts h' (fun a => owned a + occ a [p]).
Proof.
  intros Hc. simpl. intros a. simpl. rewrite occ_cons. change (occ a []) with 0. simpl. specialize (Hc a).
  destruct (decide (fh_next h = a)) as [<-|Hne]; [rewrite lookup_insert_eq|rewrite lookup_insert_ne by done].
  - left. destruct Hc as [|(_ & _ & ->)]; simpl; lia.
  - replace (owned a + (0 + 0)) with (owned a) by lia. destruct Hc as [[Hlt Hc]|(Hge & Hc)]; [left|right]; (split; [lia|done]).
Qed.

(** ** Saving a level *)

Definition kept (deleted : gset Z) (fs : list FilePtr) : list FilePtr := filter (fun f => f_number f ∉ deleted) fs.

Lemma kept_app deleted l k : kept deleted (l ++ k) = kept deleted l ++ kept deleted k.
Proof. apply filter_app. Qed.

(** What the assertion of [MaybeAddFile] needs. *)
Definition level_fits (level : Z) (files : list FilePtr) : Prop := 0 < level -> disjoint_sorted files.

Lemma MaybeAddFile_spec h owned level deleted files f :
  counts h owned -> 0 < owned (f_addr f) -> Forall file_wf (files ++ [f]) -> level_fits level (files ++ kept deleted [f]) ->
  exists h', MaybeAddFile h level deleted files f = Ret (h', files ++ kept deleted [f]) /\
    counts h' (fun a => owned a + occ a (kept deleted [f])).
Proof.
  intros Hc Hp Hwf Hfit. unfold MaybeAddFile, kept in *. rewrite filter_cons in *. case_bool_decide as Hd.
  { rewrite decide_False in * by (by intros ?). exists h. rewrite filter_nil, app_nil_r. split; [done|].
    eapply counts_proper; [|done]. intros a. change (occ a []) with 0. lia. }
  rewrite decide_True, filter_nil in * by done.
  assert ((match last files with
           | Some prev => if 0 <? level then let! r := icmp (f_largest prev) (f_smallest f) in Ret (r <? 0) else Ret true
           | None => Ret true end) = Ret true) as ->.
  { destruct (last files) as [prev|] eqn:El; [|done]. destruct (Z.ltb_spec 0 level) as [Hl|]; [|done].
    assert (prev ∈ files) as Hin by (by apply last_Some_elem_of). apply Forall_app in Hwf as [Hw Hwf].
    apply Forall_cons in Hwf as [(Hfs & _) _]. rewrite Forall_forall in Hw. destruct (Hw prev Hin) as (_ & Hpl & _).
    rewrite icmp_wf by done. cbn [obind]. f_equal. apply Z.ltb_lt. specialize (Hfit Hl). unfold disjoint_sorted in Hfit.
    apply StronglySorted_app in Hfit as (Hfit & _). apply Hfit; [done|by left]. }
  cbn [obind oassert]. destruct (ref_file_counts h owned f Hc Hp) as (h' & -> & Hc'). cbn [obind]. by exists h'.
Qed.

Lemma add_files_spec h owned level deleted files fs :
  counts h owned -> (forall f, f ∈ fs -> 0 < owned (f_addr f)) -> Forall file_wf (files ++ fs) ->
  level_fits level (files ++ kept deleted fs) ->
  exists h', add_files h level deleted files fs = Ret (h', files ++ kept deleted fs) /\
    counts h' (fun a => owned a + occ a (kept deleted fs)).
Proof.
  revert h owned files. induction fs as [|f fs IH]; intros h owned files Hc Hp Hwf Hfit; cbn [add_files].
  { exists h. unfold kept. rewrite filter_nil, app_nil_r. split; [done|]. eapply counts_proper; [|done]. intros a. change (occ a []) with 0. lia. }
  change (f :: fs) with ([f] ++ fs) in Hwf, Hfit. rewrite kept_app in Hfit. rewrite app_assoc in Hwf, Hfit.
  apply Forall_app in Hwf as [Hwf1 Hwf2].
  destruct (MaybeAddFile_spec h owned level deleted files f) as (h1 & -> & Hc1); [done|apply Hp; by left|done| |].
  { intros Hl. specialize (Hfit Hl). by eapply StronglySorted_app_1_l. }
  cbn [obind]. destruct (IH h1 _ (files ++ kept deleted [f]) Hc1) as (h2 & -> & Hc2).
  - intros g Hg. specialize (Hp g ltac:(by right)). pose proof (occ_nonneg (f_addr g) (kept deleted [f])). simpl. lia.
  - apply Forall_app. split; [|done]. apply Forall_app in Hwf1 as [Hw1 Hw2]. apply Forall_app. split; [done|]. by apply Forall_filter.
  - done.
  - exists h2. change (f :: fs) with ([f] ++ fs). rewrite kept_app, app_assoc. split; [done|]. eapply counts_proper; [|done].
    intros a. rewrite occ_app. simpl. lia.
Qed.

(** Saving a level adds the files of the merged sequence one after the other. *)
Lemma save_level_merged h owned level deleted files base added :
  counts h owned -> (forall f, f ∈ base ++ added -> 0 < owned (f_addr f)) -> Forall file_wf (files ++ base ++ added) ->
  level_fits level (files ++ kept deleted (merged base added)) ->
  exists h', save_level h level deleted files base added = Ret (h', files ++ kept deleted (merged base added)) /\
    counts h' (fun a => owned a + occ a (kept deleted (merged base added))).
Proof.
  revert h owned files base. induction added as [|f added IH]; intros h owned files base Hc Hp Hwf Hfit; cbn [save_level merged].
  { rewrite app_nil_r in *. by apply add_files_spec. }
  apply Forall_app in Hwf as [Hwf Hwf2]. apply Forall_app in Hwf2 as [Hwb Hwa]. apply Forall_cons in Hwa as [Hwf1 Hwa].
  rewrite upper_bound_spec by done. cbn [obind merged] in *. pose proof (ub_app f base) as Hub. destruct (ub f base) as [l r]. simpl in Hub. subst base.
  apply Forall_app in Hwb as [Hwl Hwr]. rewrite kept_app in Hfit. change (f :: merged r added) with ([f] ++ merged r added) in *.
  rewrite kept_app in Hfit. rewrite !app_assoc in Hfit.
  assert (forall l k, level_fits level (l ++ k) -> level_fits level l) as Hpre.
  { intros ? ? Hf Hl. specialize (Hf Hl). by eapply StronglySorted_app_1_l. }
  destruct (add_files_spec h owned level deleted files l) as (h1 & -> & Hc1); [done| | |by do 2 eapply Hpre|].
  { intros g Hg. apply Hp. set_solver. }
  { by apply Forall_app. }
  cbn [obind]. destruct (MaybeAddFile_spec h1 _ level deleted (files ++ kept deleted l) f Hc1) as (h2 & -> & Hc2).
  { specialize (Hp f ltac:(set_solver)). pose proof (occ_nonneg (f_addr f) (kept deleted l)). simpl. lia. }
  { rewrite !Forall_app, Forall_singleton. split; [split; [done|by apply Forall_filter]|done]. }
  { by eapply Hpre. }
  cbn [obind]. destruct (IH h2 _ ((files ++ kept deleted l) ++ kept deleted [f]) r Hc2) as (h3 & -> & Hc3).
  { intros g Hg. specialize (Hp g ltac:(set_solver)). pose proof (occ_nonneg (f_addr g) (kept deleted l)).
    pose proof (occ_nonneg (f_addr g) (kept deleted [f])). simpl. lia. }
  { rewrite !Forall_app. repeat split; try done; try (by apply Forall_filter). apply Forall_filter. by constructor. }
  { done. }
  exists h3. rewrite !kept_app, !app_assoc. split; [done|]. eapply counts_proper; [|done]. intros a. rewrite !occ_app. simpl. lia.
Qed.

Lemma no_overlap_spec files : Forall file_wf files -> disjoint_sorted files -> no_overlap files = Ret true.
Proof.
  intros Hwf Hs. revert Hwf. induction Hs as [|f files Hs IH Hf]; intros Hwf; [done|]. apply Forall_cons in Hwf as [(_ & Hfl & _) Hwf].
  cbn [no_overlap]. destruct files as [|g files]; [done|]. apply Forall_cons in Hf as [Hfg _]. pose proof Hwf as Hwf'.
  apply Forall_cons in Hwf' as [(Hgs & _) _]. rewrite icmp_wf by done. cbn [obind].
  destruct (Z.leb_spec 0 (ic (f_largest f) (f_smallest g))); [lia|]. by apply IH.
Qed.

(** ** The abstract state *)

Definition info (f : FilePtr) : FileInfo := (f_file_size f, f_smallest f, f_largest f).

Definition meta_info (f : FileMetaData) : FileInfo := (file_size f, smallest f, largest f).

Definition abs_delete (a : AbsVersion) (d : Z * Z) : AbsVersion := alter (delete d.2) (Z.to_nat d.1) a.

Definition abs_add (a : AbsVersion) (n : Z * FileMetaData) : AbsVersion :=
  alter (insert (number n.2) (meta_info n.2)) (Z.to_nat n.1) a.

(** An edit first deletes files, then adds files. *)
Definition abs_apply (a : AbsVersion) (e : VersionEdit) : AbsVersion :=
  foldl abs_add (foldl abs_delete a (deleted_files_ e)) (new_files_ e).

Definition abs_empty : AbsVersion := replicate (Z.to_nat config.kNumLevels) ∅.

Definition denotes (files : list FilePtr) (m : gmap Z FileInfo) : Prop :=
  forall n x, m !! n = Some x <-> exists f, f ∈ files /\ f_number f = n /\ info f = x.

(** The files of a version, level by level. *)
Definition denotes_levels (levels : list (list FilePtr)) (a : AbsVersion) : Prop := Forall2 denotes levels a.

(** ** The invariant of a builder *)

Record level_state_wf (base : list FilePtr) (s : LevelState) : Prop := mkLevelWf {
  lw_files : Forall file_wf (base ++ ls_added_files s);
  lw_base : sorted_files base;
  lw_added : sorted_files (ls_added_files s);
  lw_numbers : NoDup (numbers (base ++ ls_added_files s));
}.

Record builder_wf (b : Builder) : Prop := mkBuilderWf {
  bw_base : length (base_files b) = Z.to_nat config.kNumLevels;
  bw_length : length (levels_ b) = Z.to_nat config.kNumLevels;
  bw_level i base s : base_files b !! i = Some base -> levels_ b !! i = Some s -> level_state_wf base s;
}.

(** The files a builder stands for. *)
Definition level_files (base : list FilePtr) (s : LevelState) : list FilePtr := kept (ls_deleted_files s) (base ++ ls_added_files s).

Definition builder_denotes (b : Builder) (a : AbsVersion) : Prop :=
  length a = Z.to_nat config.kNumLevels /\
  forall i base s m, base_files b !! i = Some base -> levels_ b !! i = Some s -> a !! i = Some m -> denotes (level_files base s) m.

Definition all_added (b : Builder) : list FilePtr := concat (ls_added_files <$> levels_ b).

(** The file numbers a level of the builder has seen. *)
Definition uses (b : Builder) (level : Z) (n : Z) : Prop :=
  exists base s, base_files b !! Z.to_nat level = Some base /\ levels_ b !! Z.to_nat level = Some s /\ n ∈ numbers (base ++ ls_added_files s).

Lemma denotes_delete base s n m :
  denotes (level_files base s) m ->
  denotes (level_files base (mkLevelState ({[n]} ∪ ls_deleted_files s) (ls_added_files s))) (delete n m).
Proof.
  unfold denotes, level_files, kept. simpl. intros Hd k x. rewrite lookup_delete_Some, Hd. setoid_rewrite list_elem_of_filter. split.
  - intros [Hne (f & [Hf Hin] & <- & Hx)]. exists f. split; [|done]. split; [|done]. set_solver.
  - intros (f & [Hf Hin] & <- & Hx). split; [set_solver|]. exists f. split; [|done]. split; [|done]. set_solver.
Qed.

Lemma denotes_insert base s added f m :
  denotes (level_files base s) m -> added ≡ₚ f :: ls_added_files s -> f_number f ∉ numbers (base ++ ls_added_files s) ->
  denotes (level_files base (mkLevelState (ls_deleted_files s ∖ {[f_number f]}) added)) (<[f_number f := info f]> m).
Proof.
  unfold denotes, level_files, kept. simpl. intros Hd Hp Hn k x.
  assert (forall g, g ∈ base ++ ls_added_files s -> f_number g ≠ f_number f) as Hne.
  { intros g Hg Heq. apply Hn. rewrite <- Heq. by apply list_elem_of_fmap_2. }
  assert (forall g, g ∈ base ++ added <-> g = f \/ g ∈ base ++ ls_added_files s) as Hin.
  { intros g. rewrite Hp, !elem_of_app, elem_of_cons. tauto. }
  setoid_rewrite list_elem_of_filter. rewrite lookup_insert_Some, Hd. setoid_rewrite list_elem_of_filter. setoid_rewrite Hin. split.
  - intros [[<- <-]|[Hk (g & [Hg Hg'] & <- & Hx)]]; [exists f|exists g]; (split; [|done]); (split; [set_solver|]); auto.
  - intros (g & [Hg [->|Hg']] & <- & <-); [by left|]. right. split; [by apply not_eq_sym, Hne|]. exists g. split; [|done]. split; [|done].
    specialize (Hne g Hg'). set_solver.
Qed.

Lemma level_index b level : builder_wf b -> level_ok level ->
  exists base s, base_files b !! Z.to_nat level = Some base /\ levels_ b !! Z.to_nat level = Some s /\ vec_at (levels_ b) level = Ret s.
Proof.
  intros [Hb Hl _] Hlev. unfold level_ok in Hlev.
  destruct (lookup_lt_is_Some_2 (base_files b) (Z.to_nat level)) as [base Hbase]; [lia|].
  destruct (lookup_lt_is_Some_2 (levels_ b) (Z.to_nat level)) as [s Hs]; [lia|]. exists base, s. split; [done|]. split; [done|].
  apply vec_at_lookup in Hs as Hv. by rewrite Z2Nat.id in Hv by lia.
Qed.

(** Replacing the state of one level. *)
Lemma update_level_wf b level base s s' :
  builder_wf b -> base_files b !! Z.to_nat level = Some base -> levels_ b !! Z.to_nat level = Some s -> level_state_wf base s' ->
  builder_wf (mkBuilder (base_files b) (<[Z.to_nat level := s']> (levels_ b))).
Proof.
  intros [Hb Hl Hlv] Hbase Hs Hw. split; simpl; [done|by rewrite length_insert|]. intros i base' s2 Hi Hs2.
  apply list_lookup_insert_Some in Hs2 as [(<- & <- & _)|[_ Hs2]]; [|by eapply Hlv]. by assert (base' = base) as -> by congruence.
Qed.

Lemma update_level_denotes b level base s s' a g :
  base_files b !! Z.to_nat level = Some base -> levels_ b !! Z.to_nat level = Some s ->
  builder_denotes b a -> (forall m, denotes (level_files base s) m -> denotes (level_files base s') (g m)) ->
  builder_denotes (mkBuilder (base_files b) (<[Z.to_nat level := s']> (levels_ b))) (alter g (Z.to_nat level) a).
Proof.
  intros Hbase Hs [Hla Hd] Hg. split; [by rewrite length_alter|]. simpl. intros i base' s2 m Hi Hs2 Hm.
  apply list_lookup_insert_Some in Hs2 as [(<- & <- & _)|[Hne Hs2]].
  - rewrite list_lookup_alter_eq in Hm. destruct (a !! Z.to_nat level) as [m0|] eqn:Em; [|done]. injection Hm as <-.
    assert (base' = base) as -> by congruence. apply Hg. by eapply Hd.
  - rewrite list_lookup_alter_ne in Hm by done. by eapply Hd.
Qed.

Lemma apply_deletions_spec b a l :
  builder_wf b -> builder_denotes b a -> Forall (fun d => level_ok d.1) l ->
  exists b', apply_deletions b l = Ret b' /\ builder_wf b' /\ builder_denotes b' (foldl abs_delete a l) /\
    base_files b' = base_files b /\ ls_added_files <$> levels_ b' = ls_added_files <$> levels_ b.
Proof.
  intros Hw Hd Hl. revert b a Hw Hd. induction Hl as [|[level n] l Hlev Hl IH]; intros b a Hw Hd; cbn [apply_deletions foldl]; [by exists b|].
  destruct (level_index b level Hw Hlev) as (base & s & Hbase & Hs & Hv). unfold update_level. rewrite Hv. cbn [obind].
  set (s' := mkLevelState _ _). destruct (IH (mkBuilder (base_files b) (<[Z.to_nat level := s']> (levels_ b))) (abs_delete a (level, n)))
    as (b' & Hb' & Hw' & Hd' & Hbf & Haf).
  - eapply update_level_wf; [done|done|done|]. destruct (bw_level _ Hw _ _ _ Hbase Hs). by split.
  - eapply update_level_denotes; [done|done|done|]. intros m. apply denotes_delete.
  - exists b'. split; [done|]. split; [done|]. split; [done|]. split; [done|]. rewrite Haf. simpl. rewrite list_fmap_insert. simpl.
    apply list_insert_id. by rewrite list_lookup_fmap, Hs.
Qed.

Lemma occ_concat_insert a (l : list (list FilePtr)) i old new :
  l !! i = Some old -> occ a (concat (<[i := new]> l)) = occ a (concat l) - occ a old + occ a new.
Proof.
  revert i. induction l as [|x l IH]; intros i Hi; [done|]. destruct i as [|i]; simpl in *.
  - injection Hi as ->. rewrite !occ_app. lia.
  - rewrite !occ_app, (IH i Hi). lia.
Qed.

(** A file of an edit, with the keys and the level it should have. *)
Definition new_file_wf (n : Z * FileMetaData) : Prop :=
  level_ok n.1 /\ file_wf (mkFilePtr 0 (number n.2) (file_size n.2) (smallest n.2) (largest n.2)).

Definition file_pair (n : Z * FileMetaData) : Z * Z := (n.1, number n.2).

Lemma apply_additions_spec h own b a l :
  builder_wf b -> builder_denotes b a -> counts h (fun x => own x + occ x (all_added b)) -> Forall new_file_wf l ->
  NoDup (file_pair <$> l) -> (forall n, n ∈ l -> ~ uses b n.1 (number n.2)) ->
  exists h' b', apply_additions h b l = Ret (h', b') /\ builder_wf b' /\ builder_denotes b' (foldl abs_add a l) /\
    counts h' (fun x => own x + occ x (all_added b')) /\ base_files b' = base_files b /\
    forall level n, level_ok level -> uses b' level n <-> uses b level n \/ (level, n) ∈ file_pair <$> l.
Proof.
  intros Hw Hd Hc Hl. revert h b a Hw Hd Hc. induction Hl as [|[level f] l [Hlev Hfw] Hl IH]; intros h b a Hw Hd Hc Hnd Hfr; cbn [apply_additions foldl].
  { exists h, b. do 5 (split; [done|]). intros. split; [by left|]. intros [|Hx]; [done|]. by apply elem_of_nil in Hx. }
  rewrite fmap_cons in Hnd. apply NoDup_cons in Hnd as [Hnin Hnd]. cbn [fst snd] in Hlev, Hfw.
  destruct (level_index b level Hw Hlev) as (base & s & Hbase & Hs & Hv). pose proof (new_file_counts h _ f Hc) as Hc'.
  destruct (new_file h f) as [h1 p] eqn:Ep. assert (f_number p = number f /\ info p = meta_info f /\ file_wf p) as (Hpn & Hpi & Hpw).
  { unfold new_file in Ep. injection Ep as _ <-. done. }
  assert (f_number p ∉ numbers (base ++ ls_added_files s)) as Hpf.
  { intros Hin. apply (Hfr (level, f)); [by left|]. exists base, s. rewrite Hpn in Hin. done. }
  destruct (bw_level _ Hw _ _ _ Hbase Hs) as [Hwf Hsb Hsa Hnums].
  destruct (fileset_insert_spec p (ls_added_files s)) as (added & Hins & Hperm & Hsorted); [done|by apply Forall_app in Hwf as [_ ?]|done| |].
  { intros Hin. apply Hpf. unfold numbers. rewrite fmap_app, elem_of_app. by right. }
  unfold update_level. rewrite Hv. cbn [obind]. rewrite Hins. cbn [obind]. set (s' := mkLevelState _ added).
  set (b1 := mkBuilder (base_files b) (<[Z.to_nat level := s']> (levels_ b))).
  assert (forall lv n, level_ok lv -> uses b1 lv n <-> uses b lv n \/ (lv, n) = (level, number f)) as Hu1.
  { intros lv n Hlv. unfold uses. simpl. split.
    - intros (base' & s2 & Hb2 & Hs2 & Hn). apply list_lookup_insert_Some in Hs2 as [(Heq & <- & _)|[_ Hs2]]; [|left; by exists base', s2].
      assert (lv = level) as -> by (unfold level_ok in *; lia). assert (base' = base) as -> by congruence. simpl in Hn.
      unfold numbers in Hn. rewrite Hperm, fmap_app, elem_of_app, fmap_cons, elem_of_cons in Hn.
      destruct Hn as [Hn|[->|Hn]]; [left|right; by rewrite Hpn|left]; exists base, s; (do 2 (split; [done|])); unfold numbers; rewrite fmap_app, elem_of_app; auto.
    - intros [(base' & s2 & Hb2 & Hs2 & Hn)|[= -> ->]].
      + destruct (decide (Z.to_nat level = Z.to_nat lv)) as [Heq|Hne].
        * exists base', s'. split; [done|]. rewrite <- Heq. split; [apply list_lookup_insert_eq; by eapply lookup_lt_Some|].
          assert (s2 = s) as -> by congruence. simpl. unfold numbers in *. rewrite fmap_app, elem_of_app in *. rewrite Hperm, fmap_cons, elem_of_cons. tauto.
        * exists base', s2. split; [done|]. by rewrite list_lookup_insert_ne.
      + exists base, s'. split; [done|]. split; [apply list_lookup_insert_eq; by eapply lookup_lt_Some|]. simpl. unfold numbers.
        rewrite fmap_app, Hperm, fmap_cons, Hpn. set_solver. }
  destruct (IH h1 b1 (abs_add a (level, f))) as (h' & b' & Hr & Hw' & Hd' & Hc2 & Hbf & Hu).
  - eapply update_level_wf; [done|done|done|]. subst s'. split; simpl; [|done|done|].
    + apply Forall_app in Hwf as [Hwb Hwa]. apply Forall_app. split; [done|]. rewrite Hperm. by constructor.
    + unfold numbers in *. rewrite Hperm, fmap_app, fmap_cons. rewrite fmap_app in Hnums, Hpf.
      rewrite <- Permutation_middle. by apply NoDup_cons.
  - unfold abs_add. simpl. rewrite <- Hpn, <- Hpi. eapply update_level_denotes; [done|done|done|]. intros m Hm. by apply denotes_insert.
  - eapply counts_proper; [|done]. intros x. simpl. unfold all_added, b1. simpl. rewrite list_fmap_insert.
    rewrite (occ_concat_insert x _ _ (ls_added_files s)) by (by rewrite list_lookup_fmap, Hs). simpl.
    rewrite (occ_perm x _ _ Hperm), (occ_cons x p (ls_added_files s)), (occ_cons x p []). change (occ x []) with 0. lia.
  - done.
  - intros [lv g] Hg. assert (level_ok lv) as Hlv by (rewrite Forall_forall in Hl; by apply (Hl (lv, g))). rewrite Hu1 by done. simpl.
    intros [Hx|[= -> Heq]]; [by apply (Hfr (lv, g)); [by right|]|]. apply Hnin. apply list_elem_of_fmap. exists (level, g).
    unfold file_pair. simpl. by rewrite Heq.
  - exists h', b'. split; [done|]. split; [done|]. split; [done|]. split; [done|]. split; [by rewrite Hbf|]. intros lv n Hlv.
    rewrite Hu, Hu1, fmap_cons, elem_of_cons by done. unfold file_pair at 2. simpl. tauto.
Qed.

(** ** Edits *)

(** An edit a builder can apply: levels that exist and keys that are there. *)
Record edit_wf (e : VersionEdit) : Prop := mkEditWf {
  ew_pointers : Forall (fun p => level_ok p.1 /\ 1 <= zlen (rep_ p.2)) (compact_pointers_ e);
  ew_deleted : Forall (fun d => level_ok d.1) (deleted_files_ e);
  ew_new : Forall new_file_wf (new_files_ e);
}.

Definition edit_pairs (e : VersionEdit) : list (Z * Z) := file_pair <$> new_files_ e.

Definition set_pointers (pointers : list bytes) (l : list (Z * InternalKey)) : list bytes :=
  foldl (fun ps p => <[Z.to_nat p.1 := rep_ p.2]> ps) pointers l.

Lemma apply_pointers_spec pointers l :
  length pointers = Z.to_nat config.kNumLevels -> Forall (fun p => level_ok p.1 /\ 1 <= zlen (rep_ p.2)) l ->
  apply_pointers pointers l = Ret (set_pointers pointers l) /\ length (set_pointers pointers l) = Z.to_nat config.kNumLevels.
Proof.
  intros Hlen Hl. revert pointers Hlen. induction Hl as [|[level k] l [Hlev Hk] Hl IH]; intros pointers Hlen; [done|].
  cbn [apply_pointers set_pointers foldl fst snd] in *. unfold level_ok in Hlev.
  destruct (lookup_lt_is_Some_2 pointers (Z.to_nat level)) as [p Hp]; [lia|].
  apply vec_at_lookup in Hp. rewrite Z2Nat.id in Hp by lia. rewrite Hp. cbn [obind]. unfold Encode.
  destruct (Z.eqb_spec (zlen (rep_ k)) 0); [lia|]. cbn [negb oassert obind]. apply IH. by rewrite length_insert.
Qed.

Lemma Apply_spec h own pointers b a e :
  builder_wf b -> builder_denotes b a -> counts h (fun x => own x + occ x (all_added b)) -> edit_wf e ->
  length pointers = Z.to_nat config.kNumLevels -> NoDup (edit_pairs e) -> (forall l n, (l, n) ∈ edit_pairs e -> ~ uses b l n) ->
  exists h' b', Apply h pointers b e = Ret (h', set_pointers pointers (compact_pointers_ e), b') /\
    builder_wf b' /\ builder_denotes b' (abs_apply a e) /\ counts h' (fun x => own x + occ x (all_added b')) /\
    base_files b' = base_files b /\ (forall level n, level_ok level -> uses b' level n <-> uses b level n \/ (level, n) ∈ edit_pairs e).
Proof.
  intros Hw Hd Hc [Hp Hdl Hn] Hlen Hnd Hfr. unfold Apply. destruct (apply_pointers_spec _ _ Hlen Hp) as [-> _]. cbn [obind].
  destruct (apply_deletions_spec b a _ Hw Hd Hdl) as (b1 & -> & Hw1 & Hd1 & Hbf & Haf). cbn [obind].
  assert (forall l n, uses b1 l n <-> uses b l n) as Hu.
  { intros l n. unfold uses. rewrite Hbf. assert (forall s s', levels_ b1 !! Z.to_nat l = Some s -> levels_ b !! Z.to_nat l = Some s' -> ls_added_files s = ls_added_files s') as Heq.
    { intros s s' Hs Hs'. assert ((ls_added_files <$> levels_ b1) !! Z.to_nat l = Some (ls_added_files s)) as H1 by (by rewrite list_lookup_fmap, Hs).
      rewrite Haf, list_lookup_fmap, Hs' in H1. by injection H1 as ->. }
    assert (is_Some (levels_ b1 !! Z.to_nat l) <-> is_Some (levels_ b !! Z.to_nat l)) as Hsome.
    { rewrite !lookup_lt_is_Some. rewrite (bw_length _ Hw), (bw_length _ Hw1). done. }
    split; intros (base & s & Hb & Hs & Hin).
    - destruct (proj1 Hsome ltac:(by eexists)) as [s' Hs']. exists base, s'. split; [done|]. split; [done|]. by rewrite <- (Heq s s').
    - destruct (proj2 Hsome ltac:(by eexists)) as [s' Hs']. exists base, s'. split; [done|]. split; [done|]. by rewrite (Heq s' s). }
  destruct (apply_additions_spec h own b1 (foldl abs_delete a (deleted_files_ e)) (new_files_ e)) as (h' & b' & -> & Hw' & Hd' & Hc' & Hbf' & Hu'); try done.
  { unfold all_added. by rewrite Haf. }
  { intros n Hin. rewrite Hu. apply Hfr. apply (list_elem_of_fmap_2 file_pair _ _ Hin). }
  cbn [obind]. exists h', b'. split; [done|]. split; [done|]. split; [done|]. split; [done|]. split; [by rewrite Hbf'|].
  intros l n Hl. by rewrite Hu', Hu.
Qed.

Definition edits_pointers (pointers : list bytes) (edits : list VersionEdit) : list bytes :=
  foldl (fun ps e => set_pointers ps (compact_pointers_ e)) pointers edits.

Lemma apply_all_spec h own pointers b a edits :
  builder_wf b -> builder_denotes b a -> counts h (fun x => own x + occ x (all_added b)) -> Forall edit_wf edits ->
  length pointers = Z.to_nat config.kNumLevels -> NoDup (concat (edit_pairs <$> edits)) ->
  (forall l n, (l, n) ∈ concat (edit_pairs <$> edits) -> ~ uses b l n) ->
  exists h' b', apply_all h pointers b edits = Ret (h', edits_pointers pointers edits, b') /\
    builder_wf b' /\ builder_denotes b' (foldl abs_apply a edits) /\ counts h' (fun x => own x + occ x (all_added b')) /\
    base_files b' = base_files b.
Proof.
  intros Hw Hd Hc He. revert h pointers b a Hw Hd Hc. induction He as [|e edits He Hes IH]; intros h pointers b a Hw Hd Hc Hlen Hnd Hfr; cbn [apply_all].
  { by exists h, b. }
  cbn [fmap list_fmap concat] in Hnd, Hfr. apply NoDup_app in Hnd as (Hnd1 & Hdis & Hnd2).
  destruct (Apply_spec h own pointers b a e) as (h1 & b1 & -> & Hw1 & Hd1 & Hc1 & Hbf1 & Hu1); try done.
  { intros l n Hin. apply Hfr. set_solver. }
  cbn [obind]. destruct (IH h1 (set_pointers pointers (compact_pointers_ e)) b1 (abs_apply a e)) as (h2 & b2 & -> & Hw2 & Hd2 & Hc2 & Hbf2); try done.
  { by apply apply_pointers_spec; [|apply He]. }
  { intros l n Hin. assert (level_ok l) as Hl.
    { apply list_elem_of_In, in_concat in Hin as (x & Hx & Hin). apply list_elem_of_In, list_elem_of_fmap in Hx as (e' & -> & He').
      rewrite Forall_forall in Hes. destruct (Hes e' He') as [_ _ Hnew]. apply list_elem_of_In, list_elem_of_fmap in Hin as (nf & [= -> ->] & Hnf).
      rewrite Forall_forall in Hnew. by destruct (Hnew nf Hnf). }
    rewrite Hu1 by done. intros [Hu|Hin']; [apply (Hfr l n); set_solver|by apply (Hdis (l, n))]. }
  exists h2, b2. split; [done|]. split; [done|]. split; [done|]. split; [done|]. by rewrite Hbf2.
Qed.

(** ** Saving all levels *)

(** No two files of the level meet. *)
Definition abs_disjoint (m : gmap Z FileInfo) : Prop :=
  forall n1 n2 x y, n1 ≠ n2 -> m !! n1 = Some x -> m !! n2 = Some y -> ic x.2 y.1.2 < 0 \/ ic y.2 x.1.2 < 0.

Definition levels_disjoint (a : AbsVersion) : Prop := forall i m, a !! S i = Some m -> abs_disjoint m.

Lemma denotes_disjoint fs m :
  Forall file_wf fs -> sorted_files fs -> NoDup (numbers fs) -> denotes fs m -> abs_disjoint m -> disjoint_sorted fs.
Proof.
  intros Hwf Hs Hnd Hd Ha.
  assert (forall f g, f ∈ fs -> g ∈ fs -> lt_file f g -> ic (f_largest f) (f_smallest g) < 0) as Hlt.
  { intros f g Hf Hg Hfg. rewrite Forall_forall in Hwf. destruct (Hwf f Hf) as (_ & _ & Hfw), (Hwf g Hg) as (_ & _ & Hgw).
    destruct (decide (f_number f = f_number g)) as [Heq|Hne].
    { assert (f = g) as ->; [|by apply lt_file_irrefl in Hfg]. apply list_elem_of_lookup in Hf as [i Hi], Hg as [j Hj].
      assert (i = j) as ->; [|congruence]. apply (NoDup_lookup (numbers fs) i j (f_number f)); [done| |]; unfold numbers; rewrite list_lookup_fmap, ?Hi, ?Hj; simpl; congruence. }
    destruct (Ha _ _ (info f) (info g) Hne) as [|Hx]; [apply Hd; by exists f|apply Hd; by exists g|done|]. unfold info in Hx. simpl in Hx.
    unfold lt_file, ic in *. pose proof (internal_le_lt _ _ _ Hgw Hx) as Hy. pose proof (internal_antisym (rep_ (f_smallest g)) (rep_ (f_smallest f))). lia. }
  clear -Hs Hlt. induction Hs as [|f fs Hs IH Hf]; [constructor|]. constructor.
  - apply IH. intros x y Hx Hy. apply Hlt; by right.
  - rewrite Forall_forall in *. intros g Hg. apply Hlt; [by left|by right|by apply Hf].
Qed.

(** What [SaveTo] makes of one level. *)
Definition saved_level (base : list FilePtr) (s : LevelState) : list FilePtr := kept (ls_deleted_files s) (merged base (ls_added_files s)).

Lemma saved_level_spec base s m :
  level_state_wf base s -> denotes (level_files base s) m ->
  denotes (saved_level base s) m /\ sorted_files (saved_level base s) /\ Forall file_wf (saved_level base s) /\ NoDup (numbers (saved_level base s)).
Proof.
  intros [Hwf Hsb Hsa Hnd] Hd. unfold saved_level, level_files, kept in *. pose proof (merged_perm base (ls_added_files s)) as Hp. split; [|split; [|split]].
  - intros n x. rewrite (Hd n x). setoid_rewrite list_elem_of_filter. by setoid_rewrite Hp.
  - pose proof (merged_sorted base (ls_added_files s) Hsb Hsa Hnd) as Hs. clear -Hs. unfold sorted_files in *.
    induction Hs as [|f fs Hs IH Hf]; [constructor|]. rewrite filter_cons. destruct (decide _); [|done]. constructor; [done|]. by apply Forall_filter.
  - apply Forall_filter. by rewrite Hp.
  - assert (NoDup (numbers (merged base (ls_added_files s)))) as Hn by (unfold numbers; by rewrite Hp). clear -Hn. unfold numbers in *.
    induction (merged base (ls_added_files s)) as [|f fs IH]; [constructor|]. rewrite fmap_cons in Hn. apply NoDup_cons in Hn as [Hf Hn].
    rewrite filter_cons. destruct (decide _); [|by apply IH]. rewrite fmap_cons. apply NoDup_cons. split; [|by apply IH].
    intros Hin. apply Hf. apply list_elem_of_fmap in Hin as (g & -> & Hg). apply list_elem_of_filter in Hg as [_ Hg]. by apply list_elem_of_fmap_2.
Qed.

Lemma save_levels_spec h owned level (base : list (list FilePtr)) levels :
  counts h owned -> length base = length levels -> 0 <= level ->
  (forall i b s, base !! i = Some b -> levels !! i = Some s -> level_state_wf b s /\ level_fits (level + Z.of_nat i) (saved_level b s)) ->
  (forall f b, b ∈ base -> f ∈ b -> 0 < owned (f_addr f)) -> (forall f s, s ∈ levels -> f ∈ ls_added_files s -> 0 < owned (f_addr f)) ->
  exists h', save_levels h level base levels = Ret (h', zip_with saved_level base levels) /\
    counts h' (fun a => owned a + occ a (concat (zip_with saved_level base levels))).
Proof.
  revert h owned level base. induction levels as [|s levels IH]; intros h owned level base Hc Hlen Hl Hw Hb Ha; cbn [save_levels].
  { exists h. destruct base; [|done]. split; [done|]. eapply counts_proper; [|done]. intros a. simpl. change (occ a []) with 0. lia. }
  destruct base as [|b base]; [done|]. destruct (Hw O b s eq_refl eq_refl) as [Hlw Hfit]. replace (level + Z.of_nat 0) with level in Hfit by lia.
  change (vec_at (b :: base) 0) with (Ret b). cbn [obind]. pose proof Hlw as [Hwf Hsb Hsa Hnd].
  destruct (save_level_merged h owned level (ls_deleted_files s) [] b (ls_added_files s)) as (h1 & -> & Hc1); [done| |done|done|].
  { intros f Hf. apply elem_of_app in Hf as [Hf|Hf]; [apply (Hb f b); [by left|done]|apply (Ha f s); [by left|done]]. }
  cbn [obind app]. fold (saved_level b s).
  assert ((if 0 <? level then no_overlap (saved_level b s) else Ret true) = Ret true) as ->.
  { destruct (Z.ltb_spec 0 level) as [Hpos|]; [|done]. apply no_overlap_spec; [|by apply Hfit]. unfold saved_level, kept. apply Forall_filter. by rewrite merged_perm. }
  cbn [obind oassert tail]. fold (saved_level b s) in Hc1.
  destruct (IH h1 _ (level + 1) base Hc1) as (h2 & -> & Hc2); [by injection Hlen|lia| | | |].
  { intros i b' s' Hi Hs. destruct (Hw (S i) b' s' Hi Hs) as [? Hf]. split; [done|]. by replace (level + 1 + Z.of_nat i) with (level + Z.of_nat (S i)) by lia. }
  { intros f b' Hb' Hf. specialize (Hb f b' ltac:(by right) Hf). pose proof (occ_nonneg (f_addr f) (saved_level b s)). simpl. lia. }
  { intros f s' Hs' Hf. specialize (Ha f s' ltac:(by right) Hf). pose proof (occ_nonneg (f_addr f) (saved_level b s)). simpl. lia. }
  cbn [obind]. exists h2. split; [done|]. eapply counts_proper; [|done]. intros a. simpl. rewrite occ_app. lia.
Qed.

Lemma release_added_spec h owned levels :
  counts h owned -> (forall a, occ a (concat (ls_added_files <$> levels)) <= owned a) ->
  exists h', release_added h levels = Ret h' /\ counts h' (fun a => owned a - occ a (concat (ls_added_files <$> levels))).
Proof.
  revert h owned. induction levels as [|s levels IH]; intros h owned Hc Hle; cbn [release_added].
  { exists h. split; [done|]. eapply counts_proper; [|done]. intros a. simpl. change (occ a []) with 0. lia. }
  cbn [fmap list_fmap concat] in *.
  assert (forall a, occ a (ls_added_files s) + occ a (concat (ls_added_files <$> levels)) <= owned a) as Hle' by (intros a; rewrite <- occ_app; apply Hle).
  destruct (unref_files_counts h owned (ls_added_files s) Hc) as (h1 & -> & Hc1).
  { intros a. specialize (Hle' a). pose proof (occ_nonneg a (concat (ls_added_files <$> levels))). lia. }
  cbn [obind]. destruct (IH h1 _ Hc1) as (h2 & -> & Hc2).
  { intros a. specialize (Hle' a). lia. }
  exists h2. split; [done|]. eapply counts_proper; [|done]. intros a. rewrite occ_app. simpl. lia.
Qed.

(** ** The whole of a builder's life *)

(** The files of a version, as every builder leaves them. *)
Record levels_wf (levels : list (list FilePtr)) : Prop := mkLevelsWf {
  lv_length : length levels = Z.to_nat config.kNumLevels;
  lv_files : Forall (Forall file_wf) levels;
  lv_sorted : Forall sorted_files levels;
  lv_numbers : Forall (fun fs => NoDup (numbers fs)) levels;
  lv_disjoint i fs : levels !! S i = Some fs -> disjoint_sorted fs;
}.

(** Files are added to a level under numbers that were not used in it. *)
Definition fresh_edits (levels : list (list FilePtr)) (edits : list VersionEdit) : Prop :=
  NoDup (concat (edit_pairs <$> edits)) /\
  forall l n fs, (l, n) ∈ concat (edit_pairs <$> edits) -> levels !! Z.to_nat l = Some fs -> n ∉ numbers fs.

Lemma new_Builder_wf base : levels_wf base -> builder_wf (new_Builder base) /\ all_added (new_Builder base) = [].
Proof.
  intros [Hl Hf Hs Hn _]. split; [|done]. split; [done|by unfold new_Builder; cbn [levels_]; rewrite length_replicate|]. cbn [base_files levels_ new_Builder].
  intros i b s Hb Hs'. apply lookup_replicate in Hs' as [-> _]. split; simpl; rewrite ?app_nil_r.
  - by apply (Forall_lookup_1 _ _ _ _ Hf Hb).
  - by apply (Forall_lookup_1 _ _ _ _ Hs Hb).
  - constructor.
  - by apply (Forall_lookup_1 _ _ _ _ Hn Hb).
Qed.

Lemma new_Builder_denotes base a : levels_wf base -> denotes_levels base a -> builder_denotes (new_Builder base) a.
Proof.
  intros [Hl _ _ _ _] Hd. split; [by rewrite <- (Forall2_length _ _ _ Hd)|]. cbn [base_files levels_ new_Builder]. intros i b s m Hb Hs Hm.
  apply lookup_replicate in Hs as [-> _]. pose proof (Forall2_lookup_lr _ _ _ _ _ _ Hd Hb Hm) as Hdn.
  unfold level_files, kept. simpl. rewrite app_nil_r, filter_all; [done|]. apply Forall_forall. intros f _. apply not_elem_of_empty.
Qed.

Lemma lookup_zip_with_Some' {A B C} (g : A -> B -> C) l k i z :
  zip_with g l k !! i = Some z -> exists x y, l !! i = Some x /\ k !! i = Some y /\ z = g x y.
Proof. rewrite lookup_zip_with_Some. naive_solver. Qed.

(** Saving the builder's state gives the files it stands for. *)
Lemma SaveTo_spec h own b a :
  builder_wf b -> builder_denotes b a -> counts h (fun x => own x + occ x (all_added b)) -> levels_disjoint a ->
  (forall x, 0 <= own x) -> (forall f, f ∈ concat (base_files b) -> 0 < own (f_addr f)) ->
  exists h' files, SaveTo h b = Ret (h', files) /\ levels_wf files /\ denotes_levels files a /\
    counts h' (fun x => own x + occ x (all_added b) + occ x (concat files)).
Proof.
  intros [Hbl Hll Hlv] [Hal Hd] Hc Hdis Hpos Hown. unfold SaveTo.
  assert (forall i base s m, base_files b !! i = Some base -> levels_ b !! i = Some s -> a !! i = Some m ->
    denotes (saved_level base s) m /\ sorted_files (saved_level base s) /\ Forall file_wf (saved_level base s) /\
    NoDup (numbers (saved_level base s)) /\ level_fits (0 + Z.of_nat i) (saved_level base s)) as Hsaved.
  { intros i base s m Hb Hs Hm. destruct (saved_level_spec base s m (Hlv _ _ _ Hb Hs) (Hd _ _ _ _ Hb Hs Hm)) as (H1 & H2 & H3 & H4).
    do 4 (split; [done|]). intros Hp. destruct i as [|i]; [lia|]. by apply (denotes_disjoint _ m); try done; apply (Hdis i). }
  assert (forall i, is_Some (base_files b !! i) -> is_Some (a !! i)) as Hsome.
  { intros i. rewrite !lookup_lt_is_Some. lia. }
  destruct (save_levels_spec h (fun x => own x + occ x (all_added b)) 0 (base_files b) (levels_ b)) as (h' & Hsv & Hc'); try done; [lia| | | |].
  { intros i base s Hb Hs. destruct (Hsome i ltac:(by eexists)) as [m Hm]. destruct (Hsaved i base s m Hb Hs Hm) as (_ & _ & _ & _ & Hf).
    split; [by eapply Hlv|done]. }
  { intros f fs Hfs Hf. assert (0 < own (f_addr f)) by (apply Hown, list_elem_of_In, in_concat; exists fs; by rewrite <- !list_elem_of_In).
    pose proof (occ_nonneg (f_addr f) (all_added b)). simpl. lia. }
  { intros f s Hs Hf. assert (f ∈ all_added b) as Hin.
    { apply list_elem_of_In, in_concat. exists (ls_added_files s). rewrite <- !list_elem_of_In. split; [by apply list_elem_of_fmap_2|done]. }
    pose proof (occ_elem f _ Hin). specialize (Hpos (f_addr f)). simpl. lia. }
  rewrite Hsv. eexists h', _. split; [done|].
  assert (forall i fs, zip_with saved_level (base_files b) (levels_ b) !! i = Some fs ->
    exists base s m, a !! i = Some m /\ fs = saved_level base s /\ base_files b !! i = Some base /\ levels_ b !! i = Some s) as Hlk.
  { intros i fs Hi. apply lookup_zip_with_Some' in Hi as (base & s & Hb & Hs & ->). destruct (Hsome i ltac:(by eexists)) as [m Hm]. by exists base, s, m. }
  split; [|split; [|done]].
  - split; [rewrite length_zip_with; lia|apply Forall_lookup_2..|]; intros i fs Hi; destruct (Hlk _ _ Hi) as (base & s & m & Hm & -> & Hb & Hs);
      destruct (Hsaved _ base s m Hb Hs Hm) as (H1 & H2 & H3 & H4 & H5); try done. apply H5. lia.
  - apply Forall2_same_length_lookup_2; [rewrite length_zip_with; lia|]. intros i fs m' Hi Hm'.
    destruct (Hlk _ _ Hi) as (base & s & m & Hm & -> & Hb & Hs). assert (m' = m) as -> by congruence. by apply (Hsaved i).
Qed.

Lemma build_spec h own pointers base a edits :
  levels_wf base -> denotes_levels base a -> counts h own -> (forall f, f ∈ concat base -> 0 < own (f_addr f)) ->
  length pointers = Z.to_nat config.kNumLevels -> Forall edit_wf edits -> fresh_edits base edits ->
  levels_disjoint (foldl abs_apply a edits) ->
  exists h' files, build h pointers base edits = Ret (h', edits_pointers pointers edits, files) /\ levels_wf files /\
    denotes_levels files (foldl abs_apply a edits) /\ counts h' (fun x => own x + occ x (concat files)).
Proof.
  intros Hb Hd Hc Hown Hlen He [Hnd Hfr] Hdis. unfold build. destruct (new_Builder_wf base Hb) as [Hw Hadd].
  assert (forall x, 0 <= own x) as Hpos.
  { intros x. destruct (Hc x) as [[_ Hx]|(_ & _ & ->)]; [|done]. destruct (fh_store h !! x); lia. }
  destruct (apply_all_spec h own pointers (new_Builder base) a edits) as (h1 & b1 & -> & Hw1 & Hd1 & Hc1 & Hbf); try done.
  { by apply new_Builder_denotes. }
  { eapply counts_proper; [|done]. intros x. rewrite Hadd. change (occ x []) with 0. lia. }
  { intros l n Hin (fs & s & Hfs & Hs & Hn). cbn [base_files levels_ new_Builder] in *. apply lookup_replicate in Hs as [-> _]. cbn [ls_added_files] in Hn. rewrite app_nil_r in Hn. by apply (Hfr l n fs). }
  cbn [obind]. destruct (SaveTo_spec h1 own b1 _ Hw1 Hd1 Hc1 Hdis Hpos) as (h2 & files & -> & Hlw & Hdn & Hc2).
  { rewrite Hbf. done. }
  cbn [obind]. destruct (release_added_spec h2 _ (levels_ b1) Hc2) as (h3 & Hrel & Hc3).
  { intros x. fold (all_added b1). specialize (Hpos x). pose proof (occ_nonneg x (concat files)). lia. }
  unfold delete_Builder. rewrite Hrel. cbn [obind]. exists h3, files. split; [done|]. split; [done|]. split; [done|].
  eapply counts_proper; [|done]. intros x. fold (all_added b1). simpl. lia.
Qed.

(** *** Deciding that edits are well-formed and levels disjoint *)

#[global] Instance level_ok_dec level : Decision (level_ok level).
Proof. unfold level_ok. apply _. Defined.

#[global] Instance new_file_wf_dec n : Decision (new_file_wf n).
Proof. unfold new_file_wf. apply _. Defined.

Definition edit_wfb (e : VersionEdit) : bool :=
  bool_decide (Forall (fun p => level_ok p.1 /\ 1 <= zlen (rep_ p.2)) (compact_pointers_ e)) &&
  bool_decide (Forall (fun d => level_ok d.1) (deleted_files_ e)) && bool_decide (Forall new_file_wf (new_files_ e)).

Lemma edit_wfb_sound e : edit_wfb e = true -> edit_wf e.
Proof. unfold edit_wfb. rewrite !andb_true_iff, !bool_decide_eq_true. intros [[H1 H2] H3]. by split. Qed.

Definition abs_disjointb (m : gmap Z FileInfo) : bool :=
  forallb (fun p => forallb (fun q => (p.1 =? q.1) || (ic p.2.2 q.2.1.2 <? 0) || (ic q.2.2 p.2.1.2 <? 0)) (map_to_list m)) (map_to_list m).

Lemma abs_disjointb_sound m : abs_disjointb m = true -> abs_disjoint m.
Proof.
  unfold abs_disjointb. intros Hb n1 n2 x y Hne Hx%elem_of_map_to_list%list_elem_of_In Hy%elem_of_map_to_list%list_elem_of_In.
  rewrite forallb_forall in Hb. specialize (Hb _ Hx). rewrite forallb_forall in Hb. specialize (Hb _ Hy). cbn [fst snd] in Hb. lia.
Qed.

Lemma levels_disjointb_sound a : forallb abs_disjointb (tail a) = true -> levels_disjoint a.
Proof.
  intros Hb i m Hm. apply abs_disjointb_sound. rewrite forallb_forall in Hb. apply Hb, list_elem_of_In.
  destruct a; [done|]. by eapply list_elem_of_lookup_2.
Qed.
End Order.

(** ** The properties *)

(** C20: the builder computes what the edits say. Started from the files of a version and given
    any sequence of edits (that add files under numbers not used in their level, and whose
    outcome has no overlap in a level other than 0), the builder fails no assertion, and what
    it saves is, level by level, exactly the files one gets by applying the edits one after
    the other, deletions before additions; every level is in the order of [BySmallestKey], and
    disjoint unless it is level 0. The reference counts are exact: after the builder is gone,
    every file object has one reference more for every time the new version lists it. *)
Theorem version_builder_refines `{ComparatorLaws} (h : FileHeap) (own : nat -> Z) (pointers : list bytes)
    (base : list (list FilePtr)) (a : AbsVersion) (edits : list VersionEdit) :
  levels_wf base -> denotes_levels base a -> counts h own -> (forall f, f ∈ concat base -> 0 < own (f_addr f)) ->
  length pointers = Z.to_nat config.kNumLevels -> Forall edit_wf edits -> fresh_edits base edits ->
  levels_disjoint (foldl abs_apply a edits) ->
  exists h' files, build h pointers base edits = Ret (h', edits_pointers pointers edits, files) /\ levels_wf files /\
    denotes_levels files (foldl abs_apply a edits) /\ counts h' (fun x => own x + occ x (concat files)).
Proof. apply build_spec. Qed.

#[local] Existing Instances BytewiseComparator BytewiseComparator_laws.

Definition sample_meta (n : Z) (lo hi : bytes) : FileMetaData :=
  new_FileMetaData n 100 (mkInternalKey (encode lo n kTypeValue)) (mkInternalKey (encode hi n kTypeValue)).

(** Three files, then a move of one of them to the next level and a new one. *)
Definition sample_edits : list VersionEdit :=
  [ push_file 0 (sample_meta 9 [x61] [x7a]) (push_file 1 (sample_meta 7 [x64] [x65]) (push_file 1 (sample_meta 8 [x61] [x62])
      (SetCompactPointer 1 (mkInternalKey (encode [x62] 8 kTypeValue)) new_VersionEdit)));
    push_file 0 (sample_meta 10 [x62] [x63]) (push_file 2 (sample_meta 7 [x64] [x65]) (DeleteFile 1 7 new_VersionEdit)) ].

Lemma version_builder_refines_witness :
  let base := replicate 7 [] in
  exists h' files, build (mkFileHeap ∅ 0) (replicate 7 []) base sample_edits =
      Ret (h', [[]; encode [x62] 8 kTypeValue; []; []; []; []; []], files) /\
    numbers <$> files = [[9; 10]; [8]; [7]; []; []; []; []] /\
    denotes_levels files (foldl abs_apply abs_empty sample_edits) /\ counts h' (fun x => 0 + occ x (concat files)).
Proof.
  intros base. assert (levels_wf base) as Hb.
  { split; [done|repeat constructor..|]. intros i fs Hi. apply (lookup_replicate 7 _ _ (S i)) in Hi as [-> _]. constructor. }
  assert (denotes_levels base abs_empty) as Hd.
  { apply Forall2_same_length_lookup_2; [done|]. intros i fs m Hi Hm. apply (lookup_replicate 7) in Hi as [-> _].
    apply (lookup_replicate 7) in Hm as [-> _]. intros n x. rewrite lookup_empty. split; [done|]. intros (f & Hf & _). by apply elem_of_nil in Hf. }
  destruct (version_builder_refines (mkFileHeap ∅ 0) (fun _ => 0) (replicate 7 []) base abs_empty sample_edits) as (h' & files & Hr & Hw & Hdn & Hc); try done.
  - intros a. right. simpl. split; [lia|done].
  - intros f Hf. vm_compute in Hf. by apply elem_of_nil in Hf.
  - do 2 (constructor; [apply edit_wfb_sound; by vm_compute|]). constructor.
  - split.
    + apply (bool_decide_unpack _). by vm_compute.
    + intros l n fs _ Hfs. apply (lookup_replicate 7) in Hfs as [-> _]. apply not_elem_of_nil.
  - apply levels_disjointb_sound. by vm_compute.
  - exists h', files. split; [exact Hr|]. split; [|by split].
    assert (match build (mkFileHeap ∅ 0) (replicate 7 []) base sample_edits with Ret (_, _, fs) => numbers <$> fs | _ => [] end = numbers <$> files) as <- by (by rewrite Hr).
    by vm_compute.
Defined.
