(* ===== verification/Filename.v ===== *)
(** * File names

    [filename.cc], [filename.h] and the number parsing of [logging.cc]: the names of the files
    of a database and the parser that recognises them in a directory listing. *)

From Stdlib Require Import Strings.String.
From S2P Require Import Prelude Env.

Open Scope outcome_scope.

(** The bytes of a string literal. *)
Definition str (s : string) : bytes := list_byte_of_string s.

(** ** Decimal numbers *)

Definition digit (d : Z) : byte := z2b (48 + d).

(** The conversion [%llu]: a 64-bit number has at most twenty digits. *)
Fixpoint decimal_loop (fuel : nat) (n : Z) : bytes :=
  match fuel with
  | O => []
  | S fuel => if n <? 10 then [digit n] else decimal_loop fuel (n / 10) ++ [digit (n mod 10)]
  end.

Definition decimal (n : Z) : bytes := decimal_loop 20 n.

(** [%06llu]: zeros on the left up to six characters. *)
Definition decimal06 (n : Z) : bytes :=
  let d := decimal n in replicate (6 - length d) (digit 0) ++ d.

Definition AppendNumberTo (s : bytes) (num : Z) : bytes := s ++ decimal num.

Definition NumberToString (num : Z) : bytes := AppendNumberTo [] num.

Definition kMaxUint64 : Z := 2 ^ 64 - 1.
Definition kLastDigitOfMaxUint64 : Z := 48 + kMaxUint64 mod 10.

(** The loop: [None] when the value does not fit, else the value, the number of characters and
    what is left. *)
Fixpoint consume_digits (input : bytes) (value consumed : Z) : option (Z * Z * bytes) :=
  match input with
  | [] => Some (value, consumed, [])
  | c :: rest =>
      let ch := b2z c in
      if (ch <? 48) || (57 <? ch) then Some (value, consumed, input)
      else if (kMaxUint64 / 10 <? value) || ((value =? kMaxUint64 / 10) && (kLastDigitOfMaxUint64 <? ch)) then None
      else consume_digits rest (u64 (value * 10 + (ch - 48))) (consumed + 1)
  end.

(** [None]: the function returns false. *)
Definition ConsumeDecimalNumber (input : bytes) : option (Z * bytes) :=
  match consume_digits input 0 0 with
  | Some (value, consumed, rest) => if negb (consumed =? 0) then Some (value, rest) else None
  | None => None
  end.

(** ** Names *)

Inductive FileType := kLogFile | kDBLockFile | kTableFile | kDescriptorFile | kCurrentFile | kTempFile | kInfoLogFile.

#[global] Instance FileType_eq_dec : EqDecision FileType.
Proof. solve_decision. Defined.

Definition MakeFileName (dbname : bytes) (number : Z) (suffix : string) : bytes :=
  dbname ++ str "/" ++ decimal06 number ++ str "." ++ str suffix.

Definition LogFileName (dbname : bytes) (number : Z) : outcome bytes :=
  assert! 0 <? number; Ret (MakeFileName dbname number "log").

Definition TableFileName (dbname : bytes) (number : Z) : outcome bytes :=
  assert! 0 <? number; Ret (MakeFileName dbname number "ldb").

Definition SSTTableFileName (dbname : bytes) (number : Z) : outcome bytes :=
  assert! 0 <? number; Ret (MakeFileName dbname number "sst").

Definition DescriptorFileName (dbname : bytes) (number : Z) : outcome bytes :=
  assert! 0 <? number; Ret (dbname ++ str "/MANIFEST-" ++ decimal06 number).

Definition CurrentFileName (dbname : bytes) : bytes := dbname ++ str "/CURRENT".

Definition LockFileName (dbname : bytes) : bytes := dbname ++ str "/LOCK".

Definition TempFileName (dbname : bytes) (number : Z) : outcome bytes :=
  assert! 0 <? number; Ret (MakeFileName dbname number "dbtmp").

Definition InfoLogFileName (dbname : bytes) : bytes := dbname ++ str "/LOG".

Definition OldInfoLogFileName (dbname : bytes) : bytes := dbname ++ str "/LOG.old".

(** ** Parsing *)

(** [Slice::starts_with]. *)
Definition starts_with (s prefix : bytes) : bool := bool_decide (ztake (zlen prefix) s = prefix).

Definition ParseFileName (filename : bytes) : option (Z * FileType) :=
  if bool_decide (filename = str "CURRENT") then Some (0, kCurrentFile)
  else if bool_decide (filename = str "LOCK") then Some (0, kDBLockFile)
  else if bool_decide (filename = str "LOG") || bool_decide (filename = str "LOG.old") then Some (0, kInfoLogFile)
  else if starts_with filename (str "MANIFEST-") then
    match ConsumeDecimalNumber (zdrop (zlen (str "MANIFEST-")) filename) with
    | Some (num, rest) => if negb (zlen rest =? 0) then None else Some (num, kDescriptorFile)
    | None => None
    end
  else
    match ConsumeDecimalNumber filename with
    | Some (num, suffix) =>
        if bool_decide (suffix = str ".log") then Some (num, kLogFile)
        else if bool_decide (suffix = str ".sst") || bool_decide (suffix = str ".ldb") then Some (num, kTableFile)
        else if bool_decide (suffix = str ".dbtmp") then Some (num, kTempFile)
        else None
    | None => None
    end.

(** ** Numbers *)

(** The number a string of digits stands for. *)
Definition digits_value (ds : list Z) (v : Z) : Z := foldl (fun v d => v * 10 + d) v ds.

Definition is_digit (d : Z) : Prop := 0 <= d <= 9.

Lemma b2z_digit d : is_digit d -> b2z (digit d) = 48 + d.
Proof. intros Hd. unfold is_digit in Hd. unfold digit. apply b2z_z2b_small. lia. Qed.

Lemma digits_value_app ds ds' v : digits_value (ds ++ ds') v = digits_value ds' (digits_value ds v).
Proof. apply foldl_app. Qed.

Lemma digits_value_mono ds v : Forall is_digit ds -> 0 <= v -> v <= digits_value ds v.
Proof.
  intros Hd. revert v. induction Hd as [|d ds Hd _ IH]; intros v Hv; [done|]. unfold is_digit in Hd.
  change (digits_value (d :: ds) v) with (digits_value ds (v * 10 + d)). etransitivity; [|apply IH; lia]. lia.
Qed.

(** The loop reads the digits, and fails exactly when their value does not fit 64 bits. *)
Lemma consume_digits_spec ds rest v n :
  Forall is_digit ds -> (forall c, head rest = Some c -> b2z c < 48 \/ 57 < b2z c) -> 0 <= v <= kMaxUint64 ->
  consume_digits ((digit <$> ds) ++ rest) v n =
    if digits_value ds v <=? kMaxUint64 then Some (digits_value ds v, n + zlen ds, rest) else None.
Proof.
  intros Hd Hrest. revert v n. induction Hd as [|d ds Hd Hds IH]; intros v n Hv.
  - simpl. destruct (Z.leb_spec v kMaxUint64); [|lia]. replace (n + zlen []) with n by (rewrite zlen_nil; lia).
    destruct rest as [|c rest]; [done|]. simpl. specialize (Hrest c eq_refl).
    destruct (Z.ltb_spec (b2z c) 48); [done|]. destruct (Z.ltb_spec 57 (b2z c)); [done|]. lia.
  - cbn [fmap list_fmap app consume_digits digits_value foldl]. fold (digits_value ds (v * 10 + d)). rewrite b2z_digit by done.
    unfold is_digit in Hd. destruct (Z.ltb_spec (48 + d) 48); [lia|]. destruct (Z.ltb_spec 57 (48 + d)); [lia|]. cbn [orb].
    assert (kMaxUint64 = 18446744073709551615) as Hm by done. assert (kMaxUint64 / 10 = 1844674407370955161) as Hm10 by done.
    assert (kLastDigitOfMaxUint64 = 53) as Hl by done.
    pose proof (digits_value_mono ds (v * 10 + d) Hds ltac:(lia)) as Hmono.
    destruct ((kMaxUint64 / 10 <? v) || _) eqn:Eo.
    + destruct (Z.leb_spec (digits_value ds (v * 10 + d)) kMaxUint64); [lia|done].
    + assert (v * 10 + d <= kMaxUint64) by lia. rewrite u64_small by lia.
      replace (v * 10 + (48 + d - 48)) with (v * 10 + d) by lia. rewrite IH by lia. rewrite zlen_cons.
      by replace (n + 1 + zlen ds) with (n + (1 + zlen ds)) by lia.
Qed.

(** The digits of a number. *)
Fixpoint digits_of (fuel : nat) (n : Z) : list Z :=
  match fuel with
  | O => []
  | S fuel => if n <? 10 then [n] else digits_of fuel (n / 10) ++ [n mod 10]
  end.

Lemma decimal_loop_digits fuel n : decimal_loop fuel n = digit <$> digits_of fuel n.
Proof.
  revert n. induction fuel as [|fuel IH]; intros n; [done|]. simpl. destruct (n <? 10); [done|]. by rewrite IH, fmap_app.
Qed.

Lemma digits_of_spec fuel n :
  0 <= n < 10 ^ Z.of_nat fuel -> (0 < fuel)%nat ->
  Forall is_digit (digits_of fuel n) /\ digits_value (digits_of fuel n) 0 = n /\ digits_of fuel n ≠ [].
Proof.
  revert n. induction fuel as [|fuel IH]; intros n Hn Hf; [lia|]. cbn [digits_of]. destruct (Z.ltb_spec n 10).
  - split; [repeat constructor; unfold is_digit; lia|]. split; [done|done].
  - rewrite Nat2Z.inj_succ, Z.pow_succ_r in Hn by lia.
    assert (0 < fuel)%nat as Hf'. { destruct fuel; [simpl in Hn; lia|lia]. }
    destruct (IH (n / 10)) as (Hd & Hv & _); [split; [apply Z.div_pos; lia|apply Z.div_lt_upper_bound; lia]|done|].
    split; [apply Forall_app; split; [done|]; repeat constructor; unfold is_digit; pose proof (Z.mod_pos_bound n 10); lia|].
    split; [|by destruct (digits_of fuel (n / 10))]. rewrite digits_value_app, Hv. simpl. pose proof (Z.div_mod n 10). lia.
Qed.

Lemma decimal06_digits n : 0 <= n < 2 ^ 64 ->
  exists ds, decimal06 n = digit <$> ds /\ Forall is_digit ds /\ digits_value ds 0 = n /\ ds ≠ [].
Proof.
  intros Hn. destruct (digits_of_spec 20 n) as (Hd & Hv & Hne); [|lia|].
  { split; [lia|]. transitivity (2 ^ 64); [lia|]. by vm_compute. }
  exists (replicate (6 - length (decimal n)) 0 ++ digits_of 20 n). unfold decimal06, decimal. rewrite decimal_loop_digits, fmap_app, fmap_replicate.
  split; [done|]. split; [apply Forall_app; split; [apply Forall_replicate; unfold is_digit; lia|done]|].
  split; [|by destruct (replicate _ 0)]. rewrite digits_value_app.
  assert (forall k, digits_value (replicate k 0) 0 = 0) as ->; [|done]. intros k. induction k; [done|]. by simpl.
Qed.

Lemma ConsumeDecimalNumber_decimal06 n rest :
  0 <= n < 2 ^ 64 -> (forall c, head rest = Some c -> b2z c < 48 \/ 57 < b2z c) ->
  ConsumeDecimalNumber (decimal06 n ++ rest) = Some (n, rest).
Proof.
  intros Hn Hrest. destruct (decimal06_digits n Hn) as (ds & -> & Hd & Hv & Hne). unfold ConsumeDecimalNumber.
  rewrite consume_digits_spec by (done || (unfold kMaxUint64; lia)). rewrite Hv. unfold kMaxUint64.
  destruct (Z.leb_spec n (2 ^ 64 - 1)); [|lia]. destruct (Z.eqb_spec (0 + zlen ds) 0) as [H0|]; [|done].
  destruct ds; [done|]. rewrite zlen_cons in H0. pose proof (zlen_nonneg ds). lia.
Qed.

(** A name that starts with a digit is none of the fixed names. *)
Lemma ParseFileName_number n suffix :
  0 <= n < 2 ^ 64 -> (forall c, head suffix = Some c -> b2z c < 48 \/ 57 < b2z c) ->
  ParseFileName (decimal06 n ++ suffix) =
    if bool_decide (suffix = str ".log") then Some (n, kLogFile)
    else if bool_decide (suffix = str ".sst") || bool_decide (suffix = str ".ldb") then Some (n, kTableFile)
    else if bool_decide (suffix = str ".dbtmp") then Some (n, kTempFile)
    else None.
Proof.
  intros Hn Hs. destruct (decimal06_digits n Hn) as (ds & Hdec & Hd & _ & Hne). destruct ds as [|d ds]; [done|].
  apply Forall_cons in Hd as [Hd _]. assert (b2z (digit d) = 48 + d) as Hb by (by apply b2z_digit). unfold is_digit in Hd.
  assert (forall c l, 64 < b2z c -> decimal06 n ++ suffix ≠ c :: l) as Hno.
  { intros c l Hc Heq. rewrite Hdec in Heq. injection Heq as Heq _. rewrite Heq in Hb. lia. }
  unfold ParseFileName. rewrite !bool_decide_eq_false_2 by (by apply Hno). cbn [orb].
  assert (starts_with (decimal06 n ++ suffix) (str "MANIFEST-") = false) as ->.
  { unfold starts_with. apply bool_decide_eq_false_2. intros Heq.
    pose proof (ztake_zdrop (zlen (str "MANIFEST-")) (decimal06 n ++ suffix)) as Hsp. rewrite Heq in Hsp.
    symmetry in Hsp. by apply (Hno x4d (tail (str "MANIFEST-") ++ zdrop (zlen (str "MANIFEST-")) (decimal06 n ++ suffix))) in Hsp. }
  by rewrite ConsumeDecimalNumber_decimal06.
Qed.

Lemma ParseFileName_manifest n : 0 <= n < 2 ^ 64 -> ParseFileName (str "MANIFEST-" ++ decimal06 n) = Some (n, kDescriptorFile).
Proof.
  intros Hn. unfold ParseFileName. rewrite !bool_decide_eq_false_2 by done. cbn [orb].
  assert (starts_with (str "MANIFEST-" ++ decimal06 n) (str "MANIFEST-") = true) as ->.
  { unfold starts_with. apply bool_decide_eq_true_2. by apply ztake_app_len. }
  rewrite zdrop_app_len by done. rewrite <- (app_nil_r (decimal06 n)), ConsumeDecimalNumber_decimal06 by done. done.
Qed.

(** ** The properties *)

(** The name of a file in the directory of the database parses to [r]. *)
Definition parses_to (dbname : bytes) (name : outcome bytes) (r : Z * FileType) : Prop :=
  exists base, name = Ret (dbname ++ str "/" ++ base) /\ ParseFileName base = Some r.

(** Every name the database gives to a file is recognised in a listing of its directory,
    with the number and the type it was made from, for all 64-bit file numbers; so no file of
    the database is overlooked, or taken for a file of another kind, when obsolete files are
    deleted. *)
Theorem filename_roundtrip (dbname : bytes) (n : Z) :
  0 < n < 2 ^ 64 ->
  parses_to dbname (LogFileName dbname n) (n, kLogFile) /\
  parses_to dbname (TableFileName dbname n) (n, kTableFile) /\
  parses_to dbname (SSTTableFileName dbname n) (n, kTableFile) /\
  parses_to dbname (DescriptorFileName dbname n) (n, kDescriptorFile) /\
  parses_to dbname (TempFileName dbname n) (n, kTempFile) /\
  parses_to dbname (Ret (CurrentFileName dbname)) (0, kCurrentFile) /\
  parses_to dbname (Ret (LockFileName dbname)) (0, kDBLockFile) /\
  parses_to dbname (Ret (InfoLogFileName dbname)) (0, kInfoLogFile) /\
  parses_to dbname (Ret (OldInfoLogFileName dbname)) (0, kInfoLogFile).
Proof.
  intros Hn. unfold LogFileName, TableFileName, SSTTableFileName, DescriptorFileName, TempFileName, MakeFileName.
  destruct (Z.ltb_spec 0 n); [|lia]. cbn [oassert obind].
  repeat split; try (eexists; split; [reflexivity|]; rewrite ParseFileName_number; [done|lia|by intros c [= <-]; left]).
  - eexists. split; [|by apply ParseFileName_manifest; lia]. done.
  - by exists (str "CURRENT").
  - by exists (str "LOCK").
  - by exists (str "LOG").
  - by exists (str "LOG.old").
Qed.

Lemma filename_roundtrip_witness :
  parses_to (str "/db") (DescriptorFileName (str "/db") 18446744073709551615) (18446744073709551615, kDescriptorFile) /\
  LogFileName (str "/db") 7 = Ret (str "/db/000007.log").
Proof. split; [|done]. by apply (filename_roundtrip (str "/db") 18446744073709551615). Defined.

(** Numbers in file names are read without wrapping around. On a string of digits followed
    by something else, [ConsumeDecimalNumber] returns the value of the digits and stops behind
    them if the value fits 64 bits, and fails if it does not; without a digit it fails. *)
Theorem decimal_overflow (ds : list Z) (rest : bytes) :
  Forall is_digit ds -> (forall c, head rest = Some c -> b2z c < 48 \/ 57 < b2z c) ->
  ConsumeDecimalNumber ((digit <$> ds) ++ rest) =
    if bool_decide (ds = []) then None
    else if digits_value ds 0 <=? 2 ^ 64 - 1 then Some (digits_value ds 0, rest) else None.
Proof.
  intros Hd Hrest. unfold ConsumeDecimalNumber. rewrite consume_digits_spec by (done || by unfold kMaxUint64). unfold kMaxUint64.
  destruct ds as [|d ds]; [done|]. rewrite bool_decide_eq_false_2 by done. destruct (_ <=? _); [|done].
  rewrite zlen_cons. pose proof (zlen_nonneg ds). by destruct (Z.eqb_spec (0 + (1 + zlen ds)) 0); [lia|].
Qed.

Lemma decimal_overflow_witness :
  ConsumeDecimalNumber (str "18446744073709551615.log") = Some (2 ^ 64 - 1, str ".log") /\
  ConsumeDecimalNumber (str "18446744073709551616.log") = None.
Proof.
  split.
  - transitivity (ConsumeDecimalNumber ((digit <$> [1;8;4;4;6;7;4;4;0;7;3;7;0;9;5;5;1;6;1;5]) ++ str ".log")); [done|].
    rewrite decimal_overflow; [done|repeat constructor; unfold is_digit; lia|by intros c [= <-]; left].
  - transitivity (ConsumeDecimalNumber ((digit <$> [1;8;4;4;6;7;4;4;0;7;3;7;0;9;5;5;1;6;1;6]) ++ str ".log")); [done|].
    rewrite decimal_overflow; [done|repeat constructor; unfold is_digit; lia|by intros c [= <-]; left].
Defined.
