(* ===== verification/FileSystem.v ===== *)
(** * The file system

    [leveldb/env.h]: the operations of [Env] on named files and the operations of open files,
    as a class; what the engine relies on as a class of laws; and the functions of [env.cc] and
    [filename.cc] that are written in terms of them. *)

From S2P Require Import Prelude Env Filename.

Open Scope outcome_scope.

(** ** The interface

    [E] is the state of the file system and [H] the type of open files. A call that returns a
    file object returns [None] for a null pointer. *)
Class Env (E H : Type) := {
  NewSequentialFile : E -> bytes -> E * Status * option H;
  NewWritableFile : E -> bytes -> E * Status * option H;
  NewAppendableFile : E -> bytes -> E * Status * option H;
  file_Read : E -> H -> Z -> E * H * Status * bytes;
  file_Skip : E -> H -> Z -> E * H * Status;
  file_Append : E -> H -> bytes -> E * Status;
  file_Flush : E -> H -> E * Status;
  file_Sync : E -> H -> E * Status;
  file_Close : E -> H -> E * Status;
  file_delete : E -> H -> E;
  GetFileSize : E -> bytes -> Status * Z;
  RemoveFile : E -> bytes -> E * Status;
  RenameFile : E -> bytes -> bytes -> E * Status;
}.

(** ** Open files as the log sees them *)

Record OpenFile (E H : Type) := mkOpen { of_env : E; of_handle : H }.
Arguments mkOpen {E H} _ _.
Arguments of_env {E H} _.
Arguments of_handle {E H} _.

#[global] Instance OpenFile_writable {E H} `{Env E H} : WritableFile (OpenFile E H) := {
  Append f d := let '(e, s) := file_Append (of_env f) (of_handle f) d in (mkOpen e (of_handle f), s);
  Flush f := let '(e, s) := file_Flush (of_env f) (of_handle f) in (mkOpen e (of_handle f), s);
}.

#[global] Instance OpenFile_sequential {E H} `{Env E H} : SequentialFile (OpenFile E H) := {
  Read f n := let '(e, h, s, r) := file_Read (of_env f) (of_handle f) n in (mkOpen e h, s, r);
  Skip f n := let '(e, h, s) := file_Skip (of_env f) (of_handle f) n in (mkOpen e h, s);
}.

(** ** Functions on top of it *)

Section Functions.
Context {E H : Type} `{Env E H}.

(** A status other than OK comes without a file. *)
Definition DoWriteStringToFile (env : E) (data fname : bytes) (should_sync : bool) : outcome (E * Status) :=
  let '(env, s, file) := NewWritableFile env fname in
  if negb (ok s) then Ret (env, s)
  else
    match file with
    | None => AssertFailed
    | Some file =>
        let '(env, s) := file_Append env file data in
        let '(env, s) := if ok s && should_sync then file_Sync env file else (env, s) in
        let '(env, s) := if ok s then file_Close env file else (env, s) in
        let env := file_delete env file in
        let env := if negb (ok s) then fst (RemoveFile env fname) else env in
        Ret (env, s)
    end.

Definition WriteStringToFileSync (env : E) (data fname : bytes) : outcome (E * Status) :=
  DoWriteStringToFile env data fname true.

Definition kBufferSize : Z := 8192.

(** The loop: the data read so far, the status of the last read. *)
Fixpoint read_fragments (fuel : nat) (env : E) (file : H) (data : bytes) : outcome (E * H * Status * bytes) :=
  match fuel with
  | O => OutOfFuel
  | S fuel =>
      let '(env, file, s, fragment) := file_Read env file kBufferSize in
      if negb (ok s) then Ret (env, file, s, data)
      else
        let data := data ++ fragment in
        if zlen fragment =? 0 then Ret (env, file, s, data) else read_fragments fuel env file data
  end.

Definition ReadFileToString (fuel : nat) (env : E) (fname : bytes) : outcome (E * Status * bytes) :=
  let '(env, s, file) := NewSequentialFile env fname in
  if negb (ok s) then Ret (env, s, [])
  else
    match file with
    | None => AssertFailed
    | Some file =>
        let! (env, file, s, data) := read_fragments fuel env file [] in
        Ret (file_delete env file, s, data)
    end.

Definition SetCurrentFile (env : E) (dbname : bytes) (descriptor_number : Z) : outcome (E * Status) :=
  let! manifest := DescriptorFileName dbname descriptor_number in
  assert! starts_with manifest (dbname ++ str "/");
  let contents := zdrop (zlen dbname + 1) manifest in
  let! tmp := TempFileName dbname descriptor_number in
  let! (env, s) := WriteStringToFileSync env (contents ++ [x0a]) tmp in
  let '(env, s) := if ok s then RenameFile env tmp (CurrentFileName dbname) else (env, s) in
  let env := if negb (ok s) then fst (RemoveFile env tmp) else env in
  Ret (env, s).

End Functions.

(** ** The laws

    [fs e name]: the bytes of a file. [writes e h name]: [h] is open for writing on the file of
    that name; [hbytes] are the bytes behind a handle, and [hfailed] says that a write has
    failed on it. [reads e h name rest]: [h] is open for reading on the file of that name with
    [rest] to come. [env_ok] is the invariant of the file system. *)

(** What a call that concerns only the file [n] keeps. *)
Definition keeps {E H : Type} (env_ok : E -> Prop) (fs : E -> bytes -> option bytes) (writes : E -> H -> bytes -> Prop)
    (reads : E -> H -> bytes -> bytes -> Prop) (e e' : E) (n : bytes) : Prop :=
  env_ok e' /\ (forall m, m ≠ n -> fs e' m = fs e m) /\
  forall h m, m ≠ n -> (writes e h m -> writes e' h m) /\ forall c, reads e h m c -> reads e' h m c.

Class EnvLaws (E H : Type) `{Env E H} := {
  env_ok : E -> Prop;
  fs : E -> bytes -> option bytes;
  writes : E -> H -> bytes -> Prop;
  hbytes : E -> H -> bytes;
  hfailed : E -> H -> Prop;
  reads : E -> H -> bytes -> bytes -> Prop;
  writes_fs e h n : writes e h n -> fs e n = Some (hbytes e h);

  (* writing *)
  append_good e h d e' : file_Append e h d = (e', OK) -> ~ hfailed e h /\ ~ hfailed e' h /\ hbytes e' h = hbytes e h ++ d;
  append_bad e h d e' s : file_Append e h d = (e', s) -> s ≠ OK -> hfailed e' h /\ exists k, hbytes e' h = hbytes e h ++ ztake k d;
  append_stuck e h d e' s : hfailed e h -> file_Append e h d = (e', s) -> s ≠ OK /\ hbytes e' h = hbytes e h;
  append_frame e h d e' s n : env_ok e -> writes e h n -> file_Append e h d = (e', s) ->
    keeps env_ok fs writes reads e e' n /\ writes e' h n;
  flush_bytes e h e' s : file_Flush e h = (e', s) -> hbytes e' h = hbytes e h;
  flush_good e h e' : file_Flush e h = (e', OK) -> ~ hfailed e h /\ ~ hfailed e' h;
  flush_bad e h e' s : file_Flush e h = (e', s) -> s ≠ OK -> hfailed e' h;
  flush_frame e h e' s n : env_ok e -> writes e h n -> file_Flush e h = (e', s) ->
    keeps env_ok fs writes reads e e' n /\ writes e' h n;
  sync_frame e h e' s n : env_ok e -> writes e h n -> file_Sync e h = (e', s) ->
    keeps env_ok fs writes reads e e' n /\ writes e' h n /\ fs e' n = fs e n;
  close_frame e h e' s n : env_ok e -> writes e h n -> file_Close e h = (e', s) ->
    keeps env_ok fs writes reads e e' n /\ writes e' h n /\ fs e' n = fs e n;
  delete_writer e h n : env_ok e -> writes e h n ->
    keeps env_ok fs writes reads e (file_delete e h) n /\ fs (file_delete e h) n = fs e n;

  (* reading *)
  read_good e h n c k : env_ok e -> reads e h n c -> 0 <= k ->
    exists e' h', file_Read e h k = (e', h', OK, ztake k c) /\ reads e' h' n (zdrop k c) /\
      keeps env_ok fs writes reads e e' n /\ fs e' n = fs e n;
  skip_good e h n c k : env_ok e -> reads e h n c -> 0 <= k ->
    exists e' h', file_Skip e h k = (e', h', OK) /\ reads e' h' n (zdrop k c) /\
      keeps env_ok fs writes reads e e' n /\ fs e' n = fs e n;
  delete_reader e h n c : env_ok e -> reads e h n c ->
    keeps env_ok fs writes reads e (file_delete e h) n /\ fs (file_delete e h) n = fs e n;

  (* opening *)
  new_writable e n e' s r : env_ok e -> NewWritableFile e n = (e', s, r) ->
    keeps env_ok fs writes reads e e' n /\ (s = OK -> exists h, r = Some h /\ writes e' h n /\ hbytes e' h = []);
  no_writable e n e' s r : env_ok e -> NewWritableFile e n = (e', s, r) -> s ≠ OK -> r = None;
  new_appendable e n c e' s r : env_ok e -> fs e n = Some c -> NewAppendableFile e n = (e', s, r) ->
    keeps env_ok fs writes reads e e' n /\ fs e' n = fs e n /\
    (s = OK -> exists h, r = Some h /\ writes e' h n /\ hbytes e' h = c);
  no_appendable e n c e' s r : env_ok e -> fs e n = Some c -> NewAppendableFile e n = (e', s, r) -> s ≠ OK -> r = None;
  new_sequential e n c : env_ok e -> fs e n = Some c ->
    exists e' h, NewSequentialFile e n = (e', OK, Some h) /\ reads e' h n c /\
      keeps env_ok fs writes reads e e' n /\ fs e' n = fs e n;
  no_sequential e n : env_ok e -> fs e n = None ->
    exists e' s, NewSequentialFile e n = (e', s, None) /\ s ≠ OK /\ keeps env_ok fs writes reads e e' n /\ fs e' n = None;

  (* names *)
  file_size_good e n c : env_ok e -> fs e n = Some c -> GetFileSize e n = (OK, zlen c);
  rename_good e src tgt e' : env_ok e -> RenameFile e src tgt = (e', OK) -> src ≠ tgt ->
    env_ok e' /\ fs e' tgt = fs e src /\ fs e' src = None /\ (forall m, m ≠ src -> m ≠ tgt -> fs e' m = fs e m) /\
    forall h' m, m ≠ src -> m ≠ tgt -> writes e h' m -> writes e' h' m;
  rename_bad e src tgt e' s : env_ok e -> RenameFile e src tgt = (e', s) -> s ≠ OK ->
    env_ok e' /\ (forall m, fs e' m = fs e m) /\ forall h' m, (writes e h' m -> writes e' h' m) /\ forall c, reads e h' m c -> reads e' h' m c;
  remove_frame e n e' s : env_ok e -> RemoveFile e n = (e', s) -> keeps env_ok fs writes reads e e' n;
}.

(** Open files satisfy the laws of writable files. *)
#[global, refine] Instance OpenFile_writable_laws {E H} `{EnvLaws E H} : WritableFileLaws (OpenFile E H) := {
  contents f := hbytes (of_env f) (of_handle f);
  failed f := hfailed (of_env f) (of_handle f);
}.
Proof.
  - intros [e h] d f'. simpl. destruct (file_Append e h d) as [e' s] eqn:Ea. intros [= <- ->]. by eapply append_good.
  - intros [e h] d f' s. simpl. destruct (file_Append e h d) as [e' s'] eqn:Ea. intros [= <- <-]. simpl. by eapply append_bad.
  - intros [e h] d f' s Hf. simpl. destruct (file_Append e h d) as [e' s'] eqn:Ea. intros [= <- <-]. by eapply append_stuck.
  - intros [e h] f' s. simpl. destruct (file_Flush e h) as [e' s'] eqn:Ea. intros [= <- <-]. by eapply flush_bytes.
  - intros [e h] f'. simpl. destruct (file_Flush e h) as [e' s'] eqn:Ea. intros [= <- ->]. by eapply flush_good.
  - intros [e h] f' s. simpl. destruct (file_Flush e h) as [e' s'] eqn:Ea. intros [= <- <-]. simpl. by eapply flush_bad.
Defined.

(** ** What the functions do *)

Section FunctionLaws.
Context {E H : Type} `{laws : EnvLaws E H}.
Abbreviation keep := (keeps env_ok fs writes reads).

Lemma keeps_refl e n : env_ok e -> keep e e n.
Proof. intros He. by split. Qed.

Lemma keeps_trans e1 e2 e3 n : keep e1 e2 n -> keep e2 e3 n -> keep e1 e3 n.
Proof.
  intros (Ho & Hf & Hw) (Ho' & Hf' & Hw'). split; [done|]. split; [intros m Hm; by rewrite Hf', Hf|].
  intros h m Hm. destruct (Hw h m Hm), (Hw' h m Hm). auto.
Qed.

Lemma keeps_ok e e' n : keep e e' n -> env_ok e'.
Proof. by intros [? _]. Qed.

Lemma keeps_writes e e' n h m : keep e e' n -> m ≠ n -> writes e h m -> writes e' h m.
Proof. intros (_ & _ & Hw) Hm. by apply Hw. Qed.

Lemma keeps_reads e e' n h m c : keep e e' n -> m ≠ n -> reads e h m c -> reads e' h m c.
Proof. intros (_ & _ & Hr) Hm. by apply Hr. Qed.

(** A file written in one call: everything or an error. *)
Lemma WriteStringToFileSync_spec e data n :
  env_ok e -> exists e' s, WriteStringToFileSync e data n = Ret (e', s) /\ keep e e' n /\ (s = OK -> fs e' n = Some data).
Proof.
  intros He. unfold WriteStringToFileSync, DoWriteStringToFile. destruct (NewWritableFile e n) as [[e1 s1] r] eqn:E1.
  destruct (new_writable _ _ _ _ _ He E1) as [K1 Hopen]. destruct (ok s1) eqn:Es1; cbn [negb].
  2:{ exists e1, s1. split; [done|]. split; [done|]. by intros ->. }
  apply ok_true in Es1. destruct (Hopen Es1) as (h & -> & Hw & Hb).
  destruct (file_Append e1 h data) as [e2 s2] eqn:E2. destruct (append_frame _ _ _ _ _ _ (keeps_ok _ _ _ K1) Hw E2) as [K2 Hw2].
  rewrite andb_true_r.
  assert (exists e3 s3, (if ok s2 then file_Sync e2 h else (e2, s2)) = (e3, s3) /\ keep e2 e3 n /\ writes e3 h n /\
    (s3 = OK -> s2 = OK /\ fs e3 n = fs e2 n)) as (e3 & s3 & -> & K3 & Hw3 & H3).
  { destruct (ok s2) eqn:Es2.
    - destruct (file_Sync e2 h) as [e3 s3] eqn:E3. destruct (sync_frame _ _ _ _ _ (keeps_ok _ _ _ K2) Hw2 E3) as (K3 & Hw3 & Hf3).
      exists e3, s3. split; [done|]. split; [done|]. split; [done|]. intros _. by apply ok_true in Es2.
    - exists e2, s2. split; [done|]. split; [by apply keeps_refl, (keeps_ok _ _ _ K2)|]. split; [done|]. by intros ->. }
  assert (exists e4 s4, (if ok s3 then file_Close e3 h else (e3, s3)) = (e4, s4) /\ keep e3 e4 n /\ writes e4 h n /\
    (s4 = OK -> s3 = OK /\ fs e4 n = fs e3 n)) as (e4 & s4 & -> & K4 & Hw4 & H4).
  { destruct (ok s3) eqn:Es3.
    - destruct (file_Close e3 h) as [e4 s4] eqn:E4. destruct (close_frame _ _ _ _ _ (keeps_ok _ _ _ K3) Hw3 E4) as (K4 & Hw4 & Hf4).
      exists e4, s4. split; [done|]. split; [done|]. split; [done|]. intros _. by apply ok_true in Es3.
    - exists e3, s3. split; [done|]. split; [by apply keeps_refl, (keeps_ok _ _ _ K3)|]. split; [done|]. by intros ->. }
  destruct (delete_writer e4 h n (keeps_ok _ _ _ K4) Hw4) as [K5 Hf5].
  assert (keep e (file_delete e4 h) n) as K by (exact (keeps_trans _ _ _ _ K1 (keeps_trans _ _ _ _ K2 (keeps_trans _ _ _ _ K3 (keeps_trans _ _ _ _ K4 K5))))).
  destruct (ok s4) eqn:Es4; cbn [negb].
  - exists (file_delete e4 h), s4. split; [done|]. split; [done|]. intros ->.
    destruct (H4 eq_refl) as [-> Hf4]. destruct (H3 eq_refl) as [-> Hf3]. rewrite Hf5, Hf4, Hf3.
    rewrite (writes_fs _ _ _ Hw2). apply append_good in E2 as (_ & _ & ->). by rewrite Hb.
  - destruct (RemoveFile (file_delete e4 h) n) as [e6 s6] eqn:E6. exists e6, s4. split; [done|].
    split; [|by intros ->].
    apply (keeps_trans _ _ _ _ K). exact (remove_frame _ _ _ _ (keeps_ok _ _ _ K5) E6).
Qed.

Lemma read_fragments_spec fuel e h n c data :
  env_ok e -> reads e h n c -> (length c < fuel)%nat ->
  exists e' h', read_fragments fuel e h data = Ret (e', h', OK, data ++ c) /\ reads e' h' n [] /\ keep e e' n /\ fs e' n = fs e n.
Proof.
  revert e h c data. induction fuel as [|fuel IH]; intros e h c data He Hr Hf; [lia|]. cbn [read_fragments].
  destruct (read_good e h n c kBufferSize He Hr ltac:(done)) as (e1 & h1 & -> & Hr1 & K1 & Hf1). cbn [ok negb].
  destruct (Z.eqb_spec (zlen (ztake kBufferSize c)) 0) as [Hz|Hz].
  - assert (c = []) as ->. { rewrite zlen_ztake in Hz. unfold kBufferSize in Hz. apply zlen_0_nil. pose proof (zlen_nonneg c). lia. }
    exists e1, h1. rewrite app_nil_r in *. split; [|split; [exact Hr1|by split]]. by rewrite ?app_nil_r.
  - destruct (IH e1 h1 (zdrop kBufferSize c) (data ++ ztake kBufferSize c)) as (e2 & h2 & -> & Hr2 & K2 & Hf2); [by eapply keeps_ok|done| |].
    { unfold zdrop. rewrite length_drop. destruct c; [done|]. unfold kBufferSize. simpl in *. lia. }
    exists e2, h2. rewrite <- app_assoc, ztake_zdrop. split; [done|]. split; [done|]. split; [exact (keeps_trans _ _ _ _ K1 K2)|]. by rewrite Hf2.
Qed.

Lemma ReadFileToString_spec fuel e n c :
  env_ok e -> fs e n = Some c -> (length c < fuel)%nat ->
  exists e', ReadFileToString fuel e n = Ret (e', OK, c) /\ keep e e' n /\ fs e' n = fs e n.
Proof.
  intros He Hn Hf. unfold ReadFileToString. destruct (new_sequential e n c He Hn) as (e1 & h & -> & Hr & K1 & Hf1). cbn [ok negb].
  destruct (read_fragments_spec fuel e1 h n c [] (keeps_ok _ _ _ K1) Hr Hf) as (e2 & h2 & -> & Hr2 & K2 & Hf2). cbn [obind].
  destruct (delete_reader e2 h2 n [] (keeps_ok _ _ _ K2) Hr2) as [K3 Hf3]. exists (file_delete e2 h2). split; [done|].
  split; [exact (keeps_trans _ _ _ _ K1 (keeps_trans _ _ _ _ K2 K3))|]. by rewrite Hf3, Hf2.
Qed.

(** The line of a [CURRENT] file that names a manifest. *)
Definition current_line (num : Z) : bytes := str "MANIFEST-" ++ decimal06 num ++ [x0a].

(** The names of two files of different kinds are different. *)
Lemma name_neq dbname a b r r' :
  ParseFileName a = Some r -> ParseFileName b = Some r' -> r ≠ r' -> dbname ++ str "/" ++ a ≠ dbname ++ str "/" ++ b.
Proof. intros Ha Hb Hne Heq. apply app_inv_head, app_inv_head in Heq. congruence. Qed.

(** [CURRENT] is replaced in one step: it has the new line, or what it had before. *)
Lemma SetCurrentFile_spec e dbname num :
  env_ok e -> 0 < num < 2 ^ 64 ->
  exists e' s tmp, SetCurrentFile e dbname num = Ret (e', s) /\ TempFileName dbname num = Ret tmp /\ env_ok e' /\
    (forall m, m ≠ tmp -> m ≠ CurrentFileName dbname -> fs e' m = fs e m) /\
    (forall h m, m ≠ tmp -> m ≠ CurrentFileName dbname -> writes e h m -> writes e' h m) /\
    fs e' (CurrentFileName dbname) = if ok s then Some (current_line num) else fs e (CurrentFileName dbname).
Proof.
  intros He Hn. unfold SetCurrentFile, DescriptorFileName, TempFileName. destruct (Z.ltb_spec 0 num); [|lia]. cbn [oassert obind].
  replace (dbname ++ str "/MANIFEST-" ++ decimal06 num) with ((dbname ++ str "/") ++ str "MANIFEST-" ++ decimal06 num) by (by rewrite <- app_assoc).
  unfold starts_with. rewrite ztake_app_len, bool_decide_eq_true_2 by done. cbn [oassert obind].
  rewrite zdrop_app_len by (by rewrite zlen_app). set (tmp := MakeFileName dbname num "dbtmp").
  assert (tmp ≠ CurrentFileName dbname) as Hne.
  { unfold tmp, MakeFileName, CurrentFileName. change (str "/CURRENT") with (str "/" ++ str "CURRENT").
    eapply (name_neq _ _ _ (num, kTempFile) (0, kCurrentFile)); [|done|done].
    change (str "." ++ str "dbtmp") with (str ".dbtmp"). rewrite ParseFileName_number; [done|lia|by intros c [= <-]; left]. }
  destruct (WriteStringToFileSync_spec e ((str "MANIFEST-" ++ decimal06 num) ++ [x0a]) tmp He) as (e1 & s1 & -> & K1 & Hdata). cbn [obind].
  assert (forall e2, keep e e2 tmp -> exists e3, fst (RemoveFile e2 tmp) = e3 /\ keep e e3 tmp) as Hrm.
  { intros e2 K2. destruct (RemoveFile e2 tmp) as [e3 s3] eqn:E3. exists e3. split; [done|]. apply (keeps_trans _ _ _ _ K2).
    exact (remove_frame _ _ _ _ (keeps_ok _ _ _ K2) E3). }
  assert (forall e3, keep e e3 tmp -> env_ok e3 /\ (forall m, m ≠ tmp -> m ≠ CurrentFileName dbname -> fs e3 m = fs e m) /\
    (forall h m, m ≠ tmp -> m ≠ CurrentFileName dbname -> writes e h m -> writes e3 h m) /\
    fs e3 (CurrentFileName dbname) = fs e (CurrentFileName dbname)) as Hsame.
  { intros e3 K3. pose proof K3 as (Ho & Hf & _). split; [done|]. split; [auto|]. split; [intros; by eapply keeps_writes|]. by apply Hf. }
  destruct (ok s1) eqn:Es1; cbn [negb].
  2:{ destruct (Hrm e1 K1) as (e3 & -> & K3). rewrite Es1. exists e3, s1, tmp. rewrite Es1. split; [done|]. split; [done|]. by apply Hsame. }
  apply ok_true in Es1. specialize (Hdata Es1). destruct (RenameFile e1 tmp (CurrentFileName dbname)) as [e2 s2] eqn:E2.
  destruct (ok s2) eqn:Es2; cbn [negb].
  - apply ok_true in Es2 as ->. destruct (rename_good _ _ _ _ (keeps_ok _ _ _ K1) E2 Hne) as (Ho & Ht & Hs & Hf & Hw).
    destruct K1 as (_ & Hf1 & Hw1). exists e2, OK, tmp. split; [done|]. split; [done|]. split; [done|].
    split; [intros m Hm Hm'; by rewrite Hf, Hf1|]. split; [intros h m Hm Hm' Hh; by apply Hw, Hw1|].
    rewrite Ht, Hdata. cbn [ok]. unfold current_line. by rewrite <- app_assoc.
  - assert (s2 ≠ OK) as Hs2 by (by intros ->). destruct (rename_bad _ _ _ _ _ (keeps_ok _ _ _ K1) E2 Hs2) as (Ho & Hf & Hw).
    assert (keep e e2 tmp) as K2. { apply (keeps_trans _ _ _ _ K1). split; [done|]. split; auto. }
    destruct (Hrm e2 K2) as (e3 & -> & K3). exists e3, s2, tmp. rewrite Es2. split; [done|]. split; [done|]. by apply Hsame.
Qed.
End FunctionLaws.
