(* ===== verification/MemEnv.v ===== *)
(** * The in-memory environment

    [helpers/memenv/memenv.cc]: files kept in memory as lists of blocks, counted references to
    them and the map of file names; an implementation of the interface of the file system. *)

From stdpp Require Import gmap.
From S2P Require Import Prelude Env Comparator Filename FileSystem.

Open Scope outcome_scope.

(** ** Files *)

Module memenv.
Definition kBlockSize : Z := 8 * 1024.
End memenv.

Record FileState := mkMemState { refs_ : Z; blocks_ : list bytes; size_ : Z }.

Definition new_FileState : FileState := mkMemState 0 [] 0.

Definition Size (f : FileState) : Z := size_ f.

Definition Truncate (f : FileState) : FileState := mkMemState (refs_ f) [] 0.

(** [memcpy(block + offset, src, n)]: the bytes must be inside the block. *)
Definition copy_into (block : bytes) (offset : Z) (src : bytes) : outcome bytes :=
  assert! (0 <=? offset) && (offset + zlen src <=? zlen block);
  Ret (ztake offset block ++ src ++ zdrop (offset + zlen src) block).

(** [memcpy(dst, block + offset, n)]. *)
Definition copy_from (block : bytes) (offset n : Z) : outcome bytes :=
  assert! (0 <=? offset) && (offset + n <=? zlen block);
  Ret (ztake n (zdrop offset block)).

(** A block as [new char[kBlockSize]] returns it; its bytes are read only after they are
    written. *)
Definition new_block : bytes := replicate (Z.to_nat memenv.kBlockSize) x00.

Fixpoint Append_loop (fuel : nat) (f : FileState) (src : bytes) : outcome FileState :=
  match fuel with
  | O => OutOfFuel
  | S fuel =>
      if 0 <? zlen src then
        let offset := size_ f mod memenv.kBlockSize in
        let '(blocks, avail) :=
          if negb (offset =? 0) then (blocks_ f, memenv.kBlockSize - offset)
          else (blocks_ f ++ [new_block], memenv.kBlockSize) in
        let avail := if zlen src <? avail then zlen src else avail in
        let! back := vec_at blocks (zlen blocks - 1) in
        let! back := copy_into back offset (ztake avail src) in
        let blocks := <[(length blocks - 1)%nat := back]> blocks in
        Append_loop fuel (mkMemState (refs_ f) blocks (size_ f + avail)) (zdrop avail src)
      else Ret f
  end.

(** Every round takes at least one byte. *)
Definition state_Append (f : FileState) (data : bytes) : outcome FileState := Append_loop (S (length data)) f data.

Fixpoint Read_loop (fuel : nat) (f : FileState) (block block_offset bytes_to_copy : Z) (dst : bytes) : outcome bytes :=
  match fuel with
  | O => OutOfFuel
  | S fuel =>
      if 0 <? bytes_to_copy then
        let avail := memenv.kBlockSize - block_offset in
        let avail := if bytes_to_copy <? avail then bytes_to_copy else avail in
        let! b := vec_at (blocks_ f) block in
        let! part := copy_from b block_offset avail in
        Read_loop fuel f (block + 1) 0 (bytes_to_copy - avail) (dst ++ part)
      else Ret dst
  end.

Definition state_Read (f : FileState) (offset n : Z) : outcome (Status * bytes) :=
  if size_ f <? offset then Ret (IOError "Offset greater than file size.", [])
  else
    let available := size_ f - offset in
    let n := if available <? n then available else n in
    if n =? 0 then Ret (OK, [])
    else
      let! r := Read_loop (S (Z.to_nat n)) f (offset / memenv.kBlockSize) (offset mod memenv.kBlockSize) n [] in
      Ret (OK, r).

(** ** The environment *)

(** [file_map_] is a [std::map] from names to pointers: a list in increasing order of names;
    [None] is the null pointer. *)
Abbreviation FileMap := (list (bytes * option nat)).

Definition map_find (m : FileMap) (n : bytes) : option (option nat) := snd <$> head (filter (fun p => p.1 = n) m).

Fixpoint map_insert (m : FileMap) (n : bytes) (p : option nat) : FileMap :=
  match m with
  | [] => [(n, p)]
  | (k, q) :: rest =>
      if decide (k = n) then (n, p) :: rest
      else if compare n k <? 0 then (n, p) :: m else (k, q) :: map_insert rest n p
  end.

Definition map_erase (m : FileMap) (n : bytes) : FileMap := filter (fun p => p.1 ≠ n) m.

Record InMemoryEnv := mkMemEnv { file_map_ : FileMap; states_ : gmap nat FileState; next_state_ : nat }.

Definition new_MemEnv : InMemoryEnv := mkMemEnv [] ∅ 0.

Definition state_at (e : InMemoryEnv) (a : nat) : outcome FileState :=
  match states_ e !! a with Some f => Ret f | None => AssertFailed end.

Definition set_state (e : InMemoryEnv) (a : nat) (f : FileState) : InMemoryEnv :=
  mkMemEnv (file_map_ e) (<[a := f]> (states_ e)) (next_state_ e).

Definition set_map (e : InMemoryEnv) (m : FileMap) : InMemoryEnv := mkMemEnv m (states_ e) (next_state_ e).

(** A pointer that is not null. *)
Definition pointer (p : option nat) : outcome nat := match p with Some a => Ret a | None => AssertFailed end.

Definition state_Ref (e : InMemoryEnv) (a : nat) : outcome InMemoryEnv :=
  let! f := state_at e a in Ret (set_state e a (mkMemState (refs_ f + 1) (blocks_ f) (size_ f))).

Definition state_Unref (e : InMemoryEnv) (a : nat) : outcome InMemoryEnv :=
  let! f := state_at e a in
  let refs := refs_ f - 1 in
  assert! 0 <=? refs;
  if refs <=? 0 then Ret (mkMemEnv (file_map_ e) (delete a (states_ e)) (next_state_ e))
  else Ret (set_state e a (mkMemState refs (blocks_ f) (size_ f))).

Definition allocate (e : InMemoryEnv) : InMemoryEnv * nat :=
  (mkMemEnv (file_map_ e) (<[next_state_ e := new_FileState]> (states_ e)) (S (next_state_ e)), next_state_ e).

(** [SequentialFileImpl] and [WritableFileImpl]: the file, and the position of a reader. *)
Record MemHandle := mkMemHandle { mh_file : nat; mh_pos : Z }.

Definition mem_NewSequentialFile (e : InMemoryEnv) (fname : bytes) : outcome (InMemoryEnv * Status * option MemHandle) :=
  match map_find (file_map_ e) fname with
  | None => Ret (e, IOError "File not found", None)
  | Some p =>
      let! a := pointer p in
      let! e := state_Ref e a in
      Ret (e, OK, Some (mkMemHandle a 0))
  end.

Definition mem_NewWritableFile (e : InMemoryEnv) (fname : bytes) : outcome (InMemoryEnv * Status * option MemHandle) :=
  let! (e, a) :=
    match map_find (file_map_ e) fname with
    | None =>
        let '(e, a) := allocate e in
        let! e := state_Ref e a in
        Ret (set_map e (map_insert (file_map_ e) fname (Some a)), a)
    | Some p =>
        let! a := pointer p in
        let! f := state_at e a in
        Ret (set_state e a (Truncate f), a)
    end in
  let! e := state_Ref e a in
  Ret (e, OK, Some (mkMemHandle a 0)).

(** [file_map_[fname]] inserts a null pointer under a new name; the new file is not stored. *)
Definition mem_NewAppendableFile (e : InMemoryEnv) (fname : bytes) : outcome (InMemoryEnv * Status * option MemHandle) :=
  let '(e, p) :=
    match map_find (file_map_ e) fname with
    | Some p => (e, p)
    | None => (set_map e (map_insert (file_map_ e) fname None), None)
    end in
  let! (e, a) :=
    match p with
    | Some a => Ret (e, a)
    | None => let '(e, a) := allocate e in let! e := state_Ref e a in Ret (e, a)
    end in
  let! e := state_Ref e a in
  Ret (e, OK, Some (mkMemHandle a 0)).

Definition mem_Read (e : InMemoryEnv) (h : MemHandle) (n : Z) : outcome (MemHandle * Status * bytes) :=
  let! f := state_at e (mh_file h) in
  let! (s, result) := state_Read f (mh_pos h) n in
  if ok s then Ret (mkMemHandle (mh_file h) (mh_pos h + zlen result), s, result) else Ret (h, s, result).

Definition mem_Skip (e : InMemoryEnv) (h : MemHandle) (n : Z) : outcome (MemHandle * Status) :=
  let! f := state_at e (mh_file h) in
  if size_ f <? mh_pos h then Ret (h, IOError "pos_ > file_->Size()")
  else
    let available := size_ f - mh_pos h in
    let n := if available <? n then available else n in
    Ret (mkMemHandle (mh_file h) (mh_pos h + n), OK).

Definition mem_Append (e : InMemoryEnv) (h : MemHandle) (data : bytes) : outcome (InMemoryEnv * Status) :=
  let! f := state_at e (mh_file h) in
  let! f := state_Append f data in
  Ret (set_state e (mh_file h) f, OK).

(** The destructors of the file objects. *)
Definition mem_delete (e : InMemoryEnv) (h : MemHandle) : outcome InMemoryEnv := state_Unref e (mh_file h).

Definition FileExists (e : InMemoryEnv) (fname : bytes) : bool :=
  match map_find (file_map_ e) fname with Some _ => true | None => false end.

Definition GetChildren (e : InMemoryEnv) (dir : bytes) : Status * list bytes :=
  (OK, omap (fun p =>
    let filename := p.1 in
    if (zlen dir + 1 <=? zlen filename) && bool_decide (filename !! length dir = Some x2f) && starts_with filename dir
    then Some (zdrop (zlen dir + 1) filename) else None) (file_map_ e)).

Definition RemoveFileInternal (e : InMemoryEnv) (fname : bytes) : outcome InMemoryEnv :=
  match map_find (file_map_ e) fname with
  | None => Ret e
  | Some p =>
      let! a := pointer p in
      let! e := state_Unref e a in
      Ret (set_map e (map_erase (file_map_ e) fname))
  end.

Definition mem_RemoveFile (e : InMemoryEnv) (fname : bytes) : outcome (InMemoryEnv * Status) :=
  match map_find (file_map_ e) fname with
  | None => Ret (e, IOError "File not found")
  | Some _ => let! e := RemoveFileInternal e fname in Ret (e, OK)
  end.

Definition mem_GetFileSize (e : InMemoryEnv) (fname : bytes) : outcome (Status * Z) :=
  match map_find (file_map_ e) fname with
  | None => Ret (IOError "File not found", 0)
  | Some p => let! a := pointer p in let! f := state_at e a in Ret (OK, Size f)
  end.

(** [file_map_[src]] after the target was removed: a null pointer is inserted when there is no
    such name any more. *)
Definition mem_RenameFile (e : InMemoryEnv) (src target : bytes) : outcome (InMemoryEnv * Status) :=
  match map_find (file_map_ e) src with
  | None => Ret (e, IOError "File not found")
  | Some _ =>
      let! e := RemoveFileInternal e target in
      let p := default None (map_find (file_map_ e) src) in
      let m := map_insert (file_map_ e) target p in
      Ret (set_map e (map_erase m src), OK)
  end.

(** ** A file is a string of bytes *)

Definition state_bytes (f : FileState) : bytes := ztake (size_ f) (concat (blocks_ f)).

Definition blocks_wf (bs : list bytes) : Prop := Forall (fun b => zlen b = memenv.kBlockSize) bs.

Record state_wf (f : FileState) : Prop := mkStateWf {
  sw_size : 0 <= size_ f;
  sw_blocks : blocks_wf (blocks_ f);
  sw_count : zlen (blocks_ f) = (size_ f + memenv.kBlockSize - 1) / memenv.kBlockSize;
}.

Lemma kBlockSize_eq : memenv.kBlockSize = 8192.
Proof. done. Qed.

Lemma concat_blocks bs : blocks_wf bs -> zlen (concat bs) = zlen bs * memenv.kBlockSize.
Proof. induction 1 as [|b bs Hb _ IH]; [done|]. simpl. rewrite zlen_app, zlen_cons, IH, Hb. lia. Qed.

Lemma state_wf_full f : state_wf f -> size_ f <= zlen (concat (blocks_ f)).
Proof. intros [H1 H2 H3]. rewrite concat_blocks, H3, kBlockSize_eq by done. zdiv_lia. Qed.

Lemma state_bytes_length f : state_wf f -> zlen (state_bytes f) = size_ f.
Proof. intros Hw. pose proof (state_wf_full f Hw). destruct Hw. unfold state_bytes. rewrite zlen_ztake. lia. Qed.

Lemma copy_into_spec block offset src :
  0 <= offset -> offset + zlen src <= zlen block ->
  copy_into block offset src = Ret (ztake offset block ++ src ++ zdrop (offset + zlen src) block) /\
  zlen (ztake offset block ++ src ++ zdrop (offset + zlen src) block) = zlen block.
Proof.
  intros Ho Hl. unfold copy_into. destruct (Z.leb_spec 0 offset); [|lia]. destruct (Z.leb_spec (offset + zlen src) (zlen block)); [|lia].
  split; [done|]. zlen_lia.
Qed.

(** One round: the last block is [back], of which [offset] bytes are used. *)
Lemma append_round (init : list bytes) (back src : bytes) offset :
  0 <= offset -> offset + zlen src <= zlen back ->
  ztake (zlen (concat init) + offset + zlen src) (concat (init ++ [ztake offset back ++ src ++ zdrop (offset + zlen src) back])) =
  ztake (zlen (concat init) + offset) (concat (init ++ [back])) ++ src.
Proof.
  intros Ho Hl. rewrite !concat_app. simpl. rewrite !app_nil_r.
  replace (ztake (zlen (concat init) + offset) (concat init ++ back)) with (concat init ++ ztake offset back).
  2:{ symmetry. rewrite <- (ztake_zdrop offset back) at 1. rewrite app_assoc. apply ztake_app_len. zlen_lia. }
  rewrite !app_assoc. apply ztake_app_len. zlen_lia.
Qed.

Lemma Append_loop_spec fuel f src :
  state_wf f -> (length src < fuel)%nat ->
  exists f', Append_loop fuel f src = Ret f' /\ state_wf f' /\ state_bytes f' = state_bytes f ++ src /\ refs_ f' = refs_ f.
Proof.
  revert f src. induction fuel as [|fuel IH]; intros f src Hw Hf; [lia|]. cbn [Append_loop]. pose proof (zlen_nonneg src) as Hsn.
  destruct (Z.ltb_spec 0 (zlen src)) as [Hpos|Hz].
  2:{ exists f. assert (src = []) as -> by (apply zlen_0_nil; lia). by rewrite app_nil_r. }
  pose proof Hw as [Hs Hb Hc]. rewrite kBlockSize_eq in *. set (offset := size_ f mod 8192).
  assert (0 <= offset < 8192) as Hoff by (apply Z.mod_pos_bound; lia).
  (* the blocks before the last one, and the last one *)
  assert (exists init back, (if negb (offset =? 0) then (blocks_ f, 8192 - offset) else (blocks_ f ++ [new_block], 8192)) =
      (init ++ [back], 8192 - offset) /\ blocks_wf init /\ zlen back = 8192 /\ zlen (concat init) + offset = size_ f /\
      state_bytes f = ztake (size_ f) (concat (init ++ [back]))) as (init & back & -> & Hi & Hbl & Hsz & Hbytes).
  { destruct (Z.eqb_spec offset 0) as [H0|H0]; cbn [negb].
    - exists (blocks_ f), new_block. rewrite H0. split; [done|]. split; [done|]. split; [unfold new_block; by rewrite zlen_replicate|].
      assert (zlen (concat (blocks_ f)) = size_ f) as Hfull.
      { rewrite concat_blocks, Hc, kBlockSize_eq by done. unfold offset in H0. zdiv_lia. }
      split; [lia|]. unfold state_bytes. rewrite concat_app. rewrite ztake_app_len by done. by rewrite ztake_all by lia.
    - destruct (exists_last (l := blocks_ f)) as (bs0 & b0 & Eb).
      { intros Hnil. rewrite Hnil, zlen_nil in Hc. unfold offset in H0. zdiv_lia. }
      rewrite Eb in Hb, Hc |- *. exists bs0, b0. apply Forall_app in Hb as [Hb1 Hb2]. apply Forall_cons in Hb2 as [Hb2 _]. split; [done|]. split; [done|].
      split; [exact Hb2|]. rewrite zlen_app, zlen_cons, zlen_nil in Hc. split; [rewrite concat_blocks, kBlockSize_eq by done; unfold offset in *; zdiv_lia|].
      unfold state_bytes. by rewrite Eb. }
  cbv beta iota zeta.
  set (avail := if zlen src <? 8192 - offset then zlen src else 8192 - offset).
  assert (0 < avail <= zlen src /\ offset + avail <= 8192) as [Hav Hav2].
  { subst avail. destruct (Z.ltb_spec (zlen src) (8192 - offset)); lia. }
  replace (zlen (init ++ [back]) - 1) with (Z.of_nat (length init)) by (rewrite zlen_app; unfold zlen; simpl; lia).
  rewrite (vec_at_lookup _ _ back) by (by rewrite list_lookup_middle). cbn [obind].
  assert (zlen (ztake avail src) = avail) as Hla by (rewrite zlen_ztake; lia).
  destruct (copy_into_spec back offset (ztake avail src)) as [-> Hbl2]; [lia|lia|]. cbn [obind].
  rewrite length_app. simpl (length [back]). replace (length init + 1 - 1)%nat with (length init) by lia.
  rewrite insert_app_r_alt, Nat.sub_diag by lia. simpl (<[_ := _]> [back]).
  destruct (IH (mkMemState (refs_ f) (init ++ [ztake offset back ++ ztake avail src ++ zdrop (offset + zlen (ztake avail src)) back]) (size_ f + avail))
    (zdrop avail src)) as (f' & -> & Hw' & Hb' & Hr').
  - split; simpl; [lia| |].
    + apply Forall_app. split; [done|]. apply Forall_singleton. by rewrite Hbl2, Hbl.
    + pose proof (concat_blocks init Hi) as Hci. rewrite zlen_app, zlen_cons, zlen_nil. rewrite kBlockSize_eq in *. zdiv_lia.
  - unfold zdrop. rewrite length_drop. unfold zlen in *. lia.
  - exists f'. split; [done|]. split; [done|]. split; [|done]. rewrite Hb'. unfold state_bytes at 1. cbn [size_ blocks_].
    rewrite <- Hsz. rewrite <- Hla at 1. rewrite append_round by (rewrite ?Hla; lia). rewrite Hbytes, <- Hsz, <- app_assoc. f_equal. apply ztake_zdrop.
Qed.

Lemma state_Append_spec f data : state_wf f ->
  exists f', state_Append f data = Ret f' /\ state_wf f' /\ state_bytes f' = state_bytes f ++ data /\ refs_ f' = refs_ f.
Proof. intros Hw. apply Append_loop_spec; [done|lia]. Qed.

Lemma Read_loop_spec fuel f (b : nat) o n dst :
  blocks_wf (blocks_ f) -> 0 <= o < memenv.kBlockSize -> 0 <= n -> Z.of_nat b * memenv.kBlockSize + o + n <= zlen (concat (blocks_ f)) ->
  (Z.to_nat n < fuel)%nat ->
  Read_loop fuel f (Z.of_nat b) o n dst = Ret (dst ++ ztake n (zdrop (Z.of_nat b * memenv.kBlockSize + o) (concat (blocks_ f)))).
Proof.
  intros Hb. revert b o n dst. induction fuel as [|fuel IH]; intros b o n dst Ho Hn Hle Hf; [lia|]. cbn [Read_loop]. rewrite kBlockSize_eq in *.
  destruct (Z.ltb_spec 0 n) as [Hpos|Hz].
  2:{ replace n with 0 by lia. by rewrite ztake_0, app_nil_r. }
  set (avail := if n <? 8192 - o then n else 8192 - o).
  assert (0 < avail <= n /\ o + avail <= 8192 /\ (avail = n \/ o + avail = 8192)) as (Hav & Hav2 & Hav3).
  { subst avail. destruct (Z.ltb_spec n (8192 - o)); lia. }
  pose proof (concat_blocks _ Hb) as Hcl. rewrite kBlockSize_eq in Hcl.
  destruct (lookup_lt_is_Some_2 (blocks_ f) b) as [blk Hblk]; [assert (Z.of_nat b < zlen (blocks_ f)) by lia; unfold zlen in *; lia|].
  rewrite (vec_at_lookup _ _ _ Hblk). cbn [obind]. pose proof (Forall_lookup_1 _ _ _ _ Hb Hblk) as Hbk. simpl in Hbk. rewrite kBlockSize_eq in Hbk.
  unfold copy_from. destruct (Z.leb_spec 0 o); [|lia]. destruct (Z.leb_spec (o + avail) (zlen blk)); [|lia]. cbn [andb oassert obind].
  (* the bytes from here on: the rest of the block, then the blocks after it *)
  assert (zdrop (Z.of_nat b * 8192 + o) (concat (blocks_ f)) = zdrop o blk ++ zdrop (Z.of_nat (S b) * 8192) (concat (blocks_ f))) as Hsplit.
  { rewrite <- (take_drop_middle _ _ _ Hblk). rewrite !concat_app. simpl.
    assert (zlen (concat (take b (blocks_ f))) = Z.of_nat b * 8192) as Ht.
    { rewrite concat_blocks by (by apply Forall_take). rewrite kBlockSize_eq. unfold zlen. rewrite length_take.
      apply lookup_lt_Some in Hblk. lia. }
    rewrite (zdrop_app_ge (Z.of_nat b * 8192 + o)), (zdrop_app_ge (Z.of_nat (S b) * 8192)) by lia. rewrite Ht.
    replace (Z.of_nat b * 8192 + o - Z.of_nat b * 8192) with o by lia.
    replace (Z.of_nat (S b) * 8192 - Z.of_nat b * 8192) with 8192 by lia. rewrite zdrop_app_le by lia. by rewrite (zdrop_app_len 8192 blk). }
  destruct (decide (avail = n)) as [->|Hne].
  - replace (n - n) with 0 by lia. destruct fuel as [|fuel]; [lia|]. cbn [Read_loop Z.ltb Z.compare]. do 2 f_equal.
    rewrite Hsplit. symmetry. rewrite <- (ztake_zdrop n (zdrop o blk)) at 1. rewrite <- app_assoc. apply ztake_app_len. zlen_lia.
  - assert (o + avail = 8192) as Hfull by lia. replace (Z.of_nat b + 1) with (Z.of_nat (S b)) by lia.
    rewrite IH; [|lia|lia|lia|lia]. rewrite Hsplit, <- app_assoc. do 2 f_equal. rewrite (ztake_all avail) by zlen_lia.
    assert (zlen (zdrop o blk) = avail) as Hl by zlen_lia. replace (Z.of_nat (S b) * 8192 + 0) with (Z.of_nat (S b) * 8192) by lia.
    unfold ztake, zdrop in *. rewrite take_app. unfold zlen in Hl. rewrite (take_ge _ (Z.to_nat n)) by lia. f_equal. f_equal. lia.
Qed.

Lemma state_Read_spec f offset n : state_wf f -> 0 <= offset -> 0 <= n ->
  state_Read f offset n =
    if size_ f <? offset then Ret (IOError "Offset greater than file size.", []) else Ret (OK, ztake n (zdrop offset (state_bytes f))).
Proof.
  intros Hw Ho Hn. unfold state_Read. destruct (Z.ltb_spec (size_ f) offset) as [|Hle]; [done|].
  pose proof (state_wf_full f Hw) as Hfull. pose proof (state_bytes_length f Hw) as Hlen.
  set (n' := if size_ f - offset <? n then size_ f - offset else n).
  assert (0 <= n' <= size_ f - offset /\ (n' = n \/ (n' = size_ f - offset /\ n' < n))) as [Hn' Hcase].
  { subst n'. destruct (Z.ltb_spec (size_ f - offset) n); lia. }
  assert (ztake n (zdrop offset (state_bytes f)) = ztake n' (zdrop offset (concat (blocks_ f)))) as ->.
  { unfold state_bytes, ztake, zdrop. rewrite skipn_firstn_comm, take_take. f_equal. lia. }
  destruct (Z.eqb_spec n' 0) as [->|Hnz]; [by rewrite ztake_0|]. rewrite kBlockSize_eq.
  replace (offset / 8192) with (Z.of_nat (Z.to_nat (offset / 8192))) by (apply Z2Nat.id, Z.div_pos; lia).
  assert (Z.of_nat (Z.to_nat (offset / 8192)) * 8192 + offset mod 8192 = offset) as Hoff.
  { rewrite Z2Nat.id by (apply Z.div_pos; lia). pose proof (Z.div_mod offset 8192). lia. }
  rewrite Read_loop_spec; rewrite ?kBlockSize_eq; [cbn [obind]; by rewrite Hoff|apply Hw|apply Z.mod_pos_bound; lia|lia|lia|lia].
Qed.

(** ** The map of names *)

Lemma map_find_cons k q m n : map_find ((k, q) :: m) n = if decide (k = n) then Some q else map_find m n.
Proof. unfold map_find. rewrite filter_cons. simpl. by destruct (decide (k = n)). Qed.

Lemma map_find_insert m n p : map_find (map_insert m n p) n = Some p.
Proof.
  induction m as [|[k q] m IH]; cbn [map_insert]; [by rewrite map_find_cons, decide_True|].
  destruct (decide (k = n)); [by rewrite map_find_cons, decide_True|].
  destruct (_ <? 0); rewrite map_find_cons; [by rewrite decide_True|by rewrite decide_False].
Qed.

Lemma map_find_insert_ne m n p n' : n' ≠ n -> map_find (map_insert m n p) n' = map_find m n'.
Proof.
  intros Hne. induction m as [|[k q] m IH]; cbn [map_insert]; [by rewrite map_find_cons, decide_False|].
  destruct (decide (k = n)) as [->|]; [by rewrite !map_find_cons, !decide_False|].
  destruct (_ <? 0); rewrite map_find_cons; [by rewrite decide_False|]. by rewrite map_find_cons, IH.
Qed.

Lemma map_find_erase m n : map_find (map_erase m n) n = None.
Proof.
  unfold map_erase. induction m as [|[k q] m IH]; [done|]. rewrite filter_cons. simpl. destruct (decide (k ≠ n)); [|done].
  by rewrite map_find_cons, decide_False.
Qed.

Lemma map_find_erase_ne m n n' : n' ≠ n -> map_find (map_erase m n) n' = map_find m n'.
Proof.
  intros Hne. unfold map_erase. induction m as [|[k q] m IH]; [done|]. rewrite filter_cons. simpl.
  destruct (decide (k ≠ n)) as [|Hk]; rewrite !map_find_cons, IH; [done|]. rewrite decide_False; [done|].
  intros ->. by apply Hk.
Qed.

(** ** The environment satisfies the laws of the file system *)

#[global] Instance state_wf_dec f : Decision (state_wf f).
Proof.
  refine (cast_if (decide (0 <= size_ f /\ blocks_wf (blocks_ f) /\
    zlen (blocks_ f) = (size_ f + memenv.kBlockSize - 1) / memenv.kBlockSize))); [by split; tauto|].
  intros [H1 H2 H3]. tauto.
Defined.

(** An operation on a file object that is gone has no defined result; here it is an error. *)
Definition usable (e : InMemoryEnv) (h : MemHandle) : Prop :=
  match states_ e !! mh_file h with Some f => state_wf f | None => False end.

#[global] Instance usable_dec e h : Decision (usable e h).
Proof. unfold usable. destruct (states_ e !! mh_file h); apply _. Defined.

Definition undefined : Status := IOError "undefined".

Definition total {A} (m : outcome A) (default : A) : A := match m with Ret a => a | _ => default end.

#[global] Instance MemEnv_Env : Env InMemoryEnv MemHandle := {
  NewSequentialFile e n := total (mem_NewSequentialFile e n) (e, undefined, None);
  NewWritableFile e n := total (mem_NewWritableFile e n) (e, undefined, None);
  NewAppendableFile e n := total (mem_NewAppendableFile e n) (e, undefined, None);
  file_Read e h n := let '(h, s, r) := total (mem_Read e h n) (h, undefined, []) in (e, h, s, r);
  file_Skip e h n := let '(h, s) := total (mem_Skip e h n) (h, undefined) in (e, h, s);
  file_Append e h d := if decide (usable e h) then total (mem_Append e h d) (e, undefined) else (e, undefined);
  file_Flush e h := if decide (usable e h) then (e, OK) else (e, undefined);
  file_Sync e h := (e, OK);
  file_Close e h := (e, OK);
  file_delete e h := total (mem_delete e h) e;
  GetFileSize e n := total (mem_GetFileSize e n) (undefined, 0);
  RemoveFile e n := total (mem_RemoveFile e n) (e, undefined);
  RenameFile e src tgt := total (mem_RenameFile e src tgt) (e, undefined);
}.

Record mem_ok (e : InMemoryEnv) : Prop := mkMemOk {
  mo_entry n p : map_find (file_map_ e) n = Some p -> exists a f, p = Some a /\ states_ e !! a = Some f /\ state_wf f /\ 1 <= refs_ f;
  mo_inj n m a : map_find (file_map_ e) n = Some (Some a) -> map_find (file_map_ e) m = Some (Some a) -> n = m;
  mo_next a f : states_ e !! a = Some f -> (a < next_state_ e)%nat;
}.

Definition mem_fs (e : InMemoryEnv) (n : bytes) : option bytes :=
  match map_find (file_map_ e) n with Some (Some a) => state_bytes <$> states_ e !! a | _ => None end.

(** A file that has a name and at least one open handle. *)
Definition mem_opened (e : InMemoryEnv) (h : MemHandle) (n : bytes) (f : FileState) : Prop :=
  map_find (file_map_ e) n = Some (Some (mh_file h)) /\ states_ e !! mh_file h = Some f /\ state_wf f /\ 2 <= refs_ f.

Definition mem_writes (e : InMemoryEnv) (h : MemHandle) (n : bytes) : Prop := exists f, mem_opened e h n f.

Definition mem_reads (e : InMemoryEnv) (h : MemHandle) (n rest : bytes) : Prop :=
  exists f, mem_opened e h n f /\ 0 <= mh_pos h <= size_ f /\ rest = zdrop (mh_pos h) (state_bytes f).

Definition mem_bytes (e : InMemoryEnv) (h : MemHandle) : bytes :=
  match states_ e !! mh_file h with Some f => state_bytes f | None => [] end.

Abbreviation mem_keeps := (keeps mem_ok mem_fs mem_writes mem_reads).

(** A file that stays open stays so for writing and for reading. *)
Lemma opened_kept e e' h m : (forall f, mem_opened e h m f -> mem_opened e' h m f) ->
  (mem_writes e h m -> mem_writes e' h m) /\ forall c, mem_reads e h m c -> mem_reads e' h m c.
Proof. intros Hk. split; [intros (f & Hf); exists f; auto|]. intros c (f & Hf & Hc). exists f. auto. Qed.

(** Changing the object of one file. *)
Lemma set_state_keeps e n a f f' :
  mem_ok e -> map_find (file_map_ e) n = Some (Some a) -> states_ e !! a = Some f -> state_wf f' -> 1 <= refs_ f' ->
  mem_keeps e (set_state e a f') n.
Proof.
  intros [He Hi Hx] Hn Ha Hw Hr. split; [split; simpl|split].
  - intros m p Hm. destruct (He m p Hm) as (b & g & -> & Hb & Hg). destruct (decide (b = a)) as [->|Hne].
    + exists a, f'. by rewrite lookup_insert_eq.
    + exists b, g. by rewrite lookup_insert_ne by done.
  - intros m m' b. by apply Hi.
  - intros b g Hb. apply lookup_insert_Some in Hb as [[<- _]|[_ Hb]]; by eapply Hx.
  - intros m Hm. unfold mem_fs. simpl. destruct (map_find (file_map_ e) m) as [[b|]|] eqn:Em; try done.
    rewrite lookup_insert_ne; [done|]. intros ->. apply Hm. by apply (Hi m n b).
  - intros h m Hm. apply opened_kept. intros g (Hg & Hs & Hgw). split; [done|]. split; [|done]. simpl. rewrite lookup_insert_ne; [done|].
    intros ->. apply Hm. by apply (Hi m n (mh_file h)).
Qed.

Lemma mem_writes_fs e h n : mem_writes e h n -> mem_fs e n = Some (mem_bytes e h).
Proof. intros (f & Hn & Hs & _). unfold mem_fs, mem_bytes. by rewrite Hn, Hs. Qed.

(** Giving up one of two references keeps the file. *)
Lemma mem_delete_spec e h n f : mem_ok e -> mem_opened e h n f ->
  mem_keeps e (total (mem_delete e h) e) n /\ mem_fs (total (mem_delete e h) e) n = mem_fs e n.
Proof.
  intros He (Hn & Hs & Hw & Hr). unfold mem_delete, state_Unref, state_at. rewrite Hs. cbn [obind].
  destruct (Z.leb_spec 0 (refs_ f - 1)); [|lia]. cbn [oassert obind]. destruct (Z.leb_spec (refs_ f - 1) 0); [lia|]. cbn [total].
  split.
  - apply (set_state_keeps _ _ _ f); try done; [|simpl; lia]. by destruct Hw.
  - unfold mem_fs. simpl. by rewrite Hn, lookup_insert_eq, Hs.
Qed.

(** One more reference to a file with a name opens it. *)
Lemma state_Ref_opens e n a f : mem_ok e -> map_find (file_map_ e) n = Some (Some a) -> states_ e !! a = Some f -> state_wf f -> 1 <= refs_ f ->
  exists f', state_Ref e a = Ret (set_state e a f') /\ state_bytes f' = state_bytes f /\ size_ f' = size_ f /\
    mem_keeps e (set_state e a f') n /\ forall pos, mem_opened (set_state e a f') (mkMemHandle a pos) n f'.
Proof.
  intros He Hn Ha Hw Hr. unfold state_Ref, state_at. rewrite Ha. cbn [obind]. eexists. split; [reflexivity|]. split; [done|]. split; [done|].
  split; [apply (set_state_keeps _ _ _ f); try done; [by destruct Hw|simpl; lia]|]. intros pos. split; [done|]. simpl. rewrite lookup_insert_eq.
  split; [done|]. split; [by destruct Hw|simpl; lia].
Qed.

Lemma new_state_wf r : state_wf (mkMemState r [] 0).
Proof. split; simpl; [done|constructor|done]. Qed.

Lemma mem_new_writable e n : mem_ok e ->
  exists e' h, mem_NewWritableFile e n = Ret (e', OK, Some h) /\ mem_keeps e e' n /\ mem_writes e' h n /\ mem_bytes e' h = [].
Proof.
  intros He. unfold mem_NewWritableFile. destruct (map_find (file_map_ e) n) as [p|] eqn:En.
  - destruct (mo_entry _ He n p En) as (a & f & -> & Ha & Hw & Hr). cbn [pointer obind]. unfold state_at at 1. rewrite Ha. cbn [obind].
    pose proof (set_state_keeps e n a f (Truncate f) He En Ha (new_state_wf _) Hr) as K1. pose proof K1 as [He1 _].
    destruct (state_Ref_opens (set_state e a (Truncate f)) n a (Truncate f)) as (f' & -> & Hb & _ & K2 & Ho); try done; [by apply lookup_insert_eq|apply new_state_wf|].
    cbn [obind]. eexists _, _. split; [reflexivity|]. split; [|split; [by exists f'|]].
    + destruct K1 as (_ & Hf1 & Hw1), K2 as (Ho2 & Hf2 & Hw2). split; [done|]. split; [intros m Hm; by rewrite Hf2, Hf1|].
      intros h m Hm. destruct (Hw1 h m Hm), (Hw2 h m Hm). auto.
    + unfold mem_bytes. simpl. by rewrite lookup_insert_eq, Hb.
  - unfold allocate, state_Ref, state_at. simpl. rewrite lookup_insert_eq. cbn [obind]. simpl. rewrite lookup_insert_eq. cbn [obind].
    eexists _, _. split; [reflexivity|]. unfold set_state, set_map. simpl. rewrite !insert_insert_eq. destruct He as [He Hi Hx].
    assert (forall m p, map_find (file_map_ e) m = Some p -> p ≠ Some (next_state_ e)) as Hnew.
    { intros m p Hm ->. destruct (He m _ Hm) as (a & f & [= <-] & Ha & _). apply Hx in Ha. lia. }
    split; [split; [split; simpl|split]|split].
    + intros m p Hm. destruct (decide (m = n)) as [->|Hne].
      * rewrite map_find_insert in Hm. injection Hm as <-. eexists _, _. split; [done|]. rewrite lookup_insert_eq. split; [done|]. split; [apply new_state_wf|done].
      * rewrite map_find_insert_ne in Hm by done. destruct (He m p Hm) as (a & f & -> & Ha & Hf). exists a, f. split; [done|].
        rewrite lookup_insert_ne; [done|]. intros <-. by apply (Hnew m _ Hm).
    + intros m m' a Hm Hm'. destruct (decide (m = n)) as [->|Hne], (decide (m' = n)) as [->|Hne']; [done| | |].
      * rewrite map_find_insert in Hm. rewrite map_find_insert_ne in Hm' by done. injection Hm as <-. by apply Hnew in Hm'.
      * rewrite map_find_insert in Hm'. rewrite map_find_insert_ne in Hm by done. injection Hm' as <-. by apply Hnew in Hm.
      * rewrite map_find_insert_ne in Hm, Hm' by done. by apply (Hi m m' a).
    + intros a f Ha. apply lookup_insert_Some in Ha as [[<- _]|[_ Ha]]; [lia|]. apply Hx in Ha. lia.
    + intros m Hm. unfold mem_fs. simpl. rewrite map_find_insert_ne by done. destruct (map_find (file_map_ e) m) as [[a|]|] eqn:Em; try done.
      rewrite lookup_insert_ne; [done|]. intros <-. by apply (Hnew m _ Em).
    + intros h m Hm. apply opened_kept. intros f (Hf & Hs & Hfw). split; [simpl; by rewrite map_find_insert_ne|]. split; [|done]. simpl.
      rewrite lookup_insert_ne; [done|]. intros Heq. rewrite <- Heq in Hf. by apply (Hnew m _ Hf).
    + eexists. split; [simpl; by rewrite map_find_insert|]. simpl. rewrite lookup_insert_eq. split; [done|]. split; [apply new_state_wf|done].
    + unfold mem_bytes. simpl. by rewrite lookup_insert_eq.
Qed.

Lemma erase_keeps e e0 n a f :
  mem_ok e -> map_find (file_map_ e) n = Some (Some a) -> states_ e !! a = Some f -> file_map_ e0 = file_map_ e -> next_state_ e0 = next_state_ e ->
  (forall b, b ≠ a -> states_ e0 !! b = states_ e !! b) ->
  mem_keeps e (set_map e0 (map_erase (file_map_ e) n)) n /\ map_find (map_erase (file_map_ e) n) n = None.
Proof.
  intros [He Hi Hx] Hn Ha Hm0 Hx0 Hs. split; [|apply map_find_erase].
  assert (forall m b, m ≠ n -> map_find (file_map_ e) m = Some (Some b) -> b ≠ a) as Hne by (intros m b Hm Hb ->; by apply Hm, (Hi m n a)).
  split; [split; simpl|split].
  - intros m p Hm. destruct (decide (m = n)) as [->|Hmn]; [by rewrite map_find_erase in Hm|]. rewrite map_find_erase_ne in Hm by done.
    destruct (He m p Hm) as (b & g & -> & Hb & Hg). exists b, g. split; [done|]. rewrite Hs by (by apply (Hne m)). done.
  - intros m m' b Hm Hm'. destruct (decide (m = n)) as [->|Hmn]; [by rewrite map_find_erase in Hm|].
    destruct (decide (m' = n)) as [->|Hmn']; [by rewrite map_find_erase in Hm'|]. rewrite !map_find_erase_ne in Hm, Hm' by done. by apply (Hi m m' b).
  - intros b g Hb. rewrite Hx0. destruct (decide (b = a)) as [->|Hba]; [by eapply Hx|]. rewrite Hs in Hb by done. by eapply Hx.
  - intros m Hm. unfold mem_fs. simpl. rewrite map_find_erase_ne by done. destruct (map_find (file_map_ e) m) as [[b|]|] eqn:Em; try done.
    rewrite Hs; [done|]. by apply (Hne m).
  - intros h m Hm. apply opened_kept. intros g (Hg & Hst & Hgw). split; [simpl; by rewrite map_find_erase_ne|]. split; [|done]. simpl. rewrite Hs; [done|]. by apply (Hne m).
Qed.

Lemma RemoveFileInternal_spec e n : mem_ok e ->
  exists e', RemoveFileInternal e n = Ret e' /\ mem_keeps e e' n /\ map_find (file_map_ e') n = None /\
    (forall m, m ≠ n -> map_find (file_map_ e') m = map_find (file_map_ e) m) /\
    (forall a, map_find (file_map_ e) n ≠ Some (Some a) -> states_ e' !! a = states_ e !! a).
Proof.
  intros He. unfold RemoveFileInternal. destruct (map_find (file_map_ e) n) as [p|] eqn:En.
  2:{ exists e. split; [done|]. split; [by split|]. split; [done|]. split; done. }
  destruct (mo_entry _ He n p En) as (a & f & -> & Ha & Hw & Hr). cbn [pointer obind]. unfold state_Unref, state_at. rewrite Ha. cbn [obind].
  destruct (Z.leb_spec 0 (refs_ f - 1)); [|lia]. cbn [oassert obind]. destruct (Z.leb_spec (refs_ f - 1) 0); cbn [obind].
  - eexists. split; [reflexivity|].
    destruct (erase_keeps e (mkMemEnv (file_map_ e) (delete a (states_ e)) (next_state_ e)) n a f He En Ha) as [K Hnone]; try done.
    { intros b Hb. simpl. by rewrite lookup_delete_ne. }
    split; [done|]. split; [done|]. simpl. split; [intros m Hm; by rewrite map_find_erase_ne|].
    intros b Hb. rewrite lookup_delete_ne; [done|]. intros ->. by apply Hb.
  - eexists. split; [reflexivity|].
    destruct (erase_keeps e (set_state e a (mkMemState (refs_ f - 1) (blocks_ f) (size_ f))) n a f He En Ha) as [K Hnone]; try done.
    { intros b Hb. simpl. by rewrite lookup_insert_ne. }
    split; [done|]. split; [done|]. simpl. split; [intros m Hm; by rewrite map_find_erase_ne|].
    intros b Hb. rewrite lookup_insert_ne; [done|]. intros ->. by apply Hb.
Qed.

Lemma mem_rename e src tgt f a : mem_ok e -> src ≠ tgt -> map_find (file_map_ e) src = Some (Some a) -> states_ e !! a = Some f ->
  exists e', mem_RenameFile e src tgt = Ret (e', OK) /\ mem_ok e' /\ mem_fs e' tgt = mem_fs e src /\ mem_fs e' src = None /\
    (forall m, m ≠ src -> m ≠ tgt -> mem_fs e' m = mem_fs e m) /\
    forall h m, m ≠ src -> m ≠ tgt -> mem_writes e h m -> mem_writes e' h m.
Proof.
  intros He Hne Hs Ha. unfold mem_RenameFile. rewrite Hs.
  destruct (RemoveFileInternal_spec e tgt He) as (e1 & -> & K1 & Hnone & Hfind & Hstates). cbn [obind].
  rewrite Hfind, Hs by done. cbn [default]. eexists. split; [reflexivity|]. destruct K1 as ([H1 Hi1 Hx1] & Hf1 & Hw1).
  assert (states_ e1 !! a = Some f) as Ha1.
  { rewrite Hstates; [done|]. intros Ht. by apply Hne, (mo_inj _ He src tgt a). }
  assert (map_find (file_map_ e1) src = Some (Some a)) as Hs1 by (by rewrite Hfind).
  assert (forall m, map_find (map_erase (map_insert (file_map_ e1) tgt (Some a)) src) m =
    if decide (m = src) then None else if decide (m = tgt) then Some (Some a) else map_find (file_map_ e1) m) as Hlk.
  { intros m. destruct (decide (m = src)) as [->|Hms]; [apply map_find_erase|]. rewrite map_find_erase_ne by done.
    destruct (decide (m = tgt)) as [->|Hmt]; [apply map_find_insert|by rewrite map_find_insert_ne]. }
  assert (forall m, m ≠ src -> m ≠ tgt -> mem_fs (set_map e1 (map_erase (map_insert (file_map_ e1) tgt (Some a)) src)) m = mem_fs e1 m) as Hsame.
  { intros m Hms Hmt. unfold mem_fs. simpl. by rewrite Hlk, !decide_False. }
  split; [split; simpl|split; [|split; [|split]]].
  - intros m p. rewrite Hlk. destruct (decide (m = src)); [done|]. destruct (decide (m = tgt)) as [->|]; [|apply H1].
    intros [= <-]. by apply H1 in Hs1.
  - intros m m' b. rewrite !Hlk. destruct (decide (m = src)); [done|]. destruct (decide (m' = src)); [done|].
    destruct (decide (m = tgt)) as [->|], (decide (m' = tgt)) as [->|]; [done| | |by apply Hi1].
    + intros [= <-] Hb. by destruct (Hi1 _ _ _ Hb Hs1).
    + intros Hb [= <-]. by destruct (Hi1 _ _ _ Hb Hs1).
  - apply Hx1.
  - unfold mem_fs. simpl. rewrite Hlk, decide_False, decide_True, Hs, Ha1, Ha by done. done.
  - unfold mem_fs. simpl. by rewrite Hlk, decide_True.
  - intros m Hms Hmt. by rewrite Hsame, Hf1.
  - intros h m Hms Hmt Hh. destruct (proj1 (Hw1 h m Hmt) Hh) as (g & Hg & Hgs). exists g. split; [|done]. simpl. by rewrite Hlk, !decide_False.
Qed.

Lemma mem_append e h d f : states_ e !! mh_file h = Some f -> state_wf f ->
  exists f', mem_Append e h d = Ret (set_state e (mh_file h) f', OK) /\ state_wf f' /\ state_bytes f' = state_bytes f ++ d /\ refs_ f' = refs_ f.
Proof.
  intros Hs Hw. unfold mem_Append, state_at. rewrite Hs. cbn [obind].
  destruct (state_Append_spec f d Hw) as (f' & -> & Hw' & Hb & Hr). cbn [obind]. by exists f'.
Qed.

Lemma mem_opened_usable e h n f : mem_opened e h n f -> usable e h.
Proof. intros (_ & Hs & Hw & _). unfold usable. by rewrite Hs. Qed.

Lemma usable_state e h : usable e h -> exists f, states_ e !! mh_file h = Some f /\ state_wf f.
Proof. unfold usable. destruct (states_ e !! mh_file h) as [f|]; [|done]. by exists f. Qed.

#[global, refine] Instance MemEnv_laws : EnvLaws InMemoryEnv MemHandle := {
  env_ok := mem_ok;
  fs := mem_fs;
  writes := mem_writes;
  hbytes := mem_bytes;
  hfailed e h := ~ usable e h;
  reads := mem_reads;
  writes_fs := mem_writes_fs;
}.
Proof.
  - intros e h d e'. simpl. destruct (decide (usable e h)) as [Hu|]; [|done]. destruct (usable_state e h Hu) as (f & Hs & Hw).
    destruct (mem_append e h d f Hs Hw) as (f' & -> & Hw' & Hb & _). simpl. intros [= <-]. unfold usable, mem_bytes. simpl.
    rewrite lookup_insert_eq, Hs. split; [tauto|]. split; [tauto|done].
  - intros e h d e' s. simpl. destruct (decide (usable e h)) as [Hu|Hu].
    + destruct (usable_state e h Hu) as (f & Hs & Hw). destruct (mem_append e h d f Hs Hw) as (f' & -> & _). simpl. by intros [= _ <-].
    + intros [= <- <-] _. split; [done|]. exists 0. by rewrite ztake_0, app_nil_r.
  - intros e h d e' s Hu. simpl. rewrite decide_False by done. by intros [= <- <-].
  - intros e h d e' s n He (f & Ho). simpl. rewrite decide_True by (by eapply mem_opened_usable). destruct Ho as (Hn & Hs & Hw & Hr).
    destruct (mem_append e h d f Hs Hw) as (f' & -> & Hw' & Hb & Hr'). simpl. intros [= <- <-].
    split; [apply (set_state_keeps e n _ f); try done; lia|]. exists f'. split; [done|]. simpl. rewrite lookup_insert_eq. split; [done|]. split; [done|lia].
  - intros e h e' s. simpl. destruct (decide (usable e h)); by intros [= <- <-].
  - intros e h e'. simpl. destruct (decide (usable e h)); [|done]. intros [= <-]. tauto.
  - intros e h e' s. simpl. destruct (decide (usable e h)); by intros [= <- <-].
  - intros e h e' s n He Hw. simpl. destruct (decide (usable e h)); intros [= <- <-]; (split; [by split|done]).
  - intros e h e' s n He Hw. simpl. intros [= <- <-]. by split.
  - intros e h e' s n He Hw. simpl. intros [= <- <-]. by split.
  - intros e h n He (f & Ho). simpl. by apply (mem_delete_spec e h n f).
  - intros e h n c k He (f & Ho & Hp & ->) Hk. pose proof Ho as (Hn & Hs & Hw & Hr). simpl. unfold mem_Read, state_at. rewrite Hs. cbn [obind].
    rewrite state_Read_spec by (done || lia). destruct (Z.ltb_spec (size_ f) (mh_pos h)); [lia|]. cbn [obind ok total].
    eexists _, _. split; [reflexivity|]. split; [|split; [by split|done]]. exists f. split; [done|]. simpl.
    pose proof (state_bytes_length f Hw) as Hl. split; [zlen_lia|]. rewrite zdrop_zdrop by (rewrite ?zlen_ztake, ?zlen_zdrop; lia).
    rewrite zlen_ztake, zlen_zdrop. destruct (Z.le_gt_cases k (size_ f - mh_pos h)); [f_equal; lia|].
    by rewrite !zdrop_all by lia.
  - intros e h n c k He (f & Ho & Hp & ->) Hk. pose proof Ho as (Hn & Hs & Hw & Hr). simpl. unfold mem_Skip, state_at. rewrite Hs. cbn [obind].
    destruct (Z.ltb_spec (size_ f) (mh_pos h)); [lia|]. cbn [total]. eexists _, _. split; [reflexivity|]. split; [|split; [by split|done]].
    pose proof (state_bytes_length f Hw) as Hl. exists f. split; [done|]. simpl. destruct (Z.ltb_spec (size_ f - mh_pos h) k); (split; [lia|]).
    + rewrite zdrop_zdrop by lia. by rewrite !zdrop_all by lia.
    + by rewrite zdrop_zdrop by lia.
  - intros e h n c He (f & Ho & _). simpl. by apply (mem_delete_spec e h n f).
  - intros e n e' s r He. simpl. destruct (mem_new_writable e n He) as (e1 & h & -> & K & Hw & Hb). simpl. intros [= <- <- <-].
    split; [done|]. intros _. by exists h.
  - intros e n e' s r He. simpl. destruct (mem_new_writable e n He) as (e1 & h & -> & _). simpl. by intros [= _ <- _].
  - intros e n c e' s r He Hc. unfold mem_fs in Hc. simpl. unfold mem_NewAppendableFile.
    destruct (map_find (file_map_ e) n) as [[a|]|] eqn:En; try done. destruct (mo_entry _ He n _ En) as (b & f & [= <-] & Ha & Hw & Hr).
    rewrite Ha in Hc. injection Hc as <-. cbn [obind]. destruct (state_Ref_opens e n a f He En Ha Hw Hr) as (f' & -> & Hb & _ & K & Ho). simpl.
    intros [= <- <- <-]. split; [done|]. split; [unfold mem_fs; simpl; by rewrite En, lookup_insert_eq, Ha; simpl; rewrite Hb|].
    intros _. eexists. split; [reflexivity|]. split; [by exists f'|]. unfold mem_bytes. simpl. by rewrite lookup_insert_eq.
  - intros e n c e' s r He Hc. unfold mem_fs in Hc. simpl. unfold mem_NewAppendableFile.
    destruct (map_find (file_map_ e) n) as [[a|]|] eqn:En; try done. destruct (mo_entry _ He n _ En) as (b & f & [= <-] & Ha & Hw & Hr).
    cbn [obind]. destruct (state_Ref_opens e n a f He En Ha Hw Hr) as (f' & -> & _). simpl. by intros [= _ <- _].
  - intros e n c He Hc. unfold mem_fs in Hc. simpl. unfold mem_NewSequentialFile.
    destruct (map_find (file_map_ e) n) as [[a|]|] eqn:En; try done. destruct (mo_entry _ He n _ En) as (b & f & [= <-] & Ha & Hw & Hr).
    rewrite Ha in Hc. injection Hc as <-. cbn [pointer obind]. destruct (state_Ref_opens e n a f He En Ha Hw Hr) as (f' & -> & Hb & Hsz & K & Ho). simpl.
    eexists _, _. split; [reflexivity|]. split; [|split; [done|unfold mem_fs; simpl; by rewrite En, lookup_insert_eq, Ha; simpl; rewrite Hb]].
    exists f'. split; [done|]. simpl. destruct Hw. split; [lia|]. by rewrite zdrop_0, Hb.
  - intros e n He Hc. unfold mem_fs in Hc. simpl. unfold mem_NewSequentialFile.
    destruct (map_find (file_map_ e) n) as [p|] eqn:En.
    + destruct (mo_entry _ He n _ En) as (b & f & -> & Ha & _). by rewrite Ha in Hc.
    + simpl. eexists _, _. split; [reflexivity|]. split; [done|]. split; [by split|]. unfold mem_fs. by rewrite En.
  - intros e n c He Hc. unfold mem_fs in Hc. simpl. unfold mem_GetFileSize, state_at.
    destruct (map_find (file_map_ e) n) as [[a|]|] eqn:En; try done. destruct (mo_entry _ He n _ En) as (b & f & [= <-] & Ha & Hw & _).
    rewrite Ha in Hc. injection Hc as <-. cbn [pointer obind]. rewrite Ha. simpl. by rewrite state_bytes_length.
  - intros e src tgt e' He Hr Hne. simpl in Hr. destruct (map_find (file_map_ e) src) as [p|] eqn:Es.
    + destruct (mo_entry _ He src p Es) as (a & f & -> & Ha & _). destruct (mem_rename e src tgt f a He Hne Es Ha) as (e1 & Hr1 & Hrest).
      rewrite Hr1 in Hr. simpl in Hr. by injection Hr as <-.
    + unfold mem_RenameFile in Hr. by rewrite Es in Hr.
  - intros e src tgt e' s He Hr Hs. simpl in Hr. unfold mem_RenameFile in Hr. destruct (map_find (file_map_ e) src) as [p|] eqn:Es.
    + destruct (RemoveFileInternal_spec e tgt He) as (e1 & Hr1 & _). rewrite Hr1 in Hr. simpl in Hr. by injection Hr as _ <-.
    + simpl in Hr. by injection Hr as <- _.
  - intros e n e' s He Hr. simpl in Hr. unfold mem_RemoveFile in Hr. destruct (map_find (file_map_ e) n) as [p|] eqn:En.
    + destruct (RemoveFileInternal_spec e n He) as (e1 & Hr1 & K & _). rewrite Hr1 in Hr. simpl in Hr. by injection Hr as <- _.
    + simpl in Hr. injection Hr as <- _. by split.
Defined.

Lemma new_MemEnv_ok : mem_ok new_MemEnv.
Proof. by split. Qed.

(** ** The properties *)

(** A file in memory, kept in blocks of eight kilobytes, is a string of bytes. Appending
    never touches memory outside of a block and adds exactly the data at the end, whatever the
    lengths; reading returns the bytes from the offset on, at most as many as asked for, and
    an error only for an offset beyond the end. *)
Theorem memenv_file_refines (f : FileState) (data : bytes) (offset n : Z) :
  state_wf f -> 0 <= offset -> 0 <= n ->
  (exists f', state_Append f data = Ret f' /\ state_wf f' /\ state_bytes f' = state_bytes f ++ data /\ refs_ f' = refs_ f) /\
  state_Read f offset n =
    if zlen (state_bytes f) <? offset then Ret (IOError "Offset greater than file size.", [])
    else Ret (OK, ztake n (zdrop offset (state_bytes f))).
Proof.
  intros Hw Ho Hn. split; [by apply state_Append_spec|]. rewrite state_bytes_length by done. by apply state_Read_spec.
Qed.

Lemma memenv_file_refines_witness :
  exists f1, state_Append new_FileState (replicate (Z.to_nat 9000) x41) = Ret f1 /\ state_wf f1 /\
    state_Read f1 8190 4 = Ret (OK, ztake 4 (zdrop 8190 (state_bytes f1))) /\ state_bytes f1 = replicate (Z.to_nat 9000) x41.
Proof.
  destruct (memenv_file_refines new_FileState (replicate (Z.to_nat 9000) x41) 0 0 (new_state_wf 0) ltac:(done) ltac:(done)) as [(f1 & Hf & Hw & Hb & _) _].
  exists f1. split; [done|]. split; [done|]. change (state_bytes new_FileState) with (@nil byte) in Hb. rewrite app_nil_l in Hb.
  destruct (memenv_file_refines f1 [] 8190 4 Hw ltac:(done) ltac:(done)) as [_ ->]. rewrite Hb, zlen_replicate. done.
Defined.

(** C36: opening a file that does not exist for appending breaks the environment. The code
    looks the name up with the indexing operator of the map, which stores a null pointer under
    it, and never replaces that by the file it allocates: from any state without the file, the
    next request for its size (or any other use of the name) follows the null pointer. *)
Theorem memenv_appendable_dangles (e : InMemoryEnv) (n : bytes) :
  map_find (file_map_ e) n = None ->
  exists e' h, mem_NewAppendableFile e n = Ret (e', OK, Some h) /\ FileExists e' n = true /\
    mem_GetFileSize e' n = AssertFailed /\ mem_NewSequentialFile e' n = AssertFailed /\ mem_RemoveFile e' n = AssertFailed.
Proof.
  intros Hn. unfold mem_NewAppendableFile. rewrite Hn. unfold allocate, state_Ref, state_at. simpl. rewrite lookup_insert_eq. cbn [obind].
  simpl. rewrite lookup_insert_eq. cbn [obind]. eexists _, _. split; [reflexivity|].
  unfold FileExists, mem_GetFileSize, mem_NewSequentialFile, mem_RemoveFile, RemoveFileInternal. simpl. by rewrite map_find_insert.
Qed.

Lemma memenv_appendable_dangles_witness :
  exists e' h, mem_NewAppendableFile new_MemEnv (str "/db/000003.log") = Ret (e', OK, Some h) /\
    mem_GetFileSize e' (str "/db/000003.log") = AssertFailed.
Proof.
  destruct (memenv_appendable_dangles new_MemEnv (str "/db/000003.log") eq_refl) as (e' & h & H1 & _ & H2 & _). by exists e', h.
Defined.
