(* ===== verification/LogSim.v ===== *)
(** * Reading a log from an open file

    The log reader only uses its file through [Read]: readers over files that deliver the same
    bytes behave the same. With it, what is proved of logs read from a string of bytes holds
    for logs read through the file system. *)

From S2P Require Import Prelude Coding Env Crc32c LogWriter LogReader LogCorrect Filename FileSystem.

Open Scope outcome_scope.

(** ** Related outcomes *)

Definition orel {A B} (P : A -> B -> Prop) (m : outcome A) (m' : outcome B) : Prop :=
  match m, m' with
  | Ret a, Ret b => P a b
  | AssertFailed, AssertFailed => True
  | OutOfFuel, OutOfFuel => True
  | _, _ => False
  end.

Lemma orel_bind {A B A' B'} (P : A -> A' -> Prop) (Q : B -> B' -> Prop) m m' f f' :
  orel P m m' -> (forall a a', P a a' -> orel Q (f a) (f' a')) -> orel Q (obind m f) (obind m' f').
Proof. destruct m, m'; simpl; try done. auto. Qed.

Section Simulation.
Context `{Crc32c} {F G : Type} `{SequentialFile F} `{SequentialFile G}.

Variable R : F -> G -> Prop.

(** Related files return the same on every read. *)
Hypothesis read_sim : forall f g n f' s d, 0 <= n -> R f g -> Read f n = (f', s, d) -> exists g', Read g n = (g', s, d) /\ R f' g'.
Hypothesis skip_sim : forall f g n f' s, 0 <= n -> R f g -> Skip f n = (f', s) -> exists g', Skip g n = (g', s) /\ R f' g'.

(** The same state but for the file. *)
Definition sim (r : Reader F) (q : Reader G) : Prop :=
  R (file_ r) (file_ q) /\ reporter_ q = reporter_ r /\ reports_ q = reports_ r /\ checksum_ q = checksum_ r /\
  buffer_ q = buffer_ r /\ eof_ q = eof_ r /\ last_record_offset_ q = last_record_offset_ r /\
  end_of_buffer_offset_ q = end_of_buffer_offset_ r /\ initial_offset_ q = initial_offset_ r /\ resyncing_ q = resyncing_ r.

Ltac sim_fields := repeat split; simpl; try done; try congruence.

Lemma sim_set_buffer r q b : sim r q -> sim (set_buffer r b) (set_buffer q b).
Proof. intros (? & ? & ? & ? & ? & ? & ? & ? & ? & ?). sim_fields. Qed.

Lemma sim_set_last r q o : sim r q -> sim (set_last r o) (set_last q o).
Proof. intros (? & ? & ? & ? & ? & ? & ? & ? & ? & ?). sim_fields. Qed.

Lemma sim_set_resyncing r q b : sim r q -> sim (set_resyncing r b) (set_resyncing q b).
Proof. intros (? & ? & ? & ? & ? & ? & ? & ? & ? & ?). sim_fields. Qed.

Lemma sim_set_eof r q b : sim r q -> sim (set_eof r b) (set_eof q b).
Proof. intros (? & ? & ? & ? & ? & ? & ? & ? & ? & ?). sim_fields. Qed.

Lemma sim_report r q n s : sim r q -> sim (ReportDrop r n s) (ReportDrop q n s).
Proof.
  intros (Hf & Hr & Hrp & Hc & Hb & He & Hl & Hen & Hi & Hrs). unfold ReportDrop. rewrite Hr, Hi, Hen, Hb.
  destruct (reporter_ r && _); sim_fields.
Qed.

Lemma parse_sim r q result : sim r q ->
  let '(r', t, d) := ParsePhysicalRecord r result in let '(q', t', d') := ParsePhysicalRecord q result in sim r' q' /\ t' = t /\ d' = d.
Proof.
  intros Hs. pose proof Hs as (Hf & Hr & Hrp & Hc & Hb & He & Hl & Hen & Hi & Hrs). unfold ParsePhysicalRecord. rewrite Hb, Hc.
  cbn [set_buffer eof_ end_of_buffer_offset_ initial_offset_ buffer_]. rewrite He, Hen, Hi.
  destruct (zlen (buffer_ r) <? _).
  - destruct (negb (eof_ r)); (split; [|done]); [by apply sim_report, sim_set_buffer|by apply sim_set_buffer].
  - destruct ((_ =? _) && _); [split; [by apply sim_set_buffer|done]|].
    destruct (checksum_ r && _); [split; [by apply sim_report, sim_set_buffer|done]|].
    destruct (_ <? initial_offset_ r); (split; [by apply sim_set_buffer|done]).
Qed.

Definition same_result (x : Reader F * Z * bytes) (y : Reader G * Z * bytes) : Prop :=
  let '(r, t, d) := x in let '(q, t', d') := y in sim r q /\ t' = t /\ d' = d.

Lemma physical_sim fuel r q result : sim r q ->
  orel same_result (ReadPhysicalRecord_loop fuel r result) (ReadPhysicalRecord_loop fuel q result).
Proof.
  revert r q. induction fuel as [|fuel IH]; intros r q Hs; [done|]. cbn [ReadPhysicalRecord_loop].
  pose proof Hs as (Hf & Hr & Hrp & Hc & Hb & He & Hl & Hen & Hi & Hrs). rewrite Hb, He.
  destruct (zlen (buffer_ r) <? kHeaderSize).
  - destruct (negb (eof_ r)); [|split; [by apply sim_set_buffer|done]]. cbn [set_buffer file_].
    destruct (Read (file_ r) kBlockSize) as [[f' s] d] eqn:E. destruct (read_sim _ _ kBlockSize _ _ _ ltac:(done) Hf E) as (g' & -> & Hf').
    cbn [set_buffer set_file set_end buffer_ end_of_buffer_offset_]. rewrite Hen.
    destruct (negb (ok s)); [split; [|done]; apply sim_set_eof, sim_report; sim_fields|].
    destruct (zlen d <? kBlockSize); apply IH; [apply sim_set_eof|]; sim_fields.
  - pose proof (parse_sim r q result Hs) as Hp. simpl. destruct (ParsePhysicalRecord r result) as [[r' t] d].
    by destruct (ParsePhysicalRecord q result) as [[q' t'] d'].
Qed.

Lemma step_sim r q v : sim r q ->
  orel (fun x y => sim x.1 y.1 /\ y.2 = x.2) (ReadRecord_step r v) (ReadRecord_step q v).
Proof.
  intros Hs. unfold ReadRecord_step, ReadPhysicalRecord. eapply orel_bind; [by apply physical_sim|].
  intros [[r' t] d] [[q' t'] d'] (Hs' & -> & ->). pose proof Hs' as (Hf & Hr & Hrp & Hc & Hb & He & Hl & Hen & Hi & Hrs).
  rewrite Hb, Hen, Hrs. cbv zeta.
  pose proof (sim_set_resyncing _ _ false Hs') as Hs2. pose proof (fun n s => sim_report _ _ n s Hs2) as Hrep.
  unfold ReportCorruption.
  repeat match goal with
  | |- orel _ (if ?b then _ else _) (if ?b then _ else _) => destruct b
  | |- context [set_last (if ?b then _ else _)] => destruct b
  | |- orel _ (Ret (if ?b then _ else _, _)) _ => destruct b
  end; simpl; (split; [|done]); try apply sim_set_last; auto.
Qed.

Lemma loop_sim fuel r q v : sim r q ->
  orel (fun x y => sim x.1 y.1 /\ y.2 = x.2) (ReadRecord_loop fuel r v) (ReadRecord_loop fuel q v).
Proof.
  revert r q v. induction fuel as [|fuel IH]; intros r q v Hs; [done|]. cbn [ReadRecord_loop].
  eapply orel_bind; [by apply step_sim|]. intros [r' n] [q' n'] [Hs' Hn]. simpl in Hn, Hs'. subst n'. destruct n; [by split|by apply IH].
Qed.

Lemma skip_block_sim r q : sim r q ->
  sim (fst (SkipToInitialBlock r)) (fst (SkipToInitialBlock q)) /\ snd (SkipToInitialBlock q) = snd (SkipToInitialBlock r).
Proof.
  intros Hs. pose proof Hs as (Hf & Hr & Hrp & Hc & Hb & He & Hl & Hen & Hi & Hrs). unfold SkipToInitialBlock. rewrite Hi.
  set (start := if kBlockSize - 6 <? _ then _ else _). cbv zeta.
  destruct (Z.ltb_spec 0 start) as [Hpos|]; [|split; [sim_fields|done]]. cbn [set_end file_].
  destruct (Skip (file_ r) start) as [f' s] eqn:E. destruct (skip_sim _ _ start _ _ ltac:(lia) Hf E) as (g' & -> & Hf').
  destruct (ok s); (split; [|done]); [|apply sim_report]; sim_fields.
Qed.

Lemma ReadRecord_sim fuel r q : sim r q ->
  orel (fun x y => sim x.1 y.1 /\ y.2 = x.2) (ReadRecord fuel r) (ReadRecord fuel q).
Proof.
  intros Hs. pose proof Hs as (_ & _ & _ & _ & _ & _ & Hl' & _ & Hi' & _).
  unfold ReadRecord. rewrite Hl', Hi'. destruct (_ <? _); [|by apply loop_sim]. destruct (skip_block_sim r q Hs) as [Hs' Hk].
  destruct (SkipToInitialBlock r) as [r' k], (SkipToInitialBlock q) as [q' k']. simpl in Hs', Hk. subst k'. destruct k; [by apply loop_sim|done].
Qed.

Lemma read_all_sim fuel r q : sim r q ->
  orel (fun x y => sim x.1 y.1 /\ y.2 = x.2) (read_all fuel r) (read_all fuel q).
Proof.
  revert r q. induction fuel as [|fuel IH]; intros r q Hs; [done|]. cbn [read_all]. eapply orel_bind; [by apply ReadRecord_sim|].
  intros [r' d] [q' d'] [Hs' Hd]. simpl in Hs', Hd. subst d'. destruct d as [d|]; [|done]. eapply orel_bind; [by apply IH|].
  intros [r2 l] [q2 l'] [Hs2 Hl]. simpl in Hs2, Hl. subst l'. done.
Qed.
End Simulation.

(** ** Reports are only added *)

Section Reports.
Context `{Crc32c} {F : Type} `{SequentialFile F}.

Lemma report_more (r : Reader F) n s : reports_ r `prefix_of` reports_ (ReportDrop r n s).
Proof. unfold ReportDrop. destruct (_ && _); [|done]. simpl. by apply prefix_app_r. Qed.

Lemma parse_reports (r : Reader F) result : reports_ r `prefix_of` reports_ (ParsePhysicalRecord r result).1.1.
Proof.
  unfold ParsePhysicalRecord, ReportCorruption.
  repeat match goal with |- context [if ?b then _ else _] => destruct b end; cbn [fst]; try done; (etrans; [|apply report_more]; done).
Qed.

Lemma physical_reports fuel (r : Reader F) result r' t d :
  ReadPhysicalRecord_loop fuel r result = Ret (r', t, d) -> reports_ r `prefix_of` reports_ r'.
Proof.
  revert r. induction fuel as [|fuel IH]; intros r; [done|]. cbn [ReadPhysicalRecord_loop]. destruct (_ <? kHeaderSize).
  - destruct (negb (eof_ r)); [|by intros [= <- _ _]]. destruct (Read _ _) as [[f s] x]. destruct (negb (ok s)).
    + intros [= <- _ _]. cbn [set_eof reports_]. etrans; [|apply report_more]. done.
    + intros Hl. destruct (_ <? kBlockSize); apply IH in Hl; exact Hl.
  - intros [= Hp]. pose proof (parse_reports r result) as Hr. by rewrite Hp in Hr.
Qed.

Lemma step_reports (r : Reader F) v r' x : ReadRecord_step r v = Ret (r', x) -> reports_ r `prefix_of` reports_ r'.
Proof.
  unfold ReadRecord_step, ReadPhysicalRecord. destruct (ReadPhysicalRecord_loop 2 r (fragment v)) as [[[r1 t] d]| |] eqn:E; [|done..].
  apply physical_reports in E. cbn [obind]. unfold ReportCorruption. intros Hs. etrans; [exact E|]. revert Hs.
  repeat match goal with |- (if ?b then _ else _) = _ -> _ => destruct b end; intros [= <- _]; cbn [set_last set_resyncing reports_]; try done;
    repeat match goal with |- context [if ?b then _ else _] => destruct b end; try done; (etrans; [|apply report_more]); done.
Qed.

Lemma record_reports fuel (r : Reader F) r' x : ReadRecord fuel r = Ret (r', x) -> reports_ r `prefix_of` reports_ r'.
Proof.
  assert (forall n (q : Reader F) v q' x, ReadRecord_loop n q v = Ret (q', x) -> reports_ q `prefix_of` reports_ q') as Hloop.
  { induction n as [|n IH]; intros q v q' y; [done|]. cbn [ReadRecord_loop]. destruct (ReadRecord_step q v) as [[q1 z]| |] eqn:E; [|done..].
    apply step_reports in E. cbn [obind]. destruct z; [by intros [= <- _]|]. intros Hl. etrans; [exact E|by eapply IH]. }
  unfold ReadRecord. destruct (_ <? initial_offset_ r); [|apply Hloop]. destruct (SkipToInitialBlock r) as [r1 k] eqn:E.
  assert (reports_ r `prefix_of` reports_ r1) as H1.
  { unfold SkipToInitialBlock in E. set (start := if kBlockSize - 6 <? _ then _ else _) in E. cbv zeta in E. destruct (0 <? start); [|by injection E as <- _].
    destruct (Skip _ _) as [f s]. destruct (ok s); injection E as <- _; [done|]. etrans; [|apply report_more]. done. }
  destruct k; [|by intros [= <- _]]. intros Hl. etrans; [exact H1|by eapply Hloop].
Qed.

Lemma read_all_reports fuel (r : Reader F) r' l : read_all fuel r = Ret (r', l) -> reports_ r `prefix_of` reports_ r'.
Proof.
  revert r l. induction fuel as [|fuel IH]; intros r l; [done|]. cbn [read_all]. destruct (ReadRecord (S fuel) r) as [[r1 d]| |] eqn:E; [|done..].
  apply record_reports in E. cbn [obind]. destruct d as [d|]; [|by intros [= <- _]]. destruct (read_all fuel r1) as [[r2 l2]| |] eqn:E2; [|done..].
  cbn [obind]. intros [= <- _]. etrans; [exact E|by eapply IH].
Qed.
End Reports.
