(* ===== verification/DList.v ===== *)
(** * Circular doubly linked lists

    The lists of snapshots ([snapshot.h]) and of versions ([version_set.c]) are circular and
    doubly linked with a dummy head. Their objects are addresses; the two link fields of all
    objects are two maps. *)

From stdpp Require Import gmap.
From S2P Require Import Prelude.

Open Scope outcome_scope.

Record Links := mkLinks { next_ : gmap nat nat; prev_ : gmap nat nat }.

(** Reading a field of an object that is not there is an error. *)
Definition get_next (m : Links) (n : nat) : outcome nat := match next_ m !! n with Some x => Ret x | None => AssertFailed end.
Definition get_prev (m : Links) (n : nat) : outcome nat := match prev_ m !! n with Some x => Ret x | None => AssertFailed end.
Definition set_next (m : Links) (n x : nat) : Links := mkLinks (<[n := x]> (next_ m)) (prev_ m).
Definition set_prev (m : Links) (n x : nat) : Links := mkLinks (next_ m) (<[n := x]> (prev_ m)).

(** A head that is linked to itself. *)
Definition link_head (head : nat) : Links := set_next (set_prev (mkLinks ∅ ∅) head head) head head.

(** Appending at the end of the list: before the head. *)
Definition link_append (m : Links) (head n : nat) : outcome Links :=
  let m := set_next m n head in
  let! p := get_prev m head in
  let m := set_prev m n p in
  let! p := get_prev m n in
  let m := set_next m p n in
  let! x := get_next m n in
  Ret (set_prev m x n).

(** Removing an object from its list; its own fields go with it. *)
Definition link_remove (m : Links) (n : nat) : outcome Links :=
  let! p := get_prev m n in
  let! x := get_next m n in
  let m := set_next m p x in
  let! x := get_next m n in
  let! p := get_prev m n in
  let m := set_prev m x p in
  Ret (mkLinks (delete n (next_ m)) (delete n (prev_ m))).

(** ** The list a structure represents *)

(** From [a] through the objects of [l] to [b], in both directions. *)
Fixpoint segment (m : Links) (a : nat) (l : list nat) (b : nat) : Prop :=
  match l with
  | [] => next_ m !! a = Some b /\ prev_ m !! b = Some a
  | x :: l => next_ m !! a = Some x /\ prev_ m !! x = Some a /\ segment m x l b
  end.

Definition linked (m : Links) (head : nat) (l : list nat) : Prop := segment m head l head /\ NoDup (head :: l).

Lemma segment_app m a l x k b : segment m a (l ++ x :: k) b <-> segment m a l x /\ segment m x k b.
Proof. revert a. induction l as [|y l IH]; intros a; simpl; [tauto|]. rewrite IH. tauto. Qed.

(** Only the forward links of the objects before the end and the backward links of those after
    the start matter. *)
Lemma segment_frame m m' a l b :
  (forall x, x ∈ a :: l -> next_ m' !! x = next_ m !! x) -> (forall x, x ∈ l ++ [b] -> prev_ m' !! x = prev_ m !! x) ->
  segment m a l b -> segment m' a l b.
Proof.
  revert a. induction l as [|y l IH]; intros a Hn Hp; simpl.
  - rewrite Hn by set_solver. rewrite Hp by set_solver. done.
  - rewrite Hn by set_solver. rewrite Hp by set_solver. intros (? & ? & Hs). split; [done|]. split; [done|].
    apply IH; [|set_solver|done]. intros x Hx. apply Hn. set_solver.
Qed.

Lemma link_head_linked head : linked (link_head head) head [].
Proof. split; [simpl; by rewrite !lookup_insert_eq|]. apply NoDup_singleton. Qed.

(** The object before the end of a segment. *)
Fixpoint last_of (a : nat) (l : list nat) : nat := match l with [] => a | x :: l => last_of x l end.

Lemma last_of_elem a l : last_of a l ∈ a :: l.
Proof. revert a. induction l as [|x l IH]; intros a; simpl; [by left|]. right. apply IH. Qed.

Lemma segment_last m a l b : segment m a l b -> prev_ m !! b = Some (last_of a l) /\ next_ m !! last_of a l = Some b.
Proof. revert a. induction l as [|y l IH]; intros a; simpl; [tauto|]. intros (_ & _ & Hs). by apply IH. Qed.

Lemma segment_first m a l b : segment m a l b -> exists x, next_ m !! a = Some x /\ x = match l with [] => b | y :: _ => y end.
Proof. destruct l; simpl; intros [? ?]; eauto. Qed.

(** Moving the end of a segment. *)
Lemma segment_retarget m m' a l b c :
  segment m a l b -> NoDup (a :: l) ->
  (forall x, x ∈ a :: l -> x ≠ last_of a l -> next_ m' !! x = next_ m !! x) -> (forall x, x ∈ l -> prev_ m' !! x = prev_ m !! x) ->
  next_ m' !! last_of a l = Some c -> prev_ m' !! c = Some (last_of a l) -> segment m' a l c.
Proof.
  revert a. induction l as [|y l IH]; intros a Hs Hnd Hn Hp H1 H2; cbn [segment last_of] in *; [done|].
  destruct Hs as (Hy & Hpy & Hs). apply NoDup_cons in Hnd as [Hna Hnd].
  assert (a ≠ last_of y l) as Hne by (intros ->; apply Hna, last_of_elem).
  split; [rewrite Hn; [done|by left|done]|]. split; [by rewrite Hp by (by left)|]. apply IH; try done.
  - intros x Hx. apply Hn. by right.
  - intros x Hx. apply Hp. by right.
Qed.

Lemma link_append_spec m head l n :
  linked m head l -> n ∉ head :: l -> exists m', link_append m head n = Ret m' /\ linked m' head (l ++ [n]).
Proof.
  intros [Hs Hnd] Hn. destruct (segment_last _ _ _ _ Hs) as [Hp _]. rewrite not_elem_of_cons in Hn. destruct Hn as [Hnh Hnl].
  assert (last_of head l ≠ n) as Hln. { pose proof (last_of_elem head l). intros <-. set_solver. }
  unfold link_append, get_prev, get_next, set_next, set_prev. cbn [next_ prev_]. rewrite Hp. cbn [obind next_ prev_].
  rewrite lookup_insert_eq. cbn [obind next_ prev_]. rewrite lookup_insert_ne, lookup_insert_eq by done. cbn [obind next_ prev_].
  eexists. split; [reflexivity|]. pose proof Hnd as Hnd'. apply NoDup_cons in Hnd' as [Hh Hnd']. split.
  - apply segment_app. split.
    + eapply (segment_retarget m); [done|done|..]; cbn [next_ prev_].
      * intros x Hx Hne. rewrite !lookup_insert_ne; [done|set_solver|done].
      * intros x Hx. rewrite !lookup_insert_ne; [done|set_solver|set_solver].
      * by rewrite lookup_insert_eq.
      * by rewrite lookup_insert_ne, lookup_insert_eq.
    + simpl. by rewrite lookup_insert_ne, !lookup_insert_eq.
  - apply NoDup_cons. split; [set_solver|]. apply NoDup_app. split; [done|]. split; [set_solver|apply NoDup_singleton].
Qed.

Lemma link_remove_spec m head l1 n l2 :
  linked m head (l1 ++ n :: l2) -> exists m', link_remove m n = Ret m' /\ linked m' head (l1 ++ l2).
Proof.
  intros [Hs Hnd]. apply segment_app in Hs as [Hs1 Hs2]. destruct (segment_last _ _ _ _ Hs1) as [Hp _].
  destruct (segment_first _ _ _ _ Hs2) as (x & Hx & Hxe). pose proof (last_of_elem head l1) as Hlast.
  apply NoDup_cons in Hnd as [Hna Hnd]. apply NoDup_app in Hnd as (Hnd1 & Hd & Hnd2). apply NoDup_cons in Hnd2 as [Hnn Hnd2].
  assert (last_of head l1 ≠ n) as Hln by (intros <-; set_solver).
  assert (x ≠ n) as Hxn by (subst x; destruct l2; set_solver).
  assert (x ∉ l1) as Hx1. { subst x. destruct l2 as [|y l2]; [set_solver|]. intros Hin. apply (Hd y Hin). set_solver. }
  assert (forall y, y ∈ l2 -> last_of head l1 ≠ y) as Hl2. { intros y Hy <-. apply elem_of_cons in Hlast as [Heq|Hin]; [|apply (Hd _ Hin); by right].
    rewrite Heq in Hy. apply Hna, elem_of_app. right. by right. }
  unfold link_remove, get_prev, get_next, set_next, set_prev. rewrite Hp, Hx. cbn [obind next_ prev_].
  rewrite lookup_insert_ne, Hx, Hp by done. cbn [obind next_ prev_]. eexists. split; [reflexivity|]. split.
  2:{ apply NoDup_cons. split; [set_solver|]. apply NoDup_app. split; [done|]. split; [set_solver|done]. }
  assert (segment (mkLinks (delete n (<[last_of head l1 := x]> (next_ m))) (delete n (<[x := last_of head l1]> (prev_ m)))) head l1 x) as Hseg.
  { eapply (segment_retarget m); [done| |..]; cbn [next_ prev_].
    - apply NoDup_cons. split; [set_solver|done].
    - intros z Hz Hne. rewrite lookup_delete_ne, lookup_insert_ne; [done|done|set_solver].
    - intros z Hz. rewrite lookup_delete_ne, lookup_insert_ne; [done|set_solver|set_solver].
    - by rewrite lookup_delete_ne, lookup_insert_eq.
    - by rewrite lookup_delete_ne, lookup_insert_eq. }
  destruct l2 as [|y l2]; subst x; [by rewrite app_nil_r|]. apply segment_app. split; [done|].
  destruct Hs2 as (_ & _ & Hs2). eapply segment_frame; [| |exact Hs2]; cbn [next_ prev_].
  - intros z Hz. rewrite lookup_delete_ne, lookup_insert_ne; [done|by apply Hl2|set_solver].
  - intros z Hz. apply NoDup_cons in Hnd2 as [Hy _]. rewrite lookup_delete_ne, lookup_insert_ne; [done| |]; intros Heq; set_solver.
Qed.

(** Objects that are not in the list keep their links. *)
Lemma link_remove_frame m head l1 n l2 m' y :
  linked m head (l1 ++ n :: l2) -> link_remove m n = Ret m' -> y ∉ head :: l1 ++ n :: l2 ->
  next_ m' !! y = next_ m !! y /\ prev_ m' !! y = prev_ m !! y.
Proof.
  intros [Hs Hnd] Hr Hy. apply segment_app in Hs as [Hs1 Hs2]. destruct (segment_last _ _ _ _ Hs1) as [Hp _].
  destruct (segment_first _ _ _ _ Hs2) as (x & Hx & Hxe). pose proof (last_of_elem head l1) as Hlast.
  assert (last_of head l1 ≠ y /\ x ≠ y /\ n ≠ y /\ last_of head l1 ≠ n) as (H1 & H2 & H3 & H4).
  { split; [intros <-; set_solver|]. split; [intros <-; destruct l2; set_solver|]. split; [intros <-; set_solver|].
    intros Heq. rewrite Heq in Hlast. apply NoDup_cons in Hnd as [Hh Hnd]. apply NoDup_app in Hnd as (_ & Hd & _). set_solver. }
  unfold link_remove, get_prev, get_next in Hr. rewrite Hp, Hx in Hr. cbn [obind set_next next_ prev_] in Hr.
  rewrite lookup_insert_ne, Hx, Hp in Hr by done. cbn [obind set_prev next_ prev_] in Hr. injection Hr as <-. cbn [next_ prev_].
  by rewrite !lookup_delete_ne, !lookup_insert_ne by done.
Qed.

(** An object that is linked to itself comes and goes without the list noticing. *)
Lemma link_self_linked m head l n :
  linked m head l -> n ∉ head :: l -> linked (set_prev (set_next m n n) n n) head l.
Proof.
  intros [Hs Hnd] Hn. split; [|done]. eapply segment_frame; [| |exact Hs]; cbn [set_prev set_next next_ prev_];
    intros x Hx; (rewrite lookup_insert_ne; [done|set_solver]).
Qed.

Lemma link_remove_self m head l n :
  linked m head l -> n ∉ head :: l -> next_ m !! n = Some n -> prev_ m !! n = Some n ->
  exists m', link_remove m n = Ret m' /\ linked m' head l.
Proof.
  intros [Hs Hnd] Hn Hx Hp. unfold link_remove, get_prev, get_next. rewrite Hp, Hx. cbn [obind set_next next_ prev_].
  rewrite lookup_insert_eq, Hp. cbn [obind]. eexists. split; [done|]. split; [|done].
  eapply segment_frame; [| |exact Hs]; cbn [set_prev set_next next_ prev_];
    intros x Hx'; (rewrite lookup_delete_ne, lookup_insert_ne; [done|set_solver|set_solver]).
Qed.
