(* ===== verification/Snapshot.v ===== *)
(** * The list of snapshots

    [读操作--Get/snapshot.h]: snapshots are sequence numbers kept in a circular list, oldest
    first. A compaction may drop what no snapshot can see, so it asks the list for its oldest
    element. *)

From stdpp Require Import gmap sorting.
From S2P Require Import Prelude DList.

Open Scope outcome_scope.

(** The flag tells whether [list_] of the object points to the list. *)
Record SnapshotImpl := mkSnapshot { sequence_number : Z; snapshot_list : bool }.

(** The objects by address, [head_] at address 0; [new] takes [next_address]. *)
Record SnapshotList := mkSnapshotList { snapshots : gmap nat SnapshotImpl; snapshot_links : Links; next_address : nat }.

Definition head_ : nat := 0.

Definition new_SnapshotList : SnapshotList :=
  mkSnapshotList {[head_ := mkSnapshot 0 false]} (link_head head_) 1.

Definition snapshot_at (l : SnapshotList) (n : nat) : outcome SnapshotImpl :=
  match snapshots l !! n with Some s => Ret s | None => AssertFailed end.

Definition snapshots_empty (l : SnapshotList) : outcome bool :=
  let! n := get_next (snapshot_links l) head_ in
  Ret (bool_decide (n = head_)).

Definition oldest (l : SnapshotList) : outcome nat :=
  let! e := snapshots_empty l in
  assert! negb e;
  get_next (snapshot_links l) head_.

Definition newest (l : SnapshotList) : outcome nat :=
  let! e := snapshots_empty l in
  assert! negb e;
  get_prev (snapshot_links l) head_.

Definition New (l : SnapshotList) (sequence : Z) : outcome (SnapshotList * nat) :=
  let! e := snapshots_empty l in
  let! good :=
    if (e : bool) then Ret true
    else let! n := newest l in let! s := snapshot_at l n in Ret (sequence_number s <=? sequence) in
  assert! good;
  let n := next_address l in
  let! links := link_append (snapshot_links l) head_ n in
  Ret (mkSnapshotList (<[n := mkSnapshot sequence true]> (snapshots l)) links (S n), n).

Definition Delete (l : SnapshotList) (n : nat) : outcome SnapshotList :=
  let! s := snapshot_at l n in
  assert! snapshot_list s;
  let! links := link_remove (snapshot_links l) n in
  Ret (mkSnapshotList (delete n (snapshots l)) links (next_address l)).

(** ** The snapshots in use *)

(** The snapshots that were taken and not released, in the order in which they were taken. *)
Definition snapshots_are (l : SnapshotList) (live : list (nat * Z)) : Prop :=
  linked (snapshot_links l) head_ live.*1 /\ StronglySorted Z.le live.*2 /\ (forall n s, (n, s) ∈ live -> snapshots l !! n = Some (mkSnapshot s true)) /\
  (forall n, n ∈ live.*1 -> n < next_address l)%nat /\ (0 < next_address l)%nat.

Lemma new_SnapshotList_are : snapshots_are new_SnapshotList [].
Proof.
  split; [apply link_head_linked|]. split; [constructor|]. cbn [next_address new_SnapshotList].
  split; [intros n s Hn; by apply not_elem_of_nil in Hn|]. split; [intros n Hn; by apply not_elem_of_nil in Hn|lia].
Qed.

Lemma snapshots_empty_spec l live : snapshots_are l live -> snapshots_empty l = Ret (bool_decide (live = [])).
Proof.
  intros ([Hs Hnd] & _). destruct (segment_first _ _ _ _ Hs) as (x & Hx & ->). unfold snapshots_empty, get_next. rewrite Hx. cbn [obind].
  f_equal. apply bool_decide_ext. destruct live as [|[n s] live]; [done|]. split; [|done]. simpl. intros ->. apply NoDup_cons in Hnd as [Hnd _].
  destruct Hnd. by left.
Qed.

(** The first and the last snapshot of a list that is not empty. *)
Lemma oldest_spec l n s live : snapshots_are l ((n, s) :: live) -> oldest l = Ret n.
Proof.
  intros Hl. unfold oldest. rewrite (snapshots_empty_spec _ _ Hl), bool_decide_eq_false_2 by done. cbn [obind oassert negb].
  destruct Hl as ([Hs _] & _). destruct (segment_first _ _ _ _ Hs) as (x & Hx & ->). unfold get_next. by rewrite Hx.
Qed.

Lemma last_of_app a l x : last_of a (l ++ [x]) = x.
Proof. revert a. induction l; intros; simpl; auto. Qed.

Lemma snapshots_newest_spec l live n s : snapshots_are l (live ++ [(n, s)]) -> newest l = Ret n.
Proof.
  intros Hl. unfold newest. rewrite (snapshots_empty_spec _ _ Hl), bool_decide_eq_false_2 by (by destruct live). cbn [obind oassert negb].
  destruct Hl as ([Hs _] & _). destruct (segment_last _ _ _ _ Hs) as [Hp _]. unfold get_prev. rewrite Hp. f_equal. rewrite fmap_app. apply last_of_app.
Qed.

Lemma New_spec l live s :
  snapshots_are l live -> Forall (fun p => p.2 <= s) live ->
  exists l' n, New l s = Ret (l', n) /\ (n ∉ live.*1) /\ snapshots_are l' (live ++ [(n, s)]).
Proof.
  intros Hl Hs. unfold New. rewrite (snapshots_empty_spec _ _ Hl). cbn [obind].
  assert ((if bool_decide (live = []) then Ret true
    else (let! n := newest l in let! s' := snapshot_at l n in Ret (sequence_number s' <=? s))) = Ret true) as ->.
  { destruct live as [|[n s'] live' _] using rev_ind; [done|]. rewrite bool_decide_eq_false_2 by (by destruct live').
    rewrite (snapshots_newest_spec _ _ _ _ Hl). cbn [obind]. unfold snapshot_at. destruct Hl as (_ & _ & Hm & _). rewrite (Hm n s') by set_solver. cbn [obind sequence_number].
    apply Forall_app in Hs as [_ Hs]. apply Forall_cons in Hs as [Hs _]. simpl in Hs. f_equal. by apply Z.leb_le. }
  cbn [obind oassert]. destruct Hl as (Hlk & Hsort & Hm & Hlt & Hpos). set (n := next_address l).
  assert (n ∉ live.*1) as Hn. { intros Hn. apply Hlt in Hn. unfold n in Hn. lia. }
  destruct (link_append_spec _ _ _ n Hlk) as (m' & -> & Hlk').
  { rewrite not_elem_of_cons. split; [unfold n, head_; lia|done]. }
  cbn [obind]. eexists _, n. split; [reflexivity|]. split; [done|]. split; [by rewrite fmap_app|].
  split. { rewrite fmap_app. apply StronglySorted_app. split; [|split; [done|by repeat constructor]]. intros a b Ha Hb. apply list_elem_of_fmap in Ha as (p & -> & Hp). apply list_elem_of_singleton in Hb as ->.
    rewrite Forall_forall in Hs. by apply Hs. }
  cbn [snapshots next_address]. split; [|split; [|lia]].
  - intros k r Hk. apply elem_of_app in Hk as [Hk|Hk].
    + rewrite lookup_insert_ne; [by apply Hm|]. intros <-. apply Hn. by apply (list_elem_of_fmap_2 fst _ (n, r)).
    + apply list_elem_of_singleton in Hk as [= -> ->]. apply lookup_insert_eq.
  - intros k Hk. rewrite fmap_app in Hk. apply elem_of_app in Hk as [Hk%Hlt|Hk]; [lia|]. apply list_elem_of_singleton in Hk as ->. unfold n. simpl. lia.
Qed.

Lemma Delete_spec l live n :
  snapshots_are l live -> n ∈ live.*1 -> exists l', Delete l n = Ret l' /\ snapshots_are l' (filter (fun p => p.1 ≠ n) live).
Proof.
  intros (Hlk & Hsort & Hm & Hlt & Hpos) Hn. apply list_elem_of_fmap in Hn as ([n' s] & -> & Hin). cbn [fst].
  unfold Delete, snapshot_at. rewrite (Hm _ _ Hin). cbn [obind oassert snapshot_list].
  apply list_elem_of_split in Hin as (l1 & l2 & ->). rewrite fmap_app, fmap_cons in Hlk. cbn [fst] in Hlk. destruct (link_remove_spec _ _ _ _ _ Hlk) as (m' & -> & Hlk').
  cbn [obind]. eexists. split; [reflexivity|].
  assert (filter (fun p => p.1 ≠ n') (l1 ++ (n', s) :: l2) = l1 ++ l2) as ->.
  { destruct Hlk as [_ Hnd]. apply NoDup_cons in Hnd as [_ Hnd]. apply NoDup_app in Hnd as (_ & Hd & Hnd). apply NoDup_cons in Hnd as [Hnd _].
    rewrite filter_app, filter_cons_False by (simpl; tauto). f_equal; apply filter_all, Forall_forall; intros p Hp Heq.
    - apply (Hd p.1); [by apply list_elem_of_fmap_2|rewrite Heq; by left].
    - apply Hnd. rewrite <- Heq. by apply list_elem_of_fmap_2. }
  assert (n' ∉ (l1 ++ l2).*1) as Hn'.
  { destruct Hlk as [_ Hnd]. apply NoDup_cons in Hnd as [_ Hnd]. apply NoDup_app in Hnd as (_ & Hd & Hnd). apply NoDup_cons in Hnd as [Hnd _].
    rewrite fmap_app, not_elem_of_app. split; [|done]. intros Hi. apply (Hd _ Hi). by left. }
  split; [by rewrite fmap_app|]. split.
  { rewrite fmap_app in Hsort |- *. rewrite fmap_cons in Hsort. apply StronglySorted_app in Hsort as (Hc & H1 & H2). apply StronglySorted_app.
    apply StronglySorted_inv in H2 as [H2 _]. split; [|done]. intros a b Ha Hb. apply Hc; [done|by right]. }
  cbn [snapshots next_address]. split; [|split; [|lia]].
  - intros k r Hk. rewrite lookup_delete_ne; [apply Hm; set_solver|]. intros ->. apply Hn'. by apply (list_elem_of_fmap_2 fst _ (k, r)).
  - intros k Hk. apply Hlt. rewrite fmap_app, fmap_cons. rewrite fmap_app in Hk. set_solver.
Qed.

(** ** Clients of the list *)

(** A database takes a snapshot of its last sequence number, and releases one it took: its
    [i]-th one. *)
Inductive snapshot_op := TakeSnapshot (sequence : Z) | ReleaseSnapshot (i : nat).

Fixpoint run_snapshots (l : SnapshotList) (taken : list nat) (ops : list snapshot_op) : outcome (SnapshotList * list nat) :=
  match ops with
  | [] => Ret (l, taken)
  | TakeSnapshot s :: ops => let! (l, n) := New l s in run_snapshots l (taken ++ [n]) ops
  | ReleaseSnapshot i :: ops =>
      match taken !! i with
      | Some n => let! l := Delete l n in run_snapshots l taken ops
      | None => AssertFailed
      end
  end.

(** The numbers [i] of the snapshots in use with their sequence numbers, after [k] were taken. *)
Fixpoint in_use (k : nat) (live : list (nat * Z)) (ops : list snapshot_op) : list (nat * Z) :=
  match ops with
  | [] => live
  | TakeSnapshot s :: ops => in_use (S k) (live ++ [(k, s)]) ops
  | ReleaseSnapshot i :: ops => in_use k (filter (fun p => p.1 ≠ i) live) ops
  end.

(** Sequence numbers never decrease, and a snapshot is released at most once. *)
Fixpoint snapshots_legal (k : nat) (last : Z) (live : list (nat * Z)) (ops : list snapshot_op) : Prop :=
  match ops with
  | [] => True
  | TakeSnapshot s :: ops => last <= s /\ snapshots_legal (S k) s (live ++ [(k, s)]) ops
  | ReleaseSnapshot i :: ops => i ∈ live.*1 /\ snapshots_legal k last (filter (fun p => p.1 ≠ i) live) ops
  end.

(** The addresses of the snapshots in use. *)
Definition located (taken : list nat) (live at_ : list (nat * Z)) : Prop :=
  Forall2 (fun p q => taken !! p.1 = Some q.1 /\ p.2 = q.2) live at_.

Lemma located_filter taken live at_ i n :
  NoDup taken -> taken !! i = Some n -> located taken live at_ ->
  located taken (filter (fun p => p.1 ≠ i) live) (filter (fun p => p.1 ≠ n) at_).
Proof.
  intros Hnd Hi. induction 1 as [|p q live at_ [Hp Hs] _ IH]; [constructor|].
  destruct (decide (p.1 = i)) as [He|He].
  - rewrite !filter_cons_False; [done| |tauto]. rewrite He, Hi in Hp. injection Hp as ->. tauto.
  - rewrite !filter_cons_True; [by constructor| |done]. intros Heq. apply He. rewrite Heq in Hp. by eapply NoDup_lookup.
Qed.

Lemma located_snoc taken n live at_ : located taken live at_ -> located (taken ++ [n]) live at_.
Proof. intros H. eapply Forall2_impl; [exact H|]. intros p q [Hp Hs]. split; [by apply lookup_app_l_Some|done]. Qed.

Lemma run_snapshots_spec l taken live at_ last ops :
  snapshots_are l at_ -> located taken live at_ -> NoDup taken -> (forall n, n ∈ taken -> n < next_address l)%nat ->
  Forall (fun p => p.2 <= last) at_ -> snapshots_legal (length taken) last live ops ->
  exists l' taken' at', run_snapshots l taken ops = Ret (l', taken') /\ snapshots_are l' at' /\
    located taken' (in_use (length taken) live ops) at'.
Proof.
  revert l taken live at_ last. induction ops as [|[s|i] ops IH]; intros l taken live at_ last Hl Hloc Hnd Hlt Hle Hleg; cbn [run_snapshots in_use snapshots_legal] in *.
  - by exists l, taken, at_.
  - destruct Hleg as [Hs Hleg]. destruct (New_spec l at_ s Hl) as (l1 & n & Hnew & Hn & Hl1).
    { eapply Forall_impl; [exact Hle|]. intros p; simpl; lia. }
    rewrite Hnew. cbn [obind].
    assert (n = next_address l /\ next_address l1 = S n) as [Hna Hn1].
    { unfold New in Hnew. destruct (snapshots_empty l) as [e| |]; try done. cbn [obind] in Hnew. destruct (if e then _ else _) as [[]| |]; try done.
      cbn [obind oassert] in Hnew. destruct (link_append _ _ _); try done. by injection Hnew as <- <-. }
    assert (length (taken ++ [n]) = S (length taken)) as Hlen by (rewrite length_app; simpl; lia).
    rewrite <- Hlen. apply (IH l1 _ _ (at_ ++ [(n, s)]) s); try done.
    + apply Forall2_app; [by apply located_snoc|]. constructor; [|constructor]. split; [|done]. simpl. apply list_lookup_middle. done.
    + apply NoDup_app. split; [done|]. split; [|apply NoDup_singleton]. intros x Hx Hx'. apply list_elem_of_singleton in Hx' as ->. apply Hlt in Hx. lia.
    + intros x Hx. apply elem_of_app in Hx as [Hx|Hx]; [apply Hlt in Hx; lia|]. apply list_elem_of_singleton in Hx as ->. lia.
    + apply Forall_app. split; [|constructor; [simpl; lia|constructor]]. eapply Forall_impl; [exact Hle|]. intros p; simpl; lia.
    + by rewrite Hlen.
  - destruct Hleg as [Hi Hleg]. apply list_elem_of_fmap in Hi as (p & -> & Hp).
    destruct (list_elem_of_lookup_1 _ _ Hp) as [j Hj]. destruct (Forall2_lookup_l _ _ _ _ _ Hloc Hj) as (q & Hq & Hpq & _).
    rewrite Hpq. destruct (Delete_spec l at_ q.1 Hl) as (l1 & Hdel & Hl1).
    { apply list_elem_of_fmap_2. by eapply list_elem_of_lookup_2. }
    rewrite Hdel. cbn [obind]. apply (IH l1 _ _ (filter (fun r => r.1 ≠ q.1) at_) last); try done.
    + by apply located_filter.
    + unfold Delete in Hdel. destruct (snapshot_at l q.1); try done. cbn [obind] in Hdel. destruct (snapshot_list _); try done. cbn [obind oassert] in Hdel.
      destruct (link_remove _ _); try done. by injection Hdel as <-.
    + by apply Forall_filter.
Qed.

Lemma sorted_first_le live n s : StronglySorted Z.le ((n, s) :: live : list (nat * Z)).*2 -> forall p, p ∈ (n, s) :: live -> s <= p.2.
Proof.
  intros Hs p Hp. apply StronglySorted_inv in Hs as [_ Hs]. apply elem_of_cons in Hp as [->|Hp]; [simpl; lia|].
  rewrite Forall_forall in Hs. apply Hs. by apply list_elem_of_fmap_2.
Qed.

Lemma sorted_last_ge live n s : StronglySorted Z.le (live ++ [(n, s)] : list (nat * Z)).*2 -> forall p, p ∈ live ++ [(n, s)] -> p.2 <= s.
Proof.
  intros Hs p Hp. rewrite fmap_app in Hs. apply StronglySorted_app in Hs as [Hc _]. apply elem_of_app in Hp as [Hp|Hp].
  - apply Hc; [by apply list_elem_of_fmap_2|by left].
  - apply list_elem_of_singleton in Hp as ->. simpl. lia.
Qed.

(** The sequence number of the object a call returned. *)
Definition has_sequence (l : SnapshotList) (r : outcome nat) (s : Z) : Prop :=
  exists n, r = Ret n /\ snapshots l !! n = Some (mkSnapshot s true).

Lemma located_seq taken live at_ q : located taken live at_ -> q ∈ at_ -> exists p, p ∈ live /\ p.2 = q.2.
Proof.
  intros Hl Hq. apply list_elem_of_lookup_1 in Hq as [j Hj]. destruct (Forall2_lookup_r _ _ _ _ _ Hl Hj) as (p & Hp & _ & He).
  exists p. split; [by eapply list_elem_of_lookup_2|done].
Qed.

Lemma located_in taken live at_ p : located taken live at_ -> p ∈ live -> exists q, q ∈ at_ /\ p.2 = q.2.
Proof.
  intros Hl Hp. apply list_elem_of_lookup_1 in Hp as [j Hj]. destruct (Forall2_lookup_l _ _ _ _ _ Hl Hj) as (q & Hq & _ & He).
  exists q. split; [by eapply list_elem_of_lookup_2|done].
Qed.

(** C35: the list of snapshots is right for every client. A database that takes snapshots of
    sequence numbers that do not decrease, and releases each at most once and in any order, never
    fails an assertion of the list nor touches a released snapshot. Afterwards the list is empty
    exactly when no snapshot is in use, and otherwise [oldest] and [newest] return snapshots in
    use with the smallest and the largest sequence number of all snapshots in use. *)
Theorem snapshot_list_bounds (ops : list snapshot_op) :
  snapshots_legal 0 0 [] ops ->
  exists l taken, run_snapshots new_SnapshotList [] ops = Ret (l, taken) /\
    snapshots_empty l = Ret (bool_decide (in_use 0 [] ops = [])) /\
    (in_use 0 [] ops ≠ [] ->
     exists lo hi, has_sequence l (oldest l) lo /\ has_sequence l (newest l) hi /\
       lo ∈ (in_use 0 [] ops).*2 /\ hi ∈ (in_use 0 [] ops).*2 /\ forall p, p ∈ in_use 0 [] ops -> lo <= p.2 <= hi).
Proof.
  intros Hleg. destruct (run_snapshots_spec new_SnapshotList [] [] [] 0 ops) as (l & taken & at_ & Hrun & Hl & Hloc); try done.
  { apply new_SnapshotList_are. } { constructor. } { constructor. } { intros n Hn. by apply not_elem_of_nil in Hn. }
  cbn [length] in Hloc. exists l, taken. split; [done|]. pose proof (Forall2_length _ _ _ Hloc) as Hlen. split.
  { rewrite (snapshots_empty_spec _ _ Hl). f_equal. apply bool_decide_ext. rewrite <- !length_zero_iff_nil. lia. }
  intros Hne. destruct at_ as [|[n s] at_]; [by destruct (in_use 0 [] ops)|]. exists s.
  assert (exists at1 n2 s2, (n, s) :: at_ = at1 ++ [(n2, s2)]) as (at1 & n2 & s2 & Heq).
  { destruct (exists_last (l := (n, s) :: at_)) as (at1 & [n2 s2] & ->); [done|]. by exists at1, n2, s2. }
  exists s2. pose proof Hl as (_ & Hsort & Hm & _). assert ((n2, s2) ∈ (n, s) :: at_) as Hin2 by (rewrite Heq; set_solver).
  split; [exists n; split; [by eapply oldest_spec|apply Hm; by left]|].
  split; [exists n2; split; [eapply snapshots_newest_spec; by rewrite <- Heq|by apply Hm]|].
  destruct (located_seq _ _ _ (n, s) Hloc ltac:(by left)) as (p1 & Hp1 & He1). destruct (located_seq _ _ _ _ Hloc Hin2) as (p2 & Hp2 & He2).
  cbn [snd] in He1, He2. split; [rewrite <- He1; by apply list_elem_of_fmap_2|]. split; [rewrite <- He2; by apply list_elem_of_fmap_2|].
  intros p Hp. destruct (located_in _ _ _ p Hloc Hp) as (q & Hq & ->). split; [by eapply sorted_first_le|].
  rewrite Heq in Hq, Hsort. by eapply sorted_last_ge.
Qed.

Lemma snapshot_list_bounds_witness :
  exists l taken, run_snapshots new_SnapshotList [] [TakeSnapshot 5; TakeSnapshot 5; ReleaseSnapshot 0; TakeSnapshot 9; TakeSnapshot 12; ReleaseSnapshot 3] = Ret (l, taken) /\
    exists lo hi, has_sequence l (oldest l) lo /\ has_sequence l (newest l) hi.
Proof.
  destruct (snapshot_list_bounds [TakeSnapshot 5; TakeSnapshot 5; ReleaseSnapshot 0; TakeSnapshot 9; TakeSnapshot 12; ReleaseSnapshot 3]) as (l & taken & H1 & _ & H2).
  { cbn [snapshots_legal]. split; [lia|]. split; [lia|]. split; [by left|]. split; [lia|]. split; [lia|]. split; [|done]. vm_compute. do 2 right. by left. }
  exists l, taken. split; [done|]. destruct H2 as (lo & hi & H3 & H4 & _); [by vm_compute|]. by exists lo, hi.
Defined.
