(* ===== verification/VersionSet.v ===== *)
(** * The version set: the list of versions and the manifest

    [manifest/version_set.h], [manifest/version_set.c], the classes [Version] (its life) and
    [VersionSet]. The set keeps the versions that are in use in a circular list with the newest,
    the current one, at its end. [LogAndApply] logs an edit in the manifest and installs the
    version it leads to; [Recover] reads the manifest that [CURRENT] names.

    [mu] is released during the write of the manifest. No other thread writes the manifest or
    changes the current version then, and the model runs [LogAndApply] as one step. *)

From stdpp Require Import gmap sorting.
From Stdlib Require Import SpecFloat.
From S2P Require Import Prelude Coding Env Crc32c LogWriter LogReader LogCorrect Comparator DbFormat VersionEdit SkipList MemTable Iterator Version VersionBuilder Filename FileSystem LogSim DList.

Open Scope outcome_scope.

(** ** Doubles *)

(** [static_cast<double>] of an integer, rounded to nearest. *)
Definition double (z : Z) : spec_float := binary_normalize 53 1024 z 0 false.
Definition double_mul : spec_float -> spec_float -> spec_float := SFmul 53 1024.
Definition double_div : spec_float -> spec_float -> spec_float := SFdiv 53 1024.

(** The loop [while (level > 1)]: [n] rounds. *)
Fixpoint max_bytes_loop (n : nat) (result : spec_float) : spec_float :=
  match n with
  | O => result
  | S n => max_bytes_loop n (double_mul result (double 10))
  end.

Definition MaxBytesForLevel (level : Z) : spec_float :=
  max_bytes_loop (Z.to_nat (level - 1)) (double_mul (double 10) (double 1048576)).

(** ** Finalize *)

Definition level_score (level : Z) (files : list FilePtr) : spec_float :=
  if level =? 0 then double_div (double (zlen files)) (double config.kL0_CompactionTrigger)
  else double_div (double (u64 (TotalFileSize files))) (MaxBytesForLevel level).

(** The loop over the levels but the last. *)
Fixpoint best_loop (n : nat) (files : list (list FilePtr)) (level best_level : Z) (best_score : spec_float) : outcome (Z * spec_float) :=
  match n with
  | O => Ret (best_level, best_score)
  | S n =>
      let! fs := vec_at files level in
      let score := level_score level fs in
      if SFltb best_score score then best_loop n files (level + 1) level score
      else best_loop n files (level + 1) best_level best_score
  end.

Definition Finalize (v : Version) : outcome Version :=
  let! (best_level, best_score) := best_loop (Z.to_nat (config.kNumLevels - 1)) (files_ v) 0 (-1) (double (-1)) in
  Ret (mkVersion (v_refs v) (files_ v) (file_to_compact_ v) (file_to_compact_level_ v) best_score best_level).

(** ** The list of versions *)

(** The versions by address, their links (the dummy head has address 0) and the heap of files. *)
Record Versions := mkVersions {
  vl_heap : FileHeap;
  vl_versions : gmap nat Version;
  vl_links : Links;
  vl_next : nat;
  vl_current : option nat;
}.

Definition dummy_versions_ : nat := 0.

Definition set_heap (vl : Versions) (h : FileHeap) : Versions := mkVersions h (vl_versions vl) (vl_links vl) (vl_next vl) (vl_current vl).
Definition set_links (vl : Versions) (m : Links) : Versions := mkVersions (vl_heap vl) (vl_versions vl) m (vl_next vl) (vl_current vl).
Definition set_current (vl : Versions) (n : nat) : Versions := mkVersions (vl_heap vl) (vl_versions vl) (vl_links vl) (vl_next vl) (Some n).
Definition set_version (vl : Versions) (n : nat) (v : Version) : Versions :=
  mkVersions (vl_heap vl) (<[n := v]> (vl_versions vl)) (vl_links vl) (vl_next vl) (vl_current vl).

Definition version_at (vl : Versions) (n : nat) : outcome Version :=
  match vl_versions vl !! n with Some v => Ret v | None => AssertFailed end.

(** [current_->...]. *)
Definition current_version (vl : Versions) : outcome Version :=
  match vl_current vl with Some n => version_at vl n | None => AssertFailed end.

Definition set_refs (v : Version) (refs : Z) : Version :=
  mkVersion refs (files_ v) (file_to_compact_ v) (file_to_compact_level_ v) (compaction_score_ v) (compaction_level_ v).

Definition set_files (v : Version) (files : list (list FilePtr)) : Version :=
  mkVersion (v_refs v) files (file_to_compact_ v) (file_to_compact_level_ v) (compaction_score_ v) (compaction_level_ v).

(** [new Version(this)]: a version without files, linked to itself. *)
Definition empty_version : Version := mkVersion 0 (replicate (Z.to_nat config.kNumLevels) []) None (-1) (double (-1)) (-1).

Definition new_Version (vl : Versions) : Versions * nat :=
  let n := vl_next vl in
  (mkVersions (vl_heap vl) (<[n := empty_version]> (vl_versions vl)) (set_prev (set_next (vl_links vl) n n) n n) (S n) (vl_current vl), n).

(** One file in the destructor. *)
Definition drop_file (h : FileHeap) (f : FilePtr) : outcome FileHeap :=
  let! s := file_state (fh_store h) f in
  assert! 0 <? fs_refs s;
  unref_file h f.

Fixpoint drop_files (h : FileHeap) (files : list FilePtr) : outcome FileHeap :=
  match files with
  | [] => Ret h
  | f :: files => let! h := drop_file h f in drop_files h files
  end.

(** [delete v], with the destructor. *)
Definition delete_Version (vl : Versions) (n : nat) : outcome Versions :=
  let! v := version_at vl n in
  assert! v_refs v =? 0;
  let! links := link_remove (vl_links vl) n in
  let! h := drop_files (vl_heap vl) (concat (files_ v)) in
  Ret (mkVersions h (delete n (vl_versions vl)) links (vl_next vl) (vl_current vl)).

Definition version_Ref (vl : Versions) (n : nat) : outcome Versions :=
  let! v := version_at vl n in
  Ret (set_version vl n (set_refs v (v_refs v + 1))).

Definition version_Unref (vl : Versions) (n : nat) : outcome Versions :=
  assert! negb (bool_decide (n = dummy_versions_));
  let! v := version_at vl n in
  assert! 1 <=? v_refs v;
  let vl := set_version vl n (set_refs v (v_refs v - 1)) in
  if v_refs v - 1 =? 0 then delete_Version vl n else Ret vl.

(** "v" becomes current and the last of the list. *)
Definition link_version (vl : Versions) (n : nat) : outcome Versions :=
  let vl := set_current vl n in
  let! vl := version_Ref vl n in
  let! p := get_prev (vl_links vl) dummy_versions_ in
  let m := set_prev (vl_links vl) n p in
  let m := set_next m n dummy_versions_ in
  let! p := get_prev m n in
  let m := set_next m p n in
  let! x := get_next m n in
  Ret (set_links vl (set_prev m x n)).

Definition AppendVersion (vl : Versions) (n : nat) : outcome Versions :=
  let! v := version_at vl n in
  assert! v_refs v =? 0;
  assert! negb (bool_decide (vl_current vl = Some n));
  let! vl := match vl_current vl with Some c => version_Unref vl c | None => Ret vl end in
  link_version vl n.

(** [AddLiveFiles]: the loop over the list, with the number of versions as fuel. *)
Fixpoint live_loop (fuel : nat) (vl : Versions) (n : nat) (live : gset Z) : outcome (gset Z) :=
  if bool_decide (n = dummy_versions_) then Ret live
  else
    match fuel with
    | O => OutOfFuel
    | S fuel =>
        let! v := version_at vl n in
        let! x := get_next (vl_links vl) n in
        live_loop fuel vl x (live ∪ list_to_set (f_number <$> concat (files_ v)))
    end.

Definition AddLiveFiles (vl : Versions) (live : gset Z) : outcome (gset Z) :=
  let! n := get_next (vl_links vl) dummy_versions_ in
  live_loop (S (size (vl_versions vl))) vl n live.

(** ** The version set *)

Record VersionSet (H : Type) := mkVersionSet {
  vs_dbname : bytes;
  vs_options : Options;
  vs_comparator : bytes;
  vs_next_file_number : Z;
  vs_manifest_file_number : Z;
  vs_last_sequence : Z;
  vs_log_number : Z;
  vs_prev_log_number : Z;
  descriptor_file_ : option H;
  descriptor_log_ : option (Writer H);
  vs_versions : Versions;
  compact_pointer_ : list bytes;
}.
Arguments mkVersionSet {H} _ _ _ _ _ _ _ _ _ _ _ _.
Arguments vs_dbname {H} _.
Arguments vs_options {H} _.
Arguments vs_comparator {H} _.
Arguments vs_next_file_number {H} _.
Arguments vs_manifest_file_number {H} _.
Arguments vs_last_sequence {H} _.
Arguments vs_log_number {H} _.
Arguments vs_prev_log_number {H} _.
Arguments descriptor_file_ {H} _.
Arguments descriptor_log_ {H} _.
Arguments vs_versions {H} _.
Arguments compact_pointer_ {H} _.

Section VSet.
Context {E H : Type} `{Env E H} `{Crc32c} `{user_comparator : Comparator}.
Abbreviation VersionSet := (VersionSet H).

Definition set_numbers (vs : VersionSet) (next manifest last log prev : Z) : VersionSet :=
  mkVersionSet (vs_dbname vs) (vs_options vs) (vs_comparator vs) next manifest last log prev
    (descriptor_file_ vs) (descriptor_log_ vs) (vs_versions vs) (compact_pointer_ vs).

Definition set_descriptor (vs : VersionSet) (file : option H) (log : option (Writer H)) : VersionSet :=
  mkVersionSet (vs_dbname vs) (vs_options vs) (vs_comparator vs) (vs_next_file_number vs) (vs_manifest_file_number vs)
    (vs_last_sequence vs) (vs_log_number vs) (vs_prev_log_number vs) file log (vs_versions vs) (compact_pointer_ vs).

Definition set_versions (vs : VersionSet) (vl : Versions) : VersionSet :=
  mkVersionSet (vs_dbname vs) (vs_options vs) (vs_comparator vs) (vs_next_file_number vs) (vs_manifest_file_number vs)
    (vs_last_sequence vs) (vs_log_number vs) (vs_prev_log_number vs) (descriptor_file_ vs) (descriptor_log_ vs) vl (compact_pointer_ vs).

Definition set_pointer_array (vs : VersionSet) (pointers : list bytes) : VersionSet :=
  mkVersionSet (vs_dbname vs) (vs_options vs) (vs_comparator vs) (vs_next_file_number vs) (vs_manifest_file_number vs)
    (vs_last_sequence vs) (vs_log_number vs) (vs_prev_log_number vs) (descriptor_file_ vs) (descriptor_log_ vs) (vs_versions vs) pointers.

(** [h] is the heap of files, [comparator] the name of the user comparator. *)
Definition new_VersionSet (h : FileHeap) (dbname : bytes) (options : Options) (comparator : bytes) : outcome VersionSet :=
  let vl := mkVersions h ∅ (link_head dummy_versions_) 1 None in
  let '(vl, n) := new_Version vl in
  let! vl := AppendVersion vl n in
  Ret (mkVersionSet dbname options comparator 2 0 0 0 0 None None vl (replicate (Z.to_nat config.kNumLevels) [])).

Definition delete_VersionSet (env : E) (vs : VersionSet) : outcome (E * Versions) :=
  let! vl := match vl_current (vs_versions vs) with Some c => version_Unref (vs_versions vs) c | None => AssertFailed end in
  let! n := get_next (vl_links vl) dummy_versions_ in
  assert! bool_decide (n = dummy_versions_);
  Ret (match descriptor_file_ vs with Some h => file_delete env h | None => env end, vl).

(** ** Numbers *)

Definition NewFileNumber (vs : VersionSet) : VersionSet * Z :=
  (set_numbers vs (u64 (vs_next_file_number vs + 1)) (vs_manifest_file_number vs) (vs_last_sequence vs) (vs_log_number vs) (vs_prev_log_number vs),
   vs_next_file_number vs).

Definition ReuseFileNumber (vs : VersionSet) (file_number : Z) : VersionSet :=
  if vs_next_file_number vs =? u64 (file_number + 1)
  then set_numbers vs file_number (vs_manifest_file_number vs) (vs_last_sequence vs) (vs_log_number vs) (vs_prev_log_number vs)
  else vs.

Definition SetLastSequenceNumber (vs : VersionSet) (s : Z) : outcome VersionSet :=
  assert! vs_last_sequence vs <=? s;
  Ret (set_numbers vs (vs_next_file_number vs) (vs_manifest_file_number vs) s (vs_log_number vs) (vs_prev_log_number vs)).

Definition MarkFileNumberUsed (vs : VersionSet) (num : Z) : VersionSet :=
  if vs_next_file_number vs <=? num
  then set_numbers vs (u64 (num + 1)) (vs_manifest_file_number vs) (vs_last_sequence vs) (vs_log_number vs) (vs_prev_log_number vs)
  else vs.

Definition NumLevelFiles (vs : VersionSet) (level : Z) : outcome Z :=
  assert! 0 <=? level;
  assert! level <? config.kNumLevels;
  let! v := current_version (vs_versions vs) in
  let! fs := v_files v level in
  Ret (zlen fs).

Definition NumLevelBytes (vs : VersionSet) (level : Z) : outcome Z :=
  assert! 0 <=? level;
  assert! level <? config.kNumLevels;
  let! v := current_version (vs_versions vs) in
  let! fs := v_files v level in
  Ret (TotalFileSize fs).

Definition NeedsCompaction (vs : VersionSet) : outcome bool :=
  let! v := current_version (vs_versions vs) in
  Ret (SFleb (double 1) (compaction_score_ v) || match file_to_compact_ v with Some _ => true | None => false end).

(** The two loops of [MaxNextLevelOverlappingBytes]. *)
Fixpoint max_overlap_files (v : Version) (level : Z) (files : list FilePtr) (result : Z) : outcome Z :=
  match files with
  | [] => Ret result
  | f :: files =>
      let! overlaps := GetOverlappingInputs v (level + 1) (Some (f_smallest f)) (Some (f_largest f)) in
      let sum := TotalFileSize overlaps in
      max_overlap_files v level files (if result <? sum then sum else result)
  end.

Fixpoint max_overlap_levels (n : nat) (v : Version) (level result : Z) : outcome Z :=
  match n with
  | O => Ret result
  | S n =>
      let! fs := v_files v level in
      let! result := max_overlap_files v level fs result in
      max_overlap_levels n v (level + 1) result
  end.

Definition MaxNextLevelOverlappingBytes (vs : VersionSet) : outcome Z :=
  let! v := current_version (vs_versions vs) in
  max_overlap_levels (Z.to_nat (config.kNumLevels - 2)) v 1 0.

(** ** The manifest *)

(** A call of the log writer on the descriptor file. *)
Definition log_AddRecord (env : E) (w : Writer H) (record : bytes) : outcome (E * Writer H * Status) :=
  let! (w, s) := AddRecord (mkWriter (mkOpen env (dest_ w)) (block_offset_ w) (type_crc_ w)) record in
  Ret (of_env (dest_ w), mkWriter (of_handle (dest_ w)) (block_offset_ w) (type_crc_ w), s).

Fixpoint snapshot_pointers (level : Z) (pointers : list bytes) (edit : VersionEdit) : VersionEdit :=
  match pointers with
  | [] => edit
  | p :: pointers =>
      snapshot_pointers (level + 1) pointers (if zlen p =? 0 then edit else SetCompactPointer level (DecodeFrom p) edit)
  end.

Fixpoint snapshot_files (level : Z) (files : list FilePtr) (edit : VersionEdit) : VersionEdit :=
  match files with
  | [] => edit
  | f :: files => snapshot_files level files (AddFile level (f_number f) (f_file_size f) (f_smallest f) (f_largest f) edit)
  end.

Fixpoint snapshot_levels (level : Z) (levels : list (list FilePtr)) (edit : VersionEdit) : VersionEdit :=
  match levels with
  | [] => edit
  | fs :: levels => snapshot_levels (level + 1) levels (snapshot_files level fs edit)
  end.

(** The edit of [WriteSnapshot]. *)
Definition snapshot_edit (vs : VersionSet) (v : Version) : VersionEdit :=
  snapshot_levels 0 (files_ v) (snapshot_pointers 0 (compact_pointer_ vs) (SetComparatorName (vs_comparator vs) new_VersionEdit)).

Definition WriteSnapshot (env : E) (vs : VersionSet) (log : Writer H) : outcome (E * Writer H * Status) :=
  let! v := current_version (vs_versions vs) in
  let! record := EncodeTo (snapshot_edit vs v) [] in
  log_AddRecord env log record.

(** The edit as [LogAndApply] completes it. *)
Definition complete_edit (vs : VersionSet) (edit : VersionEdit) : outcome VersionEdit :=
  let! edit :=
    if has_log_number_ edit then
      assert! vs_log_number vs <=? log_number_ edit;
      assert! log_number_ edit <? vs_next_file_number vs;
      Ret edit
    else Ret (SetLogNumber (vs_log_number vs) edit) in
  let edit := if negb (has_prev_log_number_ edit) then SetPrevLogNumber (vs_prev_log_number vs) edit else edit in
  let edit := SetNextFile (vs_next_file_number vs) edit in
  Ret (SetLastSequence (vs_last_sequence vs) edit).

(** The builder of [LogAndApply]: the new version [n] gets the files of the current one with
    the edits applied. The builder refers to the current version while it lives. *)
Definition build_version (vs : VersionSet) (n : nat) (edits : list VersionEdit) : outcome VersionSet :=
  match vl_current (vs_versions vs) with
  | None => AssertFailed
  | Some c =>
      let! vl := version_Ref (vs_versions vs) c in
      let! base := version_at vl c in
      let! (h, pointers, files) := build (vl_heap vl) (compact_pointer_ vs) (files_ base) edits in
      let! v := version_at vl n in
      let vl := set_version (set_heap vl h) n (set_files v files) in
      let! vl := version_Unref vl c in
      Ret (set_pointer_array (set_versions vs vl) pointers)
  end.

Definition finalize_version (vs : VersionSet) (n : nat) : outcome VersionSet :=
  let! v := version_at (vs_versions vs) n in
  let! v := Finalize v in
  Ret (set_versions vs (set_version (vs_versions vs) n v)).

(** A new descriptor file, with a snapshot of the current version, when there is none. The
    name of the file is returned, empty if none was made. *)
Definition open_descriptor (env : E) (vs : VersionSet) : outcome (E * VersionSet * bytes * Status) :=
  match descriptor_log_ vs with
  | Some _ => Ret (env, vs, [], OK)
  | None =>
      assert! match descriptor_file_ vs with None => true | Some _ => false end;
      let! name := DescriptorFileName (vs_dbname vs) (vs_manifest_file_number vs) in
      let '(env, s, file) := NewWritableFile env name in
      let vs := set_descriptor vs file None in
      if ok s then
        match file with
        | None => AssertFailed
        | Some h =>
            let log := mkWriter h 0 InitTypeCrc in
            let! (env, log, s) := WriteSnapshot env vs log in
            Ret (env, set_descriptor vs file (Some log), name, s)
        end
      else Ret (env, vs, name, s)
  end.

(** The record of the edit, and the sync of the file. *)
Definition log_edit (env : E) (vs : VersionSet) (edit : VersionEdit) : outcome (E * VersionSet * Status) :=
  match descriptor_log_ vs, descriptor_file_ vs with
  | Some log, Some h =>
      let! record := EncodeTo edit [] in
      let! (env, log, s) := log_AddRecord env log record in
      let '(env, s) := if ok s then file_Sync env h else (env, s) in
      Ret (env, set_descriptor vs (Some h) (Some log), s)
  | _, _ => AssertFailed
  end.

(** The edit is written, and a new descriptor is made the current one. *)
Definition write_manifest (env : E) (vs : VersionSet) (edit : VersionEdit) : outcome (E * VersionSet * bytes * Status) :=
  let! (env, vs, new_manifest_file, s) := open_descriptor env vs in
  let! (env, vs, s) := if ok s then log_edit env vs edit else Ret (env, vs, s) in
  let! (env, s) :=
    if ok s && negb (zlen new_manifest_file =? 0) then SetCurrentFile env (vs_dbname vs) (vs_manifest_file_number vs)
    else Ret (env, s) in
  Ret (env, vs, new_manifest_file, s).

(** A descriptor that could not be written is closed and removed. *)
Definition drop_descriptor (env : E) (vs : VersionSet) (name : bytes) : E * VersionSet :=
  let env := match descriptor_file_ vs with Some h => file_delete env h | None => env end in
  (fst (RemoveFile env name), set_descriptor vs None None).

(** Install the new version [n], or drop it. *)
Definition conclude (env : E) (vs : VersionSet) (n : nat) (edit : VersionEdit) (new_manifest_file : bytes) (s : Status)
    : outcome (E * VersionSet * VersionEdit * Status) :=
  if ok s then
    let! vl := AppendVersion (vs_versions vs) n in
    let vs := set_versions vs vl in
    Ret (env, set_numbers vs (vs_next_file_number vs) (vs_manifest_file_number vs) (vs_last_sequence vs)
                (log_number_ edit) (prev_log_number_ edit), edit, s)
  else
    let! vl := delete_Version (vs_versions vs) n in
    let vs := set_versions vs vl in
    let '(env, vs) := if negb (zlen new_manifest_file =? 0) then drop_descriptor env vs new_manifest_file else (env, vs) in
    Ret (env, vs, edit, s).

(** The edit is completed in place: it is returned too. *)
Definition LogAndApply (env : E) (vs : VersionSet) (edit : VersionEdit) : outcome (E * VersionSet * VersionEdit * Status) :=
  let! edit := complete_edit vs edit in
  let '(vl, n) := new_Version (vs_versions vs) in
  let! vs := build_version (set_versions vs vl) n [edit] in
  let! vs := finalize_version vs n in
  let! (env, vs, new_manifest_file, s) := write_manifest env vs edit in
  conclude env vs n edit new_manifest_file s.

(** ** Recovery *)

(** The variables of the loop over the records: [None] while the flag is false. *)
Record Recovered := mkRecovered {
  rec_log_number : option Z;
  rec_prev_log_number : option Z;
  rec_next_file : option Z;
  rec_last_sequence : option Z;
}.

Definition note_numbers (r : Recovered) (edit : VersionEdit) : Recovered :=
  mkRecovered (if has_log_number_ edit then Some (log_number_ edit) else rec_log_number r)
    (if has_prev_log_number_ edit then Some (prev_log_number_ edit) else rec_prev_log_number r)
    (if has_next_file_number_ edit then Some (next_file_number_ edit) else rec_next_file r)
    (if has_last_sequence_ edit then Some (last_sequence_ edit) else rec_last_sequence r).

(** What [LogReporter] makes of the corruptions reported by one call of [ReadRecord]. *)
Definition reported (s : Status) (reports : list (Z * Status)) : Status :=
  foldl (fun s p => if ok s then snd p else s) s reports.

Definition check_comparator (vs : VersionSet) (edit : VersionEdit) : Status :=
  if has_comparator_ edit && negb (bool_decide (comparator_ edit = vs_comparator vs))
  then InvalidArgument (String.string_of_list_byte (comparator_ edit ++ str " does not match existing comparator : " ++ vs_comparator vs)) else OK.

(** The loop over the records of the manifest. *)
Fixpoint recover_loop (fuel : nat) (reader : Reader (OpenFile E H)) (vs : VersionSet) (b : Builder) (r : Recovered) (s : Status)
    : outcome (Reader (OpenFile E H) * VersionSet * Builder * Recovered * Status) :=
  match fuel with
  | O => OutOfFuel
  | S fuel' =>
      let! (reader', record) := ReadRecord fuel reader in
      let s := reported s (drop (length (reports_ reader)) (reports_ reader')) in
      match record with
      | Some record =>
          if ok s then
            let! (edit, s) := DecodeEdit new_VersionEdit record in
            let s := if ok s then check_comparator vs edit else s in
            let! (vs, b) :=
              if ok s then
                let! (h, pointers, b) := Apply (vl_heap (vs_versions vs)) (compact_pointer_ vs) b edit in
                Ret (set_pointer_array (set_versions vs (set_heap (vs_versions vs) h)) pointers, b)
              else Ret (vs, b) in
            recover_loop fuel' reader' vs b (note_numbers r edit) s
          else Ret (reader', vs, b, r, s)
      | None => Ret (reader', vs, b, r, s)
      end
  end.

(** The name of the manifest that [CURRENT] has. *)
Definition read_current (fuel : nat) (env : E) (vs : VersionSet) : outcome (E * (Status + bytes)) :=
  let! (env, s, current) := ReadFileToString fuel env (CurrentFileName (vs_dbname vs)) in
  if negb (ok s) then Ret (env, inl s)
  else if (zlen current =? 0) || negb (bool_decide (last current = Some x0a))
  then Ret (env, inl (Corruption "CURRENT file does not end with newline"))
  else Ret (env, inr (ztake (zlen current - 1) current)).

Definition ReuseManifest (env : E) (vs : VersionSet) (dscname dscbase : bytes) : outcome (E * VersionSet * bool) :=
  if negb (reuse_logs (vs_options vs)) then Ret (env, vs, false)
  else
    match ParseFileName dscbase with
    | Some (manifest_number, kDescriptorFile) =>
        let '(s, manifest_size) := GetFileSize env dscname in
        if negb (ok s) || (TargetFileSize (vs_options vs) <=? manifest_size) then Ret (env, vs, false)
        else
          assert! match descriptor_file_ vs with None => true | Some _ => false end;
          assert! match descriptor_log_ vs with None => true | Some _ => false end;
          let '(env, r, file) := NewAppendableFile env dscname in
          if negb (ok r) then
            assert! match file with None => true | Some _ => false end;
            Ret (env, vs, false)
          else
            match file with
            | None => AssertFailed
            | Some h =>
                let vs := set_descriptor vs (Some h) (Some (mkWriter h (manifest_size mod kBlockSize) InitTypeCrc)) in
                Ret (env, set_numbers vs (vs_next_file_number vs) manifest_number (vs_last_sequence vs) (vs_log_number vs) (vs_prev_log_number vs), true)
            end
    | _ => Ret (env, vs, false)
    end.

(** The checks after the loop: a status, and the numbers marked as used. *)
Definition check_recovered (vs : VersionSet) (r : Recovered) : VersionSet * Status :=
  let s :=
    match rec_next_file r, rec_log_number r, rec_last_sequence r with
    | None, _, _ => Corruption "no meta-nextfile entry in descriptor"
    | _, None, _ => Corruption "no meta-lognumber entry in descriptor"
    | _, _, None => Corruption "no last-sequence-number entry in descriptor"
    | _, _, _ => OK
    end in
  let vs := MarkFileNumberUsed vs (default 0 (rec_prev_log_number r)) in
  (MarkFileNumberUsed vs (default 0 (rec_log_number r)), s).

(** The recovered version [n] is saved, finalized and installed. *)
Definition install_recovered (vs : VersionSet) (b : Builder) (r : Recovered) : outcome VersionSet :=
  let '(vl, n) := new_Version (vs_versions vs) in
  let! (h, files) := SaveTo (vl_heap vl) b in
  let! v := version_at vl n in
  let! vs := finalize_version (set_versions vs (set_version (set_heap vl h) n (set_files v files))) n in
  let! vl := AppendVersion (vs_versions vs) n in
  let next_file := default 0 (rec_next_file r) in
  Ret (set_numbers (set_versions vs vl) (u64 (next_file + 1)) next_file (default 0 (rec_last_sequence r)) (default 0 (rec_log_number r))
         (default 0 (rec_prev_log_number r))).

(** The end of the life of the builder of [Recover]. *)
Definition release_builder (vs : VersionSet) (b : Builder) (base : nat) : outcome VersionSet :=
  let! h := delete_Builder (vl_heap (vs_versions vs)) b in
  let! vl := version_Unref (set_heap (vs_versions vs) h) base in
  Ret (set_versions vs vl).

(** The manifest [dscname] is read and its version installed. The boolean is [*save_manifest]. *)
Definition recover_manifest (fuel : nat) (env : E) (vs : VersionSet) (save_manifest : bool) (current dscname : bytes) (file : H)
    : outcome (E * VersionSet * bool * Status) :=
  match vl_current (vs_versions vs) with
  | None => AssertFailed
  | Some c =>
      let! vl := version_Ref (vs_versions vs) c in
      let! base := version_at vl c in
      let! (reader, vs, b, r, s) :=
        recover_loop fuel (new_Reader (mkOpen env file) true true 0) (set_versions vs vl) (new_Builder (files_ base))
          (mkRecovered None None None None) OK in
      let env := file_delete (of_env (file_ reader)) (of_handle (file_ reader)) in
      let '(vs, s) := if ok s then check_recovered vs r else (vs, s) in
      let! (env, vs, save_manifest) :=
        if ok s then
          let! vs := install_recovered vs b r in
          let! (env, vs, reused) := ReuseManifest env vs dscname current in
          Ret (env, vs, if (reused : bool) then save_manifest else true)
        else Ret (env, vs, save_manifest) in
      let! vs := release_builder vs b c in
      Ret (env, vs, save_manifest, s)
  end.

(** [fuel] bounds the bytes of [CURRENT] and of the manifest. *)
Definition Recover (fuel : nat) (env : E) (vs : VersionSet) (save_manifest : bool) : outcome (E * VersionSet * bool * Status) :=
  let! (env, current) := read_current fuel env vs in
  match current with
  | inl s => Ret (env, vs, save_manifest, s)
  | inr current =>
      let dscname := vs_dbname vs ++ str "/" ++ current in
      let '(env, s, file) := NewSequentialFile env dscname in
      if negb (ok s) then
        Ret (env, vs, save_manifest, if IsNotFound s then Corruption "CURRENT points to a non-existent file" else s)
      else
        match file with
        | None => AssertFailed
        | Some file => recover_manifest fuel env vs save_manifest current dscname file
        end
  end.

(** ** The manifest of a new database ([DBImpl::NewDB] of [db_impl.c]) *)

Definition new_db_edit (comparator : bytes) : VersionEdit :=
  SetLastSequence 0 (SetNextFile 2 (SetLogNumber 0 (SetComparatorName comparator new_VersionEdit))).

Definition NewDB (env : E) (dbname comparator : bytes) : outcome (E * Status) :=
  let! manifest := DescriptorFileName dbname 1 in
  let '(env, s, file) := NewWritableFile env manifest in
  if negb (ok s) then Ret (env, s)
  else
    match file with
    | None => AssertFailed
    | Some h =>
        let! record := EncodeTo (new_db_edit comparator) [] in
        let! (env, log, s) := log_AddRecord env (mkWriter h 0 InitTypeCrc) record in
        let '(env, s) := if ok s then file_Close env h else (env, s) in
        let env := file_delete env h in
        if ok s then SetCurrentFile env dbname 1
        else Ret (fst (RemoveFile env manifest), s)
    end.

End VSet.

(** ** The invariant of the list of versions *)

(** How often the files of the versions refer to a file. *)
Definition own (m : gmap nat Version) (x : nat) : Z := map_fold (fun _ v acc => occ x (concat (files_ v)) + acc) 0 m.

Lemma own_insert m n v x : m !! n = None -> own (<[n := v]> m) x = occ x (concat (files_ v)) + own m x.
Proof. intros Hn. unfold own. rewrite map_fold_insert_L; [done| |done]. intros. lia. Qed.

Lemma own_delete m n v x : m !! n = Some v -> own m x = occ x (concat (files_ v)) + own (delete n m) x.
Proof. intros Hn. rewrite <- (insert_delete_id m n v Hn) at 1. apply own_insert, lookup_delete_eq. Qed.

Lemma own_update m n v v' x :
  m !! n = Some v -> own (<[n := v']> m) x = own m x - occ x (concat (files_ v)) + occ x (concat (files_ v')).
Proof.
  intros Hn. rewrite (own_delete m n v x Hn), <- insert_delete_eq, own_insert by apply lookup_delete_eq. lia.
Qed.

Lemma own_nonneg m x : 0 <= own m x.
Proof.
  unfold own. apply (map_fold_weak_ind (fun r _ => 0 <= r)); [done|]. intros i v m' r _ Hr. pose proof (occ_nonneg x (concat (files_ v))). lia.
Qed.

Lemma own_le m n v x : m !! n = Some v -> occ x (concat (files_ v)) <= own m x.
Proof. intros Hn. rewrite (own_delete m n v x Hn). pose proof (own_nonneg (delete n m) x). lia. Qed.

(** The versions of the list are [l], [d] is a version that is not in the list (yet), [rc] are
    the reference counts, and [ext x] counts the references to files from elsewhere. *)
Record versions_inv (vl : Versions) (l : list nat) (d : option nat) (rc ext : nat -> Z) `{user_comparator : Comparator} : Prop := mkVersionsInv {
  vi_linked : linked (vl_links vl) dummy_versions_ l;
  vi_dom n : is_Some (vl_versions vl !! n) <-> n ∈ l \/ d = Some n;
  vi_bound n : n ∈ l \/ d = Some n -> (0 < n < vl_next vl)%nat;
  vi_next : (0 < vl_next vl)%nat;
  vi_refs n v : n ∈ l -> vl_versions vl !! n = Some v -> v_refs v = rc n /\ 1 <= rc n;
  vi_detached n : d = Some n -> (n ∉ l) /\ (exists v, vl_versions vl !! n = Some v /\ v_refs v = 0) /\
    next_ (vl_links vl) !! n = Some n /\ prev_ (vl_links vl) !! n = Some n;
  vi_levels n v : vl_versions vl !! n = Some v -> levels_wf (files_ v);
  vi_ext x : 0 <= ext x;
  vi_counts : counts (vl_heap vl) (fun x => own (vl_versions vl) x + ext x);
}.

(** The files of a version. *)
Definition vfiles (vl : Versions) (n : nat) : option (list (list FilePtr)) := files_ <$> vl_versions vl !! n.

Section List.
Context `{laws : ComparatorLaws}.

Lemma vi_version vl l d rc ext n : versions_inv vl l d rc ext -> n ∈ l -> exists v, vl_versions vl !! n = Some v /\ v_refs v = rc n /\ 1 <= rc n.
Proof.
  intros Hi Hn. destruct (proj2 (vi_dom _ _ _ _ _ Hi n) (or_introl Hn)) as [v Hv]. exists v. split; [done|]. by apply (vi_refs _ _ _ _ _ Hi n v).
Qed.

Lemma vi_not_dummy vl l d rc ext n : versions_inv vl l d rc ext -> n ∈ l -> n ≠ dummy_versions_.
Proof. intros Hi Hn. destruct (vi_bound _ _ _ _ _ Hi n (or_introl Hn)). unfold dummy_versions_. lia. Qed.

Lemma empty_levels_wf : levels_wf (files_ empty_version).
Proof.
  split; [done|by repeat constructor..|].
  intros i fs Hi. change (files_ empty_version) with (replicate 7 ([] : list FilePtr)) in Hi. apply lookup_replicate in Hi as [-> _]. constructor.
Qed.

Lemma empty_levels_denote : denotes_levels (files_ empty_version) abs_empty.
Proof.
  apply Forall2_same_length_lookup_2; [done|]. intros i fs m Hf Hm. change (files_ empty_version) with (replicate 7 ([] : list FilePtr)) in Hf.
  apply lookup_replicate in Hf as [-> _], Hm as [-> _]. intros n x. rewrite lookup_empty. split; [done|]. intros (f & Hf & _). by apply not_elem_of_nil in Hf.
Qed.

Lemma new_Version_spec vl l rc ext :
  versions_inv vl l None rc ext ->
  exists vl' n, new_Version vl = (vl', n) /\ versions_inv vl' l (Some n) rc ext /\ vl_current vl' = vl_current vl /\ (n ∉ l) /\
    vl_versions vl' !! n = Some empty_version /\ forall m, m ≠ n -> vl_versions vl' !! m = vl_versions vl !! m.
Proof.
  intros [Hlk Hd Hb Hn Hr _ Hw He Hc]. eexists _, (vl_next vl). split; [done|]. set (n := vl_next vl).
  assert (n ∉ l) as Hnl. { intros Hin. destruct (Hb n (or_introl Hin)). unfold n in *. lia. }
  assert (vl_versions vl !! n = None) as Hnone. { apply eq_None_not_Some. rewrite Hd. intros [|]; done. }
  assert (n ∉ dummy_versions_ :: l) as Hnd by (rewrite not_elem_of_cons; split; [unfold n, dummy_versions_; lia|done]).
  split; [|split; [done|split; [done|split; [apply lookup_insert_eq|intros m Hm; by apply lookup_insert_ne]]]].
  split; cbn [vl_links vl_versions vl_next vl_heap].
  - by apply link_self_linked.
  - intros m. destruct (decide (n = m)) as [<-|Hne]; [rewrite lookup_insert_eq; split; [by right|done]|].
    rewrite lookup_insert_ne, Hd by done. split; [intros [|]; [by left|done]|]. intros [|Heq]; [by left|congruence].
  - intros m [Hm|[= <-]]; [destruct (Hb m (or_introl Hm))|]; fold n; unfold n in *; lia.
  - lia.
  - intros m v Hm Hv. rewrite lookup_insert_ne in Hv by (intros <-; done). by apply (Hr m).
  - intros m [= <-]. split; [done|]. split; [exists empty_version; split; [apply lookup_insert_eq|done]|].
    unfold set_prev, set_next. cbn [next_ prev_]. by rewrite !lookup_insert_eq.
  - intros m v Hv. destruct (decide (n = m)) as [<-|Hne]; [rewrite lookup_insert_eq in Hv; injection Hv as <-; apply empty_levels_wf|].
    rewrite lookup_insert_ne in Hv by done. by apply (Hw m).
  - done.
  - eapply counts_proper; [|exact Hc]. intros x. rewrite own_insert by done. change (occ x (concat (files_ empty_version))) with 0. lia.
Qed.

(** A version of the list changes in its count and its statistics only. *)
Lemma set_version_refs vl l d rc ext n v v' (rc' : nat -> Z) :
  versions_inv vl l d rc ext -> vl_versions vl !! n = Some v -> files_ v' = files_ v ->
  (n ∈ l -> v_refs v' = rc' n /\ 1 <= rc' n) -> (forall m, m ∈ l -> m ≠ n -> rc' m = rc m) -> (d = Some n -> v_refs v' = 0) ->
  versions_inv (set_version vl n v') l d rc' ext.
Proof.
  intros [Hlk Hd Hb Hn Hr Hdt Hw He Hc] Hv Hf Hrc Hrc' H0. split; cbn [set_version vl_links vl_versions vl_next vl_heap]; try done.
  - intros m. rewrite <- Hd. destruct (decide (n = m)) as [<-|Hne]; [rewrite lookup_insert_eq, Hv|by rewrite lookup_insert_ne by done].
    split; intros _; by eexists.
  - intros m w Hm Hw'. destruct (decide (n = m)) as [<-|Hne]; [rewrite lookup_insert_eq in Hw'; injection Hw' as <-; by apply Hrc|].
    rewrite lookup_insert_ne in Hw' by done. rewrite Hrc' by congruence. by apply (Hr m).
  - intros m Hm. destruct (Hdt m Hm) as (H1 & (w & Hw' & Hw0) & H3). split; [done|]. split; [|done].
    destruct (decide (n = m)) as [<-|Hne]; [exists v'; rewrite lookup_insert_eq; split; [done|by apply H0]|]. exists w. by rewrite lookup_insert_ne.
  - intros m w Hw'. destruct (decide (n = m)) as [<-|Hne]; [rewrite lookup_insert_eq in Hw'; injection Hw' as <-; rewrite Hf; by apply (Hw n)|].
    rewrite lookup_insert_ne in Hw' by done. by apply (Hw m).
  - eapply counts_proper; [|exact Hc]. intros x. rewrite (own_update _ _ v) by done. rewrite Hf. lia.
Qed.

Lemma vfiles_set_version vl n v v' m : vl_versions vl !! n = Some v -> files_ v' = files_ v -> vfiles (set_version vl n v') m = vfiles vl m.
Proof.
  intros Hv Hf. unfold vfiles, set_version. cbn [vl_versions]. destruct (decide (n = m)) as [<-|Hne].
  - rewrite lookup_insert_eq, Hv. simpl. by rewrite Hf.
  - by rewrite lookup_insert_ne.
Qed.

Lemma version_Ref_spec vl l d rc ext n :
  versions_inv vl l d rc ext -> n ∈ l ->
  exists vl', version_Ref vl n = Ret vl' /\ versions_inv vl' l d (fun m => rc m + if decide (m = n) then 1 else 0) ext /\
    vl_current vl' = vl_current vl /\ vl_heap vl' = vl_heap vl /\ (forall m, vfiles vl' m = vfiles vl m) /\
    forall m, m ≠ n -> vl_versions vl' !! m = vl_versions vl !! m.
Proof.
  intros Hi Hn. destruct (vi_version _ _ _ _ _ _ Hi Hn) as (v & Hv & Hrv & H1). unfold version_Ref, version_at. rewrite Hv. cbn [obind].
  eexists. split; [done|]. split; [|split; [done|split; [done|split; [intros m; by eapply vfiles_set_version|intros m Hm; unfold set_version; cbn [vl_versions]; by rewrite lookup_insert_ne by congruence]]]].
  eapply (set_version_refs _ _ _ _ _ _ v); try done.
  - intros _. rewrite decide_True by done. simpl. lia.
  - intros m _ Hm. rewrite decide_False by done. lia.
  - intros Hd. by destruct (vi_detached _ _ _ _ _ Hi n Hd).
Qed.

Lemma drop_files_counts h owned files : counts h owned -> (forall a, occ a files <= owned a) ->
  exists h', drop_files h files = Ret h' /\ counts h' (fun a => owned a - occ a files).
Proof.
  revert h owned. induction files as [|f files IH]; intros h owned Hc Hle; cbn [drop_files].
  { exists h. split; [done|]. eapply counts_proper; [|done]. intros a. change (occ a []) with 0. lia. }
  assert (0 < owned (f_addr f)) as Hp. { specialize (Hle (f_addr f)). pose proof (occ_elem f (f :: files) ltac:(by left)). lia. }
  unfold drop_file. destruct (counts_state h owned f Hc Hp) as (s & -> & Hr & _). cbn [obind]. rewrite Hr. destruct (Z.ltb_spec 0 (owned (f_addr f))); [|lia].
  cbn [oassert obind]. destruct (unref_file_counts h owned f Hc Hp) as (h1 & -> & Hc1).
  cbn [obind]. destruct (IH h1 _ Hc1) as (h2 & -> & Hc2).
  { intros a. specialize (Hle a). change (f :: files) with ([f] ++ files) in Hle. rewrite occ_app in Hle. lia. }
  exists h2. split; [done|]. eapply counts_proper; [|done]. intros a. change (f :: files) with ([f] ++ files). rewrite occ_app. simpl. lia.
Qed.

(** Deleting a version whose count is 0, once its links are taken out of the list. *)
Lemma delete_Version_spec vl l d rc ext n v v0 l' d' links' :
  versions_inv vl l d rc ext -> vl_versions vl !! n = Some v -> files_ v0 = files_ v -> v_refs v0 = 0 ->
  link_remove (vl_links vl) n = Ret links' -> linked links' dummy_versions_ l' ->
  (forall m, m ∈ l' <-> m ∈ l /\ m ≠ n) -> (forall m, d' = Some m <-> d = Some m /\ m ≠ n) ->
  (forall m, d' = Some m -> next_ links' !! m = Some m /\ prev_ links' !! m = Some m) ->
  exists vl', delete_Version (set_version vl n v0) n = Ret vl' /\ versions_inv vl' l' d' rc ext /\ vl_current vl' = vl_current vl /\
    forall m, m ≠ n -> vl_versions vl' !! m = vl_versions vl !! m.
Proof.
  intros [Hlk Hd Hb Hn Hr Hdt Hw He Hc] Hv Hf H0 Hrm Hlk' Hl' Hd' Hself. unfold delete_Version, version_at, set_version.
  cbn [vl_versions vl_links vl_heap vl_next vl_current]. rewrite lookup_insert_eq. cbn [obind]. rewrite H0, Hf. cbn [Z.eqb oassert obind].
  rewrite Hrm. cbn [obind]. destruct (drop_files_counts (vl_heap vl) _ (concat (files_ v)) Hc) as (h' & -> & Hc').
  { intros a. pose proof (own_le _ _ _ a Hv). specialize (He a). lia. }
  cbn [obind]. rewrite delete_insert_eq. eexists. split; [done|]. split; [|split; [done|intros m Hm; by apply lookup_delete_ne]].
  split; cbn [vl_links vl_versions vl_next vl_heap]; try done.
  - intros m. rewrite Hl', Hd'. destruct (decide (n = m)) as [<-|Hne].
    + rewrite lookup_delete_eq. split; [by intros [? [=]]|]. tauto.
    + rewrite lookup_delete_ne, Hd by done. intuition congruence.
  - intros m Hm. apply Hb. rewrite Hl', Hd' in Hm. tauto.
  - intros m w Hm Hw'. apply Hl' in Hm as [Hm Hne]. rewrite lookup_delete_ne in Hw' by congruence. by apply (Hr m).
  - intros m Hm. pose proof (Hself m Hm). apply Hd' in Hm as [Hm Hne]. destruct (Hdt m Hm) as (Hml & (w & Hw' & Hw0) & _).
    split; [rewrite Hl'; tauto|]. split; [exists w; by rewrite lookup_delete_ne by congruence|done].
  - intros m w Hw'. apply lookup_delete_Some in Hw' as [_ Hw']. by apply (Hw m).
  - eapply counts_proper; [|exact Hc']. intros x. simpl. rewrite (own_delete _ _ _ x Hv). lia.
Qed.

(** A version that never was in the list. *)
Lemma delete_detached vl l n rc ext :
  versions_inv vl l (Some n) rc ext ->
  exists vl', delete_Version vl n = Ret vl' /\ versions_inv vl' l None rc ext /\ vl_current vl' = vl_current vl /\
    forall m, m ≠ n -> vl_versions vl' !! m = vl_versions vl !! m.
Proof.
  intros Hi. destruct (vi_detached _ _ _ _ _ Hi n eq_refl) as (Hnl & (v & Hv & H0) & Hx & Hp).
  destruct (vi_bound _ _ _ _ _ Hi n (or_intror eq_refl)) as [Hpos _].
  assert (n ∉ dummy_versions_ :: l) as Hnd by (rewrite not_elem_of_cons; split; [unfold dummy_versions_; lia|done]).
  destruct (link_remove_self _ _ _ _ (vi_linked _ _ _ _ _ Hi) Hnd Hx Hp) as (m' & Hrm & Hlk').
  destruct (delete_Version_spec vl l (Some n) rc ext n v v l None m') as (vl' & E & H1 & H2 & H3); try done.
  { intros m. split; [|tauto]. intros Hm. split; [done|]. congruence. }
  { intros m. split; [done|]. intros [[= ->] ?]. done. }
  exists vl'. split; [|done]. rewrite <- E. f_equal. unfold set_version. rewrite insert_id by done. by destruct vl.
Qed.

(** A reference is dropped: the version stays while there are others. *)
Lemma version_Unref_keep vl l d rc ext n :
  versions_inv vl l d rc ext -> n ∈ l -> 1 < rc n ->
  exists vl', version_Unref vl n = Ret vl' /\ versions_inv vl' l d (fun m => rc m - if decide (m = n) then 1 else 0) ext /\
    vl_current vl' = vl_current vl /\ vl_heap vl' = vl_heap vl /\ (forall m, vfiles vl' m = vfiles vl m) /\
    forall m, m ≠ n -> vl_versions vl' !! m = vl_versions vl !! m.
Proof.
  intros Hi Hn H1. destruct (vi_version _ _ _ _ _ _ Hi Hn) as (v & Hv & Hrv & _). unfold version_Unref, version_at.
  rewrite bool_decide_eq_false_2 by (by eapply vi_not_dummy). cbn [negb oassert obind]. rewrite Hv. cbn [obind]. rewrite Hrv.
  destruct (Z.leb_spec 1 (rc n)); [|lia]. cbn [oassert obind]. destruct (Z.eqb_spec (rc n - 1) 0); [lia|]. eexists. split; [done|].
  split; [|split; [done|split; [done|split; [intros m; by eapply vfiles_set_version|intros m Hm; unfold set_version; cbn [vl_versions]; by rewrite lookup_insert_ne by congruence]]]].
  eapply (set_version_refs _ _ _ _ _ _ v); try done.
  - intros _. rewrite decide_True by done. simpl. lia.
  - intros m _ Hm. rewrite decide_False by done. lia.
  - intros Hd. by destruct (vi_detached _ _ _ _ _ Hi n Hd).
Qed.

(** The last reference is dropped: the version is deleted. *)
Lemma version_Unref_last vl l1 n l2 d rc ext :
  versions_inv vl (l1 ++ n :: l2) d rc ext -> rc n = 1 ->
  exists vl', version_Unref vl n = Ret vl' /\ versions_inv vl' (l1 ++ l2) d rc ext /\
    vl_current vl' = vl_current vl /\ forall m, m ≠ n -> vl_versions vl' !! m = vl_versions vl !! m.
Proof.
  intros Hi H1. assert (n ∈ l1 ++ n :: l2) as Hn by set_solver. destruct (vi_version _ _ _ _ _ _ Hi Hn) as (v & Hv & Hrv & _). unfold version_Unref, version_at.
  rewrite bool_decide_eq_false_2 by (by eapply vi_not_dummy). cbn [negb oassert obind]. rewrite Hv. cbn [obind]. rewrite Hrv, H1. cbn [Z.leb oassert obind Z.eqb Z.sub Z.add Z.opp Z.pos_sub Z.compare].
  pose proof (vi_linked _ _ _ _ _ Hi) as Hlk. destruct (link_remove_spec _ _ _ _ _ Hlk) as (m' & Hrm & Hlk').
  pose proof Hlk as [_ Hnd]. apply NoDup_cons in Hnd as [_ Hnd]. pose proof Hnd as (_ & Hdis & Hnd2)%NoDup_app. apply NoDup_cons in Hnd2 as [Hn2 _].
  assert (d ≠ Some n) as Hdn. { intros Hd. by destruct (vi_detached _ _ _ _ _ Hi n Hd). }
  eapply (delete_Version_spec vl (l1 ++ n :: l2) d rc ext n v _ (l1 ++ l2) d m'); try done.
  - intros m. rewrite !elem_of_app, elem_of_cons. split; [|intuition congruence].
    intros Hm. split; [tauto|]. intros ->. destruct Hm as [Hm|Hm]; [apply (Hdis n Hm); by left|done].
  - intros m. split; [|tauto]. intros Hm. split; [done|congruence].
  - intros m Hm. destruct (vi_detached _ _ _ _ _ Hi m Hm) as (Hml & _ & Hl1 & Hl2).
    destruct (link_remove_frame _ _ _ _ _ _ m Hlk Hrm) as [-> ->]; [|done]. rewrite not_elem_of_cons. split; [|done].
    destruct (vi_bound _ _ _ _ _ Hi m (or_intror Hm)). unfold dummy_versions_. lia.
Qed.

(** The references of the version set and of others: [held] are those of others, [c] is current. *)
Definition rc_of (held : nat -> Z) (c : nat) : nat -> Z := fun m => held m + if decide (m = c) then 1 else 0.

Lemma versions_rc vl l d rc rc' ext : (forall m, m ∈ l -> rc m = rc' m) -> versions_inv vl l d rc ext -> versions_inv vl l d rc' ext.
Proof. intros Heq [Hlk Hd Hb Hn Hr Hdt Hw He Hc]. split; try done. intros n v Hm Hv. rewrite <- Heq by done. by apply (Hr n). Qed.

Lemma link_version_spec vl l n (rc : nat -> Z) ext :
  versions_inv vl l (Some n) rc ext -> rc n = 1 ->
  exists vl', link_version vl n = Ret vl' /\ versions_inv vl' (l ++ [n]) None rc ext /\ vl_current vl' = Some n /\ forall m, vfiles vl' m = vfiles vl m.
Proof.
  intros Hi Hrc. pose proof Hi as [Hlk Hd Hb Hn Hr Hdt Hw He Hc]. destruct (Hdt n eq_refl) as (Hnl & (v & Hv & H0) & _). destruct (Hb n (or_intror eq_refl)) as [Hpos Hlt].
  assert (n ∉ dummy_versions_ :: l) as Hnd by (rewrite not_elem_of_cons; split; [unfold dummy_versions_; lia|done]).
  unfold link_version, version_Ref, version_at, set_current. cbn [vl_versions]. rewrite Hv. cbn [obind vl_links set_version vl_heap vl_versions vl_next vl_current].
  destruct (link_append_spec _ _ _ _ Hlk Hnd) as (m' & Hap & Hlk').
  unfold link_append in Hap. unfold get_prev, get_next, set_next, set_prev in *. cbn [next_ prev_] in *.
  destruct (prev_ (vl_links vl) !! dummy_versions_) as [p|]; [|done]. cbn [obind next_ prev_] in *. rewrite lookup_insert_eq in *. cbn [obind next_ prev_] in *.
  destruct (<[p := n]> (<[n := dummy_versions_]> (next_ (vl_links vl))) !! n) as [x|]; [|done]. cbn [obind] in *. injection Hap as <-.
  eexists. split; [done|]. split; [|split; [done|intros m; apply (vfiles_set_version vl n v (set_refs v (v_refs v + 1)) m Hv eq_refl)]].
  split; cbn [set_links set_version set_current vl_links vl_versions vl_next vl_heap]; try done.
  - intros m. rewrite elem_of_app, list_elem_of_singleton. destruct (decide (n = m)) as [<-|Hne].
    + rewrite lookup_insert_eq. split; [by left; right|done].
    + rewrite lookup_insert_ne, Hd by done. intuition congruence.
  - intros m Hm. rewrite elem_of_app, list_elem_of_singleton in Hm. destruct Hm as [[Hm| ->]|Hm]; [apply Hb; by left|apply Hb; by right|done].
  - intros m w Hm Hw'. destruct (decide (n = m)) as [<-|Hne].
    + rewrite lookup_insert_eq in Hw'. injection Hw' as <-. simpl. lia.
    + rewrite lookup_insert_ne in Hw' by done. apply elem_of_app in Hm as [Hm|Hm]; [by apply (Hr m)|]. apply list_elem_of_singleton in Hm. congruence.
  - intros m w Hw'. destruct (decide (n = m)) as [<-|Hne]; [rewrite lookup_insert_eq in Hw'; injection Hw' as <-; exact (Hw n v Hv)|].
    rewrite lookup_insert_ne in Hw' by done. by apply (Hw m).
  - eapply counts_proper; [|exact Hc]. intros y. rewrite (own_update _ _ v) by done. cbn [set_refs files_]. lia.
Qed.

Lemma AppendVersion_spec vl l n held c ext :
  versions_inv vl l (Some n) (rc_of held c) ext -> vl_current vl = Some c -> c ∈ l -> held n = 0 -> 0 <= held c ->
  exists vl', AppendVersion vl n = Ret vl' /\ versions_inv vl' (filter (fun m => 0 < held m) l ++ [n]) None (rc_of held n) ext /\
    vl_current vl' = Some n /\ forall m, m ∈ filter (fun m => 0 < held m) l ++ [n] -> vfiles vl' m = vfiles vl m.
Proof.
  intros Hi Hcur Hcl Hn0 Hc0. destruct (vi_detached _ _ _ _ _ Hi n eq_refl) as (Hnl & (v & Hv & H0) & _).
  unfold AppendVersion, version_at. rewrite Hv. cbn [obind]. rewrite H0, Hcur. cbn [Z.eqb oassert obind].
  rewrite bool_decide_eq_false_2 by congruence. cbn [negb oassert obind].
  assert (forall m, m ∈ l -> m ≠ c -> 0 < held m) as Hheld.
  { intros m Hm Hne. destruct (vi_version _ _ _ _ _ _ Hi Hm) as (w & _ & _ & H1). unfold rc_of in H1. rewrite decide_False in H1 by done. lia. }
  assert (exists vl1, version_Unref vl c = Ret vl1 /\ versions_inv vl1 (filter (fun m => 0 < held m) l) (Some n) (rc_of held n) ext /\
    forall m, m ∈ filter (fun m => 0 < held m) l ++ [n] -> vfiles vl1 m = vfiles vl m) as (vl1 & -> & Hi1 & Hf1).
  { destruct (decide (0 < held c)) as [Hp|Hp].
    - destruct (version_Unref_keep vl l (Some n) _ ext c Hi Hcl) as (vl1 & E & Hi1 & _ & _ & Hf1 & _); [unfold rc_of; rewrite decide_True by done; lia|].
      exists vl1. split; [done|]. rewrite filter_all; [|apply Forall_forall; intros m Hm; destruct (decide (m = c)) as [->|]; [done|by apply Hheld]].
      split; [|intros; apply Hf1]. eapply versions_rc; [|exact Hi1]. intros m Hm. unfold rc_of. simpl.
      assert (m ≠ n) by congruence. destruct (decide (m = c)), (decide (m = n)); lia || done.
    - apply list_elem_of_split in Hcl as (l1 & l2 & ->).
      destruct (version_Unref_last vl l1 c l2 (Some n) _ ext Hi) as (vl1 & E & Hi1 & _ & Hf1); [unfold rc_of; rewrite decide_True by done; lia|].
      pose proof (vi_linked _ _ _ _ _ Hi) as [_ Hnd]. apply NoDup_cons in Hnd as [_ Hnd]. apply NoDup_app in Hnd as (_ & Hdis & Hnd2). apply NoDup_cons in Hnd2 as [Hc2 _].
      assert (filter (fun m => 0 < held m) (l1 ++ c :: l2) = l1 ++ l2) as Hfl.
      { rewrite filter_app, filter_cons_False by done. f_equal; apply filter_all, Forall_forall; intros m Hm; apply Hheld; [set_solver| |set_solver|].
        - intros ->. apply (Hdis c Hm). by left.
        - congruence. }
      exists vl1. split; [done|]. rewrite Hfl. split.
      + eapply versions_rc; [|exact Hi1]. intros m Hm. unfold rc_of.
        assert (m ≠ c) by (intros ->; apply elem_of_app in Hm as [Hm|Hm]; [apply (Hdis c Hm); by left|done]).
        assert (m ≠ n) by (intros ->; apply Hnl; set_solver). by rewrite !decide_False.
      + intros m Hm. unfold vfiles. rewrite Hf1; [done|]. intros ->. rewrite elem_of_app, list_elem_of_singleton, elem_of_app in Hm.
        destruct Hm as [[Hm|Hm]| ->]; [apply (Hdis c Hm); by left|done|apply Hnl; set_solver]. }
  cbn [obind]. destruct (link_version_spec vl1 _ n _ ext Hi1) as (vl2 & -> & Hi2 & Hcur2 & Hf2); [unfold rc_of; rewrite decide_True by done; lia|].
  exists vl2. split; [done|]. split; [done|]. split; [done|]. intros m Hm. rewrite Hf2. by apply Hf1.
Qed.

(** A detached version gets its files, which the heap already counts. *)
Lemma set_files_spec vl l n rc ext h files :
  versions_inv vl l (Some n) rc ext -> vl_versions vl !! n = Some empty_version -> levels_wf files ->
  counts h (fun x => own (vl_versions vl) x + ext x + occ x (concat files)) ->
  versions_inv (set_version (set_heap vl h) n (set_files empty_version files)) l (Some n) rc ext.
Proof.
  intros [Hlk Hd Hb Hn Hr Hdt Hw He Hc] Hv Hf Hc'. destruct (Hdt n eq_refl) as (Hnl & _ & Hself). split; cbn [set_version set_heap vl_links vl_versions vl_next vl_heap]; try done.
  - intros m. rewrite <- Hd. destruct (decide (n = m)) as [<-|Hne]; [rewrite lookup_insert_eq, Hv|by rewrite lookup_insert_ne by done].
    split; intros _; by eexists.
  - intros m w Hm Hw'. rewrite lookup_insert_ne in Hw' by congruence. by apply (Hr m).
  - intros m [= <-]. split; [done|]. split; [|done]. eexists. rewrite lookup_insert_eq. by split.
  - intros m w Hw'. destruct (decide (n = m)) as [<-|Hne]; [rewrite lookup_insert_eq in Hw'; by injection Hw' as <-|].
    rewrite lookup_insert_ne in Hw' by done. by apply (Hw m).
  - eapply counts_proper; [|exact Hc']. intros x. rewrite (own_update _ _ empty_version) by done.
    change (occ x (concat (files_ empty_version))) with 0. cbn [set_files files_]. lia.
Qed.
End List.

(** ** What Finalize computes *)

Lemma SFltb_trans x y z : SFltb x y = true -> SFltb y z = true -> SFltb x z = true.
Proof.
  unfold SFltb, SFcompare. destruct x as [[]|[]| |[] m1 e1], y as [[]|[]| |[] m2 e2], z as [[]|[]| |[] m3 e3]; try done;
    repeat match goal with
    | |- context [Z.compare ?a ?b] => destruct (Z.compare_spec a b); subst; try done; try lia
    | |- context [Pos.compare_cont Eq ?a ?b] => change (Pos.compare_cont Eq a b) with (Pos.compare a b); destruct (Pos.compare_spec a b); subst; simpl; try done; try lia
    end.
Qed.

Lemma SFltb_irrefl x : SFltb x x = false.
Proof. unfold SFltb, SFcompare. destruct x as [[]|[]| |[] m e]; try done; by rewrite Z.compare_refl, Pos.compare_cont_refl. Qed.

(** The score of a level of a version. *)
Definition score_at (files : list (list FilePtr)) (level : Z) : spec_float :=
  level_score level (default [] (files !! Z.to_nat level)).

(** The best of the levels before [level], as the loop knows it. *)
Definition best_so_far (files : list (list FilePtr)) (level best_level : Z) (best_score : spec_float) : Prop :=
  (forall i, 0 <= i < level -> SFltb best_score (score_at files i) = false) /\ -1 <= best_level < level /\
  if best_level =? -1 then best_score = double (-1) else best_score = score_at files best_level.

Lemma best_loop_spec n files level best_level best_score :
  0 <= level -> (Z.to_nat level + n <= length files)%nat -> best_so_far files level best_level best_score ->
  exists bl bs, best_loop n files level best_level best_score = Ret (bl, bs) /\ best_so_far files (level + Z.of_nat n) bl bs.
Proof.
  revert level best_level best_score. induction n as [|n IH]; intros level bl bs Hl Hlen Hb; cbn [best_loop].
  { exists bl, bs. split; [done|]. by rewrite Z.add_0_r. }
  destruct (lookup_lt_is_Some_2 files (Z.to_nat level)) as [fs Hfs]; [lia|].
  assert (score_at files level = level_score level fs) as Hs by (unfold score_at; by rewrite Hfs).
  apply vec_at_lookup in Hfs. rewrite Z2Nat.id in Hfs by lia. rewrite Hfs. cbn [obind]. rewrite <- Hs.
  destruct Hb as (Hall & Hr & Hb). replace (level + Z.of_nat (S n)) with (level + 1 + Z.of_nat n) by lia.
  destruct (SFltb bs (score_at files level)) eqn:El; apply IH; try lia.
  - split; [|split; [lia|]]; [|by destruct (Z.eqb_spec level (-1)); [lia|]]. intros i Hi. destruct (decide (i = level)) as [->|Hne].
    + apply SFltb_irrefl.
    + apply not_true_is_false. intros Hlt. specialize (Hall i ltac:(lia)). by rewrite (SFltb_trans _ _ _ El Hlt) in Hall.
  - split; [|split; [lia|done]]. intros i Hi. destruct (decide (i = level)) as [->|Hne]; [done|]. apply Hall. lia.
Qed.

(** The result of [Finalize] for files in seven levels. *)
Lemma Finalize_spec v :
  length (files_ v) = Z.to_nat config.kNumLevels ->
  exists bl bs, Finalize v = Ret (mkVersion (v_refs v) (files_ v) (file_to_compact_ v) (file_to_compact_level_ v) bs bl) /\
    best_so_far (files_ v) (config.kNumLevels - 1) bl bs.
Proof.
  intros Hlen. unfold Finalize. destruct (best_loop_spec (Z.to_nat (config.kNumLevels - 1)) (files_ v) 0 (-1) (double (-1))) as (bl & bs & -> & Hb).
  { lia. } { rewrite Hlen. unfold config.kNumLevels. lia. } { split; [lia|]. split; [lia|]. done. }
  exists bl, bs. done.
Qed.

(** A level without files has the score 0. *)
Lemma score_empty level : 0 <= level < 7 -> level_score level [] = S754_zero false.
Proof. intros Hl. assert (level ∈ [0; 1; 2; 3; 4; 5; 6]) as Hin by (rewrite !elem_of_cons; lia). repeat (apply elem_of_cons in Hin as [->|Hin]; [by vm_compute|]). by apply not_elem_of_nil in Hin. Qed.
