(* ===== verification/Manifest.v ===== *)
(** * Logging and recovering versions

    Correctness of [VersionSet::LogAndApply] and [VersionSet::Recover] ([version_set.c]): the
    manifest that [CURRENT] names always leads to the version that was acknowledged last, or,
    after a failure, possibly to the one whose logging failed. *)

From stdpp Require Import gmap sorting.
From Stdlib Require Import SpecFloat.
From S2P Require Import Prelude Coding Env Crc32c LogWriter LogReader LogCorrect Comparator DbFormat VersionEdit SkipList MemTable Iterator Version VersionBuilder Filename FileSystem LogSim DList VersionSet.

Open Scope outcome_scope.

(** ** Writing a log through the file system *)

Section Frame.
Context `{Crc32c} {F : Type} `{WritableFile F}.

(** What every [Append] and [Flush] keeps, a record keeps. *)
Variable P : F -> Prop.
Hypothesis append_keeps : forall f d f' s, P f -> Append f d = (f', s) -> P f'.
Hypothesis flush_keeps : forall f f' s, P f -> Flush f = (f', s) -> P f'.

Lemma AddRecord_frame w slice w' s : P (dest_ w) -> AddRecord w slice = Ret (w', s) -> P (dest_ w').
Proof.
  unfold AddRecord. generalize (S (S (length slice))) true. intros fuel begin. revert w slice begin. induction fuel as [|fuel IH]; intros w slice begin Hp; [done|].
  cbn [AddRecord_loop]. destruct (switch_block w) as [w1| |] eqn:E1; [|done..]. cbn [obind].
  assert (P (dest_ w1)) as Hp1.
  { unfold switch_block in E1. destruct (0 <=? _); [|done]. cbn [oassert obind] in E1. destruct (_ <? kHeaderSize); [|by injection E1 as <-].
    injection E1 as <-. cbn [dest_]. destruct (0 <? _); [|done]. destruct (Append (dest_ w) _) as [f x] eqn:Ea. by eapply append_keeps. }
  destruct (0 <=? _); [|done]. cbn [oassert obind]. set (len := if _ <? _ then _ else _).
  destruct (EmitPhysicalRecord w1 _ (ztake len slice)) as [[w2 s2]| |] eqn:E2; [|done..]. cbn [obind].
  assert (P (dest_ w2)) as Hp2.
  { unfold EmitPhysicalRecord in E2. destruct (_ <=? 65535); [|done]. cbn [oassert obind] in E2. destruct (_ <=? kBlockSize); [|done]. cbn [oassert obind] in E2.
    destruct (Append (dest_ w1) _) as [f1 s1] eqn:Ea. pose proof (append_keeps _ _ _ _ Hp1 Ea) as Hf1.
    destruct (ok s1); [|by injection E2 as <- <-]. destruct (Append f1 _) as [f3 s3] eqn:Eb. pose proof (append_keeps _ _ _ _ Hf1 Eb) as Hf3.
    destruct (ok s3); [|by injection E2 as <- <-]. destruct (Flush f3) as [f4 s4] eqn:Ec. pose proof (flush_keeps _ _ _ Hf3 Ec). by injection E2 as <- <-. }
  destruct (ok s2 && _); [by apply IH|by intros [= <- <-]].
Qed.
End Frame.

Section Log.
Context {E H : Type} `{env_laws : EnvLaws E H} `{Crc32c}.
Abbreviation keep := (keeps env_ok fs writes reads).

Definition log_ok (w : Writer H) : Prop := 0 <= block_offset_ w <= kBlockSize /\ type_crc_ w = InitTypeCrc.

(** A record added to the log file [n]. *)
Lemma log_AddRecord_spec e w n record :
  env_ok e -> writes e (dest_ w) n -> log_ok w ->
  exists e' w' s, log_AddRecord e w record = Ret (e', w', s) /\ keep e e' n /\ writes e' (dest_ w) n /\ dest_ w' = dest_ w /\ log_ok w' /\
    (exists p, p `prefix_of` record_layout (block_offset_ w) record /\ hbytes e' (dest_ w) = hbytes e (dest_ w) ++ p /\
       (s = OK -> p = record_layout (block_offset_ w) record)) /\
    (s = OK -> block_offset_ w' = end_offset (block_offset_ w) (record_plan (block_offset_ w) record)).
Proof.
  intros He Hw Hlog. unfold log_AddRecord. set (w0 := mkWriter (mkOpen e (dest_ w)) (block_offset_ w) (type_crc_ w)).
  destruct (AddRecord_wrote w0 record Hlog) as (w1 & s & E1 & Hok & Hbo & Hwr).
  pose (P := fun f : OpenFile E H => of_handle f = dest_ w /\ keep e (of_env f) n /\ writes (of_env f) (dest_ w) n).
  assert (P (dest_ w1)) as (Hh & K & Hw1).
  { eapply (AddRecord_frame P); [| | |exact E1].
    - intros [e1 h1] d f' s' (Hh & K & Hw1) Ea. cbn [of_handle of_env] in *. subst h1. simpl in Ea. destruct (file_Append e1 (dest_ w) d) as [e2 s2] eqn:E2.
      injection Ea as <- _. destruct (append_frame _ _ _ _ _ _ (keeps_ok _ _ _ K) Hw1 E2) as [K2 Hw2].
      split; [done|]. split; [exact (keeps_trans _ _ _ _ K K2)|done].
    - intros [e1 h1] f' s' (Hh & K & Hw1) Ea. cbn [of_handle of_env] in *. subst h1. simpl in Ea. destruct (file_Flush e1 (dest_ w)) as [e2 s2] eqn:E2.
      injection Ea as <- _. destruct (flush_frame _ _ _ _ _ (keeps_ok _ _ _ K) Hw1 E2) as [K2 Hw2].
      split; [done|]. split; [exact (keeps_trans _ _ _ _ K K2)|done].
    - split; [done|]. split; [by apply keeps_refl|done]. }
  rewrite E1. cbn [obind]. eexists _, _, s. split; [done|]. split; [done|]. split; [done|]. split; [done|]. split; [exact Hok|]. split; [|exact Hbo].
  unfold wrote in Hwr. simpl in Hwr. rewrite Hh in Hwr. destruct Hwr as [(-> & _ & _ & Hc)|(Hs & _ & p & Hp & Hc & _)].
  - exists (record_layout (block_offset_ w) record). done.
  - exists p. by split.
Qed.

(** ** Reading a log through the file system *)

(** The records of an image, read without a corruption report. *)
Definition log_reads (img : bytes) (records : list bytes) : Prop :=
  forall fuel, zlen img < Z.of_nat fuel -> exists r, read_all fuel (new_Reader img true true 0) = Ret (r, records) /\ reports_ r = [].

(** A whole log, and a log whose last record was not finished. *)
Lemma log_reads_whole records : log_reads (log_layout 0 records) records.
Proof.
  intros fuel Hf. destruct (read_prefix fuel (log_layout 0 records) true true records) as (r & n & Hr & Hrep & Hn & Hmax); [done|done|].
  exists r. split; [|done]. rewrite Hr. do 2 f_equal. apply take_ge. apply (Hmax (length records)); [done|]. by rewrite take_ge.
Qed.

Lemma log_reads_torn records d x p :
  log_layout 0 (records ++ [d]) = log_layout 0 records ++ x -> p `prefix_of` x ->
  log_reads (log_layout 0 records ++ p) records \/ log_reads (log_layout 0 records ++ p) (records ++ [d]).
Proof.
  intros Hl Hp.
  assert (log_layout 0 records ++ p `prefix_of` log_layout 0 (records ++ [d])) as Hpre by (rewrite Hl; by apply prefix_app).
  assert (forall m, (m <= length records)%nat -> log_layout 0 (take m (records ++ [d])) `prefix_of` log_layout 0 records ++ p) as Hold.
  { intros m Hm. rewrite take_app_le by done. rewrite <- (take_drop m records) at 2. rewrite log_layout_app, <- app_assoc. by apply prefix_app_r. }
  assert (forall fuel, zlen (log_layout 0 records ++ p) < Z.of_nat fuel -> exists r n, read_all fuel (new_Reader (log_layout 0 records ++ p) true true 0) = Ret (r, take n (records ++ [d])) /\
    reports_ r = [] /\ (n = if decide (log_layout 0 (records ++ [d]) `prefix_of` log_layout 0 records ++ p) then S (length records) else length records)) as Hall.
  { intros fuel Hf. destruct (read_prefix fuel (log_layout 0 records ++ p) true true (records ++ [d])) as (r & n & Hr & Hrep & Hn & Hmax); [done|done|].
    exists r, n. split; [done|]. split; [done|]. rewrite length_app in Hn, Hmax. cbn [length] in Hn, Hmax.
    assert (length records <= n)%nat by (apply Hmax; [lia|by apply Hold]). destruct (decide _) as [Hd|Hd].
    - assert (length records + 1 <= n)%nat; [|lia]. apply Hmax; [lia|]. rewrite take_ge; [done|]. rewrite length_app. simpl. lia.
    - destruct (decide (n = length records)); [done|]. exfalso. apply Hd. assert (n = length records + 1)%nat as -> by lia.
      specialize (Hmax (length records + 1)%nat ltac:(lia)). rewrite take_ge in Hmax by (rewrite length_app; simpl; lia). by apply Hmax. }
  destruct (decide (log_layout 0 (records ++ [d]) `prefix_of` log_layout 0 records ++ p)); [right|left]; intros fuel Hf;
    destruct (Hall fuel Hf) as (r & k & Hr & Hrep & ->); exists r; (split; [|done]); rewrite Hr; do 2 f_equal.
  - apply take_ge. rewrite length_app. simpl. lia.
  - rewrite take_app_le by done. by apply take_ge.
Qed.

(** An open file with [g] to be read, while only the file [n] is read since [e]. *)
Definition open_at (e : E) (n : bytes) (f : OpenFile E H) (g : bytes) : Prop :=
  reads (of_env f) (of_handle f) n g /\ keep e (of_env f) n /\ fs (of_env f) n = fs e n.

Lemma open_at_read e n (f : OpenFile E H) g k f' s d : 0 <= k -> open_at e n f g -> Read f k = (f', s, d) -> exists g', Read g k = (g', s, d) /\ open_at e n f' g'.
Proof.
  destruct f as [e1 h1]. intros Hk (Hr1 & K1 & Hf1) Hrd. cbn [of_env of_handle] in *. destruct (read_good e1 h1 n g k (keeps_ok _ _ _ K1) Hr1 Hk) as (e2 & h2 & E2 & Hr2 & K2 & Hf2).
  simpl in Hrd. rewrite E2 in Hrd. injection Hrd as <- <- <-. eexists. split; [done|]. split; [done|]. split; [exact (keeps_trans _ _ _ _ K1 K2)|]. simpl. congruence.
Qed.

Lemma open_at_skip e n (f : OpenFile E H) g k f' s : 0 <= k -> open_at e n f g -> Skip f k = (f', s) -> exists g', Skip g k = (g', s) /\ open_at e n f' g'.
Proof.
  destruct f as [e1 h1]. intros Hk (Hr1 & K1 & Hf1) Hrd. cbn [of_env of_handle] in *. destruct (skip_good e1 h1 n g k (keeps_ok _ _ _ K1) Hr1 Hk) as (e2 & h2 & E2 & Hr2 & K2 & Hf2).
  simpl in Hrd. rewrite E2 in Hrd. injection Hrd as <- <-. eexists. split; [done|]. split; [done|]. split; [exact (keeps_trans _ _ _ _ K1 K2)|]. simpl. congruence.
Qed.

(** The same records come out of the open file. *)
Lemma read_open e h n img records fuel :
  env_ok e -> reads e h n img -> log_reads img records -> zlen img < Z.of_nat fuel ->
  exists r c, read_all fuel (new_Reader (mkOpen e h) true true 0) = Ret (r, records) /\ reports_ r = [] /\
    reads (of_env (file_ r)) (of_handle (file_ r)) n c /\ keep e (of_env (file_ r)) n /\ fs (of_env (file_ r)) n = fs e n.
Proof.
  intros He Hr Hlog Hf. destruct (Hlog fuel Hf) as (q & Hq & Hrep).
  assert (sim (open_at e n) (new_Reader (mkOpen e h) true true 0) (new_Reader img true true 0)) as Hs0 by (repeat split; simpl; done).
  eapply (read_all_sim (open_at e n)) in Hs0; [rewrite Hq in Hs0|apply open_at_read|apply open_at_skip].
  destruct (read_all fuel (new_Reader (mkOpen e h) true true 0)) as [[r l]| |]; [|done..]. destruct Hs0 as [Hs Hl]. simpl in Hs, Hl.
  destruct Hs as ((Hr1 & K1 & Hf1) & _ & Hrp & _). exists r, (file_ q). subst l. split; [done|]. split; [congruence|]. done.
Qed.
End Log.

(** ** The loop over the manifest *)

Section Recovery.
Context {E H : Type} `{env_laws : EnvLaws E H} `{Crc32c} `{laws : ComparatorLaws}.
Abbreviation keep := (keeps env_ok fs writes reads).

Definition comparator_fits (cmp : bytes) (e : VersionEdit) : Prop := has_comparator_ e = true -> comparator_ e = cmp.

Lemma check_comparator_ok (vs : VersionSet H) e : comparator_fits (vs_comparator vs) e -> check_comparator vs e = OK.
Proof.
  intros Hc. unfold check_comparator. destruct (has_comparator_ e) eqn:Eh; [|done]. by rewrite bool_decide_eq_true_2 by (by apply Hc).
Qed.

Lemma DecodeEdit_edit_bytes e : edit_ok e -> DecodeEdit new_VersionEdit (edit_bytes e) = Ret (e, OK).
Proof.
  intros He. assert (EncodeTo e [] = Ret (edit_bytes e)) as E' by (by apply EncodeTo_bytes).
  rewrite (DecodeEdit_EncodeTo e _ _ He E'). by destruct e.
Qed.

(** Replacing the heap and the pointers, which is all the loop changes. *)
Definition with_heap (vs : VersionSet H) (h : FileHeap) (pointers : list bytes) : VersionSet H :=
  set_pointer_array (set_versions vs (set_heap (vs_versions vs) h)) pointers.

Lemma recover_loop_spec fuel (reader reader' : Reader (OpenFile E H)) edits (vs : VersionSet H) b r h' ps' b' :
  read_all fuel reader = Ret (reader', edit_bytes <$> edits) -> reports_ reader' = reports_ reader ->
  Forall edit_ok edits -> Forall (comparator_fits (vs_comparator vs)) edits ->
  apply_all (vl_heap (vs_versions vs)) (compact_pointer_ vs) b edits = Ret (h', ps', b') ->
  recover_loop fuel reader vs b r OK = Ret (reader', with_heap vs h' ps', b', foldl note_numbers r edits, OK).
Proof.
  revert fuel reader vs b r. induction edits as [|e edits IH]; intros fuel reader vs b r Hr Hrep Hok Hcmp Hap.
  - injection Hap as <- <- <-. destruct fuel as [|fuel]; [done|]. cbn [read_all recover_loop fmap list_fmap] in *.
    destruct (ReadRecord (S fuel) reader) as [[r1 d]| |]; [|done..]. cbn [obind] in *. destruct d as [d|].
    { destruct (read_all fuel r1) as [[r2 l2]| |]; [|done..]. done. }
    injection Hr as ->. rewrite Hrep, drop_all. cbn [reported foldl]. do 5 f_equal. by destruct vs as [? ? ? ? ? ? ? ? ? ? [] ?].
  - destruct fuel as [|fuel]; [done|]. apply Forall_cons in Hok as [He Hok], Hcmp as [Hc Hcmp]. cbn [read_all recover_loop] in *.
    destruct (ReadRecord (S fuel) reader) as [[r1 d]| |] eqn:Erd; [|done..]. cbn [obind] in *. destruct d as [d|]; [|done].
    destruct (read_all fuel r1) as [[r2 l2]| |] eqn:Eall; [|done..]. cbn [obind] in Hr. rewrite fmap_cons in Hr. injection Hr as -> -> ->.
    assert (reports_ r1 = reports_ reader) as Hr1.
    { apply record_reports in Erd as [k1 Hk1]. apply read_all_reports in Eall as [k2 Hk2]. rewrite Hk1, Hrep in Hk2. rewrite Hk1.
      rewrite <- app_assoc in Hk2. rewrite <- (app_nil_r (reports_ reader)) in Hk2 at 1. apply app_inv_head in Hk2. destruct k1; [by rewrite app_nil_r|done]. }
    rewrite Hr1, drop_all. cbn [reported foldl ok]. rewrite DecodeEdit_edit_bytes by done. cbn [obind ok]. rewrite check_comparator_ok by done. cbn [ok].
    cbn [apply_all] in Hap. destruct (Apply _ _ b e) as [[[h1 ps1] b1]| |] eqn:Eap; [|done..]. cbn [obind] in *.
    rewrite (IH fuel r1 _ b1 (note_numbers r e)); [done|done|congruence|done|done|done].
Qed.

(** ** What a manifest says *)

Definition no_numbers : Recovered := mkRecovered None None None None.

(** A list of edits that a version set can recover: the version it leads to and the numbers.
    [used] are the pairs of level and number under which files were ever added. *)
Record history (cmp : bytes) (edits : list VersionEdit) (used : list (Z * Z)) (a : AbsVersion) : Prop := mkHistory {
  hi_ok : Forall edit_ok edits;
  hi_wf : Forall edit_wf edits;
  hi_cmp : Forall (comparator_fits cmp) edits;
  hi_fresh : NoDup (concat (edit_pairs <$> edits));
  hi_used : concat (edit_pairs <$> edits) ⊆ used;
  hi_abs : foldl abs_apply abs_empty edits = a;
  hi_disjoint : levels_disjoint a;
}.

(** The numbers at the end of a manifest. *)
Definition numbers_are (edits : list VersionEdit) (log prev next last : Z) : Prop :=
  exists p, foldl note_numbers no_numbers edits = mkRecovered (Some log) p (Some next) (Some last) /\ default 0 p = prev /\
    num_ok log /\ num_ok prev /\ num_ok last /\ 0 < next < 2 ^ 64 - 1 /\ log < next /\ prev < next.

Definition manifest_name (dbname : bytes) (num : Z) : bytes := dbname ++ str "/" ++ str "MANIFEST-" ++ decimal06 num.

(** On the disk, [CURRENT] names the manifest [num], and its records are these edits. *)
Definition on_disk (e : E) (dbname : bytes) (num : Z) (edits : list VersionEdit) : Prop :=
  fs e (CurrentFileName dbname) = Some (current_line num) /\
  exists img, fs e (manifest_name dbname num) = Some img /\ log_reads img (edit_bytes <$> edits).
End Recovery.

(** ** The files of an abstract version *)

Section Abstract.
Context `{laws : ComparatorLaws}.

Definition abs_at (a : AbsVersion) (i : nat) (n : Z) : option FileInfo := a !! i ≫= fun m => m !! n.

Lemma abs_eq (a b : AbsVersion) : length a = length b -> (forall i n, abs_at a i n = abs_at b i n) -> a = b.
Proof.
  intros Hlen Heq. apply list_eq_same_length with (length a); [done|done|]. intros i m m' _ Hm Hm'. apply map_eq. intros n.
  specialize (Heq i n). unfold abs_at in Heq. rewrite Hm, Hm' in Heq. exact Heq.
Qed.

Lemma abs_at_alter (g : gmap Z FileInfo -> gmap Z FileInfo) a j i n :
  abs_at (alter g j a) i n = if decide (i = j) then a !! i ≫= (fun m => g m !! n) else abs_at a i n.
Proof.
  unfold abs_at. destruct (decide (i = j)) as [->|Hne]; [rewrite list_lookup_alter_eq; by destruct (a !! j)|by rewrite list_lookup_alter_ne by done].
Qed.

Lemma abs_at_add a p i n x : abs_at (abs_add a p) i n = Some x ->
  (i = Z.to_nat p.1 /\ n = number p.2 /\ x = meta_info p.2) \/ (~ (i = Z.to_nat p.1 /\ n = number p.2) /\ abs_at a i n = Some x).
Proof.
  unfold abs_add. rewrite abs_at_alter. destruct (decide (i = Z.to_nat p.1)) as [->|Hne]; [|right; split; [tauto|done]]. unfold abs_at.
  destruct (a !! Z.to_nat p.1) as [m|]; [|done]. simpl. destruct (decide (number p.2 = n)) as [<-|Hn].
  - rewrite lookup_insert_eq. intros [= <-]. by left.
  - rewrite lookup_insert_ne by done. right. split; [intros [_ ->]; done|done].
Qed.

Lemma abs_at_delete a d i n x : abs_at (abs_delete a d) i n = Some x -> abs_at a i n = Some x.
Proof.
  unfold abs_delete. rewrite abs_at_alter. destruct (decide (i = Z.to_nat d.1)) as [->|Hne]; [|done]. unfold abs_at. destruct (a !! Z.to_nat d.1) as [m|]; [|done].
  simpl. intros Hx. by apply lookup_delete_Some in Hx as [_ Hx].
Qed.

Lemma abs_length a e : length (abs_apply a e) = length a.
Proof.
  unfold abs_apply. assert (forall l (b : AbsVersion), length (foldl abs_add b l) = length b) as Ha.
  { induction l as [|p l IH]; intros b; [done|]. cbn [foldl]. rewrite IH. unfold abs_add. by rewrite length_alter. }
  rewrite Ha. generalize (deleted_files_ e) as l. intros l. revert a. induction l as [|d l IH]; intros a; [done|]. cbn [foldl]. rewrite IH. unfold abs_delete. by rewrite length_alter.
Qed.

(** Where a file of a version comes from. *)
Lemma abs_at_adds a l i n x : abs_at (foldl abs_add a l) i n = Some x ->
  abs_at a i n = Some x \/ exists p, p ∈ l /\ i = Z.to_nat p.1 /\ n = number p.2 /\ x = meta_info p.2.
Proof.
  revert a. induction l as [|p l IH]; intros a; [by left|]. cbn [foldl]. intros [Hx|(q & Hq & Hx)]%IH; [|right; exists q; split; [by right|done]].
  apply abs_at_add in Hx as [Hx|[_ Hx]]; [right; exists p; split; [by left|done]|by left].
Qed.

Lemma abs_at_apply a e i n x : abs_at (abs_apply a e) i n = Some x ->
  abs_at a i n = Some x \/ exists p, p ∈ new_files_ e /\ i = Z.to_nat p.1 /\ n = number p.2 /\ x = meta_info p.2.
Proof.
  unfold abs_apply. intros [Hx|Hx]%abs_at_adds; [left|by right]. revert a Hx. induction (deleted_files_ e) as [|d l IH]; intros a Hx; [done|].
  cbn [foldl] in Hx. apply IH in Hx. by eapply abs_at_delete.
Qed.

(** A file with its sizes and keys in range, and the pair it was added under. *)
Definition file_info_ok (used : list (Z * Z)) (i : nat) (n : Z) (x : FileInfo) : Prop :=
  (Z.of_nat i, n) ∈ used /\ num_ok n /\ num_ok x.1.1 /\ key_ok x.1.2 /\ key_ok x.2.

Definition abs_ok (used : list (Z * Z)) (a : AbsVersion) : Prop := forall i n x, abs_at a i n = Some x -> file_info_ok used i n x.

Lemma abs_empty_ok used : abs_ok used abs_empty.
Proof.
  intros i n x. unfold abs_at. destruct (abs_empty !! i) as [m|] eqn:Hm; [|done]. unfold abs_empty in Hm. apply lookup_replicate in Hm as [-> _]. done.
Qed.

Lemma abs_apply_ok used a e : edit_ok e -> edit_pairs e ⊆ used -> abs_ok used a -> abs_ok used (abs_apply a e).
Proof.
  intros He Hp Ha i n x [Hx|(p & Hpin & -> & -> & ->)]%abs_at_apply; [by apply Ha|]. pose proof (ok_files _ He) as Hf. rewrite Forall_forall in Hf.
  destruct (Hf p Hpin) as [Hl (_ & Hn & Hs & H1 & H2)]. split; [|done]. unfold level_ok in Hl. rewrite Z2Nat.id by lia. apply Hp.
  by apply (list_elem_of_fmap_2 file_pair _ p).
Qed.

Lemma abs_ok_mono used used' a : used ⊆ used' -> abs_ok used a -> abs_ok used' a.
Proof. intros Hs Ha i n x Hx. destruct (Ha i n x Hx) as [H1 H2]. split; [by apply Hs|done]. Qed.

Lemma history_abs_ok cmp edits used a : history cmp edits used a -> abs_ok used a.
Proof.
  intros [Hok _ _ _ Hu <- _]. revert Hu. assert (abs_ok used abs_empty) as H0 by apply abs_empty_ok. revert H0. generalize abs_empty. induction Hok as [|e edits He _ IH]; intros b Hb Hu; [done|].
  cbn [foldl]. apply IH; [|set_solver]. apply abs_apply_ok; [done|set_solver|done].
Qed.

(** All files added under different pairs are there. *)
Lemma abs_at_adds_in a l p : NoDup (file_pair <$> l) -> Forall (fun p => level_ok p.1) l -> length a = Z.to_nat config.kNumLevels -> p ∈ l ->
  abs_at (foldl abs_add a l) (Z.to_nat p.1) (number p.2) = Some (meta_info p.2).
Proof.
  revert a. induction l as [|q l IH]; intros a Hnd Hl Hlen Hp; [by apply not_elem_of_nil in Hp|]. rewrite fmap_cons in Hnd. apply NoDup_cons in Hnd as [Hq Hnd].
  apply Forall_cons in Hl as [Hql Hl]. cbn [foldl]. assert (length (abs_add a q) = Z.to_nat config.kNumLevels) as Hlen' by (unfold abs_add; by rewrite length_alter).
  destruct (decide (p ∈ l)) as [Hpl|Hpl]; [by apply IH|]. apply elem_of_cons in Hp as [->|]; [|done].
  assert (forall l' b, (forall r, r ∈ l' -> file_pair r ≠ file_pair q) -> Forall (fun p => level_ok p.1) l' -> abs_at b (Z.to_nat q.1) (number q.2) = Some (meta_info q.2) ->
    abs_at (foldl abs_add b l') (Z.to_nat q.1) (number q.2) = Some (meta_info q.2)) as Hkeep.
  { induction l' as [|r l' IH']; intros b Hne Hlev Hb; [done|]. cbn [foldl]. apply Forall_cons in Hlev as [Hr Hlev]. apply IH'; [intros; apply Hne; by right|done|].
    unfold abs_add. rewrite abs_at_alter. destruct (decide _) as [He|He]; [|done]. unfold abs_at in Hb. rewrite He in Hb |- *. destruct (b !! Z.to_nat r.1) as [m|]; [|done].
    simpl in *. rewrite lookup_insert_ne; [done|]. intros Hn. apply (Hne r); [by left|]. unfold file_pair. f_equal; [|done]. unfold level_ok in *. lia. }
  apply Hkeep; [|done|].
  - intros r Hr Heq. apply Hq. rewrite <- Heq. by apply list_elem_of_fmap_2.
  - unfold abs_add. rewrite abs_at_alter, decide_True by done. unfold level_ok in Hql. destruct (lookup_lt_is_Some_2 a (Z.to_nat q.1)) as [m ->]; [lia|]. simpl. apply lookup_insert_eq.
Qed.

(** ** The snapshot of a version *)

Definition file_meta (f : FilePtr) : FileMetaData := new_FileMetaData (f_number f) (f_file_size f) (f_smallest f) (f_largest f).

Fixpoint snapshot_list (level : Z) (levels : list (list FilePtr)) : list (Z * FileMetaData) :=
  match levels with
  | [] => []
  | fs :: levels => ((fun f => (level, file_meta f)) <$> fs) ++ snapshot_list (level + 1) levels
  end.

Fixpoint pointer_list (level : Z) (pointers : list bytes) : list (Z * InternalKey) :=
  match pointers with
  | [] => []
  | p :: pointers => (if zlen p =? 0 then [] else [(level, DecodeFrom p)]) ++ pointer_list (level + 1) pointers
  end.

Lemma snapshot_files_list level files e :
  snapshot_files level files e = set_containers (compact_pointers_ e) (deleted_files_ e) (new_files_ e ++ ((fun f => (level, file_meta f)) <$> files)) e.
Proof.
  revert e. induction files as [|f files IH]; intros e; cbn [snapshot_files]; [by rewrite app_nil_r; destruct e|].
  rewrite IH. unfold AddFile, push_file. cbn. rewrite <- app_assoc. done.
Qed.

Lemma snapshot_levels_list level levels e :
  snapshot_levels level levels e = set_containers (compact_pointers_ e) (deleted_files_ e) (new_files_ e ++ snapshot_list level levels) e.
Proof.
  revert level e. induction levels as [|fs levels IH]; intros level e; cbn [snapshot_levels snapshot_list]; [by rewrite app_nil_r; destruct e|].
  rewrite IH, snapshot_files_list. cbn. by rewrite app_assoc.
Qed.

Lemma snapshot_pointers_list level pointers e :
  snapshot_pointers level pointers e = set_containers (compact_pointers_ e ++ pointer_list level pointers) (deleted_files_ e) (new_files_ e) e.
Proof.
  revert level e. induction pointers as [|p pointers IH]; intros level e; cbn [snapshot_pointers pointer_list]; [by rewrite app_nil_r; destruct e|].
  rewrite IH. destruct (zlen p =? 0); [done|]. unfold SetCompactPointer. cbn. by rewrite <- app_assoc.
Qed.

Lemma elem_snapshot_list level levels p :
  p ∈ snapshot_list level levels <-> exists i fs f, levels !! i = Some fs /\ f ∈ fs /\ p = (level + Z.of_nat i, file_meta f).
Proof.
  revert level. induction levels as [|fs levels IH]; intros level; cbn [snapshot_list].
  { split; [by intros ?%not_elem_of_nil|]. by intros (i & fs & f & Hi & _). }
  rewrite elem_of_app, list_elem_of_fmap, IH. split.
  - intros [(f & -> & Hf)|(i & fs' & f & Hi & Hf & ->)].
    + exists 0%nat, fs, f. split; [done|]. split; [done|]. f_equal. lia.
    + exists (S i), fs', f. split; [done|]. split; [done|]. f_equal. lia.
  - intros ([|i] & fs' & f & Hi & Hf & ->); simpl in Hi.
    + injection Hi as ->. left. exists f. split; [f_equal; lia|done].
    + right. exists i, fs', f. split; [done|]. split; [done|]. f_equal. lia.
Qed.

Lemma snapshot_list_nodup level levels : Forall (fun fs => NoDup (numbers fs)) levels -> NoDup (file_pair <$> snapshot_list level levels).
Proof.
  intros Hn. revert level. induction Hn as [|fs levels Hfs _ IH]; intros level; cbn [snapshot_list]; [constructor|].
  rewrite fmap_app. apply NoDup_app. split; [|split; [|apply IH]].
  - rewrite <- list_fmap_compose. unfold numbers in Hfs. clear -Hfs. induction fs as [|f fs IH]; [constructor|]. rewrite fmap_cons in *. apply NoDup_cons in Hfs as [Hf Hfs].
    apply NoDup_cons. split; [|by apply IH]. intros Hin. apply Hf. apply list_elem_of_fmap in Hin as (g & [= Hg] & Hgin). rewrite Hg. by apply list_elem_of_fmap_2.
  - intros q Hq Hq'. apply list_elem_of_fmap in Hq as (p & -> & Hp). apply list_elem_of_fmap in Hp as (f & -> & _).
    apply list_elem_of_fmap in Hq' as (p & Heq & Hp). apply elem_snapshot_list in Hp as (i & gs & g & _ & _ & ->). injection Heq as Heq _. lia.
Qed.

Lemma pointer_list_ok level pointers :
  0 <= level -> level + zlen pointers <= config.kNumLevels -> Forall (fun p => zlen p < 2 ^ 32) pointers ->
  Forall (fun p => level_ok p.1 /\ key_ok p.2) (pointer_list level pointers).
Proof.
  intros Hl Hlen Hp. revert level Hl Hlen. induction Hp as [|p pointers Hp _ IH]; intros level Hl Hlen; cbn [pointer_list]; [constructor|].
  rewrite zlen_cons in Hlen. pose proof (zlen_nonneg pointers). apply Forall_app. split; [|apply IH; lia]. destruct (Z.eqb_spec (zlen p) 0); [constructor|].
  constructor; [|constructor]. split; [unfold level_ok; simpl; lia|]. unfold key_ok, DecodeFrom. simpl. pose proof (zlen_nonneg p). lia.
Qed.

(** A snapshot leads to the version it was taken of. *)
Lemma snapshot_history {FH : Type} (vs : VersionSet FH) v used a :
  levels_wf (files_ v) -> denotes_levels (files_ v) a -> abs_ok used a -> levels_disjoint a ->
  length (compact_pointer_ vs) = Z.to_nat config.kNumLevels -> Forall (fun p => zlen p < 2 ^ 32) (compact_pointer_ vs) ->
  zlen (vs_comparator vs) < 2 ^ 32 ->
  history (vs_comparator vs) [snapshot_edit vs v] used a.
Proof.
  intros Hlw Hd Ha Hdis Hpl Hps Hcmp. unfold snapshot_edit. rewrite snapshot_levels_list, snapshot_pointers_list. cbn.
  set (files := snapshot_list 0 (files_ v)). set (ptrs := pointer_list 0 (compact_pointer_ vs)).
  assert (Forall (fun p => level_ok p.1 /\ key_ok p.2) ptrs) as Hptr.
  { apply pointer_list_ok; [lia| |done]. unfold zlen. rewrite Hpl. done. }
  assert (forall p, p ∈ files -> exists i fs f, files_ v !! i = Some fs /\ f ∈ fs /\ p = (Z.of_nat i, file_meta f) /\ file_info_ok used i (f_number f) (info f) /\
    file_wf f /\ (i < 7)%nat /\ abs_at a i (f_number f) = Some (info f)) as Hfiles.
  { intros p Hp. apply elem_snapshot_list in Hp as (i & gs & f & Hi & Hf & ->). exists i, gs, f. split; [done|]. split; [done|]. split; [done|].
    destruct (Forall2_lookup_l _ _ _ _ _ Hd Hi) as (m & Hm & Hden). assert (abs_at a i (f_number f) = Some (info f)) as Hat.
    { unfold abs_at. rewrite Hm. simpl. apply Hden. by exists f. }
    split; [by apply Ha|]. split; [|split; [|done]].
    - pose proof (lv_files _ Hlw) as Hw. pose proof (Forall_lookup_1 _ _ _ _ Hw Hi) as Hw'. rewrite Forall_forall in Hw'. by apply Hw'.
    - apply lookup_lt_Some in Hi. rewrite (lv_length _ Hlw) in Hi. exact Hi. }
  assert (NoDup (file_pair <$> files)) as Hnd by (apply snapshot_list_nodup, (lv_numbers _ Hlw)).
  assert (file_pair <$> files ⊆ used) as Hused.
  { intros q Hq. apply list_elem_of_fmap in Hq as (p & -> & Hp). destruct (Hfiles p Hp) as (i & gs & f & _ & _ & -> & (Hu & _) & _). exact Hu. }
  split.
  - constructor; [|constructor]. split; cbn; try done; try (unfold field_ok, num_ok; split; [lia|done]); try constructor.
    apply Forall_forall. intros p Hp. destruct (Hfiles p Hp) as (i & gs & f & _ & _ & -> & (_ & H1 & H2 & H3 & H4) & _ & Hi & _).
    split; [unfold level_ok, config.kNumLevels; simpl; lia|]. split; [done|]. done.
  - constructor; [|constructor]. split; cbn; [|constructor|].
    + eapply Forall_impl; [exact Hptr|]. intros p [H1 H2]. split; [done|]. unfold key_ok in H2. lia.
    + apply Forall_forall. intros p Hp. destruct (Hfiles p Hp) as (i & gs & f & _ & _ & -> & _ & Hw & Hi & _).
      split; [unfold level_ok, config.kNumLevels; simpl; lia|]. exact Hw.
  - constructor; [|constructor]. by intros _.
  - cbn. rewrite app_nil_r. exact Hnd.
  - cbn. rewrite app_nil_r. exact Hused.
  - cbn [foldl]. apply abs_eq.
    { rewrite abs_length. unfold abs_empty. rewrite length_replicate, <- (lv_length _ Hlw). by apply Forall2_length in Hd. }
    intros i n. destruct (abs_at a i n) as [x|] eqn:Ex.
    + unfold abs_at in Ex. destruct (a !! i) as [m|] eqn:Em; [|done]. simpl in Ex. destruct (Forall2_lookup_r _ _ _ _ _ Hd Em) as (gs & Hgs & Hden).
      destruct (proj1 (Hden n x) Ex) as (f & Hf & Hfn & Hfx). rewrite <- Hfn, <- Hfx. assert ((Z.of_nat i, file_meta f) ∈ files) as Hin by (apply elem_snapshot_list; exists i, gs, f; done).
      pose proof (abs_at_adds_in abs_empty files (Z.of_nat i, file_meta f) Hnd) as Hat. cbn [fst snd] in Hat. rewrite Nat2Z.id in Hat. apply Hat; [|done|done].
      apply Forall_forall. intros p Hp. destruct (Hfiles p Hp) as (j & ? & ? & _ & _ & -> & _ & _ & Hj & _). unfold level_ok, config.kNumLevels. simpl. lia.
    + apply eq_None_not_Some. intros [x Hx]. apply abs_at_apply in Hx as [Hx|(p & Hp & -> & -> & ->)].
      * by destruct (abs_empty_ok [] i n x Hx) as [Hbad%not_elem_of_nil _].
      * destruct (Hfiles p Hp) as (j & gs & f & _ & _ & -> & _ & _ & _ & Hat). cbn in Ex. rewrite Nat2Z.id in Ex. congruence.
  - done.
Qed.
End Abstract.
