(* ===== verification/Recovery.v ===== *)
(** * The version set survives failures

    The invariant of a [VersionSet] over its whole life, and what [LogAndApply] and [Recover]
    ([version_set.c]) do to it and to the disk. *)

From stdpp Require Import gmap sorting.
From Stdlib Require Import SpecFloat.
From S2P Require Import Prelude Coding Env Crc32c LogWriter LogReader LogCorrect Comparator DbFormat VersionEdit SkipList MemTable Iterator Version VersionBuilder Filename FileSystem MemEnv LogSim DList VersionSet Manifest.

Open Scope outcome_scope.

Definition no_ext : nat -> Z := fun _ => 0.

(** ** Building a version *)

Section Building.
Context {FH : Type} `{laws : ComparatorLaws}.
Implicit Types vs : VersionSet FH.

Lemma vfiles_at vl n files : vfiles vl n = Some files -> exists v, vl_versions vl !! n = Some v /\ files_ v = files.
Proof. unfold vfiles. destruct (vl_versions vl !! n) as [v|]; [|done]. intros [= <-]. by exists v. Qed.

Lemma build_version_spec vs l n c held base a edits :
  versions_inv (vs_versions vs) l (Some n) (rc_of held c) no_ext -> vl_current (vs_versions vs) = Some c -> c ∈ l -> 0 <= held c ->
  vl_versions (vs_versions vs) !! n = Some empty_version -> vfiles (vs_versions vs) c = Some base -> denotes_levels base a ->
  length (compact_pointer_ vs) = Z.to_nat config.kNumLevels -> Forall edit_wf edits -> fresh_edits base edits ->
  levels_disjoint (foldl abs_apply a edits) ->
  exists vl' files, build_version vs n edits = Ret (set_pointer_array (set_versions vs vl') (edits_pointers (compact_pointer_ vs) edits)) /\
    versions_inv vl' l (Some n) (rc_of held c) no_ext /\ vl_current vl' = Some c /\ vl_versions vl' !! n = Some (set_files empty_version files) /\
    denotes_levels files (foldl abs_apply a edits) /\ forall m, m ≠ n -> vfiles vl' m = vfiles (vs_versions vs) m.
Proof.
  intros Hi Hcur Hcl Hc0 Hn Hbase Hd Hpl Hew Hfr Hdis. unfold build_version. rewrite Hcur.
  assert (c ≠ n) as Hcn. { intros ->. by destruct (vi_detached _ _ _ _ _ Hi n eq_refl). }
  destruct (version_Ref_spec _ _ _ _ _ c Hi Hcl) as (vl1 & -> & Hi1 & Hcur1 & Hh1 & Hf1 & Hs1). cbn [obind].
  destruct (vfiles_at vl1 c base) as (vc & Hvc & Hvf); [by rewrite Hf1|].
  unfold version_at. rewrite Hvc. cbn [obind]. rewrite Hvf. assert (vl_versions vl1 !! n = Some empty_version) as Hn1 by (by rewrite Hs1).
  pose proof (vi_levels _ _ _ _ _ Hi1 c vc Hvc) as Hlw. rewrite Hvf in Hlw.
  destruct (build_spec (vl_heap vl1) (own (vl_versions vl1)) (compact_pointer_ vs) base a edits) as (h' & files & -> & Hlw' & Hden & Hcnt); try done.
  { eapply counts_proper; [|exact (vi_counts _ _ _ _ _ Hi1)]. intros x. unfold no_ext. lia. }
  { intros f Hf. pose proof (own_le _ _ _ (f_addr f) Hvc) as Hle. rewrite Hvf in Hle. pose proof (occ_elem f _ Hf). lia. }
  cbn [obind]. rewrite Hn1. cbn [obind].
  assert (versions_inv (set_version (set_heap vl1 h') n (set_files empty_version files)) l (Some n) (fun m => rc_of held c m + if decide (m = c) then 1 else 0) no_ext) as Hi2.
  { apply set_files_spec; try done. eapply counts_proper; [|exact Hcnt]. intros x. unfold no_ext. lia. }
  destruct (version_Unref_keep _ _ _ _ _ c Hi2 Hcl) as (vl2 & -> & Hi3 & Hcur3 & _ & Hf3 & Hs3).
  { unfold rc_of. rewrite decide_True by done. lia. }
  cbn [obind]. exists vl2, files. split; [done|]. split.
  { eapply versions_rc; [|exact Hi3]. intros m _. simpl. lia. }
  split; [rewrite Hcur3; unfold set_version, set_heap; cbn [vl_current]; congruence|]. split.
  { rewrite Hs3 by done. unfold set_version. cbn [vl_versions]. apply lookup_insert_eq. }
  split; [done|]. intros m Hm. rewrite Hf3, <- Hf1. unfold vfiles, set_version, set_heap. cbn [vl_versions]. by rewrite lookup_insert_ne by congruence.
Qed.

Lemma finalize_version_spec vs l n rc ext files :
  versions_inv (vs_versions vs) l (Some n) rc ext -> vl_versions (vs_versions vs) !! n = Some (set_files empty_version files) ->
  exists bs bl, let v := mkVersion 0 files None (-1) bs bl in
    finalize_version vs n = Ret (set_versions vs (set_version (vs_versions vs) n v)) /\
    versions_inv (set_version (vs_versions vs) n v) l (Some n) rc ext /\ best_so_far files (config.kNumLevels - 1) bl bs.
Proof.
  intros Hi Hn. pose proof (vi_levels _ _ _ _ _ Hi n _ Hn) as Hlw. unfold finalize_version, version_at. rewrite Hn. cbn [obind].
  destruct (Finalize_spec (set_files empty_version files)) as (bl & bs & -> & Hb); [by apply (lv_length _ Hlw)|]. cbn [obind set_files files_ v_refs file_to_compact_ file_to_compact_level_ empty_version].
  exists bs, bl. split; [done|]. split; [|done]. eapply (set_version_refs _ _ _ rc _ _ _ _ rc Hi Hn); try done.
  intros Hnl. by destruct (vi_detached _ _ _ _ _ Hi n eq_refl).
Qed.
End Building.

(** ** Names *)

Lemma manifest_not_current dbname num : 0 < num < 2 ^ 64 -> manifest_name dbname num ≠ CurrentFileName dbname.
Proof.
  intros Hn. unfold manifest_name, CurrentFileName. change (str "/CURRENT") with (str "/" ++ str "CURRENT").
  eapply (name_neq _ _ _ (num, kDescriptorFile) (0, kCurrentFile)); [apply ParseFileName_manifest; lia|done|done].
Qed.

Lemma manifest_not_temp dbname num k tmp : 0 < num < 2 ^ 64 -> 0 < k < 2 ^ 64 -> TempFileName dbname k = Ret tmp -> manifest_name dbname num ≠ tmp.
Proof.
  intros Hn Hk. unfold TempFileName. destruct (Z.ltb_spec 0 k); [|lia]. cbn [oassert obind]. intros [= <-]. unfold manifest_name, MakeFileName.
  eapply (name_neq _ _ _ (num, kDescriptorFile) (k, kTempFile)); [apply ParseFileName_manifest; lia| |done].
  change (str "." ++ str "dbtmp") with (str ".dbtmp"). rewrite ParseFileName_number; [done|lia|by intros c [= <-]; left].
Qed.

Lemma manifest_inj dbname a b : 0 < a < 2 ^ 64 -> 0 < b < 2 ^ 64 -> a ≠ b -> manifest_name dbname a ≠ manifest_name dbname b.
Proof.
  intros Ha Hb Hne. unfold manifest_name. eapply (name_neq _ _ _ (a, kDescriptorFile) (b, kDescriptorFile)); [apply ParseFileName_manifest; lia..|congruence].
Qed.

Lemma DescriptorFileName_spec dbname num : 0 < num -> DescriptorFileName dbname num = Ret (manifest_name dbname num).
Proof. intros Hn. unfold DescriptorFileName. destruct (Z.ltb_spec 0 num); [|lia]. cbn [oassert obind]. unfold manifest_name. f_equal. Qed.

Lemma manifest_name_nonempty dbname num : (zlen (manifest_name dbname num) =? 0) = false.
Proof. apply Z.eqb_neq. unfold manifest_name. rewrite !zlen_app. pose proof (zlen_nonneg dbname). pose proof (zlen_nonneg (decimal06 num)). change (zlen (str "/")) with 1. change (zlen (str "MANIFEST-")) with 9. lia. Qed.

(** ** The invariant *)

Section Invariant.
Context {E FH : Type} `{env_laws : EnvLaws E FH} `{Crc32c} `{laws : ComparatorLaws}.
Abbreviation keep := (keeps env_ok fs writes reads).
Implicit Types (e : E) (vs : VersionSet FH).

(** In memory: the current version [c] of the list [l] is [a]; [held] are the references of
    others, [used] the pairs of level and number under which files were added. *)
Record vset_mem vs (a : AbsVersion) (used : list (Z * Z)) (held : nat -> Z) (l : list nat) (c : nat) : Prop := mkVsetMem {
  vm_versions : versions_inv (vs_versions vs) l None (rc_of held c) no_ext;
  vm_current : vl_current (vs_versions vs) = Some c;
  vm_in : c ∈ l;
  vm_held m : 0 <= held m;
  vm_held_in m : 0 < held m -> m ∈ l;
  vm_files : exists files, vfiles (vs_versions vs) c = Some files /\ denotes_levels files a;
  vm_pointers : length (compact_pointer_ vs) = Z.to_nat config.kNumLevels;
  vm_pointer_size : Forall (fun p => zlen p < 2 ^ 32) (compact_pointer_ vs);
  vm_cmp : zlen (vs_comparator vs) < 2 ^ 32;
  vm_abs : abs_ok used a;
  vm_disjoint : levels_disjoint a;
}.

Definition vset_numbers vs : Prop :=
  0 < vs_manifest_file_number vs < vs_next_file_number vs /\ vs_next_file_number vs < 2 ^ 64 /\ num_ok (vs_last_sequence vs) /\
  0 <= vs_log_number vs < vs_next_file_number vs /\ 0 <= vs_prev_log_number vs < vs_next_file_number vs.

(** On the disk: a manifest that leads to [a] and to these log numbers. *)
Definition saved_at e (dbname cmp : bytes) (used : list (Z * Z)) (a : AbsVersion) (log prev next last : Z) : Prop :=
  exists num edits, on_disk e dbname num edits /\ history cmp edits used a /\ numbers_are edits log prev next last /\ 0 < num < next.

Definition saved e (dbname cmp : bytes) (used : list (Z * Z)) (a : AbsVersion) (log prev : Z) : Prop :=
  exists next last, saved_at e dbname cmp used a log prev next last.

(** A log with these records ends at block offset [bo]. *)
Definition log_at (records : list bytes) (bo : Z) : Prop :=
  forall more, log_layout 0 (records ++ more) = log_layout 0 records ++ log_layout bo more.

(** The open manifest has the records of these edits. *)
Record descriptor_inv e vs (w : Writer FH) (name : bytes) (edits : list VersionEdit) : Prop := mkDescriptor {
  de_log : descriptor_log_ vs = Some w;
  de_file : descriptor_file_ vs = Some (dest_ w);
  de_ok : log_ok w;
  de_writes : writes e (dest_ w) name;
  de_bytes : hbytes e (dest_ w) = log_layout 0 (edit_bytes <$> edits);
  de_at : log_at (edit_bytes <$> edits) (block_offset_ w);
}.

Definition vset_disk e vs (used : list (Z * Z)) (a : AbsVersion) : Prop :=
  exists num edits next last, on_disk e (vs_dbname vs) num edits /\ history (vs_comparator vs) edits used a /\
    numbers_are edits (vs_log_number vs) (vs_prev_log_number vs) next last /\ 0 < num < next /\
    ((descriptor_log_ vs = None /\ descriptor_file_ vs = None /\ num < vs_manifest_file_number vs) \/
     (num = vs_manifest_file_number vs /\ exists w, descriptor_inv e vs w (manifest_name (vs_dbname vs) num) edits)).

Record vset_inv e vs (a : AbsVersion) (used : list (Z * Z)) (held : nat -> Z) : Prop := mkVsetInv {
  vi_env : env_ok e;
  vi_mem : exists l c, vset_mem vs a used held l c;
  vi_numbers : vset_numbers vs;
  vi_disk : vset_disk e vs used a;
}.

Lemma vset_saved e vs a used held :
  vset_inv e vs a used held -> saved e (vs_dbname vs) (vs_comparator vs) used a (vs_log_number vs) (vs_prev_log_number vs).
Proof. intros [_ _ _ (num & edits & next & last & Hd & Hh & Hn & Hr & _)]. by exists next, last, num, edits. Qed.

(** ** Logs that grow *)

Lemma log_at_nil : log_at [] 0.
Proof. intros more. done. Qed.

Lemma log_at_snoc records bo d : log_at records bo -> log_at (records ++ [d]) (end_offset bo (record_plan bo d)).
Proof.
  intros Hl more. rewrite <- app_assoc. change ([d] ++ more) with (d :: more). rewrite Hl, (Hl [d]). cbn [log_layout]. by rewrite app_nil_r, app_assoc.
Qed.

Lemma log_at_layout records bo d : log_at records bo -> log_layout 0 (records ++ [d]) = log_layout 0 records ++ record_layout bo d.
Proof. intros Hl. rewrite Hl. cbn [log_layout]. by rewrite app_nil_r. Qed.

Lemma log_at_reopened records : log_at records (zlen (log_layout 0 records) mod kBlockSize).
Proof. intros more. apply reopened_layout. Qed.

(** The record of an edit reaches the open manifest, or a part of it does. *)
Lemma descriptor_add e vs w name edits edit :
  env_ok e -> descriptor_inv e vs w name edits -> edit_ok edit ->
  exists e' w' s, log_AddRecord e w (edit_bytes edit) = Ret (e', w', s) /\ keep e e' name /\ dest_ w' = dest_ w /\ log_ok w' /\ writes e' (dest_ w) name /\
    (s = OK -> hbytes e' (dest_ w) = log_layout 0 (edit_bytes <$> edits ++ [edit]) /\ log_at (edit_bytes <$> edits ++ [edit]) (block_offset_ w')) /\
    (log_reads (hbytes e' (dest_ w)) (edit_bytes <$> edits) \/ log_reads (hbytes e' (dest_ w)) (edit_bytes <$> edits ++ [edit])).
Proof.
  intros He [_ _ Hok Hw Hb Hat] Hedit. destruct (log_AddRecord_spec e w name (edit_bytes edit) He Hw Hok) as (e' & w' & s & E1 & K & Hw' & Hd & Hok' & (p & Hp & Hbytes & Hfull) & Hbo).
  exists e', w', s. do 5 (split; [done|]). rewrite fmap_app. cbn [fmap list_fmap]. pose proof (log_at_layout _ _ (edit_bytes edit) Hat) as Hlay. split.
  - intros Hs. rewrite Hbytes, Hb, (Hfull Hs), (Hbo Hs). split; [done|by apply log_at_snoc].
  - rewrite Hbytes, Hb. by apply (log_reads_torn _ _ _ _ Hlay).
Qed.

(** ** The edit *)

Definition edit_log vs (edit : VersionEdit) : Z := if has_log_number_ edit then log_number_ edit else vs_log_number vs.
Definition edit_prev vs (edit : VersionEdit) : Z := if has_prev_log_number_ edit then prev_log_number_ edit else vs_prev_log_number vs.

(** The edit as it is logged. *)
Definition completed vs (edit : VersionEdit) : VersionEdit :=
  SetLastSequence (vs_last_sequence vs) (SetNextFile (vs_next_file_number vs) (SetPrevLogNumber (edit_prev vs edit) (SetLogNumber (edit_log vs edit) edit))).

(** What a caller of [LogAndApply] owes: an edit in range that adds files under new pairs of
    level and number and leaves the levels disjoint. *)
Record edit_fits vs (a : AbsVersion) (used : list (Z * Z)) (edit : VersionEdit) : Prop := mkEditFits {
  ef_ok : edit_ok edit;
  ef_wf : edit_wf edit;
  ef_cmp : comparator_fits (vs_comparator vs) edit;
  ef_nodup : NoDup (edit_pairs edit);
  ef_new p : p ∈ edit_pairs edit -> p ∉ used;
  ef_disjoint : levels_disjoint (abs_apply a edit);
  ef_log : has_log_number_ edit = true -> vs_log_number vs <= log_number_ edit < vs_next_file_number vs;
  ef_prev : has_prev_log_number_ edit = true -> prev_log_number_ edit < vs_next_file_number vs;
  ef_room : vs_next_file_number vs < 2 ^ 64 - 1;
}.

Lemma complete_edit_spec vs a used edit :
  vset_numbers vs -> edit_fits vs a used edit ->
  complete_edit vs edit = Ret (completed vs edit) /\ edit_ok (completed vs edit) /\ edit_wf (completed vs edit) /\
  0 <= edit_log vs edit < vs_next_file_number vs /\ 0 <= edit_prev vs edit < vs_next_file_number vs.
Proof.
  intros (Hm & Hnx & Hls & Hlg & Hpv) [[k1 k2 k3 k4 k5 k6 k7 k8 k9 k10] Hwf Hcmp Hnd Hnew Hdis Hlog Hprev _].
  assert (0 <= edit_log vs edit < vs_next_file_number vs) as Hl.
  { unfold edit_log. destruct (has_log_number_ edit) eqn:Eh; [|done]. specialize (Hlog eq_refl). lia. }
  assert (0 <= edit_prev vs edit < vs_next_file_number vs) as Hp.
  { unfold edit_prev. destruct (has_prev_log_number_ edit) eqn:Eh; [|done]. specialize (Hprev eq_refl). destruct k4 as [[? ?] _]. lia. }
  split; [|split; [|split; [|done]]].
  - unfold complete_edit, completed, edit_log, edit_prev. destruct edit as [? ? ? ? ? ? [] [] ? ? ? ? ?]; cbn in *;
      try (specialize (Hlog eq_refl); rewrite (proj2 (Z.leb_le _ _)), (proj2 (Z.ltb_lt _ _)) by lia); done.
  - split; cbn; try done; unfold field_ok, num_ok; (split; [|done]); lia || exact Hls.
  - destruct Hwf. by split.
Qed.

Lemma completed_apply vs a edit : abs_apply a (completed vs edit) = abs_apply a edit.
Proof. done. Qed.

Lemma completed_numbers vs edits edit :
  vset_numbers vs -> vs_next_file_number vs < 2 ^ 64 - 1 -> 0 <= edit_log vs edit < vs_next_file_number vs -> 0 <= edit_prev vs edit < vs_next_file_number vs ->
  numbers_are (edits ++ [completed vs edit]) (edit_log vs edit) (edit_prev vs edit) (vs_next_file_number vs) (vs_last_sequence vs).
Proof.
  intros (Hm & Hnx & Hls & _) Hroom Hl Hp. exists (Some (edit_prev vs edit)). rewrite foldl_app. split; [done|]. split; [done|]. unfold num_ok in *. lia.
Qed.

Lemma history_mono cmp edits used used' a : used ⊆ used' -> history cmp edits used a -> history cmp edits used' a.
Proof. intros Hs [k1 k2 k3 k4 k5 k6 k7]. split; try done. set_solver. Qed.

(** A history goes on with an edit that fits. *)
Lemma history_snoc vs edits used a edit :
  vset_numbers vs -> edit_fits vs a used edit -> history (vs_comparator vs) edits used a ->
  history (vs_comparator vs) (edits ++ [completed vs edit]) (used ++ edit_pairs edit) (abs_apply a edit).
Proof.
  intros Hn Hf [k1 k2 k3 k4 k5 k6 k7]. destruct (complete_edit_spec vs a used edit Hn Hf) as (_ & Hok & Hwf & _). destruct Hf as [_ _ Hcmp Hnd Hnew Hdis _ _ _].
  assert (concat (edit_pairs <$> edits ++ [completed vs edit]) = concat (edit_pairs <$> edits) ++ edit_pairs edit) as Hpairs.
  { rewrite fmap_app, concat_app. cbn. by rewrite app_nil_r. }
  split.
  - apply Forall_app. split; [done|by constructor].
  - apply Forall_app. split; [done|by constructor].
  - apply Forall_app. split; [done|by constructor].
  - rewrite Hpairs. apply NoDup_app. split; [done|]. split; [|done]. intros p Hp Hp'. apply (Hnew p Hp'). by apply k5.
  - rewrite Hpairs. set_solver.
  - rewrite foldl_app, k6. done.
  - done.
Qed.

(** Files of the current version were added under pairs that are in use. *)
Lemma fits_fresh vs a used edit files :
  edit_fits vs a used edit -> levels_wf files -> denotes_levels files a -> abs_ok used a -> fresh_edits files [completed vs edit].
Proof.
  intros [_ Hwf _ Hnd Hnew _ _ _ _] Hlw Hd Ha. split; cbn; rewrite app_nil_r; [done|]. intros lv n gs Hin Hgs Hn. apply (Hnew (lv, n) Hin).
  assert (level_ok lv) as Hlev. { apply list_elem_of_fmap in Hin as (p & [= -> ->] & Hp). destruct Hwf as [_ _ Hw]. rewrite Forall_forall in Hw. by destruct (Hw p Hp). }
  apply list_elem_of_fmap in Hn as (f & -> & Hf). destruct (Forall2_lookup_l _ _ _ _ _ Hd Hgs) as (m & Hm & Hden).
  assert (abs_at a (Z.to_nat lv) (f_number f) = Some (info f)) as Hat. { unfold abs_at. rewrite Hm. simpl. apply Hden. by exists f. }
  destruct (Ha _ _ _ Hat) as [Hu _]. unfold level_ok in Hlev. by rewrite Z2Nat.id in Hu by lia.
Qed.

Lemma pointers_size vs edit :
  edit_ok edit -> Forall (fun p => zlen p < 2 ^ 32) (compact_pointer_ vs) -> length (compact_pointer_ vs) = Z.to_nat config.kNumLevels ->
  Forall (fun p => zlen p < 2 ^ 32) (set_pointers (compact_pointer_ vs) (compact_pointers_ edit)) /\
  length (set_pointers (compact_pointer_ vs) (compact_pointers_ edit)) = Z.to_nat config.kNumLevels.
Proof.
  intros He Hp Hl. pose proof (ok_pointers _ He) as Hk. revert Hp Hl. generalize (compact_pointer_ vs). unfold set_pointers. induction Hk as [|[lv k] l [_ Hk] _ IH]; intros ps Hp Hl; [done|].
  cbn [foldl]. apply IH; [|by rewrite length_insert]. apply Forall_insert; [done|]. unfold key_ok in Hk. simpl. cbn [snd] in Hk. lia.
Qed.

(** ** Writing the manifest *)

(** Files other than those the manifest is kept in. *)
Definition data_file (dbname m : bytes) : Prop :=
  m ≠ CurrentFileName dbname /\ (forall k, 0 < k < 2 ^ 64 -> m ≠ manifest_name dbname k) /\ forall k tmp, 0 < k < 2 ^ 64 -> TempFileName dbname k = Ret tmp -> m ≠ tmp.

Definition data_kept (dbname : bytes) e e' : Prop :=
  forall m, data_file dbname m -> fs e' m = fs e m /\ forall h, writes e h m -> writes e' h m.

Lemma data_kept_keep dbname e e' num : 0 < num < 2 ^ 64 -> keep e e' (manifest_name dbname num) -> data_kept dbname e e'.
Proof. intros Hn (_ & Hf & Hw) m (_ & Hm & _). specialize (Hm num Hn). split; [by apply Hf|]. intros h. by apply Hw. Qed.

Lemma data_kept_trans dbname e1 e2 e3 : data_kept dbname e1 e2 -> data_kept dbname e2 e3 -> data_kept dbname e1 e3.
Proof. intros K1 K2 m Hm. destruct (K1 m Hm) as [Hf1 Hw1], (K2 m Hm) as [Hf2 Hw2]. split; [congruence|auto]. Qed.

(** The record and the sync, on a descriptor that is open. *)
Lemma log_edit_spec e vs w name edits edit :
  env_ok e -> descriptor_inv e vs w name edits -> edit_ok edit ->
  exists e' w' s, log_edit e vs edit = Ret (e', set_descriptor vs (Some (dest_ w)) (Some w'), s) /\ keep e e' name /\ writes e' (dest_ w) name /\
    (s = OK -> descriptor_inv e' (set_descriptor vs (Some (dest_ w)) (Some w')) w' name (edits ++ [edit])) /\
    (log_reads (hbytes e' (dest_ w)) (edit_bytes <$> edits) \/ log_reads (hbytes e' (dest_ w)) (edit_bytes <$> edits ++ [edit])).
Proof.
  intros He Hde Hedit. unfold log_edit. rewrite (de_log _ _ _ _ _ Hde), (de_file _ _ _ _ _ Hde). rewrite EncodeTo_bytes by done. cbn [obind app].
  destruct (descriptor_add e vs w name edits edit He Hde Hedit) as (e1 & w1 & s1 & -> & K1 & Hd1 & Hok1 & Hw1 & Hgood & Hreads). cbn [obind].
  assert (exists e2 s2, (if ok s1 then file_Sync e1 (dest_ w) else (e1, s1)) = (e2, s2) /\ keep e e2 name /\ writes e2 (dest_ w) name /\
    hbytes e2 (dest_ w) = hbytes e1 (dest_ w) /\ (s2 = OK -> s1 = OK)) as (e2 & s2 & -> & K2 & Hw2 & Hb2 & Hs2).
  { destruct (ok s1) eqn:Es1; [|exists e1, s1; by rewrite ?K1]. destruct (file_Sync e1 (dest_ w)) as [e2 s2] eqn:E2.
    destruct (sync_frame _ _ _ _ _ (keeps_ok _ _ _ K1) Hw1 E2) as (K2 & Hw2 & Hf2). exists e2, s2. split; [done|]. split; [exact (keeps_trans _ _ _ _ K1 K2)|].
    split; [done|]. split; [|by apply ok_true in Es1]. apply writes_fs in Hw1, Hw2. congruence. }
  exists e2, w1, s2. split; [done|]. split; [done|]. split; [done|]. rewrite Hb2. split; [|done]. intros Hs. destruct (Hgood (Hs2 Hs)) as [Hb Hat].
  split; try done; [by rewrite Hd1|by rewrite Hd1|]. by rewrite Hd1, Hb2.
Qed.

(** With an open descriptor. *)
Lemma write_manifest_open e vs w name edits edit :
  env_ok e -> descriptor_inv e vs w name edits -> edit_ok edit ->
  exists e' w' s, write_manifest e vs edit = Ret (e', set_descriptor vs (Some (dest_ w)) (Some w'), [], s) /\ keep e e' name /\ writes e' (dest_ w) name /\
    (s = OK -> descriptor_inv e' (set_descriptor vs (Some (dest_ w)) (Some w')) w' name (edits ++ [edit])) /\
    (log_reads (hbytes e' (dest_ w)) (edit_bytes <$> edits) \/ log_reads (hbytes e' (dest_ w)) (edit_bytes <$> edits ++ [edit])).
Proof.
  intros He Hde Hedit. unfold write_manifest, open_descriptor. rewrite (de_log _ _ _ _ _ Hde). cbn [obind ok].
  destruct (log_edit_spec e vs w name edits edit He Hde Hedit) as (e1 & w1 & s1 & -> & Hrest). cbn [obind]. rewrite zlen_nil, andb_false_r. cbn [obind].
  exists e1, w1, s1. by split.
Qed.

(** Without one: a new manifest, which becomes current last of all. *)
Lemma write_manifest_new e vs v edit :
  let num := vs_manifest_file_number vs in let name := manifest_name (vs_dbname vs) num in let snap := snapshot_edit vs v in
  env_ok e -> descriptor_log_ vs = None -> descriptor_file_ vs = None -> 0 < num < 2 ^ 64 -> current_version (vs_versions vs) = Ret v ->
  edit_ok snap -> edit_ok edit ->
  exists e' fo wo s, write_manifest e vs edit = Ret (e', set_descriptor vs fo wo, name, s) /\
    (s = OK -> env_ok e' /\ data_kept (vs_dbname vs) e e' /\ fs e' (CurrentFileName (vs_dbname vs)) = Some (current_line num) /\
       exists w, descriptor_inv e' (set_descriptor vs fo wo) w name [snap; edit]) /\
    (s ≠ OK -> exists e'', drop_descriptor e' (set_descriptor vs fo wo) name = (e'', set_descriptor vs None None) /\ env_ok e'' /\
       forall k m, 0 < k < 2 ^ 64 -> k ≠ num -> m = CurrentFileName (vs_dbname vs) \/ m = manifest_name (vs_dbname vs) k -> fs e'' m = fs e m).
Proof.
  cbv zeta. intros He Hlog Hfile Hnum Hcur Hsnap Hedit. set (num := vs_manifest_file_number vs) in *. set (name := manifest_name (vs_dbname vs) num).
  assert (forall e', keep e e' name -> forall k m, 0 < k < 2 ^ 64 -> k ≠ num -> m = CurrentFileName (vs_dbname vs) \/ m = manifest_name (vs_dbname vs) k -> fs e' m = fs e m) as Hkeep.
  { intros e' (_ & Hf & _) k m Hk Hne Hm. apply Hf. destruct Hm as [->| ->]; [apply not_eq_sym, manifest_not_current; lia|by apply manifest_inj]. }
  assert (forall e' fo wo, env_ok e' -> (forall h, fo = Some h -> writes e' h name) -> exists e'', drop_descriptor e' (set_descriptor vs fo wo) name = (e'', set_descriptor vs None None) /\ keep e' e'' name) as Hdrop.
  { intros e' fo wo He' Hfo. unfold drop_descriptor. cbn [descriptor_file_ set_descriptor].
    assert (keep e' (match fo with Some h => file_delete e' h | None => e' end) name) as K1.
    { destruct fo as [h|]; [|by apply keeps_refl]. by destruct (delete_writer e' h name He' (Hfo h eq_refl)) as [K _]. }
    destruct (RemoveFile _ name) as [e'' s''] eqn:Er. exists e''. split; [done|]. pose proof (remove_frame _ _ _ _ (keeps_ok _ _ _ K1) Er) as K2. exact (keeps_trans _ _ _ _ K1 K2). }
  unfold write_manifest, open_descriptor. rewrite Hlog, Hfile. cbn [oassert obind]. rewrite DescriptorFileName_spec by lia. cbn [obind]. fold num name.
  destruct (NewWritableFile e name) as [[e1 s1] r] eqn:E1. destruct (new_writable _ _ _ _ _ He E1) as [K1 Hopen]. destruct (ok s1) eqn:Es1.
  2:{ cbn [obind]. rewrite Es1. cbn [obind]. rewrite Es1. cbn [andb obind]. assert (s1 ≠ OK) as Hs1 by (by intros ->).
      rewrite (no_writable _ _ _ _ _ He E1 Hs1). exists e1, None, None, s1. split; [done|]. split; [done|]. intros _.
      destruct (Hdrop e1 None None (keeps_ok _ _ _ K1)) as (e2 & E2 & K2); [done|]. exists e2. split; [done|]. split; [by eapply keeps_ok|].
      apply Hkeep. exact (keeps_trans _ _ _ _ K1 K2). }
  apply ok_true in Es1 as ->. destruct (Hopen eq_refl) as (h & -> & Hw1 & Hb1). unfold WriteSnapshot.
  change (vs_versions (set_descriptor vs (Some h) None)) with (vs_versions vs). rewrite Hcur. cbn [obind].
  change (snapshot_edit (set_descriptor vs (Some h) None) v) with (snapshot_edit vs v). rewrite EncodeTo_bytes by done. cbn [obind app].
  set (vs1 := set_descriptor vs (Some h) None). set (w0 := mkWriter h 0 InitTypeCrc).
  assert (descriptor_inv e1 (set_descriptor vs (Some h) (Some w0)) w0 name []) as Hde0 by (split; try done; by apply log_at_nil).
  destruct (descriptor_add e1 _ w0 name [] _ (keeps_ok _ _ _ K1) Hde0 Hsnap) as (e2 & w2 & s2 & -> & K2 & Hd2 & Hok2 & Hw2 & Hgood2 & _). cbn [obind].
  change (dest_ w0) with h in *. pose proof (keeps_trans _ _ _ _ K1 K2) as K12. destruct (ok s2) eqn:Es2.
  2:{ cbn [obind]. rewrite Es2. cbn [andb obind]. exists e2, (Some h), (Some w2), s2. split; [done|]. split; [by intros ->|]. intros _.
      destruct (Hdrop e2 (Some h) (Some w2) (keeps_ok _ _ _ K2)) as (e3 & E3 & K3); [by intros ? [= <-]|]. exists e3. split; [done|]. split; [by eapply keeps_ok|].
      apply Hkeep. exact (keeps_trans _ _ _ _ K12 K3). }
  apply ok_true in Es2 as ->. destruct (Hgood2 eq_refl) as [Hb2 Hat2].
  assert (descriptor_inv e2 (set_descriptor vs (Some h) (Some w2)) w2 name [snapshot_edit vs v]) as Hde2.
  { split; try done; by rewrite Hd2. }
  change (set_descriptor vs1 (Some h) (Some w2)) with (set_descriptor vs (Some h) (Some w2)).
  destruct (log_edit_spec e2 _ w2 name _ edit (keeps_ok _ _ _ K2) Hde2 Hedit) as (e3 & w3 & s3 & -> & K3 & Hw3 & Hgood3 & _). cbn [obind]. rewrite Hd2 in *.
  pose proof (keeps_trans _ _ _ _ K12 K3) as K13. destruct (ok s3) eqn:Es3.
  2:{ cbn [andb obind]. exists e3, (Some h), (Some w3), s3. split; [done|]. split; [by intros ->|]. intros _.
      destruct (Hdrop e3 (Some h) (Some w3) (keeps_ok _ _ _ K3)) as (e4 & E4 & K4); [by intros ? [= <-]|]. exists e4. split; [done|]. split; [by eapply keeps_ok|].
      apply Hkeep. exact (keeps_trans _ _ _ _ K13 K4). }
  apply ok_true in Es3 as ->. unfold name at 1. rewrite manifest_name_nonempty. cbn [negb andb].
  change (vs_dbname (set_descriptor (set_descriptor vs (Some h) (Some w2)) (Some h) (Some w3))) with (vs_dbname vs).
  change (vs_manifest_file_number (set_descriptor (set_descriptor vs (Some h) (Some w2)) (Some h) (Some w3))) with num.
  destruct (SetCurrentFile_spec e3 (vs_dbname vs) num (keeps_ok _ _ _ K3) Hnum) as (e4 & s4 & tmp & -> & Htmp & He4 & Hf4 & Hwr4 & Hcur4). cbn [obind].
  assert (name ≠ tmp /\ name ≠ CurrentFileName (vs_dbname vs)) as [Hnt Hnc] by (split; [by eapply manifest_not_temp|by apply manifest_not_current]).
  exists e4, (Some h), (Some w3), s4. split; [done|]. specialize (Hgood3 eq_refl). split.
  - intros ->. split; [done|]. split; [|split; [exact Hcur4|]].
    { apply (data_kept_trans _ _ e3); [by eapply data_kept_keep|]. intros m (Hm1 & _ & Hm2). specialize (Hm2 num tmp Hnum Htmp). split; [by apply Hf4|]. intros h'. by apply Hwr4. }
    exists w3. destruct Hgood3 as [g1 g2 g3 g4 g5 g6]. cbn [set_descriptor descriptor_file_] in g2. injection g2 as g2. rewrite <- g2 in *.
    pose proof (Hwr4 h name Hnt Hnc g4) as Hw4. split; try done.
    + cbn [set_descriptor descriptor_file_]. by rewrite <- g2.
    + by rewrite <- g2.
    + rewrite <- g2. apply writes_fs in g4, Hw4. rewrite Hf4 in Hw4 by done. assert (hbytes e4 h = hbytes e3 h) as -> by congruence. exact g5.
  - intros Hs4. destruct (ok s4) eqn:Es4; [by apply ok_true in Es4|].
    destruct (Hdrop e4 (Some h) (Some w3) He4) as (e5 & E5 & K5); [intros ? [= <-]; by apply Hwr4|]. exists e5. split; [done|]. split; [by eapply keeps_ok|].
    intros k m Hk Hne Hm. rewrite <- (Hkeep e3 K13 k m Hk Hne Hm). pose proof K5 as (_ & Hf5 & _). rewrite Hf5.
    + destruct Hm as [->| ->]; [done|]. apply Hf4; [by eapply (manifest_not_temp _ k num)|by apply manifest_not_current].
    + destruct Hm as [->| ->]; [by apply not_eq_sym|by apply manifest_inj].
Qed.

(** ** The versions in memory *)

(** The new version [n] is built beside the list. *)
Lemma prepare_spec vs a used held l c edit :
  vset_mem vs a used held l c -> vset_numbers vs -> edit_fits vs a used edit ->
  exists vl n vs1 vl1 files, new_Version (vs_versions vs) = (vl, n) /\
    (let! vs := build_version (set_versions vs vl) n [completed vs edit] in finalize_version vs n) = Ret vs1 /\
    vs1 = set_pointer_array (set_versions vs vl1) (set_pointers (compact_pointer_ vs) (compact_pointers_ edit)) /\
    versions_inv vl1 l (Some n) (rc_of held c) no_ext /\ vl_current vl1 = Some c /\ vfiles vl1 n = Some files /\
    denotes_levels files (abs_apply a edit) /\ forall m, m ≠ n -> vfiles vl1 m = vfiles (vs_versions vs) m.
Proof.
  intros Hm Hnum Hf. pose proof Hm as [Hi Hcur Hcl Hh Hhin (base & Hbase & Hden) Hpl Hps Hcmp Habs Hdis]. destruct (complete_edit_spec vs a used edit Hnum Hf) as (_ & Hok & Hwf & _).
  destruct (new_Version_spec _ _ _ _ Hi) as (vl & n & Hnew & Hi0 & Hcur0 & Hnl & Hn0 & Hs0). exists vl, n.
  assert (c ≠ n) as Hcn by (intros ->; done). assert (forall m, m ≠ n -> vfiles vl m = vfiles (vs_versions vs) m) as Hf0 by (intros m Hmn; unfold vfiles; by rewrite Hs0).
  destruct (vfiles_at _ _ _ Hbase) as (vc & Hvc & Hvf). pose proof (vi_levels _ _ _ _ _ Hi c vc Hvc) as Hlw. rewrite Hvf in Hlw.
  destruct (build_version_spec (set_versions vs vl) l n c held base a [completed vs edit]) as (vl1 & files & Hb & Hi1 & Hcur1 & Hn1 & Hd1 & Hf1); try done.
  { cbn. congruence. } { by rewrite Hf0. } { by constructor. } { by apply (fits_fresh vs a used). } { apply (ef_disjoint _ _ _ _ Hf). }
  destruct (finalize_version_spec (set_pointer_array (set_versions vs vl1) (edits_pointers (compact_pointer_ vs) [completed vs edit])) l n _ _ files Hi1 Hn1) as (bs & bl & Hfin & Hi2 & _).
  eexists _, _, files. split; [done|]. split; [rewrite Hb; cbn [obind]; exact Hfin|]. split; [reflexivity|]. split; [exact Hi2|]. split; [exact Hcur1|].
  split; [unfold vfiles, set_version; cbn [vl_versions]; by rewrite lookup_insert_eq|]. split; [done|]. intros m Hmn. rewrite <- Hf0, <- Hf1 by done.
  unfold vfiles, set_version. cbn [vl_versions]. by rewrite lookup_insert_ne by congruence.
Qed.

(** The new version becomes the current one. *)
Lemma install_mem vs a a' used used' held l c vl1 n files pointers :
  vset_mem vs a used held l c -> versions_inv vl1 l (Some n) (rc_of held c) no_ext -> vl_current vl1 = Some c -> vfiles vl1 n = Some files ->
  denotes_levels files a' -> abs_ok used' a' -> levels_disjoint a' -> length pointers = Z.to_nat config.kNumLevels -> Forall (fun p => zlen p < 2 ^ 32) pointers ->
  exists vl2, AppendVersion vl1 n = Ret vl2 /\
    forall vs2, vs_versions vs2 = vl2 -> compact_pointer_ vs2 = pointers -> vs_comparator vs2 = vs_comparator vs ->
      vset_mem vs2 a' used' held (filter (fun m => 0 < held m) l ++ [n]) n.
Proof.
  intros [Hi0 _ Hcl Hh Hhin _ _ _ Hcmp _ _] Hi1 Hcur Hfn Hd Ha Hdis Hpl Hps. destruct (vi_detached _ _ _ _ _ Hi1 n eq_refl) as (Hnl & _).
  assert (held n = 0) as Hn0. { destruct (decide (0 < held n)) as [Hp|Hp]; [by apply Hhin in Hp|]. specialize (Hh n). lia. }
  destruct (AppendVersion_spec vl1 l n held c no_ext Hi1 Hcur Hcl Hn0 (Hh c)) as (vl2 & -> & Hi2 & Hcur2 & Hf2). exists vl2. split; [done|].
  intros vs2 Hv Hp Hc. split; rewrite ?Hv, ?Hp, ?Hc; try done.
  - set_solver.
  - intros m Hm. apply elem_of_app. left. apply list_elem_of_filter. split; [done|by apply Hhin].
  - exists files. split; [rewrite Hf2; [done|set_solver]|done].
Qed.

(** The new version is dropped. *)
Lemma discard_mem vs a used held l c vl1 n pointers :
  vset_mem vs a used held l c -> versions_inv vl1 l (Some n) (rc_of held c) no_ext -> vl_current vl1 = Some c ->
  (forall m, m ≠ n -> vfiles vl1 m = vfiles (vs_versions vs) m) -> length pointers = Z.to_nat config.kNumLevels -> Forall (fun p => zlen p < 2 ^ 32) pointers ->
  exists vl2, delete_Version vl1 n = Ret vl2 /\
    forall vs2, vs_versions vs2 = vl2 -> compact_pointer_ vs2 = pointers -> vs_comparator vs2 = vs_comparator vs -> vset_mem vs2 a used held l c.
Proof.
  intros [Hi0 _ Hcl Hh Hhin (base & Hbase & Hden) _ _ Hcmp Habs Hdis] Hi1 Hcur Hsame Hpl Hps. destruct (vi_detached _ _ _ _ _ Hi1 n eq_refl) as (Hnl & _).
  destruct (delete_detached vl1 l n _ _ Hi1) as (vl2 & -> & Hi2 & Hcur2 & Hs2). exists vl2. split; [done|].
  intros vs2 Hv Hp Hc. split; rewrite ?Hv, ?Hp, ?Hc; try done; [by rewrite Hcur2|]. exists base. split; [|done]. assert (c ≠ n) by (intros ->; done).
  unfold vfiles. rewrite Hs2 by done. fold (vfiles vl1 c). by rewrite Hsame.
Qed.

(** ** LogAndApply *)

(** The current version and the log numbers, as every thread sees them. *)
Definition same_current vs vs' : Prop :=
  vl_current (vs_versions vs') = vl_current (vs_versions vs) /\
  (forall c, vl_current (vs_versions vs) = Some c -> vfiles (vs_versions vs') c = vfiles (vs_versions vs) c) /\
  vs_log_number vs' = vs_log_number vs /\ vs_prev_log_number vs' = vs_prev_log_number vs.

Lemma on_disk_frame e e' dbname num edits :
  fs e' (CurrentFileName dbname) = fs e (CurrentFileName dbname) -> fs e' (manifest_name dbname num) = fs e (manifest_name dbname num) ->
  on_disk e dbname num edits -> on_disk e' dbname num edits.
Proof. intros Hc Hm [Hd (img & Hi & Hr)]. split; [by rewrite Hc|]. exists img. by rewrite Hm. Qed.

(** An open manifest is on the disk. *)
Lemma descriptor_on_disk e vs w num edits :
  fs e (CurrentFileName (vs_dbname vs)) = Some (current_line num) -> descriptor_inv e vs w (manifest_name (vs_dbname vs) num) edits ->
  on_disk e (vs_dbname vs) num edits.
Proof.
  intros Hc [_ _ _ Hw Hb _]. split; [done|]. exists (hbytes e (dest_ w)). split; [by apply writes_fs|]. rewrite Hb. apply log_reads_whole.
Qed.

Lemma drop_descriptor_versions e vs name e' vs' vl :
  drop_descriptor e vs name = (e', vs') -> drop_descriptor e (set_versions vs vl) name = (e', set_versions vs' vl).
Proof. unfold drop_descriptor. by intros [= <- <-]. Qed.

(** What the version beside the list is good for: it can be installed or dropped, and a snapshot
    of the current version can be written while it is there. *)
Record prepared vs (a : AbsVersion) (used : list (Z * Z)) (held : nat -> Z) (edit : VersionEdit) vs1 (n : nat) : Prop := mkPrepared {
  pr_vs : exists vl1, vs1 = set_pointer_array (set_versions vs vl1) (set_pointers (compact_pointer_ vs) (compact_pointers_ edit));
  pr_install : exists vl2, AppendVersion (vs_versions vs1) n = Ret vl2 /\
    forall vs2, vs_versions vs2 = vl2 -> compact_pointer_ vs2 = compact_pointer_ vs1 -> vs_comparator vs2 = vs_comparator vs ->
      exists l c, vset_mem vs2 (abs_apply a edit) (used ++ edit_pairs edit) held l c;
  pr_discard : exists vl3, delete_Version (vs_versions vs1) n = Ret vl3 /\
    forall vs2, vs_versions vs2 = vl3 -> compact_pointer_ vs2 = compact_pointer_ vs1 -> vs_comparator vs2 = vs_comparator vs ->
      (exists l c, vset_mem vs2 a used held l c) /\
      (vs_log_number vs2 = vs_log_number vs -> vs_prev_log_number vs2 = vs_prev_log_number vs -> same_current vs vs2);
  pr_snapshot : exists vc, current_version (vs_versions vs1) = Ret vc /\ history (vs_comparator vs) [snapshot_edit vs1 vc] used a;
}.

Lemma prepare_prepared vs a used held l c edit :
  vset_mem vs a used held l c -> vset_numbers vs -> edit_fits vs a used edit ->
  exists vl n vs1, new_Version (vs_versions vs) = (vl, n) /\
    (let! vs := build_version (set_versions vs vl) n [completed vs edit] in finalize_version vs n) = Ret vs1 /\ prepared vs a used held edit vs1 n.
Proof.
  intros Hm Hnum Hfit. destruct (prepare_spec vs a used held l c edit Hm Hnum Hfit) as (vl & n & vs1 & vl1 & files & Hnew & Hprep & -> & Hi1 & Hcur1 & Hfn & Hdn & Hsame).
  eexists vl, n, _. split; [done|]. split; [exact Hprep|].
  destruct (pointers_size vs edit (ef_ok _ _ _ _ Hfit) (vm_pointer_size _ _ _ _ _ _ Hm) (vm_pointers _ _ _ _ _ _ Hm)) as [Hps Hpl].
  set (ps := set_pointers (compact_pointer_ vs) (compact_pointers_ edit)) in *. destruct (vi_detached _ _ _ _ _ Hi1 n eq_refl) as (Hnl & _).
  assert (c ≠ n) as Hcn by (intros ->; apply Hnl, (vm_in _ _ _ _ _ _ Hm)).
  assert (abs_ok (used ++ edit_pairs edit) (abs_apply a edit)) as Habs'.
  { apply abs_apply_ok; [apply (ef_ok _ _ _ _ Hfit)|set_solver|]. eapply abs_ok_mono; [|apply (vm_abs _ _ _ _ _ _ Hm)]. set_solver. }
  split; cbn [set_pointer_array set_versions vs_versions compact_pointer_].
  - by exists vl1.
  - destruct (install_mem vs a (abs_apply a edit) used (used ++ edit_pairs edit) held l c vl1 n files ps Hm Hi1 Hcur1 Hfn Hdn Habs' (ef_disjoint _ _ _ _ Hfit) Hpl Hps) as (vl2 & Happ & Hmem2).
    exists vl2. split; [done|]. intros vs2 k1 k2 k3. eexists _, n. by apply Hmem2.
  - destruct (discard_mem vs a used held l c vl1 n ps Hm Hi1 Hcur1 Hsame Hpl Hps) as (vl3 & Hdel & Hmem3). exists vl3. split; [done|].
    intros vs2 k1 k2 k3. pose proof (Hmem3 vs2 k1 k2 k3) as Hm3. split; [by exists l, c|]. intros k4 k5. pose proof (vm_current _ _ _ _ _ _ Hm) as Hc. pose proof (vm_current _ _ _ _ _ _ Hm3) as Hc3.
    split; [congruence|]. split; [|done]. intros c' Hc'. assert (c' = c) as -> by congruence. rewrite <- Hsame by done.
    destruct (delete_detached vl1 l n _ _ Hi1) as (vl4 & E4 & _ & _ & Hs4). rewrite Hdel in E4. injection E4 as <-. unfold vfiles. by rewrite k1, Hs4.
  - destruct (vm_files _ _ _ _ _ _ Hm) as (base & Hb & Hd). rewrite <- Hsame in Hb by done. destruct (vfiles_at _ _ _ Hb) as (vc & Hvc & Hvf).
    exists vc. unfold current_version, version_at. rewrite Hcur1, Hvc. split; [done|]. rewrite <- Hvf in Hd.
    apply (snapshot_history (set_pointer_array (set_versions vs vl1) ps) vc used a); try done.
    + by apply (vi_levels _ _ _ _ _ Hi1 c). + apply (vm_abs _ _ _ _ _ _ Hm). + apply (vm_disjoint _ _ _ _ _ _ Hm). + apply (vm_cmp _ _ _ _ _ _ Hm).
Qed.

(** What [LogAndApply] does, seen from its caller. *)
Definition applied e vs (a : AbsVersion) (used : list (Z * Z)) (held : nat -> Z) (edit : VersionEdit) (r : outcome (E * VersionSet FH * VersionEdit * Status)) : Prop :=
  exists e' vs' s, r = Ret (e', vs', completed vs edit, s) /\ vs_dbname vs' = vs_dbname vs /\ vs_comparator vs' = vs_comparator vs /\
    (s = OK -> vset_inv e' vs' (abs_apply a edit) (used ++ edit_pairs edit) held /\
       vs_log_number vs' = edit_log vs edit /\ vs_prev_log_number vs' = edit_prev vs edit /\
       vs_last_sequence vs' = vs_last_sequence vs /\ vs_next_file_number vs' = vs_next_file_number vs /\ data_kept (vs_dbname vs) e e' /\ descriptor_log_ vs' ≠ None) /\
    (s ≠ OK -> env_ok e' /\ same_current vs vs' /\
       (saved e' (vs_dbname vs) (vs_comparator vs) used a (vs_log_number vs) (vs_prev_log_number vs) \/
        saved e' (vs_dbname vs) (vs_comparator vs) (used ++ edit_pairs edit) (abs_apply a edit) (edit_log vs edit) (edit_prev vs edit)) /\
       (descriptor_log_ vs = None -> vset_inv e' vs' a used held)).

(** After a successful write. *)
Lemma conclude_ok e vs a used held edit e2 vs1 n fo wo w edits name :
  prepared vs a used held edit vs1 n -> vset_numbers vs -> edit_fits vs a used edit -> env_ok e2 -> data_kept (vs_dbname vs) e e2 ->
  fs e2 (CurrentFileName (vs_dbname vs)) = Some (current_line (vs_manifest_file_number vs)) ->
  descriptor_inv e2 (set_descriptor vs1 fo wo) w (manifest_name (vs_dbname vs) (vs_manifest_file_number vs)) (edits ++ [completed vs edit]) ->
  history (vs_comparator vs) edits used a ->
  applied e vs a used held edit (conclude e2 (set_descriptor vs1 fo wo) n (completed vs edit) name OK).
Proof.
  intros [(vl1 & ->) (vl2 & Happ & Hmem) _ _] Hnum Hfit He2 Hdk Hcurf Hde Hhist. destruct (complete_edit_spec vs a used edit Hnum Hfit) as (_ & _ & _ & Hlog & Hprev).
  unfold conclude. cbn [ok]. cbn [set_descriptor vs_versions set_pointer_array set_versions] in *. rewrite Happ. cbn [obind].
  eexists _, _, OK. split; [reflexivity|]. split; [done|]. split; [done|]. split; [|done]. intros _. assert (wo = Some w) as Hwo by exact (de_log _ _ _ _ _ Hde). split; [|by rewrite Hwo]. split; [done| | |].
  - by apply Hmem.
  - destruct Hnum as (k1 & k2 & k3 & k4 & k5). split; [done|]. split; [done|]. split; [done|]. split; [exact Hlog|exact Hprev].
  - exists (vs_manifest_file_number vs), (edits ++ [completed vs edit]), (vs_next_file_number vs), (vs_last_sequence vs).
    split; [exact (descriptor_on_disk e2 (set_descriptor (set_pointer_array (set_versions vs vl1) _) fo wo) w _ _ Hcurf Hde)|]. split; [by apply (history_snoc vs)|]. split; [apply completed_numbers; try done; apply (ef_room _ _ _ _ Hfit)|].
    split; [destruct Hnum; lia|]. right. split; [done|]. exists w. destruct Hde. by split.
Qed.

Lemma LogAndApply_new e vs a used held edit vs1 n num edits next last :
  env_ok e -> prepared vs a used held edit vs1 n -> vset_numbers vs -> edit_fits vs a used edit -> descriptor_log_ vs = None -> descriptor_file_ vs = None ->
  on_disk e (vs_dbname vs) num edits -> history (vs_comparator vs) edits used a -> numbers_are edits (vs_log_number vs) (vs_prev_log_number vs) next last ->
  0 < num < next -> num < vs_manifest_file_number vs ->
  applied e vs a used held edit (let! (env, vs1, name, s) := write_manifest e vs1 (completed vs edit) in conclude env vs1 n (completed vs edit) name s).
Proof.
  intros He Hpr Hnum Hfit Hdl Hdf Hdisk Hhist Hnums Hrange Hlt. pose proof Hpr as [(vl1 & Hvs1) _ (vl3 & Hdel & Hmem) (vc & Hvc & Hsnap)].
  destruct (complete_edit_spec vs a used edit Hnum Hfit) as (_ & Hok & _). assert (0 < vs_manifest_file_number vs < 2 ^ 64) as Hmn by (destruct Hnum; lia).
  assert (vs_dbname vs1 = vs_dbname vs /\ vs_manifest_file_number vs1 = vs_manifest_file_number vs /\ descriptor_log_ vs1 = None /\ descriptor_file_ vs1 = None) as (Hdb & Hmf & Hdl1 & Hdf1) by (by subst vs1).
  assert (edit_ok (snapshot_edit vs1 vc)) as Hsok by (pose proof (hi_ok _ _ _ _ Hsnap) as Hx; apply Forall_cons in Hx as [Hx _]; exact Hx).
  pose proof (write_manifest_new e vs1 vc (completed vs edit)) as Hwr. cbv zeta in Hwr. rewrite Hdb, Hmf in Hwr.
  destruct (Hwr He Hdl1 Hdf1 Hmn Hvc Hsok Hok) as (e2 & fo & wo & s & -> & Hgood & Hbad). cbn [obind]. destruct (decide (s = OK)) as [->|Hs].
  - destruct (Hgood eq_refl) as (He2 & Hdk & Hcurf & w & Hde). by apply (conclude_ok e vs a used held edit e2 vs1 n fo wo w [snapshot_edit vs1 vc]).
  - destruct (Hbad Hs) as (e3 & Hdrop & He3 & Hfs). unfold conclude. destruct (ok s) eqn:Es; [by apply ok_true in Es|].
    change (vs_versions (set_descriptor vs1 fo wo)) with (vs_versions vs1). rewrite Hdel, manifest_name_nonempty. cbn [obind negb]. rewrite (drop_descriptor_versions _ _ _ _ _ vl3 Hdrop).
    assert (on_disk e3 (vs_dbname vs) num edits) as Hdisk3. { apply (on_disk_frame e); [| |done]; apply (Hfs num); try tauto; destruct Hnum; lia. }
    destruct (Hmem (set_versions (set_descriptor vs1 None None) vl3) eq_refl eq_refl) as [Hm3 Hsame]; [by subst vs1|].
    eexists _, _, s. split; [reflexivity|]. subst vs1. split; [done|]. split; [done|]. split; [done|]. intros _. split; [done|].
    split; [by apply Hsame|]. split; [left; by exists next, last, num, edits|]. intros _. split; [done|done|exact Hnum|].
    exists num, edits, next, last. split; [done|]. split; [done|]. split; [done|]. split; [done|]. by left.
Qed.

Lemma LogAndApply_open e vs a used held edit vs1 n w edits next last :
  env_ok e -> prepared vs a used held edit vs1 n -> vset_numbers vs -> edit_fits vs a used edit ->
  descriptor_inv e vs w (manifest_name (vs_dbname vs) (vs_manifest_file_number vs)) edits -> fs e (CurrentFileName (vs_dbname vs)) = Some (current_line (vs_manifest_file_number vs)) ->
  history (vs_comparator vs) edits used a -> numbers_are edits (vs_log_number vs) (vs_prev_log_number vs) next last -> vs_manifest_file_number vs < next ->
  applied e vs a used held edit (let! (env, vs1, name, s) := write_manifest e vs1 (completed vs edit) in conclude env vs1 n (completed vs edit) name s).
Proof.
  intros He Hpr Hnum Hfit Hde Hcurf Hhist Hnums Hlt. pose proof Hpr as [(vl1 & Hvs1) _ (vl3 & Hdel & Hmem) _]. set (name := manifest_name (vs_dbname vs) (vs_manifest_file_number vs)) in *.
  destruct (complete_edit_spec vs a used edit Hnum Hfit) as (_ & Hok & _ & Hlog & Hprev). assert (descriptor_inv e vs1 w name edits) as Hde1 by (subst vs1; destruct Hde; by split).
  assert (name ≠ CurrentFileName (vs_dbname vs)) as Hnc by (apply manifest_not_current; destruct Hnum; lia).
  destruct (write_manifest_open e vs1 w name edits (completed vs edit) He Hde1 Hok) as (e2 & w2 & s & -> & K & Hw2 & Hgood & Hreads). cbn [obind].
  pose proof K as (He2 & Hfs & _). rewrite <- Hfs in Hcurf by (by apply not_eq_sym). destruct (decide (s = OK)) as [->|Hs].
  - apply (conclude_ok e vs a used held edit e2 vs1 n _ _ w2 edits); try done; try apply Hgood; [|done]. eapply data_kept_keep; [|exact K]. destruct Hnum; lia.
  - unfold conclude. destruct (ok s) eqn:Es; [by apply ok_true in Es|]. cbn [vs_versions set_descriptor]. rewrite Hdel. cbn [obind]. rewrite zlen_nil. cbn [Z.eqb negb].
    destruct (Hmem (set_versions (set_descriptor vs1 (Some (dest_ w)) (Some w2)) vl3) eq_refl eq_refl) as [Hm3 Hsame]; [by subst vs1|].
    eexists _, _, s. split; [reflexivity|]. subst vs1. split; [done|]. split; [done|]. split; [done|]. intros _. split; [done|].
    split; [by apply Hsame|]. split; [|intros Hdl; by rewrite (de_log _ _ _ _ _ Hde) in Hdl]. apply writes_fs in Hw2.
    destruct Hreads as [Hr|Hr]; [left; exists next, last, (vs_manifest_file_number vs), edits|right; exists (vs_next_file_number vs), (vs_last_sequence vs), (vs_manifest_file_number vs), (edits ++ [completed vs edit])];
      (split; [split; [done|by exists (hbytes e2 (dest_ w))]|]); (split; [done || by apply (history_snoc vs)|]); (split; [done || (apply completed_numbers; try done; apply (ef_room _ _ _ _ Hfit))|]); destruct Hnum; lia.
Qed.

Lemma LogAndApply_spec e vs a used held edit :
  vset_inv e vs a used held -> edit_fits vs a used edit -> applied e vs a used held edit (LogAndApply e vs edit).
Proof.
  intros [He (l & c & Hm) Hnum (num & edits & next & last & Hdisk & Hhist & Hnums & Hrange & Hdesc)] Hfit. unfold LogAndApply.
  destruct (complete_edit_spec vs a used edit Hnum Hfit) as (-> & _). cbn [obind].
  destruct (prepare_prepared vs a used held l c edit Hm Hnum Hfit) as (vl & n & vs1 & -> & Hprep & Hpr).
  destruct (build_version (set_versions vs vl) n [completed vs edit]) as [vs0| |]; [|done..]. cbn [obind] in Hprep |- *. rewrite Hprep. cbn [obind].
  destruct Hdesc as [(Hdl & Hdf & Hlt)|(-> & w & Hde)].
  - by apply (LogAndApply_new e vs a used held edit vs1 n num edits next last).
  - destruct Hdisk as [Hcurf _]. apply (LogAndApply_open e vs a used held edit vs1 n w edits next last); try done. lia.
Qed.

(** ** Recover: the versions in memory *)

(** One more reference of others, to [c]. *)
Definition plus_one (held : nat -> Z) (c : nat) : nat -> Z := fun m => held m + if decide (m = c) then 1 else 0.

Lemma set_heap_inv vl l d rc ext ext' h :
  versions_inv vl l d rc ext -> (forall x, 0 <= ext' x) -> counts h (fun x => own (vl_versions vl) x + ext' x) -> versions_inv (set_heap vl h) l d rc ext'.
Proof. intros [Hlk Hd Hb Hn Hr Hdt Hw He Hc] He' Hc'. by split. Qed.

(** A reference to a version that is not current is given back. *)
Lemma version_release vl l held n c ext :
  versions_inv vl l None (rc_of (plus_one held c) n) ext -> c ∈ l -> c ≠ n -> 0 <= held c ->
  exists vl' l', version_Unref vl c = Ret vl' /\ versions_inv vl' l' None (rc_of held n) ext /\ vl_current vl' = vl_current vl /\
    (forall m, m ∈ l' <-> m ∈ l /\ (m = c -> 0 < held c)) /\ forall m, m ∈ l' -> vfiles vl' m = vfiles vl m.
Proof.
  intros Hi Hcl Hne Hc0. destruct (decide (0 < held c)) as [Hp|Hp].
  - destruct (version_Unref_keep vl l None _ ext c Hi Hcl) as (vl1 & E1 & Hi1 & Hcur & _ & Hf1 & _).
    { unfold rc_of, plus_one. rewrite decide_True, decide_False by done. lia. }
    exists vl1, l. split; [done|]. split; [|split; [done|split; [tauto|done]]]. eapply versions_rc; [|exact Hi1]. intros m _. unfold rc_of, plus_one. destruct (decide (m = c)), (decide (m = n)); lia.
  - apply list_elem_of_split in Hcl as (l1 & l2 & ->). destruct (version_Unref_last vl l1 c l2 None _ ext Hi) as (vl1 & E1 & Hi1 & Hcur & Hf1).
    { unfold rc_of, plus_one. rewrite decide_True, decide_False by done. lia. }
    pose proof (vi_linked _ _ _ _ _ Hi) as [_ Hnd]. apply NoDup_cons in Hnd as [_ Hnd]. apply NoDup_app in Hnd as (_ & Hdis & Hnd2). apply NoDup_cons in Hnd2 as [Hc2 _].
    assert (forall m, m ∈ l1 ++ l2 -> m ≠ c) as Hmc. { intros m Hm ->. apply elem_of_app in Hm as [Hm|Hm]; [apply (Hdis c Hm); by left|done]. }
    exists vl1, (l1 ++ l2). split; [done|]. split; [|split; [done|split]].
    + eapply versions_rc; [|exact Hi1]. intros m Hm. unfold rc_of, plus_one. rewrite (decide_False (P := m = c)) by (by apply Hmc). lia.
    + intros m. split; [intros Hm; split; [set_solver|intros ->; by apply Hmc in Hm]|]. intros [Hm Hx]. rewrite elem_of_app, elem_of_cons in Hm. rewrite elem_of_app.
      destruct Hm as [|[->|]]; [by left|by destruct Hp; apply Hx|by right].
    + intros m Hm. unfold vfiles. rewrite Hf1; [done|by apply Hmc].
Qed.

(** What the builder adds is counted beside the versions. *)
Definition added_ext (b : Builder) : nat -> Z := fun x => occ x (all_added b).

Lemma install_recovered_spec vs l c held b r a base :
  versions_inv (vs_versions vs) l None (rc_of held c) (added_ext b) -> vl_current (vs_versions vs) = Some c -> c ∈ l -> 0 < held c ->
  (forall m, 0 <= held m) -> (forall m, 0 < held m -> m ∈ l) -> builder_wf b -> builder_denotes b a -> levels_disjoint a ->
  vfiles (vs_versions vs) c = Some base -> base_files b = base ->
  exists vl' l' n files, install_recovered vs b r =
      Ret (set_numbers (set_versions vs vl') (u64 (default 0 (rec_next_file r) + 1)) (default 0 (rec_next_file r)) (default 0 (rec_last_sequence r))
             (default 0 (rec_log_number r)) (default 0 (rec_prev_log_number r))) /\
    versions_inv vl' l' None (rc_of held n) (added_ext b) /\ vl_current vl' = Some n /\ n ∈ l' /\ n ≠ c /\ (forall m, 0 < held m -> m ∈ l') /\
    vfiles vl' n = Some files /\ denotes_levels files a.
Proof.
  intros Hi Hcur Hcl Hc0 Hh Hhin Hbw Hbd Hdis Hbase Hbf. unfold install_recovered. destruct (new_Version_spec _ _ _ _ Hi) as (vl & n & -> & Hi0 & Hcur0 & Hnl & Hn0 & Hs0).
  assert (n ≠ c) as Hnc by (intros ->; done). assert (vfiles vl c = Some base) as Hbase0 by (unfold vfiles; by rewrite Hs0).
  destruct (vfiles_at _ _ _ Hbase0) as (vc & Hvc & Hvf).
  destruct (SaveTo_spec (vl_heap vl) (own (vl_versions vl)) b a Hbw Hbd (vi_counts _ _ _ _ _ Hi0) Hdis) as (h' & files & -> & Hlw & Hden & Hcnt).
  { apply own_nonneg. } { intros f Hf. pose proof (own_le _ _ _ (f_addr f) Hvc) as Hle. rewrite Hvf in Hle. rewrite Hbf in Hf. pose proof (occ_elem f _ Hf). lia. }
  cbn [obind]. unfold version_at. rewrite Hn0. cbn [obind].
  pose proof (set_files_spec vl l n _ _ h' files Hi0 Hn0 Hlw Hcnt) as Hi1.
  destruct (finalize_version_spec (set_versions vs (set_version (set_heap vl h') n (set_files empty_version files))) l n _ _ files Hi1) as (bs & bl & -> & Hi2 & _).
  { cbn [set_versions vs_versions set_version vl_versions]. apply lookup_insert_eq. }
  cbn [obind]. set (v := mkVersion 0 files None (-1) bs bl) in *. set (vl2 := set_version (set_version (set_heap vl h') n (set_files empty_version files)) n v).
  assert (held n = 0) as Hn1. { destruct (decide (0 < held n)) as [Hp|Hp]; [by apply Hhin in Hp|]. specialize (Hh n). lia. }
  destruct (AppendVersion_spec vl2 l n held c (added_ext b) Hi2) as (vl3 & Happ & Hi3 & Hcur3 & Hf3); try done.
  { unfold vl2, set_version, set_heap. cbn [vl_current]. congruence. }
  match goal with |- context [AppendVersion ?x n] => change x with vl2 end. rewrite Happ. cbn [obind].
  exists vl3, (filter (fun m => 0 < held m) l ++ [n]), n, files. split; [done|]. split; [done|]. split; [done|]. split; [set_solver|]. split; [done|].
  split; [intros m Hm; apply elem_of_app; left; apply list_elem_of_filter; split; [done|by apply Hhin]|]. split; [|done]. rewrite Hf3 by set_solver.
  unfold vfiles, vl2, set_version. cbn [vl_versions]. by rewrite lookup_insert_eq.
Qed.

Lemma release_builder_spec vs l n c held b a used files :
  versions_inv (vs_versions vs) l None (rc_of (plus_one held c) n) (added_ext b) -> vl_current (vs_versions vs) = Some n -> n ∈ l -> n ≠ c ->
  (forall m, 0 <= held m) -> (forall m, 0 < plus_one held c m -> m ∈ l) -> vfiles (vs_versions vs) n = Some files -> denotes_levels files a ->
  length (compact_pointer_ vs) = Z.to_nat config.kNumLevels -> Forall (fun p => zlen p < 2 ^ 32) (compact_pointer_ vs) -> zlen (vs_comparator vs) < 2 ^ 32 ->
  abs_ok used a -> levels_disjoint a ->
  exists vl' l', release_builder vs b c = Ret (set_versions vs vl') /\ vset_mem (set_versions vs vl') a used held l' n.
Proof.
  intros Hi Hcur Hnl Hnc Hh Hhin Hf Hd Hpl Hps Hcmp Habs Hdis. unfold release_builder, delete_Builder.
  destruct (release_added_spec (vl_heap (vs_versions vs)) _ (levels_ b) (vi_counts _ _ _ _ _ Hi)) as (h' & -> & Hcnt).
  { intros x. pose proof (own_nonneg (vl_versions (vs_versions vs)) x). unfold added_ext, all_added. lia. }
  cbn [obind]. assert (versions_inv (set_heap (vs_versions vs) h') l None (rc_of (plus_one held c) n) no_ext) as Hi1.
  { eapply set_heap_inv; [exact Hi|by intros|]. eapply counts_proper; [|exact Hcnt]. intros x. unfold added_ext, all_added, no_ext. simpl. lia. }
  assert (0 < plus_one held c c) as Hcp. { unfold plus_one. rewrite decide_True by done. specialize (Hh c). lia. }
  destruct (version_release _ l held n c no_ext Hi1 (Hhin c Hcp) (not_eq_sym Hnc) (Hh c)) as (vl2 & l2 & -> & Hi2 & Hcur2 & Hl2 & Hf2). cbn [obind].
  assert (n ∈ l2) as Hn2 by (apply Hl2; split; [done|by intros ->]). exists vl2, l2. split; [done|]. split; cbn [set_versions vs_versions compact_pointer_ vs_comparator]; try done.
  - by rewrite Hcur2.
  - intros m Hm. apply Hl2. split; [apply Hhin; unfold plus_one; destruct (decide _); lia|by intros ->].
  - exists files. split; [|done]. rewrite Hf2 by done. exact Hf.
Qed.

(** ** Recover: the manifest *)

Definition manifest_base (num : Z) : bytes := str "MANIFEST-" ++ decimal06 num.

Lemma read_current_spec fuel e vs num :
  env_ok e -> fs e (CurrentFileName (vs_dbname vs)) = Some (current_line num) -> (length (current_line num) < fuel)%nat ->
  exists e', read_current fuel e vs = Ret (e', inr (manifest_base num)) /\ keep e e' (CurrentFileName (vs_dbname vs)) /\
    fs e' (CurrentFileName (vs_dbname vs)) = Some (current_line num).
Proof.
  intros He Hf Hfuel. unfold read_current. destruct (ReadFileToString_spec fuel e _ _ He Hf Hfuel) as (e' & -> & K & Hf'). cbn [obind ok negb].
  assert (current_line num = manifest_base num ++ [x0a]) as Hl by (unfold current_line, manifest_base; by rewrite <- app_assoc).
  rewrite Hl. rewrite last_snoc, bool_decide_eq_true_2 by done. destruct (Z.eqb_spec (zlen (manifest_base num ++ [x0a])) 0) as [Hz|_].
  { rewrite zlen_app in Hz. pose proof (zlen_nonneg (manifest_base num)). change (zlen [x0a]) with 1 in Hz. lia. }
  cbn [orb negb]. rewrite zlen_app. change (zlen [x0a]) with 1. replace (zlen (manifest_base num) + 1 - 1) with (zlen (manifest_base num)) by lia.
  rewrite ztake_app_len by done. exists e'. split; [done|]. split; [done|]. rewrite Hf', Hf. by rewrite Hl.
Qed.

Lemma ReuseManifest_spec e vs num img :
  env_ok e -> fs e (manifest_name (vs_dbname vs) num) = Some img -> 0 < num < 2 ^ 64 -> descriptor_log_ vs = None -> descriptor_file_ vs = None ->
  exists e' vs' reused, ReuseManifest e vs (manifest_name (vs_dbname vs) num) (manifest_base num) = Ret (e', vs', reused) /\
    keep e e' (manifest_name (vs_dbname vs) num) /\ fs e' (manifest_name (vs_dbname vs) num) = Some img /\
    if (reused : bool) then reuse_logs (vs_options vs) = true /\ exists h, let w := mkWriter h (zlen img mod kBlockSize) InitTypeCrc in
        vs' = set_numbers (set_descriptor vs (Some h) (Some w)) (vs_next_file_number vs) num (vs_last_sequence vs) (vs_log_number vs) (vs_prev_log_number vs) /\
        writes e' h (manifest_name (vs_dbname vs) num) /\ hbytes e' h = img
    else vs' = vs.
Proof.
  intros He Hf Hn Hdl Hdf. set (name := manifest_name (vs_dbname vs) num) in *. unfold ReuseManifest.
  assert (exists e' vs' reused, Ret (e, vs, false) = Ret (e', vs', reused) /\ keep e e' name /\ fs e' name = Some img /\ (if (reused : bool) then
    reuse_logs (vs_options vs) = true /\ exists h, let w := mkWriter h (zlen img mod kBlockSize) InitTypeCrc in
        vs' = set_numbers (set_descriptor vs (Some h) (Some w)) (vs_next_file_number vs) num (vs_last_sequence vs) (vs_log_number vs) (vs_prev_log_number vs) /\
        writes e' h name /\ hbytes e' h = img else vs' = vs)) as Hno.
  { exists e, vs, false. split; [done|]. split; [by apply keeps_refl|]. done. }
  destruct (reuse_logs (vs_options vs)); cbn [negb]; [|exact Hno]. unfold manifest_base. rewrite ParseFileName_manifest by lia. rewrite (file_size_good _ _ _ He Hf). cbn [ok negb orb].
  destruct (_ <=? _); [exact Hno|]. rewrite Hdl, Hdf. cbn [oassert obind]. destruct (NewAppendableFile e name) as [[e1 s1] r] eqn:E1.
  destruct (new_appendable _ _ _ _ _ _ He Hf E1) as (K1 & Hf1 & Hopen). destruct (ok s1) eqn:Es1; cbn [negb].
  - apply ok_true in Es1. destruct (Hopen Es1) as (h & -> & Hw & Hb). eexists e1, _, true. split; [reflexivity|]. split; [done|]. split; [congruence|]. split; [done|]. by exists h.
  - assert (s1 ≠ OK) as Hs by (by intros ->). rewrite (no_appendable _ _ _ _ _ _ He Hf E1 Hs). cbn [oassert obind]. exists e1, vs, false. split; [done|]. split; [done|]. split; [congruence|done].
Qed.

(** What the recovered numbers must be. *)
Definition recovered_numbers vs (log prev next last : Z) : Prop :=
  vs_log_number vs = log /\ vs_prev_log_number vs = prev /\ vs_last_sequence vs = last /\ vs_next_file_number vs = next + 1.

Lemma edits_pointers_size edits ps :
  Forall edit_ok edits -> Forall edit_wf edits -> length ps = Z.to_nat config.kNumLevels -> Forall (fun p => zlen p < 2 ^ 32) ps ->
  length (edits_pointers ps edits) = Z.to_nat config.kNumLevels /\ Forall (fun p => zlen p < 2 ^ 32) (edits_pointers ps edits).
Proof.
  intros Hok Hwf. revert ps. induction Hok as [|e edits He _ IH]; intros ps Hl Hp; [done|]. apply Forall_cons in Hwf as [Hw Hwf]. unfold edits_pointers. cbn [foldl].
  destruct (apply_pointers_spec ps _ Hl (ew_pointers _ Hw)) as [_ Hl']. apply IH; [done|done|]. pose proof (ok_pointers _ He) as Hk. clear -Hk Hp. revert ps Hp. unfold set_pointers.
  induction Hk as [|[lv k] l [_ Hk] _ IH]; intros ps Hp; [done|]. cbn [foldl]. apply IH. apply Forall_insert; [done|]. unfold key_ok in Hk. simpl. cbn [snd] in Hk. lia.
Qed.

Lemma denotes_empty base : denotes_levels base abs_empty -> Forall (fun fs => fs = []) base.
Proof.
  intros Hd. apply Forall_lookup_2. intros i gs Hi. destruct (Forall2_lookup_l _ _ _ _ _ Hd Hi) as (m & Hm & Hden). apply lookup_replicate in Hm as [-> _].
  destruct gs as [|f gs]; [done|]. assert ((∅ : gmap Z FileInfo) !! f_number f = Some (info f)) as Hx; [|by rewrite lookup_empty in Hx]. apply Hden. exists f. split; [by left|done].
Qed.

(** The loop over the records of a history, from an empty version set. *)
Lemma recover_loop_history fuel e h name img vs vl1 base l c rc edits used a :
  env_ok e -> reads e h name img -> log_reads img (edit_bytes <$> edits) -> zlen img < Z.of_nat fuel -> history (vs_comparator vs) edits used a ->
  versions_inv vl1 l None rc no_ext -> vfiles vl1 c = Some base -> denotes_levels base abs_empty -> length (compact_pointer_ vs) = Z.to_nat config.kNumLevels ->
  exists reader h' b img', recover_loop fuel (new_Reader (mkOpen e h) true true 0) (set_versions vs vl1) (new_Builder base) no_numbers OK =
      Ret (reader, with_heap (set_versions vs vl1) h' (edits_pointers (compact_pointer_ vs) edits), b, foldl note_numbers no_numbers edits, OK) /\
    reads (of_env (file_ reader)) (of_handle (file_ reader)) name img' /\ keep e (of_env (file_ reader)) name /\ fs (of_env (file_ reader)) name = fs e name /\
    builder_wf b /\ builder_denotes b a /\ base_files b = base /\ versions_inv (set_heap vl1 h') l None rc (added_ext b).
Proof.
  intros He Hr Hlog Hfuel Hh Hi Hbase Hden Hpl. pose proof Hh as [k1 k2 k3 k4 k5 k6 k7]. destruct (read_open e h name img _ fuel He Hr Hlog Hfuel) as (reader & c' & Hall & Hrep & Hrd & K & Hfs).
  destruct (vfiles_at _ _ _ Hbase) as (vc & Hvc & Hvf). pose proof (vi_levels _ _ _ _ _ Hi c vc Hvc) as Hlw. rewrite Hvf in Hlw.
  destruct (new_Builder_wf base Hlw) as [Hw Hadd].
  destruct (apply_all_spec (vl_heap vl1) (own (vl_versions vl1)) (compact_pointer_ vs) (new_Builder base) abs_empty edits) as (h1 & b & Hap & Hw1 & Hd1 & Hc1 & Hbf); try done.
  { by apply new_Builder_denotes. }
  { eapply counts_proper; [|exact (vi_counts _ _ _ _ _ Hi)]. intros x. rewrite Hadd. change (occ x []) with 0. unfold no_ext. done. }
  { intros lv n _ (fs' & s & Hfs' & Hs & Hn). cbn [new_Builder base_files levels_] in *. apply lookup_replicate in Hs as [-> _]. cbn [ls_added_files] in Hn. rewrite app_nil_r in Hn.
    pose proof (Forall_lookup_1 _ _ _ _ (denotes_empty _ Hden) Hfs') as ->. by apply not_elem_of_nil in Hn. }
  exists reader, h1, b, c'. split; [|split; [done|split; [done|split; [done|split; [done|split; [by rewrite <- k6|split; [done|]]]]]]].
  - by apply (recover_loop_spec fuel _ _ edits (set_versions vs vl1)).
  - eapply set_heap_inv; [exact Hi|intros x; apply occ_nonneg|]. exact Hc1.
Qed.

Lemma mark_numbers vs n vl k1 k2 k3 k4 k5 :
  set_numbers (set_versions (MarkFileNumberUsed vs n) vl) k1 k2 k3 k4 k5 = set_numbers (set_versions vs vl) k1 k2 k3 k4 k5.
Proof. unfold MarkFileNumberUsed. by destruct (_ <=? _). Qed.

Lemma mark_versions vs n : vs_versions (MarkFileNumberUsed vs n) = vs_versions vs.
Proof. unfold MarkFileNumberUsed. by destruct (_ <=? _). Qed.

Lemma recovered_disk e e4 vs vs4 used a num edits img log prev next last (reused : bool) :
  env_ok e -> history (vs_comparator vs) edits used a -> numbers_are edits log prev next last -> 0 < num < next -> log_reads img (edit_bytes <$> edits) ->
  (reuse_logs (vs_options vs) = true -> img = log_layout 0 (edit_bytes <$> edits)) ->
  descriptor_log_ vs = None -> descriptor_file_ vs = None -> vs_log_number vs = log -> vs_prev_log_number vs = prev -> vs_manifest_file_number vs = next ->
  fs e4 (CurrentFileName (vs_dbname vs)) = Some (current_line num) -> fs e4 (manifest_name (vs_dbname vs) num) = Some img ->
  (if reused then reuse_logs (vs_options vs) = true /\ exists h, let w := mkWriter h (zlen img mod kBlockSize) InitTypeCrc in
        vs4 = set_numbers (set_descriptor vs (Some h) (Some w)) (vs_next_file_number vs) num (vs_last_sequence vs) (vs_log_number vs) (vs_prev_log_number vs) /\
        writes e4 h (manifest_name (vs_dbname vs) num) /\ hbytes e4 h = img
    else vs4 = vs) ->
  vset_disk e4 vs4 used a.
Proof.
  intros He Hh Hn Hrange Hlog Hwhole Hdl Hdf Hl Hp Hm Hcur Hman Hre. exists num, edits, next, last. destruct reused.
  - destruct Hre as (Hr & h & -> & Hw & Hb). cbn in *. specialize (Hwhole Hr). split; [split; [done|by exists img]|]. split; [done|]. split; [by rewrite Hl, Hp|]. split; [done|]. right. split; [done|].
    eexists. split; try done; cbn [dest_ block_offset_].
    + split; [|done]. cbn [block_offset_]. assert (kBlockSize = 32768) as -> by done. pose proof (Z.mod_pos_bound (zlen img) 32768 ltac:(lia)). lia.
    + by rewrite Hb.
    + rewrite Hwhole. apply log_at_reopened.
  - subst vs4. split; [split; [done|by exists img]|]. split; [done|]. split; [by rewrite Hl, Hp|]. split; [done|]. left. split; [done|]. split; [done|]. lia.
Qed.

Lemma recover_manifest_spec fuel e vs sm used0 held l c h num img edits used a log prev next last :
  env_ok e -> vset_mem vs abs_empty used0 held l c -> descriptor_log_ vs = None -> descriptor_file_ vs = None ->
  fs e (CurrentFileName (vs_dbname vs)) = Some (current_line num) -> fs e (manifest_name (vs_dbname vs) num) = Some img -> reads e h (manifest_name (vs_dbname vs) num) img ->
  log_reads img (edit_bytes <$> edits) -> history (vs_comparator vs) edits used a -> numbers_are edits log prev next last -> 0 < num < next -> zlen img < Z.of_nat fuel ->
  (reuse_logs (vs_options vs) = true -> img = log_layout 0 (edit_bytes <$> edits)) ->
  exists e' vs' sm', recover_manifest fuel e vs sm (manifest_base num) (manifest_name (vs_dbname vs) num) h = Ret (e', vs', sm', OK) /\
    (vset_inv e' vs' a used held /\ recovered_numbers vs' log prev next last /\ vs_dbname vs' = vs_dbname vs /\ vs_comparator vs' = vs_comparator vs) /\
    (forall m, fs e' m = fs e m) /\ vs_options vs' = vs_options vs /\ (reuse_logs (vs_options vs) = false -> sm' = true).
Proof.
  intros He Hm Hdl Hdf Hcurf Hmanf Hrd Hlog Hhist Hnums Hrange Hfuel Hwhole. unfold recover_manifest. pose proof Hm as [Hi Hcur Hcl Hh Hhin (base & Hbase & Hden) Hpl Hps Hcmp _ _]. rewrite Hcur.
  set (name := manifest_name (vs_dbname vs) num) in *. assert (0 < num < 2 ^ 64) as Hnum by (destruct Hnums as (? & _ & _ & _ & _ & _ & ? & _); lia).
  assert (name ≠ CurrentFileName (vs_dbname vs)) as Hnc by (by apply manifest_not_current).
  destruct (version_Ref_spec _ _ _ _ _ c Hi Hcl) as (vl1 & -> & Hi1 & Hcur1 & _ & Hf1 & _). cbn [obind]. rewrite <- Hf1 in Hbase. destruct (vfiles_at _ _ _ Hbase) as (vc & Hvc & Hvf).
  unfold version_at. rewrite Hvc. cbn [obind]. rewrite Hvf. change (mkRecovered None None None None) with no_numbers.
  destruct (recover_loop_history fuel e h name img vs vl1 base l c _ edits used a He Hrd Hlog Hfuel Hhist Hi1 Hbase Hden Hpl) as (reader & h1 & b & img' & -> & Hr1 & K1 & Hfs1 & Hbw & Hbd & Hbf & Hi2).
  cbn [obind ok]. destruct (delete_reader _ _ _ _ (keeps_ok _ _ _ K1) Hr1) as [K2 Hfs2]. set (e2 := file_delete _ _) in *. pose proof (keeps_trans _ _ _ _ K1 K2) as K12.
  destruct Hnums as (p & Hnn & Hprev & Hlogok & Hprevok & Hlastok & Hnext & Hlt1 & Hlt2). rewrite Hnn. unfold check_recovered. cbn [rec_next_file rec_log_number rec_last_sequence rec_prev_log_number ok default].
  destruct (edits_pointers_size edits (compact_pointer_ vs) (hi_ok _ _ _ _ Hhist) (hi_wf _ _ _ _ Hhist) Hpl Hps) as [Hpl' Hps'].
  set (vs1 := with_heap (set_versions vs vl1) h1 (edits_pointers (compact_pointer_ vs) edits)). set (vs2 := MarkFileNumberUsed (MarkFileNumberUsed vs1 (default 0 p)) (default 0 (Some log))).
  assert (vs_versions vs2 = set_heap vl1 h1) as Hv2 by (unfold vs2; by rewrite !mark_versions).
  assert (versions_inv (vs_versions vs2) l None (rc_of (plus_one held c) c) (added_ext b)) as Hi3.
  { rewrite Hv2. eapply versions_rc; [|exact Hi2]. intros m _. unfold rc_of, plus_one. destruct (decide (m = c)); lia. }
  destruct (install_recovered_spec vs2 l c (plus_one held c) b (mkRecovered (Some log) p (Some next) (Some last)) a base) as (vl3 & l3 & n & files & Hins & Hi4 & Hcur4 & Hn4 & Hnc4 & Hhin4 & Hf4 & Hd4); try done.
  { rewrite Hv2. cbn [set_heap vl_current]. congruence. } { unfold plus_one. rewrite decide_True by done. specialize (Hh c). lia. }
  { intros m. unfold plus_one. specialize (Hh m). destruct (decide _); lia. } { intros m. unfold plus_one. destruct (decide (m = c)) as [->|]; [done|]. intros Hp. apply Hhin. lia. }
  { apply (hi_disjoint _ _ _ _ Hhist). } { rewrite Hv2. exact Hbase. }
  match goal with |- context [install_recovered ?x b _] => change x with vs2 end. rewrite Hins. cbn [obind rec_next_file rec_log_number rec_last_sequence rec_prev_log_number default]. unfold vs2. rewrite !mark_numbers.
  cbn [id].
  rewrite (u64_small (next + 1)) by lia. rewrite Hprev. set (vs3 := set_numbers (set_versions vs1 vl3) (next + 1) next last log prev).
  destruct (ReuseManifest_spec e2 vs3 num img (keeps_ok _ _ _ K12)) as (e4 & vs4 & reused & Hre & K4 & Hfs4 & Hcase); try done.
  { change (vs_dbname vs3) with (vs_dbname vs). fold name. congruence. }
  change (vs_dbname vs3) with (vs_dbname vs) in Hre, K4, Hfs4. fold name in Hre, K4, Hfs4. rewrite Hre. cbn [obind].
  assert (fs e4 (CurrentFileName (vs_dbname vs)) = Some (current_line num)) as Hcur5.
  { pose proof (keeps_trans _ _ _ _ K12 K4) as (_ & Hf & _). by rewrite Hf by (by apply not_eq_sym). }
  assert (vs_versions vs4 = vl3 /\ compact_pointer_ vs4 = edits_pointers (compact_pointer_ vs) edits /\ vs_comparator vs4 = vs_comparator vs /\ vs_dbname vs4 = vs_dbname vs /\
    recovered_numbers vs4 log prev next last /\ vs_options vs4 = vs_options vs /\ 0 < vs_manifest_file_number vs4 <= next) as (Hv4 & Hp4 & Hc4 & Hdb4 & Hrn4 & Ho4 & Hmf4).
  { destruct reused; [destruct Hcase as (_ & h' & -> & _)|subst vs4]; (do 6 (split; [done|])); cbn; lia. }
  assert (forall m, fs e4 m = fs e m) as Hall4.
  { intros m. destruct (decide (m = name)) as [->|Hne]; [congruence|]. by rewrite (proj1 (proj2 K4)), (proj1 (proj2 K12)). }
  assert (reuse_logs (vs_options vs) = false -> (if reused then sm else true) = true) as Hsm4.
  { intros Hno. destruct reused; [|done]. destruct Hcase as [Hr _]. change (vs_options vs3) with (vs_options vs) in Hr. congruence. }
  destruct (release_builder_spec vs4 l3 n c held b a used files) as (vl5 & l5 & -> & Hmem5); rewrite ?Hv4, ?Hp4, ?Hc4; try done.
  { by apply (history_abs_ok (vs_comparator vs) edits). } { apply (hi_disjoint _ _ _ _ Hhist). }
  cbn [obind]. eexists e4, _, _. split; [reflexivity|]. split; [split; [|split; [done|by split]]|by split]. split.
  - exact (keeps_ok _ _ _ K4).
  - by exists l5, n.
  - destruct Hrn4 as (r1 & r2 & r3 & r4). unfold vset_numbers. cbn [set_versions vs_manifest_file_number vs_next_file_number vs_last_sequence vs_log_number vs_prev_log_number].
    rewrite r1, r2, r3, r4. unfold num_ok in *. lia.
  - assert (vset_disk e4 vs4 used a) as Hd5; [|destruct Hd5 as (q1 & q2 & q3 & q4 & D1 & D2 & D3 & D4 & D5); exists q1, q2, q3, q4; do 4 (split; [done|]); destruct D5 as [D5|(D5 & w & [])]; [by left|right; split; [done|]; exists w; by split]].
    apply (recovered_disk e2 e4 vs3 vs4 used a num edits img log prev next last reused); try done; [exact (keeps_ok _ _ _ K12)|].
    exists p. by rewrite Hnn.
Qed.

Lemma Recover_spec fuel e vs sm used0 held l c num img edits used a log prev next last :
  env_ok e -> vset_mem vs abs_empty used0 held l c -> descriptor_log_ vs = None -> descriptor_file_ vs = None ->
  fs e (CurrentFileName (vs_dbname vs)) = Some (current_line num) -> fs e (manifest_name (vs_dbname vs) num) = Some img -> log_reads img (edit_bytes <$> edits) ->
  history (vs_comparator vs) edits used a -> numbers_are edits log prev next last -> 0 < num < next -> zlen img < Z.of_nat fuel -> (length (current_line num) < fuel)%nat ->
  (reuse_logs (vs_options vs) = true -> img = log_layout 0 (edit_bytes <$> edits)) ->
  exists e' vs' sm', Recover fuel e vs sm = Ret (e', vs', sm', OK) /\
    (vset_inv e' vs' a used held /\ recovered_numbers vs' log prev next last /\ vs_dbname vs' = vs_dbname vs /\ vs_comparator vs' = vs_comparator vs) /\
    (forall m, fs e' m = fs e m) /\ vs_options vs' = vs_options vs /\ (reuse_logs (vs_options vs) = false -> sm' = true).
Proof.
  intros He Hm Hdl Hdf Hcurf Hmanf Hlog Hhist Hnums Hrange Hfuel Hfuel' Hwhole. unfold Recover.
  assert (0 < num < 2 ^ 64) as Hnum by (destruct Hnums as (? & _ & _ & _ & _ & _ & ? & _); lia).
  assert (manifest_name (vs_dbname vs) num ≠ CurrentFileName (vs_dbname vs)) as Hnc by (by apply manifest_not_current).
  destruct (read_current_spec fuel e vs num He Hcurf Hfuel') as (e1 & -> & K1 & Hcur1). cbn [obind].
  change (vs_dbname vs ++ str "/" ++ manifest_base num) with (manifest_name (vs_dbname vs) num).
  pose proof K1 as (He1 & Hf1 & _). assert (fs e1 (manifest_name (vs_dbname vs) num) = Some img) as Hman1 by (by rewrite Hf1).
  destruct (new_sequential e1 _ img He1 Hman1) as (e2 & h & -> & Hrd & K2 & Hf2). cbn [ok negb]. pose proof K2 as (He2 & Hf2' & _).
  destruct (recover_manifest_spec fuel e2 vs sm used0 held l c h num img edits used a log prev next last) as (e' & vs' & sm' & Hrun & Hres & Hall & Hrest); try done; [by rewrite Hf2' by (by apply not_eq_sym)|by rewrite Hf2|].
  exists e', vs', sm'. split; [done|]. split; [done|]. split; [|done]. intros m. rewrite Hall. destruct (decide (m = manifest_name (vs_dbname vs) num)) as [->|Hne]; [by rewrite Hf2, Hf1|]. rewrite Hf2' by done.
  destruct (decide (m = CurrentFileName (vs_dbname vs))) as [->|Hne']; [congruence|by apply Hf1].
Qed.
End Invariant.

(** ** Opening a database *)

Section Open.
Context {E FH : Type} `{env_laws : EnvLaws E FH} `{Crc32c} `{laws : ComparatorLaws}.
Implicit Types (e : E) (vs : VersionSet FH).

Definition fresh_heap : FileHeap := mkFileHeap ∅ 0.
Definition nobody : nat -> Z := fun _ => 0.

Lemma new_VersionSet_spec dbname options cmp :
  zlen cmp < 2 ^ 32 ->
  exists vs, new_VersionSet (H := FH) fresh_heap dbname options cmp = Ret vs /\ vset_mem vs abs_empty [] nobody [1%nat] 1 /\
    descriptor_log_ vs = None /\ descriptor_file_ vs = None /\ vs_dbname vs = dbname /\ vs_comparator vs = cmp /\ vs_options vs = options.
Proof.
  intros Hcmp. unfold new_VersionSet. set (vl0 := mkVersions fresh_heap ∅ (link_head dummy_versions_) 1 None).
  assert (versions_inv vl0 [] None (rc_of nobody 1) no_ext) as Hi0.
  { split; cbn [vl0 vl_links vl_versions vl_next vl_heap].
    - apply link_head_linked.
    - intros n. rewrite lookup_empty. split; [by intros [? ?]|]. intros [Hn|Hn]; [by apply not_elem_of_nil in Hn|done].
    - intros n [Hn|Hn]; [by apply not_elem_of_nil in Hn|done].
    - lia.
    - intros n v Hn. by apply not_elem_of_nil in Hn.
    - done.
    - intros n v Hv. by rewrite lookup_empty in Hv.
    - done.
    - intros x. right. split; [cbn; lia|]. done. }
  destruct (new_Version_spec vl0 [] _ _ Hi0) as (vl1 & n & Hnew & Hi1 & Hcur1 & _ & Hn1 & _). pose proof Hnew as Hnew'. unfold new_Version in Hnew'. cbn [vl0 vl_next] in Hnew'.
  assert (n = 1%nat) as -> by (by injection Hnew' as _ <-). rewrite Hnew. unfold AppendVersion, version_at. rewrite Hn1. cbn [obind empty_version v_refs Z.eqb oassert]. rewrite Hcur1. cbn [vl0 vl_current].
  rewrite bool_decide_eq_false_2 by done. cbn [negb oassert obind].
  destruct (link_version_spec vl1 [] 1 _ no_ext Hi1 eq_refl) as (vl2 & -> & Hi2 & Hcur2 & Hf2). cbn [obind]. eexists. split; [reflexivity|]. split; [|done].
  split; cbn [vs_versions compact_pointer_ vs_comparator]; try done.
  - by left.
  - exists (files_ empty_version). split; [rewrite Hf2; unfold vfiles; by rewrite Hn1|]. apply empty_levels_denote.
  - by repeat constructor.
  - apply abs_empty_ok.
  - intros i m Hm. apply lookup_replicate in Hm as [-> _]. intros n1 n2 x y _ Hx. by rewrite lookup_empty in Hx.
Qed.

(** A database is opened: a new version set, which recovers. *)
Definition open_set (fuel : nat) (e : E) (dbname : bytes) (options : Options) (cmp : bytes) : outcome (E * VersionSet FH * bool * Status) :=
  let! vs := new_VersionSet fresh_heap dbname options cmp in
  Recover fuel e vs false.

(** [fuel] is enough for [CURRENT] and for the manifest it names. *)
Definition enough_fuel (fuel : nat) (e : E) : Prop := forall n img, fs e n = Some img -> zlen img < Z.of_nat fuel.

Lemma recover_saved fuel e vs used a log prev next last :
  env_ok e -> saved_at e (vs_dbname vs) (vs_comparator vs) used a log prev next last -> vset_mem vs abs_empty [] nobody [1%nat] 1 -> descriptor_log_ vs = None -> descriptor_file_ vs = None -> reuse_logs (vs_options vs) = false -> enough_fuel fuel e ->
  exists e' vs' sm', Recover fuel e vs false = Ret (e', vs', sm', OK) /\
    (vset_inv e' vs' a used nobody /\ recovered_numbers vs' log prev next last /\ vs_dbname vs' = vs_dbname vs /\ vs_comparator vs' = vs_comparator vs) /\
    (forall m, fs e' m = fs e m) /\ vs_options vs' = vs_options vs /\ (reuse_logs (vs_options vs) = false -> sm' = true).
Proof.
  intros He (num & edits & [Hcurf (img & Hman & Hlog)] & Hhist & Hnums & Hrange) Hm Hdl Hdf Hre Hfuel.
  apply (Recover_spec fuel e vs false [] nobody [1%nat] 1 num img edits used a log prev next last); try done.
  - by apply (Hfuel _ _ Hman).
  - pose proof (Hfuel _ _ Hcurf) as Hf. unfold zlen in Hf. lia.
  - congruence.
Qed.

Lemma open_saved fuel e dbname options cmp used a log prev next last :
  env_ok e -> saved_at e dbname cmp used a log prev next last -> reuse_logs options = false -> zlen cmp < 2 ^ 32 -> enough_fuel fuel e ->
  exists e' vs' sm', open_set fuel e dbname options cmp = Ret (e', vs', sm', OK) /\ vset_inv e' vs' a used nobody /\
    recovered_numbers vs' log prev next last /\ vs_dbname vs' = dbname /\ vs_comparator vs' = cmp.
Proof.
  intros He Hsaved Hre Hcmp Hfuel. unfold open_set. destruct (new_VersionSet_spec dbname options cmp Hcmp) as (vs & -> & Hm & Hdl & Hdf & <- & <- & <-). cbn [obind].
  destruct (recover_saved fuel e vs used a log prev next last He Hsaved Hm Hdl Hdf Hre Hfuel) as (e' & vs' & sm' & Hrun & Hres & _). by exists e', vs', sm'.
Qed.

(** ** A new database *)

Lemma new_db_history cmp : zlen cmp < 2 ^ 32 -> history cmp [new_db_edit cmp] [] abs_empty.
Proof.
  intros Hc. split.
  - constructor; [|constructor]. split; cbn; try done; try constructor; unfold num_ok; try lia; done.
  - constructor; [|constructor]. split; constructor.
  - constructor; [|constructor]. done.
  - constructor.
  - done.
  - done.
  - intros i m Hm. apply lookup_replicate in Hm as [-> _]. intros n1 n2 x y _ Hx. by rewrite lookup_empty in Hx.
Qed.

Lemma NewDB_spec e dbname cmp :
  env_ok e -> zlen cmp < 2 ^ 32 ->
  exists e' s, NewDB e dbname cmp = Ret (e', s) /\ env_ok e' /\ (s = OK -> saved_at e' dbname cmp [] abs_empty 0 0 2 0).
Proof.
  intros He Hcmp. unfold NewDB. rewrite DescriptorFileName_spec by lia. cbn [obind]. set (name := manifest_name dbname 1). pose proof (new_db_history cmp Hcmp) as Hh.
  assert (edit_ok (new_db_edit cmp)) as Hok by (pose proof (hi_ok _ _ _ _ Hh) as Hx; apply Forall_cons in Hx as [Hx _]; exact Hx).
  destruct (NewWritableFile e name) as [[e1 s1] r] eqn:E1. destruct (new_writable _ _ _ _ _ He E1) as [K1 Hopen]. destruct (ok s1) eqn:Es1; cbn [negb].
  2:{ exists e1, s1. split; [done|]. split; [by eapply keeps_ok|]. by intros ->. }
  apply ok_true in Es1 as ->. destruct (Hopen eq_refl) as (h & -> & Hw1 & Hb1). rewrite EncodeTo_bytes by done. cbn [obind app].
  destruct (log_AddRecord_spec e1 (mkWriter h 0 InitTypeCrc) name (edit_bytes (new_db_edit cmp)) (keeps_ok _ _ _ K1) Hw1) as (e2 & w2 & s2 & -> & K2 & Hw2 & _ & _ & (p & _ & Hb2 & Hfull) & _); [done|].
  cbn [dest_ block_offset_] in *. cbn [obind].
  assert (exists e3 s3, (if ok s2 then file_Close e2 h else (e2, s2)) = (e3, s3) /\ env_ok e3 /\ writes e3 h name /\ (s3 = OK -> s2 = OK /\ fs e3 name = fs e2 name)) as (e3 & s3 & -> & He3 & Hw3 & H3).
  { destruct (ok s2) eqn:Es2; [|exists e2, s2; split; [done|]; split; [by eapply keeps_ok|]; split; [done|]; by intros ->].
    destruct (file_Close e2 h) as [e3 s3] eqn:E3. destruct (close_frame _ _ _ _ _ (keeps_ok _ _ _ K2) Hw2 E3) as (K3 & Hw3 & Hf3). exists e3, s3. split; [done|].
    split; [by eapply keeps_ok|]. split; [done|]. by apply ok_true in Es2. }
  destruct (delete_writer e3 h name He3 Hw3) as [K4 Hf4]. destruct (ok s3) eqn:Es3.
  2:{ destruct (RemoveFile _ _) as [e5 s5] eqn:E5. exists e5, s3. split; [done|]. split; [exact (keeps_ok _ _ _ (remove_frame _ _ _ _ (keeps_ok _ _ _ K4) E5))|]. by intros ->. }
  apply ok_true in Es3. destruct (H3 Es3) as [Hs2 Hf3]. destruct (SetCurrentFile_spec (file_delete e3 h) dbname 1 (keeps_ok _ _ _ K4) ltac:(done)) as (e5 & s5 & tmp & -> & Htmp & He5 & Hf5 & _ & Hcur).
  exists e5, s5. split; [done|]. split; [done|]. intros ->. exists 1, [new_db_edit cmp]. split; [split; [exact Hcur|]|split; [done|split; [|lia]]].
  - exists (log_layout 0 (edit_bytes <$> [new_db_edit cmp])). split; [|apply log_reads_whole]. fold name.
    assert (name ≠ tmp /\ name ≠ CurrentFileName dbname) as [Hn1 Hn2] by (split; [eapply (manifest_not_temp _ 1 1); [lia|lia|done]|apply manifest_not_current; lia]). rewrite Hf5 by done. rewrite Hf4, Hf3, (writes_fs _ _ _ Hw2), Hb2, Hb1, (Hfull Hs2). cbn [fmap list_fmap log_layout]. by rewrite app_nil_r.
  - exists None. unfold num_ok. split; [done|]. split; [done|]. lia.
Qed.

(** ** Clients of a version set *)

(** What a database does with its version set: log an edit, take a file number, advance the
    last sequence number. After an edit that could not be logged it does nothing more. *)
Inductive vset_op := OpApply (edit : VersionEdit) | OpNumber | OpSequence (s : Z).

(** The result has the number of edits that were logged, and the status of the one that was not. *)
Fixpoint run_vset e vs (ops : list vset_op) : outcome (E * VersionSet FH * nat * Status) :=
  match ops with
  | [] => Ret (e, vs, 0%nat, OK)
  | OpApply edit :: ops =>
      let! (e, vs, edit, s) := LogAndApply e vs edit in
      if ok s then let! (e, vs, k, s) := run_vset e vs ops in Ret (e, vs, S k, s)
      else Ret (e, vs, 0%nat, s)
  | OpNumber :: ops => run_vset e (fst (NewFileNumber vs)) ops
  | OpSequence s :: ops => let! vs := SetLastSequenceNumber vs s in run_vset e vs ops
  end.

Definition edits_of (ops : list vset_op) : list VersionEdit :=
  omap (fun o => match o with OpApply e => Some e | _ => None end) ops.

(** [lg], [nx] and [last] are the numbers of the version set. *)
Fixpoint ops_legal (cmp : bytes) (lg nx last : Z) (a : AbsVersion) (used : list (Z * Z)) (ops : list vset_op) : Prop :=
  match ops with
  | [] => True
  | OpApply e :: ops =>
      edit_ok e /\ edit_wf e /\ comparator_fits cmp e /\ NoDup (edit_pairs e) /\ (forall p, p ∈ edit_pairs e -> p ∉ used) /\
      levels_disjoint (abs_apply a e) /\ (has_log_number_ e = true -> lg <= log_number_ e < nx) /\
      (has_prev_log_number_ e = true -> prev_log_number_ e < nx) /\ nx < 2 ^ 64 - 1 /\
      ops_legal cmp (if has_log_number_ e then log_number_ e else lg) nx last (abs_apply a e) (used ++ edit_pairs e) ops
  | OpNumber :: ops => nx + 1 < 2 ^ 64 /\ ops_legal cmp lg (nx + 1) last a used ops
  | OpSequence s :: ops => last <= s < 2 ^ 64 /\ ops_legal cmp lg nx s a used ops
  end.

Lemma set_numbers_inv e vs a used held nx last :
  vset_inv e vs a used held -> vs_next_file_number vs <= nx < 2 ^ 64 -> num_ok last ->
  vset_inv e (set_numbers vs nx (vs_manifest_file_number vs) last (vs_log_number vs) (vs_prev_log_number vs)) a used held.
Proof.
  intros [He (l & c & Hm) Hn (num & edits & next & la & D1 & D2 & D3 & D4 & D5)] Hnx Hl. split; [done| | |].
  - exists l, c. destruct Hm. by split.
  - unfold vset_numbers, num_ok in *. cbn. lia.
  - exists num, edits, next, la. do 4 (split; [done|]). destruct D5 as [D5|(D5 & w & [])]; [by left|]. right. split; [done|]. exists w. by split.
Qed.

(** The version the disk has after a run: that of the edits logged, and after a failure maybe
    that of one edit more. *)
Lemma run_vset_spec e vs a used held ops :
  vset_inv e vs a used held -> ops_legal (vs_comparator vs) (vs_log_number vs) (vs_next_file_number vs) (vs_last_sequence vs) a used ops ->
  exists e' vs' k s, run_vset e vs ops = Ret (e', vs', k, s) /\ env_ok e' /\ (s = OK -> k = length (edits_of ops)) /\
    exists j used' log prev, (j = k \/ s ≠ OK /\ j = S k) /\
      saved e' (vs_dbname vs) (vs_comparator vs) used' (foldl abs_apply a (take j (edits_of ops))) log prev.
Proof.
  revert e vs a used. induction ops as [|[edit| |sq] ops IH]; intros e vs a used Hinv Hleg; cbn [run_vset ops_legal] in *.
  - exists e, vs, 0%nat, OK. split; [done|]. split; [apply (vi_env _ _ _ _ _ Hinv)|]. split; [done|]. eexists 0%nat, used, _, _. split; [by left|]. by eapply vset_saved.
  - destruct Hleg as (k1 & k2 & k3 & k4 & k5 & k6 & k7 & k8 & k9 & Hleg). assert (edit_fits vs a used edit) as Hfit by (by split).
    destruct (LogAndApply_spec e vs a used held edit Hinv Hfit) as (e1 & vs1 & s1 & -> & Hdb & Hc & Hgood & Hbad). cbn [obind]. destruct (ok s1) eqn:Es.
    + apply ok_true in Es as ->. destruct (Hgood eq_refl) as (Hinv1 & Hl1 & _ & Hs1 & Hn1 & _).
      destruct (IH e1 vs1 _ _ Hinv1) as (e2 & vs2 & k & s & -> & He2 & Hk & j & used' & lg & pv & Hj & Hsv).
      { rewrite Hc, Hl1, Hs1, Hn1. exact Hleg. }
      cbn [obind]. exists e2, vs2, (S k), s. split; [done|]. split; [done|]. split; [intros Hs; cbn; by rewrite (Hk Hs)|].
      exists (S j), used', lg, pv. split; [destruct Hj as [->|[? ->]]; [by left|by right]|]. rewrite Hdb, Hc in Hsv. exact Hsv.
    + assert (s1 ≠ OK) as Hs by (by intros ->). destruct (Hbad Hs) as (He1 & _ & Hsv & _). exists e1, vs1, 0%nat, s1. split; [done|]. split; [done|]. split; [done|].
      destruct Hsv as [Hsv|Hsv]; [eexists 0%nat, _, _, _; split; [by left|exact Hsv]|]. eexists 1%nat, _, _, _. split; [by right|]. cbn. rewrite take_0. exact Hsv.
  - destruct Hleg as [Hlt Hleg]. unfold NewFileNumber. cbn [fst]. pose proof (vi_numbers _ _ _ _ _ Hinv) as Hn. rewrite u64_small by (unfold vset_numbers in Hn; lia).
    apply (IH e (set_numbers vs (vs_next_file_number vs + 1) _ _ _ _) a used); [|done]. apply set_numbers_inv; [done|lia|]. apply Hn.
  - destruct Hleg as [Hlt Hleg]. unfold SetLastSequenceNumber. destruct (Z.leb_spec (vs_last_sequence vs) sq); [|lia]. cbn [oassert obind].
    pose proof (vi_numbers _ _ _ _ _ Hinv) as Hn. apply (IH e (set_numbers vs _ _ sq _ _) a used); [|done]. apply set_numbers_inv; [done|unfold vset_numbers in Hn; lia|]. unfold vset_numbers, num_ok in *. lia.
Qed.

(** The files of the current version. *)
Definition current_is vs (a : AbsVersion) : Prop :=
  exists v, current_version (vs_versions vs) = Ret v /\ levels_wf (files_ v) /\ denotes_levels (files_ v) a.

Lemma vset_current e vs a used held : vset_inv e vs a used held -> current_is vs a.
Proof.
  intros [_ (l & c & Hm) _ _]. destruct (vm_files _ _ _ _ _ _ Hm) as (files & Hf & Hd). destruct (vfiles_at _ _ _ Hf) as (v & Hv & <-). exists v.
  unfold current_version, version_at. rewrite (vm_current _ _ _ _ _ _ Hm), Hv. split; [done|]. split; [|done]. exact (vi_levels _ _ _ _ _ (vm_versions _ _ _ _ _ _ Hm) c v Hv).
Qed.

(** ** The properties *)


(** C16: logging an edit is atomic. In any state of the version set in which the disk and the
    memory agree, and for any edit that fits, [LogAndApply] returns and no assertion fails. When
    it acknowledges the edit, memory and disk agree again on the version the edit describes and
    on the log numbers. When it does not, every thread still sees the old current version, and
    the disk leads to the old version or to the new one; if the manifest was to be created, the
    old manifest is still current and the version set can go on. *)
Theorem log_and_apply_atomic e vs a used held edit :
  vset_inv e vs a used held -> edit_fits vs a used edit ->
  exists e' vs' edit' s, LogAndApply e vs edit = Ret (e', vs', edit', s) /\
    (s = OK -> vset_inv e' vs' (abs_apply a edit) (used ++ edit_pairs edit) held /\ current_is vs' (abs_apply a edit) /\
       vs_log_number vs' = edit_log vs edit /\ vs_prev_log_number vs' = edit_prev vs edit) /\
    (s ≠ OK -> same_current vs vs' /\
       (saved e' (vs_dbname vs) (vs_comparator vs) used a (vs_log_number vs) (vs_prev_log_number vs) \/
        saved e' (vs_dbname vs) (vs_comparator vs) (used ++ edit_pairs edit) (abs_apply a edit) (edit_log vs edit) (edit_prev vs edit)) /\
       (descriptor_log_ vs = None -> vset_inv e' vs' a used held)).
Proof.
  intros Hinv Hfit. destruct (LogAndApply_spec e vs a used held edit Hinv Hfit) as (e' & vs' & s & Hl & _ & _ & Hgood & Hbad).
  exists e', vs', (completed vs edit), s. split; [done|]. split.
  - intros Hs. destruct (Hgood Hs) as (Hinv' & H1' & H2' & _). split; [done|]. split; [by eapply vset_current|done].
  - intros Hs. by destruct (Hbad Hs) as (_ & H1' & H2' & H3').
Qed.
End Open.

(** ** Runs in memory *)

Section Runs.
#[local] Existing Instances BytewiseComparator BytewiseComparator_laws.
#[local] Instance portable : Crc32c := Crc32c_portable 0.

Definition sample_options (reuse : bool) : Options := mkOptions 2097152 reuse false.
Definition sample_db : bytes := str "/db".
Definition sample_cmp : bytes := str "leveldb.BytewiseComparator".

Definition sample_ops : list vset_op :=
  [OpNumber; OpApply (push_file 0 (sample_meta 3 [x61] [x7a]) new_VersionEdit); OpSequence 40; OpNumber;
   OpApply (push_file 1 (sample_meta 3 [x61] [x7a]) (DeleteFile 0 3 new_VersionEdit))].

(** The numbers of the files of the current version, level by level. *)
Definition current_numbers (vs : VersionSet MemHandle) : outcome (list (list Z)) :=
  let! v := current_version (vs_versions vs) in Ret (numbers <$> files_ v).

Example manifest_run :
  (let! (e, s) := NewDB new_MemEnv sample_db sample_cmp in
   let! (e, vs, _, _) := open_set 1000 e sample_db (sample_options false) sample_cmp in
   let! (e, vs, k, s) := run_vset e vs sample_ops in
   let! (e, vs, save, s) := open_set 1000 e sample_db (sample_options false) sample_cmp in
   let! files := current_numbers vs in
   Ret (k, s, save, files, vs_last_sequence vs, vs_next_file_number vs)) =
  Ret (2%nat, OK, true, [[]; [3]; []; []; []; []; []], 40, 6).
Proof. vm_compute. reflexivity. Qed.

(** A new database whose manifest ends with the first bytes of a record: the machine stopped
    while the edit was logged. *)
Definition torn_disk : outcome InMemoryEnv :=
  let! (e, _) := NewDB new_MemEnv sample_db sample_cmp in
  let name := manifest_name sample_db 1 in
  let torn := ztake 10 (record_layout (snd (GetFileSize e name)) (edit_bytes (push_file 0 (sample_meta 3 [x61] [x7a]) new_VersionEdit))) in
  let '(e, _, file) := NewAppendableFile e name in
  match file with
  | None => AssertFailed
  | Some h => Ret (file_delete (fst (file_Append e h torn)) h)
  end.

(** Open the torn database, log an edit that sets the log number to 2, and open it again. *)
Definition torn_run (reuse : bool) : outcome (list Status * Z) :=
  let! e := torn_disk in
  let! (e, vs, _, s1) := open_set 1000 e sample_db (sample_options reuse) sample_cmp in
  let! (e, vs, _, s2) := LogAndApply e vs (SetLogNumber 2 new_VersionEdit) in
  let! (e, vs, _, s3) := open_set 1000 e sample_db (sample_options reuse) sample_cmp in
  Ret ([s1; s2; s3], vs_log_number vs).


(** The two edits of the sample run. *)
Lemma sample_edit_ok level : level_ok level -> edit_ok (push_file level (sample_meta 3 [x61] [x7a]) new_VersionEdit).
Proof. intros Hl. apply AddFile_ok; [apply new_VersionEdit_ok|done|by vm_compute|by vm_compute|split; vm_compute; congruence|split; vm_compute; congruence]. Qed.

Lemma sample_move_ok : edit_ok (push_file 1 (sample_meta 3 [x61] [x7a]) (DeleteFile 0 3 new_VersionEdit)).
Proof. apply AddFile_ok; [apply DeleteFile_ok; [apply new_VersionEdit_ok|by vm_compute|by vm_compute]|by vm_compute|by vm_compute|by vm_compute|split; vm_compute; congruence|split; vm_compute; congruence]. Qed.

Lemma sample_ops_legal : ops_legal sample_cmp 0 3 0 abs_empty [] sample_ops.
Proof.
  cbn [ops_legal sample_ops]. split; [lia|]. split; [by apply sample_edit_ok|]. split; [apply edit_wfb_sound; by vm_compute|]. split; [done|].
  split; [apply NoDup_singleton|]. split; [intros p _; apply not_elem_of_nil|]. split; [apply levels_disjointb_sound; by vm_compute|].
  split; [done|]. split; [done|]. split; [lia|]. split; [lia|]. split; [lia|]. split; [apply sample_move_ok|]. split; [apply edit_wfb_sound; by vm_compute|]. split; [done|].
  split; [apply NoDup_singleton|]. split; [intros p Hp Hq; apply list_elem_of_singleton in Hp as ->; by apply list_elem_of_singleton in Hq|].
  split; [apply levels_disjointb_sound; by vm_compute|]. split; [done|]. split; [done|]. split; [lia|done].
Qed.

(** The environment of a new database holds two small files. *)
Lemma mem_enough_fuel fuel (e : InMemoryEnv) : Forall (fun p => size_ p.2 < Z.of_nat fuel) (map_to_list (states_ e)) -> mem_ok e -> enough_fuel fuel e.
Proof.
  intros Hs He n img Hf. cbn in Hf. unfold mem_fs in Hf. destruct (map_find (file_map_ e) n) as [[a|]|] eqn:En; [|done..].
  destruct (mo_entry _ He n _ En) as (b & f & [= <-] & Ha & Hw & _). rewrite Ha in Hf. injection Hf as <-. rewrite state_bytes_length by done.
  apply elem_of_map_to_list in Ha. rewrite Forall_forall in Hs. exact (Hs _ Ha).
Qed.

Lemma sample_db_opens :
  exists e1, NewDB new_MemEnv sample_db sample_cmp = Ret (e1, OK) /\ enough_fuel 1000 e1 /\ mem_ok e1.
Proof.
  destruct (NewDB_spec new_MemEnv sample_db sample_cmp) as (e1 & s1 & E1 & He1 & _); [apply new_MemEnv_ok|by vm_compute|].
  assert ((let! (e, s) := NewDB new_MemEnv sample_db sample_cmp in Ret (s, bool_decide (Forall (fun p => size_ p.2 < 1000) (map_to_list (states_ e))))) = Ret (OK, true)) as Hs by (by vm_compute).
  rewrite E1 in Hs. injection Hs as -> Hb. exists e1. split; [done|]. split; [|done]. apply mem_enough_fuel; [|done]. apply bool_decide_eq_true in Hb. exact Hb.
Qed.


(** The state of the version set after the first open. *)
Lemma sample_vset_inv : exists (e : InMemoryEnv) (vs : VersionSet MemHandle), vset_inv e vs abs_empty [] nobody /\ vs_log_number vs = 0 /\ vs_next_file_number vs = 3 /\ vs_comparator vs = sample_cmp.
Proof.
  destruct (NewDB_spec new_MemEnv sample_db sample_cmp) as (e1 & s1 & E1 & He1 & Hs); [apply new_MemEnv_ok|by vm_compute|].
  destruct sample_db_opens as (e1' & E1' & Hf & _). rewrite E1' in E1. injection E1 as <- <-.
  destruct (open_saved 1000 e1' sample_db (sample_options false) sample_cmp [] abs_empty 0 0 2 0 He1 (Hs eq_refl)) as (e2 & vs2 & sm & _ & Hinv & (r1 & r2 & r3 & r4) & _ & Hc); [done|by vm_compute|done|].
  exists e2, vs2. split; [exact Hinv|]. split; [exact r1|]. split; [exact r4|exact Hc].
Qed.

Lemma log_and_apply_atomic_witness :
  exists (e : InMemoryEnv) (vs : VersionSet MemHandle) e' vs' edit' s, LogAndApply e vs (push_file 0 (sample_meta 3 [x61] [x7a]) new_VersionEdit) = Ret (e', vs', edit', s).
Proof.
  destruct sample_vset_inv as (e & vs & Hinv & Hl & Hn & Hc). exists e, vs.
  destruct (log_and_apply_atomic e vs abs_empty [] nobody (push_file 0 (sample_meta 3 [x61] [x7a]) new_VersionEdit) Hinv) as (e' & vs' & edit' & s & E' & _); [|exists e', vs', edit', s; exact E'].
  split; [by apply sample_edit_ok|apply edit_wfb_sound; by vm_compute|done|apply NoDup_singleton|intros p _; apply not_elem_of_nil|apply levels_disjointb_sound; by vm_compute|done|done|lia].
Defined.
End Runs.
