(* ===== verification/Compaction.v ===== *)
(** * Compactions: the choice of their inputs and the questions they answer

    [manifest/version_set.h], [manifest/version_set.c], the class [Compaction] and the members
    of [VersionSet] that make one. A compaction takes files of a level and the files of the next
    level they overlap, and holds a reference to the version they are in. The lines it writes to
    the info log are not modelled. *)

From stdpp Require Import gmap sorting.
From Stdlib Require Import SpecFloat.
From S2P Require Import Prelude Coding Env Comparator DbFormat VersionEdit SkipList MemTable Iterator Version VersionBuilder DList VersionSet.

Open Scope outcome_scope.

(** [v[i] = x] on a vector or an array. *)
Definition vec_set {A} (l : list A) (i : Z) (x : A) : outcome (list A) :=
  let! _ := vec_at l i in Ret (<[Z.to_nat i := x]> l).

(** ** Ranges of files *)

Section Ranges.
Context `{user_comparator : Comparator}.

(** The loop of [GetRange] after its first round. *)
Fixpoint range_loop (files : list FilePtr) (small large : InternalKey) : outcome (InternalKey * InternalKey) :=
  match files with
  | [] => Ret (small, large)
  | f :: files =>
      let! c := icmp (f_smallest f) small in
      let! d := icmp (f_largest f) large in
      range_loop files (if c <? 0 then f_smallest f else small) (if 0 <? d then f_largest f else large)
  end.

Definition GetRange (inputs : list FilePtr) : outcome (InternalKey * InternalKey) :=
  match inputs with
  | [] => AssertFailed
  | f :: files => range_loop files (f_smallest f) (f_largest f)
  end.

Definition GetRange2 (inputs1 inputs2 : list FilePtr) : outcome (InternalKey * InternalKey) := GetRange (inputs1 ++ inputs2).

(** ** Boundary files *)

Fixpoint largest_loop (files : list FilePtr) (largest_key : InternalKey) : outcome InternalKey :=
  match files with
  | [] => Ret largest_key
  | f :: files =>
      let! c := icmp (f_largest f) largest_key in
      largest_loop files (if 0 <? c then f_largest f else largest_key)
  end.

(** [None] for the result false. *)
Definition FindLargestKey (files : list FilePtr) : outcome (option InternalKey) :=
  match files with
  | [] => Ret None
  | f :: files => let! k := largest_loop files (f_largest f) in Ret (Some k)
  end.

Fixpoint boundary_loop (files : list FilePtr) (largest_key : InternalKey) (smallest_boundary_file : option FilePtr) : outcome (option FilePtr) :=
  match files with
  | [] => Ret smallest_boundary_file
  | f :: files =>
      let! c := icmp (f_smallest f) largest_key in
      let! same := if 0 <? c then
          let! a := user_key (f_smallest f) in
          let! b := user_key largest_key in
          Ret (Compare a b =? 0)
        else Ret false in
      let! better := if same then
          match smallest_boundary_file with
          | None => Ret true
          | Some g => let! d := icmp (f_smallest f) (f_smallest g) in Ret (d <? 0)
          end
        else Ret false in
      boundary_loop files largest_key (if better then Some f else smallest_boundary_file)
  end.

Definition FindSmallestBoundaryFile (level_files : list FilePtr) (largest_key : InternalKey) : outcome (option FilePtr) :=
  boundary_loop level_files largest_key None.

Fixpoint add_boundary_loop (fuel : nat) (level_files compaction_files : list FilePtr) (largest_key : InternalKey) : outcome (list FilePtr) :=
  match fuel with
  | O => OutOfFuel
  | S fuel =>
      let! b := FindSmallestBoundaryFile level_files largest_key in
      match b with
      | Some f => add_boundary_loop fuel level_files (compaction_files ++ [f]) (f_largest f)
      | None => Ret compaction_files
      end
  end.

(** Every file of the level is added once at most. *)
Definition AddBoundaryInputs (level_files compaction_files : list FilePtr) : outcome (list FilePtr) :=
  let! k := FindLargestKey compaction_files in
  match k with
  | None => Ret compaction_files
  | Some largest_key => add_boundary_loop (S (length level_files)) level_files compaction_files largest_key
  end.
End Ranges.

(** ** The object *)

(** The two vectors of [inputs_] are [inputs_0] and [inputs_1]; [input_version_] is an address
    in the list of versions. *)
Record Compaction := mkCompaction {
  level_ : Z;
  max_output_file_size_ : Z;
  input_version_ : option nat;
  edit_ : VersionEdit;
  inputs_0 : list FilePtr;
  inputs_1 : list FilePtr;
  grandparents_ : list FilePtr;
  grandparent_index_ : Z;
  seen_key_ : bool;
  overlapped_bytes_ : Z;
  level_ptrs_ : list Z;
}.

Definition new_Compaction (options : Options) (level : Z) : Compaction :=
  mkCompaction level (MaxFileSizeForLevel options level) None new_VersionEdit [] [] [] 0 false 0 (replicate (Z.to_nat config.kNumLevels) 0).

Definition set_input_version (c : Compaction) (v : option nat) : Compaction :=
  mkCompaction (level_ c) (max_output_file_size_ c) v (edit_ c) (inputs_0 c) (inputs_1 c) (grandparents_ c)
    (grandparent_index_ c) (seen_key_ c) (overlapped_bytes_ c) (level_ptrs_ c).

Definition set_inputs (c : Compaction) (files0 files1 : list FilePtr) : Compaction :=
  mkCompaction (level_ c) (max_output_file_size_ c) (input_version_ c) (edit_ c) files0 files1 (grandparents_ c)
    (grandparent_index_ c) (seen_key_ c) (overlapped_bytes_ c) (level_ptrs_ c).

Definition set_grandparents (c : Compaction) (files : list FilePtr) : Compaction :=
  mkCompaction (level_ c) (max_output_file_size_ c) (input_version_ c) (edit_ c) (inputs_0 c) (inputs_1 c) files
    (grandparent_index_ c) (seen_key_ c) (overlapped_bytes_ c) (level_ptrs_ c).

Definition set_edit (c : Compaction) (e : VersionEdit) : Compaction :=
  mkCompaction (level_ c) (max_output_file_size_ c) (input_version_ c) e (inputs_0 c) (inputs_1 c) (grandparents_ c)
    (grandparent_index_ c) (seen_key_ c) (overlapped_bytes_ c) (level_ptrs_ c).

Definition set_overlap (c : Compaction) (index : Z) (seen : bool) (overlapped : Z) : Compaction :=
  mkCompaction (level_ c) (max_output_file_size_ c) (input_version_ c) (edit_ c) (inputs_0 c) (inputs_1 c) (grandparents_ c)
    index seen overlapped (level_ptrs_ c).

Definition set_level_ptrs (c : Compaction) (ptrs : list Z) : Compaction :=
  mkCompaction (level_ c) (max_output_file_size_ c) (input_version_ c) (edit_ c) (inputs_0 c) (inputs_1 c) (grandparents_ c)
    (grandparent_index_ c) (seen_key_ c) (overlapped_bytes_ c) ptrs.

(** ** Picking *)

Section Picking.
Context {H : Type} `{user_comparator : Comparator}.
Abbreviation VersionSet := (VersionSet H).

(** The part of [SetupOtherInputs] that tries to take more files of the level: the inputs,
    the range of the files of the level and the range of all inputs. *)
Definition expand_inputs (options : Options) (v : Version) (level : Z) (files inputs0 inputs1 : list FilePtr)
    (large all_start all_limit : InternalKey)
    : outcome (list FilePtr * list FilePtr * InternalKey * (InternalKey * InternalKey)) :=
  let unchanged := (inputs0, inputs1, large, (all_start, all_limit)) in
  if bool_decide (inputs1 = []) then Ret unchanged
  else
    let! expanded0 := GetOverlappingInputs v level (Some all_start) (Some all_limit) in
    let! expanded0 := AddBoundaryInputs files expanded0 in
    let inputs1_size := TotalFileSize inputs1 in
    let expanded0_size := TotalFileSize expanded0 in
    if (zlen inputs0 <? zlen expanded0) && (i64 (inputs1_size + expanded0_size) <? ExpandedCompactionByteSizeLimit options) then
      let! (new_start, new_limit) := GetRange expanded0 in
      let! expanded1 := GetOverlappingInputs v (level + 1) (Some new_start) (Some new_limit) in
      if zlen expanded1 =? zlen inputs1 then
        let! all := GetRange2 expanded0 expanded1 in
        Ret (expanded0, expanded1, new_limit, all)
      else Ret unchanged
    else Ret unchanged.

Definition SetupOtherInputs (vs : VersionSet) (c : Compaction) : outcome (VersionSet * Compaction) :=
  let level := level_ c in
  let! v := current_version (vs_versions vs) in
  let! files := v_files v level in
  let! inputs0 := AddBoundaryInputs files (inputs_0 c) in
  let! (small, large) := GetRange inputs0 in
  let! inputs1 := GetOverlappingInputs v (level + 1) (Some small) (Some large) in
  let! (all_start, all_limit) := GetRange2 inputs0 inputs1 in
  let! (inputs0, inputs1, large, all) := expand_inputs (vs_options vs) v level files inputs0 inputs1 large all_start all_limit in
  let! grandparents := if level + 2 <? config.kNumLevels then GetOverlappingInputs v (level + 2) (Some (fst all)) (Some (snd all)) else Ret (grandparents_ c) in
  let! pointer := Encode large in
  let! pointers := vec_set (compact_pointer_ vs) level pointer in
  Ret (set_pointer_array vs pointers,
       set_edit (set_grandparents (set_inputs c inputs0 inputs1) grandparents) (SetCompactPointer level large (edit_ c))).

(** The first file that ends after the compaction pointer. *)
Fixpoint after_pointer (files : list FilePtr) (pointer : bytes) : outcome (option FilePtr) :=
  match files with
  | [] => Ret None
  | f :: files =>
      let! take := if zlen pointer =? 0 then Ret true else
        let! large := Encode (f_largest f) in Ret (0 <? internal_compare large pointer) in
      if take then Ret (Some f) else after_pointer files pointer
  end.

(** The file a compaction starts from, with its level. *)
Definition pick_file (vs : VersionSet) (v : Version) : outcome (option (Z * FilePtr)) :=
  if SFleb (double 1) (compaction_score_ v) then
    let level := compaction_level_ v in
    assert! 0 <=? level;
    assert! level + 1 <? config.kNumLevels;
    let! files := v_files v level in
    let! pointer := vec_at (compact_pointer_ vs) level in
    let! f := after_pointer files pointer in
    match f with
    | Some f => Ret (Some (level, f))
    | None => let! f := vec_at files 0 in Ret (Some (level, f))
    end
  else match file_to_compact_ v with
  | Some f => Ret (Some (file_to_compact_level_ v, f))
  | None => Ret None
  end.

(** [c->input_version_ = current_; c->input_version_->Ref()] *)
Definition ref_input_version (vs : VersionSet) (c : Compaction) : outcome (VersionSet * Compaction) :=
  match vl_current (vs_versions vs) with
  | None => AssertFailed
  | Some n => let! vl := version_Ref (vs_versions vs) n in Ret (set_versions vs vl, set_input_version c (Some n))
  end.

Definition PickCompaction (vs : VersionSet) : outcome (VersionSet * option Compaction) :=
  let! v := current_version (vs_versions vs) in
  let! picked := pick_file vs v in
  match picked with
  | None => Ret (vs, None)
  | Some (level, f) =>
      let c := set_inputs (new_Compaction (vs_options vs) level) [f] [] in
      let! (vs, c) := ref_input_version vs c in
      let! c := if level =? 0 then
          let! (small, large) := GetRange (inputs_0 c) in
          let! inputs := GetOverlappingInputs v 0 (Some small) (Some large) in
          assert! negb (bool_decide (inputs = []));
          Ret (set_inputs c inputs [])
        else Ret c in
      let! (vs, c) := SetupOtherInputs vs c in
      Ret (vs, Some c)
  end.

(** The number of files up to the one that reaches [limit]. *)
Fixpoint limit_loop (files : list FilePtr) (limit total : Z) : list FilePtr :=
  match files with
  | [] => []
  | f :: files => let total := u64 (total + f_file_size f) in f :: if limit <=? total then [] else limit_loop files limit total
  end.

Definition CompactRange (vs : VersionSet) (level : Z) (begin limit : option InternalKey) : outcome (VersionSet * option Compaction) :=
  let! v := current_version (vs_versions vs) in
  let! inputs := GetOverlappingInputs v level begin limit in
  if bool_decide (inputs = []) then Ret (vs, None)
  else
    let inputs := if 0 <? level then limit_loop inputs (MaxFileSizeForLevel (vs_options vs) level) 0 else inputs in
    let! (vs, c) := ref_input_version vs (new_Compaction (vs_options vs) level) in
    let! (vs, c) := SetupOtherInputs vs (set_inputs c inputs []) in
    Ret (vs, Some c).

(** ** Questions of the compaction loop *)

Definition input_version (vs : VersionSet) (c : Compaction) : outcome Version :=
  match input_version_ c with None => AssertFailed | Some n => version_at (vs_versions vs) n end.

Definition num_input_files (c : Compaction) (which : Z) : Z := zlen (if which =? 0 then inputs_0 c else inputs_1 c).

(** [input_version_->vset_] is the version set the compaction was made by. *)
Definition IsTrivialMove (vs : VersionSet) (c : Compaction) : outcome bool :=
  let! _ := input_version vs c in
  Ret ((num_input_files c 0 =? 1) && (num_input_files c 1 =? 0) &&
       (TotalFileSize (grandparents_ c) <=? MaxGrandParentOverlapBytes (vs_options vs))).

Definition delete_inputs (level : Z) (files : list FilePtr) (edit : VersionEdit) : VersionEdit :=
  fold_left (fun edit f => DeleteFile level (f_number f) edit) files edit.

Definition AddInputDeletions (c : Compaction) (edit : VersionEdit) : VersionEdit :=
  delete_inputs (level_ c + 1) (inputs_1 c) (delete_inputs (level_ c) (inputs_0 c) edit).

(** The inner loop of [IsBaseLevelForKey] from index [ptr] on: the index it stops at, and
    whether the key is in the file there. *)
Fixpoint advance_ptr (fuel : nat) (files : list FilePtr) (key : bytes) (ptr : Z) : outcome (Z * bool) :=
  match fuel with
  | O => OutOfFuel
  | S fuel =>
      if ptr <? zlen files then
        let! f := vec_at files ptr in
        let! large := user_key (f_largest f) in
        if Compare key large <=? 0 then
          let! small := user_key (f_smallest f) in
          Ret (ptr, 0 <=? Compare key small)
        else advance_ptr fuel files key (ptr + 1)
      else Ret (ptr, false)
  end.

Fixpoint base_level_loop (n : nat) (v : Version) (key : bytes) (lvl : Z) (ptrs : list Z) : outcome (list Z * bool) :=
  match n with
  | O => Ret (ptrs, true)
  | S n =>
      let! files := v_files v lvl in
      let! ptr := vec_at ptrs lvl in
      let! (ptr, found) := advance_ptr (S (length files)) files key ptr in
      let! ptrs := vec_set ptrs lvl ptr in
      if found then Ret (ptrs, false) else base_level_loop n v key (lvl + 1) ptrs
  end.

Definition IsBaseLevelForKey (vs : VersionSet) (c : Compaction) (user_key : bytes) : outcome (Compaction * bool) :=
  let! v := input_version vs c in
  let lvl := level_ c + 2 in
  let! (ptrs, base) := base_level_loop (Z.to_nat (config.kNumLevels - lvl)) v user_key lvl (level_ptrs_ c) in
  Ret (set_level_ptrs c ptrs, base).

Fixpoint grandparent_loop (fuel : nat) (grandparents : list FilePtr) (key : bytes) (seen : bool) (index overlapped : Z) : outcome (Z * Z) :=
  match fuel with
  | O => OutOfFuel
  | S fuel =>
      if index <? zlen grandparents then
        let! f := vec_at grandparents index in
        let! large := Encode (f_largest f) in
        if 0 <? internal_compare key large then
          grandparent_loop fuel grandparents key seen (index + 1) (if seen then i64 (overlapped + f_file_size f) else overlapped)
        else Ret (index, overlapped)
      else Ret (index, overlapped)
  end.

Definition ShouldStopBefore (vs : VersionSet) (c : Compaction) (internal_key : bytes) : outcome (Compaction * bool) :=
  let! _ := input_version vs c in
  let! (index, overlapped) := grandparent_loop (S (length (grandparents_ c))) (grandparents_ c) internal_key (seen_key_ c) (grandparent_index_ c) (overlapped_bytes_ c) in
  if MaxGrandParentOverlapBytes (vs_options vs) <? overlapped then Ret (set_overlap c index true 0, true)
  else Ret (set_overlap c index true overlapped, false).

(** [ReleaseInputs], and the same steps in the destructor. *)
Definition ReleaseInputs (vs : VersionSet) (c : Compaction) : outcome (VersionSet * Compaction) :=
  match input_version_ c with
  | None => Ret (vs, c)
  | Some n => let! vl := version_Unref (vs_versions vs) n in Ret (set_versions vs vl, set_input_version c None)
  end.

Definition delete_Compaction (vs : VersionSet) (c : Compaction) : outcome VersionSet :=
  match input_version_ c with
  | None => Ret vs
  | Some n => let! vl := version_Unref (vs_versions vs) n in Ret (set_versions vs vl)
  end.
End Picking.

(** ** Correctness of the choice *)

Section Ranged.
Context `{laws : ComparatorLaws}.

Lemma ic_le_trans a b c : ic a b <= 0 -> ic b c <= 0 -> ic a c <= 0.
Proof. apply internal_trans. Qed.

Lemma ic_lt_le a b c : ic a b < 0 -> ic b c <= 0 -> ic a c < 0.
Proof. apply internal_lt_le. Qed.

Lemma ic_le_lt a b c : ic a b <= 0 -> ic b c < 0 -> ic a c < 0.
Proof. apply internal_le_lt. Qed.

Lemma ic_flip a b : ~ ic a b < 0 -> ic b a <= 0.
Proof. intros Hn. pose proof (ic_antisym a b). pose proof (ic_antisym b a). lia. Qed.

(** [small] and [large] are the bounds of a non-empty list of files. *)
Record range_of (files : list FilePtr) (small large : InternalKey) : Prop := mkRangeOf {
  ro_small : exists f, f ∈ files /\ f_smallest f = small;
  ro_large : exists f, f ∈ files /\ f_largest f = large;
  ro_bounds f : f ∈ files -> ic small (f_smallest f) <= 0 /\ ic (f_largest f) large <= 0;
}.

Lemma range_of_wf files small large : Forall file_wf files -> range_of files small large -> ikey_wf small /\ ikey_wf large.
Proof.
  rewrite Forall_forall. intros Hf [(f & Hin & <-) (g & Hing & <-) _]. destruct (Hf f Hin) as (? & _). by destruct (Hf g Hing) as (_ & ? & _).
Qed.

Lemma range_loop_spec done files small large :
  Forall file_wf done -> Forall file_wf files -> range_of done small large ->
  exists small' large', range_loop files small large = Ret (small', large') /\ range_of (done ++ files) small' large'.
Proof.
  intros Hd Hf. revert done small large Hd. induction Hf as [|f files Hfw Hf IH]; intros done small large Hd Hr.
  { exists small, large. by rewrite app_nil_r. }
  destruct (range_of_wf _ _ _ Hd Hr) as [Hs Hl]. destruct Hfw as (Hfs & Hfl & Hle). cbn [range_loop].
  rewrite !icmp_wf by done. cbn [obind].
  replace (done ++ f :: files) with ((done ++ [f]) ++ files) by (by rewrite <- app_assoc).
  apply IH; [apply Forall_app; split; [done|by repeat constructor]|].
  destruct Hr as [(g & Hg & Hgs) (h & Hh & Hhl) Hb]. split.
  - destruct (ic (f_smallest f) small <? 0); [exists f|exists g]; set_solver.
  - destruct (0 <? ic (f_largest f) large); [exists f|exists h]; set_solver.
  - intros x [Hx| ->%list_elem_of_singleton]%elem_of_app.
    + destruct (Hb x Hx) as [Hx1 Hx2]. split.
      * destruct (Z.ltb_spec (ic (f_smallest f) small) 0); [eapply ic_le_trans; [apply Z.lt_le_incl|]; done|done].
      * destruct (Z.ltb_spec 0 (ic (f_largest f) large)) as [Hlt|]; [|done]. apply ic_antisym in Hlt. eapply ic_le_trans; [done|lia].
    + split.
      * destruct (Z.ltb_spec (ic (f_smallest f) small) 0); [rewrite ic_refl; lia|apply ic_flip; lia].
      * destruct (Z.ltb_spec 0 (ic (f_largest f) large)); [rewrite ic_refl; lia|lia].
Qed.

Lemma range_of_one f : range_of [f] (f_smallest f) (f_largest f).
Proof.
  split; [exists f|exists f|]; try (split; [apply list_elem_of_singleton|]; done).
  intros g ->%list_elem_of_singleton. rewrite !ic_refl. lia.
Qed.

Lemma GetRange_spec files :
  Forall file_wf files -> files ≠ [] -> exists small large, GetRange files = Ret (small, large) /\ range_of files small large.
Proof.
  intros Hf Hne. destruct Hf as [|f files Hfw Hf]; [done|]. cbn [GetRange].
  apply (range_loop_spec [f]); [by apply Forall_singleton|done|apply range_of_one].
Qed.

Lemma largest_loop_range files small large small' large' :
  Forall file_wf files -> range_loop files small large = Ret (small', large') -> largest_loop files large = Ret large'.
Proof.
  intros Hf. revert small large. induction Hf as [|f files (Hfs & Hfl & _) Hf IH]; intros small large; cbn [range_loop largest_loop]; [congruence|].
  destruct (icmp (f_smallest f) small) as [c| |]; [|done..]. cbn [obind]. destruct (icmp (f_largest f) large) as [d| |]; [|done..]. cbn [obind]. apply IH.
Qed.

Lemma FindLargestKey_spec files :
  Forall file_wf files -> files ≠ [] -> exists small large, FindLargestKey files = Ret (Some large) /\ range_of files small large.
Proof.
  intros Hf Hne. destruct (GetRange_spec files Hf Hne) as (small & large & Hg & Hr). exists small, large. split; [|done].
  destruct Hf as [|f files Hfw Hf]; [done|]. cbn [GetRange FindLargestKey] in *. by rewrite (largest_loop_range _ _ _ _ _ Hf Hg).
Qed.

(** ** Boundary files *)

(** [f] starts after [k], with the same user key. *)
Definition boundary (k : InternalKey) (f : FilePtr) : Prop := ic k (f_smallest f) < 0 /\ Compare (ukey (f_smallest f)) (ukey k) = 0.

Definition first_boundary (k : InternalKey) (files : list FilePtr) (r : option FilePtr) : Prop :=
  match r with
  | None => forall g, g ∈ files -> ~ boundary k g
  | Some f => f ∈ files /\ boundary k f /\ forall g, g ∈ files -> boundary k g -> ic (f_smallest f) (f_smallest g) <= 0
  end.

Lemma boundary_loop_spec k done files r :
  ikey_wf k -> Forall file_wf done -> Forall file_wf files -> first_boundary k done r ->
  exists r', boundary_loop files k r = Ret r' /\ first_boundary k (done ++ files) r'.
Proof.
  intros Hk Hd Hf. revert done r Hd. induction Hf as [|f files (Hfs & Hfl & Hle) Hf IH]; intros done r Hd Hr.
  { exists r. by rewrite app_nil_r. }
  cbn [boundary_loop]. rewrite icmp_wf by done. cbn [obind].
  replace (done ++ f :: files) with ((done ++ [f]) ++ files) by (by rewrite <- app_assoc).
  assert (Forall file_wf (done ++ [f])) as Hd' by (apply Forall_app; split; [done|by repeat constructor]).
  assert ((if 0 <? ic (f_smallest f) k then let! a := user_key (f_smallest f) in let! b := user_key k in Ret (Compare a b =? 0) else Ret false) =
          Ret (bool_decide (boundary k f))) as ->.
  { unfold boundary. destruct (Z.ltb_spec 0 (ic (f_smallest f) k)) as [Hlt|Hge].
    - rewrite !user_key_wf by done. cbn [obind]. f_equal. apply ic_antisym in Hlt. apply eq_bool_prop_intro. rewrite bool_decide_spec, <- Z.eqb_eq, Is_true_true. naive_solver.
    - rewrite bool_decide_eq_false_2; [done|]. intros [Hlt _]. apply ic_antisym in Hlt. lia. }
  cbn [obind]. destruct (bool_decide_reflect (boundary k f)) as [Hb|Hb].
  - assert (exists b : bool, match r with None => Ret true | Some g => let! d := icmp (f_smallest f) (f_smallest g) in Ret (d <? 0) end = Ret b /\
      (if b then forall g, g ∈ done -> boundary k g -> ic (f_smallest f) (f_smallest g) <= 0 else exists g, r = Some g /\ ic (f_smallest g) (f_smallest f) <= 0)) as (b & -> & Hbest).
    { destruct r as [g|]; [|exists true; split; [done|]; intros g Hg Hbg; by destruct (Hr g Hg)].
      destruct Hr as (Hg & Hbg & Hmin). rewrite Forall_forall in Hd. destruct (Hd g Hg) as (Hgs & _). rewrite icmp_wf by done. cbn [obind]. eexists. split; [done|].
      destruct (Z.ltb_spec (ic (f_smallest f) (f_smallest g)) 0) as [Hlt|Hge].
      + intros h Hh Hbh. eapply ic_le_trans; [apply Z.lt_le_incl, Hlt|by apply Hmin].
      + exists g. split; [done|]. apply ic_flip. lia. }
    cbn [obind]. apply IH; [done|]. destruct b.
    + split; [set_solver|]. split; [done|]. intros g [Hg| ->%list_elem_of_singleton]%elem_of_app Hbg; [by apply Hbest|rewrite ic_refl; lia].
    + destruct Hbest as (g & -> & Hgf). destruct Hr as (Hg & Hbg & Hmin). split; [set_solver|]. split; [done|].
      intros h [Hh| ->%list_elem_of_singleton]%elem_of_app Hbh; [by apply Hmin|done].
  - cbn [obind]. apply IH; [done|]. destruct r as [g|].
    + destruct Hr as (Hg & Hbg & Hmin). split; [set_solver|]. split; [done|]. intros h [Hh| ->%list_elem_of_singleton]%elem_of_app Hbh; [by apply Hmin|done].
    + intros g [Hg| ->%list_elem_of_singleton]%elem_of_app; [by apply Hr|done].
Qed.

Lemma FindSmallestBoundaryFile_spec files k :
  ikey_wf k -> Forall file_wf files -> exists r, FindSmallestBoundaryFile files k = Ret r /\ first_boundary k files r.
Proof. intros Hk Hf. apply (boundary_loop_spec k [] files None); [done|constructor|done|]. intros g Hg. by apply not_elem_of_nil in Hg. Qed.

(** A file that starts after all others. *)
Lemma range_of_snoc files small large f :
  Forall file_wf files -> file_wf f -> range_of files small large -> ic large (f_smallest f) < 0 -> range_of (files ++ [f]) small (f_largest f).
Proof.
  intros Hw (_ & _ & Hle) [(g & Hg & Hgs) _ Hb] Hlt. split.
  - exists g. set_solver.
  - exists f. set_solver.
  - rewrite Forall_forall in Hw. intros x [Hx| ->%list_elem_of_singleton]%elem_of_app.
    + destruct (Hb x Hx) as [Hx1 Hx2]. split; [done|]. eapply ic_le_trans; [exact Hx2|]. eapply ic_le_trans; [apply Z.lt_le_incl, Hlt|done].
    + split; [|rewrite ic_refl; lia]. destruct (Hw g Hg) as (_ & _ & Hgle), (Hb g Hg) as [_ Hgl]. rewrite <- Hgs.
      eapply ic_le_trans; [exact Hgle|]. eapply ic_le_trans; [exact Hgl|]. lia.
Qed.

Lemma after_range files small large f : range_of files small large -> file_wf f -> ic large (f_smallest f) < 0 -> f ∉ files.
Proof.
  intros [_ _ Hb] (_ & _ & Hle) Hlt Hf. destruct (Hb f Hf) as [_ Hl]. pose proof (ic_lt_le _ _ _ (ic_lt_le _ _ _ Hlt Hle) Hl) as Hx. rewrite ic_refl in Hx. lia.
Qed.

(** In a level without overlaps the boundary file is the next one. *)
Lemma boundary_next level pre cur post small large f :
  Forall file_wf level -> disjoint_sorted level -> level = pre ++ cur ++ post -> range_of cur small large ->
  first_boundary large level (Some f) -> exists post', post = f :: post'.
Proof.
  intros Hw Hd -> Hr (Hf & [Hlt Heq] & Hmin).
  assert (forall x y, x ∈ pre ++ cur -> y ∈ post -> ic (f_largest x) (f_smallest y) < 0) as Hsep.
  { rewrite app_assoc in Hd. apply StronglySorted_app in Hd as (Hx & _ & _). intros x y Hxin Hyin. by apply Hx. }
  rewrite Forall_forall in Hw. pose proof (Hw f Hf) as (Hfs & Hfl & Hle).
  assert (f ∈ post) as Hpost.
  { rewrite app_assoc in Hf. apply elem_of_app in Hf as [Hf|]; [exfalso|done]. apply elem_of_app in Hf as [Hf|Hf]; [|by eapply after_range in Hf].
    destruct (ro_large _ _ _ Hr) as (h & Hh & Hhl). apply StronglySorted_app in Hd as (Hx & _ & _). specialize (Hx f h Hf ltac:(set_solver)).
    destruct (Hw h ltac:(set_solver)) as (_ & _ & Hhle). rewrite <- Hhl in Hlt.
    pose proof (ic_lt_le _ _ _ (ic_lt_le _ _ _ Hlt Hle) (Z.lt_le_incl _ _ Hx)) as Hy. pose proof (ic_lt_le _ _ _ Hy Hhle) as Hz. rewrite ic_refl in Hz. lia. }
  destruct post as [|h post']; [by apply not_elem_of_nil in Hpost|]. exists post'. f_equal.
  apply elem_of_cons in Hpost as [->|Hpost]; [done|exfalso].
  destruct (Hw h ltac:(set_solver)) as (_ & _ & Hhle). apply StronglySorted_app in Hd as (_ & _ & Hd). apply StronglySorted_app in Hd as (_ & _ & Hd).
  apply StronglySorted_inv in Hd as [_ Hd]. rewrite Forall_forall in Hd. pose proof (Hd f Hpost) as Hhf.
  pose proof (ic_le_lt _ _ _ Hhle Hhf) as Hhf'. destruct (ro_large _ _ _ Hr) as (g & Hg & Hgl). pose proof (Hsep g h ltac:(set_solver) ltac:(set_solver)) as Hgh. rewrite Hgl in Hgh.
  specialize (Hmin h ltac:(set_solver)). pose proof (ic_ukey _ _ (Z.lt_le_incl _ _ Hgh)) as Hu1. pose proof (ic_ukey _ _ (Z.lt_le_incl _ _ Hhf')) as Hu2.
  assert (boundary large h) as Hb.
  { split; [done|]. pose proof (compare_antisym (ukey (f_smallest f)) (ukey large)). pose proof (compare_antisym (ukey large) (ukey (f_smallest f))).
    pose proof (compare_trans _ _ _ Hu2 (Z.eq_le_incl _ _ Heq)) as Hu3.
    pose proof (compare_antisym (ukey (f_smallest h)) (ukey large)). pose proof (compare_antisym (ukey large) (ukey (f_smallest h))). lia. }
  specialize (Hmin Hb). pose proof (ic_lt_le _ _ _ Hhf' Hmin) as Hx. rewrite ic_refl in Hx. lia.
Qed.

Definition after_key (k : InternalKey) (f : FilePtr) : Prop := ic k (f_smallest f) < 0.
#[local] Instance after_key_dec k f : Decision (after_key k f).
Proof. unfold after_key. apply _. Defined.

Lemma add_boundary_loop_spec fuel level cur small large :
  Forall file_wf level -> Forall file_wf cur -> range_of cur small large -> (length (filter (after_key large) level) < fuel)%nat ->
  exists added large', add_boundary_loop fuel level cur large = Ret (cur ++ added) /\ added ⊆ level /\ NoDup added /\ (forall f, f ∈ added -> f ∉ cur) /\
    range_of (cur ++ added) small large' /\ first_boundary large' level None /\
    forall pre post, disjoint_sorted level -> level = pre ++ cur ++ post -> exists post', post = added ++ post'.
Proof.
  intros Hw. revert cur large. induction fuel as [|fuel IH]; intros cur large Hc Hr Hfuel; [lia|]. cbn [add_boundary_loop].
  destruct (range_of_wf _ _ _ Hc Hr) as [Hs Hl]. destruct (FindSmallestBoundaryFile_spec level large Hl Hw) as (r & -> & Hb). cbn [obind].
  destruct r as [f|].
  2:{ exists [], large. rewrite app_nil_r. split; [done|]. split; [set_solver|]. split; [constructor|]. split; [set_solver|]. split; [done|]. split; [done|]. intros pre post _ _. by exists post. }
  pose proof Hb as (Hf & [Hlt Heq] & Hmin). pose proof Hw as Hw'. rewrite Forall_forall in Hw'. pose proof (Hw' f Hf) as Hfw.
  destruct (IH (cur ++ [f]) (f_largest f)) as (added & large' & Ha & Hin & Hnd & Hnot & Hr' & Hn & Hseg).
  - apply Forall_app. split; [done|by apply Forall_singleton].
  - by eapply range_of_snoc.
  - enough (length (filter (after_key (f_largest f)) level) < length (filter (after_key large) level))%nat by lia.
    destruct Hfw as (_ & _ & Hle). clear -Hf Hlt Hle laws. apply list_elem_of_split in Hf as (l1 & l2 & ->). rewrite !filter_app, !length_app, !filter_cons.
    rewrite (decide_True _ _ (Hlt : after_key large f)). rewrite decide_False; [|unfold after_key; intros Hx; pose proof (ic_lt_le _ _ _ Hx Hle) as Hy; rewrite ic_refl in Hy; lia].
    assert (forall l, length (filter (after_key (f_largest f)) l) <= length (filter (after_key large) l))%nat as Hmono.
    { intros l. apply sublist_length. induction l as [|x l IHl]; [constructor|]. rewrite !filter_cons. destruct (decide (after_key (f_largest f) x)) as [Hx|Hx].
      - rewrite decide_True; [by constructor|]. unfold after_key in *. eapply ic_lt_le; [|apply Z.lt_le_incl, Hx]. by eapply ic_lt_le.
      - destruct (decide (after_key large x)); [by constructor|done]. }
    pose proof (Hmono l1). pose proof (Hmono l2). simpl. lia.
  - exists (f :: added), large'. rewrite <- app_assoc in Ha, Hr'. split; [done|]. split; [set_solver|].
    assert (f ∉ cur) as Hfc by (by eapply after_range). split; [apply NoDup_cons; split; [|done]; intros Hx; apply (Hnot _ Hx); set_solver|].
    split; [intros g [->|Hg]%elem_of_cons; [done|]; pose proof (Hnot g Hg); set_solver|]. split; [done|]. split; [done|].
    intros pre post Hd Hsplit. destruct (boundary_next level pre cur post small large f Hw Hd Hsplit Hr Hb) as (post' & ->).
    destruct (Hseg pre post' Hd) as (post'' & ->); [rewrite Hsplit; by rewrite <- !app_assoc|]. by exists post''.
Qed.

Lemma AddBoundaryInputs_spec level files :
  Forall file_wf level -> Forall file_wf files -> files ≠ [] ->
  exists added small large, AddBoundaryInputs level files = Ret (files ++ added) /\ added ⊆ level /\ NoDup added /\ (forall f, f ∈ added -> f ∉ files) /\
    range_of (files ++ added) small large /\ first_boundary large level None /\
    forall pre post, disjoint_sorted level -> level = pre ++ files ++ post -> exists post', post = added ++ post'.
Proof.
  intros Hw Hf Hne. unfold AddBoundaryInputs. destruct (FindLargestKey_spec files Hf Hne) as (small & large & -> & Hr). cbn [obind].
  destruct (add_boundary_loop_spec (S (length level)) level files small large Hw Hf Hr) as (added & large' & Ha); [apply Nat.lt_succ_r, length_filter|].
  by exists added, small, large'.
Qed.
End Ranged.
