(* ===== verification/CompactionCorrect.v ===== *)
(** * Compactions: the inputs that are chosen

    The files of a compaction can be replaced by their merge one level down: the files that are
    left in the two levels do not get between them. *)

From stdpp Require Import gmap sorting.
From Stdlib Require Import SpecFloat.
From S2P Require Import Prelude Coding Env Comparator DbFormat VersionEdit SkipList MemTable Iterator Version VersionBuilder DList VersionSet Compaction.

Open Scope outcome_scope.

(** The elements of a sorted list with a convex property stand together. *)
Lemma convex_filter {A} (R : A -> A -> Prop) (Q P : A -> Prop) `{forall x, Decision (P x)} (l : list A) :
  StronglySorted R l -> Forall Q l -> (forall x y z, Q y -> R x y -> R y z -> P x -> P z -> P y) ->
  exists pre post, l = pre ++ filter P l ++ post /\ Forall (fun x => ~ P x) pre.
Proof.
  intros Hs Hq Hc. induction Hs as [|x l Hs IH Hx]; [by exists [], []|].
  apply Forall_cons in Hq as [Hqx Hq]. destruct (IH Hq) as (pre & post & Hl & Hn). rewrite filter_cons. destruct (decide (P x)) as [Hp|Hp].
  - exists []. destruct pre as [|y pre].
    { exists post. split; [by rewrite Hl at 1|constructor]. }
    destruct (filter P l) as [|z r] eqn:Ef; [by exists l|exfalso].
    apply Forall_cons in Hn as [Hny _]. assert (y ∈ l /\ z ∈ l /\ P z) as (Hy & Hz & Hpz).
    { assert (z ∈ filter P l) as Hz by (rewrite Ef; by left). apply list_elem_of_filter in Hz as [Hpz Hz]. split; [|done]. rewrite Hl. by left. }
    rewrite Forall_forall in Hx, Hq. apply Hny, (Hc x y z); [by apply Hq|by apply Hx| |done|done].
    rewrite Hl in Hs. apply StronglySorted_inv in Hs as [_ Hyl]. rewrite Forall_forall in Hyl. apply Hyl. set_solver.
  - exists (x :: pre), post. split; [by rewrite Hl at 1|by constructor].
Qed.

Section Choice.
Context `{laws : ComparatorLaws}.

(** ** Files that may be taken together *)

Definition selection (level : Z) (files inputs : list FilePtr) : Prop :=
  inputs ≠ [] /\
  if decide (level = 0) then exists lo hi, closed_range files lo hi /\ inputs = filter (overlaps lo hi) files
  else exists pre post, files = pre ++ inputs ++ post.

(** In a level other than 0 the next file starts with another user key. *)
Definition settled (level : Z) (files inputs : list FilePtr) : Prop :=
  inputs ≠ [] /\
  if decide (level = 0) then exists lo hi, closed_range files lo hi /\ inputs = filter (overlaps lo hi) files
  else exists pre post, files = pre ++ inputs ++ post /\
    forall f g, f ∈ inputs -> g ∈ post -> Compare (ukey (f_largest f)) (ukey (f_smallest g)) < 0.

Lemma selection_elem level files inputs f : selection level files inputs -> f ∈ inputs -> f ∈ files.
Proof.
  intros [_ Hs] Hf. destruct (decide (level = 0)); [destruct Hs as (lo & hi & _ & ->); by apply list_elem_of_filter in Hf as [_ ?]|].
  destruct Hs as (pre & post & ->). set_solver.
Qed.

Lemma settled_selection level files inputs : settled level files inputs -> selection level files inputs.
Proof. intros [Hne Hs]. split; [done|]. destruct (decide (level = 0)); [done|]. destruct Hs as (pre & post & Hs & _). by exists pre, post. Qed.

(** A file that is left is after the chosen ones, with other user keys, or before them; in
    level 0 it has no user key in common with them in either case. *)
Lemma settled_left level files inputs f g :
  (level ≠ 0 -> disjoint_sorted files) -> settled level files inputs -> f ∈ inputs -> g ∈ files -> g ∉ inputs ->
  Compare (ukey (f_largest f)) (ukey (f_smallest g)) < 0 \/
  ic (f_largest g) (f_smallest f) < 0 /\ (level = 0 -> Compare (ukey (f_largest g)) (ukey (f_smallest f)) < 0).
Proof.
  intros Hd [_ Hs] Hf Hg Hn. destruct (decide (level = 0)) as [->|Hl].
  - destruct Hs as (lo & hi & Hc & ->). unfold closed_range in Hc. rewrite Forall_forall in Hc. apply list_elem_of_filter in Hf as [Hof Hf]. destruct (Hc f Hf Hof) as [Hlo Hhi].
    assert (~ overlapsb lo hi g = true) as Ho by (rewrite overlapsb_spec; intros Ho; apply Hn, list_elem_of_filter; done).
    unfold overlapsb, below, above in Ho. rewrite andb_true_iff, !negb_true_iff in Ho.
    destruct hi as [h|]; [destruct (Z.ltb_spec 0 (Compare (ukey (f_smallest g)) h)) as [Hx|Hx]|].
    + left. simpl in Hhi. apply compare_antisym in Hx. eapply compare_le_lt; done.
    + destruct lo as [k|]; [|by destruct Ho]. destruct (Z.ltb_spec (Compare (ukey (f_largest g)) k) 0) as [Hy|Hy]; [|by destruct Ho].
      right. simpl in Hlo. assert (Compare (ukey (f_largest g)) (ukey (f_smallest f)) < 0) by (eapply compare_lt_le; done). split; [by apply ukey_ic|done].
    + destruct lo as [k|]; [|by destruct Ho]. destruct (Z.ltb_spec (Compare (ukey (f_largest g)) k) 0) as [Hy|Hy]; [|by destruct Ho].
      right. simpl in Hlo. assert (Compare (ukey (f_largest g)) (ukey (f_smallest f)) < 0) by (eapply compare_lt_le; done). split; [by apply ukey_ic|done].
  - destruct Hs as (pre & post & Hfiles & Hp). specialize (Hd Hl). rewrite Hfiles in Hg, Hd. apply elem_of_app in Hg as [Hg|Hg].
    + right. split; [|done]. apply StronglySorted_app in Hd as (Hd & _ & _). apply Hd; set_solver.
    + left. apply Hp; set_solver.
Qed.

(** In level 0 the closure under overlaps has no boundary files. *)
Lemma closed_no_boundary files lo hi small large g :
  Forall file_wf files -> closed_range files lo hi -> range_of (filter (overlaps lo hi) files) small large -> g ∈ files -> ~ boundary large g.
Proof.
  intros Hw Hc Hr Hg [Hlt Heq]. rewrite Forall_forall in Hw. destruct (Hw g Hg) as (_ & _ & Hle).
  destruct (ro_large _ _ _ Hr) as (f & Hf & Hfl). apply list_elem_of_filter in Hf as [Hof Hf]. unfold closed_range in Hc. rewrite Forall_forall in Hc. destruct (Hc f Hf Hof) as [_ Hhi]. rewrite Hfl in Hhi.
  pose proof (ic_ukey _ _ Hle) as Hgu.
  assert (overlaps lo hi g) as Ho.
  { split.
    - intros k ->. destruct Hof as [Hk _]. specialize (Hk k eq_refl). rewrite Hfl in Hk. eapply compare_trans; [exact Hk|]. eapply compare_trans; [|exact Hgu].
      pose proof (compare_antisym (ukey large) (ukey (f_smallest g))). pose proof (compare_antisym (ukey (f_smallest g)) (ukey large)). lia.
    - intros k ->. simpl in Hhi. eapply compare_trans; [|exact Hhi]. lia. }
  destruct (ro_bounds _ _ _ Hr g) as [_ Hgl]; [by apply list_elem_of_filter|]. pose proof (ic_lt_le _ _ _ (ic_lt_le _ _ _ Hlt Hle) Hgl) as Hx. rewrite ic_refl in Hx. lia.
Qed.

Lemma AddBoundaryInputs_settles level files inputs :
  Forall file_wf files -> (level ≠ 0 -> disjoint_sorted files) -> selection level files inputs ->
  exists inputs', AddBoundaryInputs files inputs = Ret inputs' /\ settled level files inputs' /\ inputs ⊆ inputs'.
Proof.
  intros Hw Hd Hs. pose proof Hs as [Hne Hsel].
  assert (Forall file_wf inputs) as Hwi by (rewrite Forall_forall in *; intros f Hf; by apply Hw, (selection_elem level files inputs)).
  destruct (AddBoundaryInputs_spec files inputs Hw Hwi Hne) as (added & small & large & Ha & Hin & _ & Hnot & Hr & Hb & Hseg).
  exists (inputs ++ added). split; [done|]. split; [|set_solver]. split; [by destruct inputs|]. destruct (decide (level = 0)) as [->|Hl].
  - destruct Hsel as (lo & hi & Hc & ->). exists lo, hi. split; [done|].
    destruct added as [|g added]; [by rewrite app_nil_r|exfalso].
    destruct (FindLargestKey_spec _ Hwi Hne) as (small' & large' & Hk & Hr'). unfold AddBoundaryInputs in Ha. rewrite Hk in Ha. cbn [obind add_boundary_loop] in Ha.
    destruct (range_of_wf _ _ _ Hwi Hr') as [_ Hlw]. destruct (FindSmallestBoundaryFile_spec files large' Hlw Hw) as (r & Hfr & Hfb). rewrite Hfr in Ha. cbn [obind] in Ha.
    destruct r as [h|]; [destruct Hfb as (Hh & Hbh & _); exact (closed_no_boundary files lo hi small' large' h Hw Hc Hr' Hh Hbh)|].
    injection Ha as Ha. apply (f_equal length) in Ha. rewrite length_app in Ha. simpl in Ha. lia.
  - destruct Hsel as (pre & post & Hfiles). specialize (Hd Hl). destruct (Hseg pre post Hd Hfiles) as (post' & ->). exists pre, post'.
    split; [by rewrite <- app_assoc|]. intros f g Hf Hg. destruct (ro_bounds _ _ _ Hr f Hf) as [_ Hfl]. destruct (ro_large _ _ _ Hr) as (h & Hh & Hhl).
    assert (ic large (f_smallest g) < 0) as Hlg.
    { rewrite Hfiles in Hd. apply StronglySorted_app in Hd as (_ & _ & Hd). rewrite app_assoc in Hd. apply StronglySorted_app in Hd as (Hd & _ & _). rewrite <- Hhl. by apply Hd. }
    specialize (Hb g ltac:(rewrite Hfiles; set_solver)). pose proof (ic_ukey _ _ (Z.lt_le_incl _ _ Hlg)) as Hu.
    eapply compare_le_lt; [by apply ic_ukey|]. destruct (Z.lt_ge_cases (Compare (ukey large) (ukey (f_smallest g))) 0) as [|Hge]; [done|exfalso]. apply Hb. split; [done|].
    pose proof (compare_antisym (ukey large) (ukey (f_smallest g))). pose proof (compare_antisym (ukey (f_smallest g)) (ukey large)). lia.
Qed.

(** The files that overlap a range stand together. *)
Lemma overlaps_together files lo hi : Forall file_wf files -> disjoint_sorted files -> exists pre post, files = pre ++ filter (overlaps lo hi) files ++ post.
Proof.
  intros Hw Hd. destruct (convex_filter _ file_wf (overlaps lo hi) files Hd Hw) as (pre & post & Heq & _); [|by exists pre, post].
  intros x y z Hy Hxy Hyz [Hx _] [_ Hz]. pose proof (file_wf_ukey _ Hy) as Hyu. apply Z.lt_le_incl, ic_ukey in Hxy, Hyz. split.
  - intros k ->. eapply compare_trans; [by apply Hx|]. by eapply compare_trans.
  - intros k ->. eapply compare_trans; [|by apply Hz]. by eapply compare_trans.
Qed.

Lemma GetOverlappingInputs_selection v level begin limit files :
  version_wf v -> 0 <= level < config.kNumLevels -> bound_wf begin -> bound_wf limit -> v_files v level = Ret files ->
  exists inputs, GetOverlappingInputs v level begin limit = Ret inputs /\ (inputs ≠ [] -> selection level files inputs) /\
    (forall f, f ∈ files -> overlaps (ukey <$> begin) (ukey <$> limit) f -> f ∈ inputs) /\
    (0 < level -> inputs = filter (overlaps (ukey <$> begin) (ukey <$> limit)) files).
Proof.
  intros Hv Hl Hb He Hf. destruct (version_level v level Hv Hl) as (files' & Hf' & _ & Hw & _ & Hd). assert (files' = files) as -> by congruence.
  unfold selection. destruct (decide (level = 0)) as [->|Hne].
  - destruct (GetOverlappingInputs_level0 v begin limit files Hv Hb He Hf) as (lo & hi & -> & Hc & Hlo & Hhi & _). eexists. split; [done|].
    split; [intros Hne; split; [done|]; by exists lo, hi|]. split; [|lia]. intros f Hin Ho. apply list_elem_of_filter. split; [|done]. by eapply overlaps_widen.
  - rewrite (GetOverlappingInputs_sorted v level begin limit files Hv ltac:(lia) Hb He Hf). eexists. split; [done|].
    split; [intros Hnil; split; [done|]; apply overlaps_together; [done|apply Hd; lia]|]. split; [|done]. intros f Hin Ho. by apply list_elem_of_filter.
Qed.

Lemma bound_wf_Some k : ikey_wf k -> bound_wf (Some k).
Proof. by intros Hk i [= <-]. Qed.

Lemma files_wf_sub files inputs : Forall file_wf files -> inputs ⊆ files -> Forall file_wf inputs.
Proof. rewrite !Forall_forall. intros Hw Hs f Hf. apply Hw. by apply Hs. Qed.

Lemma selection_sub level files inputs : selection level files inputs -> inputs ⊆ files.
Proof. intros Hs f Hf. by eapply selection_elem. Qed.

(** A file overlaps the range of files it is one of. *)
Lemma range_overlaps files small large f :
  file_wf f -> range_of files small large -> f ∈ files -> overlaps (Some (ukey small)) (Some (ukey large)) f.
Proof.
  intros Hw Hr Hf. destruct (ro_bounds _ _ _ Hr f Hf) as [Hs Hl]. apply ic_ukey in Hs, Hl. pose proof (file_wf_ukey _ Hw) as Hu.
  split; intros k [= <-]; by eapply compare_trans.
Qed.

(** ** The inputs of a compaction *)

(** The files chosen from [level] and the next, with the range of the former and of both. *)
Record inputs_ok (v : Version) (level : Z) (files0 files1 : list FilePtr) (small large all_start all_limit : InternalKey) : Prop := mkInputsOk {
  io_settled : exists files, v_files v level = Ret files /\ settled level files files0;
  io_range : range_of files0 small large;
  io_next : exists files, v_files v (level + 1) = Ret files /\ files1 = filter (overlaps (Some (ukey small)) (Some (ukey large))) files;
  io_all : range_of (files0 ++ files1) all_start all_limit;
}.

Lemma next_inputs v level files0 small large :
  version_wf v -> 0 <= level -> level + 1 < config.kNumLevels -> Forall file_wf files0 -> range_of files0 small large ->
  exists files1 next, GetOverlappingInputs v (level + 1) (Some small) (Some large) = Ret files1 /\ v_files v (level + 1) = Ret next /\
    files1 = filter (overlaps (Some (ukey small)) (Some (ukey large))) next /\
    exists all_start all_limit, GetRange2 files0 files1 = Ret (all_start, all_limit) /\ range_of (files0 ++ files1) all_start all_limit /\ Forall file_wf (files0 ++ files1).
Proof.
  intros Hv Hl Hl1 Hw Hr. destruct (range_of_wf _ _ _ Hw Hr) as [Hs Hlg].
  destruct (version_level v (level + 1) Hv ltac:(lia)) as (next & Hf & _ & Hnw & _).
  exists (filter (overlaps (Some (ukey small)) (Some (ukey large))) next), next.
  rewrite (GetOverlappingInputs_sorted v (level + 1) _ _ next Hv ltac:(lia) (bound_wf_Some _ Hs) (bound_wf_Some _ Hlg) Hf).
  split; [done|]. split; [done|]. split; [done|].
  assert (Forall file_wf (files0 ++ filter (overlaps (Some (ukey small)) (Some (ukey large))) next)) as Hall.
  { apply Forall_app. split; [done|]. apply (files_wf_sub next); [done|]. intros f Hx. by apply list_elem_of_filter in Hx as [_ ?]. }
  destruct (GetRange_spec _ Hall) as (a & b & Hg & Hab). { destruct (ro_small _ _ _ Hr) as (f & Hx & _). by destruct files0; [apply not_elem_of_nil in Hx|]. }
  by exists a, b.
Qed.

Lemma expand_inputs_spec options v level files files0 files1 small large all_start all_limit :
  version_wf v -> 0 <= level -> level + 1 < config.kNumLevels -> v_files v level = Ret files ->
  inputs_ok v level files0 files1 small large all_start all_limit ->
  exists files0' files1' small' large' all_start' all_limit',
    expand_inputs options v level files files0 files1 large all_start all_limit = Ret (files0', files1', large', (all_start', all_limit')) /\
    files0 ⊆ files0' /\ inputs_ok v level files0' files1' small' large' all_start' all_limit'.
Proof.
  intros Hv Hl Hl1 Hf Hok. unfold expand_inputs.
  assert (exists files0' files1' small' large' all_start' all_limit',
    Ret (files0, files1, large, (all_start, all_limit)) = Ret (files0', files1', large', (all_start', all_limit')) /\
    files0 ⊆ files0' /\ inputs_ok v level files0' files1' small' large' all_start' all_limit') as Hunchanged.
  { by exists files0, files1, small, large, all_start, all_limit. }
  destruct (bool_decide (files1 = [])); [done|].
  destruct (version_level v level Hv ltac:(lia)) as (files' & Hf' & _ & Hw & _ & Hd). assert (files' = files) as -> by congruence.
  destruct Hok as [(files' & Hf'' & Hset) Hr (next & Hn & Hf1) Hall]. assert (files' = files) as -> by congruence.
  pose proof (selection_sub _ _ _ (settled_selection _ _ _ Hset)) as Hsub. pose proof (files_wf_sub _ _ Hw Hsub) as Hw0.
  assert (Forall file_wf (files0 ++ files1)) as Hwa.
  { apply Forall_app. split; [done|]. destruct (version_level v (level + 1) Hv ltac:(lia)) as (next' & Hn' & _ & Hnw & _). assert (next' = next) as -> by congruence.
    apply (files_wf_sub next); [done|]. rewrite Hf1. intros f Hx. by apply list_elem_of_filter in Hx as [_ ?]. }
  destruct (range_of_wf _ _ _ Hwa Hall) as [Has Hal].
  destruct (GetOverlappingInputs_selection v level (Some all_start) (Some all_limit) files Hv ltac:(lia) (bound_wf_Some _ Has) (bound_wf_Some _ Hal) Hf) as (e0 & -> & Hsel & Hin & _).
  cbn [obind].
  assert (files0 ⊆ e0) as Hsub0.
  { intros f Hx. apply Hin; [by apply Hsub|]. apply (range_overlaps (files0 ++ files1)); [|done|set_solver]. rewrite Forall_forall in Hw0. by apply Hw0. }
  assert (e0 ≠ []) as Hne. { destruct Hset as [Hne0 _]. destruct files0 as [|f files0]; [done|]. intros ->. apply (not_elem_of_nil f), Hsub0. by left. }
  destruct (AddBoundaryInputs_settles level files e0 Hw ltac:(intros; apply Hd; lia) (Hsel Hne)) as (e0' & -> & Hset' & Hsub'). cbn [obind].
  destruct (_ && _); [|done].
  pose proof (files_wf_sub _ _ Hw (selection_sub _ _ _ (settled_selection _ _ _ Hset'))) as Hw0'.
  destruct (GetRange_spec e0' Hw0') as (small' & large' & -> & Hr'); [by destruct Hset'|]. cbn [obind].
  destruct (next_inputs v level e0' small' large' Hv Hl Hl1 Hw0' Hr') as (e1 & next' & -> & Hn' & He1 & a & b & Hg & Hab & _). cbn [obind].
  destruct (_ =? _); [|done]. rewrite Hg. cbn [obind]. exists e0', e1, small', large', a, b. split; [done|]. split; [set_solver|].
  split; [by exists files|done|by exists next'|done].
Qed.

(** The compaction [c] on the files of [v]: its inputs, the files below them and the pointer
    of its edit. *)
Record compaction_of (v : Version) (c : Compaction) (large : InternalKey) : Prop := mkCompactionOf {
  ca_level : 0 <= level_ c;
  ca_next : level_ c + 1 < config.kNumLevels;
  ca_inputs : exists small all_start all_limit, inputs_ok v (level_ c) (inputs_0 c) (inputs_1 c) small large all_start all_limit /\
    if level_ c + 2 <? config.kNumLevels
    then exists files, v_files v (level_ c + 2) = Ret files /\ grandparents_ c = filter (overlaps (Some (ukey all_start)) (Some (ukey all_limit))) files
    else grandparents_ c = [];
  ca_edit : edit_ c = SetCompactPointer (level_ c) large new_VersionEdit;
  ca_ptrs : level_ptrs_ c = replicate (Z.to_nat config.kNumLevels) 0;
  ca_index : grandparent_index_ c = 0;
  ca_seen : seen_key_ c = false;
  ca_overlapped : overlapped_bytes_ c = 0;
}.

Lemma vec_set_lookup {A} (l : list A) (i : Z) x : 0 <= i < zlen l -> vec_set l i x = Ret (<[Z.to_nat i := x]> l).
Proof.
  intros Hi. unfold vec_set. destruct (lookup_lt_is_Some_2 l (Z.to_nat i)) as [y Hy]; [unfold zlen in Hi; lia|].
  apply vec_at_lookup in Hy. rewrite Z2Nat.id in Hy by lia. by rewrite Hy.
Qed.

(** A compaction with no more than a selection of files. *)
Definition start_Compaction (options : Options) (level : Z) (n : nat) (inputs : list FilePtr) : Compaction :=
  set_inputs (set_input_version (new_Compaction options level) (Some n)) inputs [].

Lemma SetupOtherInputs_spec {FH : Type} (vs : VersionSet FH) v options level n files inputs :
  current_version (vs_versions vs) = Ret v -> version_wf v -> 0 <= level -> level + 1 < config.kNumLevels ->
  v_files v level = Ret files -> selection level files inputs -> length (compact_pointer_ vs) = Z.to_nat config.kNumLevels ->
  exists c large, SetupOtherInputs vs (start_Compaction options level n inputs) =
      Ret (set_pointer_array vs (<[Z.to_nat level := rep_ large]> (compact_pointer_ vs)), c) /\
    compaction_of v c large /\ level_ c = level /\ input_version_ c = Some n /\ inputs ⊆ inputs_0 c /\ ikey_wf large.
Proof.
  intros Hcur Hv Hl Hl1 Hf Hsel Hlen. unfold SetupOtherInputs. cbn [level_ start_Compaction set_inputs set_input_version new_Compaction inputs_0 grandparents_ edit_]. rewrite Hcur. cbn [obind]. rewrite Hf. cbn [obind].
  destruct (version_level v level Hv ltac:(lia)) as (files' & Hf' & _ & Hw & _ & Hd). assert (files' = files) as -> by congruence.
  destruct (AddBoundaryInputs_settles level files inputs Hw ltac:(intros; apply Hd; lia) Hsel) as (i0 & -> & Hset & Hsub). cbn [obind].
  pose proof (files_wf_sub _ _ Hw (selection_sub _ _ _ (settled_selection _ _ _ Hset))) as Hw0.
  destruct (GetRange_spec i0 Hw0) as (small & large & -> & Hr); [by destruct Hset|]. cbn [obind].
  destruct (next_inputs v level i0 small large Hv Hl Hl1 Hw0 Hr) as (i1 & next & -> & Hn & Hi1 & a & b & Hg & Hab & _). cbn [obind]. rewrite Hg. cbn [obind].
  destruct (expand_inputs_spec (vs_options vs) v level files i0 i1 small large a b Hv Hl Hl1 Hf) as (e0 & e1 & small' & large' & a' & b' & -> & Hsub' & Hok).
  { split; [by exists files|done|by exists next|done]. }
  cbn [obind fst snd]. pose proof Hok as [(files' & Hf'' & Hset') Hr' (next' & Hn' & He1) Hall']. assert (files' = files) as -> by congruence.
  pose proof (files_wf_sub _ _ Hw (selection_sub _ _ _ (settled_selection _ _ _ Hset'))) as Hwe. destruct (range_of_wf _ _ _ Hwe Hr') as [_ Hlw].
  assert (Forall file_wf (e0 ++ e1)) as Hwa.
  { apply Forall_app. split; [done|]. destruct (version_level v (level + 1) Hv ltac:(lia)) as (x & Hx & _ & Hxw & _). assert (x = next') as -> by congruence.
    apply (files_wf_sub next'); [done|]. rewrite He1. intros f Hy. by apply list_elem_of_filter in Hy as [_ ?]. }
  destruct (range_of_wf _ _ _ Hwa Hall') as [Haw Hbw].
  assert (exists grand, (if level + 2 <? config.kNumLevels then GetOverlappingInputs v (level + 2) (Some a') (Some b') else Ret []) = Ret grand /\
    if level + 2 <? config.kNumLevels then exists files, v_files v (level + 2) = Ret files /\ grand = filter (overlaps (Some (ukey a')) (Some (ukey b'))) files else grand = []) as (grand & -> & Hgrand).
  { destruct (Z.ltb_spec (level + 2) config.kNumLevels) as [Hlt|]; [|by exists []].
    destruct (version_level v (level + 2) Hv ltac:(lia)) as (g & Hgf & _). rewrite (GetOverlappingInputs_sorted v (level + 2) _ _ g Hv ltac:(lia) (bound_wf_Some _ Haw) (bound_wf_Some _ Hbw) Hgf).
    eexists. split; [done|]. by exists g. }
  cbn [obind]. rewrite (Encode_wf large' Hlw). cbn [obind]. rewrite vec_set_lookup by (unfold zlen, config.kNumLevels in *; lia). cbn [obind].
  eexists _, large'. split; [done|]. split; [|split; [done|split; [done|split; [cbn; set_solver|done]]]].
  split; try done. cbn. by exists small', a', b'.
Qed.

(** ** Picking *)

Lemma compaction_of_files v v' c large : files_ v' = files_ v -> compaction_of v c large -> compaction_of v' c large.
Proof.
  intros He [H1' H2' (s & a & b & [Hi1 Hi2 Hi3 Hi4] & Hg) H4' H5' H6' H7' H8']. unfold v_files in *. rewrite <- He in *.
  split; try done. exists s, a, b. split; [by split|done].
Qed.

Lemma version_wf_files v v' : files_ v' = files_ v -> version_wf v -> version_wf v'.
Proof. intros He [H1' H2' H3' H4']. split; by rewrite He. Qed.

(** The version was finalized, and the file to compact after seeks is a file of a level that
    has one below. *)
Record ready (v : Version) : Prop := mkReady {
  rd_final : Finalize v = Ret v;
  rd_seek f : file_to_compact_ v = Some f -> 0 <= file_to_compact_level_ v /\ file_to_compact_level_ v + 1 < config.kNumLevels /\
    exists files, v_files v (file_to_compact_level_ v) = Ret files /\ f ∈ files;
}.

Definition size_compaction (v : Version) : bool := SFleb (double 1) (compaction_score_ v).

(** A level that is too large has files, and no level is fuller. *)
Lemma finalized_level v :
  version_wf v -> Finalize v = Ret v -> size_compaction v = true ->
  0 <= compaction_level_ v /\ compaction_level_ v + 1 < config.kNumLevels /\
  (exists files, v_files v (compaction_level_ v) = Ret files /\ files ≠ []) /\
  forall i, 0 <= i < config.kNumLevels - 1 -> SFltb (score_at (files_ v) (compaction_level_ v)) (score_at (files_ v) i) = false.
Proof.
  intros Hv Hfin Hsz. destruct (Finalize_spec v (vw_levels _ Hv)) as (bl & bs & Hf & Hall & Hr & Hb). rewrite Hfin in Hf. injection Hf as Hf.
  assert (compaction_level_ v = bl) as -> by (by rewrite Hf). unfold size_compaction in Hsz. assert (compaction_score_ v = bs) as Hs by (by rewrite Hf). rewrite Hs in Hsz. clear Hf Hs.
  destruct (Z.eqb_spec bl (-1)) as [->|Hne]; [by rewrite Hb in Hsz|]. split; [lia|]. split; [lia|]. rewrite <- Hb. split; [|done].
  destruct (version_level v bl Hv ltac:(lia)) as (files & Hfl & Hlk & _). exists files. split; [done|]. intros ->. unfold score_at in Hb. rewrite Hlk in Hb. cbn [default from_option id] in Hb.
  rewrite score_empty in Hb by (unfold config.kNumLevels in Hr; lia). by rewrite Hb in Hsz.
Qed.

(** [f] ends after the pointer. *)
Definition past_pointer (pointer : bytes) (f : FilePtr) : Prop := zlen pointer = 0 \/ 0 < internal_compare (rep_ (f_largest f)) pointer.

Lemma after_pointer_spec files pointer :
  Forall file_wf files ->
  exists r, after_pointer files pointer = Ret r /\
    match r with
    | Some f => exists pre post, files = pre ++ f :: post /\ past_pointer pointer f /\ Forall (fun g => ~ past_pointer pointer g) pre
    | None => Forall (fun g => ~ past_pointer pointer g) files
    end.
Proof.
  intros Hw. induction Hw as [|f files (_ & Hfl & _) Hw IH]; [by exists None|]. cbn [after_pointer].
  assert ((if zlen pointer =? 0 then Ret true else let! large := Encode (f_largest f) in Ret (0 <? internal_compare large pointer)) =
    Ret ((zlen pointer =? 0) || (0 <? internal_compare (rep_ (f_largest f)) pointer))) as ->.
  { destruct (zlen pointer =? 0); [done|]. by rewrite Encode_wf. }
  cbn [obind]. destruct (_ || _) eqn:Eb.
  - exists (Some f). split; [done|]. exists [], files. split; [done|]. split; [|constructor]. apply orb_true_iff in Eb as [?%Z.eqb_eq|?%Z.ltb_lt]; [by left|by right].
  - apply orb_false_iff in Eb as [E1%Z.eqb_neq E2%Z.ltb_ge]. assert (~ past_pointer pointer f) as Hn by (intros [?|?]; lia).
    destruct IH as (r & -> & Hr). exists r. split; [done|]. destruct r as [g|]; [|by constructor]. destruct Hr as (pre & post & -> & Hg & Hpre).
    exists (f :: pre), post. split; [done|]. split; [done|]. by constructor.
Qed.

(** The file a compaction starts from: of the fullest level, the first file after the pointer
    or else the first one; or the file that was sought in vain too often. *)
Definition picked {FH : Type} (vs : VersionSet FH) (v : Version) (level : Z) (f : FilePtr) : Prop :=
  exists files, v_files v level = Ret files /\
  if size_compaction v then
    level = compaction_level_ v /\ exists pointer, vec_at (compact_pointer_ vs) level = Ret pointer /\
    ((exists pre post, files = pre ++ f :: post /\ past_pointer pointer f /\ Forall (fun g => ~ past_pointer pointer g) pre) \/
     (Forall (fun g => ~ past_pointer pointer g) files /\ exists post, files = f :: post))
  else level = file_to_compact_level_ v /\ file_to_compact_ v = Some f /\ f ∈ files.

Lemma picked_elem {FH : Type} (vs : VersionSet FH) v level f files : picked vs v level f -> v_files v level = Ret files -> f ∈ files.
Proof.
  intros (files' & Hf & Hp) Hf'. assert (files' = files) as -> by congruence. destruct (size_compaction v); [|by destruct Hp as (_ & _ & ?)].
  destruct Hp as (_ & pointer & _ & [(pre & post & -> & _)|(_ & post & ->)]); set_solver.
Qed.

Lemma pick_file_spec {FH : Type} (vs : VersionSet FH) v :
  version_wf v -> ready v -> length (compact_pointer_ vs) = Z.to_nat config.kNumLevels ->
  exists r, pick_file vs v = Ret r /\
    match r with
    | None => size_compaction v = false /\ file_to_compact_ v = None
    | Some (level, f) => 0 <= level /\ level + 1 < config.kNumLevels /\ picked vs v level f
    end.
Proof.
  intros Hv [Hfin Hseek] Hlen. unfold pick_file. change (SFleb (double 1) (compaction_score_ v)) with (size_compaction v). unfold picked.
  destruct (size_compaction v) eqn:Es.
  - destruct (finalized_level v Hv Hfin Es) as (Hl & Hl1 & (files & Hf & Hne) & _).
    destruct (Z.leb_spec 0 (compaction_level_ v)); [|lia]. destruct (Z.ltb_spec (compaction_level_ v + 1) config.kNumLevels); [|lia]. cbn [oassert obind]. rewrite Hf. cbn [obind].
    destruct (lookup_lt_is_Some_2 (compact_pointer_ vs) (Z.to_nat (compaction_level_ v))) as [pointer Hp]; [unfold config.kNumLevels in *; lia|].
    apply vec_at_lookup in Hp. rewrite Z2Nat.id in Hp by lia. rewrite Hp. cbn [obind].
    destruct (version_level v (compaction_level_ v) Hv ltac:(lia)) as (files' & Hf' & _ & Hw & _). assert (files' = files) as -> by congruence.
    destruct (after_pointer_spec files pointer Hw) as (r & -> & Hr). cbn [obind]. destruct r as [f|].
    + eexists. split; [done|]. split; [done|]. split; [done|]. exists files. split; [done|]. split; [done|]. exists pointer. split; [done|]. by left.
    + destruct files as [|f post]; [done|]. eexists. split; [done|]. split; [done|]. split; [done|]. eexists. split; [done|]. split; [done|]. exists pointer. split; [done|]. right. split; [done|]. by exists post.
  - destruct (file_to_compact_ v) as [f|] eqn:Ef; [|by exists None]. destruct (Hseek f eq_refl) as (Hl & Hl1 & files & Hf & Hin).
    eexists. split; [done|]. split; [done|]. split; [done|]. by exists files.
Qed.

Lemma ref_input_version_spec {FH : Type} (vs : VersionSet FH) v n c :
  vl_current (vs_versions vs) = Some n -> version_at (vs_versions vs) n = Ret v ->
  exists vl, version_Ref (vs_versions vs) n = Ret vl /\ ref_input_version vs c = Ret (set_versions vs vl, set_input_version c (Some n)) /\
    current_version vl = Ret (set_refs v (v_refs v + 1)).
Proof.
  intros Hc Hv. unfold ref_input_version. rewrite Hc. unfold version_Ref. rewrite Hv. cbn [obind]. eexists. split; [done|]. split; [done|].
  unfold current_version, set_version, version_at. cbn [vl_current vl_versions]. rewrite Hc. by rewrite lookup_insert_eq.
Qed.

(** The state after a compaction was made: one more reference to the current version [n] and
    the compaction pointer. *)
Definition compaction_made {FH : Type} (vs vs' : VersionSet FH) (n : nat) (v : Version) (c : Compaction) : Prop :=
  exists vl large, version_Ref (vs_versions vs) n = Ret vl /\
    vs' = set_pointer_array (set_versions vs vl) (<[Z.to_nat (level_ c) := rep_ large]> (compact_pointer_ vs)) /\
    ikey_wf large /\ compaction_of v c large /\ input_version_ c = Some n.

Lemma PickCompaction_spec {FH : Type} (vs : VersionSet FH) n v :
  vl_current (vs_versions vs) = Some n -> version_at (vs_versions vs) n = Ret v -> version_wf v -> ready v ->
  length (compact_pointer_ vs) = Z.to_nat config.kNumLevels ->
  exists vs' r, PickCompaction vs = Ret (vs', r) /\
    match r with
    | None => vs' = vs /\ size_compaction v = false /\ file_to_compact_ v = None
    | Some c => compaction_made vs vs' n v c /\ exists f, picked vs v (level_ c) f /\ f ∈ inputs_0 c
    end.
Proof.
  intros Hc Hat Hv Hr Hlen. unfold PickCompaction, current_version. rewrite Hc, Hat. cbn [obind].
  destruct (pick_file_spec vs v Hv Hr Hlen) as (r & -> & Hp). cbn [obind]. destruct r as [[level f]|]; [|by exists vs, None].
  destruct Hp as (Hl & Hl1 & Hp).
  destruct (ref_input_version_spec vs v n (set_inputs (new_Compaction (vs_options vs) level) [f] []) Hc Hat) as (vl & Href & -> & Hcur). cbn [obind].
  destruct (version_level v level Hv ltac:(lia)) as (files & Hf & _ & Hw & _ & Hd). pose proof (picked_elem _ _ _ _ _ Hp Hf) as Hin.
  pose proof Hw as Hw'. rewrite Forall_forall in Hw'. pose proof (Hw' f Hin) as Hfw.
  assert (exists inputs, (if level =? 0 then
          let! (small, large) := GetRange (inputs_0 (set_input_version (set_inputs (new_Compaction (vs_options vs) level) [f] []) (Some n))) in
          let! inputs := GetOverlappingInputs v 0 (Some small) (Some large) in
          assert! negb (bool_decide (inputs = []));
          Ret (set_inputs (set_input_version (set_inputs (new_Compaction (vs_options vs) level) [f] []) (Some n)) inputs [])
        else Ret (set_input_version (set_inputs (new_Compaction (vs_options vs) level) [f] []) (Some n))) = Ret (start_Compaction (vs_options vs) level n inputs) /\
      selection level files inputs /\ f ∈ inputs) as (inputs & -> & Hsel & Hfi).
  { destruct (Z.eqb_spec level 0) as [->|Hne].
    - cbn [inputs_0 set_input_version set_inputs GetRange range_loop obind]. pose proof Hfw as (Hsw & Hlw & _).
      destruct (GetOverlappingInputs_selection v 0 (Some (f_smallest f)) (Some (f_largest f)) files Hv ltac:(lia) (bound_wf_Some _ Hsw) (bound_wf_Some _ Hlw) Hf) as (inputs & -> & Hsel & Hov & _).
      assert (f ∈ inputs) as Hfi by (apply Hov; [done|]; apply (range_overlaps [f]); [done|apply range_of_one|by apply list_elem_of_singleton]).
      assert (inputs ≠ []) as Hne by (intros ->; by apply not_elem_of_nil in Hfi). cbn [obind]. rewrite bool_decide_eq_false_2 by done. exists inputs. auto.
    - exists [f]. split; [done|]. split; [|by apply list_elem_of_singleton]. split; [done|]. rewrite decide_False by done. apply list_elem_of_split in Hin as (pre & post & ->). by exists pre, post. }
  cbn [obind].
  destruct (SetupOtherInputs_spec (set_versions vs vl) (set_refs v (v_refs v + 1)) (vs_options vs) level n files inputs) as (c & large & -> & Hco & <- & Hci & Hsub & Hlw); try done.
  { by apply (version_wf_files v). }
  cbn [obind]. eexists _, (Some c). split; [done|]. split; [|exists f; split; [done|by apply Hsub]].
  exists vl, large. split; [done|]. split; [done|]. split; [done|]. split; [|done]. by apply (compaction_of_files (set_refs v (v_refs v + 1))).
Qed.

Lemma limit_loop_prefix files limit total : files ≠ [] -> limit_loop files limit total ≠ [] /\ exists rest, files = limit_loop files limit total ++ rest.
Proof.
  revert total. induction files as [|f files IH]; intros total Hne; [done|]. cbn [limit_loop]. split; [done|].
  destruct (limit <=? _); [by exists files|]. destruct files as [|g files]; [by exists []|]. destruct (IH (u64 (total + f_file_size f)) ltac:(done)) as (_ & rest & Hr).
  exists rest. simpl. f_equal. exact Hr.
Qed.

Lemma CompactRange_spec {FH : Type} (vs : VersionSet FH) n v level begin limit :
  vl_current (vs_versions vs) = Some n -> version_at (vs_versions vs) n = Ret v -> version_wf v ->
  length (compact_pointer_ vs) = Z.to_nat config.kNumLevels -> 0 <= level -> level + 1 < config.kNumLevels -> bound_wf begin -> bound_wf limit ->
  exists vs' r files, CompactRange vs level begin limit = Ret (vs', r) /\ v_files v level = Ret files /\
    match r with
    | None => vs' = vs /\ Forall (fun f => ~ overlaps (ukey <$> begin) (ukey <$> limit) f) files
    | Some c => compaction_made vs vs' n v c /\ level_ c = level
    end.
Proof.
  intros Hc Hat Hv Hlen Hl Hl1 Hb He. unfold CompactRange, current_version. rewrite Hc, Hat. cbn [obind].
  destruct (version_level v level Hv ltac:(lia)) as (files & Hf & _ & Hw & _ & Hd).
  destruct (GetOverlappingInputs_selection v level begin limit files Hv ltac:(lia) Hb He Hf) as (inputs & -> & Hsel & Hov & _). cbn [obind].
  destruct (bool_decide_reflect (inputs = [])) as [->|Hne].
  { exists vs, None, files. split; [done|]. split; [done|]. split; [done|]. apply Forall_forall. intros f Hin Ho. by apply (not_elem_of_nil f), Hov. }
  specialize (Hsel Hne).
  assert (selection level files (if 0 <? level then limit_loop inputs (MaxFileSizeForLevel (vs_options vs) level) 0 else inputs)) as Hsel'.
  { destruct (Z.ltb_spec 0 level) as [Hpos|]; [|done]. destruct (limit_loop_prefix inputs (MaxFileSizeForLevel (vs_options vs) level) 0 Hne) as (Hne' & rest & Hr).
    destruct Hsel as [_ Hsel]. unfold selection. rewrite decide_False in * by lia. split; [done|]. destruct Hsel as (pre & post & ->). exists pre, (rest ++ post). rewrite Hr at 1. by rewrite <- app_assoc. }
  set (inputs' := if 0 <? level then _ else _) in *.
  destruct (ref_input_version_spec vs v n (new_Compaction (vs_options vs) level) Hc Hat) as (vl & Href & -> & Hcur). cbn [obind].
  destruct (SetupOtherInputs_spec (set_versions vs vl) (set_refs v (v_refs v + 1)) (vs_options vs) level n files inputs') as (c & large & Hset & Hco & Hlc & Hci & _ & Hlw); try done.
  { by apply (version_wf_files v). }
  unfold start_Compaction in Hset. rewrite Hset. cbn [obind]. eexists _, (Some c), files. split; [done|]. split; [done|]. split; [|done].
  exists vl, large. rewrite Hlc. split; [done|]. split; [done|]. split; [done|]. split; [|done]. by apply (compaction_of_files (set_refs v (v_refs v + 1))).
Qed.
End Choice.
