(* ===== verification/CompactionLoop.v ===== *)
(** * Compactions: the questions asked while the inputs are merged

    [IsBaseLevelForKey] decides whether a deletion mark can be dropped, [ShouldStopBefore]
    whether the output file ends. Both keep positions in the levels below and are called with
    growing keys. *)

From stdpp Require Import gmap sorting.
From S2P Require Import Prelude Coding Env Comparator DbFormat VersionEdit SkipList MemTable Iterator Version VersionBuilder DList VersionSet Compaction CompactionCorrect.

Open Scope outcome_scope.

(** The calls for a sequence of keys, in order. *)
Section Runs.
Context {H : Type} `{user_comparator : Comparator}.

Fixpoint base_level_run (vs : VersionSet H) (c : Compaction) (keys : list bytes) : outcome (Compaction * list bool) :=
  match keys with
  | [] => Ret (c, [])
  | k :: keys =>
      let! (c, b) := IsBaseLevelForKey vs c k in
      let! (c, bs) := base_level_run vs c keys in
      Ret (c, b :: bs)
  end.

Fixpoint stop_run (vs : VersionSet H) (c : Compaction) (keys : list bytes) : outcome (Compaction * list bool) :=
  match keys with
  | [] => Ret (c, [])
  | k :: keys =>
      let! (c, b) := ShouldStopBefore vs c k in
      let! (c, bs) := stop_run vs c keys in
      Ret (c, b :: bs)
  end.
End Runs.

Section Loop.
Context `{laws : ComparatorLaws}.

(** ** The levels below *)

(** Whether the range of some file has the key. *)
Definition in_some_file (key : bytes) (files : list FilePtr) : bool := existsb (overlapsb (Some key) (Some key)) files.

(** No level from [lvl] on has a file with the key in its range. *)
Definition no_file_below (v : Version) (lvl : Z) (key : bytes) : bool := forallb (fun files => negb (in_some_file key files)) (drop (Z.to_nat lvl) (files_ v)).

(** A position in a level: the files before it end before the key. *)
Definition ptr_ok (key : bytes) (files : list FilePtr) (ptr : Z) : Prop :=
  0 <= ptr <= zlen files /\ forall j f, Z.of_nat j < ptr -> files !! j = Some f -> Compare (ukey (f_largest f)) key < 0.

Lemma ptr_ok_mono key key' files ptr : Compare key key' <= 0 -> ptr_ok key files ptr -> ptr_ok key' files ptr.
Proof. intros Hle [Hr Hb]. split; [done|]. intros j f Hj Hf. eapply compare_lt_le; [by apply (Hb j)|done]. Qed.

Lemma in_some_file_at key files ptr :
  Forall file_wf files -> disjoint_sorted files -> ptr_ok key files ptr ->
  (forall f, files !! Z.to_nat ptr = Some f -> Compare key (ukey (f_largest f)) <= 0) ->
  in_some_file key files = match files !! Z.to_nat ptr with Some f => 0 <=? Compare key (ukey (f_smallest f)) | None => false end.
Proof.
  intros Hw Hd [Hr Hb] Hat. unfold in_some_file. apply eq_bool_prop_intro. rewrite !Is_true_true. rewrite existsb_exists. split.
  - intros (f & Hf%list_elem_of_In & Ho%overlapsb_spec). destruct Ho as [Ho1 Ho2]. specialize (Ho1 key eq_refl). specialize (Ho2 key eq_refl).
    apply list_elem_of_lookup in Hf as [j Hj]. destruct (Z.lt_trichotomy (Z.of_nat j) ptr) as [Hlt|[Heq|Hgt]].
    + specialize (Hb j f Hlt Hj). pose proof (compare_antisym (ukey (f_largest f)) key). lia.
    + replace (Z.to_nat ptr) with j by lia. rewrite Hj. apply Z.leb_le. pose proof (compare_antisym key (ukey (f_smallest f))). lia.
    + destruct (lookup_lt_is_Some_2 files (Z.to_nat ptr)) as [g Hg]; [apply lookup_lt_Some in Hj; lia|]. rewrite Hg. apply Z.leb_le.
      pose proof (disjoint_smallest files (Z.to_nat ptr) j g f Hw Hd Hg Hj ltac:(lia)) as Hgf.
      pose proof (compare_trans _ _ _ Hgf Ho2). pose proof (compare_antisym key (ukey (f_smallest g))). lia.
  - destruct (files !! Z.to_nat ptr) as [f|] eqn:Ef; [|done]. intros Hk%Z.leb_le. exists f. split; [by apply list_elem_of_In, (list_elem_of_lookup_2 _ (Z.to_nat ptr))|].
    apply overlapsb_spec. split; intros k [= <-]; [by apply Hat|]. pose proof (compare_antisym key (ukey (f_smallest f))). pose proof (compare_antisym (ukey (f_smallest f)) key). lia.
Qed.

Lemma advance_ptr_spec fuel files key ptr :
  Forall file_wf files -> disjoint_sorted files -> ptr_ok key files ptr -> (length files < fuel + Z.to_nat ptr)%nat ->
  exists ptr', advance_ptr fuel files key ptr = Ret (ptr', in_some_file key files) /\ ptr_ok key files ptr'.
Proof.
  intros Hw Hd. revert ptr. induction fuel as [|fuel IH]; intros ptr Hp Hf; [destruct Hp as [[? ?] _]; unfold zlen in *; lia|]. cbn [advance_ptr].
  pose proof Hp as [Hr Hb]. destruct (Z.ltb_spec ptr (zlen files)) as [Hlt|Hge].
  - destruct (lookup_lt_is_Some_2 files (Z.to_nat ptr)) as [f Hfi]; [unfold zlen in Hlt; lia|]. pose proof (vec_at_lookup _ _ _ Hfi) as Hv. rewrite Z2Nat.id in Hv by lia. rewrite Hv. cbn [obind].
    pose proof (Forall_lookup_1 _ _ _ _ Hw Hfi) as (Hsw & Hlw & _). rewrite (user_key_wf _ Hlw). cbn [obind].
    destruct (Z.leb_spec (Compare key (ukey (f_largest f))) 0) as [Hle|Hgt].
    + rewrite (user_key_wf _ Hsw). cbn [obind]. exists ptr. split; [|done]. do 2 f_equal. rewrite (in_some_file_at key files ptr Hw Hd Hp), Hfi; [done|]. intros g Hg. by assert (g = f) as -> by congruence.
    + apply IH; [|lia]. split; [lia|]. intros j g Hj Hg. destruct (decide (Z.of_nat j = ptr)) as [He|]; [|apply (Hb j); [lia|done]].
      replace j with (Z.to_nat ptr) in Hg by lia. assert (g = f) as -> by congruence. by apply compare_antisym.
  - exists ptr. split; [|done]. do 2 f_equal. assert (files !! Z.to_nat ptr = None) as Hn by (apply lookup_ge_None_2; unfold zlen in Hge; lia).
    rewrite (in_some_file_at key files ptr Hw Hd Hp), Hn; [done|congruence].
Qed.

Definition ptrs_ok (v : Version) (key : bytes) (lvl : Z) (ptrs : list Z) : Prop :=
  length ptrs = Z.to_nat config.kNumLevels /\
  forall i files, (Z.to_nat lvl <= i)%nat -> files_ v !! i = Some files -> exists ptr, ptrs !! i = Some ptr /\ ptr_ok key files ptr.

Lemma base_level_loop_spec n v key lvl ptrs :
  version_wf v -> 2 <= lvl -> lvl + Z.of_nat n = config.kNumLevels -> ptrs_ok v key lvl ptrs ->
  exists ptrs', base_level_loop n v key lvl ptrs = Ret (ptrs', no_file_below v lvl key) /\ ptrs_ok v key lvl ptrs' /\
    forall i, (i < Z.to_nat lvl)%nat -> ptrs' !! i = ptrs !! i.
Proof.
  intros Hv. revert lvl ptrs. induction n as [|n IH]; intros lvl ptrs Hl Hn [Hlen Hp]; cbn [base_level_loop].
  { exists ptrs. split; [|done]. unfold no_file_below. rewrite drop_ge; [done|]. rewrite (vw_levels _ Hv). lia. }
  destruct (version_level v lvl Hv ltac:(lia)) as (files & Hf & Hlk & Hw & _ & Hd). rewrite Hf. cbn [obind].
  destruct (Hp (Z.to_nat lvl) files ltac:(lia) Hlk) as (ptr & Hptr & Hok). pose proof (vec_at_lookup _ _ _ Hptr) as Hva. rewrite Z2Nat.id in Hva by lia. rewrite Hva. cbn [obind].
  destruct (advance_ptr_spec (S (length files)) files key ptr Hw (Hd ltac:(lia)) Hok ltac:(lia)) as (ptr' & -> & Hok'). cbn [obind].
  rewrite vec_set_lookup by (unfold zlen, config.kNumLevels in *; lia). cbn [obind].
  assert (ptrs_ok v key lvl (<[Z.to_nat lvl := ptr']> ptrs)) as Hp'.
  { split; [by rewrite length_insert|]. intros i fs Hi Hfs. destruct (decide (i = Z.to_nat lvl)) as [->|Hne].
    - rewrite list_lookup_insert_eq by (unfold config.kNumLevels in *; lia). exists ptr'. split; [done|]. by assert (fs = files) as -> by congruence.
    - rewrite list_lookup_insert_ne by done. by apply Hp. }
  assert (no_file_below v lvl key = negb (in_some_file key files) && no_file_below v (lvl + 1) key) as Hnf.
  { unfold no_file_below. rewrite (drop_S _ files (Z.to_nat lvl) Hlk). cbn [forallb]. by replace (Z.to_nat (lvl + 1)) with (S (Z.to_nat lvl)) by lia. }
  rewrite Hnf. destruct (in_some_file key files).
  - eexists. split; [done|]. split; [done|]. intros i Hi. by rewrite list_lookup_insert_ne by lia.
  - cbn [negb andb]. destruct (IH (lvl + 1) (<[Z.to_nat lvl := ptr']> ptrs)) as (ptrs' & -> & [Hlen' Hp''] & Hrest); [lia|lia|split; [apply Hp'|]; intros i fs Hi; apply Hp'; lia|].
    exists ptrs'. split; [done|]. split; [|intros i Hi; rewrite Hrest by lia; by rewrite list_lookup_insert_ne by lia]. split; [done|]. intros i fs Hi Hfs.
    destruct (decide (i = Z.to_nat lvl)) as [->|Hne]; [|apply Hp''; [lia|done]]. rewrite Hrest by lia. by apply Hp'.
Qed.

Lemma base_level_run_spec {FH : Type} (vs : VersionSet FH) v c keys :
  input_version vs c = Ret v -> version_wf v -> 0 <= level_ c -> level_ c + 1 < config.kNumLevels ->
  StronglySorted (fun a b => Compare a b <= 0) keys ->
  (forall k ks, keys = k :: ks -> ptrs_ok v k (level_ c + 2) (level_ptrs_ c)) ->
  exists c', base_level_run vs c keys = Ret (c', no_file_below v (level_ c + 2) <$> keys).
Proof.
  intros Hi Hv Hl Hl1 Hs. revert c Hi Hl Hl1. induction Hs as [|k keys Hs IH Hk]; intros c Hi Hl Hl1 Hp; [by exists c|].
  cbn [base_level_run]. unfold IsBaseLevelForKey. rewrite Hi. cbn [obind].
  destruct (base_level_loop_spec (Z.to_nat (config.kNumLevels - (level_ c + 2))) v k (level_ c + 2) (level_ptrs_ c) Hv ltac:(lia) ltac:(lia) (Hp k keys eq_refl)) as (ptrs & -> & Hok & _). cbn [obind].
  destruct (IH (set_level_ptrs c ptrs) Hi Hl Hl1) as (c' & ->); [|by exists c'].
  intros k' ks ->. apply Forall_cons in Hk as [Hkk _]. cbn [level_ptrs_ set_level_ptrs level_]. destruct Hok as [Hlen Hok]. split; [done|].
  intros i fs Hi' Hfs. destruct (Hok i fs Hi' Hfs) as (p & Hpp & Hpo). exists p. split; [done|]. by eapply ptr_ok_mono.
Qed.

Lemma fresh_ptrs_ok v k lvl : version_wf v -> ptrs_ok v k lvl (replicate (Z.to_nat config.kNumLevels) 0).
Proof.
  intros Hv. split; [by rewrite length_replicate|]. intros i files _ Hf. exists 0. split.
  - apply lookup_replicate. split; [done|]. apply lookup_lt_Some in Hf. by rewrite (vw_levels _ Hv) in Hf.
  - split; [pose proof (zlen_nonneg files); lia|lia].
Qed.

(** ** The files two levels below *)

Definition bytes_of (files : list FilePtr) : Z := foldr (fun f n => f_file_size f + n) 0 files.

Lemma bytes_of_app l k : bytes_of (l ++ k) = bytes_of l + bytes_of k.
Proof. induction l as [|f l IH]; simpl; lia. Qed.

(** Sizes that add up to less than [2^63]. *)
Definition sizes_ok (files : list FilePtr) : Prop := Forall (fun f => 0 <= f_file_size f) files /\ bytes_of files < 2 ^ 63.

Lemma bytes_of_nonneg files : Forall (fun f => 0 <= f_file_size f) files -> 0 <= bytes_of files.
Proof. induction 1; simpl; lia. Qed.

Lemma bytes_of_take files n m : Forall (fun f => 0 <= f_file_size f) files -> (n <= m)%nat -> bytes_of (take n files) <= bytes_of (take m files).
Proof.
  intros Hs Hle. rewrite <- (take_drop n (take m files)), take_take, Nat.min_l, bytes_of_app by done.
  assert (0 <= bytes_of (drop n (take m files))); [|lia]. by apply bytes_of_nonneg, Forall_drop, Forall_take.
Qed.

Lemma bytes_of_take_S files n f : files !! n = Some f -> bytes_of (take (S n) files) = bytes_of (take n files) + f_file_size f.
Proof. intros Hf. rewrite (take_S_r _ _ _ Hf), bytes_of_app. simpl. lia. Qed.

Lemma bytes_of_take_all files n : Forall (fun f => 0 <= f_file_size f) files -> bytes_of (take n files) <= bytes_of files.
Proof. intros Hs. rewrite <- (take_drop n files) at 2. rewrite bytes_of_app. assert (0 <= bytes_of (drop n files)); [|lia]. by apply bytes_of_nonneg, Forall_drop. Qed.

(** The grandparents that end before a key. *)
Definition passed (gs : list FilePtr) (key : bytes) : nat := length (files_before key gs).

Lemma passed_lookup gs key i f :
  Forall file_wf gs -> disjoint_sorted gs -> gs !! i = Some f -> 0 < internal_compare key (rep_ (f_largest f)) <-> (i < passed gs key)%nat.
Proof.
  intros Hw Hd Hf. pose proof (filter_prefix_lookup _ _ _ _ (disjoint_before key gs Hw Hd) Hf) as Hiff. unfold passed, files_before. rewrite <- Hiff, internal_antisym. done.
Qed.

Lemma files_before_take gs key : Forall file_wf gs -> disjoint_sorted gs -> files_before key gs = take (passed gs key) gs.
Proof.
  intros Hw Hd. unfold passed, files_before. pose proof (disjoint_before key gs Hw Hd) as Hs. clear Hw Hd. induction Hs as [|f gs Hs IH Hf]; [done|].
  rewrite filter_cons. destruct (decide _) as [Hp|Hp]; [simpl; by rewrite <- IH|]. rewrite (filter_none _ gs); [done|].
  eapply Forall_impl; [exact Hf|]. simpl. intros g Hg Hx. by apply Hp, Hg.
Qed.

Lemma passed_mono gs k k' : internal_compare k k' <= 0 -> (passed gs k <= passed gs k')%nat.
Proof.
  intros Hle. unfold passed, files_before. apply sublist_length. induction gs as [|f gs IH]; [constructor|]. rewrite !filter_cons.
  destruct (decide (internal_compare (rep_ (f_largest f)) k < 0)) as [Hx|Hx].
  - rewrite decide_True; [by constructor|]. by eapply internal_lt_le.
  - destruct (decide _); [by constructor|done].
Qed.

Lemma grandparent_loop_spec fuel gs key (seen : bool) (p : nat) o :
  Forall file_wf gs -> disjoint_sorted gs -> sizes_ok gs -> (p <= passed gs key)%nat -> (length gs < fuel + p)%nat -> 0 <= o -> o <= bytes_of (take p gs) ->
  grandparent_loop fuel gs key seen (Z.of_nat p) o =
    Ret (Z.of_nat (passed gs key), if seen then o + (bytes_of (take (passed gs key) gs) - bytes_of (take p gs)) else o).
Proof.
  intros Hw Hd [Hsz Htot]. pose proof (length_filter (fun f => internal_compare (rep_ (f_largest f)) key < 0) gs) as Hlen. fold (files_before key gs) in Hlen. fold (passed gs key) in Hlen.
  revert p o. induction fuel as [|fuel IH]; intros p o Hp Hf Ho Hop; [lia|]. cbn [grandparent_loop].
  destruct (Z.ltb_spec (Z.of_nat p) (zlen gs)) as [Hlt|Hge].
  2:{ assert (passed gs key = p) as -> by (unfold zlen in Hge; lia). destruct seen; do 2 f_equal; lia. }
  destruct (lookup_lt_is_Some_2 gs p) as [f Hfp]; [unfold zlen in Hlt; lia|]. rewrite (vec_at_lookup _ _ _ Hfp). cbn [obind].
  pose proof (Forall_lookup_1 _ _ _ _ Hw Hfp) as (_ & Hlw & _). rewrite (Encode_wf _ Hlw). cbn [obind]. pose proof (passed_lookup gs key p f Hw Hd Hfp) as Hiff.
  pose proof (bytes_of_take_S gs p f Hfp) as HS. pose proof (bytes_of_take_all gs (S p) Hsz) as Hall. pose proof (Forall_lookup_1 _ _ _ _ Hsz Hfp) as Hfs. simpl in Hfs.
  destruct (Z.ltb_spec 0 (internal_compare key (rep_ (f_largest f)))) as [Hc|Hc].
  - replace (Z.of_nat p + 1) with (Z.of_nat (S p)) by lia. rewrite i64_small by lia. rewrite IH; [|lia|lia|destruct seen; lia|destruct seen; lia]. destruct seen; do 2 f_equal. lia.
  - assert (passed gs key = p) as -> by lia. destruct seen; do 2 f_equal; lia.
Qed.

(** The bytes of the grandparents that end between two keys. *)
Definition bytes_between (gs : list FilePtr) (k k' : bytes) : Z := bytes_of (files_before k' gs) - bytes_of (files_before k gs).

(** What a run of answers says: while no stop is asked for, the output overlaps at most
    [limit] bytes. *)
Definition stops_bound (gs : list FilePtr) (limit : Z) (keys : list bytes) (stops : list bool) : Prop :=
  length stops = length keys /\
  forall i j k k', (i <= j)%nat -> keys !! i = Some k -> keys !! j = Some k' -> (forall m, (i < m <= j)%nat -> stops !! m = Some false) -> bytes_between gs k k' <= limit.

(** The state of the compaction after a key: the grandparents before it are passed, and
    [overlapped_bytes_] are bytes of some of them. *)
Definition overlap_state (c : Compaction) (p : nat) : Prop :=
  grandparent_index_ c = Z.of_nat p /\ 0 <= overlapped_bytes_ c <= bytes_of (take p (grandparents_ c)).

Lemma ShouldStopBefore_spec {FH : Type} (vs : VersionSet FH) v c p k :
  input_version vs c = Ret v -> Forall file_wf (grandparents_ c) -> disjoint_sorted (grandparents_ c) -> sizes_ok (grandparents_ c) ->
  overlap_state c p -> (p <= passed (grandparents_ c) k)%nat ->
  let q := passed (grandparents_ c) k in
  let o := if seen_key_ c then overlapped_bytes_ c + (bytes_of (take q (grandparents_ c)) - bytes_of (take p (grandparents_ c))) else overlapped_bytes_ c in
  let stop := MaxGrandParentOverlapBytes (vs_options vs) <? o in
  ShouldStopBefore vs c k = Ret (set_overlap c (Z.of_nat q) true (if stop then 0 else o), stop) /\
  overlap_state (set_overlap c (Z.of_nat q) true (if stop then 0 else o)) q.
Proof.
  intros Hi Hw Hd Hsz [Hidx Ho] Hp q o stop. unfold ShouldStopBefore. rewrite Hi. cbn [obind]. rewrite Hidx, grandparent_loop_spec by (done || lia). cbn [obind]. fold q o.
  fold stop. pose proof (bytes_of_take (grandparents_ c) p q (proj1 Hsz) Hp) as Hmono.
  split; [by destruct stop|]. split; [done|]. cbn [overlapped_bytes_ set_overlap grandparents_]. assert (0 <= o <= bytes_of (take q (grandparents_ c))) as Hob by (subst o; destruct (seen_key_ c); lia).
  pose proof (bytes_of_nonneg (take q (grandparents_ c)) ltac:(by apply Forall_take, Hsz)). destruct stop; lia.
Qed.

Lemma stop_run_seen {FH : Type} (vs : VersionSet FH) v gs keys c p :
  Forall file_wf gs -> disjoint_sorted gs -> sizes_ok gs -> 0 <= MaxGrandParentOverlapBytes (vs_options vs) ->
  StronglySorted (fun a b => internal_compare a b <= 0) keys -> grandparents_ c = gs -> input_version vs c = Ret v -> seen_key_ c = true ->
  overlap_state c p -> (forall k ks, keys = k :: ks -> (p <= passed gs k)%nat) ->
  exists c' stops, stop_run vs c keys = Ret (c', stops) /\ stops_bound gs (MaxGrandParentOverlapBytes (vs_options vs)) keys stops /\
    forall j k', keys !! j = Some k' -> (forall m, (m <= j)%nat -> stops !! m = Some false) ->
      overlapped_bytes_ c + (bytes_of (files_before k' gs) - bytes_of (take p gs)) <= MaxGrandParentOverlapBytes (vs_options vs).
Proof.
  intros Hw Hd Hsz Hlim Hs. revert c p. induction Hs as [|k keys Hs IH Hk]; intros c p Hgs Hi Hseen Hst Hp.
  { exists c, []. split; [done|]. split; [|done]. split; [done|]. intros i j k k' _ Hx. done. }
  cbn [stop_run]. specialize (Hp k keys eq_refl). rewrite <- Hgs in Hp, Hw, Hd, Hsz.
  destruct (ShouldStopBefore_spec vs v c p k Hi Hw Hd Hsz Hst Hp) as [Hstep Hst']. rewrite Hstep. cbn [obind]. rewrite Hseen in Hst'. rewrite Hseen. rewrite Hgs in *.
  set (q := passed gs k) in *. set (o := overlapped_bytes_ c + (bytes_of (take q gs) - bytes_of (take p gs))) in *. set (stop := MaxGrandParentOverlapBytes (vs_options vs) <? o) in *.
  set (c1 := set_overlap c (Z.of_nat q) true (if stop then 0 else o)) in *.
  destruct (IH c1 q Hgs Hi eq_refl Hst') as (c' & stops & -> & [Hlen Hbound] & Hfirst).
  { intros k' ks ->. apply Forall_cons in Hk as [Hk _]. exact (passed_mono gs k k' Hk). }
  cbn [obind]. exists c', (stop :: stops). split; [done|].
  assert (overlapped_bytes_ c1 = if stop then 0 else o) as Ho1 by done. assert (0 <= overlapped_bytes_ c1) as Hpos by (destruct Hst' as [_ Hx]; lia).
  pose proof (files_before_take gs k Hw Hd) as Hfk. fold q in Hfk.
  split; [split; [simpl; lia|]|].
  - intros [|i] j k1 k2 Hij Hi1 Hj2 Hno; cbn in Hi1.
    + injection Hi1 as <-. destruct j as [|j]; [injection Hj2 as <-; unfold bytes_between; lia|]. cbn in Hj2. unfold bytes_between. rewrite Hfk.
      specialize (Hfirst j k2 Hj2). rewrite <- Hgs in Hfirst. rewrite Hgs in Hfirst. specialize (Hfirst ltac:(intros m Hm; apply (Hno (S m)); lia)). lia.
    + destruct j as [|j]; [lia|]. cbn in Hj2. apply (Hbound i j k1 k2); [lia|done|done|]. intros m Hm. apply (Hno (S m)). lia.
  - intros [|j] k2 Hj Hno.
    + injection Hj as <-. specialize (Hno 0%nat ltac:(lia)). injection Hno as Hstop. apply Z.ltb_ge in Hstop. rewrite Hfk. exact Hstop.
    + cbn in Hj. pose proof (Hno 0%nat ltac:(lia)) as Hstop. injection Hstop as Hstop. specialize (Hfirst j k2 Hj ltac:(intros m Hm; apply (Hno (S m)); lia)). rewrite Ho1, Hstop in Hfirst. subst o. lia.
Qed.

Lemma stop_run_spec {FH : Type} (vs : VersionSet FH) v gs keys c :
  Forall file_wf gs -> disjoint_sorted gs -> sizes_ok gs -> 0 <= MaxGrandParentOverlapBytes (vs_options vs) ->
  StronglySorted (fun a b => internal_compare a b <= 0) keys -> grandparents_ c = gs -> input_version vs c = Ret v ->
  grandparent_index_ c = 0 -> seen_key_ c = false -> overlapped_bytes_ c = 0 ->
  exists c' stops, stop_run vs c keys = Ret (c', stops) /\ stops_bound gs (MaxGrandParentOverlapBytes (vs_options vs)) keys stops /\ (forall b, head stops = Some b -> b = false).
Proof.
  intros Hw Hd Hsz Hlim Hs Hgs Hi Hidx Hseen Ho. destruct Hs as [|k keys Hs Hk].
  { exists c, []. split; [done|]. split; [|done]. split; [done|]. intros i j k k' _ Hx. done. }
  cbn [stop_run]. assert (overlap_state c 0) as Hst by (split; [done|]; rewrite Ho; simpl; lia). rewrite <- Hgs in Hw, Hd, Hsz.
  destruct (ShouldStopBefore_spec vs v c 0 k Hi Hw Hd Hsz Hst ltac:(lia)) as [Hstep Hst']. rewrite Hstep. cbn [obind]. rewrite Hseen, Ho, Hgs in *.
  destruct (Z.ltb_spec (MaxGrandParentOverlapBytes (vs_options vs)) 0) as [|_]; [lia|]. set (q := passed gs k) in *. set (c1 := set_overlap c (Z.of_nat q) true 0) in *.
  destruct (stop_run_seen vs v gs keys c1 q Hw Hd Hsz Hlim Hs Hgs Hi eq_refl Hst') as (c' & stops & -> & [Hlen Hbound] & Hfirst).
  { intros k' ks ->. apply Forall_cons in Hk as [Hk _]. exact (passed_mono gs k k' Hk). }
  cbn [obind]. exists c', (false :: stops). split; [done|]. split; [|by intros b [= <-]]. split; [simpl; lia|].
  intros [|i] j k1 k2 Hij Hi1 Hj2 Hno; cbn in Hi1.
  - injection Hi1 as <-. destruct j as [|j]; [injection Hj2 as <-; unfold bytes_between; lia|]. cbn in Hj2. unfold bytes_between. rewrite (files_before_take gs k Hw Hd). fold q.
    specialize (Hfirst j k2 Hj2 ltac:(intros m Hm; apply (Hno (S m)); lia)). change (overlapped_bytes_ c1) with 0 in Hfirst. lia.
  - destruct j as [|j]; [lia|]. cbn in Hj2. apply (Hbound i j k1 k2); [lia|done|done|]. intros m Hm. apply (Hno (S m)). lia.
Qed.
End Loop.
