(* ===== verification/CompactionApply.v ===== *)
(** * Compactions in the version set

    A compaction holds a reference to its version while it runs; its outputs are installed with
    an edit of the version set ([DBImpl::InstallCompactionResults], and the move of a single file
    in [DBImpl::BackgroundCompaction]). The edit of a compaction fits: what [LogAndApply] asks of
    an edit follows from the choice of the inputs. *)

From stdpp Require Import gmap sorting.
From Stdlib Require Import SpecFloat.
From S2P Require Import Prelude Coding Env Crc32c LogWriter LogReader LogCorrect Comparator DbFormat VersionEdit SkipList MemTable Iterator Version VersionBuilder Filename FileSystem MemEnv LogSim DList VersionSet Manifest Recovery Compaction CompactionCorrect CompactionLoop.

Open Scope outcome_scope.

(** ** Installing *)

(** [CompactionState::Output] *)
Record Output := mkOutput { out_number : Z; out_file_size : Z; out_smallest : InternalKey; out_largest : InternalKey }.

Definition add_outputs (level : Z) (outputs : list Output) (edit : VersionEdit) : VersionEdit :=
  fold_left (fun edit out => AddFile level (out_number out) (out_file_size out) (out_smallest out) (out_largest out) edit) outputs edit.

(** The edit of a compaction with its outputs. *)
Definition results_edit (c : Compaction) (outputs : list Output) : VersionEdit :=
  add_outputs (level_ c + 1) outputs (AddInputDeletions c (edit_ c)).

Section Install.
Context {E FH : Type} `{Env E FH} `{Crc32c} `{user_comparator : Comparator}.

Definition InstallCompactionResults (env : E) (vs : VersionSet FH) (c : Compaction) (outputs : list Output)
    : outcome (E * VersionSet FH * Compaction * Status) :=
  let! (env, vs, edit, s) := LogAndApply env vs (results_edit c outputs) in
  Ret (env, vs, set_edit c edit, s).

Definition move_edit (c : Compaction) (f : FilePtr) : VersionEdit :=
  AddFile (level_ c + 1) (f_number f) (f_file_size f) (f_smallest f) (f_largest f) (DeleteFile (level_ c) (f_number f) (edit_ c)).

(** The branch of [BackgroundCompaction] for a trivial move. *)
Definition move_trivially (env : E) (vs : VersionSet FH) (c : Compaction) : outcome (E * VersionSet FH * Compaction * Status) :=
  assert! num_input_files c 0 =? 1;
  let! f := vec_at (inputs_0 c) 0 in
  let! (env, vs, edit, s) := LogAndApply env vs (move_edit c f) in
  Ret (env, vs, set_edit c edit, s).
End Install.

(** ** The edit fits *)

Section Fits.
Context `{laws : ComparatorLaws}.

(** The files a merge of the inputs writes: their keys are keys of the inputs, in order. *)
Record outputs_ok (c : Compaction) (outputs : list Output) : Prop := mkOutputsOk {
  oo_wf : Forall (fun o => ikey_wf (out_smallest o) /\ ikey_wf (out_largest o) /\ ic (out_smallest o) (out_largest o) <= 0) outputs;
  oo_ranges : Forall (fun o => num_ok (out_number o) /\ num_ok (out_file_size o) /\ zlen (rep_ (out_smallest o)) < 2 ^ 32 /\ zlen (rep_ (out_largest o)) < 2 ^ 32) outputs;
  oo_sorted : StronglySorted (fun o o' => ic (out_largest o) (out_smallest o') < 0) outputs;
  oo_lower o : o ∈ outputs -> exists f, f ∈ inputs_0 c ++ inputs_1 c /\ ic (f_smallest f) (out_smallest o) <= 0;
  oo_upper o : o ∈ outputs -> exists f, f ∈ inputs_0 c ++ inputs_1 c /\ ic (out_largest o) (f_largest f) <= 0;
}.

(** A file of the next level that is not an input lies before or after all inputs. *)
Lemma next_separated v c large g :
  version_wf v -> compaction_of v c large -> (exists files, v_files v (level_ c + 1) = Ret files /\ g ∈ files) -> g ∉ inputs_1 c ->
  (forall f, f ∈ inputs_0 c ++ inputs_1 c -> ic (f_largest g) (f_smallest f) < 0) \/
  (forall f, f ∈ inputs_0 c ++ inputs_1 c -> ic (f_largest f) (f_smallest g) < 0).
Proof.
  intros Hv [Hl Hl1 (small & a & b & [_ Hr (next & Hn & Hi1) _] & _) _ _ _ _ _] (files & Hf & Hg) Hnot. assert (files = next) as -> by congruence.
  destruct (version_level v (level_ c + 1) Hv ltac:(lia)) as (next' & Hn' & _ & Hw & _ & Hd). assert (next' = next) as -> by congruence. specialize (Hd ltac:(lia)).
  pose proof Hw as Hw'. rewrite Forall_forall in Hw'. pose proof (Hw' g Hg) as (_ & _ & Hgle).
  assert (forall f, f ∈ inputs_1 c -> f ∈ next /\ overlaps (Some (ukey small)) (Some (ukey large)) f) as Hin1 by (intros f Hfi; rewrite Hi1 in Hfi; by apply list_elem_of_filter in Hfi as [? ?]).
  assert (forall f, f ∈ inputs_1 c -> ic (f_largest f) (f_smallest g) < 0 \/ ic (f_largest g) (f_smallest f) < 0) as Hside.
  { intros f Hfi. destruct (Hin1 f Hfi) as [Hfn _]. assert (f ≠ g) as Hne by (intros ->; done). apply list_elem_of_lookup in Hfn as [i Hi], Hg as [j Hj].
    assert (i ≠ j) as Hij by (intros ->; congruence). clear -Hd Hi Hj Hij. revert i j Hi Hj Hij. induction Hd as [|h next Hd IH Hh]; intros i j Hi Hj Hij; [done|].
    rewrite Forall_forall in Hh. destruct i as [|i], j as [|j]; simpl in *; [lia| | |by apply (IH i j); [..|lia]].
    - injection Hi as ->. left. apply Hh. by eapply list_elem_of_lookup_2.
    - injection Hj as ->. right. apply Hh. by eapply list_elem_of_lookup_2. }
  assert (~ overlapsb (Some (ukey small)) (Some (ukey large)) g = true) as Ho by (rewrite overlapsb_spec; intros Ho; apply Hnot; rewrite Hi1; by apply list_elem_of_filter).
  unfold overlapsb, below, above in Ho. rewrite andb_true_iff, !negb_true_iff in Ho. pose proof (ro_bounds _ _ _ Hr) as Hb.
  destruct (Z.ltb_spec (Compare (ukey (f_largest g)) (ukey small)) 0) as [Hlo|Hlo].
  - left. intros f [Hfi|Hfi]%elem_of_app.
    + apply ukey_ic. eapply compare_lt_le; [exact Hlo|]. apply ic_ukey. by apply Hb.
    + destruct (Hside f Hfi) as [Hx|]; [exfalso|done]. destruct (Hin1 f Hfi) as [_ [Ho1 _]]. specialize (Ho1 _ eq_refl).
      pose proof (ic_ukey _ _ (Z.lt_le_incl _ _ (ic_lt_le _ _ _ Hx Hgle))) as Hy. pose proof (compare_lt_le _ _ _ Hlo (compare_trans _ _ _ Ho1 Hy)) as Hz. rewrite compare_refl in Hz. lia.
  - destruct (Z.ltb_spec 0 (Compare (ukey (f_smallest g)) (ukey large))) as [Hhi|]; [|by destruct Ho]. right. apply compare_antisym in Hhi. intros f [Hfi|Hfi]%elem_of_app.
    + apply ukey_ic. eapply compare_le_lt; [|exact Hhi]. apply ic_ukey. by apply Hb.
    + destruct (Hside f Hfi) as [|Hx]; [done|exfalso]. destruct (Hin1 f Hfi) as [_ [_ Ho2]]. specialize (Ho2 _ eq_refl).
      pose proof (ic_ukey _ _ (Z.lt_le_incl _ _ (ic_le_lt _ _ _ Hgle Hx))) as Hy. pose proof (compare_le_lt _ _ _ (compare_trans _ _ _ Hy Ho2) Hhi) as Hz. rewrite compare_refl in Hz. lia.
Qed.

(** *** The containers of the edit *)

Lemma delete_inputs_spec level files edit :
  compact_pointers_ (delete_inputs level files edit) = compact_pointers_ edit /\ new_files_ (delete_inputs level files edit) = new_files_ edit /\
  (forall p, p ∈ deleted_files_ (delete_inputs level files edit) <-> p ∈ deleted_files_ edit \/ exists f, f ∈ files /\ p = (level, f_number f)).
Proof.
  revert edit. induction files as [|f files IH]; intros edit; cbn [delete_inputs fold_left].
  { split; [done|]. split; [done|]. intros p. split; [by left|]. intros [?|(f & Hf & _)]; [done|]. by apply not_elem_of_nil in Hf. }
  destruct (IH (DeleteFile level (f_number f) edit)) as (H1' & H2' & H3'). split; [done|]. split; [done|]. intros p. fold (delete_inputs level files). rewrite H3'. cbn [DeleteFile deleted_files_ set_containers]. rewrite set_insert_elem.
  split; [intros [[->|?]|(g & Hg & ->)]; [right; exists f; split; [by left|done]|by left|right; exists g; split; [by right|done]]|].
  intros [?|(g & [->|Hg]%elem_of_cons & ->)]; [left; by right|left; by left|right; by exists g].
Qed.

Lemma add_outputs_spec level outputs edit :
  compact_pointers_ (add_outputs level outputs edit) = compact_pointers_ edit /\ deleted_files_ (add_outputs level outputs edit) = deleted_files_ edit /\
  new_files_ (add_outputs level outputs edit) = new_files_ edit ++ ((fun o => (level, new_FileMetaData (out_number o) (out_file_size o) (out_smallest o) (out_largest o))) <$> outputs).
Proof.
  revert edit. induction outputs as [|o outputs IH]; intros edit; [cbn; by rewrite app_nil_r|].
  change (add_outputs level (o :: outputs) edit) with (add_outputs level outputs (AddFile level (out_number o) (out_file_size o) (out_smallest o) (out_largest o) edit)).
  destruct (IH (AddFile level (out_number o) (out_file_size o) (out_smallest o) (out_largest o) edit)) as (H1' & H2' & H3'). rewrite H1', H2', H3'.
  split; [done|]. split; [done|]. cbn [AddFile push_file set_containers new_files_ fmap list_fmap]. by rewrite <- app_assoc.
Qed.

Lemma delete_inputs_ok level files edit : edit_ok edit -> level_ok level -> Forall (fun f => num_ok (f_number f)) files -> edit_ok (delete_inputs level files edit).
Proof.
  intros He Hl Hf. revert edit He. induction Hf as [|f files Hn Hf IH]; intros edit He; [done|]. cbn [delete_inputs fold_left]. by apply IH, DeleteFile_ok.
Qed.

Lemma add_outputs_edit_ok level outputs edit :
  edit_ok edit -> level_ok level ->
  Forall (fun o => num_ok (out_number o) /\ num_ok (out_file_size o) /\ key_ok (out_smallest o) /\ key_ok (out_largest o)) outputs -> edit_ok (add_outputs level outputs edit).
Proof.
  intros He Hl Hf. revert edit He. induction Hf as [|o outputs (? & ? & ? & ?) Hf IH]; intros edit He; [done|]. cbn [add_outputs fold_left]. by apply IH, AddFile_ok.
Qed.

Lemma results_edit_new c outputs : edit_ c = SetCompactPointer (level_ c) (snd (hd (0, mkInternalKey []) (compact_pointers_ (edit_ c)))) new_VersionEdit ->
  new_files_ (results_edit c outputs) = (fun o => (level_ c + 1, new_FileMetaData (out_number o) (out_file_size o) (out_smallest o) (out_largest o))) <$> outputs.
Proof.
  intros He. unfold results_edit. destruct (add_outputs_spec (level_ c + 1) outputs (AddInputDeletions c (edit_ c))) as (_ & _ & ->). unfold AddInputDeletions.
  destruct (delete_inputs_spec (level_ c + 1) (inputs_1 c) (delete_inputs (level_ c) (inputs_0 c) (edit_ c))) as (_ & -> & _).
  destruct (delete_inputs_spec (level_ c) (inputs_0 c) (edit_ c)) as (_ & -> & _). by rewrite He.
Qed.

(** The other fields of the edit are not set. *)
Definition files_only (e : VersionEdit) : Prop := has_comparator_ e = false /\ has_log_number_ e = false /\ has_prev_log_number_ e = false.

Lemma results_edit_flags c outputs : files_only (edit_ c) -> files_only (results_edit c outputs).
Proof.
  intros He. unfold results_edit, AddInputDeletions.
  assert (forall level files e, files_only e -> files_only (delete_inputs level files e)) as Hdel.
  { intros level files. induction files as [|f files IH]; intros e Hx; [done|]. by apply (IH (DeleteFile level (f_number f) e)). }
  assert (forall level outs e, files_only e -> files_only (add_outputs level outs e)) as Hadd.
  { intros level outs. induction outs as [|o outs IH]; intros e Hx; [done|]. by apply (IH (AddFile level (out_number o) (out_file_size o) (out_smallest o) (out_largest o) e)). }
  auto.
Qed.

(** What is left of a version after deletions. *)
Lemma abs_at_deletes a ds i n x :
  Forall (fun d => 0 <= d.1) ds -> abs_at (foldl abs_delete a ds) i n = Some x -> abs_at a i n = Some x /\ (Z.of_nat i, n) ∉ ds.
Proof.
  intros Hd. revert a. induction Hd as [|d ds Hd0 Hd IH]; intros a Hx; [split; [done|apply not_elem_of_nil]|]. cbn [foldl] in Hx. apply IH in Hx as [Hx Hn].
  unfold abs_delete in Hx. rewrite abs_at_alter in Hx. rewrite not_elem_of_cons. destruct (decide (i = Z.to_nat d.1)) as [->|Hne].
  - unfold abs_at. destruct (a !! Z.to_nat d.1) as [m|]; [|done]. simpl in *. apply lookup_delete_Some in Hx as [Hdn Hx]. split; [done|]. split; [|done].
    intros Heq. apply Hdn. by rewrite <- Heq.
  - split; [done|]. split; [|done]. intros Heq. apply Hne. rewrite <- Heq. simpl. lia.
Qed.

Lemma abs_at_denotes levels a i n x : denotes_levels levels a -> abs_at a i n = Some x -> exists files f, levels !! i = Some files /\ f ∈ files /\ f_number f = n /\ info f = x.
Proof.
  intros Hd Hx. unfold abs_at in Hx. destruct (a !! i) as [m|] eqn:Em; [|done]. destruct (Forall2_lookup_r _ _ _ _ _ Hd Em) as (files & Hf & Hden).
  simpl in Hx. destruct (proj1 (Hden n x) Hx) as (f & Hin & Hn & Hi). by exists files, f.
Qed.

Lemma denotes_abs_at levels a i files f : denotes_levels levels a -> levels !! i = Some files -> f ∈ files -> abs_at a i (f_number f) = Some (info f).
Proof.
  intros Hd Hf Hin. destruct (Forall2_lookup_l _ _ _ _ _ Hd Hf) as (m & Hm & Hden). unfold abs_at. rewrite Hm. simpl. apply Hden. by exists f.
Qed.

(** After a compaction the levels other than 0 are without overlaps. *)
Lemma results_disjoint v c large a outputs :
  version_wf v -> compaction_of v c large -> denotes_levels (files_ v) a -> levels_disjoint a -> outputs_ok c outputs ->
  levels_disjoint (abs_apply a (results_edit c outputs)).
Proof.
  intros Hv Hco Hden Hdis [Hwf _ Hsort Hlower Hupper] i m Hm n1 n2 x y Hne Hx Hy.
  pose proof Hco as [Hl Hl1 _ Hedit _ _ _ _].
  assert (new_files_ (results_edit c outputs) = (fun o => (level_ c + 1, new_FileMetaData (out_number o) (out_file_size o) (out_smallest o) (out_largest o))) <$> outputs) as Hnew by (apply results_edit_new; by rewrite Hedit).
  assert (forall p, p ∈ deleted_files_ (results_edit c outputs) <-> (exists f, f ∈ inputs_0 c /\ p = (level_ c, f_number f)) \/ exists f, f ∈ inputs_1 c /\ p = (level_ c + 1, f_number f)) as Hdel.
  { intros p. unfold results_edit. destruct (add_outputs_spec (level_ c + 1) outputs (AddInputDeletions c (edit_ c))) as (_ & -> & _). unfold AddInputDeletions.
    destruct (delete_inputs_spec (level_ c + 1) (inputs_1 c) (delete_inputs (level_ c) (inputs_0 c) (edit_ c))) as (_ & _ & ->).
    destruct (delete_inputs_spec (level_ c) (inputs_0 c) (edit_ c)) as (_ & _ & ->). rewrite Hedit. cbn [SetCompactPointer set_containers deleted_files_ new_VersionEdit Clear]. rewrite elem_of_nil. tauto. }
  assert (forall n z, abs_at (abs_apply a (results_edit c outputs)) (S i) n = Some z ->
     (abs_at a (S i) n = Some z /\ (S i = Z.to_nat (level_ c + 1) -> forall f, f ∈ inputs_1 c -> f_number f ≠ n)) \/
     (S i = Z.to_nat (level_ c + 1) /\ exists o, o ∈ outputs /\ out_number o = n /\ z = (out_file_size o, out_smallest o, out_largest o))) as Hcase.
  { intros n z Hz. unfold abs_apply in Hz. apply abs_at_adds in Hz as [Hz|(p & Hp & Hi & Hn & ->)].
    - left. apply abs_at_deletes in Hz as [Hz Hnd].
      + split; [done|]. intros Hi f Hf Hfn. apply Hnd, Hdel. right. exists f. split; [done|]. f_equal; [lia|done].
      + apply Forall_forall. intros d [(f & _ & ->)|(f & _ & ->)]%Hdel; simpl; lia.
    - right. rewrite Hnew in Hp. apply list_elem_of_fmap in Hp as (o & -> & Ho). cbn in Hi, Hn. split; [done|]. exists o. by rewrite Hn. }
  assert (abs_at (abs_apply a (results_edit c outputs)) (S i) n1 = Some x) as Hx' by (unfold abs_at; by rewrite Hm).
  assert (abs_at (abs_apply a (results_edit c outputs)) (S i) n2 = Some y) as Hy' by (unfold abs_at; by rewrite Hm).
  assert (forall n o z, S i = Z.to_nat (level_ c + 1) -> o ∈ outputs -> abs_at a (S i) n = Some z -> (forall f, f ∈ inputs_1 c -> f_number f ≠ n) ->
    ic (out_largest o) z.1.2 < 0 \/ ic z.2 (out_smallest o) < 0) as Hmixed.
  { intros n o z Hi Ho Hz Hnot. destruct (abs_at_denotes _ _ _ _ _ Hden Hz) as (files & g & Hf & Hg & Hgn & <-). cbn [info fst snd].
    destruct (next_separated v c large g Hv Hco) as [Hb|Ha].
    - destruct (version_level v (level_ c + 1) Hv ltac:(lia)) as (files' & Hf' & Hlk & _). rewrite <- Hi in Hlk. assert (files' = files) as -> by congruence. by exists files.
    - intros Hgi. by apply (Hnot g).
    - right. destruct (Hlower o Ho) as (f & Hfi & Hle). eapply ic_lt_le; [by apply Hb|done].
    - left. destruct (Hupper o Ho) as (f & Hfi & Hle). eapply ic_le_lt; [done|by apply Ha]. }
  apply Hcase in Hx' as [[Hx' Hxn]|(Hi & o & Ho & Hon & ->)], Hy' as [[Hy' Hyn]|(Hi' & o' & Ho' & Hon' & ->)].
  - unfold abs_at in Hx', Hy'. destruct (a !! S i) as [m'|] eqn:Em; [|done]. by apply (Hdis i m' Em n1 n2).
  - destruct (Hmixed n1 o' x Hi' Ho' Hx' (Hxn Hi')) as [?|?]; [by right|by left].
  - destruct (Hmixed n2 o y Hi Ho Hy' (Hyn Hi)) as [?|?]; [by left|by right].
  - apply list_elem_of_lookup in Ho as [j Hj], Ho' as [k Hk]. assert (j ≠ k) as Hjk by congruence. cbn [fst snd]. clear -Hsort Hj Hk Hjk. revert j k Hj Hk Hjk.
    induction Hsort as [|h os Hs IH Hh]; intros j k Hj Hk Hjk; [done|]. rewrite Forall_forall in Hh. destruct j as [|j], k as [|k]; simpl in *; [lia| | |by apply (IH j k); [..|lia]].
    + injection Hj as ->. left. apply Hh. by eapply list_elem_of_lookup_2.
    + injection Hk as ->. right. apply Hh. by eapply list_elem_of_lookup_2.
Qed.
End Fits.

(** ** References *)

Section Held.
Context {E FH : Type} `{env_laws : EnvLaws E FH} `{Crc32c} `{laws : ComparatorLaws}.
Implicit Types (e : E) (vs : VersionSet FH).

(** One more reference of somebody to version [n], or one less. *)
Definition hold (held : nat -> Z) (n : nat) : nat -> Z := fun m => held m + if decide (m = n) then 1 else 0.
Definition unhold (held : nat -> Z) (n : nat) : nat -> Z := fun m => held m - if decide (m = n) then 1 else 0.

(** The disk does not depend on the versions and the compaction pointers. *)
Lemma vset_disk_mem e vs used a vl pointers : vset_disk e vs used a -> vset_disk e (set_pointer_array (set_versions vs vl) pointers) used a.
Proof.
  intros (num & edits & next & la & D1 & D2 & D3 & D4 & D5). exists num, edits, next, la. do 4 (split; [done|]).
  destruct D5 as [D5|(D5 & w & [])]; [by left|]. right. split; [done|]. exists w. by split.
Qed.

Lemma compaction_made_inv e vs vs' a used held n v c :
  vset_inv e vs a used held -> vl_current (vs_versions vs) = Some n -> version_at (vs_versions vs) n = Ret v -> compaction_made vs vs' n v c ->
  vset_inv e vs' a used (hold held n).
Proof.
  intros [He (l & c0 & [Hvi Hcur Hcl Hh Hhl Hfl Hpl Hps Hcs Habs Hdis]) Hnum Hdisk] Hn Hat (vl & large & Href & -> & Hlw & Hco & _).
  assert (c0 = n) as -> by congruence.
  destruct (version_Ref_spec _ _ _ _ _ n Hvi Hcl) as (vl' & Href' & Hvi' & Hcur' & _ & Hf' & _). assert (vl' = vl) as -> by congruence.
  split; [done| |done|by apply vset_disk_mem]. exists l, n. split; try done.
  - cbn. congruence.
  - intros m. unfold hold. destruct (decide _); specialize (Hh m); lia.
  - intros m. unfold hold. destruct (decide (m = n)) as [->|]; [done|]. rewrite Z.add_0_r. apply Hhl.
  - cbn. rewrite Hf'. done.
  - cbn. by rewrite length_insert.
  - cbn. apply Forall_insert; [done|].
    destruct Hfl as (files & Hvf & Hden). destruct (vfiles_at _ _ _ Hvf) as (v' & Hv' & <-). unfold version_at in Hat. rewrite Hv' in Hat. injection Hat as ->.
    destruct (ca_inputs _ _ _ Hco) as (small & x & y & [(fs & Hfs & Hset) Hr _ _] & _). destruct (ro_large _ _ _ Hr) as (f & Hf & <-).
    pose proof (selection_sub _ _ _ (settled_selection _ _ _ Hset) f Hf) as Hin. unfold v_files, vec_at in Hfs. destruct (_ <? 0); [done|].
    destruct (files_ v !! _) as [fs'|] eqn:El; [|done]. injection Hfs as ->. pose proof (denotes_abs_at _ _ _ _ _ Hden El Hin) as Hx. destruct (Habs _ _ _ Hx) as (_ & _ & _ & _ & Hk). unfold info, key_ok in Hk. cbn in Hk. lia.
Qed.

(** Giving back the reference of a compaction. *)
Lemma ReleaseInputs_spec e vs a used held c n :
  vset_inv e vs a used held -> input_version_ c = Some n -> 1 <= held n ->
  exists vs', ReleaseInputs vs c = Ret (vs', set_input_version c None) /\ delete_Compaction vs c = Ret vs' /\ vset_inv e vs' a used (unhold held n) /\ same_current vs vs'.
Proof.
  intros [He (l & c0 & [Hvi Hcur Hcl Hh Hhl Hfl Hpl Hps Hcs Habs Hdis]) Hnum Hdisk] Hin Hn. unfold ReleaseInputs, delete_Compaction. rewrite Hin.
  assert (n ∈ l) as Hnl by (apply Hhl; lia).
  destruct (decide (1 < rc_of held c0 n)) as [Hkeep|Hlast].
  - destruct (version_Unref_keep _ _ _ _ _ n Hvi Hnl Hkeep) as (vl' & -> & Hvi' & Hcur' & _ & Hf' & _). cbn [obind]. eexists. split; [done|]. split; [done|].
    split; [|split; [done|]; split; [intros m _; apply Hf'|done]]. split; [done| |done|exact (vset_disk_mem e vs used a vl' (compact_pointer_ vs) Hdisk)]. exists l, c0. split; try done.
    + eapply versions_rc; [|exact Hvi']. intros m _. unfold rc_of, unhold. lia.
    + cbn. congruence.
    + intros m. unfold unhold. pose proof (Hh m). destruct (decide (m = n)) as [->|]; lia.
    + intros m. unfold unhold. destruct (decide (m = n)) as [->|]; [done|]. rewrite Z.sub_0_r. apply Hhl.
    + cbn. rewrite Hf'. done.
  - assert (rc_of held c0 n = 1 /\ n ≠ c0) as [H1' Hne] by (unfold rc_of in *; destruct (decide (n = c0)); lia).
    apply list_elem_of_split in Hnl as (l1 & l2 & ->). destruct (version_Unref_last _ l1 n l2 _ _ _ Hvi H1') as (vl' & -> & Hvi' & Hcur' & Hf'). cbn [obind]. eexists. split; [done|]. split; [done|].
    assert (forall m, m ≠ n -> vfiles vl' m = vfiles (vs_versions vs) m) as Hvf by (intros m Hm; unfold vfiles; by rewrite Hf').
    assert (c0 ∈ l1 ++ l2) as Hcl' by (rewrite elem_of_app, elem_of_cons in Hcl; rewrite elem_of_app; intuition congruence).
    split; [|split; [done|]; split; [intros m Hm; apply Hvf; congruence|done]].
    split; [done| |done|exact (vset_disk_mem e vs used a vl' (compact_pointer_ vs) Hdisk)]. exists (l1 ++ l2), c0.
    assert (n ∉ l1 ++ l2) as Hnn.
    { pose proof (vi_linked _ _ _ _ _ Hvi) as [_ Hnd]. apply NoDup_cons in Hnd as [_ Hnd]. apply NoDup_app in Hnd as (_ & Hd & Hnd2). apply NoDup_cons in Hnd2 as [Hn2 _].
      rewrite elem_of_app. intros [Hx|Hx]; [apply (Hd n Hx); by left|done]. }
    split; try done.
    + eapply versions_rc; [|exact Hvi']. intros m Hm. unfold rc_of, unhold. rewrite (decide_False (P := m = n)) by (intros ->; done). lia.
    + cbn. congruence.
    + intros m. unfold unhold. pose proof (Hh m). destruct (decide (m = n)) as [->|]; lia.
    + intros m. unfold unhold. destruct (decide (m = n)) as [->|Hmn]; [unfold rc_of in H1'; rewrite decide_False in H1' by done; lia|]. rewrite Z.sub_0_r. intros Hm%Hhl. rewrite elem_of_app, elem_of_cons in Hm. rewrite elem_of_app. intuition congruence.
    + cbn. rewrite Hvf by done. done.
Qed.

Lemma vset_inv_held e vs a used held held' : (forall m, held m = held' m) -> vset_inv e vs a used held -> vset_inv e vs a used held'.
Proof.
  intros Heq [He (l & c & [Hvi Hcur Hcl Hh Hhl Hfl Hpl Hps Hcs Habs Hdis]) Hnum Hdisk]. split; try done. exists l, c. split; try done.
  - eapply versions_rc; [|exact Hvi]. intros m _. unfold rc_of. by rewrite Heq.
  - intros m. by rewrite <- Heq.
  - intros m. rewrite <- Heq. apply Hhl.
Qed.

(** ** What a choice of inputs guarantees *)

(** The inputs are files of their levels. A file left in the upper level is after the inputs
    with other user keys, or it is before them and so has newer entries for a user key they
    share; in level 0 it shares no user key with them. A file left in the lower level is before
    all inputs or after all of them. *)
Record sound_choice (v : Version) (c : Compaction) : Prop := mkSound {
  sc_upper : exists files, v_files v (level_ c) = Ret files /\ inputs_0 c ⊆ files /\ inputs_0 c ≠ [] /\
    forall f g, f ∈ inputs_0 c -> g ∈ files -> g ∉ inputs_0 c ->
      Compare (ukey (f_largest f)) (ukey (f_smallest g)) < 0 \/
      ic (f_largest g) (f_smallest f) < 0 /\ (level_ c = 0 -> Compare (ukey (f_largest g)) (ukey (f_smallest f)) < 0);
  sc_lower : exists files, v_files v (level_ c + 1) = Ret files /\ inputs_1 c ⊆ files /\
    forall g, g ∈ files -> g ∉ inputs_1 c ->
      (forall f, f ∈ inputs_0 c ++ inputs_1 c -> ic (f_largest g) (f_smallest f) < 0) \/
      (forall f, f ∈ inputs_0 c ++ inputs_1 c -> ic (f_largest f) (f_smallest g) < 0);
}.

Lemma compaction_sound v c large : version_wf v -> compaction_of v c large -> sound_choice v c.
Proof.
  intros Hv Hco. pose proof Hco as [Hl Hl1 (small & x & y & [(files & Hf & Hset) _ (next & Hn & Hi1) _] & _) _ _ _ _ _].
  destruct (version_level v (level_ c) Hv ltac:(lia)) as (files' & Hf' & _ & _ & _ & Hd). assert (files' = files) as -> by congruence. split.
  - exists files. split; [done|]. split; [exact (selection_sub _ _ _ (settled_selection _ _ _ Hset))|]. split; [by destruct Hset|].
    intros f g Hfi Hg Hn'. eapply settled_left; [|done..]. intros Hne. apply Hd. lia.
  - exists next. split; [done|]. split; [rewrite Hi1; intros f Hx; by apply list_elem_of_filter in Hx as [_ ?]|]. intros g Hg Hn'. eapply next_separated; [done|done|by exists next|done].
Qed.

Lemma current_version_wf e vs a used held n v :
  vset_inv e vs a used held -> vl_current (vs_versions vs) = Some n -> version_at (vs_versions vs) n = Ret v -> Forall (fun files => zlen files < 2 ^ 31) (files_ v) ->
  version_wf v /\ denotes_levels (files_ v) a /\ length (compact_pointer_ vs) = Z.to_nat config.kNumLevels /\ abs_ok used a /\ levels_disjoint a.
Proof.
  intros [_ (l & c & [Hvi Hcur Hcl _ _ Hfl Hpl _ _ Habs Hdis]) _ _] Hn Hat Hsz. assert (c = n) as -> by congruence.
  destruct Hfl as (files & Hvf & Hden). destruct (vfiles_at _ _ _ Hvf) as (v' & Hv' & <-). unfold version_at in Hat. rewrite Hv' in Hat. injection Hat as ->.
  destruct (vi_levels _ _ _ _ _ Hvi n v Hv') as [H1' H2' _ _ H5']. split; [by split|]. done.
Qed.

(** A compaction that was made: one more reference to the version of its inputs, which
    [ReleaseInputs] gives back. *)
Definition compaction_started e vs' a used held (n : nat) (v : Version) (c : Compaction) : Prop :=
  vset_inv e vs' a used (hold held n) /\ input_version_ c = Some n /\ sound_choice v c /\
  exists vs'', ReleaseInputs vs' c = Ret (vs'', set_input_version c None) /\ vset_inv e vs'' a used held /\ same_current vs' vs''.

Lemma compaction_made_started e vs vs' a used held n v c :
  vset_inv e vs a used held -> vl_current (vs_versions vs) = Some n -> version_at (vs_versions vs) n = Ret v -> version_wf v -> compaction_made vs vs' n v c ->
  compaction_started e vs' a used held n v c.
Proof.
  intros Hinv Hn Hat Hv Hmade. pose proof (compaction_made_inv _ _ _ _ _ _ _ _ _ Hinv Hn Hat Hmade) as Hinv'. pose proof Hmade as (vl & large & _ & _ & _ & Hco & Hci).
  split; [done|]. split; [done|]. split; [by eapply compaction_sound|].
  assert (0 <= held n) as Hh. { destruct Hinv as [_ (l & c0 & Hm) _ _]. apply (vm_held _ _ _ _ _ _ Hm). }
  destruct (ReleaseInputs_spec e vs' a used (hold held n) c n Hinv' Hci) as (vs'' & Hr & _ & Hinv'' & Hsame).
  { unfold hold. rewrite decide_True by done. lia. }
  exists vs''. split; [done|]. split; [|done]. eapply vset_inv_held; [|exact Hinv'']. intros m. unfold hold, unhold. lia.
Qed.

(** ** The edit of a compaction fits *)

Lemma compaction_made_current vs vs' n v c :
  vl_current (vs_versions vs) = Some n -> version_at (vs_versions vs) n = Ret v -> compaction_made vs vs' n v c ->
  vl_current (vs_versions vs') = Some n /\ version_at (vs_versions vs') n = Ret (set_refs v (v_refs v + 1)) /\ vs_comparator vs' = vs_comparator vs /\
  vs_next_file_number vs' = vs_next_file_number vs.
Proof.
  intros Hn Hat (vl & large & Href & -> & _). destruct (ref_input_version_spec vs v n (new_Compaction (vs_options vs) 0) Hn Hat) as (vl' & Href' & _ & Hcur).
  assert (vl' = vl) as -> by congruence. unfold version_Ref in Href. rewrite Hat in Href. cbn [obind] in Href. injection Href as <-. cbn. split; [done|]. split; [|done].
  unfold version_at. cbn. by rewrite lookup_insert_eq.
Qed.

Lemma results_edit_fits vs v c large a used outputs :
  version_wf v -> compaction_of v c large -> ikey_wf large -> denotes_levels (files_ v) a -> abs_ok used a -> levels_disjoint a -> outputs_ok c outputs ->
  NoDup (out_number <$> outputs) -> (forall o, o ∈ outputs -> (level_ c + 1, out_number o) ∉ used) -> vs_next_file_number vs < 2 ^ 64 - 1 ->
  edit_fits vs a used (results_edit c outputs).
Proof.
  intros Hv Hco Hlw Hden Habs Hdis Hout Hnd Hnew Hroom. pose proof Hco as [Hl Hl1 (small & x & y & [(files & Hf & Hset) Hr (next & Hn & Hi1) _] & _) Hedit _ _ _ _].
  assert (level_ok (level_ c) /\ level_ok (level_ c + 1)) as [Hlo Hlo1] by (unfold level_ok; lia).
  assert (forall lvl fs f, v_files v lvl = Ret fs -> f ∈ fs -> num_ok (f_number f) /\ key_ok (f_largest f)) as Hok.
  { intros lvl fs f Hfs Hin. unfold v_files, vec_at in Hfs. destruct (_ <? 0); [done|]. destruct (files_ v !! _) as [fs'|] eqn:El; [|done]. injection Hfs as ->.
    destruct (Habs _ _ _ (denotes_abs_at _ _ _ _ _ Hden El Hin)) as (_ & ? & _ & _ & ?). done. }
  assert (key_ok large) as Hlk. { destruct (ro_large _ _ _ Hr) as (f & Hfi & <-). apply (Hok _ files f Hf). exact (selection_sub _ _ _ (settled_selection _ _ _ Hset) f Hfi). }
  assert (forall k, ikey_wf k -> zlen (rep_ k) < 2 ^ 32 -> key_ok k) as Hkey by (intros k Hk Hz; pose proof (ikey_wf_len k Hk); unfold key_ok; lia).
  assert (edit_ok (results_edit c outputs)) as Heok.
  { unfold results_edit, AddInputDeletions. apply add_outputs_edit_ok; [apply delete_inputs_ok; [apply delete_inputs_ok|..]|..]; try done.
    - rewrite Hedit. apply SetCompactPointer_ok; [apply new_VersionEdit_ok|done|done].
    - apply Forall_forall. intros f Hfi. apply (Hok _ files f Hf). exact (selection_sub _ _ _ (settled_selection _ _ _ Hset) f Hfi).
    - apply Forall_forall. intros f Hfi. rewrite Hi1 in Hfi. apply list_elem_of_filter in Hfi as [_ Hfi]. exact (proj1 (Hok _ next f Hn Hfi)).
    - destruct Hout as [Hw Hrg _ _ _]. rewrite Forall_forall in *. intros o Ho. destruct (Hw o Ho) as (? & ? & _), (Hrg o Ho) as (? & ? & ? & ?). auto. }
  assert (new_files_ (results_edit c outputs) = (fun o => (level_ c + 1, new_FileMetaData (out_number o) (out_file_size o) (out_smallest o) (out_largest o))) <$> outputs) as Hnf by (apply results_edit_new; by rewrite Hedit).
  assert (edit_pairs (results_edit c outputs) = (fun o => (level_ c + 1, out_number o)) <$> outputs) as Hpairs by (unfold edit_pairs; rewrite Hnf, <- list_fmap_compose; done).
  assert (has_comparator_ (results_edit c outputs) = false /\ has_log_number_ (results_edit c outputs) = false /\ has_prev_log_number_ (results_edit c outputs) = false) as (Hc1 & Hc2 & Hc3).
  { apply results_edit_flags. by rewrite Hedit. }
  split; try done; try (rewrite ?Hc2, ?Hc3; done).
  - split.
    + pose proof (ok_pointers _ Heok) as Hp. eapply Forall_impl; [exact Hp|]. intros p [? Hk]. split; [done|]. unfold key_ok in Hk. lia.
    + pose proof (ok_deleted _ Heok) as Hp. eapply Forall_impl; [exact Hp|]. by intros p [? _].
    + rewrite Hnf. apply Forall_fmap, Forall_forall. intros o Ho. destruct Hout as [Hw _ _ _ _]. rewrite Forall_forall in Hw. split; [done|]. exact (Hw o Ho).
  - unfold comparator_fits. by rewrite Hc1.
  - rewrite Hpairs. apply (NoDup_fmap_1 snd). by rewrite <- list_fmap_compose.
  - intros p Hp. rewrite Hpairs in Hp. apply list_elem_of_fmap in Hp as (o & -> & Ho). by apply Hnew.
  - by eapply results_disjoint.
Qed.

(** The fields that do not change while a compaction runs. *)
Definition same_compaction (c c' : Compaction) : Prop :=
  level_ c' = level_ c /\ max_output_file_size_ c' = max_output_file_size_ c /\ input_version_ c' = input_version_ c /\ edit_ c' = edit_ c /\
  inputs_0 c' = inputs_0 c /\ inputs_1 c' = inputs_1 c /\ grandparents_ c' = grandparents_ c.

(** Installing the outputs of the compaction [c], which has been run to [c']. *)
Lemma InstallCompactionResults_spec e vs a used held n v c c' large outputs :
  vset_inv e vs a used (hold held n) -> 0 <= held n -> version_wf v -> denotes_levels (files_ v) a -> compaction_of v c large -> ikey_wf large -> input_version_ c = Some n -> same_compaction c c' ->
  outputs_ok c outputs -> NoDup (out_number <$> outputs) -> (forall o, o ∈ outputs -> (level_ c + 1, out_number o) ∉ used) -> vs_next_file_number vs < 2 ^ 64 - 1 ->
  let a' := abs_apply a (results_edit c outputs) in
  exists e' vs' c'' s, InstallCompactionResults e vs c' outputs = Ret (e', vs', c'', s) /\
    (s = OK -> current_is vs' a' /\ data_kept (vs_dbname vs) e e' /\
       exists vs3, ReleaseInputs vs' c'' = Ret (vs3, set_input_version c'' None) /\
         vset_inv e' vs3 a' (used ++ edit_pairs (results_edit c outputs)) held) /\
    (s ≠ OK -> same_current vs vs').
Proof.
  intros Hinv Hh Hv Hden Hco Hlw Hci (Hs1 & _ & Hs3 & Hs4 & Hs5 & Hs6 & _) Hout Hnd Hnew Hroom a'.
  assert (abs_ok used a /\ levels_disjoint a) as [Habs Hdis] by (destruct Hinv as [_ (l & c0 & Hm) _ _]; split; [apply (vm_abs _ _ _ _ _ _ Hm)|apply (vm_disjoint _ _ _ _ _ _ Hm)]).
  assert (edit_fits vs a used (results_edit c outputs)) as Hfit by (by eapply results_edit_fits).
  assert (results_edit c' outputs = results_edit c outputs) as Heq by (unfold results_edit, AddInputDeletions; by rewrite Hs1, Hs4, Hs5, Hs6).
  destruct (LogAndApply_spec e vs a used (hold held n) _ Hinv Hfit) as (e' & vs'' & s & Hl & _ & _ & Hgood & Hbad).
  unfold InstallCompactionResults. rewrite Heq, Hl. cbn [obind]. eexists e', vs'', _, s. split; [done|]. split.
  - intros Hs. destruct (Hgood Hs) as (Hinv'' & _ & _ & _ & _ & Hdk & _). split; [by eapply vset_current|]. split; [done|].
    destruct (ReleaseInputs_spec e' vs'' _ _ _ (set_edit c' (completed vs (results_edit c outputs))) n Hinv'' ltac:(cbn; congruence)) as (vs3 & Hrel & _ & Hinv3 & _).
    { unfold hold. rewrite decide_True by done. lia. }
    exists vs3. split; [done|]. eapply vset_inv_held; [|exact Hinv3]. intros m. unfold hold, unhold. lia.
  - intros Hs. by destruct (Hbad Hs) as (_ & Hsame & _).
Qed.

(** The grandparents of a compaction are files of a level. *)
Lemma grandparents_wf v c large : version_wf v -> compaction_of v c large -> Forall file_wf (grandparents_ c) /\ disjoint_sorted (grandparents_ c).
Proof.
  intros Hv Hco. destruct (ca_inputs _ _ _ Hco) as (small & x & y & _ & Hg). destruct (Z.ltb_spec (level_ c + 2) config.kNumLevels) as [Hlt|]; [|rewrite Hg; by split; constructor].
  pose proof (ca_level _ _ _ Hco). destruct Hg as (files & Hf & ->). destruct (version_level v (level_ c + 2) Hv ltac:(lia)) as (files' & Hf' & _ & Hw & _ & Hd). assert (files' = files) as -> by congruence.
  split; [apply Forall_forall; intros f Hin; apply list_elem_of_filter in Hin as [_ Hin]; rewrite Forall_forall in Hw; by apply Hw|].
  specialize (Hd ltac:(lia)). clear -Hd. induction Hd as [|f files Hd IH Hf]; [constructor|]. rewrite filter_cons. destruct (decide _); [|done]. constructor; [done|].
  apply Forall_forall. intros g Hin. apply list_elem_of_filter in Hin as [_ Hin]. rewrite Forall_forall in Hf. by apply Hf.
Qed.

(** The way a compaction comes about. *)
Lemma choice_made e vs a used held n v vs' c :
  vset_inv e vs a used held -> vl_current (vs_versions vs) = Some n -> version_at (vs_versions vs) n = Ret v ->
  Forall (fun files => zlen files < 2 ^ 31) (files_ v) -> ready v ->
  (PickCompaction vs = Ret (vs', Some c) \/
   exists level begin limit, 0 <= level /\ level + 1 < config.kNumLevels /\ bound_wf begin /\ bound_wf limit /\ CompactRange vs level begin limit = Ret (vs', Some c)) ->
  compaction_made vs vs' n v c.
Proof.
  intros Hinv Hn Hat Hsz Hr Hchoice. destruct (current_version_wf e vs a used held n v Hinv Hn Hat Hsz) as (Hv & _ & Hlen & _).
  destruct Hchoice as [Hp|(level & begin & limit & Hl & Hl1 & Hb & Hlim & Hp)].
  - destruct (PickCompaction_spec vs n v Hn Hat Hv Hr Hlen) as (vs1 & r & Hp' & Hpr). rewrite Hp in Hp'. injection Hp' as <- <-. by destruct Hpr.
  - destruct (CompactRange_spec vs n v level begin limit Hn Hat Hv Hlen Hl Hl1 Hb Hlim) as (vs1 & r & files & Hp' & _ & Hpr). rewrite Hp in Hp'. injection Hp' as <- <-. by destruct Hpr.
Qed.
End Held.

(** ** Checks that compute *)

#[local] Instance spec_float_eq_dec : EqDecision spec_float.
Proof. solve_decision. Defined.
#[local] Instance Version_eq_dec : EqDecision Version.
Proof. solve_decision. Defined.

Section Checks.
Context `{laws : ComparatorLaws}.

Definition ready_b (v : Version) : bool :=
  match Finalize v with Ret v' => bool_decide (v' = v) | _ => false end && match file_to_compact_ v with None => true | Some _ => false end.

Lemma ready_b_sound v : ready_b v = true -> ready v.
Proof.
  unfold ready_b. rewrite andb_true_iff. intros [Hf Hs]. split.
  - destruct (Finalize v) as [v'| |]; [|done..]. apply bool_decide_eq_true in Hf. by rewrite Hf.
  - intros f Hx. by rewrite Hx in Hs.
Qed.

Definition output_b (o : Output) : bool :=
  bool_decide (ikey_wf (out_smallest o)) && bool_decide (ikey_wf (out_largest o)) && (ic (out_smallest o) (out_largest o) <=? 0) &&
  (0 <=? out_number o) && (out_number o <? 2 ^ 64) && (0 <=? out_file_size o) && (out_file_size o <? 2 ^ 64) &&
  (zlen (rep_ (out_smallest o)) <? 2 ^ 32) && (zlen (rep_ (out_largest o)) <? 2 ^ 32).

Fixpoint outputs_sorted_b (outputs : list Output) : bool :=
  match outputs with
  | [] => true
  | o :: outputs => forallb (fun o' => ic (out_largest o) (out_smallest o') <? 0) outputs && outputs_sorted_b outputs
  end.

Definition outputs_ok_b (c : Compaction) (outputs : list Output) : bool :=
  let inputs := inputs_0 c ++ inputs_1 c in
  forallb output_b outputs && outputs_sorted_b outputs &&
  forallb (fun o => existsb (fun f => ic (f_smallest f) (out_smallest o) <=? 0) inputs && existsb (fun f => ic (out_largest o) (f_largest f) <=? 0) inputs) outputs.

Lemma outputs_ok_b_sound c outputs : outputs_ok_b c outputs = true -> outputs_ok c outputs.
Proof.
  unfold outputs_ok_b. rewrite !andb_true_iff, !forallb_forall. intros [[Ho Hs] Hr].
  assert (forall o, o ∈ outputs -> output_b o = true) as Ho' by (intros o Hin; apply Ho; by apply list_elem_of_In).
  assert (forall o, o ∈ outputs -> existsb (fun f => ic (f_smallest f) (out_smallest o) <=? 0) (inputs_0 c ++ inputs_1 c) = true /\
    existsb (fun f => ic (out_largest o) (f_largest f) <=? 0) (inputs_0 c ++ inputs_1 c) = true) as Hr' by (intros o Hin; apply andb_true_iff, Hr; by apply list_elem_of_In).
  unfold output_b in Ho'. split.
  - apply Forall_forall. intros o Hin. specialize (Ho' o Hin). rewrite !andb_true_iff, !bool_decide_eq_true, Z.leb_le in Ho'. tauto.
  - apply Forall_forall. intros o Hin. specialize (Ho' o Hin). rewrite !andb_true_iff, !Z.ltb_lt, !Z.leb_le in Ho'. unfold num_ok. tauto.
  - clear -Hs. induction outputs as [|o outputs IH]; [constructor|]. cbn [outputs_sorted_b] in Hs. apply andb_true_iff in Hs as [Hf Hs]. constructor; [by apply IH|].
    rewrite forallb_forall in Hf. apply Forall_forall. intros o' Hin. apply Z.ltb_lt, Hf. by apply list_elem_of_In.
  - intros o Hin. destruct (Hr' o Hin) as [Hx _]. apply existsb_exists in Hx as (f & Hf%list_elem_of_In & Hle%Z.leb_le). by exists f.
  - intros o Hin. destruct (Hr' o Hin) as [_ Hx]. apply existsb_exists in Hx as (f & Hf%list_elem_of_In & Hle%Z.leb_le). by exists f.
Qed.
End Checks.

(** ** A flush into the gap of a manual compaction *)

Section Gap.
#[local] Existing Instances BytewiseComparator BytewiseComparator_laws.
#[local] Existing Instance Recovery.portable.

Definition sample_output (n : Z) (lo : bytes) (slo : Z) (hi : bytes) (shi : Z) : Output :=
  mkOutput n 100 (mkInternalKey (encode lo slo kTypeValue)) (mkInternalKey (encode hi shi kTypeValue)).

(** Level 1 has a file with the keys a to c and one with x to z. A manual compaction takes both.
    While it runs, a memtable with the keys m to n is flushed to the level
    [PickLevelForMemTableOutput] names. *)
Definition gap_run : outcome (InMemoryEnv * VersionSet MemHandle * Compaction * Z * list Status) :=
  let options := sample_options false in
  let! (e, _) := NewDB new_MemEnv sample_db sample_cmp in
  let! (e, vs, _, s0) := open_set 1000 e sample_db options sample_cmp in
  let! (e, vs, _, s1) := LogAndApply e vs (push_file 1 (sample_meta 4 [x78] [x7a]) (push_file 1 (sample_meta 3 [x61] [x63]) new_VersionEdit)) in
  let! (vs, r) := CompactRange vs 1 None None in
  match r with
  | None => AssertFailed
  | Some c =>
      let! v := current_version (vs_versions vs) in
      let! level := PickLevelForMemTableOutput options v [x6d] [x6e] in
      let! (e, vs, _, s2) := LogAndApply e vs (push_file level (sample_meta 5 [x6d] [x6e]) new_VersionEdit) in
      Ret (e, vs, c, level, [s0; s1; s2])
  end.

(** The merge of the two files, in one file and in two. *)
Definition gap_one : list Output := [sample_output 6 [x61] 3 [x7a] 4].
Definition gap_two : list Output := [sample_output 6 [x61] 3 [x63] 3; sample_output 7 [x78] 4 [x7a] 4].

Definition outcome_kind {A} (r : outcome A) : Z := match r with Ret _ => 0 | AssertFailed => 1 | OutOfFuel => 2 end.

Definition gap_check : outcome (Z * list Status * list Z * bool * bool * (Z * Z)) :=
  let! (e, vs, c, level, ss) := gap_run in
  Ret (level, ss, numbers (inputs_0 c), outputs_ok_b c gap_one, outputs_ok_b c gap_two,
    (outcome_kind (InstallCompactionResults e vs c gap_one), outcome_kind (InstallCompactionResults e vs c gap_two))).
End Gap.

(** ** A compaction in memory, for the examples *)

Section SampleCompaction.
#[local] Existing Instances BytewiseComparator BytewiseComparator_laws.
#[local] Existing Instance Recovery.portable.

(** Four files of level 0 that overlap in a chain, two of level 1 and one of level 2. *)
Definition flush_edit : VersionEdit :=
  push_file 0 (sample_meta 8 [x63] [x66]) (push_file 0 (sample_meta 7 [x62] [x64]) (push_file 0 (sample_meta 6 [x61] [x63]) (push_file 0 (sample_meta 5 [x61] [x62])
    (push_file 1 (sample_meta 4 [x65] [x67]) (push_file 1 (sample_meta 3 [x61] [x62]) (push_file 2 (sample_meta 11 [x62] [x65]) new_VersionEdit)))))).

Definition sample_outputs : list Output := [sample_output 9 [x61] 6 [x64] 7; sample_output 10 [x66] 8 [x67] 4].

Definition some_compaction (r : option Compaction) : bool := match r with Some c => outputs_ok_b c sample_outputs && forallb (fun f => 0 <=? f_file_size f) (grandparents_ c) && (bytes_of (grandparents_ c) <? 2 ^ 63) | None => false end.

Definition sample_check : outcome (Status * bool * bool * bool * bool) :=
  let! (e, _) := NewDB new_MemEnv sample_db sample_cmp in
  let! (e, vs, _, _) := open_set 1000 e sample_db (sample_options false) sample_cmp in
  let! (e, vs, _, s) := LogAndApply e (MarkFileNumberUsed vs 20) flush_edit in
  let! v := current_version (vs_versions vs) in
  let! (_, r) := PickCompaction vs in
  Ret (s, ready_b v, forallb (fun files => zlen files <? 2 ^ 31) (files_ v), some_compaction r, 0 <=? MaxGrandParentOverlapBytes (vs_options vs)).

Lemma sample_check_run : sample_check = Ret (OK, true, true, true, true).
Proof. vm_compute. reflexivity. Qed.

Lemma flush_edit_ok : edit_ok flush_edit.
Proof.
  unfold flush_edit. repeat (apply AddFile_ok; [|by vm_compute|by vm_compute|by vm_compute|by split; vm_compute; congruence|by split; vm_compute; congruence]). apply new_VersionEdit_ok.
Qed.

(** The state after the flush, in which a compaction is due. *)
Lemma sample_compaction :
  exists (e : InMemoryEnv) (vs : VersionSet MemHandle) a used n v vs' c,
    vset_inv e vs a used nobody /\ vl_current (vs_versions vs) = Some n /\ version_at (vs_versions vs) n = Ret v /\
    Forall (fun files => zlen files < 2 ^ 31) (files_ v) /\ ready v /\ PickCompaction vs = Ret (vs', Some c) /\ outputs_ok c sample_outputs /\
    20 < vs_next_file_number vs < 100 /\ vs_last_sequence vs < 100 /\ used = edit_pairs flush_edit /\ sizes_ok (grandparents_ c) /\ 0 <= MaxGrandParentOverlapBytes (vs_options vs) /\ descriptor_log_ vs ≠ None.
Proof.
  destruct (NewDB_spec new_MemEnv sample_db sample_cmp) as (e1 & s1 & E1 & He1 & Hs); [apply new_MemEnv_ok|by vm_compute|].
  destruct sample_db_opens as (e1' & E1' & Hf & _). rewrite E1' in E1. injection E1 as <- <-.
  destruct (open_saved 1000 e1' sample_db (sample_options false) sample_cmp [] abs_empty 0 0 2 0 He1 (Hs eq_refl)) as (e2 & vs2 & sm & E2 & Hinv & (r1 & r2 & r3 & r4) & _ & Hc); [done|by vm_compute|done|].
  assert (exists vs2', MarkFileNumberUsed vs2 20 = vs2' /\ vset_inv e2 vs2' abs_empty [] nobody /\ vs_next_file_number vs2' = 21 /\ vs_last_sequence vs2' = 0) as (vs2' & Hmark & Hinv' & Hn2 & Hl2).
  { eexists. split; [reflexivity|]. unfold MarkFileNumberUsed. rewrite (proj2 (Z.leb_le _ 20)) by lia. change (u64 (20 + 1)) with 21. split; [apply set_numbers_inv; [done|lia|apply (vi_numbers _ _ _ _ _ Hinv)]|]. cbn. split; [done|lia]. }
  destruct (LogAndApply_spec e2 vs2' abs_empty [] nobody flush_edit Hinv') as (e3 & vs3 & s3 & E3 & _ & _ & Hgood & _).
  { split; [apply flush_edit_ok|apply edit_wfb_sound; by vm_compute|done|apply (bool_decide_unpack (NoDup (edit_pairs flush_edit))); by vm_compute|intros p _; apply not_elem_of_nil|apply levels_disjointb_sound; by vm_compute|done|done|lia]. }
  pose proof sample_check_run as Hrun. unfold sample_check in Hrun. rewrite E1' in Hrun. cbn [obind] in Hrun. rewrite E2 in Hrun. cbn [obind] in Hrun. rewrite Hmark, E3 in Hrun. cbn [obind] in Hrun.
  destruct (current_version (vs_versions vs3)) as [v| |] eqn:Ev; [|discriminate Hrun..]. cbn [obind] in Hrun.
  destruct (PickCompaction vs3) as [[vs4 r]| |] eqn:Ep; [|discriminate Hrun..]. cbn [obind] in Hrun. injection Hrun as -> Hr Hsz Hsome Hlim.
  destruct (Hgood eq_refl) as (Hinv3 & _ & _ & Hl3 & Hn3 & _ & Hdl3). unfold current_version in Ev. destruct (vl_current (vs_versions vs3)) as [n|] eqn:En; [|discriminate Ev].
  destruct r as [c|]; [|discriminate Hsome]. unfold some_compaction in Hsome. apply andb_true_iff in Hsome as [[Hsome Hpos]%andb_true_iff Hbytes]. exists e3, vs3, (abs_apply abs_empty flush_edit), ([] ++ edit_pairs flush_edit), n, v, vs4, c. split; [exact Hinv3|]. split; [done|]. split; [exact Ev|].
  split; [|split; [by apply ready_b_sound|split; [done|split; [by apply outputs_ok_b_sound|split; [lia|split; [lia|split; [done|split; [split; [|by apply Z.ltb_lt]|split; [by apply Z.leb_le|done]]]]]]]]].
  2:{ apply Forall_forall. intros f Hin. rewrite forallb_forall in Hpos. apply Z.leb_le, Hpos. by apply list_elem_of_In. }
  apply Forall_forall. intros files Hin. rewrite forallb_forall in Hsz. apply Z.ltb_lt, Hsz. by apply list_elem_of_In.
Qed.
End SampleCompaction.

(** ** The properties *)

Section Properties.
Context {E FH : Type} `{env_laws : EnvLaws E FH} `{Crc32c} `{laws : ComparatorLaws}.
Implicit Types (e : E) (vs : VersionSet FH).



(** C26: deletion marks are dropped only where nothing is below. For the user keys a compaction
    meets, which come in order, [IsBaseLevelForKey] answers whether any file below the output
    level has the key in its range, as a search of all files would; the positions it keeps
    between the calls never skip a file. *)
Theorem base_level_exact vs n v vs' c keys :
  vl_current (vs_versions vs) = Some n -> version_at (vs_versions vs) n = Ret v -> version_wf v -> compaction_made vs vs' n v c ->
  StronglySorted (fun a b => Compare a b <= 0) keys ->
  exists c', base_level_run vs' c keys = Ret (c', no_file_below v (level_ c + 2) <$> keys).
Proof.
  intros Hn Hat Hv Hmade Hs. destruct (compaction_made_current vs vs' n v c Hn Hat Hmade) as (_ & Hat' & _). destruct Hmade as (vl & large & _ & _ & _ & Hco & Hci).
  destruct (base_level_run_spec vs' (set_refs v (v_refs v + 1)) c keys) as (c' & Hc'); [unfold input_version; by rewrite Hci|by apply (version_wf_files v)|apply (ca_level _ _ _ Hco)|apply (ca_next _ _ _ Hco)|done| |by exists c'].
  intros k ks _. rewrite (ca_ptrs _ _ _ Hco). apply fresh_ptrs_ok. by apply (version_wf_files v).
Qed.

End Properties.

Section Witnesses.
#[local] Existing Instances BytewiseComparator BytewiseComparator_laws.
#[local] Existing Instance Recovery.portable.



Lemma sample_made :
  exists (vs vs' : VersionSet MemHandle) n v c, vl_current (vs_versions vs) = Some n /\ version_at (vs_versions vs) n = Ret v /\ version_wf v /\ compaction_made vs vs' n v c /\
    sizes_ok (grandparents_ c) /\ 0 <= MaxGrandParentOverlapBytes (vs_options vs).
Proof.
  destruct sample_compaction as (e & vs & a & used & n & v & vs' & c & Hinv & Hn & Hat & Hsz & Hr & Hp & _ & _ & _ & _ & Hgs & Hlim & _).
  destruct (current_version_wf e vs a used nobody n v Hinv Hn Hat Hsz) as (Hv & _ & Hlen & _).
  destruct (PickCompaction_spec vs n v Hn Hat Hv Hr Hlen) as (vs1 & r & Hp' & Hpr). rewrite Hp in Hp'. injection Hp' as <- <-. exists vs, vs', n, v, c. split; [exact Hn|]. split; [exact Hat|]. split; [exact Hv|]. split; [exact (proj1 Hpr)|]. split; [exact Hgs|exact Hlim].
Qed.

Lemma base_level_exact_witness :
  exists (vs' : VersionSet MemHandle) v c c', base_level_run vs' c [[x61]; [x61]; [x67]] = Ret (c', no_file_below v (level_ c + 2) <$> [[x61]; [x61]; [x67]]).
Proof.
  destruct sample_made as (vs & vs' & n & v & c & Hn & Hat & Hv & Hmade & _). exists vs', v, c.
  apply (base_level_exact vs n v vs' c [[x61]; [x61]; [x67]] Hn Hat Hv Hmade). repeat constructor; vm_compute; congruence.
Defined.


End Witnesses.
