(* ===== verification/WriteBatch.v ===== *)
(** * Write batches

    [write_batch.h], [write_batch.cc] and [write_batch_internal.h]: a batch is a string with a
    sequence number, a count and one record for every put and delete. [Iterate] decodes it and
    calls a handler; the handler that inserts into a memtable gives the records consecutive
    sequence numbers. *)

From stdpp Require Import sorting.
From S2P Require Import Prelude Coding Env Comparator DbFormat SkipList MemTable.

Open Scope outcome_scope.

(** ** The string *)

(** [WriteBatch], by its only member [rep_]. *)
Abbreviation WriteBatch := bytes.

Definition kHeader : Z := 12.

Definition batch_Clear : WriteBatch := replicate (Z.to_nat kHeader) x00.

Definition new_WriteBatch : WriteBatch := batch_Clear.

Definition ApproximateSize (b : WriteBatch) : Z := zlen b.

(** The bytes [i, i + length new) of a string are overwritten. *)
Definition overwrite (b : bytes) (i : Z) (new : bytes) : bytes := ztake i b ++ new ++ zdrop (i + zlen new) b.

Definition Count (b : WriteBatch) : Z := i32 (DecodeFixed32 (zdrop 8 b)).

Definition SetCount (b : WriteBatch) (n : Z) : WriteBatch := overwrite b 8 (EncodeFixed32 (u32 n)).

Definition Sequence (b : WriteBatch) : Z := DecodeFixed64 b.

Definition SetSequence (b : WriteBatch) (seq : Z) : WriteBatch := overwrite b 0 (EncodeFixed64 seq).

Definition Contents (b : WriteBatch) : bytes := b.

Definition SetContents (contents : bytes) : outcome WriteBatch :=
  assert! kHeader <=? zlen contents;
  Ret contents.

Definition batch_Put (b : WriteBatch) (key value : bytes) : WriteBatch :=
  let b := SetCount b (i32 (Count b + 1)) in
  PutLengthPrefixedSlice (PutLengthPrefixedSlice (b ++ [z2b (type_code kTypeValue)]) key) value.

Definition batch_Delete (b : WriteBatch) (key : bytes) : WriteBatch :=
  let b := SetCount b (i32 (Count b + 1)) in
  PutLengthPrefixedSlice (b ++ [z2b (type_code kTypeDeletion)]) key.

(** [WriteBatchInternal::Append], and [WriteBatch::Append] that calls it. *)
Definition batch_Append (dst src : WriteBatch) : outcome WriteBatch :=
  let dst := SetCount dst (i32 (Count dst + Count src)) in
  assert! kHeader <=? zlen src;
  Ret (dst ++ zdrop kHeader src).

(** ** Handlers *)

(** [WriteBatch::Handler] *)
Class Handler (T : Type) := {
  handle_Put : T -> bytes -> bytes -> outcome T;
  handle_Delete : T -> bytes -> outcome T;
}.

Section Iterate.
Context {T : Type} `{Handler T}.

(** One record: the rest of the input, or the status that ends the loop. *)
Definition batch_record (handler : T) (tag : byte) (input : bytes) : outcome (T * (Status + bytes)) :=
  match value_type (schar tag) with
  | Some kTypeValue =>
      match GetLengthPrefixedSlice input with
      | Some (key, input) =>
          match GetLengthPrefixedSlice input with
          | Some (value, input) => let! handler := handle_Put handler key value in Ret (handler, inr input)
          | None => Ret (handler, inl (Corruption "bad WriteBatch Put"))
          end
      | None => Ret (handler, inl (Corruption "bad WriteBatch Put"))
      end
  | Some kTypeDeletion =>
      match GetLengthPrefixedSlice input with
      | Some (key, input) => let! handler := handle_Delete handler key in Ret (handler, inr input)
      | None => Ret (handler, inl (Corruption "bad WriteBatch Delete"))
      end
  | None => Ret (handler, inl (Corruption "unknown WriteBatch tag"))
  end.

(** The loop; every record is at least one byte long. *)
Fixpoint Iterate_loop (fuel : nat) (b : WriteBatch) (handler : T) (input : bytes) (found : Z) : outcome (T * Status) :=
  match fuel with
  | O => OutOfFuel
  | S fuel =>
      match input with
      | [] => Ret (handler, if found =? Count b then OK else Corruption "WriteBatch has wrong count")
      | tag :: input =>
          let! (handler, r) := batch_record handler tag input in
          match r with
          | inl s => Ret (handler, s)
          | inr input => Iterate_loop fuel b handler input (found + 1)
          end
      end
  end.

Definition Iterate (b : WriteBatch) (handler : T) : outcome (T * Status) :=
  if zlen b <? kHeader then Ret (handler, Corruption "malformed WriteBatch (too small)")
  else Iterate_loop (S (length b)) b handler (zdrop kHeader b) 0.
End Iterate.

(** ** Insertion into a memtable *)

Record MemTableInserter := mkInserter { sequence_ : Z; mem_ : MemTable }.

#[global] Instance MemTableInserter_Handler `{ComparatorLaws} : Handler MemTableInserter := {
  handle_Put i key value :=
    let! m := Add (mem_ i) (sequence_ i) kTypeValue key value in
    Ret (mkInserter (u64 (sequence_ i + 1)) m);
  handle_Delete i key :=
    let! m := Add (mem_ i) (sequence_ i) kTypeDeletion key [] in
    Ret (mkInserter (u64 (sequence_ i + 1)) m);
}.

Definition InsertInto `{ComparatorLaws} (b : WriteBatch) (memtable : MemTable) : outcome (MemTable * Status) :=
  let! (i, s) := Iterate b (mkInserter (Sequence b) memtable) in
  Ret (mem_ i, s).

(** ** What a batch means *)

Inductive batch_op := BPut (key value : bytes) | BDelete (key : bytes).

Definition batch_op_ok (o : batch_op) : Prop :=
  match o with BPut k v => zlen k + 8 < 2 ^ 32 /\ zlen v < 2 ^ 32 | BDelete k => zlen k + 8 < 2 ^ 32 end.

Definition record_bytes (o : batch_op) : bytes :=
  match o with
  | BPut k v => z2b (type_code kTypeValue) :: PutLengthPrefixedSlice [] k ++ PutLengthPrefixedSlice [] v
  | BDelete k => z2b (type_code kTypeDeletion) :: PutLengthPrefixedSlice [] k
  end.

Definition records_bytes (ops : list batch_op) : bytes := concat (record_bytes <$> ops).

(** The batch [b] has this sequence number and these records. *)
Definition batch_is (b : WriteBatch) (seq : Z) (ops : list batch_op) : Prop :=
  b = EncodeFixed64 seq ++ EncodeFixed32 (zlen ops) ++ records_bytes ops.

(** The batches clients build. *)
Inductive built : WriteBatch -> Z -> list batch_op -> Prop :=
  | built_new : built new_WriteBatch 0 []
  | built_put b seq ops key value : built b seq ops -> built (batch_Put b key value) seq (ops ++ [BPut key value])
  | built_delete b seq ops key : built b seq ops -> built (batch_Delete b key) seq (ops ++ [BDelete key])
  | built_append b seq ops src seq' ops' b' :
      built b seq ops -> built src seq' ops' -> batch_Append b src = Ret b' -> built b' seq (ops ++ ops')
  | built_sequence b seq ops seq' : built b seq ops -> built (SetSequence b seq') seq' ops.

(** The calls of a handler, in order. *)
Fixpoint handle_all {T} `{Handler T} (h : T) (ops : list batch_op) : outcome T :=
  match ops with
  | [] => Ret h
  | BPut k v :: ops => let! h := handle_Put h k v in handle_all h ops
  | BDelete k :: ops => let! h := handle_Delete h k in handle_all h ops
  end.

(** The entries of the records, with consecutive sequence numbers. *)
Fixpoint numbered (seq : Z) (ops : list batch_op) : list entry_op :=
  match ops with
  | [] => []
  | BPut k v :: ops => mkOp seq kTypeValue k v :: numbered (seq + 1) ops
  | BDelete k :: ops => mkOp seq kTypeDeletion k [] :: numbered (seq + 1) ops
  end.

(** ** The operations build batches *)

Lemma batch_slice_app dst s : PutLengthPrefixedSlice dst s = dst ++ PutLengthPrefixedSlice [] s.
Proof. unfold PutLengthPrefixedSlice, PutVarint32. by rewrite app_nil_l, app_assoc. Qed.

Lemma SetCount_header s (c n : Z) r : zlen s = 8 -> SetCount (s ++ EncodeFixed32 c ++ r) n = s ++ EncodeFixed32 (u32 n) ++ r.
Proof.
  intros Hs. unfold SetCount, overwrite. rewrite EncodeFixed32_length, ztake_app_len by done. do 2 f_equal.
  rewrite zdrop_app_ge by lia. rewrite Hs. change (8 + 4 - 8) with 4. by rewrite zdrop_app_len by apply EncodeFixed32_length.
Qed.

Lemma Count_header s c r : zlen s = 8 -> 0 <= c < 2 ^ 31 -> Count (s ++ EncodeFixed32 c ++ r) = c.
Proof. intros Hs Hc. unfold Count. rewrite zdrop_app_len by done. rewrite DecodeFixed32_Encode, u32_small by lia. apply i32_small. lia. Qed.

Lemma records_app ops ops' : records_bytes (ops ++ ops') = records_bytes ops ++ records_bytes ops'.
Proof. unfold records_bytes. by rewrite fmap_app, concat_app. Qed.

Lemma batch_is_push b seq ops o :
  batch_is b seq ops -> zlen ops + 1 < 2 ^ 31 -> batch_is (SetCount b (i32 (Count b + 1)) ++ record_bytes o) seq (ops ++ [o]).
Proof.
  intros -> Hn. pose proof (zlen_nonneg ops). rewrite Count_header, SetCount_header by (apply EncodeFixed64_length || lia).
  rewrite i32_small, u32_small by lia. unfold batch_is. rewrite records_app, zlen_app. unfold records_bytes at 3. cbn [fmap list_fmap concat]. rewrite app_nil_r, <- !app_assoc. done.
Qed.

Lemma batch_Put_is b seq ops k v : batch_is b seq ops -> zlen ops + 1 < 2 ^ 31 -> batch_is (batch_Put b k v) seq (ops ++ [BPut k v]).
Proof.
  intros Hb Hn. unfold batch_Put. rewrite (batch_slice_app (PutLengthPrefixedSlice _ k)), (batch_slice_app (_ ++ [_])), <- !app_assoc.
  exact (batch_is_push b seq ops (BPut k v) Hb Hn).
Qed.

Lemma batch_Delete_is b seq ops k : batch_is b seq ops -> zlen ops + 1 < 2 ^ 31 -> batch_is (batch_Delete b k) seq (ops ++ [BDelete k]).
Proof. intros Hb Hn. unfold batch_Delete. rewrite batch_slice_app, <- app_assoc. exact (batch_is_push b seq ops (BDelete k) Hb Hn). Qed.

Lemma batch_is_drop b seq ops : batch_is b seq ops -> zdrop kHeader b = records_bytes ops /\ kHeader <= zlen b.
Proof.
  intros ->. unfold kHeader. split.
  - rewrite app_assoc. apply zdrop_app_len. rewrite zlen_app, EncodeFixed64_length, EncodeFixed32_length. done.
  - rewrite !zlen_app, EncodeFixed64_length, EncodeFixed32_length. pose proof (zlen_nonneg (records_bytes ops)). lia.
Qed.

Lemma batch_Append_is b seq ops src seq' ops' :
  batch_is b seq ops -> batch_is src seq' ops' -> zlen ops + zlen ops' < 2 ^ 31 -> exists b', batch_Append b src = Ret b' /\ batch_is b' seq (ops ++ ops').
Proof.
  intros Hb Hs Hn. destruct (batch_is_drop _ _ _ Hs) as [Hd Hl]. unfold batch_Append. destruct (Z.leb_spec kHeader (zlen src)); [|lia]. cbn [oassert obind]. eexists. split; [done|]. rewrite Hd.
  pose proof (zlen_nonneg ops). pose proof (zlen_nonneg ops'). rewrite Hb, Hs. rewrite !Count_header, SetCount_header by (apply EncodeFixed64_length || lia). rewrite i32_small, u32_small by lia.
  unfold batch_is. by rewrite records_app, zlen_app, <- !app_assoc.
Qed.

Lemma SetSequence_is b seq ops seq' : batch_is b seq ops -> batch_is (SetSequence b seq') seq' ops.
Proof. intros ->. unfold SetSequence, overwrite, batch_is. rewrite EncodeFixed64_length, ztake_0, app_nil_l. by rewrite zdrop_app_len by apply EncodeFixed64_length. Qed.

Lemma built_is b seq ops : built b seq ops -> zlen ops < 2 ^ 31 -> batch_is b seq ops.
Proof.
  induction 1 as [|b seq ops k v Hb IH|b seq ops k Hb IH|b seq ops src seq' ops' b' Hb IHb Hs IHs Happ|b seq ops seq' Hb IH]; intros Hn.
  - by vm_compute.
  - rewrite zlen_app in Hn. apply batch_Put_is; [apply IH; zlen_lia|zlen_lia].
  - rewrite zlen_app in Hn. apply batch_Delete_is; [apply IH; zlen_lia|zlen_lia].
  - rewrite zlen_app in Hn. pose proof (zlen_nonneg ops). pose proof (zlen_nonneg ops').
    destruct (batch_Append_is b seq ops src seq' ops') as (b'' & Hb'' & Hi); [apply IHb; lia|apply IHs; lia|lia|]. congruence.
  - apply (SetSequence_is b seq ops). by apply IH.
Qed.

(** ** Iteration *)

Section Replay.
Context {T : Type} `{Handler T}.

Lemma batch_record_bytes (h : T) o rest :
  batch_op_ok o -> exists tag input, record_bytes o ++ rest = tag :: input /\
    batch_record h tag input = let! h := handle_all h [o] in Ret (h, inr rest).
Proof.
  intros Ho. destruct o as [k v|k]; cbn [record_bytes app]; eexists _, _; (split; [reflexivity|]); cbn [handle_all].
  - destruct Ho as [Hk Hv]. pose proof (zlen_nonneg k). unfold batch_record. change (value_type _) with (Some kTypeValue). cbn [app]. rewrite <- app_assoc, !GetLengthPrefixedSlice_Put by lia. by destruct (handle_Put h k v).
  - unfold batch_op_ok in Ho. unfold batch_record. change (value_type _) with (Some kTypeDeletion). rewrite GetLengthPrefixedSlice_Put by lia. by destruct (handle_Delete h k).
Qed.

Lemma handle_all_app (h : T) ops ops' : handle_all h (ops ++ ops') = let! h := handle_all h ops in handle_all h ops'.
Proof. revert h. induction ops as [|[k v|k] ops IH]; intros h; [done|..]; cbn [app handle_all]; [destruct (handle_Put h k v) as [h'| |]|destruct (handle_Delete h k) as [h'| |]]; try done; apply IH. Qed.

Lemma Iterate_loop_records fuel b (h : T) ops found :
  Forall batch_op_ok ops -> (length ops < fuel)%nat -> found + zlen ops = Count b ->
  Iterate_loop fuel b h (records_bytes ops) found = let! h := handle_all h ops in Ret (h, OK).
Proof.
  intros Hok. revert fuel h found. induction Hok as [|o ops Ho Hok IH]; intros fuel h found Hf Hc; (destruct fuel as [|fuel]; [simpl in Hf; lia|]).
  - cbn. rewrite zlen_nil in Hc. destruct (Z.eqb_spec found (Count b)); [done|lia].
  - change (records_bytes (o :: ops)) with (record_bytes o ++ records_bytes ops). destruct (batch_record_bytes h o (records_bytes ops) Ho) as (tag & input & -> & Hr). cbn [Iterate_loop]. rewrite Hr.
    change (o :: ops) with ([o] ++ ops) in Hc |- *. rewrite handle_all_app. destruct (handle_all h [o]) as [h'| |]; cbn [obind]; [|done..]. apply IH; [simpl in Hf; lia|]. rewrite zlen_app in Hc. change (zlen [o]) with 1 in Hc. lia.
Qed.

Lemma record_bytes_length o : (1 <= length (record_bytes o))%nat.
Proof. destruct o; simpl; lia. Qed.

Lemma records_length ops : (length ops <= length (records_bytes ops))%nat.
Proof. induction ops as [|o ops IH]; [simpl; lia|]. change (records_bytes (o :: ops)) with (record_bytes o ++ records_bytes ops). rewrite length_app. pose proof (record_bytes_length o). cbn [length]. lia. Qed.

Lemma Iterate_is b seq ops (h : T) :
  batch_is b seq ops -> Forall batch_op_ok ops -> zlen ops < 2 ^ 31 -> Iterate b h = let! h := handle_all h ops in Ret (h, OK).
Proof.
  intros Hb Hok Hn. destruct (batch_is_drop _ _ _ Hb) as [Hd Hl]. unfold Iterate. destruct (Z.ltb_spec (zlen b) kHeader); [lia|]. rewrite Hd.
  apply Iterate_loop_records; [done| |rewrite Hb, Count_header by (apply EncodeFixed64_length || (pose proof (zlen_nonneg ops); lia)); lia].
  pose proof (records_length ops). rewrite Hb, !length_app. lia.
Qed.

(** Arbitrary bytes: the loop comes to an end, and has called the handler for some records. *)
Lemma Iterate_loop_any fuel b (h : T) input found :
  (length input < fuel)%nat -> (forall h k v, exists h', handle_Put h k v = Ret h') -> (forall h k, exists h', handle_Delete h k = Ret h') ->
  exists h' s ops, Iterate_loop fuel b h input found = Ret (h', s) /\ handle_all h ops = Ret h' /\
    ((s = OK /\ found + zlen ops = Count b) \/ IsCorruption s = true).
Proof.
  intros Hf HP HD. revert h input found Hf. induction fuel as [|fuel IH]; intros h input found Hf; [lia|]. cbn [Iterate_loop].
  destruct input as [|tag input].
  { exists h, (if found =? Count b then OK else Corruption "WriteBatch has wrong count"), []. split; [done|]. split; [done|]. rewrite zlen_nil. destruct (Z.eqb_spec found (Count b)); [left; split; [done|lia]|by right]. }
  simpl in Hf. unfold batch_record. destruct (value_type (schar tag)) as [[]|].
  - destruct (GetLengthPrefixedSlice input) as [[k q]|] eqn:E; cbn [obind]; [|eexists h, _, []; split; [done|]; split; [done|]; by right].
    apply GetLengthPrefixedSlice_bounds in E as (c & -> & Hc). destruct (HD h k) as (h1 & Eh). rewrite Eh. cbn [obind].
    destruct (IH h1 q (found + 1)) as (h' & s & ops & -> & Hh & Hs); [rewrite !length_app in Hf; lia|]. exists h', s, (BDelete k :: ops). split; [done|]. cbn [handle_all]. rewrite Eh. split; [done|]. rewrite zlen_cons. destruct Hs as [[? ?]|?]; [left; split; [done|lia]|by right].
  - destruct (GetLengthPrefixedSlice input) as [[k q]|] eqn:E; cbn [obind]; [|eexists h, _, []; split; [done|]; split; [done|]; by right].
    apply GetLengthPrefixedSlice_bounds in E as (c & -> & Hc). destruct (GetLengthPrefixedSlice q) as [[v r]|] eqn:E; cbn [obind]; [|eexists h, _, []; split; [done|]; split; [done|]; by right].
    apply GetLengthPrefixedSlice_bounds in E as (c' & -> & Hc'). destruct (HP h k v) as (h1 & Eh). rewrite Eh. cbn [obind].
    destruct (IH h1 r (found + 1)) as (h' & s & ops & -> & Hh & Hs); [rewrite !length_app in Hf; lia|]. exists h', s, (BPut k v :: ops). split; [done|]. cbn [handle_all]. rewrite Eh. split; [done|]. rewrite zlen_cons. destruct Hs as [[? ?]|?]; [left; split; [done|lia]|by right].
  - cbn [obind]. eexists h, _, []. split; [done|]. split; [done|]. by right.
Qed.
End Replay.

(** ** Into the memtable *)

Section Insert.
Context `{laws : ComparatorLaws}.

Lemma handle_all_inserter seq m ops :
  0 <= seq -> seq + zlen ops < 2 ^ 64 ->
  handle_all (mkInserter seq m) ops = let! m := adds m (numbered seq ops) in Ret (mkInserter (seq + zlen ops) m).
Proof.
  revert seq m. induction ops as [|[k v|k] ops IH]; intros seq m Hs Hn; cbn [handle_all numbered adds].
  - rewrite zlen_nil, Z.add_0_r. done.
  - rewrite zlen_cons in *. pose proof (zlen_nonneg ops). cbn. destruct (Add m seq kTypeValue k v) as [m'| |]; cbn [obind]; [|done..]. rewrite u64_small by lia. rewrite IH by lia. by rewrite <- Z.add_assoc.
  - rewrite zlen_cons in *. pose proof (zlen_nonneg ops). cbn. destruct (Add m seq kTypeDeletion k []) as [m'| |]; cbn [obind]; [|done..]. rewrite u64_small by lia. rewrite IH by lia. by rewrite <- Z.add_assoc.
Qed.

Lemma numbered_range seq ops o : o ∈ numbered seq ops -> seq <= op_seq o < seq + zlen ops.
Proof.
  revert seq. induction ops as [|[k v|k] ops IH]; intros seq; cbn [numbered]; [by intros ?%not_elem_of_nil|..]; rewrite zlen_cons; pose proof (zlen_nonneg ops);
    (intros [->|Ho]%elem_of_cons; [simpl; lia|apply IH in Ho; lia]).
Qed.

Lemma numbered_increasing seq ops : increasing (numbered seq ops).
Proof.
  revert seq. induction ops as [|[k v|k] ops IH]; intros seq; cbn [numbered]; [constructor|..]; (constructor; [apply IH|]; apply Forall_forall; intros o Ho; apply numbered_range in Ho; simpl; lia).
Qed.

Lemma numbered_ok seq ops : 0 <= seq -> seq + zlen ops <= 2 ^ 56 -> Forall batch_op_ok ops -> Forall op_ok (numbered seq ops).
Proof.
  intros Hs Hn Hok. revert seq Hs Hn. induction Hok as [|[k v|k] ops Ho Hok IH]; intros seq Hs Hn; cbn [numbered]; [constructor|..]; rewrite zlen_cons in Hn; pose proof (zlen_nonneg ops); (constructor; [|apply IH; lia]).
  - unfold op_ok, in_range. rewrite kMaxSequenceNumber_eq. destruct Ho. cbn [op_seq op_key op_value]. lia.
  - unfold op_ok, in_range. rewrite kMaxSequenceNumber_eq. cbn [op_seq op_key op_value batch_op_ok] in *. change (zlen (@nil byte)) with 0. lia.
Qed.

Lemma InsertInto_adds b seq ops m : batch_is b seq ops -> Forall batch_op_ok ops -> zlen ops < 2 ^ 31 -> 0 <= seq -> seq + zlen ops <= 2 ^ 56 ->
  InsertInto b m = let! m' := adds m (numbered seq ops) in Ret (m', OK).
Proof.
  intros Hb Hok Hn Hs Hr. unfold InsertInto. rewrite (Iterate_is b seq ops) by done.
  assert (Sequence b = seq) as -> by (unfold Sequence; rewrite Hb, DecodeFixed64_Encode; apply u64_small; pose proof (zlen_nonneg ops); lia).
  rewrite handle_all_inserter by lia. by destruct (adds m (numbered seq ops)).
Qed.

Lemma InsertInto_is b seq ops m done_ops :
  batch_is b seq ops -> Forall batch_op_ok ops -> zlen ops < 2 ^ 31 -> 0 <= seq -> seq + zlen ops <= 2 ^ 56 ->
  MRepr m done_ops -> (forall o, o ∈ done_ops -> op_seq o < seq) ->
  exists m', InsertInto b m = Ret (m', OK) /\ MRepr m' (done_ops ++ numbered seq ops).
Proof.
  intros Hb Hok Hn Hs Hr Hm Hlt. rewrite (InsertInto_adds b seq ops) by done.
  destruct (adds_spec (numbered seq ops) m done_ops Hm (numbered_ok _ _ Hs Hr Hok) (numbered_increasing _ _)) as (m' & -> & Hm').
  { intros o o' Ho Ho'. apply Hlt in Ho. apply numbered_range in Ho'. lia. }
  cbn [obind]. by exists m'.
Qed.
End Insert.

(** ** The properties *)

(** C24: a batch is replayed as it was built. However puts, deletes, appended batches and
    sequence numbers were put together, the batch has the count and the sequence number it
    should have, [Iterate] calls any handler with exactly the operations in their order and
    returns OK, and [InsertInto] adds them to a memtable under consecutive sequence numbers. *)
Theorem write_batch_replays `{ComparatorLaws} b seq ops :
  built b seq ops -> Forall batch_op_ok ops -> zlen ops < 2 ^ 31 -> 0 <= seq -> seq + zlen ops <= 2 ^ 56 ->
  Count b = zlen ops /\ Sequence b = seq /\
  (forall (T : Type) (hT : Handler T) (h : T), Iterate b h = let! h := handle_all h ops in Ret (h, OK)) /\
  (forall m done_ops, MRepr m done_ops -> (forall o, o ∈ done_ops -> op_seq o < seq) ->
     exists m', InsertInto b m = Ret (m', OK) /\ MRepr m' (done_ops ++ numbered seq ops)).
Proof.
  intros Hb Hok Hn Hs Hr. apply built_is in Hb; [|done]. pose proof (zlen_nonneg ops). split; [|split; [|split]].
  - rewrite Hb. apply Count_header; [apply EncodeFixed64_length|lia].
  - unfold Sequence. rewrite Hb, DecodeFixed64_Encode. apply u64_small. lia.
  - intros T hT h. by apply (Iterate_is b seq).
  - intros m dn Hm Hlt. by apply InsertInto_is.
Qed.


(** A handler that collects the records. *)
#[local] Instance collector : Handler (list batch_op) := { handle_Put l k v := Ret (l ++ [BPut k v]); handle_Delete l k := Ret (l ++ [BDelete k]) }.


#[local] Existing Instances BytewiseComparator BytewiseComparator_laws.

Lemma write_batch_replays_witness :
  let b := SetSequence (batch_Delete (batch_Put new_WriteBatch [x61] [x62]) [x63]) 7 in
  exists m, InsertInto b new_MemTable = Ret (m, OK) /\ MRepr m [mkOp 7 kTypeValue [x61] [x62]; mkOp 8 kTypeDeletion [x63] []].
Proof.
  intros b. destruct (write_batch_replays b 7 [BPut [x61] [x62]; BDelete [x63]]) as (_ & _ & _ & Hi).
  - apply built_sequence with 0. apply (built_delete _ _ [BPut [x61] [x62]]). apply (built_put _ _ []). constructor.
  - repeat constructor.
  - done.
  - lia.
  - by vm_compute.
  - destruct (Hi new_MemTable [] MRepr_new) as (m & Hm & Hr); [by intros o ?%not_elem_of_nil|]. exists m. exact (conj Hm Hr).
Defined.
