(* ===== verification/MergingIterator.v ===== *)
(** * Iterator wrappers and the merging iterator

    [table/iterator_wrapper.h], [table/iterator.cc] (the empty iterator) and [table/merger.cc]: a
    merging iterator shows the entries of its children in order. It is an instance of the
    iterator interface whenever its children are. *)

From stdpp Require Import sorting sets.
From S2P Require Import Prelude Env Comparator DbFormat SkipList MemTable Iterator DBIter.

Open Scope outcome_scope.

(** ** The empty iterator *)

Record EmptyIterator := mkEmpty { empty_status : Status }.

Definition NewEmptyIterator : EmptyIterator := mkEmpty OK.

Definition NewErrorIterator (status : Status) : EmptyIterator := mkEmpty status.

#[global] Instance EmptyIterator_Iterator : Iterator EmptyIterator := {
  it_Valid _ := false;
  it_key _ := AssertFailed;
  it_value _ := AssertFailed;
  it_Next _ := AssertFailed;
  it_Prev _ := AssertFailed;
  it_Seek it _ := Ret it;
  it_SeekToFirst it := Ret it;
  it_SeekToLast it := Ret it;
  it_status it := empty_status it;
}.

(** ** The wrapper *)

(** [valid_] and [key_] are kept from the last call; [iter_] may be null. *)
Record IteratorWrapper (I : Type) := mkWrapper { w_iter : option I; w_valid : bool; w_key : bytes }.
Arguments mkWrapper {I} _ _ _.
Arguments w_iter {I} _.
Arguments w_valid {I} _.
Arguments w_key {I} _.

Section Wrapper.
Context {I : Type} `{Iterator I}.
Abbreviation IteratorWrapper := (IteratorWrapper I).

Definition new_IteratorWrapper : IteratorWrapper := mkWrapper None false [].

(** [Update] after [iter_] has become [it]; an invalid iterator leaves [key_] as it was. *)
Definition wrapper_Update (w : IteratorWrapper) (it : I) : outcome IteratorWrapper :=
  if it_Valid it then let! k := it_key it in Ret (mkWrapper (Some it) true k)
  else Ret (mkWrapper (Some it) false (w_key w)).

Definition wrapper_Set (w : IteratorWrapper) (iter : option I) : outcome IteratorWrapper :=
  match iter with
  | None => Ret (mkWrapper None false (w_key w))
  | Some it => wrapper_Update w it
  end.

Definition wrapper_Valid (w : IteratorWrapper) : bool := w_valid w.

Definition wrapper_key (w : IteratorWrapper) : outcome bytes :=
  assert! wrapper_Valid w;
  Ret (w_key w).

Definition wrapper_value (w : IteratorWrapper) : outcome bytes :=
  assert! wrapper_Valid w;
  match w_iter w with Some it => it_value it | None => AssertFailed end.

Definition wrapper_status (w : IteratorWrapper) : outcome Status :=
  match w_iter w with Some it => Ret (it_status it) | None => AssertFailed end.

(** The calls that move the iterator. *)
Definition wrapper_move (w : IteratorWrapper) (f : I -> outcome I) : outcome IteratorWrapper :=
  match w_iter w with
  | None => AssertFailed
  | Some it => let! it := f it in wrapper_Update w it
  end.

Definition wrapper_Next (w : IteratorWrapper) : outcome IteratorWrapper := wrapper_move w it_Next.
Definition wrapper_Prev (w : IteratorWrapper) : outcome IteratorWrapper := wrapper_move w it_Prev.
Definition wrapper_Seek (w : IteratorWrapper) (k : bytes) : outcome IteratorWrapper := wrapper_move w (fun it => it_Seek it k).
Definition wrapper_SeekToFirst (w : IteratorWrapper) : outcome IteratorWrapper := wrapper_move w it_SeekToFirst.
Definition wrapper_SeekToLast (w : IteratorWrapper) : outcome IteratorWrapper := wrapper_move w it_SeekToLast.
End Wrapper.

(** ** The merging iterator *)

(** [current_] is the index of a child. *)
Record MergingIterator (I : Type) := mkMerging {
  children_ : list (IteratorWrapper I);
  current_ : option nat;
  direction_ : Direction;
}.
Arguments mkMerging {I} _ _ _.
Arguments children_ {I} _.
Arguments current_ {I} _.
Arguments direction_ {I} _.

Section Merging.
Context {I : Type} `{Iterator I} (compare : bytes -> bytes -> Z).
Abbreviation MergingIterator := (MergingIterator I).
Abbreviation IteratorWrapper := (IteratorWrapper I).

Fixpoint set_children (iters : list I) : outcome (list IteratorWrapper) :=
  match iters with
  | [] => Ret []
  | it :: iters =>
      let! w := wrapper_Set new_IteratorWrapper (Some it) in
      let! ws := set_children iters in
      Ret (w :: ws)
  end.

Definition new_MergingIterator (iters : list I) : outcome MergingIterator :=
  let! ws := set_children iters in
  Ret (mkMerging ws None kForward).

(** A call for every child. *)
Fixpoint each_child (f : IteratorWrapper -> outcome IteratorWrapper) (ws : list IteratorWrapper) : outcome (list IteratorWrapper) :=
  match ws with
  | [] => Ret []
  | w :: ws => let! w := f w in let! ws := each_child f ws in Ret (w :: ws)
  end.

(** The loop of [FindSmallest] from child [i] on, with the best so far. *)
Fixpoint smallest_loop (i : nat) (ws : list IteratorWrapper) (smallest : option (nat * IteratorWrapper)) : outcome (option nat) :=
  match ws with
  | [] => Ret (fst <$> smallest)
  | child :: ws =>
      let! smallest :=
        if wrapper_Valid child then
          match smallest with
          | None => Ret (Some (i, child))
          | Some (s, best) =>
              let! a := wrapper_key child in
              let! b := wrapper_key best in
              Ret (if compare a b <? 0 then Some (i, child) else Some (s, best))
          end
        else Ret smallest in
      smallest_loop (S i) ws smallest
  end.

Definition FindSmallest (ws : list IteratorWrapper) : outcome (option nat) := smallest_loop 0 ws None.

(** The loop of [FindLargest], which goes from the last child to the first: [ws] are the
    children below index [i], the last one first. *)
Fixpoint largest_loop_down (i : nat) (ws : list IteratorWrapper) (largest : option (nat * IteratorWrapper)) : outcome (option nat) :=
  match ws with
  | [] => Ret (fst <$> largest)
  | child :: ws =>
      let i := pred i in
      let! largest :=
        if wrapper_Valid child then
          match largest with
          | None => Ret (Some (i, child))
          | Some (s, best) =>
              let! a := wrapper_key child in
              let! b := wrapper_key best in
              Ret (if 0 <? compare a b then Some (i, child) else Some (s, best))
          end
        else Ret largest in
      largest_loop_down i ws largest
  end.

Definition FindLargest (ws : list IteratorWrapper) : outcome (option nat) := largest_loop_down (length ws) (rev ws) None.

Definition merging_Valid (m : MergingIterator) : bool := match current_ m with Some _ => true | None => false end.

Definition current_child (m : MergingIterator) : outcome IteratorWrapper :=
  match current_ m with
  | None => AssertFailed
  | Some i => match children_ m !! i with Some w => Ret w | None => AssertFailed end
  end.

Definition merging_key (m : MergingIterator) : outcome bytes := let! w := current_child m in wrapper_key w.

Definition merging_value (m : MergingIterator) : outcome bytes := let! w := current_child m in wrapper_value w.

Definition merging_SeekToFirst (m : MergingIterator) : outcome MergingIterator :=
  let! ws := each_child wrapper_SeekToFirst (children_ m) in
  let! c := FindSmallest ws in
  Ret (mkMerging ws c kForward).

Definition merging_SeekToLast (m : MergingIterator) : outcome MergingIterator :=
  let! ws := each_child wrapper_SeekToLast (children_ m) in
  let! c := FindLargest ws in
  Ret (mkMerging ws c kReverse).

Definition merging_Seek (m : MergingIterator) (target : bytes) : outcome MergingIterator :=
  let! ws := each_child (fun w => wrapper_Seek w target) (children_ m) in
  let! c := FindSmallest ws in
  Ret (mkMerging ws c kForward).

(** A call for every child but the current one. *)
Fixpoint each_other (f : IteratorWrapper -> outcome IteratorWrapper) (current i : nat) (ws : list IteratorWrapper) : outcome (list IteratorWrapper) :=
  match ws with
  | [] => Ret []
  | w :: ws =>
      let! w := if bool_decide (i = current) then Ret w else f w in
      let! ws := each_other f current (S i) ws in
      Ret (w :: ws)
  end.

(** Move another child to its first entry after [key]. *)
Definition after_key_child (key : bytes) (child : IteratorWrapper) : outcome IteratorWrapper :=
  let! child := wrapper_Seek child key in
  if wrapper_Valid child then
    let! k := wrapper_key child in
    if compare key k =? 0 then wrapper_Next child else Ret child
  else Ret child.

(** Move another child to its last entry before [key]. *)
Definition before_key_child (key : bytes) (child : IteratorWrapper) : outcome IteratorWrapper :=
  let! child := wrapper_Seek child key in
  if wrapper_Valid child then wrapper_Prev child else wrapper_SeekToLast child.

Definition move_current (ws : list IteratorWrapper) (i : nat) (f : IteratorWrapper -> outcome IteratorWrapper) : outcome (list IteratorWrapper) :=
  match ws !! i with
  | None => AssertFailed
  | Some w => let! w := f w in Ret (<[i := w]> ws)
  end.

Definition merging_Next (m : MergingIterator) : outcome MergingIterator :=
  match current_ m with
  | None => AssertFailed
  | Some i =>
      let! ws := match direction_ m with
        | kForward => Ret (children_ m)
        | kReverse => let! key := merging_key m in each_other (after_key_child key) i 0 (children_ m)
        end in
      let! ws := move_current ws i wrapper_Next in
      let! c := FindSmallest ws in
      Ret (mkMerging ws c kForward)
  end.

Definition merging_Prev (m : MergingIterator) : outcome MergingIterator :=
  match current_ m with
  | None => AssertFailed
  | Some i =>
      let! ws := match direction_ m with
        | kReverse => Ret (children_ m)
        | kForward => let! key := merging_key m in each_other (before_key_child key) i 0 (children_ m)
        end in
      let! ws := move_current ws i wrapper_Prev in
      let! c := FindLargest ws in
      Ret (mkMerging ws c kReverse)
  end.

(** The status of the first child that has an error, else of the last one; a child without an
    iterator does not occur. *)
Fixpoint children_status (ws : list IteratorWrapper) (status : Status) : Status :=
  match ws with
  | [] => status
  | w :: ws => match w_iter w with
               | Some it => if ok (it_status it) then children_status ws (it_status it) else it_status it
               | None => status
               end
  end.

Definition merging_status (m : MergingIterator) : Status := children_status (children_ m) OK.

Definition Merging_Iterator : Iterator MergingIterator := {|
  it_Valid := merging_Valid;
  it_key := merging_key;
  it_value := merging_value;
  it_Next := merging_Next;
  it_Prev := merging_Prev;
  it_Seek := merging_Seek;
  it_SeekToFirst := merging_SeekToFirst;
  it_SeekToLast := merging_SeekToLast;
  it_status := merging_status;
|}.

(** What [NewMergingIterator] returns: an empty iterator, the only child or a merge. *)
Inductive Merged := MergedNone (it : EmptyIterator) | MergedOne (it : I) | MergedMany (it : MergingIterator).

Definition NewMergingIterator (iters : list I) : outcome Merged :=
  match iters with
  | [] => Ret (MergedNone NewEmptyIterator)
  | [it] => Ret (MergedOne it)
  | _ => let! m := new_MergingIterator iters in Ret (MergedMany m)
  end.
End Merging.

(** ** Correctness *)

(** The order of keys a merge relies on. *)
Class CompareLaws (compare : bytes -> bytes -> Z) : Prop := {
  cmp_antisym a b : compare a b < 0 <-> 0 < compare b a;
  cmp_trans a b c : compare a b <= 0 -> compare b c <= 0 -> compare a c <= 0;
}.

#[global] Instance internal_CompareLaws `{ComparatorLaws} : CompareLaws internal_compare.
Proof. split; [apply internal_antisym|apply internal_trans]. Qed.

Arguments cmp_antisym compare {_} a b.
Arguments cmp_trans compare {_} a b c _ _.

Lemma strongly_sorted_lookup {A} (R : A -> A -> Prop) l i j a b : StronglySorted R l -> l !! i = Some a -> l !! j = Some b -> (i < j)%nat -> R a b.
Proof.
  intros Hl. revert i j. induction Hl as [|x l Hs IH Hx]; intros i j Ha Hb Hij; [done|]. destruct j as [|j]; [lia|]. destruct i as [|i]; simpl in *.
  - injection Ha as ->. rewrite Forall_forall in Hx. apply Hx. by eapply list_elem_of_lookup_2.
  - apply (IH i j); [done|done|lia].
Qed.

Section Ordered.
Context (compare : bytes -> bytes -> Z) `{!CompareLaws compare}.
Abbreviation Entry := (bytes * bytes)%type.

Definition before (a b : Entry) : Prop := compare a.1 b.1 < 0.

Lemma cmp_refl a : compare a a = 0.
Proof. pose proof (cmp_antisym compare a a). lia. Qed.

Lemma cmp_le_lt a b c : compare a b <= 0 -> compare b c < 0 -> compare a c < 0.
Proof.
  intros Hab Hbc. destruct (Z.lt_ge_cases (compare a c) 0) as [|Hac]; [done|]. pose proof (cmp_antisym compare c a). pose proof (cmp_antisym compare a c). pose proof (cmp_antisym compare b c).
  pose proof (cmp_trans compare c a b ltac:(lia) Hab). lia.
Qed.

Lemma cmp_lt_le a b c : compare a b < 0 -> compare b c <= 0 -> compare a c < 0.
Proof.
  intros Hab Hbc. destruct (Z.lt_ge_cases (compare a c) 0) as [|Hac]; [done|]. pose proof (cmp_antisym compare c a). pose proof (cmp_antisym compare a c). pose proof (cmp_antisym compare a b).
  pose proof (cmp_trans compare b c a Hbc ltac:(lia)). lia.
Qed.

(** A set of entries that has with an entry all those before it. *)
Definition closed_down (low : Entry -> Prop) : Prop := forall a b, before a b -> low b -> low a.

Lemma closed_lt k : closed_down (fun e => compare e.1 k < 0).
Proof. intros a b Hab Hb. simpl in *. eapply cmp_lt_le; [exact Hab|]. lia. Qed.

Lemma closed_le k : closed_down (fun e => compare e.1 k <= 0).
Proof. intros a b Hab Hb. simpl in *. eapply (cmp_trans compare); [apply Z.lt_le_incl, Hab|done]. Qed.

Lemma sorted_low (low : Entry -> Prop) l : closed_down low -> StronglySorted before l -> StronglySorted (fun a b => low b -> low a) l.
Proof. intros Hc. induction 1 as [|x l Hs IH Hx]; constructor; [done|]. eapply Forall_impl; [exact Hx|]. intros y Hy. simpl. by apply Hc. Qed.

Lemma before_NoDup l : StronglySorted before l -> NoDup l.
Proof.
  induction 1 as [|e l Hs IH He]; constructor; [|done]. intros Hin. rewrite Forall_forall in He. specialize (He e Hin). unfold before in He. rewrite cmp_refl in He. lia.
Qed.

Section Cut.
Context (low : Entry -> Prop) `{forall e, Decision (low e)} (Hclosed : closed_down low) (l : list Entry) (Hl : StronglySorted before l).

Definition cut : nat := length (filter low l).

Lemma cut_lookup i e : l !! i = Some e -> low e <-> (i < cut)%nat.
Proof. apply filter_prefix_lookup. by apply sorted_low. Qed.

Lemma cut_le : (cut <= length l)%nat.
Proof. apply length_filter. Qed.

Lemma sorted_index i j a b : l !! i = Some a -> l !! j = Some b -> before a b <-> (i < j)%nat.
Proof.
  intros Ha Hb. split; [|exact (strongly_sorted_lookup before l i j a b Hl Ha Hb)].
  intros Hab. destruct (Nat.lt_trichotomy i j) as [|[->|Hji]]; [done|..].
  - assert (a = b) as -> by congruence. unfold before in Hab. rewrite cmp_refl in Hab. lia.
  - pose proof (strongly_sorted_lookup before l j i b a Hl Hb Ha Hji) as Hlt. unfold before in *. apply (cmp_antisym compare) in Hlt. lia.
Qed.

(** The first entry after the cut. *)
Lemma cut_front e x : l !! cut = Some e -> x ∈ l -> low x <-> compare x.1 e.1 < 0.
Proof. intros He Hx. apply list_elem_of_lookup in Hx as [i Hi]. rewrite (cut_lookup i x Hi). symmetry. apply (sorted_index i cut x e Hi He). Qed.

Lemma cut_front_le e x : l !! cut = Some e -> x ∈ l -> ~ low x -> compare e.1 x.1 <= 0.
Proof. intros He Hx Hn. rewrite (cut_front e x He Hx) in Hn. pose proof (cmp_antisym compare x.1 e.1). lia. Qed.

(** No entry from the cut on is low. *)
Lemma cut_lookup_not e i : l !! i = Some e -> (cut <= i)%nat -> ~ low e.
Proof. intros He Hi Hn. apply (cut_lookup i e He) in Hn. lia. Qed.

(** The last entry before the cut. *)
Lemma cut_back e x : l !! pred cut = Some e -> (0 < cut)%nat -> x ∈ l -> low x <-> compare x.1 e.1 <= 0.
Proof.
  intros He H0 Hx. apply list_elem_of_lookup in Hx as [i Hi]. rewrite (cut_lookup i x Hi). pose proof (sorted_index (pred cut) i e x He Hi) as Hs. unfold before in Hs.
  pose proof (cmp_antisym compare e.1 x.1). lia.
Qed.

Lemma cut_nonlow x : x ∈ l -> ~ low x -> (cut < length l)%nat.
Proof. intros Hx Hn. apply list_elem_of_lookup in Hx as [i Hi]. rewrite (cut_lookup i x Hi) in Hn. apply lookup_lt_Some in Hi. lia. Qed.

Lemma cut_low x : x ∈ l -> low x -> (0 < cut)%nat.
Proof. intros Hx Hn. apply list_elem_of_lookup in Hx as [i Hi]. rewrite (cut_lookup i x Hi) in Hn. lia. Qed.
End Cut.

Lemma cut_ext (P Q : Entry -> Prop) `{forall e, Decision (P e)} `{forall e, Decision (Q e)} l :
  (forall e, e ∈ l -> P e <-> Q e) -> cut P l = cut Q l.
Proof. intros He. unfold cut. f_equal. apply filter_ext_forall. by apply Forall_forall. Qed.

(** An entry of the list stands at the cut of its key. *)
Lemma cut_self l e : StronglySorted before l -> e ∈ l ->
  l !! cut (fun x => compare x.1 e.1 < 0) l = Some e /\ cut (fun x => compare x.1 e.1 <= 0) l = S (cut (fun x => compare x.1 e.1 < 0) l).
Proof.
  intros Hl He. apply list_elem_of_lookup in He as [i Hi].
  assert (cut (fun x => compare x.1 e.1 < 0) l = i) as ->.
  { pose proof (cut_lookup (fun x => compare x.1 e.1 < 0) (closed_lt _) l Hl i e Hi) as Hc. simpl in Hc. rewrite cmp_refl in Hc. set (n := cut _ l) in *. destruct (Nat.lt_trichotomy n i) as [Hlt|[?|?]]; [exfalso|done|lia].
    apply lookup_lt_Some in Hi as Hb. destruct (lookup_lt_is_Some_2 l n) as [x Hx]; [lia|]. pose proof (cut_lookup (fun x => compare x.1 e.1 < 0) (closed_lt _) l Hl n x Hx) as Hc'. fold n in Hc'.
    pose proof (proj2 (sorted_index l Hl n i x e Hx Hi) Hlt). unfold before in *. simpl in Hc'. lia. }
  split; [done|]. pose proof (cut_lookup (fun x => compare x.1 e.1 <= 0) (closed_le _) l Hl i e Hi) as Hc. simpl in Hc. rewrite cmp_refl in Hc. set (n := cut _ l) in *.
  destruct (Nat.lt_trichotomy n (S i)) as [?|[?|Hgt]]; [lia|done|exfalso]. pose proof (cut_le (fun x => compare x.1 e.1 <= 0) l) as Hle. fold n in Hle.
  destruct (lookup_lt_is_Some_2 l (S i)) as [x Hx]; [lia|]. pose proof (cut_lookup (fun x => compare x.1 e.1 <= 0) (closed_le _) l Hl (S i) x Hx) as Hc'. fold n in Hc'. simpl in Hc'.
  pose proof (proj2 (sorted_index l Hl i (S i) e x Hi Hx) ltac:(lia)) as Hb. unfold before in Hb. apply (cmp_antisym compare) in Hb. lia.
Qed.
End Ordered.

Section MergeLaws.
Context {I : Type} `{Iterator I} (compare : bytes -> bytes -> Z) `{!CompareLaws compare}.
Abbreviation Entry := (bytes * bytes)%type.
Abbreviation before := (before compare).

(** A child: its entries, and that it is an iterator over them. *)
Record child_spec := mkChild { ch_entries : list Entry; ch_laws : IteratorLaws I compare ch_entries }.

(** The wrapper [w] of child [s] is at entry [p]. *)
Definition wrapped (s : child_spec) (w : IteratorWrapper I) (p : option nat) : Prop :=
  exists it, w_iter w = Some it /\ at_index (IteratorLaws := ch_laws s) it p /\ w_valid w = bool_decide (is_Some p) /\
    forall j e, p = Some j -> ch_entries s !! j = Some e -> w_key w = e.1.

Lemma Update_wrapped s w it p :
  at_index (IteratorLaws := ch_laws s) it p -> exists w', wrapper_Update w it = Ret w' /\ wrapped s w' p.
Proof.
  intros Hp. pose proof (ch_laws s) as L. unfold wrapper_Update. rewrite (proj1 (at_valid (IteratorLaws := ch_laws s) it p Hp)).
  destruct p as [j|]; [|eexists; split; [done|]; exists it; repeat split; try done]. rewrite bool_decide_eq_true_2 by done.
  destruct (lookup_lt_is_Some_2 (ch_entries s) j) as [[k v] He]; [by apply (at_bound (IteratorLaws := ch_laws s) it j)|].
  destruct (at_entry (IteratorLaws := ch_laws s) it j k v Hp He) as [-> _]. cbn [obind]. eexists. split; [done|]. exists it. split; [done|]. split; [done|]. split; [done|]. intros j' e [= <-] He'. by rewrite He in He'; injection He' as <-.
Qed.

Lemma wrapper_move_wrapped s w p q f :
  wrapped s w p -> (forall it, at_index (IteratorLaws := ch_laws s) it p -> exists it', f it = Ret it' /\ at_index (IteratorLaws := ch_laws s) it' q) ->
  exists w', wrapper_move w f = Ret w' /\ wrapped s w' q.
Proof.
  intros (it & Hw & Hat & _) Hf. unfold wrapper_move. rewrite Hw. destruct (Hf it Hat) as (it' & -> & Hat'). cbn [obind]. by apply Update_wrapped.
Qed.

Lemma wrapped_Next s w j : wrapped s w (Some j) -> exists w', wrapper_Next w = Ret w' /\ wrapped s w' (index_of (length (ch_entries s)) (S j)).
Proof. intros Hw. eapply wrapper_move_wrapped; [exact Hw|]. intros it Hit. by apply (at_next (IteratorLaws := ch_laws s)). Qed.

Lemma wrapped_Prev s w j : wrapped s w (Some j) -> exists w', wrapper_Prev w = Ret w' /\ wrapped s w' (last_index j).
Proof.
  intros Hw. eapply wrapper_move_wrapped; [exact Hw|]. intros it Hit. destruct (at_prev (IteratorLaws := ch_laws s) it j Hit) as (it' & Hp & Hat). exists it'. split; [done|]. by destruct j.
Qed.

Lemma wrapped_First s w p : wrapped s w p -> exists w', wrapper_SeekToFirst w = Ret w' /\ wrapped s w' (index_of (length (ch_entries s)) 0).
Proof. intros Hw. eapply wrapper_move_wrapped; [exact Hw|]. intros it Hit. by eapply (at_first (IteratorLaws := ch_laws s)). Qed.

Lemma wrapped_Last s w p : wrapped s w p -> exists w', wrapper_SeekToLast w = Ret w' /\ wrapped s w' (last_index (length (ch_entries s))).
Proof. intros Hw. eapply wrapper_move_wrapped; [exact Hw|]. intros it Hit. by eapply (at_last (IteratorLaws := ch_laws s)). Qed.

Lemma wrapped_Seek s w p k : wrapped s w p -> seekable (IteratorLaws := ch_laws s) k ->
  exists w', wrapper_Seek w k = Ret w' /\ wrapped s w' (index_of (length (ch_entries s)) (cut (fun e => compare e.1 k < 0) (ch_entries s))).
Proof. intros Hw Hk. eapply wrapper_move_wrapped; [exact Hw|]. intros it Hit. by eapply (at_seek (IteratorLaws := ch_laws s)). Qed.

Lemma wrapped_key s w j e : wrapped s w (Some j) -> ch_entries s !! j = Some e -> wrapper_key w = Ret e.1 /\ wrapper_value w = Ret e.2.
Proof.
  intros (it & Hw & Hat & Hv & Hk) He. unfold wrapper_key, wrapper_value, wrapper_Valid. rewrite Hv, Hw. cbn. rewrite (Hk j e eq_refl He). split; [done|]. destruct e as [k v]. by apply (at_entry (IteratorLaws := ch_laws s) it j k v).
Qed.

Lemma wrapped_valid s w p : wrapped s w p -> wrapper_Valid w = bool_decide (is_Some p).
Proof. by intros (it & _ & _ & Hv & _). Qed.

(** *** Positions of all children *)

Context (specs : list child_spec) (es : list Entry).
Hypothesis es_sorted : StronglySorted before es.
Hypothesis es_merge : mjoin (ch_entries <$> specs) ≡ₚ es.
Hypothesis child_sorted : Forall (fun s => StronglySorted before (ch_entries s)) specs.
Hypothesis keys_seekable : forall s e, s ∈ specs -> e ∈ es -> seekable (IteratorLaws := ch_laws s) e.1.

Definition all_at (ws : list (IteratorWrapper I)) (pos : child_spec -> option nat) : Prop := Forall2 (fun w s => wrapped s w (pos s)) ws specs.

Definition somewhere (ws : list (IteratorWrapper I)) : Prop := Forall2 (fun w s => exists p, wrapped s w p) ws specs.

Lemma all_at_somewhere ws pos : all_at ws pos -> somewhere ws.
Proof. intros Ha. eapply Forall2_impl; [exact Ha|]. intros w s Hw. by exists (pos s). Qed.

Lemma all_at_ext ws pos pos' : (forall s, s ∈ specs -> pos s = pos' s) -> all_at ws pos -> all_at ws pos'.
Proof.
  intros He Ha. unfold all_at in *. rewrite Forall2_lookup in *. intros i. specialize (Ha i). destruct (specs !! i) as [s|] eqn:Es; inversion Ha as [w s' Hw|]; subst; constructor.
  rewrite <- He; [done|]. by eapply list_elem_of_lookup_2.
Qed.

Definition forward_of (low : Entry -> Prop) `{forall e, Decision (low e)} (s : child_spec) : option nat := index_of (length (ch_entries s)) (cut low (ch_entries s)).
Definition backward_of (low : Entry -> Prop) `{forall e, Decision (low e)} (s : child_spec) : option nat := last_index (cut low (ch_entries s)).

Lemma child_sub s e : s ∈ specs -> e ∈ ch_entries s -> e ∈ es.
Proof. intros Hs He. rewrite <- es_merge. apply list_elem_of_join. exists (ch_entries s). split; [done|]. by apply list_elem_of_fmap_2. Qed.

Lemma child_of e : e ∈ es -> exists i s, specs !! i = Some s /\ e ∈ ch_entries s.
Proof.
  intros He. rewrite <- es_merge in He. apply list_elem_of_join in He as (l & He & Hl). apply list_elem_of_fmap in Hl as (s & -> & Hs). apply list_elem_of_lookup in Hs as [i Hi]. by exists i, s.
Qed.

Lemma es_nodup : NoDup es.
Proof. by apply (before_NoDup compare). Qed.

(** An entry is in one child only. *)
Lemma child_unique i j s s' e : specs !! i = Some s -> specs !! j = Some s' -> e ∈ ch_entries s -> e ∈ ch_entries s' -> i = j.
Proof.
  intros Hi Hj He He'. assert (NoDup (mjoin (ch_entries <$> specs))) as Hnd by (rewrite es_merge; apply es_nodup).
  assert (forall (l : list (list Entry)) i j a b, NoDup (mjoin l) -> l !! i = Some a -> l !! j = Some b -> e ∈ a -> e ∈ b -> i = j) as Hgen.
  { clear. induction l as [|x l IH]; intros i j a b Hn Ha Hb Hea Heb; [done|]. change (mjoin (x :: l)) with (x ++ mjoin l) in Hn. apply NoDup_app in Hn as (_ & Hd & Hn).
    destruct i as [|i], j as [|j]; simpl in *; [done|exfalso|exfalso|f_equal; by eapply IH].
    - injection Ha as ->. apply (Hd e Hea). apply list_elem_of_join. exists b. split; [done|by eapply list_elem_of_lookup_2].
    - injection Hb as ->. apply (Hd e Heb). apply list_elem_of_join. exists a. split; [done|by eapply list_elem_of_lookup_2]. }
  apply (Hgen (ch_entries <$> specs) i j (ch_entries s) (ch_entries s')); [done|by rewrite list_lookup_fmap, Hi|by rewrite list_lookup_fmap, Hj|done|done].
Qed.

Lemma same_entry a b : a ∈ es -> b ∈ es -> compare a.1 b.1 = 0 -> a = b.
Proof.
  intros Ha Hb Hc. apply list_elem_of_lookup in Ha as [i Hi], Hb as [j Hj]. pose proof (sorted_index compare es es_sorted i j a b Hi Hj) as H1. pose proof (sorted_index compare es es_sorted j i b a Hj Hi) as H2.
  unfold MergingIterator.before in *. pose proof (cmp_antisym compare a.1 b.1). pose proof (cmp_antisym compare b.1 a.1). assert (i = j) as -> by lia. congruence.
Qed.

Lemma spec_sorted s : s ∈ specs -> StronglySorted before (ch_entries s).
Proof. intros Hs. rewrite Forall_forall in child_sorted. by apply child_sorted. Qed.

(** *** The smallest and the largest child *)

(** What the two searches compare: the entry a child is at. *)
Definition entry_at (s : child_spec) (p : option nat) : option Entry := p ≫= fun j => ch_entries s !! j.

Lemma wrapped_entry s w p : wrapped s w p ->
  match entry_at s p with
  | Some e => wrapper_Valid w = true /\ wrapper_key w = Ret e.1
  | None => wrapper_Valid w = false
  end.
Proof.
  intros Hw. rewrite (wrapped_valid s w p Hw). destruct p as [j|]; [|done]. cbn [entry_at mbind option_bind]. pose proof Hw as (it & _ & Hat & _).
  destruct (lookup_lt_is_Some_2 (ch_entries s) j) as [e He]; [by apply (at_bound (IteratorLaws := ch_laws s) it j)|]. rewrite He. split; [done|]. by apply (wrapped_key s w j e).
Qed.

(** The best of the children looked at so far: [better a b] allows [a] to be taken when [b]
    is there. *)
Definition best_of (better : Entry -> Entry -> Prop) (seen : list (nat * child_spec)) (pos : child_spec -> option nat) (r : option (nat * IteratorWrapper I)) : Prop :=
  match r with
  | None => forall i s, (i, s) ∈ seen -> entry_at s (pos s) = None
  | Some (i, w) => exists s e, (i, s) ∈ seen /\ entry_at s (pos s) = Some e /\ wrapper_key w = Ret e.1 /\
      forall j s' e', (j, s') ∈ seen -> entry_at s' (pos s') = Some e' -> better e e'
  end.

(** One round of either search. *)
Lemma best_of_step (better : Entry -> Entry -> Prop) (test : Z -> bool) seen pos r i s w :
  (forall a, better a a) -> (forall a b c, better a b -> better b c -> better a c) ->
  (forall a b, if test (compare a.1 b.1) then better a b else better b a) ->
  best_of better seen pos r -> wrapped s w (pos s) ->
  exists r', (if wrapper_Valid w then
      match r with
      | None => Ret (Some (i, w))
      | Some (n, best) => let! a := wrapper_key w in let! b := wrapper_key best in Ret (if test (compare a b) then Some (i, w) else Some (n, best))
      end else Ret r) = Ret r' /\ best_of better (seen ++ [(i, s)]) pos r'.
Proof.
  intros Hrefl Htrans Htest Hbest Hw. pose proof (wrapped_entry s w (pos s) Hw) as He.
  assert (forall j s', (j, s') ∈ seen ++ [(i, s)] <-> (j, s') ∈ seen \/ (j = i /\ s' = s)) as Hin by (intros; rewrite elem_of_app, list_elem_of_singleton; naive_solver).
  destruct (entry_at s (pos s)) as [e|] eqn:Ee.
  - destruct He as [-> Hk]. destruct r as [[n best]|].
    + destruct Hbest as (s0 & e0 & Hs0 & He0 & Hk0 & Hall). rewrite Hk, Hk0. cbn [obind]. specialize (Htest e e0). destruct (test (compare e.1 e0.1)); eexists; (split; [done|]).
      * exists s, e. split; [apply Hin; by right|]. split; [done|]. split; [done|]. intros j s' e' [Hj|[-> ->]]%Hin He'; [eapply Htrans; [exact Htest|by eapply Hall]|]. assert (e' = e) as -> by congruence. apply Hrefl.
      * exists s0, e0. split; [apply Hin; by left|]. split; [done|]. split; [done|]. intros j s' e' [Hj|[-> ->]]%Hin He'; [by eapply Hall|]. assert (e' = e) as -> by congruence. done.
    + eexists. split; [done|]. exists s, e. split; [apply Hin; by right|]. split; [done|]. split; [done|]. intros j s' e' [Hj|[-> ->]]%Hin He'; [by rewrite (Hbest j s' Hj) in He'|]. assert (e' = e) as -> by congruence. apply Hrefl.
  - rewrite He. exists r. split; [done|]. destruct r as [[n best]|].
    + destruct Hbest as (s0 & e0 & Hs0 & He0 & Hk0 & Hall). exists s0, e0. split; [apply Hin; by left|]. split; [done|]. split; [done|]. intros j s' e' [Hj|[-> ->]]%Hin He'; [by eapply Hall|congruence].
    + intros j s' [Hj|[-> ->]]%Hin; [by eapply Hbest|done].
Qed.

Definition no_later (a b : Entry) : Prop := compare a.1 b.1 <= 0.
Definition no_earlier (a b : Entry) : Prop := compare b.1 a.1 <= 0.

(** The child a search ends with. *)
Definition chosen (better : Entry -> Entry -> Prop) (pos : child_spec -> option nat) (c : option nat) : Prop :=
  match c with
  | None => forall s, s ∈ specs -> entry_at s (pos s) = None
  | Some i => exists s e, specs !! i = Some s /\ entry_at s (pos s) = Some e /\ forall s' e', s' ∈ specs -> entry_at s' (pos s') = Some e' -> better e e'
  end.

Definition numbered_specs (l : list child_spec) : list (nat * child_spec) := imap (fun i s => (i, s)) l.

Lemma numbered_specs_elem l i s : (i, s) ∈ numbered_specs l <-> l !! i = Some s.
Proof.
  unfold numbered_specs. rewrite list_elem_of_lookup. split.
  - intros [j Hj]. rewrite list_lookup_imap in Hj. destruct (l !! j) as [x|] eqn:Ex; [|done]. by injection Hj as <- <-.
  - intros Hi. exists i. rewrite list_lookup_imap, Hi. done.
Qed.

Lemma best_chosen better seen pos r : (forall i s, (i, s) ∈ seen <-> specs !! i = Some s) -> best_of better seen pos r -> chosen better pos (fst <$> r).
Proof.
  intros Hseen Hb. destruct r as [[i w]|]; cbn [fmap option_fmap option_map fst].
  - destruct Hb as (s & e & Hs & He & _ & Hall). exists s, e. split; [by apply Hseen|]. split; [done|]. intros s' e' [j Hj]%list_elem_of_lookup He'. apply (Hall j s' e'); [by apply Hseen|done].
  - intros s [j Hj]%list_elem_of_lookup. apply (Hb j). by apply Hseen.
Qed.

Lemma smallest_loop_spec pos pre rest ws r :
  specs = pre ++ rest -> Forall2 (fun w s => wrapped s w (pos s)) ws rest -> best_of no_later (numbered_specs pre) pos r ->
  exists c, smallest_loop compare (length pre) ws r = Ret c /\ chosen no_later pos c.
Proof.
  intros Hs Hws. revert pre r Hs. induction Hws as [|w s ws rest Hw Hws IH]; intros pre r Hs Hb; cbn [smallest_loop].
  { eexists. split; [done|]. apply (best_chosen _ (numbered_specs pre)); [|done]. intros i s. rewrite numbered_specs_elem, Hs, app_nil_r. done. }
  destruct (best_of_step no_later (fun z => z <? 0) (numbered_specs pre) pos r (length pre) s w) as (r' & -> & Hb'); try done.
  - intros a. unfold no_later. rewrite (cmp_refl compare). lia.
  - intros a b c. apply (cmp_trans compare).
  - intros a b. unfold no_later. destruct (Z.ltb_spec (compare a.1 b.1) 0); [lia|]. pose proof (cmp_antisym compare b.1 a.1). pose proof (cmp_antisym compare a.1 b.1). lia.
  - cbn [obind]. replace (S (length pre)) with (length (pre ++ [s])) by (rewrite length_app; simpl; lia). apply IH; [by rewrite <- app_assoc|].
    unfold numbered_specs in *. rewrite imap_app. cbn. by rewrite Nat.add_0_r.
Qed.

Lemma FindSmallest_chosen ws pos : all_at ws pos -> exists c, FindSmallest compare ws = Ret c /\ chosen no_later pos c.
Proof. intros Ha. apply (smallest_loop_spec pos [] specs ws None); [done|done|]. intros i s Hi. by apply not_elem_of_nil in Hi. Qed.

Lemma largest_loop_spec pos pre rest ws seen r :
  specs = pre ++ rest -> Forall2 (fun w s => wrapped s w (pos s)) ws pre ->
  (forall i s, (i, s) ∈ seen <-> (length pre <= i)%nat /\ specs !! i = Some s) -> best_of no_earlier seen pos r ->
  exists c, largest_loop_down compare (length pre) (rev ws) r = Ret c /\ chosen no_earlier pos c.
Proof.
  revert rest ws seen r. induction pre as [|s pre IH] using rev_ind; intros rest ws seen r Hs Hws Hseen Hb.
  { apply Forall2_nil_inv_r in Hws as ->. cbn. eexists. split; [done|]. apply (best_chosen _ seen); [|done]. intros i s. rewrite Hseen. simpl. split; [tauto|]. intros. split; [lia|done]. }
  apply Forall2_app_inv_r in Hws as (ws1 & ws2 & Hws1 & Hws2 & ->). apply Forall2_cons_inv_r in Hws2 as (w & ws3 & Hw & Hws3 & ->). apply Forall2_nil_inv_r in Hws3 as ->.
  rewrite rev_unit, length_app. cbn [length]. rewrite Nat.add_1_r. cbn [largest_loop_down pred].
  destruct (best_of_step no_earlier (fun z => 0 <? z) seen pos r (length pre) s w) as (r' & -> & Hb'); try done.
  - intros a. unfold no_earlier. rewrite (cmp_refl compare). lia.
  - intros a b c Hab Hbc. unfold no_earlier in *. by eapply (cmp_trans compare).
  - intros a b. unfold no_earlier. destruct (Z.ltb_spec 0 (compare a.1 b.1)) as [Hlt|]; [apply (cmp_antisym compare) in Hlt; lia|lia].
  - cbn [obind]. apply (IH (s :: rest) ws1 (seen ++ [(length pre, s)])); [by rewrite Hs, <- app_assoc|done| |done].
    intros i s'. rewrite elem_of_app, list_elem_of_singleton, Hseen, length_app. cbn [length]. rewrite Hs. split.
    + intros [[Hi Hl]|[= -> ->]]; [split; [lia|done]|]. split; [lia|]. rewrite <- app_assoc. cbn [app]. by rewrite list_lookup_middle.
    + intros [Hi Hl]. destruct (decide (i = length pre)) as [->|Hne]; [|left; split; [lia|done]]. right. rewrite <- app_assoc in Hl. cbn [app] in Hl. rewrite list_lookup_middle in Hl by done. by injection Hl as <-.
Qed.

Lemma FindLargest_chosen ws pos : all_at ws pos -> exists c, FindLargest compare ws = Ret c /\ chosen no_earlier pos c.
Proof.
  intros Ha. unfold FindLargest. rewrite (Forall2_length _ _ _ Ha). apply (largest_loop_spec pos specs [] ws [] None); [by rewrite app_nil_r|done| |].
  - intros i s. rewrite elem_of_nil. split; [done|]. intros [Hi Hl]. apply lookup_lt_Some in Hl. lia.
  - intros i s Hi. by apply not_elem_of_nil in Hi.
Qed.

(** *** The invariant *)

(** At entry [e] of the merge: moving forward, every child is at its first entry from [e] on;
    moving backward, at its last entry up to [e]. *)
Definition merging_at (m : MergingIterator I) (p : option nat) : Prop :=
  match p with
  | None => current_ m = None /\ somewhere (children_ m)
  | Some j => exists e i s, es !! j = Some e /\ current_ m = Some i /\ specs !! i = Some s /\ e ∈ ch_entries s /\
      all_at (children_ m) (match direction_ m with kForward => forward_of (fun x => compare x.1 e.1 < 0) | kReverse => backward_of (fun x => compare x.1 e.1 <= 0) end)
  end.

Lemma cmp_eq a b : compare a b <= 0 -> compare b a <= 0 -> compare a b = 0.
Proof. pose proof (cmp_antisym compare a b). pose proof (cmp_antisym compare b a). lia. Qed.

Lemma entry_forward low `{forall e, Decision (low e)} s : entry_at s (forward_of low s) = ch_entries s !! cut low (ch_entries s).
Proof. unfold entry_at, forward_of, index_of. destruct (Nat.ltb_spec (cut low (ch_entries s)) (length (ch_entries s))); [done|]. symmetry. by apply lookup_ge_None_2. Qed.

Lemma settle_forward low `{forall e, Decision (low e)} ws :
  closed_down compare low -> all_at ws (forward_of low) ->
  exists c, FindSmallest compare ws = Ret c /\ merging_at (mkMerging ws c kForward) (index_of (length es) (cut low es)).
Proof.
  intros Hlow Ha. destruct (FindSmallest_chosen ws _ Ha) as (c & Hc & Hch). exists c. split; [done|]. unfold index_of.
  destruct (Nat.ltb_spec (cut low es) (length es)) as [Hlt|Hge].
  - destruct (lookup_lt_is_Some_2 es (cut low es) Hlt) as [e0 He0]. pose proof (cut_lookup compare low Hlow es es_sorted _ e0 He0) as Hn0.
    assert (e0 ∈ es) as Hin0 by (by eapply list_elem_of_lookup_2). destruct (child_of e0 Hin0) as (i0 & s0 & Hi0 & He0s). assert (s0 ∈ specs) as Hs0 by (by eapply list_elem_of_lookup_2).
    pose proof (cut_nonlow compare low Hlow (ch_entries s0) (spec_sorted s0 Hs0) e0 He0s ltac:(intros Hlo; apply Hn0 in Hlo; lia)) as Hlt0. destruct (lookup_lt_is_Some_2 (ch_entries s0) _ Hlt0) as [x Hx].
    destruct c as [i|]; [|specialize (Hch s0 Hs0); rewrite entry_forward, Hx in Hch; done]. destruct Hch as (s & e & Hi & He & Hbest). assert (s ∈ specs) as Hss by (by eapply list_elem_of_lookup_2).
    rewrite entry_forward in He. assert (e ∈ ch_entries s) as Hes by (by eapply list_elem_of_lookup_2). assert (e ∈ es) as Hees by (by eapply child_sub).
    assert (e = e0) as ->.
    { apply same_entry; [done|done|]. apply cmp_eq.
      - eapply (cmp_trans compare); [apply (Hbest s0 x Hs0); by rewrite entry_forward|]. apply (cut_front_le compare low Hlow (ch_entries s0) (spec_sorted s0 Hs0) x e0 Hx He0s). by apply (cut_lookup_not compare low Hlow es es_sorted e0 (cut low es)).
      - apply (cut_front_le compare low Hlow es es_sorted e0 e He0 Hees). by apply (cut_lookup_not compare low Hlow (ch_entries s) (spec_sorted s Hss) e (cut low (ch_entries s))). }
    exists e0, i, s. split; [done|]. split; [done|]. split; [done|]. split; [done|]. cbn [direction_ children_]. eapply all_at_ext; [|exact Ha]. intros s' Hs'. unfold forward_of. f_equal.
    apply cut_ext. intros y Hy. apply (cut_front compare low Hlow es es_sorted); [done|by eapply child_sub].
  - destruct c as [i|]; [|by split; [done|]; eapply all_at_somewhere]. exfalso. destruct Hch as (s & e & Hi & He & _). assert (s ∈ specs) as Hss by (by eapply list_elem_of_lookup_2). rewrite entry_forward in He.
    pose proof (cut_lookup compare low Hlow (ch_entries s) (spec_sorted s Hss) _ e He) as Hn. assert (e ∈ es) as Hees by (eapply child_sub; [done|by eapply list_elem_of_lookup_2]).
    pose proof (cut_nonlow compare low Hlow es es_sorted e Hees ltac:(intros Hlo; apply Hn in Hlo; lia)). lia.
Qed.

Lemma entry_backward low `{forall e, Decision (low e)} s :
  entry_at s (backward_of low s) = if (0 <? cut low (ch_entries s))%nat then ch_entries s !! pred (cut low (ch_entries s)) else None.
Proof. unfold entry_at, backward_of, last_index. by destruct (cut low (ch_entries s)). Qed.

Lemma settle_backward low `{forall e, Decision (low e)} ws :
  closed_down compare low -> all_at ws (backward_of low) ->
  exists c, FindLargest compare ws = Ret c /\ merging_at (mkMerging ws c kReverse) (last_index (cut low es)).
Proof.
  intros Hlow Ha. destruct (FindLargest_chosen ws _ Ha) as (c & Hc & Hch). exists c. split; [done|].
  destruct (Nat.ltb_spec 0 (cut low es)) as [Hlt|Hge].
  - assert (last_index (cut low es) = Some (pred (cut low es))) as -> by (unfold last_index; by destruct (cut low es); [lia|]). pose proof (cut_le low es) as Hle.
    destruct (lookup_lt_is_Some_2 es (pred (cut low es))) as [e0 He0]; [lia|]. pose proof (cut_lookup compare low Hlow es es_sorted _ e0 He0) as Hn0.
    assert (e0 ∈ es) as Hin0 by (by eapply list_elem_of_lookup_2). destruct (child_of e0 Hin0) as (i0 & s0 & Hi0 & He0s). assert (s0 ∈ specs) as Hs0 by (by eapply list_elem_of_lookup_2).
    pose proof (cut_low compare low Hlow (ch_entries s0) (spec_sorted s0 Hs0) e0 He0s ltac:(apply Hn0; lia)) as Hlt0. pose proof (cut_le low (ch_entries s0)). destruct (lookup_lt_is_Some_2 (ch_entries s0) (pred (cut low (ch_entries s0)))) as [x Hx]; [lia|].
    assert (entry_at s0 (backward_of low s0) = Some x) as Hx0 by (rewrite entry_backward; by destruct (Nat.ltb_spec 0 (cut low (ch_entries s0))); [|lia]).
    destruct c as [i|]; [|specialize (Hch s0 Hs0); congruence]. destruct Hch as (s & e & Hi & He & Hbest). assert (s ∈ specs) as Hss by (by eapply list_elem_of_lookup_2).
    rewrite entry_backward in He. destruct (Nat.ltb_spec 0 (cut low (ch_entries s))) as [Hpos|]; [|done]. assert (e ∈ ch_entries s) as Hes by (by eapply list_elem_of_lookup_2). assert (e ∈ es) as Hees by (by eapply child_sub).
    assert (e = e0) as ->.
    { apply same_entry; [done|done|]. apply cmp_eq.
      - apply (cut_back compare low Hlow es es_sorted e0 e He0 Hlt Hees). apply (cut_lookup compare low Hlow (ch_entries s) (spec_sorted s Hss) _ e He). lia.
      - eapply (cmp_trans compare); [|exact (Hbest s0 x Hs0 Hx0)]. apply (cut_back compare low Hlow (ch_entries s0) (spec_sorted s0 Hs0) x e0 Hx Hlt0 He0s). apply Hn0. lia. }
    exists e0, i, s. split; [done|]. split; [done|]. split; [done|]. split; [done|]. cbn [direction_ children_]. eapply all_at_ext; [|exact Ha]. intros s' Hs'. unfold backward_of. f_equal.
    apply cut_ext. intros y Hy. apply (cut_back compare low Hlow es es_sorted); [done|done|by eapply child_sub].
  - assert (cut low es = 0%nat) as -> by lia. destruct c as [i|]; [|by split; [done|]; eapply all_at_somewhere]. exfalso. destruct Hch as (s & e & Hi & He & _). assert (s ∈ specs) as Hss by (by eapply list_elem_of_lookup_2).
    rewrite entry_backward in He. destruct (Nat.ltb_spec 0 (cut low (ch_entries s))) as [Hpos|]; [|done].
    pose proof (cut_lookup compare low Hlow (ch_entries s) (spec_sorted s Hss) _ e He) as Hn. assert (e ∈ es) as Hees by (eapply child_sub; [done|by eapply list_elem_of_lookup_2]).
    pose proof (cut_low compare low Hlow es es_sorted e Hees ltac:(apply Hn; lia)). lia.
Qed.

(** *** Moving the children *)

Lemma each_child_spec f ws (R : child_spec -> IteratorWrapper I -> Prop) pos :
  (forall w s, s ∈ specs -> R s w -> exists w', f w = Ret w' /\ wrapped s w' (pos s)) -> Forall2 (fun w s => R s w) ws specs ->
  exists ws', each_child f ws = Ret ws' /\ all_at ws' pos.
Proof.
  intros Hf. unfold all_at. assert (specs ⊆ specs) as Hsub by done. revert Hsub Hf. generalize specs at 1 4 5 as l. intros l Hsub Hf Hws. induction Hws as [|w s ws l Hw Hws IH]; cbn [each_child]; [by exists []|].
  destruct (Hf w s ltac:(set_solver) Hw) as (w' & -> & Hw'). cbn [obind]. destruct IH as (ws' & -> & Hws'); [set_solver|]. cbn [obind]. eexists. split; [done|]. by constructor.
Qed.

Lemma each_other_spec f ws pos cur :
  (forall j w s p, j ≠ cur -> specs !! j = Some s -> wrapped s w p -> exists w', f w = Ret w' /\ wrapped s w' (pos s)) -> somewhere ws ->
  (forall w s, ws !! cur = Some w -> specs !! cur = Some s -> wrapped s w (pos s)) ->
  exists ws', each_other f cur 0 ws = Ret ws' /\ all_at ws' pos.
Proof.
  intros Hf Hws Hcur. unfold all_at.
  assert (forall l ws i, Forall2 (fun w s => exists p, wrapped s w p) ws l -> (forall j s, l !! j = Some s -> specs !! (i + j)%nat = Some s) ->
    (forall j w s, (i + j = cur)%nat -> ws !! j = Some w -> l !! j = Some s -> wrapped s w (pos s)) ->
    exists ws', each_other f cur i ws = Ret ws' /\ Forall2 (fun w s => wrapped s w (pos s)) ws' l) as Hgen.
  { clear Hws Hcur ws. intros l ws i Hws. revert i. induction Hws as [|w s ws l (p & Hw) Hws IH]; intros i Hsub Hc; cbn [each_other]; [by exists []|].
    assert (exists w', (if bool_decide (i = cur) then Ret w else f w) = Ret w' /\ wrapped s w' (pos s)) as (w' & -> & Hw').
    { case_bool_decide as Hi; [exists w; split; [done|]; apply (Hc 0%nat); [lia|done|done]|]. apply (Hf i w s p Hi); [|done]. rewrite <- (Nat.add_0_r i). by apply Hsub. }
    cbn [obind]. destruct (IH (S i)) as (ws' & -> & Hws'); [| |cbn [obind]; eexists; split; [done|by constructor]].
    - intros j s0 Hs0. replace (S i + j)%nat with (i + S j)%nat by lia. by apply Hsub.
    - intros j w0 s0 Hj Hw0 Hs0. apply (Hc (S j)); [lia|done|done]. }
  apply (Hgen specs ws 0%nat); [done|done|]. intros j w s <- Hw Hs. by apply Hcur.
Qed.

Lemma move_current_spec f ws pos q i s w' w :
  all_at ws pos -> specs !! i = Some s -> ws !! i = Some w -> f w = Ret w' -> wrapped s w' (q s) ->
  (forall j s', j ≠ i -> specs !! j = Some s' -> pos s' = q s') ->
  exists ws', move_current ws i f = Ret ws' /\ all_at ws' q.
Proof.
  intros Ha Hs Hw Hf Hw' Hother. unfold move_current. rewrite Hw, Hf. cbn [obind]. eexists. split; [done|]. unfold all_at in *. rewrite Forall2_lookup in *. intros j. destruct (decide (j = i)) as [->|Hne].
  - rewrite list_lookup_insert_eq by (by eapply lookup_lt_Some). rewrite Hs. by constructor.
  - rewrite list_lookup_insert_ne by done. specialize (Ha j). destruct (specs !! j) as [s'|] eqn:Es; inversion Ha as [x y Hx|]; subst; constructor. by rewrite <- (Hother j s').
Qed.

Lemma current_wrapper ws pos i s : all_at ws pos -> specs !! i = Some s -> exists w, ws !! i = Some w /\ wrapped s w (pos s).
Proof. intros Ha Hs. destruct (Forall2_lookup_r _ _ _ _ _ Ha Hs) as (w & Hw & Hwr). by exists w. Qed.

(** The child that holds [e] is at [e], in both directions; the others have no entry with
    its key. *)
Lemma at_self s e : s ∈ specs -> e ∈ ch_entries s ->
  forward_of (fun x => compare x.1 e.1 < 0) s = Some (cut (fun x => compare x.1 e.1 < 0) (ch_entries s)) /\
  backward_of (fun x => compare x.1 e.1 <= 0) s = Some (cut (fun x => compare x.1 e.1 < 0) (ch_entries s)) /\
  ch_entries s !! cut (fun x => compare x.1 e.1 < 0) (ch_entries s) = Some e /\
  cut (fun x => compare x.1 e.1 <= 0) (ch_entries s) = S (cut (fun x => compare x.1 e.1 < 0) (ch_entries s)).
Proof.
  intros Hs He. destruct (cut_self compare (ch_entries s) e (spec_sorted s Hs) He) as [Hself Hnext]. unfold forward_of, backward_of, index_of. rewrite Hnext. apply lookup_lt_Some in Hself as Hlt.
  destruct (Nat.ltb_spec (cut (fun x => compare x.1 e.1 < 0) (ch_entries s)) (length (ch_entries s))); [done|lia].
Qed.

Lemma cut_other i j s s' e : specs !! i = Some s -> specs !! j = Some s' -> j ≠ i -> e ∈ ch_entries s ->
  cut (fun x => compare x.1 e.1 < 0) (ch_entries s') = cut (fun x => compare x.1 e.1 <= 0) (ch_entries s').
Proof.
  intros Hi Hj Hne He. apply cut_ext. intros y Hy. split; [lia|]. intros Hle. destruct (Z.eq_dec (compare y.1 e.1) 0) as [Heq|]; [exfalso|lia].
  assert (s ∈ specs) by (by eapply list_elem_of_lookup_2). assert (s' ∈ specs) by (by eapply list_elem_of_lookup_2).
  assert (y = e) as -> by (apply same_entry; [by apply (child_sub s')|by apply (child_sub s)|done]). apply Hne. symmetry. by eapply child_unique.
Qed.
(** *** The calls *)

Lemma at_es j e : es !! j = Some e -> cut (fun x => compare x.1 e.1 < 0) es = j /\ cut (fun x => compare x.1 e.1 <= 0) es = S j.
Proof.
  intros Hj. destruct (cut_self compare es e es_sorted) as [Hc Hn]; [by eapply list_elem_of_lookup_2|]. rewrite Hn.
  assert (cut (fun x => compare x.1 e.1 < 0) es = j) as -> by (eapply NoDup_lookup; [apply es_nodup|done|done]). done.
Qed.

(** The current child is at the entry of the merge. *)
Lemma current_at m j : merging_at m (Some j) -> exists e i s w,
  es !! j = Some e /\ current_ m = Some i /\ specs !! i = Some s /\ e ∈ ch_entries s /\ children_ m !! i = Some w /\
  wrapped s w (Some (cut (fun x => compare x.1 e.1 < 0) (ch_entries s))) /\ somewhere (children_ m).
Proof.
  intros (e & i & s & He & Hc & Hi & Hes & Ha). assert (s ∈ specs) as Hs by (by eapply list_elem_of_lookup_2). destruct (at_self s e Hs Hes) as (Hf & Hb & _).
  destruct (current_wrapper _ _ _ _ Ha Hi) as (w & Hw & Hwr). exists e, i, s, w. repeat split; try done; [|by eapply all_at_somewhere]. destruct (direction_ m); congruence.
Qed.

Lemma merging_at_somewhere m p : merging_at m p -> somewhere (children_ m).
Proof. destruct p as [j|]; [|by intros [_ ?]]. by intros (e & i & s & w & _ & _ & _ & _ & _ & _ & ?)%current_at. Qed.

Lemma merging_key_at m j e : merging_at m (Some j) -> es !! j = Some e -> merging_key m = Ret e.1 /\ merging_value m = Ret e.2.
Proof.
  intros Hm He. destruct (current_at m j Hm) as (e' & i & s & w & He' & Hc & Hi & Hes & Hw & Hwr & _). assert (e' = e) as -> by congruence.
  unfold merging_key, merging_value, current_child. rewrite Hc, Hw. cbn [obind]. eapply wrapped_key; [exact Hwr|]. apply at_self; [by eapply list_elem_of_lookup_2|done].
Qed.

(** A child other than the current one has no entry with the current key: seeking that key
    and not finding it leaves it at its first entry after it. *)
Lemma after_key_child_spec i j s s' e w p : specs !! i = Some s -> e ∈ ch_entries s -> j ≠ i -> specs !! j = Some s' -> wrapped s' w p ->
  exists w', after_key_child compare e.1 w = Ret w' /\ wrapped s' w' (forward_of (fun x => compare x.1 e.1 < 0) s').
Proof.
  intros Hi He Hne Hj Hw. assert (s ∈ specs) as Hs by (by eapply list_elem_of_lookup_2). assert (s' ∈ specs) as Hs' by (by eapply list_elem_of_lookup_2). assert (e ∈ es) as Hees by (by apply (child_sub s)).
  unfold after_key_child. destruct (wrapped_Seek s' w p e.1 Hw) as (w' & -> & Hw'); [by apply keys_seekable|]. cbn [obind]. pose proof (wrapped_entry _ _ _ Hw') as Hx. fold (forward_of (fun x => compare x.1 e.1 < 0) s') in Hw', Hx.
  destruct (entry_at s' _) as [x|] eqn:Ex; [destruct Hx as [-> ->]; cbn [obind]|rewrite Hx; by exists w'].
  destruct (Z.eqb_spec (compare e.1 x.1) 0) as [Heq|]; [exfalso|by exists w']. rewrite entry_forward in Ex. apply list_elem_of_lookup_2 in Ex.
  assert (e = x) as <- by (apply same_entry; [done|by apply (child_sub s')|done]). apply Hne. by eapply child_unique.
Qed.

Lemma before_key_child_spec s' e w p : s' ∈ specs -> e ∈ es -> wrapped s' w p ->
  exists w', before_key_child e.1 w = Ret w' /\ wrapped s' w' (backward_of (fun x => compare x.1 e.1 < 0) s').
Proof.
  intros Hs' He Hw. unfold before_key_child, backward_of. destruct (wrapped_Seek s' w p e.1 Hw) as (w' & -> & Hw'); [by apply keys_seekable|]. cbn [obind].
  rewrite (wrapped_valid _ _ _ Hw'). pose proof (cut_le (fun x => compare x.1 e.1 < 0) (ch_entries s')) as Hle. unfold index_of in *.
  destruct (Nat.ltb_spec (cut (fun x => compare x.1 e.1 < 0) (ch_entries s')) (length (ch_entries s'))) as [|Hge]; case_bool_decide as Hv; try (by destruct Hv); [by apply wrapped_Prev|].
  destruct (wrapped_Last s' w' _ Hw') as (w2 & -> & Hw2). exists w2. split; [done|]. by replace (cut (fun x => compare x.1 e.1 < 0) (ch_entries s')) with (length (ch_entries s')) by lia.
Qed.

Lemma merging_Next_at m j : merging_at m (Some j) -> exists m', merging_Next compare m = Ret m' /\ merging_at m' (index_of (length es) (S j)).
Proof.
  intros Hm. destruct (current_at m j Hm) as (e & i & s & w & He & Hc & Hi & Hes & Hw & Hwr & Hsw). assert (s ∈ specs) as Hs by (by eapply list_elem_of_lookup_2). destruct (at_self s e Hs Hes) as (Hf & _ & _ & Hcut).
  destruct (merging_key_at m j e Hm He) as [Hk _]. unfold merging_Next. rewrite Hc, Hk. cbn [obind].
  assert (exists ws, match direction_ m with kForward => Ret (children_ m) | kReverse => each_other (after_key_child compare e.1) i 0 (children_ m) end = Ret ws /\ all_at ws (forward_of (fun x => compare x.1 e.1 < 0))) as (ws & -> & Ha).
  { destruct Hm as (e' & i' & s' & He' & Hc' & Hi' & Hes' & Ha). assert (e' = e) as -> by congruence. destruct (direction_ m); [by eexists|].
    apply each_other_spec; [|done|].
    - intros k w0 s0 p Hk0 Hs0 Hw0. by apply (after_key_child_spec i k s s0 e w0 p).
    - intros w0 s0 Hw0 Hs0. assert (w0 = w) as -> by congruence. assert (s0 = s) as -> by congruence. by rewrite Hf. }
  cbn [obind]. destruct (current_wrapper _ _ _ _ Ha Hi) as (w2 & Hw2 & Hwr2). rewrite Hf in Hwr2. destruct (wrapped_Next s w2 _ Hwr2) as (w3 & Hw3 & Hwr3). rewrite <- Hcut in Hwr3.
  destruct (move_current_spec wrapper_Next ws _ (forward_of (fun x => compare x.1 e.1 <= 0)) i s w3 w2 Ha Hi Hw2 Hw3 Hwr3) as (ws' & -> & Ha').
  { intros k s' Hk0 Hs'. unfold forward_of. f_equal. by apply (cut_other i k s s' e). }
  cbn [obind]. destruct (settle_forward _ ws' (closed_le compare e.1) Ha') as (c & -> & Hm'). cbn [obind]. eexists. split; [done|]. by rewrite (proj2 (at_es j e He)) in Hm'.
Qed.

Lemma merging_Prev_at m j : merging_at m (Some j) -> exists m', merging_Prev compare m = Ret m' /\ merging_at m' (last_index j).
Proof.
  intros Hm. destruct (current_at m j Hm) as (e & i & s & w & He & Hc & Hi & Hes & Hw & Hwr & Hsw). assert (s ∈ specs) as Hs by (by eapply list_elem_of_lookup_2). destruct (at_self s e Hs Hes) as (_ & Hf & _ & Hcut).
  destruct (merging_key_at m j e Hm He) as [Hk _]. unfold merging_Prev. rewrite Hc, Hk. cbn [obind].
  assert (exists ws, match direction_ m with kReverse => Ret (children_ m) | kForward => each_other (before_key_child e.1) i 0 (children_ m) end = Ret ws /\ all_at ws (backward_of (fun x => compare x.1 e.1 <= 0))) as (ws & -> & Ha).
  { destruct Hm as (e' & i' & s' & He' & Hc' & Hi' & Hes' & Ha). assert (e' = e) as -> by congruence. destruct (direction_ m); [|by eexists].
    apply each_other_spec; [|done|].
    - intros k w0 s0 p Hk0 Hs0 Hw0. destruct (before_key_child_spec s0 e w0 p) as (w1 & Hw1 & Hwr1); [by eapply list_elem_of_lookup_2|by apply (child_sub s)|done|]. exists w1. split; [done|]. unfold backward_of in *. by rewrite <- (cut_other i k s s0 e).
    - intros w0 s0 Hw0 Hs0. assert (w0 = w) as -> by congruence. assert (s0 = s) as -> by congruence. by rewrite Hf. }
  cbn [obind]. destruct (current_wrapper _ _ _ _ Ha Hi) as (w2 & Hw2 & Hwr2). rewrite Hf in Hwr2. destruct (wrapped_Prev s w2 _ Hwr2) as (w3 & Hw3 & Hwr3).
  destruct (move_current_spec wrapper_Prev ws _ (backward_of (fun x => compare x.1 e.1 < 0)) i s w3 w2 Ha Hi Hw2 Hw3 Hwr3) as (ws' & -> & Ha').
  { intros k s' Hk0 Hs'. unfold backward_of. f_equal. symmetry. by apply (cut_other i k s s' e). }
  cbn [obind]. destruct (settle_backward _ ws' (closed_lt compare e.1) Ha') as (c & -> & Hm'). cbn [obind]. eexists. split; [done|]. by rewrite (proj1 (at_es j e He)) in Hm'.
Qed.

Lemma merging_SeekToFirst_at m p : merging_at m p -> exists m', merging_SeekToFirst compare m = Ret m' /\ merging_at m' (index_of (length es) 0).
Proof.
  intros Hm%merging_at_somewhere. unfold merging_SeekToFirst. assert (forall l, cut (fun _ : Entry => False) l = 0%nat) as Hc by (intros l; induction l; done).
  destruct (each_child_spec wrapper_SeekToFirst (children_ m) (fun s w => exists p, wrapped s w p) (forward_of (fun _ => False))) as (ws & -> & Ha); [|done|].
  { intros w s _ (q & Hq). unfold forward_of. rewrite Hc. by eapply wrapped_First. }
  cbn [obind]. destruct (settle_forward (fun _ => False) ws (fun _ _ _ Hx => Hx) Ha) as (c & -> & Hm'). cbn [obind]. eexists. split; [done|]. by rewrite Hc in Hm'.
Qed.

Lemma merging_SeekToLast_at m p : merging_at m p -> exists m', merging_SeekToLast compare m = Ret m' /\ merging_at m' (last_index (length es)).
Proof.
  intros Hm%merging_at_somewhere. unfold merging_SeekToLast. assert (forall l, cut (fun _ : Entry => True) l = length l) as Hc by (intros l; induction l as [|x l IH]; [done|]; unfold cut in *; rewrite filter_cons_True by done; cbn [length]; by rewrite IH).
  destruct (each_child_spec wrapper_SeekToLast (children_ m) (fun s w => exists p, wrapped s w p) (backward_of (fun _ => True))) as (ws & -> & Ha); [|done|].
  { intros w s _ (q & Hq). unfold backward_of. rewrite Hc. by eapply wrapped_Last. }
  cbn [obind]. destruct (settle_backward (fun _ => True) ws (fun _ _ _ _ => Logic.I) Ha) as (c & -> & Hm'). cbn [obind]. eexists. split; [done|]. by rewrite Hc in Hm'.
Qed.

Lemma merging_Seek_at m p k : merging_at m p -> Forall (fun s => seekable (IteratorLaws := ch_laws s) k) specs ->
  exists m', merging_Seek compare m k = Ret m' /\ merging_at m' (index_of (length es) (cut (fun e => compare e.1 k < 0) es)).
Proof.
  intros Hm%merging_at_somewhere Hk. rewrite Forall_forall in Hk. unfold merging_Seek.
  destruct (each_child_spec (fun w => wrapper_Seek w k) (children_ m) (fun s w => exists p, wrapped s w p) (forward_of (fun e => compare e.1 k < 0))) as (ws & -> & Ha); [|done|].
  { intros w s Hs (q & Hq). eapply wrapped_Seek; [done|by apply Hk]. }
  cbn [obind]. destruct (settle_forward _ ws (closed_lt compare k) Ha) as (c & -> & Hm'). cbn [obind]. by eexists.
Qed.

Lemma children_status_ok ws : somewhere ws -> children_status ws OK = OK.
Proof.
  unfold somewhere. generalize specs as l. induction 1 as [|w s ws l (p & it & Hit & Hat & _) Hws IH]; [done|]. cbn [children_status]. rewrite Hit. destruct (at_valid (IteratorLaws := ch_laws s) it p Hat) as [_ ->]. done.
Qed.

#[refine] Definition Merging_IteratorLaws : IteratorLaws (MergingIterator I) (H := Merging_Iterator compare) compare es := {|
  at_index := merging_at;
  seekable k := Forall (fun s => seekable (IteratorLaws := ch_laws s) k) specs;
|}.
Proof.
  - intros m p Hm. split; [|apply children_status_ok; by eapply merging_at_somewhere]. cbn [it_Valid Merging_Iterator]. unfold merging_Valid.
    destruct p as [j|]; [destruct Hm as (e & i & s & _ & -> & _)|destruct Hm as [-> _]]; done.
  - intros m j (e & i & s & He & _). by eapply lookup_lt_Some.
  - intros m j k v Hm He. exact (merging_key_at m j (k, v) Hm He).
  - exact merging_Next_at.
  - exact merging_Prev_at.
  - exact merging_SeekToFirst_at.
  - exact merging_SeekToLast_at.
  - exact merging_Seek_at.
Defined.

(** A new merge: every child where its iterator is. *)
Lemma new_MergingIterator_at iters : Forall2 (fun it s => exists p, at_index (IteratorLaws := ch_laws s) it p) iters specs ->
  exists m, new_MergingIterator iters = Ret m /\ merging_at m None.
Proof.
  intros Hit. unfold new_MergingIterator.
  assert (exists ws, set_children iters = Ret ws /\ somewhere ws) as (ws & -> & Hws); [|cbn [obind]; eexists; split; [done|]; by split].
  unfold somewhere. revert Hit. generalize specs as l. induction 1 as [|it s iters l (p & Hp) Hit IH]; cbn [set_children]; [by eexists|].
  destruct (Update_wrapped s new_IteratorWrapper it p Hp) as (w & Hw & Hwr). cbn [wrapper_Set]. rewrite Hw. destruct IH as (ws & -> & Hws). cbn [obind]. eexists. split; [done|]. constructor; [by exists p|done].
Qed.
End MergeLaws.

Arguments child_spec I {_} compare.
Arguments mkChild {I _ compare} _ _.
Arguments ch_entries {I _ compare} _.
Arguments ch_laws {I _ compare} _.

(** ** The merged sequence *)

Section Sorted.
Context {A : Type} (key_of : A -> bytes) (compare : bytes -> bytes -> Z) `{!CompareLaws compare}.

Definition le_key (a b : A) : Prop := compare (key_of a) (key_of b) <= 0.

#[global] Instance le_key_dec a b : Decision (le_key a b).
Proof. unfold le_key. apply _. Defined.

#[local] Instance le_key_trans : Transitive le_key.
Proof. intros a b c. unfold le_key. apply (cmp_trans compare). Qed.

#[local] Instance le_key_total : Total le_key.
Proof. intros a b. unfold le_key. pose proof (cmp_antisym compare (key_of a) (key_of b)). pose proof (cmp_antisym compare (key_of b) (key_of a)). lia. Qed.

(** No two elements have keys that compare equal. *)
Definition distinct_keys (l : list A) : Prop := NoDup l /\ forall a b, a ∈ l -> b ∈ l -> compare (key_of a) (key_of b) = 0 -> a = b.

Lemma merge_sort_strict l : distinct_keys l -> StronglySorted (fun a b => compare (key_of a) (key_of b) < 0) (merge_sort le_key l).
Proof.
  intros [Hnd Heq]. pose proof (merge_sort_Permutation le_key l) as Hp. pose proof (StronglySorted_merge_sort le_key l) as Hs. rewrite <- Hp in Hnd.
  assert (forall a b, a ∈ merge_sort le_key l -> b ∈ merge_sort le_key l -> compare (key_of a) (key_of b) = 0 -> a = b) as Heq' by (intros a b; rewrite Hp; apply Heq).
  clear Heq Hp. induction Hs as [|x l' Hs IH Hx]; constructor.
  - apply NoDup_cons in Hnd as [_ Hnd]. apply IH; [done|]. intros a b Ha Hb. apply Heq'; set_solver.
  - apply NoDup_cons in Hnd as [Hn _]. rewrite Forall_forall in *. intros y Hy. specialize (Hx y Hy). unfold le_key in Hx.
    destruct (Z.eq_dec (compare (key_of x) (key_of y)) 0) as [E|]; [|lia]. apply Heq' in E; [subst; done|set_solver|set_solver].
Qed.
End Sorted.

(** The entries of all children, sorted by key. *)
Definition merged_entries {I} `{Iterator I} {compare} (specs : list (child_spec I compare)) : list (bytes * bytes) :=
  merge_sort (le_key fst compare) (mjoin (ch_entries <$> specs)).

(** ** Memtables as children *)

(** The merges of the engine order internal keys. *)
#[global] Instance internal_Merging {I} `{Iterator I} `{Comparator} : Iterator (MergingIterator I) := Merging_Iterator internal_compare.

Section Memtables.
Context `{laws : ComparatorLaws}.

Lemma op_same o o' ops : Forall op_ok ops -> increasing ops -> o ∈ ops -> o' ∈ ops -> internal_compare (op_ikey o) (op_ikey o') = 0 -> o = o'.
Proof.
  intros Hok Hinc Ho Ho' Hc. rewrite Forall_forall in Hok. pose proof (op_ikey_cases o o' (Hok o Ho) (Hok o' Ho')) as [Hl Hg].
  pose proof (compare_antisym (op_key o) (op_key o')). pose proof (compare_antisym (op_key o') (op_key o)).
  pose proof (tag_lt (op_seq o) (op_type o) (op_seq o') (op_type o')). pose proof (tag_lt (op_seq o') (op_type o') (op_seq o) (op_type o)).
  assert (op_seq o = op_seq o') as Heq by lia. clear -Hinc Ho Ho' Heq.
  apply list_elem_of_lookup in Ho as [i Hi], Ho' as [j Hj]. destruct (Nat.lt_trichotomy i j) as [Hij|[->|Hij]]; [|congruence|].
  - pose proof (strongly_sorted_lookup _ _ i j o o' Hinc Hi Hj Hij). simpl in *. lia.
  - pose proof (strongly_sorted_lookup _ _ j i o' o Hinc Hj Hi Hij). simpl in *. lia.
Qed.

(** The iterators of memtables with the additions [opss]. *)
Lemma memtable_children (opss : list (list entry_op)) :
  Forall op_ok (mjoin opss) -> increasing (mjoin opss) ->
  exists ms (specs : list (child_spec MemTableIterator internal_compare)) ess,
    Forall2 (fun ops m => adds new_MemTable ops = Ret m) opss ms /\
    ch_entries <$> specs = shown_entries <$> ess /\ mjoin ess ≡ₚ mjoin opss /\ Forall (StronglySorted op_lt) ess /\
    (forall s k, s ∈ specs -> zlen k < 2 ^ 32 -> seekable (IteratorLaws := ch_laws s) k) /\
    Forall2 (fun it s => exists p, at_index (IteratorLaws := ch_laws s) it p) (new_MemTableIterator <$> ms) specs.
Proof.
  induction opss as [|ops opss IH]; intros Hok Hinc; [exists [], [], []; repeat split; try done; intros s k Hs; by apply not_elem_of_nil in Hs|]. change (mjoin (ops :: opss)) with (ops ++ mjoin opss) in *.
  apply Forall_app in Hok as [Hok Hoks]. apply StronglySorted_app in Hinc as (_ & Hi1 & Hi2). destruct IH as (ms & specs & ess & Hms & Hes & Hp & Hs & Hk & Hat); [done|done|].
  destruct (adds_spec ops new_MemTable [] MRepr_new Hok Hi1) as (m & Hm & Hr); [by intros o o' Ho%elem_of_nil|].
  destruct (MRepr_sequence m ops Hr) as (ids & es & Hseq & Hpe). exists (m :: ms), (mkChild (shown_entries es) (MemTable_IteratorLaws m ids es Hseq) :: specs), (es :: ess).
  split; [by constructor|]. split; [cbn; by f_equal|]. split; [change (mjoin (es :: ess)) with (es ++ mjoin ess); by rewrite Hpe, Hp|]. split; [constructor; [apply Hseq|done]|]. split.
  - intros s k [->|Hin]%elem_of_cons Hlen; [exact Hlen|by apply Hk].
  - cbn [fmap list_fmap]. constructor; [|done]. exists None. by split.
Qed.

Lemma op_ikey_len o : op_ok o -> zlen (op_ikey o) < 2 ^ 32.
Proof. intros (_ & Hk & _). unfold op_ikey. by rewrite zlen_encode. Qed.

Lemma increasing_NoDup ops : increasing ops -> NoDup ops.
Proof. induction 1 as [|o ops Hs IH Ho]; constructor; [|done]. intros Hin. rewrite Forall_forall in Ho. specialize (Ho o Hin). simpl in Ho. lia. Qed.

(** The additions of all tables in the order of their keys. *)
Lemma merged_ops ops : (forall a b, a ∈ ops -> b ∈ ops -> internal_compare (op_ikey a) (op_ikey b) = 0 -> a = b) -> NoDup ops ->
  exists es, es ≡ₚ ops /\ StronglySorted op_lt es.
Proof. intros Hd Hnd. exists (merge_sort (le_key op_ikey internal_compare) ops). split; [apply merge_sort_Permutation|]. apply (merge_sort_strict op_ikey internal_compare ops). split; [exact Hnd|exact Hd]. Qed.

Lemma mjoin_shown ess : mjoin (shown_entries <$> ess) = shown_entries (mjoin ess).
Proof. unfold shown_entries. induction ess as [|es ess IH]; [done|]. change (mjoin (es :: ess)) with (es ++ mjoin ess). rewrite fmap_app, <- IH. done. Qed.

Lemma shown_sorted es : StronglySorted op_lt es -> StronglySorted (before internal_compare) (shown_entries es).
Proof. unfold shown_entries. induction 1 as [|o es Hs IH Ho]; cbn; constructor; [done|]. rewrite Forall_fmap. eapply Forall_impl; [exact Ho|]. intros x Hx. exact Hx. Qed.
End Memtables.

(** ** The properties *)

(** C25: A merge of iterators is a cursor over the sorted union of their entries. When every
    child is a cursor over sorted entries and no two entries of the children have the same
    key, the merging iterator is, from its construction on and through any sequence of
    SeekToFirst, SeekToLast, Seek, Next and Prev with any changes of direction, a cursor over
    all the entries in the order of their keys, with no assertion failing and status OK. *)
Theorem merging_iterator_refines {I} `{Iterator I} (compare : bytes -> bytes -> Z) `{!CompareLaws compare}
    (specs : list (child_spec I compare)) (iters : list I) :
  Forall (fun s => StronglySorted (before compare) (ch_entries s)) specs ->
  distinct_keys fst compare (mjoin (ch_entries <$> specs)) ->
  (forall s e, s ∈ specs -> e ∈ mjoin (ch_entries <$> specs) -> seekable (IteratorLaws := ch_laws s) e.1) ->
  Forall2 (fun it s => exists p, at_index (IteratorLaws := ch_laws s) it p) iters specs ->
  exists (m : MergingIterator I) (L : IteratorLaws (MergingIterator I) (H := Merging_Iterator compare) compare (merged_entries specs)),
    new_MergingIterator iters = Ret m /\ at_index (IteratorLaws := L) m None /\
    forall k, (forall s, s ∈ specs -> seekable (IteratorLaws := ch_laws s) k) -> seekable (IteratorLaws := L) k.
Proof.
  intros Hs Hd Hk Hat. pose proof (merge_sort_Permutation (le_key fst compare) (mjoin (ch_entries <$> specs))) as Hp. fold (merged_entries specs) in Hp.
  assert (forall s e, s ∈ specs -> e ∈ merged_entries specs -> seekable (IteratorLaws := ch_laws s) e.1) as Hk' by (intros s e Hin He; apply Hk; [done|by rewrite <- Hp]).
  destruct (new_MergingIterator_at compare specs (merged_entries specs) iters Hat) as (m & Hm & Hma).
  exists m, (Merging_IteratorLaws compare specs (merged_entries specs) (merge_sort_strict fst compare _ Hd) (Permutation_sym Hp) Hs Hk').
  split; [done|]. split; [done|]. intros k Hsk. by apply Forall_forall.
Qed.

(** A scan of the database over several memtables agrees with one table of all their
    additions: the database iterator over the merge of the tables' iterators shows, at every
    sequence number, exactly the additions that are the newest visible ones of their keys
    and not deletions, whichever table they are in, each once and in the order of the
    keys, in either direction and from any seek. *)
Theorem merged_scan `{laws : ComparatorLaws} (opss : list (list entry_op)) (s seed : Z) :
  Forall op_ok (mjoin opss) -> increasing (mjoin opss) -> in_range s ->
  exists ms (it : MergingIterator MemTableIterator) es,
    Forall2 (fun ops m => adds new_MemTable ops = Ret m) opss ms /\ new_MergingIterator (new_MemTableIterator <$> ms) = Ret it /\
    StronglySorted op_lt es /\
    (forall o, o ∈ view es s <-> o ∈ mjoin opss /\ newest (op_key o) s (mjoin opss) = Some o /\ op_type o = kTypeValue) /\
    forall fuel dops, (length (mjoin opss) < fuel)%nat -> (forall target, DSeek target ∈ dops -> zlen target + 8 < 2 ^ 32) ->
      let d0 := new_DBIter it s seed in
      match view_run es s None dops with
      | Ret p => exists d, db_run fuel d0 dops = Ret d /\ db_status d = OK /\
          match p with
          | None => db_Valid d = false
          | Some n => db_Valid d = true /\
              exists o, view es s !! n = Some o /\ db_key d = Ret (op_key o) /\ db_value d = Ret (op_value o)
          end
      | AssertFailed => db_run fuel d0 dops = AssertFailed
      | OutOfFuel => False
      end.
Proof.
  intros Hok Hinc Hs. destruct (memtable_children opss Hok Hinc) as (ms & specs & ess & Hms & Hes & Hp & Hso & Hk & Hat). destruct (merged_ops (mjoin ess)) as (es & Hpe & Hse); [intros a b; rewrite Hp; by apply (op_same a b (mjoin opss))|rewrite Hp; by apply increasing_NoDup|].
  assert (mjoin (ch_entries <$> specs) ≡ₚ shown_entries es) as Hpm by (rewrite Hes, mjoin_shown; unfold shown_entries; by rewrite Hpe).
  assert (es ≡ₚ mjoin opss) as Hpo by (by rewrite Hpe). assert (Forall op_ok es) as Hoke by (by rewrite Hpo).
  assert (Forall (fun s => StronglySorted (before internal_compare) (ch_entries s)) specs) as Hcs by (apply (Forall_fmap ch_entries (StronglySorted (before internal_compare)) specs); rewrite Hes; apply Forall_fmap; eapply Forall_impl; [exact Hso|]; intros; by apply shown_sorted).
  assert (forall s e, s ∈ specs -> e ∈ shown_entries es -> seekable (IteratorLaws := ch_laws s) e.1) as Hk'.
  { intros c e Hc He. apply Hk; [done|]. unfold shown_entries in He. apply list_elem_of_fmap in He as (o & -> & Ho). rewrite Forall_forall in Hoke. by apply op_ikey_len, Hoke. }
  destruct (new_MergingIterator_at internal_compare specs (shown_entries es) (new_MemTableIterator <$> ms) Hat) as (it & Hit & Hia).
  exists ms, it, es. split; [done|]. split; [done|]. split; [done|]. split.
  - intros o. unfold view. rewrite list_elem_of_filter. assert (o ∈ es <-> o ∈ mjoin opss) as -> by (by rewrite Hpo). split.
    + intros [Hl Ho]. split; [done|]. by apply (live_newest (mjoin opss) es s o).
    + intros [Ho Hn]. split; [|done]. by apply (live_newest (mjoin opss) es s o).
  - intros fuel dops Hf Hsk. pose (il := Merging_IteratorLaws internal_compare specs (shown_entries es) (shown_sorted es Hse) Hpm Hcs Hk').
    apply (db_run_observed es Hoke Hse (ilaws := il) s Hs seed it None fuel dops); [done|by rewrite (Permutation_length Hpo)|].
    apply Forall_forall. intros [| |target| |] Hin; try done. cbn [op_seekable]. apply Forall_forall. intros c Hc. apply Hk; [done|]. rewrite zlen_encode. by apply Hsk.
Qed.

#[local] Existing Instances BytewiseComparator BytewiseComparator_laws.

(** An old table and a newer one that overwrites its key and deletes another. *)
Definition sample_tables : list (list entry_op) :=
  [[mkOp 1 kTypeValue [x61] [x31]; mkOp 2 kTypeValue [x62] [x32]]; [mkOp 3 kTypeDeletion [x61] []; mkOp 4 kTypeValue [x63] [x33]]].

Lemma sample_tables_ok : Forall op_ok (mjoin sample_tables) /\ increasing (mjoin sample_tables).
Proof. split; repeat constructor; vm_compute; congruence. Qed.

Lemma merging_iterator_refines_witness :
  exists ms m, Forall2 (fun ops t => adds new_MemTable ops = Ret t) sample_tables ms /\
    new_MergingIterator (new_MemTableIterator <$> ms) = Ret m /\ it_Valid m = false /\ it_status m = OK.
Proof.
  destruct sample_tables_ok as [Hok Hinc]. destruct (memtable_children sample_tables Hok Hinc) as (ms & specs & ess & Hms & Hes & Hp & Hso & Hk & Hat).
  destruct (merging_iterator_refines internal_compare specs (new_MemTableIterator <$> ms)) as (m & L & Hm & Hv & _); [..|done|].
  - apply (Forall_fmap ch_entries (StronglySorted (before internal_compare)) specs). rewrite Hes. apply Forall_fmap. eapply Forall_impl; [exact Hso|]. intros. by apply shown_sorted.
  - rewrite Hes, mjoin_shown. unfold shown_entries. split.
    + apply (NoDup_fmap_2_strong (fun o => (op_ikey o, op_value o))); [|rewrite Hp; by apply increasing_NoDup]. intros a b Ha Hb [= Hab _]. apply (op_same a b (mjoin sample_tables)); [done|done|by rewrite <- Hp|by rewrite <- Hp|]. rewrite Hab. apply (cmp_refl internal_compare).
    + intros a b (o & -> & Ho)%list_elem_of_fmap (o' & -> & Ho')%list_elem_of_fmap Hc. rewrite Hp in Ho, Ho'. by rewrite (op_same o o' (mjoin sample_tables)).
  - intros s e Hs He. apply Hk; [done|]. rewrite Hes, mjoin_shown in He. unfold shown_entries in He. apply list_elem_of_fmap in He as (o & -> & Ho). rewrite Hp in Ho. rewrite Forall_forall in Hok. by apply op_ikey_len, Hok.
  - exists ms, m. split; [exact Hms|]. split; [exact Hm|]. exact (at_valid (IteratorLaws := L) m None Hv).
Defined.

Lemma merged_scan_witness :
  exists ms (it : MergingIterator MemTableIterator) es d,
    Forall2 (fun ops t => adds new_MemTable ops = Ret t) sample_tables ms /\ new_MergingIterator (new_MemTableIterator <$> ms) = Ret it /\
    StronglySorted op_lt es /\ db_run 5 (new_DBIter it 4 0) [DFirst] = Ret d /\ db_status d = OK.
Proof.
  destruct sample_tables_ok as [Hok Hinc]. destruct (merged_scan sample_tables 4 0 Hok Hinc) as (ms & it & es & Hms & Hit & Hes & _ & Hrun); [split; vm_compute; congruence|].
  specialize (Hrun 5%nat [DFirst]). destruct Hrun as (d & Hd & Hst & _); [cbn; lia|by intros target [[=]|Ht%elem_of_nil]%elem_of_cons|].
  exists ms, it, es, d. repeat split; assumption.
Defined.
