(* ===== verification/TwoLevelIterator.v ===== *)
(** * The two-level iterator

    [table/two_level_iterator.cc]: an iterator over the blocks that the values of an index
    iterator name. The iterator of a table (blocks in a file) and the iterator of a level
    (files) are two-level iterators. It is an instance of the iterator interface: a cursor over
    the blocks' entries one after the other. *)

From stdpp Require Import sorting sets.
From S2P Require Import Prelude Env Comparator DbFormat SkipList MemTable Iterator DBIter MergingIterator.

Open Scope outcome_scope.

(** [X] is the type of the index iterator, [D] that of a block's. *)
Record TwoLevelIterator (X D : Type) := mkTwoLevel {
  tl_status : Status;
  index_iter_ : IteratorWrapper X;
  data_iter_ : IteratorWrapper D;
  data_block_handle_ : bytes;
}.
Arguments mkTwoLevel {X D} _ _ _ _.
Arguments tl_status {X D} _.
Arguments index_iter_ {X D} _.
Arguments data_iter_ {X D} _.
Arguments data_block_handle_ {X D} _.

Section TwoLevel.
Context {X D : Type} {IX : Iterator X} {ID : Iterator D}.

(** [block_function_] with its argument and options: the iterator over the block an index value
    names, null if there is none. *)
Context (block_function : bytes -> outcome (option D)).
Abbreviation TwoLevelIterator := (TwoLevelIterator X D).

Definition NewTwoLevelIterator (index_iter : X) : outcome TwoLevelIterator :=
  let! w := wrapper_Set new_IteratorWrapper (Some index_iter) in
  Ret (mkTwoLevel OK w new_IteratorWrapper []).

Definition SaveError (status s : Status) : Status := if ok status && negb (ok s) then s else status.

Definition SetDataIterator (it : TwoLevelIterator) (data_iter : option D) : outcome TwoLevelIterator :=
  let status := match w_iter (data_iter_ it) with Some d => SaveError (tl_status it) (it_status d) | None => tl_status it end in
  let! w := wrapper_Set (data_iter_ it) data_iter in
  Ret (mkTwoLevel status (index_iter_ it) w (data_block_handle_ it)).

Definition InitDataBlock (it : TwoLevelIterator) : outcome TwoLevelIterator :=
  if negb (wrapper_Valid (index_iter_ it)) then SetDataIterator it None
  else
    let! handle := wrapper_value (index_iter_ it) in
    if bool_decide (is_Some (w_iter (data_iter_ it))) && bool_decide (handle = data_block_handle_ it) then Ret it
    else
      let! iter := block_function handle in
      SetDataIterator (mkTwoLevel (tl_status it) (index_iter_ it) (data_iter_ it) handle) iter.

Definition move_index (it : TwoLevelIterator) (f : IteratorWrapper X -> outcome (IteratorWrapper X)) : outcome TwoLevelIterator :=
  let! w := f (index_iter_ it) in Ret (mkTwoLevel (tl_status it) w (data_iter_ it) (data_block_handle_ it)).

(** [if (data_iter_.iter() != nullptr) data_iter_.f()]. *)
Definition move_data (it : TwoLevelIterator) (f : IteratorWrapper D -> outcome (IteratorWrapper D)) : outcome TwoLevelIterator :=
  match w_iter (data_iter_ it) with
  | None => Ret it
  | Some _ => let! w := f (data_iter_ it) in Ret (mkTwoLevel (tl_status it) (index_iter_ it) w (data_block_handle_ it))
  end.

(** [while (data_iter_.iter() == nullptr || !data_iter_.Valid())]. *)
Definition data_missing (it : TwoLevelIterator) : bool :=
  match w_iter (data_iter_ it) with None => true | Some _ => negb (wrapper_Valid (data_iter_ it)) end.

Fixpoint SkipEmptyDataBlocksForward (fuel : nat) (it : TwoLevelIterator) : outcome TwoLevelIterator :=
  if negb (data_missing it) then Ret it
  else match fuel with
  | O => OutOfFuel
  | S fuel =>
      if negb (wrapper_Valid (index_iter_ it)) then SetDataIterator it None
      else
        let! it := move_index it wrapper_Next in
        let! it := InitDataBlock it in
        let! it := move_data it wrapper_SeekToFirst in
        SkipEmptyDataBlocksForward fuel it
  end.

Fixpoint SkipEmptyDataBlocksBackward (fuel : nat) (it : TwoLevelIterator) : outcome TwoLevelIterator :=
  if negb (data_missing it) then Ret it
  else match fuel with
  | O => OutOfFuel
  | S fuel =>
      if negb (wrapper_Valid (index_iter_ it)) then SetDataIterator it None
      else
        let! it := move_index it wrapper_Prev in
        let! it := InitDataBlock it in
        let! it := move_data it wrapper_SeekToLast in
        SkipEmptyDataBlocksBackward fuel it
  end.

Definition tl_Valid (it : TwoLevelIterator) : bool := wrapper_Valid (data_iter_ it).

Definition tl_key (it : TwoLevelIterator) : outcome bytes := assert! tl_Valid it; wrapper_key (data_iter_ it).

Definition tl_value (it : TwoLevelIterator) : outcome bytes := assert! tl_Valid it; wrapper_value (data_iter_ it).

Definition tl_status_of (it : TwoLevelIterator) : Status :=
  match w_iter (index_iter_ it) with
  | Some x =>
      if negb (ok (it_status x)) then it_status x
      else match w_iter (data_iter_ it) with
           | Some d => if negb (ok (it_status d)) then it_status d else tl_status it
           | None => tl_status it
           end
  | None => tl_status it
  end.

Definition tl_Seek (fuel : nat) (it : TwoLevelIterator) (target : bytes) : outcome TwoLevelIterator :=
  let! it := move_index it (fun w => wrapper_Seek w target) in
  let! it := InitDataBlock it in
  let! it := move_data it (fun w => wrapper_Seek w target) in
  SkipEmptyDataBlocksForward fuel it.

Definition tl_SeekToFirst (fuel : nat) (it : TwoLevelIterator) : outcome TwoLevelIterator :=
  let! it := move_index it wrapper_SeekToFirst in
  let! it := InitDataBlock it in
  let! it := move_data it wrapper_SeekToFirst in
  SkipEmptyDataBlocksForward fuel it.

Definition tl_SeekToLast (fuel : nat) (it : TwoLevelIterator) : outcome TwoLevelIterator :=
  let! it := move_index it wrapper_SeekToLast in
  let! it := InitDataBlock it in
  let! it := move_data it wrapper_SeekToLast in
  SkipEmptyDataBlocksBackward fuel it.

Definition tl_Next (fuel : nat) (it : TwoLevelIterator) : outcome TwoLevelIterator :=
  assert! tl_Valid it;
  let! w := wrapper_Next (data_iter_ it) in
  SkipEmptyDataBlocksForward fuel (mkTwoLevel (tl_status it) (index_iter_ it) w (data_block_handle_ it)).

Definition tl_Prev (fuel : nat) (it : TwoLevelIterator) : outcome TwoLevelIterator :=
  assert! tl_Valid it;
  let! w := wrapper_Prev (data_iter_ it) in
  SkipEmptyDataBlocksBackward fuel (mkTwoLevel (tl_status it) (index_iter_ it) w (data_block_handle_ it)).

(** [fuel] bounds the rounds of the loops: the blocks of the index and one more. *)
Definition TwoLevel_Iterator (fuel : nat) : Iterator TwoLevelIterator := {|
  it_Valid := tl_Valid;
  it_key := tl_key;
  it_value := tl_value;
  it_Next := tl_Next fuel;
  it_Prev := tl_Prev fuel;
  it_Seek := tl_Seek fuel;
  it_SeekToFirst := tl_SeekToFirst fuel;
  it_SeekToLast := tl_SeekToLast fuel;
  it_status := tl_status_of;
|}.
End TwoLevel.

(** ** Correctness *)

Section Cuts.
Context (low : bytes * bytes -> Prop) `{forall e, Decision (low e)}.

Lemma cut_app l l' : cut low (l ++ l') = (cut low l + cut low l')%nat.
Proof. unfold cut. by rewrite filter_app, length_app. Qed.

Lemma cut_all l : (forall e, e ∈ l -> low e) -> cut low l = length l.
Proof.
  induction l as [|e l IH]; intros Hl; [done|]. unfold cut in *. rewrite filter_cons_True by (apply Hl; set_solver). cbn [length]. rewrite IH; [done|]. intros x Hx. apply Hl. set_solver.
Qed.

Lemma cut_none l : (forall e, e ∈ l -> ~ low e) -> cut low l = 0%nat.
Proof.
  induction l as [|e l IH]; intros Hl; [done|]. unfold cut in *. rewrite filter_cons_False by (apply Hl; set_solver). apply IH. intros x Hx. apply Hl. set_solver.
Qed.
End Cuts.

Section Laws.
Context {X D : Type} {IX : Iterator X} {ID : Iterator D} (compare : bytes -> bytes -> Z) `{!CompareLaws compare}.
Abbreviation Entry := (bytes * bytes)%type.
Abbreviation TwoLevelIterator := (TwoLevelIterator X D).

(** The index is a cursor over [ch_entries index]; [blk h] is the block of the handle [h], on
    which the block function gives a cursor. *)
Context (block_function : bytes -> outcome (option D)) (index : child_spec X compare) (blk : bytes -> child_spec D compare).
Abbreviation idx := (ch_entries index).
Definition blocks : list (list Entry) := (fun e => ch_entries (blk e.2)) <$> idx.
Definition all_entries : list Entry := mjoin blocks.
Abbreviation es := all_entries.

(** The entries before block [j]. *)
Definition start (j : nat) : nat := length (mjoin (take j blocks)).

Hypothesis block_opens : forall k h, (k, h) ∈ idx -> exists d q, block_function h = Ret (Some d) /\ at_index (IteratorLaws := ch_laws (blk h)) d q.

(** An index key is at or after the keys of its block and before those of the next ones. *)
Hypothesis separated : forall j k h, idx !! j = Some (k, h) ->
  (forall e, e ∈ ch_entries (blk h) -> compare e.1 k <= 0) /\ (forall i b e, (j < i)%nat -> blocks !! i = Some b -> e ∈ b -> compare k e.1 < 0).
Hypothesis index_sorted : StronglySorted (before compare) idx.

Lemma start_0 : start 0 = 0%nat.
Proof. done. Qed.

Lemma mjoin_app_nil {A} (l : list (list A)) x : mjoin (l ++ [x]) = mjoin l ++ x.
Proof. induction l as [|y l IH]; [exact (app_nil_r x)|]. change (y ++ mjoin (l ++ [x]) = (y ++ mjoin l) ++ x). by rewrite IH, app_assoc. Qed.

Lemma start_S j k h : idx !! j = Some (k, h) -> start (S j) = (start j + length (ch_entries (blk h)))%nat.
Proof.
  intros Hj. unfold start. assert (blocks !! j = Some (ch_entries (blk h))) as Hb by (unfold blocks; by rewrite list_lookup_fmap, Hj).
  rewrite (take_S_r _ _ _ Hb), mjoin_app_nil, length_app. done.
Qed.

Lemma start_end : start (length idx) = length es.
Proof. unfold start, all_entries. by rewrite take_ge by (unfold blocks; rewrite length_fmap; lia). Qed.

Lemma mjoin_drop {A} (l : list (list A)) j : mjoin l = mjoin (take j l) ++ mjoin (drop j l).
Proof. revert j. induction l as [|x l IH]; intros [|j]; [done|done|done|]. cbn [take drop]. change (x ++ mjoin l = (x ++ mjoin (take j l)) ++ mjoin (drop j l)). by rewrite <- app_assoc, <- IH. Qed.

Lemma lookup_start j k h i : idx !! j = Some (k, h) -> (i < length (ch_entries (blk h)))%nat -> es !! (start j + i)%nat = ch_entries (blk h) !! i.
Proof.
  intros Hj Hi. assert (blocks !! j = Some (ch_entries (blk h))) as Hb by (unfold blocks; by rewrite list_lookup_fmap, Hj).
  unfold all_entries, start. rewrite (mjoin_drop blocks j), lookup_app_r by lia. rewrite Nat.add_comm, Nat.add_sub, (drop_S _ _ _ Hb).
  change (mjoin (ch_entries (blk h) :: drop (S j) blocks)) with (ch_entries (blk h) ++ mjoin (drop (S j) blocks)). by rewrite lookup_app_l.
Qed.

Lemma start_le j : (start j <= length es)%nat.
Proof. unfold start, all_entries. rewrite (mjoin_drop blocks j), length_app. lia. Qed.

(** *** The invariant *)

Definition data_ok (it : TwoLevelIterator) : Prop :=
  (w_iter (data_iter_ it) = None /\ w_valid (data_iter_ it) = false) \/ exists q, wrapped compare (blk (data_block_handle_ it)) (data_iter_ it) q.

Definition tl_ok (it : TwoLevelIterator) (p : option nat) : Prop :=
  tl_status it = OK /\ wrapped compare index (index_iter_ it) p /\ data_ok it.

(** In block [j], at [q] of it. *)
Definition in_block (it : TwoLevelIterator) (j : nat) (q : option nat) : Prop :=
  tl_status it = OK /\ wrapped compare index (index_iter_ it) (Some j) /\
  exists k, idx !! j = Some (k, data_block_handle_ it) /\ wrapped compare (blk (data_block_handle_ it)) (data_iter_ it) q.

Definition tl_at (it : TwoLevelIterator) (p : option nat) : Prop :=
  match p with
  | None => exists q, tl_ok it q /\ w_iter (data_iter_ it) = None /\ w_valid (data_iter_ it) = false
  | Some n => exists j i, in_block it j (Some i) /\ n = (start j + i)%nat
  end.

Lemma data_status it : data_ok it -> match w_iter (data_iter_ it) with Some d => it_status d = OK | None => True end.
Proof. intros [[-> _]|(q & d & -> & Hat & _)]; [done|]. by apply (at_valid (IteratorLaws := ch_laws (blk (data_block_handle_ it))) d q). Qed.

Lemma SetDataIterator_null it p : tl_ok it p -> exists it', SetDataIterator it None = Ret it' /\ tl_ok it' p /\ w_iter (data_iter_ it') = None /\ w_valid (data_iter_ it') = false.
Proof.
  intros (Hs & Hi & Hd). unfold SetDataIterator. cbn [wrapper_Set obind]. eexists. split; [done|]. cbn. split; [|done]. split; [|split; [done|by left]]. cbn.
  apply data_status in Hd. destruct (w_iter (data_iter_ it)); [by rewrite Hs, Hd|done].
Qed.

Lemma InitDataBlock_none it : tl_ok it None -> exists it', InitDataBlock block_function it = Ret it' /\ tl_ok it' None /\ w_iter (data_iter_ it') = None /\ w_valid (data_iter_ it') = false.
Proof. intros Hok. unfold InitDataBlock. rewrite (wrapped_valid compare index _ None) by apply Hok. cbn. by apply SetDataIterator_null. Qed.

Lemma InitDataBlock_some it j k h : tl_ok it (Some j) -> idx !! j = Some (k, h) ->
  exists it' q, InitDataBlock block_function it = Ret it' /\ in_block it' j q.
Proof.
  intros (Hs & Hi & Hd) Hj. unfold InitDataBlock. rewrite (wrapped_valid compare index _ _ Hi). rewrite bool_decide_eq_true_2 by done. cbn [negb].
  rewrite (proj2 (wrapped_key compare index _ j (k, h) Hi Hj)). cbn [obind snd].
  destruct (bool_decide (is_Some _) && _) eqn:Ereuse.
  - apply andb_true_iff in Ereuse as [Hsome%bool_decide_eq_true ->%bool_decide_eq_true].
    destruct Hd as [[Hn _]|(q & Hq)]; [rewrite Hn in Hsome; by destruct Hsome|]. exists it, q. split; [done|]. split; [done|]. split; [done|]. by exists k.
  - destruct (block_opens k h) as (d & q & -> & Hq); [by eapply list_elem_of_lookup_2|]. cbn [obind]. unfold SetDataIterator. cbn [data_iter_ tl_status wrapper_Set index_iter_ data_block_handle_].
    destruct (Update_wrapped compare (blk h) (data_iter_ it) d q Hq) as (w & -> & Hw). cbn [obind]. eexists _, q. split; [done|]. apply data_status in Hd. split; [cbn|split; [done|by exists k]].
    destruct (w_iter (data_iter_ it)); [by rewrite Hs, Hd|done].
Qed.

Lemma move_index_ok it p q f : tl_ok it p -> (forall w, wrapped compare index w p -> exists w', f w = Ret w' /\ wrapped compare index w' q) ->
  exists it', move_index it f = Ret it' /\ tl_ok it' q.
Proof. intros (Hs & Hi & Hd) Hf. unfold move_index. destruct (Hf _ Hi) as (w & -> & Hw). cbn [obind]. eexists. split; [done|]. by split. Qed.

Lemma move_data_null (it : TwoLevelIterator) f : w_iter (data_iter_ it) = None -> move_data it f = Ret it.
Proof. unfold move_data. by intros ->. Qed.

Lemma move_data_block it j q r f : in_block it j q ->
  (forall k h, (k, h) ∈ idx -> h = data_block_handle_ it -> forall w, wrapped compare (blk h) w q -> exists w', f w = Ret w' /\ wrapped compare (blk h) w' (r h)) ->
  exists it', move_data it f = Ret it' /\ in_block it' j (r (data_block_handle_ it)) /\ data_block_handle_ it' = data_block_handle_ it.
Proof.
  intros (Hs & Hi & k & Hj & Hd) Hf. unfold move_data. pose proof Hd as (d & -> & _). destruct (Hf k _ ltac:(by eapply list_elem_of_lookup_2) eq_refl _ Hd) as (w & -> & Hw). cbn [obind].
  eexists. split; [done|]. split; [|done]. split; [done|]. split; [done|]. by exists k.
Qed.

Lemma in_block_ok it j q : in_block it j q -> tl_ok it (Some j).
Proof. intros (Hs & Hi & k & Hj & Hd). split; [done|]. split; [done|]. right. by exists q. Qed.

Lemma data_missing_block it j q : in_block it j q -> data_missing it = negb (bool_decide (is_Some q)).
Proof. intros (_ & _ & k & _ & Hd). unfold data_missing. rewrite (wrapped_valid compare _ _ _ Hd). by destruct Hd as (d & -> & _). Qed.

(** The index has left the blocks: the data iterator goes. *)
Lemma skip_done it p fuel (skip : nat -> TwoLevelIterator -> outcome TwoLevelIterator) :
  skip = SkipEmptyDataBlocksForward block_function \/ skip = SkipEmptyDataBlocksBackward block_function ->
  tl_ok it None -> w_iter (data_iter_ it) = None -> p = None -> (0 < fuel)%nat -> exists it', skip fuel it = Ret it' /\ tl_at it' p.
Proof.
  intros Hskip Hok Hn -> Hf. destruct fuel as [|fuel]; [lia|]. destruct (SetDataIterator_null it None Hok) as (it' & Hit & Hok' & Hnull).
  exists it'. split; [|by exists None]. assert (wrapper_Valid (index_iter_ it) = false) as Hv by (apply (wrapped_valid compare index _ None), Hok).
  destruct Hskip as [-> | ->]; cbn [SkipEmptyDataBlocksForward SkipEmptyDataBlocksBackward]; unfold data_missing; rewrite Hn, Hv; exact Hit.
Qed.

(** *** The loops *)

Lemma skip_forward fuel : forall it j i h k, idx !! j = Some (k, h) -> data_block_handle_ it = h -> (i <= length (ch_entries (blk h)))%nat ->
  in_block it j (index_of (length (ch_entries (blk h))) i) -> (length idx < fuel + j)%nat ->
  exists it', SkipEmptyDataBlocksForward block_function fuel it = Ret it' /\ tl_at it' (index_of (length es) (start j + i)).
Proof.
  induction fuel as [|fuel IH]; intros it j i h k Hj Hh Hi Hb Hf; [apply lookup_lt_Some in Hj; lia|]. cbn [SkipEmptyDataBlocksForward]. rewrite (data_missing_block _ _ _ Hb).
  pose proof (start_S j k h Hj) as HS. unfold index_of in *. destruct (Nat.ltb_spec i (length (ch_entries (blk h)))) as [Hlt|Hge].
  { rewrite bool_decide_eq_true_2 by done. cbn [negb]. exists it. split; [done|]. pose proof (start_le (S j)). destruct (Nat.ltb_spec (start j + i) (length es)); [|lia]. by exists j, i. }
  rewrite bool_decide_eq_false_2 by (by intros []). cbn [negb]. pose proof (in_block_ok _ _ _ Hb) as Hok. rewrite (wrapped_valid compare index _ (Some j)) by apply Hok. rewrite bool_decide_eq_true_2 by done. cbn [negb].
  destruct (move_index_ok it (Some j) _ wrapper_Next Hok (fun w Hw => wrapped_Next compare index w j Hw)) as (it1 & -> & Hok1). cbn [obind]. unfold index_of in Hok1.
  destruct (Nat.ltb_spec (S j) (length idx)) as [HSj|HSj].
  - destruct (lookup_lt_is_Some_2 idx (S j) HSj) as [[k' h'] Hj']. destruct (InitDataBlock_some it1 (S j) k' h' Hok1 Hj') as (it2 & q & -> & Hb2). cbn [obind].
    destruct (move_data_block it2 (S j) q (fun h => index_of (length (ch_entries (blk h))) 0) wrapper_SeekToFirst Hb2) as (it3 & -> & Hb3 & Hh3); [intros k0 h0 _ _ w Hw; by eapply wrapped_First|]. cbn [obind].
    destruct (IH it3 (S j) 0%nat (data_block_handle_ it2) k') as (it' & -> & Hat); [by destruct Hb2 as (_ & _ & k2 & Hk2 & _); rewrite Hj' in Hk2; injection Hk2 as _ <-|done|lia|done|lia|].
    exists it'. split; [done|]. by replace (start j + i)%nat with (start (S j) + 0)%nat by lia.
  - destruct (InitDataBlock_none it1 Hok1) as (it2 & -> & Hok2 & Hn2 & _). cbn [obind]. rewrite (move_data_null it2 _ Hn2). cbn [obind]. apply (skip_done it2); [by left|done|done| |apply lookup_lt_Some in Hj; lia].
    apply lookup_lt_Some in Hj. assert (S j = length idx) as HN by lia. rewrite HN, start_end in HS. destruct (Nat.ltb_spec (start j + i) (length es)); [lia|done].
Qed.

Lemma skip_backward fuel : forall it j i h k, idx !! j = Some (k, h) -> data_block_handle_ it = h -> (i <= length (ch_entries (blk h)))%nat ->
  in_block it j (last_index i) -> (j + 1 < fuel)%nat ->
  exists it', SkipEmptyDataBlocksBackward block_function fuel it = Ret it' /\ tl_at it' (last_index (start j + i)).
Proof.
  induction fuel as [|fuel IH]; intros it j i h k Hj Hh Hi Hb Hf; [lia|]. cbn [SkipEmptyDataBlocksBackward]. rewrite (data_missing_block _ _ _ Hb). destruct i as [|i]; cbn [last_index] in *.
  2:{ rewrite bool_decide_eq_true_2 by done. cbn [negb]. exists it. split; [done|]. replace (start j + S i)%nat with (S (start j + i)) by lia. by exists j, i. }
  rewrite bool_decide_eq_false_2 by (by intros []). cbn [negb]. pose proof (in_block_ok _ _ _ Hb) as Hok. rewrite (wrapped_valid compare index _ (Some j)) by apply Hok. rewrite bool_decide_eq_true_2 by done. cbn [negb].
  destruct (move_index_ok it (Some j) _ wrapper_Prev Hok (fun w Hw => wrapped_Prev compare index w j Hw)) as (it1 & -> & Hok1). cbn [obind].
  destruct j as [|j]; cbn [last_index] in Hok1.
  - destruct (InitDataBlock_none it1 Hok1) as (it2 & -> & Hok2 & Hn2 & _). cbn [obind]. rewrite (move_data_null it2 _ Hn2). cbn [obind]. apply (skip_done it2); [by right|done|done|done|lia].
  - destruct (lookup_lt_is_Some_2 idx j) as [[k' h'] Hj']; [apply lookup_lt_Some in Hj; lia|]. destruct (InitDataBlock_some it1 j k' h' Hok1 Hj') as (it2 & q & -> & Hb2). cbn [obind].
    destruct (move_data_block it2 j q (fun h => last_index (length (ch_entries (blk h)))) wrapper_SeekToLast Hb2) as (it3 & -> & Hb3 & Hh3); [intros k0 h0 _ _ w Hw; by eapply wrapped_Last|]. cbn [obind].
    assert (data_block_handle_ it2 = h') as Hh2 by (destruct Hb2 as (_ & _ & k2 & Hk2 & _); rewrite Hj' in Hk2; by injection Hk2 as _ <-). rewrite Hh2 in *.
    destruct (IH it3 j (length (ch_entries (blk h'))) h' k') as (it' & -> & Hat); [done|done|lia|done|lia|].
    exists it'. split; [done|]. by rewrite (start_S j k' h' Hj'), Nat.add_0_r.
Qed.

(** *** The calls *)

Lemma tl_at_ok it p : tl_at it p -> exists q, tl_ok it q.
Proof. destruct p as [n|]; [intros (j & i & Hb & _); exists (Some j); by eapply in_block_ok|]. intros (q & Hok & _). by exists q. Qed.

(** The blocks up to [c] have entries below [target], those after it have none. *)
Lemma cut_blocks target : let low := fun e : Entry => compare e.1 target < 0 in let c := cut low idx in
  match idx !! c with
  | Some (k, h) => cut low es = (start c + cut low (ch_entries (blk h)))%nat
  | None => cut low es = length es
  end.
Proof.
  intros low c.
  assert (forall i b e, (i < c)%nat -> blocks !! i = Some b -> e ∈ b -> low e) as Hbelow.
  { intros i b e Hi Hb He. unfold blocks in Hb. rewrite list_lookup_fmap in Hb. destruct (idx !! i) as [[k h]|] eqn:Ei; [|done]. injection Hb as <-.
    pose proof (proj2 (cut_lookup compare low (closed_lt compare target) idx index_sorted i (k, h) Ei) Hi) as Hk. unfold low in *. cbn [fst] in Hk. eapply (cmp_le_lt compare); [|exact Hk]. by apply (separated i k h Ei). }
  assert (forall n e, (n <= c)%nat -> e ∈ mjoin (take n blocks) -> low e) as Htake.
  { intros n e Hn He. apply list_elem_of_join in He as (b & He & Hb). apply list_elem_of_lookup in Hb as [i Hi]. rewrite lookup_take_Some in Hi. destruct Hi as [Hi Hin]. apply (Hbelow i b e); [lia|done|done]. }
  destruct (idx !! c) as [[k h]|] eqn:Ec.
  - assert (blocks !! c = Some (ch_entries (blk h))) as Hb by (unfold blocks; by rewrite list_lookup_fmap, Ec).
    unfold all_entries, start. rewrite (mjoin_drop blocks c), (drop_S _ _ _ Hb), cut_app, (cut_all low (mjoin (take c blocks))) by (intros e; by apply Htake).
    change (mjoin (ch_entries (blk h) :: drop (S c) blocks)) with (ch_entries (blk h) ++ mjoin (drop (S c) blocks)). rewrite cut_app, (cut_none low (mjoin (drop (S c) blocks))); [lia|].
    intros e He. apply list_elem_of_join in He as (b & He & Hbl). apply list_elem_of_lookup in Hbl as [i Hi]. rewrite lookup_drop in Hi.
    assert (compare k e.1 < 0) as Hlt by (eapply (proj2 (separated c k h Ec)); [|exact Hi|exact He]; lia). pose proof (cut_lookup_not compare low (closed_lt compare target) idx index_sorted (k, h) c Ec (Nat.le_refl _)) as Hn. unfold low in *. cbn [fst] in Hn.
    intros Hlow. apply Hn. eapply (cmp_lt_le compare); [exact Hlt|]. by apply Z.lt_le_incl.
  - apply lookup_ge_None in Ec. apply cut_all. intros e He. apply (Htake (length blocks) e); [unfold blocks; rewrite length_fmap; pose proof (cut_le low idx); lia|]. by rewrite firstn_all.
Qed.

Context (fuel : nat) (Hfuel : (length idx + 1 < fuel)%nat).

(** Enter the block the index is at, and go on from there. *)
Lemma enter_forward it p q f n (pos : bytes -> nat) : tl_ok it p -> (forall w, wrapped compare index w p -> exists w', q w = Ret w' /\ wrapped compare index w' (index_of (length idx) n)) ->
  (forall k h, (k, h) ∈ idx -> (pos h <= length (ch_entries (blk h)))%nat /\ forall w r, wrapped compare (blk h) w r -> exists w', f w = Ret w' /\ wrapped compare (blk h) w' (index_of (length (ch_entries (blk h))) (pos h))) ->
  exists it', (let! it := move_index it q in let! it := InitDataBlock block_function it in let! it := move_data it f in SkipEmptyDataBlocksForward block_function fuel it) = Ret it' /\
    tl_at it' (match idx !! n with Some (k, h) => index_of (length es) (start n + pos h) | None => None end).
Proof.
  intros Hok Hq Hf. destruct (move_index_ok it p _ q Hok Hq) as (it1 & -> & Hok1). cbn [obind]. unfold index_of in Hok1 at 1. destruct (Nat.ltb_spec n (length idx)) as [Hn|Hn].
  - destruct (lookup_lt_is_Some_2 idx n Hn) as [[k h] Hj]. rewrite Hj. destruct (InitDataBlock_some it1 n k h Hok1 Hj) as (it2 & r & -> & Hb2). cbn [obind].
    assert (data_block_handle_ it2 = h) as Hh2 by (destruct Hb2 as (_ & _ & k2 & Hk2 & _); rewrite Hj in Hk2; by injection Hk2 as _ <-).
    destruct (move_data_block it2 n r (fun h => index_of (length (ch_entries (blk h))) (pos h)) f Hb2) as (it3 & -> & Hb3 & Hh3); [intros k0 h0 Hin _ w Hw; by eapply Hf|]. cbn [obind]. rewrite Hh2 in *.
    eapply (skip_forward fuel it3 n (pos h) h k); [done|done|eapply Hf, list_elem_of_lookup_2; exact Hj|done|lia].
  - rewrite lookup_ge_None_2 by lia. destruct (InitDataBlock_none it1 Hok1) as (it2 & -> & Hok2 & Hn2 & _). cbn [obind]. rewrite (move_data_null it2 _ Hn2). cbn [obind]. apply (skip_done it2); [by left|done|done|done|lia].
Qed.

Lemma tl_SeekToFirst_at it p : tl_at it p -> exists it', tl_SeekToFirst block_function fuel it = Ret it' /\ tl_at it' (index_of (length es) 0).
Proof.
  intros [q Hok]%tl_at_ok. destruct (enter_forward it q wrapper_SeekToFirst wrapper_SeekToFirst 0 (fun _ => 0%nat) Hok) as (it' & Hit & Hat).
  - intros w Hw. by eapply wrapped_First.
  - intros k h _. split; [lia|]. intros w r Hw. by eapply wrapped_First.
  - exists it'. split; [exact Hit|]. destruct (idx !! 0%nat) as [[k h]|] eqn:E0; [exact Hat|]. apply lookup_ge_None in E0. unfold index_of. rewrite <- start_end. by replace (length idx) with 0%nat by lia.
Qed.

Lemma tl_Seek_at it p target : tl_at it p -> seekable (IteratorLaws := ch_laws index) target -> (forall k h, (k, h) ∈ idx -> seekable (IteratorLaws := ch_laws (blk h)) target) ->
  exists it', tl_Seek block_function fuel it target = Ret it' /\ tl_at it' (index_of (length es) (cut (fun e => compare e.1 target < 0) es)).
Proof.
  intros [q Hok]%tl_at_ok Hsi Hsb. pose proof (cut_blocks target) as Hc. cbn zeta in Hc.
  destruct (enter_forward it q (fun w => wrapper_Seek w target) (fun w => wrapper_Seek w target) (cut (fun e => compare e.1 target < 0) idx) (fun h => cut (fun e => compare e.1 target < 0) (ch_entries (blk h))) Hok) as (it' & Hit & Hat).
  - intros w Hw. by eapply wrapped_Seek.
  - intros k h Hin. split; [apply cut_le|]. intros w r Hw. eapply wrapped_Seek; [done|by eapply Hsb].
  - exists it'. split; [exact Hit|]. destruct (idx !! _) as [[k h]|]; rewrite Hc; [exact Hat|]. unfold index_of. by rewrite Nat.ltb_irrefl.
Qed.

Lemma tl_SeekToLast_at it p : tl_at it p -> exists it', tl_SeekToLast block_function fuel it = Ret it' /\ tl_at it' (last_index (length es)).
Proof.
  intros [q Hok]%tl_at_ok. unfold tl_SeekToLast. destruct (move_index_ok it q _ wrapper_SeekToLast Hok (fun w Hw => wrapped_Last compare index w _ Hw)) as (it1 & -> & Hok1). cbn [obind]. rewrite <- start_end.
  destruct (length idx) as [|n] eqn:En; cbn [last_index] in *.
  - destruct (InitDataBlock_none it1 Hok1) as (it2 & -> & Hok2 & Hn2 & _). cbn [obind]. rewrite (move_data_null it2 _ Hn2). cbn [obind]. apply (skip_done it2); [by right|done|done|done|lia].
  - destruct (lookup_lt_is_Some_2 idx n) as [[k h] Hj]; [lia|]. destruct (InitDataBlock_some it1 n k h Hok1 Hj) as (it2 & r & -> & Hb2). cbn [obind].
    assert (data_block_handle_ it2 = h) as Hh2 by (destruct Hb2 as (_ & _ & k2 & Hk2 & _); rewrite Hj in Hk2; by injection Hk2 as _ <-).
    destruct (move_data_block it2 n r (fun h => last_index (length (ch_entries (blk h)))) wrapper_SeekToLast Hb2) as (it3 & -> & Hb3 & Hh3); [intros k0 h0 _ _ w Hw; by eapply wrapped_Last|]. cbn [obind]. rewrite Hh2 in *.
    rewrite (start_S n k h Hj). apply (skip_backward fuel it3 n _ h k); [done|done|lia|done|lia].
Qed.

Lemma in_block_valid it j i : in_block it j (Some i) -> tl_Valid it = true.
Proof. intros (_ & _ & k & _ & Hd). unfold tl_Valid. by rewrite (wrapped_valid compare _ _ _ Hd). Qed.

(** Where an entry stands. *)
Lemma in_block_bound it j i : in_block it j (Some i) -> exists k h, idx !! j = Some (k, h) /\ data_block_handle_ it = h /\ (i < length (ch_entries (blk h)))%nat.
Proof. intros (_ & _ & k & Hj & d & _ & Hat & _). exists k, (data_block_handle_ it). split; [done|]. split; [done|]. by apply (at_bound (IteratorLaws := ch_laws (blk (data_block_handle_ it))) d). Qed.

Lemma tl_Next_at it n : tl_at it (Some n) -> exists it', tl_Next block_function fuel it = Ret it' /\ tl_at it' (index_of (length es) (S n)).
Proof.
  intros (j & i & Hb & ->). destruct (in_block_bound it j i Hb) as (k & h & Hj & Hh & Hi). unfold tl_Next. rewrite (in_block_valid it j i Hb). cbn [oassert obind]. pose proof Hb as (Hs & Hx & k' & Hj' & Hd). rewrite Hh in *.
  destruct (wrapped_Next compare (blk h) _ i Hd) as (w & -> & Hw). cbn [obind]. replace (S (start j + i)) with (start j + S i)%nat by lia.
  apply (skip_forward fuel _ j (S i) h k); [done|done|lia| |lia]. split; [done|]. split; [done|]. by exists k.
Qed.

Lemma tl_Prev_at it n : tl_at it (Some n) -> exists it', tl_Prev block_function fuel it = Ret it' /\ tl_at it' (last_index n).
Proof.
  intros (j & i & Hb & ->). destruct (in_block_bound it j i Hb) as (k & h & Hj & Hh & Hi). unfold tl_Prev. rewrite (in_block_valid it j i Hb). cbn [oassert obind]. pose proof Hb as (Hs & Hx & k' & Hj' & Hd). rewrite Hh in *.
  destruct (wrapped_Prev compare (blk h) _ i Hd) as (w & -> & Hw). cbn [obind]. apply lookup_lt_Some in Hj as Hlt.
  apply (skip_backward fuel _ j i h k); [done|done|lia| |lia]. split; [done|]. split; [done|]. by exists k.
Qed.

Lemma tl_status_at it p : tl_at it p -> tl_status_of it = OK.
Proof.
  intros [q (Hs & (x & Hx & Hat & _) & Hd)]%tl_at_ok. unfold tl_status_of. rewrite Hx. destruct (at_valid (IteratorLaws := ch_laws index) x q Hat) as [_ ->]. cbn. apply data_status in Hd. destruct (w_iter (data_iter_ it)); [by rewrite Hd|done].
Qed.

#[refine] Definition TwoLevel_IteratorLaws : IteratorLaws TwoLevelIterator (H := TwoLevel_Iterator block_function fuel) compare es := {|
  at_index := tl_at;
  seekable target := seekable (IteratorLaws := ch_laws index) target /\ forall k h, (k, h) ∈ idx -> seekable (IteratorLaws := ch_laws (blk h)) target;
|}.
Proof.
  - intros it p Hat. split; [|by eapply tl_status_at]. cbn [it_Valid TwoLevel_Iterator]. destruct p as [n|]; [|by destruct Hat as (q & _ & _ & Hv)]. destruct Hat as (j & i & Hb & _). by apply (in_block_valid it j i).
  - intros it n (j & i & Hb & ->). destruct (in_block_bound it j i Hb) as (k & h & Hj & _ & Hi). pose proof (start_le (S j)) as Hle. rewrite (start_S j k h Hj) in Hle. lia.
  - intros it n k v (j & i & Hb & ->) He. destruct (in_block_bound it j i Hb) as (k0 & h & Hj & Hh & Hi). rewrite (lookup_start j k0 h i Hj Hi) in He. cbn [it_key it_value TwoLevel_Iterator]. unfold tl_key, tl_value. rewrite (in_block_valid it j i Hb). cbn [oassert obind].
    destruct Hb as (_ & _ & k' & _ & Hd). rewrite Hh in Hd. exact (wrapped_key compare (blk h) _ i (k, v) Hd He).
  - exact tl_Next_at.
  - exact tl_Prev_at.
  - exact tl_SeekToFirst_at.
  - exact tl_SeekToLast_at.
  - intros it p k Hat [Hi Hb]. by apply (tl_Seek_at it p k).
Defined.

Lemma NewTwoLevelIterator_at x q : at_index (IteratorLaws := ch_laws index) x q -> exists it, NewTwoLevelIterator x = Ret it /\ tl_at it None.
Proof.
  intros Hx. unfold NewTwoLevelIterator. cbn [wrapper_Set]. destruct (Update_wrapped compare index new_IteratorWrapper x q Hx) as (w & -> & Hw). cbn [obind]. eexists. split; [done|]. exists q. split; [|done]. split; [done|]. split; [done|by left].
Qed.
End Laws.
