(* ===== verification/BlockIter.v ===== *)
(** * Block iterators as iterators

    What [Block::NewIterator] returns is an instance of the iterator interface: over a finished
    block it is a cursor over the entries the block was built from. *)

From stdpp Require Import sorting.
From S2P Require Import Prelude Coding Env Comparator BlockBuilder Block BlockCorrect Iterator.

Open Scope outcome_scope.

(** The virtual calls on the three iterators a block can have. *)
#[global] Instance BlockIterator_Iterator `{Comparator} : Iterator BlockIterator := {
  it_Valid bi := match bi with EntryIterator it => Valid it | _ => false end;
  it_key bi := match bi with EntryIterator it => iter_key it | _ => AssertFailed end;
  it_value bi := match bi with EntryIterator it => iter_value it | _ => AssertFailed end;
  it_Next bi := match bi with EntryIterator it => let! it := Next it in Ret (EntryIterator it) | _ => AssertFailed end;
  it_Prev bi := match bi with EntryIterator it => let! it := Prev it in Ret (EntryIterator it) | _ => AssertFailed end;
  it_Seek bi target := match bi with EntryIterator it => let! it := Seek it target in Ret (EntryIterator it) | _ => Ret bi end;
  it_SeekToFirst bi := match bi with EntryIterator it => let! it := SeekToFirst it in Ret (EntryIterator it) | _ => Ret bi end;
  it_SeekToLast bi := match bi with EntryIterator it => let! it := SeekToLast it in Ret (EntryIterator it) | _ => Ret bi end;
  it_status bi := match bi with EntryIterator it => status_ it | ErrorIterator s => s | EmptyIterator => OK end;
}.

(** [bytes] is a finished block with the entries [es]. *)
Definition block_of (contents : bytes) (es : list (bytes * bytes)) : Prop :=
  exists l rs, contents = block_image l rs /\ map entry l = es /\ shares [] l /\ restarts_ok l rs /\ zlen (block_image l rs) < 2 ^ 32.

Section BlockLaws.
Context `{laws : ComparatorLaws}.

Lemma count_lt_cut target es : entries_sorted es -> Cursor.count_lt target es = length (filter (fun e => Compare e.1 target < 0) es).
Proof.
  intros Hs. induction es as [|[k v] es IH]; [done|]. inversion_clear Hs as [|?? Hs' Hk]. cbn [Cursor.count_lt].
  destruct (Z.ltb_spec (Compare k target) 0) as [Hlt|Hge].
  - rewrite filter_cons_True by done. cbn [length]. by rewrite IH.
  - rewrite filter_cons_False by (simpl; lia). rewrite filter_none; [done|].
    eapply Forall_impl; [exact Hk|]. intros e He Hlt. unfold key_lt in He. simpl in *.
    pose proof (compare_lt_le k e.1 target He ltac:(lia)). lia.
Qed.

Definition block_at (l : list item) (rs : list Z) (bi : BlockIterator) (p : option nat) : Prop :=
  exists it, bi = EntryIterator it /\ at_pos l rs it p.

#[refine] Definition Block_IteratorLaws (l : list item) (rs : list Z) (Hshares : shares [] l) (Hrestarts : restarts_ok l rs)
    (Hsize : zlen (block_image l rs) < 2 ^ 32) (Hsorted : entries_sorted (map entry l)) : IteratorLaws BlockIterator Compare (map entry l) := {|
  at_index := block_at l rs;
  seekable _ := True;
|}.
Proof.
  - intros bi p (it & -> & Hp). cbn. destruct p as [j|].
    + destruct Hp as [i Hst]. rewrite (standing_valid l rs it j i Hst). split; [done|]. apply Hst.
    + rewrite (ended_invalid l rs it Hp). split; [done|]. apply Hp.
  - intros bi j (it & -> & i & Hst). rewrite length_map. apply (lookup_lt_Some l j i), Hst.
  - intros bi j k v (it & -> & i & Hst) He. cbn. destruct (value_image l rs it j i Hshares Hsize Hst) as [-> ->].
    rewrite list_lookup_fmap, (st_item _ _ _ _ _ Hst) in He. by injection He as <- <-.
  - intros bi j (it & -> & i & Hst). cbn. destruct (Next_spec l rs Hshares Hrestarts Hsize it j i Hst) as (it' & -> & Hp). cbn [obind]. eexists. split; [done|]. by exists it'.
  - intros bi j (it & -> & i & Hst). cbn. destruct (Prev_spec l rs Hshares Hrestarts Hsize it j i Hst) as (it' & -> & Hp). cbn [obind]. eexists. split; [done|]. by exists it'.
  - intros bi p (it & -> & Hp). cbn. destruct (SeekToFirst_spec l rs Hshares Hrestarts Hsize it) as (it' & -> & Hp'); [by eapply at_pos_ok|]. cbn [obind]. eexists. split; [done|]. by exists it'.
  - intros bi p (it & -> & Hp). cbn. destruct (SeekToLast_spec l rs Hshares Hrestarts Hsize it) as (it' & -> & Hp'); [by eapply at_pos_ok|]. cbn [obind]. eexists. split; [done|]. exists it'. split; [done|].
    unfold Cursor.last in Hp'. unfold last_index. destruct l as [|i l']; [done|]. cbn [map length] in *. by rewrite Nat.sub_1_r in Hp'.
  - intros bi p target (it & -> & Hp) _. cbn. destruct (Seek_spec l rs Hshares Hrestarts Hsize Hsorted it target) as (it' & -> & Hp'); [by eapply at_pos_ok|]. cbn [obind]. eexists. split; [done|]. exists it'. split; [done|].
    unfold Cursor.seek in Hp'. by rewrite count_lt_cut in Hp'.
Defined.

(** The iterator of a block that was read back. *)
Lemma block_iterator_opens l rs : shares [] l -> restarts_ok l rs -> zlen (block_image l rs) < 2 ^ 32 ->
  exists b bi, new_Block (block_image l rs) = Ret b /\ NewIterator b = Ret bi /\ block_at l rs bi None.
Proof.
  intros Hs Hr Hn. destruct (NewIterator_image l rs (rs_pos l rs Hr Hn) Hn) as (b & it & Hb & Hi & _ & He). exists b, (EntryIterator it). split; [done|]. split; [done|]. by exists it.
Qed.
End BlockLaws.
