(* ===== verification/TableBuilder.v ===== *)
(** * Building a table

    [table/table_builder.cc]: entries in increasing order become data blocks, each with an entry of
    the index block under a key that separates it from the next block, a filter block, a
    metaindex block and the footer. *)

From stdpp Require Import sorting.
From S2P Require Import Prelude Coding Env Crc32c Comparator BlockBuilder Block BlockCorrect Format Filter FilterBlock Filename Iterator BlockIter.

Open Scope outcome_scope.

(** The compressors of the port layer. [None]: not supported. *)
Class Compressors := {
  Snappy_Compress : bytes -> option bytes;
  Zstd_Compress : Z -> bytes -> option bytes;
}.

Definition kZstdCompression : Z := 0x2.

(** The options a builder reads; [to_filter_name] is the name of the filter policy, if there is one. *)
Record TableOptions := mkTableOptions {
  to_block_size : Z;
  to_restart_interval : Z;
  to_compression : Z;
  to_zstd_level : Z;
  to_filter_name : option bytes;
  to_paranoid_checks : bool;
}.

(** [TableBuilder::Rep]. [compressed_output] is empty between calls. The restart interval of the
    index block is kept in its builder. *)
Record TableRep (F : Type) := mkTableRep {
  t_options : TableOptions;
  t_file : F;
  t_offset : Z;
  t_status : Status;
  data_block : BlockBuilder;
  index_block : BlockBuilder;
  t_last_key : bytes;
  num_entries : Z;
  closed : bool;
  filter_block : option FilterBlockBuilder;
  pending_index_entry : bool;
  pending_handle : BlockHandle;
}.
Arguments mkTableRep {F} _ _ _ _ _ _ _ _ _ _ _ _.
Arguments t_options {F} _.
Arguments t_file {F} _.
Arguments t_offset {F} _.
Arguments t_status {F} _.
Arguments data_block {F} _.
Arguments index_block {F} _.
Arguments t_last_key {F} _.
Arguments num_entries {F} _.
Arguments closed {F} _.
Arguments filter_block {F} _.
Arguments pending_index_entry {F} _.
Arguments pending_handle {F} _.

Section TableBuilder.
Context `{Comparator} `{FilterPolicy} `{Crc32c} `{Compressors} {F : Type} `{WritableFile F}.
Abbreviation TableRep := (TableRep F).

Definition new_TableBuilder (options : TableOptions) (file : F) : outcome TableRep :=
  let! data := new_BlockBuilder (to_restart_interval options) in
  let! index := new_BlockBuilder 1 in
  let! filter := match to_filter_name options with
    | None => Ret None
    | Some _ => let! f := StartBlock new_FilterBlockBuilder 0 in Ret (Some f)
    end in
  Ret (mkTableRep options file 0 OK data index [] 0 false filter false new_BlockHandle).

(** Setters. *)
Definition set_output (r : TableRep) (file : F) (offset : Z) (status : Status) : TableRep :=
  mkTableRep (t_options r) file offset status (data_block r) (index_block r) (t_last_key r) (num_entries r) (closed r) (filter_block r) (pending_index_entry r) (pending_handle r).

Definition set_data_block (r : TableRep) (b : BlockBuilder) : TableRep :=
  mkTableRep (t_options r) (t_file r) (t_offset r) (t_status r) b (index_block r) (t_last_key r) (num_entries r) (closed r) (filter_block r) (pending_index_entry r) (pending_handle r).

Definition set_index (r : TableRep) (b : BlockBuilder) (last_key : bytes) (pending : bool) : TableRep :=
  mkTableRep (t_options r) (t_file r) (t_offset r) (t_status r) (data_block r) b last_key (num_entries r) (closed r) (filter_block r) pending (pending_handle r).

Definition set_pending (r : TableRep) (pending : bool) (handle : BlockHandle) : TableRep :=
  mkTableRep (t_options r) (t_file r) (t_offset r) (t_status r) (data_block r) (index_block r) (t_last_key r) (num_entries r) (closed r) (filter_block r) pending handle.

Definition set_filter (r : TableRep) (f : option FilterBlockBuilder) : TableRep :=
  mkTableRep (t_options r) (t_file r) (t_offset r) (t_status r) (data_block r) (index_block r) (t_last_key r) (num_entries r) (closed r) f (pending_index_entry r) (pending_handle r).

Definition set_closed (r : TableRep) : TableRep :=
  mkTableRep (t_options r) (t_file r) (t_offset r) (t_status r) (data_block r) (index_block r) (t_last_key r) (num_entries r) true (filter_block r) (pending_index_entry r) (pending_handle r).

Definition set_entry (r : TableRep) (key : bytes) (n : Z) : TableRep :=
  mkTableRep (t_options r) (t_file r) (t_offset r) (t_status r) (data_block r) (index_block r) key n (closed r) (filter_block r) (pending_index_entry r) (pending_handle r).

(** [same_comparator]: the new options name the comparator the builder has. *)
Definition ChangeOptions (r : TableRep) (options : TableOptions) (same_comparator : bool) : TableRep * Status :=
  if negb same_comparator then (r, InvalidArgument "changing comparator while building table")
  else
    let data := mkBuilder (to_restart_interval options) (buffer_ (data_block r)) (restarts_ (data_block r)) (counter_ (data_block r)) (finished_ (data_block r)) (last_key_ (data_block r)) in
    (mkTableRep options (t_file r) (t_offset r) (t_status r) data (index_block r) (t_last_key r) (num_entries r) (closed r) (filter_block r) (pending_index_entry r) (pending_handle r), OK).

(** The contents to write and their type. A type outside of the enumeration writes nothing. *)
Definition compress_block (options : TableOptions) (raw : bytes) : bytes * Z :=
  let type := to_compression options in
  let keep_smaller (compressed : option bytes) :=
    match compressed with
    | Some c => if zlen c <? zlen raw - zlen raw / 8 then (c, type) else (raw, kNoCompression)
    | None => (raw, kNoCompression)
    end in
  if type =? kNoCompression then (raw, type)
  else if type =? kSnappyCompression then keep_smaller (Snappy_Compress raw)
  else if type =? kZstdCompression then keep_smaller (Zstd_Compress (to_zstd_level options) raw)
  else ([], type).

(** [WriteRawBlock] on the builder. *)
Definition write_raw (r : TableRep) (contents : bytes) (type : Z) : TableRep * BlockHandle :=
  let '(file, offset, status, handle) := WriteRawBlock (t_file r) (t_offset r) contents type in
  (set_output r file offset status, handle).

(** The builder, the block builder after [Reset], and the handle. *)
Definition WriteBlock (r : TableRep) (block : BlockBuilder) : outcome (TableRep * BlockBuilder * BlockHandle) :=
  assert! ok (t_status r);
  let (block, raw) := BlockBuilder.Finish block in
  let (contents, type) := compress_block (t_options r) raw in
  let (r, handle) := write_raw r contents type in
  Ret (r, Reset block, handle).

(** The written block waits for its index entry. *)
Definition flush_block (r : TableRep) : TableRep :=
  if ok (t_status r) then
    let r := set_pending r true (pending_handle r) in
    let (file, s) := Flush (t_file r) in
    set_output r file (t_offset r) s
  else r.

(** The filter of the block that starts here. *)
Definition start_filter (r : TableRep) : outcome TableRep :=
  match filter_block r with
  | None => Ret r
  | Some f => let! f := StartBlock f (t_offset r) in Ret (set_filter r (Some f))
  end.

Definition table_Flush (r : TableRep) : outcome TableRep :=
  assert! negb (closed r);
  if negb (ok (t_status r)) then Ret r
  else if builder_empty (data_block r) then Ret r
  else
    assert! negb (pending_index_entry r);
    let! (r, block, handle) := WriteBlock r (data_block r) in
    let r := set_pending (set_data_block r block) (pending_index_entry r) handle in
    start_filter (flush_block r).

(** The index entry of the block before, now that the next key is known. *)
Definition add_pending (r : TableRep) (key : bytes) : outcome TableRep :=
  if pending_index_entry r then
    assert! builder_empty (data_block r);
    let! last_key := FindShortestSeparator (t_last_key r) key in
    let! handle_encoding := EncodeHandle (pending_handle r) [] in
    let! index := Add (index_block r) last_key handle_encoding in
    Ret (set_index r index last_key false)
  else Ret r.

Definition table_Add (r : TableRep) (key value : bytes) : outcome TableRep :=
  assert! negb (closed r);
  if negb (ok (t_status r)) then Ret r
  else
    assert! negb (0 <? num_entries r) || (0 <? Compare key (t_last_key r));
    let! r := add_pending r key in
    let r := match filter_block r with Some f => set_filter r (Some (AddKey f key)) | None => r end in
    let r := set_entry r key (num_entries r + 1) in
    let! data := Add (data_block r) key value in
    let r := set_data_block r data in
    if to_block_size (t_options r) <=? CurrentSizeEstimate (data_block r) then table_Flush r else Ret r.

Definition filter_key (name : bytes) : bytes := str "filter." ++ name.

(** The metaindex block: where the filter is. *)
Definition metaindex_builder (r : TableRep) (filter_handle : BlockHandle) : outcome BlockBuilder :=
  let! b := new_BlockBuilder (to_restart_interval (t_options r)) in
  match filter_block r, to_filter_name (t_options r) with
  | Some _, Some name =>
      let! handle_encoding := EncodeHandle filter_handle [] in
      Add b (filter_key name) handle_encoding
  | _, _ => Ret b
  end.

(** The last index entry, under a short key after all keys. *)
Definition add_last (r : TableRep) : outcome TableRep :=
  if pending_index_entry r then
    let! last_key := FindShortSuccessor (t_last_key r) in
    let! handle_encoding := EncodeHandle (pending_handle r) [] in
    let! index := Add (index_block r) last_key handle_encoding in
    Ret (set_index r index last_key false)
  else Ret r.

Definition table_Finish (r : TableRep) : outcome (TableRep * Status) :=
  let! r := table_Flush r in
  assert! negb (closed r);
  let r := set_closed r in
  let (r, filter_handle) :=
    match filter_block r with
    | Some f => if ok (t_status r) then write_raw r (FilterBlock.Finish f) kNoCompression else (r, new_BlockHandle)
    | None => (r, new_BlockHandle)
    end in
  let! (r, metaindex_handle) :=
    if ok (t_status r) then
      let! b := metaindex_builder r filter_handle in
      let! (r, _, handle) := WriteBlock r b in
      Ret (r, handle)
    else Ret (r, new_BlockHandle) in
  let! (r, index_handle) :=
    if ok (t_status r) then
      let! r := add_last r in
      let! (r, block, handle) := WriteBlock r (index_block r) in
      Ret (set_index r block (t_last_key r) (pending_index_entry r), handle)
    else Ret (r, new_BlockHandle) in
  let! r :=
    if ok (t_status r) then
      let! footer_encoding := EncodeFooter (mkFooter metaindex_handle index_handle) [] in
      let (file, s) := Append (t_file r) footer_encoding in
      Ret (set_output r file (if ok s then u64 (t_offset r + zlen footer_encoding) else t_offset r) s)
    else Ret r in
  Ret (r, t_status r).

Definition table_Abandon (r : TableRep) : outcome TableRep :=
  assert! negb (closed r);
  Ret (set_closed r).

Definition NumEntries (r : TableRep) : Z := num_entries r.

Definition FileSize (r : TableRep) : Z := t_offset r.

(** The destructor. *)
Definition delete_TableBuilder (r : TableRep) : outcome unit := assert! closed r; Ret tt.

(** A client adds entries and finishes. *)
Fixpoint table_AddAll (r : TableRep) (es : list (bytes * bytes)) : outcome TableRep :=
  match es with
  | [] => Ret r
  | (k, v) :: es => let! r := table_Add r k v in table_AddAll r es
  end.

Definition write_table (options : TableOptions) (file : F) (es : list (bytes * bytes)) : outcome (TableRep * Status) :=
  let! r := new_TableBuilder options file in
  let! r := table_AddAll r es in
  table_Finish r.
End TableBuilder.
