(* ===== verification/Table.v ===== *)
(** * Reading a table

    [table/table.cc] and [ReadBlock] of [table/format.cc]: a table is opened from its footer and
    its index block, its filter is found through the metaindex block, and its entries are read
    through a two-level iterator or, for one key, through the filter and one block. *)

From stdpp Require Import sorting.
From S2P Require Import Prelude Coding Env Crc32c Cache Comparator DbFormat SkipList MemTable Version BlockBuilder Block BlockCorrect Format Filter FilterBlock Filename Iterator BlockIter TableBuilder DBIter MergingIterator TwoLevelIterator.

Open Scope outcome_scope.

(** The second decompressor of the port layer. *)
Class Zstd := {
  Zstd_GetUncompressedLength : bytes -> option Z;
  Zstd_Uncompress : bytes -> option bytes;
}.

(** [Table::Rep], with the bytes it refers to owned by it. *)
Record Table (F : Type) := mkTable {
  tab_options : TableOptions;
  tab_file : F;
  cache_id : Z;
  tab_filter : option FilterBlockReader;
  metaindex_handle : BlockHandle;
  tab_index_block : Block;
}.
Arguments mkTable {F} _ _ _ _ _ _.
Arguments tab_options {F} _.
Arguments tab_file {F} _.
Arguments cache_id {F} _.
Arguments tab_filter {F} _.
Arguments metaindex_handle {F} _.
Arguments tab_index_block {F} _.

Definition new_ReadOptions : ReadOptions := mkReadOptions false true.

(** The options for the blocks read when a table is opened. *)
Definition open_options (paranoid_checks : bool) : ReadOptions :=
  if paranoid_checks then mkReadOptions true true else new_ReadOptions.

Section Table.
Context `{Comparator} `{FilterPolicy} `{Crc32c} `{Snappy} `{Zstd} {F : Type} `{RandomAccessFile F}.
Abbreviation Table := (Table F).

(** The result of a decompressor, as a slice of the announced length. *)
Definition uncompressed (what : string) (length : option Z) (output : option bytes) : BlockContents * Status :=
  match length with
  | None => (no_contents, Corruption ("corrupted " ++ what ++ " compressed block length"))
  | Some ulength =>
      match output with
      | None => (no_contents, Corruption ("corrupted " ++ what ++ " compressed block contents"))
      | Some out => (mkContents (ztake ulength out) true true, OK)
      end
  end.

Definition table_ReadBlock (file : F) (options : ReadOptions) (handle : BlockHandle) : BlockContents * Status :=
  let n := handle_size handle in
  let '(s, data, in_buf) := RandRead file (handle_offset handle) (u64 (n + kBlockTrailerSize)) in
  if negb (ok s) then (no_contents, s)
  else if negb (zlen data =? u64 (n + kBlockTrailerSize)) then (no_contents, Corruption "truncated block read")
  else if verify_checksums options && negb (Value (ztake (n + 1) data) =? Unmask (DecodeFixed32 (zdrop (n + 1) data))) then
    (no_contents, Corruption "block checksum mismatch")
  else
    let type := schar (nth (Z.to_nat n) data x00) in
    if type =? kNoCompression then (mkContents (ztake n data) in_buf in_buf, OK)
    else if type =? kSnappyCompression then uncompressed "snappy" (Snappy_GetUncompressedLength (ztake n data)) (Snappy_Uncompress (ztake n data))
    else if type =? kZstdCompression then uncompressed "zstd" (Zstd_GetUncompressedLength (ztake n data)) (Zstd_Uncompress (ztake n data))
    else (no_contents, Corruption "bad block type").

(** [ReadFilter]: the filter, if the handle and the block can be read. *)
Definition ReadFilter (t : Table) (filter_handle_value : bytes) : option FilterBlockReader :=
  let '(filter_handle, _, s) := DecodeHandle new_BlockHandle filter_handle_value in
  if negb (ok s) then tab_filter t
  else
    let (block, s) := table_ReadBlock (tab_file t) (open_options (to_paranoid_checks (tab_options t))) filter_handle in
    if negb (ok s) then tab_filter t else Some (new_FilterBlockReader (bc_data block)).

Definition set_table_filter (t : Table) (filter : option FilterBlockReader) : Table :=
  mkTable (tab_options t) (tab_file t) (cache_id t) filter (metaindex_handle t) (tab_index_block t).

(** [ReadMeta]. The keys of the metaindex block are in bytewise order. *)
Definition ReadMeta (t : Table) (footer : Footer) : outcome Table :=
  match to_filter_name (tab_options t) with
  | None => Ret t
  | Some name =>
      let (contents, s) := table_ReadBlock (tab_file t) (open_options (to_paranoid_checks (tab_options t))) (metaindex_handle_ footer) in
      if negb (ok s) then Ret t
      else
        let! meta := new_Block (bc_data contents) in
        let! iter := NewIterator meta in
        let key := filter_key name in
        let! iter := it_Seek (Iterator := @BlockIterator_Iterator BytewiseComparator) iter key in
        if it_Valid (Iterator := @BlockIterator_Iterator BytewiseComparator) iter then
          let! k := it_key (Iterator := @BlockIterator_Iterator BytewiseComparator) iter in
          if bool_decide (k = key) then
            let! v := it_value (Iterator := @BlockIterator_Iterator BytewiseComparator) iter in
            Ret (set_table_filter t (ReadFilter t v))
          else Ret t
        else Ret t
  end.

(** [Open]; [id] is the number [NewId] of the block cache returned, or 0. *)
Definition Open (options : TableOptions) (file : F) (size : Z) (id : Z) : outcome (option Table * Status) :=
  if size <? kEncodedLength then Ret (None, Corruption "file is too short to be an sstable")
  else
    let '(s, footer_input, _) := RandRead file (size - kEncodedLength) kEncodedLength in
    if negb (ok s) then Ret (None, s)
    else
      let! (footer, _, s) := DecodeFooter new_Footer footer_input in
      if negb (ok s) then Ret (None, s)
      else
        let (contents, s) := table_ReadBlock file (open_options (to_paranoid_checks options)) (index_handle_ footer) in
        if ok s then
          let! index := new_Block (bc_data contents) in
          let! t := ReadMeta (mkTable options file id None (metaindex_handle_ footer) index) footer in
          Ret (Some t, s)
        else Ret (None, s).

(** The key of a block in the block cache. *)
Definition block_cache_key (t : Table) (handle : BlockHandle) : bytes :=
  EncodeFixed64 (cache_id t) ++ EncodeFixed64 (handle_offset handle).

(** A block from the file. *)
Definition read_new_block (t : Table) (options : ReadOptions) (handle : BlockHandle) : outcome (option (Block * bool) * Status) :=
  let (contents, s) := table_ReadBlock (tab_file t) options handle in
  if ok s then
    let! block := new_Block (bc_data contents) in
    Ret (Some (block, cachable contents), s)
  else Ret (None, s).

(** [Cache::Value] of a handle of the entry under [key]. *)
Definition cache_Value {V} (c : ShardedLRUCache V) (key : bytes) (e : nat) : outcome V :=
  match shard_ c !! Z.to_nat (Shard (HashSlice key)) with
  | Some s => let! h := deref (heap_ s) e in Ret (value h)
  | None => AssertFailed
  end.

(** The block of a handle, from the cache or from the file, which is then cached if it may be; the
    handle in the cache, if the block is there. *)
Definition fetch_block (t : Table) (cache : option (ShardedLRUCache Block)) (options : ReadOptions) (handle : BlockHandle)
    : outcome (option (ShardedLRUCache Block) * option Block * option nat * Status) :=
  match cache with
  | None =>
      let! (block, s) := read_new_block t options handle in
      Ret (None, fst <$> block, None, s)
  | Some c =>
      let key := block_cache_key t handle in
      let! (c, found) := sharded_Lookup c key in
      match found with
      | Some e =>
          let! block := cache_Value c key e in
          Ret (Some c, Some block, Some e, OK)
      | None =>
          let! (block, s) := read_new_block t options handle in
          match block with
          | Some (b, true) =>
              if fill_cache options then
                let! (c, e) := sharded_Insert c key b (size_ b) in
                Ret (Some c, Some b, Some e, s)
              else Ret (Some c, Some b, None, s)
          | Some (b, false) => Ret (Some c, Some b, None, s)
          | None => Ret (Some c, None, None, s)
          end
      end
  end.

(** The iterator over a block, and the handle its destruction releases. *)
Definition BlockReader (t : Table) (cache : option (ShardedLRUCache Block)) (options : ReadOptions) (index_value : bytes)
    : outcome (option (ShardedLRUCache Block) * BlockIterator * option nat) :=
  let '(handle, _, s) := DecodeHandle new_BlockHandle index_value in
  let! (cache, block, cache_handle, s) :=
    if ok s then fetch_block t cache options handle else Ret (cache, None, None, s) in
  match block with
  | Some b => let! iter := NewIterator b in Ret (cache, iter, cache_handle)
  | None => Ret (cache, ErrorIterator s, None)
  end.

(** The block function of a table without a block cache. *)
Definition block_function (t : Table) (options : ReadOptions) (index_value : bytes) : outcome (option BlockIterator) :=
  let! (_, iter, _) := BlockReader t None options index_value in
  Ret (Some iter).

Definition table_NewIterator (t : Table) : outcome (TwoLevelIterator BlockIterator BlockIterator) :=
  let! index_iter := NewIterator (tab_index_block t) in
  NewTwoLevelIterator index_iter.

(** [InternalGet] without a block cache; [handle_result] is called with the entry found, on the state [st]. *)
Definition InternalGet {S} (t : Table) (options : ReadOptions) (k : bytes) (handle_result : S -> bytes -> bytes -> outcome S) (st : S) : outcome (S * Status) :=
  let! iiter := NewIterator (tab_index_block t) in
  let! iiter := it_Seek iiter k in
  let! (st, s) :=
    if it_Valid iiter then
      let! handle_value := it_value iiter in
      let! skip := match tab_filter t with
        | None => Ret false
        | Some filter =>
            let '(handle, _, s) := DecodeHandle new_BlockHandle handle_value in
            if ok s then let! may := reader_KeyMayMatch filter (handle_offset handle) k in Ret (negb may) else Ret false
        end in
      if skip then Ret (st, OK)
      else
        let! (_, block_iter, _) := BlockReader t None options handle_value in
        let! block_iter := it_Seek block_iter k in
        let! st :=
          if it_Valid block_iter then
            let! key := it_key block_iter in
            let! value := it_value block_iter in
            handle_result st key value
          else Ret st in
        Ret (st, it_status block_iter)
    else Ret (st, OK) in
  Ret (st, if ok s then it_status iiter else s).

Definition table_ApproximateOffsetOf (t : Table) (key : bytes) : outcome Z :=
  let! index_iter := NewIterator (tab_index_block t) in
  let! index_iter := it_Seek index_iter key in
  if it_Valid index_iter then
    let! input := it_value index_iter in
    let '(handle, _, s) := DecodeHandle new_BlockHandle input in
    Ret (if ok s then handle_offset handle else handle_offset (metaindex_handle t))
  else Ret (handle_offset (metaindex_handle t)).
End Table.
