(* ===== verification/TableCorrect.v ===== *)
(** * What the table builder writes

    The invariant of the table builder: the file holds the finished blocks one after the other, the
    index has an entry for each of them, and the filter has the keys of each block under the
    block's offset. A builder whose file has failed does nothing more. *)

From stdpp Require Import sorting sets.
From S2P Require Import Prelude Coding Env Crc32c Comparator DbFormat BlockBuilder Block BlockCorrect Format Filter FilterBlock Filename Iterator BlockIter TableBuilder.

Open Scope outcome_scope.

(** Shortened keys are not longer than the key they come from. *)
Class SeparatorLengths `{Comparator} : Prop := {
  separator_length a b s : FindShortestSeparator a b = Ret s -> zlen s <= zlen a;
  successor_length a s : FindShortSuccessor a = Ret s -> zlen s <= zlen a;
}.

#[global] Instance bytewise_lengths : @SeparatorLengths BytewiseComparator.
Proof.
  split; cbn.
  - intros a b s. unfold bytewise_separator. destruct (Z.leb_spec (Z.min (zlen a) (zlen b)) (diff_index a b)); [by intros [= <-]|].
    destruct (_ && _); [|by intros [= <-]]. destruct (_ <? 0); cbn [oassert obind]; [|done]. intros [= <-].
    pose proof (diff_index_bounds a b). rewrite zlen_app, zlen_ztake by lia. change (zlen [_]) with 1. lia.
  - intros a s [= <-]. induction a as [|x a IH]; cbn [bytewise_successor]; [done|]. destruct (negb _); rewrite !zlen_cons; [|lia]. change (zlen []) with 0. zlen_pos. lia.
Qed.

#[global] Instance internal_lengths `{Comparator} : @SeparatorLengths InternalKeyComparator.
Proof.
  assert (forall k : bytes, internal_key k = true -> zlen (ExtractUserKey k) + 8 = zlen k) as Hu.
  { intros k Hk. unfold internal_key in Hk. unfold ExtractUserKey. rewrite zlen_ztake by lia. lia. }
  split; cbn.
  - intros a b s. unfold internal_separator. destruct (internal_key a) eqn:Ea; cbn [oassert obind]; [|done]. destruct (internal_key b); cbn [oassert obind]; [|done].
    destruct (FindShortestSeparator _ _) as [t| |]; cbn [obind]; try done. destruct (Z.ltb_spec (zlen t) (zlen (ExtractUserKey a))) as [Hlt|]; cbn [andb]; [|by intros [= <-]].
    destruct (_ <? 0); [|by intros [= <-]]. destruct (PackSequenceAndType _ _) as [tg| |]; cbn [obind]; try done. destruct (_ <? 0); cbn [oassert obind]; [|done]. destruct (_ <? 0); cbn [oassert obind]; [|done].
    intros [= <-]. unfold PutFixed64. rewrite zlen_app, EncodeFixed64_length. specialize (Hu a Ea). lia.
  - intros a s. unfold internal_successor. destruct (internal_key a) eqn:Ea; cbn [oassert obind]; [|done].
    destruct (FindShortSuccessor _) as [t| |]; cbn [obind]; try done. destruct (Z.ltb_spec (zlen t) (zlen (ExtractUserKey a))) as [Hlt|]; cbn [andb]; [|by intros [= <-]].
    destruct (_ <? 0); [|by intros [= <-]]. destruct (PackSequenceAndType _ _) as [tg| |]; cbn [obind]; try done. destruct (_ <? 0); cbn [oassert obind]; [|done].
    intros [= <-]. unfold PutFixed64. rewrite zlen_app, EncodeFixed64_length. specialize (Hu a Ea). lia.
Qed.

(** ** Finished blocks *)

Section Blocks.
Context `{laws : ComparatorLaws}.

Lemma Finish_block_of b l : building b l -> budget (map entry l) + 8 < 2 ^ 32 -> block_of (snd (BlockBuilder.Finish b)) (map entry l).
Proof.
  intros B Hb. exists l, (restarts_ b). pose proof (bg_budget _ _ B) as Hbud. pose proof (bg_count _ _ B) as Hn.
  assert (zlen (restarts_ b) <= 1 + zlen l) by (unfold zlen; lia).
  assert (zlen (block_image l (restarts_ b)) < 2 ^ 32) as Hsz.
  { unfold block_image. rewrite !zlen_app, zlen_fixed32_array, EncodeFixed32_length. lia. }
  split_and!; [| done | apply B | apply B | done].
  unfold BlockBuilder.Finish, block_image, PutFixed32. simpl. rewrite PutRestarts_app, (bg_buffer _ _ B).
  rewrite u32_small by (zlen_pos; lia). by rewrite <- app_assoc.
Qed.

Lemma Reset_building b l : building b l -> building (Reset (fst (BlockBuilder.Finish b))) [].
Proof.
  intros B. pose proof (bg_interval _ _ B). split; simpl; try done; try lia. split; [done| |].
  - intros [|a] [|c] x y; simpl; try done; lia.
  - simpl. by intros r ?%elem_of_nil.
Qed.

Lemma builder_empty_spec b l : building b l -> builder_empty b = bool_decide (l = []).
Proof.
  intros B. unfold builder_empty. rewrite (bg_buffer _ _ B). destruct l as [|i l]; [done|]. rewrite bool_decide_eq_false_2 by done.
  change (i :: l) with ([i] ++ l). rewrite items_bytes_app, zlen_app. unfold items_bytes at 1. simpl. rewrite app_nil_r. pose proof (item_bytes_pos i). zlen_pos. destruct (Z.eqb_spec (zlen (item_bytes i) + zlen (items_bytes l)) 0); [lia|done].
Qed.
End Blocks.

(** ** Filters *)

Section Filters.
Context `{FilterPolicyLaws}.

(** The builder at offset [off]: the keys [done] of the blocks so far, each with the offset of its block, are
    in their filters. *)
Definition filter_state (f : FilterBlockBuilder) (off : Z) (done : list (Z * bytes)) : Prop :=
  exists fs ks, holds f fs ks /\ zlen fs = off / kFilterBase /\ zlen (concat (all_filters fs ks)) = zlen done /\
    forall o k, (o, k) ∈ done -> in_filter (all_filters fs ks) o k.

Lemma new_filter_state : exists f, StartBlock new_FilterBlockBuilder 0 = Ret f /\ filter_state f 0 [].
Proof.
  destruct (StartBlock_holds new_FilterBlockBuilder [] [] 0) as (f & fs & ks & Hf & Hh & Hn & _ & Hc); [done|done|done|].
  exists f. split; [done|]. exists fs, ks. split; [done|]. split; [done|]. split; [by rewrite Hc|]. by intros o k ?%elem_of_nil.
Qed.

Lemma AddKey_state f off done k : 0 <= off -> filter_state f off done -> filter_state (AddKey f k) off (done ++ [(off, k)]).
Proof.
  intros Hoff (fs & ks & Hh & Hn & Hc & Hin). exists fs, (ks ++ [k]). split; [by apply AddKey_holds|]. split; [done|]. unfold all_filters in *. split.
  { rewrite concat_app in *. rewrite !zlen_app in *. cbn [concat] in *. rewrite !app_nil_r in *. rewrite zlen_app. change (zlen [_]) with 1. change (zlen [_]) with 1. lia. }
  assert (extends (fs ++ [ks]) (fs ++ [ks ++ [k]])) as Hx.
  { intros i s Hs. apply lookup_snoc_Some in Hs as [[Hi Hs]|[-> <-]].
    - exists []. rewrite app_nil_r. by apply lookup_app_l_Some.
    - exists [k]. by rewrite lookup_app_r, Nat.sub_diag by lia. }
  intros o k' [Ho|[= -> ->]%list_elem_of_singleton]%elem_of_app; [eapply in_filter_extends; [exact Hx|by apply Hin]|].
  exists (ks ++ [k]). split; [|apply elem_of_app; right; by apply list_elem_of_singleton].
  rewrite lookup_app_r by (unfold zlen in Hn; lia). replace (Z.to_nat (off / kFilterBase) - length fs)%nat with 0%nat by (unfold zlen in Hn; lia). done.
Qed.

Lemma StartBlock_state f off done off' : 0 <= off -> off <= off' -> filter_state f off done -> exists f', StartBlock f off' = Ret f' /\ filter_state f' off' done.
Proof.
  intros Hoff Hle (fs & ks & Hh & Hn & Hc & Hin). destruct (StartBlock_holds f fs ks off' Hh) as (f' & fs' & ks' & -> & Hh' & Hn' & Hx & Hc'); [lia|rewrite Hn; by apply div_base_mono|].
  exists f'. split; [done|]. exists fs', ks'. split; [done|]. split; [done|]. split; [by rewrite Hc'|]. intros o k Ho. eapply in_filter_extends; [exact Hx|by apply Hin].
Qed.

(** The finished filter block answers "maybe" for every key. *)
Lemma Finish_state f off done : filter_state f off done -> zlen done < 2 ^ 31 -> zlen (FilterBlock.Finish f) < 2 ^ 32 ->
  forall o k, 0 <= o -> (o, k) ∈ done -> reader_KeyMayMatch (new_FilterBlockReader (FilterBlock.Finish f)) o k = Ret true.
Proof.
  intros (fs & ks & Hh & Hn & Hc & Hin) Hlen Hsz o k Ho Hok. specialize (Hin o k Hok). rewrite (Finish_image f fs ks Hh) in *.
  assert (zlen (concat fs) + zlen ks < 2 ^ 31) as Hl by (unfold all_filters in Hc; rewrite concat_app, zlen_app in Hc; simpl in Hc; rewrite app_nil_r in Hc; lia).
  zlen_pos. destruct ks as [|k0 ks].
  - apply reader_finds; [done|done|lia|]. destruct Hin as (s & Hs & Hks). exists s. split; [|done].
    apply lookup_snoc_Some in Hs as [[_ Hs]|[_ <-]]; [done|by apply elem_of_nil in Hks].
  - apply reader_finds; [done|done| |done]. rewrite concat_app, zlen_app. simpl. rewrite app_nil_r. lia.
Qed.
End Filters.

(** ** The invariant *)

(** A data block of the file: the key of its index entry, its entries, the finished block and its
    offset. *)
Record dblock := mkDBlock { b_sep : bytes; b_entries : list (bytes * bytes); b_raw : bytes; b_off : Z }.

Definition last_key_of (es : list (bytes * bytes)) : bytes := default [] (fst <$> list.last es).

Lemma last_key_of_snoc es k v : last_key_of (es ++ [(k, v)]) = k.
Proof. unfold last_key_of. by rewrite last_snoc. Qed.

(** An entry of a data block can bring an entry of the index with it. *)
Definition table_budget (es : list (bytes * bytes)) : Z := budget es + 20 * zlen es.

Lemma table_budget_app es fs : table_budget (es ++ fs) = table_budget es + table_budget fs.
Proof. unfold table_budget. rewrite budget_app, zlen_app. lia. Qed.

Lemma table_budget_ge es : budget es <= table_budget es.
Proof. unfold table_budget. zlen_pos. lia. Qed.

Lemma table_budget_nonneg es : 0 <= table_budget es.
Proof. pose proof (budget_nonneg es). pose proof (table_budget_ge es). lia. Qed.

Lemma last_key_of_elem es : es ≠ [] -> exists e, e ∈ es /\ e.1 = last_key_of es.
Proof. intros Hne. destruct (exists_last Hne) as (l & [k v] & ->). exists (k, v). rewrite last_key_of_snoc. split; [set_solver|done]. Qed.

Lemma last_key_of_app es es' : es' ≠ [] -> last_key_of (es ++ es') = last_key_of es'.
Proof. intros Hne. destruct (exists_last Hne) as (l & [k v] & ->). by rewrite app_assoc, !last_key_of_snoc. Qed.

Section Layout.
Context `{Crc32c} `{Compressors} (o : TableOptions).

(** The bytes of a block with its trailer, and the size in its handle. *)
Definition stored (raw : bytes) : bytes := let (c, t) := compress_block o raw in c ++ block_trailer c t.
Definition stored_size (raw : bytes) : Z := zlen (fst (compress_block o raw)).

Lemma zlen_stored raw : zlen (stored raw) = stored_size raw + kBlockTrailerSize.
Proof. unfold stored, stored_size. destruct (compress_block o raw) as [c t]. by rewrite zlen_app, zlen_block_trailer. Qed.

Definition b_handle (b : dblock) : BlockHandle := mkHandle (b_off b) (stored_size (b_raw b)).

Definition image_of (blocks : list dblock) : bytes := mjoin ((fun b => stored (b_raw b)) <$> blocks).

Lemma image_of_snoc blocks b : image_of (blocks ++ [b]) = image_of blocks ++ stored (b_raw b).
Proof. unfold image_of. rewrite fmap_app, join_app. f_equal. apply app_nil_r. Qed.

(** Every block stands at its offset. *)
Definition placed (blocks : list dblock) : Prop := forall pre b post, blocks = pre ++ b :: post -> b_off b = zlen (image_of pre).

Lemma snoc_split {A} (l : list A) x pre y post : l ++ [x] = pre ++ y :: post -> (post = [] /\ pre = l /\ y = x) \/ exists post', post = post' ++ [x] /\ l = pre ++ y :: post'.
Proof.
  intros Heq. destruct post as [|z post] using rev_ind.
  - apply app_inj_tail in Heq as [-> ->]. by left.
  - right. exists post. rewrite app_comm_cons, app_assoc in Heq. apply app_inj_tail in Heq as [-> ->]. done.
Qed.

Lemma placed_snoc blocks b : placed blocks -> b_off b = zlen (image_of blocks) -> placed (blocks ++ [b]).
Proof. intros Hp Hb pre y post [(_ & -> & ->)|(post' & _ & ->)]%snoc_split; [done|]. by eapply Hp. Qed.

(** The keys of the blocks, with the offsets of the blocks. *)
Definition keyed (blocks : list dblock) : list (Z * bytes) := mjoin ((fun b => (fun e => (b_off b, e.1)) <$> b_entries b) <$> blocks).

Lemma keyed_snoc blocks b : keyed (blocks ++ [b]) = keyed blocks ++ ((fun e => (b_off b, e.1)) <$> b_entries b).
Proof. unfold keyed. rewrite fmap_app, join_app. f_equal. apply app_nil_r. Qed.

Definition entries_of (blocks : list dblock) : list (bytes * bytes) := mjoin (b_entries <$> blocks).

Lemma entries_of_snoc blocks b : entries_of (blocks ++ [b]) = entries_of blocks ++ b_entries b.
Proof. unfold entries_of. rewrite fmap_app, join_app. f_equal. apply app_nil_r. Qed.

Lemma entries_of_app blocks blocks' : entries_of (blocks ++ blocks') = entries_of blocks ++ entries_of blocks'.
Proof. unfold entries_of. by rewrite fmap_app, join_app. Qed.

Lemma zlen_keyed blocks : zlen (keyed blocks) = zlen (entries_of blocks).
Proof.
  induction blocks as [|x blocks IH] using rev_ind; [done|]. rewrite keyed_snoc, entries_of_snoc, !zlen_app, IH. f_equal. unfold zlen. by rewrite length_fmap.
Qed.
End Layout.

Section Building.
Context `{laws : ComparatorLaws} `{lens : !SeparatorLengths} `{flaws : FilterPolicyLaws} `{Crc32c} `{Compressors} {F : Type} `{wlaws : WritableFileLaws F}.
Context (o : TableOptions).
Hypothesis interval_ok : 1 <= to_restart_interval o.

(** No file grows beyond what its offsets can say. *)
Hypothesis file_limit : forall f d f', Append f d = (f', OK) -> zlen (contents f') < 2 ^ 63.

Abbreviation TableRep := (TableRep F).
Abbreviation stored := (stored o).
Abbreviation image_of := (image_of o).
Abbreviation b_handle := (b_handle o).

Definition opt_list {A} (x : option A) : list A := match x with Some a => [a] | None => [] end.

(** The index entries of the blocks [bs]. *)
Definition index_entry (b : dblock) : bytes * bytes := (b_sep b, handle_bytes (b_handle b)).

Definition indexed (index : BlockBuilder) (bs : list dblock) : Prop := exists l, building index l /\ map entry l = index_entry <$> bs.

(** The key of an index entry is at or after the keys of its block and before those of the
    next ones; the comparator found it between its block and the next key. *)
Definition sep_ok (b : dblock) (later : list (bytes * bytes)) : Prop :=
  (forall e, e ∈ b_entries b -> Compare e.1 (b_sep b) <= 0) /\ (forall e, e ∈ later -> Compare (b_sep b) e.1 < 0) /\
  valid_key (b_sep b) /\ zlen (b_sep b) <= zlen (last_key_of (b_entries b)) /\
  (forall e later', later = e :: later' -> FindShortestSeparator (last_key_of (b_entries b)) e.1 = Ret (b_sep b)).

Definition seps_ok (bs : list dblock) (later : list (bytes * bytes)) : Prop :=
  forall pre b post, bs = pre ++ b :: post -> sep_ok b (entries_of post ++ later).

(** The filter builder at offset [off], with the keys [done]. *)
Definition filter_at (f : option FilterBlockBuilder) (off : Z) (done : list (Z * bytes)) : Prop :=
  match f with
  | Some f => is_Some (to_filter_name o) /\ filter_state f off done
  | None => to_filter_name o = None
  end.

Definition filter_ok (r : TableRep) (blocks : list dblock) (cur : list (bytes * bytes)) : Prop :=
  filter_at (filter_block r) (t_offset r) (keyed blocks ++ ((fun e => (t_offset r, e.1)) <$> cur)).

(** The blocks [bs] have their index entries, [pend] waits for the next key, [cur] are the entries of the
    current block. *)
Record tgood (r : TableRep) (bs : list dblock) (pend : option dblock) (cur : list (bytes * bytes)) : Prop := mkTGood {
  tg_options : t_options r = o;
  tg_status : t_status r = OK;
  tg_closed : closed r = false;
  tg_file : contents (t_file r) = image_of (bs ++ opt_list pend);
  tg_offset : t_offset r = zlen (image_of (bs ++ opt_list pend));
  tg_limit : zlen (image_of (bs ++ opt_list pend)) < 2 ^ 63;
  tg_placed : placed o (bs ++ opt_list pend);
  tg_blocks : Forall (fun b => block_of (b_raw b) (b_entries b) /\ b_entries b ≠ []) (bs ++ opt_list pend);
  tg_data : exists l, building (data_block r) l /\ map entry l = cur;
  tg_num : num_entries r = zlen (entries_of (bs ++ opt_list pend) ++ cur);
  tg_filter : filter_ok r (bs ++ opt_list pend) cur;
  tg_pending : pending_index_entry r = bool_decide (is_Some pend);
  tg_handle : forall b, pend = Some b -> pending_handle r = b_handle b /\ cur = [];
  tg_index : indexed (index_block r) bs;
  tg_seps : seps_ok bs (entries_of (opt_list pend) ++ cur);
}.

Definition tfailed (r : TableRep) : Prop := t_status r ≠ OK /\ closed r = false.

Lemma not_ok s : s ≠ OK -> ok s = false.
Proof. by destruct s. Qed.

(** *** Writing *)

Lemma write_raw_spec r c t : zlen (contents (t_file r)) = t_offset r ->
  exists r' handle, write_raw r c t = (r', handle) /\ handle = mkHandle (t_offset r) (zlen c) /\
    exists f' off' s', r' = set_output r f' off' s' /\
      ((s' = OK /\ contents f' = contents (t_file r) ++ c ++ block_trailer c t /\ off' = t_offset r + zlen c + kBlockTrailerSize /\ off' < 2 ^ 63) \/ (s' ≠ OK /\ off' = t_offset r)).
Proof.
  intros Hlen. unfold write_raw, WriteRawBlock. destruct (Append (t_file r) c) as [f1 s1] eqn:E1. destruct (ok s1) eqn:O1.
  - apply ok_true in O1 as ->. destruct (Append f1 (block_trailer c t)) as [f2 s2] eqn:E2. destruct (ok s2) eqn:O2.
    + apply ok_true in O2 as ->. eexists _, _. split; [done|]. split; [done|]. eexists _, _, _. split; [done|]. left. split; [done|].
      pose proof (file_limit _ _ _ E2) as Hlim. apply append_ok in E1 as (_ & _ & E1). apply append_ok in E2 as (_ & _ & E2). rewrite E2, E1 in *. rewrite <- app_assoc in *.
      rewrite !zlen_app, zlen_block_trailer in Hlim. split; [done|]. rewrite u64_small by (zlen_pos; unfold kBlockTrailerSize in *; lia). split; [done|]. lia.
    + eexists _, _. split; [done|]. split; [done|]. eexists _, _, _. split; [done|]. right. split; [by intros ->|done].
  - eexists _, _. split; [done|]. split; [done|]. eexists _, _, _. split; [done|]. right. split; [by intros ->|done].
Qed.

Lemma handle_len h : handle_ok h -> zlen (handle_bytes h) <= 20.
Proof. intros Hh. apply zlen_handle_bytes in Hh. unfold kMaxEncodedLength in Hh. lia. Qed.

Lemma b_handle_ok bs b post : placed o (bs ++ b :: post) -> zlen (image_of (bs ++ b :: post)) < 2 ^ 63 -> handle_ok (b_handle b).
Proof.
  intros Hp Hl. specialize (Hp bs b post eq_refl). assert (zlen (image_of (bs ++ [b])) <= zlen (image_of (bs ++ b :: post))) as Hle.
  { change (b :: post) with ([b] ++ post). rewrite app_assoc. unfold TableCorrect.image_of. rewrite (fmap_app _ (bs ++ [b])), join_app, zlen_app. zlen_pos. lia. }
  rewrite image_of_snoc, zlen_app, zlen_stored in Hle. unfold TableCorrect.b_handle, handle_ok, kBlockTrailerSize in *. cbn. rewrite Hp.
  pose proof (zlen_nonneg (image_of bs)). assert (0 <= stored_size o (b_raw b)) by (unfold stored_size; apply zlen_nonneg). lia.
Qed.

(** The budget of the index. *)
Lemma last_key_budget es : es ≠ [] -> 19 + zlen (last_key_of es) + 20 <= table_budget es.
Proof.
  intros Hne. destruct (exists_last Hne) as (l & [k v] & ->). rewrite last_key_of_snoc, table_budget_app. pose proof (table_budget_nonneg l).
  unfold table_budget at 2. cbn [budget]. change (zlen [(k, v)]) with 1. zlen_pos. lia.
Qed.

Lemma index_budget bs later : seps_ok bs later -> placed o bs -> zlen (image_of bs) < 2 ^ 63 -> Forall (fun b => b_entries b ≠ []) bs ->
  budget (index_entry <$> bs) <= table_budget (entries_of bs).
Proof.
  induction bs as [|b bs IH] using rev_ind in later |- *; intros Hs Hp Hl Hne; [done|].
  apply Forall_app in Hne as [Hne Hb]. rewrite Forall_singleton in Hb. rewrite fmap_app, budget_app, entries_of_snoc, table_budget_app.
  assert (seps_ok bs (b_entries b ++ later)) as Hs'.
  { intros pre x post ->. specialize (Hs pre x (post ++ [b])). rewrite <- app_assoc in Hs. cbn [app] in Hs. specialize (Hs eq_refl). by rewrite entries_of_snoc, <- app_assoc in Hs. }
  assert (placed o bs) as Hp' by (intros pre x post ->; apply (Hp pre x (post ++ [b])); by rewrite <- app_assoc).
  assert (zlen (image_of bs) < 2 ^ 63) as Hl' by (rewrite image_of_snoc, zlen_app in Hl; zlen_pos; lia).
  specialize (IH _ Hs' Hp' Hl' Hne). destruct (Hs bs b [] eq_refl) as (_ & _ & _ & Hlen & _). pose proof (last_key_budget _ Hb). pose proof (handle_len _ (b_handle_ok bs b [] Hp Hl)).
  cbn [fmap list_fmap budget index_entry]. lia.
Qed.

(** A block is written behind the others. *)
Lemma WriteBlock_spec r b l : t_status r = OK -> t_options r = o -> zlen (contents (t_file r)) = t_offset r -> building b l ->
  let raw := snd (BlockBuilder.Finish b) in
  exists f' off' s', WriteBlock r b = Ret (set_output r f' off' s', Reset (fst (BlockBuilder.Finish b)), mkHandle (t_offset r) (stored_size o raw)) /\
    ((s' = OK /\ contents f' = contents (t_file r) ++ stored raw /\ off' = t_offset r + zlen (stored raw) /\ off' < 2 ^ 63) \/ (s' ≠ OK /\ off' = t_offset r)).
Proof.
  intros Hs Ho Hlen B raw. unfold WriteBlock. rewrite Hs, Ho. cbn [ok oassert obind]. destruct (BlockBuilder.Finish b) as [b' raw'] eqn:Ef. cbn [snd] in raw. subst raw.
  rewrite zlen_stored. unfold stored_size, TableCorrect.stored. destruct (compress_block o raw') as [c t] eqn:Ec. cbn [fst].
  destruct (write_raw_spec r c t Hlen) as (r' & handle & -> & -> & f' & off' & s' & -> & Hcase). exists f', off', s'. split; [done|].
  destruct Hcase as [(-> & Hc & -> & Hlim)|[Hn ->]]; [left|by right]. split; [done|]. split; [done|]. lia.
Qed.

(** *** Flushing a block *)

Lemma start_filter_spec (r : TableRep) off done : filter_at (filter_block r) off done -> 0 <= off -> off <= t_offset r ->
  exists fb, start_filter r = Ret (set_filter r fb) /\ filter_at fb (t_offset r) done.
Proof.
  intros Hf H0' Hle. unfold start_filter. destruct r as [ro rf roff rs rd ri rl rn rc rfb rp rh]. cbn [filter_block t_offset] in *. destruct rfb as [f|]; [|by exists None].
  destruct Hf as [Hname Hst]. destruct (StartBlock_state f off done roff H0' Hle Hst) as (f' & -> & Hst'). cbn [obind]. by exists (Some f').
Qed.

Lemma table_Flush_none r bs pend : tgood r bs pend [] -> table_Flush r = Ret r.
Proof.
  intros G. unfold table_Flush. rewrite (tg_closed _ _ _ _ G), (tg_status _ _ _ _ G). cbn [negb oassert obind ok]. destruct (tg_data _ _ _ _ G) as (l & B & El). apply map_eq_nil in El as ->. rewrite (builder_empty_spec _ _ B). done.
Qed.

Lemma table_Flush_failed r : tfailed r -> table_Flush r = Ret r.
Proof. intros [Hs Hc]. unfold table_Flush. rewrite Hc, (not_ok _ Hs). done. Qed.

Lemma table_Flush_some r bs cur : tgood r bs None cur -> cur ≠ [] -> budget cur + 8 < 2 ^ 32 ->
  exists r', table_Flush r = Ret r' /\ t_last_key r' = t_last_key r /\ ((exists b, b_entries b = cur /\ tgood r' bs (Some b) []) \/ tfailed r').
Proof.
  intros G Hne Hb. unfold table_Flush. rewrite (tg_closed _ _ _ _ G), (tg_status _ _ _ _ G). cbn [negb oassert obind ok].
  destruct (tg_data _ _ _ _ G) as (l & B & El). rewrite (builder_empty_spec _ _ B), bool_decide_eq_false_2 by (intros ->; done).
  rewrite (tg_pending _ _ _ _ G). rewrite bool_decide_eq_false_2 by (by intros []). cbn [negb oassert obind].
  pose proof (tg_file _ _ _ _ G) as Hfile. pose proof (tg_offset _ _ _ _ G) as Hoff. cbn [opt_list] in *. rewrite app_nil_r in *.
  destruct (WriteBlock_spec r (data_block r) l (tg_status _ _ _ _ G) (tg_options _ _ _ _ G) ltac:(by rewrite Hfile, Hoff) B) as (f' & off' & s' & -> & Hcase). cbn [obind].
  set (raw := snd (BlockBuilder.Finish (data_block r))) in *. pose proof (Finish_block_of _ _ B ltac:(by rewrite El)) as Hblock. fold raw in Hblock. rewrite El in Hblock.
  set (b := mkDBlock [] cur raw (t_offset r)).
  assert (t_offset r <= off') as Hle by (destruct Hcase as [(_ & _ & -> & _)|[_ ->]]; zlen_pos; lia). assert (0 <= t_offset r) as H0' by (rewrite Hoff; apply zlen_nonneg).
  pose proof (tg_filter _ _ _ _ G) as Hfilter. unfold filter_ok in Hfilter. cbn [opt_list] in Hfilter. rewrite app_nil_r in Hfilter.
  set (r1 := set_pending _ _ _).
  assert (exists r2, flush_block r1 = r2 /\
    filter_block r2 = filter_block r /\ t_last_key r2 = t_last_key r /\ closed r2 = false /\ t_offset r2 = off' /\
    forall fb, filter_at fb off' (keyed (bs ++ [b])) -> t_status r2 = OK -> tgood (set_filter r2 fb) bs (Some b) []) as (r2 & -> & Hfb & Hlk & Hcl & Ho2 & Hgood).
  { unfold flush_block, r1. clear r1. destruct Hcase as [(-> & Hc & -> & Hlim)|[Hs' ->]]; cbn [set_pending set_data_block set_output t_status].
    - cbn [ok]. cbn [t_file set_pending set_data_block set_output]. destruct (Flush f') as [f2 s2] eqn:E2. pose proof (flush_contents _ _ _ E2) as Hc2. eexists. split; [done|]. do 2 (split; [done|]). split; [apply G|]. split; [done|].
      intros fb Hfo Hok. cbn [t_status set_output] in Hok. subst s2. pose proof (tg_placed _ _ _ _ G) as Hpl. pose proof (tg_blocks _ _ _ _ G) as Hbl. pose proof (tg_num _ _ _ _ G) as Hnum. pose proof (tg_seps _ _ _ _ G) as Hseps. cbn [opt_list] in *. rewrite app_nil_r in *.
      split; cbn [opt_list set_filter set_pending set_data_block set_output t_options t_file t_offset t_status data_block index_block t_last_key num_entries closed filter_block pending_index_entry pending_handle]; try (apply G); try done.
      + by rewrite Hc2, Hc, Hfile, image_of_snoc.
      + by rewrite Hoff, image_of_snoc, zlen_app.
      + rewrite image_of_snoc, zlen_app. cbn [b_raw b]. lia.
      + apply placed_snoc; [done|exact Hoff].
      + apply Forall_app. split; [done|]. apply Forall_singleton. split; [exact Hblock|exact Hne].
      + exists []. split; [by eapply Reset_building|done].
      + rewrite entries_of_snoc, app_nil_r. exact Hnum.
      + unfold filter_ok. cbn [filter_block t_offset fmap list_fmap set_filter set_pending set_data_block set_output]. rewrite app_nil_r. exact Hfo.
      + intros b0 [= <-]. done.
      + unfold entries_of at 1. cbn [fmap list_fmap mjoin list_join b_entries b]. by rewrite !app_nil_r.
    - rewrite (not_ok _ Hs'). eexists. split; [done|]. do 2 (split; [done|]). split; [apply G|]. split; [done|]. intros fb _ Hok. done. }
  destruct (start_filter_spec r2 (t_offset r) (keyed (bs ++ [b]))) as (fb & -> & Hfo); [by rewrite Hfb, keyed_snoc|lia|by rewrite Ho2|]. rewrite Ho2 in Hfo.
  eexists. split; [done|]. split; [done|]. destruct (decide (t_status r2 = OK)) as [Hok|Hn]; [left; exists b; split; [done|by apply Hgood]|right; by split].
Qed.

(** *** Adding an entry *)

Lemma sorted_last_le es e : entries_sorted es -> e ∈ es -> Compare e.1 (last_key_of es) <= 0.
Proof.
  intros Hs He. destruct (exists_last (l := es)) as (l & [k v] & ->); [by intros ->; apply elem_of_nil in He|]. rewrite last_key_of_snoc.
  apply elem_of_app in He as [He| ->%list_elem_of_singleton]; [|cbn; by rewrite compare_refl]. apply StronglySorted_app in Hs as (Hall & _ & _). apply Z.lt_le_incl. apply (Hall e (k, v)); [done|by apply list_elem_of_singleton].
Qed.

Lemma sorted_snoc_lt es k v e : entries_sorted (es ++ [(k, v)]) -> e ∈ es -> Compare e.1 k < 0.
Proof. intros Hs He. apply StronglySorted_app in Hs as (Hall & _ & _). apply (Hall e (k, v)); [done|by apply list_elem_of_singleton]. Qed.

Lemma seps_ok_snoc bs later k v : seps_ok bs later -> (later ≠ [] \/ bs = []) -> (forall e, e ∈ later -> Compare e.1 k < 0) -> seps_ok bs (later ++ [(k, v)]).
Proof.
  intros Hs [Hne| ->] Hk; [|by intros [] b post]. intros pre b post Hsplit. destruct (Hs pre b post Hsplit) as (Hin & Hlater & Hv & Hlen & Hprov). split; [done|]. split; [|split; [done|]; split; [done|]].
  - intros e. rewrite app_assoc. intros [He| ->%list_elem_of_singleton]%elem_of_app; [by apply Hlater|]. destruct later as [|x later]; [done|]. cbn [fst].
    eapply compare_lt_le; [apply (Hlater x); set_solver|]. apply Z.lt_le_incl, Hk. set_solver.
  - intros e later'. rewrite app_assoc. destruct (entries_of post ++ later) as [|x rest] eqn:Er; [by apply app_eq_nil in Er as [_ ->]|]. intros [= <- _]. by apply (Hprov x rest).
Qed.

Lemma seps_ok_cons bs b later : seps_ok bs (b_entries b ++ later) -> sep_ok b later -> seps_ok (bs ++ [b]) later.
Proof.
  intros Hs Hb pre x post [(-> & -> & ->)|(post' & -> & ->)]%snoc_split; [exact Hb|]. rewrite entries_of_snoc, <- app_assoc. exact (Hs pre x post' eq_refl).
Qed.

Lemma indexed_last index bs l : building index l -> map entry l = index_entry <$> bs -> bs ≠ [] -> exists b, list.last bs = Some b /\ last_key l = b_sep b.
Proof.
  intros B El Hne. destruct (exists_last Hne) as (bs' & b & ->). exists b. rewrite last_snoc. split; [done|]. rewrite fmap_app in El. change (index_entry <$> [b]) with [index_entry b] in El.
  destruct l as [|i l] using rev_ind; [by destruct (index_entry <$> bs')|]. rewrite map_app in El. apply app_inj_tail in El as [_ Ei]. rewrite last_key_snoc. by injection Ei.
Qed.

(** The index entry of a written block, under a key [s] at or after its keys and before those that
    follow. *)
Lemma index_Add_spec r bs b s later : tgood r bs (Some b) [] -> entries_sorted (b_entries b) -> sep_ok (mkDBlock s (b_entries b) (b_raw b) (b_off b)) later ->
  seps_ok bs (b_entries b ++ later) -> table_budget (entries_of (bs ++ [b])) < 2 ^ 32 ->
  exists index, Add (index_block r) s (handle_bytes (pending_handle r)) = Ret index /\ EncodeHandle (pending_handle r) [] = Ret (handle_bytes (pending_handle r)) /\
    indexed index (bs ++ [mkDBlock s (b_entries b) (b_raw b) (b_off b)]) /\ seps_ok (bs ++ [mkDBlock s (b_entries b) (b_raw b) (b_off b)]) later.
Proof.
  intros G Hsb Hsep Hseps Hbud. set (b' := mkDBlock s (b_entries b) (b_raw b) (b_off b)) in *. destruct (tg_handle _ _ _ _ G b eq_refl) as [Hh _]. pose proof (tg_placed _ _ _ _ G) as Hp. pose proof (tg_limit _ _ _ _ G) as Hl. cbn [opt_list] in *.
  pose proof (b_handle_ok bs b [] Hp Hl) as Hho. rewrite Hh. pose proof (tg_blocks _ _ _ _ G) as Hbl. cbn [opt_list] in Hbl.
  destruct (tg_index _ _ _ _ G) as (l & B & El). assert (seps_ok (bs ++ [b']) later) as Hs' by (by apply seps_ok_cons).
  assert (budget (index_entry <$> (bs ++ [b'])) <= table_budget (entries_of (bs ++ [b']))) as Hib.
  { apply (index_budget _ later); [done| |by rewrite image_of_snoc in *|].
    - apply placed_snoc; [intros pre x post ->; apply (Hp pre x (post ++ [b])); by rewrite <- app_assoc|]. exact (Hp bs b [] eq_refl).
    - apply Forall_app in Hbl as [Hbl Hb]. apply Forall_app. split; [eapply Forall_impl; [exact Hbl|]; by intros x []|]. rewrite Forall_singleton in *. apply Hb. }
  rewrite fmap_app, budget_app in Hib. rewrite entries_of_snoc in Hib, Hbud. cbn [b_entries b'] in Hib. apply Forall_app in Hbl as [_ Hb]. rewrite Forall_singleton in Hb.
  destruct (Add_spec (index_block r) l s (handle_bytes (b_handle b)) B) as (index & HA & B').
  - intros Hne. assert (bs ≠ []) as Hbs by (intros ->; apply Hne; by apply map_eq_nil in El). destruct (indexed_last _ bs l B El Hbs) as (x & Hx & ->). destruct (exists_last Hbs) as (bs0 & y & ->). rewrite last_snoc in Hx. injection Hx as ->.
    destruct (Hseps bs0 x [] eq_refl) as (_ & Hlt & _). destruct Hsep as (Hle & _). destruct (b_entries b) as [|e es] eqn:Ee; [by destruct Hb|].
    eapply compare_lt_le; [apply (Hlt e); set_solver|]. apply (Hle e). set_solver.
  - rewrite El. change (index_entry <$> [b']) with [(s, handle_bytes (b_handle b))] in Hib. lia.
  - exists index. split; [done|]. split; [by apply EncodeHandle_bytes|]. split; [|done]. eexists. split; [exact B'|]. by rewrite map_app, El, fmap_app.
Qed.

(** The state between calls, with all entries added so far. *)
Definition tready (r : TableRep) (es : list (bytes * bytes)) : Prop :=
  exists bs pend cur, tgood r bs pend cur /\ es = entries_of (bs ++ opt_list pend) ++ cur /\ t_last_key r = last_key_of es /\ (pend = None -> cur = [] -> bs = []).

Lemma add_pending_spec r bs pend cur k v : let es := entries_of (bs ++ opt_list pend) ++ cur in
  tgood r bs pend cur -> t_last_key r = last_key_of es -> (pend = None -> cur = [] -> bs = []) -> entries_sorted (es ++ [(k, v)]) ->
  Forall (fun e => valid_key e.1) (es ++ [(k, v)]) -> table_budget (es ++ [(k, v)]) + 8 < 2 ^ 32 ->
  exists r' bs', add_pending r k = Ret r' /\ tgood r' bs' None cur /\ entries_of bs' = entries_of (bs ++ opt_list pend) /\ seps_ok bs' (cur ++ [(k, v)]).
Proof.
  intros es G Hlast Hedge Hs Hv Hbud. rewrite table_budget_app in Hbud. pose proof (table_budget_nonneg [(k, v)]). unfold add_pending. rewrite (tg_pending _ _ _ _ G). destruct pend as [b|]; cbn [opt_list] in *.
  2:{ rewrite bool_decide_eq_false_2 by (by intros []). exists r, bs. rewrite app_nil_r in *. split; [done|]. split; [done|]. split; [done|]. pose proof (tg_seps _ _ _ _ G) as Hseps. cbn [opt_list] in Hseps. apply seps_ok_snoc; [exact Hseps| |].
      - destruct cur as [|e cur]; [right; by apply Hedge|by left].
      - intros e He. apply (sorted_snoc_lt es k v e Hs). unfold es. set_solver. }
  rewrite bool_decide_eq_true_2 by done. destruct (tg_handle _ _ _ _ G b eq_refl) as [Hh ->]. destruct (tg_data _ _ _ _ G) as (l & B & El). apply map_eq_nil in El as ->. rewrite (builder_empty_spec _ _ B). cbn [bool_decide oassert obind].
  rewrite bool_decide_eq_true_2 by done. cbn [oassert obind]. pose proof (tg_blocks _ _ _ _ G) as Hbl. cbn [opt_list] in Hbl. apply Forall_app in Hbl as [_ Hb]. rewrite Forall_singleton in Hb. destruct Hb as [_ Hbne].
  assert (es = entries_of bs ++ b_entries b) as Hes by (unfold es; by rewrite entries_of_snoc, app_nil_r). assert (last_key_of es = last_key_of (b_entries b)) as Hlk by (rewrite Hes; by apply last_key_of_app).
  destruct (last_key_of_elem _ Hbne) as (e & He & Hek). assert (e ∈ es) as Hees by (rewrite Hes; set_solver).
  assert (entries_sorted (b_entries b)) as Hsb by (rewrite Hes, <- app_assoc in Hs; apply StronglySorted_app in Hs as (_ & _ & Hs); by apply StronglySorted_app in Hs as (_ & Hs & _)).
  rewrite Forall_forall in Hv. destruct (separator_lt (t_last_key r) k) as (s & HF & Hsv & Hge & Hlt).
  { rewrite Hlast, Hlk, <- Hek. apply Hv. set_solver. } { apply (Hv (k, v)). set_solver. } { rewrite Hlast, Hlk, <- Hek. by apply (sorted_snoc_lt es k v e). }
  rewrite HF. cbn [obind]. pose proof (separator_length _ _ _ HF) as Hsl. rewrite Hlast, Hlk in Hge, Hsl. pose proof (tg_seps _ _ _ _ G) as Hseps. cbn [opt_list] in Hseps. unfold entries_of in Hseps at 1. cbn [fmap list_fmap mjoin list_join] in Hseps. rewrite !app_nil_r in Hseps.
  destruct (index_Add_spec r bs b s [(k, v)] G Hsb) as (index & HA & HE & Hidx & Hs').
  - split; [|split; [|split; [done|]; split; [done|]]]; cbn [b_sep b_entries].
    + intros x Hx. eapply compare_trans; [by apply (sorted_last_le (b_entries b))|done].
    + by intros x ->%list_elem_of_singleton.
    + intros x rest [= <- _]. by rewrite <- Hlk, <- Hlast.
  - apply seps_ok_snoc; [done|by left|]. intros x Hx. apply (sorted_snoc_lt es k v x Hs). rewrite Hes. set_solver.
  - rewrite entries_of_snoc, <- Hes. lia.
  - rewrite HE. cbn [obind]. rewrite HA. cbn [obind]. eexists _, _. split; [done|].
    assert (entries_of (bs ++ [mkDBlock s (b_entries b) (b_raw b) (b_off b)]) = entries_of (bs ++ [b])) as Heo by (by rewrite !entries_of_snoc).
    assert (keyed (bs ++ [mkDBlock s (b_entries b) (b_raw b) (b_off b)]) = keyed (bs ++ [b])) as Hke by (by rewrite !keyed_snoc).
    assert (image_of (bs ++ [mkDBlock s (b_entries b) (b_raw b) (b_off b)]) = image_of (bs ++ [b])) as Him by (by rewrite !image_of_snoc).
    split; [|split; [done|exact Hs']]. split; cbn [opt_list set_index t_options t_file t_offset t_status data_block index_block t_last_key num_entries closed filter_block pending_index_entry pending_handle]; rewrite ?app_nil_r, ?Heo, ?Him; try (apply G); try done.
    + apply placed_snoc; [|exact (tg_placed _ _ _ _ G bs b [] eq_refl)]. intros pre x post ->. apply (tg_placed _ _ _ _ G pre x (post ++ [b])). cbn [opt_list]. by rewrite <- app_assoc.
    + pose proof (tg_blocks _ _ _ _ G) as Hbl. cbn [opt_list] in Hbl. apply Forall_app in Hbl as [Hbl Hb]. apply Forall_app. split; [done|]. rewrite Forall_singleton in *. exact Hb.
    + rewrite <- (app_nil_r (entries_of (bs ++ [b]))). apply G.
    + pose proof (tg_filter _ _ _ _ G) as Hf. unfold filter_ok in *. cbn [opt_list set_index filter_block t_offset] in *. by rewrite Hke.
    + intros pre x post Hsp. destruct (Hs' pre x post Hsp) as (H1' & H2' & H3' & H4' & H5'). change (entries_of []) with (@nil (bytes * bytes)). rewrite app_nil_r. split; [done|]. split; [intros y Hy; apply H2'; set_solver|]. split; [done|]. split; [done|].
      intros y rest Hr. apply (H5' y (rest ++ [(k, v)])). by rewrite Hr.
Qed.

Lemma table_Add_failed r k v : tfailed r -> table_Add r k v = Ret r.
Proof. intros [Hs Hc]. unfold table_Add. rewrite Hc, (not_ok _ Hs). done. Qed.

(** The entry joins the current block. *)
Lemma join_block r bs cur k v data : tgood r bs None cur -> seps_ok bs (cur ++ [(k, v)]) ->
  (exists l, building data l /\ map entry l = cur ++ [(k, v)]) ->
  tgood (set_data_block (set_entry (match filter_block r with Some f => set_filter r (Some (AddKey f k)) | None => r end) k (num_entries r + 1)) data) bs None (cur ++ [(k, v)]).
Proof.
  intros G Hs Hd. assert (0 <= t_offset r) as H0' by (rewrite (tg_offset _ _ _ _ G); apply zlen_nonneg).
  assert (filter_at (match filter_block r with Some f => Some (AddKey f k) | None => None end) (t_offset r) (keyed (bs ++ opt_list None) ++ ((fun e => (t_offset r, e.1)) <$> (cur ++ [(k, v)])))) as Hf.
  { pose proof (tg_filter _ _ _ _ G) as Hf. unfold filter_ok in Hf. destruct (filter_block r) as [f|]; [|exact Hf]. destruct Hf as [Hn Hst]. split; [done|]. rewrite fmap_app, app_assoc. by apply AddKey_state. }
  assert (num_entries r + 1 = zlen (entries_of (bs ++ opt_list None) ++ cur ++ [(k, v)])) as Hnum by (rewrite (tg_num _ _ _ _ G), app_assoc, (zlen_app _ [_]); done).
  destruct r as [ro rf roff rs rd ri rl rn rc rfb rp rh].
  destruct rfb as [f|]; split; cbn [set_data_block set_entry set_filter t_options t_file t_offset t_status data_block index_block t_last_key num_entries closed filter_block pending_index_entry pending_handle] in *; try (apply G); done.
Qed.

Lemma table_Add_spec r es k v : tready r es -> entries_sorted (es ++ [(k, v)]) -> Forall (fun e => valid_key e.1) (es ++ [(k, v)]) -> table_budget (es ++ [(k, v)]) + 8 < 2 ^ 32 ->
  exists r', table_Add r k v = Ret r' /\ (tready r' (es ++ [(k, v)]) \/ tfailed r').
Proof.
  intros (bs & pend & cur & G & Hes & Hlast & Hedge) Hs Hv Hbud. unfold table_Add. rewrite (tg_closed _ _ _ _ G), (tg_status _ _ _ _ G). cbn [negb oassert obind ok].
  assert (negb (0 <? num_entries r) || (0 <? Compare k (t_last_key r)) = true) as ->.
  { rewrite (tg_num _ _ _ _ G), <- Hes. destruct (Z.ltb_spec 0 (zlen es)) as [Hpos|]; [|done]. cbn [negb orb]. assert (es ≠ []) as Hne by (intros ->; done). destruct (last_key_of_elem es Hne) as (e & He & Hek).
    rewrite Hlast, <- Hek. apply Z.ltb_lt, compare_antisym. by apply (sorted_snoc_lt es k v). }
  cbn [oassert obind]. rewrite Hes in Hlast, Hs, Hv, Hbud. destruct (add_pending_spec r bs pend cur k v G Hlast Hedge Hs Hv Hbud) as (r1 & bs1 & -> & G1 & He1 & Hs1). cbn [obind]. rewrite <- He1 in *.
  destruct (tg_data _ _ _ _ G1) as (l & B & El). rewrite table_budget_app, table_budget_app in Hbud. pose proof (table_budget_nonneg (entries_of bs1)). pose proof (table_budget_ge cur). pose proof (table_budget_ge [(k, v)]).
  destruct (Add_spec (data_block r1) l k v B) as (data & HA & B').
  { intros Hne. destruct (exists_last Hne) as (l' & i & ->). rewrite last_key_snoc. rewrite map_app in El. apply (sorted_snoc_lt (entries_of bs1 ++ cur) k v (entry i) Hs). rewrite <- El. cbn. set_solver. }
  { rewrite El. lia. }
  assert (data_block (set_entry (match filter_block r1 with Some f => set_filter r1 (Some (AddKey f k)) | None => r1 end) k (num_entries (match filter_block r1 with Some f => set_filter r1 (Some (AddKey f k)) | None => r1 end) + 1)) = data_block r1) as -> by (by destruct (filter_block r1)).
  rewrite HA. cbn [obind]. assert (num_entries (match filter_block r1 with Some f => set_filter r1 (Some (AddKey f k)) | None => r1 end) = num_entries r1) as -> by (by destruct (filter_block r1)).
  pose proof (join_block r1 bs1 cur k v data G1 Hs1 ltac:(exists (l ++ [new_item (data_block r1) k v]); split; [done|]; by rewrite map_app, El)) as G2.
  set (r2 := set_data_block _ data) in *. assert (t_last_key r2 = k) as Hk2 by done.
  assert (entries_of (bs1 ++ opt_list None) = entries_of bs1) as Hn by (cbn [opt_list]; by rewrite app_nil_r).
  destruct (_ <=? _).
  - destruct (table_Flush_some r2 bs1 (cur ++ [(k, v)]) G2) as (r3 & -> & Hk3 & Hcase); [by destruct cur|rewrite budget_app; lia|]. exists r3. split; [done|]. destruct Hcase as [(b & Hb & G3)|Hf]; [left|by right].
    exists bs1, (Some b), []. split; [done|]. cbn [opt_list]. rewrite entries_of_snoc, Hb, app_nil_r, Hes, app_assoc. split; [done|]. split; [|done]. by rewrite Hk3, Hk2, last_key_of_snoc.
  - exists r2. split; [done|]. left. exists bs1, None, (cur ++ [(k, v)]). split; [done|]. rewrite Hn, Hes, app_assoc. split; [done|]. split; [by rewrite Hk2, last_key_of_snoc|]. intros _ Hc. by destruct cur.
Qed.

Lemma table_AddAll_failed r es : tfailed r -> table_AddAll r es = Ret r.
Proof. intros Hf. induction es as [|[k v] es IH]; [done|]. cbn [table_AddAll]. rewrite table_Add_failed by done. exact IH. Qed.

Lemma table_AddAll_spec r es es' : tready r es -> entries_sorted (es ++ es') -> Forall (fun e => valid_key e.1) (es ++ es') -> table_budget (es ++ es') + 8 < 2 ^ 32 ->
  exists r', table_AddAll r es' = Ret r' /\ (tready r' (es ++ es') \/ tfailed r').
Proof.
  revert r es. induction es' as [|[k v] es' IH]; intros r es Hr Hs Hv Hb; cbn [table_AddAll]; [exists r; rewrite app_nil_r; by split; [|left]|].
  change ((k, v) :: es') with ([(k, v)] ++ es') in *. rewrite app_assoc in *. destruct (table_Add_spec r es k v Hr) as (r1 & -> & Hcase).
  - apply StronglySorted_app in Hs. apply Hs.
  - by apply Forall_app in Hv as [Hv _].
  - rewrite table_budget_app in Hb. pose proof (table_budget_nonneg es'). lia.
  - cbn [obind]. destruct Hcase as [Hr1|Hf]; [by apply IH|]. exists r1. split; [by apply table_AddAll_failed|by right].
Qed.

Lemma new_TableBuilder_spec file : contents file = [] -> exists r, new_TableBuilder o file = Ret r /\ tready r [].
Proof.
  intros Hf. unfold new_TableBuilder. destruct (new_building (to_restart_interval o) interval_ok) as (d & -> & Bd). cbn [obind]. destruct (new_building 1 ltac:(lia)) as (x & -> & Bx). cbn [obind].
  assert (exists f, (match to_filter_name o with None => Ret None | Some _ => let! f := StartBlock new_FilterBlockBuilder 0 in Ret (Some f) end) = Ret f /\ filter_at f 0 []) as (f & -> & Hfa).
  { destruct (to_filter_name o) eqn:En; [|by exists None]. destruct new_filter_state as (f & -> & Hst). exists (Some f). split; [done|]. split; [by rewrite En|done]. }
  cbn [obind]. eexists. split; [done|]. exists [], None, []. split; [|done]. split; cbn; try done.
  - by intros [] b post.
  - by exists [].
  - by exists [].
  - by intros [] b post.
Qed.

(** *** Finishing *)

Hypothesis name_ok : forall name, to_filter_name o = Some name -> zlen name < 2 ^ 31.

(** A finished table: data blocks, filter, metaindex, index, footer. *)
Definition filter_part (fraw : option bytes) : bytes := match fraw with Some f => f ++ block_trailer f kNoCompression | None => [] end.

Definition meta_entries (blocks : list dblock) (fraw : option bytes) : list (bytes * bytes) :=
  match fraw, to_filter_name o with
  | Some f, Some name => [(filter_key name, handle_bytes (mkHandle (zlen (image_of blocks)) (zlen f)))]
  | _, _ => []
  end.

Definition table_footer (blocks : list dblock) (fraw : option bytes) (meta index : bytes) : Footer :=
  let off := zlen (image_of blocks ++ filter_part fraw) in
  mkFooter (mkHandle off (stored_size o meta)) (mkHandle (off + zlen (stored meta)) (stored_size o index)).

Record table_image (img : bytes) (blocks : list dblock) (fraw : option bytes) (meta index : bytes) : Prop := mkTableImage {
  ti_image : img = image_of blocks ++ filter_part fraw ++ stored meta ++ stored index ++ footer_bytes (table_footer blocks fraw meta index);
  ti_limit : zlen img < 2 ^ 63;
  ti_placed : placed o blocks;
  ti_blocks : Forall (fun b => block_of (b_raw b) (b_entries b) /\ b_entries b ≠ []) blocks;
  ti_seps : seps_ok blocks [];
  ti_index : block_of index (index_entry <$> blocks);
  ti_meta : block_of meta (meta_entries blocks fraw);
  ti_filter : match fraw with
    | Some f => is_Some (to_filter_name o) /\ exists fb off, f = FilterBlock.Finish fb /\ filter_state fb off (keyed blocks)
    | None => to_filter_name o = None
    end;
}.

(** The builder [r] while [Finish] runs on [r0], with [x] written. *)
Record finishing (r0 r : TableRep) (x : bytes) : Prop := mkFinishing {
  fi_status : t_status r = OK;
  fi_options : t_options r = o;
  fi_file : contents (t_file r) = x;
  fi_offset : t_offset r = zlen x;
  fi_limit : zlen x < 2 ^ 63;
  fi_closed : closed r = true;
  fi_index : index_block r = index_block r0;
  fi_pending : pending_index_entry r = pending_index_entry r0;
  fi_handle : pending_handle r = pending_handle r0;
  fi_last : t_last_key r = t_last_key r0;
  fi_filter : filter_block r = filter_block r0;
}.

Definition stopped (r : TableRep) : Prop := t_status r ≠ OK /\ closed r = true.

Lemma write_raw_finishing r0 r x c t : finishing r0 r x ->
  exists r', write_raw r c t = (r', mkHandle (zlen x) (zlen c)) /\ (finishing r0 r' (x ++ c ++ block_trailer c t) \/ stopped r').
Proof.
  intros Fi. destruct (write_raw_spec r c t) as (r' & h & -> & -> & f' & off' & s' & -> & Hcase); [by rewrite (fi_file _ _ _ Fi), (fi_offset _ _ _ Fi)|].
  eexists. split; [by rewrite (fi_offset _ _ _ Fi)|]. destruct Hcase as [(-> & Hc & -> & Hl)|[Hn ->]]; [left|right; by split; [|apply Fi]].
  rewrite (fi_file _ _ _ Fi), (fi_offset _ _ _ Fi) in *. split; cbn [set_output t_options t_file t_offset t_status index_block t_last_key closed filter_block pending_index_entry pending_handle]; try (apply Fi); try done; rewrite !zlen_app, zlen_block_trailer; lia.
Qed.

Lemma WriteBlock_finishing r0 r x b l : finishing r0 r x -> building b l ->
  let raw := snd (BlockBuilder.Finish b) in
  exists r' b', WriteBlock r b = Ret (r', b', mkHandle (zlen x) (stored_size o raw)) /\ (finishing r0 r' (x ++ stored raw) \/ stopped r').
Proof.
  intros Fi B raw. destruct (WriteBlock_spec r b l (fi_status _ _ _ Fi) (fi_options _ _ _ Fi) ltac:(by rewrite (fi_file _ _ _ Fi), (fi_offset _ _ _ Fi)) B) as (f' & off' & s' & -> & Hcase). fold raw in Hcase.
  eexists _, _. split; [by rewrite (fi_offset _ _ _ Fi)|]. destruct Hcase as [(-> & Hc & -> & Hl)|[Hn ->]]; [left|right; by split; [|apply Fi]].
  rewrite (fi_file _ _ _ Fi), (fi_offset _ _ _ Fi) in *. split; cbn [set_output t_options t_file t_offset t_status index_block t_last_key closed filter_block pending_index_entry pending_handle]; try (apply Fi); try done; rewrite zlen_app; lia.
Qed.

Lemma metaindex_spec r0 r x blocks fraw : finishing r0 r x -> match fraw with Some _ => is_Some (filter_block r0) /\ is_Some (to_filter_name o) | None => filter_block r0 = None end ->
  zlen (image_of blocks ++ filter_part fraw) < 2 ^ 63 ->
  exists b l, metaindex_builder r (match fraw with Some f => mkHandle (zlen (image_of blocks)) (zlen f) | None => new_BlockHandle end) = Ret b /\ building b l /\ map entry l = meta_entries blocks fraw /\ budget (map entry l) + 8 < 2 ^ 32.
Proof.
  intros Fi Hf Hl. unfold metaindex_builder. rewrite (fi_options _ _ _ Fi), (fi_filter _ _ _ Fi). destruct (new_building (to_restart_interval o) interval_ok) as (b & -> & B). cbn [obind].
  unfold meta_entries. destruct fraw as [f|]; [|rewrite Hf; exists b, []; by destruct (to_filter_name o)]. destruct Hf as [[fb ->] [name Hname]]. rewrite Hname. cbn [filter_part] in Hl. rewrite !zlen_app in Hl.
  assert (handle_ok (mkHandle (zlen (image_of blocks)) (zlen f))) as Hh by (unfold handle_ok; cbn; zlen_pos; lia). pose proof (handle_len _ Hh) as Hhl.
  assert (zlen (filter_key name) = 7 + zlen name) as Hk by (unfold filter_key; rewrite zlen_app; done). pose proof (name_ok name Hname). zlen_pos.
  rewrite EncodeHandle_bytes by done. cbn [obind app].
  destruct (Add_spec b [] (filter_key name) (handle_bytes (mkHandle (zlen (image_of blocks)) (zlen f))) B) as (b' & -> & B'); [done|cbn [map budget]; lia|].
  exists b', ([] ++ [new_item b (filter_key name) (handle_bytes (mkHandle (zlen (image_of blocks)) (zlen f)))]). split; [done|]. split; [done|]. split; [done|]. cbn [map app budget entry new_item i_key i_value]. lia.
Qed.

Lemma add_last_spec r0 r x bs pend : tgood r0 bs pend [] -> (pend = None -> bs = []) -> t_last_key r0 = last_key_of (entries_of (bs ++ opt_list pend)) -> finishing r0 r x ->
  entries_sorted (entries_of (bs ++ opt_list pend)) -> Forall (fun e => valid_key e.1) (entries_of (bs ++ opt_list pend)) -> table_budget (entries_of (bs ++ opt_list pend)) < 2 ^ 32 ->
  exists index lk pd blocks, add_last r = Ret (set_index r index lk pd) /\ indexed index blocks /\ seps_ok blocks [] /\ placed o blocks /\
    Forall (fun b => block_of (b_raw b) (b_entries b) /\ b_entries b ≠ []) blocks /\
    entries_of blocks = entries_of (bs ++ opt_list pend) /\ image_of blocks = image_of (bs ++ opt_list pend) /\ keyed blocks = keyed (bs ++ opt_list pend).
Proof.
  intros G Hedge Hlast Fi Hs Hv Hbud. unfold add_last. rewrite (fi_pending _ _ _ Fi), (tg_pending _ _ _ _ G). pose proof (tg_blocks _ _ _ _ G) as Hbl. pose proof (tg_placed _ _ _ _ G) as Hp. destruct pend as [b|]; cbn [opt_list] in *.
  2:{ rewrite bool_decide_eq_false_2 by (by intros []). rewrite (Hedge eq_refl) in *. exists (index_block r), (t_last_key r), (pending_index_entry r), []. split; [by destruct r|]. rewrite (fi_index _ _ _ Fi). split; [exact (tg_index _ _ _ _ G)|]. split; [by intros [] b post|]. done. }
  rewrite bool_decide_eq_true_2 by done. rewrite (fi_last _ _ _ Fi), (fi_handle _ _ _ Fi), (fi_index _ _ _ Fi). apply Forall_app in Hbl as [Hbl Hb]. rewrite Forall_singleton in Hb. destruct Hb as [Hbo Hbne].
  rewrite entries_of_snoc in *. assert (last_key_of (entries_of bs ++ b_entries b) = last_key_of (b_entries b)) as Hlk by (by apply last_key_of_app). destruct (last_key_of_elem _ Hbne) as (e & He & Hek).
  rewrite Forall_forall in Hv. destruct (successor_ge (t_last_key r0)) as (s & HF & Hsv & Hge); [rewrite Hlast, Hlk, <- Hek; apply Hv; set_solver|]. rewrite HF. cbn [obind]. pose proof (successor_length _ _ HF) as Hsl. rewrite Hlast, Hlk in Hge, Hsl.
  assert (entries_sorted (b_entries b)) as Hsb by (by apply StronglySorted_app in Hs as (_ & _ & Hs)).
  pose proof (tg_seps _ _ _ _ G) as Hseps. cbn [opt_list] in Hseps. unfold entries_of in Hseps at 1. cbn [fmap list_fmap mjoin list_join] in Hseps. rewrite app_nil_r in Hseps.
  destruct (index_Add_spec r0 bs b s [] G Hsb) as (index & HA & HE & Hidx & Hs').
  - split; [|split; [|split; [done|]; split; [done|]]]; cbn [b_sep b_entries]; [|by intros x0 ?%elem_of_nil|done]. intros y Hy. eapply compare_trans; [by apply (sorted_last_le (b_entries b))|done].
  - exact Hseps.
  - by rewrite entries_of_snoc.
  - rewrite HE. cbn [obind]. rewrite HA. cbn [obind]. exists index, s, false, (bs ++ [mkDBlock s (b_entries b) (b_raw b) (b_off b)]). split; [done|]. split; [done|]. split; [done|]. split.
    { apply placed_snoc; [|exact (Hp bs b [] eq_refl)]. intros pre y post ->. apply (Hp pre y (post ++ [b])). by rewrite <- app_assoc. }
    split; [apply Forall_app; split; [done|]; by apply Forall_singleton|]. by rewrite entries_of_snoc, !image_of_snoc, !keyed_snoc.
Qed.

Lemma finishing_set_index r0 r x index lk pd : finishing r0 r x -> finishing (set_index r0 index lk pd) (set_index r index lk pd) x.
Proof. intros []. by split. Qed.

Lemma table_Finish_failed r : tfailed r -> table_Finish r = Ret (set_closed r, t_status r).
Proof.
  intros [Hs Hc]. unfold table_Finish. rewrite table_Flush_failed by done. cbn [obind]. rewrite Hc. cbn [negb oassert obind]. set (r' := set_closed r). assert (t_status r' = t_status r) as Ht by done. assert (ok (t_status r') = false) as Hn by (rewrite Ht; by apply not_ok). clearbody r'.
  destruct (filter_block r') as [f|]; rewrite ?Hn; cbn [obind]; rewrite ?Hn; cbn [obind]; rewrite ?Hn; cbn [obind]; rewrite ?Hn, Ht; done.
Qed.

Lemma table_Finish_spec r es : tready r es -> entries_sorted es -> Forall (fun e => valid_key e.1) es -> table_budget es + 8 < 2 ^ 32 ->
  exists r' s, table_Finish r = Ret (r', s) /\ closed r' = true /\ t_status r' = s /\
    (s = OK -> exists blocks fraw meta index, table_image (contents (t_file r')) blocks fraw meta index /\ entries_of blocks = es /\ FileSize r' = zlen (contents (t_file r'))).
Proof.
  intros (bs & pend & cur & G & Hes & Hlast & Hedge) Hs Hv Hbud.
  assert (exists r0, table_Flush r = Ret r0 /\ ((exists bs pend, tgood r0 bs pend [] /\ es = entries_of (bs ++ opt_list pend) /\ t_last_key r0 = last_key_of es /\ (pend = None -> bs = [])) \/ tfailed r0)) as (r0 & HF & Hcase).
  { destruct (decide (cur = [])) as [->|Hne].
    - exists r. rewrite (table_Flush_none r bs pend G). split; [done|]. left. exists bs, pend. rewrite app_nil_r in Hes. split; [done|]. split; [done|]. split; [done|]. auto.
    - destruct pend as [b|]; [by destruct (tg_handle _ _ _ _ G b eq_refl)|]. cbn [opt_list] in Hes. rewrite app_nil_r in Hes. rewrite Hes, table_budget_app in Hbud. pose proof (table_budget_nonneg (entries_of bs)). pose proof (table_budget_ge cur).
      destruct (table_Flush_some r bs cur G Hne ltac:(lia)) as (r' & -> & Hk & Hcase). exists r'. split; [done|]. destruct Hcase as [(b & Hb & G')|Hf]; [left|by right]. exists bs, (Some b). split; [done|]. cbn [opt_list]. rewrite entries_of_snoc, Hb. split; [done|]. by rewrite Hk. }
  destruct Hcase as [(bs0 & pend0 & G0 & Hes0 & Hl0 & Hedge0)|Hf].
  2:{ exists (set_closed r0), (t_status r0). split; [|split; [done|]; split; [done|]; intros Hok; by destruct Hf as [Hn _]]. pose proof (table_Finish_failed r0 Hf) as Hfin. unfold table_Finish in *. rewrite (table_Flush_failed r0 Hf) in Hfin. by rewrite HF. }
  clear G Hes Hlast Hedge bs pend cur. rewrite Hes0 in Hl0, Hs, Hv, Hbud. set (blocks0 := bs0 ++ opt_list pend0) in *.
  unfold table_Finish. rewrite HF. cbn [obind]. rewrite (tg_closed _ _ _ _ G0). cbn [negb oassert obind].
  assert (finishing r0 (set_closed r0) (image_of blocks0)) as Fi0 by (split; cbn; try (apply G0); done).
  assert (exists r1 fraw h, (match filter_block (set_closed r0) with Some f => if ok (t_status (set_closed r0)) then write_raw (set_closed r0) (FilterBlock.Finish f) kNoCompression else (set_closed r0, new_BlockHandle) | None => (set_closed r0, new_BlockHandle) end) = (r1, h) /\
    h = (match fraw with Some f => mkHandle (zlen (image_of blocks0)) (zlen f) | None => new_BlockHandle end) /\
    match fraw with Some f => is_Some (filter_block r0) /\ is_Some (to_filter_name o) /\ exists fb off, f = FilterBlock.Finish fb /\ filter_state fb off (keyed blocks0) | None => filter_block r0 = None /\ to_filter_name o = None end /\
    (finishing r0 r1 (image_of blocks0 ++ filter_part fraw) \/ stopped r1)) as (r1 & fraw & h1 & -> & -> & Hfr & Hc1).
  { pose proof (tg_filter _ _ _ _ G0) as Hfo. unfold filter_ok in Hfo. fold blocks0 in Hfo. cbn [fmap list_fmap] in Hfo. rewrite app_nil_r in Hfo. change (filter_block (set_closed r0)) with (filter_block r0). rewrite (fi_status _ _ _ Fi0). cbn [ok].
    destruct (filter_block r0) as [f|] eqn:Ef.
    - destruct (write_raw_finishing r0 (set_closed r0) _ (FilterBlock.Finish f) kNoCompression Fi0) as (r1 & -> & Hc). eexists r1, (Some (FilterBlock.Finish f)), _. split; [done|]. split; [done|]. destruct Hfo as [Hn Hst]. split; [split; [done|]; split; [done|]; by exists f, (t_offset r0)|done].
    - exists (set_closed r0), None, new_BlockHandle. split; [done|]. split; [done|]. split; [done|]. left. cbn [filter_part]. by rewrite app_nil_r. }
  cbn beta iota. destruct Hc1 as [Fi1|[Hn1 Hc1]].
  2:{ rewrite (not_ok _ Hn1). cbn [obind]. rewrite (not_ok _ Hn1). cbn [obind]. rewrite (not_ok _ Hn1). cbn [obind]. exists r1, (t_status r1). done. }
  rewrite (fi_status _ _ _ Fi1). cbn [ok].
  destruct (metaindex_spec r0 r1 _ blocks0 fraw Fi1) as (mb & ml & -> & Bm & Em & Hmb); [destruct fraw; [destruct Hfr as (? & ? & _); done|apply Hfr]|apply Fi1|]. cbn [obind].
  destruct (WriteBlock_finishing r0 r1 _ mb ml Fi1 Bm) as (r2 & mb' & -> & Hc2). cbn [obind]. set (meta := snd (BlockBuilder.Finish mb)) in *.
  pose proof (Finish_block_of mb ml Bm Hmb) as Hmeta. fold meta in Hmeta. rewrite Em in Hmeta. destruct Hc2 as [Fi2|[Hn2 Hc2]].
  2:{ rewrite (not_ok _ Hn2). cbn [obind]. rewrite (not_ok _ Hn2). cbn [obind]. exists r2, (t_status r2). done. }
  rewrite (fi_status _ _ _ Fi2). cbn [ok].
  destruct (add_last_spec r0 r2 _ bs0 pend0 G0 Hedge0 Hl0 Fi2 Hs Hv ltac:(fold blocks0; lia)) as (index & lk & pd & blocks & -> & (il & Bi & Ei) & Hseps & Hpl & Hbl & Heo & Him & Hke). fold blocks0 in Heo, Him, Hke. cbn [obind].
  apply (finishing_set_index _ _ _ index lk pd) in Fi2. change (index_block (set_index r2 index lk pd)) with index.
  destruct (WriteBlock_finishing _ _ _ index il Fi2 Bi) as (r3 & ib' & -> & Hc3). cbn [obind]. set (idx := snd (BlockBuilder.Finish index)) in *.
  assert (budget (map entry il) + 8 < 2 ^ 32) as Hib.
  { rewrite Ei. assert (zlen (image_of blocks) < 2 ^ 63) as Hlim by (rewrite Him; apply G0). assert (Forall (fun b => b_entries b ≠ []) blocks) as Hne by (eapply Forall_impl; [exact Hbl|]; by intros ? []). pose proof (index_budget blocks [] Hseps Hpl Hlim Hne) as Hx. rewrite Heo in Hx. lia. }
  pose proof (Finish_block_of index il Bi Hib) as Hidx. fold idx in Hidx. rewrite Ei in Hidx.
  set (r4 := set_index r3 ib' (t_last_key r3) (pending_index_entry r3)) in *. assert (t_status r4 = t_status r3 /\ closed r4 = closed r3 /\ t_file r4 = t_file r3 /\ t_offset r4 = t_offset r3) as (Hr4s & Hr4c & Hr4f & Hr4o) by done.
  destruct Hc3 as [Fi3|[Hn3 Hc3]].
  2:{ rewrite Hr4s, (not_ok _ Hn3). cbn [obind]. exists r4, (t_status r4). split; [done|]. split; [by rewrite Hr4c|]. split; [done|]. intros Hok. by rewrite Hr4s in Hok. }
  rewrite Hr4s, (fi_status _ _ _ Fi3). cbn [ok].
  set (x := ((image_of blocks0 ++ filter_part fraw) ++ stored meta) ++ stored idx) in *.
  assert (mkFooter (mkHandle (zlen (image_of blocks0 ++ filter_part fraw)) (stored_size o meta)) (mkHandle (zlen ((image_of blocks0 ++ filter_part fraw) ++ stored meta)) (stored_size o idx)) = table_footer blocks fraw meta idx) as ->.
  { unfold table_footer. rewrite Him, (zlen_app _ (stored meta)). done. }
  pose proof (fi_limit _ _ _ Fi3) as Hlx. unfold x in Hlx. rewrite !zlen_app, !zlen_stored in Hlx. unfold kBlockTrailerSize in Hlx.
  assert (0 <= stored_size o meta /\ 0 <= stored_size o idx) as [Hsm Hsi] by (unfold stored_size; split; apply zlen_nonneg).
  assert (handle_ok (metaindex_handle_ (table_footer blocks fraw meta idx)) /\ handle_ok (index_handle_ (table_footer blocks fraw meta idx))) as [Hh1 Hh2].
  { unfold table_footer, handle_ok. cbn [metaindex_handle_ index_handle_ handle_offset handle_size]. rewrite Him, !zlen_app, zlen_stored. unfold kBlockTrailerSize. pose proof (zlen_nonneg (image_of blocks0)). pose proof (zlen_nonneg (filter_part fraw)). lia. }
  rewrite EncodeFooter_bytes by done. cbn [obind]. destruct (Append (t_file r4) (footer_bytes (table_footer blocks fraw meta idx))) as [f5 s5] eqn:E5. cbn [obind].
  eexists _, _. split; [done|]. split; [exact (fi_closed _ _ _ Fi3)|]. split; [done|]. cbn [set_output t_status t_file]. intros ->. cbn [ok]. pose proof (file_limit _ _ _ E5) as Hl5. apply append_ok in E5 as (_ & _ & E5). rewrite Hr4f, (fi_file _ _ _ Fi3) in E5.
  exists blocks, fraw, meta, idx. split; [|split; [by rewrite Heo, Hes0|]].
  - split; try done.
    + rewrite E5, Him. unfold x. by rewrite <- !app_assoc.
    + unfold meta_entries in *. rewrite Him. exact Hmeta.
    + destruct fraw; [|apply Hfr]. destruct Hfr as (_ & Hn & fb & off & -> & Hst). split; [done|]. exists fb, off. split; [done|]. by rewrite Hke.
  - unfold FileSize. cbn [set_output t_offset]. rewrite Hr4o, (fi_offset _ _ _ Fi3), E5, <- zlen_app, u64_small; [done|]. rewrite <- E5. zlen_pos. lia.
Qed.

(** The whole table. *)
Lemma write_table_spec file es : contents file = [] -> entries_sorted es -> Forall (fun e => valid_key e.1) es -> table_budget es + 8 < 2 ^ 32 ->
  exists r s, write_table o file es = Ret (r, s) /\ delete_TableBuilder r = Ret tt /\
    (s = OK -> exists blocks fraw meta index, table_image (contents (t_file r)) blocks fraw meta index /\ entries_of blocks = es /\ FileSize r = zlen (contents (t_file r))).
Proof.
  intros Hf Hs Hv Hb. unfold write_table. destruct (new_TableBuilder_spec file Hf) as (r0 & -> & Hr0). cbn [obind].
  destruct (table_AddAll_spec r0 [] es Hr0 Hs Hv Hb) as (r1 & -> & [Hr1|Hf1]); cbn [obind app] in *.
  - destruct (table_Finish_spec r1 es Hr1 Hs Hv Hb) as (r & s & -> & Hc & Hst & Hok). exists r, s. split; [done|]. unfold delete_TableBuilder. by rewrite Hc.
  - rewrite (table_Finish_failed r1 Hf1). eexists _, _. split; [done|]. split; [done|]. intros Hok. by destruct Hf1 as [Hn _].
Qed.
End Building.

(** ** The status *)

(** What every write to the file keeps of the file and the status is kept by the operations of a builder. *)
Section FileStatus.
Context `{Comparator} `{FilterPolicy} `{Crc32c} `{Compressors} {F : Type} `{WritableFile F} (Q : F -> Status -> Prop).
Hypothesis append_status : forall f s d, Q f s -> Q (fst (Append f d)) (snd (Append f d)).
Hypothesis flush_status : forall f, Q f OK -> Q (fst (Flush f)) (snd (Flush f)).

Definition honest (r : TableRep F) : Prop := Q (t_file r) (t_status r).

Lemma write_raw_status (r : TableRep F) c t : honest r -> honest (fst (write_raw r c t)).
Proof.
  intros Hr. unfold write_raw, WriteRawBlock. pose proof (append_status _ _ c Hr) as Ha. destruct (Append (t_file r) c) as [f s]. cbn [fst snd] in Ha.
  destruct (ok s); [|done]. pose proof (append_status _ _ (block_trailer c t) Ha) as Hb. destruct (Append f _) as [f' s']. cbn [fst snd] in Hb. destruct (ok s'); done.
Qed.

Lemma WriteBlock_status r b r' b' h : honest r -> WriteBlock r b = Ret (r', b', h) -> honest r'.
Proof.
  intros Hr0. unfold WriteBlock. destruct (ok (t_status r)); cbn [oassert obind]; [|done]. destruct (BlockBuilder.Finish b) as [b1 raw]. destruct (compress_block _ raw) as [c t]. pose proof (write_raw_status r c t Hr0) as Hs. destruct (write_raw r c t) as [r1 h1]. intros [= <- _ _]. exact Hs.
Qed.

Lemma table_Flush_status r r' : table_Flush r = Ret r' -> honest r -> honest r'.
Proof.
  unfold table_Flush. destruct (closed r); cbn [negb oassert obind]; [done|]. destruct (ok (t_status r)); cbn [negb]; [|by intros [= <-]]. destruct (builder_empty _); [by intros [= <-]|]. destruct (pending_index_entry r); cbn [negb oassert obind]; [done|].
  destruct (WriteBlock _ _) as [[[r1 b1] h1]| |] eqn:E; cbn [obind]; [|done|done]. unfold start_filter. intros Hr Hr0. apply (WriteBlock_status _ _ _ _ _ Hr0) in E. assert (honest (flush_block (set_pending (set_data_block r1 b1) (pending_index_entry r1) h1))) as Hf.
  { unfold flush_block. cbn [set_pending set_data_block t_status t_file]. destruct (ok (t_status r1)) eqn:Eo; [|done]. apply ok_true in Eo. unfold honest in E. rewrite Eo in E. pose proof (flush_status (t_file r1) E) as Hs. by destruct (Flush (t_file r1)). }
  revert Hr Hf. generalize (flush_block (set_pending (set_data_block r1 b1) (pending_index_entry r1) h1)) as r2. intros r2 Hr Hf. destruct (filter_block r2); [|by injection Hr as <-]. destruct (StartBlock _ _); cbn [obind] in Hr; [|done|done]. by injection Hr as <-.
Qed.

Lemma add_pending_status (r : TableRep F) k r' : add_pending r k = Ret r' -> t_status r' = t_status r /\ t_file r' = t_file r.
Proof.
  unfold add_pending. destruct (pending_index_entry r); [|by intros [= <-]]. destruct (builder_empty _); cbn [oassert obind]; [|done]. destruct (FindShortestSeparator _ _); cbn [obind]; [|done|done]. destruct (EncodeHandle _ _); cbn [obind]; [|done|done]. destruct (Add _ _ _); cbn [obind]; [|done|done]. by intros [= <-].
Qed.

Lemma add_last_status (r : TableRep F) r' : add_last r = Ret r' -> t_status r' = t_status r /\ t_file r' = t_file r.
Proof.
  unfold add_last. destruct (pending_index_entry r); [|by intros [= <-]]. destruct (FindShortSuccessor _); cbn [obind]; [|done|done]. destruct (EncodeHandle _ _); cbn [obind]; [|done|done]. destruct (Add _ _ _); cbn [obind]; [|done|done]. by intros [= <-].
Qed.

Lemma table_Add_status r k v r' : table_Add r k v = Ret r' -> honest r -> honest r'.
Proof.
  unfold table_Add. destruct (closed r); cbn [negb oassert obind]; [done|]. destruct (ok (t_status r)); cbn [negb]; [|by intros [= <-]]. destruct (_ || _); cbn [oassert obind]; [|done].
  destruct (add_pending r k) as [r1| |] eqn:E; cbn [obind]; [|done|done]. apply add_pending_status in E as [E1 E2]. cbv zeta. intros Hr Hs. unfold honest in Hs. rewrite <- E1, <- E2 in Hs. change (honest r1) in Hs.
  assert (honest (match filter_block r1 with Some f => set_filter r1 (Some (AddKey f k)) | None => r1 end)) as Hs' by (by destruct (filter_block r1)).
  revert Hr Hs'. generalize (match filter_block r1 with Some f => set_filter r1 (Some (AddKey f k)) | None => r1 end) as r2. intros r2 Hr Hs'. destruct (Add _ _ _); cbn [obind] in Hr; [|done|done]. destruct (_ <=? _); [by eapply table_Flush_status|by injection Hr as <-].
Qed.

Lemma table_Finish_status r r' s : table_Finish r = Ret (r', s) -> honest r -> Q (t_file r') s.
Proof.
  unfold table_Finish. destruct (table_Flush r) as [r1| |] eqn:E; cbn [obind]; [|done|done]. intros Hr Hs. apply table_Flush_status in E; [|done]. clear Hs. destruct (closed r1); cbn [negb oassert obind] in Hr; [done|]. cbv zeta in Hr.
  assert (honest (set_closed r1)) as E0 by done. revert E0 Hr. clear E. generalize (set_closed r1) as r2. clear r1. intros r2 E Hr.
  assert (forall x : TableRep F * BlockHandle, x = match filter_block r2 with Some f => if ok (t_status r2) then write_raw r2 (FilterBlock.Finish f) kNoCompression else (r2, new_BlockHandle) | None => (r2, new_BlockHandle) end -> honest x.1) as Hx.
  { intros x ->. destruct (filter_block r2) as [f|]; [|done]. destruct (ok (t_status r2)); [by apply write_raw_status|done]. }
  destruct (match filter_block r2 with Some f => _ | None => _ end) as [r3 fh]. specialize (Hx _ eq_refl). cbn [fst] in Hx. clear E.
  destruct (if ok (t_status r3) then _ else _) as [[r4 mh]| |] eqn:E4; cbn [obind] in Hr; [|done|done]. assert (honest r4) as H4.
  { destruct (ok (t_status r3)); [|by injection E4 as <- _]. destruct (metaindex_builder _ _); cbn [obind] in E4; [|done|done]. destruct (WriteBlock _ _) as [[[r5 b5] h5]| |] eqn:E5; cbn [obind] in E4; [|done|done]. injection E4 as <- _. by eapply WriteBlock_status; [|exact E5]. }
  destruct (if ok (t_status r4) then _ else _) as [[r6 ih]| |] eqn:E6; cbn [obind] in Hr; [|done|done]. assert (honest r6) as H6.
  { destruct (ok (t_status r4)); [|by injection E6 as <- _]. destruct (add_last r4) as [r5| |] eqn:E5; cbn [obind] in E6; [|done|done]. apply add_last_status in E5 as [Es Ef]. destruct (WriteBlock _ _) as [[[r7 b7] h7]| |] eqn:E7; cbn [obind] in E6; [|done|done]. injection E6 as <- _. refine (WriteBlock_status _ _ _ _ _ _ E7). unfold honest. by rewrite Es, Ef. }
  destruct (ok (t_status r6)); [|by injection Hr as <- <-]. destruct (EncodeFooter _ _) as [enc| |]; cbn [obind] in Hr; [|done|done]. pose proof (append_status _ _ enc H6) as Ha. destruct (Append _ _) as [f s']. cbn [obind] in Hr. by injection Hr as <- <-.
Qed.

Lemma table_AddAll_status es : forall r r', table_AddAll r es = Ret r' -> honest r -> honest r'.
Proof.
  induction es as [|[k v] es IH]; intros r r'; cbn [table_AddAll]; [by intros [= <-]|]. destruct (table_Add r k v) as [r1| |] eqn:E; cbn [obind]; [|done|done]. intros Hr Hs. eapply IH; [exact Hr|]. by eapply table_Add_status.
Qed.

Lemma new_TableBuilder_fields o (file : F) r : new_TableBuilder o file = Ret r -> t_status r = OK /\ t_file r = file.
Proof.
  unfold new_TableBuilder. destruct (new_BlockBuilder _); cbn [obind]; [|done|done]. destruct (new_BlockBuilder 1); cbn [obind]; [|done|done]. destruct (match to_filter_name o with Some _ => _ | None => _ end); cbn [obind]; [|done|done]. by intros [= <-].
Qed.

Lemma write_table_status o file es r s : Q file OK -> write_table o file es = Ret (r, s) -> Q (t_file r) s.
Proof.
  intros Hf. unfold write_table. destruct (new_TableBuilder o file) as [r0| |] eqn:E0; cbn [obind]; [|done|done]. apply new_TableBuilder_fields in E0 as [Es Ef].
  destruct (table_AddAll r0 es) as [r1| |] eqn:E1; cbn [obind]; [|done|done]. intros E2. eapply table_Finish_status; [exact E2|]. eapply table_AddAll_status; [exact E1|]. unfold honest. by rewrite Es, Ef.
Qed.
End FileStatus.

(** The status of a builder is OK as long as its file has not failed. *)
Section Failures.
Context `{Comparator} `{FilterPolicy} `{Crc32c} `{Compressors} {F : Type} `{wlaws : WritableFileLaws F}.

Lemma append_failure (f : F) (s : Status) d : s = OK \/ failed f -> snd (Append f d) = OK \/ failed (fst (Append f d)).
Proof. intros _. destruct (Append f d) as [f' s'] eqn:E. destruct (decide (s' = OK)); [by left|]. right. by eapply append_err. Qed.

Lemma flush_failure (f : F) : OK = OK \/ failed f -> snd (Flush f) = OK \/ failed (fst (Flush f)).
Proof. intros _. destruct (Flush f) as [f' s'] eqn:E. destruct (decide (s' = OK)); [by left|]. right. by eapply flush_err. Qed.

Lemma write_table_failure o (file : F) es r s : write_table o file es = Ret (r, s) -> s = OK \/ failed (t_file r).
Proof. apply (write_table_status (fun f s => s = OK \/ failed f) append_failure flush_failure). by left. Qed.
End Failures.
