(* ===== verification/TableRead.v ===== *)
(** * Tables: what is written is what is read

    A finished table is opened, its iterator is a cursor over the entries that were added, and a
    lookup finds what the entries have. *)

From stdpp Require Import sorting sets.
From S2P Require Import Prelude Coding Env Crc32c Cache Comparator DbFormat SkipList MemTable Version BlockBuilder Block BlockCorrect Format Filter FilterBlock Filename Iterator BlockIter TableBuilder DBIter MergingIterator TwoLevelIterator Table TableCorrect.

Open Scope outcome_scope.

(** What the port layer documents of its compressors: what they produced is decompressed to what
    they were given. *)
Class CompressorLaws `{Compressors} `{Snappy} `{Zstd} : Prop := {
  snappy_inverse d c : Snappy_Compress d = Some c -> Snappy_GetUncompressedLength c = Some (zlen d) /\ Snappy_Uncompress c = Some d;
  zstd_inverse level d c : Zstd_Compress level d = Some c -> Zstd_GetUncompressedLength c = Some (zlen d) /\ Zstd_Uncompress c = Some d;
}.

#[global] Instance Compare_CompareLaws `{ComparatorLaws} : CompareLaws Compare.
Proof. split; [apply compare_antisym|apply compare_trans]. Qed.

Lemma DecodeHandle_whole h h0 : handle_ok h -> DecodeHandle h0 (handle_bytes h) = (h, [], OK).
Proof. intros Hh. rewrite <- (app_nil_r (handle_bytes h)). by apply DecodeHandle_bytes. Qed.

(** The single entry of the metaindex block is found. *)
Lemma meta_lookup meta k v : block_of meta [(k, v)] ->
  exists b bi bi', new_Block meta = Ret b /\ NewIterator b = Ret bi /\ it_Seek (Iterator := @BlockIterator_Iterator BytewiseComparator) bi k = Ret bi' /\
    it_Valid (Iterator := @BlockIterator_Iterator BytewiseComparator) bi' = true /\ it_key (Iterator := @BlockIterator_Iterator BytewiseComparator) bi' = Ret k /\ it_value (Iterator := @BlockIterator_Iterator BytewiseComparator) bi' = Ret v.
Proof.
  intros (l & rs & -> & El & Hsh & Hrs & Hsz).
  destruct (@block_iterator_opens BytewiseComparator l rs Hsh Hrs Hsz) as (b & bi & Hb & Hbi & Hat).
  pose (L := @Block_IteratorLaws BytewiseComparator BytewiseComparator_laws l rs Hsh Hrs Hsz ltac:(rewrite El; repeat constructor)).
  destruct (at_seek (IteratorLaws := L) bi None k Hat Logic.I) as (bi' & Hseek & Hat').
  assert (index_of (length (map entry l)) (length (filter (fun e => @Compare BytewiseComparator e.1 k < 0) (map entry l))) = Some 0%nat) as Hpos.
  { rewrite El. rewrite filter_cons_False by (cbn; rewrite (@compare_refl BytewiseComparator BytewiseComparator_laws); lia). done. }
  rewrite Hpos in Hat'. exists b, bi, bi'. split; [done|]. split; [done|]. split; [exact Hseek|]. split; [exact (proj1 (at_valid (IteratorLaws := L) bi' (Some 0%nat) Hat'))|].
  apply (at_entry (IteratorLaws := L) bi' 0 k v Hat'). by rewrite El.
Qed.

Section Reading.
Context `{laws : ComparatorLaws} `{flaws : FilterPolicyLaws} `{Crc32c} `{claws : CompressorLaws} {R : Type} `{rlaws : RandomAccessFileLaws R}.
Context (o : TableOptions).
Hypothesis compression_ok : to_compression o = kNoCompression \/ to_compression o = kSnappyCompression \/ to_compression o = kZstdCompression.

(** What a stored block of type [t] with the contents [c] stands for. *)
Definition decodes (t : Z) (c raw : bytes) : Prop :=
  (t = kNoCompression /\ raw = c) \/
  (t = kSnappyCompression /\ Snappy_GetUncompressedLength c = Some (zlen raw) /\ Snappy_Uncompress c = Some raw) \/
  (t = kZstdCompression /\ Zstd_GetUncompressedLength c = Some (zlen raw) /\ Zstd_Uncompress c = Some raw).

Lemma compress_decodes raw : let (c, t) := compress_block o raw in decodes t c raw.
Proof.
  unfold compress_block, decodes. destruct compression_ok as [-> |[-> | ->]]; cbn.
  - by left.
  - destruct (Snappy_Compress raw) as [c|] eqn:E; [|by left]. destruct (_ <? _); [|by left]. right. left. split; [done|]. by apply snappy_inverse.
  - destruct (Zstd_Compress _ raw) as [c|] eqn:E; [|by left]. destruct (_ <? _); [|by left]. right. right. split; [done|]. by eapply zstd_inverse.
Qed.

(** A stored block is read back. *)
Lemma table_ReadBlock_image (file : R) options pre c t raw post :
  zlen pre + zlen c + kBlockTrailerSize < 2 ^ 64 -> image file = pre ++ (c ++ block_trailer c t) ++ post -> decodes t c raw ->
  (exists x b, RandRead file (zlen pre) (zlen c + kBlockTrailerSize) = (OK, x, b)) ->
  exists r, table_ReadBlock file options (mkHandle (zlen pre) (zlen c)) = (r, OK) /\ bc_data r = raw.
Proof.
  intros Hn Himg Hdec (x & b & E). unfold table_ReadBlock. cbn [handle_size handle_offset]. zlen_pos.
  unfold kBlockTrailerSize in *. rewrite u64_small, E by lia. cbn [ok negb].
  apply rand_read_ok in E; [|lia|lia]. rewrite Himg, zdrop_app_len in E by done.
  assert (x = c ++ block_trailer c t) as -> by (rewrite E; apply ztake_app_len; rewrite zlen_app, zlen_block_trailer; done).
  rewrite zlen_app, zlen_block_trailer, Z.eqb_refl. cbn [negb].
  assert (c ++ block_trailer c t = (c ++ [z2b t]) ++ EncodeFixed32 (Mask (Extend (Value c) [z2b t]))) as Hd by (unfold block_trailer; by rewrite <- app_assoc).
  assert (Value (ztake (zlen c + 1) (c ++ block_trailer c t)) = Unmask (DecodeFixed32 (zdrop (zlen c + 1) (c ++ block_trailer c t)))) as Hv.
  { rewrite Hd, ztake_app_len, zdrop_app_len by (rewrite zlen_app; done). apply trailer_checksum. }
  rewrite Hv, Z.eqb_refl, andb_false_r. rewrite ztake_app_len by done. unfold block_trailer. rewrite nth_app_len.
  destruct Hdec as [[-> ->]|[(-> & Hl & Hu)|(-> & Hl & Hu)]].
  - change (schar (z2b kNoCompression) =? kNoCompression) with true. cbn iota. by eexists.
  - change (schar (z2b kSnappyCompression) =? kNoCompression) with false. change (schar (z2b kSnappyCompression) =? kSnappyCompression) with true. cbn iota. unfold uncompressed. rewrite Hl, Hu. eexists. split; [done|]. cbn. by rewrite ztake_all.
  - change (schar (z2b kZstdCompression) =? kNoCompression) with false. change (schar (z2b kZstdCompression) =? kSnappyCompression) with false. change (schar (z2b kZstdCompression) =? kZstdCompression) with true. cbn iota. unfold uncompressed. rewrite Hl, Hu. eexists. split; [done|]. cbn. by rewrite ztake_all.
Qed.

Context (file : R) (blocks : list dblock) (fraw : option bytes) (meta index : bytes).
Hypothesis table_ok : table_image o (image file) blocks fraw meta index.
Hypothesis reads_ok : forall off n, exists x b, RandRead file off n = (OK, x, b).

Lemma read_stored options pre raw post : image file = pre ++ stored o raw ++ post -> exists r, table_ReadBlock file options (mkHandle (zlen pre) (stored_size o raw)) = (r, OK) /\ bc_data r = raw.
Proof.
  intros Himg. pose proof (ti_limit _ _ _ _ _ _ table_ok) as Hl. pose proof (compress_decodes raw) as Hd. unfold stored, stored_size in *. destruct (compress_block o raw) as [c t]. cbn [fst].
  apply (table_ReadBlock_image file options pre c t raw post); [|done|done|apply reads_ok]. rewrite Himg in Hl. rewrite !zlen_app, zlen_block_trailer in Hl. zlen_pos. lia.
Qed.

Lemma image_split pre b post : blocks = pre ++ b :: post -> image_of o blocks = image_of o pre ++ stored o (b_raw b) ++ image_of o post.
Proof. intros ->. unfold image_of. by rewrite fmap_app, join_app. Qed.

(** A data block, through its handle. *)
Lemma read_block options b : b ∈ blocks -> exists r, table_ReadBlock file options (b_handle o b) = (r, OK) /\ bc_data r = b_raw b.
Proof.
  intros Hb. apply list_elem_of_split in Hb as (pre & post & Hsp). unfold b_handle. rewrite (ti_placed _ _ _ _ _ _ table_ok pre b post Hsp).
  apply (read_stored options _ _ (image_of o post ++ filter_part fraw ++ stored o meta ++ stored o index ++ footer_bytes (table_footer o blocks fraw meta index))). rewrite (ti_image _ _ _ _ _ _ table_ok), (image_split pre b post Hsp). by rewrite <- !app_assoc.
Qed.

Lemma read_meta options : exists r, table_ReadBlock file options (metaindex_handle_ (table_footer o blocks fraw meta index)) = (r, OK) /\ bc_data r = meta.
Proof.
  unfold table_footer. cbn [metaindex_handle_]. apply (read_stored options _ _ (stored o index ++ footer_bytes (table_footer o blocks fraw meta index))). rewrite (ti_image _ _ _ _ _ _ table_ok). by rewrite <- !app_assoc.
Qed.

Lemma read_index options : exists r, table_ReadBlock file options (index_handle_ (table_footer o blocks fraw meta index)) = (r, OK) /\ bc_data r = index.
Proof.
  unfold table_footer. cbn [index_handle_]. rewrite <- zlen_app. apply (read_stored options _ _ (footer_bytes (table_footer o blocks fraw meta index))). rewrite (ti_image _ _ _ _ _ _ table_ok). by rewrite <- !app_assoc.
Qed.

Lemma read_filter options f : fraw = Some f -> exists r, table_ReadBlock file options (mkHandle (zlen (image_of o blocks)) (zlen f)) = (r, OK) /\ bc_data r = f.
Proof.
  intros Hf. pose proof (ti_limit _ _ _ _ _ _ table_ok) as Hl. pose proof (ti_image _ _ _ _ _ _ table_ok) as Himg. rewrite Hf in Himg. cbn [filter_part] in Himg.
  apply (table_ReadBlock_image file options _ f kNoCompression f (stored o meta ++ stored o index ++ footer_bytes (table_footer o blocks fraw meta index))); [|by rewrite Himg, Hf|by left|apply reads_ok].
  rewrite Himg in Hl. rewrite !zlen_app, zlen_block_trailer in Hl. zlen_pos. lia.
Qed.

Lemma footer_ok : handle_ok (metaindex_handle_ (table_footer o blocks fraw meta index)) /\ handle_ok (index_handle_ (table_footer o blocks fraw meta index)).
Proof.
  pose proof (ti_limit _ _ _ _ _ _ table_ok) as Hl. rewrite (ti_image _ _ _ _ _ _ table_ok) in Hl. rewrite !zlen_app, !zlen_stored in Hl. unfold kBlockTrailerSize in Hl.
  assert (0 <= stored_size o meta /\ 0 <= stored_size o index) as [Hsm Hsi] by (unfold stored_size; split; apply zlen_nonneg).
  pose proof (zlen_nonneg (image_of o blocks)). pose proof (zlen_nonneg (filter_part fraw)). pose proof (zlen_nonneg (footer_bytes (table_footer o blocks fraw meta index))).
  unfold table_footer, handle_ok. cbn [metaindex_handle_ index_handle_ handle_offset handle_size]. rewrite !zlen_app, zlen_stored. unfold kBlockTrailerSize. lia.
Qed.

(** *** Opening *)

Definition opened (id : Z) (t : Table R) : Prop :=
  tab_options t = o /\ tab_file t = file /\ cache_id t = id /\ new_Block index = Ret (tab_index_block t) /\
  tab_filter t = new_FilterBlockReader <$> fraw /\ metaindex_handle t = metaindex_handle_ (table_footer o blocks fraw meta index).

Lemma ReadMeta_spec id idx : new_Block index = Ret idx ->
  exists t, ReadMeta (mkTable o file id None (metaindex_handle_ (table_footer o blocks fraw meta index)) idx) (table_footer o blocks fraw meta index) = Ret t /\ opened id t.
Proof.
  intros Hidx. pose proof (read_meta (open_options (to_paranoid_checks o))) as HRM. pose proof (read_filter (open_options (to_paranoid_checks o))) as HRF. unfold ReadMeta. cbn [tab_options tab_file]. pose proof (ti_filter _ _ _ _ _ _ table_ok) as Hf. pose proof (ti_meta _ _ _ _ _ _ table_ok) as Hm. unfold meta_entries in Hm.
  assert (opened id (set_table_filter (mkTable o file id None (metaindex_handle_ (table_footer o blocks fraw meta index)) idx) (new_FilterBlockReader <$> fraw))) as Hop by done.
  destruct (to_filter_name o) as [name|] eqn:En.
  2:{ destruct fraw as [f|] eqn:Efr; [by destruct Hf as [[? ?] _]|]. eexists. split; [done|exact Hop]. }
  destruct fraw as [f|] eqn:Efr; [|done].
  destruct HRM as (r & -> & ->). cbn [ok negb].
  destruct (meta_lookup _ _ _ Hm) as (b & bi & bi' & -> & Hbi & Hseek & Hv & Hk & Hval). cbn [obind]. rewrite Hbi. cbn [obind]. rewrite Hseek. cbn [obind]. rewrite Hv, Hk. cbn [obind]. rewrite bool_decide_eq_true_2 by done. rewrite Hval. cbn [obind].
  eexists. split; [done|]. assert (ReadFilter (mkTable o file id None (metaindex_handle_ (table_footer o blocks (Some f) meta index)) idx) (handle_bytes (mkHandle (zlen (image_of o blocks)) (zlen f))) = Some (new_FilterBlockReader f)) as ->; [|exact Hop].
  unfold ReadFilter. rewrite DecodeHandle_whole.
  - cbn [ok negb tab_file tab_options]. destruct (HRF f eq_refl) as (r' & -> & ->). done.
  - pose proof (ti_limit _ _ _ _ _ _ table_ok) as Hl. rewrite (ti_image _ _ _ _ _ _ table_ok) in Hl. cbn [filter_part] in Hl. rewrite !zlen_app in Hl. unfold handle_ok. cbn. zlen_pos. lia.
Qed.

Lemma Open_spec id : exists t, Open o file (zlen (image file)) id = Ret (Some t, OK) /\ opened id t.
Proof.
  destruct footer_ok as [Hh1 Hh2]. pose proof (zlen_footer_bytes _ Hh1 Hh2) as Hfl. pose proof (ti_image _ _ _ _ _ _ table_ok) as Himg. pose proof (ti_limit _ _ _ _ _ _ table_ok) as Hlim.
  set (front := image_of o blocks ++ filter_part fraw ++ stored o meta ++ stored o index) in *. assert (image file = front ++ footer_bytes (table_footer o blocks fraw meta index)) as Hfr by (rewrite Himg; unfold front; by rewrite <- !app_assoc).
  assert (zlen (image file) - kEncodedLength = zlen front) as Hoff by (rewrite Hfr, zlen_app; lia). pose proof (zlen_nonneg front) as Hnn. unfold Open. destruct (Z.ltb_spec (zlen (image file)) kEncodedLength); [lia|].
  rewrite Hoff. destruct (reads_ok (zlen front) kEncodedLength) as (x & b & Hx). rewrite Hx. cbn [ok negb]. apply rand_read_ok in Hx; [|lia|done]. rewrite Hfr, zdrop_app_len, ztake_all in Hx by (done || (unfold kEncodedLength, kMaxEncodedLength in *; lia)).
  rewrite Hx, <- (app_nil_r (footer_bytes _)), DecodeFooter_bytes by done. cbn [obind ok negb].
  destruct (read_index (open_options (to_paranoid_checks o))) as (r & -> & ->). cbn [ok].
  destruct (ti_index _ _ _ _ _ _ table_ok) as (l & rs & Hi & El & Hsh & Hrs & Hsz). destruct (block_iterator_opens l rs Hsh Hrs Hsz) as (idx & bi & Hidx & _ & _). rewrite Hi, Hidx. cbn [obind].
  rewrite <- Hi in Hidx |- *. destruct (ReadMeta_spec id idx Hidx) as (t & -> & Hop). cbn [obind]. by exists t.
Qed.

(** *** The index *)

Hypothesis es_sorted : entries_sorted (entries_of blocks).

Lemma image_take_lt i j : (i < j)%nat -> (j <= length blocks)%nat -> zlen (image_of o (take i blocks)) < zlen (image_of o (take j blocks)).
Proof.
  intros Hij Hj. destruct (lookup_lt_is_Some_2 blocks i) as [b Hb]; [lia|]. assert (take j blocks = take i blocks ++ b :: drop (S i) (take j blocks)) as ->.
  { rewrite <- (take_drop_middle (take j blocks) i b) at 1 by (rewrite lookup_take_lt by lia; done). rewrite take_take. by replace (i `min` j)%nat with i by lia. }
  unfold image_of. rewrite fmap_app, join_app, zlen_app. cbn [fmap list_fmap]. change (mjoin (stored o (b_raw b) :: ((fun b => stored o (b_raw b)) <$> drop (S i) (take j blocks)))) with (stored o (b_raw b) ++ mjoin ((fun b => stored o (b_raw b)) <$> drop (S i) (take j blocks))).
  rewrite zlen_app, zlen_stored. unfold kBlockTrailerSize, stored_size. zlen_pos. lia.
Qed.

Lemma b_off_take i b : blocks !! i = Some b -> b_off b = zlen (image_of o (take i blocks)).
Proof. intros Hi. apply (ti_placed _ _ _ _ _ _ table_ok _ b (drop (S i) blocks)). symmetry. by apply take_drop_middle. Qed.

Lemma block_handle_ok b : b ∈ blocks -> handle_ok (b_handle o b).
Proof.
  intros (pre & post & Hsp)%list_elem_of_split. apply (b_handle_ok o pre b post); rewrite <- Hsp; [apply table_ok|]. pose proof (ti_limit _ _ _ _ _ _ table_ok) as Hl. rewrite (ti_image _ _ _ _ _ _ table_ok), zlen_app in Hl. zlen_pos. lia.
Qed.

(** Different blocks have different handles. *)
Lemma handles_inj i j b b' : blocks !! i = Some b -> blocks !! j = Some b' -> handle_bytes (b_handle o b) = handle_bytes (b_handle o b') -> i = j.
Proof.
  intros Hi Hj Heq. assert (b_handle o b = b_handle o b') as Hh.
  { pose proof (DecodeHandle_whole (b_handle o b) new_BlockHandle (block_handle_ok b ltac:(by eapply list_elem_of_lookup_2))) as H1'. pose proof (DecodeHandle_whole (b_handle o b') new_BlockHandle (block_handle_ok b' ltac:(by eapply list_elem_of_lookup_2))) as H2'. rewrite Heq in H1'. congruence. }
  injection Hh as Hoff _. rewrite (b_off_take i b Hi), (b_off_take j b' Hj) in Hoff. apply lookup_lt_Some in Hi, Hj.
  destruct (Nat.lt_trichotomy i j) as [Hlt|[|Hlt]]; [|done|]; [pose proof (image_take_lt i j Hlt ltac:(lia))|pose proof (image_take_lt j i Hlt ltac:(lia))]; lia.
Qed.

(** The key of an index entry, for the entries of a block by number. *)
Lemma sep_at j b : blocks !! j = Some b ->
  (forall e, e ∈ b_entries b -> Compare e.1 (b_sep b) <= 0) /\ (forall i b' e, (j < i)%nat -> blocks !! i = Some b' -> e ∈ b_entries b' -> Compare (b_sep b) e.1 < 0).
Proof.
  intros Hj. destruct (ti_seps _ _ _ _ _ _ table_ok (take j blocks) b (drop (S j) blocks)) as (Hle & Hlt & _); [symmetry; by apply take_drop_middle|]. split; [done|]. intros i b' e Hij Hi He. apply Hlt. rewrite app_nil_r. unfold entries_of. apply list_elem_of_join. exists (b_entries b'). split; [done|].
  apply list_elem_of_fmap_2. apply list_elem_of_lookup. exists (i - S j)%nat. rewrite lookup_drop. by replace (S j + (i - S j))%nat with i by lia.
Qed.

Lemma block_facts b : b ∈ blocks -> block_of (b_raw b) (b_entries b) /\ b_entries b ≠ [] /\ entries_sorted (b_entries b).
Proof.
  intros Hb. pose proof (ti_blocks _ _ _ _ _ _ table_ok) as Hbl. rewrite Forall_forall in Hbl. destruct (Hbl b Hb) as [H1' H2']. split; [done|]. split; [done|].
  apply list_elem_of_split in Hb as (pre & post & Hsp). rewrite Hsp, entries_of_app in es_sorted. apply StronglySorted_app in es_sorted as (_ & _ & Hs). change (entries_of (b :: post)) with (b_entries b ++ entries_of post) in Hs. by apply StronglySorted_app in Hs as (_ & Hs & _).
Qed.

Lemma index_entries_sorted : StronglySorted (before Compare) (index_entry o <$> blocks).
Proof.
  assert (forall i j b b', (i < j)%nat -> blocks !! i = Some b -> blocks !! j = Some b' -> Compare (b_sep b) (b_sep b') < 0) as Hlt.
  { intros i j b b' Hij Hi Hj. destruct (block_facts b') as (_ & Hne & _); [by eapply list_elem_of_lookup_2|]. destruct (b_entries b') as [|e es'] eqn:Ee; [done|]. eapply compare_lt_le; [eapply (proj2 (sep_at i b Hi) j b' e); [done|done|rewrite Ee; set_solver]|]. apply (proj1 (sep_at j b' Hj)). rewrite Ee. set_solver. }
  revert Hlt. generalize blocks as bs. induction bs as [|b bs IH]; intros Hlt; cbn; constructor.
  - apply IH. intros i j x y Hij Hi Hj. apply (Hlt (S i) (S j)); [lia|done|done].
  - apply Forall_fmap, Forall_forall. intros x Hx. apply list_elem_of_lookup in Hx as [i Hi]. apply (Hlt 0%nat (S i)); [lia|done|done].
Qed.

(** *** Iterators *)

Context (t : Table R) (id : Z).
Hypothesis t_opened : opened id t.

Lemma BlockReader_spec options b : b ∈ blocks ->
  exists l rs bi, BlockReader t None options (handle_bytes (b_handle o b)) = Ret (None, bi, None) /\ map entry l = b_entries b /\ shares [] l /\ restarts_ok l rs /\ zlen (block_image l rs) < 2 ^ 32 /\ block_at l rs bi None.
Proof.
  intros Hb. destruct t_opened as (_ & Hfile & _). unfold BlockReader. rewrite DecodeHandle_whole by (by apply block_handle_ok). cbn [ok]. unfold fetch_block, read_new_block. rewrite Hfile.
  destruct (read_block options b Hb) as (r & -> & ->). cbn [ok]. destruct (block_facts b Hb) as ((l & rs & Hraw & El & Hsh & Hrs & Hsz) & _). destruct (block_iterator_opens l rs Hsh Hrs Hsz) as (blk & bi & Hblk & Hbi & Hat). rewrite Hraw, Hblk. cbn [obind fmap option_fmap option_map fst]. rewrite Hbi. cbn [obind].
  by exists l, rs, bi.
Qed.

(** The blocks as cursors. *)
Definition block_child (options : ReadOptions) (b : dblock) (c : child_spec BlockIterator Compare) : Prop :=
  ch_entries c = b_entries b /\ (forall k, seekable (IteratorLaws := ch_laws c) k) /\
  exists bi, BlockReader t None options (handle_bytes (b_handle o b)) = Ret (None, bi, None) /\ at_index (IteratorLaws := ch_laws c) bi None.

Lemma block_children options : exists cs, Forall2 (block_child options) blocks cs.
Proof.
  assert (forall bs, bs ⊆ blocks -> exists cs, Forall2 (block_child options) bs cs) as Hgen; [|by apply Hgen].
  induction bs as [|b bs IH]; intros Hsub; [by exists []|]. destruct IH as (cs & Hcs); [set_solver|]. assert (b ∈ blocks) as Hb by set_solver. destruct (BlockReader_spec options b Hb) as (l & rs & bi & Hbi & El & Hsh & Hrs & Hsz & Hat). destruct (block_facts b Hb) as (_ & _ & Hs). rewrite <- El in Hs.
  exists (mkChild (map entry l) (Block_IteratorLaws l rs Hsh Hrs Hsz Hs) :: cs). constructor; [|done]. split; [exact El|]. split; [by intros k|]. exists bi. by split.
Qed.

Lemma index_child : exists (c : child_spec BlockIterator Compare) bi, ch_entries c = index_entry o <$> blocks /\ (forall k, seekable (IteratorLaws := ch_laws c) k) /\
  NewIterator (tab_index_block t) = Ret bi /\ at_index (IteratorLaws := ch_laws c) bi None.
Proof.
  destruct t_opened as (_ & _ & _ & Hidx & _). destruct (ti_index _ _ _ _ _ _ table_ok) as (l & rs & Hi & El & Hsh & Hrs & Hsz). destruct (block_iterator_opens l rs Hsh Hrs Hsz) as (idx & bi & Hb & Hbi & Hat).
  assert (idx = tab_index_block t) as -> by (rewrite Hi in Hidx; congruence). pose proof index_entries_sorted as Hs. rewrite <- El in Hs.
  exists (mkChild (map entry l) (Block_IteratorLaws l rs Hsh Hrs Hsz Hs)), bi. split; [exact El|]. split; [by intros k|]. by split.
Qed.

(** The block a handle names. *)
Definition child_of_handle (cs : list (child_spec BlockIterator Compare)) (dflt : child_spec BlockIterator Compare) (h : bytes) : child_spec BlockIterator Compare :=
  match list_find (fun b => handle_bytes (b_handle o b) = h) blocks with
  | Some (i, _) => default dflt (cs !! i)
  | None => dflt
  end.

Lemma child_of_handle_spec options cs dflt b : Forall2 (block_child options) blocks cs -> b ∈ blocks -> block_child options b (child_of_handle cs dflt (handle_bytes (b_handle o b))).
Proof.
  intros Hcs Hb. unfold child_of_handle. destruct (list_find_elem_of (fun x => handle_bytes (b_handle o x) = handle_bytes (b_handle o b)) blocks b Hb eq_refl) as [[i x] Hx]. rewrite Hx. apply list_find_Some in Hx as (Hi & Heq & _).
  apply list_elem_of_lookup in Hb as [j Hj]. assert (i = j) as -> by (by eapply handles_inj). destruct (Forall2_lookup_l _ _ _ _ _ Hcs Hj) as (c & -> & Hc). exact Hc.
Qed.

(** The iterator of the table is a cursor over its entries. *)
Lemma table_NewIterator_spec options fuel : (length blocks + 1 < fuel)%nat ->
  exists it (L : IteratorLaws (TwoLevelIterator BlockIterator BlockIterator) (H := TwoLevel_Iterator (block_function t options) fuel) Compare (entries_of blocks)),
    table_NewIterator t = Ret it /\ at_index (IteratorLaws := L) it None /\ forall k, seekable (IteratorLaws := L) k.
Proof.
  intros Hfuel. destruct (block_children options) as (cs & Hcs). destruct index_child as (ic & bi & Hic & Hsk & Hbi & Hat). pose (blk := child_of_handle cs ic).
  assert (forall b, b ∈ blocks -> ch_entries (blk (handle_bytes (b_handle o b))) = b_entries b) as Hblk by (intros b Hb; by apply (child_of_handle_spec options cs ic b Hcs Hb)).
  assert (TwoLevelIterator.blocks Compare ic blk = b_entries <$> blocks) as Hbs.
  { unfold TwoLevelIterator.blocks. rewrite Hic, <- list_fmap_compose. apply list_fmap_ext. intros i b Hi. cbn. apply Hblk. by eapply list_elem_of_lookup_2. }
  assert (all_entries Compare ic blk = entries_of blocks) as Heq by (unfold all_entries; by rewrite Hbs). rewrite <- Heq.
  unshelve epose (L := TwoLevel_IteratorLaws Compare (block_function t options) ic blk _ _ _ fuel _).
  - intros k h Hin. rewrite Hic in Hin. apply list_elem_of_fmap in Hin as (b & [= -> ->] & Hb). destruct (child_of_handle_spec options cs ic b Hcs Hb) as (_ & _ & bi' & Hbi' & Hat'). exists bi', None. unfold block_function. by rewrite Hbi'.
  - intros j k h Hj. rewrite Hic, list_lookup_fmap in Hj. destruct (blocks !! j) as [b|] eqn:Ej; [|done]. injection Hj as <- <-. rewrite Hblk by (by eapply list_elem_of_lookup_2). destruct (sep_at j b Ej) as [Hle Hlt]. split; [done|].
    intros i b' e Hij Hi He. rewrite Hbs, list_lookup_fmap in Hi. destruct (blocks !! i) as [x|] eqn:Ei; [|done]. injection Hi as <-. by eapply Hlt.
  - rewrite Hic. apply index_entries_sorted.
  - by rewrite Hic, length_fmap.
  - destruct (NewTwoLevelIterator_at Compare ic blk bi None Hat) as (it & Hit & Hia). exists it, L. split; [unfold table_NewIterator; rewrite Hbi; exact Hit|]. split; [exact Hia|].
    intros k. split; [apply Hsk|]. intros k0 h Hin. rewrite Hic in Hin. apply list_elem_of_fmap in Hin as (b & [= -> ->] & Hb). by apply (child_of_handle_spec options cs ic b Hcs Hb).
Qed.

(** *** Lookups *)

(** The filter treats two keys alike. *)
Definition same_match (k k' : bytes) : Prop := forall f, KeyMayMatch k f = KeyMayMatch k' f.

(** The key [k] lies behind a block, at or before the key of its index entry, and the entry [e] starts the
    next block. *)
Definition gap (k : bytes) (e : bytes * bytes) (b : dblock) : Prop :=
  b ∈ blocks /\ Compare (last_key_of (b_entries b)) k < 0 /\ Compare k (b_sep b) <= 0 /\ FindShortestSeparator (last_key_of (b_entries b)) e.1 = Ret (b_sep b).

(** What a lookup of [k] hands to its callback: the first entry at or after [k], or nothing if the filter tells
    the two keys apart or [k] lies in a gap. *)
Definition get_answer (k : bytes) (r : option (bytes * bytes)) : Prop :=
  let first := entries_of blocks !! cut (fun e => Compare e.1 k < 0) (entries_of blocks) in
  match r with
  | Some e => first = Some e
  | None => forall e, first = Some e -> ~ same_match k e.1 \/ exists b, gap k e b
  end.

Hypothesis filter_small : forall f, fraw = Some f -> zlen f < 2 ^ 32.
Hypothesis entries_few : zlen (entries_of blocks) < 2 ^ 31.

Lemma reader_total k off : match fraw with Some f => exists b, reader_KeyMayMatch (new_FilterBlockReader f) off k = Ret b | None => True end.
Proof.
  pose proof (ti_filter _ _ _ _ _ _ table_ok) as Hf. pose proof filter_small as Hsm. destruct fraw as [f|]; [|done]. destruct Hf as (_ & fb & off' & -> & fs & ks & Hh & _). specialize (Hsm _ eq_refl). rewrite (Finish_image fb fs ks Hh) in *. rewrite (reader_image _ Hsm). unfold reader_KeyMayMatch. cbn [base_lg_]. change (kFilterBaseLg <? 64) with true. cbn [oassert obind].
  destruct (_ <? _); [|by eexists]. destruct (_ && _); [by eexists|]. destruct (_ =? _); by eexists.
Qed.

Lemma reader_same k k' r off : same_match k k' -> reader_KeyMayMatch r off k = reader_KeyMayMatch r off k'.
Proof. intros Hs. unfold reader_KeyMayMatch. by rewrite Hs. Qed.

Lemma reader_has b e : b ∈ blocks -> e ∈ b_entries b -> match fraw with Some f => reader_KeyMayMatch (new_FilterBlockReader f) (b_off b) e.1 = Ret true | None => True end.
Proof.
  intros Hb He. pose proof (ti_filter _ _ _ _ _ _ table_ok) as Hf. pose proof filter_small as Hsm. destruct (block_handle_ok b Hb) as [[Hoff _] _]. destruct fraw as [f|]; [|done]. destruct Hf as (_ & fb & off' & -> & Hst). apply (Finish_state fb off' (keyed blocks) Hst); [by rewrite zlen_keyed|by apply Hsm|exact Hoff|].
  unfold keyed. apply list_elem_of_join. exists ((fun e => (b_off b, e.1)) <$> b_entries b). split; [apply list_elem_of_fmap; by exists e|]. by apply (list_elem_of_fmap_2 (fun b => (fun e => (b_off b, e.1)) <$> b_entries b)).
Qed.

(** Where the first entry at or after [k] stands. *)
Lemma first_in_block k j b : blocks !! j = Some b -> cut (fun e => Compare e.1 k < 0) (index_entry o <$> blocks) = j ->
  let low := fun e : bytes * bytes => Compare e.1 k < 0 in
  Compare k (b_sep b) <= 0 /\ entries_of blocks !! cut low (entries_of blocks) = (b_entries b ++ entries_of (drop (S j) blocks)) !! cut low (b_entries b).
Proof.
  intros Hj Hcut low. pose proof (cut_lookup Compare low (closed_lt Compare k) (index_entry o <$> blocks) index_entries_sorted) as Hcl. change (fun e : bytes * bytes => Compare e.1 k < 0) with low in Hcut. rewrite Hcut in Hcl.
  assert (Compare k (b_sep b) <= 0) as Hk.
  { pose proof (Hcl j (index_entry o b) ltac:(by rewrite list_lookup_fmap, Hj)) as Hx. unfold low in Hx. cbn [index_entry fst] in Hx. pose proof (compare_antisym (b_sep b) k). lia. }
  split; [done|]. rewrite <- (take_drop_middle blocks j b Hj) at 1 2. rewrite !entries_of_app. change (entries_of (b :: drop (S j) blocks)) with (b_entries b ++ entries_of (drop (S j) blocks)). rewrite !cut_app.
  rewrite (cut_all low (entries_of (take j blocks))), (cut_none low (entries_of (drop (S j) blocks))).
  - rewrite lookup_app_r by lia. f_equal. lia.
  - intros e He Hlow. unfold entries_of in He. apply list_elem_of_join in He as (es & He & Hes). apply list_elem_of_fmap in Hes as (b' & -> & Hb'). apply list_elem_of_lookup in Hb' as [i Hi]. rewrite lookup_drop in Hi. pose proof (proj2 (sep_at j b Hj) (S j + i)%nat b' e ltac:(lia) Hi He) as Hlt.
    pose proof (compare_le_lt k (b_sep b) e.1 Hk Hlt) as Hke. pose proof (compare_antisym k e.1). unfold low in Hlow. pose proof (compare_antisym e.1 k). lia.
  - intros e He. unfold entries_of in He. apply list_elem_of_join in He as (es & He & Hes). apply list_elem_of_fmap in Hes as (b' & -> & Hb'). apply list_elem_of_lookup in Hb' as [i Hi]. apply lookup_take_Some in Hi as [Hi Hij]. unfold low. eapply compare_le_lt; [by apply (proj1 (sep_at i b' Hi))|].
    pose proof (Hcl i (index_entry o b') ltac:(by rewrite list_lookup_fmap, Hi)) as Hx. unfold low in Hx. cbn [index_entry fst] in Hx. lia.
Qed.

(** Without an entry at or after [k] in its block, the key is in a gap. *)
Lemma in_gap k j b e : blocks !! j = Some b -> Compare k (b_sep b) <= 0 -> cut (fun e => Compare e.1 k < 0) (b_entries b) = length (b_entries b) ->
  (b_entries b ++ entries_of (drop (S j) blocks)) !! length (b_entries b) = Some e -> gap k e b.
Proof.
  intros Hj Hk Hcut He. assert (b ∈ blocks) as Hb by (by eapply list_elem_of_lookup_2). destruct (block_facts b Hb) as (_ & Hne & Hs). rewrite lookup_app_r, Nat.sub_diag in He by done. destruct (entries_of (drop (S j) blocks)) as [|x later] eqn:El; [done|]. injection He as ->. split; [done|]. split.
  - destruct (last_key_of_elem _ Hne) as (y & Hy & <-). apply list_elem_of_lookup in Hy as [i Hi]. apply (cut_lookup Compare (fun e => Compare e.1 k < 0) (closed_lt Compare k) (b_entries b) Hs i y Hi). rewrite Hcut. by eapply lookup_lt_Some.
  - split; [done|]. destruct (ti_seps _ _ _ _ _ _ table_ok (take j blocks) b (drop (S j) blocks)) as (_ & _ & _ & _ & Hprov); [symmetry; by apply take_drop_middle|]. apply (Hprov e later). by rewrite app_nil_r, El.
Qed.

Lemma InternalGet_spec options k : exists r, get_answer k r /\
  forall S (handle_result : S -> bytes -> bytes -> outcome S) st, InternalGet t options k handle_result st = match r with Some e => let! st := handle_result st e.1 e.2 in Ret (st, OK) | None => Ret (st, OK) end.
Proof.
  destruct index_child as ([ies ilaws] & bi & Hic & Hsk & Hbi & Hat). cbn [ch_entries ch_laws] in *. subst ies. destruct (at_seek (IteratorLaws := ilaws) bi None k Hat (Hsk k)) as (bi1 & Hseek & Hat1).  fold (cut (fun e => Compare e.1 k < 0) (index_entry o <$> blocks)) in Hat1.
  destruct (at_valid (IteratorLaws := ilaws) bi1 _ Hat1) as [Hv1 Hst1]. unfold InternalGet. destruct t_opened as (_ & _ & _ & _ & Hfil & _).
  set (j := cut (fun e => Compare e.1 k < 0) (index_entry o <$> blocks)) in *. unfold index_of in *. rewrite length_fmap in *. destruct (Nat.ltb_spec j (length blocks)) as [Hj|Hj].
  2:{ exists None. split; [|intros S h st; rewrite Hbi; cbn [obind]; rewrite Hseek; cbn [obind]; rewrite Hv1; cbn [obind ok]; by rewrite Hst1].
      intros e He. exfalso. apply list_elem_of_lookup_2 in He as Hin. unfold entries_of in Hin. apply list_elem_of_join in Hin as (l & Hin & Hl). apply list_elem_of_fmap in Hl as (b & -> & Hb). apply list_elem_of_lookup in Hb as [i Hi]. pose proof (lookup_lt_Some _ _ _ Hi).
      pose proof (cut_lookup Compare _ (closed_lt Compare k) (index_entry o <$> blocks) index_entries_sorted i (index_entry o b) ltac:(by rewrite list_lookup_fmap, Hi)) as Hx. fold j in Hx. cbn [index_entry fst] in Hx. pose proof (compare_le_lt _ _ _ (proj1 (sep_at i b Hi) e Hin) (proj2 Hx ltac:(lia))) as Hlt.
      apply (cut_lookup Compare (fun e => Compare e.1 k < 0) (closed_lt Compare k) _ es_sorted) in He. cbn in He. lia. }
  destruct (lookup_lt_is_Some_2 blocks j Hj) as [b Hb]. assert (b ∈ blocks) as Hbb by (by eapply list_elem_of_lookup_2). destruct (first_in_block k j b Hb eq_refl) as [Hk Hfirst].
  destruct (at_entry (IteratorLaws := ilaws) bi1 j (b_sep b) (handle_bytes (b_handle o b)) Hat1) as [_ Hval]; [by rewrite list_lookup_fmap, Hb|].
  assert (forall e, entries_of blocks !! cut (fun e => Compare e.1 k < 0) (entries_of blocks) = Some e -> e ∈ b_entries b \/ gap k e b) as Hwhere.
  { intros e He. rewrite Hfirst in He. pose proof (cut_le (fun e => Compare e.1 k < 0) (b_entries b)) as Hle. destruct (Nat.eq_dec (cut (fun e => Compare e.1 k < 0) (b_entries b)) (length (b_entries b))) as [Heq|Hne].
    - right. rewrite Heq in He. by eapply in_gap.
    - left. rewrite lookup_app_l in He by lia. by eapply list_elem_of_lookup_2. }
  (* the filter *)
  assert (exists skip, match tab_filter t with None => Ret false | Some filter => let '(handle, _, s) := DecodeHandle new_BlockHandle (handle_bytes (b_handle o b)) in if ok s then let! may := reader_KeyMayMatch filter (handle_offset handle) k in Ret (negb may) else Ret false end = Ret skip /\
    (skip = true -> forall e, e ∈ b_entries b -> ~ same_match k e.1)) as (skip & Hskip & Hdeny).
  { rewrite Hfil, DecodeHandle_whole by (by apply block_handle_ok). cbn [ok b_handle handle_offset]. pose proof (reader_total k (b_off b)) as Ht. pose proof (fun e => reader_has b e Hbb) as Hh. destruct fraw as [f|]; cbn [fmap option_fmap option_map]; [|by exists false].
    destruct Ht as [may Hmay]. rewrite Hmay. cbn [obind]. exists (negb may). split; [done|]. intros Hn e He Hsame. rewrite (reader_same k e.1 _ _ Hsame), (Hh e He) in Hmay. by destruct may. }
  destruct skip.
  { exists None. split; [|intros S h st; rewrite Hbi; cbn [obind]; rewrite Hseek; cbn [obind]; rewrite Hv1; rewrite bool_decide_eq_true_2 by done; rewrite Hval; cbn [obind]; rewrite Hskip; cbn [obind ok]; by rewrite Hst1].
    intros e He. destruct (Hwhere e He) as [Hin|Hg]; [left; by apply Hdeny|right; by exists b]. }
  destruct (BlockReader_spec options b Hbb) as (l & rs & di & Hdi & El & Hsh & Hrs & Hsz & Hdat). destruct (block_facts b Hbb) as (_ & _ & Hs). assert (exists L : IteratorLaws BlockIterator Compare (b_entries b), at_index di None /\ seekable k) as (L & Hd0 & Hds) by (rewrite <- El in *; by exists (Block_IteratorLaws l rs Hsh Hrs Hsz Hs)).
  destruct (at_seek (IteratorLaws := L) di None k Hd0 Hds) as (di1 & Hdseek & Hdat1). fold (cut (fun e => Compare e.1 k < 0) (b_entries b)) in Hdat1. destruct (at_valid (IteratorLaws := L) di1 _ Hdat1) as [Hdv Hdst].
  assert (forall S (h : S -> bytes -> bytes -> outcome S) st, (let! iiter := NewIterator (tab_index_block t) in let! iiter := it_Seek iiter k in let! (st, s) := if it_Valid iiter then let! handle_value := it_value iiter in
      let! skip := match tab_filter t with None => Ret false | Some filter => let '(handle, _, s) := DecodeHandle new_BlockHandle handle_value in if ok s then let! may := reader_KeyMayMatch filter (handle_offset handle) k in Ret (negb may) else Ret false end in
      if skip then Ret (st, OK) else let! (_, block_iter, _) := BlockReader t None options handle_value in let! block_iter := it_Seek block_iter k in
      let! st := if it_Valid block_iter then let! key := it_key block_iter in let! value := it_value block_iter in h st key value else Ret st in Ret (st, it_status block_iter) else Ret (st, OK) in Ret (st, if ok s then it_status iiter else s)) =
      let! st := if it_Valid di1 then let! key := it_key di1 in let! value := it_value di1 in h st key value else Ret st in Ret (st, OK)) as Hrun.
  { intros S h st. rewrite Hbi. cbn [obind]. rewrite Hseek. cbn [obind]. rewrite Hv1, bool_decide_eq_true_2 by done. rewrite Hval. cbn [obind]. rewrite Hskip. cbn [obind]. rewrite Hdi. cbn [obind]. rewrite Hdseek. cbn [obind]. rewrite Hdst. destruct (if it_Valid di1 then _ else _) as [st'| |]; cbn [obind ok]; [|done|done]. by rewrite Hst1. }
  unfold index_of in Hdat1, Hdv. pose proof (cut_le (fun e => Compare e.1 k < 0) (b_entries b)) as Hle.
  destruct (Nat.ltb_spec (cut (fun e => Compare e.1 k < 0) (b_entries b)) (length (b_entries b))) as [Hlt|Hge].
  - destruct (lookup_lt_is_Some_2 (b_entries b) _ Hlt) as [[ek ev] He]. exists (Some (ek, ev)). split; [unfold get_answer; rewrite Hfirst, lookup_app_l by done; exact He|].
    intros S h st. rewrite Hrun, Hdv. rewrite bool_decide_eq_true_2 by done. destruct (at_entry (IteratorLaws := L) di1 _ ek ev Hdat1 He) as [-> ->]. done.
  - exists None. split; [|intros S h st; by rewrite Hrun, Hdv]. intros e He. right. exists b. rewrite Hfirst in He. assert (cut (fun e => Compare e.1 k < 0) (b_entries b) = length (b_entries b)) as Heq by lia. rewrite Heq in He. by eapply in_gap.
Qed.
End Reading.

(** A table has at most as many blocks as entries. *)
Lemma blocks_entries (blocks : list dblock) : Forall (fun b => b_entries b ≠ []) blocks -> (length blocks <= length (entries_of blocks))%nat.
Proof.
  induction 1 as [|b bs Hb Hbs IH]; [done|]. change (entries_of (b :: bs)) with (b_entries b ++ entries_of bs). rewrite length_app. cbn [length]. destruct (b_entries b); [done|]. cbn [length]. lia.
Qed.

(** ** The properties *)

Section Roundtrip.
Context `{laws : ComparatorLaws} `{lens : !SeparatorLengths} `{flaws : FilterPolicyLaws} `{Crc32c} `{claws : CompressorLaws} {F R : Type} `{wlaws : WritableFileLaws F} `{rlaws : RandomAccessFileLaws R}.

(** C10: Whatever entries in the order of the comparator a table is built from, no assertion of the builder
    fails, and unless its file has failed the status is OK and the size the builder reports is that of the file.
    When the file is read afterwards, the table opens, and its iterator is a cursor over the entries: it
    refines the positions of the list that was added, for every sequence of operations, with the uncompressed or
    the compressed form of the blocks and with or without a filter. *)
Theorem table_roundtrip (o : TableOptions) (wfile : F) (es : list (bytes * bytes)) :
  1 <= to_restart_interval o ->
  (to_compression o = kNoCompression \/ to_compression o = kSnappyCompression \/ to_compression o = kZstdCompression) ->
  (forall name, to_filter_name o = Some name -> zlen name < 2 ^ 31) ->
  (forall f d f', Append f d = (f', OK) -> zlen (contents f') < 2 ^ 63) ->
  contents wfile = [] -> entries_sorted es -> Forall (fun e => valid_key e.1) es -> table_budget es + 8 < 2 ^ 32 ->
  exists r s, write_table o wfile es = Ret (r, s) /\ delete_TableBuilder r = Ret tt /\ (s = OK \/ failed (t_file r)) /\
    (s = OK -> FileSize r = zlen (contents (t_file r)) /\
      forall (rfile : R) id, image rfile = contents (t_file r) -> (forall off n, exists x b, RandRead rfile off n = (OK, x, b)) ->
      exists t, Open o rfile (FileSize r) id = Ret (Some t, OK) /\
        forall options fuel, (length es + 1 < fuel)%nat ->
        exists it (L : IteratorLaws (TwoLevelIterator BlockIterator BlockIterator) (H := TwoLevel_Iterator (block_function t options) fuel) Compare es),
          table_NewIterator t = Ret it /\ at_index (IteratorLaws := L) it None /\ forall k, seekable (IteratorLaws := L) k).
Proof.
  intros Hi Hc Hn Hlim Hf Hs Hv Hb. destruct (write_table_spec o Hi Hlim Hn wfile es Hf Hs Hv Hb) as (r & s & Hw & Hd & Hok).
  exists r, s. split; [done|]. split; [done|]. split; [exact (write_table_failure _ _ _ _ _ Hw)|]. intros HsOK. destruct (Hok HsOK) as (blocks & fraw & meta & index & Himg & Hes & Hsz). split; [done|].
  intros rfile id Hr Hreads. rewrite <- Hr in Himg, Hsz. destruct (Open_spec o Hc rfile blocks fraw meta index Himg Hreads id) as (t & Ht & Hop). exists t. split; [by rewrite Hsz|].
  intros options fuel Hfuel. subst es. apply (table_NewIterator_spec o Hc rfile blocks fraw meta index Himg Hreads Hs t id Hop options fuel).
  assert (length blocks <= length (entries_of blocks))%nat; [|lia]. apply blocks_entries. eapply Forall_impl; [apply (ti_blocks _ _ _ _ _ _ Himg)|]. by intros b [_ Hb'].
Qed.
End Roundtrip.

(** *** A table on a bounded disk *)

(** A file that takes less than [2 ^ 40] bytes. *)
Record DiskFile := mkDiskFile { df_data : bytes; df_failed : bool }.

#[global] Instance DiskFile_writable : WritableFile DiskFile := {
  Append f d :=
    if df_failed f then (f, IOError "write after error")
    else if zlen (df_data f ++ d) <? 2 ^ 40 then (mkDiskFile (df_data f ++ d) false, OK)
    else (mkDiskFile (df_data f) true, IOError "no space");
  Flush f := if df_failed f then (f, IOError "write after error") else (f, OK);
}.

#[global, refine] Instance DiskFile_writable_laws : WritableFileLaws DiskFile := { contents := df_data; failed f := df_failed f = true }.
Proof.
  - intros [da fl] d f'. cbn. destruct fl; [done|]. destruct (_ <? _); intros [= <-]; cbn; auto.
  - intros [da fl] d f' s. cbn. destruct fl.
    + intros [= <- <-] _. cbn. split; [done|]. exists 0. by rewrite ztake_0, app_nil_r.
    + destruct (_ <? _); intros [= <- <-]; cbn; [done|]. intros _. split; [done|]. exists 0. by rewrite ztake_0, app_nil_r.
  - intros [da fl] d f' s. cbn. intros ->. by intros [= <- <-].
  - intros [da fl] f' s. cbn. destruct fl; by intros [= <- <-].
  - intros [da fl] f'. cbn. destruct fl; intros [= <-]; cbn; auto.
  - intros [da fl] f' s. cbn. destruct fl; by intros [= <- <-].
Defined.

Lemma DiskFile_limit (f : DiskFile) d f' : Append f d = (f', OK) -> zlen (contents f') < 2 ^ 63.
Proof. destruct f as [da fl]. cbn. destruct fl; [done|]. destruct (Z.ltb_spec (zlen (da ++ d)) (2 ^ 40)) as [Hlt|]; intros [= <-]. cbn. lia. Qed.

Section Witnesses.
#[local] Existing Instances BytewiseComparator BytewiseComparator_laws.
#[local] Instance portable : Crc32c := Crc32c_portable 0.
#[local] Instance ten_bits : FilterPolicy := NewBloomFilterPolicy 10.
#[local] Instance ten_bits_laws : FilterPolicyLaws := bloom_laws 10 ltac:(lia).
#[local] Instance no_snappy : Snappy := { Snappy_GetUncompressedLength _ := None; Snappy_Uncompress _ := None }.
#[local] Instance no_zstd : Zstd := { Zstd_GetUncompressedLength _ := None; Zstd_Uncompress _ := None }.
#[local] Instance no_compressors : Compressors := { Snappy_Compress _ := None; Zstd_Compress _ _ := None }.
#[local] Instance no_compressor_laws : CompressorLaws.
Proof. by split. Qed.
#[local] Instance bytes_random : RandomAccessFile bytes := { RandRead f off n := (OK, ztake n (zdrop off f), true) }.
#[local, refine] Instance bytes_random_laws : RandomAccessFileLaws bytes := { image f := f }.
Proof. intros f off n d b _ _ [= <- <-]. done. Defined.

(** Small blocks, so that there are several. *)
Definition sample_options : TableOptions := mkTableOptions 20 2 kSnappyCompression 1 (Some (str "leveldb.BuiltinBloomFilter2")) true.

Definition sample_entries : list (bytes * bytes) :=
  [([x61], [x01; x02]); ([x61; x62], [x03]); ([x62], []); ([x63; x63], [x04; x05; x06]); ([x64], [x07]); ([x65; x65; x65], [x08])].

Lemma table_roundtrip_witness : exists r s,
  write_table sample_options (mkDiskFile [] false) sample_entries = Ret (r, s) /\ s = OK /\
  exists t, Open sample_options (df_data (t_file r)) (FileSize r) 7 = Ret (Some t, OK) /\
  exists it it', table_NewIterator t = Ret it /\
    it_SeekToLast (Iterator := TwoLevel_Iterator (block_function t new_ReadOptions) 10) it = Ret it' /\
    it_key (Iterator := TwoLevel_Iterator (block_function t new_ReadOptions) 10) it' = Ret [x65; x65; x65].
Proof.
  destruct (table_roundtrip (R := bytes) sample_options (mkDiskFile [] false) sample_entries) as (r & s & Hw & _ & Hst & Hr).
  - done.
  - by right; left.
  - by intros name [= <-].
  - apply DiskFile_limit.
  - done.
  - repeat constructor.
  - repeat constructor.
  - done.
  - exists r, s. split; [done|]. assert (s = OK) as HsOK.
    { assert (match write_table sample_options (mkDiskFile [] false) sample_entries with Ret (_, s') => s' = OK | _ => False end) as Hx by (vm_compute; reflexivity). by rewrite Hw in Hx. }
    split; [done|].
    destruct (Hr HsOK) as (_ & Hop). destruct (Hop (df_data (t_file r)) 7) as (t & Ht & Hit); [reflexivity|intros off n; eexists _, _; reflexivity|]. exists t. split; [done|].
    destruct (Hit new_ReadOptions 10%nat) as (it & L & Hn & Hat & _); [cbn; lia|]. destruct (at_last (IteratorLaws := L) it None Hat) as (it' & Hl & Hat'). exists it, it'. split; [done|]. split; [done|]. by apply (at_entry (IteratorLaws := L) it' 5 [x65; x65; x65] [x08] Hat').
Defined.
End Witnesses.
