(* ===== verification/TableCache.v ===== *)
(** * The table cache

    [cache/table_cache.c]: the open tables of a database, by file number. A table is opened when it is
    first used and stays in a sharded LRU cache; a lookup of an internal key goes through the
    table's filter and index. The tables are opened without a block cache. *)

From stdpp Require Import gmap sorting sets.
From S2P Require Import Prelude Coding Env Crc32c Cache Comparator DbFormat SkipList MemTable Version BlockBuilder Block BlockCorrect Format Filter FilterBlock Filename Iterator BlockIter TableBuilder DBIter MergingIterator TwoLevelIterator VersionGet Table TableCorrect TableRead.

Open Scope outcome_scope.

(** What the cache uses of its environment: a file opened for reads at any offset. *)
Class RandomEnv (E F : Type) := {
  NewRandomAccessFile : E -> bytes -> E * Status * option F;
}.

(** [TableCache], with the environment it opens its files in. *)
Record Tables (E F : Type) := mkTables {
  env_ : E;
  dbname_ : bytes;
  options_ : TableOptions;
  cache_ : ShardedLRUCache (Table F);
}.
Arguments mkTables {E F} _ _ _ _.
Arguments env_ {E F} _.
Arguments dbname_ {E F} _.
Arguments options_ {E F} _.
Arguments cache_ {E F} _.

Section TableCache.
Context `{Comparator} `{FilterPolicy} `{Crc32c} `{Snappy} `{Zstd} {E F : Type} `{RandomAccessFile F} `{RandomEnv E F}.
Abbreviation Tables := (Tables E F).

Definition new_TableCache (env : E) (dbname : bytes) (options : TableOptions) (entries : Z) : outcome Tables :=
  let! cache := new_ShardedLRUCache entries in
  Ret (mkTables env dbname options cache).

Definition set_tables (t : Tables) (env : E) (cache : ShardedLRUCache (Table F)) : Tables :=
  mkTables env (dbname_ t) (options_ t) cache.

(** The file of a table, under its name or under the name older releases gave it. *)
Definition open_table_file (env : E) (dbname : bytes) (file_number : Z) : outcome (E * Status * option F) :=
  let! fname := TableFileName dbname file_number in
  let '(env, s, file) := NewRandomAccessFile env fname in
  if negb (ok s) then
    let! old_fname := SSTTableFileName dbname file_number in
    let '(env, s', file') := NewRandomAccessFile env old_fname in
    Ret (env, if ok s' then OK else s, file')
  else Ret (env, s, file).

Definition FindTable (t : Tables) (file_number file_size : Z) : outcome (Tables * Status * option nat) :=
  let key := EncodeFixed64 file_number in
  let! (cache, handle) := sharded_Lookup (cache_ t) key in
  match handle with
  | Some e => Ret (set_tables t (env_ t) cache, OK, Some e)
  | None =>
      let! (env, s, file) := open_table_file (env_ t) (dbname_ t) file_number in
      let! (table, s) := match file with
        | Some f => if ok s then Open (options_ t) f file_size 0 else Ret (None, s)
        | None => Ret (None, s)
        end in
      match table with
      | None => assert! negb (ok s); Ret (set_tables t env cache, s, None)
      | Some tab =>
          assert! ok s;
          let! (cache, e) := sharded_Insert cache key tab 1 in
          Ret (set_tables t env cache, s, Some e)
      end
  end.

(** The table's iterator and the handle that is released when it is destroyed, or an iterator with the
    status of the failure. *)
Definition tables_NewIterator (t : Tables) (file_number file_size : Z)
    : outcome (Tables * (EmptyIterator + TwoLevelIterator BlockIterator BlockIterator * nat)) :=
  let! (t, s, handle) := FindTable t file_number file_size in
  match handle with
  | Some e =>
      let! table := cache_Value (cache_ t) (EncodeFixed64 file_number) e in
      let! result := table_NewIterator table in
      Ret (t, inr (result, e))
  | None => Ret (t, inl (NewErrorIterator s))
  end.

(** [UnrefEntry], the cleanup function of that iterator. *)
Definition UnrefEntry (t : Tables) (file_number : Z) (e : nat) : outcome Tables :=
  let! (cache, _) := sharded_Release (cache_ t) (HashSlice (EncodeFixed64 file_number)) e in
  Ret (set_tables t (env_ t) cache).

Definition tables_Get {S} (t : Tables) (options : ReadOptions) (file_number file_size : Z) (k : bytes)
    (handle_result : S -> bytes -> bytes -> outcome S) (st : S) : outcome (Tables * Status * S) :=
  let! (t, s, handle) := FindTable t file_number file_size in
  match handle with
  | Some e =>
      let! table := cache_Value (cache_ t) (EncodeFixed64 file_number) e in
      let! (st, s) := InternalGet table options k handle_result st in
      let! t := UnrefEntry t file_number e in
      Ret (t, s, st)
  | None => Ret (t, s, st)
  end.

Definition Evict (t : Tables) (file_number : Z) : outcome Tables :=
  let! (cache, _) := sharded_Erase (cache_ t) (EncodeFixed64 file_number) in
  Ret (set_tables t (env_ t) cache).
End TableCache.

(** ** Entries of the cache *)

Section Entries.
Context {V : Type}.
Abbreviation Heap := (gmap nat (LRUHandle V)).
Abbreviation LRUCache := (LRUCache V).

(** The entries of the second heap are entries of the first, with other counters. *)
Definition remains (heap heap' : Heap) : Prop :=
  forall e h', heap' !! e = Some h' -> exists h, heap !! e = Some h /\ same_static h h'.

#[local] Instance remains_refl : Reflexive remains.
Proof. intros heap e h He. exists h. by split. Qed.

#[local] Instance remains_trans : Transitive remains.
Proof.
  intros a b c Hab Hbc e h He. destruct (Hbc e h He) as (h1 & H1 & (S1 & S2 & S3 & S4)). destruct (Hab e h1 H1) as (h0 & H0 & (T1 & T2 & T3 & T4)).
  exists h0. split; [done|]. unfold same_static. split_and!; congruence.
Qed.

Lemma remains_update (heap : Heap) e h h' : heap !! e = Some h -> same_static h h' -> remains heap (<[e := h']> heap).
Proof.
  intros He Hs x hx Hx. destruct (decide (x = e)) as [->|Hne].
  - rewrite lookup_insert_eq in Hx. injection Hx as <-. by exists h.
  - rewrite lookup_insert_ne in Hx by auto. by exists hx.
Qed.

Lemma remains_delete (heap : Heap) e : remains heap (delete e heap).
Proof. intros x h Hx. apply lookup_delete_Some in Hx as [_ Hx]. by exists h. Qed.

Lemma deref_Ret (heap : Heap) e h : deref heap e = Ret h -> heap !! e = Some h.
Proof. unfold deref. destruct (heap !! e); [by intros [= ->]|done]. Qed.

Lemma Ref_remains (c c' : LRUCache) e : Cache.Ref c e = Ret c' -> remains (heap_ c) (heap_ c').
Proof.
  unfold Cache.Ref. destruct (deref (heap_ c) e) as [h| |] eqn:E; cbn [obind]; [|done|done]. apply deref_Ret in E. intros [= <-].
  destruct (_ && _); by apply (remains_update (heap_ c) e h).
Qed.

Lemma Unref_remains (c c' : LRUCache) e : Cache.Unref c e = Ret c' -> remains (heap_ c) (heap_ c').
Proof.
  unfold Cache.Unref. destruct (deref (heap_ c) e) as [h| |] eqn:E; cbn [obind]; [|done|done]. apply deref_Ret in E. destruct (0 <? refs h); cbn [oassert obind]; [|done]. cbv zeta.
  assert (remains (heap_ c) (<[e := set_refs h (refs h - 1)]> (heap_ c))) as Hu by (by apply (remains_update (heap_ c) e h)).
  destruct (_ =? 0); [destruct (in_cache _); cbn [negb oassert obind]; [done|]|destruct (_ && _)]; intros [= <-]; cbn; [|done|done]. etrans; [exact Hu|]. apply remains_delete.
Qed.

Lemma FinishErase_remains (c c' : LRUCache) e b : FinishErase c e = Ret (c', b) -> remains (heap_ c) (heap_ c').
Proof.
  destruct e as [e|]; cbn [FinishErase]; [|by intros [= <- _]]. destruct (deref (heap_ c) e) as [h| |] eqn:E; cbn [obind]; [|done|done]. apply deref_Ret in E. destruct (in_cache h); cbn [oassert obind]; [|done]. cbv zeta.
  destruct (Cache.Unref _ e) as [c1| |] eqn:Eu; cbn [obind]; [|done|done]. intros [= <- _]. etrans; [|exact (Unref_remains _ _ _ Eu)]. cbn. by apply (remains_update (heap_ c) e h).
Qed.

Lemma evict_oldest_remains (c c' : LRUCache) e : evict_oldest c e = Ret c' -> remains (heap_ c) (heap_ c').
Proof.
  unfold evict_oldest. destruct (deref (heap_ c) e) as [h| |]; cbn [obind]; [|done|done]. destruct (refs h =? 1); cbn [oassert obind]; [|done]. destruct (table_Remove _ _ _ _) as [[t r]| |]; cbn [obind]; [|done|done].
  destruct (FinishErase _ r) as [[c1 b]| |] eqn:Ef; cbn [obind]; [|done|done]. destruct b; cbn [oassert obind]; [|done]. intros [= <-]. exact (FinishErase_remains _ _ _ _ Ef).
Qed.

Lemma evict_loop_remains fuel : forall (c c' : LRUCache), evict_loop fuel c = Ret c' -> remains (heap_ c) (heap_ c').
Proof.
  induction fuel as [|fuel IH]; intros c c'; cbn [evict_loop]; [done|]. destruct (_ <? _); [|by intros [= <-]]. destruct (lru_ c) as [|e l]; [by intros [= <-]|].
  destruct (evict_oldest c e) as [c1| |] eqn:Ee; cbn [obind]; [|done|done]. intros Hl. etrans; [exact (evict_oldest_remains _ _ _ Ee)|by apply IH].
Qed.

Lemma Insert_remains (c c' : LRUCache) key hsh v chg e : 0 < capacity_ c -> Cache.Insert c key hsh v chg = Ret (c', e) ->
  remains (<[next_id_ c := Cache.mkHandle v chg key true 2 hsh]> (heap_ c)) (heap_ c').
Proof.
  intros Hcap. unfold Cache.Insert. cbv zeta. cbn [capacity_]. rewrite (proj2 (Z.ltb_lt 0 _) Hcap). destruct (table_Insert _ _ _) as [[t old]| |]; cbn [obind]; [|done|done].
  destruct (FinishErase _ old) as [[c1 b]| |] eqn:Ef; cbn [obind]; [|done|done]. apply FinishErase_remains in Ef. destruct (evict_loop _ c1) as [c2| |] eqn:El; cbn [obind]; [|done|done]. intros [= <- _]. etrans; [exact Ef|]. by eapply evict_loop_remains.
Qed.

Lemma Lookup_remains (c c' : LRUCache) key hsh r : Cache.Lookup c key hsh = Ret (c', r) -> remains (heap_ c) (heap_ c').
Proof.
  unfold Cache.Lookup. destruct (table_Lookup _ _ _ _) as [[e|]| |]; cbn [obind]; [|by intros [= <- _]|done|done]. destruct (Cache.Ref c e) as [c1| |] eqn:Er; cbn [obind]; [|done|done]. intros [= <- _]. by eapply Ref_remains.
Qed.
End Entries.

(** ** A shard that is used for lookups

    Every value of the shard satisfies [P]; [N] handles may be out, and the number of cached entries stays
    within the capacity and these. *)
Section Shards.
Context {V : Type} (P : bytes -> V -> Prop) (N : Z).
Hypothesis N_small : 0 <= N < 2 ^ 31 - 2.
Abbreviation LRUCache := (LRUCache V).
Abbreviation entries c := (lru_ c ++ in_use_ c).

Definition unit_charges (heap : gmap nat (LRUHandle V)) : Prop := forall e h, heap !! e = Some h -> charge h = 1.

Definition quiet (c : LRUCache) : Prop := exists held ins, Inv c held ins /\ (forall k v, (k, v) ∈ ins -> P k v) /\ unit_charges (heap_ c) /\
  zlen held <= N /\ zlen (entries c) <= Z.max (capacity_ c) (N + 1) /\ 0 < capacity_ c < 2 ^ 31 - 1.

Lemma remains_charges (heap heap' : gmap nat (LRUHandle V)) : remains heap heap' -> unit_charges heap -> unit_charges heap'.
Proof. intros Hr Hu e h He. destruct (Hr e h He) as (h0 & H0 & (_ & _ & -> & _)). by eapply Hu. Qed.

Lemma total_units (heap : gmap nat (LRUHandle V)) l : unit_charges heap -> (forall e, e ∈ l -> is_Some (heap !! e)) -> total heap l = zlen l.
Proof.
  intros Hu. induction l as [|e l IH]; intros Hl; [done|]. cbn [total foldr]. fold (total heap l). rewrite IH by (intros x Hx; apply Hl; by right). rewrite zlen_cons. unfold charge_of. destruct (Hl e) as [h He]; [by left|]. rewrite He, (Hu e h He). lia.
Qed.

Lemma cached_values (c : LRUCache) held ins e h : Inv c held ins -> (forall k v, (k, v) ∈ ins -> P k v) -> heap_ c !! e = Some h -> P (hkey h) (value h).
Proof.
  intros [Hc _] Hp He. apply Hp. rewrite <- (c_acc _ _ _ Hc). apply elem_of_app. right. unfold kvs. apply list_elem_of_fmap. exists (e, h). split; [done|]. by apply elem_of_map_to_list.
Qed.

(** Giving up or taking a reference does not add entries. *)
Lemma Unref_count (c c' : LRUCache) held ins e : Inv c held ins -> Cache.Unref c e = Ret c' -> zlen (entries c') <= zlen (entries c).
Proof.
  intros [Hc _]. unfold Cache.Unref. destruct (deref (heap_ c) e) as [h| |] eqn:E; cbn [obind]; [|done|done]. apply deref_Ret in E. destruct (0 <? refs h); cbn [oassert obind]; [|done]. cbv zeta.
  destruct (_ =? 0); [destruct (in_cache _); cbn [negb oassert obind]; [done|]; by intros [= <-]|]. cbn [set_refs in_cache refs]. destruct (in_cache h) eqn:Hic; cbn [andb]; [|by intros [= <-]]. destruct (_ =? 1); [|by intros [= <-]].
  intros [= <-]. unfold append_lru, LRU_Remove, set_handle. cbn [lru_ in_use_]. rewrite (zlen_perm _ _ (cached_split c held ins e Hc ltac:(by exists h))). rewrite without_app. rewrite zlen_cons, !zlen_app. change (zlen [e]) with 1. lia.
Qed.

Lemma Ref_count (c c' : LRUCache) held ins e : Inv c held ins -> Cache.Ref c e = Ret c' -> zlen (entries c') <= zlen (entries c).
Proof.
  intros [Hc _]. unfold Cache.Ref. destruct (deref (heap_ c) e) as [h| |] eqn:E; cbn [obind]; [|done|done]. apply deref_Ret in E. intros [= <-]. destruct (in_cache h) eqn:Hic; rewrite ?andb_true_r, ?andb_false_r; [|done]. destruct (_ =? 1); [|done].
  unfold append_in_use, LRU_Remove, set_handle. cbn [lru_ in_use_]. rewrite (zlen_perm _ _ (cached_split c held ins e Hc ltac:(by exists h))). rewrite without_app. rewrite zlen_cons, !zlen_app. change (zlen [e]) with 1. lia.
Qed.

(** A handle that is released after its use. *)
Lemma quiet_Release (c : LRUCache) held ins e : Inv c (e :: held) ins -> (forall k v, (k, v) ∈ ins -> P k v) -> unit_charges (heap_ c) ->
  zlen held <= N -> zlen (entries c) <= Z.max (capacity_ c) (N + 1) -> 0 < capacity_ c < 2 ^ 31 - 1 -> exists c', Release c e = Ret c' /\ quiet c'.
Proof.
  intros Hinv Hp Hu Hh Hn Hcap. destruct (Release_spec c held ins e Hinv) as (c' & Hr & Hinv' & Hc' & _). exists c'. split; [done|]. exists held, ins. split; [done|]. split; [done|]. unfold Release in Hr.
  split; [by eapply remains_charges; [eapply Unref_remains; exact Hr|]|]. split; [done|]. rewrite Hc'. split; [|done]. pose proof (Unref_count c c' _ _ e Hinv Hr). lia.
Qed.

Lemma quiet_Lookup (c : LRUCache) key hsh : quiet c -> exists c' r, Cache.Lookup c key hsh = Ret (c', r) /\
  match r with
  | None => c' = c
  | Some e => (exists h, heap_ c' !! e = Some h /\ P key (value h)) /\ exists c'', Release c' e = Ret c'' /\ quiet c''
  end.
Proof.
  intros (held & ins & Hinv & Hp & Hu & Hh & Hn & Hcap). destruct (Lookup_spec c held ins key hsh Hinv) as (c' & r & Hl & Hr & Hc' & _ & _ & Hcase); [lia|]. exists c', r. split; [done|]. destruct r as [e|]; [|done]. destruct Hcase as [Hinv' _].
  pose proof (Lookup_remains _ _ _ _ _ Hl) as Hrem. assert (zlen (entries c') <= zlen (entries c)) as Hcnt.
  { unfold Cache.Lookup in Hl. destruct (table_Lookup _ _ _ _) as [[x|]| |]; cbn [obind] in Hl; [|done|done|done]. destruct (Cache.Ref c x) as [c1| |] eqn:Er; cbn [obind] in Hl; [|done|done]. injection Hl as <- <-. by eapply Ref_count. }
  split.
  - destruct (c_held _ _ _ (proj1 Hinv') e) as [h He]; [by left|]. exists h. split; [done|]. destruct (proj1 (Hr e) eq_refl) as [_ Hid]. destruct (Hrem e h He) as (h0 & H0 & (E1 & E2 & _ & _)). unfold ident in Hid. rewrite H0 in Hid. injection Hid as Hk _.
    rewrite <- Hk, E2. exact (cached_values c held ins e h0 Hinv Hp H0).
  - apply (quiet_Release c' held ins e Hinv' Hp); [by eapply remains_charges|done| |by rewrite Hc']. rewrite Hc'. lia.
Qed.

Lemma without_opt_le o (l : list nat) : zlen (without_opt o l) <= zlen l.
Proof. destruct o as [x|]; cbn; [|lia]. unfold without, zlen. pose proof (length_filter (fun y => y <> x) l). lia. Qed.

Lemma in_use_held (c : LRUCache) held ins : Inv c held ins -> zlen (in_use_ c) <= zlen held.
Proof.
  intros [Hc _]. unfold zlen. apply Nat2Z.inj_le, submseteq_length, NoDup_submseteq; [apply Hc|]. intros x Hx. apply (c_use _ _ _ Hc) in Hx as [_ Hx].
  destruct (decide (x ∈ held)) as [|Hn]; [done|]. rewrite (cnt_zero _ _ Hn) in Hx. lia.
Qed.

Lemma quiet_Insert (c : LRUCache) key hsh v : quiet c -> P key v -> exists c' e h, Cache.Insert c key hsh v 1 = Ret (c', e) /\ heap_ c' !! e = Some h /\ value h = v /\
  exists c'', Release c' e = Ret c'' /\ quiet c''.
Proof.
  intros (held & ins & Hinv & Hp & Hu & Hh & Hn & Hcap) Hv. destruct (lru_Insert_spec c held ins key hsh v 1 Hinv) as (c' & Hi & Hinv' & Hc' & _ & Huse & Hmore); [lia|]. destruct (Hmore ltac:(lia)) as (old & n & _ & Hl & Hiu & He & _).
  exists c', (next_id_ c), (Cache.mkHandle v 1 key true 2 hsh). split; [done|]. split; [done|]. split; [done|].
  assert (unit_charges (heap_ c')) as Hu'.
  { eapply remains_charges; [eapply Insert_remains; [|exact Hi]; lia|]. intros x h Hx. destruct (decide (x = next_id_ c)) as [->|Hne]; [rewrite lookup_insert_eq in Hx; by injection Hx as <-|]. rewrite lookup_insert_ne in Hx by auto. by eapply Hu. }
  apply (quiet_Release c' held ((key, v) :: ins)); [done| |done|done| |by rewrite Hc'].
  - intros k w [[= -> ->]|Hin]%elem_of_cons; [done|by apply Hp].
  - rewrite Hc'. assert (zlen (entries c') <= zlen (entries c) + 1) as Hup.
    { rewrite Hl, Hiu, !zlen_app. change (zlen [next_id_ c]) with 1. pose proof (without_opt_le old (lru_ c)). pose proof (without_opt_le old (in_use_ c)). pose proof (zlen_nonneg (drop n (without_opt old (lru_ c)))). assert (zlen (drop n (without_opt old (lru_ c))) <= zlen (without_opt old (lru_ c))) by (unfold zlen; rewrite length_drop; lia). lia. }
    destruct Huse as [Huse|Hnil].
    + rewrite (c_usage _ _ _ (proj1 Hinv')), total_units in Huse; [|done|].
      * rewrite u64_small in Huse by (pose proof (zlen_nonneg (entries c')); lia). lia.
      * intros x Hx. apply (Core_elem _ _ _ _ (proj1 Hinv')) in Hx as (h & Hx & _). by exists h.
    + rewrite Hnil. cbn [app]. pose proof (in_use_held c' _ _ Hinv') as Hx. rewrite zlen_cons in Hx. lia.
Qed.
End Shards.

(** ** Hash values have 32 bits *)

Lemma mix_range h n : 0 <= h < 2 ^ 32 -> 0 <= n -> 0 <= Z.lxor h (h ≫ n) < 2 ^ 32.
Proof.
  intros Hh Hn. assert (0 <= h ≫ n < 2 ^ 32) as Hs.
  { rewrite Z.shiftr_div_pow2 by done. pose proof (Z.pow_pos_nonneg 2 n ltac:(lia) Hn). split; [apply Z.div_pos; lia|]. apply Z.div_lt_upper_bound; [lia|]. nia. }
  assert (0 <= Z.lxor h (h ≫ n)) as H0 by (apply Z.lxor_nonneg; lia). split; [done|].
  destruct (Z.eq_dec (Z.lxor h (h ≫ n)) 0) as [->|Hne]; [lia|]. apply Z.log2_lt_pow2; [lia|].
  eapply Z.le_lt_trans; [apply Z.log2_lxor; lia|]. apply Z.max_lub_lt; (destruct (Z.eq_dec h 0) as [->|]; [rewrite ?Z.shiftr_0_l; cbn; lia|]).
  - apply Z.log2_lt_pow2; lia.
  - destruct (Z.eq_dec (h ≫ n) 0) as [->|]; [cbn; lia|]. apply Z.log2_lt_pow2; lia.
Qed.

Lemma Hash_range data seed : 0 <= Hash data seed < 2 ^ 32.
Proof.
  unfold Hash. assert (forall fuel d h, 0 <= h < 2 ^ 32 -> 0 <= (hash_loop fuel d h).1 < 2 ^ 32) as Hl.
  { induction fuel as [|fuel IH]; intros d h Hh; cbn [hash_loop]; [done|]. destruct (4 <=? zlen d); [|done]. apply IH, mix_range; [apply u32_range|lia]. }
  specialize (Hl (length data) data (u32 (Z.lxor seed (zlen data * hash_m))) (u32_range _)). destruct (hash_loop _ _ _) as [h rest]. cbn [fst] in Hl. unfold hash_tail. cbv zeta.
  destruct (_ || _ || _); [apply mix_range; [apply u32_range|lia]|]. repeat destruct (_ =? _); cbn [orb]; try apply u32_range; done.
Qed.

Lemma EncodeFixed64_inj a b : 0 <= a < 2 ^ 64 -> 0 <= b < 2 ^ 64 -> EncodeFixed64 a = EncodeFixed64 b -> a = b.
Proof.
  intros Ha Hb He. pose proof (DecodeFixed64_Encode a []) as Da. pose proof (DecodeFixed64_Encode b []) as Db. rewrite He in Da. rewrite Da in Db. by rewrite !u64_small in Db.
Qed.

(** ** Lookups through the cache *)

(** An environment whose files can be read: [file_image env name] are the contents of the file, if there is
    one. Opening a file changes no file. *)
Class RandomEnvLaws (E F : Type) `{RandomEnv E F} `{RandomAccessFileLaws F} := {
  file_image : E -> bytes -> option bytes;
  random_open e name :
    match file_image e name with
    | Some img => exists e' f, NewRandomAccessFile e name = (e', OK, Some f) /\ image f = img /\ (forall off n, exists x b, RandRead f off n = (OK, x, b)) /\
        forall nm, file_image e' nm = file_image e nm
    | None => exists e' s, NewRandomAccessFile e name = (e', s, None) /\ s ≠ OK /\ forall nm, file_image e' nm = file_image e nm
    end;
}.

Section Lookups.
Context `{laws : ComparatorLaws} `{flaws : FilterPolicyLaws} `{Crc32c} `{claws : CompressorLaws} {E F : Type} `{elaws : RandomEnvLaws E F}.
Abbreviation Tables := (Tables E F).

Definition readable (f : F) : Prop := forall off n, exists x b, RandRead f off n = (OK, x, b).

(** The contents of the file of a table. *)
Definition table_bytes (e : E) (dbname : bytes) (n : Z) : option bytes :=
  match file_image e (MakeFileName dbname n "ldb") with
  | Some img => Some img
  | None => file_image e (MakeFileName dbname n "sst")
  end.

Lemma open_table_file_spec e dbname n img : 0 < n -> table_bytes e dbname n = Some img ->
  exists e' f, open_table_file e dbname n = Ret (e', OK, Some f) /\ image f = img /\ readable f /\ forall nm, file_image e' nm = file_image e nm.
Proof.
  intros Hn Ht. unfold open_table_file, TableFileName, SSTTableFileName. rewrite (proj2 (Z.ltb_lt 0 n) Hn). cbn [oassert obind]. unfold table_bytes in Ht.
  pose proof (random_open e (MakeFileName dbname n "ldb")) as Ho. destruct (file_image e (MakeFileName dbname n "ldb")) as [i|].
  - destruct Ho as (e' & f & -> & Hi & Hr & He). cbn [ok negb]. exists e', f. split; [done|]. split; [congruence|]. by split.
  - destruct Ho as (e' & s & -> & Hs & He). rewrite (not_ok s Hs). cbn [negb]. pose proof (random_open e' (MakeFileName dbname n "sst")) as Ho. rewrite He, Ht in Ho. destruct Ho as (e2 & f & -> & Hi & Hr & He2). cbn [ok].
    exists e2, f. split; [done|]. split; [done|]. split; [done|]. intros nm. by rewrite He2, He.
Qed.

(** Every cached table was opened from the file of its number. *)
Definition cached_table (o : TableOptions) (e : E) (dbname : bytes) (k : bytes) (t : Table F) : Prop :=
  exists n f, k = EncodeFixed64 n /\ 0 < n < 2 ^ 64 /\ table_bytes e dbname n = Some (image f) /\ readable f /\ Open o f (zlen (image f)) 0 = Ret (Some t, OK).

Definition tables_ok (N : Z) (t : Tables) : Prop :=
  length (shard_ (cache_ t)) = Z.to_nat kNumShards /\ Forall (quiet (cached_table (options_ t) (env_ t) (dbname_ t)) N) (shard_ (cache_ t)).

Context (N : Z).
Hypothesis N_small : 0 <= N < 2 ^ 31 - 2.

Lemma cached_table_env o e e' dbname k t : (forall nm, file_image e' nm = file_image e nm) -> cached_table o e dbname k t -> cached_table o e' dbname k t.
Proof. intros He (n & f & Hk & Hn & Ht & Hr). exists n, f. split; [done|]. split; [done|]. split; [|done]. unfold table_bytes in *. by rewrite !He. Qed.

Lemma quiet_weaken (P Q : bytes -> Table F -> Prop) c : (forall k t, P k t -> Q k t) -> quiet P N c -> quiet Q N c.
Proof. intros HPQ (held & ins & Hi & Hp & Hrest). exists held, ins. split; [done|]. split; [|done]. intros k v Hin. by apply HPQ, Hp. Qed.

(** The shard of a key. *)
Lemma tables_shard t key : tables_ok N t -> exists c, shard_ (cache_ t) !! Z.to_nat (Shard (HashSlice key)) = Some c /\ quiet (cached_table (options_ t) (env_ t) (dbname_ t)) N c.
Proof.
  intros [Hl Hq]. pose proof (Shard_range (HashSlice key) (Hash_range key 0)) as Hr. destruct (lookup_lt_is_Some_2 (shard_ (cache_ t)) (Z.to_nat (Shard (HashSlice key)))) as [c Hc]; [rewrite Hl; lia|]. exists c. split; [done|]. by eapply Forall_lookup_1.
Qed.

(** A change of one shard and of the state of the environment. *)
Lemma tables_ok_update t e i c : (forall nm, file_image e nm = file_image (env_ t) nm) -> tables_ok N t -> quiet (cached_table (options_ t) (env_ t) (dbname_ t)) N c ->
  tables_ok N (set_tables t e (mkSharded (<[i := c]> (shard_ (cache_ t))) (last_id_ (cache_ t)))).
Proof.
  intros He [Hl Hq] Hc. split; cbn; [by rewrite length_insert|]. apply Forall_insert; [|].
  - eapply Forall_impl; [exact Hq|]. intros x. apply quiet_weaken. intros k tb. by apply cached_table_env.
  - revert Hc. apply quiet_weaken. intros k tb. by apply cached_table_env.
Qed.

(** A lookup runs [InternalGet] on the table of the file and leaves a good cache. *)
Lemma tables_Get_spec t options n img k : tables_ok N t -> 0 < n < 2 ^ 64 -> table_bytes (env_ t) (dbname_ t) n = Some img ->
  (forall f, image f = img -> readable f -> exists tb, Open (options_ t) f (zlen img) 0 = Ret (Some tb, OK)) ->
  exists t' f tb, image f = img /\ readable f /\ Open (options_ t) f (zlen img) 0 = Ret (Some tb, OK) /\
    tables_ok N t' /\ options_ t' = options_ t /\ dbname_ t' = dbname_ t /\ (forall nm, file_image (env_ t') nm = file_image (env_ t) nm) /\
    forall S (h : S -> bytes -> bytes -> outcome S) st, tables_Get t options n (zlen img) k h st = let! (st, s) := InternalGet tb options k h st in Ret (t', s, st).
Proof.
  intros Hok Hn Himg Hopen. destruct (tables_shard t (EncodeFixed64 n) Hok) as (c & Hc & Hq). set (i := Z.to_nat (Shard (HashSlice (EncodeFixed64 n)))) in *. destruct Hok as [Hl Hall] eqn:Hok'. clear Hok'.
  assert (i < length (shard_ (cache_ t)))%nat as Hi by (by eapply lookup_lt_Some). destruct (quiet_Lookup _ _ N_small c (EncodeFixed64 n) (HashSlice (EncodeFixed64 n)) Hq) as (c1 & r & Hlk & Hr).
  assert (sharded_Lookup (cache_ t) (EncodeFixed64 n) = Ret (mkSharded (<[i := c1]> (shard_ (cache_ t))) (last_id_ (cache_ t)), r)) as HL.
  { unfold sharded_Lookup, with_shard. fold i. rewrite Hc, Hlk. done. }
  destruct r as [e|].
  - destruct Hr as ((h & Hh & (n' & f & Hk & Hn' & Hb & Hrd & Ho)) & c2 & Hrel & Hq2). assert (n' = n) as -> by (apply EncodeFixed64_inj; [lia|lia|done]). rewrite Himg in Hb. injection Hb as Hb.
    exists (set_tables t (env_ t) (mkSharded (<[i := c2]> (shard_ (cache_ t))) (last_id_ (cache_ t)))), f, (value h). split; [done|]. split; [done|]. split; [by rewrite Hb|]. split; [by apply tables_ok_update|]. split; [done|]. split; [done|]. split; [done|].
    intros S hr st. unfold tables_Get, FindTable. rewrite HL. cbn [obind]. unfold cache_Value. fold i. cbn [set_tables cache_ shard_]. rewrite list_lookup_insert_eq by done. cbn [obind]. rewrite (deref_some _ _ _ Hh). cbn [obind].
    destruct (InternalGet (value h) options k hr st) as [[st' s]| |]; cbn [obind]; [|done|done]. unfold UnrefEntry, sharded_Release, with_shard. fold i. cbn [set_tables cache_ shard_]. rewrite list_lookup_insert_eq by done. rewrite Hrel. cbn [obind]. by rewrite list_insert_insert_eq.
  - subst c1. destruct (open_table_file_spec (env_ t) (dbname_ t) n img ltac:(lia) Himg) as (e' & f & Hof & Hi' & Hrd & He'). destruct (Hopen f Hi' Hrd) as (tb & Htb).
    assert (cached_table (options_ t) (env_ t) (dbname_ t) (EncodeFixed64 n) tb) as Hct by (exists n, f; rewrite Hi'; done).
    destruct (quiet_Insert _ _ N_small c (EncodeFixed64 n) (HashSlice (EncodeFixed64 n)) tb Hq Hct) as (c1 & e & h & Hins & Hh & Hv & c2 & Hrel & Hq2).
    exists (set_tables t e' (mkSharded (<[i := c2]> (shard_ (cache_ t))) (last_id_ (cache_ t)))), f, tb. split; [done|]. split; [done|]. split; [done|]. split; [by apply tables_ok_update|]. split; [done|]. split; [done|]. split; [done|].
    intros S hr st. unfold tables_Get, FindTable. rewrite HL. cbn [obind]. rewrite Hof. cbn [obind ok]. rewrite Htb. cbn [obind ok oassert]. unfold sharded_Insert, with_shard. fold i. cbn [shard_]. rewrite list_lookup_insert_eq by done. rewrite Hins. cbn [obind]. unfold cache_Value. fold i. cbn [set_tables cache_ shard_].
    rewrite list_insert_insert_eq, list_lookup_insert_eq by done. cbn [obind]. rewrite (deref_some _ _ _ Hh). cbn [obind]. rewrite Hv.
    destruct (InternalGet tb options k hr st) as [[st' s]| |]; cbn [obind]; [|done|done]. unfold UnrefEntry, sharded_Release, with_shard. fold i. cbn [set_tables cache_ shard_]. rewrite list_lookup_insert_eq by done. rewrite Hrel. cbn [obind]. by rewrite list_insert_insert_eq.
Qed.

(** With the table of the file: the entry the lookup hands over. *)
Lemma tables_lookup t options n img blocks fraw meta index k : tables_ok N t -> 0 < n < 2 ^ 64 -> table_bytes (env_ t) (dbname_ t) n = Some img ->
  (to_compression (options_ t) = kNoCompression \/ to_compression (options_ t) = kSnappyCompression \/ to_compression (options_ t) = kZstdCompression) ->
  table_image (options_ t) img blocks fraw meta index -> entries_sorted (entries_of blocks) -> (forall f, fraw = Some f -> zlen f < 2 ^ 32) -> zlen (entries_of blocks) < 2 ^ 31 ->
  exists t' r, get_answer blocks k r /\ tables_ok N t' /\ options_ t' = options_ t /\ dbname_ t' = dbname_ t /\ (forall nm, file_image (env_ t') nm = file_image (env_ t) nm) /\
    forall S (h : S -> bytes -> bytes -> outcome S) st, tables_Get t options n (zlen img) k h st = match r with Some e => let! st := h st e.1 e.2 in Ret (t', OK, st) | None => Ret (t', OK, st) end.
Proof.
  intros Hok Hn Hb Hc Hi Hs Hf Hfew. destruct (tables_Get_spec t options n img k Hok Hn Hb) as (t' & f & tb & Hfi & Hrd & Ho & Hok' & H1' & H2' & H3' & Hget).
  { intros f Hfi Hrd. rewrite <- Hfi in Hi |- *. destruct (Open_spec (options_ t) Hc f blocks fraw meta index Hi Hrd 0) as (tb & Htb & _). by exists tb. }
  rewrite <- Hfi in Hi, Ho. destruct (Open_spec (options_ t) Hc f blocks fraw meta index Hi Hrd 0) as (tb' & Htb & Hop). rewrite Ho in Htb. injection Htb as <-.
  destruct (InternalGet_spec (options_ t) Hc f blocks fraw meta index Hi Hrd Hs tb 0 Hop Hf Hfew options k) as (r & Hr & Hrun). exists t', r. split; [done|]. split; [done|]. split; [done|]. split; [done|]. split; [done|].
  intros S h st. rewrite Hget, Hrun. destruct r as [e|]; [|done]. by destruct (h st e.1 e.2).
Qed.
End Lookups.

(** ** Tables of internal keys *)

(** A filter treats the keys a comparator does not tell apart alike. *)
Class PolicyRespects `{Comparator} `{FilterPolicy} : Prop := {
  match_respects a b f : Compare a b = 0 -> KeyMayMatch a f = KeyMayMatch b f;
}.

#[global] Instance bytewise_respects `{FilterPolicy} : @PolicyRespects BytewiseComparator _.
Proof. split. intros a b f Hab. cbn in Hab. by apply bytewise_eq in Hab as ->. Qed.

Section Answer.
Context `{laws : ComparatorLaws} {user_policy : FilterPolicy} `{resp : !PolicyRespects}.

(** The separator of two internal keys is the first one or a key of a smaller user key than the second's. *)
Lemma internal_separator_short start limit s : valid_key (ExtractUserKey start) -> valid_key (ExtractUserKey limit) -> internal_compare start limit < 0 ->
  internal_separator start limit = Ret s -> s = start \/ Compare (ExtractUserKey s) (ExtractUserKey limit) < 0.
Proof.
  intros Hv Hv' Hle. unfold internal_separator. destruct (internal_key start); cbn [oassert obind]; [|done]. destruct (internal_key limit); cbn [oassert obind]; [|done].
  apply internal_compare_cases in Hle. destruct (Z.lt_ge_cases (Compare (ExtractUserKey start) (ExtractUserKey limit)) 0) as [Hlt|Hge].
  - destruct (separator_lt _ _ Hv Hv' Hlt) as (tmp & -> & Hvt & Ht1 & Ht2). cbn [obind]. destruct (_ && _); [|intros [= <-]; by left]. rewrite PackSequenceAndType_spec by done. cbn [obind]. destruct (_ <? 0); cbn [oassert obind]; [|done]. destruct (_ <? 0); cbn [oassert obind]; [|done].
    intros [= <-]. right. change (PutFixed64 tmp _) with (encode tmp kMaxSequenceNumber kValueTypeForSeek). by rewrite ExtractUserKey_encode.
  - destruct (separator_eq _ _ Hv Hv' ltac:(lia)) as (tmp & -> & Hvt & Ht). cbn [obind]. rewrite Ht, andb_false_r. intros [= <-]. by left.
Qed.

Lemma first_ge_cut k es : StronglySorted op_lt es ->
  first_ge k es = es !! length (filter (fun o => internal_compare (op_ikey o) k < 0) es).
Proof.
  unfold first_ge. induction 1 as [|o es Hs IH Hall]; [done|]. rewrite !filter_cons. destruct (decide (internal_compare (op_ikey o) k < 0)) as [Hlt|Hge]; destruct (decide (0 <= internal_compare (op_ikey o) k)) as [Hge'|Hlt']; try lia.
  - exact IH.
  - cbn. destruct (filter (fun o => internal_compare (op_ikey o) k < 0) es) as [|x l] eqn:Ef; [done|]. exfalso. assert (x ∈ filter (fun o => internal_compare (op_ikey o) k < 0) es) as [Hlt Hx]%list_elem_of_filter by (rewrite Ef; by left). rewrite Forall_forall in Hall. specialize (Hall x Hx). unfold op_lt in Hall.
    cbn in Hlt. pose proof (@compare_lt_le InternalKeyComparator InternalKeyComparator_laws (op_ikey o) (op_ikey x) k Hall ltac:(cbn; lia)) as Hc. cbn in Hc. lia.
Qed.

(** What a table of internal keys hands over for a lookup key is what the lookup of versions expects of it. *)
Lemma get_table_answer blocks es u s r : Forall (fun o => valid_key (op_key o)) es -> StronglySorted op_lt es -> entries_of blocks = shown_entries es -> Forall (fun b => b_entries b ≠ []) blocks ->
  @get_answer InternalKeyComparator (InternalFilterPolicy user_policy) blocks (encode u s kValueTypeForSeek) r -> table_answer u (encode u s kValueTypeForSeek) es r.
Proof.
  intros Hv Hs Hes Hne. unfold table_answer. set (k := encode u s kValueTypeForSeek). unfold get_answer. rewrite Hes. unfold cut. cbn [Compare InternalKeyComparator]. rewrite filter_shown. unfold shown_entries at 1 2. rewrite list_lookup_fmap, <- (first_ge_cut k es Hs).
  assert (forall o, first_ge k es = Some o -> o ∈ es) as Hin by (intros o Ho; unfold first_ge in Ho; by apply head_Some_elem_of, list_elem_of_filter in Ho as [_ ?]).
  destruct (first_ge k es) as [o|] eqn:Ho; cbn [fmap option_fmap option_map].
  2:{ intros Hr. right. split; [done|]. intros p Hp. subst r. by cbn in Hr. }
  specialize (Hin o eq_refl). destruct r as [e|].
  - intros [= <-]. destruct (decide (Compare (op_key o) u = 0)) as [He|He]; [left; by exists o|]. right. split; [by intros ? [= <-]|]. intros p [= <-]. by exists o.
  - intros Hr. right. split; [|done]. intros o' [= <-] Heq. specialize (Hr _ eq_refl). cbn [fst] in Hr. destruct Hr as [Hsame|(b & Hb & Hlast & Hk & Hsep)].
    + apply Hsame. intros f. cbn. unfold k, op_ikey. rewrite !ExtractUserKey_encode. apply match_respects. by apply compare_antisym_eq.
    + rewrite Forall_forall in Hv. rewrite Forall_forall in Hne. destruct (last_key_of_elem _ (Hne b Hb)) as (e & He & Hlk). rewrite <- Hlk in Hlast, Hsep. clear Hlk. assert (e ∈ shown_entries es) as Hx.
      { rewrite <- Hes. unfold entries_of. apply list_elem_of_join. exists (b_entries b). split; [done|]. by apply list_elem_of_fmap_2. }
      unfold shown_entries in Hx. apply list_elem_of_fmap in Hx as (x & -> & Hx). cbn [fst] in *. cbn [Compare InternalKeyComparator FindShortestSeparator] in *.
      assert (0 <= internal_compare (op_ikey o) k) as Hge by (unfold first_ge in Ho; by apply head_Some_elem_of, list_elem_of_filter in Ho as [? _]).
      pose proof (internal_antisym (op_ikey o) k) as Ha1. pose proof (internal_antisym k (op_ikey o)) as Ha2. pose proof (internal_antisym (op_ikey x) k) as Ha3.
      pose proof (@compare_lt_le InternalKeyComparator InternalKeyComparator_laws (op_ikey x) k (op_ikey o) Hlast ltac:(cbn; lia)) as Hxo. cbn in Hxo.
      destruct (internal_separator_short (op_ikey x) (op_ikey o) (b_sep b)) as [Hsp|Hsp]; [unfold op_ikey; rewrite ExtractUserKey_encode; by apply Hv|unfold op_ikey; rewrite ExtractUserKey_encode; by apply Hv|done|done| |].
      * rewrite Hsp in Hk. lia.
      * pose proof (proj2 (internal_compare_cases k (b_sep b))) as Hcase. unfold k in Hcase at 2 3. unfold op_ikey in Hsp. rewrite ExtractUserKey_encode in Hsp, Hcase.
        pose proof (compare_le_lt u (ExtractUserKey (b_sep b)) (op_key o)). apply compare_antisym_eq in Heq. lia.
Qed.
End Answer.

Section Internal.
Context `{laws : ComparatorLaws} {user_policy : FilterPolicy} `{flaws : !FilterPolicyLaws} `{resp : !PolicyRespects} `{Crc32c} `{claws : CompressorLaws} {E F : Type} `{elaws : RandomEnvLaws E F}.
Abbreviation Tables := (Tables E F).

(** The handles that may be out while lookups run. *)
Definition max_handles : Z := 2 ^ 30.

(** The table cache of a database, as the lookup in versions uses it: its tables are in the order of internal
    keys, and the callback keeps the entry. *)
#[global] Instance Tables_TableCache : TableCache Tables := {
  cache_Get t options n sz k := @tables_Get InternalKeyComparator (InternalFilterPolicy user_policy) _ _ _ E F _ _ (option (bytes * bytes)) t options n sz k (fun _ k v => Ret (Some (k, v))) None;
}.

(** The entries [es] in the order of internal keys are those of the table [img]. *)
Definition table_of (o : TableOptions) (img : bytes) (es : list entry_op) : Prop :=
  Forall (fun o => valid_key (op_key o)) es /\ StronglySorted op_lt es /\ zlen es < 2 ^ 31 /\
  exists blocks fraw meta index, @table_image InternalKeyComparator InternalKeyComparator_laws (InternalFilterPolicy user_policy) _ _ o img blocks fraw meta index /\
    entries_of blocks = shown_entries es /\ forall f, fraw = Some f -> zlen f < 2 ^ 32.

Definition holds_table (t : Tables) (n sz : Z) (es : list entry_op) : Prop :=
  tables_ok max_handles t /\ (to_compression (options_ t) = kNoCompression \/ to_compression (options_ t) = kSnappyCompression \/ to_compression (options_ t) = kZstdCompression) /\
  0 < n < 2 ^ 64 /\ exists img, table_bytes (env_ t) (dbname_ t) n = Some img /\ sz = zlen img /\ table_of (options_ t) img es.

(** A new cache is empty. *)
Lemma new_TableCache_ok (env : E) dbname o entries : 0 < entries < 2 ^ 31 ->
  exists t, new_TableCache env dbname o entries = Ret t /\ tables_ok max_handles t /\ env_ t = env /\ dbname_ t = dbname /\ options_ t = o.
Proof.
  intros He. unfold new_TableCache, new_ShardedLRUCache. change kNumShards with 16. rewrite u64_small by lia. assert (0 < (entries + (16 - 1)) / 16 < 2 ^ 31 - 1) as Hc by (split; [apply Z.div_str_pos; lia|apply Z.div_lt_upper_bound; lia]).
  destruct (new_LRUCache_spec (V := Table F) ((entries + (16 - 1)) / 16)) as (c & -> & Hinv & Hcap & Hid). cbn [obind]. eexists. split; [done|]. split; [|done]. split; [done|]. cbn [cache_ shard_]. apply Forall_replicate.
  assert (heap_ c = ∅) as Hheap.
  { apply map_empty. intros e. destruct (heap_ c !! e) as [h|] eqn:Eh; [|done]. apply (c_heap _ _ _ (proj1 Hinv)) in Eh as [Eh _]. lia. }
  exists [], []. split; [done|]. split; [by intros k v ?%elem_of_nil|]. split; [intros e h; by rewrite Hheap|]. split; [done|]. rewrite Hcap. split; [|lia].
  pose proof (ids_bound _ _ _ (proj1 Hinv)) as Hb. rewrite Hid in Hb. lia.
Qed.

Lemma internal_entries_sorted es : StronglySorted op_lt es -> @entries_sorted InternalKeyComparator (shown_entries es).
Proof.
  unfold entries_sorted, shown_entries. induction 1 as [|o es Hs IH Hall]; cbn; constructor; [done|]. apply Forall_fmap. eapply Forall_impl; [exact Hall|]. by intros x.
Qed.

Lemma holds_table_keep t t' : tables_ok max_handles t' -> options_ t' = options_ t -> dbname_ t' = dbname_ t -> (forall nm, file_image (env_ t') nm = file_image (env_ t) nm) ->
  forall n sz es, holds_table t n sz es -> holds_table t' n sz es.
Proof.
  intros Hok Ho Hd He n sz es (_ & Hc & Hn & img & Hb & Hsz & Ht). split; [done|]. rewrite Ho, Hd. split; [done|]. split; [done|]. exists img. split; [|done]. unfold table_bytes in *. by rewrite !He.
Qed.

Lemma tables_answer t options n sz es u s : holds_table t n sz es ->
  exists t' r, cache_Get t options n sz (encode u s kValueTypeForSeek) = Ret (t', OK, r) /\
    (forall n sz es, holds_table t n sz es -> holds_table t' n sz es) /\ table_answer u (encode u s kValueTypeForSeek) es r.
Proof.
  intros (Hok & Hc & Hn & img & Hb & -> & Hv & Hs & Hlen & blocks & fraw & meta & index & Hi & Hes & Hf).
  pose proof (ti_blocks _ _ _ _ _ _ Hi) as Hbl.
  destruct (tables_lookup (laws := InternalKeyComparator_laws) (flaws := InternalFilterPolicy_laws) max_handles ltac:(unfold max_handles; lia) t options n img blocks fraw meta index (encode u s kValueTypeForSeek) Hok Hn Hb Hc Hi) as (t' & r & Hr & Hok' & H1' & H2' & H3' & Hget).
  - rewrite Hes. by apply internal_entries_sorted.
  - done.
  - rewrite Hes. unfold zlen, shown_entries. rewrite length_fmap. exact Hlen.
  - exists t', r. split; [cbn; rewrite Hget; by destruct r as [[k v]|]|]. split; [by apply holds_table_keep|]. apply (get_table_answer blocks); [done|done|done| |done].
    eapply Forall_impl; [exact Hbl|]. by intros b [_ Hne].
Qed.

(** The table cache keeps its promise to the lookup in versions. *)
#[global, refine] Instance Tables_TableCacheLaws : TableCacheLaws Tables := { tc_holds := holds_table }.
Proof. intros tc options n sz es u s Hh _. by apply tables_answer. Defined.

(** A table written from entries in order holds them. *)
Lemma written_table_of {W : Type} `{wlaws : WritableFileLaws W} `{lens : !@SeparatorLengths InternalKeyComparator} (o : TableOptions) (wfile : W) (es : list entry_op) (r : TableRep W) :
  1 <= to_restart_interval o -> (forall name, to_filter_name o = Some name -> zlen name < 2 ^ 31) ->
  (forall f d f', Append f d = (f', OK) -> zlen (contents f') < 2 ^ 63) ->
  contents wfile = [] -> Forall (fun o => valid_key (op_key o)) es -> StronglySorted op_lt es -> table_budget (shown_entries es) + 8 < 2 ^ 32 ->
  @write_table InternalKeyComparator (InternalFilterPolicy user_policy) _ _ _ _ o wfile (shown_entries es) = Ret (r, OK) -> zlen (contents (t_file r)) < 2 ^ 32 -> zlen es < 2 ^ 31 ->
  table_of o (contents (t_file r)) es.
Proof.
  intros Hi Hn Hlim Hf Hv Hs Hb Hw Hsz Hlen. split; [done|]. split; [done|]. split; [done|].
  destruct (write_table_spec (laws := InternalKeyComparator_laws) (lens := lens) (flaws := InternalFilterPolicy_laws) o Hi Hlim Hn wfile (shown_entries es) Hf) as (r' & s & Hw' & _ & Hok); [by apply internal_entries_sorted| |done|].
  - apply Forall_fmap. eapply Forall_impl; [exact Hv|]. intros x Hx. cbn. split; [apply internal_key_encode|]. unfold op_ikey. by rewrite ExtractUserKey_encode.
  - rewrite Hw in Hw'. injection Hw' as <- <-. destruct (Hok eq_refl) as (blocks & fraw & meta & index & Him & Hes & _). exists blocks, fraw, meta, index. split; [done|]. split; [done|].
    intros f ->. rewrite (ti_image _ _ _ _ _ _ Him) in Hsz. cbn [filter_part] in Hsz. rewrite !zlen_app in Hsz. zlen_pos. lia.
Qed.
End Internal.

(** ** The properties *)

(** C11: A table is written from entries in the order of internal keys and read through the table cache. Whatever
    the state of the cache, a lookup of a user key at a sequence number opens the file or uses the open
    table, passes the filter and the index, and hands to the callback of [Version::Get] what makes it
    answer with the newest entry of the user key that is visible at the number, if there is one, and with
    nothing otherwise; no key is lost to the filter or between two blocks. The cache is good afterwards,
    with the same files. *)
Theorem table_cache_get `{laws : ComparatorLaws} {user_policy : FilterPolicy} `{flaws : !FilterPolicyLaws} `{resp : !PolicyRespects} `{Crc32c} `{claws : CompressorLaws} {E F : Type} `{elaws : RandomEnvLaws E F}
    {W : Type} `{wlaws : WritableFileLaws W} (t : Tables E F) (wfile : W) (es : list entry_op) (r : TableRep W) (options : ReadOptions) (n : Z) (u : bytes) (s : Z) (value : bytes) :
  1 <= to_restart_interval (options_ t) -> (forall name, to_filter_name (options_ t) = Some name -> zlen name < 2 ^ 31) ->
  (to_compression (options_ t) = kNoCompression \/ to_compression (options_ t) = kSnappyCompression \/ to_compression (options_ t) = kZstdCompression) ->
  (forall f d f', Append f d = (f', OK) -> zlen (contents f') < 2 ^ 63) -> contents wfile = [] ->
  Forall op_ok es -> Forall (fun o => valid_key (op_key o)) es -> StronglySorted op_lt es -> zlen es < 2 ^ 31 -> table_budget (shown_entries es) + 8 < 2 ^ 32 ->
  @write_table InternalKeyComparator (InternalFilterPolicy user_policy) _ _ _ _ (options_ t) wfile (shown_entries es) = Ret (r, OK) -> zlen (contents (t_file r)) < 2 ^ 32 ->
  tables_ok max_handles t -> 0 < n < 2 ^ 64 -> table_bytes (env_ t) (dbname_ t) n = Some (contents (t_file r)) -> in_range s ->
  exists t' found, cache_Get t options n (zlen (contents (t_file r))) (encode u s kValueTypeForSeek) = Ret (t', OK, found) /\
    tables_ok max_handles t' /\ (forall m sz es, holds_table t m sz es -> holds_table t' m sz es) /\
    let saver := match found with Some (k, v) => SaveValue (mkSaver kNotFound u value) k v | None => mkSaver kNotFound u value end in
    s_value saver = answer_value (newest_entry u s es) value /\
    s_state saver = match newest_entry u s es with Some o => match op_type o with kTypeValue => kFound | kTypeDeletion => kDeleted end | None => kNotFound end.
Proof.
  intros Hi Hn Hc Hlim Hf Hok Hv Hs Hlen Hb Hw Hsz Ht Hnum Hbytes Hr. assert (holds_table t n (zlen (contents (t_file r))) es) as Hh.
  { split; [done|]. split; [done|]. split; [done|]. exists (contents (t_file r)). split; [done|]. split; [done|]. by apply (written_table_of (options_ t) wfile). }
  destruct (tables_answer t options n _ es u s Hh) as (t' & found & Hg & Hkeep & Ha). exists t', found. split; [done|]. split; [apply (Hkeep _ _ _ Hh)|]. split; [done|]. by apply SaveValue_op.
Qed.

(** *** A table in a directory of files *)

#[global] Instance files_random : RandomEnv (gmap (list Z) bytes) bytes := {
  NewRandomAccessFile e name := match e !! map b2z name with Some img => (e, OK, Some img) | None => (e, NotFound "no such file", None) end;
}.

Section Witnesses.
#[local] Existing Instances BytewiseComparator BytewiseComparator_laws.
#[local] Instance crc : Crc32c := Crc32c_portable 0.
#[local] Instance bloom : FilterPolicy := NewBloomFilterPolicy 10.
#[local] Instance bloom_ok : FilterPolicyLaws := bloom_laws 10 ltac:(lia).
#[local] Instance snappy : Snappy := { Snappy_GetUncompressedLength _ := None; Snappy_Uncompress _ := None }.
#[local] Instance zstd : Zstd := { Zstd_GetUncompressedLength _ := None; Zstd_Uncompress _ := None }.
#[local] Instance compressors : Compressors := { Snappy_Compress _ := None; Zstd_Compress _ _ := None }.
#[local] Instance compressor_laws : CompressorLaws.
Proof. by split. Qed.
#[local] Instance bytes_file : RandomAccessFile bytes := { RandRead f off n := (OK, ztake n (zdrop off f), true) }.
#[local, refine] Instance bytes_file_laws : RandomAccessFileLaws bytes := { image f := f }.
Proof. intros f off n d b _ _ [= <- <-]. done. Defined.
#[local, refine] Instance files_random_laws : RandomEnvLaws (gmap (list Z) bytes) bytes := { file_image e name := e !! map b2z name }.
Proof.
  intros e name. cbn. destruct (e !! map b2z name) as [img|]; [|by eexists _, _]. exists e, img. split; [done|]. split; [done|]. split; [|done]. intros off n. by eexists _, _.
Defined.

Definition sample_ops : list entry_op :=
  [mkOp 5 kTypeValue [x61] [x01]; mkOp 9 kTypeDeletion [x62] []; mkOp 4 kTypeValue [x62] [x02; x03]; mkOp 7 kTypeValue [x63; x63] [x04]; mkOp 3 kTypeValue [x65] [x05]].

Abbreviation sample_file := (@write_table InternalKeyComparator (InternalFilterPolicy bloom) crc compressors DiskFile DiskFile_writable sample_options (mkDiskFile [] false) (shown_entries sample_ops)).

(** The deletion of the key hides its older value. *)
Lemma table_cache_get_witness : exists r t t' found,
  sample_file = Ret (r, OK) /\ new_TableCache {[ map b2z (MakeFileName (str "db") 7 "sst") := contents (t_file r) ]} (str "db") sample_options 990 = Ret t /\
  cache_Get t new_ReadOptions 7 (zlen (contents (t_file r))) (encode [x62] 20 kValueTypeForSeek) = Ret (t', OK, found) /\
  s_state (match found with Some (k, v) => SaveValue (mkSaver kNotFound [x62] []) k v | None => mkSaver kNotFound [x62] [] end) = kDeleted.
Proof.
  assert (exists r, sample_file = Ret (r, OK) /\ zlen (contents (t_file r)) = 354) as (r & Hw & Hsz).
  { assert (match sample_file with Ret (r, s) => s = OK /\ zlen (contents (t_file r)) = 354 | _ => False end) as Hx by (vm_compute; split; reflexivity). destruct sample_file as [[r s]| |]; [|done|done]. exists r. by destruct Hx as [-> Hx]. }
  destruct (new_TableCache_ok (F := bytes) {[ map b2z (MakeFileName (str "db") 7 "sst") := contents (t_file r) ]} (str "db") sample_options 990) as (t & Ht & Hok & He & Hd & Ho); [lia|].
  destruct (table_cache_get t (mkDiskFile [] false) sample_ops r new_ReadOptions 7 [x62] 20 []) as (t' & found & Hg & _ & _ & Hv & Hst).
  - by rewrite Ho.
  - rewrite Ho. by intros name [= <-].
  - rewrite Ho. by right; left.
  - apply DiskFile_limit.
  - done.
  - apply (bool_decide_unpack (Forall op_ok sample_ops)). by vm_compute.
  - repeat constructor.
  - repeat constructor.
  - done.
  - done.
  - rewrite Ho. exact Hw.
  - lia.
  - done.
  - lia.
  - rewrite He, Hd. unfold table_bytes. cbn [file_image files_random_laws]. rewrite lookup_singleton_ne by (by vm_compute). by rewrite lookup_singleton_eq.
  - clear. done.
  - exists r, t, t', found. split; [done|]. split; [done|]. split; [done|]. cbv zeta in Hst. rewrite Hst. by vm_compute.
Defined.
End Witnesses.
