(* ===== verification/Arena.v ===== *)
(** * The arena

    [leveldb/util/arena.h], [arena.cc]: memory for the nodes of a memtable, taken in pieces from blocks. An
    address is an integer. The memory of [new char[n]] comes from outside: an allocator as a class, with what it
    promises as laws. *)

From stdpp Require Import list sets.
From S2P Require Import Prelude.

Open Scope outcome_scope.

(** A block: its address and its size. *)
Definition Block : Type := Z * Z.

(** [new_char blocks n] is the address of [new char[n]] when the arena has [blocks]. *)
Class Allocator := { new_char : list Block -> Z -> Z }.

Definition align : Z := 8.
Definition kBlockSize : Z := 4096.

Record Arena := mkArena {
  alloc_ptr_ : Z;
  alloc_bytes_remaining_ : Z;
  blocks_ : list Block;
  memory_usage_ : Z;
}.

Definition new_Arena : Arena := mkArena 0 0 [] 0.

Definition MemoryUsage (a : Arena) : Z := memory_usage_ a.

Section Arena.
Context `{Allocator}.

Definition AllocateNewBlock (a : Arena) (block_bytes : Z) : Arena * Z :=
  let result := new_char (blocks_ a) block_bytes in
  (mkArena (alloc_ptr_ a) (alloc_bytes_remaining_ a) (blocks_ a ++ [(result, block_bytes)]) (u64 (memory_usage_ a + u64 (block_bytes + 8))), result).

(** The pointer moves over [bytes]. *)
Definition advance (a : Arena) (bytes : Z) : Arena :=
  mkArena (alloc_ptr_ a + bytes) (u64 (alloc_bytes_remaining_ a - bytes)) (blocks_ a) (memory_usage_ a).

Definition AllocateFallback (a : Arena) (bytes : Z) : Arena * Z :=
  if kBlockSize / 4 <? bytes then AllocateNewBlock a bytes
  else
    let '(a, ptr) := AllocateNewBlock a kBlockSize in
    (advance (mkArena ptr kBlockSize (blocks_ a) (memory_usage_ a)) bytes, ptr).

Definition Allocate (a : Arena) (bytes : Z) : outcome (Arena * Z) :=
  assert! 0 <? bytes;
  Ret (if bytes <=? alloc_bytes_remaining_ a then (advance a bytes, alloc_ptr_ a) else AllocateFallback a bytes).

Definition AllocateAligned (a : Arena) (bytes : Z) : outcome (Arena * Z) :=
  let current_mod := Z.land (alloc_ptr_ a) (align - 1) in
  let slop := if current_mod =? 0 then 0 else align - current_mod in
  let needed := u64 (bytes + slop) in
  let '(a, result) := if needed <=? alloc_bytes_remaining_ a then (advance a needed, alloc_ptr_ a + slop) else AllocateFallback a bytes in
  assert! Z.land result (align - 1) =? 0;
  Ret (a, result).

(** A sequence of requests: of how many bytes, and whether aligned. The pieces are returned. *)
Definition request (a : Arena) (r : bool * Z) : outcome (Arena * Z) :=
  if r.1 then AllocateAligned a r.2 else Allocate a r.2.

Fixpoint requests (a : Arena) (rs : list (bool * Z)) : outcome (Arena * list (Z * Z)) :=
  match rs with
  | [] => Ret (a, [])
  | r :: rs =>
      let! (a, p) := request a r in
      let! (a, ps) := requests a rs in
      Ret (a, (p, r.2) :: ps)
  end.
End Arena.

(** ** The laws *)

Definition apart (p q : Z * Z) : Prop := p.1 + p.2 <= q.1 \/ q.1 + q.2 <= p.1.

(** A new block is aligned, in the address space and apart from the others. *)
Class AllocatorLaws `{Allocator} : Prop := {
  new_positive bs n : 0 < n < 2 ^ 63 -> 0 < new_char bs n;
  new_aligned bs n : 0 < n < 2 ^ 63 -> new_char bs n mod align = 0;
  new_apart bs n b : 0 < n < 2 ^ 63 -> b ∈ bs -> apart (new_char bs n, n) b;
}.

Definition inside (p b : Z * Z) : Prop := b.1 <= p.1 /\ p.1 + p.2 <= b.1 + b.2.

(** The blocks with the pointers to them. *)
Fixpoint block_total (bs : list Block) : Z :=
  match bs with
  | [] => 0
  | b :: bs => b.2 + 8 + block_total bs
  end.

Section Correct.
Context `{laws : AllocatorLaws}.

(** The pieces handed out are in blocks and apart from each other and from the rest of the current block. *)
Record arena_ok (a : Arena) (pieces : list (Z * Z)) : Prop := mkArenaOk {
  ao_remaining : 0 <= alloc_bytes_remaining_ a <= kBlockSize;
  ao_current : alloc_bytes_remaining_ a = 0 \/ exists b, b ∈ blocks_ a /\ inside (alloc_ptr_ a, alloc_bytes_remaining_ a) b;
  ao_sizes : Forall (fun b => 0 < b.2 < 2 ^ 63) (blocks_ a);
  ao_inside p : p ∈ pieces -> exists b, b ∈ blocks_ a /\ inside p b;
  ao_apart : ForallOrdPairs apart pieces;
  ao_rest p : p ∈ pieces -> alloc_bytes_remaining_ a = 0 \/ apart p (alloc_ptr_ a, alloc_bytes_remaining_ a);
  ao_positive p : p ∈ pieces -> 0 < p.2;
  ao_usage : memory_usage_ a = u64 (block_total (blocks_ a));
}.

Lemma apart_inside p b q : apart p b -> inside q b -> apart p q.
Proof. unfold apart, inside. lia. Qed.

Lemma apart_sym p q : apart p q -> apart q p.
Proof. unfold apart. lia. Qed.

Lemma land_align x : Z.land x (align - 1) = x mod align.
Proof. change (align - 1) with (Z.ones 3). rewrite Z.land_ones by lia. done. Qed.

Lemma usage_snoc bs n : block_total (bs ++ [n]) = block_total bs + (n.2 + 8).
Proof. induction bs as [|b bs IH]; cbn [app block_total]; [lia|]. rewrite IH. lia. Qed.

Lemma usage_new a n : 0 < n < 2 ^ 63 -> memory_usage_ a = u64 (block_total (blocks_ a)) ->
  u64 (memory_usage_ a + u64 (n + 8)) = u64 (block_total (blocks_ a ++ [(new_char (blocks_ a) n, n)])).
Proof. intros _ ->. rewrite usage_snoc. unfold u64. cbn [snd]. by rewrite <- Z.add_mod. Qed.

(** A piece of the rest of the current block. *)
Lemma take_piece a pieces slop bytes : arena_ok a pieces -> 0 < bytes -> 0 <= slop -> slop + bytes <= alloc_bytes_remaining_ a ->
  arena_ok (advance a (slop + bytes)) ((alloc_ptr_ a + slop, bytes) :: pieces).
Proof.
  intros [Hr Hc Hs Hi Ha Hrest Hp Hu] Hb Hsl Hle. unfold kBlockSize in Hr. assert (u64 (alloc_bytes_remaining_ a - (slop + bytes)) = alloc_bytes_remaining_ a - (slop + bytes)) as He by (apply u64_small; lia).
  destruct Hc as [|(b & Hb' & Hin)]; [lia|]. unfold inside in Hin. cbn in Hin. split; cbn [advance alloc_ptr_ alloc_bytes_remaining_ blocks_ memory_usage_]; rewrite ?He; try done.
  - unfold kBlockSize. lia.
  - right. exists b. split; [done|]. unfold inside. cbn. lia.
  - intros p [->|Hin']%elem_of_cons; [|by apply Hi]. exists b. split; [done|]. unfold inside. cbn. lia.
  - constructor; [|done]. apply Forall_forall. intros p Hin'. destruct (Hrest p Hin') as [|Hx]; [lia|]. unfold apart in *. cbn in *. lia.
  - intros p [->|Hin']%elem_of_cons; [right; unfold apart; cbn; lia|]. destruct (Hrest p Hin') as [|Hx]; [lia|]. right. unfold apart in *. cbn in *. lia.
  - intros p [->|Hin']%elem_of_cons; [done|by apply Hp].
Qed.

(** A new block is apart from everything. *)
Lemma new_block_ok a pieces n : arena_ok a pieces -> 0 < n < 2 ^ 63 ->
  let b := (new_char (blocks_ a) n, n) in
  (forall p, p ∈ pieces -> apart p b) /\ (alloc_bytes_remaining_ a = 0 \/ apart b (alloc_ptr_ a, alloc_bytes_remaining_ a)).
Proof.
  intros [Hr Hc Hs Hi _ _ _ _] Hn b. split.
  - intros p Hp. destruct (Hi p Hp) as (b' & Hb' & Hin). apply apart_sym. eapply apart_inside; [|exact Hin]. by apply new_apart.
  - destruct Hc as [?|(b' & Hb' & Hin)]; [by left|]. right. eapply apart_inside; [|exact Hin]. by apply new_apart.
Qed.

Lemma AllocateFallback_spec a pieces bytes : arena_ok a pieces -> 0 < bytes < 2 ^ 63 ->
  exists a' p, AllocateFallback a bytes = (a', p) /\ arena_ok a' ((p, bytes) :: pieces) /\ p mod align = 0.
Proof.
  intros Hok Hb. unfold AllocateFallback. destruct (Z.ltb_spec (kBlockSize / 4) bytes) as [Hlt|Hle].
  - destruct (new_block_ok a pieces bytes Hok Hb) as [Hd Hrest]. destruct Hok as [Hr Hc Hs Hi Ha Hre Hp Hu]. unfold AllocateNewBlock. eexists _, _. split; [reflexivity|]. split; [|by apply new_aligned].
    split; cbn [alloc_ptr_ alloc_bytes_remaining_ blocks_ memory_usage_]; try done.
    + destruct Hc as [?|(b & Hb' & Hin)]; [by left|]. right. exists b. split; [set_solver|done].
    + apply Forall_app. split; [done|]. by constructor.
    + intros p [->|Hin]%elem_of_cons; [eexists; split; [apply elem_of_app; right; by left|]; unfold inside; cbn; lia|]. destruct (Hi p Hin) as (b & Hb' & Hx). exists b. split; [set_solver|done].
    + constructor; [|done]. apply Forall_forall. intros p Hin. by apply apart_sym, Hd.
    + intros p [->|Hin]%elem_of_cons; [done|by apply Hre].
    + intros p [->|Hin]%elem_of_cons; [cbn; lia|by apply Hp].
    + by apply usage_new.
  - change (kBlockSize / 4) with 1024 in Hle. assert (0 < kBlockSize < 2 ^ 63) as Hk by done. destruct (new_block_ok a pieces kBlockSize Hok Hk) as [Hd _]. destruct Hok as [Hr Hc Hs Hi Ha Hre Hp Hu]. unfold AllocateNewBlock. cbn [blocks_ memory_usage_]. eexists _, _. split; [reflexivity|]. split; [|by apply new_aligned].
    set (ptr := new_char (blocks_ a) kBlockSize) in *. assert (arena_ok (mkArena ptr kBlockSize (blocks_ a ++ [(ptr, kBlockSize)]) (u64 (memory_usage_ a + u64 (kBlockSize + 8)))) pieces) as Hnew.
    2:{ pose proof (take_piece _ pieces 0 bytes Hnew ltac:(lia) ltac:(lia) ltac:(change (0 + bytes <= 4096); lia)) as Ht. cbn [alloc_ptr_] in Ht. by rewrite Z.add_0_r in Ht. }
    split; cbn [alloc_ptr_ alloc_bytes_remaining_ blocks_ memory_usage_]; try done.
    + right. eexists. split; [apply elem_of_app; right; by left|]. unfold inside. cbn. lia.
    + apply Forall_app. split; [done|]. by constructor.
    + intros p Hin. destruct (Hi p Hin) as (b & Hb' & Hx). exists b. split; [set_solver|done].
    + intros p Hin. right. by apply Hd.
    + by apply usage_new.
Qed.

Lemma request_spec a pieces r : arena_ok a pieces -> 0 < r.2 < 2 ^ 63 ->
  exists a' p, request a r = Ret (a', p) /\ arena_ok a' ((p, r.2) :: pieces) /\ (r.1 = true -> p mod align = 0).
Proof.
  destruct r as [al bytes]. cbn [fst snd]. intros Hok Hb. unfold request. cbn [fst snd]. pose proof (ao_remaining _ _ Hok) as Hr. unfold kBlockSize in Hr. destruct al.
  - unfold AllocateAligned. rewrite !land_align. set (m := alloc_ptr_ a mod align). assert (0 <= m < align) as Hm by (apply Z.mod_pos_bound; done). set (slop := if m =? 0 then 0 else align - m).
    assert (0 <= slop < 8) as Hs by (unfold slop, align in *; destruct (Z.eqb_spec m 0); lia). rewrite u64_small by lia.
    assert ((alloc_ptr_ a + slop) mod align = 0) as Hal.
    { unfold slop. destruct (Z.eqb_spec m 0) as [Hz|Hz]; [by rewrite Z.add_0_r|]. rewrite <- Z.add_mod_idemp_l by done. fold m. replace (m + (align - m)) with align by lia. by apply Z.mod_same. }
    destruct (Z.leb_spec (bytes + slop) (alloc_bytes_remaining_ a)) as [Hle|Hgt].
    + rewrite land_align, Hal. cbn [Z.eqb oassert obind]. eexists _, _. split; [done|]. split; [|done]. rewrite (Z.add_comm bytes slop). apply take_piece; [done|lia|lia|lia].
    + destruct (AllocateFallback_spec a pieces bytes Hok Hb) as (a' & p & -> & Hok' & Hp). rewrite land_align, Hp. cbn [Z.eqb oassert obind]. by exists a', p.
  - unfold Allocate. rewrite (proj2 (Z.ltb_lt 0 bytes)) by lia. cbn [oassert obind]. destruct (Z.leb_spec bytes (alloc_bytes_remaining_ a)) as [Hle|Hgt].
    + eexists _, _. split; [done|]. split; [|done]. replace (alloc_ptr_ a) with (alloc_ptr_ a + 0) at 1 by lia. change bytes with (0 + bytes) at 1. apply take_piece; [done|lia|lia|lia].
    + destruct (AllocateFallback_spec a pieces bytes Hok Hb) as (a' & p & -> & Hok' & _). by exists a', p.
Qed.

Lemma new_Arena_ok : arena_ok new_Arena [].
Proof.
  split; cbn; try done.
  - by left.
  - intros p Hp. by apply elem_of_nil in Hp.
  - constructor.
  - intros p Hp. by apply elem_of_nil in Hp.
  - intros p Hp. by apply elem_of_nil in Hp.
Qed.

(** The pieces of a sequence of requests, before those handed out earlier. *)
Lemma requests_spec rs : forall a pieces, arena_ok a pieces -> Forall (fun r => 0 < r.2 < 2 ^ 63) rs ->
  exists a' ps, requests a rs = Ret (a', ps) /\ arena_ok a' (reverse ps ++ pieces) /\ Forall2 (fun r p => p.2 = r.2 /\ (r.1 = true -> p.1 mod align = 0)) rs ps.
Proof.
  induction rs as [|r rs IH]; intros a pieces Hok Hrs; cbn [requests]; [by exists a, []|]. apply Forall_cons in Hrs as [Hr Hrs]. destruct (request_spec a pieces r Hok Hr) as (a1 & p & -> & Hok1 & Hal). cbn [obind].
  destruct (IH a1 _ Hok1 Hrs) as (a2 & ps & -> & Hok2 & Hps). cbn [obind]. eexists a2, _. split; [done|]. rewrite reverse_cons, <- app_assoc. split; [done|]. by constructor.
Qed.

Lemma pairs_apart_reverse ps : ForallOrdPairs apart (reverse ps) -> forall i j p q, i ≠ j -> ps !! i = Some p -> ps !! j = Some q -> apart p q.
Proof.
  intros Hp. assert (forall l, ForallOrdPairs apart l -> forall i j p q, i ≠ j -> l !! i = Some p -> l !! j = Some q -> apart p q) as Hall.
  { intros l Hl. induction Hl as [|x l Hx Hl IH]; intros i j p q Hij Hi Hj; [done|]. rewrite Forall_forall in Hx. destruct i as [|i], j as [|j]; cbn in Hi, Hj; [done| | |].
    - injection Hi as <-. apply Hx. by eapply list_elem_of_lookup_2.
    - injection Hj as <-. apply apart_sym, Hx. by eapply list_elem_of_lookup_2.
    - apply (IH i j); [congruence|exact Hi|exact Hj]. }
  intros i j p q Hij Hi Hj. rewrite <- (reverse_involutive ps) in Hi, Hj. apply lookup_lt_Some in Hi as Hil, Hj as Hjl. rewrite length_reverse in Hil, Hjl. rewrite reverse_lookup in Hi, Hj by done. eapply (Hall _ Hp); [|exact Hi|exact Hj]. lia.
Qed.
End Correct.

(** ** The property *)

Section Property.
Context `{laws : AllocatorLaws}.

(** An arena never hands out the same memory twice. For every sequence of requests no assertion fails; each
    piece lies in one of the blocks that the arena has allocated, with its full size and, where asked
    for, aligned; different pieces do not overlap, whichever blocks they come from; and the memory usage is
    the sizes of the blocks with the pointers to them. *)
Theorem arena_pieces_disjoint rs : Forall (fun r => 0 < r.2 < 2 ^ 63) rs ->
  exists a ps, requests new_Arena rs = Ret (a, ps) /\
    Forall2 (fun r p => p.2 = r.2 /\ (r.1 = true -> p.1 mod align = 0)) rs ps /\
    (forall p, p ∈ ps -> exists b, b ∈ blocks_ a /\ inside p b) /\
    (forall i j p q, i ≠ j -> ps !! i = Some p -> ps !! j = Some q -> apart p q) /\
    MemoryUsage a = u64 (block_total (blocks_ a)).
Proof.
  intros Hrs. destruct (requests_spec rs new_Arena [] new_Arena_ok Hrs) as (a & ps & Hr & Hok & Hps). rewrite app_nil_r in Hok. exists a, ps. split; [done|]. split; [done|]. split; [intros p Hp; apply (ao_inside _ _ Hok); by apply elem_of_reverse|].
  split; [apply pairs_apart_reverse, Hok|apply Hok].
Qed.
End Property.

(** *** Memory that grows *)

Definition top (bs : list Block) : Z := foldr (fun (b : Block) m => Z.max (b.1 + b.2) m) align bs.

#[local] Instance growing : Allocator := { new_char bs n := (top bs + (align - 1)) / align * align }.

#[local] Instance growing_laws : AllocatorLaws.
Proof.
  assert (forall bs, align <= top bs /\ forall b, b ∈ bs -> b.1 + b.2 <= top bs) as Htop.
  { intros bs. induction bs as [|b bs [IH1 IH2]]; cbn [top foldr]; [split; [done|]; intros b Hb; by apply elem_of_nil in Hb|]. fold (top bs). split; [lia|]. intros b' [->|Hb']%elem_of_cons; [lia|]. specialize (IH2 b' Hb'). lia. }
  assert (forall bs, top bs <= (top bs + (align - 1)) / align * align) as Hup.
  { intros bs. pose proof (Z.mod_pos_bound (top bs + (align - 1)) align ltac:(done)). pose proof (Z.div_mod (top bs + (align - 1)) align ltac:(done)). unfold align in *. lia. }
  split; intros bs n; cbn [new_char growing].
  - intros _. destruct (Htop bs) as [H1 _]. specialize (Hup bs). unfold align in *. lia.
  - intros _. by apply Z.mod_mul.
  - intros b Hn Hb. right. cbn [fst]. destruct (Htop bs) as [_ H2]. specialize (H2 b Hb). specialize (Hup bs). lia.
Qed.

Lemma arena_pieces_disjoint_witness : exists a ps,
  requests new_Arena [(false, 3); (true, 100); (false, 2000); (true, 4000); (false, 1)] = Ret (a, ps) /\
  (forall i j p q, i ≠ j -> ps !! i = Some p -> ps !! j = Some q -> apart p q) /\ MemoryUsage a = 4104 + 4008.
Proof.
  destruct (arena_pieces_disjoint [(false, 3); (true, 100); (false, 2000); (true, 4000); (false, 1)]) as (a & ps & Hr & _ & _ & Hd & _); [repeat constructor|].
  exists a, ps. split; [exact Hr|]. split; [exact Hd|]. vm_compute in Hr. injection Hr as <- <-. reflexivity.
Defined.
