(* ===== verification/DbWrite.v ===== *)
(** * The write path

    [DBImpl::Write] of [db_impl.c] with [BuildBatchGroup], [MakeRoomForWrite] and [MaybeScheduleCompaction]: threads
    that write wait in a queue; the one at its front writes the batches of several of them to the log and to the
    memtable. The threads are a machine whose steps are the parts of the code between two points where the mutex
    is released. The log file and the directory of logs are interfaces. *)

From stdpp Require Import gmap sorting relations.
From S2P Require Import Prelude Coding Env Crc32c LogWriter LogReader LogCorrect LogSim Comparator DbFormat VersionEdit SkipList MemTable Iterator Version Filename VersionSet WriteBatch Arena.

Open Scope outcome_scope.

(** ** Memory of a memtable *)

(** [sizeof(Node)] is a key pointer and one link. *)
Definition node_size (height : nat) : Z := 16 + 8 * (Z.of_nat height - 1).

(** What was allocated for a memtable: the head, and for every entry its bytes and its node. *)
Definition entry_requests (nd : Node bytes) : list (bool * Z) := [(false, zlen (node_key nd)); (true, node_size (length (next_ nd)))].

Definition memtable_requests (m : MemTable) : list (bool * Z) :=
  (true, node_size kMaxHeight) :: concat (entry_requests <$> tail (nodes_ (table_ m))).

Definition ApproximateMemoryUsage `{Allocator} (m : MemTable) : outcome Z :=
  let! (a, _) := requests new_Arena (memtable_requests m) in Ret (MemoryUsage a).

(** ** The database, as far as writes use it *)

Class LogFile (F : Type) := { log_Sync : F -> F * Status }.

(** Opening a log file for writing. *)
Class LogDir (E F : Type) := { new_log_file : E -> bytes -> E * Status * option F }.

(** [d_manual] is true while there is a manual compaction. *)
Record DB (E F FH : Type) := mkDB {
  d_env : E;
  d_versions : VersionSet FH;
  d_mem : MemTable;
  d_imm : option MemTable;
  d_log : Writer F;
  d_logfile_number : Z;
  d_tmp_batch : WriteBatch;
  d_bg_error : Status;
  d_shutting_down : bool;
  d_scheduled : bool;
  d_manual : bool;
}.
Arguments mkDB {E F FH} _ _ _ _ _ _ _ _ _ _ _.
Arguments d_env {E F FH} _.
Arguments d_versions {E F FH} _.
Arguments d_mem {E F FH} _.
Arguments d_imm {E F FH} _.
Arguments d_log {E F FH} _.
Arguments d_logfile_number {E F FH} _.
Arguments d_tmp_batch {E F FH} _.
Arguments d_bg_error {E F FH} _.
Arguments d_shutting_down {E F FH} _.
Arguments d_scheduled {E F FH} _.
Arguments d_manual {E F FH} _.

(** [DBImpl::Writer]; the condition variable is the machine below. *)
Record QueuedWriter := mkQueued { qw_batch : option WriteBatch; qw_sync : bool; qw_done : bool; qw_status : Status }.

Definition new_QueuedWriter (batch : option WriteBatch) (sync : bool) : QueuedWriter := mkQueued batch sync false OK.

(** ** Groups *)

Section Groups.

(** The loop over the writers behind the first: whether the result is still the batch of the first writer, the
    temporary batch and the last writer. *)
Fixpoint group_loop (first_batch : WriteBatch) (first_sync : bool) (max_size : Z) (rest : list (nat * QueuedWriter)) (size : Z) (own : bool) (tmp : WriteBatch) (last_writer : nat)
    : outcome (bool * WriteBatch * nat) :=
  match rest with
  | [] => Ret (own, tmp, last_writer)
  | (id, w) :: rest =>
      if qw_sync w && negb first_sync then Ret (own, tmp, last_writer)
      else
        match qw_batch w with
        | None => group_loop first_batch first_sync max_size rest size own tmp id
        | Some b =>
            let size := u64 (size + zlen b) in
            if max_size <? size then Ret (own, tmp, last_writer)
            else
              let! tmp := if own then assert! Count tmp =? 0; batch_Append tmp first_batch else Ret tmp in
              let! tmp := batch_Append tmp b in
              group_loop first_batch first_sync max_size rest size false tmp id
        end
  end.

Definition max_group (size : Z) : Z := if size <=? 128 * 2 ^ 10 then size + 128 * 2 ^ 10 else 2 ^ 20.

(** The batch, whether it is that of the first writer, the temporary batch and the last writer. *)
Definition BuildBatchGroup (writers : list (nat * QueuedWriter)) (tmp : WriteBatch) : outcome (WriteBatch * bool * WriteBatch * nat) :=
  match writers with
  | [] => AssertFailed
  | (id, first) :: rest =>
      match qw_batch first with
      | None => AssertFailed
      | Some b =>
          let size := zlen b in
          let! (own, tmp, last_writer) := group_loop b (qw_sync first) (max_group size) rest size true tmp id in
          Ret (if own then b else tmp, own, tmp, last_writer)
      end
  end.
End Groups.

Section Write.
Context `{laws : ComparatorLaws} `{Crc32c} `{Allocator} {E F FH : Type} `{WritableFile F} `{LogFile F} `{LogDir E F}.
Context (dbname : bytes) (write_buffer_size : Z).
Abbreviation DB := (DB E F FH).

Definition set_db_error (db : DB) (s : Status) : DB :=
  mkDB (d_env db) (d_versions db) (d_mem db) (d_imm db) (d_log db) (d_logfile_number db) (d_tmp_batch db) s (d_shutting_down db) (d_scheduled db) (d_manual db).

Definition set_db_versions (db : DB) (vs : VersionSet FH) : DB :=
  mkDB (d_env db) vs (d_mem db) (d_imm db) (d_log db) (d_logfile_number db) (d_tmp_batch db) (d_bg_error db) (d_shutting_down db) (d_scheduled db) (d_manual db).

Definition set_db_tmp (db : DB) (tmp : WriteBatch) : DB :=
  mkDB (d_env db) (d_versions db) (d_mem db) (d_imm db) (d_log db) (d_logfile_number db) tmp (d_bg_error db) (d_shutting_down db) (d_scheduled db) (d_manual db).

Definition set_db_scheduled (db : DB) (b : bool) : DB :=
  mkDB (d_env db) (d_versions db) (d_mem db) (d_imm db) (d_log db) (d_logfile_number db) (d_tmp_batch db) (d_bg_error db) (d_shutting_down db) b (d_manual db).

Definition set_db_log (db : DB) (log : Writer F) (mem : MemTable) : DB :=
  mkDB (d_env db) (d_versions db) mem (d_imm db) log (d_logfile_number db) (d_tmp_batch db) (d_bg_error db) (d_shutting_down db) (d_scheduled db) (d_manual db).

Definition db_record_error (db : DB) (s : Status) : DB := if ok (d_bg_error db) then set_db_error db s else db.

Definition MaybeScheduleCompaction (db : DB) : outcome DB :=
  if d_scheduled db then Ret db
  else if d_shutting_down db then Ret db
  else if negb (ok (d_bg_error db)) then Ret db
  else
    let! work := if bool_decide (d_imm db = None) && negb (d_manual db) then NeedsCompaction (d_versions db) else Ret true in
    Ret (if work then set_db_scheduled db true else db).

(** *** Room *)

(** What a round of the loop ends with: the loop is left; a delay of a millisecond without the mutex; a wait for
    the background thread; or another round. *)
Inductive Room := RoomDone (s : Status) | RoomDelay | RoomWait | RoomAgain.

(** A new memtable and a new log. *)
Definition switch_memtable (db : DB) (env : E) (vs : VersionSet FH) (lfile : F) (new_log_number : Z) : outcome DB :=
  MaybeScheduleCompaction (mkDB env vs (Ref new_MemTable) (Some (d_mem db)) (new_Writer lfile) new_log_number (d_tmp_batch db) (d_bg_error db) (d_shutting_down db) (d_scheduled db) (d_manual db)).

(** One round of the loop of [MakeRoomForWrite]. *)
Definition make_room (db : DB) (force allow_delay : bool) : outcome (DB * Room) :=
  if negb (ok (d_bg_error db)) then Ret (db, RoomDone (d_bg_error db))
  else
    let! files := NumLevelFiles (d_versions db) 0 in
    if allow_delay && (config.kL0_SlowdownWritesTrigger <=? files) then Ret (db, RoomDelay)
    else
      let! usage := ApproximateMemoryUsage (d_mem db) in
      if negb force && (usage <=? write_buffer_size) then Ret (db, RoomDone OK)
      else if bool_decide (is_Some (d_imm db)) then Ret (db, RoomWait)
      else if config.kL0_StopWritesTrigger <=? files then Ret (db, RoomWait)
      else
        assert! vs_prev_log_number (d_versions db) =? 0;
        let (vs, new_log_number) := NewFileNumber (d_versions db) in
        let! fname := LogFileName dbname new_log_number in
        let '(env, s, lfile) := new_log_file (d_env db) fname in
        if negb (ok s) then
          Ret (mkDB env (ReuseFileNumber vs new_log_number) (d_mem db) (d_imm db) (d_log db) (d_logfile_number db) (d_tmp_batch db) (d_bg_error db) (d_shutting_down db) (d_scheduled db) (d_manual db), RoomDone s)
        else
          match lfile with
          | None => AssertFailed
          | Some lfile => let! db := switch_memtable db env vs lfile new_log_number in Ret (db, RoomAgain)
          end.

(** *** The log and the memtable *)

(** Without the mutex: the record, the sync, the insertion. *)
Definition log_and_insert (db : DB) (updates : WriteBatch) (sync : bool) : outcome (DB * Status * bool) :=
  let! (log, s) := AddRecord (d_log db) (Contents updates) in
  let '(log, s, sync_error) :=
    if ok s && sync then
      let '(f, s) := log_Sync (dest_ log) in
      (mkWriter f (block_offset_ log) (type_crc_ log), s, negb (ok s))
    else (log, s, false) in
  let! (mem, s) := if ok s then InsertInto updates (d_mem db) else Ret (d_mem db, s) in
  Ret (set_db_log db log mem, s, sync_error).

(** *** The machine *)

(** Where a thread that called [Write] is. *)
Inductive Phase :=
  | Waiting
  | MakingRoom (force allow_delay : bool)
  | Logging (updates : WriteBatch) (own : bool) (last_writer : nat) (last_sequence : Z)
  | Logged (s : Status) (sync_error own : bool) (last_writer : nat) (last_sequence : Z)
  | Returned (s : Status).

Record Thread := mkThread { t_writer : QueuedWriter; t_phase : Phase }.

Record System := mkSystem { s_db : DB; s_queue : list nat; s_threads : gmap nat Thread }.

Definition set_phase (sys : System) (t : nat) (w : QueuedWriter) (p : Phase) : System :=
  mkSystem (s_db sys) (s_queue sys) (<[t := mkThread w p]> (s_threads sys)).

Definition with_db (sys : System) (db : DB) : System := mkSystem db (s_queue sys) (s_threads sys).

(** A call of [Write]. *)
Definition call (sys : System) (t : nat) (updates : option WriteBatch) (sync : bool) : System :=
  mkSystem (s_db sys) (s_queue sys ++ [t]) (<[t := mkThread (new_QueuedWriter updates sync) Waiting]> (s_threads sys)).

(** A writer of the group is told its status. *)
Definition mark_done (threads : gmap nat Thread) (t : nat) (s : Status) : gmap nat Thread :=
  alter (fun th => mkThread (mkQueued (qw_batch (t_writer th)) (qw_sync (t_writer th)) true s) (t_phase th)) t threads.

(** Writers leave the queue up to the last one of the group. *)
Fixpoint pop_writers (queue : list nat) (threads : gmap nat Thread) (self last_writer : nat) (s : Status) : outcome (list nat * gmap nat Thread) :=
  match queue with
  | [] => AssertFailed
  | ready :: queue =>
      let threads := if decide (ready = self) then threads else mark_done threads ready s in
      if decide (ready = last_writer) then Ret (queue, threads) else pop_writers queue threads self last_writer s
  end.

Definition finish_write (sys : System) (t : nat) (w : QueuedWriter) (last_writer : nat) (s : Status) : outcome System :=
  let! (queue, threads) := pop_writers (s_queue sys) (s_threads sys) t last_writer s in
  Ret (mkSystem (s_db sys) queue (<[t := mkThread w (Returned s)]> threads)).

(** The writers in the queue. *)
Fixpoint queued (threads : gmap nat Thread) (queue : list nat) : outcome (list (nat * QueuedWriter)) :=
  match queue with
  | [] => Ret []
  | t :: queue =>
      match threads !! t with
      | None => AssertFailed
      | Some th => let! ws := queued threads queue in Ret ((t, t_writer th) :: ws)
      end
  end.

(** After [MakeRoomForWrite] has returned [s]. *)
Definition begin_write (sys : System) (t : nat) (w : QueuedWriter) (s : Status) : outcome System :=
  if ok s && bool_decide (is_Some (qw_batch w)) then
    let last_sequence := vs_last_sequence (d_versions (s_db sys)) in
    let! ws := queued (s_threads sys) (s_queue sys) in
    let! (updates, own, tmp, last_writer) := BuildBatchGroup ws (d_tmp_batch (s_db sys)) in
    let updates := SetSequence updates (u64 (last_sequence + 1)) in
    let last_sequence := u64 (last_sequence + Count updates) in
    let w := if own then mkQueued (Some updates) (qw_sync w) (qw_done w) (qw_status w) else w in
    let db := set_db_tmp (s_db sys) (if own then tmp else updates) in
    Ret (set_phase (with_db sys db) t w (Logging updates own last_writer last_sequence))
  else finish_write sys t w t s.

(** What the thread [t] does when it runs; [None] if it has to wait. *)
Definition thread_step (sys : System) (t : nat) : outcome (option System) :=
  match s_threads sys !! t with
  | None => Ret None
  | Some (mkThread w phase) =>
      match phase with
      | Waiting =>
          if qw_done w then Ret (Some (set_phase sys t w (Returned (qw_status w))))
          else if bool_decide (head (s_queue sys) = Some t) then
            let force := bool_decide (qw_batch w = None) in
            Ret (Some (set_phase sys t w (MakingRoom force (negb force))))
          else Ret None
      | MakingRoom force allow_delay =>
          let! (db, r) := make_room (s_db sys) force allow_delay in
          let sys := with_db sys db in
          match r with
          | RoomDone s => let! sys := begin_write sys t w s in Ret (Some sys)
          | RoomDelay => Ret (Some (set_phase sys t w (MakingRoom force false)))
          | RoomWait => Ret None
          | RoomAgain => Ret (Some (set_phase sys t w (MakingRoom false allow_delay)))
          end
      | Logging updates own last_writer last_sequence =>
          let! (db, s, sync_error) := log_and_insert (s_db sys) updates (qw_sync w) in
          Ret (Some (set_phase (with_db sys db) t w (Logged s sync_error own last_writer last_sequence)))
      | Logged s sync_error own last_writer last_sequence =>
          let db := if sync_error then db_record_error (s_db sys) s else s_db sys in
          let db := if own then db else set_db_tmp db batch_Clear in
          let! vs := SetLastSequenceNumber (d_versions db) last_sequence in
          let! sys := finish_write (with_db sys (set_db_versions db vs)) t w last_writer s in
          Ret (Some sys)
      | Returned _ => Ret None
      end
  end.

(** *** The background thread *)

(** [BackgroundCall] up to [BackgroundCompaction]: whether that is called. *)
Definition BackgroundCall_begin (db : DB) : outcome bool := assert! d_scheduled db; Ret (negb (d_shutting_down db) && ok (d_bg_error db)).

(** [BackgroundCall] from there. *)
Definition BackgroundCall_end (db : DB) : outcome DB := MaybeScheduleCompaction (set_db_scheduled db false).

(** A manual compaction is asked for. *)
Definition request_manual (db : DB) : outcome DB :=
  MaybeScheduleCompaction (mkDB (d_env db) (d_versions db) (d_mem db) (d_imm db) (d_log db) (d_logfile_number db) (d_tmp_batch db) (d_bg_error db) (d_shutting_down db) (d_scheduled db) true).

(** The destructor begins. *)
Definition start_closing (db : DB) : DB :=
  mkDB (d_env db) (d_versions db) (d_mem db) (d_imm db) (d_log db) (d_logfile_number db) (d_tmp_batch db) (d_bg_error db) true (d_scheduled db) (d_manual db).
End Write.

(** ** The memory usage can be computed *)

Section Memory.
Context `{laws : ComparatorLaws}.

(** The key and the height of every node. *)
Definition shape (s : SkipList bytes) : list (bytes * nat) := (fun nd => (node_key nd, length (next_ nd))) <$> nodes_ s.

Lemma SetNext_shape (s : SkipList bytes) x n p s' : SetNext s x n p = Ret s' -> shape s' = shape s.
Proof.
  unfold SetNext. destruct (nodes_ s !! x) as [nd|] eqn:Ex; [|done]. destruct (next_ nd !! n); [|done]. intros [= <-]. unfold shape. cbn [nodes_]. rewrite list_fmap_insert. cbn. rewrite length_insert. apply list_insert_id. by rewrite list_lookup_fmap, Ex.
Qed.

Lemma link_levels_shape n : forall i (s : SkipList bytes) x prev s', link_levels n i s x prev = Ret s' -> shape s' = shape s.
Proof.
  induction n as [|n IH]; intros i s x prev s'; cbn [link_levels]; [by intros [= <-]|]. destruct (prev !! i) as [[p|]|]; [|done..]. destruct (NodeNext s p i) as [nx| |]; cbn [obind]; [|done..]. destruct (SetNext s x i nx) as [s1| |] eqn:E1; cbn [obind]; [|done..]. destruct (SetNext s1 p i (Some x)) as [s2| |] eqn:E2; cbn [obind]; [|done..].
  intros Hl. by rewrite (IH _ _ _ _ _ Hl), (SetNext_shape _ _ _ _ _ E2), (SetNext_shape _ _ _ _ _ E1).
Qed.

Lemma Insert_shape `{KeyOrder bytes} (s : SkipList bytes) key s' : Insert s key = Ret s' -> exists h, (1 <= h <= kMaxHeight)%nat /\ shape s' = shape s ++ [(key, h)].
Proof.
  unfold Insert. destruct (FindGreaterOrEqual s key) as [[x prev]| |]; cbn [obind]; [|done..]. destruct (match x with None => _ | Some _ => _ end) as [dup| |]; cbn [obind]; [|done..]. destruct dup; [done|]. cbn [negb oassert obind].
  destruct (RandomHeight_spec s) as (seed & h & -> & Hh). cbn [obind max_height_]. destruct (_ <? h)%nat; unfold NewNode; cbn [nodes_ rnd_ max_height_]; intros Hl%link_levels_shape; exists h; (split; [done|]); rewrite Hl; unfold shape; cbn [nodes_]; rewrite fmap_app; cbn; by rewrite length_replicate.
Qed.

Lemma EncodeVarint32_short v : 1 <= zlen (EncodeVarint32 v) <= 5.
Proof. unfold EncodeVarint32. by repeat (destruct (_ <? _)). Qed.

(** Every entry has bytes, not too many, and a node of a valid height. *)
Definition sized (m : MemTable) : Prop := Forall (fun p => 0 < zlen p.1 < 2 ^ 62 /\ (1 <= p.2 <= kMaxHeight)%nat) (tail (shape (table_ m))) /\ shape (table_ m) ≠ [].

Lemma sized_new : sized new_MemTable.
Proof. split; [constructor|done]. Qed.

Lemma Add_sized m s ty k v m' : zlen k + 8 < 2 ^ 32 -> zlen v < 2 ^ 32 -> sized m -> Add m s ty k v = Ret m' -> sized m'.
Proof.
  intros Hk Hv [Hs Hn]. unfold Add. match goal with |- context [assert! ?b; _] => destruct b eqn:Eb end; [|done]. cbn [oassert obind]. match goal with |- context [Insert _ ?b] => set (buf := b) in * end.
  destruct (Insert (table_ m) buf) as [t| |] eqn:Ei; cbn [obind]; [|done..]. intros [= <-]. destruct (Insert_shape _ _ _ Ei) as (h & Hh & He). unfold sized. cbn [table_]. rewrite He. split; [|by destruct (shape (table_ m))].
  assert (tail (shape (table_ m) ++ [(buf, h)]) = tail (shape (table_ m)) ++ [(buf, h)]) as -> by (by destruct (shape (table_ m))). apply Forall_app. split; [done|]. constructor; [|constructor]. split; [|done]. cbn [fst]. pose proof (zlen_nonneg k). pose proof (zlen_nonneg v).
  unfold buf. rewrite !zlen_app, EncodeFixed64_length. pose proof (EncodeVarint32_short (u32 (zlen k + 8))) as L1. pose proof (EncodeVarint32_short (u32 (zlen v))) as L2. lia.
Qed.

Lemma adds_sized ops : forall m m', Forall op_ok ops -> sized m -> adds m ops = Ret m' -> sized m'.
Proof.
  induction ops as [|o ops IH]; intros m m' Hok Hs; cbn [adds]; [by intros [= <-]|]. apply Forall_cons in Hok as [(_ & Hk & Hv) Hok]. destruct (Add m _ _ _ _) as [m1| |] eqn:Ea; cbn [obind]; [|done..]. apply IH; [done|]. by eapply Add_sized.
Qed.

Lemma usage_returns `{alaws : AllocatorLaws} m : sized m -> exists n, ApproximateMemoryUsage m = Ret n.
Proof.
  intros [Hs _]. unfold ApproximateMemoryUsage. destruct (requests_spec (memtable_requests m) new_Arena [] new_Arena_ok) as (a & ps & -> & _); [|by eexists].
  unfold memtable_requests. constructor; [by vm_compute|]. revert Hs. unfold shape. rewrite <- fmap_tail. induction (tail (nodes_ (table_ m))) as [|nd nds IH]; intros Hs; [constructor|]. apply Forall_cons in Hs as [[Hz Hh] Hs]. cbn [fst snd] in Hz, Hh. cbn [fmap list_fmap concat].
  apply Forall_app. split; [|by apply IH]. unfold entry_requests, node_size. constructor; [cbn; lia|]. constructor; [|constructor]. cbn. unfold kMaxHeight in Hh. lia.
Qed.
End Memory.
