(* ===== verification/WriteQueue.v ===== *)
(** * Group commit is a queue of atomic batches

    The machine of [DbWrite] refines a specification in which the calls of [Write] are served in the order they were
    made, several at a time, and each group of batches is applied as a whole. *)

From stdpp Require Import gmap sorting relations sets.
From S2P Require Import Prelude Coding Env Crc32c LogWriter LogReader LogCorrect LogSim Comparator DbFormat VersionEdit SkipList MemTable Iterator Version Filename VersionSet WriteBatch Arena DbWrite.

Open Scope outcome_scope.

(** ** Batches of a group *)

(** A call: the thread and the operations of its batch, if it has one. *)
Abbreviation Call := (nat * option (list batch_op))%type.

Definition group_ops (cs : list Call) : list batch_op := concat ((fun c : Call => default [] c.2) <$> cs).

Lemma group_ops_app cs cs' : group_ops (cs ++ cs') = group_ops cs ++ group_ops cs'.
Proof. unfold group_ops. by rewrite fmap_app, concat_app. Qed.

Lemma group_ops_cons c cs : group_ops (c :: cs) = default [] c.2 ++ group_ops cs.
Proof. done. Qed.

(** Operations a client may write at once. *)
Definition ops_ok (ops : list batch_op) : Prop := Forall batch_op_ok ops /\ zlen ops < 2 ^ 31 /\ zlen (records_bytes ops) < 2 ^ 62.

Definition holds (b : option WriteBatch) (ops : option (list batch_op)) : Prop :=
  match b, ops with
  | None, None => True
  | Some b, Some ops => ops_ok ops /\ exists seq, batch_is b seq ops
  | _, _ => False
  end.

Lemma batch_is_size b seq ops : batch_is b seq ops -> zlen b = 12 + zlen (records_bytes ops) /\ zlen ops <= zlen (records_bytes ops).
Proof.
  intros ->. rewrite !zlen_app, EncodeFixed64_length, EncodeFixed32_length. pose proof (records_length ops). unfold zlen. lia.
Qed.

Lemma Count_is b seq ops : batch_is b seq ops -> zlen ops < 2 ^ 31 -> Count b = zlen ops.
Proof. intros -> Hn. apply Count_header; [apply EncodeFixed64_length|]. pose proof (zlen_nonneg ops). lia. Qed.

Lemma batch_Clear_is : batch_is batch_Clear 0 [].
Proof. by vm_compute. Qed.

Lemma max_group_le size : max_group size <= 2 ^ 20.
Proof. unfold max_group. destruct (Z.leb_spec size (128 * 2 ^ 10)); lia. Qed.

(** A writer of the queue and its call. *)
Definition queued_as (w : nat * QueuedWriter) (c : Call) : Prop := w.1 = c.1 /\ holds (qw_batch w.2) c.2.

(** The group has the calls [g] so far. *)
Lemma group_loop_spec b sync max ops : max <= 2 ^ 20 -> ops_ok ops -> (exists seq, batch_is b seq ops) ->
  forall rest cs size (own : bool) tmp lw (g : list Call), Forall2 queued_as rest cs -> zlen b <= size < 2 ^ 63 -> zlen (group_ops g) <= size -> Forall batch_op_ok (group_ops g) -> zlen (group_ops g) < 2 ^ 31 ->
  (if own then group_ops g = ops /\ batch_is tmp 0 [] else batch_is tmp 0 (group_ops g)) -> list.last (fst <$> g) = Some lw ->
  exists (own' : bool) tmp' lw' k, group_loop b sync max rest size own tmp lw = Ret (own', tmp', lw') /\ (k <= length cs)%nat /\ list.last (fst <$> g ++ take k cs) = Some lw' /\
    Forall batch_op_ok (group_ops (g ++ take k cs)) /\ zlen (group_ops (g ++ take k cs)) < 2 ^ 31 /\
    (if own' then own = true /\ tmp' = tmp /\ group_ops (g ++ take k cs) = ops else batch_is tmp' 0 (group_ops (g ++ take k cs))).
Proof.
  intros Hmax Hops (seq0 & Hb) rest. induction rest as [|[id w] rest IH]; intros cs size own tmp lw g Hrest Hsz Hgs Hgok Hgn Htmp Hlast.
  { exists own, tmp, lw, 0%nat. rewrite take_0, app_nil_r. cbn. split; [done|]. split; [lia|]. split; [done|]. split; [done|]. split; [done|]. destruct own; [|done]. by destruct Htmp. }
  destruct cs as [|c cs]; [by apply Forall2_cons_nil_inv in Hrest|]. apply Forall2_cons in Hrest as [[Hid Hw] Hrest]. cbn [fst snd] in Hid, Hw. cbn [group_loop].
  assert (forall g' : list Call, list.last (fst <$> g' ++ [c]) = Some id) as Hl by (intros g'; rewrite fmap_app; cbn; by rewrite last_snoc, Hid).
  assert (exists (own' : bool) tmp' lw' k, Ret (own, tmp, lw) = Ret (own', tmp', lw') /\ (k <= length (c :: cs))%nat /\ list.last (fst <$> g ++ take k (c :: cs)) = Some lw' /\
    Forall batch_op_ok (group_ops (g ++ take k (c :: cs))) /\ zlen (group_ops (g ++ take k (c :: cs))) < 2 ^ 31 /\
    (if own' then own = true /\ tmp' = tmp /\ group_ops (g ++ take k (c :: cs)) = ops else batch_is tmp' 0 (group_ops (g ++ take k (c :: cs))))) as Hstop.
  { exists own, tmp, lw, 0%nat. rewrite take_0, app_nil_r. split; [done|]. split; [lia|]. split; [done|]. split; [done|]. split; [done|]. destruct own; [|done]. by destruct Htmp. }
  destruct (qw_sync w && negb sync); [exact Hstop|]. destruct (qw_batch w) as [bw|]; destruct (c.2) as [opsw|] eqn:Ec; cbn [holds] in Hw; try done.
  - destruct Hw as ((Hok & Hn & Hr) & seqw & Hbw). destruct (batch_is_size _ _ _ Hbw) as [Hzb Hle]. destruct (batch_is_size _ _ _ Hb) as [Hzb0 Hle0]. pose proof (zlen_nonneg (records_bytes opsw)). pose proof (zlen_nonneg (records_bytes ops)). pose proof (zlen_nonneg (group_ops g)).
    rewrite u64_small by lia. destruct (Z.ltb_spec max (size + zlen bw)) as [|Hfit]; [exact Hstop|].
    assert (group_ops (g ++ [c]) = group_ops g ++ opsw) as Hg' by (rewrite group_ops_app; unfold group_ops at 2; cbn; rewrite Ec; cbn; by rewrite app_nil_r).
    assert (exists tmp1, (if own then assert! Count tmp =? 0; batch_Append tmp b else Ret tmp) = Ret tmp1 /\ batch_is tmp1 0 (group_ops g)) as (tmp1 & -> & Ht1).
    { destruct own; [|by exists tmp]. destruct Htmp as [Hg Ht]. rewrite (Count_is _ _ _ Ht) by done. cbn [Z.eqb oassert obind]. destruct (batch_Append_is tmp 0 [] b seq0 ops Ht Hb) as (t1 & Ht1 & Hi); [change (zlen (@nil batch_op)) with 0; destruct Hops as (_ & ? & _); lia|]. exists t1. by rewrite Hg. }
    cbn [obind]. destruct (batch_Append_is tmp1 0 (group_ops g) bw seqw opsw Ht1 Hbw) as (tmp2 & -> & Ht2); [lia|]. cbn [obind].
    destruct (IH cs (size + zlen bw) false tmp2 id (g ++ [c]) Hrest) as (own' & tmp' & lw' & k & Hl' & Hk & Hlast' & Hok' & Hn' & Hown); [lia|rewrite Hg', zlen_app; lia|rewrite Hg'; by apply Forall_app|rewrite Hg', zlen_app; lia|by rewrite Hg'|apply Hl|].
    exists own', tmp', lw', (S k). rewrite Hl'. cbn [length firstn]. rewrite (cons_middle c), app_assoc. split; [done|]. split; [lia|]. split; [done|]. split; [done|]. split; [done|]. destruct own'; [by destruct Hown|done].
  - assert (group_ops (g ++ [c]) = group_ops g) as Hg' by (rewrite group_ops_app; unfold group_ops at 2; cbn; rewrite Ec; cbn; by rewrite app_nil_r).
    destruct (IH cs size own tmp id (g ++ [c]) Hrest) as (own' & tmp' & lw' & k & Hl' & Hk & Hlast' & Hok' & Hn' & Hown); [done|by rewrite Hg'|by rewrite Hg'|by rewrite Hg'|by rewrite Hg'|apply Hl|].
    exists own', tmp', lw', (S k). rewrite Hl'. cbn [length firstn]. rewrite (cons_middle c), app_assoc. split; [done|]. split; [lia|]. done.
Qed.

(** A group is made of the first callers; a temporary batch that was empty is used if there are several. *)
Lemma BuildBatchGroup_spec ws c cs ops tmp : Forall2 queued_as ws (c :: cs) -> c.2 = Some ops -> batch_is tmp 0 [] ->
  exists b (own : bool) tmp' lw k seq, BuildBatchGroup ws tmp = Ret (b, own, tmp', lw) /\ (k <= length cs)%nat /\ list.last (fst <$> c :: take k cs) = Some lw /\
    let g := group_ops (c :: take k cs) in batch_is b seq g /\ Forall batch_op_ok g /\ zlen g < 2 ^ 31 /\
    (own = true -> g = ops /\ batch_is tmp' 0 []).
Proof.
  intros Hws Hc Htmp. destruct ws as [|[id first] rest]; [by apply Forall2_nil_cons_inv in Hws|]. apply Forall2_cons in Hws as [[Hid Hfirst] Hrest]. cbn [fst snd] in Hid, Hfirst. cbn [BuildBatchGroup].
  rewrite Hc in Hfirst. destruct (qw_batch first) as [b|]; [|done]. destruct Hfirst as (Hops & seq & Hb). pose proof Hops as (Hok & Hn & Hr). destruct (batch_is_size _ _ _ Hb) as [Hzb Hle]. pose proof (zlen_nonneg (records_bytes ops)).
  assert (group_ops [c] = ops) as Hg by (unfold group_ops; cbn; rewrite Hc; cbn; apply app_nil_r).
  destruct (group_loop_spec b (qw_sync first) (max_group (zlen b)) ops (max_group_le (zlen b)) Hops ltac:(by exists seq) rest cs (zlen b) true tmp id [c] Hrest) as (own & tmp' & lw & k & -> & Hk & Hlast & Hok' & Hn' & Hown); [lia|rewrite Hg; lia|by rewrite Hg|by rewrite Hg|done|by cbn; rewrite Hid|]. cbn [obind app] in *.
  destruct own.
  - destruct Hown as (_ & -> & Hgo). exists b, true, tmp, lw, k, seq. split; [done|]. split; [done|]. split; [done|]. rewrite Hgo in *. done.
  - exists tmp', false, tmp', lw, k, 0. split; [done|]. split; [done|]. split; [done|]. done.
Qed.

(** ** The log *)

(** Syncing changes no contents, and does not heal a file. *)
Class LogFileLaws (F : Type) `{WritableFileLaws F} `{LogFile F} : Prop := {
  sync_contents f f' s : log_Sync f = (f', s) -> contents f' = contents f;
  sync_failed f f' s : log_Sync f = (f', s) -> failed f -> failed f';
}.

(** A new log is empty. *)
Class LogDirLaws (E F : Type) `{WritableFileLaws F} `{LogDir E F} : Prop := {
  new_log_ok e n e' r : new_log_file e n = (e', OK, r) -> exists f, r = Some f /\ contents f = [];
}.

Section LogInv.
Context `{Crc32c} {F : Type} `{flaws : LogFileLaws F}.

(** The records that were given to the log, with the statuses of [AddRecord]: those of [good] are in the file. *)
Record log_inv (w : Writer F) (good bad : list (bytes * Status)) : Prop := mkLogInv {
  li_ok : writer_ok w;
  li_good : Forall (fun p => p.2 = OK) good;
  li_bad : Forall (fun p => p.2 ≠ OK) bad;
  li_prefix : contents (dest_ w) `prefix_of` log_layout 0 (fst <$> good ++ bad);
  li_acked : log_layout 0 (fst <$> good) `prefix_of` contents (dest_ w);
  li_state : failed (dest_ w) \/ (bad = [] /\ contents (dest_ w) = log_layout 0 (fst <$> good) /\ forall more, log_layout 0 ((fst <$> good) ++ more) = log_layout 0 (fst <$> good) ++ log_layout (block_offset_ w) more);
}.

Lemma log_inv_new f : contents f = [] -> log_inv (new_Writer f) [] [].
Proof.
  intros Hf. split; [apply new_Writer_ok|constructor|constructor|cbn; by rewrite Hf|cbn; by rewrite Hf|]. right. split; [done|]. cbn. by rewrite Hf.
Qed.

Lemma log_inv_add w good bad d : log_inv w good bad ->
  exists w' s, AddRecord w d = Ret (w', s) /\ (s = OK -> bad = []) /\ if decide (s = OK) then log_inv w' (good ++ [(d, s)]) bad else log_inv w' good (bad ++ [(d, s)]).
Proof.
  intros [Hw Hg Hb Hp Ha Hst]. destruct (AddRecord_wrote w d Hw) as (w' & s & Hadd & Hw' & Hbo & Hwr). exists w', s. split; [done|]. destruct Hwr as [(-> & Hnf & Hnf' & Hc)|(Hs & Hf' & p & Hpre & Hc & Hnil)].
  - destruct Hst as [|(-> & Hcg & Hmore)]; [done|]. split; [done|]. rewrite decide_True by done. assert (contents (dest_ w') = log_layout 0 ((fst <$> good) ++ [d])) as He by (rewrite Hmore, Hc, Hcg; cbn [log_layout]; by rewrite app_nil_r).
    split; try done; rewrite ?app_nil_r, ?fmap_app; cbn [fmap list_fmap fst].
    + apply Forall_app. split; [done|by constructor].
    + by rewrite He.
    + by rewrite He.
    + right. split; [done|]. split; [done|]. intros more. rewrite <- app_assoc. cbn [app]. rewrite (Hmore (d :: more)), (Hmore [d]). cbn [log_layout]. by rewrite app_nil_r, <- app_assoc, Hbo.
  - split; [done|]. rewrite decide_False by done. split; try done.
    + apply Forall_app. split; [done|by constructor].
    + rewrite app_assoc, fmap_app. cbn [fmap list_fmap fst]. destruct Hst as [Hf|(-> & Hcg & Hmore)].
      * rewrite Hc, (Hnil Hf), app_nil_r. etrans; [exact Hp|]. rewrite (log_layout_app 0 (fst <$> good ++ bad)). by apply prefix_app_r.
      * rewrite app_nil_r, Hmore, Hc, Hcg. cbn [log_layout]. rewrite app_nil_r. by apply prefix_app.
    + rewrite Hc. by apply prefix_app_r.
    + by left.
Qed.

Lemma log_inv_sync w good bad f s : log_inv w good bad -> log_Sync (dest_ w) = (f, s) -> log_inv (mkWriter f (block_offset_ w) (type_crc_ w)) good bad.
Proof.
  intros [Hw Hg Hb Hp Ha Hst] Hs. pose proof (sync_contents _ _ _ Hs) as Hc. split; try done; cbn [dest_ block_offset_]; rewrite ?Hc; try done. destruct Hst as [Hf|Hst]; [left; by eapply sync_failed|by right].
Qed.

(** Reading the file back yields every acknowledged record, and perhaps some more. *)
Lemma log_inv_read {G : Type} `{glaws : SequentialFileLaws G} w good bad (g : G) fuel : log_inv w good bad -> remaining g = contents (dest_ w) -> zlen (remaining g) < Z.of_nat fuel ->
  exists r n, read_all fuel (new_Reader g true true 0) = Ret (r, take n (fst <$> good ++ bad)) /\ reports_ r = [] /\ (length good <= n)%nat.
Proof.
  intros [_ _ _ Hp Ha _] Hg Hf. rewrite <- Hg in Hp, Ha. destruct (read_prefix fuel g true true (fst <$> good ++ bad) Hp Hf) as (r & n & Hr & Hrep & Hn & Hmax). exists r, n. split; [done|]. split; [done|].
  apply Hmax; [rewrite length_fmap, length_app; lia|]. rewrite <- fmap_take, take_app_length. exact Ha.
Qed.
End LogInv.

(** ** The specification *)

(** The calls in their order, how many of them are served, and with which status; the last sequence number; the
    entries of the memtables that were filled and of the current one; the records of the current log. *)
Record Spec := mkSpec {
  a_calls : list Call;
  a_served : nat;
  a_results : gmap nat Status;
  a_seq : Z;
  a_sealed : list (list entry_op);
  a_mem : list entry_op;
  a_good : list (bytes * Status);
  a_bad : list (bytes * Status);
}.

Definition mark_results (results : gmap nat Status) (group : list Call) (s : Status) : gmap nat Status :=
  foldr (fun c m => <[c.1 := s]> m) results group.

Inductive spec_step : Spec -> Spec -> Prop :=
  | spec_call a t ops : t ∉ fst <$> a_calls a ->
      spec_step a (mkSpec (a_calls a ++ [(t, ops)]) (a_served a) (a_results a) (a_seq a) (a_sealed a) (a_mem a) (a_good a) (a_bad a))
  | spec_switch a :
      spec_step a (mkSpec (a_calls a) (a_served a) (a_results a) (a_seq a) (a_sealed a ++ [a_mem a]) [] [] [])
  | spec_refuse a c s : a_calls a !! a_served a = Some c -> s ≠ OK \/ c.2 = None ->
      spec_step a (mkSpec (a_calls a) (S (a_served a)) (<[c.1 := s]> (a_results a)) (a_seq a) (a_sealed a) (a_mem a) (a_good a) (a_bad a))
  | spec_write a group b s logged : group ≠ [] -> group `prefix_of` drop (a_served a) (a_calls a) ->
      let ops := group_ops group in
      batch_is b (a_seq a + 1) ops -> (s = OK -> logged = OK) ->
      spec_step a (mkSpec (a_calls a) (a_served a + length group) (mark_results (a_results a) group s) (a_seq a + zlen ops) (a_sealed a)
        (if decide (s = OK) then a_mem a ++ numbered (a_seq a + 1) ops else a_mem a)
        (if decide (logged = OK) then a_good a ++ [(b, logged)] else a_good a) (if decide (logged = OK) then a_bad a else a_bad a ++ [(b, logged)])).

Definition init_spec (seq : Z) : Spec := mkSpec [] 0 ∅ seq [] [] [] [].

Lemma mark_results_in results group s (c : Call) : c ∈ group -> mark_results results group s !! c.1 = Some s.
Proof.
  induction group as [|x group IH]; [by intros ?%elem_of_nil|]. cbn [mark_results foldr]. fold (mark_results results group s). intros [->|Hin]%elem_of_cons; [by rewrite lookup_insert_eq|]. destruct (decide (x.1 = c.1)) as [->|]; [by rewrite lookup_insert_eq|]. rewrite lookup_insert_ne by done. by apply IH.
Qed.

Lemma mark_results_out results group s t : t ∉ fst <$> group -> mark_results results group s !! t = results !! t.
Proof.
  induction group as [|x group IH]; [done|]. cbn [mark_results foldr fmap list_fmap]. fold (mark_results results group s). rewrite not_elem_of_cons. intros [Hne Hn]. rewrite lookup_insert_ne by done. by apply IH.
Qed.

(** ** The invariant *)

Section Refinement.
Context `{laws : ComparatorLaws} `{Crc32c} `{alaws : AllocatorLaws} {E F FH : Type} `{flaws : LogFileLaws F} `{dlaws : !LogDir E F} `{dirlaws : !LogDirLaws E F}.
Context (dbname : bytes) (write_buffer_size : Z).
Abbreviation DB := (DB E F FH).
Abbreviation System := (System (E := E) (F := F) (FH := FH)).
Implicit Types (db : DB) (sys : System) (threads : gmap nat Thread).

(** The questions about the current version have answers, and a full level 0 asks for a compaction. *)
Definition vs_ok (vs : VersionSet FH) : Prop :=
  (exists n, NumLevelFiles vs 0 = Ret n) /\ (exists b, NeedsCompaction vs = Ret b) /\ vs_prev_log_number vs = 0 /\ 0 < vs_next_file_number vs /\
  (forall n, NumLevelFiles vs 0 = Ret n -> config.kL0_StopWritesTrigger <= n -> NeedsCompaction vs = Ret true).

Lemma vs_ok_numbers vs nx last : vs_ok vs -> 0 < nx -> vs_ok (set_numbers vs nx (vs_manifest_file_number vs) last (vs_log_number vs) (vs_prev_log_number vs)).
Proof. intros (Hn & Hb & Hp & _ & Hfull) Hnx. by split. Qed.

Record db_ok db (a : Spec) : Prop := mkDbOk {
  do_vs : vs_ok (d_versions db);
  do_mem : MRepr (d_mem db) (a_mem a);
  do_sized : sized (d_mem db);
  do_imm m : d_imm db = Some m -> exists entries, list.last (a_sealed a) = Some entries /\ MRepr m entries;
  do_seqs o : o ∈ a_mem a -> op_seq o <= a_seq a;
  do_seq : 0 <= vs_last_sequence (d_versions db) <= a_seq a;
  do_log : log_inv (d_log db) (a_good a) (a_bad a);
}.

(** Nothing is being written. *)
Definition idle db (a : Spec) (past : nat) : Prop :=
  a_served a = past /\ vs_last_sequence (d_versions db) = a_seq a /\ batch_is (d_tmp_batch db) 0 [].

Definition in_queue threads (c : Call) : Prop :=
  exists w, threads !! c.1 = Some (mkThread w Waiting) /\ qw_done w = false /\ holds (qw_batch w) c.2.

Definition left_queue threads (results : gmap nat Status) (c : Call) : Prop :=
  exists w p, threads !! c.1 = Some (mkThread w p) /\
    ((p = Waiting /\ qw_done w = true /\ results !! c.1 = Some (qw_status w)) \/ exists s, p = Returned s /\ results !! c.1 = Some s).

(** The writer [c] at the front, with [rest] behind it. *)
Definition front_phase db (a : Spec) (past : nat) (c : Call) (rest : list Call) (p : Phase) : Prop :=
  match p with
  | Waiting | MakingRoom _ _ => idle db a past
  | Logging u own lw ls =>
      exists k, (k <= length rest)%nat /\ list.last (fst <$> c :: take k rest) = Some lw /\ a_served a = past /\ vs_last_sequence (d_versions db) = a_seq a /\
        (let g := group_ops (c :: take k rest) in batch_is u (a_seq a + 1) g /\ Forall batch_op_ok g /\ zlen g < 2 ^ 31 /\ ls = a_seq a + zlen g) /\
        (own = true -> batch_is (d_tmp_batch db) 0 [])
  | Logged s _ own lw ls =>
      exists k, (k <= length rest)%nat /\ list.last (fst <$> c :: take k rest) = Some lw /\ a_served a = (past + S k)%nat /\
        vs_last_sequence (d_versions db) + zlen (group_ops (c :: take k rest)) = a_seq a /\ ls = a_seq a /\
        Forall (fun c' : Call => a_results a !! c'.1 = Some s) (c :: take k rest) /\ (own = true -> batch_is (d_tmp_batch db) 0 [])
  | Returned _ => False
  end.

Definition front_ok db threads (a : Spec) (past : nat) (c : Call) (rest : list Call) : Prop :=
  exists w p, threads !! c.1 = Some (mkThread w p) /\ qw_done w = false /\ holds (qw_batch w) c.2 /\ front_phase db a past c rest p.

Record sys_at sys (a : Spec) (past waiting : list Call) : Prop := mkSysAt {
  sa_calls : a_calls a = past ++ waiting;
  sa_queue : s_queue sys = fst <$> waiting;
  sa_nodup : NoDup (fst <$> a_calls a);
  sa_dom t : is_Some (s_threads sys !! t) -> t ∈ fst <$> a_calls a;
  sa_past : Forall (left_queue (s_threads sys) (a_results a)) past;
  sa_rest : Forall (in_queue (s_threads sys)) (tail waiting);
  sa_front : match waiting with [] => idle (s_db sys) a (length past) | c :: rest => front_ok (s_db sys) (s_threads sys) a (length past) c rest end;
  sa_db : db_ok (s_db sys) a;
  sa_room : vs_last_sequence (d_versions (s_db sys)) + zlen (group_ops waiting) < 2 ^ 56;
}.

Definition refines sys (a : Spec) : Prop := exists past waiting, sys_at sys a past waiting.

(** *** Threads that are not touched *)

Lemma in_queue_insert threads t th c : c.1 ≠ t -> in_queue threads c -> in_queue (<[t := th]> threads) c.
Proof. intros Hne (w & Hl & Hrest). exists w. split; [by rewrite lookup_insert_ne|done]. Qed.

Lemma left_queue_insert threads results t th c : c.1 ≠ t -> left_queue threads results c -> left_queue (<[t := th]> threads) results c.
Proof. intros Hne (w & p & Hl & Hrest). exists w, p. split; [by rewrite lookup_insert_ne|done]. Qed.

Lemma fst_ne (l : list Call) t c : t ∉ fst <$> l -> c ∈ l -> c.1 ≠ t.
Proof. intros Hn Hc <-. apply Hn. by apply list_elem_of_fmap_2. Qed.

Lemma in_queue_others threads t th l : t ∉ fst <$> l -> Forall (in_queue threads) l -> Forall (in_queue (<[t := th]> threads)) l.
Proof. intros Hn Hl. rewrite Forall_forall in *. intros c Hc. apply in_queue_insert; [by eapply fst_ne|by apply Hl]. Qed.

Lemma left_queue_others threads results t th l : t ∉ fst <$> l -> Forall (left_queue threads results) l -> Forall (left_queue (<[t := th]> threads) results) l.
Proof. intros Hn Hl. rewrite Forall_forall in *. intros c Hc. apply left_queue_insert; [by eapply fst_ne|by apply Hl]. Qed.

Lemma dom_insert threads t th (l : list Call) : t ∈ fst <$> l -> (forall t', is_Some (threads !! t') -> t' ∈ fst <$> l) -> forall t', is_Some (<[t := th]> threads !! t') -> t' ∈ fst <$> l.
Proof. intros Ht Hd t'. destruct (decide (t = t')) as [<-|Hne]; [done|]. rewrite lookup_insert_ne by done. apply Hd. Qed.
(** *** Leaving the queue *)

Definition mark_all threads (l : list nat) (s : Status) : gmap nat Thread := foldl (fun m t => mark_done m t s) threads l.

Lemma mark_all_out threads l s t : t ∉ l -> mark_all threads l s !! t = threads !! t.
Proof.
  revert threads. induction l as [|x l IH]; intros threads; [done|]. rewrite not_elem_of_cons. intros [Hne Hn]. change (mark_all (mark_done threads x s) l s !! t = threads !! t). rewrite IH by done. unfold mark_done. by rewrite lookup_alter_ne.
Qed.

Lemma mark_all_in threads l s t w p : NoDup l -> t ∈ l -> threads !! t = Some (mkThread w p) ->
  mark_all threads l s !! t = Some (mkThread (mkQueued (qw_batch w) (qw_sync w) true s) p).
Proof.
  revert threads. induction l as [|x l IH]; intros threads; [by intros _ ?%elem_of_nil|]. intros [Hx Hl]%NoDup_cons [->|Hin]%elem_of_cons Ht; change (mark_all threads (_ :: l) s) with (mark_all (mark_done threads x s) l s).
  - rewrite mark_all_out by done. unfold mark_done. by rewrite lookup_alter_eq, Ht.
  - apply IH; [done..|]. unfold mark_done. rewrite lookup_alter_ne; [done|]. by intros ->.
Qed.

Lemma mark_all_dom threads l s t : is_Some (mark_all threads l s !! t) -> is_Some (threads !! t).
Proof.
  revert threads. induction l as [|x l IH]; intros threads; [done|]. change (mark_all threads (x :: l) s) with (mark_all (mark_done threads x s) l s). intros Hi%IH. unfold mark_done in Hi. destruct (decide (x = t)) as [->|Hne]; [|by rewrite lookup_alter_ne in Hi]. rewrite lookup_alter_eq in Hi. by destruct (threads !! t); [|by apply is_Some_None in Hi].
Qed.

Lemma pop_others self lw s l : forall queue threads, self ∉ l -> NoDup l -> list.last l = Some lw ->
  pop_writers (l ++ queue) threads self lw s = Ret (queue, mark_all threads l s).
Proof.
  induction l as [|x l IH]; intros queue threads; [done|]. rewrite not_elem_of_cons. intros [Hne Hn] [Hx Hl]%NoDup_cons Hlast. cbn [app pop_writers]. rewrite (decide_False (P := x = self)) by congruence. destruct l as [|y l].
  - injection Hlast as ->. by rewrite decide_True.
  - change (list.last (y :: l) = Some lw) in Hlast. rewrite decide_False; [by apply IH|]. intros ->. apply Hx. by apply last_Some_elem_of.
Qed.

Lemma pop_writers_spec self lw s l queue threads : NoDup (self :: l) -> list.last (self :: l) = Some lw ->
  pop_writers (self :: l ++ queue) threads self lw s = Ret (queue, mark_all threads l s).
Proof.
  intros [Hn Hl]%NoDup_cons Hlast. cbn [pop_writers]. rewrite (decide_True (P := self = self)) by done. destruct l as [|y l].
  - injection Hlast as <-. by rewrite decide_True.
  - change (list.last (y :: l) = Some lw) in Hlast. rewrite decide_False; [by apply pop_others|]. intros ->. apply Hn. by apply last_Some_elem_of.
Qed.

(** The group of [c] leaves. *)
Lemma finish_spec db threads a past c rest w lw s k :
  a_calls a = past ++ c :: rest -> NoDup (fst <$> a_calls a) -> (forall t, is_Some (threads !! t) -> t ∈ fst <$> a_calls a) ->
  Forall (left_queue threads (a_results a)) past -> Forall (in_queue threads) rest ->
  (k <= length rest)%nat -> list.last (fst <$> c :: take k rest) = Some lw ->
  Forall (fun c' : Call => a_results a !! c'.1 = Some s) (c :: take k rest) ->
  idle db a (length past + S k) -> db_ok db a -> vs_last_sequence (d_versions db) + zlen (group_ops (drop k rest)) < 2 ^ 56 ->
  exists sys', finish_write (mkSystem db (fst <$> c :: rest) threads) c.1 w lw s = Ret sys' /\ sys_at sys' a (past ++ c :: take k rest) (drop k rest).
Proof.
  intros Hc Hnd Hdom Hpast Hrest Hk Hlw Hres Hidle Hdb Hroom. unfold finish_write. cbn [s_queue s_threads s_db fmap list_fmap]. pose proof Hnd as Hnd2. rewrite Hc, fmap_app in Hnd2. cbn [fmap list_fmap] in Hnd2. apply NoDup_app in Hnd2 as (_ & Hdis & Hnd2).
  assert (fst <$> rest = (fst <$> take k rest) ++ (fst <$> drop k rest)) as Hsplit by (by rewrite <- fmap_app, take_drop). rewrite Hsplit in Hnd2 |- *. pose proof Hnd2 as [Hcn Hnr]%NoDup_cons. rewrite not_elem_of_app in Hcn. apply NoDup_app in Hnr as (Hnt & Hdis2 & _).
  rewrite pop_writers_spec; [|constructor; [by apply Hcn|done]|done]. cbn [obind].
  eexists. split; [done|]. split; cbn [s_queue s_threads s_db].
  - by rewrite Hc, <- app_assoc; cbn; rewrite take_drop.
  - done.
  - done.
  - apply dom_insert; [rewrite Hc; apply list_elem_of_fmap_2; set_solver|]. intros t Ht. apply Hdom. by eapply mark_all_dom.
  - apply Forall_app. split; [|apply Forall_cons; split].
    + apply left_queue_others; [intros Hin; apply (Hdis _ Hin); by left|]. rewrite Forall_forall in *. intros c' Hc'. destruct (Hpast _ Hc') as (w' & p & Hl & Hr). exists w', p. split; [|done]. rewrite mark_all_out; [done|]. intros Hin. eapply Hdis; [by apply list_elem_of_fmap_2|]. right. rewrite Hsplit. apply elem_of_app. by left.
    + exists w, (Returned s). split; [by rewrite lookup_insert_eq|]. right. exists s. split; [done|]. by apply Forall_cons in Hres as [? _].
    + apply left_queue_others; [by apply Hcn|]. apply Forall_cons in Hres as [_ Hres]. rewrite Forall_forall in *. intros c' Hc'. destruct (Hrest c') as (w' & Hl & _ & _); [rewrite <- (take_drop k rest); set_solver|]. eexists _, Waiting. split; [eapply mark_all_in; [done|by apply list_elem_of_fmap_2|done]|]. left. split; [done|]. split; [done|]. by apply Hres.
  - assert (Forall (in_queue (<[c.1 := mkThread w (Returned s)]> (mark_all threads (fst <$> take k rest) s))) (drop k rest)) as Hd; [|by destruct (drop k rest); [|apply Forall_cons in Hd as [_ ?]]].
    apply in_queue_others; [by apply Hcn|]. rewrite Forall_forall in *. intros c' Hc'. destruct (Hrest c') as (w' & Hl & Hr); [rewrite <- (take_drop k rest); set_solver|]. exists w'. split; [|done]. rewrite mark_all_out; [done|]. intros Hin. eapply Hdis2; [exact Hin|by apply list_elem_of_fmap_2].
  - rewrite length_app. cbn [length]. rewrite length_take_le by done. destruct (drop k rest) as [|c' rest'] eqn:Ed; [done|]. rewrite Forall_forall in Hrest. destruct (Hrest c') as (w' & Hl & Hd & Hb); [rewrite <- (take_drop k rest), Ed; set_solver|].
    exists w', Waiting. split; [|done]. assert (c'.1 ∈ fst <$> c' :: rest') as Hin by (left). rewrite lookup_insert_ne by (intros He; apply Hcn; by rewrite He). rewrite mark_all_out; [done|]. intros Hin2. by eapply Hdis2.
  - done.
  - done.
Qed.

(** *** The front of the queue moves on *)

Lemma front_update sys a past c rest db' a' w' p' :
  sys_at sys a past (c :: rest) -> a_calls a' = a_calls a -> (forall c', c' ∈ past -> a_results a' !! c'.1 = a_results a !! c'.1) ->
  qw_done w' = false -> holds (qw_batch w') c.2 -> front_phase db' a' (length past) c rest p' -> db_ok db' a' ->
  vs_last_sequence (d_versions db') = vs_last_sequence (d_versions (s_db sys)) ->
  sys_at (set_phase (with_db sys db') c.1 w' p') a' past (c :: rest).
Proof.
  intros [Hc Hq Hnd Hdom Hp Hr Hf Hdb Hroom] Hc' Hres Hd Hh Hph Hdb' Hls. pose proof Hnd as Hnd2. rewrite Hc, fmap_app in Hnd2. apply NoDup_app in Hnd2 as (_ & Hdis & Hnd2). cbn [fmap list_fmap] in Hdis, Hnd2. apply NoDup_cons in Hnd2 as [Hcn _].
  split; cbn [set_phase with_db s_queue s_threads s_db]; rewrite ?Hc'; try done.
  - apply dom_insert; [|done]. rewrite Hc. apply list_elem_of_fmap_2. set_solver.
  - apply left_queue_others; [intros Hin; apply (Hdis _ Hin); by left|]. rewrite Forall_forall in *. intros x Hx. destruct (Hp x Hx) as (w & p & Hl & Hs). exists w, p. by rewrite Hres.
  - by apply in_queue_others.
  - exists w', p'. by rewrite lookup_insert_eq.
  - by rewrite Hls.
Qed.

(** *** Making room *)

Definition seal (a : Spec) : Spec := mkSpec (a_calls a) (a_served a) (a_results a) (a_seq a) (a_sealed a ++ [a_mem a]) [] [] [].

(** Whether there is something for the background thread to do. *)
Definition has_work db : Prop := d_imm db ≠ None \/ d_manual db = true \/ NeedsCompaction (d_versions db) = Ret true.

(** Work was handed to the background thread, or never will be. *)
Definition awake db : Prop := has_work db -> d_scheduled db = true \/ d_shutting_down db = true \/ d_bg_error db ≠ OK.

Lemma ok_spec s : ok s = true <-> s = OK.
Proof. by destruct s. Qed.

Lemma MaybeScheduleCompaction_spec db : vs_ok (d_versions db) -> exists b, MaybeScheduleCompaction db = Ret (set_db_scheduled db b) /\ awake (set_db_scheduled db b).
Proof.
  intros (_ & (nc & Hnc) & _). unfold MaybeScheduleCompaction. assert (forall b, d_scheduled db = b -> db = set_db_scheduled db b) as Hid by (intros b <-; by destruct db).
  destruct (d_scheduled db) eqn:Es; [exists true; rewrite <- (Hid true) by done; split; [done|]; by left|].
  destruct (d_shutting_down db) eqn:Ed; [exists false; rewrite <- (Hid false) by done; split; [done|]; right; by left|].
  destruct (ok (d_bg_error db)) eqn:Ee; [|exists false; rewrite <- (Hid false) by done; split; [done|]; right; right; intros He; by rewrite He in Ee]. cbn [negb].
  case_bool_decide as Hi; cbn [andb]; [|exists true; split; [done|]; by left]. destruct (d_manual db) eqn:Em; cbn [negb obind]; [exists true; split; [done|]; by left|].
  rewrite Hnc. cbn [obind]. destruct nc; [exists true; split; [done|]; by left|]. exists false. rewrite <- (Hid false) by done. split; [done|]. intros [Hw|[Hw|Hw]]; [by rewrite Hi in Hw|by rewrite Em in Hw|by rewrite Hnc in Hw].
Qed.

(** What a round of [MakeRoomForWrite] may do with the database. *)
Definition made_room db (a : Spec) db' (r : Room) : Prop :=
  vs_last_sequence (d_versions db') = vs_last_sequence (d_versions db) /\ d_tmp_batch db' = d_tmp_batch db /\ d_bg_error db' = d_bg_error db /\ (awake db -> awake db') /\
  match r with
  | RoomDone _ => db_ok db' a
  | RoomDelay => db' = db
  | RoomWait => db' = db /\ d_bg_error db = OK /\ (d_imm db ≠ None \/ exists n, NumLevelFiles (d_versions db) 0 = Ret n /\ config.kL0_StopWritesTrigger <= n)
  | RoomAgain => db_ok db' (seal a) /\ d_mem db' = Ref new_MemTable /\ d_versions db' = (NewFileNumber (d_versions db)).1
  end.

Lemma make_room_spec db a force allow_delay : db_ok db a -> vs_next_file_number (d_versions db) + 1 < 2 ^ 64 ->
  exists db' r, make_room dbname write_buffer_size db force allow_delay = Ret (db', r) /\ made_room db a db' r.
Proof.
  intros Hok Hnext. pose proof Hok as [Hvs Hmem Hsz Himm Hseqs Hseq Hlog]. pose proof Hvs as ((n & Hn) & Hnc & Hprev & Hpos & _). unfold make_room.
  destruct (ok (d_bg_error db)) eqn:Ee; cbn [negb]; [|by eexists _, _]. apply ok_spec in Ee. rewrite Hn. cbn [obind]. destruct (allow_delay && _); [by eexists _, _|].
  destruct (usage_returns (d_mem db) Hsz) as (u & ->). cbn [obind]. destruct (negb force && _); [by eexists _, _|]. case_bool_decide as Hi.
  { eexists _, _. split; [done|]. repeat (split; [done|]). left. by apply not_eq_None_Some. }
  destruct (Z.leb_spec config.kL0_StopWritesTrigger n) as [Hstop|_]. { eexists _, _. split; [done|]. repeat (split; [done|]). right. by exists n. }
  rewrite Hprev. cbn [Z.eqb oassert obind]. destruct (NewFileNumber (d_versions db)) as [vs num] eqn:Ev. pose proof Ev as Ev0. unfold NewFileNumber in Ev. injection Ev as Evs Enum. rewrite u64_small in Evs by lia. unfold LogFileName. rewrite <- Enum. destruct (Z.ltb_spec 0 (vs_next_file_number (d_versions db))) as [_|]; [|lia]. cbn [oassert obind].
  assert (vs_ok vs) as Hvs' by (rewrite <- Evs; apply vs_ok_numbers; [done|lia]).
  destruct (new_log_file (d_env db) _) as [[env s] lfile] eqn:En. destruct (ok s) eqn:Es; cbn [negb].
  - apply ok_spec in Es as ->. destruct (new_log_ok _ _ _ _ En) as (f & -> & Hf). unfold switch_memtable. match goal with |- context [MaybeScheduleCompaction ?d] => destruct (MaybeScheduleCompaction_spec d Hvs') as (b & -> & Haw) end. cbn [obind].
    eexists _, _. split; [done|]. split; [by rewrite <- Evs|]. split; [done|]. split; [done|]. split; [done|]. split; [|by rewrite Ev0]. split; cbn [set_db_scheduled d_versions d_mem d_imm d_log seal a_mem a_seq a_good a_bad a_sealed]; try done.
    + apply MRepr_new.
    + intros m [= <-]. exists (a_mem a). by rewrite last_snoc.
    + by intros o ?%elem_of_nil.
    + by rewrite <- Evs.
    + by apply log_inv_new.
  - eexists _, _. split; [done|]. assert (vs_ok (ReuseFileNumber vs (vs_next_file_number (d_versions db))) /\ vs_last_sequence (ReuseFileNumber vs (vs_next_file_number (d_versions db))) = vs_last_sequence (d_versions db) /\ NeedsCompaction (ReuseFileNumber vs (vs_next_file_number (d_versions db))) = NeedsCompaction (d_versions db)) as (Hv & Hl & Hneed).
    { unfold ReuseFileNumber. destruct (_ =? _); [|by rewrite <- Evs in *]. split; [|by rewrite <- Evs]. by apply vs_ok_numbers. }
    split; [done|]. split; [done|]. split; [done|]. split; [unfold awake, has_work; cbn; by rewrite Hneed|]. split; cbn; rewrite ?Hl; done.
Qed.

(** *** Logging *)

Lemma log_and_insert_spec db a g b sync : db_ok db a -> batch_is b (a_seq a + 1) g -> Forall batch_op_ok g -> zlen g < 2 ^ 31 -> a_seq a + zlen g < 2 ^ 56 ->
  exists db' s sync_error logged, log_and_insert db b sync = Ret (db', s, sync_error) /\ (s = OK -> logged = OK) /\ d_versions db' = d_versions db /\ d_tmp_batch db' = d_tmp_batch db /\ (awake db -> awake db') /\
    forall calls served results,
    db_ok db' (mkSpec calls served results (a_seq a + zlen g) (a_sealed a) (if decide (s = OK) then a_mem a ++ numbered (a_seq a + 1) g else a_mem a)
      (if decide (logged = OK) then a_good a ++ [(b, logged)] else a_good a) (if decide (logged = OK) then a_bad a else a_bad a ++ [(b, logged)])).
Proof.
  intros [Hvs Hmem Hsz Himm Hseqs Hseq Hlog] Hb Hg Hn Hr. unfold log_and_insert, Contents. destruct (log_inv_add _ _ _ b Hlog) as (log & logged & -> & _ & Hl). cbn [obind]. pose proof (zlen_nonneg g) as Hgn.
  assert (exists log' s sync_error, (if ok logged && sync then let '(f, s) := log_Sync (dest_ log) in (mkWriter f (block_offset_ log) (type_crc_ log), s, negb (ok s)) else (log, logged, false)) = (log', s, sync_error) /\
    (s = OK -> logged = OK) /\ if decide (logged = OK) then log_inv log' (a_good a ++ [(b, logged)]) (a_bad a) else log_inv log' (a_good a) (a_bad a ++ [(b, logged)])) as (log' & s & se & -> & Hs & Hl').
  { destruct (ok logged && sync) eqn:Eo; [|by exists log, logged, false]. apply andb_true_iff in Eo as [Eo _]. apply ok_spec in Eo as ->. destruct (log_Sync (dest_ log)) as [f s] eqn:Ef. exists (mkWriter f (block_offset_ log) (type_crc_ log)), s, (negb (ok s)). split; [done|]. split; [done|]. cbn [decide] in *. destruct (decide (OK = OK)); [|done]. by apply (log_inv_sync log _ _ f s). }
  assert (forall mem' entries, MRepr mem' entries -> sized mem' -> (forall o, o ∈ entries -> op_seq o <= a_seq a + zlen g) -> forall calls served results,
    db_ok (set_db_log db log' mem') (mkSpec calls served results (a_seq a + zlen g) (a_sealed a) entries (if decide (logged = OK) then a_good a ++ [(b, logged)] else a_good a) (if decide (logged = OK) then a_bad a else a_bad a ++ [(b, logged)]))) as Hdb.
  { intros mem' entries Hm Hz He calls served results. split; try done; cbn [set_db_log d_versions d_log a_seq a_good a_bad]; [lia|]. by destruct (decide (logged = OK)). }
  destruct (ok s) eqn:Es.
  - apply ok_spec in Es as ->. rewrite (InsertInto_adds b (a_seq a + 1) g) by (done || lia).
    destruct (adds_spec (numbered (a_seq a + 1) g) (d_mem db) (a_mem a) Hmem) as (m' & Hadds & Hm'); [apply numbered_ok; (done || lia)|apply numbered_increasing|intros o o' Ho Ho'; apply Hseqs in Ho; apply numbered_range in Ho'; lia|]. rewrite Hadds. cbn [obind].
    eexists _, OK, se, logged. split; [done|]. split; [done|]. split; [done|]. split; [done|]. split; [done|]. intros. apply Hdb; [done| |]. { eapply adds_sized; [|exact Hsz|exact Hadds]. apply numbered_ok; (done || lia). }
    intros o [Ho|Ho]%elem_of_app; [apply Hseqs in Ho; lia|apply numbered_range in Ho; lia].
  - cbn [obind]. eexists _, s, se, logged. split; [done|]. split; [done|]. split; [done|]. split; [done|]. split; [done|]. intros. rewrite decide_False by (by intros ->). apply Hdb; [done..|]. intros o Ho. apply Hseqs in Ho. lia.
Qed.

(** *** A step of a thread *)

Lemma front_phase_db db db' a past c rest p : vs_last_sequence (d_versions db') = vs_last_sequence (d_versions db) -> d_tmp_batch db' = d_tmp_batch db -> front_phase db a past c rest p -> front_phase db' a past c rest p.
Proof. intros Hl Ht. destruct p; cbn [front_phase]; unfold idle; by rewrite ?Hl, ?Ht. Qed.

Lemma with_db_at sys a past waiting db' : sys_at sys a past waiting -> vs_last_sequence (d_versions db') = vs_last_sequence (d_versions (s_db sys)) -> d_tmp_batch db' = d_tmp_batch (s_db sys) -> db_ok db' a ->
  sys_at (with_db sys db') a past waiting.
Proof.
  intros [Hc Hq Hnd Hdom Hp Hr Hf Hdb Hroom] Hl Ht Hok. split; cbn [with_db s_db s_queue s_threads]; try done; [|by rewrite Hl]. destruct waiting as [|c rest]; [unfold idle in *; by rewrite Hl, Ht|].
  destruct Hf as (w & p & Hw & Hd & Hh & Hph). exists w, p. repeat (split; [done|]). by eapply front_phase_db.
Qed.

Lemma queued_spec threads l : Forall (fun c : Call => exists w p, threads !! c.1 = Some (mkThread w p) /\ holds (qw_batch w) c.2) l -> exists ws, queued threads (fst <$> l) = Ret ws /\ Forall2 queued_as ws l.
Proof.
  induction 1 as [|c l (w & p & Hw & Hh) _ (ws & Hq & Hws)]; [by exists []|]. cbn [fmap list_fmap queued]. rewrite Hw, Hq. cbn [obind]. eexists. split; [done|]. by constructor.
Qed.

(** The call [c] is refused, or had no batch. *)
Lemma refuse_spec sys a past c rest w p s : sys_at sys a past (c :: rest) -> s_threads sys !! c.1 = Some (mkThread w p) -> idle (s_db sys) a (length past) -> s ≠ OK \/ c.2 = None ->
  exists sys' a', finish_write sys c.1 w c.1 s = Ret sys' /\ spec_step a a' /\ refines sys' a' /\ s_db sys' = s_db sys.
Proof.
  intros [Hc Hq Hnd Hdom Hp Hr Hf Hdb Hroom] Hw (Hserved & Hls & Htmp) Hs. destruct sys as [db queue threads]. cbn [s_db s_queue s_threads tail] in *. subst queue.
  assert (a_calls a !! a_served a = Some c) as Hl by (rewrite Hc, Hserved; by apply list_lookup_middle).
  pose proof Hnd as Hnd2. rewrite Hc, fmap_app in Hnd2. apply NoDup_app in Hnd2 as (_ & Hdis & _).
  set (a' := mkSpec (a_calls a) (S (a_served a)) (<[c.1 := s]> (a_results a)) (a_seq a) (a_sealed a) (a_mem a) (a_good a) (a_bad a)).
  destruct (finish_spec db threads a' past c rest w c.1 s 0) as (sys' & Hfin & Hat); try done.
  - rewrite Forall_forall in *. intros c' Hc'. destruct (Hp c' Hc') as (w' & p' & Hw' & Hres). exists w', p'. split; [done|]. cbn [a' a_results]. rewrite lookup_insert_ne; [done|]. intros He. eapply Hdis; [by apply list_elem_of_fmap_2|]. rewrite <- He. left.
  - apply Nat.le_0_l.
  - constructor; [|constructor]. cbn. by rewrite lookup_insert_eq.
  - split; [|done]. cbn. lia.
  - by destruct Hdb.
  - rewrite drop_0. rewrite group_ops_cons, zlen_app in Hroom. pose proof (zlen_nonneg (default [] c.2)). lia.
  - exists sys', a'. split; [done|]. split; [by apply spec_refuse|]. split; [by eexists _, _|]. unfold finish_write in Hfin. destruct (pop_writers _ _ _ _ _) as [[q t]| |]; [|done..]. by injection Hfin as <-.
Qed.

Lemma begin_write_spec sys a past c rest w f d s : sys_at sys a past (c :: rest) -> s_threads sys !! c.1 = Some (mkThread w (MakingRoom f d)) ->
  exists sys' a', begin_write sys c.1 w s = Ret sys' /\ rtc spec_step a a' /\ refines sys' a' /\ (awake (s_db sys) -> awake (s_db sys')).
Proof.
  intros Hat Hw. pose proof Hat as [Hc Hq Hnd Hdom Hp Hr (w0 & p0 & Hw0 & Hdone & Hh & Hph) Hdb Hroom]. rewrite Hw in Hw0. injection Hw0 as <- <-. cbn [front_phase] in Hph. unfold begin_write. destruct (ok s && bool_decide (is_Some (qw_batch w))) eqn:Eb.
  2:{ destruct (refuse_spec sys a past c rest w _ s Hat Hw Hph) as (sys' & a' & Hf & Hst & Href & Hdb'); [|exists sys', a'; split; [done|]; split; [by apply rtc_once|]; split; [done|by rewrite Hdb']].
      apply andb_false_iff in Eb as [Eb|Eb]; [left; by intros ->|]. right. apply bool_decide_eq_false in Eb. rewrite <- eq_None_not_Some in Eb. rewrite Eb in Hh. by destruct (c.2). }
  apply andb_true_iff in Eb as [_ Eb]. apply bool_decide_eq_true in Eb as [b0 Eb]. rewrite Eb in Hh. destruct (c.2) as [ops|] eqn:Ec; [|done].
  assert (Forall (fun c : Call => exists w p, s_threads sys !! c.1 = Some (mkThread w p) /\ holds (qw_batch w) c.2) (c :: rest)) as Hall.
  { constructor; [eexists _, _; split; [exact Hw|]; by rewrite Eb, Ec|]. eapply Forall_impl; [exact Hr|]. intros c' (w' & ? & _ & ?). by exists w', Waiting. }
  destruct (queued_spec _ _ Hall) as (ws & Hqs & Hws). rewrite Hq, Hqs. cbn [obind]. destruct Hph as (Hserved & Hls & Htmp).
  destruct (BuildBatchGroup_spec ws c rest ops _ Hws Ec Htmp) as (b & own & tmp' & lw & k & seq & -> & Hk & Hlw & Hb & Hok & Hn & Hown). cbn [obind]. set (g := group_ops (c :: take k rest)) in *.
  pose proof (SetSequence_is b seq g (a_seq a + 1) Hb) as Hb'. pose proof (zlen_nonneg g) as Hgn. assert (zlen g <= zlen (group_ops (c :: rest))) as Hle by (unfold g; rewrite <- (take_drop k rest) at 2; change (c :: take k rest ++ drop k rest) with ((c :: take k rest) ++ drop k rest); rewrite group_ops_app, zlen_app; pose proof (zlen_nonneg (group_ops (drop k rest))); lia).
  pose proof (do_seq _ _ Hdb) as Hseq. rewrite Hls in *. rewrite (u64_small (a_seq a + 1)) by lia. rewrite (Count_is _ _ _ Hb') by done. rewrite u64_small by lia.
  eexists _, a. split; [done|]. split; [done|]. split; [|done]. exists past, (c :: rest). apply (front_update sys a past c rest); try done.
  - by destruct own.
  - destruct own; cbn; [|by rewrite Eb, Ec]. rewrite Ec. destruct Hh as (Hops & _). split; [done|]. exists (a_seq a + 1). destruct Hown as [<- _]; [done|exact Hb'].
  - exists k. repeat (split; [done|]). intros ->. by apply Hown.
  - by destruct Hdb.
Qed.

Lemma logging_spec sys a past c rest w u own lw ls : sys_at sys a past (c :: rest) -> s_threads sys !! c.1 = Some (mkThread w (Logging u own lw ls)) ->
  exists db s se a', log_and_insert (s_db sys) u (qw_sync w) = Ret (db, s, se) /\ spec_step a a' /\ sys_at (set_phase (with_db sys db) c.1 w (Logged s se own lw ls)) a' past (c :: rest) /\ (awake (s_db sys) -> awake db).
Proof.
  intros Hat Hw. pose proof Hat as [Hc Hq Hnd Hdom Hp Hr (w0 & p0 & Hw0 & Hdone & Hh & Hph) Hdb Hroom]. rewrite Hw in Hw0. injection Hw0 as <- <-. destruct Hph as (k & Hk & Hlw & Hserved & Hls & (Hb & Hok & Hn & Hls') & Hown). set (group := c :: take k rest) in *.
  pose proof Hnd as Hnd2. rewrite Hc, fmap_app in Hnd2. apply NoDup_app in Hnd2 as (_ & Hdis & _).
  assert (c :: rest = group ++ drop k rest) as Hsplit by (unfold group; cbn; by rewrite take_drop).
  assert (zlen (group_ops group) <= zlen (group_ops (c :: rest))) as Hle by (rewrite Hsplit, group_ops_app, zlen_app; pose proof (zlen_nonneg (group_ops (drop k rest))); lia).
  destruct (log_and_insert_spec (s_db sys) a (group_ops group) u (qw_sync w) Hdb Hb Hok Hn) as (db & s & se & logged & Hli & Hlog & Hvs & Htmp & Haw & Hdb'); [lia|].
  set (a' := mkSpec (a_calls a) (a_served a + length group) (mark_results (a_results a) group s) (a_seq a + zlen (group_ops group)) (a_sealed a) (if decide (s = OK) then a_mem a ++ numbered (a_seq a + 1) (group_ops group) else a_mem a)
    (if decide (logged = OK) then a_good a ++ [(u, logged)] else a_good a) (if decide (logged = OK) then a_bad a else a_bad a ++ [(u, logged)])).
  exists db, s, se, a'. split; [done|]. split; [|split; [|done]].
  - apply spec_write; [done| |done|done]. rewrite Hc, Hserved, drop_app_length, Hsplit. by apply prefix_app_r.
  - apply (front_update sys a past c rest); try done; [| |apply Hdb'|by rewrite Hvs].
    + intros c' Hc'. cbn [a' a_results]. apply mark_results_out. intros Hin. eapply Hdis; [by apply list_elem_of_fmap_2|]. rewrite Hsplit, fmap_app. apply elem_of_app. by left.
    + exists k. fold group. split; [done|]. split; [done|]. split; [cbn [a' a_served]; unfold group; cbn [length]; rewrite length_take_le by done; lia|]. split; [by rewrite Hvs, Hls|]. split; [by rewrite Hls'|]. split; [|by rewrite Htmp]. apply Forall_forall. intros c' Hc'. by apply mark_results_in.
Qed.

Lemma logged_spec sys a past c rest w s (se own : bool) lw ls : sys_at sys a past (c :: rest) -> s_threads sys !! c.1 = Some (mkThread w (Logged s se own lw ls)) ->
  let db := if se then db_record_error (s_db sys) s else s_db sys in
  let db := if own then db else set_db_tmp db batch_Clear in
  exists vs sys', SetLastSequenceNumber (d_versions db) ls = Ret vs /\ finish_write (with_db sys (set_db_versions db vs)) c.1 w lw s = Ret sys' /\ refines sys' a /\ (awake (s_db sys) -> awake (s_db sys')).
Proof.
  intros [Hc Hq Hnd Hdom Hp Hr (w0 & p0 & Hw0 & Hdone & Hh & Hph) Hdb Hroom] Hw db1 db. rewrite Hw in Hw0. injection Hw0 as <- <-. destruct Hph as (k & Hk & Hlw & Hserved & Hls & Hls' & Hres & Hown).
  assert (d_versions db = d_versions (s_db sys) /\ d_mem db = d_mem (s_db sys) /\ d_imm db = d_imm (s_db sys) /\ d_log db = d_log (s_db sys)) as (Hv & Hm & Hi & Hl) by (unfold db, db1, db_record_error; destruct own, se, (ok (d_bg_error (s_db sys))); done).
  assert (batch_is (d_tmp_batch db) 0 []) as Htmp by (unfold db; destruct own; [|apply batch_Clear_is]; unfold db1, db_record_error; destruct se, (ok (d_bg_error (s_db sys))); by apply Hown).
  pose proof (do_seq _ _ Hdb) as Hseq. pose proof (zlen_nonneg (group_ops (c :: take k rest))) as Hgn.
  unfold SetLastSequenceNumber. rewrite Hv. destruct (Z.leb_spec (vs_last_sequence (d_versions (s_db sys))) ls) as [_|]; [|lia]. cbn [oassert obind]. set (vs := set_numbers _ _ _ _ _ _). exists vs.
  destruct sys as [db0 queue threads]. cbn [s_db s_queue s_threads with_db tail] in *. subst queue.
  destruct (finish_spec (set_db_versions db vs) threads a past c rest w lw s k) as (sys' & Hfin & Hat); try done.
  - destruct Hdb as [Hvs Hmem Hsz Himm Hseqs _ Hlog]. split; cbn [set_db_versions d_versions d_mem d_imm d_log]; rewrite ?Hm, ?Hi, ?Hl; try done. cbn. lia.
  - cbn. rewrite Hls'. rewrite <- (take_drop k rest) in Hroom. change (c :: take k rest ++ drop k rest) with ((c :: take k rest) ++ drop k rest) in Hroom. rewrite group_ops_app, zlen_app in Hroom. lia.
  - exists sys'. split; [done|]. split; [done|]. split; [by eexists _, _|]. unfold finish_write in Hfin. destruct (pop_writers _ _ _ _ _) as [[q t]| |]; [|done..]. injection Hfin as <-. cbn [s_db]. intros Haw Hwork.
    assert (has_work db0) as Hw0 by (unfold has_work in *; cbn in Hwork; rewrite Hi in Hwork; replace (d_manual db0) with (d_manual db); [exact Hwork|]; unfold db, db1, db_record_error; by destruct own, se, (ok (d_bg_error db0))).
    specialize (Haw Hw0). cbn [set_db_versions d_scheduled d_shutting_down d_bg_error]. unfold db, db1, db_record_error. destruct (d_bg_error db0) eqn:Ee, se, own; cbn; rewrite ?Ee; try done; (destruct Haw as [?|[?|?]]; [by left|right; by left|done]).
Qed.

(** A thread never fails, and what it does is allowed by the specification. *)
Lemma thread_step_spec sys a t : refines sys a -> vs_next_file_number (d_versions (s_db sys)) + 1 < 2 ^ 64 ->
  exists r, thread_step dbname write_buffer_size sys t = Ret r /\
    forall sys', r = Some sys' -> (awake (s_db sys) -> awake (s_db sys')) /\ exists a', rtc spec_step a a' /\ refines sys' a'.
Proof.
  intros (past & waiting & Hat) Hnext. pose proof Hat as [Hc Hq Hnd Hdom Hp Hr Hf Hdb Hroom]. unfold thread_step. destruct (s_threads sys !! t) as [[w phase]|] eqn:Ht; [|by exists None].
  assert (t ∈ fst <$> a_calls a) as Hin by (apply Hdom; by rewrite Ht). rewrite Hc, fmap_app, elem_of_app in Hin. destruct Hin as [Hin|Hin].
  - apply list_elem_of_fmap in Hin as (c & -> & Hc'). rewrite Forall_forall in Hp. destruct (Hp c Hc') as (w' & p & Hl & Hcase). rewrite Ht in Hl. injection Hl as <- <-. destruct Hcase as [(-> & -> & Hres)|(s & -> & Hres)]; [|by exists None].
    eexists. split; [done|]. intros sys' [= <-]. split; [done|]. exists a. split; [done|]. exists past, waiting. assert (c.1 ∉ fst <$> waiting) as Hnw. { rewrite Hc, fmap_app in Hnd. apply NoDup_app in Hnd as (_ & Hdis & _). apply Hdis. by apply list_elem_of_fmap_2. }
    split; cbn [set_phase s_queue s_threads s_db]; try done.
    + apply dom_insert; [rewrite Hc; apply list_elem_of_fmap_2; set_solver|done].
    + apply Forall_forall. intros c' Hc2. destruct (decide (c'.1 = c.1)) as [He|Hne]; [|apply left_queue_insert; [done|by apply Hp]]. eexists _, _. rewrite He, lookup_insert_eq. split; [done|]. right. by eexists.
    + apply in_queue_others; [|done]. destruct waiting; [done|]. cbn [fmap list_fmap] in Hnw. by apply not_elem_of_cons in Hnw as [_ ?].
    + destruct waiting as [|c0 rest]; [done|]. destruct Hf as (w0 & p0 & Hl0 & Hrest). exists w0, p0. split; [|done]. rewrite lookup_insert_ne; [done|]. intros He. apply Hnw. rewrite He. left.
  - destruct waiting as [|c rest]; [by apply elem_of_nil in Hin|]. cbn [fmap list_fmap] in Hin. apply elem_of_cons in Hin as [->|Hin].
    2:{ apply list_elem_of_fmap in Hin as (c' & -> & Hc'). rewrite Forall_forall in Hr. destruct (Hr c' Hc') as (w' & Hl & Hd & _). rewrite Ht in Hl. injection Hl as <- ->. rewrite Hd, bool_decide_eq_false_2; [by exists None|]. rewrite Hq. intros [= He]. rewrite Hc, fmap_app in Hnd. apply NoDup_app in Hnd as (_ & _ & Hnd). apply NoDup_cons in Hnd as [Hcn _]. apply Hcn. rewrite He. by apply list_elem_of_fmap_2. }
    destruct Hf as (w' & p & Hl & Hd & Hh & Hph). rewrite Ht in Hl. injection Hl as <- <-. destruct phase as [|force allow_delay|u own lw ls|s se own lw ls|s].
    + rewrite Hd, bool_decide_eq_true_2 by (by rewrite Hq). eexists. split; [done|]. intros sys' [= <-]. split; [done|]. exists a. split; [done|]. exists past, (c :: rest). apply (front_update sys a past c rest (s_db sys)); done.
    + destruct (make_room_spec (s_db sys) a force allow_delay Hdb Hnext) as (db' & r & -> & Hls & Htmp & _ & Haw & Hr'). cbn [obind]. destruct r as [s| | |].
      * pose proof (with_db_at _ _ _ _ db' Hat Hls Htmp Hr') as Hat'. destruct (begin_write_spec _ a past c rest w force allow_delay s Hat' Ht) as (sys' & a' & -> & Hst & Href & Haw'). cbn [obind]. eexists. split; [done|]. intros ? [= <-]. split; [auto|]. by exists a'.
      * subst db'. eexists. split; [done|]. intros sys' [= <-]. split; [done|]. exists a. split; [done|]. exists past, (c :: rest). apply (front_update sys a past c rest (s_db sys)); done.
      * by exists None.
      * destruct Hr' as (Hdb' & _). eexists. split; [done|]. intros sys' [= <-]. split; [done|]. exists (seal a). split; [apply rtc_once; apply spec_switch|]. exists past, (c :: rest). apply (front_update sys a past c rest db'); try done. destruct Hph as (? & ? & ?). split; [done|]. by rewrite Hls, Htmp.
    + destruct (logging_spec _ _ _ _ _ _ _ _ _ _ Hat Ht) as (db & s & se & a' & -> & Hst & Hat' & Haw). cbn [obind]. eexists. split; [done|]. intros ? [= <-]. split; [done|]. exists a'. split; [by apply rtc_once|]. by exists past, (c :: rest).
    + destruct (logged_spec _ _ _ _ _ _ _ _ _ _ _ Hat Ht) as (vs & sys' & Hset & Hfin & Href & Haw). rewrite Hset. cbn [obind]. rewrite Hfin. cbn [obind]. eexists. split; [done|]. intros ? [= <-]. split; [done|]. by exists a.
    + done.
Qed.
End Refinement.
