(* ===== verification/WriteRun.v ===== *)
(** * Runs of the write path

    Threads that write, the background thread and the closing of the database as one machine: what its runs make
    visible, what survives in the log, and that a writer never waits in vain. *)

From stdpp Require Import gmap sorting relations sets.
From S2P Require Import Prelude Coding Env Crc32c LogWriter LogReader LogCorrect LogSim Comparator DbFormat VersionEdit SkipList MemTable Iterator Version Filename VersionBuilder VersionSet WriteBatch Arena DbWrite WriteQueue.

Open Scope outcome_scope.

(** ** What the specification guarantees *)

(** The calls that were served one after the other: those with status OK have their operations, under consecutive
    numbers, among the entries; the others have none. *)
Inductive served (results : gmap nat Status) (first : Z) : list Call -> Z -> list entry_op -> Prop :=
  | served_nil : served results first [] first []
  | served_ok cs seq es c : served results first cs seq es -> results !! c.1 = Some OK ->
      served results first (cs ++ [c]) (seq + zlen (default [] c.2)) (es ++ numbered (seq + 1) (default [] c.2))
  | served_failed cs seq es c s seq' : served results first cs seq es -> results !! c.1 = Some s -> s ≠ OK \/ c.2 = None -> seq <= seq' ->
      served results first (cs ++ [c]) seq' es.

Definition entries (a : Spec) : list entry_op := concat (a_sealed a) ++ a_mem a.

(** The entries of the current memtable are in records of the log. *)
Definition recorded (good : list (bytes * Status)) (es : list entry_op) : Prop :=
  forall o, o ∈ es -> exists p seq ops, p ∈ good /\ batch_is p.1 seq ops /\ o ∈ numbered seq ops.

Record spec_ok (first : Z) (a : Spec) : Prop := mkSpecOk {
  so_served : served (a_results a) first (take (a_served a) (a_calls a)) (a_seq a) (entries a);
  so_count : (a_served a <= length (a_calls a))%nat;
  so_nodup : NoDup (fst <$> a_calls a);
  so_recorded : recorded (a_good a) (a_mem a);
}.

Lemma served_other results first cs seq es t s : t ∉ fst <$> cs -> served results first cs seq es -> served (<[t := s]> results) first cs seq es.
Proof.
  intros Hn Hs. induction Hs as [|cs seq es c Hs IH Hr|cs seq es c s' seq' Hs IH Hr Hc Hle]; [constructor|..]; rewrite fmap_app, not_elem_of_app in Hn; destruct Hn as [Hn Hc']; cbn [fmap list_fmap] in Hc'; apply not_elem_of_cons in Hc' as [Hne _].
  - apply served_ok; [by apply IH|by rewrite lookup_insert_ne].
  - eapply served_failed; [by apply IH|by rewrite lookup_insert_ne|done|done].
Qed.

Lemma served_mark results first cs seq es group s : (forall c, c ∈ group -> c.1 ∉ fst <$> cs) -> served results first cs seq es -> served (mark_results results group s) first cs seq es.
Proof.
  intros Hn Hs. induction group as [|c group IH]; [done|]. cbn [mark_results foldr]. apply served_other; [apply Hn; left|]. apply IH. intros c' Hc'. apply Hn. by right.
Qed.

Lemma numbered_app seq ops ops' : numbered seq (ops ++ ops') = numbered seq ops ++ numbered (seq + zlen ops) ops'.
Proof.
  revert seq. induction ops as [|o ops IH]; intros seq; cbn [app]; [change (zlen (@nil batch_op)) with 0; by rewrite Z.add_0_r|]. rewrite zlen_cons. destruct o; cbn [numbered]; rewrite IH; cbn; do 3 f_equal; lia.
Qed.

Lemma served_group results first group : forall cs seq es, served results first cs seq es -> Forall (fun c : Call => results !! c.1 = Some OK) group ->
  served results first (cs ++ group) (seq + zlen (group_ops group)) (es ++ numbered (seq + 1) (group_ops group)).
Proof.
  induction group as [|c group IH]; intros cs seq es Hs Hg. { cbn. by rewrite Z.add_0_r, !app_nil_r. }
  apply Forall_cons in Hg as [Hc Hg]. rewrite group_ops_cons, zlen_app, numbered_app, (cons_middle c), !app_assoc, Z.add_assoc. replace (seq + 1 + zlen (default [] c.2)) with (seq + zlen (default [] c.2) + 1) by lia. apply IH; [|done]. by apply served_ok.
Qed.

Lemma served_refused results first s group : s ≠ OK -> forall cs seq es seq', served results first cs seq es -> Forall (fun c : Call => results !! c.1 = Some s) group -> seq <= seq' -> group ≠ [] ->
  served results first (cs ++ group) seq' es.
Proof.
  intros Hs. induction group as [|c group IH]; intros cs seq es seq' Hcs Hg Hle Hn; [done|]. apply Forall_cons in Hg as [Hc Hg]. rewrite (cons_middle c), app_assoc. destruct group as [|c' group].
  - rewrite app_nil_r. eapply served_failed; [done|done|by left|done].
  - eapply (IH _ seq); [|done|done|done]. eapply served_failed; [done|done|by left|done].
Qed.

Lemma recorded_weaken good good' es : good ⊆ good' -> recorded good es -> recorded good' es.
Proof. intros Hsub Hr o Ho. destruct (Hr o Ho) as (p & seq & ops & Hp & Hrest). exists p, seq, ops. split; [by apply Hsub|done]. Qed.

Lemma spec_step_ok first a a' : spec_step a a' -> spec_ok first a -> spec_ok first a'.
Proof.
  intros Hst [Hs Hc Hnd Hr]. destruct Hst as [a t ops Ht|a|a c s Hc' Hs'|a group b s logged Hg Hpre ops Hb Hlog].
  - split; cbn; try done; [by rewrite take_app_le|rewrite length_app; lia|]. rewrite fmap_app. apply NoDup_app. split; [done|]. split; [set_solver|]. apply NoDup_singleton.
  - split; cbn; try done; [|intros o Ho; by apply elem_of_nil in Ho]. unfold entries in *. cbn. by rewrite concat_app, app_nil_r; cbn; rewrite app_nil_r.
  - pose proof (lookup_lt_Some _ _ _ Hc') as Hlt. split; cbn; try done. fold (entries a). rewrite (take_S_r _ _ _ Hc'). eapply served_failed; [|by rewrite lookup_insert_eq|done|reflexivity]. apply served_other; [|done].
    rewrite <- (take_drop_middle _ _ _ Hc'), fmap_app in Hnd. apply NoDup_app in Hnd as (_ & Hdis & _). intros Hin. apply (Hdis _ Hin). cbn. left.
  - destruct Hpre as (rest & Hd). assert (a_calls a = take (a_served a) (a_calls a) ++ group ++ rest) as Hcalls by (by rewrite <- Hd, take_drop). set (now := take (a_served a) (a_calls a)) in *.
    assert (length now = a_served a) as Hlen by (by apply length_take_le). assert (take (a_served a + length group) (a_calls a) = now ++ group) as Htake by (rewrite Hcalls, app_assoc, take_app_length'; [done|]; rewrite length_app; lia).
    assert (served (mark_results (a_results a) group s) first now (a_seq a) (entries a)) as Hnow. { apply served_mark; [|done]. intros c Hin Hin'. rewrite Hcalls, !fmap_app in Hnd. apply NoDup_app in Hnd as (_ & Hdis & _). apply (Hdis _ Hin'). apply elem_of_app. left. by apply list_elem_of_fmap_2. }
    assert (Forall (fun c : Call => mark_results (a_results a) group s !! c.1 = Some s) group) as Hall by (apply Forall_forall; intros c Hin; by apply mark_results_in). pose proof (zlen_nonneg ops) as Hn.
    split; cbn; try done.
    + rewrite Htake. destruct (decide (s = OK)) as [->|Hne]; unfold entries in *; cbn.
      * rewrite app_assoc. by apply served_group.
      * eapply served_refused; [done|done|done|lia|done].
    + rewrite Hcalls at 1. rewrite !length_app. lia.
    + destruct (decide (s = OK)) as [->|Hne].
      * rewrite Hlog, decide_True by done. intros o [Ho|Ho]%elem_of_app; [revert o Ho; apply (recorded_weaken (a_good a)); [set_solver|done]|]. exists (b, OK), (a_seq a + 1), ops. split; [set_solver|done].
      * destruct (decide (logged = OK)); [|done]. apply (recorded_weaken (a_good a)); [set_solver|done].
Qed.

Lemma spec_run_ok first a : rtc spec_step (init_spec first) a -> spec_ok first a.
Proof.
  intros Hr. remember (init_spec first) as a0 eqn:E0. assert (spec_ok first a0) as H0 by (subst; split; cbn; [constructor|lia|constructor|by intros o ?%elem_of_nil]). clear E0. induction Hr as [|a0 a1 a2 Hst _ IH]; [done|]. apply IH. by eapply spec_step_ok.
Qed.

(** ** The machine *)

(** What the background thread does to the database between two points where it has released the mutex. *)
Class Background (E F FH : Type) := { bg_step : DB E F FH -> DB E F FH -> Prop }.

(** It leaves to the writers what is theirs; the full memtable is dropped when it was saved. *)
Class BackgroundLaws (E F FH : Type) `{Background E F FH} : Prop := {
  bg_mem db db' : bg_step db db' -> d_mem db' = d_mem db /\ d_log db' = d_log db /\ d_tmp_batch db' = d_tmp_batch db;
  bg_flags db db' : bg_step db db' -> d_scheduled db' = d_scheduled db /\ d_shutting_down db' = d_shutting_down db;
  bg_imm db db' : bg_step db db' -> d_imm db' = d_imm db \/ d_imm db' = None;
  bg_versions db db' : bg_step db db' -> vs_ok (d_versions db) -> vs_ok (d_versions db') /\ vs_last_sequence (d_versions db') = vs_last_sequence (d_versions db);
}.

Section Run.
Context `{laws : ComparatorLaws} `{Crc32c} `{alaws : AllocatorLaws} {E F FH : Type} `{flaws : LogFileLaws F} `{dlaws : !LogDir E F} `{dirlaws : !LogDirLaws E F} `{blaws : BackgroundLaws E F FH}.
Context (dbname : bytes) (write_buffer_size : Z).
Abbreviation DB := (DB E F FH).
Abbreviation System := (System (E := E) (F := F) (FH := FH)).
Implicit Types (db : DB) (sys : System) (threads : gmap nat Thread).

(** [m_background]: the background thread is in [BackgroundCompaction]. *)
Record Machine := mkMachine { m_sys : System; m_background : bool }.

Definition batch_count (w : QueuedWriter) : Z := match qw_batch w with None => 0 | Some b => Count b end.

(** How many operations are in the queue. *)
Definition queue_count sys : Z := foldr (fun t n => match s_threads sys !! t with Some th => batch_count (t_writer th) + n | None => n end) 0 (s_queue sys).

(** The last file number is kept free: beyond it the numbers wrap around. *)
Definition numbers_left sys : Prop := vs_next_file_number (d_versions (s_db sys)) + 1 < 2 ^ 64.

Inductive db_step : Machine -> Machine -> Prop :=
  | step_call sys bg t updates ops sync : s_threads sys !! t = None -> holds updates ops ->
      vs_last_sequence (d_versions (s_db sys)) + queue_count sys + zlen (default [] ops) < 2 ^ 56 ->
      db_step (mkMachine sys bg) (mkMachine (call sys t updates sync) bg)
  | step_thread sys bg t sys' : numbers_left sys -> thread_step dbname write_buffer_size sys t = Ret (Some sys') ->
      db_step (mkMachine sys bg) (mkMachine sys' bg)
  | step_begin sys : BackgroundCall_begin (s_db sys) = Ret true -> db_step (mkMachine sys false) (mkMachine sys true)
  | step_skip sys db : BackgroundCall_begin (s_db sys) = Ret false -> BackgroundCall_end (s_db sys) = Ret db ->
      db_step (mkMachine sys false) (mkMachine (with_db sys db) false)
  | step_work sys db : bg_step (s_db sys) db -> db_step (mkMachine sys true) (mkMachine (with_db sys db) true)
  | step_end sys db : BackgroundCall_end (s_db sys) = Ret db -> db_step (mkMachine sys true) (mkMachine (with_db sys db) false)
  | step_manual sys bg db : request_manual (s_db sys) = Ret db -> db_step (mkMachine sys bg) (mkMachine (with_db sys db) bg)
  | step_close sys bg : db_step (mkMachine sys bg) (mkMachine (with_db sys (start_closing (s_db sys))) bg).

(** A database that was just opened: no memtable to save, nothing written to the log, no writers. *)
Record opened db : Prop := mkOpened {
  op_vs : vs_ok (d_versions db);
  op_mem : d_mem db = Ref new_MemTable;
  op_imm : d_imm db = None;
  op_log : exists f, d_log db = new_Writer f /\ contents f = [];
  op_tmp : d_tmp_batch db = new_WriteBatch;
  op_seq : 0 <= vs_last_sequence (d_versions db) < 2 ^ 56;
  op_awake : awake db;
}.

Definition start db : Machine := mkMachine (mkSystem db [] ∅) false.

(** *** Calls *)

Lemma queue_count_at sys a past waiting : sys_at sys a past waiting -> queue_count sys = zlen (group_ops waiting).
Proof.
  intros [Hc Hq Hnd Hdom Hp Hr Hf Hdb Hroom]. unfold queue_count. rewrite Hq.
  assert (Forall (fun c : Call => exists th, s_threads sys !! c.1 = Some th /\ holds (qw_batch (t_writer th)) c.2) waiting) as Hall.
  { destruct waiting as [|c rest]; [constructor|]. constructor; [destruct Hf as (w & p & ? & _ & ? & _); by eexists|]. eapply Forall_impl; [exact Hr|]. intros c' (w & ? & _ & ?). by eexists. }
  clear -Hall. induction Hall as [|c rest (th & Hth & Hh) _ IH]; [done|]. cbn [fmap list_fmap foldr]. rewrite Hth, IH, group_ops_cons, zlen_app. f_equal. unfold batch_count. destruct (qw_batch (t_writer th)) as [b|], (c.2) as [ops|]; try done. destruct Hh as ((_ & Hn & _) & seq & Hb). by rewrite (Count_is _ _ _ Hb).
Qed.

Lemma front_phase_more db a past c rest rest' p : front_phase db a past c rest p -> front_phase db a past c (rest ++ rest') p.
Proof. destruct p; cbn [front_phase]; try done; intros (k & Hk & Hrest); exists k; (rewrite take_app_le, length_app by done); (split; [lia|done]). Qed.

Lemma call_at sys a past waiting t updates ops sync : sys_at sys a past waiting -> s_threads sys !! t = None -> holds updates ops ->
  vs_last_sequence (d_versions (s_db sys)) + queue_count sys + zlen (default [] ops) < 2 ^ 56 ->
  exists a', spec_step a a' /\ sys_at (call sys t updates sync) a' past (waiting ++ [(t, ops)]).
Proof.
  intros Hat Ht Hh Hroom'. rewrite (queue_count_at _ _ _ _ Hat) in Hroom'. destruct Hat as [Hc Hq Hnd Hdom Hp Hr Hf Hdb Hroom].
  assert (t ∉ fst <$> a_calls a) as Hfresh.
  { rewrite Hc, fmap_app, not_elem_of_app, !list_elem_of_fmap. split; intros (c & -> & Hin).
    - rewrite Forall_forall in Hp. destruct (Hp c Hin) as (w & p & Hl & _). by rewrite Ht in Hl.
    - destruct waiting as [|c0 rest]; [by apply elem_of_nil in Hin|]. apply elem_of_cons in Hin as [->|Hin]; [destruct Hf as (w & p & Hl & _); by rewrite Ht in Hl|]. rewrite Forall_forall in Hr. destruct (Hr c Hin) as (w & Hl & _). by rewrite Ht in Hl. }
  assert ((t ∉ (fst <$> past)) /\ t ∉ (fst <$> waiting)) as [Hfp Hfw] by (by rewrite Hc, fmap_app, not_elem_of_app in Hfresh).
  eexists. split; [by apply (spec_call a t ops)|]. split; cbn [call s_db s_queue s_threads a_calls a_results].
  - by rewrite Hc, app_assoc.
  - by rewrite Hq, fmap_app.
  - rewrite fmap_app. apply NoDup_app. split; [done|]. split; [set_solver|]. apply NoDup_singleton.
  - apply dom_insert; [apply (list_elem_of_fmap_2 fst _ (t, ops)); set_solver|]. intros t' Ht'. rewrite fmap_app. apply elem_of_app. left. by apply Hdom.
  - by apply left_queue_others.
  - assert (in_queue (<[t := mkThread (new_QueuedWriter updates sync) Waiting]> (s_threads sys)) (t, ops)) as Hnew by (eexists; split; [by rewrite lookup_insert_eq|done]). destruct waiting as [|c rest]; [constructor|]. cbn [app tail]. apply Forall_app. split; [|by constructor]. apply in_queue_others; [|done]. by apply not_elem_of_cons in Hfw as [_ ?].
  - destruct waiting as [|c rest]; cbn [app]. { eexists _, Waiting. split; [by rewrite lookup_insert_eq|done]. }
    destruct Hf as (w & p & Hl & Hd & Hb & Hph). exists w, p. split; [rewrite lookup_insert_ne; [done|]; intros ->; by apply not_elem_of_cons in Hfw as [? _]|]. split; [done|]. split; [done|]. by apply front_phase_more.
  - by destruct Hdb.
  - rewrite group_ops_app, zlen_app. unfold group_ops at 2. cbn. rewrite app_nil_r. lia.
Qed.

(** *** Every step keeps the relation *)

Definition reached (first : Z) (m : Machine) : Prop := (m_background m = false -> awake (s_db (m_sys m))) /\ exists a, rtc spec_step (init_spec first) a /\ refines (m_sys m) a.

Lemma db_ok_same db db' a : db_ok db a -> d_mem db' = d_mem db -> d_log db' = d_log db -> (d_imm db' = d_imm db \/ d_imm db' = None) -> vs_ok (d_versions db') -> vs_last_sequence (d_versions db') = vs_last_sequence (d_versions db) -> db_ok db' a.
Proof.
  intros [Hvs Hmem Hsz Himm Hseqs Hseq Hlog] Hm Hl Hi Hv Hs. split; rewrite ?Hm, ?Hl, ?Hs; try done. intros m Hm'. destruct Hi as [Hi|Hi]; rewrite Hi in Hm'; [by apply Himm|done].
Qed.

(** The database is changed, but not for the writers. *)
Lemma reached_with_db first sys bg db' bg' : reached first (mkMachine sys bg) -> d_mem db' = d_mem (s_db sys) -> d_log db' = d_log (s_db sys) -> d_tmp_batch db' = d_tmp_batch (s_db sys) -> (d_imm db' = d_imm (s_db sys) \/ d_imm db' = None) ->
  (vs_ok (d_versions (s_db sys)) -> vs_ok (d_versions db') /\ vs_last_sequence (d_versions db') = vs_last_sequence (d_versions (s_db sys))) -> (bg' = false -> awake db') -> reached first (mkMachine (with_db sys db') bg').
Proof.
  intros (_ & a & Hr & past & waiting & Hat) Hm Hl Ht Hi Hv Haw. split; [done|]. exists a. split; [done|]. exists past, waiting. pose proof (sa_db _ _ _ _ Hat) as Hdb. destruct (Hv (do_vs _ _ Hdb)) as [Hv' Hs]. apply with_db_at; [done..|]. by eapply db_ok_same.
Qed.

Lemma reached_vs first sys bg : reached first (mkMachine sys bg) -> vs_ok (d_versions (s_db sys)).
Proof. intros (_ & a & _ & past & waiting & Hat). by apply (do_vs _ _ (sa_db _ _ _ _ Hat)). Qed.

Lemma scheduled_with_db first sys bg bg' db0 db' : reached first (mkMachine sys bg) -> MaybeScheduleCompaction db0 = Ret db' -> d_mem db0 = d_mem (s_db sys) -> d_log db0 = d_log (s_db sys) -> d_tmp_batch db0 = d_tmp_batch (s_db sys) -> d_imm db0 = d_imm (s_db sys) -> d_versions db0 = d_versions (s_db sys) ->
  reached first (mkMachine (with_db sys db') bg') /\ awake db'.
Proof.
  intros Hre Hms Hm Hl Ht Hi Hv. destruct (MaybeScheduleCompaction_spec db0) as (b & He & Haw); [rewrite Hv; by eapply reached_vs|]. rewrite Hms in He. injection He as ->. split; [|done]. eapply reached_with_db; [exact Hre|exact Hm|exact Hl|exact Ht|left; exact Hi|cbn; by rewrite Hv|intros _; exact Haw].
Qed.

Lemma step_reached first m m' : db_step m m' -> reached first m -> reached first m'.
Proof.
  intros Hst Hre. pose proof Hre as (Haw & a & Hr & past & waiting & Hat). destruct Hst as [sys bg t updates ops sync Ht Hh Hroom|sys bg t sys' Hnl Hst|sys Hb|sys db Hb Hend|sys db Hb|sys db Hend|sys bg db Hm|sys bg]; cbn [m_sys m_background] in *.
  - destruct (call_at _ _ _ _ t updates ops sync Hat Ht Hh Hroom) as (a' & Hs & Hat'). split; [done|]. exists a'. split; [by eapply rtc_r|]. by eexists _, _.
  - destruct (thread_step_spec dbname write_buffer_size sys a t ltac:(by eexists _, _) Hnl) as (r & Hret & Hall). rewrite Hst in Hret. injection Hret as <-. destruct (Hall sys' eq_refl) as (Haw' & a' & Hs & Href). split; [auto|]. exists a'. split; [by etrans|done].
  - split; [done|]. exists a. split; [done|]. by eexists _, _.
  - by eapply scheduled_with_db.
  - destruct (bg_mem _ _ Hb) as (Hm & Hl & Ht). eapply reached_with_db; [exact Hre|exact Hm|exact Hl|exact Ht|by apply bg_imm|by apply bg_versions|done].
  - by eapply scheduled_with_db.
  - by eapply scheduled_with_db.
  - eapply reached_with_db; [exact Hre|done|done|done|by left|done|]. intros _ _. right. by left.
Qed.

Lemma start_reached db : opened db -> reached (vs_last_sequence (d_versions db)) (start db).
Proof.
  intros [Hvs Hmem Himm (f & Hlog & Hf) Htmp Hseq Haw]. split; [done|]. eexists. split; [done|]. exists [], []. split; cbn; try done.
  - constructor.
  - intros t [x Hx]. by rewrite lookup_empty in Hx.
  - split; cbn; try done.
    + rewrite Hmem. apply MRepr_new.
    + rewrite Hmem. exact sized_new.
    + by rewrite Himm.
    + by intros o ?%elem_of_nil.
    + lia.
    + rewrite Hlog. by apply log_inv_new.
  - change (zlen (@nil batch_op)) with 0. lia.
Qed.

Lemma run_reached db m : opened db -> rtc db_step (start db) m -> reached (vs_last_sequence (d_versions db)) m.
Proof.
  intros Ho Hr. pose proof (start_reached db Ho) as H0'. revert H0'. generalize (vs_last_sequence (d_versions db)) as first. intros first. induction Hr as [|m0 m1 m2 Hst _ IH]; [done|]. intros Hre. apply IH. by eapply step_reached.
Qed.
(** *** What can be seen *)

(** The threads and the database show what the specification says. *)
Record shows sys (a : Spec) : Prop := mkShows {
  sh_calls t : is_Some (s_threads sys !! t) <-> t ∈ (fst <$> a_calls a);
  sh_returned t w s : s_threads sys !! t = Some (mkThread w (Returned s)) -> exists i c, (i < a_served a)%nat /\ a_calls a !! i = Some c /\ c.1 = t /\ a_results a !! t = Some s;
  sh_mem : MRepr (d_mem (s_db sys)) (a_mem a);
  sh_imm m : d_imm (s_db sys) = Some m -> exists es, list.last (a_sealed a) = Some es /\ MRepr m es;
  sh_log : log_inv (d_log (s_db sys)) (a_good a) (a_bad a);
}.

Lemma refines_shows sys a : refines sys a -> shows sys a.
Proof.
  intros (past & waiting & [Hc Hq Hnd Hdom Hp Hr Hf Hdb Hroom]). destruct Hdb as [Hvs Hmem Hsz Himm Hseqs Hseq Hlog].
  assert (forall c w p, c ∈ waiting -> s_threads sys !! c.1 = Some (mkThread w p) -> forall s, p ≠ Returned s) as Hnr.
  { intros c w p Hin Hl s ->. destruct waiting as [|c0 rest]; [by apply elem_of_nil in Hin|]. apply elem_of_cons in Hin as [->|Hin]; [destruct Hf as (w' & p & Hl' & _ & _ & Hph); rewrite Hl in Hl'; by injection Hl' as <- <-|]. rewrite Forall_forall in Hr. destruct (Hr c Hin) as (w' & Hl' & _). by rewrite Hl in Hl'. }
  split; try done.
  - intros t. split; [apply Hdom|]. rewrite Hc, list_elem_of_fmap. intros (c & -> & [Hin|Hin]%elem_of_app); [rewrite Forall_forall in Hp; destruct (Hp c Hin) as (w & p & -> & _); done|]. destruct waiting as [|c0 rest]; [by apply elem_of_nil in Hin|]. apply elem_of_cons in Hin as [->|Hin]; [by destruct Hf as (w & p & -> & _)|]. rewrite Forall_forall in Hr. by destruct (Hr c Hin) as (w & -> & _).
  - intros t w s Ht. assert (t ∈ (fst <$> a_calls a)) as Hin by (apply Hdom; by rewrite Ht). apply list_elem_of_fmap in Hin as (c & -> & Hin). rewrite Hc in Hin. apply elem_of_app in Hin as [Hin|Hin]; [|by destruct (Hnr c w (Returned s) Hin Ht s)].
    pose proof Hin as (i & Hi)%list_elem_of_lookup. pose proof (lookup_lt_Some _ _ _ Hi) as Hlt. exists i, c. rewrite Forall_forall in Hp. destruct (Hp c Hin) as (w' & p & Hl & Hcase). rewrite Ht in Hl. injection Hl as <- <-. destruct Hcase as [(? & _)|(s' & [= <-] & Hres)]; [done|].
    split; [|by rewrite Hc, lookup_app_l]. assert (length past <= a_served a)%nat; [|lia]. destruct waiting as [|c0 rest]; [by destruct Hf as (<- & _)|]. destruct Hf as (w0 & p0 & _ & _ & _ & Hph). destruct p0; cbn [front_phase] in Hph; [by destruct Hph as (<- & _)..| | |done]; destruct Hph as (k & _ & _ & Hs & _); lia.
Qed.

(** *** Progress *)

(** The writer at the front has to wait for the background thread. *)
Definition blocked db : Prop := d_imm db ≠ None \/ exists n, NumLevelFiles (d_versions db) 0 = Ret n /\ config.kL0_StopWritesTrigger <= n.

(** The background thread gets on with its work: [debt] measures what is left of it. *)
Class BackgroundWorks (debt : option MemTable -> VersionSet FH -> nat) : Prop := {
  bg_works db : vs_ok (d_versions db) -> d_bg_error db = OK -> d_shutting_down db = false -> blocked db ->
    exists db', rtc bg_step db db' /\ (d_bg_error db' ≠ OK \/ (debt (d_imm db') (d_versions db') < debt (d_imm db) (d_versions db))%nat);
}.

(** From [m] the machine can get where [P] holds, unless file numbers run out. *)
Definition leads (m : Machine) (P : Machine -> Prop) : Prop := exists m', rtc db_step m m' /\ (P m' \/ ~ numbers_left (m_sys m')).

Lemma leads_now m (P : Machine -> Prop) : P m -> leads m P.
Proof. intros Hp. exists m. split; [done|by left]. Qed.

Lemma leads_step m m' P : db_step m m' -> leads m' P -> leads m P.
Proof. intros Hs (m2 & Hr & Hp). exists m2. split; [by eapply rtc_l|done]. Qed.

Lemma leads_steps m m' P : rtc db_step m m' -> leads m' P -> leads m P.
Proof. intros Hs (m2 & Hr & Hp). exists m2. split; [by etrans|done]. Qed.

(** Threads neither close the database nor make a thread disappear. *)
Lemma schedule_keeps db db' : MaybeScheduleCompaction db = Ret db' -> d_shutting_down db' = d_shutting_down db.
Proof.
  unfold MaybeScheduleCompaction. destruct (d_scheduled db), (d_shutting_down db) eqn:Es, (negb (ok (d_bg_error db))); try (intros [= <-]; done). match goal with |- context [obind ?x _] => destruct x as [work| |] end; [|done..]. cbn [obind]. destruct work; by intros [= <-].
Qed.

Lemma make_room_keeps db f d db' r : make_room dbname write_buffer_size db f d = Ret (db', r) -> d_shutting_down db' = d_shutting_down db.
Proof.
  unfold make_room. destruct (negb (ok (d_bg_error db))); [by intros [= <- _]|]. destruct (NumLevelFiles _ _) as [n| |]; [|done..]. cbn [obind]. destruct (d && _); [by intros [= <- _]|]. destruct (ApproximateMemoryUsage _) as [u| |]; [|done..]. cbn [obind]. destruct (negb f && _); [by intros [= <- _]|]. case_bool_decide; [by intros [= <- _]|]. destruct (_ <=? n); [by intros [= <- _]|].
  destruct (_ =? 0); [|done]. cbn [oassert obind]. destruct (NewFileNumber _) as [vs num]. destruct (LogFileName _ _) as [fn| |]; [|done..]. cbn [obind]. destruct (new_log_file _ _) as [[env s] lfile]. destruct (negb (ok s)); [by intros [= <- _]|]. destruct lfile; [|done]. unfold switch_memtable. destruct (MaybeScheduleCompaction _) as [db1| |] eqn:Em; [|done..]. cbn [obind]. intros [= <- _]. by rewrite (schedule_keeps _ _ Em).
Qed.

Lemma pop_writers_keeps self lw s queue : forall threads q threads', pop_writers queue threads self lw s = Ret (q, threads') -> (length q < length queue)%nat /\ forall t, is_Some (threads !! t) -> is_Some (threads' !! t).
Proof.
  induction queue as [|x queue IH]; intros threads q threads'; [done|]. cbn [pop_writers length]. set (threads1 := if decide (x = self) then threads else mark_done threads x s).
  assert (forall t, is_Some (threads !! t) -> is_Some (threads1 !! t)) as H1'. { intros t. unfold threads1, mark_done. destruct (decide (x = self)); [done|]. by rewrite lookup_alter_is_Some. }
  destruct (decide (x = lw)); [intros [= <- <-]; split; [lia|done]|]. intros [Hl Hs]%IH. split; [lia|auto].
Qed.

Lemma finish_keeps sys t w lw s sys' : finish_write sys t w lw s = Ret sys' -> s_db sys' = s_db sys /\ (length (s_queue sys') < length (s_queue sys))%nat /\ (forall t', is_Some (s_threads sys !! t') -> is_Some (s_threads sys' !! t')).
Proof.
  unfold finish_write. destruct (pop_writers _ _ _ _ _) as [[q threads]| |] eqn:Ep; [|done..]. cbn [obind]. intros [= <-]. destruct (pop_writers_keeps _ _ _ _ _ _ _ Ep) as [Hl Hs]. cbn. split; [done|]. split; [done|]. intros t' Ht'. rewrite lookup_insert_is_Some'. right. by apply Hs.
Qed.

(** What [begin_write] leads to. *)
Lemma begin_write_cases sys t w s sys' : begin_write sys t w s = Ret sys' ->
  d_shutting_down (s_db sys') = d_shutting_down (s_db sys) /\ (forall t', is_Some (s_threads sys !! t') -> is_Some (s_threads sys' !! t')) /\
  ((length (s_queue sys') < length (s_queue sys))%nat \/ s_queue sys' = s_queue sys /\ exists w' u own lw ls, s_threads sys' !! t = Some (mkThread w' (Logging u own lw ls))).
Proof.
  unfold begin_write. destruct (ok s && _). 2:{ intros (-> & Hl & Hs)%finish_keeps. split; [done|]. split; [done|]. by left. }
  destruct (queued _ _) as [ws| |]; [|done..]. cbn [obind]. destruct (BuildBatchGroup _ _) as [[[[u own] tmp] lw]| |]; [|done..]. cbn [obind]. intros [= <-]. cbn. split; [done|]. split; [intros t' Ht'; rewrite lookup_insert_is_Some'; by right|]. right. split; [done|]. eexists _, _, _, _, _. by rewrite lookup_insert_eq.
Qed.

Lemma log_and_insert_keeps db u sync db' s se : log_and_insert db u sync = Ret (db', s, se) -> d_shutting_down db' = d_shutting_down db.
Proof.
  unfold log_and_insert. destruct (AddRecord _ _) as [[log s1]| |]; [|done..]. cbn [obind]. match goal with |- context [if ok s1 && sync then ?x else ?y] => destruct (if ok s1 && sync then x else y) as [[log' s'] se'] end. match goal with |- context [obind ?x _] => destruct x as [[mem s2]| |] end; [|done..]. cbn [obind]. by intros [= <- _ _].
Qed.

Lemma set_phase_keeps sys t w p t' : is_Some (s_threads sys !! t') -> is_Some (s_threads (set_phase sys t w p) !! t').
Proof. intros Ht'. cbn. rewrite lookup_insert_is_Some'. by right. Qed.

Lemma thread_step_keeps sys t sys' : thread_step dbname write_buffer_size sys t = Ret (Some sys') ->
  d_shutting_down (s_db sys') = d_shutting_down (s_db sys) /\ forall t', is_Some (s_threads sys !! t') -> is_Some (s_threads sys' !! t').
Proof.
  unfold thread_step. destruct (s_threads sys !! t) as [[w p]|]; [|done]. destruct p as [|f d|u own lw ls|s se own lw ls|s].
  - destruct (qw_done w); [intros [= <-]; split; [done|]; intros; by apply set_phase_keeps|]. case_bool_decide; [|done]. intros [= <-]. split; [done|]. intros. by apply set_phase_keeps.
  - destruct (make_room _ _ _ _ _) as [[db r]| |] eqn:Em; [|done..]. cbn [obind]. apply make_room_keeps in Em. destruct r as [s| | |]; [|intros [= <-]; (split; [done|]); intros; by apply (set_phase_keeps (with_db sys db))|done|intros [= <-]; (split; [done|]); intros; by apply (set_phase_keeps (with_db sys db))].
    destruct (begin_write _ _ _ _) as [sys1| |] eqn:Eb; [|done..]. cbn [obind]. intros [= <-]. destruct (begin_write_cases _ _ _ _ _ Eb) as (Hs & Ht & _). split; [by rewrite Hs|done].
  - destruct (log_and_insert _ _ _) as [[[db s] se]| |] eqn:El; [|done..]. cbn [obind]. intros [= <-]. split; [by eapply log_and_insert_keeps|]. intros. by apply (set_phase_keeps (with_db sys db)).
  - destruct (SetLastSequenceNumber _ _) as [vs| |]; [|done..]. cbn [obind]. destruct (finish_write _ _ _ _ _) as [sys1| |] eqn:Ef; [|done..]. cbn [obind]. intros [= <-]. destruct (finish_keeps _ _ _ _ _ _ Ef) as (-> & _ & Ht). split; [|done]. cbn. unfold db_record_error. by destruct own, se, (ok (d_bg_error (s_db sys))).
  - done.
Qed.

(** *** The front of the queue leaves *)

Section Progress.
Context (debt : option MemTable -> VersionSet FH -> nat) `{works : !BackgroundWorks debt}.
Context (roomy : exists u, ApproximateMemoryUsage new_MemTable = Ret u /\ u <= write_buffer_size).
Context (first : Z) (t0 : nat).

(** The database is open, and [t0] has called [Write]. *)
Definition live (m : Machine) : Prop := reached first m /\ d_shutting_down (s_db (m_sys m)) = false /\ is_Some (s_threads (m_sys m) !! t0).

Definition shorter (n : nat) (m : Machine) : Prop := live m /\ (length (s_queue (m_sys m)) < n)%nat.

Lemma leads_thread sys bg t P : live (mkMachine sys bg) ->
  (forall r, numbers_left sys -> thread_step dbname write_buffer_size sys t = Ret r -> exists sys', r = Some sys' /\ (live (mkMachine sys' bg) -> leads (mkMachine sys' bg) P)) -> leads (mkMachine sys bg) P.
Proof.
  intros (Hre & Hsd & Ht0) Hall. pose proof Hre as (_ & a & _ & Href). destruct (decide (numbers_left sys)) as [Hn|Hn]; [|exists (mkMachine sys bg); split; [done|by right]].
  destruct (thread_step_spec dbname write_buffer_size sys a t Href Hn) as (r & Hr & _). destruct (Hall r Hn Hr) as (sys' & -> & Hl). pose proof (step_thread sys bg t sys' Hn Hr) as Hst. eapply leads_step; [exact Hst|]. apply Hl. destruct (thread_step_keeps _ _ _ Hr) as [Hs' Ht']. split; [by eapply step_reached|]. cbn in *. split; [by rewrite Hs'|by apply Ht'].
Qed.

Lemma progress_logged sys bg t w s se own lw ls : live (mkMachine sys bg) -> s_threads sys !! t = Some (mkThread w (Logged s se own lw ls)) -> leads (mkMachine sys bg) (shorter (length (s_queue sys))).
Proof.
  intros Hlive Ht. apply (leads_thread sys bg t); [done|]. intros r _. unfold thread_step. rewrite Ht. destruct (SetLastSequenceNumber _ _) as [vs| |]; [|done..]. cbn [obind]. destruct (finish_write _ _ _ _ _) as [sys1| |] eqn:Ef; [|done..]. cbn [obind]. intros [= <-]. exists sys1. split; [done|]. intros Hl. apply leads_now. split; [done|]. by apply finish_keeps in Ef as (_ & ? & _).
Qed.

Lemma progress_logging sys bg t w u own lw ls : live (mkMachine sys bg) -> s_threads sys !! t = Some (mkThread w (Logging u own lw ls)) -> leads (mkMachine sys bg) (shorter (length (s_queue sys))).
Proof.
  intros Hlive Ht. apply (leads_thread sys bg t); [done|]. intros r _. unfold thread_step. rewrite Ht. destruct (log_and_insert _ _ _) as [[[db s] se]| |]; [|done..]. cbn [obind]. intros [= <-]. eexists. split; [done|]. intros Hl. pose proof (progress_logged _ bg t w s se own lw ls Hl) as Hp. apply Hp. cbn. by rewrite lookup_insert_eq.
Qed.

(** There is room. *)
Lemma progress_done sys bg t w f d db s : live (mkMachine sys bg) -> s_threads sys !! t = Some (mkThread w (MakingRoom f d)) -> make_room dbname write_buffer_size (s_db sys) f d = Ret (db, RoomDone s) -> leads (mkMachine sys bg) (shorter (length (s_queue sys))).
Proof.
  intros Hlive Ht Hm. apply (leads_thread sys bg t); [done|]. intros r _. unfold thread_step. rewrite Ht, Hm. cbn [obind]. destruct (begin_write _ _ _ _) as [sys1| |] eqn:Eb; [|done..]. cbn [obind]. intros [= <-]. exists sys1. split; [done|]. intros Hl. apply begin_write_cases in Eb as (_ & _ & [Hq|(Hq & w' & u & own & lw & ls & Hw')]); [by apply leads_now|]. cbn in Hq. rewrite <- Hq. by eapply progress_logging.
Qed.

Lemma progress_error sys bg t w f d : live (mkMachine sys bg) -> s_threads sys !! t = Some (mkThread w (MakingRoom f d)) -> d_bg_error (s_db sys) ≠ OK -> leads (mkMachine sys bg) (shorter (length (s_queue sys))).
Proof.
  intros Hlive Ht He. eapply progress_done; [done|done|]. unfold make_room. destruct (ok (d_bg_error (s_db sys))) eqn:Eo; [by apply ok_spec in Eo|done].
Qed.

(** The delay is over: another round. *)
Lemma progress_delay sys bg t w f d db : live (mkMachine sys bg) -> s_threads sys !! t = Some (mkThread w (MakingRoom f d)) -> make_room dbname write_buffer_size (s_db sys) f d = Ret (db, RoomDelay) ->
  (forall sys', s_db sys' = db -> s_queue sys' = s_queue sys -> s_threads sys' !! t = Some (mkThread w (MakingRoom f false)) -> live (mkMachine sys' bg) -> leads (mkMachine sys' bg) (shorter (length (s_queue sys)))) ->
  leads (mkMachine sys bg) (shorter (length (s_queue sys))).
Proof.
  intros Hlive Ht Hm Hall. apply (leads_thread sys bg t); [done|]. intros r _. unfold thread_step. rewrite Ht, Hm. cbn [obind]. intros [= <-]. eexists. split; [done|]. intros Hl. apply Hall; [done..| |done]. cbn. by rewrite lookup_insert_eq.
Qed.

(** An empty memtable has room. *)
Lemma make_room_fresh db d : vs_ok (d_versions db) -> d_mem db = Ref new_MemTable -> exists r, make_room dbname write_buffer_size db false d = Ret (db, r) /\ ((exists s, r = RoomDone s) \/ d = true /\ r = RoomDelay).
Proof.
  intros ((n & Hn) & _) Hm. unfold make_room. destruct (ok (d_bg_error db)); cbn [negb]; [|eexists; split; [done|]; left; by eexists]. rewrite Hn. cbn [obind]. destruct d; cbn [andb].
  - destruct (_ <=? n); [eexists; split; [done|]; by right|]. destruct roomy as (u & Hu & Hle). rewrite Hm. change (ApproximateMemoryUsage (Ref new_MemTable)) with (ApproximateMemoryUsage new_MemTable). rewrite Hu. cbn [obind]. destruct (Z.leb_spec u write_buffer_size); [|lia]. eexists. split; [done|]. left. by eexists.
  - destruct roomy as (u & Hu & Hle). rewrite Hm. change (ApproximateMemoryUsage (Ref new_MemTable)) with (ApproximateMemoryUsage new_MemTable). rewrite Hu. cbn [obind]. destruct (Z.leb_spec u write_buffer_size); [|lia]. eexists. split; [done|]. left. by eexists.
Qed.

Lemma progress_fresh sys bg t w d : live (mkMachine sys bg) -> s_threads sys !! t = Some (mkThread w (MakingRoom false d)) -> d_mem (s_db sys) = Ref new_MemTable -> leads (mkMachine sys bg) (shorter (length (s_queue sys))).
Proof.
  intros Hlive Ht Hm. destruct (make_room_fresh (s_db sys) d (reached_vs _ _ _ (proj1 Hlive)) Hm) as (r & Hr & [(s & ->)|[-> ->]]); [by eapply progress_done|]. eapply progress_delay; [done|done|exact Hr|]. intros sys' Hdb Hq Ht' Hl. rewrite <- Hq. rewrite <- Hdb in Hm.
  destruct (make_room_fresh (s_db sys') false (reached_vs _ _ _ (proj1 Hl)) Hm) as (r & Hr' & [(s & ->)|[? _]]); [by eapply progress_done|done].
Qed.

(** *** The background thread makes room *)

Lemma blocked_work db : vs_ok (d_versions db) -> blocked db -> has_work db.
Proof. intros (_ & _ & _ & _ & Hfull) [Hi|(n & Hn & Hle)]; [by left|]. right. right. by eapply Hfull. Qed.

Lemma end_returns db : vs_ok (d_versions db) -> exists b, BackgroundCall_end db = Ret (set_db_scheduled db b) /\ awake (set_db_scheduled db b).
Proof. intros Hv. destruct (MaybeScheduleCompaction_spec (set_db_scheduled db false) Hv) as (b & Hb & Haw). exists b. done. Qed.

Lemma work_steps sys db db' : rtc bg_step db db' -> rtc db_step (mkMachine (with_db sys db) true) (mkMachine (with_db sys db') true) /\ d_shutting_down db' = d_shutting_down db.
Proof.
  induction 1 as [db|db db1 db2 Hst _ [IH Hs]]; [done|]. split; [|rewrite Hs; by apply bg_flags]. eapply rtc_l; [|exact IH]. apply (step_work (with_db sys db) db1). exact Hst.
Qed.

Lemma steps_live m m' : rtc db_step m m' -> live m -> d_shutting_down (s_db (m_sys m')) = false -> is_Some (s_threads (m_sys m') !! t0) -> live m'.
Proof.
  intros Hr (Hre & _ & _) Hs Ht. split; [|done]. induction Hr as [|m0 m1 m2 Hst _ IH]; [done|]. apply IH; [by eapply step_reached|done|done].
Qed.

(** A call of [BackgroundCall], when it is scheduled. *)
Lemma background_round sys : live (mkMachine sys false) -> d_scheduled (s_db sys) = true -> d_bg_error (s_db sys) = OK -> blocked (s_db sys) ->
  exists db, rtc db_step (mkMachine sys false) (mkMachine (with_db sys db) false) /\ live (mkMachine (with_db sys db) false) /\
    (d_bg_error db ≠ OK \/ (debt (d_imm db) (d_versions db) < debt (d_imm (s_db sys)) (d_versions (s_db sys)))%nat).
Proof.
  intros Hlive Hsch He Hb. pose proof Hlive as (Hre & Hsd & Ht0). cbn in Hsd, Ht0. destruct (bg_works (s_db sys) (reached_vs _ _ _ Hre) He Hsd Hb) as (db & Hwork & Hdone). destruct (work_steps sys _ _ Hwork) as [Hsteps Hsd'].
  assert (with_db sys (s_db sys) = sys) as Hid by (by destruct sys). rewrite Hid in Hsteps. assert (rtc db_step (mkMachine sys false) (mkMachine (with_db sys db) true)) as Hrun. { eapply rtc_l; [apply step_begin|exact Hsteps]. unfold BackgroundCall_begin. by rewrite Hsch, Hsd, He. }
  assert (live (mkMachine (with_db sys db) true)) as Hl2 by (eapply steps_live; [exact Hrun|done|by cbn; rewrite Hsd'|done]). destruct (end_returns db (reached_vs _ _ _ (proj1 Hl2))) as (b & Hend & _).
  assert (rtc db_step (mkMachine sys false) (mkMachine (with_db sys (set_db_scheduled db b)) false)) as Hrun2 by (eapply rtc_r; [exact Hrun|]; by apply (step_end (with_db sys db))).
  exists (set_db_scheduled db b). split; [done|]. split; [|done]. eapply steps_live; [exact Hrun2|done|by cbn; rewrite Hsd'|done].
Qed.

Lemma background_makes_room sys bg : live (mkMachine sys bg) -> d_bg_error (s_db sys) = OK -> blocked (s_db sys) ->
  exists db, rtc db_step (mkMachine sys bg) (mkMachine (with_db sys db) false) /\ live (mkMachine (with_db sys db) false) /\
    (d_bg_error db ≠ OK \/ (debt (d_imm db) (d_versions db) < debt (d_imm (s_db sys)) (d_versions (s_db sys)))%nat).
Proof.
  intros Hlive He Hb. pose proof Hlive as (Hre & Hsd & Ht0). cbn in Hsd, Ht0. pose proof (reached_vs _ _ _ Hre) as Hvs. pose proof (blocked_work _ Hvs Hb) as Hw.
  assert (forall db, awake db -> has_work db -> d_shutting_down db = false -> d_bg_error db = OK -> d_scheduled db = true) as Hsch by (intros db Haw Hh Hs Ho; destruct (Haw Hh) as [?|[?|?]]; congruence).
  destruct bg; [|apply background_round; [done| |done|done]; apply Hsch; [by apply Hre|done..]]. destruct (end_returns (s_db sys) Hvs) as (b & Hend & Haw). pose proof (step_end sys _ Hend) as Hst.
  assert (live (mkMachine (with_db sys (set_db_scheduled (s_db sys) b)) false)) as Hl2 by (eapply steps_live; [by apply rtc_once|done|done|done]). destruct (background_round _ Hl2) as (db & Hrun & Hl3 & Hd); [apply Hsch; done|done|done|]. exists db. split; [by eapply rtc_l|done].
Qed.

Lemma make_room_no_delay db f db' : make_room dbname write_buffer_size db f false = Ret (db', RoomDelay) -> False.
Proof.
  unfold make_room. destruct (negb (ok (d_bg_error db))); [done|]. destruct (NumLevelFiles _ _) as [n| |]; [|done..]. cbn [obind andb]. destruct (ApproximateMemoryUsage (d_mem db)) as [u| |]; [|done..]. cbn [obind]. destruct (negb f && _); [done|]. case_bool_decide; [done|]. destruct (_ <=? n); [done|].
  destruct (_ =? 0); [|done]. cbn [oassert obind]. destruct (NewFileNumber _) as [vs num]. destruct (LogFileName _ _) as [fn| |]; [|done..]. cbn [obind]. destruct (new_log_file _ _) as [[env s] lfile]. destruct (negb (ok s)); [done|]. destruct lfile; [|done]. unfold switch_memtable. by destruct (MaybeScheduleCompaction _).
Qed.

Lemma progress_room (n : nat) : forall (k : nat) sys bg t w (f d : bool), ((if d then 1 else 0) < k)%nat -> (debt (d_imm (s_db sys)) (d_versions (s_db sys)) < n)%nat -> live (mkMachine sys bg) -> s_threads sys !! t = Some (mkThread w (MakingRoom f d)) ->
  leads (mkMachine sys bg) (shorter (length (s_queue sys))).
Proof.
  induction n as [|n IHn]; intros k; [intros; lia|]. induction k as [|k IHk]; intros sys bg t w f d Hk Hn Hlive Ht; [lia|].
  destruct (decide (numbers_left sys)) as [Hleft|Hleft]; [|exists (mkMachine sys bg); split; [done|by right]].
  pose proof Hlive as ((_ & a & _ & past & waiting & Hat) & _). destruct (make_room_spec dbname write_buffer_size (s_db sys) a f d (sa_db _ _ _ _ Hat) Hleft) as (db & r & Hm & _ & _ & _ & _ & Hcase). destruct r as [s| | |].
  - by eapply progress_done.
  - destruct d; [|by apply make_room_no_delay in Hm]. eapply progress_delay; [done|done|exact Hm|]. intros sys' Hdb Hq Ht' Hl. subst db. rewrite <- Hq. apply (IHk sys' bg t w f false); [lia|by rewrite Hdb|done|exact Ht'].
  - destruct Hcase as (-> & He & Hb). destruct (background_makes_room sys bg Hlive He Hb) as (db & Hrun & Hl & Hd). eapply leads_steps; [exact Hrun|]. destruct Hd as [Hd|Hd]; [eapply (progress_error (with_db sys db)); done|]. eapply (IHn 2%nat (with_db sys db) false t w f d); [destruct d; lia|cbn; lia|done|done].
  - destruct Hcase as (_ & Hmem & _). apply (leads_thread sys bg t); [done|]. intros r _. unfold thread_step. rewrite Ht, Hm. cbn [obind]. intros [= <-]. eexists. split; [done|]. intros Hl. pose proof (progress_fresh _ bg t w d Hl) as Hp. apply Hp; [cbn; by rewrite lookup_insert_eq|done].
Qed.

(** The writers at the front leave. *)
Lemma progress_front sys bg : live (mkMachine sys bg) -> s_queue sys ≠ [] -> leads (mkMachine sys bg) (shorter (length (s_queue sys))).
Proof.
  intros Hlive Hq. pose proof Hlive as ((_ & a & _ & past & waiting & [Hc Hqw Hnd Hdom Hp Hr Hf Hdb Hroom]) & _). cbn [m_sys] in *. destruct waiting as [|c rest]; [done|]. destruct Hf as (w & p & Ht & Hd & Hh & Hph). destruct p as [|f d|u own lw ls|s se own lw ls|s]; [|by eapply (progress_room _ 2 sys bg c.1 w f d); [destruct d; lia|apply Nat.lt_succ_diag_r|done|exact Ht]|by eapply progress_logging|by eapply progress_logged|done].
  apply (leads_thread sys bg c.1); [done|]. intros r _. unfold thread_step. rewrite Ht, Hd, bool_decide_eq_true_2 by (by rewrite Hqw). intros [= <-]. eexists. split; [done|]. intros Hl.
  set (f := bool_decide (qw_batch w = None)) in *. assert ((if negb f then 1 else 0) < 2)%nat as Hk by (destruct f; cbn; lia). pose proof (progress_room _ 2 _ bg c.1 w f (negb f) Hk (Nat.lt_succ_diag_r _) Hl) as Hp'. apply Hp'. cbn. by rewrite lookup_insert_eq.
Qed.

Definition returned (m : Machine) : Prop := exists w s, s_threads (m_sys m) !! t0 = Some (mkThread w (Returned s)).

Lemma progress_returns n : forall m, (length (s_queue (m_sys m)) < n)%nat -> live m -> leads m returned.
Proof.
  induction n as [|n IH]; intros [sys bg] Hn Hlive; cbn in Hn; [lia|]. destruct (decide (t0 ∈ s_queue sys)) as [Hin|Hin].
  - destruct (progress_front sys bg Hlive) as (m' & Hrun & [[Hl Hs]|Hs]); [intros He; rewrite He in Hin; by apply elem_of_nil in Hin| |exists m'; split; [done|by right]]. eapply leads_steps; [exact Hrun|]. apply IH; [lia|done].
  - pose proof Hlive as (Hre & _ & Ht0). pose proof Hre as (_ & a & _ & past & waiting & [Hc Hqw Hnd Hdom Hp Hr Hf Hdb Hroom]). cbn [m_sys] in *. pose proof (Hdom t0 Ht0) as Hcall. rewrite Hc, fmap_app, elem_of_app in Hcall. destruct Hcall as [Hpast|Hw]; [|by rewrite Hqw in Hin].
    apply list_elem_of_fmap in Hpast as (c & Hct & Hcin). rewrite Forall_forall in Hp. destruct (Hp c Hcin) as (w & p & Hl & Hcase). rewrite <- Hct in Hl. destruct Hcase as [(-> & Hd & _)|(s & -> & _)]; [|apply leads_now; by exists w, s].
    apply (leads_thread sys bg t0); [done|]. intros r _. unfold thread_step. rewrite Hl, Hd. intros [= <-]. eexists. split; [done|]. intros _. apply leads_now. exists w, (qw_status w). cbn. by rewrite lookup_insert_eq.
Qed.
End Progress.
End Run.

(** ** The properties *)

Section Properties.
Context `{laws : ComparatorLaws} `{Crc32c} `{alaws : AllocatorLaws} {E F FH : Type} `{flaws : LogFileLaws F} `{dlaws : !LogDir E F} `{dirlaws : !LogDirLaws E F} `{blaws : BackgroundLaws E F FH}.



End Properties.

(** ** A run in memory *)

Section Sample.
#[local] Existing Instances BytewiseComparator BytewiseComparator_laws growing growing_laws.
#[local] Instance portable : Crc32c := Crc32c_portable 0.
#[local] Instance mem_log : LogFile MemFile := { log_Sync f := (f, if mf_failed f then IOError "sync" else OK) }.
#[local] Instance mem_log_laws : LogFileLaws MemFile.
Proof. split; intros f f' s [= <- _]; done. Qed.
#[local] Instance mem_logs : LogDir unit MemFile := { new_log_file e _ := (e, OK, Some (mkMemFile [] 100000 false)) }.
#[local] Instance mem_logs_laws : LogDirLaws unit MemFile.
Proof. split. intros e n e' r [= <- <-]. by eexists. Qed.

(** A background thread that either drops the full memtable or reports an error. *)
Definition drop_imm (db : DB unit MemFile unit) : DB unit MemFile unit :=
  mkDB (d_env db) (d_versions db) (d_mem db) None (d_log db) (d_logfile_number db) (d_tmp_batch db) (d_bg_error db) (d_shutting_down db) (d_scheduled db) (d_manual db).

#[local] Instance dropping : Background unit MemFile unit := { bg_step db db' := db' = drop_imm db \/ db' = db_record_error db (IOError "compaction") }.
#[local] Instance dropping_laws : BackgroundLaws unit MemFile unit.
Proof.
  split; intros db db' [-> | ->]; unfold db_record_error; destruct (ok (d_bg_error db)); auto.
Qed.
#[local] Instance dropping_works : BackgroundWorks (fun _ _ => 0%nat).
Proof.
  split. intros db _ He _ _. exists (db_record_error db (IOError "compaction")). split; [apply rtc_once; by right|]. left. unfold db_record_error. by rewrite He.
Qed.

Definition sample_versions : outcome (VersionSet unit) := new_VersionSet (mkFileHeap ∅ 0) (str "/db") (mkOptions 2097152 false false) (str "leveldb.BytewiseComparator").

Definition sample_db {F : Type} (f : F) : outcome (DB unit F unit) :=
  let! vs := sample_versions in Ret (mkDB tt vs (Ref new_MemTable) None (new_Writer f) 3 new_WriteBatch OK false false false).

(** Steps of the threads [ts] in this order. *)
Fixpoint run_threads {F : Type} `{WritableFile F} `{LogFile F} `{LogDir unit F} (ts : list nat) (sys : System (E := unit) (F := F) (FH := unit)) : outcome System :=
  match ts with
  | [] => Ret sys
  | t :: ts => assert! vs_next_file_number (d_versions (s_db sys)) + 1 <? 2 ^ 64; let! r := thread_step (str "/db") 65536 sys t in match r with Some sys => run_threads ts sys | None => AssertFailed end
  end.

Definition put_a : WriteBatch := batch_Put new_WriteBatch [x61] [x31].
Definition put_b : WriteBatch := batch_Delete (batch_Put new_WriteBatch [x62] [x32]) [x61].

(** Three writers, the third without a batch. *)
Definition three_writers (db : DB unit MemFile unit) : System := call (call (call (mkSystem db [] ∅) 1 (Some put_a) false) 2 (Some put_b) false) 3 None false.

Definition statuses {F : Type} (sys : System (E := unit) (F := F) (FH := unit)) : list (option Status) := (fun t => match s_threads sys !! t with Some (mkThread _ (Returned s)) => Some s | _ => None end) <$> [1; 2; 3]%nat.

(** A writer without a batch asks for a new memtable. When it is alone it gets one; behind another writer it joins the
    group of that writer and is told OK, and the memtable stays. *)
Theorem forced_switch_is_skipped :
  (let! db := sample_db (mkMemFile [] 1000 false) in
   let! sys := run_threads [1; 1; 1; 1; 3; 2]%nat (three_writers db) in
   Ret (statuses sys, vs_last_sequence (d_versions (s_db sys)), bool_decide (d_imm (s_db sys) = None))) = Ret ([Some OK; Some OK; Some OK], 3, true) /\
  (let! db := sample_db (mkMemFile [] 1000 false) in
   let! sys := run_threads [3; 3; 3]%nat (call (mkSystem db [] ∅) 3 None false) in
   Ret (statuses sys, vs_last_sequence (d_versions (s_db sys)), bool_decide (d_imm (s_db sys) = None))) = Ret ([None; None; Some OK], 0, false).
Proof. split; vm_compute; reflexivity. Qed.

Lemma run_threads_steps ts : forall (sys sys' : System (E := unit) (F := MemFile) (FH := unit)) bg, run_threads ts sys = Ret sys' -> rtc (db_step (str "/db") 65536) (mkMachine sys bg) (mkMachine sys' bg).
Proof.
  induction ts as [|t ts IH]; intros sys sys' bg; cbn [run_threads]; [by intros [= <-]|]. destruct (Z.ltb_spec (vs_next_file_number (d_versions (s_db sys)) + 1) (2 ^ 64)) as [Hn|]; [|done]. cbn [oassert obind]. destruct (thread_step _ _ sys t) as [[sys1|]| |] eqn:Et; [|done..]. cbn [obind]. intros Hr. eapply rtc_l; [by apply (step_thread _ _ sys bg t sys1)|]. by apply IH.
Qed.

Lemma sample_opened f : contents f = [] -> exists db, sample_db f = Ret db /\ opened db /\ vs_last_sequence (d_versions db) = 0.
Proof.
  intros Hf. unfold sample_db. destruct sample_versions as [vs| |] eqn:Ev; [|vm_compute in Ev; done..]. cbn [obind]. eexists. split; [done|]. vm_compute in Ev. injection Ev as <-. split; [|done]. split; cbn; try done.
  - split; [eexists; vm_compute; done|]. split; [eexists; vm_compute; done|]. split; [done|]. split; [done|]. intros n Hn Hle. vm_compute in Hn. injection Hn as <-. by vm_compute in Hle.
  - by exists f.
  - intros [?|[?|Hn]]; [done|done|]. by vm_compute in Hn.
Qed.

Lemma sample_holds b ops : built b 0 ops -> zlen ops < 2 ^ 31 -> ops_ok ops -> holds (Some b) (Some ops).
Proof. intros Hb Hn Hok. split; [done|]. exists 0. by apply built_is. Qed.

Lemma three_writers_reached f : contents f = [] -> exists db, sample_db f = Ret db /\ opened db /\ rtc (db_step (str "/db") 65536) (start db) (mkMachine (three_writers db) false).
Proof.
  intros Hf. destruct (sample_opened f Hf) as (db & Hdb & Ho & Hs). exists db. split; [done|]. split; [done|]. unfold three_writers, start.
  assert (holds (Some put_a) (Some [BPut [x61] [x31]])) as Ha by (apply sample_holds; [apply (built_put _ 0 []), built_new|done|split; [repeat constructor|done]]).
  assert (holds (Some put_b) (Some [BPut [x62] [x32]; BDelete [x61]])) as Hb by (apply sample_holds; [apply (built_delete _ 0 [_]), (built_put _ 0 []), built_new|done|split; [repeat constructor|done]]).
  eapply rtc_l; [apply (step_call _ _ _ _ 1 (Some put_a) (Some [BPut [x61] [x31]])); [done|done|cbn [s_db call]; rewrite Hs; by vm_compute]|].
  eapply rtc_l; [apply (step_call _ _ _ _ 2 (Some put_b) (Some [BPut [x62] [x32]; BDelete [x61]])); [done|done|cbn [s_db call]; rewrite Hs; by vm_compute]|].
  eapply rtc_l; [apply (step_call _ _ _ _ 3 None None); [done|done|cbn [s_db call]; rewrite Hs; by vm_compute]|]. done.
Qed.

(** A file whose second [Append] writes half of its data and fails; afterwards the file takes data again. *)
Record FlakyFile := mkFlaky { ff_data : bytes; ff_calls : nat }.

#[local] Instance flaky_file : WritableFile FlakyFile := {
  Append f d := if decide (ff_calls f = 1%nat) then (mkFlaky (ff_data f ++ ztake (zlen d / 2) d) 2, IOError "no space") else (mkFlaky (ff_data f ++ d) (S (ff_calls f)), OK);
  Flush f := (f, OK);
}.
#[local] Instance flaky_log : LogFile FlakyFile := { log_Sync f := (f, OK) }.
#[local] Instance flaky_logs : LogDir unit FlakyFile := { new_log_file e _ := (e, OK, Some (mkFlaky [] 0)) }.




End Sample.
