(* ===== verification/DbRead.v ===== *)
(** * Reading a key

    [DBImpl::Get] of [db_impl.c]: the memtable, the memtable that is being saved and the current version are asked
    in this order; what was read is charged to the files of the version. *)

From stdpp Require Import gmap sorting relations.
From S2P Require Import Prelude Coding Env Crc32c LogWriter Comparator DbFormat VersionEdit SkipList MemTable Iterator Version VersionGet VersionBuilder Filename DList VersionSet WriteBatch Arena DbWrite.

Open Scope outcome_scope.

Section Read.
Context `{laws : ComparatorLaws} {TC : Type} `{TableCache TC} {E F FH : Type}.
Abbreviation DB := (DB E F FH).

(** Without the mutex: the value, the status and, when files were read, what is charged to them. *)
Definition get_value (tc : TC) (options : ReadOptions) (mem : MemTable) (imm : option MemTable) (current : Version) (lkey : LookupKey) (value : bytes)
    : outcome (TC * bytes * Status * option GetStats) :=
  let! (found, value, s) := MemTable.Get mem lkey value OK in
  if (found : bool) then Ret (tc, value, s, None)
  else
    let! (found, value, s) := match imm with Some m => MemTable.Get m lkey value s | None => Ret (false, value, s) end in
    if (found : bool) then Ret (tc, value, s, None)
    else
      let! (tc, value, stats, s) := VersionGet.Get tc options current lkey value in
      Ret (tc, value, s, Some stats).

Definition set_db_tables (db : DB) (vl : Versions) (mem : MemTable) (imm : option MemTable) : DB :=
  mkDB (d_env db) (set_versions (d_versions db) vl) mem imm (d_log db) (d_logfile_number db) (d_tmp_batch db) (d_bg_error db) (d_shutting_down db) (d_scheduled db) (d_manual db).

(** A reference to a memtable is given back; the table stays. *)
Definition unref_kept (m : MemTable) : outcome MemTable :=
  let! r := MemTable.Unref m in match r with Some m => Ret m | None => AssertFailed end.

(** With the mutex: the read is charged to a file of the version [n], which may then have to be compacted. *)
Definition charge_read (db : DB) (n : nat) (stats : option GetStats) : outcome DB :=
  match stats with
  | None => Ret db
  | Some stats =>
      let vl := vs_versions (d_versions db) in
      let! current := version_at vl n in
      let! (st, current, due) := UpdateStats (fh_store (vl_heap vl)) current stats in
      let db := set_db_tables db (set_version (set_heap vl (mkFileHeap st (fh_next (vl_heap vl)))) n current) (d_mem db) (d_imm db) in
      if (due : bool) then MaybeScheduleCompaction db else Ret db
  end.

(** The reader gets its references back to what is still there: nothing was replaced while it read. *)
Definition db_Get (tc : TC) (options : ReadOptions) (snapshot : option Z) (db : DB) (key value : bytes) : outcome (TC * DB * bytes * Status) :=
  let sequence := default (vs_last_sequence (d_versions db)) snapshot in
  match vl_current (vs_versions (d_versions db)) with
  | None => AssertFailed
  | Some n =>
      let mem := MemTable.Ref (d_mem db) in
      let imm := MemTable.Ref <$> d_imm db in
      let! vl := version_Ref (vs_versions (d_versions db)) n in
      let! current := version_at vl n in
      let! lkey := new_LookupKey key sequence in
      let! (tc, value, s, stats) := get_value tc options mem imm current lkey value in
      let! db := charge_read (set_db_tables db vl mem imm) n stats in
      let! mem := unref_kept mem in
      let! imm := match imm with Some m => let! m := unref_kept m in Ret (Some m) | None => Ret None end in
      let! vl := version_Unref (vs_versions (d_versions db)) n in
      Ret (tc, set_db_tables db vl mem imm, value, s)
  end.
End Read.

(** ** What a read finds *)

Section Found.
Context `{laws : ComparatorLaws} {TC : Type} `{tclaws : TableCacheLaws TC} {E F FH : Type}.
Abbreviation DB := (DB E F FH).
Implicit Types (db : DB).

(** The entries of the memtables and of the files: those of the memtable are newer than those of the one that is being
    saved, and these newer than those of the files. *)
Record sources (tc : TC) db (n : nat) (v : Version) (data : FilePtr -> list entry_op) (mops iops : list entry_op) : Prop := mkSources {
  sr_current : vl_current (vs_versions (d_versions db)) = Some n;
  sr_real : n ≠ dummy_versions_;
  sr_version : vl_versions (vs_versions (d_versions db)) !! n = Some v;
  sr_refs : 1 <= v_refs v;
  sr_data : version_data tc v data;
  sr_files files f : files ∈ files_ v -> f ∈ files -> is_Some (fh_store (vl_heap (vs_versions (d_versions db))) !! f_addr f);
  sr_mem : MRepr (d_mem db) mops /\ increasing mops /\ 1 <= refs_ (d_mem db);
  sr_imm : match d_imm db with None => iops = [] | Some m => MRepr m iops /\ increasing iops /\ 1 <= refs_ m end;
  sr_mem_new o o' : o ∈ mops -> o' ∈ iops \/ version_has v data o' -> op_seq o' < op_seq o;
  sr_imm_new o o' : o ∈ iops -> version_has v data o' -> op_seq o' < op_seq o;
}.

Definition any_source (v : Version) (data : FilePtr -> list entry_op) (mops iops : list entry_op) (o : entry_op) : Prop := o ∈ mops \/ o ∈ iops \/ version_has v data o.

Lemma newest_none u s ops : newest u s ops = None -> forall o, o ∈ ops -> ~ visible u s o.
Proof. unfold newest. intros Hl%last_None o Ho Hv. assert (o ∈ filter (visible u s) ops) as Hin by (by apply list_elem_of_filter). rewrite Hl in Hin. by apply elem_of_nil in Hin. Qed.

Lemma candidates_in level u k files f : f ∈ candidates level u k files -> f ∈ files.
Proof.
  unfold candidates. destruct (level =? 0).
  - unfold sort_newest. rewrite merge_sort_Permutation. by intros [_ ?]%list_elem_of_filter.
  - destruct (files !! _) as [g|] eqn:Eg; [|by intros ?%elem_of_nil]. destruct (_ <? 0); [by intros ?%elem_of_nil|]. intros ->%list_elem_of_singleton. by eapply list_elem_of_lookup_2.
Qed.

Lemma search_order_in u k levels : forall level p, p ∈ search_order level u k levels -> exists files, files ∈ levels /\ p.2 ∈ files.
Proof.
  induction levels as [|files levels IH]; intros level p; cbn [search_order]; [by intros ?%elem_of_nil|]. intros [Hp|Hp]%elem_of_app; [|destruct (IH _ _ Hp) as (fs & Hfs & Hin); exists fs; split; [by right|done]].
  apply list_elem_of_fmap in Hp as (f & -> & Hf). exists files. split; [by left|]. by eapply candidates_in.
Qed.

(** The memtables first, then the version. *)
Lemma get_value_spec tc db n v data mops iops options u s k value : sources tc db n v data mops iops -> in_range s -> zlen u + 8 < 2 ^ 32 -> new_LookupKey u s = Ret k ->
  exists tc' r stats, get_value tc options (Ref (d_mem db)) (Ref <$> d_imm db) v k value = Ret (tc', answer_value r value, answer_status r, stats) /\
    newest_of u s (any_source v data mops iops) r /\ version_data tc' v data /\
    (forall st f, stats = Some st -> seek_file st = Some f -> exists files, files ∈ files_ v /\ f ∈ files).
Proof.
  intros [Hc Hreal Hv Href Hd Hfs (Hm & Hmi & _) Himm Hmn Hin] Hs Hu Hk. unfold get_value. rewrite (Get_spec (Ref (d_mem db)) mops u s k value OK) by done. destruct (newest u s mops) as [o|] eqn:En.
  - pose proof (newest_spec _ _ _ _ Hmi En) as (Ho & Hvis & Hmax). exists tc, (Some o), None. split; [cbn; by destruct (op_type o)|]. split; [|split; [done|done]]. split; [by left|]. split; [done|]. intros o' [Ho'|Ho'] Hvis'; [destruct (Hmax o' Ho' Hvis') as [?| ->]; lia|]. specialize (Hmn o o' Ho Ho'). lia.
  - cbn [get_result obind]. pose proof (newest_none _ _ _ En) as Hno.
    assert ((let! (found, value, s) := match Ref <$> d_imm db with Some m => MemTable.Get m k value OK | None => Ret (false, value, OK) end in Ret (found, value, s)) = Ret (get_result (newest u s iops) value OK)) as Hi.
    { destruct (d_imm db) as [m|]; cbn; [|by subst iops]. destruct Himm as (Hm' & Hi' & _). rewrite (Get_spec (Ref m) iops u s k value OK) by done. by destruct (get_result _ _ _) as [[? ?] ?]. }
    destruct (match Ref <$> d_imm db with Some m => MemTable.Get m k value OK | None => Ret (false, value, OK) end) as [[[found value1] s1]| |]; [|done..]. cbn [obind] in Hi |- *. injection Hi as Hi. destruct (newest u s iops) as [o|] eqn:Ei; cbn [get_result] in Hi.
    + destruct (d_imm db) as [m|] eqn:Em; [|by subst iops]. destruct Himm as (Hm' & Hi' & _). pose proof (newest_spec _ _ _ _ Hi' Ei) as (Ho & Hvis & Hmax). exists tc, (Some o), None. destruct (op_type o) eqn:Et; injection Hi as -> -> ->; (split; [cbn; by rewrite Et|]); (split; [|split; [done|done]]); (split; [right; by left|]); (split; [done|]); intros o' [Ho'|[Ho'|Ho']] Hvis'; try (by destruct (Hno o')); try (destruct (Hmax o' Ho' Hvis') as [?| ->]; lia); specialize (Hin o o' Ho Ho'); lia.
    + injection Hi as -> -> ->. pose proof (newest_none _ _ _ Ei) as Hno'. destruct (new_LookupKey_spec u s Hs Hu) as (k' & Hk' & Huk & Hik & _). rewrite Hk in Hk'. injection Hk' as <-.
      pose proof (levels_Get_spec tc v data options u s k value Hd Hs Huk Hik) as Hg. pose proof (walk_prefix (fun f => newest_entry u s (data f)) (search_order 0 u (encode u s kValueTypeForSeek) (files_ v))) as Hp.
      destruct (walk _ _) as [rs r]. destruct Hg as (tc' & Hg & Hn & Hd'). rewrite Hg. cbn [obind]. exists tc', r, (Some (stats_of rs)). split; [done|]. split; [|split; [done|]].
      * destruct r as [o|].
        -- destruct Hn as (Ho & Hvis & Hmax). split; [right; by right|]. split; [done|]. intros o' [Ho'|[Ho'|Ho']] Hvis'; [by destruct (Hno o' Ho')|by destruct (Hno' o' Ho')|by apply Hmax].
        -- intros o' [Ho'|[Ho'|Ho']]; [by apply Hno|by apply Hno'|by apply Hn].
      * intros st f [= <-] Hf. destruct rs as [|x [|y rs]]; cbn in Hf; [done|done|]. injection Hf as <-. apply (search_order_in u (encode u s kValueTypeForSeek) (files_ v) 0). destruct Hp as (rest & Hp). cbn [fst] in Hp. rewrite Hp. left.
Qed.

Lemma unref_ref m : 1 <= refs_ m -> unref_kept (Ref m) = Ret m.
Proof.
  intros Hr. unfold unref_kept, Unref. cbn [Ref refs_]. replace (refs_ m + 1 - 1) with (refs_ m) by lia. rewrite (proj2 (Z.leb_le 0 _)) by lia. cbn [oassert obind]. destruct (Z.leb_spec (refs_ m) 0); [lia|]. by destruct m.
Qed.

Lemma schedule_returns db nc : NeedsCompaction (d_versions db) = Ret nc -> exists b, MaybeScheduleCompaction db = Ret (set_db_scheduled db b).
Proof.
  intros Hn. assert (db = set_db_scheduled db (d_scheduled db)) as Hid by (by destruct db). unfold MaybeScheduleCompaction. rewrite Hn.
  destruct (d_scheduled db) eqn:Es; [exists true; by rewrite <- Hid|]. destruct (d_shutting_down db); [exists false; by rewrite <- Hid|]. destruct (negb (ok (d_bg_error db))); [exists false; by rewrite <- Hid|].
  destruct (bool_decide _ && negb _); cbn [obind]; [destruct nc; [by exists true|exists false; by rewrite <- Hid]|by exists true].
Qed.

(** Charging a read changes neither the files of a version nor its references. *)
Lemma UpdateStats_kept st v stats : (forall f, seek_file stats = Some f -> is_Some (st !! f_addr f)) ->
  exists st' v' due, UpdateStats st v stats = Ret (st', v', due) /\ files_ v' = files_ v /\ v_refs v' = v_refs v /\ forall x, is_Some (st !! x) -> is_Some (st' !! x).
Proof.
  intros Hf. unfold UpdateStats. destruct (seek_file stats) as [f|]; [|by eexists _, _, _]. destruct (Hf f eq_refl) as [x Hx]. unfold file_state. rewrite Hx. cbn [obind].
  assert (forall y, is_Some (st !! y) -> is_Some (<[f_addr f := mkFileState (fs_refs x) (i32 (fs_allowed_seeks x - 1))]> st !! y)) as Hk by (intros y Hy; rewrite lookup_insert_is_Some'; by right). destruct (_ && _); by eexists _, _, _.
Qed.

Lemma version_data_files tc v v' data : files_ v' = files_ v -> version_data tc v data -> version_data tc v' data.
Proof. intros Hf [[W1 W2 W3 W4] D1 D2 D3]. split; [split|..]; rewrite Hf; done. Qed.

Lemma db_Get_spec tc db n v data mops iops options snapshot u value :
  let s := default (vs_last_sequence (d_versions db)) snapshot in
  sources tc db n v data mops iops -> in_range s -> zlen u + 8 < 2 ^ 32 ->
  exists tc' db' v' r, db_Get tc options snapshot db u value = Ret (tc', db', answer_value r value, answer_status r) /\ newest_of u s (any_source v data mops iops) r /\
    sources tc' db' n v' data mops iops /\ files_ v' = files_ v /\ d_mem db' = d_mem db /\ d_imm db' = d_imm db.
Proof.
  intros s Hsrc Hs Hu. destruct (new_LookupKey_spec u s Hs Hu) as (k & Hk & _). destruct (get_value_spec tc db n v data mops iops options u s k value Hsrc Hs Hu Hk) as (tc' & r & stats & Hget & Hnew & Hd' & Hstats).
  destruct Hsrc as [Hc Hreal Hv Href Hd Hfs (Hm & Hmi & Hmr) Himm Hmn Hin]. unfold db_Get. rewrite Hc. unfold version_Ref, version_at at 1. rewrite Hv. cbn [obind]. set (v1 := set_refs v (v_refs v + 1)). set (vl1 := set_version (vs_versions (d_versions db)) n v1).
  assert (forall vl v2, vl_versions vl !! n = Some v2 -> version_at vl n = Ret v2) as Hat by (intros vl v2 Hx; unfold version_at; by rewrite Hx). rewrite (Hat vl1 v1) by apply lookup_insert_eq. cbn [obind]. fold s. rewrite Hk. cbn [obind].
  change (get_value tc options (Ref (d_mem db)) (Ref <$> d_imm db) v1 k value) with (get_value tc options (Ref (d_mem db)) (Ref <$> d_imm db) v k value). rewrite Hget. cbn [obind].
  set (db1 := set_db_tables db vl1 (Ref (d_mem db)) (Ref <$> d_imm db)).
  assert (exists db2 v2 vl2, charge_read db1 n stats = Ret db2 /\ vs_versions (d_versions db2) = vl2 /\ vl_current vl2 = Some n /\ vl_versions vl2 !! n = Some v2 /\ files_ v2 = files_ v /\ v_refs v2 = v_refs v + 1 /\
    (forall x, is_Some (fh_store (vl_heap (vs_versions (d_versions db))) !! x) -> is_Some (fh_store (vl_heap vl2) !! x))) as (db2 & v2 & vl2 & -> & Hvl2 & Hc2 & Hv2 & Hf2 & Hr2 & Hst2).
  { unfold charge_read. destruct stats as [st|]; [|exists db1, v1, vl1; split; [done|]; split; [done|]; split; [done|]; split; [apply lookup_insert_eq|done]].
    change (vs_versions (d_versions db1)) with vl1. rewrite (Hat vl1 v1) by apply lookup_insert_eq. cbn [obind].
    destruct (UpdateStats_kept (fh_store (vl_heap vl1)) v1 st) as (st' & v2 & due & -> & Hf2 & Hr2 & Hdom). { intros f Hf. destruct (Hstats st f eq_refl Hf) as (files & Hfi & Hff). by apply (Hfs files). }
    cbn [obind]. set (vl2 := set_version _ n v2). set (dbx := set_db_tables db1 vl2 _ _). assert (vl_versions vl2 !! n = Some v2) as Hv2 by apply lookup_insert_eq.
    assert (exists nc, NeedsCompaction (d_versions dbx) = Ret nc) as (nc & Hnc) by (unfold NeedsCompaction, current_version; change (vl_current (vs_versions (d_versions dbx))) with (vl_current (vs_versions (d_versions db))); rewrite Hc; change (vs_versions (d_versions dbx)) with vl2; rewrite (Hat vl2 v2 Hv2); by eexists).
    destruct (schedule_returns dbx nc Hnc) as (b & Hb). destruct due; [rewrite Hb; exists (set_db_scheduled dbx b), v2, vl2|exists dbx, v2, vl2]; (split; [done|]); (split; [done|]); (split; [done|]); (split; [done|]); (split; [done|]); done. }
  cbn [obind]. rewrite unref_ref by done. cbn [obind].
  assert ((match Ref <$> d_imm db with Some m => let! m := unref_kept m in Ret (Some m) | None => Ret None end) = Ret (d_imm db)) as -> by (destruct (d_imm db) as [m|]; [|done]; cbn; rewrite unref_ref; [done|apply Himm]).
  cbn [obind]. rewrite Hvl2. unfold version_Unref. rewrite bool_decide_eq_false_2 by done. cbn [negb oassert obind]. rewrite (Hat vl2 v2 Hv2). cbn [obind]. rewrite Hr2, (proj2 (Z.leb_le 1 _)) by lia. cbn [oassert obind]. replace (v_refs v + 1 - 1) with (v_refs v) by lia. destruct (Z.eqb_spec (v_refs v) 0); [lia|]. cbn [obind].
  exists tc', (set_db_tables db2 (set_version vl2 n (set_refs v2 (v_refs v))) (d_mem db) (d_imm db)), (set_refs v2 (v_refs v)), r. split; [done|]. split; [done|]. split; [|done].
  assert (forall o, version_has (set_refs v2 (v_refs v)) data o -> version_has v data o) as Hhas by (intros o (level & files & f & Hl & Hff); exists level, files, f; cbn in Hl; by rewrite Hf2 in Hl).
  split; cbn [set_db_tables d_versions set_versions vs_versions d_mem d_imm]; try done.
  - apply lookup_insert_eq.
  - by apply (version_data_files tc' v).
  - intros files f Hfi Hff. cbn in Hfi. rewrite Hf2 in Hfi. apply Hst2. by apply (Hfs files).
  - intros o o' Ho [Ho'|Ho']; apply Hmn; auto.
  - intros o o' Ho Ho'. apply Hin; auto.
Qed.
End Found.

(** ** The property *)

(** C5: a read finds the newest version of its key, wherever it is. Let the entries of the memtable be newer than those
    of the memtable that is being saved, and these newer than those of the files of the current version. [Get] at a
    snapshot, or at the last sequence number, returns; its answer is that of the newest entry of the key, in any of
    the three, that is not newer than the snapshot: the value of a value, NotFound for a deletion and when there is
    none. All references are given back, and the memtables and the files of the version are unchanged. *)
Theorem db_get_newest `{laws : ComparatorLaws} {TC : Type} `{tclaws : TableCacheLaws TC} {E F FH : Type} (tc : TC) (db : DB E F FH) n v data mops iops options snapshot u value :
  let s := default (vs_last_sequence (d_versions db)) snapshot in
  sources tc db n v data mops iops -> in_range s -> zlen u + 8 < 2 ^ 32 ->
  exists tc' db' v' r, db_Get tc options snapshot db u value = Ret (tc', db', answer_value r value, answer_status r) /\ newest_of u s (any_source v data mops iops) r /\
    sources tc' db' n v' data mops iops /\ files_ v' = files_ v /\ d_mem db' = d_mem db /\ d_imm db' = d_imm db.
Proof. apply db_Get_spec. Qed.

Section Witness.
#[local] Existing Instances BytewiseComparator BytewiseComparator_laws.

Definition read_mops : list entry_op := [mkOp 70 kTypeValue [x68] [x21]; mkOp 71 kTypeDeletion [x6d] []].
Definition read_iops : list entry_op := [mkOp 60 kTypeValue [x67] [x22]].

Definition read_store : FileStore := list_to_map ((fun f => (f_addr f, mkFileState 1 1)) <$> concat (files_ sample_version)).

Definition read_versions : VersionSet unit :=
  mkVersionSet (str "/db") (mkOptions 2097152 false false) (str "leveldb.BytewiseComparator") 20 2 71 3 0 None None
    (mkVersions (mkFileHeap read_store 100) {[ 1%nat := sample_version ]} (link_head dummy_versions_) 2 (Some 1%nat)) [].

Definition read_db : outcome (DB unit unit unit) :=
  let! mem := adds (Ref new_MemTable) read_mops in
  let! imm := adds (Ref new_MemTable) read_iops in
  Ret (mkDB tt read_versions mem (Some imm) (mkWriter tt 0 []) 3 new_WriteBatch OK false false false).

(** Every entry of the files has a number below 60. *)
Lemma sample_old o : version_has sample_version sample_data o -> op_seq o < 60.
Proof.
  intros (level & files & f & Hl & Hf & Ho). assert (Forall (fun f => Forall (fun o => op_seq o < 60) (sample_data f)) (concat (files_ sample_version))) as Hall by (repeat constructor).
  rewrite Forall_forall in Hall. specialize (Hall f). rewrite Forall_forall in Hall. apply Hall; [|done]. apply list_elem_of_In, in_concat. exists files. rewrite <- !list_elem_of_In. split; [by eapply list_elem_of_lookup_2|done].
Qed.

Lemma read_db_sources : exists db, read_db = Ret db /\ d_versions db = read_versions /\ sources sample_tables db 1 sample_version sample_data read_mops read_iops.
Proof.
  assert (Forall op_ok read_mops /\ Forall op_ok read_iops) as [Hok1 Hok2] by (split; [apply (bool_decide_unpack (Forall op_ok read_mops))|apply (bool_decide_unpack (Forall op_ok read_iops))]; by vm_compute).
  assert (increasing read_mops /\ increasing read_iops) as [Hi1 Hi2] by (split; repeat constructor).
  destruct (adds_spec read_mops (Ref new_MemTable) [] MRepr_new Hok1 Hi1) as (mem & Hmem & Hrm); [by intros o o' ?%elem_of_nil|]. destruct (adds_spec read_iops (Ref new_MemTable) [] MRepr_new Hok2 Hi2) as (imm & Himm & Hri); [by intros o o' ?%elem_of_nil|].
  assert (match adds (Ref new_MemTable) read_mops with Ret m => refs_ m | _ => 0 end = 1) as Hr1 by (vm_compute; reflexivity). assert (match adds (Ref new_MemTable) read_iops with Ret m => refs_ m | _ => 0 end = 1) as Hr2 by (vm_compute; reflexivity). rewrite Hmem in Hr1. rewrite Himm in Hr2.
  unfold read_db. rewrite Hmem, Himm. cbn [obind]. eexists. split; [reflexivity|]. split; [reflexivity|]. apply mkSources; cbn [d_versions d_mem d_imm].
  - reflexivity.
  - discriminate.
  - cbn [read_versions vs_versions vl_versions]. apply lookup_singleton_eq.
  - reflexivity || (vm_compute; discriminate).
  - apply sample_version_data.
  - intros files f Hfi Hf. assert (Forall (fun f => is_Some (read_store !! f_addr f)) (concat (files_ sample_version))) as Hall by (apply (bool_decide_unpack (Forall (fun f => is_Some (read_store !! f_addr f)) (concat (files_ sample_version)))); vm_compute; exact I).
    rewrite Forall_forall in Hall. apply Hall. apply list_elem_of_In, in_concat. exists files. rewrite <- !list_elem_of_In. auto.
  - split; [exact Hrm|]. split; [exact Hi1|]. lia.
  - split; [exact Hri|]. split; [exact Hi2|]. lia.
  - intros o o' Ho Ho'. assert (Forall (fun o => 70 <= op_seq o) read_mops) as Hall by (repeat constructor; vm_compute; discriminate). rewrite Forall_forall in Hall. specialize (Hall o Ho).
    destruct Ho' as [Ho'|Ho']; [|pose proof (sample_old o' Ho'); lia]. apply list_elem_of_singleton in Ho' as ->. cbn [op_seq]. lia.
  - intros o o' Ho Ho'. apply list_elem_of_singleton in Ho as ->. cbn [op_seq]. pose proof (sample_old o' Ho'). lia.
Qed.

Lemma db_get_newest_witness : exists db tc' db' r, read_db = Ret db /\ db_Get sample_tables (mkReadOptions false true) (Some 65) db [x67] [] = Ret (tc', db', answer_value r [], answer_status r) /\
  newest_of [x67] 65 (any_source sample_version sample_data read_mops read_iops) r /\ answer_value r [] = [x22] /\ d_mem db' = d_mem db.
Proof.
  destruct read_db_sources as (db & Hdb & Hvs & Hsrc). destruct (db_get_newest sample_tables db 1 sample_version sample_data read_mops read_iops (mkReadOptions false true) (Some 65) [x67] [] Hsrc) as (tc' & db' & v' & r & Hget & Hnew & _ & _ & Hm & _); [done|done|].
  exists db, tc', db', r. split; [done|]. split; [done|]. split; [done|]. split; [|done]. assert (match read_db with Ret db => match db_Get sample_tables (mkReadOptions false true) (Some 65) db [x67] [] with Ret (_, _, va, _) => va | _ => [] end | _ => [] end = [x22]) as Hva by (vm_compute; reflexivity). by rewrite Hdb, Hget in Hva.
Defined.
End Witness.
