(* ===== verification/TableOutput.v ===== *)
(** * Tables written by the database

    [BuildTable] of [db/builder.cc], which writes the entries of an iterator to a new table. The keys of the
    tables of a database are internal keys. *)

From stdpp Require Import sorting sets.
From S2P Require Import Prelude Coding Env Crc32c Cache Comparator DbFormat VersionEdit SkipList MemTable Version BlockBuilder Block BlockCorrect Format Filter FilterBlock Filename FileSystem Iterator BlockIter TableBuilder DBIter MergingIterator TwoLevelIterator VersionGet Table TableCorrect TableRead TableCache.

Open Scope outcome_scope.

(** What a writer of tables asks of the table cache: the status of a new iterator over a table, which is
    deleted at once. *)
Class TableVerifier (TC E : Type) := {
  table_verify : TC -> E -> Z -> Z -> outcome (TC * E * Status);
}.

Section Files.
Context {E H : Type} `{Env E H}.

(** The end of an output file: it is synced, closed and deleted. *)
Definition close_output (env : E) (file : H) (s : Status) : E * Status :=
  let '(env, s) := if ok s then file_Sync env file else (env, s) in
  let '(env, s) := if ok s then file_Close env file else (env, s) in
  (file_delete env file, s).
End Files.

Definition set_meta (meta : FileMetaData) (size : Z) (lo hi : InternalKey) : FileMetaData :=
  mkFile (refs meta) (allowed_seeks meta) (number meta) size lo hi.

Section BuildTable.
Context {E H TC I : Type} `{Env E H} `{TableVerifier TC E} `{Iterator I} `{user_comparator : Comparator} {user_policy : FilterPolicy} `{Crc32c} `{Compressors}.
Abbreviation TableRep := (TableRep (OpenFile E H)).

Definition new_builder (options : TableOptions) (env : E) (file : H) : outcome TableRep := @new_TableBuilder (InternalFilterPolicy user_policy) (OpenFile E H) options (mkOpen env file).
Definition builder_Add (r : TableRep) (key value : bytes) : outcome TableRep := @table_Add InternalKeyComparator (InternalFilterPolicy user_policy) _ _ _ _ r key value.
Definition builder_Finish (r : TableRep) : outcome (TableRep * Status) := @table_Finish InternalKeyComparator (InternalFilterPolicy user_policy) _ _ _ _ r.

(** The loop over the iterator: the builder, the iterator and the last key. *)
Fixpoint build_loop (fuel : nat) (builder : TableRep) (iter : I) (key : bytes) : outcome (TableRep * I * bytes) :=
  match fuel with
  | O => OutOfFuel
  | S fuel =>
      if it_Valid iter then
        let! key := it_key iter in
        let! value := it_value iter in
        let! builder := builder_Add builder key value in
        let! iter := it_Next iter in
        build_loop fuel builder iter key
      else Ret (builder, iter, key)
  end.

(** The checks of the input, and the removal of a file that is not kept. *)
Definition finish_build (env : E) (tc : TC) (iter : I) (meta : FileMetaData) (s : Status) (fname : bytes) : E * TC * I * FileMetaData * Status :=
  let s := if ok (it_status iter) then s else it_status iter in
  let env := if ok s && (0 <? file_size meta) then env else fst (RemoveFile env fname) in
  (env, tc, iter, meta, s).

Definition BuildTable (fuel : nat) (dbname : bytes) (env : E) (options : TableOptions) (tc : TC) (iter : I) (meta : FileMetaData)
    : outcome (E * TC * I * FileMetaData * Status) :=
  let meta := set_meta meta 0 (smallest meta) (largest meta) in
  let! iter := it_SeekToFirst iter in
  let! fname := TableFileName dbname (number meta) in
  if it_Valid iter then
    let '(env, s, file) := NewWritableFile env fname in
    if negb (ok s) then Ret (env, tc, iter, meta, s)
    else
      match file with
      | None => AssertFailed
      | Some file =>
          let! builder := new_builder options env file in
          let! first := it_key iter in
          let! (builder, iter, key) := build_loop fuel builder iter [] in
          let meta := set_meta meta 0 (DecodeFrom first) (if negb (zlen key =? 0) then DecodeFrom key else largest meta) in
          let! (builder, s) := builder_Finish builder in
          let! meta := if ok s then assert! 0 <? FileSize builder; Ret (set_meta meta (FileSize builder) (smallest meta) (largest meta)) else Ret meta in
          let! _ := delete_TableBuilder builder in
          let '(env, s) := close_output (of_env (t_file builder)) file s in
          let! (tc, env, s) := if ok s then table_verify tc env (number meta) (file_size meta) else Ret (tc, env, s) in
          Ret (finish_build env tc iter meta s fname)
      end
  else Ret (finish_build env tc iter meta OK fname).
End BuildTable.

(** ** A table in a file *)

Section Output.
Context `{laws : ComparatorLaws} {user_policy : FilterPolicy} `{flaws : !FilterPolicyLaws} `{Crc32c} `{Compressors} `{lens : !@SeparatorLengths InternalKeyComparator}.
Context {E FH : Type} `{elaws : EnvLaws E FH} (o : TableOptions).
Abbreviation keep := (keeps env_ok fs writes reads).
Abbreviation TableRep := (TableRep (OpenFile E FH)).

Hypothesis interval_ok : 1 <= to_restart_interval o.
Hypothesis name_ok : forall name, to_filter_name o = Some name -> zlen name < 2 ^ 31.

(** No file reaches 4 GB. *)
Hypothesis file_limit : forall e h d e', file_Append e h d = (e', OK) -> zlen (hbytes e' h) < 2 ^ 32.

(** Entries a table can be built from. *)
Record table_input (es : list entry_op) : Prop := mkTableInput {
  tn_valid : Forall (fun o => valid_key (op_key o)) es;
  tn_sorted : StronglySorted op_lt es;
  tn_budget : table_budget (shown_entries es) + 8 < 2 ^ 32;
}.

Lemma shown_app es es' : shown_entries (es ++ es') = shown_entries es ++ shown_entries es'.
Proof. apply fmap_app. Qed.

Lemma table_input_app es es' : table_input (es ++ es') -> table_input es /\ table_input es'.
Proof.
  intros [Hv Hs Hb]. rewrite shown_app, table_budget_app in Hb. pose proof (table_budget_nonneg (shown_entries es)). pose proof (table_budget_nonneg (shown_entries es')).
  apply Forall_app in Hv as [? ?]. apply StronglySorted_app in Hs as (_ & ? & ?). split; (split; [done|done|lia]).
Qed.

Lemma table_input_sublist (l l' : list entry_op) : l `sublist_of` l' -> table_input l' -> table_input l.
Proof.
  intros Hsub [Hv Hs Hb]. split.
  - rewrite Forall_forall in *. intros x Hx. apply Hv. by eapply elem_of_sublist.
  - clear -Hsub Hs. induction Hsub as [|x l l' Hsub IH|x l l' Hsub IH]; [done| |]; inversion_clear Hs as [|?? Hs' Hall]; [|by apply IH]. constructor; [by apply IH|].
    rewrite Forall_forall in *. intros y Hy. apply Hall. by eapply elem_of_sublist.
  - eapply Z.le_lt_trans; [|exact Hb]. apply Zplus_le_compat_r. clear -Hsub. induction Hsub as [|x l l' Hsub IH|x l l' Hsub IH]; [done| |]; change (x :: l') with ([x] ++ l'); rewrite shown_app, table_budget_app; pose proof (table_budget_nonneg (shown_entries [x])); [|lia].
    change (x :: l) with ([x] ++ l). rewrite shown_app, table_budget_app. lia.
Qed.

Lemma table_input_few es : table_input es -> zlen es < 2 ^ 31.
Proof.
  intros [_ _ Hb]. assert (20 * zlen (shown_entries es) <= table_budget (shown_entries es)) as Hle.
  { unfold table_budget. pose proof (budget_nonneg (shown_entries es)). lia. }
  unfold shown_entries in Hle at 1. unfold zlen in Hle at 1. rewrite length_fmap in Hle. unfold zlen. lia.
Qed.

Lemma input_keys es : table_input es -> Forall (fun e => @valid_key InternalKeyComparator InternalKeyComparator_laws e.1) (shown_entries es).
Proof.
  intros [Hv _ _]. apply Forall_fmap. eapply Forall_impl; [exact Hv|]. intros x Hx. cbn. split; [apply internal_key_encode|]. unfold op_ikey. by rewrite ExtractUserKey_encode.
Qed.

(** The file of a builder with the status [s]: [h] writes the file [fname], and since [e0] no other file has
    changed. *)
Definition in_file (e0 : E) (fname : bytes) (h : FH) (f : OpenFile E FH) (s : Status) : Prop :=
  of_handle f = h /\ writes (of_env f) h fname /\ keep e0 (of_env f) fname /\ (s = OK -> zlen (hbytes (of_env f) h) < 2 ^ 32).

Lemma in_file_append e0 fname h f s d : in_file e0 fname h f s -> in_file e0 fname h (fst (Append f d)) (snd (Append f d)).
Proof.
  intros (Hh & Hw & K & _). destruct f as [e h']. cbn in *. subst h'. destruct (file_Append e h d) as [e' s'] eqn:E1. cbn. destruct (append_frame _ _ _ _ _ _ (keeps_ok _ _ _ K) Hw E1) as [K' Hw']. split; [done|]. split; [done|]. split; [exact (keeps_trans _ _ _ _ K K')|].
  intros ->. by eapply file_limit.
Qed.

Lemma in_file_flush e0 fname h f : in_file e0 fname h f OK -> in_file e0 fname h (fst (Flush f)) (snd (Flush f)).
Proof.
  intros (Hh & Hw & K & Hl). destruct f as [e h']. cbn in *. subst h'. destruct (file_Flush e h) as [e' s'] eqn:E1. cbn. destruct (flush_frame _ _ _ _ _ (keeps_ok _ _ _ K) Hw E1) as [K' Hw']. split; [done|]. split; [done|]. split; [exact (keeps_trans _ _ _ _ K K')|].
  intros _. rewrite (flush_bytes _ _ _ _ E1). by apply Hl.
Qed.

Lemma open_limit (f : OpenFile E FH) d f' : Append f d = (f', OK) -> zlen (contents f') < 2 ^ 63.
Proof. destruct f as [e h]. cbn. destruct (file_Append e h d) as [e' s] eqn:Ea. intros [= <- ->]. cbn. apply file_limit in Ea. lia. Qed.

(** The builder has the entries [es], or its file has failed. *)
Definition output_at (e0 : E) (fname : bytes) (h : FH) (r : TableRep) (es : list entry_op) : Prop :=
  (tready (laws := InternalKeyComparator_laws) (H0 := InternalFilterPolicy user_policy) (wlaws := OpenFile_writable_laws) o r (shown_entries es) \/ tfailed r) /\ in_file e0 fname h (t_file r) (t_status r).

Lemma output_new e0 e fname h : keep e0 e fname -> writes e h fname -> hbytes e h = [] ->
  exists r, new_builder (user_policy := user_policy) o e h = Ret r /\ output_at e0 fname h r [].
Proof.
  intros K Hw Hb. destruct (new_TableBuilder_spec (laws := InternalKeyComparator_laws) (flaws := InternalFilterPolicy_laws) (wlaws := OpenFile_writable_laws) o interval_ok (mkOpen e h) Hb) as (r & Hr & Ht). exists r. split; [exact Hr|].
  apply new_TableBuilder_fields in Hr as [Hs Hf]. split; [by left|]. rewrite Hf, Hs. split; [done|]. split; [done|]. split; [done|]. cbn. by rewrite Hb.
Qed.

Lemma output_Add e0 fname h r es x : output_at e0 fname h r es -> table_input (es ++ [x]) ->
  exists r', builder_Add (user_policy := user_policy) r (op_ikey x) (op_value x) = Ret r' /\ output_at e0 fname h r' (es ++ [x]).
Proof.
  intros [Hr Hf] Hin. pose proof (input_keys _ Hin) as Hk. pose proof (tn_budget _ Hin) as Hb. pose proof (internal_entries_sorted _ (tn_sorted _ Hin)) as Hs. rewrite shown_app in *. unfold output_at. rewrite shown_app. change (shown_entries [x]) with [(op_ikey x, op_value x)] in *.
  assert (exists r', builder_Add (user_policy := user_policy) r (op_ikey x) (op_value x) = Ret r' /\ (tready (laws := InternalKeyComparator_laws) (H0 := InternalFilterPolicy user_policy) (wlaws := OpenFile_writable_laws) o r' (shown_entries es ++ [(op_ikey x, op_value x)]) \/ tfailed r')) as (r' & Hr' & Ht).
  { destruct Hr as [Hr|Hr].
    - apply (table_Add_spec (laws := InternalKeyComparator_laws) (flaws := InternalFilterPolicy_laws) (wlaws := OpenFile_writable_laws) o interval_ok open_limit r (shown_entries es) _ _ Hr); done.
    - exists r. split; [|by right]. by apply table_Add_failed. }
  exists r'. split; [done|]. split; [done|]. exact (table_Add_status (in_file e0 fname h) (in_file_append e0 fname h) (in_file_flush e0 fname h) r _ _ r' Hr' Hf).
Qed.

Lemma output_Finish e0 fname h r es : output_at e0 fname h r es -> table_input es ->
  exists r' s, builder_Finish (user_policy := user_policy) r = Ret (r', s) /\ closed r' = true /\ in_file e0 fname h (t_file r') s /\
    (s = OK -> 0 < FileSize r' /\ FileSize r' = zlen (hbytes (of_env (t_file r')) h) /\ table_of (user_policy := user_policy) o (hbytes (of_env (t_file r')) h) es).
Proof.
  intros [Hr Hf] Hin. destruct Hr as [Hr|Hr].
  - destruct (table_Finish_spec (laws := InternalKeyComparator_laws) (flaws := InternalFilterPolicy_laws) (wlaws := OpenFile_writable_laws) o interval_ok open_limit name_ok r (shown_entries es) Hr) as (r' & s & Hfin & Hc & Hst & Hok); [apply internal_entries_sorted, Hin|by apply input_keys|apply Hin|].
    exists r', s. split; [exact Hfin|]. split; [done|]. pose proof (table_Finish_status (in_file e0 fname h) (in_file_append e0 fname h) (in_file_flush e0 fname h) r r' s Hfin Hf) as Hf'. split; [done|]. intros HsOK. destruct (Hok HsOK) as (blocks & fraw & meta & index & Him & Hes & Hsz).
    assert (hbytes (of_env (t_file r')) h = contents (t_file r')) as Hbytes by (destruct Hf' as [<- _]; done). rewrite Hbytes. split; [|split; [done|]].
    + rewrite Hsz, (ti_image _ _ _ _ _ _ Him), !zlen_app, !zlen_stored. unfold kBlockTrailerSize, stored_size. zlen_pos. lia.
    + split; [apply Hin|]. split; [apply Hin|]. split; [by apply table_input_few|]. exists blocks, fraw, meta, index. split; [done|]. split; [done|]. intros f ->. assert (zlen (contents (t_file r')) < 2 ^ 32) as Hlt by (rewrite <- Hbytes; by apply Hf').
      rewrite (ti_image _ _ _ _ _ _ Him) in Hlt. cbn [filter_part] in Hlt. rewrite !zlen_app in Hlt. zlen_pos. lia.
  - exists (set_closed r), (t_status r). split; [by apply table_Finish_failed|]. split; [done|]. split; [exact Hf|]. intros HsOK. by destruct Hr as [Hn _].
Qed.

(** Closing the file keeps its contents. *)
Lemma close_output_spec e h fname s : env_ok e -> writes e h fname ->
  exists e' s', close_output e h s = (e', s') /\ keep e e' fname /\ (s' = OK -> s = OK) /\ fs e' fname = fs e fname.
Proof.
  intros He Hw. unfold close_output.
  assert (exists e1 s1, (if ok s then file_Sync e h else (e, s)) = (e1, s1) /\ keep e e1 fname /\ writes e1 h fname /\ fs e1 fname = fs e fname /\ (s1 = OK -> s = OK)) as (e1 & s1 & -> & K1 & Hw1 & Hf1 & H1').
  { destruct (ok s) eqn:Es; [|exists e, s; split; [done|]; split; [by apply keeps_refl|by split]]. destruct (file_Sync e h) as [e1 s1] eqn:E1. destruct (sync_frame _ _ _ _ _ He Hw E1) as (K & Hw1 & Hf1). exists e1, s1. split; [done|]. split; [done|]. split; [done|]. split; [done|]. by apply ok_true in Es. }
  assert (exists e2 s2, (if ok s1 then file_Close e1 h else (e1, s1)) = (e2, s2) /\ keep e1 e2 fname /\ writes e2 h fname /\ fs e2 fname = fs e1 fname /\ (s2 = OK -> s1 = OK)) as (e2 & s2 & -> & K2 & Hw2 & Hf2 & H2').
  { destruct (ok s1) eqn:Es; [|exists e1, s1; split; [done|]; split; [by eapply keeps_refl, keeps_ok|by split]]. destruct (file_Close e1 h) as [e2 s2] eqn:E2. destruct (close_frame _ _ _ _ _ (keeps_ok _ _ _ K1) Hw1 E2) as (K & Hw2 & Hf2). exists e2, s2. split; [done|]. split; [done|]. split; [done|]. split; [done|]. by apply ok_true in Es. }
  destruct (delete_writer e2 h fname (keeps_ok _ _ _ K2) Hw2) as [K3 Hf3]. eexists _, _. split; [done|]. split; [exact (keeps_trans _ _ _ _ K1 (keeps_trans _ _ _ _ K2 K3))|]. split; [by auto|]. by rewrite Hf3, Hf2, Hf1.
Qed.
End Output.

(** ** [BuildTable] *)

(** Verifying a table changes no file. *)
Class TableVerifierLaws (TC E FH : Type) `{EnvLaws E FH} `{TableVerifier TC E} : Prop := {
  verify_returns tc e n sz : env_ok e -> exists tc' e' s, table_verify tc e n sz = Ret (tc', e', s) /\ env_ok e' /\
    (forall m, fs e' m = fs e m) /\ forall h m, (writes e h m -> writes e' h m) /\ forall c, reads e h m c -> reads e' h m c;
}.

Section Build.
Context `{laws : ComparatorLaws} {user_policy : FilterPolicy} `{flaws : !FilterPolicyLaws} `{Crc32c} `{Compressors} `{lens : !@SeparatorLengths InternalKeyComparator}.
Context {E FH TC I : Type} `{vlaws : TableVerifierLaws TC E FH} `{Iterator I} (o : TableOptions).
Abbreviation keep := (keeps env_ok fs writes reads).
Hypothesis interval_ok : 1 <= to_restart_interval o.
Hypothesis name_ok : forall name, to_filter_name o = Some name -> zlen name < 2 ^ 31.
Hypothesis file_limit : forall e h d e', file_Append e h d = (e', OK) -> zlen (hbytes e' h) < 2 ^ 32.
Context (es : list entry_op) `{ilaws : !IteratorLaws I internal_compare (shown_entries es)}.
Hypothesis es_ok : table_input es.
Abbreviation n := (length (shown_entries es)).

Lemma build_loop_spec fuel : forall e0 fname h r it j k, output_at (user_policy := user_policy) o e0 fname h r (take j es) -> at_index it (index_of n j) -> (length es - j < fuel)%nat -> (j <= length es)%nat ->
  exists r' it', build_loop (user_policy := user_policy) fuel r it k = Ret (r', it', match list.last (drop j es) with Some x => op_ikey x | None => k end) /\ output_at (user_policy := user_policy) o e0 fname h r' es /\ at_index it' None.
Proof.
  induction fuel as [|fuel IH]; intros e0 fname h r it j k Hr Hat Hf Hj; [lia|]. cbn [build_loop]. destruct (at_valid it _ Hat) as [-> _]. assert (n = length es) as Hn by apply length_fmap. unfold index_of in *. rewrite Hn in *. destruct (Nat.ltb_spec j (length es)) as [Hlt|Hge].
  - destruct (lookup_lt_is_Some_2 es j Hlt) as [x Hx]. rewrite bool_decide_eq_true_2 by done. destruct (at_entry it j (op_ikey x) (op_value x) Hat) as [-> ->]; [unfold shown_entries; by rewrite list_lookup_fmap, Hx|]. cbn [obind].
    assert (take (S j) es = take j es ++ [x]) as Ht by (by apply take_S_r). destruct (output_Add o interval_ok file_limit e0 fname h r (take j es) x Hr) as (r1 & -> & Hr1).
    { rewrite <- Ht. rewrite <- (take_drop (S j) es) in es_ok. by apply table_input_app in es_ok as [? _]. }
    cbn [obind]. destruct (at_next it j Hat) as (it1 & -> & Hat1). cbn [obind]. rewrite <- Ht in Hr1. rewrite Hn in Hat1.
    destruct (IH e0 fname h r1 it1 (S j) (op_ikey x) Hr1 Hat1 ltac:(lia) ltac:(lia)) as (r' & it' & -> & Hr' & Hat'). exists r', it'. split; [|done]. f_equal. f_equal. rewrite (drop_S es x j Hx). destruct (drop (S j) es) as [|y l]; [done|]. rewrite last_cons_cons. destruct (list.last (y :: l)) eqn:El; [done|]. by apply last_None in El.
  - rewrite bool_decide_eq_false_2 by (by intros []). exists r, it. rewrite drop_ge by lia. rewrite take_ge in Hr by lia. done.
Qed.

(** The file and its description. *)
Definition built (dbname : bytes) (e : E) (meta : FileMetaData) : Prop :=
  exists img x y, fs e (MakeFileName dbname (number meta) "ldb") = Some img /\ file_size meta = zlen img /\ table_of (user_policy := user_policy) o img es /\
    head es = Some x /\ smallest meta = mkInternalKey (op_ikey x) /\ list.last es = Some y /\ largest meta = mkInternalKey (op_ikey y).

Lemma finish_build_spec e (tc : TC) it meta s fname : env_ok e -> it_status it = OK ->
  exists e', finish_build e tc it meta s fname = (e', tc, it, meta, s) /\ keep e e' fname /\ (s = OK -> 0 < file_size meta -> e' = e).
Proof.
  intros He Hst. unfold finish_build. rewrite Hst. cbn [ok]. destruct (ok s && (0 <? file_size meta)) eqn:Eb.
  - exists e. split; [done|]. split; [by apply keeps_refl|done].
  - destruct (RemoveFile e fname) as [e' s'] eqn:Er. exists e'. split; [done|]. split; [exact (remove_frame _ _ _ _ He Er)|]. intros -> Hsz. cbn [ok andb] in Eb. by rewrite (proj2 (Z.ltb_lt 0 _) Hsz) in Eb.
Qed.

Lemma BuildTable_spec fuel dbname e tc it p meta : env_ok e -> at_index it p -> 0 < number meta -> (length es < fuel)%nat ->
  exists e' tc' it' meta' s, BuildTable (user_policy := user_policy) fuel dbname e o tc it meta = Ret (e', tc', it', meta', s) /\ keep e e' (MakeFileName dbname (number meta) "ldb") /\ number meta' = number meta /\
    (es = [] -> s = OK /\ file_size meta' = 0) /\ (es ≠ [] -> s = OK -> 0 < file_size meta' /\ built dbname e' meta').
Proof.
  intros He Hat Hnum Hfuel. set (fname := MakeFileName dbname (number meta) "ldb"). unfold BuildTable, TableFileName. destruct (at_first it p Hat) as (it1 & -> & Hat1). cbn [obind]. cbn [set_meta number]. rewrite (proj2 (Z.ltb_lt 0 _) Hnum). cbn [oassert obind]. fold fname.
  destruct (at_valid it1 _ Hat1) as [-> Hst1]. assert (n = length es) as Hn by apply length_fmap. unfold index_of in Hat1 |- *. rewrite Hn in *. destruct (head es) as [x|] eqn:Ehd.
  2:{ apply head_None in Ehd. assert (length es = 0%nat) as Hl by (by rewrite Ehd). rewrite Hl. cbn [Nat.ltb Nat.leb]. rewrite bool_decide_eq_false_2 by (by intros []). destruct (finish_build_spec e tc it1 (set_meta meta 0 (smallest meta) (largest meta)) OK fname He Hst1) as (e' & -> & K & _). eexists _, _, _, _, _. split; [done|]. split; [done|]. split; [done|]. split; [done|]. done. }
  rewrite head_lookup in Ehd. assert (0 < length es)%nat as Hpos0 by (by eapply lookup_lt_Some). assert (es ≠ []) as Hne by (intros Hnil; rewrite Hnil in Hpos0; cbn in Hpos0; lia). rewrite (proj2 (Nat.ltb_lt 0 (length es)) Hpos0) in Hat1 |- *.
  rewrite bool_decide_eq_true_2 by done. destruct (NewWritableFile e fname) as [[e1 s1] file] eqn:E1. destruct (new_writable _ _ _ _ _ He E1) as [K1 Hopen].
  destruct (ok s1) eqn:Es1; cbn [negb].
  2:{ eexists _, _, _, _, _. split; [done|]. split; [done|]. split; [done|]. split; [done|]. intros _ ->. done. }
  apply ok_true in Es1. destruct (Hopen Es1) as (h & -> & Hw & Hb). destruct (output_new (user_policy := user_policy) o interval_ok e e1 fname h K1 Hw Hb) as (r & -> & Hr). cbn [obind].
  destruct (at_entry it1 0 (op_ikey x) (op_value x) Hat1) as [-> _]; [unfold shown_entries; by rewrite list_lookup_fmap, Ehd|]. cbn [obind].
  destruct (build_loop_spec fuel e fname h r it1 0 []) as (r1 & it2 & -> & Hr1 & Hat2); [done|unfold index_of; rewrite Hn, (proj2 (Nat.ltb_lt 0 (length es)) Hpos0); exact Hat1|lia|lia|]. cbn [obind]. rewrite drop_0.
  destruct (output_Finish o interval_ok name_ok file_limit e fname h r1 es Hr1 es_ok) as (r2 & s2 & -> & Hc & (Hh & Hw2 & K2 & _) & Hok). cbn [obind].
  assert (exists y, list.last es = Some y) as [y Hy]. { destruct (list.last es) as [y|] eqn:El; [by exists y|]. by apply last_None in El. }
  rewrite Hy. assert ((zlen (op_ikey y) =? 0) = false) as ->. { apply Z.eqb_neq. pose proof (internal_key_encode (op_key y) (op_seq y) (op_type y)) as Hk. unfold internal_key in Hk. unfold op_ikey. lia. }
  cbn [negb]. set (m0 := set_meta _ 0 _ _). assert (exists m1, (if ok s2 then assert! 0 <? FileSize r2; Ret (set_meta m0 (FileSize r2) (smallest m0) (largest m0)) else Ret m0) = Ret m1 /\ number m1 = number meta /\ (s2 = OK -> file_size m1 = FileSize r2 /\ smallest m1 = mkInternalKey (op_ikey x) /\ largest m1 = mkInternalKey (op_ikey y))) as (m1 & -> & Hnum1 & Hm1).
  { destruct (ok s2) eqn:Es2; [|exists m0; split; [done|]; split; [done|]; by intros ->]. apply ok_true in Es2. destruct (Hok Es2) as (Hpos & _). rewrite (proj2 (Z.ltb_lt 0 _) Hpos). cbn [oassert obind]. eexists. split; [done|]. split; [done|]. done. }
  cbn [obind]. unfold delete_TableBuilder. rewrite Hc. cbn [oassert obind]. destruct (close_output_spec (of_env (t_file r2)) h fname s2 (keeps_ok _ _ _ K2) Hw2) as (e3 & s3 & -> & K3 & Hs3 & Hf3).
  assert (exists tc4 e4 s4, (if ok s3 then table_verify tc e3 (number m1) (file_size m1) else Ret (tc, e3, s3)) = Ret (tc4, e4, s4) /\ keep e3 e4 fname /\ fs e4 fname = fs e3 fname /\ (s4 = OK -> s3 = OK)) as (tc4 & e4 & s4 & -> & K4 & Hf4 & Hs4).
  { destruct (ok s3) eqn:Es3; [|exists tc, e3, s3; split; [done|]; split; [by eapply keeps_refl, keeps_ok|by split]]. apply ok_true in Es3. destruct (verify_returns tc e3 (number m1) (file_size m1) (keeps_ok _ _ _ K3)) as (tc4 & e4 & s4 & -> & He4 & Hfs & Hws). exists tc4, e4, s4. split; [done|]. split; [split; [done|]; split; [intros m _; apply Hfs|intros h' m _; apply Hws]|]. by split. }
  cbn [obind]. destruct (finish_build_spec e4 tc4 it2 m1 s4 fname (keeps_ok _ _ _ K4)) as (e5 & -> & K5 & Hkeep); [by eapply at_valid|]. exists e5, tc4, it2, m1, s4. split; [done|]. split; [exact (keeps_trans _ _ _ _ K2 (keeps_trans _ _ _ _ K3 (keeps_trans _ _ _ _ K4 K5)))|]. split; [done|]. split; [done|].
  intros _ HsOK. assert (s2 = OK) as HsOK2 by auto. destruct (Hok HsOK2) as (Hpos & Hsz & Htab). destruct (Hm1 HsOK2) as (Hm1a & Hm1b & Hm1c). rewrite Hm1a. split; [done|].
  exists (hbytes (of_env (t_file r2)) h), x, y. rewrite Hnum1. fold fname. rewrite (Hkeep HsOK ltac:(lia)), Hf4, Hf3, (writes_fs _ _ _ Hw2). split; [done|]. split; [by rewrite Hm1a|]. split; [done|]. split; [by rewrite head_lookup|]. done.
Qed.
End Build.

(** ** A file system with a quota

    A file system on which no file reaches [limit] bytes. An open file that has hit the limit takes no more writes. *)

Record Quota (E FH : Type) := mkQuota { q_env : E; q_full : list FH }.
Arguments mkQuota {E FH} _ _.
Arguments q_env {E FH} _.
Arguments q_full {E FH} _.

Section Quotas.
Context {E FH : Type} `{elaws : EnvLaws E FH} `{!EqDecision FH} (limit : Z).
Abbreviation Quota := (Quota E FH).
Implicit Types (q : Quota) (h : FH).

Definition no_space : Status := IOError "no space left".
Definition on_env (q : Quota) (r : E * Status) : Quota * Status := (mkQuota r.1 (q_full q), r.2).
Definition on_open (q : Quota) (r : E * Status * option FH) : Quota * Status * option FH := (mkQuota r.1.1 (q_full q), r.1.2, r.2).

Instance Quota_Env : Env Quota FH := {
  NewSequentialFile q n := on_open q (NewSequentialFile (q_env q) n);
  NewWritableFile q n := on_open q (NewWritableFile (q_env q) n);
  NewAppendableFile q n := on_open q (NewAppendableFile (q_env q) n);
  file_Read q h n := let '(e, h, s, r) := file_Read (q_env q) h n in (mkQuota e (q_full q), h, s, r);
  file_Skip q h n := let '(e, h, s) := file_Skip (q_env q) h n in (mkQuota e (q_full q), h, s);
  file_Append q h d :=
    if decide (h ∈ q_full q) then (q, no_space)
    else if zlen (hbytes (q_env q) h) + zlen d <? limit then on_env q (file_Append (q_env q) h d)
    else (mkQuota (q_env q) (h :: q_full q), no_space);
  file_Flush q h := if decide (h ∈ q_full q) then (q, no_space) else on_env q (file_Flush (q_env q) h);
  file_Sync q h := on_env q (file_Sync (q_env q) h);
  file_Close q h := on_env q (file_Close (q_env q) h);
  file_delete q h := mkQuota (file_delete (q_env q) h) (q_full q);
  GetFileSize q n := GetFileSize (q_env q) n;
  RemoveFile q n := on_env q (RemoveFile (q_env q) n);
  RenameFile q n m := on_env q (RenameFile (q_env q) n m);
}.

Lemma on_env_inv q r q' s : on_env q r = (q', s) -> r = (q_env q', s) /\ q_full q' = q_full q.
Proof. destruct r as [e s']. by intros [= <- <-]. Qed.

Lemma on_open_inv q r q' s f : on_open q r = (q', s, f) -> r = (q_env q', s, f).
Proof. destruct r as [[e s'] f']. by intros [= <- <- <-]. Qed.

Lemma quota_append q h d q' s : file_Append q h d = (q', s) ->
  (s = no_space /\ q_env q' = q_env q /\ h ∈ q_full q') \/
  ((h ∉ q_full q) /\ q_full q' = q_full q /\ zlen (hbytes (q_env q) h) + zlen d < limit /\ file_Append (q_env q) h d = (q_env q', s)).
Proof.
  cbn. destruct (decide (h ∈ q_full q)) as [Hin|Hout]; [intros [= <- <-]; by left|]. destruct (Z.ltb_spec (zlen (hbytes (q_env q) h) + zlen d) limit) as [Hlt|Hge].
  - intros [Ha Hf]%on_env_inv. by right.
  - intros [= <- <-]. left. split; [done|]. split; [done|]. by left.
Qed.

#[refine] Instance Quota_laws : EnvLaws Quota FH := {
  env_ok q := env_ok (q_env q);
  fs q := fs (q_env q);
  writes q := writes (q_env q);
  hbytes q := hbytes (q_env q);
  hfailed q h := h ∈ q_full q \/ hfailed (q_env q) h;
  reads q := reads (q_env q);
}.
Proof.
  - intros q h n. apply writes_fs.
  - intros q h d q' [(Hs & _)|(Hf & Hf' & _ & Ha)]%quota_append; [done|]. apply append_good in Ha as (H1' & H2' & H3'). rewrite Hf'. tauto.
  - intros q h d q' s [(-> & He & Hin)|(Hf & _ & _ & Ha)]%quota_append Hs.
    + split; [by left|]. exists 0. by rewrite He, ztake_0, app_nil_r.
    + destruct (append_bad _ _ _ _ _ Ha Hs) as [Hx Hy]. split; [by right|done].
  - intros q h d q' s Hx [(-> & He & _)|(Hf & _ & _ & Ha)]%quota_append; [by rewrite He|]. destruct Hx as [Hx|Hx]; [done|]. by eapply append_stuck.
  - intros q h d q' s n He Hw [(-> & Heq & _)|(_ & _ & _ & Ha)]%quota_append; [|exact (append_frame _ _ _ _ _ _ He Hw Ha)]. unfold keeps. rewrite Heq. done.
  - intros q h q' s. cbn. destruct (decide _); [by intros [= <- _]|]. intros [Ha _]%on_env_inv. by eapply flush_bytes.
  - intros q h q'. cbn. destruct (decide _); [done|]. intros [Ha Hf]%on_env_inv. rewrite Hf. apply flush_good in Ha. tauto.
  - intros q h q' s. cbn. destruct (decide _); [intros [= <- _] _; by left|]. intros [Ha _]%on_env_inv Hs. right. by eapply flush_bad.
  - intros q h q' s n He Hw. cbn. destruct (decide _); [intros [= <- _]; split; [by split|done]|]. intros [Ha _]%on_env_inv. exact (flush_frame _ _ _ _ _ He Hw Ha).
  - intros q h q' s n He Hw [Ha _]%on_env_inv. exact (sync_frame _ _ _ _ _ He Hw Ha).
  - intros q h q' s n He Hw [Ha _]%on_env_inv. exact (close_frame _ _ _ _ _ He Hw Ha).
  - intros q h n. apply delete_writer.
  - intros q h n c k He Hr Hk. destruct (read_good _ _ _ _ _ He Hr Hk) as (e' & h' & Ha & Hrest). exists (mkQuota e' (q_full q)), h'. cbn. by rewrite Ha.
  - intros q h n c k He Hr Hk. destruct (skip_good _ _ _ _ _ He Hr Hk) as (e' & h' & Ha & Hrest). exists (mkQuota e' (q_full q)), h'. cbn. by rewrite Ha.
  - intros q h n c. apply delete_reader.
  - intros q n q' s r He Ha%on_open_inv. exact (new_writable _ _ _ _ _ He Ha).
  - intros q n q' s r He Ha%on_open_inv. exact (no_writable _ _ _ _ _ He Ha).
  - intros q n c q' s r He Hc Ha%on_open_inv. exact (new_appendable _ _ _ _ _ _ He Hc Ha).
  - intros q n c q' s r He Hc Ha%on_open_inv. exact (no_appendable _ _ _ _ _ _ He Hc Ha).
  - intros q n c He Hc. destruct (new_sequential _ _ _ He Hc) as (e' & h & Ha & Hrest). exists (mkQuota e' (q_full q)), h. cbn. by rewrite Ha.
  - intros q n He Hc. destruct (no_sequential _ _ He Hc) as (e' & s & Ha & Hrest). exists (mkQuota e' (q_full q)), s. cbn. by rewrite Ha.
  - intros q n c He Hc. exact (file_size_good _ _ _ He Hc).
  - intros q src tgt q' He [Ha _]%on_env_inv. exact (rename_good _ _ _ _ He Ha).
  - intros q src tgt q' s He [Ha _]%on_env_inv. exact (rename_bad _ _ _ _ _ He Ha).
  - intros q n q' s He [Ha _]%on_env_inv. exact (remove_frame _ _ _ _ He Ha).
Defined.

Lemma quota_limit q h d q' : file_Append q h d = (q', OK) -> zlen (hbytes q' h) < limit.
Proof. intros [(Hs & _)|(_ & _ & Hlt & Ha)]%quota_append; [done|]. apply append_good in Ha as (_ & _ & Hb). cbn. rewrite Hb, zlen_app. exact Hlt. Qed.
End Quotas.
