(* ===== verification/CompactionWork.v ===== *)
(** * The work of a compaction

    [DoCompactionWork] of [db_impl.c] and the functions it calls: the entries of the inputs are read in order,
    those no read needs any more are dropped, and the others are written to new tables, which are installed
    in the version set. What a memtable that is flushed in between does is a parameter; the statistics and
    the log messages are left out. *)

From stdpp Require Import gmap sorting sets.
From Stdlib Require Import SpecFloat.
From S2P Require Import Prelude Coding Env Crc32c Cache LogWriter LogReader LogCorrect Comparator DbFormat VersionEdit SkipList MemTable BlockBuilder Block BlockCorrect Format Filter FilterBlock Iterator Version VersionBuilder Filename FileSystem MemEnv LogSim DList VersionSet Manifest Recovery Compaction CompactionCorrect CompactionLoop CompactionApply BlockIter TableBuilder DBIter MergingIterator TwoLevelIterator VersionGet Table TableCorrect TableRead TableCache TableOutput.

Open Scope outcome_scope.

(** ** Which entries are dropped *)

(** [current_user_key], if there is one, and [last_sequence_for_key]. *)
Record DropState := mkDrop { current_user_key : option bytes; last_sequence_for_key : Z }.

Definition new_DropState : DropState := mkDrop None kMaxSequenceNumber.

Section Drop.
Context `{user_comparator : Comparator} {FH : Type}.

(** An occurrence of another user key than before. *)
Definition first_occurrence (d : DropState) (key : bytes) : bool :=
  match current_user_key d with
  | None => true
  | Some k => negb (Compare key k =? 0)
  end.

Definition drop_entry (vs : VersionSet FH) (c : Compaction) (smallest_snapshot : Z) (d : DropState) (key : bytes)
    : outcome (Compaction * DropState * bool) :=
  match ParseInternalKey key with
  | None => Ret (c, new_DropState, false)
  | Some ikey =>
      let d := if first_occurrence d (pk_user_key ikey) then mkDrop (Some (pk_user_key ikey)) kMaxSequenceNumber else d in
      let! (c, drop) :=
        if last_sequence_for_key d <=? smallest_snapshot then Ret (c, true)
        else
          match pk_type ikey with
          | kTypeDeletion => if pk_sequence ikey <=? smallest_snapshot then IsBaseLevelForKey vs c (pk_user_key ikey) else Ret (c, false)
          | kTypeValue => Ret (c, false)
          end in
      Ret (c, mkDrop (current_user_key d) (pk_sequence ikey), drop)
  end.
End Drop.

(** ** Outputs *)

(** [CompactionState]. The output file is open while there is a builder, which has it. *)
Record CompactionState (E FH : Type) := mkCompactionState {
  compaction : Compaction;
  smallest_snapshot : Z;
  outputs : list Output;
  builder : option (TableRep (OpenFile E FH));
  total_bytes : Z;
}.
Arguments mkCompactionState {E FH} _ _ _ _ _.
Arguments compaction {E FH} _.
Arguments smallest_snapshot {E FH} _.
Arguments outputs {E FH} _.
Arguments builder {E FH} _.
Arguments total_bytes {E FH} _.

(** What the compaction uses of the database. While an output file is open, its state of the environment is the
    current one. *)
Record Work (E FH TC : Type) := mkWork {
  w_env : E;
  w_versions : VersionSet FH;
  w_pending_outputs : gset Z;
  w_tables : TC;
  w_bg_error : Status;
}.
Arguments mkWork {E FH TC} _ _ _ _ _.
Arguments w_env {E FH TC} _.
Arguments w_versions {E FH TC} _.
Arguments w_pending_outputs {E FH TC} _.
Arguments w_tables {E FH TC} _.
Arguments w_bg_error {E FH TC} _.

Section Outputs.
Context {E FH TC I : Type} `{Env E FH} `{TableVerifier TC E} `{Iterator I} `{user_comparator : Comparator} {user_policy : FilterPolicy} `{Crc32c} `{Compressors}.
Context (dbname : bytes) (options : TableOptions).
Abbreviation TableRep := (TableRep (OpenFile E FH)).
Abbreviation CompactionState := (CompactionState E FH).
Abbreviation Work := (Work E FH TC).

(** The size an output has before its table is finished: the source does not set it. *)
Variable indeterminate : Z.

Definition new_CompactionState (c : Compaction) : CompactionState := mkCompactionState c 0 [] None 0.

Definition set_compaction (st : CompactionState) (c : Compaction) : CompactionState :=
  mkCompactionState c (smallest_snapshot st) (outputs st) (builder st) (total_bytes st).

Definition set_output_state (st : CompactionState) (outs : list Output) (b : option TableRep) (total : Z) : CompactionState :=
  mkCompactionState (compaction st) (smallest_snapshot st) outs b total.

(** A change of [current_output()]. *)
Definition change_current (outs : list Output) (f : Output -> Output) : outcome (list Output) :=
  match list.last outs with
  | Some out => Ret (removelast outs ++ [f out])
  | None => AssertFailed
  end.

Definition OpenCompactionOutputFile (w : Work) (st : CompactionState) : outcome (Work * CompactionState * Status) :=
  assert! bool_decide (builder st = None);
  let (vs, file_number) := NewFileNumber (w_versions w) in
  let pending := {[ file_number ]} ∪ w_pending_outputs w in
  let outs := outputs st ++ [mkOutput file_number indeterminate (mkInternalKey []) (mkInternalKey [])] in
  let! fname := TableFileName dbname file_number in
  let '(env, s, file) := NewWritableFile (w_env w) fname in
  let! b := if ok s then
      match file with
      | None => AssertFailed
      | Some f => let! b := new_builder (user_policy := user_policy) options env f in Ret (Some b)
      end
    else Ret None in
  Ret (mkWork env vs pending (w_tables w) (w_bg_error w), set_output_state st outs b (total_bytes st), s).

(** [input_status] is the status of the input iterator. *)
Definition FinishCompactionOutputFile (w : Work) (st : CompactionState) (input_status : Status) : outcome (Work * CompactionState * Status) :=
  match builder st, list.last (outputs st) with
  | Some b, Some out =>
      let output_number := out_number out in
      assert! negb (output_number =? 0);
      let current_entries := NumEntries b in
      let! (b, s) := if ok input_status then builder_Finish (user_policy := user_policy) b else let! b := table_Abandon b in Ret (b, input_status) in
      let current_bytes := FileSize b in
      let! outs := change_current (outputs st) (fun out => mkOutput (out_number out) current_bytes (out_smallest out) (out_largest out)) in
      let! _ := delete_TableBuilder b in
      let '(env, s) := close_output (of_env (t_file b)) (of_handle (t_file b)) s in
      let st := set_output_state st outs None (u64 (total_bytes st + current_bytes)) in
      let! (tables, env, s) := if ok s && (0 <? current_entries) then table_verify (w_tables w) env output_number current_bytes else Ret (w_tables w, env, s) in
      Ret (mkWork env (w_versions w) (w_pending_outputs w) tables (w_bg_error w), st, s)
  | _, _ => AssertFailed
  end.

Definition CleanupCompaction (w : Work) (st : CompactionState) : outcome Work :=
  let! env := match builder st with
    | Some b =>
        let! b := table_Abandon b in
        let! _ := delete_TableBuilder b in
        Ret (file_delete (of_env (t_file b)) (of_handle (t_file b)))
    | None => Ret (w_env w)
    end in
  Ret (mkWork env (w_versions w) (fold_left (fun pending out => pending ∖ {[ out_number out ]}) (outputs st) (w_pending_outputs w)) (w_tables w) (w_bg_error w)).

(** The first error is kept. *)
Definition RecordBackgroundError (w : Work) (s : Status) : Work :=
  if ok (w_bg_error w) then mkWork (w_env w) (w_versions w) (w_pending_outputs w) (w_tables w) s else w.

(** ** The loop *)

(** The entry is written to the current output, which is opened and finished as needed. *)
Definition add_entry (w : Work) (st : CompactionState) (key value : bytes) (input_status : Status) : outcome (Work * CompactionState * Status) :=
  let! (w, st, s) := if bool_decide (builder st = None) then OpenCompactionOutputFile w st else Ret (w, st, OK) in
  if negb (ok s) then Ret (w, st, s)
  else
    match builder st with
    | None => AssertFailed
    | Some b =>
        let! outs := change_current (outputs st) (fun out =>
          mkOutput (out_number out) (out_file_size out) (if NumEntries b =? 0 then DecodeFrom key else out_smallest out) (DecodeFrom key)) in
        let! b := builder_Add (user_policy := user_policy) b key value in
        let st := set_output_state st outs (Some b) (total_bytes st) in
        if max_output_file_size_ (compaction st) <=? FileSize b then FinishCompactionOutputFile w st input_status else Ret (w, st, OK)
    end.

(** One entry of the input. *)
Definition compact_entry (w : Work) (st : CompactionState) (d : DropState) (key value : bytes) (input_status : Status)
    : outcome (Work * CompactionState * DropState * Status) :=
  let! (c, stop) := ShouldStopBefore (w_versions w) (compaction st) key in
  let st := set_compaction st c in
  let! (w, st, s) := if stop && bool_decide (is_Some (builder st)) then FinishCompactionOutputFile w st input_status else Ret (w, st, OK) in
  if negb (ok s) then Ret (w, st, d, s)
  else
    let! (c, d, drop) := drop_entry (w_versions w) (compaction st) (smallest_snapshot st) d key in
    let st := set_compaction st c in
    if drop then Ret (w, st, d, OK)
    else
      let! (w, st, s) := add_entry w st key value input_status in
      Ret (w, st, d, s).

(** What happens in a round when there is a full memtable: [CompactMemTable] is called, on the state of the
    environment that the open output file has. *)
Variable flush : nat -> Work -> outcome Work.

Definition flush_between (round : nat) (w : Work) (st : CompactionState) : outcome (Work * CompactionState) :=
  match builder st with
  | None => let! w := flush round w in Ret (w, st)
  | Some b =>
      let! w := flush round (mkWork (of_env (t_file b)) (w_versions w) (w_pending_outputs w) (w_tables w) (w_bg_error w)) in
      Ret (w, set_output_state st (outputs st) (Some (set_output b (mkOpen (w_env w) (of_handle (t_file b))) (t_offset b) (t_status b))) (total_bytes st))
  end.

(** [shutting_down] are the values of the flag, read in every round. *)
Fixpoint compact_loop (fuel : nat) (shutting_down : nat -> bool) (w : Work) (st : CompactionState) (d : DropState) (input : I)
    : outcome (Work * CompactionState * I * Status) :=
  match fuel with
  | O => OutOfFuel
  | S fuel =>
      if it_Valid input && negb (shutting_down fuel) then
        let! (w, st) := flush_between fuel w st in
        let! key := it_key input in
        let! value := it_value input in
        let! (w, st, d, s) := compact_entry w st d key value (it_status input) in
        if negb (ok s) then Ret (w, st, input, s)
        else
          let! input := it_Next input in
          compact_loop fuel shutting_down w st d input
      else Ret (w, st, input, OK)
  end.

(** The part that reads the inputs and writes the outputs. [input] is the iterator [MakeInputIterator]
    returned, and [shutdown] the flag after the loop. *)
Definition write_outputs (fuel : nat) (shutting_down : nat -> bool) (shutdown : bool) (oldest : option Z) (w : Work) (st : CompactionState) (input : I)
    : outcome (Work * CompactionState * Status) :=
  let! n := NumLevelFiles (w_versions w) (level_ (compaction st)) in
  assert! 0 <? n;
  assert! bool_decide (builder st = None);
  let snapshot := match oldest with None => vs_last_sequence (w_versions w) | Some s => s end in
  let st := mkCompactionState (compaction st) snapshot (outputs st) (builder st) (total_bytes st) in
  let! input := it_SeekToFirst input in
  let! (w, st, input, s) := compact_loop fuel shutting_down w st new_DropState input in
  let s := if ok s && shutdown then IOError "Deleting DB during compaction" else s in
  let! (w, st, s) := if ok s && bool_decide (is_Some (builder st)) then FinishCompactionOutputFile w st (it_status input) else Ret (w, st, s) in
  Ret (w, st, if ok s then it_status input else s).

Definition DoCompactionWork (fuel : nat) (shutting_down : nat -> bool) (shutdown : bool) (oldest : option Z) (w : Work) (st : CompactionState) (input : I)
    : outcome (Work * CompactionState * Status) :=
  let! (w, st, s) := write_outputs fuel shutting_down shutdown oldest w st input in
  let! (w, st, s) := if ok s then
      let! (env, vs, c, s) := InstallCompactionResults (w_env w) (w_versions w) (compaction st) (outputs st) in
      Ret (mkWork env vs (w_pending_outputs w) (w_tables w) (w_bg_error w), set_compaction st c, s)
    else Ret (w, st, s) in
  Ret (if ok s then w else RecordBackgroundError w s, st, s).
End Outputs.

(** ** What the dropped entries mean *)

Section Survivors.
Context `{laws : ComparatorLaws} (base : bytes -> bool) (snap : Z).

Lemma compare_eq_trans a b c : Compare a b = 0 -> Compare b c = 0 -> Compare a c = 0.
Proof.
  intros Hab Hbc. pose proof (compare_trans a b c). pose proof (compare_trans c b a). apply compare_antisym_eq in Hab as Hba, Hbc as Hcb. pose proof (compare_antisym a c). pose proof (compare_antisym c a). lia.
Qed.

(** The decision for an entry, with the test for the base level as a function. *)
Definition drop_op (d : DropState) (o : entry_op) : DropState * bool :=
  let d := if first_occurrence d (op_key o) then mkDrop (Some (op_key o)) kMaxSequenceNumber else d in
  (mkDrop (current_user_key d) (op_seq o),
   (last_sequence_for_key d <=? snap) || (match op_type o with kTypeDeletion => true | kTypeValue => false end && (op_seq o <=? snap) && base (op_key o))).

Fixpoint survivors (d : DropState) (es : list entry_op) : list entry_op :=
  match es with
  | [] => []
  | o :: es => let (d', drop) := drop_op d o in if drop then survivors d' es else o :: survivors d' es
  end.

(** The entries [es] come after the last one the state has seen. *)
Definition follows (d : DropState) (es : list entry_op) : Prop :=
  forall k o, current_user_key d = Some k -> o ∈ es -> Compare k (op_key o) < 0 \/ (Compare k (op_key o) = 0 /\ op_seq o <= last_sequence_for_key d).

Lemma survivors_sub d es o : o ∈ survivors d es -> o ∈ es.
Proof.
  revert d. induction es as [|x es IH]; intros d; cbn [survivors]; [done|]. destruct (drop_op d x) as [d' []]; [intros Hin; right; by eapply IH|]. intros [->|Hin]%elem_of_cons; [by left|right; by eapply IH].
Qed.

Lemma survivors_sublist d es : survivors d es `sublist_of` es.
Proof. revert d. induction es as [|x es IH]; intros d; cbn [survivors]; [done|]. destruct (drop_op d x) as [d' []]; [by apply sublist_cons|by apply sublist_skip]. Qed.

(** The state after an entry has the entry's user key and sequence number. *)
Lemma drop_op_state d o es : follows d (o :: es) -> exists k, current_user_key (fst (drop_op d o)) = Some k /\ Compare k (op_key o) = 0 /\ last_sequence_for_key (fst (drop_op d o)) = op_seq o.
Proof.
  intros Hf. unfold drop_op, first_occurrence. cbn [fst current_user_key last_sequence_for_key]. destruct (current_user_key d) as [k|] eqn:Ek; cbn [current_user_key].
  - destruct (Z.eqb_spec (Compare (op_key o) k) 0) as [He|He]; cbn [negb current_user_key]; [exists k; rewrite Ek; split; [done|]; split; [by apply compare_antisym_eq|done]|]. exists (op_key o). split; [done|]. split; [apply compare_refl|done].
  - exists (op_key o). split; [done|]. split; [apply compare_refl|done].
Qed.

Lemma follows_step d o es : Forall op_ok (o :: es) -> StronglySorted op_lt (o :: es) -> follows d (o :: es) -> follows (fst (drop_op d o)) es.
Proof.
  intros Hok Hs Hf. destruct (drop_op_state d o es Hf) as (k & Hk & Hc & Hseq). intros k' x Hk' Hx. rewrite Hk in Hk'. injection Hk' as <-. rewrite Hseq.
  inversion_clear Hs as [|?? _ Hall]. rewrite Forall_forall in Hall, Hok. pose proof (Hall x Hx) as Hlt. apply op_lt_cases in Hlt; [|apply Hok; by left|apply Hok; by right].
  destruct Hlt as [Hlt|[He Hle]]; [left; apply (compare_le_lt k (op_key o)); [lia|done]|]. right. split; [by eapply compare_eq_trans|lia].
Qed.

(** Two keys that are equal to the state's key. *)
Lemma same_group d o k u : current_user_key d = Some k -> Compare k u = 0 -> Compare (op_key o) u = 0 -> first_occurrence d (op_key o) = false.
Proof.
  intros Hk Hku Hou. unfold first_occurrence. rewrite Hk. apply compare_antisym_eq in Hku. by rewrite (compare_eq_trans _ _ _ Hou Hku).
Qed.

(** Behind an entry that every snapshot sees, the older ones of its key are dropped. *)
Lemma survivors_hidden u es : forall d k, Forall op_ok es -> StronglySorted op_lt es -> follows d es -> current_user_key d = Some k -> Compare k u = 0 -> last_sequence_for_key d <= snap ->
  forall o, o ∈ survivors d es -> Compare (op_key o) u ≠ 0.
Proof.
  induction es as [|x es IH]; intros d k Hok Hs Hf Hk Hku Hlast o; cbn [survivors]; [by intros ?%elem_of_nil|].
  pose proof (follows_step d x es Hok Hs Hf) as Hf'. destruct (drop_op_state d x es Hf) as (k' & Hk' & Hc' & Hseq'). apply Forall_cons in Hok as Hok'. destruct Hok' as [_ Hok']. inversion Hs as [|?? Hs' Hall]; subst.
  destruct (decide (Compare (op_key x) u = 0)) as [He|Hne].
  - assert (snd (drop_op d x) = true) as Hd. { unfold drop_op. rewrite (same_group d x k u Hk Hku He). cbn [snd]. by rewrite (proj2 (Z.leb_le _ _) Hlast). }
    destruct (drop_op d x) as [d' drop] eqn:Ed. cbn [fst snd] in *. subst drop. apply (IH d' k' Hok' Hs' Hf' Hk').
    + by eapply compare_eq_trans.
    + rewrite Hseq'. destruct (Hf k x Hk ltac:(by left)) as [Hlt|[_ Hle]]; [|lia]. exfalso. pose proof (compare_le_lt u k (op_key x)). apply compare_antisym_eq in Hku as Hku', He as He'. lia.
  - intros Hin. assert (o ∈ x :: es) as Ho. { destruct (drop_op d x) as [d' []]; [right; by eapply survivors_sub|]. apply elem_of_cons in Hin as [->|Hin]; [by left|right; by eapply survivors_sub]. }
    intros Heo. destruct (Hf k x Hk ltac:(by left)) as [Hlt|[Heq _]].
    + assert (Compare u (op_key x) < 0) as Hux by (apply (compare_le_lt u k); [apply compare_antisym_eq in Hku; lia|done]). apply elem_of_cons in Ho as [->|Ho]; [done|]. rewrite Forall_forall in Hall. pose proof (Hall o Ho) as Hxo. unfold op_lt in Hxo.
      apply internal_compare_cases in Hxo. unfold op_ikey in Hxo. rewrite !ExtractUserKey_encode in Hxo. pose proof (compare_lt_le u (op_key x) (op_key o) Hux ltac:(lia)). apply compare_antisym_eq in Heo. lia.
    + apply Hne. apply compare_antisym_eq in Heq. by eapply compare_eq_trans.
Qed.

(** What a read at [s] finds in the surviving entries, compared to all of them: the same, or nothing in place of
    a deletion with nothing below. *)
Definition read_kept (u : bytes) (s : Z) (kept es : list entry_op) : Prop :=
  newest_entry u s kept = newest_entry u s es \/
  ((forall o, o ∈ kept -> ~ visible u s o) /\ exists o, newest_entry u s es = Some o /\ op_type o = kTypeDeletion /\ base (op_key o) = true).

Lemma survivors_read u s es : snap <= s -> snap < kMaxSequenceNumber -> forall d, Forall op_ok es -> StronglySorted op_lt es -> follows d es ->
  (forall k, current_user_key d = Some k -> Compare k u = 0 -> snap < last_sequence_for_key d) -> read_kept u s (survivors d es) es.
Proof.
  intros Hsnap Hmax. unfold read_kept, newest_entry. induction es as [|x es IH]; intros d Hok Hs Hf Hd; cbn [survivors]; [by left|].
  pose proof (follows_step d x es Hok Hs Hf) as Hf'. destruct (drop_op_state d x es Hf) as (k' & Hk' & Hc' & Hseq'). apply Forall_cons in Hok as Hok'. destruct Hok' as [_ Hok']. inversion Hs as [|?? Hs' Hall]; subst.
  assert (forall d', fst (drop_op d x) = d' -> (Compare (op_key x) u = 0 -> snap < op_seq x) -> read_kept u s (survivors d' es) es) as Hnext.
  { intros d' <- Hx. apply IH; [done|done|done|]. intros k Hk Hku. rewrite Hseq'. rewrite Hk' in Hk. injection Hk as <-. apply Hx. apply compare_antisym_eq in Hc'. by eapply compare_eq_trans. }
  rewrite !filter_cons. destruct (decide (Compare (op_key x) u = 0)) as [He|Hne].
  2:{ rewrite (decide_False (P := visible u s x)) by (by intros [? _]). destruct (drop_op d x) as [d' drop] eqn:Ed. specialize (Hnext d' eq_refl ltac:(done)). destruct drop; [exact Hnext|]. rewrite filter_cons, decide_False by (by intros [? _]). destruct Hnext as [Hn|[Hn Hx]]; [by left|]. right. split; [|done].
      intros o [->|Ho]%elem_of_cons; [by intros [? _]|by apply Hn]. }
  assert (snd (drop_op d x) = match op_type x with kTypeDeletion => true | kTypeValue => false end && (op_seq x <=? snap) && base (op_key x)) as Hdrop.
  { unfold drop_op. cbn [snd]. destruct (first_occurrence d (op_key x)) eqn:Ef; cbn [last_sequence_for_key].
    - rewrite (proj2 (Z.leb_gt kMaxSequenceNumber snap)) by lia. done.
    - unfold first_occurrence in Ef. destruct (current_user_key d) as [k|] eqn:Ek; [|done]. apply negb_false_iff, Z.eqb_eq in Ef. rewrite (proj2 (Z.leb_gt _ _)); [done|]. apply (Hd k eq_refl). apply compare_antisym_eq in Ef. by eapply compare_eq_trans. }
  destruct (drop_op d x) as [d' drop] eqn:Ed. cbn [fst snd] in *. subst drop. destruct (match op_type x with kTypeDeletion => true | kTypeValue => false end && (op_seq x <=? snap) && base (op_key x)) eqn:Eb.
  - apply andb_true_iff in Eb as [[Et Hle%Z.leb_le]%andb_true_iff Hbase]. right. rewrite decide_True by (split; [done|lia]). split; [|exists x; split; [done|]; split; [by destruct (op_type x)|done]].
    intros o Ho [Hou _]. refine (survivors_hidden u es d' k' Hok' Hs' Hf' Hk' _ _ o Ho Hou); [by eapply compare_eq_trans|lia].
  - rewrite filter_cons. destruct (decide (visible u s x)) as [Hvis|Hnv]; [by left|]. assert (s < op_seq x) as Hlt by (destruct (Z.le_gt_cases (op_seq x) s); [exfalso; by apply Hnv|done]).
    destruct (Hnext d' eq_refl ltac:(lia)) as [Hn|[Hn Hx]]; [by left|]. right. split; [|done]. intros o [->|Ho]%elem_of_cons; [done|by apply Hn].
Qed.
End Survivors.

(** ** The questions about the version *)

Section Asking.
Context `{laws : ComparatorLaws} {FH : Type}.

(** The compaction can be asked about the entries [rest], which come in order. *)
Record asking (vs : VersionSet FH) (v : Version) (c : Compaction) (rest : list entry_op) : Prop := mkAsking {
  as_version : input_version vs c = Ret v;
  as_wf : version_wf v;
  as_level : 0 <= level_ c;
  as_next : level_ c + 1 < config.kNumLevels;
  as_grand : Forall file_wf (grandparents_ c) /\ disjoint_sorted (grandparents_ c) /\ sizes_ok (grandparents_ c);
  as_ptrs o : o ∈ rest -> ptrs_ok v (op_key o) (level_ c + 2) (level_ptrs_ c);
  as_overlap : exists p, overlap_state c p /\ forall o, o ∈ rest -> (p <= passed (grandparents_ c) (op_ikey o))%nat;
}.

Lemma asking_tail vs v c o rest : asking vs v c (o :: rest) -> asking vs v c rest.
Proof.
  intros [H1' H2' H3' H4' H5' H6' (p & H7' & H8')]. split; try done; [intros x Hx; apply H6'; by right|]. exists p. split; [done|]. intros x Hx. apply H8'. by right.
Qed.

Lemma stop_step vs v c o rest : asking vs v c (o :: rest) -> StronglySorted op_lt (o :: rest) ->
  exists c' stop, ShouldStopBefore vs c (op_ikey o) = Ret (c', stop) /\ same_compaction c c' /\ asking vs v c' (o :: rest).
Proof.
  intros [H1' H2' H3' H4' (Hw & Hd & Hsz) H6' (p & Hp & Hle)] Hs. destruct (ShouldStopBefore_spec vs v c p (op_ikey o) H1' Hw Hd Hsz Hp ltac:(apply Hle; by left)) as [Hstep Hst]. eexists _, _. split; [exact Hstep|]. split; [done|]. split; try done.
  eexists. split; [exact Hst|]. intros x [->|Hx]%elem_of_cons; [done|]. cbn [grandparents_ set_overlap]. apply passed_mono. inversion_clear Hs as [|?? _ Hall]. rewrite Forall_forall in Hall. apply Z.lt_le_incl. by apply Hall.
Qed.

Lemma op_key_le a b : op_lt a b -> Compare (op_key a) (op_key b) <= 0.
Proof. unfold op_lt. intros Hlt. apply internal_compare_cases in Hlt. unfold op_ikey in Hlt. rewrite !ExtractUserKey_encode in Hlt. lia. Qed.

Lemma base_step vs v c o rest : asking vs v c (o :: rest) -> StronglySorted op_lt (o :: rest) ->
  exists c', IsBaseLevelForKey vs c (op_key o) = Ret (c', no_file_below v (level_ c + 2) (op_key o)) /\ same_compaction c c' /\ asking vs v c' (o :: rest).
Proof.
  intros [H1' H2' H3' H4' H5' H6' H7'] Hs. unfold IsBaseLevelForKey. rewrite H1'. cbn [obind].
  destruct (base_level_loop_spec (Z.to_nat (config.kNumLevels - (level_ c + 2))) v (op_key o) (level_ c + 2) (level_ptrs_ c) H2' ltac:(lia) ltac:(lia) (H6' o ltac:(by left))) as (ptrs & -> & [Hlen Hok] & _). cbn [obind]. eexists. split; [done|]. split; [done|]. split; try done.
  intros x Hx. cbn [level_ level_ptrs_ set_level_ptrs]. split; [done|]. intros i files Hi Hf. destruct (Hok i files Hi Hf) as (q & Hq & Hqo). exists q. split; [done|]. eapply ptr_ok_mono; [|exact Hqo].
  apply elem_of_cons in Hx as [->|Hx]; [by rewrite compare_refl|]. inversion_clear Hs as [|?? _ Hall]. rewrite Forall_forall in Hall. by apply op_key_le, Hall.
Qed.

Lemma drop_step vs v c snap d o rest : asking vs v c (o :: rest) -> StronglySorted op_lt (o :: rest) -> op_ok o ->
  exists c', drop_entry vs c snap d (op_ikey o) = Ret (c', fst (drop_op (no_file_below v (level_ c + 2)) snap d o), snd (drop_op (no_file_below v (level_ c + 2)) snap d o)) /\ same_compaction c c' /\ asking vs v c' (o :: rest).
Proof.
  intros Has Hs (Ho & _). unfold drop_entry, drop_op, op_ikey. rewrite ParseInternalKey_encode by done. cbn [pk_user_key pk_sequence pk_type fst snd].
  set (d1 := if first_occurrence d (op_key o) then _ else _). destruct (last_sequence_for_key d1 <=? snap); cbn [obind orb]; [by exists c|]. destruct (op_type o); cbn [obind andb].
  - destruct (op_seq o <=? snap); cbn [obind andb]; [|by exists c]. destruct (base_step vs v c o rest Has Hs) as (c' & -> & Hsame & Has'). cbn [obind]. by exists c'.
  - by exists c.
Qed.
End Asking.

(** ** The outputs *)

Lemma table_name_inj dbname n m : 0 < n < 2 ^ 64 -> 0 < m < 2 ^ 64 -> MakeFileName dbname n "ldb" = MakeFileName dbname m "ldb" -> n = m.
Proof.
  intros Hn Hm. unfold MakeFileName. intros Heq%app_inv_head. injection Heq as Heq.
  pose proof (ParseFileName_number n (str ".ldb") ltac:(lia) ltac:(by intros c [= <-]; left)) as Pn. pose proof (ParseFileName_number m (str ".ldb") ltac:(lia) ltac:(by intros c [= <-]; left)) as Pm. assert (decimal06 n ++ str ".ldb" = decimal06 m ++ str ".ldb") as Heq' by exact Heq. rewrite Heq' in Pn. rewrite Pn in Pm. cbn in Pm. by injection Pm.
Qed.

Section Writing.
Context `{laws : ComparatorLaws} {user_policy : FilterPolicy} `{flaws : !FilterPolicyLaws} `{Crc32c} `{Compressors} `{lens : !@SeparatorLengths InternalKeyComparator}.
Context {E FH TC I : Type} `{vlaws : TableVerifierLaws TC E FH} `{Iterator I} (dbname : bytes) (o : TableOptions) (indeterminate : Z).
Abbreviation keep := (keeps env_ok fs writes reads).
Abbreviation TableRep := (TableRep (OpenFile E FH)).
Abbreviation CompactionState := (CompactionState E FH).
Abbreviation Work := (Work E FH TC).
Abbreviation fname n := (MakeFileName dbname n "ldb").
Hypothesis interval_ok : 1 <= to_restart_interval o.
Hypothesis name_ok : forall name, to_filter_name o = Some name -> zlen name < 2 ^ 31.
Hypothesis file_limit : forall e h d e', file_Append e h d = (e', OK) -> zlen (hbytes e' h) < 2 ^ 32.

(** The file system and the version set when the work begins. *)
Context (e_init : E) (vs_init : VersionSet FH).
Abbreviation first := (vs_next_file_number vs_init).
Hypothesis first_ok : 0 < first.

(** Only tables have changed. *)
Definition only_tables (e : E) : Prop :=
  env_ok e /\ forall m, (forall k, 0 < k < 2 ^ 64 -> m ≠ fname k) -> fs e m = fs e_init m /\ forall h, writes e_init h m -> writes e h m.

Lemma only_tables_keep e e' n : 0 < n < 2 ^ 64 -> only_tables e -> keep e e' (fname n) -> only_tables e'.
Proof. intros Hn [_ Ht] (He & Hf & Hw). split; [done|]. intros m Hm. destruct (Ht m Hm) as [<- Hwm]. specialize (Hm n Hn). split; [by apply Hf|]. intros h Hh. apply Hw; auto. Qed.

(** Only the next file number has changed. *)
Definition same_set (vs vs' : VersionSet FH) : Prop :=
  vs_dbname vs' = vs_dbname vs /\ vs_options vs' = vs_options vs /\ vs_comparator vs' = vs_comparator vs /\ vs_manifest_file_number vs' = vs_manifest_file_number vs /\
  vs_last_sequence vs' = vs_last_sequence vs /\ vs_log_number vs' = vs_log_number vs /\ vs_prev_log_number vs' = vs_prev_log_number vs /\
  descriptor_file_ vs' = descriptor_file_ vs /\ descriptor_log_ vs' = descriptor_log_ vs /\ vs_versions vs' = vs_versions vs /\ compact_pointer_ vs' = compact_pointer_ vs.

Lemma same_set_trans vs1 vs2 vs3 : same_set vs1 vs2 -> same_set vs2 vs3 -> same_set vs1 vs3.
Proof. unfold same_set. intros. destruct_and!. split_and!; congruence. Qed.

Lemma same_set_numbers vs vs' : same_set vs vs' ->
  vs' = set_numbers vs (vs_next_file_number vs') (vs_manifest_file_number vs) (vs_last_sequence vs) (vs_log_number vs) (vs_prev_log_number vs).
Proof. destruct vs, vs'. unfold same_set, set_numbers. cbn. intros. destruct_and!. congruence. Qed.

(** The bounds of an output are the first and the last key of its entries. *)
Definition keys_of (out : Output) (es : list entry_op) : Prop :=
  exists x y, head es = Some x /\ out_smallest out = mkInternalKey (op_ikey x) /\ list.last es = Some y /\ out_largest out = mkInternalKey (op_ikey y).

(** A finished output: its table has the entries [seg]. *)
Definition output_table (e : E) (out : Output) (seg : list entry_op) : Prop :=
  0 < out_number out < 2 ^ 64 /\ keys_of out seg /\ exists img, fs e (fname (out_number out)) = Some img /\ out_file_size out = zlen img /\ zlen img < 2 ^ 32 /\ table_of (user_policy := user_policy) o img seg.

Lemma output_table_keep e e' n out seg : keep e e' (fname n) -> 0 < n < 2 ^ 64 -> out_number out ≠ n -> output_table e out seg -> output_table e' out seg.
Proof.
  intros (_ & Hf & _) Hn Hne (Hr & Hk & img & Hi & Hs & Ht). split; [done|]. split; [done|]. exists img. split; [|done]. rewrite Hf; [done|]. intros Heq. by apply table_name_inj in Heq.
Qed.

Lemma outputs_keep e e' n outs segs : keep e e' (fname n) -> 0 < n < 2 ^ 64 -> Forall (fun out => out_number out ≠ n) outs -> Forall2 (output_table e) outs segs -> Forall2 (output_table e') outs segs.
Proof. intros K Hn Hd Ho. revert Hd. induction Ho as [|out seg outs segs Hos Ho IH]; intros Hd; [done|]. apply Forall_cons in Hd as [Hne Hd]. constructor; [by eapply output_table_keep|by apply IH]. Qed.

(** The output that is being written, with the entries [es]. *)
Record open_output (e0 : E) (out : Output) (b : TableRep) (es : list entry_op) : Prop := mkOpenOutput {
  op_number : 0 < out_number out < 2 ^ 64;
  op_builder : exists h, output_at (user_policy := user_policy) o e0 (fname (out_number out)) h b es;
  op_count : t_status b = OK -> NumEntries b = zlen es;
  op_keys : t_status b = OK -> es ≠ [] -> keys_of out es;
}.

(** The finished outputs have the entries [segs], and the open one [cur]. *)
Definition compacting (w : Work) (st : CompactionState) (segs : list (list entry_op)) (cur : list entry_op) : Prop :=
  first <= vs_next_file_number (w_versions w) /\ Forall (fun out => first <= out_number out < vs_next_file_number (w_versions w)) (outputs st) /\ NoDup (out_number <$> outputs st) /\
  match builder st with
  | None => cur = [] /\ only_tables (w_env w) /\ Forall2 (output_table (w_env w)) (outputs st) segs
  | Some b => cur ≠ [] /\ exists fin out e0, outputs st = fin ++ [out] /\ only_tables e0 /\ Forall2 (output_table e0) fin segs /\ open_output e0 out b cur
  end.

(** What a step of the loop leaves as it is. *)
Definition same_work (w w' : Work) (st st' : CompactionState) : Prop :=
  vs_versions (w_versions w') = vs_versions (w_versions w) /\ vs_options (w_versions w') = vs_options (w_versions w) /\ w_bg_error w' = w_bg_error w /\
  compaction st' = compaction st /\ smallest_snapshot st' = smallest_snapshot st /\ same_set (w_versions w) (w_versions w').

Lemma same_work_trans w1 w2 w3 st1 st2 st3 : same_work w1 w2 st1 st2 -> same_work w2 w3 st2 st3 -> same_work w1 w3 st1 st3.
Proof. intros (?&?&?&?&?&K) (?&?&?&?&?&K'). split_and!; [congruence..|]. exact (same_set_trans _ _ _ K K'). Qed.

(** The numbers of the outputs before the last one are different from its number. *)
Lemma others_differ fin out : NoDup (out_number <$> fin ++ [out]) -> Forall (fun out' => out_number out' ≠ out_number out) fin.
Proof.
  rewrite fmap_app. intros Hnd. apply NoDup_app in Hnd as (_ & Hd & _). apply Forall_forall. intros x Hx Heq. apply (Hd (out_number x)); [by apply list_elem_of_fmap_2|]. rewrite Heq. by left.
Qed.

Lemma change_current_snoc fin out f : change_current (fin ++ [out]) f = Ret (fin ++ [f out]).
Proof. unfold change_current. rewrite last_snoc, removelast_last. done. Qed.

Lemma finish_step w st segs es : compacting w st segs es -> builder st ≠ None -> table_input es ->
  exists w' st' s, FinishCompactionOutputFile (user_policy := user_policy) w st OK = Ret (w', st', s) /\ same_work w w' st st' /\ vs_next_file_number (w_versions w') = vs_next_file_number (w_versions w) /\
    (s = OK -> compacting w' st' (segs ++ [es]) []) /\ builder st' = None.
Proof.
  intros (Hnext & Hnums & Hnd & Hb) Hne Hin. unfold FinishCompactionOutputFile. destruct (builder st) as [b|] eqn:Eb; [|done]. destruct Hb as (Hes & fin & out & e0 & Hout & He0 & Hfin & [Hnum (h & Hat) Hcount Hkeys]).
  rewrite Hout in Hnums, Hnd. pose proof (others_differ _ _ Hnd) as Hdiff.
  rewrite Hout, last_snoc. destruct (Z.eqb_spec (out_number out) 0) as [|_]; [lia|]. cbn [negb oassert obind ok].
  assert (t_status b = OK \/ t_status b ≠ OK) as Hstb by (destruct (decide (t_status b = OK)); auto).
  destruct (output_Finish o interval_ok name_ok file_limit e0 (fname (out_number out)) h b es Hat Hin) as (b' & s' & Hfin' & Hc & (Hh & Hw & K & Hlim) & Hok). rewrite Hfin'. cbn [obind]. rewrite change_current_snoc. cbn [obind]. unfold delete_TableBuilder. rewrite Hc. cbn [oassert obind]. rewrite Hh.
  destruct (close_output_spec (of_env (t_file b')) h (fname (out_number out)) s' (keeps_ok _ _ _ K) Hw) as (e3 & s3 & -> & K3 & Hs3 & Hf3).
  assert (exists tc4 e4 s4, (if ok s3 && (0 <? NumEntries b) then table_verify (w_tables w) e3 (out_number out) (FileSize b') else Ret (w_tables w, e3, s3)) = Ret (tc4, e4, s4) /\ keep e3 e4 (fname (out_number out)) /\ fs e4 (fname (out_number out)) = fs e3 (fname (out_number out)) /\ (s4 = OK -> s3 = OK)) as (tc4 & e4 & s4 & -> & K4 & Hf4 & Hs4).
  { destruct (ok s3) eqn:Es3; cbn [andb]; [|exists (w_tables w), e3, s3; split; [done|]; split; [by eapply keeps_refl, keeps_ok|by split]]. apply ok_true in Es3. destruct (0 <? NumEntries b); [|exists (w_tables w), e3, s3; split; [done|]; split; [by eapply keeps_refl, keeps_ok|by split]].
    destruct (verify_returns (w_tables w) e3 (out_number out) (FileSize b') (keeps_ok _ _ _ K3)) as (tc4 & e4 & s4 & -> & He4 & Hfs & Hws). exists tc4, e4, s4. split; [done|]. split; [split; [done|]; split; [intros m _; apply Hfs|intros h' m _; apply Hws]|]. by split. }
  cbn [obind]. eexists _, _, _. split; [done|]. split; [done|]. split; [done|]. split; [|done]. intros HsOK. assert (s' = OK) as Hs' by auto. destruct (Hok Hs') as (Hpos & Hsz & Htab).
  assert (t_status b = OK) as Hbst.
  { destruct Hstb as [|Hn]; [done|]. exfalso. destruct Hat as [[Hr|Hr] _].
    - destruct Hr as (bs & pend & cur & G & _). by apply Hn, (tg_status _ _ _ _ _ G).
    - unfold builder_Finish in Hfin'. rewrite (table_Finish_failed b Hr) in Hfin'. injection Hfin' as _ <-. done. }
  assert (keep e0 e4 (fname (out_number out))) as K04 by exact (keeps_trans _ _ _ _ K (keeps_trans _ _ _ _ K3 K4)).
  split; [done|]. split; [|split; [cbn [outputs set_output_state]; by rewrite fmap_app in *|]].
  - cbn [outputs set_output_state w_versions]. apply Forall_app in Hnums as [Hn1 Hn2]. apply Forall_app. split; [done|]. apply Forall_singleton. apply Forall_cons in Hn2 as [Hn2 _]. exact Hn2.
  - cbn [builder set_output_state outputs w_env]. split; [done|]. split; [by eapply only_tables_keep|]. apply Forall2_app.
    + by eapply outputs_keep.
    + constructor; [|constructor]. split; [done|]. split; [destruct (Hkeys Hbst Hes) as (x & y & Hx); by exists x, y|]. exists (hbytes (of_env (t_file b')) h). cbn [out_number out_file_size]. rewrite Hf4, Hf3, (writes_fs _ _ _ Hw). split; [done|]. split; [done|]. split; [by apply Hlim|done].
Qed.

Lemma head_snoc {A} (l : list A) x y : head l = Some y -> head (l ++ [x]) = Some y.
Proof. by destruct l. Qed.

(** A new output. *)
Lemma open_step w st segs : compacting w st segs [] -> builder st = None -> vs_next_file_number (w_versions w) < 2 ^ 64 - 1 ->
  exists w' st' s, OpenCompactionOutputFile (user_policy := user_policy) dbname o indeterminate w st = Ret (w', st', s) /\ same_work w w' st st' /\ vs_next_file_number (w_versions w') = vs_next_file_number (w_versions w) + 1 /\
    Forall (fun out => first <= out_number out < vs_next_file_number (w_versions w')) (outputs st') /\ NoDup (out_number <$> outputs st') /\
    (s = OK -> exists b out, builder st' = Some b /\ outputs st' = outputs st ++ [out] /\ Forall2 (output_table (w_env w)) (outputs st) segs /\ open_output (w_env w) out b []).
Proof.
  intros (Hnext & Hnums & Hnd & Hb) Hnb Hroom. rewrite Hnb in Hb. destruct Hb as (_ & [He _] & Hfin). unfold OpenCompactionOutputFile. rewrite Hnb. rewrite bool_decide_eq_true_2 by done. cbn [oassert obind]. unfold NewFileNumber. rewrite u64_small by lia. set (n := vs_next_file_number (w_versions w)) in *.
  unfold TableFileName. rewrite (proj2 (Z.ltb_lt 0 n)) by lia. cbn [oassert obind]. destruct (NewWritableFile (w_env w) (fname n)) as [[e1 s1] file] eqn:E1. destruct (new_writable _ _ _ _ _ He E1) as [K1 Hopen].
  assert (Forall (fun out => first <= out_number out < n + 1) (outputs st ++ [mkOutput n indeterminate (mkInternalKey []) (mkInternalKey [])])) as Hnums'.
  { apply Forall_app. split; [eapply Forall_impl; [exact Hnums|]; cbn; lia|]. constructor; [cbn; lia|constructor]. }
  assert (NoDup (out_number <$> outputs st ++ [mkOutput n indeterminate (mkInternalKey []) (mkInternalKey [])])) as Hnd'.
  { rewrite fmap_app. apply NoDup_app. split; [done|]. split; [|apply NoDup_singleton]. intros k (out & -> & Hin)%list_elem_of_fmap. rewrite Forall_forall in Hnums. pose proof (Hnums out Hin). cbn. intros Heq%list_elem_of_singleton. lia. }
  destruct (ok s1) eqn:Es1; cbn [obind].
  2:{ eexists _, _, _. split; [done|]. split; [done|]. split; [done|]. split; [exact Hnums'|]. split; [exact Hnd'|]. by intros ->. }
  apply ok_true in Es1. destruct (Hopen Es1) as (h & -> & Hw & Hbytes). destruct (output_new (user_policy := user_policy) o interval_ok (w_env w) e1 (fname n) h K1 Hw Hbytes) as (b & Hnew & Hat). rewrite Hnew. cbn [obind].
  eexists _, _, _. split; [done|]. split; [done|]. split; [done|]. split; [exact Hnums'|]. split; [exact Hnd'|]. intros _. eexists _, _. split; [done|]. split; [done|]. split; [done|].
  split; [cbn; lia|by exists h| |done]. intros Hst. destruct Hat as [[(bs & pend & cur & G & Hes & _)|[Hn _]] _]; [|done]. unfold NumEntries. rewrite (tg_num _ _ _ _ _ G), <- Hes. done.
Qed.

(** An entry joins the open output. *)
Lemma join_step e0 out b es x : open_output e0 out b es -> table_input (es ++ [x]) ->
  exists b', builder_Add (user_policy := user_policy) b (op_ikey x) (op_value x) = Ret b' /\
    open_output e0 (mkOutput (out_number out) (out_file_size out) (if NumEntries b =? 0 then DecodeFrom (op_ikey x) else out_smallest out) (DecodeFrom (op_ikey x))) b' (es ++ [x]).
Proof.
  intros [Hnum (h & Hat) Hcount Hkeys] Hin. destruct (output_Add o interval_ok file_limit e0 _ h b es x Hat Hin) as (b' & Hb' & Hat'). exists b'. split; [done|].
  assert (t_status b' = OK -> t_status b = OK) as Hback.
  { intros Hok. destruct Hat as [[(bs & pend & cur & G & _)|Hf] _]; [apply (tg_status _ _ _ _ _ G)|]. unfold builder_Add in Hb'. rewrite (table_Add_failed b _ _ Hf) in Hb'. injection Hb' as <-. done. }
  split; [done|by exists h| |].
  - intros Hok. destruct Hat' as [[(bs & pend & cur & G & Hes & _)|[Hn _]] _]; [|done]. unfold NumEntries. rewrite (tg_num _ _ _ _ _ G), <- Hes. unfold zlen, shown_entries. by rewrite length_fmap.
  - intros Hok _. rewrite (Hcount (Hback Hok)). destruct es as [|y es].
    + exists x, x. done.
    + rewrite zlen_cons. destruct (Z.eqb_spec (1 + zlen es) 0); [pose proof (zlen_nonneg es); lia|]. destruct (Hkeys (Hback Hok) ltac:(done)) as (a & z & Ha & Hsm & _). exists a, x. split; [by apply head_snoc|]. split; [done|]. by rewrite last_snoc.
Qed.

Definition grown (cur : list entry_op) (x : entry_op) (segs : list (list entry_op)) (w : Work) (st : CompactionState) : Prop :=
  compacting w st segs (cur ++ [x]) \/ compacting w st (segs ++ [cur ++ [x]]) [].

Lemma add_step w st segs cur x : compacting w st segs cur -> table_input (cur ++ [x]) -> vs_next_file_number (w_versions w) < 2 ^ 64 - 1 ->
  exists w' st' s, add_entry (user_policy := user_policy) dbname o indeterminate w st (op_ikey x) (op_value x) OK = Ret (w', st', s) /\ same_work w w' st st' /\ vs_next_file_number (w_versions w') <= vs_next_file_number (w_versions w) + 1 /\
    (s = OK -> grown cur x segs w' st').
Proof.
  intros Hc Hin Hroom. unfold add_entry.
  assert (exists w1 st1 s1, (if bool_decide (builder st = None) then OpenCompactionOutputFile (user_policy := user_policy) dbname o indeterminate w st else Ret (w, st, OK)) = Ret (w1, st1, s1) /\ same_work w w1 st st1 /\ vs_next_file_number (w_versions w) <= vs_next_file_number (w_versions w1) <= vs_next_file_number (w_versions w) + 1 /\
    (s1 = OK -> exists b out fin e0, builder st1 = Some b /\ outputs st1 = fin ++ [out] /\ only_tables e0 /\ Forall2 (output_table e0) fin segs /\ open_output e0 out b cur /\ NoDup (out_number <$> outputs st1) /\ Forall (fun out => first <= out_number out < vs_next_file_number (w_versions w1)) (outputs st1))) as (w1 & st1 & s1 & -> & Hsame & Hnn & Hopen).
  { destruct (builder st) as [b|] eqn:Eb.
    - rewrite bool_decide_eq_false_2 by done. exists w, st, OK. split; [done|]. split; [done|]. split; [lia|]. intros _. destruct Hc as (_ & Hnums & Hnd & Hb). rewrite Eb in Hb. destruct Hb as (_ & fin & out & e0 & Ho & He & Hf & Hop). by exists b, out, fin, e0.
    - rewrite bool_decide_eq_true_2 by done. assert (cur = []) as -> by (destruct Hc as (_ & _ & _ & Hb); rewrite Eb in Hb; by destruct Hb). destruct (open_step w st segs Hc Eb Hroom) as (w1 & st1 & s1 & -> & Hsame & Hn & Hnums & Hnd & Hok). exists w1, st1, s1. split; [done|]. split; [done|]. split; [lia|].
      intros HsOK. destruct (Hok HsOK) as (b & out & Hb & Ho & Hf & Hop). exists b, out, (outputs st), (w_env w). destruct Hc as (_ & _ & _ & Hb'). rewrite Eb in Hb'. by destruct Hb' as (_ & He & _). }
  cbn [obind]. destruct (ok s1) eqn:Es1; cbn [negb].
  2:{ exists w1, st1, s1. split; [done|]. split; [done|]. split; [lia|]. by intros ->. }
  apply ok_true in Es1. destruct (Hopen Es1) as (b & out & fin & e0 & Hb & Ho & He & Hf & Hop & Hnd & Hnums). rewrite Ho in Hnd. rewrite Hb, Ho, change_current_snoc. cbn [obind]. destruct (join_step e0 out b cur x Hop Hin) as (b' & -> & Hop'). cbn [obind].
  set (out' := mkOutput _ _ _ _) in *. set (st2 := set_output_state st1 (fin ++ [out']) (Some b') (total_bytes st1)).
  assert (compacting w1 st2 segs (cur ++ [x])) as Hc2.
  { destruct Hc as (Hpos & _). split; [lia|]. split; [|split; [cbn [outputs set_output_state st2]; by rewrite fmap_app in *|]].
    - cbn [outputs set_output_state st2]. rewrite Ho in Hnums. apply Forall_app in Hnums as [Hn1 Hn2]. apply Forall_cons in Hn2 as [Hn2 _]. apply Forall_app. split; [done|]. constructor; [exact Hn2|constructor].
    - cbn [builder set_output_state st2]. split; [by destruct cur|]. exists fin, out', e0. split; [done|]. split; [done|]. split; [done|]. exact Hop'. }
  assert (same_work w w1 st st2) as Hsame2 by done. destruct (_ <=? _).
  - destruct (finish_step w1 st2 segs (cur ++ [x]) Hc2 ltac:(done) Hin) as (w3 & st3 & s3 & -> & Hs3 & Hn3 & Hok3 & _). exists w3, st3, s3. split; [done|]. split; [exact (same_work_trans _ _ _ _ _ _ Hsame2 Hs3)|]. split; [lia|]. intros HsOK. right. by apply Hok3.
  - exists w1, st2, OK. split; [done|]. split; [done|]. split; [lia|]. intros _. by left.
Qed.

(** *** The loop *)

Lemma asking_versions (vs vs' : VersionSet FH) v c rest : vs_versions vs' = vs_versions vs -> asking vs v c rest -> asking vs' v c rest.
Proof. intros Hv [H1' H2' H3' H4' H5' H6' H7']. split; try done. unfold input_version in *. by rewrite Hv. Qed.

Lemma same_compaction_trans a b c : same_compaction a b -> same_compaction b c -> same_compaction a c.
Proof. unfold same_compaction. intros (?&?&?&?&?&?&?) (?&?&?&?&?&?&?). split_and!; congruence. Qed.

Lemma compacting_compaction w st segs cur c : compacting w st segs cur -> compacting w (set_compaction st c) segs cur.
Proof. done. Qed.

(** Where a run of the loop stands: the version is [v], the entries of [segs] and [cur] are written, those of
    [rest] are still to come. *)
Record loop_state (v : Version) (c0 : Compaction) (snap : Z) (w : Work) (st : CompactionState) (segs : list (list entry_op)) (cur rest : list entry_op) : Prop := mkLoopState {
  ls_compacting : compacting w st segs cur;
  ls_asking : asking (w_versions w) v (compaction st) rest;
  ls_same : same_compaction c0 (compaction st);
  ls_snap : smallest_snapshot st = snap;
  ls_set : same_set vs_init (w_versions w);
  ls_room : vs_next_file_number (w_versions w) + zlen rest < 2 ^ 64 - 1;
}.

Lemma entry_step v c0 snap w st segs cur d x rest : let base := no_file_below v (level_ c0 + 2) in
  loop_state v c0 snap w st segs cur (x :: rest) -> StronglySorted op_lt (x :: rest) -> op_ok x -> table_input (concat segs ++ cur ++ survivors base snap d (x :: rest)) ->
  exists w' st' d' s, compact_entry (user_policy := user_policy) dbname o indeterminate w st d (op_ikey x) (op_value x) OK = Ret (w', st', d', s) /\
    (s = OK -> d' = fst (drop_op base snap d x) /\ exists segs' cur', loop_state v c0 snap w' st' segs' cur' rest /\
       concat segs' ++ cur' = concat segs ++ cur ++ if snd (drop_op base snap d x) then [] else [x]).
Proof.
  intros base [Hc Has Hsm Hsn Hset Hroom] Hs Hok Hin. rewrite zlen_cons in Hroom. pose proof (zlen_nonneg rest) as Hnn. unfold compact_entry. destruct (stop_step _ v (compaction st) x rest Has Hs) as (c1 & stop & -> & Hsm1 & Has1). cbn [obind].
  assert (table_input cur) as Hcur by (apply table_input_app in Hin as [_ Hin]; by apply table_input_app in Hin as [? _]).
  set (st1 := set_compaction st c1). assert (compacting w st1 segs cur) as Hc1 by done.
  assert (exists w2 st2 s2, (if stop && bool_decide (is_Some (builder st1)) then FinishCompactionOutputFile (user_policy := user_policy) w st1 OK else Ret (w, st1, OK)) = Ret (w2, st2, s2) /\ same_work w w2 st1 st2 /\ vs_next_file_number (w_versions w2) = vs_next_file_number (w_versions w) /\
    (s2 = OK -> exists segs2 cur2, compacting w2 st2 segs2 cur2 /\ concat segs2 ++ cur2 = concat segs ++ cur /\ (cur2 = cur \/ cur2 = []))) as (w2 & st2 & s2 & -> & Hw2 & Hn2 & Hok2).
  { destruct stop; cbn [andb]; [|exists w, st1, OK; split; [done|]; split; [done|]; split; [done|]; intros _; by exists segs, cur; auto]. destruct (builder st1) as [b|] eqn:Eb.
    - rewrite bool_decide_eq_true_2 by done. destruct (finish_step w st1 segs cur Hc1 ltac:(by rewrite Eb) Hcur) as (w2 & st2 & s2 & -> & Hw2 & Hn2 & Hok2 & _). exists w2, st2, s2. split; [done|]. split; [done|]. split; [done|]. intros HsOK. exists (segs ++ [cur]), []. split; [by apply Hok2|]. split; [|by right]. rewrite concat_app. cbn. by rewrite !app_nil_r.
    - rewrite bool_decide_eq_false_2 by (by intros []). exists w, st1, OK. split; [done|]. split; [done|]. split; [done|]. intros _. by exists segs, cur; auto. }
  cbn [obind]. destruct (ok s2) eqn:Es2; cbn [negb]; [|eexists _, _, _, _; split; [done|]; by intros ->]. apply ok_true in Es2. destruct (Hok2 Es2) as (segs2 & cur2 & Hc2 & Hcat & Hcur2). destruct Hw2 as (Hv2 & Ho2 & Hbg2 & Hcomp2 & Hsnap2 & Hset2). pose proof (same_set_trans _ _ _ Hset Hset2) as Hset'.
  assert (compaction st2 = c1) as -> by (rewrite Hcomp2; done). assert (smallest_snapshot st2 = snap) as -> by (rewrite Hsnap2; exact Hsn).
  apply (asking_versions _ (w_versions w2)) in Has1; [|done]. destruct (drop_step (w_versions w2) v c1 snap d x rest Has1 Hs Hok) as (c3 & -> & Hsm3 & Has3). cbn [obind].
  assert (same_compaction c0 c3) as Hs03 by exact (same_compaction_trans _ _ _ (same_compaction_trans _ _ _ Hsm Hsm1) Hsm3). assert (level_ c1 = level_ c0) as Hlev by (destruct Hsm as [E1 _], Hsm1 as [E2 _]; congruence). rewrite Hlev. fold base.
  destruct (drop_op base snap d x) as [d' drop] eqn:Ed. cbn [fst snd]. set (st3 := set_compaction st2 c3). assert (compacting w2 st3 segs2 cur2) as Hc3 by done. destruct drop.
  - eexists _, _, _, _. split; [done|]. intros _. split; [done|]. exists segs2, cur2. split; [split; [done|by eapply asking_tail|done|by rewrite <- Hsn|done|lia]|]. by rewrite app_nil_r.
  - assert (table_input (cur2 ++ [x])) as Hin2.
    { cbn [survivors] in Hin. rewrite Ed in Hin. apply table_input_app in Hin as [_ Hin]. rewrite (cons_middle x), app_assoc in Hin. apply table_input_app in Hin as [Hin _]. destruct Hcur2 as [-> | ->]; [done|]. by apply table_input_app in Hin as [_ Hin]. }
    destruct (add_step w2 st3 segs2 cur2 x Hc3 Hin2 ltac:(lia)) as (w4 & st4 & s4 & -> & (Hv4 & Ho4 & Hbg4 & Hcomp4 & Hsnap4 & Hset4) & Hn4 & Hok4). cbn [obind]. eexists _, _, _, _. split; [done|]. intros HsOK. split; [done|].
    assert (forall segs' cur', compacting w4 st4 segs' cur' -> loop_state v c0 snap w4 st4 segs' cur' rest) as Hls.
    { intros segs' cur' Hc4. split; [done| | | |exact (same_set_trans _ _ _ Hset' Hset4)|lia].
      - rewrite Hcomp4. apply (asking_versions (w_versions w2)); [done|]. by eapply asking_tail.
      - by rewrite Hcomp4.
      - rewrite Hsnap4. cbn. rewrite Hsnap2. exact Hsn. }
    destruct (Hok4 HsOK) as [Hg|Hg]; eexists _, _; (split; [by apply Hls|]).
    + by rewrite !app_assoc, Hcat.
    + rewrite concat_app. cbn. rewrite !app_nil_r. by rewrite !app_assoc, Hcat.
Qed.

(** No memtable is flushed in between. *)
Context (flush : nat -> Work -> outcome Work).
Hypothesis no_flush : forall m w, flush m w = Ret w.

Lemma flush_between_none m v c0 snap w st segs cur rest : loop_state v c0 snap w st segs cur rest ->
  exists w', flush_between flush m w st = Ret (w', st) /\ loop_state v c0 snap w' st segs cur rest.
Proof.
  intros [Hc Has Hsm Hsn Hset Hroom]. unfold flush_between. destruct (builder st) as [b|] eqn:Eb; rewrite no_flush; cbn [obind]; [|by exists w]. eexists. split.
  - do 2 f_equal. destruct st as [cc sn outs bo tot]. cbn in Eb. subst bo. unfold set_output_state. cbn. do 2 f_equal. destruct b as [f1 [e h]]. done.
  - split; try done. destruct Hc as (Hx & Hy & Hnd & Hb). split; [done|]. split; [done|]. split; [done|]. by rewrite Eb in *.
Qed.

Context (es : list entry_op) `{ilaws : !IteratorLaws I internal_compare (shown_entries es)}.
Hypothesis es_ok : Forall op_ok es.
Hypothesis es_sorted : StronglySorted op_lt es.
Abbreviation n := (length (shown_entries es)).

Lemma loop_spec shutting_down v c0 snap fuel : let base := no_file_below v (level_ c0 + 2) in forall w st d it j segs cur,
  loop_state v c0 snap w st segs cur (drop j es) -> at_index it (index_of n j) -> (length es - j < fuel)%nat -> table_input (concat segs ++ cur ++ survivors base snap d (drop j es)) ->
  exists w' st' it' s, compact_loop (user_policy := user_policy) dbname o indeterminate flush fuel shutting_down w st d it = Ret (w', st', it', s) /\ it_status it' = OK /\
    (s = OK -> (exists m, shutting_down m = true) \/ exists segs' cur', loop_state v c0 snap w' st' segs' cur' [] /\ concat segs' ++ cur' = concat segs ++ cur ++ survivors base snap d (drop j es)).
Proof.
  intros base. induction fuel as [|fuel IH]; intros w st d it j segs cur Hls Hat Hf Hin; [lia|]. cbn [compact_loop]. destruct (at_valid it _ Hat) as [Hv Hst]. rewrite Hv, Hst. assert (n = length es) as Hn by apply length_fmap. unfold index_of in Hat |- *. rewrite Hn in *. destruct (Nat.ltb_spec j (length es)) as [Hlt|Hge].
  2:{ rewrite bool_decide_eq_false_2 by (by intros []). cbn [andb]. exists w, st, it, OK. split; [done|]. split; [done|]. intros _. right. rewrite drop_ge in * by lia. cbn [survivors]. exists segs, cur. by rewrite app_nil_r. }
  rewrite bool_decide_eq_true_2 by done. cbn [andb]. destruct (shutting_down fuel) eqn:Esh; cbn [negb].
  { exists w, st, it, OK. split; [done|]. split; [done|]. intros _. left. by exists fuel. }
  destruct (flush_between_none fuel v c0 snap w st segs cur _ Hls) as (w0 & -> & Hls0). cbn [obind]. clear Hls. rename Hls0 into Hls.
  destruct (lookup_lt_is_Some_2 es j Hlt) as [x Hx]. destruct (at_entry it j (op_ikey x) (op_value x) Hat) as [-> ->]; [unfold shown_entries; by rewrite list_lookup_fmap, Hx|]. cbn [obind]. rewrite (drop_S es x j Hx) in *.
  assert (StronglySorted op_lt (x :: drop (S j) es)) as Hss. { rewrite <- (drop_S es x j Hx). rewrite <- (take_drop j es) in es_sorted. by apply StronglySorted_app in es_sorted as (_ & _ & ?). }
  destruct (entry_step v c0 snap w0 st segs cur d x (drop (S j) es) Hls Hss) as (w1 & st1 & d1 & s1 & -> & Hok1); [rewrite Forall_forall in es_ok; apply es_ok; by eapply list_elem_of_lookup_2|done|]. fold base in Hok1. cbn [obind].
  destruct (ok s1) eqn:Es1; cbn [negb]; [|exists w1, st1, it, s1; split; [done|]; split; [done|]; by intros ->]. apply ok_true in Es1. destruct (Hok1 Es1) as (-> & segs1 & cur1 & Hls1 & Hcat). destruct (at_next it j Hat) as (it1 & -> & Hat1). cbn [obind]. rewrite Hn in Hat1.
  assert (concat segs1 ++ cur1 ++ survivors base snap (fst (drop_op base snap d x)) (drop (S j) es) = concat segs ++ cur ++ survivors base snap d (x :: drop (S j) es)) as Htot.
  { cbn [survivors]. destruct (drop_op base snap d x) as [d' drop]. cbn [fst snd] in *. rewrite app_assoc, Hcat, <- !app_assoc. by destruct drop. }
  destruct (IH w1 st1 (fst (drop_op base snap d x)) it1 (S j) segs1 cur1 Hls1 Hat1 ltac:(lia)) as (w2 & st2 & it2 & s2 & -> & Hst2 & Hok2); [by rewrite Htot|]. exists w2, st2, it2, s2. split; [done|]. split; [done|]. rewrite Htot in Hok2. exact Hok2.
Qed.

Lemma no_open_output w st segs cur : compacting w st segs cur -> builder st = None -> cur = [] /\ Forall2 (output_table (w_env w)) (outputs st) segs.
Proof. intros (_ & _ & _ & Hb) Hn. rewrite Hn in Hb. by destruct Hb as (? & _ & ?). Qed.

(** The work is finished: the outputs have the entries of [segs]. *)
Record written (c : Compaction) (w : Work) (st : CompactionState) (segs : list (list entry_op)) : Prop := mkWritten {
  wr_compacting : compacting w st segs [];
  wr_builder : builder st = None;
  wr_same : same_compaction c (compaction st);
  wr_set : same_set vs_init (w_versions w);
  wr_room : vs_next_file_number (w_versions w) < 2 ^ 64 - 1;
}.

Lemma written_outputs c w st segs : written c w st segs -> only_tables (w_env w) /\ Forall2 (output_table (w_env w)) (outputs st) segs.
Proof. intros [(_ & _ & _ & Hb) Hn _ _ _]. rewrite Hn in Hb. by destruct Hb as (_ & ? & ?). Qed.

(** The outputs of a finished compaction have the surviving entries, in order. *)
Lemma write_outputs_spec fuel shutting_down shutdown oldest pending tables bg c v it p :
  let snap := match oldest with None => vs_last_sequence vs_init | Some s => s end in
  (exists k, NumLevelFiles vs_init (level_ c) = Ret k /\ 0 < k) -> asking vs_init v c es -> table_input es -> env_ok e_init -> first + zlen es < 2 ^ 64 - 1 ->
  (forall m, shutting_down m = true -> shutdown = true) -> at_index it p -> (length es < fuel)%nat ->
  exists w' st' s, write_outputs (user_policy := user_policy) dbname o indeterminate flush fuel shutting_down shutdown oldest (mkWork e_init vs_init pending tables bg) (new_CompactionState c) it = Ret (w', st', s) /\
    (s = OK -> exists segs, written c w' st' segs /\ concat segs = survivors (no_file_below v (level_ c + 2)) snap new_DropState es).
Proof.
  intros snap (k & Hk & Hpos) Has Hin He Hroom Hsd Hat Hf. set (w := mkWork e_init vs_init pending tables bg). unfold write_outputs. cbn [compaction new_CompactionState builder outputs total_bytes]. change (w_versions w) with vs_init. rewrite Hk. cbn [obind]. rewrite (proj2 (Z.ltb_lt 0 k) Hpos). rewrite bool_decide_eq_true_2 by done. cbn [oassert obind]. fold snap.
  destruct (at_first it p Hat) as (it1 & -> & Hat1). cbn [obind]. set (st0 := mkCompactionState c snap [] None 0). set (base := no_file_below v (level_ c + 2)).
  assert (loop_state v c snap w st0 [] [] (drop 0 es)) as Hls.
  { split; [|done|done|done|done|done]. split; [done|]. split; [constructor|]. split; [constructor|]. split; [done|]. split; [|constructor]. split; [done|]. intros m _. done. }
  destruct (loop_spec shutting_down v c snap fuel w st0 new_DropState it1 0 [] [] Hls Hat1 ltac:(lia)) as (w1 & st1 & it2 & s1 & -> & Hst2 & Hok1); [eapply table_input_sublist; [apply survivors_sublist|exact Hin]|]. cbn [obind]. rewrite Hst2. cbn [app concat] in Hok1. rewrite drop_0 in Hok1. fold base in Hok1.
  destruct (ok s1) eqn:Es1; cbn [andb]; [|rewrite Es1; eexists _, _, _; split; [done|]; rewrite Es1; by intros ->]. apply ok_true in Es1. destruct shutdown; cbn [ok andb]; [eexists _, _, _; split; [done|]; done|].
  rewrite Es1. cbn [ok andb]. destruct (Hok1 Es1) as [(m & Hm)|(segs & cur & [Hc1 _ Hsm1 _ Hset1 Hroom1] & Hcat)]; [by specialize (Hsd m Hm)|]. rewrite zlen_nil in Hroom1. destruct (builder st1) as [b|] eqn:Eb.
  - rewrite bool_decide_eq_true_2 by done. assert (table_input (concat segs ++ cur)) as Hin1 by (rewrite Hcat; eapply table_input_sublist; [apply survivors_sublist|exact Hin]). apply table_input_app in Hin1 as [_ Hcur].
    destruct (finish_step w1 st1 segs cur Hc1 ltac:(by rewrite Eb) Hcur) as (w2 & st2 & s2 & -> & (_ & _ & _ & Hcomp2 & _ & Hset2) & Hn2 & Hok2 & Hb2). cbn [obind]. eexists _, _, _. split; [done|]. destruct (ok s2) eqn:Es2; [|by intros ->]. intros _. apply ok_true in Es2. exists (segs ++ [cur]).
    split; [split; [by apply Hok2|done|by rewrite Hcomp2|exact (same_set_trans _ _ _ Hset1 Hset2)|lia]|]. rewrite concat_app. cbn [concat]. by rewrite app_nil_r.
  - rewrite bool_decide_eq_false_2 by (by intros []). cbn [obind ok]. eexists _, _, _. split; [done|]. intros _. destruct (no_open_output _ _ _ _ Hc1 Eb) as [-> _]. rewrite app_nil_r in Hcat. exists segs. split; [|done]. split; [done|done|done|done|lia].
Qed.
End Writing.
