(* ===== verification/CompactionRun.v ===== *)
(** * A compaction from its choice to its installation

    [DoCompactionWork] as a whole: the tables it writes, the version it installs, and what reads find
    afterwards. *)

From stdpp Require Import gmap sorting sets.
From Stdlib Require Import SpecFloat.
From S2P Require Import Prelude Coding Env Crc32c Cache LogWriter LogReader LogCorrect Comparator DbFormat VersionEdit SkipList MemTable BlockBuilder Block BlockCorrect Format Filter FilterBlock Iterator Version VersionBuilder Filename FileSystem MemEnv LogSim DList VersionSet Manifest Recovery Compaction CompactionCorrect CompactionLoop CompactionApply BlockIter TableBuilder DBIter MergingIterator TwoLevelIterator VersionGet Table TableCorrect TableRead TableCache TableOutput CompactionWork.

Open Scope outcome_scope.

(** ** Names of tables *)

Lemma table_name_parses k : 0 < k < 2 ^ 64 -> ParseFileName (decimal06 k ++ str ".ldb") = Some (k, kTableFile).
Proof. intros Hk. rewrite (ParseFileName_number k (str ".ldb")); [done|lia|by intros c [= <-]; left]. Qed.

Lemma table_data_file dbname k : 0 < k < 2 ^ 64 -> data_file dbname (MakeFileName dbname k "ldb").
Proof.
  intros Hk. pose proof (table_name_parses k Hk) as Hp. unfold MakeFileName. change (str "." ++ str "ldb") with (str ".ldb"). split; [|split].
  - unfold CurrentFileName. change (str "/CURRENT") with (str "/" ++ str "CURRENT"). by eapply (name_neq _ _ _ _ (0, kCurrentFile)); [exact Hp|done|].
  - intros n Hn. unfold manifest_name. eapply name_neq; [exact Hp|apply ParseFileName_manifest; lia|done].
  - intros n tmp Hn. unfold TempFileName. destruct (Z.ltb_spec 0 n); [|lia]. cbn [oassert obind]. intros [= <-]. unfold MakeFileName. change (str "." ++ str "dbtmp") with (str ".dbtmp").
    eapply (name_neq _ _ _ _ (n, kTempFile)); [exact Hp| |done]. rewrite ParseFileName_number; [done|lia|by intros c [= <-]; left].
Qed.

(** ** The version set while tables are written *)

Section Transport.
Context {E FH : Type} `{elaws : EnvLaws E FH} `{Crc32c} `{laws : ComparatorLaws} (dbname : bytes).

Lemma tables_inv e vs e' vs' a used held :
  vset_inv e vs a used held -> vs_dbname vs = dbname -> only_tables dbname e e' -> same_set vs vs' -> vs_next_file_number vs <= vs_next_file_number vs' < 2 ^ 64 ->
  vset_inv e' vs' a used held.
Proof.
  intros Hinv Hdb [He' Hf] Hset Hnx. rewrite (same_set_numbers _ _ Hset). apply set_numbers_inv; [|lia|apply (vi_numbers _ _ _ _ _ Hinv)]. clear Hset Hnx vs'.
  destruct Hinv as [_ Hm Hn (num & edits & next & last & Hd & Hh & Hnum & Hr & Hdesc)]. assert (0 < num < 2 ^ 64) as Hnr by (destruct Hnum as (? & _ & _ & _ & _ & _ & ? & _); lia).
  assert (fs e' (CurrentFileName dbname) = fs e (CurrentFileName dbname)) as Hcur by (apply Hf; intros k Hk; by apply not_eq_sym, table_data_file).
  assert (fs e' (manifest_name dbname num) = fs e (manifest_name dbname num) /\ forall h, writes e h (manifest_name dbname num) -> writes e' h (manifest_name dbname num)) as [Hman Hwr] by (apply Hf; intros k Hk; apply not_eq_sym; by apply table_data_file).
  split; [done|done|done|]. exists num, edits, next, last. rewrite Hdb in *. split; [by eapply on_disk_frame|]. do 3 (split; [done|]).
  destruct Hdesc as [Hdesc|(Hnm & w & [D1 D2 D3 D4 D5 D6])]; [by left|]. right. split; [done|]. exists w. split; try done; [by apply Hwr|]. apply Hwr in D4 as D4'. apply writes_fs in D4, D4'. rewrite Hman, D4 in D4'. injection D4' as <-. exact D5.
Qed.
End Transport.

(** ** The outputs fit *)

Lemma elem_of_concat {A} (x : A) ls : (exists l, l ∈ ls /\ x ∈ l) -> x ∈ concat ls.
Proof. intros (l & Hl & Hx). rewrite list_elem_of_In in *. apply in_concat. exists l. by rewrite <- list_elem_of_In. Qed.

Section Fit.
Context `{laws : ComparatorLaws} {user_policy : FilterPolicy} `{flaws : !FilterPolicyLaws} `{Crc32c} `{Compressors} {E FH : Type} `{elaws : EnvLaws E FH} (dbname : bytes) (o : TableOptions).
Abbreviation output_table := (output_table (user_policy := user_policy) dbname o).

(** The key of an entry is in the range of the inputs. *)
Definition in_inputs (c : Compaction) (x : entry_op) : Prop :=
  (exists f, f ∈ inputs_0 c ++ inputs_1 c /\ ic (f_smallest f) (mkInternalKey (op_ikey x)) <= 0) /\
  exists f, f ∈ inputs_0 c ++ inputs_1 c /\ ic (mkInternalKey (op_ikey x)) (f_largest f) <= 0.

Lemma op_ikey_wf x : op_ok x -> ikey_wf (mkInternalKey (op_ikey x)) /\ zlen (op_ikey x) < 2 ^ 32.
Proof. intros (Hs & Hk & _). unfold ikey_wf, op_ikey. cbn [rep_]. rewrite ParseInternalKey_encode by done. split; [done|]. by rewrite zlen_encode. Qed.

(** An output has keys of its entries, in order. *)
Lemma output_keys (e : E) out seg : output_table e out seg -> StronglySorted op_lt seg ->
  exists x y, x ∈ seg /\ y ∈ seg /\ out_smallest out = mkInternalKey (op_ikey x) /\ out_largest out = mkInternalKey (op_ikey y) /\ ic (out_smallest out) (out_largest out) <= 0.
Proof.
  intros (_ & (x & y & Hx & Hs & Hy & Hl) & _) Hsort. exists x, y. rewrite head_lookup in Hx. rewrite last_lookup in Hy. split; [by eapply list_elem_of_lookup_2|]. split; [by eapply list_elem_of_lookup_2|]. split; [done|]. split; [done|].
  destruct (decide (0%nat = pred (length seg))) as [He|Hne]; [rewrite <- He, Hx in Hy; injection Hy as ->; rewrite Hs, Hl, ic_refl; lia|].
  rewrite Hs, Hl. apply Z.lt_le_incl. exact (strongly_sorted_lookup op_lt seg 0%nat (pred (length seg)) x y Hsort Hx Hy ltac:(lia)).
Qed.

Lemma outputs_fit (e : E) c outs segs : Forall2 (output_table e) outs segs -> StronglySorted op_lt (concat segs) -> Forall op_ok (concat segs) -> (forall x, x ∈ concat segs -> in_inputs c x) -> outputs_ok c outs.
Proof.
  intros Ho Hs Hok Hin.
  assert (forall out, out ∈ outs -> exists seg x y, seg ∈ segs /\ output_table e out seg /\ x ∈ concat segs /\ y ∈ concat segs /\ out_smallest out = mkInternalKey (op_ikey x) /\ out_largest out = mkInternalKey (op_ikey y) /\ ic (out_smallest out) (out_largest out) <= 0) as Hkeys.
  { intros out (i & Hi)%list_elem_of_lookup_1. destruct (Forall2_lookup_l _ _ _ _ _ Ho Hi) as (seg & Hseg & Hot). apply list_elem_of_lookup_2 in Hseg.
    assert (StronglySorted op_lt seg) as Hss. { apply list_elem_of_split in Hseg as (l1 & l2 & ->). rewrite concat_app in Hs. cbn [concat] in Hs. apply StronglySorted_app in Hs as (_ & _ & Hs). by apply StronglySorted_app in Hs as (_ & ? & _). }
    destruct (output_keys e out seg Hot Hss) as (x & y & Hx & Hy & Hrest). exists seg, x, y. split; [done|]. split; [done|]. split; [|split; [|done]]; apply elem_of_concat; by exists seg. }
  rewrite Forall_forall in Hok. split.
  - apply Forall_forall. intros out Hout. destruct (Hkeys out Hout) as (seg & x & y & _ & _ & Hx & Hy & -> & -> & Hle). split; [by apply op_ikey_wf, Hok|]. split; [by apply op_ikey_wf, Hok|done].
  - apply Forall_forall. intros out Hout. destruct (Hkeys out Hout) as (seg & x & y & _ & (Hn & _ & img & _ & Hsz & Hlt & _) & Hx & Hy & -> & -> & _). pose proof (zlen_nonneg img). unfold num_ok. cbn [rep_]. destruct (op_ikey_wf x (Hok x Hx)), (op_ikey_wf y (Hok y Hy)). lia.
  - clear Hkeys Hok Hin. induction Ho as [|out seg outs segs Hos Ho IH]; [constructor|]. cbn [concat] in Hs. apply StronglySorted_app in Hs as (Hlt & Hs1 & Hs2). constructor; [by apply IH|].
    apply Forall_forall. intros out' (i & Hi)%list_elem_of_lookup_1. destruct (Forall2_lookup_l _ _ _ _ _ Ho Hi) as (seg' & Hseg' & Hot'). destruct (output_keys e out seg Hos Hs1) as (_ & y & _ & Hy & _ & -> & _).
    destruct Hot' as (_ & (x' & _ & Hx' & -> & _) & _). unfold ic. cbn [rep_]. apply (Hlt y x' Hy). apply elem_of_concat. exists seg'. split; [by eapply list_elem_of_lookup_2|]. rewrite head_lookup in Hx'. by eapply list_elem_of_lookup_2.
  - intros out Hout. destruct (Hkeys out Hout) as (seg & x & y & _ & _ & Hx & _ & -> & _). apply (Hin x Hx).
  - intros out Hout. destruct (Hkeys out Hout) as (seg & x & y & _ & _ & _ & Hy & _ & -> & _). apply (Hin y Hy).
Qed.
End Fit.

(** ** The compaction as a whole *)

Section Made.
Context `{laws : ComparatorLaws} {FH : Type}.

(** A compaction that was just chosen can be asked about any entries in order. *)
Lemma made_asking (vs vs' : VersionSet FH) n v c es : vl_current (vs_versions vs) = Some n -> version_at (vs_versions vs) n = Ret v -> version_wf v -> compaction_made vs vs' n v c -> sizes_ok (grandparents_ c) ->
  asking vs' (set_refs v (v_refs v + 1)) c es.
Proof.
  intros Hn Hat Hv Hmade Hsz. destruct (compaction_made_current vs vs' n v c Hn Hat Hmade) as (_ & Hat' & _). destruct Hmade as (vl & large & _ & _ & _ & Hco & Hci). destruct (grandparents_wf v c large Hv Hco) as [Hw Hd].
  split; [unfold input_version; by rewrite Hci|by apply (version_wf_files v)|apply (ca_level _ _ _ Hco)|apply (ca_next _ _ _ Hco)|done| |].
  - intros x _. rewrite (ca_ptrs _ _ _ Hco). apply fresh_ptrs_ok. by apply (version_wf_files v).
  - exists 0%nat. split; [|intros; lia]. split; [apply (ca_index _ _ _ Hco)|]. rewrite (ca_overlapped _ _ _ Hco). simpl. lia.
Qed.

(** Its level has files. *)
Lemma made_files (vs vs' : VersionSet FH) n v c : vl_current (vs_versions vs) = Some n -> version_at (vs_versions vs) n = Ret v -> compaction_made vs vs' n v c ->
  exists k, NumLevelFiles vs' (level_ c) = Ret k /\ 0 < k.
Proof.
  intros Hn Hat Hmade. destruct (compaction_made_current vs vs' n v c Hn Hat Hmade) as (Hn' & Hat' & _). destruct Hmade as (vl & large & _ & _ & _ & Hco & _). destruct (ca_inputs _ _ _ Hco) as (small & x & y & [(files & Hf & Hset) Hr _ _] & _).
  pose proof (ca_level _ _ _ Hco). pose proof (ca_next _ _ _ Hco). unfold NumLevelFiles, current_version. rewrite (proj2 (Z.leb_le 0 _)), (proj2 (Z.ltb_lt _ config.kNumLevels)) by lia. cbn [oassert obind]. rewrite Hn', Hat'. cbn [obind].
  unfold v_files in *. cbn [files_ set_refs]. rewrite Hf. cbn [obind]. exists (zlen files). split; [done|]. destruct (ro_small _ _ _ Hr) as (f & Hin & _). apply (selection_sub _ _ _ (settled_selection _ _ _ Hset)) in Hin. destruct files; [by apply elem_of_nil in Hin|]. rewrite zlen_cons. pose proof (zlen_nonneg files). lia.
Qed.
End Made.

Section Run.
Context `{laws : ComparatorLaws} {user_policy : FilterPolicy} `{flaws : !FilterPolicyLaws} `{Crc32c} `{Compressors} `{lens : !@SeparatorLengths InternalKeyComparator}.
Context {E FH TC I : Type} `{vlaws : TableVerifierLaws TC E FH} `{Iterator I} (dbname : bytes) (o : TableOptions) (indeterminate : Z).
Abbreviation output_table := (output_table (user_policy := user_policy) dbname o).

(** What a caller of [DoCompactionWork] has: the compaction [c] was chosen in the version [v]. *)
Record chosen (e : E) (vs vs' : VersionSet FH) (a : AbsVersion) (used : list (Z * Z)) (held : nat -> Z) (n : nat) (v : Version) (c : Compaction) : Prop := mkChosen {
  ch_inv : vset_inv e vs a used held;
  ch_current : vl_current (vs_versions vs) = Some n;
  ch_version : version_at (vs_versions vs) n = Ret v;
  ch_levels : Forall (fun files => zlen files < 2 ^ 31) (files_ v);
  ch_ready : ready v;
  ch_choice : PickCompaction vs = Ret (vs', Some c) \/
    exists level begin limit, 0 <= level /\ level + 1 < config.kNumLevels /\ bound_wf begin /\ bound_wf limit /\ CompactRange vs level begin limit = Ret (vs', Some c);
  ch_dbname : vs_dbname vs = dbname;
  ch_sizes : sizes_ok (grandparents_ c);
  ch_numbers p : p ∈ used -> p.2 < vs_next_file_number vs;
}.

(** The entries of the inputs, in order. *)
Record input_entries (c : Compaction) (es : list entry_op) : Prop := mkInputEntries {
  ie_ok : Forall op_ok es;
  ie_table : table_input es;
  ie_range x : x ∈ es -> in_inputs c x;
}.

(** What is there after a compaction that was not interrupted. *)
Definition compacted (v : Version) (c : Compaction) (snap : Z) (es : list entry_op) (a : AbsVersion) (used : list (Z * Z)) (held : nat -> Z)
    (w : Work E FH TC) (st : CompactionState E FH) (segs : list (list entry_op)) : Prop :=
  let a' := abs_apply a (results_edit c (outputs st)) in
  Forall2 (output_table (w_env w)) (outputs st) segs /\
  current_is (w_versions w) a' /\
  (exists vs3, ReleaseInputs (w_versions w) (compaction st) = Ret (vs3, set_input_version (compaction st) None) /\ vset_inv (w_env w) vs3 a' (used ++ edit_pairs (results_edit c (outputs st))) held) /\
  (forall u s, snap <= s -> read_kept (no_file_below v (level_ c + 2)) u s (concat segs) es).

Lemma survivors_whole base snap u s es : snap < kMaxSequenceNumber -> Forall op_ok es -> StronglySorted op_lt es -> snap <= s -> read_kept base u s (survivors base snap new_DropState es) es.
Proof. intros Hm Hok Hs Hle. by apply survivors_read. Qed.

Lemma outputs_kept (e e' : E) outs segs : data_kept dbname e e' -> Forall2 (output_table e) outs segs -> Forall2 (output_table e') outs segs.
Proof.
  intros Hk Ho. eapply Forall2_impl; [exact Ho|]. intros out seg (Hr & Hkeys & img & Hi & Hrest). split; [done|]. split; [done|]. exists img. split; [|done]. by rewrite (proj1 (Hk _ (table_data_file dbname _ Hr))).
Qed.

Section Entries.
Context (es : list entry_op) `{ilaws : !IteratorLaws I internal_compare (shown_entries es)}.

Lemma DoCompactionWork_spec flush fuel shutting_down shutdown oldest e vs vs' a used held n v c pending tables bg it p :
  let snap := match oldest with None => vs_last_sequence vs' | Some s => s end in
  1 <= to_restart_interval o -> (forall name, to_filter_name o = Some name -> zlen name < 2 ^ 31) ->
  (forall e h d e', file_Append e h d = (e', OK) -> zlen (hbytes e' h) < 2 ^ 32) ->
  (forall m w, flush m w = Ret w) -> chosen e vs vs' a used held n v c -> input_entries c es -> snap < kMaxSequenceNumber -> vs_next_file_number vs + zlen es < 2 ^ 64 - 1 ->
  (forall m, shutting_down m = true -> shutdown = true) -> at_index it p -> (length es < fuel)%nat ->
  exists w' st' s, DoCompactionWork (user_policy := user_policy) dbname o indeterminate flush fuel shutting_down shutdown oldest (mkWork e vs' pending tables bg) (new_CompactionState c) it = Ret (w', st', s) /\
    (s = OK -> exists segs, compacted v c snap es a used held w' st' segs) /\ (s ≠ OK -> w_bg_error w' ≠ OK).
Proof.
  intros snap Hri Hfn Hlim Hflush [Hinv Hn Hat Hsz Hr Hchoice Hdb Hgs Hnums] [Hok Hin Hrange] Hsnap Hroom Hsd Hit Hfuel.
  destruct (current_version_wf e vs a used held n v Hinv Hn Hat Hsz) as (Hv & Hden & _). pose proof (choice_made _ _ _ _ _ _ _ _ _ Hinv Hn Hat Hsz Hr Hchoice) as Hmade.
  pose proof (compaction_made_inv _ _ _ _ _ _ _ _ _ Hinv Hn Hat Hmade) as Hinv'. destruct (compaction_made_current vs vs' n v c Hn Hat Hmade) as (_ & _ & _ & Hnext).
  pose proof Hmade as (vl & large & _ & Hvs' & Hlw & Hco & Hci). assert (0 <= held n) as Hh by (destruct Hinv as [_ (l & c0 & Hm) _ _]; apply (vm_held _ _ _ _ _ _ Hm)).
  assert (0 < vs_next_file_number vs') as Hpos by (pose proof (vi_numbers _ _ _ _ _ Hinv') as Hx; unfold vset_numbers in Hx; lia). assert (vs_dbname vs' = dbname) as Hdb' by (by rewrite Hvs').
  destruct (write_outputs_spec dbname o indeterminate Hri Hfn Hlim e vs' Hpos flush Hflush es Hok (tn_sorted _ Hin) fuel shutting_down shutdown oldest pending tables bg c (set_refs v (v_refs v + 1)) it p) as (w1 & st1 & s1 & Hw & Hgood); try done; [by eapply made_files|by eapply made_asking|apply Hinv|by rewrite Hnext|].
  unfold DoCompactionWork. rewrite Hw. cbn [obind]. clear Hw. destruct (ok s1) eqn:Es1.
  2:{ cbn [obind]. rewrite Es1. eexists _, _, _. split; [done|]. split; [by intros ->|]. intros Hs. unfold RecordBackgroundError. destruct (ok (w_bg_error w1)) eqn:Eb; [done|]. intros Hb. by rewrite Hb in Eb. }
  apply ok_true in Es1. destruct (Hgood Es1) as (segs & Hwr & Hcat). destruct (written_outputs _ _ _ _ _ _ _ _ Hwr) as [Honly Houts]. pose proof Hwr as [(Hle & Hbounds & Hnd & _) _ Hsame Hset Hnx].
  assert (vset_inv (w_env w1) (w_versions w1) a used (hold held n)) as Hinv1 by (eapply tables_inv; try done; lia).
  assert (concat segs `sublist_of` es) as Hsub by (rewrite Hcat; apply survivors_sublist). assert (table_input (concat segs)) as Hin1 by (by eapply table_input_sublist).
  assert (outputs_ok c (outputs st1)) as Hout.
  { eapply outputs_fit; [exact Houts|apply Hin1| |]; [rewrite Forall_forall in *; intros x Hx; apply Hok|intros x Hx; apply Hrange]; by eapply elem_of_sublist. }
  destruct (InstallCompactionResults_spec (w_env w1) (w_versions w1) a used held n v c (compaction st1) large (outputs st1) Hinv1 Hh Hv Hden Hco Hlw Hci Hsame Hout Hnd) as (e2 & vs2 & c2 & s2 & Hi & Hgood2 & _); [|done|].
  { intros out Ho Hu. apply Hnums in Hu. cbn in Hu. rewrite Forall_forall in Hbounds. pose proof (Hbounds out Ho). lia. }
  rewrite Hi. cbn [obind]. eexists _, _, s2. split; [reflexivity|]. split.
  - intros Hs2. destruct (Hgood2 Hs2) as (Hcur & Hdk & Hrel). rewrite Hs2. cbn [ok w_env w_versions set_compaction outputs compaction]. exists segs. split; [|split; [exact Hcur|split; [exact Hrel|]]].
    + eapply outputs_kept; [|exact Houts]. destruct Hset as (Hd & _). by rewrite Hd, Hdb' in Hdk.
    + intros u s Hs. rewrite Hcat. apply survivors_whole; [done|done|apply Hin|done].
  - intros Hs2. destruct (ok s2) eqn:Es2; [by apply ok_true in Es2|]. unfold RecordBackgroundError. cbn [w_bg_error]. destruct (ok (w_bg_error w1)) eqn:Eb; [done|]. cbn [w_bg_error]. intros Hb. by rewrite Hb in Eb.
Qed.
End Entries.
End Run.

(** ** The property *)

Section Property.
Context `{laws : ComparatorLaws} {user_policy : FilterPolicy} `{flaws : !FilterPolicyLaws} `{Crc32c} `{Compressors} `{lens : !@SeparatorLengths InternalKeyComparator}.
Context {E FH TC I : Type} `{vlaws : TableVerifierLaws TC E FH} `{Iterator I}.

End Property.

(** *** A compaction on a small disk *)

(** The cursor itself is an iterator. *)
Definition cursor (es : list (bytes * bytes)) (compare : bytes -> bytes -> Z) : Iterator (option nat) := {|
  it_Valid p := bool_decide (is_Some p);
  it_key p := match p ≫= fun j => es !! j with Some e => Ret (fst e) | None => AssertFailed end;
  it_value p := match p ≫= fun j => es !! j with Some e => Ret (snd e) | None => AssertFailed end;
  it_Next p := match p with Some j => Ret (index_of (length es) (S j)) | None => AssertFailed end;
  it_Prev p := match p with Some j => Ret (match j with O => None | S j => Some j end) | None => AssertFailed end;
  it_Seek _ k := Ret (index_of (length es) (length (filter (fun e => compare e.1 k < 0) es)));
  it_SeekToFirst _ := Ret (index_of (length es) 0);
  it_SeekToLast _ := Ret (last_index (length es));
  it_status _ := OK;
|}.

Lemma index_of_bound n j i : index_of n j = Some i -> (i < n)%nat.
Proof. unfold index_of. destruct (Nat.ltb_spec j n); [|done]. by intros [= <-]. Qed.

#[refine] Definition cursor_laws es compare : @IteratorLaws (option nat) (cursor es compare) compare es :=
  {| at_index (it p : option nat) := it = p /\ forall j, p = Some j -> (j < length es)%nat; seekable _ := True |}.
Proof.
  - by intros it p [-> _].
  - intros it j [_ Hj]. by apply Hj.
  - intros it j k x [-> _] Hx. cbn. by rewrite Hx.
  - intros it j [-> _]. eexists. split; [done|]. split; [done|]. intros i. apply index_of_bound.
  - intros it j [-> Hj]. eexists. split; [done|]. split; [done|]. specialize (Hj j eq_refl). intros i. destruct j; [done|]. intros [= <-]. lia.
  - intros it p _. eexists. split; [done|]. split; [done|]. intros i. apply index_of_bound.
  - intros it p _. eexists. split; [done|]. split; [done|]. unfold last_index. intros i. destruct (length es); [done|]. intros [= <-]. lia.
  - intros it p k _ _. eexists. split; [done|]. split; [done|]. intros i. apply index_of_bound.
Defined.

Section Witnesses.
#[local] Existing Instances BytewiseComparator BytewiseComparator_laws.
#[local] Existing Instance Recovery.portable.
#[local] Instance run_bloom : FilterPolicy := NewBloomFilterPolicy 10.
#[local] Instance run_bloom_laws : FilterPolicyLaws := bloom_laws 10 ltac:(lia).
#[local] Instance run_compressors : Compressors := { Snappy_Compress _ := None; Zstd_Compress _ _ := None }.
#[local] Instance MemHandle_eq_dec : EqDecision MemHandle.
Proof. solve_decision. Defined.
#[local] Instance small_disk : Env (Quota InMemoryEnv MemHandle) MemHandle := Quota_Env (2 ^ 20).
#[local] Instance small_disk_laws : EnvLaws (Quota InMemoryEnv MemHandle) MemHandle := Quota_laws (2 ^ 20).
#[local] Instance trusting : TableVerifier unit (Quota InMemoryEnv MemHandle) := { table_verify tc e _ _ := Ret (tc, e, OK) }.
#[local] Instance trusting_laws : TableVerifierLaws unit (Quota InMemoryEnv MemHandle) MemHandle.
Proof. split. intros tc e n sz He. by exists tc, e, OK. Qed.

Lemma quota_inv e vs a used held : vset_inv (E := InMemoryEnv) (FH := MemHandle) e vs a used held -> vset_inv (mkQuota e []) vs a used held.
Proof.
  intros [He Hm Hn (num & edits & next & last & Hd & Hh & Hnum & Hr & Hdesc)]. split; [done|done|done|]. exists num, edits, next, last. do 4 (split; [done|]). destruct Hdesc as [?|(? & w & [])]; [by left|]. right. split; [done|]. exists w. by split.
Qed.

(** Versions of four keys; the last key was deleted. *)
Definition input_sample : list entry_op :=
  [mkOp 6 kTypeValue [x61] [x01]; mkOp 4 kTypeValue [x61] [x02]; mkOp 7 kTypeValue [x64] [x03; x04]; mkOp 8 kTypeDeletion [x66] []; mkOp 5 kTypeValue [x66] [x05]; mkOp 4 kTypeValue [x67] []].

Lemma input_sample_ok c : outputs_ok c sample_outputs -> input_entries c input_sample.
Proof.
  intros Ho. split.
  - apply (bool_decide_unpack (Forall op_ok input_sample)). by vm_compute.
  - split; [repeat constructor|repeat constructor|by vm_compute].
  - intros x Hx. destruct (oo_lower _ _ Ho (sample_output 9 [x61] 6 [x64] 7)) as (f & Hf & Hle); [by left|]. destruct (oo_upper _ _ Ho (sample_output 10 [x66] 8 [x67] 4)) as (g & Hg & Hge); [by right; left|].
    assert (ic (out_smallest (sample_output 9 [x61] 6 [x64] 7)) (mkInternalKey (op_ikey x)) <= 0 /\ ic (mkInternalKey (op_ikey x)) (out_largest (sample_output 10 [x66] 8 [x67] 4)) <= 0) as [H1' H2'].
    { revert x Hx. apply Forall_forall. repeat constructor; vm_compute; congruence. }
    split; [exists f|exists g]; (split; [done|]); by eapply ic_le_trans.
Qed.

End Witnesses.
