(* ===== verification/Obsolete.v ===== *)
(** * Files that are no longer needed

    [DBImpl::DeleteObsoleteFiles] of [db_impl.c]: the files of the directory are removed, except for those a version,
    an output, the log numbers or the manifest still name. Listing the directory and the table cache are
    interfaces. *)

From stdpp Require Import gmap sorting sets.
From S2P Require Import Prelude Coding Env Crc32c LogWriter LogReader LogCorrect Comparator DbFormat VersionEdit Version VersionBuilder Filename FileSystem MemEnv LogSim DList VersionSet Manifest Recovery Compaction CompactionApply TableOutput CompactionWork CompactionRun.

Open Scope outcome_scope.

(** The names of the files of a directory; errors are ignored. *)
Class Directory (E : Type) := { dir_children : E -> bytes -> list bytes }.

(** A table is dropped from the table cache. *)
Class TableEvictor (TC : Type) := { table_evict : TC -> Z -> outcome TC }.

Class TableEvictorLaws (TC : Type) `{TableEvictor TC} : Prop := { evict_returns tc n : exists tc', table_evict tc n = Ret tc' }.

Section Delete.
Context {E FH TC : Type} `{Env E FH} `{Directory E} `{TableEvictor TC} (dbname : bytes).
Abbreviation Work := (Work E FH TC).

(** The switch over the type of the file. *)
Definition keep_file (vs : VersionSet FH) (live : gset Z) (number : Z) (type : FileType) : bool :=
  match type with
  | kLogFile => (vs_log_number vs <=? number) || (number =? vs_prev_log_number vs)
  | kDescriptorFile => vs_manifest_file_number vs <=? number
  | kTableFile => bool_decide (number ∈ live)
  | kTempFile => bool_decide (number ∈ live)
  | kCurrentFile | kDBLockFile | kInfoLogFile => true
  end.

Fixpoint obsolete_loop (vs : VersionSet FH) (live : gset Z) (filenames : list bytes) (env : E) (tables : TC) : outcome (E * TC) :=
  match filenames with
  | [] => Ret (env, tables)
  | filename :: filenames =>
      match ParseFileName filename with
      | Some (number, type) =>
          if negb (keep_file vs live number type) then
            let! tables := if bool_decide (type = kTableFile) then table_evict tables number else Ret tables in
            obsolete_loop vs live filenames (fst (RemoveFile env (dbname ++ str "/" ++ filename))) tables
          else obsolete_loop vs live filenames env tables
      | None => obsolete_loop vs live filenames env tables
      end
  end.

Definition DeleteObsoleteFiles (w : Work) : outcome Work :=
  if negb (ok (w_bg_error w)) then Ret w
  else
    let! live := AddLiveFiles (vs_versions (w_versions w)) (w_pending_outputs w) in
    let! (env, tables) := obsolete_loop (w_versions w) live (dir_children (w_env w) dbname) (w_env w) (w_tables w) in
    Ret (mkWork env (w_versions w) (w_pending_outputs w) tables (w_bg_error w)).
End Delete.

(** ** The live files *)

(** The files of the versions of the list. *)
Definition in_versions (vl : Versions) (l : list nat) (x : Z) : Prop := exists n v f, n ∈ l /\ vl_versions vl !! n = Some v /\ f ∈ concat (files_ v) /\ f_number f = x.

Section Live.
Context `{laws : ComparatorLaws}.

Lemma live_loop_spec vl l : forall fuel a live, segment (vl_links vl) a l dummy_versions_ -> Forall (fun n => n ≠ dummy_versions_ /\ is_Some (vl_versions vl !! n)) l -> (length l < fuel)%nat ->
  exists x live', next_ (vl_links vl) !! a = Some x /\ live_loop fuel vl x live = Ret live' /\ forall z, z ∈ live' <-> z ∈ live \/ in_versions vl l z.
Proof.
  induction l as [|n l IH]; intros fuel a live Hs Hl Hf.
  - destruct Hs as [Hn _]. exists dummy_versions_, live. split; [done|]. destruct fuel; [cbn in Hf; lia|]. cbn [live_loop]. rewrite bool_decide_eq_true_2 by done. split; [done|]. intros z. split; [by left|]. intros [?|(n & v & f & Hin & _)]; [done|by apply elem_of_nil in Hin].
  - destruct Hs as (Hn & _ & Hs). apply Forall_cons in Hl as [[Hne [v Hv]] Hl]. destruct fuel as [|fuel]; [cbn in Hf; lia|]. cbn [length] in Hf. exists n. cbn [live_loop]. rewrite bool_decide_eq_false_2 by done. unfold version_at. rewrite Hv. cbn [obind].
    destruct (IH fuel n (live ∪ list_to_set (f_number <$> concat (files_ v))) Hs Hl ltac:(lia)) as (x & live' & Hx & Hr & Hlive). unfold get_next. rewrite Hx. cbn [obind]. exists live'. split; [done|]. split; [done|]. intros z. rewrite Hlive, elem_of_union, elem_of_list_to_set, list_elem_of_fmap. split.
    + intros [[Hz|(f & -> & Hf')]|(m & v' & f & Hin & Hrest)]; [by left|right; exists n, v, f; split; [left|done]|right; exists m, v', f; split; [by right|done]].
    + intros [Hz|(m & v' & f & [->|Hin]%elem_of_cons & Hv' & Hf' & Hz)]; [by left; left| |right; by exists m, v', f]. left. right. exists f. rewrite Hv in Hv'. injection Hv' as <-. done.
Qed.

Lemma AddLiveFiles_spec vl l rc ext live : versions_inv vl l None rc ext -> exists live', AddLiveFiles vl live = Ret live' /\ forall z, z ∈ live' <-> z ∈ live \/ in_versions vl l z.
Proof.
  intros Hi. pose proof (vi_linked _ _ _ _ _ Hi) as [Hs Hnd]. apply NoDup_cons in Hnd as [Hd Hnd].
  assert (Forall (fun n => n ≠ dummy_versions_ /\ is_Some (vl_versions vl !! n)) l) as Hl by (apply Forall_forall; intros n Hn; split; [by intros ->|apply (vi_dom _ _ _ _ _ Hi); by left]).
  assert (length l <= size (vl_versions vl))%nat as Hlen.
  { rewrite <- size_dom, <- (size_list_to_set (C := gset nat) l) by done. apply subseteq_size. intros n Hn. apply elem_of_list_to_set in Hn. apply elem_of_dom, (vi_dom _ _ _ _ _ Hi). by left. }
  destruct (live_loop_spec vl l (S (size (vl_versions vl))) dummy_versions_ live Hs Hl ltac:(lia)) as (x & live' & Hx & Hr & Hlive). unfold AddLiveFiles, get_next. rewrite Hx. cbn [obind]. by exists live'.
Qed.
End Live.

(** ** What is deleted *)

Section Obsolete.
Context {E FH TC : Type} `{elaws : EnvLaws E FH} `{Directory E} `{tlaws : TableEvictorLaws TC} `{Crc32c} `{laws : ComparatorLaws} (dbname : bytes).
Abbreviation Work := (Work E FH TC).
Implicit Types (e : E) (vs : VersionSet FH).

(** The files that may go. *)
Definition obsolete vs (live : gset Z) (m : bytes) : Prop := exists name number type, m = dbname ++ str "/" ++ name /\ ParseFileName name = Some (number, type) /\ keep_file vs live number type = false.

(** Nothing but the files of [P] has changed. *)
Definition only_changed (P : bytes -> Prop) e e' : Prop := env_ok e' /\ forall m, ~ P m -> fs e' m = fs e m /\ forall h, writes e h m -> writes e' h m.

Lemma obsolete_loop_spec vs live names : forall e (tables : TC), env_ok e ->
  exists e' tables', obsolete_loop dbname vs live names e tables = Ret (e', tables') /\ only_changed (obsolete vs live) e e' /\
    ((forall e1 n e2 s, env_ok e1 -> RemoveFile e1 n = (e2, s) -> fs e2 n = None) -> forall name, name ∈ names -> obsolete vs live (dbname ++ str "/" ++ name) -> fs e' (dbname ++ str "/" ++ name) = None).
Proof.
  assert (forall e, env_ok e -> only_changed (obsolete vs live) e e) as Hrefl by (intros e He; split; [done|]; intros m _; done).
  induction names as [|name names IH]; intros e tables He; cbn [obsolete_loop]. { exists e, tables. split; [done|]. split; [by apply Hrefl|]. by intros _ name ?%elem_of_nil. }
  assert (forall r, ParseFileName name = r -> (match r with Some (number, type) => keep_file vs live number type = true | None => True end) -> ~ obsolete vs live (dbname ++ str "/" ++ name)) as Hkept.
  { intros r Hr Hk (name' & number & type & Heq & Hp & Hf). apply app_inv_head, app_inv_head in Heq as <-. rewrite Hp in Hr. subst r. congruence. }
  assert (forall r, ParseFileName name = r -> (match r with Some (number, type) => keep_file vs live number type = true | None => True end) -> exists e' tables', obsolete_loop dbname vs live names e tables = Ret (e', tables') /\ only_changed (obsolete vs live) e e' /\
    ((forall e1 n e2 s, env_ok e1 -> RemoveFile e1 n = (e2, s) -> fs e2 n = None) -> forall name', name' ∈ name :: names -> obsolete vs live (dbname ++ str "/" ++ name') -> fs e' (dbname ++ str "/" ++ name') = None)) as Hskip.
  { intros r Hr Hk. destruct (IH e tables He) as (e' & tables' & Hl & Hc & Hgone). exists e', tables'. split; [done|]. split; [done|]. intros Hrm name' [->|Hin]%elem_of_cons Hob; [by destruct (Hkept r Hr Hk)|exact (Hgone Hrm name' Hin Hob)]. }
  destruct (ParseFileName name) as [[number type]|] eqn:Ep; [|by apply (Hskip None)]. destruct (keep_file vs live number type) eqn:Ek; cbn [negb]; [by apply (Hskip (Some (number, type)))|].
  assert (exists tables1, (if bool_decide (type = kTableFile) then table_evict tables number else Ret tables) = Ret tables1) as (tables1 & ->) by (case_bool_decide; [apply evict_returns|by eexists]). cbn [obind].
  destruct (RemoveFile e (dbname ++ str "/" ++ name)) as [e1 s1] eqn:Er. cbn [fst]. pose proof (remove_frame _ _ _ _ He Er) as (He1 & Hf1 & Hw1). destruct (IH e1 tables1 He1) as (e' & tables' & Hl & (He' & Hc) & Hgone). exists e', tables'. split; [done|].
  assert (obsolete vs live (dbname ++ str "/" ++ name)) as Hob by (by exists name, number, type). split.
  - split; [done|]. intros m Hm. destruct (Hc m Hm) as [Hf Hw]. assert (m ≠ dbname ++ str "/" ++ name) as Hne by (by intros ->). split; [by rewrite Hf, Hf1|]. intros h Hh. apply Hw. by apply Hw1.
  - intros Hrm name' [->|Hin]%elem_of_cons Hob'; [|exact (Hgone Hrm name' Hin Hob')]. destruct (decide (name ∈ names)) as [Hin|Hin]; [exact (Hgone Hrm name Hin Hob')|].
    assert (fs e1 (dbname ++ str "/" ++ name) = None) as Hnone by exact (Hrm _ _ _ _ He Er).
    assert (forall names e1 tables1 e' tables', env_ok e1 -> obsolete_loop dbname vs live names e1 tables1 = Ret (e', tables') -> fs e1 (dbname ++ str "/" ++ name) = None -> fs e' (dbname ++ str "/" ++ name) = None) as Hstay.
    { clear -elaws Hrm. intros names. induction names as [|x names IH]; intros e1 tables1 e' tables' He1; cbn [obsolete_loop]; [by intros [= <- _]|]. destruct (ParseFileName x) as [[number type]|]; [|by apply IH]. destruct (negb (keep_file vs live number type)); [|by apply IH].
      match goal with |- context [obind ?r _] => destruct r as [t| |] end; [|done..]. cbn [obind]. destruct (RemoveFile e1 (dbname ++ str "/" ++ x)) as [e2 s2] eqn:Er. cbn [fst]. intros Hl Hn. pose proof (remove_frame _ _ _ _ He1 Er) as (He2 & Hf2 & _). eapply IH; [exact He2|exact Hl|]. destruct (decide (dbname ++ str "/" ++ name = dbname ++ str "/" ++ x)) as [He|Hne]; [rewrite He; exact (Hrm _ _ _ _ He1 Er)|by rewrite Hf2]. }
    exact (Hstay _ _ _ _ _ He1 Hl Hnone).
Qed.

Lemma only_changed_inv (P : bytes -> Prop) e vs e' a used held : vset_inv e vs a used held -> only_changed P e e' ->
  (forall num, vs_dbname vs = dbname -> 0 < num < 2 ^ 64 -> (descriptor_log_ vs = None -> num < vs_manifest_file_number vs) -> (descriptor_log_ vs ≠ None -> num = vs_manifest_file_number vs) -> ~ P (manifest_name dbname num)) -> ~ P (CurrentFileName dbname) -> vs_dbname vs = dbname ->
  vset_inv e' vs a used held.
Proof.
  intros [_ Hm Hn (num & edits & next & last & Hd & Hh & Hnum & Hr & Hdesc)] [He' Hf] Hman Hcur Hdb. assert (0 < num < 2 ^ 64) as Hnr by (destruct Hnum as (? & _ & _ & _ & _ & _ & ? & _); lia).
  assert (~ P (manifest_name dbname num)) as Hnp. { apply (Hman num Hdb Hnr); destruct Hdesc as [(Hl & _ & ?)|(Heq & w & [D1 _])]; intros Hx; congruence. }
  destruct (Hf _ Hcur) as [Hcf _], (Hf _ Hnp) as [Hmf Hwr]. split; [done|done|done|]. exists num, edits, next, last. rewrite Hdb in *. split; [by eapply on_disk_frame|]. do 3 (split; [done|]).
  destruct Hdesc as [Hdesc|(Hnm & w & [D1 D2 D3 D4 D5 D6])]; [by left|]. right. split; [done|]. exists w. split; try done; [by apply Hwr|]. apply Hwr in D4 as D4'. apply writes_fs in D4, D4'. rewrite Hmf, D4 in D4'. injection D4' as <-. exact D5.
Qed.

(** The manifest and [CURRENT] are not obsolete. *)
Lemma current_kept vs live : ~ obsolete vs live (CurrentFileName dbname).
Proof.
  intros (name & number & type & Heq & Hp & Hk). unfold CurrentFileName in Heq. change (str "/CURRENT") with (str "/" ++ str "CURRENT") in Heq. apply app_inv_head, app_inv_head in Heq as <-. vm_compute in Hp. injection Hp as <- <-. done.
Qed.

Lemma manifest_kept vs live num : 0 <= num < 2 ^ 64 -> vs_manifest_file_number vs <= num -> ~ obsolete vs live (manifest_name dbname num).
Proof.
  intros Hnum Hle (name & number & type & Heq & Hp & Hk). unfold manifest_name in Heq. apply app_inv_head, app_inv_head in Heq as <-. rewrite ParseFileName_manifest in Hp by done. injection Hp as <- <-. cbn in Hk. lia.
Qed.

Lemma table_kept vs live num : 0 < num < 2 ^ 64 -> num ∈ live -> ~ obsolete vs live (MakeFileName dbname num "ldb").
Proof.
  intros Hnum Hin (name & number & type & Heq & Hp & Hk). unfold MakeFileName in Heq. apply app_inv_head, app_inv_head in Heq as <-. change (str "." ++ str "ldb") with (str ".ldb") in Hp. rewrite (table_name_parses num Hnum) in Hp. injection Hp as <- <-. cbn in Hk. by apply bool_decide_eq_false in Hk.
Qed.

Lemma log_kept vs live num : 0 < num < 2 ^ 64 -> vs_log_number vs <= num \/ num = vs_prev_log_number vs -> ~ obsolete vs live (MakeFileName dbname num "log").
Proof.
  intros Hnum Hin (name & number & type & Heq & Hp & Hk). unfold MakeFileName in Heq. apply app_inv_head, app_inv_head in Heq as <-. change (str "." ++ str "log") with (str ".log") in Hp. rewrite (ParseFileName_number num (str ".log")) in Hp; [|lia|by intros c [= <-]; left]. cbn in Hp. injection Hp as <- <-. cbn in Hk. apply orb_false_iff in Hk as [Hk1 Hk2]. lia.
Qed.

Lemma DeleteObsoleteFiles_spec (w : Work) a used held l c : vset_inv (w_env w) (w_versions w) a used held -> vset_mem (w_versions w) a used held l c -> vs_dbname (w_versions w) = dbname -> descriptor_log_ (w_versions w) ≠ None -> w_bg_error w = OK ->
  exists e' tables' live, DeleteObsoleteFiles dbname w = Ret (mkWork e' (w_versions w) (w_pending_outputs w) tables' OK) /\
    (forall z, z ∈ live <-> z ∈ w_pending_outputs w \/ in_versions (vs_versions (w_versions w)) l z) /\
    only_changed (obsolete (w_versions w) live) (w_env w) e' /\ vset_inv e' (w_versions w) a used held /\
    ((forall e1 n e2 s, env_ok e1 -> RemoveFile e1 n = (e2, s) -> fs e2 n = None) -> forall name, name ∈ dir_children (w_env w) dbname -> obsolete (w_versions w) live (dbname ++ str "/" ++ name) -> fs e' (dbname ++ str "/" ++ name) = None).
Proof.
  intros Hinv Hm Hdb Hdl Hbg. unfold DeleteObsoleteFiles. rewrite Hbg. cbn [ok negb]. destruct (AddLiveFiles_spec _ _ _ _ (w_pending_outputs w) (vm_versions _ _ _ _ _ _ Hm)) as (live & -> & Hlive). cbn [obind].
  destruct (obsolete_loop_spec (w_versions w) live (dir_children (w_env w) dbname) (w_env w) (w_tables w) (vi_env _ _ _ _ _ Hinv)) as (e' & tables' & -> & Hc & Hgone). cbn [obind]. exists e', tables', live. split; [done|]. split; [done|]. split; [done|]. split; [|done].
  eapply only_changed_inv; [exact Hinv|exact Hc| |apply current_kept|done]. intros num _ Hnum _ Hd. rewrite (Hd Hdl) in *. apply manifest_kept; lia.
Qed.
End Obsolete.

(** ** The property *)

Section Property.
Context {E FH TC : Type} `{elaws : EnvLaws E FH} `{Directory E} `{tlaws : TableEvictorLaws TC} `{Crc32c} `{laws : ComparatorLaws}.

End Property.

Section Witness.
#[local] Existing Instances BytewiseComparator BytewiseComparator_laws.
#[local] Existing Instance Recovery.portable.
#[local] Instance mem_directory : Directory InMemoryEnv := { dir_children e dir := snd (GetChildren e dir) }.
#[local] Instance no_cache : TableEvictor unit := { table_evict tc _ := Ret tc }.
#[local] Instance no_cache_laws : TableEvictorLaws unit.
Proof. split. intros tc n. by exists tc. Qed.

End Witness.
