(* ===== verification/Flush.v ===== *)
(** * Saving a memtable

    [DBImpl::WriteLevel0Table] and [DBImpl::CompactMemTable] of [db_impl.c]: a full memtable becomes a table, the
    version with the table is installed, and the log of the memtable is no longer needed. *)

From stdpp Require Import gmap sorting sets.
From S2P Require Import Prelude Coding Env Crc32c Cache LogWriter LogReader LogCorrect Comparator DbFormat VersionEdit SkipList MemTable BlockBuilder Block BlockCorrect Format Filter FilterBlock Iterator Version VersionBuilder Filename FileSystem MemEnv LogSim DList VersionSet Manifest Recovery Compaction CompactionCorrect CompactionLoop CompactionApply BlockIter TableBuilder DBIter MergingIterator TwoLevelIterator VersionGet Table TableCorrect TableRead TableCache TableOutput CompactionWork CompactionRun Obsolete.

Open Scope outcome_scope.

Section Flush.
Context {E FH TC : Type} `{Env E FH} `{TableVerifier TC E} `{Directory E} `{TableEvictor TC} `{laws : ComparatorLaws} {user_policy : FilterPolicy} `{Crc32c} `{Compressors}.
Context (dbname : bytes) (options : TableOptions).
Abbreviation Work := (Work E FH TC).

(** What writers do to the numbers while the table is built without the mutex. *)
Variable meanwhile : VersionSet FH -> VersionSet FH.

Definition set_work_versions (w : Work) (vs : VersionSet FH) : Work := mkWork (w_env w) vs (w_pending_outputs w) (w_tables w) (w_bg_error w).

Definition WriteLevel0Table (fuel : nat) (w : Work) (mem : MemTable) (edit : VersionEdit) (base : option Version) : outcome (Work * VersionEdit * Status) :=
  let (vs, num) := NewFileNumber (w_versions w) in
  let meta := new_FileMetaData num 0 (mkInternalKey []) (mkInternalKey []) in
  let pending := {[ num ]} ∪ w_pending_outputs w in
  let! (env, tables, _, meta, s) := BuildTable (user_policy := user_policy) fuel dbname (w_env w) options (w_tables w) (new_MemTableIterator mem) meta in
  let vs := meanwhile vs in
  let pending := pending ∖ {[ number meta ]} in
  let! edit := if ok s && (0 <? file_size meta) then
      let! min_user_key := user_key (smallest meta) in
      let! max_user_key := user_key (largest meta) in
      let! level := match base with Some b => PickLevelForMemTableOutput (vs_options vs) b min_user_key max_user_key | None => Ret 0 end in
      Ret (AddFile level (number meta) (file_size meta) (smallest meta) (largest meta) edit)
    else Ret edit in
  Ret (mkWork env vs pending tables (w_bg_error w), edit, s).

(** With the memtable that is left. *)
Definition CompactMemTable (fuel : nat) (w : Work) (imm : option MemTable) (logfile_number : Z) (shutting_down : bool) : outcome (Work * option MemTable) :=
  match imm, vl_current (vs_versions (w_versions w)) with
  | Some mem, Some n =>
      let! vl := version_Ref (vs_versions (w_versions w)) n in
      let! base := version_at vl n in
      let! (w, edit, s) := WriteLevel0Table fuel (set_work_versions w (set_versions (w_versions w) vl)) mem new_VersionEdit (Some base) in
      let! vl := version_Unref (vs_versions (w_versions w)) n in
      let w := set_work_versions w (set_versions (w_versions w) vl) in
      let s := if ok s && shutting_down then IOError "Deleting DB during memtable compaction" else s in
      let! (w, s) := if ok s then
          let! (env, vs, _, s) := LogAndApply (w_env w) (w_versions w) (SetLogNumber logfile_number (SetPrevLogNumber 0 edit)) in
          Ret (mkWork env vs (w_pending_outputs w) (w_tables w) (w_bg_error w), s)
        else Ret (w, s) in
      if ok s then
        let! _ := MemTable.Unref mem in
        let! w := DeleteObsoleteFiles dbname w in
        Ret (w, None)
      else Ret (RecordBackgroundError w s, Some mem)
  | _, _ => AssertFailed
  end.
End Flush.

(** ** The table *)

Section Level0.
Context `{laws : ComparatorLaws} {user_policy : FilterPolicy} `{flaws : !FilterPolicyLaws} `{Crc32c} `{Compressors} `{lens : !@SeparatorLengths InternalKeyComparator}.
Context {E FH TC : Type} `{vlaws : TableVerifierLaws TC E FH} (dbname : bytes) (o : TableOptions).
Abbreviation Work := (Work E FH TC).
Implicit Types (w : Work) (vs : VersionSet FH).
Hypothesis interval_ok : 1 <= to_restart_interval o.
Hypothesis name_ok : forall name, to_filter_name o = Some name -> zlen name < 2 ^ 31.
Hypothesis file_limit : forall e h d e', file_Append e h d = (e', OK) -> zlen (hbytes e' h) < 2 ^ 32.

(** The writers take numbers and advance the sequence. *)
Definition writers_moved vs vs' : Prop :=
  exists nx last, vs' = set_numbers vs nx (vs_manifest_file_number vs) last (vs_log_number vs) (vs_prev_log_number vs) /\ vs_next_file_number vs <= nx < 2 ^ 64 - 1 /\ vs_last_sequence vs <= last < 2 ^ 64.

(** A table with the entries of the memtable, and where it goes. *)
Definition flushed (es : list entry_op) (v : Version) (num : Z) (e : E) (L : Z) (img : bytes) (x y : entry_op) : Prop :=
  fs e (MakeFileName dbname num "ldb") = Some img /\ 0 < zlen img < 2 ^ 63 /\ table_of (user_policy := user_policy) o img es /\ head es = Some x /\ list.last es = Some y /\
  0 <= L <= config.kMaxMemCompactLevel /\ (0 < L -> forall l, 0 <= l <= L -> free_level v l (op_key x) (op_key y)).

Lemma op_ukey x : user_key (mkInternalKey (op_ikey x)) = Ret (op_key x).
Proof.
  unfold user_key, op_ikey. cbn [rep_]. rewrite internal_key_encode. cbn [oassert obind]. by rewrite ExtractUserKey_encode.
Qed.

(** The level for a range of user keys: 0 without a version to look at. *)
Definition output_level (base : option Version) (u u' : bytes) (L : Z) : Prop :=
  match base with
  | Some v => 0 <= L <= config.kMaxMemCompactLevel /\ (0 < L -> forall l, 0 <= l <= L -> free_level v l u u')
  | None => L = 0
  end.

Definition level0_table (es : list entry_op) (num : Z) (e : E) (img : bytes) (x y : entry_op) : Prop :=
  fs e (MakeFileName dbname num "ldb") = Some img /\ 0 < zlen img < 2 ^ 63 /\ table_of (user_policy := user_policy) o img es /\ head es = Some x /\ list.last es = Some y.

Lemma level0_table_spec meanwhile fuel w mem ids es base edit :
  env_ok (w_env w) -> mem_sequence mem ids es -> table_input es -> (forall v, base = Some v -> version_wf v) -> 0 < vs_next_file_number (w_versions w) -> (length es < fuel)%nat ->
  let num := vs_next_file_number (w_versions w) in
  exists e' tables' edit' s, WriteLevel0Table (user_policy := user_policy) dbname o meanwhile fuel w mem edit base =
      Ret (mkWork e' (meanwhile (NewFileNumber (w_versions w)).1) (({[ num ]} ∪ w_pending_outputs w) ∖ {[ num ]}) tables' (w_bg_error w), edit', s) /\
    keeps env_ok fs writes reads (w_env w) e' (MakeFileName dbname num "ldb") /\
    (s = OK -> (es = [] /\ edit' = edit) \/ exists L img x y, level0_table es num e' img x y /\ output_level base (op_key x) (op_key y) L /\
      edit' = AddFile L num (zlen img) (mkInternalKey (op_ikey x)) (mkInternalKey (op_ikey y)) edit).
Proof.
  intros He Hseq Hin Hv Hpos0 Hfuel num. unfold WriteLevel0Table. cbn [NewFileNumber fst]. fold num. set (meta := new_FileMetaData num 0 _ _).
  pose (il := MemTable_IteratorLaws mem ids es Hseq). assert (at_index (IteratorLaws := il) (new_MemTableIterator mem) None) as Hat by (by split).
  destruct (BuildTable_spec o interval_ok name_ok file_limit es (ilaws := il) Hin fuel dbname (w_env w) (w_tables w) (new_MemTableIterator mem) None meta He Hat) as (e' & tables' & it' & meta' & s & -> & K & Hnm & Hnil & Hgood); [cbn; lia|done|]. cbn [obind]. rewrite Hnm. change (number meta) with num in *.
  destruct (decide (es = [])) as [Hes|Hne].
  - destruct (Hnil Hes) as [-> Hsz]. rewrite Hsz. cbn [ok andb Z.ltb Z.compare obind]. eexists _, _, _, OK. split; [done|]. split; [done|]. intros _. by left.
  - destruct (ok s) eqn:Es; cbn [andb].
    2:{ cbn [obind]. eexists _, _, _, s. split; [done|]. split; [done|]. by intros ->. }
    apply ok_true in Es as ->. destruct (Hgood Hne eq_refl) as (Hpos & img & x & y & Hf & Hsz & Htab & Hx & Hsm & Hy & Hlg). rewrite Hnm in Hf. change (number meta) with num in Hf. rewrite (proj2 (Z.ltb_lt 0 _) Hpos). rewrite Hsm, Hlg, !op_ukey. cbn [obind].
    assert (exists L, match base with Some b => PickLevelForMemTableOutput (vs_options (meanwhile (NewFileNumber (w_versions w)).1)) b (op_key x) (op_key y) | None => Ret 0 end = Ret L /\ output_level base (op_key x) (op_key y) L) as (L & HL & Hout).
    { destruct base as [v|]; [|by exists 0]. destruct (PickLevelForMemTableOutput_spec (vs_options (meanwhile (NewFileNumber (w_versions w)).1)) v (op_key x) (op_key y) (Hv v eq_refl)) as (L & HL & Hr & Hfree & _). by exists L. }
    cbn [NewFileNumber fst] in HL. fold num in HL. rewrite HL. cbn [obind]. eexists _, _, _, OK. split; [done|]. split; [done|]. intros _. right. exists L, img, x, y. rewrite Hsz. split; [|done].
    split; [done|]. split; [|done]. split; [lia|]. destruct Htab as (_ & _ & _ & blocks & fraw & mt & index & Him & _). exact (ti_limit _ _ _ _ _ _ Him).
Qed.

Lemma WriteLevel0Table_spec meanwhile fuel w mem ids es v edit :
  env_ok (w_env w) -> mem_sequence mem ids es -> table_input es -> version_wf v -> 0 < vs_next_file_number (w_versions w) < 2 ^ 64 - 1 -> (length es < fuel)%nat ->
  let num := vs_next_file_number (w_versions w) in
  exists e' tables' edit' s, WriteLevel0Table (user_policy := user_policy) dbname o meanwhile fuel w mem edit (Some v) =
      Ret (mkWork e' (meanwhile (NewFileNumber (w_versions w)).1) (({[ num ]} ∪ w_pending_outputs w) ∖ {[ num ]}) tables' (w_bg_error w), edit', s) /\
    only_tables dbname (w_env w) e' /\
    (s = OK -> (es = [] /\ edit' = edit) \/ exists L img x y, flushed es v num e' L img x y /\ edit' = AddFile L num (zlen img) (mkInternalKey (op_ikey x)) (mkInternalKey (op_ikey y)) edit).
Proof.
  intros He Hseq Hin Hv Hnum Hfuel num. destruct (level0_table_spec meanwhile fuel w mem ids es (Some v) edit He Hseq Hin) as (e' & tables' & edit' & s & Hw & K & Hs); [by intros ? [= <-]|lia|done|].
  exists e', tables', edit', s. split; [exact Hw|]. split.
  - split; [by eapply keeps_ok|]. intros m Hm. specialize (Hm num ltac:(lia)). split; [by apply K|]. intros h. by apply K.
  - intros Hok. destruct (Hs Hok) as [?|(L & img & x & y & (Hf & Hsz & Ht & Hx & Hy) & [HL Hfree] & ->)]; [by left|]. right. by exists L, img, x, y.
Qed.

(** ** The edit *)

Definition memtable_edit (logfile_number L num size : Z) (x y : entry_op) : VersionEdit :=
  SetLogNumber logfile_number (SetPrevLogNumber 0 (AddFile L num size (mkInternalKey (op_ikey x)) (mkInternalKey (op_ikey y)) new_VersionEdit)).

Lemma sorted_bounds es x y : StronglySorted op_lt es -> head es = Some x -> list.last es = Some y -> ic (mkInternalKey (op_ikey x)) (mkInternalKey (op_ikey y)) <= 0.
Proof.
  intros Hs Hx Hy. rewrite head_lookup in Hx. rewrite last_lookup in Hy. destruct (decide (0%nat = pred (length es))) as [He|Hne]; [rewrite <- He, Hx in Hy; injection Hy as ->; rewrite ic_refl; lia|].
  apply Z.lt_le_incl. exact (strongly_sorted_lookup op_lt es 0%nat (pred (length es)) x y Hs Hx Hy ltac:(lia)).
Qed.

(** The level the table goes to stays without overlaps. *)
Lemma flush_disjoint v a logfile_number L num size x y : version_wf v -> denotes_levels (files_ v) a -> levels_disjoint a -> 0 <= L <= config.kMaxMemCompactLevel ->
  (0 < L -> forall l, 0 <= l <= L -> free_level v l (op_key x) (op_key y)) -> levels_disjoint (abs_apply a (memtable_edit logfile_number L num size x y)).
Proof.
  intros Hv Hden Hdis HL Hfree i m Hm n1 n2 p q Hne Hp Hq. set (edit := memtable_edit _ _ _ _ _ _) in *.
  assert (forall n z, m !! n = Some z -> abs_at a (S i) n = Some z \/ (S i = Z.to_nat L /\ n = num /\ z = (size, mkInternalKey (op_ikey x), mkInternalKey (op_ikey y)))) as Hcase.
  { intros n z Hz. assert (abs_at (abs_apply a edit) (S i) n = Some z) as Hz' by (unfold abs_at; by rewrite Hm). apply abs_at_apply in Hz' as [?|(f & Hf & Hi & Hn & ->)]; [by left|]. right. cbn in Hf. apply list_elem_of_singleton in Hf as ->. done. }
  assert (forall n z, S i = Z.to_nat L -> abs_at a (S i) n = Some z -> ic z.2 (mkInternalKey (op_ikey x)) < 0 \/ ic (mkInternalKey (op_ikey y)) z.1.2 < 0) as Hmixed.
  { intros n z Hi Hz. destruct (abs_at_denotes _ _ _ _ _ Hden Hz) as (files & g & Hf & Hg & _ & <-). cbn [info fst snd]. destruct (Hfree ltac:(lia) L ltac:(lia)) as (files' & Hf' & Hno).
    destruct (version_level v L Hv) as (files2 & Hf2 & Hlk & _); [unfold config.kMaxMemCompactLevel, config.kNumLevels in *; lia|]. rewrite Hf2 in Hf'. injection Hf' as <-. rewrite <- Hi in Hlk. assert (files2 = files) as -> by congruence.
    assert (ukey (mkInternalKey (op_ikey x)) = op_key x /\ ukey (mkInternalKey (op_ikey y)) = op_key y) as [Hx Hy] by (unfold ukey, op_ikey; cbn; by rewrite !ExtractUserKey_encode).
    destruct (decide (Compare (op_key x) (ukey (f_largest g)) <= 0)) as [H1'|H1']; [|left; apply ukey_ic; rewrite Hx; pose proof (compare_antisym (ukey (f_largest g)) (op_key x)); lia].
    destruct (decide (Compare (ukey (f_smallest g)) (op_key y) <= 0)) as [H2'|H2']; [|right; apply ukey_ic; rewrite Hy; pose proof (compare_antisym (op_key y) (ukey (f_smallest g))); lia].
    exfalso. apply Hno, Exists_exists. exists g. split; [done|]. split; by intros k [= <-]. }
  apply Hcase in Hp as [Hp|(Hi & -> & ->)], Hq as [Hq|(Hi' & -> & ->)]; cbn [fst snd].
  - unfold abs_at in Hp, Hq. destruct (a !! S i) as [m'|] eqn:Em; [|done]. by apply (Hdis i m' Em n1 n2).
  - destruct (Hmixed n1 p Hi' Hp) as [?|?]; [by left|by right].
  - destruct (Hmixed n2 q Hi Hq) as [?|?]; [by right|by left].
  - done.
Qed.

Lemma memtable_edit_fits vs v a used logfile_number L num size x y :
  version_wf v -> denotes_levels (files_ v) a -> levels_disjoint a -> 0 <= L <= config.kMaxMemCompactLevel -> (0 < L -> forall l, 0 <= l <= L -> free_level v l (op_key x) (op_key y)) ->
  op_ok x -> op_ok y -> ic (mkInternalKey (op_ikey x)) (mkInternalKey (op_ikey y)) <= 0 -> 0 < num < vs_next_file_number vs -> 0 <= size < 2 ^ 63 -> (forall p, p ∈ used -> p.2 < num) ->
  0 <= vs_log_number vs <= logfile_number -> logfile_number < vs_next_file_number vs -> vs_next_file_number vs < 2 ^ 64 - 1 ->
  edit_fits vs a used (memtable_edit logfile_number L num size x y).
Proof.
  intros Hv Hden Hdis HL Hfree Hx Hy Hle Hnum Hsz Hused Hlog Hlog' Hnext. destruct (op_ikey_wf x Hx) as [Hwx Hzx], (op_ikey_wf y Hy) as [Hwy Hzy].
  assert (level_ok L) as Hlo by (unfold level_ok, config.kMaxMemCompactLevel, config.kNumLevels in *; lia). assert (key_ok (mkInternalKey (op_ikey x)) /\ key_ok (mkInternalKey (op_ikey y))) as [Hkx Hky] by (pose proof (ikey_wf_len _ Hwx); pose proof (ikey_wf_len _ Hwy); unfold key_ok; cbn [rep_] in *; lia).
  assert (edit_ok (AddFile L num size (mkInternalKey (op_ikey x)) (mkInternalKey (op_ikey y)) new_VersionEdit)) as Heok by (apply AddFile_ok; [apply new_VersionEdit_ok|done|unfold num_ok; lia|unfold num_ok; lia|done|done]).
  split; cbn; try done.
  - destruct Heok. split; try done; cbn; unfold field_ok, num_ok; (split; [lia|done]).
  - split; cbn; [constructor|constructor|]. apply Forall_singleton. split; [done|]. by split_and!.
  - apply NoDup_singleton.
  - intros p ->%list_elem_of_singleton Hp. apply Hused in Hp. cbn in Hp. lia.
  - exact (flush_disjoint v a logfile_number L num size x y Hv Hden Hdis HL Hfree).
  - lia.
  - lia.
Qed.

(** A memtable without entries changes only the log number. *)
Lemma empty_edit_fits vs a used logfile_number : levels_disjoint a -> 0 <= vs_log_number vs <= logfile_number -> logfile_number < vs_next_file_number vs -> vs_next_file_number vs < 2 ^ 64 - 1 ->
  edit_fits vs a used (SetLogNumber logfile_number (SetPrevLogNumber 0 new_VersionEdit)).
Proof.
  intros Hdis Hlog Hlog' Hnext. pose proof new_VersionEdit_ok as Heok. split; cbn; try done.
  - destruct Heok. split; try done; cbn; unfold field_ok, num_ok; (split; [lia|done]).
  - constructor.
  - intros p ?%elem_of_nil. done.
  - lia.
  - lia.
Qed.
End Level0.

(** ** References to the base version *)

Section Base.
Context {E FH : Type} `{elaws : EnvLaws E FH} `{Crc32c} `{laws : ComparatorLaws}.
Implicit Types (e : E) (vs : VersionSet FH).

Lemma base_ref e vs a used held n v : vset_inv e vs a used held -> vl_current (vs_versions vs) = Some n -> version_at (vs_versions vs) n = Ret v ->
  exists vl, version_Ref (vs_versions vs) n = Ret vl /\ version_at vl n = Ret (set_refs v (v_refs v + 1)) /\ vset_inv e (set_versions vs vl) a used (hold held n).
Proof.
  intros [He (l & c0 & [Hvi Hcur Hcl Hh Hhl Hfl Hpl Hps Hcs Habs Hdis]) Hnum Hdisk] Hn Hat. assert (c0 = n) as -> by congruence.
  destruct (version_Ref_spec _ _ _ _ _ n Hvi Hcl) as (vl & Href & Hvi' & Hcur' & _ & Hf' & _). exists vl. split; [done|]. split. { unfold version_Ref in Href. rewrite Hat in Href. cbn [obind] in Href. injection Href as <-. unfold version_at. cbn. by rewrite lookup_insert_eq. }
  split; [done| |done|exact (vset_disk_mem e vs used a vl (compact_pointer_ vs) Hdisk)]. exists l, n. split; try done.
  - cbn. congruence.
  - intros m. unfold hold. destruct (decide _); specialize (Hh m); lia.
  - intros m. unfold hold. destruct (decide (m = n)) as [->|]; [done|]. rewrite Z.add_0_r. apply Hhl.
  - cbn. rewrite Hf'. done.
Qed.

Lemma base_unref e vs a used held n : vset_inv e vs a used (hold held n) -> (forall m, 0 <= held m) ->
  exists vl, version_Unref (vs_versions vs) n = Ret vl /\ vset_inv e (set_versions vs vl) a used held.
Proof.
  intros Hinv Hh. destruct (ReleaseInputs_spec e vs a used (hold held n) (set_input_version (new_Compaction (vs_options vs) 0) (Some n)) n Hinv eq_refl) as (vs' & Hrel & _ & Hinv' & _); [unfold hold; rewrite decide_True by done; specialize (Hh n); lia|].
  unfold ReleaseInputs in Hrel. cbn [input_version_ set_input_version] in Hrel. destruct (version_Unref (vs_versions vs) n) as [vl| |]; [|done..]. cbn [obind] in Hrel. injection Hrel as <-. exists vl. split; [done|]. eapply vset_inv_held; [|exact Hinv']. intros m. unfold unhold, hold. lia.
Qed.
End Base.

(** ** The whole flush *)

Section Whole.
Context `{laws : ComparatorLaws} {user_policy : FilterPolicy} `{flaws : !FilterPolicyLaws} `{Crc32c} `{Compressors} `{lens : !@SeparatorLengths InternalKeyComparator}.
Context {E FH TC : Type} `{vlaws : TableVerifierLaws TC E FH} `{Directory E} `{tlaws : !TableEvictor TC} `{elaws' : !TableEvictorLaws TC} (dbname : bytes) (o : TableOptions).
Abbreviation Work := (Work E FH TC).
Implicit Types (w : Work) (vs : VersionSet FH).
Abbreviation flushed := (flushed (user_policy := user_policy) dbname o).

(** What a caller of [CompactMemTable] has. *)
Record flush_ready w (a : AbsVersion) (used : list (Z * Z)) (held : nat -> Z) (n : nat) (v : Version) (mem : MemTable) (es : list entry_op) (logfile_number : Z) : Prop := mkFlushReady {
  fr_inv : vset_inv (w_env w) (w_versions w) a used held;
  fr_current : vl_current (vs_versions (w_versions w)) = Some n;
  fr_version : version_at (vs_versions (w_versions w)) n = Ret v;
  fr_levels : Forall (fun files => zlen files < 2 ^ 31) (files_ v);
  fr_dbname : vs_dbname (w_versions w) = dbname;
  fr_used p : p ∈ used -> p.2 < vs_next_file_number (w_versions w);
  fr_log : vs_log_number (w_versions w) <= logfile_number < vs_next_file_number (w_versions w);
  fr_mem : exists ids, mem_sequence mem ids es;
  fr_input : table_input es;
  fr_refs : 1 <= MemTable.refs_ mem;
  fr_error : w_bg_error w = OK;
}.

(** After a flush: the memtable is a table of the current version, and its log is not needed. *)
Definition after_flush w (a : AbsVersion) (used : list (Z * Z)) (held : nat -> Z) (v : Version) (es : list entry_op) (logfile_number : Z) w' : Prop :=
  let num := vs_next_file_number (w_versions w) in
  exists edit, vset_inv (w_env w') (w_versions w') (abs_apply a edit) (used ++ edit_pairs edit) held /\ vs_log_number (w_versions w') = logfile_number /\ vs_prev_log_number (w_versions w') = 0 /\ w_bg_error w' = OK /\
    ((es = [] /\ new_files_ edit = []) \/ exists L img x y, flushed es v num (w_env w') L img x y /\ edit = memtable_edit logfile_number L num (zlen img) x y).

Lemma RecordBackgroundError_not_ok w s : s ≠ OK -> w_bg_error (RecordBackgroundError w s) ≠ OK.
Proof. intros Hs. unfold RecordBackgroundError. destruct (ok (w_bg_error w)) eqn:Eb; [done|]. intros Hb. by rewrite Hb in Eb. Qed.

(** A file that an edit adds is a file of the current version. *)
Lemma added_live vs a used held l c L num size x y ln : vset_mem vs (abs_apply a (memtable_edit ln L num size x y)) used held l c -> length a = Z.to_nat config.kNumLevels -> level_ok L -> in_versions (vs_versions vs) l num.
Proof.
  intros Hm Hlen HL. destruct (vm_files _ _ _ _ _ _ Hm) as (files & Hf & Hden).
  assert (abs_at (abs_apply a (memtable_edit ln L num size x y)) (Z.to_nat L) num = Some (size, mkInternalKey (op_ikey x), mkInternalKey (op_ikey y))) as Hat.
  { apply (abs_at_adds_in a [(L, new_FileMetaData num size (mkInternalKey (op_ikey x)) (mkInternalKey (op_ikey y)))] (L, new_FileMetaData num size (mkInternalKey (op_ikey x)) (mkInternalKey (op_ikey y)))); [apply NoDup_singleton|by apply Forall_singleton|done|left]. }
  destruct (abs_at_denotes _ _ _ _ _ Hden Hat) as (fl & f & Hfl & Hin & Hn & _). destruct (vfiles_at _ _ _ Hf) as (v & Hv & <-). exists c, v, f. split; [apply (vm_in _ _ _ _ _ _ Hm)|]. split; [done|]. split; [|done]. apply elem_of_concat. exists fl. split; [by eapply list_elem_of_lookup_2|done].
Qed.

Section Numbers.
Hypothesis interval_ok : 1 <= to_restart_interval o.
Hypothesis name_ok : forall name, to_filter_name o = Some name -> zlen name < 2 ^ 31.
Hypothesis file_limit : forall e h d e', file_Append e h d = (e', OK) -> zlen (hbytes e' h) < 2 ^ 32.

(** The edit is logged, and what it made obsolete is deleted. *)
Lemma commit_flush w a used held v es ln num edit : vset_inv (w_env w) (w_versions w) a used held -> version_wf v -> denotes_levels (files_ v) a -> vs_dbname (w_versions w) = dbname -> w_bg_error w = OK -> 0 < num < 2 ^ 64 -> edit_fits (w_versions w) a used edit -> has_log_number_ edit = true -> log_number_ edit = ln -> has_prev_log_number_ edit = true -> prev_log_number_ edit = 0 ->
  ((es = [] /\ new_files_ edit = []) \/ exists L img x y, flushed es v num (w_env w) L img x y /\ edit = memtable_edit ln L num (zlen img) x y) ->
  exists e1 vs1 edit1 s, LogAndApply (w_env w) (w_versions w) edit = Ret (e1, vs1, edit1, s) /\
    (s = OK -> exists w', DeleteObsoleteFiles dbname (mkWork e1 vs1 (w_pending_outputs w) (w_tables w) (w_bg_error w)) = Ret w' /\ vset_inv (w_env w') (w_versions w') (abs_apply a edit) (used ++ edit_pairs edit) held /\ vs_log_number (w_versions w') = ln /\ vs_prev_log_number (w_versions w') = 0 /\ w_bg_error w' = OK /\
      ((es = [] /\ new_files_ edit = []) \/ exists L img x y, flushed es v num (w_env w') L img x y /\ edit = memtable_edit ln L num (zlen img) x y)).
Proof.
  intros Hinv Hv Hden Hdb Hbg Hnum Hfit Hhl Hln Hhp Hpv Hcase. destruct (LogAndApply_spec _ _ _ _ _ _ Hinv Hfit) as (e1 & vs1 & s & Hla & Hdb1 & _ & Hgood & _). exists e1, vs1, (completed (w_versions w) edit), s. split; [done|]. intros Hs. destruct (Hgood Hs) as (Hinv1 & Hlog1 & Hprev1 & _ & _ & Hdk & Hdl).
  pose proof Hinv1 as [_ (l & c & Hm) _ _]. rewrite Hdb in Hdb1, Hdk.
  destruct (DeleteObsoleteFiles_spec dbname (mkWork e1 vs1 (w_pending_outputs w) (w_tables w) (w_bg_error w)) _ _ _ l c Hinv1 Hm Hdb1 Hdl Hbg) as (e2 & tables2 & live & Hdel & Hlive & [_ Hkeep] & Hinv2 & _). cbn [w_env w_versions w_pending_outputs w_tables w_bg_error] in *.
  eexists. split; [exact Hdel|]. cbn [w_env w_versions w_bg_error]. split; [exact Hinv2|]. split; [by rewrite Hlog1; unfold edit_log; rewrite Hhl|]. split; [by rewrite Hprev1; unfold edit_prev; rewrite Hhp|]. split; [done|].
  destruct Hcase as [?|(L & img & x & y & (Hf & Hrest) & ->)]; [by left|]. right. exists L, img, x, y. split; [|done]. split; [|exact Hrest].
  assert (num ∈ live) as Hin. { apply Hlive. right. eapply added_live; [exact Hm| |destruct Hrest as (_ & _ & _ & _ & HL & _); unfold level_ok, config.kMaxMemCompactLevel, config.kNumLevels in *; lia]. rewrite <- (Forall2_length _ _ _ Hden). apply Hv. }
  rewrite (proj1 (Hkeep _ (table_kept dbname vs1 live num Hnum Hin))), (proj1 (Hdk _ (table_data_file dbname num Hnum))). exact Hf.
Qed.

(** The edit of a flush fits, whatever the writers did meanwhile. *)
Lemma flushed_edit w vs a used held n v mem es ln edit e : flush_ready w a used held n v mem es ln -> version_wf v -> denotes_levels (files_ v) a -> levels_disjoint a ->
  let num := vs_next_file_number (w_versions w) in
  0 < num < vs_next_file_number vs -> vs_next_file_number vs < 2 ^ 64 - 1 -> vs_log_number vs = vs_log_number (w_versions w) -> 0 <= vs_log_number vs ->
  (es = [] /\ edit = new_VersionEdit) \/ (exists L img x y, flushed es v num e L img x y /\ edit = AddFile L num (zlen img) (mkInternalKey (op_ikey x)) (mkInternalKey (op_ikey y)) new_VersionEdit) ->
  let edit' := SetLogNumber ln (SetPrevLogNumber 0 edit) in
  edit_fits vs a used edit' /\ has_log_number_ edit' = true /\ log_number_ edit' = ln /\ has_prev_log_number_ edit' = true /\ prev_log_number_ edit' = 0 /\
    ((es = [] /\ new_files_ edit' = []) \/ exists L img x y, flushed es v num e L img x y /\ edit' = memtable_edit ln L num (zlen img) x y).
Proof.
  intros Hr Hv Hden Hdis num Hnum Hnext Hlog Hlog0 Hcase. pose proof (fr_log _ _ _ _ _ _ _ _ _ Hr) as Hln. fold num in Hln. destruct Hcase as [[He ->]|(L & img & x & y & Hf & ->)].
  - split; [apply empty_edit_fits; [done|lia|lia|lia]|]. do 4 (split; [done|]). by left.
  - pose proof Hf as (_ & Hsz & _ & Hx & Hy & HL & Hfree). destruct (fr_mem _ _ _ _ _ _ _ _ _ Hr) as (ids & Hok & Hs & _). rewrite Forall_forall in Hok.
    assert (x ∈ es /\ y ∈ es) as [Hxi Hyi] by (rewrite head_lookup in Hx; rewrite last_lookup in Hy; split; by eapply list_elem_of_lookup_2).
    split; [|do 4 (split; [done|]); right; exists L, img, x, y; by split]. apply (memtable_edit_fits vs v); try done; [by apply Hok|by apply Hok|by eapply sorted_bounds|lia|by apply (fr_used _ _ _ _ _ _ _ _ _ Hr)|lia|lia].
Qed.

Lemma CompactMemTable_spec meanwhile fuel w a used held n v mem es ln shutting_down :
  flush_ready w a used held n v mem es ln -> (forall vs, vs_next_file_number vs < 2 ^ 64 - 1 -> vs_last_sequence vs < 2 ^ 64 -> writers_moved vs (meanwhile vs)) -> vs_next_file_number (w_versions w) < 2 ^ 64 - 2 -> (length es < fuel)%nat ->
  exists w' imm', CompactMemTable (user_policy := user_policy) dbname o meanwhile fuel w (Some mem) ln shutting_down = Ret (w', imm') /\
    match imm' with
    | None => after_flush w a used held v es ln w'
    | Some mem' => mem' = mem /\ w_bg_error w' ≠ OK
    end.
Proof.
  intros Hr Hmw Hroom Hfuel. pose proof Hr as [Hinv Hn Hat Hlv Hdb Hused Hln (ids & Hseq) Hin Hrefs Hbg]. destruct (current_version_wf _ _ _ _ _ n v Hinv Hn Hat Hlv) as (Hv & Hden & _ & _ & Hdis). pose proof (vi_numbers _ _ _ _ _ Hinv) as Hnums. unfold vset_numbers in Hnums.
  unfold CompactMemTable. rewrite Hn. destruct (base_ref _ _ _ _ _ _ _ Hinv Hn Hat) as (vl & -> & Hat1 & Hinv1). cbn [obind]. rewrite Hat1. cbn [obind]. set (vs1 := set_versions (w_versions w) vl) in *. set (num := vs_next_file_number (w_versions w)) in *.
  destruct (WriteLevel0Table_spec dbname o interval_ok name_ok file_limit meanwhile fuel (set_work_versions w vs1) mem ids es (set_refs v (v_refs v + 1)) new_VersionEdit) as (e2 & tables2 & edit2 & s2 & -> & Hot & Hgood); [apply Hinv|done|done|by apply (version_wf_files v)|cbn; lia|done|]. cbn [obind w_env w_versions set_work_versions w_pending_outputs w_bg_error] in *.
  set (vs2 := meanwhile _). assert (vset_inv e2 vs2 a used (hold held n) /\ vs_dbname vs2 = dbname /\ num < vs_next_file_number vs2 < 2 ^ 64 - 1 /\ vs_log_number vs2 = vs_log_number (w_versions w)) as (Hinv2 & Hdb2 & Hnx2 & Hlog2).
  { assert (vset_inv e2 vs1 a used (hold held n)) as Hi by (eapply tables_inv; [exact Hinv1|done|exact Hot|by split_and!|cbn; lia]). assert ((NewFileNumber vs1).1 = set_numbers vs1 (num + 1) (vs_manifest_file_number vs1) (vs_last_sequence vs1) (vs_log_number vs1) (vs_prev_log_number vs1)) as Hnew by (unfold NewFileNumber; cbn [fst]; f_equal; apply u64_small; cbn; lia).
    destruct (Hmw (NewFileNumber vs1).1) as (nx & last & Heq & Hnx & Hls); [rewrite Hnew; cbn; lia|rewrite Hnew; cbn; unfold num_ok in Hnums; lia|]. unfold vs2. rewrite Heq. rewrite Hnew in *. cbn in Hnx, Hls. split; [|cbn; split; [done|lia]]. apply set_numbers_inv; [|cbn; lia|unfold num_ok in *; lia]. apply set_numbers_inv; [done|cbn; lia|apply Hnums]. }
  assert (forall m, 0 <= held m) as Hh by (destruct Hinv as [_ (l & c & Hm) _ _]; apply (vm_held _ _ _ _ _ _ Hm)).
  destruct (base_unref _ _ _ _ _ _ Hinv2 Hh) as (vl3 & Hun & Hinv3). rewrite Hun. cbn [obind]. set (vs3 := set_versions vs2 vl3) in *.
  set (s3 := if ok s2 && shutting_down then _ else s2). destruct (ok s3) eqn:Es3.
  2:{ cbn [obind]. rewrite Es3. eexists _, _. split; [done|]. split; [done|]. apply RecordBackgroundError_not_ok. intros Hs. by rewrite Hs in Es3. }
  assert (s2 = OK) as -> by (apply ok_true in Es3; unfold s3 in Es3; destruct (ok s2) eqn:E2; [by apply ok_true|]; exact Es3).
  assert (denotes_levels (files_ (set_refs v (v_refs v + 1))) a) as Hden' by done.
  destruct (flushed_edit w vs3 a used held n v mem es ln edit2 e2 Hr Hv Hden Hdis) as (Hfit & Hf1 & Hf2 & Hf3 & Hf4 & Hcase); [fold num; cbn; lia|cbn; lia|done|cbn; rewrite Hlog2; lia|by apply Hgood|].
  destruct (commit_flush (mkWork e2 vs3 (({[num]} ∪ w_pending_outputs w) ∖ {[num]}) tables2 (w_bg_error w)) a used held v es ln num (SetLogNumber ln (SetPrevLogNumber 0 edit2)) Hinv3 Hv Hden Hdb2 Hbg) as (e4 & vs4 & edit4 & s4 & Hla & Hcommit); try done; [lia|].
  cbn [w_env w_versions] in Hla. rewrite Hla. cbn [obind]. destruct (ok s4) eqn:Es4.
  2:{ eexists _, _. split; [done|]. split; [done|]. apply RecordBackgroundError_not_ok. intros Hs. by rewrite Hs in Es4. }
  apply ok_true in Es4. assert (exists r, MemTable.Unref mem = Ret r) as (r & ->). { unfold MemTable.Unref. rewrite (proj2 (Z.leb_le 0 _)) by lia. cbn [oassert obind]. destruct (Z.leb_spec (MemTable.refs_ mem - 1) 0); [|by eexists]. rewrite (proj2 (Z.eqb_eq _ _)) by lia. by eexists. }
  cbn [obind]. destruct (Hcommit Es4) as (w5 & Hdel & Hrest). cbn [w_pending_outputs w_tables w_bg_error] in Hdel. cbn [set_work_versions w_pending_outputs w_tables w_bg_error w_env w_versions]. match goal with |- context [DeleteObsoleteFiles dbname ?x] => change (DeleteObsoleteFiles dbname x) with (DeleteObsoleteFiles dbname (mkWork e4 vs4 (({[num]} ∪ w_pending_outputs w) ∖ {[num]}) tables2 (w_bg_error w))) end. rewrite Hdel. cbn [obind]. eexists _, None. split; [done|]. exists (SetLogNumber ln (SetPrevLogNumber 0 edit2)). exact Hrest.
Qed.
End Numbers.
End Whole.

(** ** The property *)

Section Property.
Context `{laws : ComparatorLaws} {user_policy : FilterPolicy} `{flaws : !FilterPolicyLaws} `{Crc32c} `{Compressors} `{lens : !@SeparatorLengths InternalKeyComparator}.
Context {E FH TC : Type} `{vlaws : TableVerifierLaws TC E FH} `{Directory E} `{tlaws : !TableEvictor TC} `{elaws' : !TableEvictorLaws TC}.

End Property.

(** ** A flush in memory *)

Section Witness.
#[local] Existing Instances BytewiseComparator BytewiseComparator_laws.
#[local] Existing Instance Recovery.portable.
#[local] Existing Instances CompactionRun.run_bloom CompactionRun.run_bloom_laws CompactionRun.run_compressors CompactionRun.MemHandle_eq_dec CompactionRun.small_disk CompactionRun.small_disk_laws CompactionRun.trusting CompactionRun.trusting_laws.
#[local] Existing Instances no_cache no_cache_laws.
#[local] Instance quota_directory : Directory (Quota InMemoryEnv MemHandle) := { dir_children q dir := snd (GetChildren (q_env q) dir) }.

Definition one_entry : list entry_op := [mkOp 30 kTypeValue [x62] [x07]].

End Witness.
