(* ===== verification/LogRecovery.v ===== *)
(** * Replaying a log

    [DBImpl::RecoverLogFile] of [db_impl.c]: the records of a log are batches; they are added to a memtable again, which
    is saved as a table of level 0 when it is full and when the log ends, or becomes the memtable of the database when
    the log is used again. *)

From stdpp Require Import gmap sorting sets.
From S2P Require Import Prelude Coding Env Crc32c Cache LogWriter LogReader LogCorrect Comparator DbFormat VersionEdit SkipList MemTable BlockBuilder Block BlockCorrect Format Filter FilterBlock Iterator Version VersionBuilder Filename FileSystem MemEnv LogSim DList VersionSet Manifest Recovery WriteBatch Arena DbWrite WriteQueue Compaction CompactionCorrect CompactionLoop CompactionApply BlockIter TableBuilder DBIter MergingIterator TwoLevelIterator VersionGet Table TableCorrect TableRead TableCache TableOutput CompactionWork CompactionRun Obsolete Flush.

Open Scope outcome_scope.

Section Replay.
Context {E FH TC : Type} `{Env E FH} `{TableVerifier TC E} `{laws : ComparatorLaws} {user_policy : FilterPolicy} `{Crc32c} `{Compressors} `{Allocator}.
Context (dbname : bytes) (options : TableOptions) (write_buffer_size : Z).
Abbreviation Work := (Work E FH TC).

(** The number of entries a memtable can have. *)
Variable build_fuel : nat.

Definition MaybeIgnoreError (paranoid : bool) (s : Status) : Status := if ok s || paranoid then s else OK.

(** [LogReporter]: a report reaches the status with paranoid checks only. *)
Definition log_reported (paranoid : bool) (s : Status) (reports : list (Z * Status)) : Status :=
  if paranoid then reported s reports else s.

(** The variables of the loop over the records. *)
Record Pass := mkPass {
  ps_work : Work;
  ps_mem : option MemTable;
  ps_edit : VersionEdit;
  ps_max : Z;
  ps_save : bool;
  ps_compactions : Z;
  ps_status : Status;
}.

(** A record was read: the file system and the status have changed. *)
Definition after_read (p : Pass) (env : E) (s : Status) : Pass :=
  mkPass (mkWork env (w_versions (ps_work p)) (w_pending_outputs (ps_work p)) (w_tables (ps_work p)) (w_bg_error (ps_work p)))
    (ps_mem p) (ps_edit p) (ps_max p) (ps_save p) (ps_compactions p) s.

(** The body of the loop for a record that can be a batch; the boolean is false after [break]. *)
Definition replay_record (paranoid : bool) (p : Pass) (record : bytes) : outcome (Pass * bool) :=
  let! batch := SetContents record in
  let! (mem, s) := InsertInto batch (default (MemTable.Ref new_MemTable) (ps_mem p)) in
  let s := MaybeIgnoreError paranoid s in
  if negb (ok s) then Ret (mkPass (ps_work p) (Some mem) (ps_edit p) (ps_max p) (ps_save p) (ps_compactions p) s, false)
  else
    let last_seq := u64 (Sequence batch + Count batch - 1) in
    let max_sequence := if ps_max p <? last_seq then last_seq else ps_max p in
    let! usage := ApproximateMemoryUsage mem in
    if write_buffer_size <? usage then
      let! (w, edit, s) := WriteLevel0Table (user_policy := user_policy) dbname options (fun vs => vs) build_fuel (ps_work p) mem (ps_edit p) None in
      let! _ := MemTable.Unref mem in
      Ret (mkPass w None edit max_sequence true (ps_compactions p + 1) s, ok s)
    else Ret (mkPass (ps_work p) (Some mem) (ps_edit p) max_sequence (ps_save p) (ps_compactions p) s, true).

(** The reader uses the file system as the last table has left it. *)
Fixpoint replay_loop (fuel : nat) (paranoid : bool) (reader : Reader (OpenFile E FH)) (p : Pass) : outcome (Reader (OpenFile E FH) * Pass) :=
  match fuel with
  | O => OutOfFuel
  | S fuel' =>
      let! (reader', record) := ReadRecord fuel (LogReader.set_file reader (mkOpen (w_env (ps_work p)) (of_handle (file_ reader)))) in
      let p := after_read p (of_env (file_ reader')) (log_reported paranoid (ps_status p) (drop (length (reports_ reader)) (reports_ reader'))) in
      match record with
      | None => Ret (reader', p)
      | Some record =>
          if negb (ok (ps_status p)) then Ret (reader', p)
          else if zlen record <? 12 then
            replay_loop fuel' paranoid reader' (after_read p (w_env (ps_work p)) (log_reported paranoid (ps_status p) [(zlen record, Corruption "log record too small")]))
          else
            let! (p, more) := replay_record paranoid p record in
            if (more : bool) then replay_loop fuel' paranoid reader' p else Ret (reader', p)
      end
  end.

(** The members of [DBImpl] that opening a database sets. *)
Record Opening := mkOpening {
  on_work : Work;
  on_mem : option MemTable;
  on_logfile : option FH;
  on_log : option (Writer FH);
  on_logfile_number : Z;
}.

Definition set_opening_work (d : Opening) (w : Work) : Opening := mkOpening w (on_mem d) (on_logfile d) (on_log d) (on_logfile_number d).

Definition set_work_env (w : Work) (env : E) : Work := mkWork env (w_versions w) (w_pending_outputs w) (w_tables w) (w_bg_error w).

Definition is_null {A} (x : option A) : bool := match x with None => true | Some _ => false end.

(** The last log is used again; with the memtable that is left to save. *)
Definition reuse_log (d : Opening) (fname : bytes) (log_number : Z) (mem : option MemTable) : outcome (Opening * option MemTable) :=
  assert! is_null (on_logfile d);
  assert! is_null (on_log d);
  assert! is_null (on_mem d);
  let '(s, lfile_size) := GetFileSize (w_env (on_work d)) fname in
  if ok s then
    let '(env, s, file) := NewAppendableFile (w_env (on_work d)) fname in
    let w := set_work_env (on_work d) env in
    if ok s then
      match file with
      | None => AssertFailed
      | Some h => Ret (mkOpening w (Some (default (MemTable.Ref new_MemTable) mem)) (Some h) (Some (mkWriter h (lfile_size mod LogWriter.kBlockSize) InitTypeCrc)) log_number, None)
      end
    else Ret (mkOpening w (on_mem d) file (on_log d) (on_logfile_number d), mem)
  else Ret (d, mem).

(** The memtable that is left becomes a table. *)
Definition save_rest (d : Opening) (mem : option MemTable) (edit : VersionEdit) (save_manifest : bool) (s : Status) : outcome (Opening * VersionEdit * bool * Status) :=
  match mem with
  | None => Ret (d, edit, save_manifest, s)
  | Some mem =>
      let! (d, edit, save_manifest, s) :=
        if ok s then
          let! (w, edit, s) := WriteLevel0Table (user_policy := user_policy) dbname options (fun vs => vs) build_fuel (on_work d) mem edit None in
          Ret (set_opening_work d w, edit, true, s)
        else Ret (d, edit, save_manifest, s) in
      let! _ := MemTable.Unref mem in
      Ret (d, edit, save_manifest, s)
  end.

(** [fuel] bounds the bytes of the log. The results are the database, [*save_manifest], [*edit], [*max_sequence] and
    the status. *)
Definition RecoverLogFile (fuel : nat) (d : Opening) (log_number : Z) (last_log save_manifest : bool) (edit : VersionEdit) (max_sequence : Z)
    : outcome (Opening * bool * VersionEdit * Z * Status) :=
  let opts := vs_options (w_versions (on_work d)) in
  let! fname := LogFileName dbname log_number in
  let '(env, s, file) := NewSequentialFile (w_env (on_work d)) fname in
  let w := set_work_env (on_work d) env in
  if negb (ok s) then Ret (set_opening_work d w, save_manifest, edit, max_sequence, MaybeIgnoreError (paranoid_checks opts) s)
  else
    match file with
    | None => AssertFailed
    | Some file =>
        let! (reader, p) := replay_loop fuel (paranoid_checks opts) (new_Reader (mkOpen env file) true true 0) (mkPass w None edit max_sequence save_manifest 0 OK) in
        let w := set_work_env (ps_work p) (file_delete (w_env (ps_work p)) (of_handle (file_ reader))) in
        let d := set_opening_work d w in
        let! (d, mem) := if ok (ps_status p) && reuse_logs opts && last_log && (ps_compactions p =? 0) then reuse_log d fname log_number (ps_mem p) else Ret (d, ps_mem p) in
        let! (d, edit, save_manifest, s) := save_rest d mem (ps_edit p) (ps_save p) (ps_status p) in
        Ret (d, save_manifest, edit, ps_max p, s)
    end.
End Replay.

(** ** Entries of a log *)

Section Entries.
Context `{laws : ComparatorLaws}.

(** A batch: its first sequence number and its operations. *)
Definition batch_entries (bs : list (Z * list batch_op)) : list entry_op := concat ((fun b => numbered b.1 b.2) <$> bs).

Lemma batch_entries_app bs bs' : batch_entries (bs ++ bs') = batch_entries bs ++ batch_entries bs'.
Proof. unfold batch_entries. by rewrite fmap_app, concat_app. Qed.

Definition batch_ok (b : Z * list batch_op) : Prop := Forall batch_op_ok b.2 /\ zlen b.2 < 2 ^ 31 /\ 1 <= b.1 /\ b.1 + zlen b.2 <= 2 ^ 56.

Definition last_number (b : Z * list batch_op) : Z := b.1 + zlen b.2 - 1.

(** The largest sequence number. *)
Definition max_number (m : Z) (bs : list (Z * list batch_op)) : Z := foldl (fun m b => if m <? last_number b then last_number b else m) m bs.

(** Entries that fit into one table. *)
Definition fits (es : list entry_op) : Prop := Forall (fun o => valid_key (op_key o)) es /\ table_budget (shown_entries es) + 8 < 2 ^ 32.

(** The records of a log are these batches, in the order of their numbers. *)
Record log_batches (records : list bytes) (bs : list (Z * list batch_op)) : Prop := mkLogBatches {
  lb_records : Forall2 (fun r b => batch_is r b.1 b.2) records bs;
  lb_ok : Forall batch_ok bs;
  lb_order : StronglySorted (fun b b' => b.1 + zlen b.2 <= b'.1) bs;
  lb_fits : fits (batch_entries bs);
}.

Lemma fits_app es es' : fits (es ++ es') -> fits es /\ fits es'.
Proof.
  intros [Hv Hb]. rewrite shown_app, table_budget_app in Hb. apply Forall_app in Hv as [? ?]. pose proof (table_budget_nonneg (shown_entries es)). pose proof (table_budget_nonneg (shown_entries es')). split; (split; [done|lia]).
Qed.

Lemma fits_perm es es' : es ≡ₚ es' -> fits es -> fits es'.
Proof.
  intros Hp [Hv Hb]. split; [by rewrite <- Hp|]. replace (table_budget (shown_entries es')) with (table_budget (shown_entries es)); [done|]. clear Hv Hb.
  induction Hp as [|x l l' _ IH|x y l|l l' l'' _ IH _ IH']; [done| | |congruence].
  - change (x :: l) with ([x] ++ l). change (x :: l') with ([x] ++ l'). by rewrite !shown_app, !table_budget_app, IH.
  - change (y :: x :: l) with ([y] ++ [x] ++ l). change (x :: y :: l) with ([x] ++ [y] ++ l). rewrite !shown_app, !table_budget_app. lia.
Qed.

(** The table a memtable with these entries becomes. *)
Lemma fits_sorted m es : fits es -> MRepr m es -> exists ids es', mem_sequence m ids es' /\ es' ≡ₚ es /\ table_input es'.
Proof.
  intros Hf Hm. destruct (MRepr_sequence m es Hm) as (ids & es' & Hs & Hp). exists ids, es'. split; [done|]. split; [done|]. destruct (fits_perm es es' (symmetry Hp) Hf) as [Hv Hb]. split; [done|apply Hs|done].
Qed.

Lemma entries_before bs b o : StronglySorted (fun b b' : Z * list batch_op => b.1 + zlen b.2 <= b'.1) (bs ++ [b]) -> o ∈ batch_entries bs -> op_seq o < b.1.
Proof.
  intros Hs Ho. unfold batch_entries in Ho. apply list_elem_of_In, in_concat in Ho as (l & Hl & Ho). apply list_elem_of_In, list_elem_of_fmap in Hl as (c & -> & Hc). apply list_elem_of_In, numbered_range in Ho.
  apply StronglySorted_app in Hs as (Hall & _ & _). specialize (Hall c b Hc). rewrite list_elem_of_singleton in Hall. specialize (Hall eq_refl). cbn in Hall. lia.
Qed.

Lemma adds_refs ops : forall m m', adds m ops = Ret m' -> MemTable.refs_ m' = MemTable.refs_ m.
Proof.
  induction ops as [|o ops IH]; intros m m'; cbn [adds]; [by intros [= <-]|]. destruct (MemTable.Add m _ _ _ _) as [m1| |] eqn:Ea; cbn [obind]; [|done..]. intros ->%IH. revert Ea. unfold MemTable.Add.
  match goal with |- context [assert! ?b; _] => destruct b end; [|done]. cbn [oassert obind]. destruct (SkipList.Insert _ _) as [t| |]; [|done..]. by intros [= <-].
Qed.
End Entries.

(** ** The tables of a log *)

Record SavedTable := mkSaved { st_number : Z; st_image : bytes; st_entries : list entry_op }.

Section Tables.
Context `{laws : ComparatorLaws} {user_policy : FilterPolicy} `{flaws : !FilterPolicyLaws} `{Crc32c} `{Compressors} `{lens : !@SeparatorLengths InternalKeyComparator} `{alaws : AllocatorLaws}.
Context {E FH TC : Type} `{vlaws : TableVerifierLaws TC E FH} (dbname : bytes) (o : TableOptions) (write_buffer_size : Z) (build_fuel : nat).
Abbreviation Work := (Work E FH TC).
Abbreviation keep := (keeps env_ok fs writes reads).
Abbreviation table_name k := (MakeFileName dbname k "ldb").
Abbreviation next w := (vs_next_file_number (w_versions w)).
Implicit Types (w : Work) (p : Pass (E := E) (FH := FH) (TC := TC)) (e : E).
Hypothesis interval_ok : 1 <= to_restart_interval o.
Hypothesis name_ok : forall name, to_filter_name o = Some name -> zlen name < 2 ^ 31.
Hypothesis file_limit : forall e h d e', file_Append e h d = (e', OK) -> zlen (hbytes e' h) < 2 ^ 32.

Definition add_table (edit : VersionEdit) (t : SavedTable) : VersionEdit :=
  match head (st_entries t), list.last (st_entries t) with
  | Some x, Some y => AddFile 0 (st_number t) (zlen (st_image t)) (mkInternalKey (op_ikey x)) (mkInternalKey (op_ikey y)) edit
  | _, _ => edit
  end.

(** The file of the table holds these entries, sorted. *)
Definition stored e (t : SavedTable) (part : list entry_op) : Prop :=
  fs e (table_name (st_number t)) = Some (st_image t) /\ 0 < zlen (st_image t) < 2 ^ 63 /\ table_of (user_policy := user_policy) o (st_image t) (st_entries t) /\
  st_entries t ≡ₚ part /\ part ≠ [].

(** From [e] to [e'] tables with numbers from [lo] to [hi] were written and the file [n] was read or opened; nothing else
    has changed. *)
Definition wrote_tables (n : bytes) (lo hi : Z) e e' : Prop :=
  env_ok e' /\ forall m, (forall k, lo <= k < hi -> m ≠ table_name k) -> fs e' m = fs e m /\ (m ≠ n -> forall h, writes e h m -> writes e' h m).

Definition with_next (vs : VersionSet FH) (nx : Z) : VersionSet FH :=
  set_numbers vs nx (vs_manifest_file_number vs) (vs_last_sequence vs) (vs_log_number vs) (vs_prev_log_number vs).

Record work_moved (w0 : Work) (n : bytes) w : Prop := mkWorkMoved {
  wm_files : wrote_tables n (next w0) (next w) (w_env w0) (w_env w);
  wm_versions : w_versions w = with_next (w_versions w0) (next w);
  wm_next : next w0 <= next w;
  wm_pending : w_pending_outputs w ⊆ w_pending_outputs w0;
  wm_error : w_bg_error w = w_bg_error w0;
}.

Record tables_saved (w0 : Work) (n : bytes) (edit0 : VersionEdit) (tables : list SavedTable) (parts : list (list entry_op)) w (edit : VersionEdit) : Prop := mkTablesSaved {
  ts_moved : work_moved w0 n w;
  ts_stored : Forall2 (stored (w_env w)) tables parts;
  ts_numbers : Forall (fun t => next w0 <= st_number t < next w) tables;
  ts_sorted : StronglySorted Z.lt (st_number <$> tables);
  ts_edit : edit = foldl add_table edit0 tables;
}.

Lemma wrote_tables_refl n lo e : env_ok e -> wrote_tables n lo lo e e.
Proof. by split. Qed.

(** One more table. *)
Lemma wrote_tables_table n lo k e0 e e' : lo <= k -> wrote_tables n lo k e0 e -> keep e e' (table_name k) -> wrote_tables n lo (k + 1) e0 e'.
Proof.
  intros Hlo [He Hw] (He' & Hf & Hk). split; [done|]. intros m Hm. destruct (Hw m) as [Hfm Hwm]; [intros j Hj; apply Hm; lia|]. assert (m ≠ table_name k) as Hne by (apply Hm; lia).
  split; [by rewrite Hf|]. intros Hn h Hh. apply Hk; [done|]. by apply Hwm.
Qed.

(** The file [n] is used. *)
Lemma wrote_tables_log n lo hi e0 e e' : wrote_tables n lo hi e0 e -> keep e e' n -> fs e' n = fs e n -> wrote_tables n lo hi e0 e'.
Proof.
  intros [He Hw] (He' & Hf & Hk) Hn. split; [done|]. intros m Hm. destruct (Hw m Hm) as [Hfm Hwm]. split; [|intros Hne h Hh; apply Hk; [done|]; by apply Hwm].
  destruct (decide (m = n)) as [->|Hne]; [by rewrite Hn|by rewrite Hf].
Qed.

Lemma stored_other e e' t part : fs e' (table_name (st_number t)) = fs e (table_name (st_number t)) -> stored e t part -> stored e' t part.
Proof. intros Hf (H1' & H2' & H3' & H4' & H5'). unfold stored. by rewrite Hf. Qed.

Lemma stored_keep lo k e e' tables parts : 0 < lo -> k < 2 ^ 64 -> keep e e' (table_name k) -> Forall (fun t => lo <= st_number t < k) tables -> Forall2 (stored e) tables parts -> Forall2 (stored e') tables parts.
Proof.
  intros Hlo Hk (_ & Hf & _) Hn Hs. revert Hn. induction Hs as [|t part tables parts Ht Hs IH]; intros Hn; [constructor|]. apply Forall_cons in Hn as [Hr Hn]. constructor; [|by apply IH].
  eapply stored_other; [|exact Ht]. apply Hf. intros Heq%table_name_inj; lia.
Qed.

(** A memtable is saved. *)
Lemma save_memtable w0 n edit0 tables parts w edit m part : tables_saved w0 n edit0 tables parts w edit -> MRepr m part -> fits part -> (length part < build_fuel)%nat ->
  0 < next w0 -> next w < 2 ^ 64 - 1 -> (forall k, 0 < k < 2 ^ 64 -> n ≠ table_name k) ->
  exists w' edit' s, WriteLevel0Table (user_policy := user_policy) dbname o (fun vs => vs) build_fuel w m edit None = Ret (w', edit', s) /\
    (forall h c, reads (w_env w) h n c -> reads (w_env w') h n c) /\ work_moved w0 n w' /\ next w' = next w + 1 /\
    (s = OK -> exists ts ps, tables_saved w0 n edit0 (tables ++ ts) (parts ++ ps) w' edit' /\ concat ps = part).
Proof.
  intros [Hmv Hst Hnum Hsort Hed] Hm Hfits Hfuel Hpos Hroom Hlog. destruct (fits_sorted m part Hfits Hm) as (ids & es & Hseq & Hperm & Hin). destruct Hmv as [Hfiles Hvs Hle Hpend Herr].
  destruct (level0_table_spec dbname o interval_ok name_ok file_limit (fun vs => vs) build_fuel w m ids es None edit) as (e' & tables' & edit' & s & -> & K & Hs); [by destruct Hfiles|done|done|done|lia|by rewrite Hperm|].
  set (num := next w) in *. assert (u64 (num + 1) = num + 1) as Hu by (unfold u64; rewrite Z.mod_small; lia). eexists _, edit', s. split; [done|]. cbn [w_env w_versions w_pending_outputs w_bg_error NewFileNumber fst vs_next_file_number set_numbers]. fold num. rewrite Hu.
  split; [intros h c; apply (keeps_reads _ _ _ _ _ _ K); apply Hlog; lia|].
  assert (work_moved w0 n (mkWork e' (set_numbers (w_versions w) (num + 1) (vs_manifest_file_number (w_versions w)) (vs_last_sequence (w_versions w)) (vs_log_number (w_versions w)) (vs_prev_log_number (w_versions w))) (({[num]} ∪ w_pending_outputs w) ∖ {[num]}) tables' (w_bg_error w))) as Hmv'.
  { split; cbn [w_env w_versions w_pending_outputs w_bg_error vs_next_file_number set_numbers]; [by eapply wrote_tables_table|by rewrite Hvs|lia|set_solver|done]. }
  split; [done|]. split; [done|]. intros Hok. pose proof (stored_keep (next w0) num _ _ _ _ Hpos ltac:(lia) K Hnum Hst) as Hst'.
  assert (Forall (fun t => next w0 <= st_number t < num + 1) tables) as Hnum'. { eapply Forall_impl; [exact Hnum|]. cbn. lia. }
  destruct (Hs Hok) as [[Hes ->]|(L & img & x & y & (Hf & Hsz & Ht & Hx & Hy) & -> & ->)].
  - exists [], []. rewrite !app_nil_r. split; [|cbn; symmetry; rewrite Hes in Hperm; by apply Permutation_nil in Hperm]. split; cbn [w_env w_versions vs_next_file_number set_numbers]; try done.
  - exists [mkSaved num img es], [part]. split; [|cbn; by rewrite app_nil_r]. split; cbn [w_env w_versions vs_next_file_number set_numbers].
    + done.
    + apply Forall2_app; [done|]. constructor; [|constructor]. split; [done|]. split; [done|]. split; [done|]. split; [done|]. intros ->. apply Permutation_nil_r in Hperm. by rewrite Hperm in Hx.
    + apply Forall_app. split; [done|]. constructor; [cbn; lia|constructor].
    + rewrite fmap_app. apply StronglySorted_app. split; [|split; [done|by repeat constructor]]. intros a b Ha Hb. apply list_elem_of_singleton in Hb as ->. apply list_elem_of_fmap in Ha as (t & -> & Ht'). rewrite Forall_forall in Hnum. cbn. apply Hnum in Ht'. lia.
    + rewrite foldl_app, <- Hed. cbn [foldl]. unfold add_table. cbn [st_entries st_number st_image]. by rewrite Hx, Hy.
Qed.

(** ** The loop over the records *)

(** The batches [bs] were read: some parts of their entries are in tables, the rest is in the memtable. *)
Record replayed (w0 : Work) (n : bytes) (edit0 : VersionEdit) (save0 : bool) (max0 : Z) (bs : list (Z * list batch_op)) (tables : list SavedTable) (parts : list (list entry_op)) (rest : list entry_op) p : Prop := mkReplayed {
  rp_saved : tables_saved w0 n edit0 tables parts (ps_work p) (ps_edit p);
  rp_next : next (ps_work p) <= next w0 + zlen bs;
  rp_entries : batch_entries bs = concat parts ++ rest;
  rp_mem : match ps_mem p with None => rest = [] | Some m => MRepr m rest /\ sized m /\ MemTable.refs_ m = 1 end;
  rp_max : ps_max p = max_number max0 bs;
  rp_save : ps_save p = save0 || negb (ps_compactions p =? 0);
  rp_compactions : 0 <= ps_compactions p /\ (ps_compactions p = 0 -> tables = []);
  rp_status : ps_status p = OK;
}.

(** A table could not be written. *)
Definition gave_up (w0 : Work) (n : bytes) (count : Z) p : Prop := ps_status p ≠ OK /\ ps_mem p = None /\ work_moved w0 n (ps_work p) /\ next (ps_work p) <= next w0 + count.

Lemma max_number_snoc m bs b : max_number m (bs ++ [b]) = if max_number m bs <? last_number b then last_number b else max_number m bs.
Proof. unfold max_number. by rewrite foldl_app. Qed.

(** A batch in the memtable. *)
Lemma replay_insert w0 n edit0 save0 max0 bs tables parts rest p r b : replayed w0 n edit0 save0 max0 bs tables parts rest p ->
  batch_ok b -> batch_is r b.1 b.2 -> StronglySorted (fun b b' : Z * list batch_op => b.1 + zlen b.2 <= b'.1) (bs ++ [b]) ->
  exists m, InsertInto r (default (MemTable.Ref new_MemTable) (ps_mem p)) = Ret (m, OK) /\ MRepr m (rest ++ numbered b.1 b.2) /\ sized m /\ MemTable.refs_ m = 1.
Proof.
  intros Hrp (Hops & Hcnt & Hfirst & Hlast) Hb Hord. set (m0 := default _ _). assert (MRepr m0 rest /\ sized m0 /\ MemTable.refs_ m0 = 1) as (Hm0 & Hsz0 & Hr0).
  { pose proof (rp_mem _ _ _ _ _ _ _ _ _ _ Hrp) as Hmem. unfold m0. destruct (ps_mem p) as [m|]; [done|]. subst rest. split; [exact MRepr_new|]. split; [exact sized_new|done]. }
  rewrite (InsertInto_adds r b.1 b.2) by (done || lia). assert (Forall op_ok (numbered b.1 b.2)) as Hok by (apply numbered_ok; (done || lia)).
  destruct (adds_spec (numbered b.1 b.2) m0 rest Hm0 Hok (numbered_increasing _ _)) as (m & Hadds & Hm).
  { intros x y Hx Hy. apply numbered_range in Hy. assert (op_seq x < b.1); [|lia]. eapply entries_before; [exact Hord|]. rewrite (rp_entries _ _ _ _ _ _ _ _ _ _ Hrp). set_solver. }
  rewrite Hadds. exists m. split; [done|]. split; [done|]. split; [by eapply adds_sized|]. by rewrite (adds_refs _ _ _ Hadds).
Qed.

Lemma replay_record_spec paranoid w0 n edit0 save0 max0 bs tables parts rest p r b : replayed w0 n edit0 save0 max0 bs tables parts rest p ->
  batch_ok b -> batch_is r b.1 b.2 -> StronglySorted (fun b b' : Z * list batch_op => b.1 + zlen b.2 <= b'.1) (bs ++ [b]) -> fits (batch_entries (bs ++ [b])) ->
  (length (batch_entries (bs ++ [b])) < build_fuel)%nat -> 0 < next w0 -> next w0 + zlen bs < 2 ^ 64 - 1 -> (forall k, 0 < k < 2 ^ 64 -> n ≠ table_name k) ->
  exists p' more, replay_record (user_policy := user_policy) dbname o write_buffer_size build_fuel paranoid p r = Ret (p', more) /\
    (forall h c, reads (w_env (ps_work p)) h n c -> reads (w_env (ps_work p')) h n c) /\
    if (more : bool) then exists tables' parts' rest', replayed w0 n edit0 save0 max0 (bs ++ [b]) tables' parts' rest' p' else gave_up w0 n (zlen (bs ++ [b])) p'.
Proof.
  intros Hrp Hbok Hb Hord Hfits Hfuel Hpos Hroom Hlog. destruct (replay_insert _ _ _ _ _ _ _ _ _ _ r b Hrp Hbok Hb Hord) as (m & Hins & Hm & Hsz & Hrefs). destruct Hbok as (Hops & Hcnt & Hfirst & Hlast). pose proof (zlen_nonneg b.2) as Hn0.
  destruct Hrp as [Hsaved Hnext Hent Hmem Hmax Hsave [Hc0 Hct] Hstat].
  unfold replay_record, SetContents. destruct (batch_is_size _ _ _ Hb) as [Hlen _]. pose proof (zlen_nonneg (records_bytes b.2)). unfold kHeader. destruct (Z.leb_spec 12 (zlen r)); [|lia]. cbn [oassert obind]. rewrite Hins. cbn [obind]. unfold MaybeIgnoreError. cbn [ok orb negb].
  assert (u64 (Sequence r + Count r - 1) = last_number b) as ->.
  { rewrite (Count_is _ _ _ Hb Hcnt). assert (Sequence r = b.1) as ->. { unfold Sequence. rewrite Hb. rewrite DecodeFixed64_Encode. apply u64_small. lia. } unfold last_number, u64. apply Z.mod_small. lia. }
  destruct (usage_returns m Hsz) as [usage ->]. cbn [obind]. rewrite batch_entries_app, Hent in Hfits, Hfuel. unfold batch_entries at 1 in Hfits. unfold batch_entries at 1 in Hfuel. cbn [fmap list_fmap concat] in Hfits, Hfuel. rewrite app_nil_r in Hfits, Hfuel. rewrite <- app_assoc in Hfits, Hfuel.
  assert (batch_entries (bs ++ [b]) = concat parts ++ rest ++ numbered b.1 b.2) as Hent'. { rewrite batch_entries_app, Hent. unfold batch_entries. cbn. by rewrite app_nil_r, <- app_assoc. }
  destruct (write_buffer_size <? usage).
  - apply fits_app in Hfits as [_ Hfits]. rewrite length_app in Hfuel.
    destruct (save_memtable w0 n edit0 tables parts (ps_work p) (ps_edit p) m (rest ++ numbered b.1 b.2) Hsaved Hm Hfits ltac:(lia) Hpos ltac:(lia) Hlog) as (w' & edit' & s & -> & Hreads & Hmv & Hnx & Hok). cbn [obind].
    unfold MemTable.Unref. rewrite Hrefs. cbn [Z.leb Z.compare Z.sub Z.add Z.opp Z.pos_sub oassert obind Z.eqb]. destruct (ok s) eqn:Es.
    + apply ok_spec in Es as ->. destruct (Hok eq_refl) as (ts & ps & Hsaved' & Hps). eexists _, true. split; [done|]. split; [done|]. exists (tables ++ ts), (parts ++ ps), []. split; cbn [ps_work ps_edit ps_mem ps_max ps_save ps_compactions ps_status].
      * done.
      * rewrite zlen_app. change (zlen [b]) with 1. lia.
      * by rewrite Hent', concat_app, Hps, app_nil_r.
      * done.
      * by rewrite max_number_snoc, Hmax.
      * destruct (Z.eqb_spec (ps_compactions p + 1) 0); [lia|]. by rewrite orb_true_r.
      * split; lia.
      * done.
    + eexists _, false. split; [done|]. split; [done|]. split; [cbn [ps_status]; by intros ->|]. split; [done|]. split; [done|]. cbn [ps_work]. rewrite zlen_app. change (zlen [b]) with 1. lia.
  - eexists _, true. split; [done|]. split; [done|]. exists tables, parts, (rest ++ numbered b.1 b.2). split; cbn [ps_work ps_edit ps_mem ps_max ps_save ps_compactions ps_status]; try done.
    + rewrite zlen_app. change (zlen [b]) with 1. lia.
    + by rewrite max_number_snoc, Hmax.
Qed.

(** The reader stands in the log, as one over the bytes of the log does. *)
Definition at_log (n : bytes) (reader : Reader (OpenFile E FH)) e (q : Reader bytes) : Prop :=
  sim (open_at e n) (LogReader.set_file reader (mkOpen e (of_handle (file_ reader)))) q.

Lemma at_log_later n reader e e' q : env_ok e' -> sim (open_at e n) reader q -> (forall h c, reads (of_env (file_ reader)) h n c -> reads e' h n c) -> at_log n reader e' q.
Proof.
  intros He (Hf & Hrest) Hr. split; [|exact Hrest]. destruct Hf as (Hrd & _). split; [by apply Hr|]. split; [by apply keeps_refl|done].
Qed.

(** Nothing was reported in between. *)
Lemma reports_between fuel fuel' (q q1 q' : Reader bytes) d l : ReadRecord fuel q = Ret (q1, d) -> read_all fuel' q1 = Ret (q', l) -> reports_ q' = reports_ q -> reports_ q1 = reports_ q.
Proof.
  intros [k1 Hk1]%record_reports [k2 Hk2]%read_all_reports Heq. rewrite Hk1 in Hk2 |- *. rewrite Heq, <- app_assoc in Hk2. rewrite <- (app_nil_r (reports_ q)) in Hk2 at 1. apply app_inv_head in Hk2. destruct k1; [by rewrite app_nil_r|done].
Qed.

Lemma replayed_read w0 n edit0 save0 max0 bs tables parts rest p e' : replayed w0 n edit0 save0 max0 bs tables parts rest p -> keep (w_env (ps_work p)) e' n -> fs e' n = fs (w_env (ps_work p)) n ->
  replayed w0 n edit0 save0 max0 bs tables parts rest (after_read p e' OK).
Proof.
  intros [[[Hfi Hvs Hnx Hpe Her] Hst Hnu Hso Hed] Hnext Hent Hmem Hmax Hsave Hcom Hstat] K Hf. split; try done. split; try done.
  - split; try done. by eapply wrote_tables_log.
  - cbn. eapply Forall2_impl; [exact Hst|]. intros t part. apply stored_other. destruct (decide (table_name (st_number t) = n)) as [->|Hne]; [done|]. by apply K.
Qed.

(** One call of [ReadRecord]. *)
Lemma read_step n reader e q fuel q1 d : at_log n reader e q -> ReadRecord fuel q = Ret (q1, d) -> reports_ q1 = reports_ q ->
  exists reader1, ReadRecord fuel (LogReader.set_file reader (mkOpen e (of_handle (file_ reader)))) = Ret (reader1, d) /\ sim (open_at e n) reader1 q1 /\ drop (length (reports_ reader)) (reports_ reader1) = [].
Proof.
  intros Hat Hq Hrep. pose proof (ReadRecord_sim (open_at e n) (open_at_read e n) (open_at_skip e n) fuel _ _ Hat) as Hsim. rewrite Hq in Hsim.
  destruct (ReadRecord fuel (LogReader.set_file reader (mkOpen e (of_handle (file_ reader))))) as [[reader1 d1]| |]; [|done..]. destruct Hsim as [Hsim Hd]. cbn [fst snd] in Hsim, Hd. subst d1. exists reader1. split; [done|]. split; [done|].
  destruct Hsim as (_ & _ & Hr1 & _), Hat as (_ & _ & Hr0 & _). cbn in Hr0. rewrite <- Hr1, Hrep, Hr0. apply drop_all.
Qed.

Lemma replay_loop_spec paranoid w0 n edit0 save0 max0 q' bs' : forall fuel records reader q bs tables parts rest p,
  replayed w0 n edit0 save0 max0 bs tables parts rest p -> at_log n reader (w_env (ps_work p)) q -> read_all fuel q = Ret (q', records) -> reports_ q' = reports_ q ->
  Forall2 (fun r b => batch_is r b.1 b.2) records bs' -> Forall batch_ok bs' -> StronglySorted (fun b b' : Z * list batch_op => b.1 + zlen b.2 <= b'.1) (bs ++ bs') -> fits (batch_entries (bs ++ bs')) ->
  (length (batch_entries (bs ++ bs')) < build_fuel)%nat -> 0 < next w0 -> next w0 + zlen (bs ++ bs') < 2 ^ 64 -> (forall k, 0 < k < 2 ^ 64 -> n ≠ table_name k) ->
  exists reader' p', replay_loop (user_policy := user_policy) dbname o write_buffer_size build_fuel fuel paranoid reader p = Ret (reader', p') /\
    (exists c, reads (w_env (ps_work p')) (of_handle (file_ reader')) n c) /\
    ((exists tables' parts' rest', replayed w0 n edit0 save0 max0 (bs ++ bs') tables' parts' rest' p') \/ gave_up w0 n (zlen (bs ++ bs')) p').
Proof.
  induction bs' as [|b bs' IH]; intros fuel records reader q bs tables parts rest p Hrp Hat Hall Hrep Hrec Hbok Hord Hfits Hfuel Hpos Hroom Hlog; (destruct fuel as [|fuel]; [done|]); cbn [read_all replay_loop] in *;
    (destruct (ReadRecord (S fuel) q) as [[q1 d]| |] eqn:Eq; [|done..]); cbn [obind] in Hall.
  - apply Forall2_nil_inv_r in Hrec as ->. destruct d as [d|]; [destruct (read_all fuel q1) as [[? ?]| |]; done|]. injection Hall as ->.
    destruct (read_step _ _ _ _ _ _ _ Hat Eq Hrep) as (reader1 & -> & ((Hr1 & K1 & Hf1) & _) & Hdrop). cbn [obind]. rewrite Hdrop. assert (log_reported paranoid (ps_status p) [] = OK) as ->. { rewrite (rp_status _ _ _ _ _ _ _ _ _ _ Hrp). by destruct paranoid. }
    eexists _, _. split; [done|]. split; [by eexists|]. left. rewrite app_nil_r. exists tables, parts, rest. by apply replayed_read.
  - apply Forall2_cons_inv_r in Hrec as (r & records' & Hb & Hrec & ->). destruct d as [d|]; [|done]. destruct (read_all fuel q1) as [[q2 l]| |] eqn:Eall; [|done..]. cbn [obind] in Hall. injection Hall as -> -> ->.
    pose proof (reports_between _ _ _ _ _ _ _ Eq Eall Hrep) as Hr1. destruct (read_step _ _ _ _ _ _ _ Hat Eq Hr1) as (reader1 & -> & Hsim & Hdrop). pose proof Hsim as ((Hrd & K1 & Hf1) & _). cbn [obind]. rewrite Hdrop.
    assert (log_reported paranoid (ps_status p) [] = OK) as ->. { rewrite (rp_status _ _ _ _ _ _ _ _ _ _ Hrp). by destruct paranoid. }
    pose proof (replayed_read _ _ _ _ _ _ _ _ _ _ (of_env (file_ reader1)) Hrp K1 Hf1) as Hrp1. set (p1 := after_read p (of_env (file_ reader1)) OK) in *. cbn [ps_status p1 after_read ok negb]. fold p1.
    destruct (batch_is_size _ _ _ Hb) as [Hlen _]. pose proof (zlen_nonneg (records_bytes b.2)). destruct (Z.ltb_spec (zlen r) 12); [lia|].
    apply Forall_cons in Hbok as [Hb1 Hbok]. rewrite (cons_middle b), app_assoc in Hord, Hfits, Hfuel, Hroom. pose proof (zlen_nonneg bs'). rewrite zlen_app, zlen_app in Hroom. change (zlen [b]) with 1 in Hroom.
    pose proof Hord as (_ & Hord1 & _)%StronglySorted_app. pose proof Hfits as Hfits1. pose proof Hfuel as Hfuel1. rewrite batch_entries_app in Hfits1, Hfuel1. apply fits_app in Hfits1 as [Hfits1 _]. rewrite length_app in Hfuel1.
    destruct (replay_record_spec paranoid _ _ _ _ _ _ _ _ _ p1 r b Hrp1 Hb1 Hb Hord1 Hfits1 ltac:(lia) Hpos ltac:(lia) Hlog) as (p2 & more & -> & Hreads & Hmore). cbn [obind]. destruct more.
    + destruct Hmore as (tables2 & parts2 & rest2 & Hrp2). pose proof (wm_files _ _ _ (ts_moved _ _ _ _ _ _ _ (rp_saved _ _ _ _ _ _ _ _ _ _ Hrp2))) as [He2 _].
      destruct (IH fuel records' reader1 q1 (bs ++ [b]) tables2 parts2 rest2 p2 Hrp2) as (reader' & p' & -> & Hc & Hcase); try done.
      * by eapply at_log_later.
      * congruence.
      * rewrite !zlen_app. change (zlen [b]) with 1. lia.
      * eexists _, _. split; [done|]. split; [done|]. by rewrite (cons_middle b), app_assoc.
    + eexists _, _. split; [done|]. split; [eexists; by apply Hreads|]. right. destruct Hmore as (? & ? & ? & Hle). split; [done|]. split; [done|]. split; [done|]. rewrite (cons_middle b), app_assoc, zlen_app. lia.
Qed.

(** ** The whole log *)

Implicit Types (d : Opening (E := E) (FH := FH) (TC := TC)).

Lemma work_moved_log w0 n w e' : work_moved w0 n w -> keep (w_env w) e' n -> fs e' n = fs (w_env w) n -> work_moved w0 n (set_work_env w e').
Proof. intros [Hfi Hvs Hnx Hpe Her] K Hf. split; try done. by eapply wrote_tables_log. Qed.

Lemma tables_saved_log w0 n edit0 tables parts w edit e' : tables_saved w0 n edit0 tables parts w edit -> keep (w_env w) e' n -> fs e' n = fs (w_env w) n ->
  tables_saved w0 n edit0 tables parts (set_work_env w e') edit.
Proof.
  intros [Hmv Hst Hnu Hso Hed] K Hf. split; try done; [by apply work_moved_log|]. cbn. eapply Forall2_impl; [exact Hst|]. intros t part. apply stored_other. destruct (decide (table_name (st_number t) = n)) as [->|Hne]; [done|]. by apply K.
Qed.

(** The log is open again, at its end. *)
Definition log_reused d (n img : bytes) (log_number : Z) (rest : list entry_op) : Prop :=
  exists m h, on_mem d = Some m /\ MRepr m rest /\ sized m /\ MemTable.refs_ m = 1 /\ on_logfile d = Some h /\ on_log d = Some (mkWriter h (zlen img mod LogWriter.kBlockSize) InitTypeCrc) /\
    on_logfile_number d = log_number /\ writes (w_env (on_work d)) h n /\ hbytes (w_env (on_work d)) h = img.

Definition no_log d : Prop := on_mem d = None /\ on_logfile d = None /\ on_log d = None.

Lemma reuse_log_spec d n img log_number mem rest : no_log d -> env_ok (w_env (on_work d)) -> fs (w_env (on_work d)) n = Some img ->
  match mem with None => rest = [] | Some m => MRepr m rest /\ sized m /\ MemTable.refs_ m = 1 end ->
  exists d' mem', reuse_log d n log_number mem = Ret (d', mem') /\ (exists e', on_work d' = set_work_env (on_work d) e' /\ keep (w_env (on_work d)) e' n /\ fs e' n = fs (w_env (on_work d)) n) /\
    ((mem' = None /\ log_reused d' n img log_number rest) \/ (mem' = mem /\ no_log d' /\ on_logfile_number d' = on_logfile_number d)).
Proof.
  intros (Hm & Hl & Hg) He Hf Hmem. unfold reuse_log. rewrite Hm, Hl, Hg. cbn [is_null oassert obind]. rewrite (file_size_good _ _ _ He Hf). cbn [ok].
  destruct (NewAppendableFile (w_env (on_work d)) n) as [[e' s] file] eqn:Ea. destruct (new_appendable _ _ _ _ _ _ He Hf Ea) as (K & Hf' & Hopen). destruct (ok s) eqn:Es.
  - apply ok_true in Es as ->. destruct (Hopen eq_refl) as (h & -> & Hw & Hb). eexists _, None. split; [done|]. split; [by exists e'|]. left. split; [done|].
    eexists _, h. split; [done|]. cbn [on_work on_logfile on_log on_logfile_number w_env set_work_env]. destruct mem as [m|]; cbn [default]; [by destruct Hmem as (? & ? & ?)|]. subst rest. split; [exact MRepr_new|]. split; [exact sized_new|done].
  - rewrite (no_appendable _ _ _ _ _ _ He Hf Ea) by (by intros ->). eexists _, mem. split; [done|]. split; [by exists e'|]. right. by split.
Qed.

(** What a replay of the batches [bs] leaves behind. *)
Record log_recovered d (n img : bytes) (log_number : Z) (edit : VersionEdit) (save : bool) (max : Z) (bs : list (Z * list batch_op)) (last_log : bool) d' (edit' : VersionEdit) (save' : bool) (max' : Z)
    (tables : list SavedTable) (parts : list (list entry_op)) (rest : list entry_op) : Prop := mkLogRecovered {
  lr_saved : tables_saved (on_work d) n edit tables parts (on_work d') edit';
  lr_entries : batch_entries bs = concat parts ++ rest;
  lr_max : max' = max_number max bs;
  lr_save : (save = true \/ tables ≠ []) -> save' = true;
  lr_rest : (rest = [] /\ on_mem d' = on_mem d /\ on_logfile d' = on_logfile d /\ on_log d' = on_log d /\ on_logfile_number d' = on_logfile_number d) \/
    (last_log = true /\ reuse_logs (vs_options (w_versions (on_work d))) = true /\ tables = [] /\ log_reused d' n img log_number rest);
}.

Lemma log_not_table k j : 0 < k < 2 ^ 64 -> 0 < j < 2 ^ 64 -> MakeFileName dbname k "log" ≠ table_name j.
Proof.
  intros Hk Hj. unfold MakeFileName. eapply (name_neq _ _ _ (k, kLogFile) (j, kTableFile)); [| |done].
  - change (str "." ++ str "log") with (str ".log"). rewrite ParseFileName_number; [done|lia|by intros c [= <-]; left].
  - change (str "." ++ str "ldb") with (str ".ldb"). rewrite ParseFileName_number; [done|lia|by intros c [= <-]; left].
Qed.

(** The end of the replay: the rest is saved. *)
Lemma save_rest_spec w0 n edit0 tables parts d mem edit save rest : tables_saved w0 n edit0 tables parts (on_work d) edit ->
  match mem with None => rest = [] | Some m => MRepr m rest /\ sized m /\ MemTable.refs_ m = 1 end -> fits rest -> (length rest < build_fuel)%nat ->
  0 < next w0 -> next (on_work d) < 2 ^ 64 - 1 -> (forall k, 0 < k < 2 ^ 64 -> n ≠ table_name k) ->
  exists w' edit' save' s, save_rest (user_policy := user_policy) dbname o build_fuel d mem edit save OK = Ret (set_opening_work d w', edit', save', s) /\ work_moved w0 n w' /\ next w' <= next (on_work d) + 1 /\
    (s = OK -> exists ts ps, tables_saved w0 n edit0 (tables ++ ts) (parts ++ ps) w' edit' /\ concat ps = rest /\ save' = save || negb (is_null mem) /\ (mem = None -> ts = [])).
Proof.
  intros Hsaved Hmem Hfits Hfuel Hpos Hroom Hlog. destruct mem as [m|]; cbn [save_rest ok is_null negb].
  - destruct Hmem as (Hm & _ & Hrefs). destruct (save_memtable _ _ _ _ _ _ _ m rest Hsaved Hm Hfits Hfuel Hpos Hroom Hlog) as (w' & edit' & s & -> & _ & Hmv & Hnx & Hok). cbn [obind].
    unfold MemTable.Unref. rewrite Hrefs. cbn [Z.leb Z.compare Z.sub Z.add Z.opp Z.pos_sub oassert obind Z.eqb]. eexists w', edit', true, s. split; [done|]. split; [done|]. split; [lia|]. intros Hs. destruct (Hok Hs) as (ts & ps & Hts & Hps). exists ts, ps. rewrite orb_true_r. by split.
  - exists (on_work d), edit, save, OK. split; [by destruct d|]. split; [by destruct Hsaved|]. split; [lia|]. intros _. exists [], []. rewrite !app_nil_r, orb_false_r. by split.
Qed.

Lemma replayed_start w n edit save max e' : env_ok (w_env w) -> keep (w_env w) e' n -> fs e' n = fs (w_env w) n ->
  replayed w n edit save max [] [] [] [] (mkPass (set_work_env w e') None edit max save 0 OK).
Proof.
  intros He K Hf. split; cbn; try done; [|by rewrite Z.add_0_r|by rewrite orb_false_r]. split; cbn; try done; [|constructor]. split; cbn; try done; [|by destruct w as [? [] ? ? ?]].
  apply (wrote_tables_log n _ _ (w_env w) (w_env w)); [by apply wrote_tables_refl|done|done].
Qed.

(** The rest of the log is saved as a table. *)
Lemma finish_saving d d3 n img log_number edit save max bs last_log tables parts rest p : replayed (on_work d) n edit save max bs tables parts rest p -> tables_saved (on_work d) n edit tables parts (on_work d3) (ps_edit p) -> next (on_work d3) = next (ps_work p) ->
  on_mem d3 = on_mem d /\ on_logfile d3 = on_logfile d /\ on_log d3 = on_log d /\ on_logfile_number d3 = on_logfile_number d -> fits (batch_entries bs) -> (length (batch_entries bs) < build_fuel)%nat ->
  0 < next (on_work d) -> next (on_work d) + zlen bs < 2 ^ 64 - 1 -> (forall k, 0 < k < 2 ^ 64 -> n ≠ table_name k) ->
  exists d' edit' save' s, save_rest (user_policy := user_policy) dbname o build_fuel d3 (ps_mem p) (ps_edit p) (ps_save p) OK = Ret (d', edit', save', s) /\ work_moved (on_work d) n (on_work d') /\ next (on_work d') <= next (on_work d) + zlen bs + 1 /\
    (s = OK -> exists tables parts rest, log_recovered d n img log_number edit save max bs last_log d' edit' save' (ps_max p) tables parts rest).
Proof.
  intros [_ Hnext Hent Hmem Hmax Hsave [Hc0 Hct] _] Hsaved Hnx (Hd1 & Hd2 & Hd3 & Hd4) Hfits Hbuild Hpos Hroom Hne. rewrite Hent in Hfits, Hbuild. apply fits_app in Hfits as [_ Hfits]. rewrite length_app in Hbuild.
  destruct (save_rest_spec (on_work d) n edit tables parts d3 (ps_mem p) (ps_edit p) (ps_save p) rest Hsaved Hmem Hfits ltac:(lia) Hpos ltac:(lia) Hne) as (w' & edit' & save' & s & -> & Hmv & Hle & Hok).
  eexists _, _, _, _. split; [done|]. split; [done|]. split; [cbn; lia|]. intros Hs. destruct (Hok Hs) as (ts & ps & Hts & Hps & Hsv & Hnone). exists (tables ++ ts), (parts ++ ps), []. split; cbn [on_work set_opening_work on_mem on_logfile on_log on_logfile_number].
  - done.
  - by rewrite Hent, concat_app, Hps, app_nil_r.
  - done.
  - intros Hor. rewrite Hsv, Hsave. destruct Hor as [->|Hnn]; [done|]. destruct (Z.eqb_spec (ps_compactions p) 0) as [Hz|]; [|by rewrite orb_true_r]. destruct (ps_mem p); [by rewrite orb_true_r|]. by rewrite (Hct Hz), (Hnone eq_refl) in Hnn.
  - left. by split.
Qed.

Lemma RecoverLogFile_spec fuel d log_number last_log save edit max img records bs :
  let n := MakeFileName dbname log_number "log" in
  0 < log_number < 2 ^ 64 -> env_ok (w_env (on_work d)) -> fs (w_env (on_work d)) n = Some img -> log_reads img records -> log_batches records bs -> zlen img < Z.of_nat fuel -> (length (batch_entries bs) < build_fuel)%nat ->
  0 < next (on_work d) -> next (on_work d) + zlen bs < 2 ^ 64 - 1 -> (last_log = true -> no_log d) ->
  exists d' save' edit' max' s, RecoverLogFile (user_policy := user_policy) dbname o write_buffer_size build_fuel fuel d log_number last_log save edit max = Ret (d', save', edit', max', s) /\
    work_moved (on_work d) n (on_work d') /\ next (on_work d') <= next (on_work d) + zlen bs + 1 /\
    (s = OK -> exists tables parts rest, log_recovered d n img log_number edit save max bs last_log d' edit' save' max' tables parts rest).
Proof.
  intros n Hnum He Hf Hlog [Hrec Hbok Hord Hfits] Hfuel Hbuild Hpos Hroom Hfree. unfold RecoverLogFile, LogFileName. destruct (Z.ltb_spec 0 log_number); [|lia]. cbn [oassert obind]. fold n.
  destruct (new_sequential _ _ _ He Hf) as (e1 & h & -> & Hrd & K1 & Hf1). cbn [ok negb]. destruct (Hlog fuel Hfuel) as (q & Hall & Hrep). set (w1 := set_work_env (on_work d) e1).
  assert (forall k, 0 < k < 2 ^ 64 -> n ≠ table_name k) as Hne by (intros k Hk; by apply log_not_table).
  destruct (replay_loop_spec (paranoid_checks (vs_options (w_versions (on_work d)))) (on_work d) n edit save max q bs fuel records (new_Reader (mkOpen e1 h) true true 0) (new_Reader img true true 0) [] [] [] [] (mkPass w1 None edit max save 0 OK)) as (reader & p & -> & (c & Hc) & Hcase); try done; try lia.
  { by apply replayed_start. }
  { split; [|done]. split; [done|]. split; [by apply (keeps_refl e1), (keeps_ok _ _ _ K1)|done]. }
  { cbn [app]. lia. }
  cbn [app] in Hcase. cbn [obind]. destruct (delete_reader (w_env (ps_work p)) (of_handle (file_ reader)) n c) as [K2 Hf2]; [|exact Hc|].
  { destruct Hcase as [(tables & parts & rest & Hrp)|(_ & _ & Hmv & _)]; [apply (wm_files _ _ _ (ts_moved _ _ _ _ _ _ _ (rp_saved _ _ _ _ _ _ _ _ _ _ Hrp)))|apply Hmv]. }
  destruct Hcase as [(tables & parts & rest & Hrp)|(Hst & Hmem & Hmv & Hnx)].
  2:{ destruct (ok (ps_status p)) eqn:Es; [by apply ok_true in Es|]. cbn [andb obind]. rewrite Hmem. cbn [save_rest obind]. eexists _, _, _, _, _. split; [done|]. split; [by apply work_moved_log|]. split; [cbn; lia|]. intros Hs. by destruct Hst. }
  pose proof (tables_saved_log _ _ _ _ _ _ _ _ (rp_saved _ _ _ _ _ _ _ _ _ _ Hrp) K2 Hf2) as Hsaved2. rewrite (rp_status _ _ _ _ _ _ _ _ _ _ Hrp). cbn [ok andb]. set (w2 := set_work_env (ps_work p) _) in *. set (d2 := set_opening_work d w2).
  destruct (reuse_logs (vs_options (w_versions (on_work d))) && last_log && (ps_compactions p =? 0)) eqn:Ec; cbn [obind].
  2:{ destruct (finish_saving d d2 n img log_number edit save max bs last_log tables parts rest p Hrp Hsaved2) as (d' & edit' & save' & s & -> & Hrest); try done. cbn [obind]. by eexists _, _, _, _, _. }
  apply andb_true_iff in Ec as [[Hru ->]%andb_true_iff Hz%Z.eqb_eq]. pose proof (ts_moved _ _ _ _ _ _ _ Hsaved2) as Hmv2. assert (fs (w_env w2) n = Some img) as Hf3.
  { rewrite <- Hf. apply (wm_files _ _ _ Hmv2). intros k Hk. apply Hne. pose proof (rp_next _ _ _ _ _ _ _ _ _ _ Hrp). change (next w2) with (next (ps_work p)) in Hk. lia. }
  destruct (reuse_log_spec d2 n img log_number (ps_mem p) rest (Hfree eq_refl) (proj1 (wm_files _ _ _ Hmv2)) Hf3 (rp_mem _ _ _ _ _ _ _ _ _ _ Hrp)) as (d3 & mem' & -> & (e3 & Hw3 & K3 & Hf4) & Hcase). pose proof (tables_saved_log _ _ _ _ _ _ _ _ Hsaved2 K3 Hf4) as Hsaved3.
  change (on_work d2) with w2 in Hw3. rewrite <- Hw3 in Hsaved3. cbn [obind]. destruct Hcase as [[-> Hre]|(-> & Hno & Hn3)].
  - cbn [save_rest obind]. eexists _, _, _, _, _. split; [done|]. split; [by destruct Hsaved3|]. split; [rewrite Hw3; pose proof (rp_next _ _ _ _ _ _ _ _ _ _ Hrp); cbn; lia|]. intros _. exists tables, parts, rest. destruct Hrp as [_ _ Hent _ Hmax Hsave [_ Hct] _]. split; try done.
    + intros [->|Hnn]; [by rewrite Hsave|]. by rewrite Hct in Hnn.
    + right. split; [done|]. split; [done|]. split; [by apply Hct|done].
  - destruct (finish_saving d d3 n img log_number edit save max bs true tables parts rest p Hrp Hsaved3) as (d' & edit' & save' & s & -> & Hrest); try done; [by rewrite Hw3| |cbn [obind]; by eexists _, _, _, _, _].
    destruct (Hfree eq_refl) as (-> & -> & ->), Hno as (-> & -> & ->). by split.
Qed.
End Tables.

(** ** The property *)

Section Property.
Context `{laws : ComparatorLaws} {user_policy : FilterPolicy} `{flaws : !FilterPolicyLaws} `{Crc32c} `{Compressors} `{lens : !@SeparatorLengths InternalKeyComparator} `{alaws : AllocatorLaws}.
Context {E FH TC : Type} `{vlaws : TableVerifierLaws TC E FH}.

End Property.

Section Witness.
#[local] Existing Instances BytewiseComparator BytewiseComparator_laws.
#[local] Existing Instance Recovery.portable.
#[local] Existing Instances CompactionRun.run_bloom CompactionRun.run_bloom_laws CompactionRun.run_compressors CompactionRun.MemHandle_eq_dec CompactionRun.small_disk CompactionRun.small_disk_laws CompactionRun.trusting CompactionRun.trusting_laws Arena.growing Arena.growing_laws.

Definition logged_ops : list batch_op := [BPut [x61] [x62]; BDelete [x63]].
Definition logged_batch : WriteBatch := SetSequence (batch_Delete (batch_Put new_WriteBatch [x61] [x62]) [x63]) 7.

Definition log_set (reuse : bool) : VersionSet MemHandle :=
  mkVersionSet (str "/db") (mkOptions 2097152 reuse true) (str "cmp") 6 2 0 0 0 None None (mkVersions (mkFileHeap ∅ 0) ∅ (link_head dummy_versions_) 1 None) [].

Definition log_opening (reuse : bool) (e : InMemoryEnv) : Opening (E := Quota InMemoryEnv MemHandle) (TC := unit) :=
  mkOpening (mkWork (mkQuota e []) (log_set reuse) ∅ tt OK) None None None 0.

Definition sample_log : bytes := MakeFileName (str "/db") 5 "log".

Definition log_disk (img : bytes) : outcome (InMemoryEnv * Status) := WriteStringToFileSync (H := MemHandle) new_MemEnv img sample_log.


(** ** A log that is used again *)

(** A log whose second record was not finished. *)
Definition torn_log : bytes := ztake (zlen (log_layout 0 [logged_batch]) + 9) (log_layout 0 [logged_batch; logged_batch]).

Definition next_batch : WriteBatch := SetSequence (batch_Put new_WriteBatch [x64] [x65]) 9.

(** Opening with [reuse_logs], one more write, and the records the log has then: the statuses of both and the records. *)
Definition reuse_run : outcome (Status * Status * list bytes) :=
  let! (e, _) := log_disk torn_log in
  let! (d, _, _, _, s) := RecoverLogFile (str "/db") TableRead.sample_options 65536 10 1000 (log_opening true e) 5 true false new_VersionEdit 0 in
  match on_log d with
  | None => AssertFailed
  | Some log =>
      let! (env, _, s') := log_AddRecord (w_env (on_work d)) log next_batch in
      let! (_, records) := read_all 1000 (new_Reader (default [] (mem_fs (q_env env) sample_log)) true true 0) in
      Ret (s, s', records)
  end.

(** With [reuse_logs], a log with an unfinished record at its end swallows the writes that follow: the unfinished record
    is completed by the bytes of the next one, so that its checksum is wrong and the rest of the block is dropped. The
    write is acknowledged and cannot be read back. *)
Lemma reused_log_loses_write : reuse_run = Ret (OK, OK, [logged_batch]).
Proof. vm_compute. reflexivity. Qed.
End Witness.
