(* ===== verification/Open.v ===== *)
(** * Opening a database

    [DBImpl::Recover] and [DB::Open] of [db_impl.c]: the manifest is read, the logs it does not cover are replayed in the
    order of their numbers, a new log and memtable are made, the recovered tables are recorded, and what is obsolete is
    deleted. *)

From stdpp Require Import gmap sorting sets.
From S2P Require Import Prelude Coding Env Crc32c Cache LogWriter LogReader LogCorrect Comparator DbFormat VersionEdit SkipList MemTable BlockBuilder Block BlockCorrect Format Filter FilterBlock Iterator Version VersionBuilder Filename FileSystem MemEnv LogSim DList VersionSet Manifest Recovery WriteBatch Arena DbWrite WriteQueue Compaction CompactionCorrect CompactionLoop CompactionApply BlockIter TableBuilder DBIter MergingIterator TwoLevelIterator VersionGet Table TableCorrect TableRead TableCache TableOutput CompactionWork CompactionRun Obsolete Flush LogRecovery.

Open Scope outcome_scope.

(** ** The directory of a database *)

Class DbDir (E : Type) := {
  dir_create : E -> bytes -> E * Status;
  dir_lock : E -> bytes -> E * Status;
  file_exists : E -> bytes -> bool;
  dir_list : E -> bytes -> Status * list bytes;
}.

(** Making a directory changes no file, and locking makes at most an empty file; a listing has every file of the database once. *)
Class DbDirLaws (E FH : Type) `{EnvLaws E FH} `{DbDir E} : Prop := {
  create_frame e n e' s : env_ok e -> dir_create e n = (e', s) -> env_ok e' /\ forall m, fs e' m = fs e m;
  lock_frame e n e' s : env_ok e -> dir_lock e n = (e', s) -> env_ok e' /\ (forall m, m ≠ n -> fs e' m = fs e m) /\ (fs e' n = fs e n \/ fs e' n = Some []);
  exists_spec e n : env_ok e -> file_exists e n = true <-> is_Some (fs e n);
  list_spec e dir names : env_ok e -> dir_list e dir = (OK, names) -> NoDup names /\
    forall name r, ParseFileName name = Some r -> name ∈ names <-> is_Some (fs e (dir ++ str "/" ++ name));
}.

Section Open.
Context {E FH TC : Type} `{Env E FH} `{DbDir E} `{Directory E} `{TableVerifier TC E} `{TableEvictor TC} `{laws : ComparatorLaws} {user_policy : FilterPolicy} `{Crc32c} `{Compressors} `{Allocator}.
Context (dbname : bytes) (options : TableOptions) (write_buffer_size : Z) (create_if_missing error_if_exists : bool) (build_fuel : nat).
Abbreviation Work := (Work E FH TC).
Abbreviation Opening := (Opening (E := E) (FH := FH) (TC := TC)).

(** A new database object: nothing is open. *)
Definition new_DBImpl (env : E) (tables : TC) (h : FileHeap) (opts : Options) (comparator : bytes) : outcome Opening :=
  let! vs := new_VersionSet h dbname opts comparator in
  Ret (mkOpening (mkWork env vs ∅ tables OK) None None None 0).

(** The loop over the directory: the files that are still missing, and the logs to replay. *)
Definition scan_file (min_log prev_log : Z) (st : gset Z * list Z) (filename : bytes) : gset Z * list Z :=
  match ParseFileName filename with
  | Some (number, type) =>
      (st.1 ∖ {[ number ]}, if bool_decide (type = kLogFile) && ((min_log <=? number) || (number =? prev_log)) then st.2 ++ [number] else st.2)
  | None => st
  end.

(** The logs, oldest first. *)
Fixpoint recover_logs (fuel : nat) (logs : list Z) (d : Opening) (save_manifest : bool) (edit : VersionEdit) (max_sequence : Z) : outcome (Opening * bool * VersionEdit * Z * Status) :=
  match logs with
  | [] => Ret (d, save_manifest, edit, max_sequence, OK)
  | number :: logs =>
      let! (d, save_manifest, edit, max_sequence, s) := RecoverLogFile (user_policy := user_policy) dbname options write_buffer_size build_fuel fuel d number (bool_decide (logs = [])) save_manifest edit max_sequence in
      if negb (ok s) then Ret (d, save_manifest, edit, max_sequence, s)
      else recover_logs fuel logs (set_opening_work d (set_work_versions (on_work d) (MarkFileNumberUsed (w_versions (on_work d)) number))) save_manifest edit max_sequence
  end.

(** Whether the database is there, or can be created. *)
Definition create_or_check (env : E) (comparator : bytes) : outcome (E * Status) :=
  if negb (file_exists env (CurrentFileName dbname)) then
    if create_if_missing then NewDB env dbname comparator
    else Ret (env, InvalidArgument (String.string_of_list_byte (dbname ++ str ": does not exist (create_if_missing is false)")))
  else if error_if_exists then Ret (env, InvalidArgument (String.string_of_list_byte (dbname ++ str ": exists (error_if_exists is true)")))
  else Ret (env, OK).

(** The logs are replayed, and the last sequence number is that of the newest entry. *)
Definition replay_logs (fuel : nat) (logs : list Z) (d : Opening) (save_manifest : bool) (edit : VersionEdit) : outcome (Opening * bool * VersionEdit * Status) :=
  let! (d, save_manifest, edit, max_sequence, s) := recover_logs fuel (merge_sort Z.le logs) d save_manifest edit 0 in
  if negb (ok s) then Ret (d, save_manifest, edit, s)
  else
    let vs := w_versions (on_work d) in
    let! vs := if vs_last_sequence vs <? max_sequence then SetLastSequenceNumber vs max_sequence else Ret vs in
    Ret (set_opening_work d (set_work_versions (on_work d) vs), save_manifest, edit, OK).

(** The manifest was read: the directory is compared with it. *)
Definition recover_files (fuel : nat) (d : Opening) (save_manifest : bool) (edit : VersionEdit) : outcome (Opening * bool * VersionEdit * Status) :=
  let vs := w_versions (on_work d) in
  let '(s, filenames) := dir_list (w_env (on_work d)) dbname in
  if negb (ok s) then Ret (d, save_manifest, edit, s)
  else
    let! expected := AddLiveFiles (vs_versions vs) ∅ in
    let '(expected, logs) := foldl (scan_file (vs_log_number vs) (vs_prev_log_number vs)) (expected, []) filenames in
    match merge_sort Z.le (elements expected) with
    | first :: _ =>
        let! name := TableFileName dbname first in
        Ret (d, save_manifest, edit, Corruption (String.string_of_list_byte (decimal (Z.of_nat (size expected)) ++ str " missing files; e.g.: " ++ name)))
    | [] => replay_logs fuel logs d save_manifest edit
    end.

(** [DBImpl::Recover]; [locked]: [db_lock_] is not null. *)
Definition db_Recover (fuel : nat) (d : Opening) (locked save_manifest : bool) (edit : VersionEdit) : outcome (Opening * bool * bool * VersionEdit * Status) :=
  let '(env, _) := dir_create (w_env (on_work d)) dbname in
  assert! negb locked;
  let '(env, s) := dir_lock env (LockFileName dbname) in
  let vs := w_versions (on_work d) in
  if negb (ok s) then Ret (set_opening_work d (set_work_env (on_work d) env), false, save_manifest, edit, s)
  else
    let! (env, s) := create_or_check env (vs_comparator vs) in
    if negb (ok s) then Ret (set_opening_work d (set_work_env (on_work d) env), true, save_manifest, edit, s)
    else
      let! (env, vs, save_manifest, s) := VersionSet.Recover fuel env vs save_manifest in
      let d := set_opening_work d (set_work_versions (set_work_env (on_work d) env) vs) in
      if negb (ok s) then Ret (d, true, save_manifest, edit, s)
      else
        let! (d, save_manifest, edit, s) := recover_files fuel d save_manifest edit in
        Ret (d, true, save_manifest, edit, s).

(** A new log and memtable. *)
Definition new_log (d : Opening) (edit : VersionEdit) : outcome (Opening * VersionEdit * Status) :=
  let (vs, new_log_number) := NewFileNumber (w_versions (on_work d)) in
  let! fname := LogFileName dbname new_log_number in
  let '(env, s, lfile) := NewWritableFile (w_env (on_work d)) fname in
  let w := set_work_versions (set_work_env (on_work d) env) vs in
  if ok s then
    match lfile with
    | None => AssertFailed
    | Some h => Ret (mkOpening w (Some (MemTable.Ref new_MemTable)) (Some h) (Some (mkWriter h 0 InitTypeCrc)) new_log_number, SetLogNumber new_log_number edit, s)
    end
  else Ret (set_opening_work d w, edit, s).

(** [DB::Open] up to the point where the object is returned or deleted; the boolean says that background work was
    scheduled. *)
Definition db_Open (fuel : nat) (d : Opening) : outcome (Opening * bool * Status) :=
  let! (d, _, save_manifest, edit, s) := db_Recover fuel d false false new_VersionEdit in
  let! (d, edit, s) := if ok s && is_null (on_mem d) then new_log d edit else Ret (d, edit, s) in
  let! (d, s) :=
    if ok s && save_manifest then
      let w := on_work d in
      let! (env, vs, _, s) := LogAndApply (w_env w) (w_versions w) (SetLogNumber (on_logfile_number d) (SetPrevLogNumber 0 edit)) in
      Ret (set_opening_work d (set_work_versions (set_work_env w env) vs), s)
    else Ret (d, s) in
  if ok s then
    let! w := DeleteObsoleteFiles dbname (on_work d) in
    let! work := NeedsCompaction (w_versions w) in
    assert! negb (is_null (on_mem d));
    Ret (set_opening_work d w, ok (w_bg_error w) && work, s)
  else Ret (d, false, s).
End Open.

(** ** Replaying all logs *)

Section Logs.
Context `{laws : ComparatorLaws} {user_policy : FilterPolicy} `{flaws : !FilterPolicyLaws} `{Crc32c} `{Compressors} `{lens : !@SeparatorLengths InternalKeyComparator} `{alaws : AllocatorLaws}.
Context {E FH TC : Type} `{vlaws : TableVerifierLaws TC E FH} (dbname : bytes) (o : TableOptions) (write_buffer_size : Z) (build_fuel fuel : nat).
Abbreviation Work := (Work E FH TC).
Abbreviation table_name k := (MakeFileName dbname k "ldb").
Abbreviation log_name k := (MakeFileName dbname k "log").
Abbreviation next w := (vs_next_file_number (w_versions w)).
Abbreviation stored := (stored (user_policy := user_policy) dbname o).
Implicit Types (w : Work) (d : Opening (E := E) (FH := FH) (TC := TC)) (e : E).
Hypothesis interval_ok : 1 <= to_restart_interval o.
Hypothesis name_ok : forall name, to_filter_name o = Some name -> zlen name < 2 ^ 31.
Hypothesis file_limit : forall e h x e', file_Append e h x = (e', OK) -> zlen (hbytes e' h) < 2 ^ 32.

(** [batches k]: what the log [k] holds. *)
Variable batches : Z -> list (Z * list batch_op).

(** From [w0] to [w] tables were written and logs were read. *)
Record logs_moved (w0 : Work) w : Prop := mkLogsMoved {
  lm_env : env_ok (w_env w);
  lm_files m : (forall k, next w0 <= k < next w -> m ≠ table_name k) -> fs (w_env w) m = fs (w_env w0) m /\ ((forall k, 0 < k < 2 ^ 64 -> m ≠ log_name k) -> forall h, writes (w_env w0) h m -> writes (w_env w) h m);
  lm_versions : w_versions w = with_next (w_versions w0) (next w);
  lm_next : next w0 <= next w;
  lm_pending : w_pending_outputs w ⊆ w_pending_outputs w0;
  lm_error : w_bg_error w = w_bg_error w0;
}.

Record logs_saved (w0 : Work) (edit0 : VersionEdit) (tables : list SavedTable) (parts : list (list entry_op)) w (edit : VersionEdit) : Prop := mkLogsSaved {
  ls_moved : logs_moved w0 w;
  ls_stored : Forall2 (stored (w_env w)) tables parts;
  ls_numbers : Forall (fun t => next w0 <= st_number t < next w) tables;
  ls_sorted : StronglySorted Z.lt (st_number <$> tables);
  ls_edit : edit = foldl add_table edit0 tables;
}.

Lemma logs_moved_refl w : env_ok (w_env w) -> logs_moved w w.
Proof. intros He. split; try done. by destruct w as [? [] ? ? ?]. Qed.

Lemma logs_moved_log w0 w k w' : 0 < k < 2 ^ 64 -> logs_moved w0 w -> work_moved dbname w (log_name k) w' -> logs_moved w0 w'.
Proof.
  intros Hk [He Hf Hv Hn Hp Hb] [[He' Hf'] Hv' Hn' Hp' Hb']. split; [done| |by rewrite Hv', Hv|lia|set_solver|congruence].
  intros m Hm. destruct (Hf m) as [Hfm Hwm]; [intros j Hj; apply Hm; lia|]. destruct (Hf' m) as [Hfm' Hwm']; [intros j Hj; apply Hm; lia|]. split; [congruence|]. intros Hl h Hh. apply Hwm'; [by apply Hl|]. by apply Hwm.
Qed.

(** The number of a log is not given out again. *)
Lemma mark_used w k : let w' := set_work_versions w (MarkFileNumberUsed (w_versions w) k) in
  k < 2 ^ 64 - 1 -> 0 <= k -> w_versions w' = with_next (w_versions w) (next w') /\ next w <= next w' <= Z.max (next w) (k + 1) /\ k < next w' /\ w_env w' = w_env w.
Proof.
  intros w' Hk Hk0. unfold w'. cbn [set_work_versions w_versions w_env]. unfold MarkFileNumberUsed. destruct (Z.leb_spec (next w) k) as [Hle|Hgt].
  - rewrite u64_small by lia. cbn. split; [done|]. split; [lia|]. split; [lia|done].
  - split; [by destruct (w_versions w)|]. split; [lia|]. split; [lia|done].
Qed.

Lemma logs_moved_mark w0 w k : k < 2 ^ 64 - 1 -> 0 <= k -> logs_moved w0 w -> logs_moved w0 (set_work_versions w (MarkFileNumberUsed (w_versions w) k)).
Proof.
  intros Hk Hk0 [He Hf Hv Hn Hp Hb]. destruct (mark_used w k Hk Hk0) as (Hv' & Hn' & _ & He'). split; try done.
  - intros m Hm. cbn [set_work_versions w_env]. apply Hf. intros j Hj. apply Hm. lia.
  - by rewrite Hv', Hv.
  - lia.
Qed.

Lemma stored_same e e' tables parts : (forall t, t ∈ tables -> fs e' (table_name (st_number t)) = fs e (table_name (st_number t))) -> Forall2 (stored e) tables parts -> Forall2 (stored e') tables parts.
Proof.
  intros Hf Hs. induction Hs as [|t part tables parts Ht Hs IH]; [constructor|]. constructor; [|apply IH; intros; apply Hf; by right]. eapply stored_other; [|exact Ht]. apply Hf. left.
Qed.

(** The tables of one more log. *)
Lemma logs_saved_log w0 edit0 tables parts w edit k w' edit' ts ps : 0 < k < 2 ^ 64 -> 0 < next w0 -> next w' <= 2 ^ 64 -> logs_saved w0 edit0 tables parts w edit -> tables_saved (user_policy := user_policy) dbname o w (log_name k) edit ts ps w' edit' ->
  logs_saved w0 edit0 (tables ++ ts) (parts ++ ps) w' edit'.
Proof.
  intros Hk Hpos Hlim [Hmv Hst Hnu Hso Hed] [Hmv' Hst' Hnu' Hso' Hed']. pose proof (lm_next _ _ Hmv) as Hle. pose proof (wm_next _ _ _ _ Hmv') as Hle'. split.
  - by eapply logs_moved_log.
  - apply Forall2_app; [|done]. eapply stored_same; [|exact Hst]. intros t Ht. rewrite Forall_forall in Hnu. specialize (Hnu t Ht). apply (proj2 (wm_files _ _ _ _ Hmv')). intros j Hj Heq. apply table_name_inj in Heq; lia.
  - apply Forall_app. split; [eapply Forall_impl; [exact Hnu|]; cbn; lia|eapply Forall_impl; [exact Hnu'|]; cbn; lia].
  - rewrite fmap_app. apply StronglySorted_app. split; [|done]. intros x y Hx Hy. apply list_elem_of_fmap in Hx as (t & -> & Ht), Hy as (t' & -> & Ht'). rewrite Forall_forall in Hnu, Hnu'. specialize (Hnu t Ht). specialize (Hnu' t' Ht'). lia.
  - by rewrite Hed', Hed, foldl_app.
Qed.

Definition all_batches (logs : list Z) : list (Z * list batch_op) := concat (batches <$> logs).

(** File numbers for the tables of the logs. *)
Definition numbers_for (logs : list Z) : Z := foldr (fun k n => zlen (batches k) + 1 + n) 0 logs.

Lemma numbers_for_nonneg logs : 0 <= numbers_for logs.
Proof. induction logs as [|k logs IH]; cbn [numbers_for foldr]; [done|]. pose proof (zlen_nonneg (batches k)). unfold numbers_for in IH. lia. Qed.

(** The log is there, and its records are its batches. *)
Definition log_on_disk e (k : Z) : Prop :=
  0 < k < 2 ^ 64 - 1 /\ exists img records, fs e (log_name k) = Some img /\ log_reads img records /\ log_batches records (batches k) /\ zlen img < Z.of_nat fuel /\ (length (batch_entries (batches k)) < build_fuel)%nat.

Lemma log_kept_moved w0 w k : logs_moved w0 w -> 0 < next w0 -> next w <= 2 ^ 64 -> 0 < k < 2 ^ 64 -> fs (w_env w) (log_name k) = fs (w_env w0) (log_name k).
Proof. intros Hmv Hpos Hlim Hk. apply (lm_files _ _ Hmv). intros j Hj. apply log_not_table; lia. Qed.

Lemma recover_logs_spec logs : forall d save edit max w0 edit0 tables parts M,
  logs_saved w0 edit0 tables parts (on_work d) edit -> Forall (log_on_disk (w_env w0)) logs -> no_log d -> reuse_logs (vs_options (w_versions w0)) = false -> 0 < next w0 ->
  next (on_work d) <= M -> Forall (fun k => k + 1 <= M) logs -> M + numbers_for logs < 2 ^ 64 - 1 ->
  exists d' save' edit' max' s, recover_logs (user_policy := user_policy) dbname o write_buffer_size build_fuel fuel logs d save edit max = Ret (d', save', edit', max', s) /\ logs_moved w0 (on_work d') /\ next (on_work d) <= next (on_work d') <= M + numbers_for logs /\
    (s = OK -> exists ts ps, logs_saved w0 edit0 (tables ++ ts) (parts ++ ps) (on_work d') edit' /\ concat ps = batch_entries (all_batches logs) /\ max' = max_number max (all_batches logs) /\ (save = true -> save' = true) /\ no_log d' /\ Forall (fun k => k < next (on_work d')) logs).
Proof.
  induction logs as [|k logs IH]; intros d save edit max w0 edit0 tables parts M Hsaved Hdisk Hno Hre Hpos HM Hlogs Hroom; cbn [recover_logs numbers_for foldr] in *.
  - eexists _, _, _, _, _. split; [done|]. split; [by destruct Hsaved|]. split; [lia|]. intros _. exists [], []. rewrite !app_nil_r. by split.
  - fold (numbers_for logs) in *. apply Forall_cons in Hdisk as [(Hk & img & records & Hf & Hlr & Hlb & Hfu & Hbf) Hdisk], Hlogs as [Hk1 Hlogs]. pose proof (numbers_for_nonneg logs). pose proof (zlen_nonneg (batches k)). pose proof (ls_moved _ _ _ _ _ _ Hsaved) as Hmv. pose proof (lm_next _ _ Hmv) as Hle.
    assert (vs_options (w_versions (on_work d)) = vs_options (w_versions w0)) as Hopt by (by rewrite (lm_versions _ _ Hmv)).
    destruct (RecoverLogFile_spec dbname o write_buffer_size build_fuel interval_ok name_ok file_limit fuel d k (bool_decide (logs = [])) save edit max img records (batches k)) as (d1 & save1 & edit1 & max1 & s & -> & Hmv1 & Hnx1 & Hok); try done; try lia; [by destruct Hmv|by rewrite (log_kept_moved _ _ _ Hmv) by lia|].
    cbn [obind]. pose proof (logs_moved_log w0 (on_work d) k (on_work d1) ltac:(lia) Hmv Hmv1) as Hmv1'. destruct (ok s) eqn:Es; cbn [negb].
    2:{ eexists _, _, _, _, _. split; [done|]. split; [done|]. split; [pose proof (wm_next _ _ _ _ Hmv1); lia|]. by intros ->. }
    apply ok_true in Es as ->. destruct (Hok eq_refl) as (ts & ps & rest & [Hts Hent Hmax Hsave Hrest]). destruct Hrest as [(-> & Hm1 & Hm2 & Hm3 & _)|(_ & Hr & _)]; [|rewrite Hopt in Hr; congruence].
    pose proof (logs_saved_log w0 edit0 tables parts (on_work d) edit k (on_work d1) edit1 ts ps ltac:(lia) Hpos ltac:(lia) Hsaved Hts) as [Hmv2 Hst2 Hnu2 Hso2 Hed2]. set (w2 := set_work_versions (on_work d1) _). destruct (mark_used (on_work d1) k ltac:(lia) ltac:(lia)) as (Hv2 & Hn2 & Hk2 & He2). fold w2 in Hv2, Hn2, Hk2, He2.
    pose proof (logs_moved_mark w0 (on_work d1) k ltac:(lia) ltac:(lia) Hmv2) as Hmv3. fold w2 in Hmv3.
    destruct (IH (set_opening_work d1 w2) save1 edit1 max1 w0 edit0 (tables ++ ts) (parts ++ ps) (M + zlen (batches k) + 1)) as (d' & save' & edit' & max' & s & -> & Hmv' & Hnx' & Hok'); try done; try (cbn [on_work set_opening_work]; lia).
    { split; cbn [on_work set_opening_work]; try done. eapply Forall_impl; [exact Hnu2|]. cbn beta. intros t Ht. lia. }
    { destruct Hno as (? & ? & ?). split; [|split]; cbn; congruence. }
    { eapply Forall_impl; [exact Hlogs|]. cbn. lia. }
    pose proof (wm_next _ _ _ _ Hmv1). cbn [on_work set_opening_work] in Hnx'. eexists _, _, _, _, _. split; [done|]. split; [done|]. split; [lia|]. intros Hs. destruct (Hok' Hs) as (ts' & ps' & Hsaved' & Hps & Hmax' & Hsave' & Hno' & Hlt). exists (ts ++ ts'), (ps ++ ps'). rewrite !app_assoc. split; [done|]. unfold all_batches in *. cbn [fmap list_fmap concat].
    rewrite batch_entries_app, concat_app, Hps, Hent, app_nil_r. split; [done|]. split; [rewrite Hmax', Hmax; unfold max_number; by rewrite foldl_app|]. split; [auto|]. split; [done|]. constructor; [|done]. cbn [on_work set_opening_work] in Hnx'. lia.
Qed.
End Logs.

(** ** The edit of a recovery *)

Section Edit.
Context `{laws : ComparatorLaws}.

(** A table that can be recorded. *)
Definition table_good (t : SavedTable) : Prop :=
  0 < st_number t < 2 ^ 64 /\ 0 < zlen (st_image t) < 2 ^ 63 /\
  exists x y, head (st_entries t) = Some x /\ list.last (st_entries t) = Some y /\ op_ok x /\ op_ok y /\ ic (mkInternalKey (op_ikey x)) (mkInternalKey (op_ikey y)) <= 0.

(** Only files of level 0 are added. *)
Definition only_adds (e e' : VersionEdit) (numbers : list Z) : Prop :=
  deleted_files_ e' = deleted_files_ e /\ compact_pointers_ e' = compact_pointers_ e /\ has_comparator_ e' = has_comparator_ e /\
  exists files, new_files_ e' = new_files_ e ++ files /\ file_pair <$> files = (fun n => (0, n)) <$> numbers /\ Forall new_file_wf files.

Lemma add_table_spec e t : table_good t -> edit_ok e -> edit_ok (add_table e t) /\ only_adds e (add_table e t) [st_number t].
Proof.
  intros (Hn & Hz & x & y & Hx & Hy & Hox & Hoy & Hle) He. destruct (op_ikey_wf x Hox) as [Hwx Hzx], (op_ikey_wf y Hoy) as [Hwy Hzy].
  assert (key_ok (mkInternalKey (op_ikey x)) /\ key_ok (mkInternalKey (op_ikey y))) as [Hkx Hky] by (pose proof (ikey_wf_len _ Hwx); pose proof (ikey_wf_len _ Hwy); unfold key_ok; cbn [rep_] in *; lia).
  unfold add_table. rewrite Hx, Hy. split; [apply AddFile_ok; try done; unfold num_ok; lia|]. split; [done|]. split; [done|]. split; [done|]. eexists. split; [reflexivity|]. split; [done|].
  apply Forall_singleton. split; [done|]. split_and!; try done; cbn; lia.
Qed.

Lemma add_tables_spec tables : forall e, Forall table_good tables -> edit_ok e -> edit_ok (foldl add_table e tables) /\ only_adds e (foldl add_table e tables) (st_number <$> tables).
Proof.
  induction tables as [|t tables IH]; intros e Hg He; cbn [foldl fmap list_fmap].
  - split; [done|]. split; [done|]. split; [done|]. split; [done|]. exists []. by rewrite app_nil_r.
  - apply Forall_cons in Hg as [Ht Hg]. destruct (add_table_spec e t Ht He) as [He1 (Hd1 & Hp1 & Hc1 & f1 & Hf1 & Hn1 & Hw1)]. destruct (IH _ Hg He1) as [He2 (Hd2 & Hp2 & Hc2 & f2 & Hf2 & Hn2 & Hw2)]. split; [done|].
    split; [congruence|]. split; [congruence|]. split; [congruence|]. exists (f1 ++ f2). rewrite Hf2, Hf1, app_assoc. split; [done|]. rewrite fmap_app, Hn1, Hn2. split; [done|]. by apply Forall_app.
Qed.

(** What [DB::Open] logs. *)
Definition recovery_edit (ln : Z) (tables : list SavedTable) : VersionEdit :=
  SetLogNumber ln (SetPrevLogNumber 0 (SetLogNumber ln (foldl add_table new_VersionEdit tables))).

Lemma recovery_disjoint a ln tables : Forall table_good tables -> levels_disjoint a -> levels_disjoint (abs_apply a (recovery_edit ln tables)).
Proof.
  intros Hg Hdis i m Hm n1 n2 p q Hne Hp Hq. destruct (add_tables_spec tables new_VersionEdit Hg new_VersionEdit_ok) as [_ (_ & _ & _ & files & Hf & Hn & _)].
  assert (forall n z, m !! n = Some z -> abs_at a (S i) n = Some z) as Hsame.
  { intros n z Hz. assert (abs_at (abs_apply a (recovery_edit ln tables)) (S i) n = Some z) as Hz' by (unfold abs_at; by rewrite Hm). apply abs_at_apply in Hz' as [?|(f & Hin & Hi & _)]; [done|]. exfalso.
    change (new_files_ (recovery_edit ln tables)) with (new_files_ (foldl add_table new_VersionEdit tables)) in Hin. rewrite Hf in Hin. cbn in Hin. assert (file_pair f ∈ (fun n => (0, n)) <$> (st_number <$> tables)) as Hfp by (rewrite <- Hn; by apply list_elem_of_fmap_2).
    apply list_elem_of_fmap in Hfp as (k & Hfp & _). unfold file_pair in Hfp. injection Hfp as H0 _. rewrite H0 in Hi. done. }
  apply Hsame in Hp, Hq. unfold abs_at in Hp, Hq. destruct (a !! S i) as [m'|] eqn:Em; [|done]. by apply (Hdis i m' Em n1 n2).
Qed.

Lemma recovery_edit_fits {FH : Type} (vs : VersionSet FH) a used ln tables : Forall table_good tables -> StronglySorted Z.lt (st_number <$> tables) -> (forall t p, t ∈ tables -> p ∈ used -> p.2 < st_number t) -> levels_disjoint a ->
  0 <= vs_log_number vs <= ln -> ln < vs_next_file_number vs -> vs_next_file_number vs < 2 ^ 64 - 1 -> edit_fits vs a used (recovery_edit ln tables).
Proof.
  intros Hg Hso Hused Hdis Hlog Hln Hroom. destruct (add_tables_spec tables new_VersionEdit Hg new_VersionEdit_ok) as [Heok (Hd & Hp & Hc & files & Hf & Hn & Hw)]. cbn in Hf.
  assert (edit_pairs (recovery_edit ln tables) = (fun n => (0, n)) <$> (st_number <$> tables)) as Hpairs. { unfold edit_pairs. change (new_files_ (recovery_edit ln tables)) with (new_files_ (foldl add_table new_VersionEdit tables)). by rewrite Hf, Hn. }
  split.
  - destruct Heok. split; try done; cbn; unfold field_ok, num_ok; (split; [lia|done]).
  - split; cbn [recovery_edit SetLogNumber SetPrevLogNumber compact_pointers_ deleted_files_ new_files_]; [rewrite Hp; constructor|rewrite Hd; constructor|by rewrite Hf].
  - intros Hcmp. change (has_comparator_ (recovery_edit ln tables)) with (has_comparator_ (foldl add_table new_VersionEdit tables)) in Hcmp. rewrite Hc in Hcmp. done.
  - rewrite Hpairs. apply NoDup_fmap_2; [intros ?? [= ->]; done|]. clear -Hso. induction Hso as [|x l Hl IH Hx]; constructor; [|done]. intros Hin. rewrite Forall_forall in Hx. specialize (Hx x Hin). lia.
  - intros p Hin Hin'. rewrite Hpairs in Hin. apply list_elem_of_fmap in Hin as (k & -> & Hin). apply list_elem_of_fmap in Hin as (t & -> & Hin). specialize (Hused t _ Hin Hin'). cbn in Hused. lia.
  - by apply recovery_disjoint.
  - cbn. lia.
  - cbn. lia.
  - done.
Qed.
End Edit.

(** ** The directory *)

Section Scan.
Context (log prev : Z).

Definition needed_log (name : bytes) : option Z :=
  match ParseFileName name with
  | Some (number, type) => if bool_decide (type = kLogFile) && ((log <=? number) || (number =? prev)) then Some number else None
  | None => None
  end.

Lemma scan_spec names : forall expected logs,
  let st := foldl (scan_file log prev) (expected, logs) names in
  st.2 = logs ++ omap needed_log names /\ forall z, z ∈ st.1 <-> z ∈ expected /\ forall name type, name ∈ names -> ParseFileName name = Some (z, type) -> False.
Proof.
  induction names as [|name names IH]; intros expected logs; cbn [foldl omap list_omap].
  - rewrite app_nil_r. split; [done|]. intros z. split; [intros Hz; split; [done|]; by intros ?? ?%elem_of_nil|tauto].
  - unfold scan_file at 2 4, needed_log at 1. cbn [fst snd]. destruct (ParseFileName name) as [[number type]|] eqn:Ep.
    + destruct (IH (expected ∖ {[number]}) (if bool_decide (type = kLogFile) && ((log <=? number) || (number =? prev)) then logs ++ [number] else logs)) as [Hl He]. split.
      * rewrite Hl. destruct (_ && _); [|done]. by rewrite <- app_assoc.
      * intros z. rewrite He, elem_of_difference, elem_of_singleton. split.
        -- intros [[Hz Hne] Hall]. split; [done|]. intros nm ty [->|Hin]%elem_of_cons Hp; [rewrite Ep in Hp; by injection Hp as -> _|by eapply Hall].
        -- intros [Hz Hall]. split; [split; [done|]; intros ->; eapply Hall; [left|exact Ep]|]. intros nm ty Hin. apply Hall. by right.
    + destruct (IH expected logs) as [Hl He]. split; [done|]. intros z. rewrite He. split.
      * intros [Hz Hall]. split; [done|]. intros nm ty [->|Hin]%elem_of_cons Hp; [congruence|by eapply Hall].
      * intros [Hz Hall]. split; [done|]. intros nm ty Hin. apply Hall. by right.
Qed.

(** Only the number counts: a log hides that the table of that number is missing. *)
Lemma log_hides_missing_table (expected : gset Z) : 5 ∉ (foldl (scan_file log prev) (expected, []) [decimal06 5 ++ str ".log"]).1.
Proof. intros [_ Hall]%(proj2 (scan_spec [decimal06 5 ++ str ".log"] expected []) 5). apply (Hall (decimal06 5 ++ str ".log") kLogFile); [left|done]. Qed.

(** The logs of the listing, sorted, are the logs of the database. *)
Lemma sorted_logs names logs : NoDup names -> StronglySorted Z.lt logs -> (forall k, k ∈ logs -> (decimal06 k ++ str ".log") ∈ names /\ needed_log (decimal06 k ++ str ".log") = Some k) ->
  (forall name k, name ∈ names -> needed_log name = Some k -> k ∈ logs /\ name = decimal06 k ++ str ".log") -> merge_sort Z.le (omap needed_log names) = logs.
Proof.
  intros Hnd Hs Hin Hout. assert (StronglySorted Z.le logs) as Hs'. { clear -Hs. induction Hs as [|x l Hl IH Hx]; [constructor|]. constructor; [done|]. eapply Forall_impl; [exact Hx|]. cbn. lia. }
  apply (StronglySorted_unique Z.le); [apply StronglySorted_merge_sort; apply _|done|]. rewrite merge_sort_Permutation. apply NoDup_Permutation.
  - clear Hs Hs' Hin. induction names as [|name names IH]; cbn [omap list_omap]; [constructor|]. apply NoDup_cons in Hnd as [Hn Hnd]. assert (NoDup (omap needed_log names)) as IH' by (apply IH; [done|]; intros; apply Hout; [by right|done]).
    destruct (needed_log name) as [k|] eqn:Ek; [|exact IH']. constructor; [|exact IH']. intros (name' & Hin' & Hk')%list_elem_of_omap. destruct (Hout name k) as [_ ->]; [left|done|]. destruct (Hout name' k) as [_ ->]; [by right|done|]. done.
  - clear -Hs. induction Hs as [|x l Hl IH Hx]; constructor; [|done]. intros Hin. rewrite Forall_forall in Hx. specialize (Hx x Hin). lia.
  - intros k. rewrite list_elem_of_omap. split; [intros (name & Hn & Hk); by apply (Hout name)|]. intros Hk. destruct (Hin k Hk) as [Hn Hd]. by eexists.
Qed.
End Scan.

(** ** Recovery *)

Section Whole.
Context `{laws : ComparatorLaws} {user_policy : FilterPolicy} `{flaws : !FilterPolicyLaws} `{Crc32c} `{Compressors} `{lens : !@SeparatorLengths InternalKeyComparator} `{alaws : AllocatorLaws}.
Context {E FH TC : Type} `{vlaws : TableVerifierLaws TC E FH} `{dbdir : !DbDir E} `{ddlaws : !DbDirLaws E FH} `{dirs : !Directory E} `{evictor : !TableEvictor TC} `{evlaws : !TableEvictorLaws TC} (dbname : bytes) (o : TableOptions) (write_buffer_size : Z) (build_fuel fuel : nat).
Abbreviation Work := (Work E FH TC).
Abbreviation table_name k := (MakeFileName dbname k "ldb").
Abbreviation log_name k := (MakeFileName dbname k "log").
Abbreviation next w := (vs_next_file_number (w_versions w)).
Abbreviation stored := (stored (user_policy := user_policy) dbname o).
Implicit Types (w : Work) (d : Opening (E := E) (FH := FH) (TC := TC)) (e : E).
Hypothesis interval_ok : 1 <= to_restart_interval o.
Hypothesis name_ok : forall name, to_filter_name o = Some name -> zlen name < 2 ^ 31.
Hypothesis file_limit : forall e h x e', file_Append e h x = (e', OK) -> zlen (hbytes e' h) < 2 ^ 32.
Variable batches : Z -> list (Z * list batch_op).

(** A database on disk: the manifest leads to the version [a] and the numbers, its tables are there, and [logs] are the
    logs it does not cover. *)
Record disk_state e (cmp : bytes) (used : list (Z * Z)) (a : AbsVersion) (log prev nx last : Z) (logs : list Z) : Prop := mkDiskState {
  dk_env : env_ok e;
  dk_manifest : saved_at e dbname cmp used a log prev nx last;
  dk_fuel : enough_fuel fuel e;
  dk_used p : p ∈ used -> p.2 <= nx;
  dk_tables i n x : abs_at a i n = Some x -> is_Some (fs e (table_name n));
  dk_logs : Forall (log_on_disk dbname build_fuel fuel batches e) logs;
  dk_needed : Forall (fun k => log <= k \/ k = prev) logs;
  dk_sorted : StronglySorted Z.lt logs;
  dk_names name k : ParseFileName name = Some (k, kLogFile) -> is_Some (fs e (dbname ++ str "/" ++ name)) -> log <= k \/ k = prev -> k ∈ logs /\ name = decimal06 k ++ str ".log";
}.

(** The logs were replayed. *)
Record recovered_db (a : AbsVersion) (used : list (Z * Z)) (log prev nx last : Z) (logs : list Z) d (edit : VersionEdit) (tables : list SavedTable) (parts : list (list entry_op)) : Prop := mkRecoveredDb {
  rd_inv : vset_inv (w_env (on_work d)) (w_versions (on_work d)) a used nobody;
  rd_dbname : vs_dbname (w_versions (on_work d)) = dbname;
  rd_stored : Forall2 (stored (w_env (on_work d))) tables parts;
  rd_entries : concat parts = batch_entries (all_batches batches logs);
  rd_edit : edit = foldl add_table new_VersionEdit tables;
  rd_sorted : StronglySorted Z.lt (st_number <$> tables);
  rd_numbers : Forall (fun t => nx < st_number t < next (on_work d)) tables;
  rd_last : vs_last_sequence (w_versions (on_work d)) = Z.max last (max_number 0 (all_batches batches logs));
  rd_log : vs_log_number (w_versions (on_work d)) = log;
  rd_log_used : Forall (fun k => k < next (on_work d)) logs;
  rd_none : no_log d;
  rd_pending : w_pending_outputs (on_work d) = ∅;
  rd_error : w_bg_error (on_work d) = OK;
}.

Lemma parse_log k : 0 <= k < 2 ^ 64 -> ParseFileName (decimal06 k ++ str ".log") = Some (k, kLogFile).
Proof. intros Hk. rewrite ParseFileName_number; [done|lia|by intros c [= <-]; left]. Qed.

Lemma parse_table k : 0 <= k < 2 ^ 64 -> ParseFileName (decimal06 k ++ str ".ldb") = Some (k, kTableFile).
Proof. intros Hk. rewrite ParseFileName_number; [done|lia|by intros c [= <-]; left]. Qed.

Lemma name_not_lock name k ty : ParseFileName name = Some (k, ty) -> ty ≠ kDBLockFile -> dbname ++ str "/" ++ name ≠ LockFileName dbname.
Proof. intros Hp Hty. unfold LockFileName. change (str "/LOCK") with (str "/" ++ str "LOCK"). eapply name_neq; [exact Hp|reflexivity|]. intros Heq. by injection Heq as -> ->. Qed.

(** Only the lock file was made. *)
Lemma disk_state_lock e e' cmp used a log prev nx last logs : disk_state e cmp used a log prev nx last logs -> (forall i n x, abs_at a i n = Some x -> 0 <= n < 2 ^ 64) -> env_ok e' -> (forall m, m ≠ LockFileName dbname -> fs e' m = fs e m) -> (fs e' (LockFileName dbname) = fs e (LockFileName dbname) \/ fs e' (LockFileName dbname) = Some []) ->
  disk_state e' cmp used a log prev nx last logs.
Proof.
  intros [He (num & edits & Hdisk & Hhist & Hnums & Hrange) Hfu Hus Htab Hlogs Hneed Hso Hnames] Hn He' Hf Hl. assert (0 < num < 2 ^ 64) as Hnum by (destruct Hnums as (? & _ & _ & _ & _ & _ & ? & _); lia). split; try done.
  - exists num, edits. split; [|by split]. eapply on_disk_frame; [| |exact Hdisk]; apply Hf.
    + unfold CurrentFileName. change (str "/CURRENT") with (str "/" ++ str "CURRENT"). by eapply name_not_lock.
    + unfold manifest_name. eapply name_not_lock; [by apply ParseFileName_manifest; lia|done].
  - intros n img Hi. destruct (decide (n = LockFileName dbname)) as [->|Hne]; [|rewrite Hf in Hi by done; by eapply Hfu]. destruct Hl as [Hl|Hl]; rewrite Hl in Hi; [by eapply Hfu|]. injection Hi as <-. destruct Hdisk as [Hc _]. apply Hfu in Hc. pose proof (zlen_nonneg (current_line num)). change (zlen (@nil byte)) with 0. lia.
  - intros i n x Hx. rewrite Hf; [by eapply Htab|]. unfold MakeFileName. eapply name_not_lock; [by apply parse_table; eapply Hn|done].
  - eapply Forall_impl; [exact Hlogs|]. intros k (Hk & img & records & Hfk & Hrest). split; [done|]. exists img, records. split; [|done]. rewrite Hf; [done|]. unfold MakeFileName. eapply name_not_lock; [by apply parse_log; lia|done].
  - intros name k Hp Hs Hk. apply Hnames; [done| |done]. rewrite <- Hf; [done|]. by eapply name_not_lock.
Qed.

(** A table or a log. *)
Definition data_name (m : bytes) : Prop := exists k, 0 < k < 2 ^ 64 /\ (m = table_name k \/ m = log_name k).

Lemma data_name_parses m : data_name m -> exists name k ty, m = dbname ++ str "/" ++ name /\ ParseFileName name = Some (k, ty) /\ (ty = kTableFile \/ ty = kLogFile).
Proof. intros (k & Hk & [->| ->]); unfold MakeFileName; eexists _, k, _; (split; [reflexivity|]); [split; [by apply parse_table; lia|by left]|split; [by apply parse_log; lia|by right]]. Qed.

Lemma not_data_name name k ty : ParseFileName name = Some (k, ty) -> ty ≠ kTableFile -> ty ≠ kLogFile -> ~ data_name (dbname ++ str "/" ++ name).
Proof. intros Hp H1' H2' (name' & k' & ty' & Heq & Hp' & Hty)%data_name_parses. apply app_inv_head, app_inv_head in Heq as <-. rewrite Hp in Hp'. injection Hp' as <- <-. by destruct Hty. Qed.

Lemma current_not_data : ~ data_name (CurrentFileName dbname).
Proof. unfold CurrentFileName. change (str "/CURRENT") with (str "/" ++ str "CURRENT"). by eapply not_data_name. Qed.

Lemma manifest_not_data num : 0 < num < 2 ^ 64 -> ~ data_name (manifest_name dbname num).
Proof. intros Hn. unfold manifest_name. eapply not_data_name; [by apply ParseFileName_manifest; lia|done|done]. Qed.

(** Changes to tables and logs leave the version set as it is. *)
Lemma data_changed_inv e e' vs a used held : vset_inv e vs a used held -> vs_dbname vs = dbname -> only_changed data_name e e' -> vset_inv e' vs a used held.
Proof. intros Hinv Hdb Hc. eapply only_changed_inv; [exact Hinv|exact Hc| |apply current_not_data|done]. intros num _ Hn _ _. by apply manifest_not_data. Qed.

Lemma moved_inv w0 w a used held : logs_moved dbname w0 w -> vset_inv (w_env w0) (w_versions w0) a used held -> vs_dbname (w_versions w0) = dbname -> 0 < next w0 -> next w < 2 ^ 64 -> vset_inv (w_env w) (w_versions w) a used held.
Proof.
  intros [He Hf Hv Hn Hp Hb] Hinv Hdb Hpos Hlim. rewrite Hv. apply set_numbers_inv; [|lia|apply (vi_numbers _ _ _ _ _ Hinv)]. eapply data_changed_inv; [exact Hinv|done|]. split; [done|]. intros m Hm.
  destruct (Hf m) as [Hfm Hwm]; [intros k Hk ->; apply Hm; exists k; split; [lia|by left]|]. split; [done|]. intros h Hh. apply Hwm; [|done]. intros k Hk ->. apply Hm. exists k. split; [lia|by right].
Qed.

(** All numbers of the logs are sequence numbers. *)
Lemma max_number_range m bs : 0 <= m < 2 ^ 56 -> Forall batch_ok bs -> 0 <= max_number m bs < 2 ^ 56.
Proof.
  intros Hm Hbs. revert m Hm. induction Hbs as [|b bs (_ & _ & Hb1 & Hb2) Hbs IH]; intros m Hm; cbn [max_number foldl]; [done|]. apply IH. pose proof (zlen_nonneg b.2). unfold last_number. destruct (_ <? _); lia.
Qed.

Lemma all_batches_ok e logs : Forall (log_on_disk dbname build_fuel fuel batches e) logs -> Forall batch_ok (all_batches batches logs).
Proof. intros Hl. unfold all_batches. induction Hl as [|k logs (_ & img & records & _ & _ & Hb & _) Hl IH]; cbn; [constructor|]. apply Forall_app. split; [apply (lb_ok _ _ Hb)|done]. Qed.

(** The expected tables are all there. *)
Lemma nothing_missing w a used log prev nx last cmp logs names expected : disk_state (w_env w) cmp used a log prev nx last logs -> vset_inv (w_env w) (w_versions w) a used nobody -> dir_list (w_env w) dbname = (OK, names) ->
  AddLiveFiles (vs_versions (w_versions w)) ∅ = Ret expected -> forall z, z ∈ expected -> exists name, name ∈ names /\ ParseFileName name = Some (z, kTableFile).
Proof.
  intros Hd [He (l & c & Hm) _ _] Hls Hlive z Hz. destruct (AddLiveFiles_spec _ _ _ _ ∅ (vm_versions _ _ _ _ _ _ Hm)) as (live & Hl & Hall). rewrite Hlive in Hl. injection Hl as <-. apply Hall in Hz as [Hz|(n & v & f & Hn & Hv & Hf & Hnum)]; [by apply elem_of_empty in Hz|].
  assert (n = c) as ->. { destruct (vi_refs _ _ _ _ _ (vm_versions _ _ _ _ _ _ Hm) n v Hn Hv) as [_ Hr]. unfold rc_of, nobody in Hr. destruct (decide (n = c)); [done|lia]. }
  destruct (vm_files _ _ _ _ _ _ Hm) as (files & Hvf & Hden). destruct (vfiles_at _ _ _ Hvf) as (v' & Hv' & <-). rewrite Hv in Hv'. injection Hv' as <-.
  apply list_elem_of_In, in_concat in Hf as (level & Hlev & Hf). apply list_elem_of_In in Hlev, Hf. apply list_elem_of_lookup in Hlev as (i & Hi). destruct (Forall2_lookup_l _ _ _ _ _ Hden Hi) as (m & Hmi & Hdm).
  assert (abs_at a i z = Some (info f)) as Hat. { unfold abs_at. rewrite Hmi. cbn. apply Hdm. by exists f. }
  pose proof (dk_tables _ _ _ _ _ _ _ _ _ Hd i z _ Hat) as Hs. destruct (vm_abs _ _ _ _ _ _ Hm i z _ Hat) as (_ & Hzr & _). exists (decimal06 z ++ str ".ldb"). unfold num_ok in Hzr. split; [|by apply parse_table]. apply (proj2 (list_spec _ _ _ He Hls) _ _ (parse_table z Hzr)). exact Hs.
Qed.

(** Where the manifest was read. *)
Record manifest_read (cmp : bytes) (used : list (Z * Z)) (a : AbsVersion) (log prev nx last : Z) (logs : list Z) d : Prop := mkManifestRead {
  mr_disk : disk_state (w_env (on_work d)) cmp used a log prev nx last logs;
  mr_inv : vset_inv (w_env (on_work d)) (w_versions (on_work d)) a used nobody;
  mr_numbers : recovered_numbers (w_versions (on_work d)) log prev nx last;
  mr_dbname : vs_dbname (w_versions (on_work d)) = dbname;
  mr_options : reuse_logs (vs_options (w_versions (on_work d))) = false;
  mr_none : no_log d;
  mr_pending : w_pending_outputs (on_work d) = ∅;
  mr_error : w_bg_error (on_work d) = OK;
}.

Lemma replay_logs_spec cmp used a log prev nx last logs names_logs d save M : manifest_read cmp used a log prev nx last logs d -> merge_sort Z.le names_logs = logs ->
  nx + 1 <= M -> Forall (fun k => k + 1 <= M) logs -> M + numbers_for batches logs < 2 ^ 64 - 1 ->
  exists d' save' edit' s, replay_logs (user_policy := user_policy) dbname o write_buffer_size build_fuel fuel names_logs d save new_VersionEdit = Ret (d', save', edit', s) /\
    (s = OK -> (save = true -> save' = true) /\ next (on_work d') <= M + numbers_for batches logs /\ exists tables parts, recovered_db a used log prev nx last logs d' edit' tables parts).
Proof.
  intros [Hdk Hinv (Hl & Hp & Hls & Hnx) Hdb Hopt Hno Hpend Herr] Hsort HM HMl Hroom. unfold replay_logs. rewrite Hsort. pose proof (numbers_for_nonneg batches logs) as Hnn.
  assert (0 < nx) as Hpos by (destruct (dk_manifest _ _ _ _ _ _ _ _ _ Hdk) as (num & edits & _ & _ & _ & ?); lia).
  destruct (recover_logs_spec dbname o write_buffer_size build_fuel fuel interval_ok name_ok file_limit batches logs d save new_VersionEdit 0 (on_work d) new_VersionEdit [] [] M) as (d1 & save1 & edit1 & max1 & s1 & -> & Hmv & Hnx1 & Hok); try done; try lia.
  { split; [by apply logs_moved_refl, Hinv|constructor|constructor|constructor|done]. }
  { apply Hdk. }
  cbn [obind]. destruct (ok s1) eqn:Es; cbn [negb]. 2:{ eexists _, _, _, _. split; [done|]. by intros ->. }
  apply ok_true in Es as ->. destruct (Hok eq_refl) as (ts & ps & [_ Hst Hnu Hso Hed] & Hps & Hmax & Hsv & Hno1 & Hlt). cbn [app] in Hst, Hnu, Hso, Hed.
  pose proof (moved_inv _ _ a used nobody Hmv Hinv Hdb ltac:(lia) ltac:(lia)) as Hinv1. destruct Hmv as [He1 Hf1 Hv1 Hle1 Hpe1 Her1].
  assert (vs_last_sequence (w_versions (on_work d1)) = last) as Hlast1 by (by rewrite Hv1). set (mx := max_number 0 (all_batches batches logs)) in *. assert (0 <= mx < 2 ^ 56) as Hmx by (apply max_number_range; [lia|]; eapply all_batches_ok, (dk_logs _ _ _ _ _ _ _ _ _ Hdk)).
  assert (exists vs2, (if vs_last_sequence (w_versions (on_work d1)) <? max1 then SetLastSequenceNumber (w_versions (on_work d1)) max1 else Ret (w_versions (on_work d1))) = Ret vs2 /\
    vs2 = set_numbers (w_versions (on_work d1)) (next (on_work d1)) (vs_manifest_file_number (w_versions (on_work d1))) (Z.max last mx) (vs_log_number (w_versions (on_work d1))) (vs_prev_log_number (w_versions (on_work d1)))) as (vs2 & -> & Hvs2).
  { rewrite Hlast1, Hmax. fold mx. destruct (Z.ltb_spec last mx) as [Hlt'|Hge].
    - unfold SetLastSequenceNumber. rewrite Hlast1, (proj2 (Z.leb_le last mx)) by lia. cbn [oassert obind]. eexists. split; [done|]. by rewrite Z.max_r by lia.
    - eexists. split; [done|]. rewrite Z.max_l by lia. rewrite <- Hlast1. by destruct (w_versions (on_work d1)). }
  cbn [obind]. eexists _, _, _, _. split; [done|]. intros _. split; [auto|]. split; [rewrite Hvs2; cbn; lia|]. exists ts, ps. split; cbn [set_opening_work on_work set_work_versions w_env w_versions]; try done.
  - rewrite Hvs2. apply set_numbers_inv; [done|split; [lia|lia]|]. pose proof (vi_numbers _ _ _ _ _ Hinv1) as Hnu1. unfold vset_numbers in Hnu1. rewrite Hlast1 in Hnu1. unfold num_ok in *. lia.
  - rewrite Hvs2, Hv1. exact Hdb.
  - rewrite Hvs2. eapply Forall_impl; [exact Hnu|]. cbn. intros t Ht. lia.
  - by rewrite Hvs2.
  - by rewrite Hvs2, Hv1.
  - rewrite Hvs2. exact Hlt.
  - cbn. set_solver.
  - cbn. congruence.
Qed.

Lemma recover_files_spec cmp used a log prev nx last logs d save M : manifest_read cmp used a log prev nx last logs d ->
  nx + 1 <= M -> Forall (fun k => k + 1 <= M) logs -> M + numbers_for batches logs < 2 ^ 64 - 1 ->
  exists d' save' edit' s, recover_files (user_policy := user_policy) dbname o write_buffer_size build_fuel fuel d save new_VersionEdit = Ret (d', save', edit', s) /\
    (s = OK -> (save = true -> save' = true) /\ next (on_work d') <= M + numbers_for batches logs /\ exists tables parts, recovered_db a used log prev nx last logs d' edit' tables parts).
Proof.
  intros Hmr HM HMl Hroom. pose proof Hmr as [Hdk Hinv (Hl & Hp & Hls & Hnx) Hdb Hopt Hno Hpend Herr]. unfold recover_files. destruct (dir_list (w_env (on_work d)) dbname) as [s names] eqn:Els. destruct (ok s) eqn:Es; cbn [negb]. 2:{ eexists _, _, _, _. split; [done|]. by intros ->. }
  apply ok_true in Es as ->. pose proof Hinv as [He (l & c & Hm) _ _]. destruct (AddLiveFiles_spec _ _ _ _ ∅ (vm_versions _ _ _ _ _ _ Hm)) as (expected & Hlive & _). rewrite Hlive. cbn [obind].
  destruct (foldl _ (expected, []) names) as [expected' logs'] eqn:Esc. pose proof (scan_spec (vs_log_number (w_versions (on_work d))) (vs_prev_log_number (w_versions (on_work d))) names expected []) as Hscan. cbv zeta in Hscan. rewrite Esc in Hscan. cbn [fst snd app] in Hscan. destruct Hscan as [Hlogs Hexp].
  assert (expected' = ∅) as ->. { apply set_eq. intros z. rewrite Hexp. split; [|by intros ?%elem_of_empty]. intros [Hz Hall]. destruct (nothing_missing _ _ _ _ _ _ _ _ _ _ _ Hdk Hinv Els Hlive z Hz) as (name & Hn & Hpn). by destruct (Hall name _ Hn Hpn). }
  rewrite elements_empty. cbn [merge_sort merge_sort_aux]. apply (replay_logs_spec cmp); try done. destruct (list_spec _ _ _ He Els) as [Hnd Hin]. rewrite Hlogs, Hl, Hp. apply sorted_logs; [done|apply (dk_sorted _ _ _ _ _ _ _ _ _ Hdk)| |].
  - intros k Hk. pose proof (dk_logs _ _ _ _ _ _ _ _ _ Hdk) as Hld. pose proof (dk_needed _ _ _ _ _ _ _ _ _ Hdk) as Hne. rewrite Forall_forall in Hld, Hne. destruct (Hld k Hk) as (Hkr & img & records & Hf & _). specialize (Hne k Hk).
    assert (ParseFileName (decimal06 k ++ str ".log") = Some (k, kLogFile)) as Hpk by (apply parse_log; lia). split; [apply (Hin _ _ Hpk); by eexists|]. unfold needed_log. rewrite Hpk. cbn [bool_decide andb]. destruct (Z.leb_spec log k); [done|]. destruct (Z.eqb_spec k prev); [done|]. lia.
  - intros name k Hn. unfold needed_log. destruct (ParseFileName name) as [[k' ty]|] eqn:Epn; [|done]. destruct (bool_decide (ty = kLogFile)) eqn:Ety; [|done]. apply bool_decide_eq_true in Ety as ->. cbn [andb]. destruct ((log <=? k') || (k' =? prev)) eqn:Ek; [|done]. intros [= <-].
    apply (dk_names _ _ _ _ _ _ _ _ _ Hdk); [done|by apply (Hin _ _ Epn)|]. apply orb_true_iff in Ek as [?%Z.leb_le|?%Z.eqb_eq]; [by left|by right].
Qed.

(** A new object for a database. *)
Record fresh_db (cmp : bytes) d : Prop := mkFreshDb {
  fd_mem : vset_mem (w_versions (on_work d)) abs_empty [] nobody [1%nat] 1;
  fd_log : descriptor_log_ (w_versions (on_work d)) = None;
  fd_file : descriptor_file_ (w_versions (on_work d)) = None;
  fd_dbname : vs_dbname (w_versions (on_work d)) = dbname;
  fd_cmp : vs_comparator (w_versions (on_work d)) = cmp;
  fd_options : reuse_logs (vs_options (w_versions (on_work d))) = false;
  fd_none : no_log d;
  fd_pending : w_pending_outputs (on_work d) = ∅;
  fd_error : w_bg_error (on_work d) = OK;
}.

Lemma new_DBImpl_fresh e (tables : TC) opts cmp : zlen cmp < 2 ^ 32 -> reuse_logs opts = false -> exists d, new_DBImpl dbname e tables fresh_heap opts cmp = Ret d /\ fresh_db cmp d /\ w_env (on_work d) = e.
Proof.
  intros Hc Hr. unfold new_DBImpl. destruct (new_VersionSet_spec (FH := FH) dbname opts cmp Hc) as (vs & -> & Hm & Hdl & Hdf & Hdb & Hcmp & Hopt). cbn [obind]. eexists. split; [done|]. split; [|done]. split; try done. cbn. congruence.
Qed.

Lemma db_Recover_spec create cmp used a log prev nx last logs d M : disk_state (w_env (on_work d)) cmp used a log prev nx last logs -> fresh_db cmp d ->
  nx + 1 <= M -> Forall (fun k => k + 1 <= M) logs -> M + numbers_for batches logs < 2 ^ 64 - 1 ->
  exists d' locked save' edit' s, db_Recover (user_policy := user_policy) dbname o write_buffer_size create false build_fuel fuel d false false new_VersionEdit = Ret (d', locked, save', edit', s) /\
    (s = OK -> save' = true /\ next (on_work d') <= M + numbers_for batches logs /\ exists tables parts, recovered_db a used log prev nx last logs d' edit' tables parts).
Proof.
  intros Hdk [Hm Hdl Hdf Hdb Hcmp Hopt Hno Hpend Herr] HM HMl Hroom. unfold db_Recover. destruct (dir_create (w_env (on_work d)) dbname) as [e1 s1] eqn:E1. destruct (create_frame _ _ _ _ (dk_env _ _ _ _ _ _ _ _ _ Hdk) E1) as [He1 Hf1]. cbn [negb oassert obind].
  destruct (dir_lock e1 (LockFileName dbname)) as [e2 s2] eqn:E2. destruct (lock_frame _ _ _ _ He1 E2) as (He2 & Hf2 & Hl2). destruct (ok s2) eqn:Es2; cbn [negb]. 2:{ eexists _, _, _, _, _. split; [done|]. by intros ->. }
  pose proof (dk_manifest _ _ _ _ _ _ _ _ _ Hdk) as (num & edits & _ & Hhist & _). assert (disk_state e2 cmp used a log prev nx last logs) as Hdk2.
  { apply (disk_state_lock (w_env (on_work d))); [done| |done|intros m Hne; by rewrite Hf2|by rewrite <- Hf1]. intros i n x Hx. destruct (history_abs_ok _ _ _ _ Hhist i n x Hx) as (_ & ? & _). done. }
  pose proof (dk_manifest _ _ _ _ _ _ _ _ _ Hdk2) as Hsaved. assert (file_exists e2 (CurrentFileName dbname) = true) as Hex. { apply exists_spec; [done|]. destruct Hsaved as (num2 & edits2 & [Hc _] & _). by eexists. }
  unfold create_or_check. rewrite Hex. cbn [negb obind ok]. destruct (recover_saved fuel e2 (w_versions (on_work d)) used a log prev nx last) as (e3 & vs3 & sm3 & -> & (Hinv3 & Hrn3 & Hdb3 & Hc3) & Hf3 & Ho3 & Hsm3); try done; [by rewrite Hdb, Hcmp|apply Hdk2|].
  cbn [obind ok negb]. set (d3 := set_opening_work d _). assert (manifest_read cmp used a log prev nx last logs d3) as Hmr.
  { split; cbn [d3 set_opening_work on_work set_work_versions set_work_env w_env w_versions w_pending_outputs w_bg_error]; try done; [|congruence|congruence].
    apply (disk_state_lock e2); [done| |apply Hinv3|by intros m _|by left]. intros i n x Hx. destruct (history_abs_ok _ _ _ _ Hhist i n x Hx) as (_ & ? & _). done. }
  destruct (recover_files_spec cmp used a log prev nx last logs d3 sm3 M Hmr HM HMl Hroom) as (d' & save' & edit' & s & -> & Hok). cbn [obind]. eexists _, _, _, _, _. split; [done|]. intros Hs. destruct (Hok Hs) as (Hsv & Hrest). split; [|done]. by apply Hsv, Hsm3.
Qed.

(** ** The new log *)

Lemma recovered_good a used log prev nx last logs d edit tables parts e : recovered_db a used log prev nx last logs d edit tables parts -> Forall (log_on_disk dbname build_fuel fuel batches e) logs -> 0 <= nx -> next (on_work d) < 2 ^ 64 -> Forall table_good tables.
Proof.
  intros Hrd Hld Hpos Hlim. pose proof (rd_entries _ _ _ _ _ _ _ _ _ _ _ Hrd) as Hent. pose proof (rd_numbers _ _ _ _ _ _ _ _ _ _ _ Hrd) as Hnum. assert (Forall op_ok (concat parts)) as Hops.
  { rewrite Hent. unfold batch_entries. apply Forall_concat, Forall_fmap. eapply Forall_impl; [exact (all_batches_ok e logs Hld)|]. intros b (Hb & _ & Hb1 & Hb2). cbn. apply numbered_ok; (done || lia). }
  clear Hent. pose proof (rd_stored _ _ _ _ _ _ _ _ _ _ _ Hrd) as Hst. clear Hrd. induction Hst as [|t part tables parts (Hf & Hz & Ht & Hp & Hne) Hst IH]; [constructor|]. cbn [concat] in Hops. apply Forall_app in Hops as [Ho Hops]. apply Forall_cons in Hnum as [Hn Hnum]. constructor; [|by apply IH].
  split; [lia|]. split; [done|]. rewrite <- Hp in Ho. destruct Ht as (_ & Hs & _). destruct (head (st_entries t)) as [x|] eqn:Ex. 2:{ apply head_None in Ex. rewrite Ex in Hp. apply Permutation_nil_l in Hp. done. }
  destruct (list.last (st_entries t)) as [y|] eqn:Ey; [|by apply last_None in Ey; rewrite Ey in Ex]. exists x, y. split; [done|]. split; [done|]. rewrite Forall_forall in Ho.
  split; [apply Ho; rewrite head_lookup in Ex; by eapply list_elem_of_lookup_2|]. split; [apply Ho; rewrite last_lookup in Ey; by eapply list_elem_of_lookup_2|]. by eapply sorted_bounds.
Qed.

(** The new log is open and empty, and the database has an empty memtable. *)
Definition log_ready d (ln : Z) : Prop :=
  exists h, on_mem d = Some (MemTable.Ref new_MemTable) /\ on_logfile d = Some h /\ on_log d = Some (mkWriter h 0 InitTypeCrc) /\ on_logfile_number d = ln /\ writes (w_env (on_work d)) h (log_name ln) /\ fs (w_env (on_work d)) (log_name ln) = Some [].

Lemma new_log_spec a used log prev nx last logs d edit tables parts : recovered_db a used log prev nx last logs d edit tables parts -> 0 <= nx -> next (on_work d) < 2 ^ 64 - 1 ->
  let ln := next (on_work d) in
  exists d' edit' s, new_log dbname d edit = Ret (d', edit', s) /\
    (s = OK -> edit' = SetLogNumber ln edit /\ log_ready d' ln /\ vset_inv (w_env (on_work d')) (w_versions (on_work d')) a used nobody /\ vs_dbname (w_versions (on_work d')) = dbname /\ Forall2 (stored (w_env (on_work d'))) tables parts /\
      next (on_work d') = ln + 1 /\ vs_last_sequence (w_versions (on_work d')) = vs_last_sequence (w_versions (on_work d)) /\ vs_log_number (w_versions (on_work d')) = log /\ w_pending_outputs (on_work d') = ∅ /\ w_bg_error (on_work d') = OK).
Proof.
  intros Hrd Hnx Hroom ln. pose proof (rd_inv _ _ _ _ _ _ _ _ _ _ _ Hrd) as Hinv. pose proof (vi_numbers _ _ _ _ _ Hinv) as Hnums. unfold vset_numbers in Hnums. unfold new_log, LogFileName, NewFileNumber. fold ln. rewrite (proj2 (Z.ltb_lt 0 ln)) by (unfold ln; lia). cbn [oassert obind].
  destruct (NewWritableFile (w_env (on_work d)) (log_name ln)) as [[e1 s1] file] eqn:En. destruct (new_writable _ _ _ _ _ (vi_env _ _ _ _ _ Hinv) En) as [K Hopen]. destruct (ok s1) eqn:Es. 2:{ eexists _, _, _. split; [done|]. by intros ->. }
  apply ok_true in Es as ->. destruct (Hopen eq_refl) as (h & -> & Hw & Hb). eexists _, _, _. split; [done|]. intros _. rewrite (u64_small (ln + 1)) by (unfold ln; lia). cbn [on_work set_work_versions set_work_env w_env w_versions w_pending_outputs w_bg_error vs_next_file_number vs_last_sequence vs_log_number vs_dbname set_numbers].
  split; [done|]. split; [exists h; do 5 (split; [done|]); cbn; by rewrite (writes_fs _ _ _ Hw), Hb|]. split; [|split; [apply Hrd|]; split; [|split; [done|]; split; [done|]; split; [apply Hrd|]; split; apply Hrd]].
  - apply set_numbers_inv; [|unfold ln; lia|apply Hnums]. eapply data_changed_inv; [exact Hinv|apply Hrd|]. split; [by eapply keeps_ok|]. intros m Hm. assert (m ≠ log_name ln) as Hne by (intros ->; apply Hm; exists ln; split; [unfold ln; lia|by right]). split; [by apply K|]. intros h' Hh'. by eapply keeps_writes.
  - eapply stored_same; [|apply Hrd]. intros t Ht. apply K. pose proof (rd_numbers _ _ _ _ _ _ _ _ _ _ _ Hrd) as Hn. rewrite Forall_forall in Hn. specialize (Hn t Ht). apply not_eq_sym, log_not_table; unfold ln; lia.
Qed.

(** ** The edit is logged *)

Lemma tables_live (vs : VersionSet FH) a used held l c ln tables : vset_mem vs (abs_apply a (recovery_edit ln tables)) used held l c -> length a = Z.to_nat config.kNumLevels -> Forall table_good tables -> StronglySorted Z.lt (st_number <$> tables) ->
  forall t, t ∈ tables -> in_versions (vs_versions vs) l (st_number t).
Proof.
  intros Hm Hlen Hg Hso t Ht. destruct (add_tables_spec tables new_VersionEdit Hg new_VersionEdit_ok) as [_ (Hd & _ & _ & files & Hf & Hn & Hw)]. cbn in Hf, Hd.
  assert (exists f, f ∈ files /\ file_pair f = (0, st_number t)) as (f & Hfin & Hfp). { assert ((0, st_number t) ∈ file_pair <$> files) as Hin. { rewrite Hn. apply list_elem_of_fmap_2 with (f := fun n => (0, n)). by apply list_elem_of_fmap_2. } apply list_elem_of_fmap in Hin as (f & Hfp & Hfin). by exists f. }
  assert (abs_at (abs_apply a (recovery_edit ln tables)) 0 (st_number t) = Some (meta_info f.2)) as Hat.
  { unfold abs_apply. change (deleted_files_ (recovery_edit ln tables)) with (deleted_files_ (foldl add_table new_VersionEdit tables)). change (new_files_ (recovery_edit ln tables)) with (new_files_ (foldl add_table new_VersionEdit tables)). rewrite Hd, Hf. cbn [foldl].
    unfold file_pair in Hfp. injection Hfp as Hl0 Hnum. rewrite <- Hnum. change 0%nat with (Z.to_nat 0). rewrite <- Hl0. apply abs_at_adds_in; [|eapply Forall_impl; [exact Hw|]; by intros ? [? _]|done|done]. rewrite Hn. apply NoDup_fmap_2; [intros ?? [= ->]; done|]. clear -Hso. induction Hso as [|x l Hl IH Hx]; constructor; [|done]. intros Hin. rewrite Forall_forall in Hx. specialize (Hx x Hin). lia. }
  destruct (vm_files _ _ _ _ _ _ Hm) as (fl & Hfl & Hden). destruct (abs_at_denotes _ _ _ _ _ Hden Hat) as (level & g & Hlev & Hg' & Hgn & _). destruct (vfiles_at _ _ _ Hfl) as (v & Hv & <-). exists c, v, g. split; [apply (vm_in _ _ _ _ _ _ Hm)|]. split; [done|]. split; [|done]. apply elem_of_concat. exists level. split; [by eapply list_elem_of_lookup_2|done].
Qed.

Lemma log_data_file k : 0 < k < 2 ^ 64 -> data_file dbname (log_name k).
Proof.
  intros Hk. assert (ParseFileName (decimal06 k ++ str ".log") = Some (k, kLogFile)) as Hp by (apply parse_log; lia). unfold MakeFileName. change (str "." ++ str "log") with (str ".log"). split; [|split].
  - unfold CurrentFileName. change (str "/CURRENT") with (str "/" ++ str "CURRENT"). by eapply name_neq.
  - intros j Hj. unfold manifest_name. eapply name_neq; [exact Hp|by apply ParseFileName_manifest; lia|done].
  - intros j tmp Hj. unfold TempFileName. rewrite (proj2 (Z.ltb_lt 0 j)) by lia. cbn [oassert obind]. intros [= <-]. unfold MakeFileName. change (str "." ++ str "dbtmp") with (str ".dbtmp"). eapply (name_neq _ _ _ _ (j, kTempFile)); [exact Hp| |done]. rewrite ParseFileName_number; [done|lia|by intros c [= <-]; left].
Qed.

(** ** An open database *)

(** Memory and disk agree on a version with the tables of the logs; the entries of the logs are exactly theirs; the last
    sequence number covers them; an empty log and memtable are ready. *)
Record opened_db (a : AbsVersion) (used : list (Z * Z)) (last : Z) (logs : list Z) d (ln : Z) (tables : list SavedTable) (parts : list (list entry_op)) : Prop := mkOpenedDb {
  od_inv : vset_inv (w_env (on_work d)) (w_versions (on_work d)) (abs_apply a (recovery_edit ln tables)) (used ++ edit_pairs (recovery_edit ln tables)) nobody;
  od_stored : Forall2 (stored (w_env (on_work d))) tables parts;
  od_entries : concat parts = batch_entries (all_batches batches logs);
  od_last : vs_last_sequence (w_versions (on_work d)) = Z.max last (max_number 0 (all_batches batches logs));
  od_log : vs_log_number (w_versions (on_work d)) = ln /\ vs_prev_log_number (w_versions (on_work d)) = 0 /\ Forall (fun k => k < ln) logs;
  od_ready : log_ready d ln;
  od_error : w_bg_error (on_work d) = OK;
}.

(** The edit is logged, and the obsolete files are deleted. *)
Lemma commit_recovery a used d ln tables parts : vset_inv (w_env (on_work d)) (w_versions (on_work d)) a used nobody -> vs_dbname (w_versions (on_work d)) = dbname -> Forall2 (stored (w_env (on_work d))) tables parts -> Forall table_good tables -> StronglySorted Z.lt (st_number <$> tables) ->
  (forall t p, t ∈ tables -> p ∈ used -> p.2 < st_number t) -> 0 <= vs_log_number (w_versions (on_work d)) <= ln -> 0 < ln < next (on_work d) -> next (on_work d) < 2 ^ 64 - 1 -> log_ready d ln -> w_bg_error (on_work d) = OK ->
  exists e1 vs1 edit1 s, LogAndApply (w_env (on_work d)) (w_versions (on_work d)) (recovery_edit ln tables) = Ret (e1, vs1, edit1, s) /\
    (s = OK -> exists w' work, let d1 := set_opening_work d (set_work_versions (set_work_env (on_work d) e1) vs1) in DeleteObsoleteFiles dbname (on_work d1) = Ret w' /\ NeedsCompaction (w_versions w') = Ret work /\
      vset_inv (w_env w') (w_versions w') (abs_apply a (recovery_edit ln tables)) (used ++ edit_pairs (recovery_edit ln tables)) nobody /\ Forall2 (stored (w_env w')) tables parts /\
      vs_last_sequence (w_versions w') = vs_last_sequence (w_versions (on_work d)) /\ vs_log_number (w_versions w') = ln /\ vs_prev_log_number (w_versions w') = 0 /\ log_ready (set_opening_work d1 w') ln /\ w_bg_error w' = OK).
Proof.
  intros Hinv Hdb Hst Hg Hso Hused Hlog Hln Hroom Hready Hbg. pose proof Hinv as [_ (l0 & c0 & Hm0) _ _]. assert (length a = Z.to_nat config.kNumLevels) as Hlen. { destruct (vm_files _ _ _ _ _ _ Hm0) as (fl & Hfl & Hden). destruct (vfiles_at _ _ _ Hfl) as (v & Hv & <-). rewrite <- (Forall2_length _ _ _ Hden). apply (lv_length _ (vi_levels _ _ _ _ _ (vm_versions _ _ _ _ _ _ Hm0) _ _ Hv)). }
  assert (edit_fits (w_versions (on_work d)) a used (recovery_edit ln tables)) as Hfit by (apply recovery_edit_fits; try done; [apply (vm_disjoint _ _ _ _ _ _ Hm0)|lia]).
  destruct (LogAndApply_spec _ _ _ _ _ _ Hinv Hfit) as (e1 & vs1 & s & Hla & Hdb1 & _ & Hgood & _). exists e1, vs1, (completed (w_versions (on_work d)) (recovery_edit ln tables)), s. split; [done|]. intros Hs. destruct (Hgood Hs) as (Hinv1 & Hlog1 & Hprev1 & Hlast1 & _ & Hdk & Hdl).
  pose proof Hinv1 as [_ (l & c & Hm) _ _]. rewrite Hdb in Hdb1, Hdk. set (d1 := set_opening_work d _). destruct (DeleteObsoleteFiles_spec dbname (on_work d1) _ _ _ l c Hinv1 Hm Hdb1 Hdl Hbg) as (e2 & tables2 & live & Hdel & Hlive & [_ Hkeep] & Hinv2 & _). cbn [d1 set_opening_work on_work set_work_versions set_work_env w_env w_versions w_pending_outputs w_bg_error] in *.
  assert (exists work, NeedsCompaction vs1 = Ret work) as (work & Hwork). { unfold NeedsCompaction, current_version. rewrite (vm_current _ _ _ _ _ _ Hm). destruct (vi_version _ _ _ _ _ c (vm_versions _ _ _ _ _ _ Hm) (vm_in _ _ _ _ _ _ Hm)) as (v & Hv & _). unfold version_at. rewrite Hv. cbn [obind]. by eexists. }
  eexists _, work. cbv zeta. split; [exact Hdel|]. cbn [w_env w_versions w_bg_error]. split; [done|]. split; [exact Hinv2|]. assert (vs_log_number vs1 = ln) as Hln1 by (rewrite Hlog1; done). split; [|split; [done|]; split; [done|]; split; [rewrite Hprev1; done|]; split; [|done]].
  - eapply stored_same; [|exact Hst]. intros t Ht. rewrite Forall_forall in Hg. destruct (Hg t Ht) as (Hn & _). rewrite (proj1 (Hkeep _ (table_kept dbname vs1 live (st_number t) Hn ltac:(apply Hlive; right; eapply tables_live; [exact Hm|done|by apply Forall_forall|done|done])))). by rewrite (proj1 (Hdk _ (table_data_file dbname _ Hn))).
  - destruct Hready as (h & R1 & R2 & R3 & R4 & R5 & R6). exists h. do 4 (split; [done|]). cbn [set_opening_work on_work w_env]. destruct (Hkeep _ (log_kept dbname vs1 live ln ltac:(lia) ltac:(left; lia))) as [Hkf Hkw], (Hdk _ (log_data_file ln ltac:(lia))) as [Hdf Hdw]. split; [auto|]. by rewrite Hkf, Hdf.
Qed.

Lemma db_Open_spec create cmp used a log prev nx last logs d M : disk_state (w_env (on_work d)) cmp used a log prev nx last logs -> fresh_db cmp d -> 0 <= log ->
  nx + 1 <= M -> Forall (fun k => k + 1 <= M) logs -> M + numbers_for batches logs < 2 ^ 64 - 2 ->
  exists d' scheduled s, db_Open (user_policy := user_policy) dbname o write_buffer_size create false build_fuel fuel d = Ret (d', scheduled, s) /\ (s = OK -> exists ln tables parts, opened_db a used last logs d' ln tables parts).
Proof.
  intros Hdk Hfd Hlog0 HM HMl Hroom. unfold db_Open. destruct (db_Recover_spec create cmp used a log prev nx last logs d M Hdk Hfd HM HMl ltac:(lia)) as (d1 & locked & save1 & edit1 & s1 & -> & Hok1). cbn [obind]. destruct (ok s1) eqn:Es1; cbn [andb].
  2:{ cbn [obind]. rewrite Es1. cbn [andb obind]. rewrite Es1. eexists _, _, _. split; [done|]. by intros ->. }
  apply ok_true in Es1 as ->. destruct (Hok1 eq_refl) as (-> & Hnx1 & tables & parts & Hrd). destruct (rd_none _ _ _ _ _ _ _ _ _ _ _ Hrd) as (-> & _). cbn [is_null]. assert (0 < nx) as Hpos by (destruct (dk_manifest _ _ _ _ _ _ _ _ _ Hdk) as (num & edits & _ & _ & _ & ?); lia).
  destruct (new_log_spec a used log prev nx last logs d1 edit1 tables parts Hrd ltac:(lia) ltac:(lia)) as (d2 & edit2 & s2 & -> & Hok2). cbn [obind]. destruct (ok s2) eqn:Es2; cbn [andb obind].
  2:{ rewrite Es2. eexists _, _, _. split; [done|]. by intros ->. }
  apply ok_true in Es2 as ->. destruct (Hok2 eq_refl) as (-> & Hready & Hinv2 & Hdb2 & Hst2 & Hnx2 & Hlast2 & Hlog2 & Hpe2 & Her2). set (ln := next (on_work d1)) in *. pose proof Hready as (h & _ & _ & _ & Hlnum & _). rewrite Hlnum, (rd_edit _ _ _ _ _ _ _ _ _ _ _ Hrd). fold (recovery_edit ln tables).
  pose proof (recovered_good _ _ _ _ _ _ _ _ _ _ _ _ Hrd (dk_logs _ _ _ _ _ _ _ _ _ Hdk) ltac:(lia) ltac:(lia)) as Hgood. pose proof (rd_numbers _ _ _ _ _ _ _ _ _ _ _ Hrd) as Hnums. pose proof (vi_numbers _ _ _ _ _ (rd_inv _ _ _ _ _ _ _ _ _ _ _ Hrd)) as Hvn. unfold vset_numbers in Hvn. rewrite (rd_log _ _ _ _ _ _ _ _ _ _ _ Hrd) in Hvn. fold ln in Hvn.
  destruct (commit_recovery a used d2 ln tables parts Hinv2 Hdb2 Hst2 Hgood (rd_sorted _ _ _ _ _ _ _ _ _ _ _ Hrd)) as (e3 & vs3 & edit3 & s3 & -> & Hok3); try done; try lia.
  { intros t p Ht Hp. rewrite Forall_forall in Hnums. specialize (Hnums t Ht). pose proof (dk_used _ _ _ _ _ _ _ _ _ Hdk p Hp). lia. }
  cbn [obind]. destruct (ok s3) eqn:Es3. 2:{ eexists _, _, _. split; [done|]. by intros ->. }
  apply ok_true in Es3 as ->. destruct (Hok3 eq_refl) as (w4 & work & Hdel & Hwork & Hinv4 & Hst4 & Hlast4 & Hlog4 & Hprev4 & Hready4 & Her4). rewrite Hdel. cbn [obind]. rewrite Hwork. cbn [obind]. assert (on_mem d2 = Some (MemTable.Ref new_MemTable)) as Hmem by (by destruct Hready as (? & ? & _)).
  cbn [on_mem set_opening_work]. rewrite Hmem. cbn [is_null negb oassert obind]. eexists _, _, _. split; [done|]. intros _. exists ln, tables, parts. split; try done.
  - apply Hrd.
  - cbn [on_work set_opening_work]. rewrite Hlast4, Hlast2. apply Hrd.
  - split; [done|]. split; [done|]. apply Hrd.
Qed.
End Whole.

(** ** The property *)

Section Property.
Context `{laws : ComparatorLaws} {user_policy : FilterPolicy} `{flaws : !FilterPolicyLaws} `{Crc32c} `{Compressors} `{lens : !@SeparatorLengths InternalKeyComparator} `{alaws : AllocatorLaws}.
Context {E FH TC : Type} `{vlaws : TableVerifierLaws TC E FH} `{dbdir : !DbDir E} `{ddlaws : !DbDirLaws E FH} `{dirs : !Directory E} `{evictor : !TableEvictor TC} `{evlaws : !TableEvictorLaws TC}.

End Property.

Section Witness.
#[local] Existing Instances BytewiseComparator BytewiseComparator_laws.
#[local] Existing Instance Recovery.portable.
#[local] Existing Instances CompactionRun.run_bloom CompactionRun.run_bloom_laws CompactionRun.run_compressors CompactionRun.MemHandle_eq_dec CompactionRun.small_disk CompactionRun.small_disk_laws CompactionRun.trusting CompactionRun.trusting_laws Arena.growing Arena.growing_laws Obsolete.no_cache Obsolete.no_cache_laws Flush.quota_directory.

#[local] Instance quota_dir : DbDir (Quota InMemoryEnv MemHandle) := {
  dir_create q _ := (q, OK);
  dir_lock q _ := (q, OK);
  file_exists q n := FileExists (q_env q) n;
  dir_list q dir := (OK, remove_dups (snd (GetChildren (q_env q) dir)));
}.

Lemma map_find_key (m : FileMap) n : is_Some (map_find m n) <-> n ∈ m.*1.
Proof.
  induction m as [|[k p] m IH]; [split; [by intros []|by intros ?%elem_of_nil]|]. rewrite map_find_cons. cbn. rewrite elem_of_cons, <- IH. destruct (decide (k = n)) as [->|Hne]; [split; [by left|by eexists]|]. split; [by right|]. intros [->|?]; done.
Qed.

Lemma mem_file e n : mem_ok e -> is_Some (mem_fs e n) <-> n ∈ (file_map_ e).*1.
Proof.
  intros He. rewrite <- map_find_key. unfold mem_fs. destruct (map_find (file_map_ e) n) as [p|] eqn:En; [|split; [by intros []|by intros []]]. destruct (mo_entry _ He n p En) as (a & f & -> & Ha & _). rewrite Ha. split; by eexists.
Qed.

Lemma child_name (dir filename name : bytes) : (if (zlen dir + 1 <=? zlen filename) && bool_decide (filename !! length dir = Some x2f) && starts_with filename dir then Some (zdrop (zlen dir + 1) filename) else None) = Some name <-> filename = dir ++ str "/" ++ name.
Proof.
  split.
  - destruct (_ && _ && _) eqn:Ec; [|done]. intros [= <-]. apply andb_true_iff in Ec as [[_ Hs]%andb_true_iff Hp]. apply bool_decide_eq_true in Hs. unfold starts_with in Hp. apply bool_decide_eq_true in Hp. rewrite <- (take_drop (length dir) filename) at 1. rewrite (drop_S _ _ _ Hs). unfold ztake, zlen in Hp. rewrite Nat2Z.id in Hp. rewrite Hp. unfold zdrop, zlen. by replace (Z.to_nat (Z.of_nat (length dir) + 1)) with (S (length dir)) by lia.
  - intros ->. assert ((zlen dir + 1 <=? zlen (dir ++ str "/" ++ name)) = true) as -> by (apply Z.leb_le; rewrite !zlen_app; change (zlen (str "/")) with 1; pose proof (zlen_nonneg name); lia).
    rewrite bool_decide_eq_true_2 by (by rewrite lookup_app_r, Nat.sub_diag by lia). unfold starts_with. rewrite ztake_app_len, bool_decide_eq_true_2 by done. cbn [andb]. rewrite app_assoc, zdrop_app_len; [done|]. by rewrite zlen_app.
Qed.

#[local] Instance quota_dir_laws : DbDirLaws (Quota InMemoryEnv MemHandle) MemHandle.
Proof.
  split.
  - intros q n q' s Hq [= <- <-]. by split.
  - intros q n q' s Hq [= <- <-]. split; [done|]. split; [done|by left].
  - intros q n Hq. cbn. unfold FileExists. rewrite (mem_file _ _ Hq), <- map_find_key. by destruct (map_find _ _); split.
  - intros q dir names Hq [= <-]. split; [apply NoDup_remove_dups|]. intros name r _. rewrite elem_of_remove_dups. cbn [GetChildren snd]. rewrite list_elem_of_omap. etrans; [|symmetry; exact (mem_file _ _ Hq)]. rewrite list_elem_of_fmap. split.
    + intros (p & Hp & Hn%child_name). exists p. by split.
    + intros (p & Hn & Hp). exists p. split; [done|]. by apply child_name.
Qed.

(** A new database whose first writes are in a log only. *)
Definition crashed_disk : outcome (InMemoryEnv * Status) :=
  let! (e, _) := NewDB (H := MemHandle) new_MemEnv (str "/db") (str "cmp") in
  WriteStringToFileSync (H := MemHandle) e (log_layout 0 [logged_batch]) (MakeFileName (str "/db") 3 "log").

Definition crashed_batches (k : Z) : list (Z * list batch_op) := [(7, logged_ops)].

Lemma crashed_state : exists e, crashed_disk = Ret (e, OK) /\ disk_state (str "/db") 10 1000 crashed_batches (mkQuota e [] : Quota InMemoryEnv MemHandle) (str "cmp") [] abs_empty 0 0 2 0 [3].
Proof.
  destruct (NewDB_spec (env_laws := MemEnv_laws) new_MemEnv (str "/db") (str "cmp") new_MemEnv_ok) as (e1 & s1 & Hnew & He1 & Hsaved); [by vm_compute|].
  destruct (WriteStringToFileSync_spec (laws := MemEnv_laws) e1 (log_layout 0 [logged_batch]) (MakeFileName (str "/db") 3 "log") He1) as (e & s & Hw & K & Hf).
  assert (match NewDB (H := MemHandle) new_MemEnv (str "/db") (str "cmp") with Ret (_, s) => s | _ => NotFound "" end = OK) as Hs1 by (vm_compute; reflexivity). rewrite Hnew in Hs1. subst s1.
  assert (match crashed_disk with Ret (e, s) => s = OK /\ (file_map_ e).*1 = [str "/db/000003.log"; str "/db/CURRENT"; str "/db/MANIFEST-000001"] /\ bool_decide (Forall (fun p => size_ p.2 < 1000) (map_to_list (states_ e))) = true | _ => False end) as Hrun by (vm_compute; repeat split).
  assert (crashed_disk = Ret (e, s)) as Hc by (unfold crashed_disk; rewrite Hnew; exact Hw). rewrite Hc in Hrun. destruct Hrun as (-> & Hkeys & Hsz). exists e. split; [exact Hc|]. clear Hc Hnew Hw. specialize (Hf eq_refl). specialize (Hsaved eq_refl). pose proof (keeps_ok _ _ _ K) as He. apply bool_decide_eq_true in Hsz. split.
  - exact He.
  - destruct Hsaved as (num & edits & Hd & Hrest). exists num, edits. split; [|exact Hrest]. assert (0 < num < 2 ^ 64) as Hn by (destruct Hrest as (_ & _ & ?); lia). apply (on_disk_frame e1 e); [| |exact Hd]; apply K.
    + by vm_compute.
    + apply not_eq_sym, (log_data_file (str "/db") 3); lia.
  - intros n img. apply (mem_enough_fuel 1000 e Hsz He).
  - intros p Hp. apply elem_of_nil in Hp. destruct Hp.
  - intros i n x. unfold abs_at. destruct (abs_empty !! i) as [m|] eqn:Em; [|discriminate]. unfold abs_empty in Em. apply lookup_replicate in Em as [-> _]. cbn. rewrite lookup_empty. discriminate.
  - apply Forall_singleton. split; [lia|]. exists (log_layout 0 [logged_batch]), [logged_batch]. split; [exact Hf|]. split; [apply log_reads_whole|]. split; [|split; [by vm_compute|cbn; lia]].
    split; [constructor; [by vm_compute|constructor]| | |split; [repeat constructor|by vm_compute]].
    + constructor; [|constructor]. split; [repeat constructor; by vm_compute|]. by vm_compute.
    + repeat constructor.
  - apply Forall_singleton. left. lia.
  - repeat constructor.
  - intros name k Hp Hs Hk. apply (mem_file e _ He) in Hs. rewrite Hkeys in Hs.
    assert (forall base, str "/db" ++ str "/" ++ name = str "/db" ++ str "/" ++ base -> name = base) as Hinj by (intros base Heq; by apply app_inv_head, app_inv_head in Heq).
    apply elem_of_cons in Hs as [Hs|Hs].
    { apply (Hinj (str "000003.log")) in Hs as ->. vm_compute in Hp. injection Hp as <-. split; [left|]. by vm_compute. }
    apply elem_of_cons in Hs as [Hs|Hs]; [apply (Hinj (str "CURRENT")) in Hs as ->; vm_compute in Hp; discriminate Hp|]. apply list_elem_of_singleton in Hs. apply (Hinj (str "MANIFEST-000001")) in Hs as ->. vm_compute in Hp. discriminate Hp.
Qed.

End Witness.
