(* ===== verification/Repair.v ===== *)
(** * Repairing a database

    [repair.cc]: [RepairDB] rebuilds the manifest of a database from the files in its directory. Every log becomes a
    table, every table is read through to find its range of keys and its largest sequence number, tables with errors are
    copied as far as they can be read, and a new manifest has all tables at level 0. Files that are not used any more are
    moved to a directory [lost]. *)

From stdpp Require Import gmap sorting sets.
From S2P Require Import Prelude Coding Env Crc32c Cache LogWriter LogReader LogCorrect Comparator DbFormat VersionEdit SkipList MemTable BlockBuilder Block BlockCorrect Format Filter FilterBlock Iterator Version VersionBuilder Filename FileSystem MemEnv LogSim DList VersionSet Manifest Recovery WriteBatch Compaction BlockIter TableBuilder DBIter MergingIterator TwoLevelIterator VersionGet Table TableCorrect TableRead TableCache TableOutput Flush LogRecovery Open.

Open Scope outcome_scope.

(** What the repairer asks of the table cache: an iterator over a table, and the release of it. *)
Class TableScanner (TC E I : Type) := {
  table_iterator : TC -> E -> ReadOptions -> Z -> Z -> outcome (TC * E * I);
  table_release : TC -> I -> outcome TC;
}.

(** The characters of a C string, up to the first NUL. *)
Fixpoint c_str (s : bytes) : bytes :=
  match s with
  | [] => []
  | c :: s => if bool_decide (c = x00) then [] else c :: c_str s
  end.

(** [strrchr]: the index of the last [c]. *)
Fixpoint strrchr (s : bytes) (c : byte) : option nat :=
  match s with
  | [] => None
  | b :: s => match strrchr s c with Some i => Some (S i) | None => if bool_decide (b = c) then Some O else None end
  end.

Record TableInfo := mkTableInfo { info_meta : FileMetaData; info_max_sequence : Z }.

(** The members of [Repairer]. *)
Record Repairer (E TC : Type) := mkRepairer {
  rr_env : E;
  rr_table_cache : TC;
  rr_edit : VersionEdit;
  rr_manifests : list bytes;
  rr_table_numbers : list Z;
  rr_logs : list Z;
  rr_tables : list TableInfo;
  rr_next_file_number : Z;
}.
Arguments mkRepairer {E TC} _ _ _ _ _ _ _ _.
Arguments rr_env {E TC} _.
Arguments rr_table_cache {E TC} _.
Arguments rr_edit {E TC} _.
Arguments rr_manifests {E TC} _.
Arguments rr_table_numbers {E TC} _.
Arguments rr_logs {E TC} _.
Arguments rr_tables {E TC} _.
Arguments rr_next_file_number {E TC} _.

Section Repairer.
Context {E FH TC I : Type} `{Env E FH} `{DbDir E} `{TableVerifier TC E} `{TableScanner TC E I} `{Iterator I} `{laws : ComparatorLaws} {user_policy : FilterPolicy} `{Crc32c} `{Compressors}.
Context (dbname : bytes) (options : TableOptions) (comparator : bytes).

(** [fuel] bounds the bytes of a log and the entries of a table, [build_fuel] the entries of a memtable. *)
Context (fuel build_fuel : nat).
Abbreviation Repairer := (Repairer E TC).
Abbreviation TableRep := (TableRep (OpenFile E FH)).

Definition new_Repairer (env : E) (tc : TC) : Repairer := mkRepairer env tc new_VersionEdit [] [] [] [] 1.

Definition set_repair_env (r : Repairer) (env : E) : Repairer :=
  mkRepairer env (rr_table_cache r) (rr_edit r) (rr_manifests r) (rr_table_numbers r) (rr_logs r) (rr_tables r) (rr_next_file_number r).

Definition set_repair_cache (r : Repairer) (tc : TC) : Repairer :=
  mkRepairer (rr_env r) tc (rr_edit r) (rr_manifests r) (rr_table_numbers r) (rr_logs r) (rr_tables r) (rr_next_file_number r).

Definition set_repair_files (r : Repairer) (manifests : list bytes) (table_numbers logs : list Z) (next : Z) : Repairer :=
  mkRepairer (rr_env r) (rr_table_cache r) (rr_edit r) manifests table_numbers logs (rr_tables r) next.

Definition push_table (r : Repairer) (t : TableInfo) : Repairer :=
  mkRepairer (rr_env r) (rr_table_cache r) (rr_edit r) (rr_manifests r) (rr_table_numbers r) (rr_logs r) (rr_tables r ++ [t]) (rr_next_file_number r).

(** [next_file_number_++]. *)
Definition take_number (r : Repairer) : Repairer * Z :=
  (set_repair_files r (rr_manifests r) (rr_table_numbers r) (rr_logs r) (u64 (rr_next_file_number r + 1)), rr_next_file_number r).

(** ** The directory *)

Definition find_file (r : Repairer) (filename : bytes) : Repairer :=
  match ParseFileName filename with
  | Some (_, kDescriptorFile) => set_repair_files r (rr_manifests r ++ [filename]) (rr_table_numbers r) (rr_logs r) (rr_next_file_number r)
  | Some (number, type) =>
      let next := if rr_next_file_number r <? u64 (number + 1) then u64 (number + 1) else rr_next_file_number r in
      match type with
      | kLogFile => set_repair_files r (rr_manifests r) (rr_table_numbers r) (rr_logs r ++ [number]) next
      | kTableFile => set_repair_files r (rr_manifests r) (rr_table_numbers r ++ [number]) (rr_logs r) next
      | _ => set_repair_files r (rr_manifests r) (rr_table_numbers r) (rr_logs r) next
      end
  | None => r
  end.

Definition FindFiles (r : Repairer) : Repairer * Status :=
  let '(status, filenames) := dir_list (rr_env r) dbname in
  if negb (ok status) then (r, status)
  else
    match filenames with
    | [] => (r, IOError (String.string_of_list_byte (dbname ++ str ": repair found no files")))
    | _ => (foldl find_file r filenames, status)
    end.

(** [dir/foo] is renamed to [dir/lost/foo]; errors are ignored. *)
Definition ArchiveFile (env : E) (fname : bytes) : E :=
  let slash := strrchr (c_str fname) x2f in
  let new_dir := match slash with Some i => take i fname | None => [] end ++ str "/lost" in
  let '(env, _) := dir_create env new_dir in
  let new_file := new_dir ++ str "/" ++ match slash with Some i => drop (S i) (c_str fname) | None => c_str fname end in
  fst (RenameFile env fname new_file).

(** ** Logs *)

(** The records that can be batches are added to the memtable; what a failed batch has added stays. *)
Fixpoint convert_loop (fuel : nat) (reader : Reader (OpenFile E FH)) (mem : MemTable) : outcome (Reader (OpenFile E FH) * MemTable) :=
  match fuel with
  | O => OutOfFuel
  | S fuel' =>
      let! (reader, record) := ReadRecord fuel reader in
      match record with
      | None => Ret (reader, mem)
      | Some record =>
          if zlen record <? 12 then convert_loop fuel' reader mem
          else
            let! batch := SetContents record in
            let! (mem, _) := InsertInto batch mem in
            convert_loop fuel' reader mem
      end
  end.

Definition ConvertLogToTable (r : Repairer) (log : Z) : outcome (Repairer * Status) :=
  let! logname := LogFileName dbname log in
  let '(env, status, lfile) := NewSequentialFile (rr_env r) logname in
  let r := set_repair_env r env in
  if negb (ok status) then Ret (r, status)
  else
    match lfile with
    | None => AssertFailed
    | Some lfile =>
        let! (reader, mem) := convert_loop fuel (new_Reader (mkOpen env lfile) true false 0) (MemTable.Ref new_MemTable) in
        let env := file_delete (of_env (file_ reader)) (of_handle (file_ reader)) in
        let (r, num) := take_number r in
        let meta := new_FileMetaData num 0 (mkInternalKey []) (mkInternalKey []) in
        let! (env, tc, _, meta, status) := BuildTable (user_policy := user_policy) build_fuel dbname env options (rr_table_cache r) (new_MemTableIterator mem) meta in
        let! _ := MemTable.Unref mem in
        let r := set_repair_cache (set_repair_env r env) tc in
        let numbers := if ok status && (0 <? file_size meta) then rr_table_numbers r ++ [number meta] else rr_table_numbers r in
        Ret (set_repair_files r (rr_manifests r) numbers (rr_logs r) (rr_next_file_number r), status)
    end.

(** Errors are ignored. *)
Fixpoint convert_logs (logs : list Z) (r : Repairer) : outcome Repairer :=
  match logs with
  | [] => Ret r
  | log :: logs =>
      let! logname := LogFileName dbname log in
      let! (r, _) := ConvertLogToTable r log in
      convert_logs logs (set_repair_env r (ArchiveFile (rr_env r) logname))
  end.

Definition ConvertLogFilesToTables (r : Repairer) : outcome Repairer := convert_logs (rr_logs r) r.

(** ** Tables *)

Definition NewTableIterator (r : Repairer) (env : E) (meta : FileMetaData) : outcome (TC * E * I) :=
  table_iterator (rr_table_cache r) env (mkReadOptions (to_paranoid_checks options) true) (number meta) (file_size meta).

(** The metadata of a table after one more key. *)
Definition scan_key (t : TableInfo) (empty : bool) (key : bytes) : TableInfo * bool :=
  match ParseInternalKey key with
  | None => (t, empty)
  | Some parsed =>
      let m := info_meta t in
      (mkTableInfo (set_meta m (file_size m) (if empty then DecodeFrom key else smallest m) (DecodeFrom key))
        (if info_max_sequence t <? pk_sequence parsed then pk_sequence parsed else info_max_sequence t), false)
  end.

Fixpoint scan_loop (fuel : nat) (iter : I) (t : TableInfo) (empty : bool) : outcome (I * TableInfo) :=
  match fuel with
  | O => OutOfFuel
  | S fuel =>
      if it_Valid iter then
        let! key := it_key iter in
        let (t, empty) := scan_key t empty key in
        let! iter := it_Next iter in
        scan_loop fuel iter t empty
      else Ret (iter, t)
  end.

(** The entries that can be read are added to the builder. *)
Fixpoint copy_loop (fuel : nat) (builder : TableRep) (iter : I) (counter : Z) : outcome (TableRep * I * Z) :=
  match fuel with
  | O => OutOfFuel
  | S fuel =>
      if it_Valid iter then
        let! key := it_key iter in
        let! value := it_value iter in
        let! builder := builder_Add (user_policy := user_policy) builder key value in
        let! iter := it_Next iter in
        copy_loop fuel builder iter (counter + 1)
      else Ret (builder, iter, counter)
  end.

(** The builder goes on in a file system that others have changed. *)
Definition set_builder_env (b : TableRep) (env : E) : TableRep := set_output b (mkOpen env (of_handle (t_file b))) (t_offset b) (t_status b).

(** The copy is finished and takes the place of the table. *)
Definition finish_copy (r : Repairer) (builder : TableRep) (file : FH) (copy : bytes) (t : TableInfo) (counter : Z) : outcome Repairer :=
  let! (builder, s, t) :=
    if counter =? 0 then let! builder := table_Abandon builder in Ret (builder, OK, t)
    else
      let! (builder, s) := builder_Finish (user_policy := user_policy) builder in
      let m := info_meta t in
      Ret (builder, s, if ok s then mkTableInfo (set_meta m (FileSize builder) (smallest m) (largest m)) (info_max_sequence t) else t) in
  let! _ := delete_TableBuilder builder in
  let env := of_env (t_file builder) in
  let '(env, s) := if ok s then file_Close env file else (env, s) in
  let env := file_delete env file in
  let! (r, s) :=
    if (0 <? counter) && ok s then
      let! orig := TableFileName dbname (number (info_meta t)) in
      let '(env, s) := RenameFile env copy orig in
      let r := set_repair_env r env in
      Ret (if ok s then push_table r t else r, s)
    else Ret (set_repair_env r env, s) in
  Ret (if negb (ok s) then set_repair_env r (fst (RemoveFile (rr_env r) copy)) else r).

Definition RepairTable (r : Repairer) (src : bytes) (t : TableInfo) : outcome Repairer :=
  let (r, num) := take_number r in
  let! copy := TableFileName dbname num in
  let '(env, s, file) := NewWritableFile (rr_env r) copy in
  let r := set_repair_env r env in
  if negb (ok s) then Ret r
  else
    match file with
    | None => AssertFailed
    | Some file =>
        let! builder := new_builder (user_policy := user_policy) options env file in
        let! (tc, env, iter) := NewTableIterator r env (info_meta t) in
        let! iter := it_SeekToFirst iter in
        let! (builder, iter, counter) := copy_loop fuel (set_builder_env builder env) iter 0 in
        let! tc := table_release tc iter in
        let builder := set_builder_env builder (ArchiveFile (of_env (t_file builder)) src) in
        finish_copy (set_repair_cache r tc) builder file copy t counter
    end.

(** The file of a table under its name or under the name older releases gave it: the status, the size and the name. *)
Definition find_table (env : E) (num : Z) : outcome (Status * Z * bytes) :=
  let! fname := TableFileName dbname num in
  let '(status, size) := GetFileSize env fname in
  if negb (ok status) then
    let! fname := SSTTableFileName dbname num in
    let '(s2, size) := GetFileSize env fname in
    Ret (if ok s2 then OK else status, size, fname)
  else Ret (status, size, fname).

Definition ScanTable (r : Repairer) (num : Z) : outcome Repairer :=
  let! (status, size, fname) := find_table (rr_env r) num in
  let t := mkTableInfo (new_FileMetaData num size (mkInternalKey []) (mkInternalKey [])) 0 in
  if negb (ok status) then
    let! name := TableFileName dbname num in
    let! sst := SSTTableFileName dbname num in
    Ret (set_repair_env r (ArchiveFile (ArchiveFile (rr_env r) name) sst))
  else
    let! (tc, env, iter) := NewTableIterator r (rr_env r) (info_meta t) in
    let! iter := it_SeekToFirst iter in
    let! (iter, t) := scan_loop fuel iter t true in
    let status := if negb (ok (it_status iter)) then it_status iter else status in
    let! tc := table_release tc iter in
    let r := set_repair_cache (set_repair_env r env) tc in
    if ok status then Ret (push_table r t) else RepairTable r fname t.

Fixpoint scan_tables (numbers : list Z) (r : Repairer) : outcome Repairer :=
  match numbers with
  | [] => Ret r
  | num :: numbers => let! r := ScanTable r num in scan_tables numbers r
  end.

Definition ExtractMetaData (r : Repairer) : outcome Repairer := scan_tables (rr_table_numbers r) r.

(** ** The manifest *)

Definition largest_sequence (tables : list TableInfo) : Z :=
  foldl (fun m t => if m <? info_max_sequence t then info_max_sequence t else m) 0 tables.

Definition add_info (edit : VersionEdit) (t : TableInfo) : VersionEdit :=
  let m := info_meta t in AddFile 0 (number m) (file_size m) (smallest m) (largest m) edit.

Definition descriptor_edit (r : Repairer) : VersionEdit :=
  foldl add_info (SetLastSequence (largest_sequence (rr_tables r)) (SetNextFile (rr_next_file_number r) (SetLogNumber 0 (SetComparatorName comparator (rr_edit r))))) (rr_tables r).

Definition WriteDescriptor (r : Repairer) : outcome (Repairer * Status) :=
  let! tmp := TempFileName dbname 1 in
  let '(env, status, file) := NewWritableFile (rr_env r) tmp in
  if negb (ok status) then Ret (set_repair_env r env, status)
  else
    match file with
    | None => AssertFailed
    | Some file =>
        let edit := descriptor_edit r in
        let! record := EncodeTo edit [] in
        let! (env, _, status) := log_AddRecord env (mkWriter file 0 InitTypeCrc) record in
        let '(env, status) := if ok status then file_Close env file else (env, status) in
        let env := file_delete env file in
        let! (env, status) :=
          if negb (ok status) then Ret (fst (RemoveFile env tmp), status)
          else
            let env := foldl (fun env m => ArchiveFile env (dbname ++ str "/" ++ m)) env (rr_manifests r) in
            let! manifest := DescriptorFileName dbname 1 in
            let '(env, status) := RenameFile env tmp manifest in
            if ok status then SetCurrentFile env dbname 1 else Ret (fst (RemoveFile env tmp), status) in
        Ret (mkRepairer env (rr_table_cache r) edit (rr_manifests r) (rr_table_numbers r) (rr_logs r) (rr_tables r) (rr_next_file_number r), status)
    end.

Definition repair_Run (r : Repairer) : outcome (Repairer * Status) :=
  let (r, status) := FindFiles r in
  if ok status then
    let! r := ConvertLogFilesToTables r in
    let! r := ExtractMetaData r in
    WriteDescriptor r
  else Ret (r, status).

Definition RepairDB (env : E) (tc : TC) : outcome (Repairer * Status) := repair_Run (new_Repairer env tc).
End Repairer.
